(* ===== verification/_CoqProject ===== *)
-Q . S2P
Prelude.v
GoStrings.v
GoRegexp.v
GoTime.v
GoSha256.v
Domain.v
NeedsGraph.v
CycleCheck.v
ValidateNeeds.v
GateGraph.v
CacheKey.v
Schema.v
Extends.v
ParseHelpers.v
ParseJob.v
Parse.v
GoDuration.v
Emit.v
EmitProps.v
Sessions.v
Compliance.v
Governance.v
Deploy.v
Approvals.v
Watcher.v
Locks.v
Lanes.v
LaneProps.v
LaneMarkers.v
LaneOrder.v
RunTables.v
RunOps.v
Needs.v
Scheduler.v
RunInv.v
RunKeeps.v
RunWorld.v
Matrix.v
Refs.v
RefsExact.v
Assignment.v
Claims.v
Dispatch.v
RunCreate.v
RunProps.v
Supersede.v
Outbox.v
LogBatcher.v
LogBroker.v
AgentCleanup.v
AgentDrain.v
GoHmac.v
GitHubHook.v
GitLabHook.v
BitbucketHook.v
Modifications.v
Ledger.v
MergeGroup.v
Triggers.v
TriggerProps.v
FanOut.v
Webhook.v
GitHubApp.v
WebhookProps.v
Profiles.v
PRHead.v
RunLive.v
RunStuck.v
