(* ===== verification/Prelude.v ===== *)
(** * A verification of the gocdnext server core

    gocdnext is a CI/CD server: a pipeline file (or a policy) becomes a
    [domain.Pipeline], a trigger turns the pipeline into the rows of a run, a
    scheduler dispatches its jobs to connected agents, results cascade into stages
    and the run, gates wait for humans, and native deploys are watched until they
    converge.  This library models that path in the language of the code and proves
    what makes it correct.  Everything below [src/] is Go; a name in square brackets
    is a Go function unless a file of this library declares it.

    ** Foundations

    [Prelude] (this file): Go results, folds with errors, deduplication, stable
    sorting, maps in arbitrary range order ([MapRange]), 32-bit wrap-around, tactics
    and hints.  [GoStrings], [GoRegexp], [GoTime], [GoSha256]: the functions of Go's
    library the code calls, over byte strings.  [Domain]: [server/pkg/domain].

    ** From a file to a pipeline

    [Schema] (decoded YAML), [Extends], [ParseHelpers], [ParseJob], [Parse]:
    [server/pkg/parser].  [NeedsGraph], [CycleCheck], [ValidateNeeds]: the two graph
    validators, correct against reachability.  [GateGraph]: [pkg/domain/gategraph.go],
    the must-pass-before order, which gates govern a deploy and which are ready.
    [CacheKey]: [proto/cachekey].  Theorems: an accepted file has distinct jobs in
    declared stages with acyclic, never forward needs and no reserved names; gates
    and deploys of an accepted job are well formed; resolution of extends is the
    nearest-first reference; cache keys are safe.  YAML decoding is a parameter.
    [GoDuration]: [time.Duration.String], read back by [ParseDuration].  [Emit]:
    [emit.go], a pipeline becomes a file again, up to the YAML encoder; [EmitProps]:
    the parser reads that file back as the same pipeline.

    ** Policies

    [Compliance]: the merge of enforced policies ([pkg/compliance]).  [Governance]:
    the registry and the definitions stored for each project
    ([store/compliance*.go], [store/projects.go]), as transactions.  Theorems: no
    governed pipeline escapes a policy, in the merge and in every reachable store.

    ** From a pipeline to rows

    [Matrix]: [expandMatrix], the row key and the two readers of keys, up to the
    table of outputs a downstream job reads: every row exists once and is found
    again.  [RunCreate]: [insertRunRowsTx] and its parts; a run is created exactly when the
    definition can be materialised and is then the reference layout, which is fresh
    and orderly - the assumptions of the run engine.

    ** The run engine

    [RunTables]: the rows of one run and the SQL statements on them, with
    [cascadeAfterJobCompletion].  [RunOps]: the transactions ([results.go],
    [dispatch.go], [native_deploy.go], [deploy_watches.go], [runs_actions.go],
    [sweeper.go], [disruption.go], [approvals.go], [supersede.go],
    [approval_expiry.go]).  [Needs]: the needs gate ([scheduler/needs.go]).
    [Scheduler]: one tick ([dispatchRun]), statement by statement.  [RunInv],
    [RunKeeps]: what transactions preserve.  [RunWorld]: the step relation of a run
    under any interleaving of all these calls, where each of any number of ticks may
    be interrupted between two statements and may hold a stale read.  [RunProps]: a
    green run is green, nothing starts before its needs and earlier stages, what has
    ended stays, the exact effect of a result and the exact verdict of the needs
    gate.  [RunLive]: a run is stuck on nothing but its notifications.  [RunStuck]:
    three executions after which a run is: a gate decided early, a job rerun, and a
    notification, which no tick can dispatch.

    [Supersede]: the pass that clears older runs from a lane ([store/supersede.go]),
    over the rows of all runs: it clears exactly the runs it should.  [Outbox]: what an
    ended run still owes the outside - stop frames, service cleanup, audit - as workers
    that claim, act and mark ([scheduler/*_effects.go]); a worker is a tree of calls, and
    anything may happen between two of them.  No cleanup reaches a revived run, an entry
    always drains, and what a mark without a generation loses.

    ** From a row to an agent

    [Refs], [RefsExact]: [pkg/refs] and [scheduler/refs*.go], reference substitution over the regular
    expressions of [GoRegexp]: exact, and it leaks nothing a text does not name.
    [Assignment]: [BuildAssignment] with the platform variables ([civars.go]): which
    layer each variable comes from, what is masked, what isolates a compliance job.
    [Claims]: the claims of a job's token and its subject, which cannot be forged.
    [Dispatch]: everything the loop of [dispatchRun] does for one job between the needs
    gate and the claim - freezes, native takeover, resolvers, build cache, deploy guard
    - with the services it asks as a record of functions; [prep_of] turns its outcome
    into the answer the tick of [Scheduler] takes.  Dispatch fails closed.

    ** From an event to a run

    [GoHmac] (HMAC-SHA256), [GitHubHook], [GitLabHook], [BitbucketHook]: the signatures
    and events of the three providers ([internal/webhook/github] and its siblings), up to
    JSON decoding.  [Modifications]: the rows a trigger writes and the two statements of
    a fan-out ([store/modifications.go], [webhook/fanout.go], [store/pr_head_run.go]).
    [Ledger]: deliveries of any number of servers interleaved statement by statement:
    at most one run for a revision besides reruns of it, and none for a modification
    whose run was refused.
    [MergeGroup]: merge queues and reruns ([store/merge_group*.go],
    [store/app_deliveries.go]): an abandoned group has no run in progress that was not
    asked for again, a group has one run per pipeline and material, and a delivery of the
    GitHub App reruns at most once.  [GitHubApp]: the endpoint of the App over them
    ([webhook/github_app.go], [webhook/merge_group.go]): nothing happens unsigned, and a
    group's checks are asked for exactly, whatever a failed delivery left.  [FanOut]: what one fan-out leaves.  [Webhook]: the endpoints, from the signature to
    the answer ([webhook/*.go]); [WebhookProps]: a signed push fires exactly what is due,
    nothing changes without the secret of the repository, a pull request's own
    configuration runs only where it is trusted.  [Profiles]: runner profiles and
    clusters resolved into a pipeline ([store/profile_resolve.go],
    [store/cluster_resolve.go]).  [PRHead]: the definition a pull request's head is
    run with ([store/pr_head_run.go]): policies, caps and the base's envelope hold for
    it.  [Triggers]: the poller, cron, schedules and manual runs ([internal/polling],
    [internal/cron], [store/runs_actions.go]); [TriggerProps]: a tick polls exactly what
    is due, and what polls, cron ticks and schedules repeat or pick up.

    ** Agents, approvals, deploys

    [Sessions]: the session table of [grpcsrv/sessions.go] as a heap of session
    objects shared by aliases.  [Approvals]: authorisation, votes, quorum, freezes
    and expiry, each call split at its locks.  [Deploy]: the pure decisions of
    [internal/deploy].  [Watcher]: leases, claims, orders, the rollout gate and
    finalisation ([internal/deploysvc], [store/deploy_watches.go],
    [store/rollout_gate*.go]).

    [LogBatcher]: the agent's log batching as its two goroutines over one bounded
    channel ([agent/internal/rpc/log_batcher.go]): every line is sent, dropped and
    counted, or still held, and memory stays bounded.  [AgentCleanup]: the queue of
    service cleanups of the agent; [AgentDrain]: its graceful drain, jobs, writer and
    reader interleaved ([rpc/client.go], [rpc/drain.go]).  [LogBroker]: the server's live
    log broker ([logstream/broker.go]), publishers and leaving browsers interleaved; it
    also shows the one way a publish panics.

    ** Several runs at once

    [Locks]: the keys of the advisory locks and their order.  [Lanes]: approvals of
    several gates, dispatches under the deploy guard and freezes, over several runs,
    each call taking its locks one by one and dying anywhere ([gatepass.go],
    [deployments.go], [approvals*.go], [environment_freeze*.go], [scheduler.go]).
    [LaneProps]: frames, the lock table, freezes hold.  [LaneMarkers]: the markers are
    exact.  [LaneOrder]: the latest run wins, the calls never deadlock, and what a
    change of the supersede mode breaks.  The flags of [Lanes.act] say whether reruns
    and re-applied pipelines are part of the histories a theorem covers.

    ** Conventions

    An error is [Err] and leaves the state of a transaction unchanged (rollback).
    A state machine is an inductive [step] with [reachable]; an executable function
    of the same calls runs the examples.  Database identifiers are [N]; the nth row
    of a table gets the identifier an injective parameter says.  Fuel: searches of
    the needs graph get the number of jobs, and are proved never to run out; a tick
    gets two steps and four per listed job ([tick_fuel]), proved enough; decimal
    printing gets 64 digits.  Machine integers are [Z] with [wrap32] where the
    code converts.

    ** Not modelled

    Request decoding, rendering and authentication of the HTTP API, the UI, the command
    line client, plugins: I/O around the modelled calls.  The agent's container engines
    and its runner: their effects are those of Docker and Kubernetes, which are not in
    the repository.  Artifact, cache and log storage, secret stores and ciphers: the
    decisions are the backends'.  The reporting of checks and statuses to GitHub: API calls
    ([CreateCheck] is a parameter of [GitHubApp]).  Read models and dashboards: queries without decisions.
    Generated code; YAML, JSON, glob and Kubernetes libraries (parameters); metrics and
    logging. *)

From stdpp Require Export base tactics option list gmap fin_sets fin_map_dom strings sorting relations.
From Stdlib Require Export ZArith Lia.
From Stdlib Require Ascii.
Export (notations) Stdlib.Strings.Ascii.

(** ** Go results *)

(** A Go function returning [(T, error)]: [Ok] is a nil error. *)
Inductive result (E A : Type) : Type :=
| Ok (a : A)
| Err (e : E).
Arguments Ok {E A} a.
Arguments Err {E A} e.

#[export] Instance result_ret {E} : MRet (result E) := fun A a => Ok a.
#[export] Instance result_bind {E} : MBind (result E) := fun A B f m =>
  match m with Ok a => f a | Err e => Err e end.
#[export] Instance result_fmap {E} : FMap (result E) := fun A B f m =>
  match m with Ok a => Ok (f a) | Err e => Err e end.

#[export] Instance result_eq_dec {E A} `{EqDecision E, EqDecision A} :
  EqDecision (result E A).
Proof. solve_decision. Defined.

Definition is_ok {E A} (r : result E A) : bool :=
  match r with Ok _ => true | Err _ => false end.

Definition map_err {E F A} (f : E -> F) (r : result E A) : result F A :=
  match r with Ok a => Ok a | Err e => Err (f e) end.

(** [if !b { return e }]. *)
Definition check {E} (b : bool) (e : E) : result E unit := if b then Ok tt else Err e.

Section Results.
Context {E A B : Type}.

Lemma bind_Ok (m : result E A) (f : A -> result E B) b :
  (m ≫= f) = Ok b <-> exists a, m = Ok a /\ f a = Ok b.
Proof. destruct m; simpl; naive_solver. Qed.

Lemma bind_Err (m : result E A) (f : A -> result E B) e :
  (m ≫= f) = Err e <-> m = Err e \/ exists a, m = Ok a /\ f a = Err e.
Proof. destruct m; simpl; naive_solver. Qed.
End Results.

Lemma check_Ok {E} b (e : E) : check b e = Ok tt <-> b = true.
Proof. by destruct b. Qed.

(** [for _, x := range l { if err := f(x); err != nil { return err } }]. *)
Section CheckAll.
Context {E A : Type} (f : A -> result E unit).

Fixpoint check_all (l : list A) : result E unit :=
  match l with
  | [] => Ok tt
  | x :: l => match f x with Ok _ => check_all l | Err e => Err e end
  end.

Lemma check_all_Ok l : check_all l = Ok tt <-> Forall (fun x => f x = Ok tt) l.
Proof.
  induction l as [|x l IH]; simpl; [by split|].
  rewrite Forall_cons. destruct (f x) as [[]|]; naive_solver.
Qed.

(** The error reported is that of the first offending element. *)
Lemma check_all_Err l e :
  check_all l = Err e <->
  exists l1 x l2, l = l1 ++ x :: l2 /\ Forall (fun y => f y = Ok tt) l1 /\ f x = Err e.
Proof.
  split.
  - induction l as [|x l IH]; simpl; [done|].
    destruct (f x) as [[]|e'] eqn:Hx; intros H.
    + destruct (IH H) as (l1 & y & l2 & -> & Hl1 & Hy).
      exists (x :: l1), y, l2. split; [done|]. split; [by constructor|done].
    + simplify_eq. exists [], x, l. split; [done|]. split; [constructor|done].
  - intros (l1 & x & l2 & -> & Hl1 & Hx).
    induction Hl1 as [|y l1 Hy Hl1 IH]; simpl; [by rewrite Hx|by rewrite Hy].
Qed.
End CheckAll.

(** [for _, x := range l { y, err := f(x); if err != nil { return err }; out = append(out, y) }]. *)
Section MapAll.
Context {E A B : Type} (f : A -> result E B).

Fixpoint map_all (l : list A) : result E (list B) :=
  match l with
  | [] => Ok []
  | x :: l => match f x with Ok y => cons y <$> map_all l | Err e => Err e end
  end.

Lemma map_all_Ok l k : map_all l = Ok k <-> Forall2 (fun x y => f x = Ok y) l k.
Proof.
  revert k. induction l as [|x l IH]; intros k; simpl.
  - split; [intros [= <-]; constructor|by intros ->%Forall2_nil_inv_l].
  - split.
    + destruct (f x) as [y|] eqn:Hx; [|done]. destruct (map_all l) as [k'|]; [|done].
      intros [= <-]. constructor; [done|]. by apply IH.
    + intros (y & k' & Hx & Hk & ->)%Forall2_cons_inv_l. apply IH in Hk. by rewrite Hx, Hk.
Qed.

(** The error reported is that of the first offending element. *)
Lemma map_all_Err l e :
  map_all l = Err e <->
  exists l1 x l2, l = l1 ++ x :: l2 /\ Forall (fun y => is_ok (f y) = true) l1 /\ f x = Err e.
Proof.
  split.
  - induction l as [|x l IH]; simpl; [done|]. destruct (f x) as [y|e'] eqn:Hx.
    + destruct (map_all l) as [k|e']; [done|]. intros [= ->]. destruct (IH eq_refl) as (l1 & z & l2 & -> & Hl1 & Hz).
      exists (x :: l1), z, l2. split; [done|]. split; [|done]. constructor; [by rewrite Hx|done].
    + intros [= <-]. exists [], x, l. split; [done|]. split; [constructor|done].
  - intros (l1 & x & l2 & -> & Hl1 & Hx). induction Hl1 as [|y l1 Hy Hl1 IH]; simpl; [by rewrite Hx|].
    destruct (f y); [|done]. by rewrite IH.
Qed.
End MapAll.

(** [for _, x := range l { s, err = f(s, x); if err != nil { return err } }]. *)
Section FoldAll.
Context {E A S : Type} (f : S -> A -> result E S).

Fixpoint fold_all (s : S) (l : list A) : result E S :=
  match l with
  | [] => Ok s
  | x :: l => match f s x with Ok s => fold_all s l | Err e => Err e end
  end.

(** An invariant of the body holds of the result. *)
Lemma fold_all_inv (P : S -> Prop) s l s' :
  P s -> (forall s x s', x ∈ l -> P s -> f s x = Ok s' -> P s') -> fold_all s l = Ok s' -> P s'.
Proof.
  revert s. induction l as [|x l IH]; intros s Hs Hf; simpl; [by intros [= <-]|].
  destruct (f s x) as [s1|] eqn:Hx; [|done]. apply IH; [|set_solver].
  eapply Hf; [|done..]. set_solver.
Qed.
End FoldAll.

Lemma Forall2_member_l {A B} (R : A -> B -> Prop) l k x :
  Forall2 R l k -> x ∈ l -> exists y, y ∈ k /\ R x y.
Proof.
  intros Hlk [i Hi]%list_elem_of_lookup. destruct (Forall2_lookup_l _ _ _ _ _ Hlk Hi) as (y & Hy & ?).
  exists y. split; [by eapply list_elem_of_lookup_2|done].
Qed.
Lemma Forall2_member_r {A B} (R : A -> B -> Prop) l k y :
  Forall2 R l k -> y ∈ k -> exists x, x ∈ l /\ R x y.
Proof.
  intros Hlk [i Hi]%list_elem_of_lookup. destruct (Forall2_lookup_r _ _ _ _ _ Hlk Hi) as (x & Hx & ?).
  exists x. split; [by eapply list_elem_of_lookup_2|done].
Qed.

(** ** Ranging over a map *)

(** Go ranges over a map in an unspecified order: definitions that range take
    the order from this class, and theorems hold for every instance. *)
Class MapRange := {
  range_map : forall {V}, gmap string V -> list (string * V);
  range_map_perm : forall V (m : gmap string V), range_map m ≡ₚ map_to_list m;
}.

Lemma elem_of_range_map `{MapRange} {V} (m : gmap string V) k v :
  (k, v) ∈ range_map m <-> m !! k = Some v.
Proof. rewrite (range_map_perm V m). apply elem_of_map_to_list. Qed.

Lemma NoDup_range_map `{MapRange} {V} (m : gmap string V) : NoDup (range_map m).*1.
Proof. rewrite (range_map_perm V m). apply NoDup_fst_map_to_list. Qed.

Lemma range_map_list_to_map `{MapRange} {V} (m : gmap string V) : list_to_map (range_map m) = m.
Proof.
  rewrite <-(list_to_map_to_list m) at 2. apply list_to_map_proper;
    [apply NoDup_range_map|apply range_map_perm].
Qed.

(** The order of the map library, for evaluation. *)
Definition library_range : MapRange := {|
  range_map := fun V m => map_to_list m;
  range_map_perm := fun V m => reflexivity _;
|}.

(** ** Loops over slices that keep the first occurrence *)

(** [if _, dup := seen[x]; !dup { seen[x] = ...; out = append(out, x) }] run
    over a slice, from a given [seen] set. *)
Fixpoint dedup_from (seen : gset string) (l : list string) : list string :=
  match l with
  | [] => []
  | x :: l =>
      if decide (x ∈ seen) then dedup_from seen l
      else x :: dedup_from ({[x]} ∪ seen) l
  end.
Definition dedup (l : list string) : list string := dedup_from ∅ l.

Lemma elem_of_dedup_from seen l x :
  x ∈ dedup_from seen l <-> x ∈ l /\ x ∉ seen.
Proof.
  revert seen. induction l as [|y l IH]; intros seen; simpl; [set_solver|].
  case_decide; rewrite ?elem_of_cons, IH; [naive_solver|].
  rewrite not_elem_of_union, not_elem_of_singleton.
  destruct (decide (x = y)); naive_solver.
Qed.

Lemma NoDup_dedup_from seen l : NoDup (dedup_from seen l).
Proof.
  revert seen. induction l as [|y l IH]; intros seen; simpl; [constructor|].
  case_decide; [done|]. constructor; [|done]. rewrite elem_of_dedup_from. set_solver.
Qed.

Lemma elem_of_dedup l x : x ∈ dedup l <-> x ∈ l.
Proof. unfold dedup. rewrite elem_of_dedup_from. set_solver. Qed.

Lemma NoDup_dedup l : NoDup (dedup l).
Proof. apply NoDup_dedup_from. Qed.

(** ** [sort.Strings] *)

(** Go's [<] on strings and the order it sorts by. *)
Lemma ltb_leb s t : String.ltb s t = true -> String.le s t.
Proof. unfold String.ltb, String.le, String.leb. by destruct (String.compare s t). Qed.
Lemma ltb_false s t : String.ltb s t = false <-> String.le t s.
Proof.
  unfold String.ltb, String.le, String.leb. rewrite (String.compare_antisym t).
  by destruct (String.compare s t).
Qed.

Definition sort_strings (l : list string) : list string := merge_sort String.le l.

Lemma elem_of_sort_strings l x : x ∈ sort_strings l <-> x ∈ l.
Proof. unfold sort_strings. by rewrite (merge_sort_Permutation String.le l). Qed.

Lemma NoDup_sort_strings l : NoDup (sort_strings l) <-> NoDup l.
Proof. unfold sort_strings. by rewrite (merge_sort_Permutation String.le l). Qed.

Lemma Sorted_sort_strings l : Sorted String.le (sort_strings l).
Proof. apply Sorted_merge_sort, _. Qed.

Lemma sort_strings_unique l k :
  (forall x, x ∈ l <-> x ∈ k) -> NoDup l -> NoDup k -> sort_strings l = sort_strings k.
Proof.
  intros Hlk Hl Hk. apply (Sorted_unique String.le); try apply Sorted_sort_strings.
  unfold sort_strings. rewrite !merge_sort_Permutation.
  by apply NoDup_Permutation.
Qed.

(** Appending to a slice what it does not hold yet: the [seen] map of a Go loop. *)
Definition append_new `{EqDecision A} (seen l : list A) : list A :=
  foldl (fun s x => if decide (x ∈ s) then s else s ++ [x]) seen l.
Lemma elem_of_append_new `{EqDecision A} (seen l : list A) x : x ∈ append_new seen l <-> x ∈ seen \/ x ∈ l.
Proof.
  unfold append_new. revert seen. induction l as [|y l IH]; intros seen; simpl; [set_solver|]. rewrite IH.
  case_decide; set_solver.
Qed.

(** ** [sort.SliceStable] *)

(** The stable sort of a slice by a less-than function.  Its result is fixed by
    what the library promises (ordered, and equal elements keep their order), so
    insertion sort stands for it. *)
Section StableSort.
Context {A : Type} (lt : A -> A -> bool).

Fixpoint stable_insert (x : A) (l : list A) : list A :=
  match l with
  | [] => [x]
  | y :: l' => if lt y x then y :: stable_insert x l' else x :: l
  end.
Definition stable_sort (l : list A) : list A := foldr stable_insert [] l.

Lemma stable_insert_perm x l : stable_insert x l ≡ₚ x :: l.
Proof.
  induction l as [|y l IH]; simpl; [done|]. destruct (lt y x); [|done].
  rewrite IH. apply Permutation_swap.
Qed.
Lemma stable_sort_perm l : stable_sort l ≡ₚ l.
Proof. induction l as [|x l IH]; simpl; [done|]. by rewrite stable_insert_perm, IH. Qed.

(** [x] may stand before [y]. *)
Definition sort_le (x y : A) : Prop := lt y x = false.

Hypothesis lt_asym : forall x y, lt x y = true -> lt y x = false.
Hypothesis le_trans : forall x y z, lt y x = false -> lt z y = false -> lt z x = false.

Lemma stable_insert_sorted x l :
  StronglySorted sort_le l -> StronglySorted sort_le (stable_insert x l).
Proof.
  induction 1 as [|y l Hs IH Hy]; simpl; [by repeat constructor|].
  destruct (lt y x) eqn:Hyx.
  - constructor; [done|]. rewrite stable_insert_perm. constructor; [by apply lt_asym|done].
  - constructor; [by constructor|]. constructor; [done|].
    eapply Forall_impl; [exact Hy|]. intros z Hz. by apply (le_trans x y z).
Qed.
Lemma stable_sort_sorted l : StronglySorted sort_le (stable_sort l).
Proof. induction l as [|x l IH]; simpl; [constructor|by apply stable_insert_sorted]. Qed.

(** When no two elements are tied the order of the input does not matter. *)
Lemma stable_sort_unique l k :
  l ≡ₚ k -> (forall x y, x ∈ l -> y ∈ l -> lt x y = false -> lt y x = false -> x = y) ->
  stable_sort l = stable_sort k.
Proof.
  intros Hp Hu. apply (StronglySorted_unique_strong sort_le); try apply stable_sort_sorted.
  - intros x y. rewrite (stable_sort_perm l), (stable_sort_perm k), <-Hp. intros ????. by apply Hu.
  - by rewrite !stable_sort_perm.
Qed.
End StableSort.

(** ** Finite strict orders *)

(** A stronger filter that drops an element is shorter. *)
Lemma length_filter_strict {A} (P Q : A -> Prop) `{forall x, Decision (P x), forall x, Decision (Q x)}
    (l : list A) x :
  (forall y, y ∈ l -> Q y -> P y) -> x ∈ l -> P x -> ~ Q x ->
  length (filter Q l) < length (filter P l).
Proof.
  assert (Hle : forall l, (forall y, y ∈ l -> Q y -> P y) ->
      length (filter Q l) <= length (filter P l)).
  { clear l. induction l as [|y l IH]; intros HQP; [done|]. rewrite !filter_cons.
    assert (length (filter Q l) <= length (filter P l)) by (apply IH; set_solver).
    repeat case_decide; simpl; try lia. exfalso. set_solver. }
  induction l as [|y l IH]; intros HQP Hx Px Qx; [by apply elem_of_nil in Hx|].
  rewrite !filter_cons. apply elem_of_cons in Hx as [<-|Hx].
  - rewrite (decide_False (P := Q x)), (decide_True (P := P x)) by done. simpl.
    specialize (Hle l). apply Nat.lt_succ_r, Hle. set_solver.
  - assert (length (filter Q l) < length (filter P l)) by (apply IH; set_solver).
    repeat case_decide; simpl; try lia. exfalso. set_solver.
Qed.

(** A transitive and irreflexive relation on a finite list has, above every
    element, a maximal one. *)
Section Maximal.
Context {A : Type} (R : A -> A -> bool) (l : list A).
Hypothesis irrefl : forall x, x ∈ l -> R x x = false.
Hypothesis trans : forall x y z, x ∈ l -> y ∈ l -> z ∈ l ->
  R x y = true -> R y z = true -> R x z = true.

Lemma maximal_above x :
  x ∈ l -> exists m, m ∈ l /\ (x = m \/ R x m = true) /\ forall y, y ∈ l -> R m y = false.
Proof.
  remember (length (filter (fun y => R x y = true) l)) as n eqn:Hn.
  revert x Hn. induction n as [n IH] using lt_wf_ind. intros x -> Hx.
  destruct (filter (fun y => R x y = true) l) as [|y ys] eqn:Hf.
  - exists x. split_and!; [done|by left|]. intros y Hy.
    destruct (R x y) eqn:Hxy; [|done].
    assert (Hin : y ∈ filter (fun y => R x y = true) l) by by apply list_elem_of_filter.
    rewrite Hf in Hin. by apply elem_of_nil in Hin.
  - assert (Hin : y ∈ filter (fun y => R x y = true) l) by (rewrite Hf; set_solver).
    apply list_elem_of_filter in Hin as [Hxy Hy]. rewrite <-Hf in IH.
    destruct (IH (length (filter (fun z => R y z = true) l))) with (x := y)
      as (m & Hm & Hym & Hmax); [|done|done|].
    2: { exists m. split_and!; [done| |done]. right. destruct Hym as [<-|Hym]; eauto. }
    apply (length_filter_strict _ _ _ y); [|done..|by rewrite irrefl].
    intros z Hz Hyz. eauto.
Qed.
End Maximal.

(** ** Go maps built by a loop *)

(** [for _, x := range l { m[k(x)] = x }]: the last writer of a key wins. *)
Section Index.
Context {A V : Type} (key : A -> string) (val : A -> V).

Definition index_from (m : gmap string V) (l : list A) : gmap string V :=
  foldl (fun m x => <[key x := val x]> m) m l.
Definition index_by (l : list A) : gmap string V := index_from ∅ l.

Lemma index_from_snoc m l x :
  index_from m (l ++ [x]) = <[key x := val x]> (index_from m l).
Proof. unfold index_from. by rewrite foldl_app. Qed.

Lemma index_by_Some l k v :
  index_by l !! k = Some v -> exists x, x ∈ l /\ key x = k /\ val x = v.
Proof.
  unfold index_by. induction l as [|x l IH] using rev_ind; [done|].
  rewrite index_from_snoc. destruct (decide (key x = k)) as [<-|Hne].
  - rewrite lookup_insert_eq. intros [= <-]. exists x. set_solver.
  - rewrite lookup_insert_ne by done. intros H.
    destruct (IH H) as (y & ? & ? & ?). exists y. set_solver.
Qed.

Lemma index_by_is_Some l k :
  is_Some (index_by l !! k) <-> exists x, x ∈ l /\ key x = k.
Proof.
  split.
  - intros [v Hv]. destruct (index_by_Some _ _ _ Hv) as (x & ? & ? & ?). eauto.
  - unfold index_by. induction l as [|x l IH] using rev_ind; [set_solver|].
    intros (y & Hy & <-). rewrite index_from_snoc.
    destruct (decide (key x = key y)) as [->|Hne]; [by rewrite lookup_insert_eq|].
    rewrite lookup_insert_ne by done. apply IH. exists y.
    apply elem_of_app in Hy as [Hy|Hy]; [done|].
    apply list_elem_of_singleton in Hy. naive_solver.
Qed.

(** With pairwise distinct keys the index is the association itself. *)
Lemma index_by_NoDup l x :
  NoDup (key <$> l) -> x ∈ l -> index_by l !! key x = Some (val x).
Proof.
  intros Hnd Hx.
  destruct (index_by l !! key x) as [v|] eqn:Hv.
  - destruct (index_by_Some _ _ _ Hv) as (y & Hy & Hk & <-).
    apply list_elem_of_lookup in Hx as [i Hi], Hy as [j Hj].
    assert (i = j) as <-; [|congruence].
    apply (NoDup_lookup (key <$> l) i j (key x)); [done| |];
      rewrite list_lookup_fmap; [by rewrite Hi|by rewrite Hj; simpl; f_equal].
  - exfalso. apply eq_None_not_Some in Hv. apply Hv, index_by_is_Some. eauto.
Qed.
End Index.

(** ** Time *)

(** A [time.Time] is an instant in nanoseconds since the Unix epoch; the zero
    [time.Time] is 1 January of year 1.  A [time.Duration] is a signed 64-bit
    count of nanoseconds. *)
Definition Time := Z.
Definition Duration := Z.
Definition zero_time : Time := (-62135596800 * 1000000000)%Z.
Definition min_duration : Duration := (- 2 ^ 63)%Z.
Definition max_duration : Duration := (2 ^ 63 - 1)%Z.
Definition Second : Duration := 1000000000%Z.
Definition Minute : Duration := (60 * Second)%Z.
Definition Hour : Duration := (60 * Minute)%Z.

Definition time_before (a b : Time) : bool := (a <? b)%Z.
Definition time_after (a b : Time) : bool := (b <? a)%Z.
(** [Time.Sub] saturates at the ends of [time.Duration]. *)
Definition time_sub (a b : Time) : Duration :=
  Z.max min_duration (Z.min max_duration (a - b)).
Definition time_add (a : Time) (d : Duration) : Time := (a + d)%Z.

(** ** Machine integers *)

(** [int32]: conversion and arithmetic wrap. *)
Definition wrap32 (z : Z) : Z := ((z + 2 ^ 31) mod 2 ^ 32 - 2 ^ 31)%Z.

Lemma wrap32_add a b : wrap32 (wrap32 a + b) = wrap32 (a + b).
Proof.
  unfold wrap32. f_equal.
  replace ((a + 2 ^ 31) mod 2 ^ 32 - 2 ^ 31 + b + 2 ^ 31)%Z with ((a + 2 ^ 31) mod 2 ^ 32 + b)%Z by lia.
  rewrite Zplus_mod_idemp_l. f_equal. lia.
Qed.
Lemma wrap32_small z : (- 2 ^ 31 <= z < 2 ^ 31)%Z -> wrap32 z = z.
Proof. intros Hz. unfold wrap32. rewrite Z.mod_small; lia. Qed.

(** ** Tactics shared by the development *)

(** Split every conjunction and boolean conjunction of the context. *)
Ltac destruct_bools :=
  repeat match goal with
  | H : _ && _ = true |- _ => apply andb_true_iff in H as [? ?]
  | H : _ || _ = false |- _ => apply orb_false_iff in H as [? ?]
  | H : negb _ = true |- _ => apply negb_true_iff in H
  | H : negb _ = false |- _ => apply negb_false_iff in H
  end.

(** Case analysis on every [match] and [if] of the goal. *)
Ltac break_matches := repeat (case_match; simplify_eq/=; try done).

(** Split a successful computation into its successful steps. *)
Ltac inv_ok :=
  repeat match goal with
  | H : (_ ≫= _) = Ok _ |- _ => apply bind_Ok in H as (? & ? & ?)
  | H : map_err _ ?r = Ok _ |- _ => destruct r eqn:?; simpl in H
  | H : Ok _ = Ok _ |- _ => injection H as H; subst
  | H : Err _ = Ok _ |- _ => discriminate H
  | H : (if decide ?P then _ else _) = Ok _ |- _ => destruct (decide P)
  | H : (if ?b then _ else _) = Ok _ |- _ => destruct b eqn:?
  | H : match ?x with _ => _ end = Ok _ |- _ => destruct x eqn:?
  end.

Create HintDb gocd discriminated.
#[export] Hint Resolve NoDup_dedup NoDup_dedup_from Sorted_sort_strings : gocd.
#[export] Hint Rewrite elem_of_dedup elem_of_sort_strings NoDup_sort_strings : gocd.

(** Indexing by a composed value is the composed index. *)
Lemma index_by_fmap {A V W} (key : A -> string) (val : A -> V) (f : V -> W) l :
  index_by key (fun x => f (val x)) l = f <$> index_by key val l.
Proof.
  unfold index_by. induction l as [|x l IH] using rev_ind; [done|].
  by rewrite !index_from_snoc, IH, fmap_insert.
Qed.
