(* ===== verification/GoStrings.v ===== *)
(** The functions of Go's [strings] package the program calls, over byte
    strings: a Go [string] is a [String.string] whose characters are its bytes.
    Unicode-aware functions are exact on every byte string: [TrimSpace] strips
    the UTF-8 encodings of the White_Space code points, and [ToLower] follows
    Go in lowering ASCII strings by arithmetic and leaving every other string to
    the Unicode tables, which are an argument. *)

From S2P Require Import Prelude.

Definition slen (s : string) : nat := String.length s.

Fixpoint sdrop (n : nat) (s : string) : string :=
  match n, s with
  | S n, String _ s => sdrop n s
  | _, _ => s
  end.

Fixpoint stake (n : nat) (s : string) : string :=
  match n, s with
  | S n, String c s => String c (stake n s)
  | _, _ => ""
  end.

Definition HasPrefix (s p : string) : bool := String.prefix p s.
#[global] Arguments HasPrefix : simpl never.
Definition HasSuffix (s p : string) : bool := String.prefix (String.rev p) (String.rev s).
Definition CutPrefix (s p : string) : option string :=
  if HasPrefix s p then Some (sdrop (slen p) s) else None.
Definition TrimPrefix (s p : string) : string := default s (CutPrefix s p).
Definition TrimSuffix (s p : string) : string :=
  if HasSuffix s p then stake (slen s - slen p) s else s.

(** Byte offset of the first occurrence. *)
Fixpoint Index (s sub : string) : option nat :=
  if HasPrefix s sub then Some 0
  else match s with
       | "" => None
       | String _ s' => S <$> Index s' sub
       end.
Definition Contains (s sub : string) : bool :=
  if Index s sub then true else false.

Definition Cut (s sep : string) : option (string * string) :=
  match Index s sep with
  | Some i => Some (stake i s, sdrop (i + slen sep) s)
  | None => None
  end.

Fixpoint IndexByte (s : string) (c : Ascii.ascii) : option nat :=
  match s with
  | "" => None
  | String b s' => if decide (b = c) then Some 0 else S <$> IndexByte s' c
  end.

(** [strings.LastIndex] for a one-byte separator. *)
Fixpoint LastIndexByte (s : string) (c : Ascii.ascii) : option nat :=
  match s with
  | "" => None
  | String b s' =>
      match LastIndexByte s' c with
      | Some i => Some (S i)
      | None => if decide (b = c) then Some 0 else None
      end
  end.

(** [strings.Split] for a one-byte separator: never empty. *)
Fixpoint SplitByte (s : string) (c : Ascii.ascii) : list string :=
  match s with
  | "" => [""]
  | String b s' =>
      if decide (b = c) then "" :: SplitByte s' c
      else match SplitByte s' c with
           | [] => [String b ""]
           | w :: ws => String b w :: ws
           end
  end.

Fixpoint Join (l : list string) (sep : string) : string :=
  match l with
  | [] => ""
  | [x] => x
  | x :: l => x +:+ sep +:+ Join l sep
  end.

Fixpoint any_byte (f : Ascii.ascii -> bool) (s : string) : bool :=
  match s with "" => false | String c s => f c || any_byte f s end.
Fixpoint all_bytes (f : Ascii.ascii -> bool) (s : string) : bool :=
  match s with "" => true | String c s => f c && all_bytes f s end.
Definition ContainsAny (s chars : string) : bool :=
  any_byte (fun c => any_byte (fun d => bool_decide (c = d)) chars) s.

Fixpoint TrimLeftByte (s : string) (c : Ascii.ascii) : string :=
  match s with
  | String b s' => if decide (b = c) then TrimLeftByte s' c else s
  | "" => ""
  end.
Definition TrimRightByte (s : string) (c : Ascii.ascii) : string :=
  String.rev (TrimLeftByte (String.rev s) c).

(** ** White space and case *)

(** The bytes of a code point, from its UTF-8 octets. *)
Definition bytes (l : list nat) : string :=
  foldr (fun n s => String (Ascii.ascii_of_nat n) s) "" l.

(** Encodings of the code points with [unicode.IsSpace]: the six ASCII ones,
    U+0085, U+00A0, U+1680, U+2000..U+200A, U+2028, U+2029, U+202F, U+205F and
    U+3000. *)
Definition space_encodings : list string :=
  bytes <$> ([[9]; [10]; [11]; [12]; [13]; [32]; [194; 133]; [194; 160]; [225; 154; 128]]
    ++ ((fun i => [226; 128; 128 + i]) <$> seq 0 11)
    ++ [[226; 128; 168]; [226; 128; 169]; [226; 128; 175]; [226; 129; 159]; [227; 128; 128]]).

Definition strip_one (encs : list string) (s : string) : option string :=
  list_find (fun p => HasPrefix s p = true) encs ≫= fun '(_, p) => Some (sdrop (slen p) s).

Fixpoint strip_all (fuel : nat) (encs : list string) (s : string) : string :=
  match fuel with
  | 0 => s
  | S fuel =>
      match strip_one encs s with
      | Some s' => strip_all fuel encs s'
      | None => s
      end
  end.

(** Every encoding is at least one byte long, so the length is enough fuel. *)
Definition TrimLeftSpace (s : string) : string := strip_all (slen s) space_encodings s.
Definition TrimRightSpace (s : string) : string :=
  String.rev (strip_all (slen s) (String.rev <$> space_encodings) (String.rev s)).
Definition TrimSpace (s : string) : string := TrimRightSpace (TrimLeftSpace s).

Definition code (c : Ascii.ascii) : nat := Ascii.nat_of_ascii c.
Definition byte_between (lo hi : nat) (c : Ascii.ascii) : bool :=
  (lo <=? code c)%nat && (code c <=? hi)%nat.
Definition is_upper := byte_between 65 90.
Definition is_lower := byte_between 97 122.
Definition is_digit := byte_between 48 57.
Definition is_ascii (s : string) : bool := all_bytes (byte_between 0 127) s.
Definition lower_byte (c : Ascii.ascii) : Ascii.ascii :=
  if is_upper c then Ascii.ascii_of_nat (code c + 32) else c.
Fixpoint map_bytes (f : Ascii.ascii -> Ascii.ascii) (s : string) : string :=
  match s with "" => "" | String c s => String (f c) (map_bytes f s) end.

(** [strings.ToLower]: an ASCII fast path, the Unicode tables otherwise. *)
Class UnicodeCase := {
  unicode_lower : string -> string;
  unicode_upper : string -> string;
}.
Definition ToLower `{UnicodeCase} (s : string) : string :=
  if is_ascii s then map_bytes lower_byte s else unicode_lower s.
Definition upper_byte (c : Ascii.ascii) : Ascii.ascii :=
  if is_lower c then Ascii.ascii_of_nat (code c - 32) else c.
Definition ToUpper `{UnicodeCase} (s : string) : string :=
  if is_ascii s then map_bytes upper_byte s else unicode_upper s.

(** A case table for evaluating examples: it leaves other strings alone. *)
Definition ascii_only_case : UnicodeCase := {| unicode_lower := id; unicode_upper := id |}.

(** [strings.EqualFold] against a literal none of whose letters has a fold
    outside ASCII (no k and no s). *)
Definition EqualFoldASCII (s lit : string) : bool :=
  bool_decide (map_bytes lower_byte s = map_bytes lower_byte lit).

(** ** Lemmas *)

Lemma app_nil_s s : "" +:+ s = s.
Proof. done. Qed.
Lemma app_cons_s c s t : String c s +:+ t = String c (s +:+ t).
Proof. done. Qed.
Lemma app_nil_r_s s : s +:+ "" = s.
Proof. induction s as [|c s IH]; [done|]. by rewrite app_cons_s, IH. Qed.
Lemma app_assoc_s s t u : (s +:+ t) +:+ u = s +:+ (t +:+ u).
Proof. induction s as [|c s IH]; [done|]. by rewrite !app_cons_s, IH. Qed.
Lemma slen_app s t : slen (s +:+ t) = slen s + slen t.
Proof.
  induction s as [|c s IH]; [done|]. rewrite app_cons_s. unfold slen in *. simpl. by rewrite IH.
Qed.

Lemma prefix_spec p s : String.prefix p s = true <-> exists t, s = p +:+ t.
Proof.
  revert s. induction p as [|c p IH]; intros s; simpl.
  - split; [intros _; by exists s|]. by destruct s.
  - destruct s as [|d s]; simpl.
    + split; [done|]. intros [t Ht]. by rewrite app_cons_s in Ht.
    + destruct (Ascii.ascii_dec c d) as [<-|Hne].
      * rewrite IH. split; intros [t Ht]; exists t.
        -- by rewrite app_cons_s, Ht.
        -- rewrite app_cons_s in Ht. by simplify_eq.
      * split; [done|]. intros [t Ht]. rewrite app_cons_s in Ht. congruence.
Qed.

Lemma HasPrefix_spec s p : HasPrefix s p = true <-> exists t, s = p +:+ t.
Proof. apply prefix_spec. Qed.

Lemma HasPrefix_app p t : HasPrefix (p +:+ t) p = true.
Proof. apply HasPrefix_spec. eauto. Qed.

Lemma sdrop_app p t : sdrop (slen p) (p +:+ t) = t.
Proof. induction p as [|c p IH]; [by destruct t|]. rewrite app_cons_s. exact IH. Qed.

Lemma stake_app p t : stake (slen p) (p +:+ t) = p.
Proof.
  induction p as [|c p IH]; [by destruct t|]. rewrite app_cons_s. cbn. by f_equal.
Qed.

Lemma stake_sdrop n s : stake n s +:+ sdrop n s = s.
Proof.
  revert s. induction n as [|n IH]; intros [|c s]; simpl; try done.
  by rewrite app_cons_s, IH.
Qed.

Lemma CutPrefix_spec s p t : CutPrefix s p = Some t <-> s = p +:+ t.
Proof.
  unfold CutPrefix. destruct (HasPrefix s p) eqn:H.
  - apply HasPrefix_spec in H as [u ->]. rewrite sdrop_app.
    split; [by intros [= ->]|]. intros Hu. by apply (inj (String.app p)) in Hu as ->.
  - split; [done|]. intros ->. by rewrite HasPrefix_app in H.
Qed.

Lemma all_bytes_app f s t : all_bytes f (s +:+ t) = all_bytes f s && all_bytes f t.
Proof.
  induction s as [|c s IH]; [done|]. rewrite app_cons_s. simpl. by rewrite IH, andb_assoc.
Qed.

Lemma Index_None s sub : Index s sub = None -> forall t u, s <> t +:+ sub +:+ u.
Proof.
  induction s as [|c s IH]; simpl.
  - destruct (HasPrefix "" sub) eqn:H; [done|]. intros _ t u Heq.
    destruct t as [|d t]; [|by rewrite app_cons_s in Heq]. rewrite app_nil_s in Heq.
    rewrite Heq, HasPrefix_app in H. done.
  - destruct (HasPrefix (String c s) sub) eqn:H; [done|].
    intros Hn t u Heq. destruct (Index s sub) eqn:Hi; [done|].
    destruct t as [|d t].
    + rewrite app_nil_s in Heq. rewrite Heq, HasPrefix_app in H. done.
    + rewrite app_cons_s in Heq. injection Heq as -> Heq. by apply (IH eq_refl t u).
Qed.

Lemma Index_Some s sub i :
  Index s sub = Some i -> exists t u, s = t +:+ sub +:+ u /\ slen t = i.
Proof.
  revert i. induction s as [|c s IH]; intros i; simpl.
  - destruct (HasPrefix "" sub) eqn:H; [|done]. intros [= <-].
    apply HasPrefix_spec in H as [u Hu]. by exists "", u.
  - destruct (HasPrefix (String c s) sub) eqn:H.
    + intros [= <-]. apply HasPrefix_spec in H as [u Hu]. by exists "", u.
    + destruct (Index s sub) as [j|] eqn:Hj; [|done]. intros [= <-].
      destruct (IH _ eq_refl) as (t & u & -> & Ht). exists (String c t), u.
      rewrite app_cons_s. split; [done|]. unfold slen in *. simpl. by rewrite Ht.
Qed.

Lemma Contains_spec s sub : Contains s sub = true <-> exists t u, s = t +:+ sub +:+ u.
Proof.
  unfold Contains. destruct (Index s sub) as [i|] eqn:Hi.
  - split; [|done]. intros _. destruct (Index_Some _ _ _ Hi) as (t & u & ? & _). eauto.
  - split; [done|]. intros (t & u & Heq). by destruct (Index_None _ _ Hi t u).
Qed.

Lemma Cut_spec s sep a b : Cut s sep = Some (a, b) -> s = a +:+ sep +:+ b.
Proof.
  unfold Cut. destruct (Index s sep) as [i|] eqn:Hi; [|done]. intros [= <- <-].
  destruct (Index_Some _ _ _ Hi) as (t & u & -> & <-).
  rewrite stake_app, <-slen_app, <-app_assoc_s, sdrop_app. by rewrite app_assoc_s.
Qed.

Lemma all_bytes_impl (f g : Ascii.ascii -> bool) s :
  (forall c, f c = true -> g c = true) -> all_bytes f s = true -> all_bytes g s = true.
Proof.
  intros H. induction s as [|c s IH]; simpl; [done|]. intros [Hc Hs]%andb_true_iff. by rewrite (H c Hc), IH.
Qed.
Lemma any_byte_false f s : any_byte f s = false <-> all_bytes (fun c => negb (f c)) s = true.
Proof. induction s as [|c s IH]; simpl; [done|]. destruct (f c); simpl; [done|exact IH]. Qed.

(** ** Splitting and trimming texts without the separator *)

Definition lacks (c : Ascii.ascii) (s : string) : bool := all_bytes (fun d => negb (bool_decide (d = c))) s.

Lemma IndexByte_app c s t : lacks c s = true -> IndexByte (s +:+ String c t) c = Some (slen s).
Proof.
  unfold lacks. induction s as [|d s IH]; simpl; [by rewrite decide_True|].
  intros [Hd%negb_true_iff%bool_decide_eq_false Hs]%andb_true_iff. by rewrite decide_False, IH.
Qed.
Lemma IndexByte_lacks c s : lacks c s = true -> IndexByte s c = None.
Proof.
  unfold lacks. induction s as [|d s IH]; simpl; [done|].
  intros [Hd%negb_true_iff%bool_decide_eq_false Hs]%andb_true_iff. by rewrite decide_False, IH.
Qed.
Lemma SplitByte_lacks c s : lacks c s = true -> SplitByte s c = [s].
Proof.
  unfold lacks. induction s as [|d s IH]; simpl; [done|].
  intros [Hd%negb_true_iff%bool_decide_eq_false Hs]%andb_true_iff. by rewrite decide_False, IH.
Qed.
Lemma SplitByte_app c s t : lacks c s = true -> SplitByte (s +:+ String c t) c = s :: SplitByte t c.
Proof.
  unfold lacks. induction s as [|d s IH]; simpl; [by rewrite decide_True|].
  intros [Hd%negb_true_iff%bool_decide_eq_false Hs]%andb_true_iff. by rewrite decide_False, IH.
Qed.
(** [Split] undoes [Join] when no part holds the separator. *)
Lemma SplitByte_Join c l : l <> [] -> Forall (fun s => lacks c s = true) l -> SplitByte (Join l (String c "")) c = l.
Proof.
  intros Hne Hl. induction Hl as [|s l Hs Hl IH]; [done|]. destruct l as [|t l]; [by apply SplitByte_lacks|].
  change (Join (s :: t :: l) (String c "")) with (s +:+ String c (Join (t :: l) (String c ""))).
  by rewrite SplitByte_app, IH.
Qed.

Lemma rev_app_eq s t : String.rev_app s t = String.rev s +:+ t.
Proof.
  unfold String.rev. assert (H : forall a b c, String.rev_app a (b +:+ c) = String.rev_app a b +:+ c).
  { clear. intros a. induction a as [|x a IH]; intros b c; simpl; [done|]. by rewrite <-IH, app_cons_s. }
  by rewrite <-H.
Qed.
Lemma rev_cons_s c s : String.rev (String c s) = String.rev s +:+ String c "".
Proof. unfold String.rev at 1. simpl. by rewrite rev_app_eq. Qed.
Lemma rev_app_s s t : String.rev (s +:+ t) = String.rev t +:+ String.rev s.
Proof.
  induction s as [|c s IH]; [by rewrite app_nil_s, app_nil_r_s|].
  by rewrite app_cons_s, !rev_cons_s, IH, app_assoc_s.
Qed.
Lemma rev_rev_s s : String.rev (String.rev s) = s.
Proof. induction s as [|c s IH]; [done|]. by rewrite rev_cons_s, rev_app_s, IH. Qed.
Lemma slen_rev s : slen (String.rev s) = slen s.
Proof. induction s as [|c s IH]; [done|]. rewrite rev_cons_s, slen_app, IH. unfold slen. simpl. lia. Qed.
Lemma all_bytes_rev f s : all_bytes f (String.rev s) = all_bytes f s.
Proof.
  induction s as [|c s IH]; [done|]. rewrite rev_cons_s, all_bytes_app, IH. simpl. by rewrite andb_true_r, andb_comm.
Qed.

(** Nothing to strip: no encoding is a prefix. *)
Lemma strip_one_None encs s : strip_one encs s = None <-> Forall (fun p => HasPrefix s p = false) encs.
Proof.
  unfold strip_one. destruct (list_find _ encs) as [[i p]|] eqn:E; simpl.
  - apply list_find_Some in E as (Hl & Hp & _). split; [done|]. intros H.
    rewrite Forall_forall in H. apply list_elem_of_lookup_2 in Hl. by rewrite (H p Hl) in Hp.
  - split; [|done]. intros _. apply list_find_None in E. eapply Forall_impl; [exact E|].
    intros p Hp. simpl in Hp. apply not_true_is_false. exact Hp.
Qed.
Lemma strip_all_fix n encs s : strip_one encs s = None -> strip_all n encs s = s.
Proof. intros H. destruct n; simpl; [done|]. by rewrite H. Qed.
Lemma strip_one_slen encs s s' : Forall (fun p => 0 < slen p) encs -> strip_one encs s = Some s' -> slen s' < slen s.
Proof.
  unfold strip_one. intros Hp. destruct (list_find _ encs) as [[i p]|] eqn:E; simpl; [|done]. intros [= <-].
  apply list_find_Some in E as (Hl & Hpre & _). apply list_elem_of_lookup_2 in Hl.
  rewrite Forall_forall in Hp. specialize (Hp p Hl). apply HasPrefix_spec in Hpre as [t ->].
  rewrite sdrop_app, slen_app. lia.
Qed.
Lemma strip_all_slen n encs s : Forall (fun p => 0 < slen p) encs -> slen (strip_all n encs s) <= slen s.
Proof.
  intros Hp. revert s. induction n as [|n IH]; intros s; simpl; [done|].
  destruct (strip_one encs s) as [s'|] eqn:E; [|done]. apply (strip_one_slen _ _ _ Hp) in E. specialize (IH s'). lia.
Qed.
Lemma strip_all_stable n encs s : Forall (fun p => 0 < slen p) encs -> slen s <= n -> slen (strip_all n encs s) = slen s ->
  strip_one encs s = None.
Proof.
  intros Hp Hn. destruct n as [|n]; simpl.
  - destruct s; [|simpl in Hn; lia]. intros _. apply strip_one_None. eapply Forall_impl; [exact Hp|].
    intros [|c p] H; [unfold slen in H; simpl in H; lia|done].
  - destruct (strip_one encs s) as [s'|] eqn:E; [|done]. apply (strip_one_slen _ _ _ Hp) in E.
    pose proof (strip_all_slen n encs s' Hp). lia.
Qed.

Lemma space_encodings_pos : Forall (fun p => 0 < slen p) space_encodings.
Proof. apply (bool_decide_unpack (Forall _ _)). by vm_compute. Qed.
Lemma rev_encodings_pos : Forall (fun p => 0 < slen p) (String.rev <$> space_encodings).
Proof. apply (bool_decide_unpack (Forall _ _)). by vm_compute. Qed.

(** A text is its own [TrimSpace] when no white space encoding starts or ends it. *)
Lemma TrimSpace_fix s : strip_one space_encodings s = None ->
  strip_one (String.rev <$> space_encodings) (String.rev s) = None -> TrimSpace s = s.
Proof.
  intros Hl Hr. unfold TrimSpace, TrimRightSpace, TrimLeftSpace. rewrite (strip_all_fix _ _ _ Hl).
  by rewrite (strip_all_fix _ _ _ Hr), rev_rev_s.
Qed.
Lemma TrimSpace_fixed s : TrimSpace s = s -> strip_one space_encodings s = None /\
  strip_one (String.rev <$> space_encodings) (String.rev s) = None.
Proof.
  unfold TrimSpace, TrimRightSpace, TrimLeftSpace. set (u := strip_all (slen s) space_encodings s). intros H.
  pose proof (strip_all_slen (slen s) _ s space_encodings_pos) as Hu. fold u in Hu.
  pose proof (strip_all_slen (slen u) _ (String.rev u) rev_encodings_pos) as Hv.
  assert (Hlen : slen s = slen (strip_all (slen u) (String.rev <$> space_encodings) (String.rev u)))
    by (rewrite <-H at 1; by rewrite slen_rev).
  rewrite slen_rev in Hv. assert (Hone : strip_one space_encodings s = None).
  { apply (strip_all_stable (slen s)); [apply space_encodings_pos|done|]. fold u. lia. }
  split; [done|]. assert (u = s) as Hus by (unfold u; by apply strip_all_fix). rewrite Hus in *.
  apply (strip_all_stable (slen s)); [apply rev_encodings_pos|by rewrite slen_rev|]. by rewrite slen_rev, <-Hlen.
Qed.

(** A prefix of [s +:+ t] is a prefix of [s] or goes on into [t]. *)
Lemma HasPrefix_app_inv s t p : HasPrefix (s +:+ t) p = true ->
  HasPrefix s p = true \/ exists c q, p = s +:+ String c q /\ HasPrefix t (String c q) = true.
Proof.
  revert p. induction s as [|d s IH]; intros p H.
  - destruct p as [|c q]; [by left|right]. exists c, q. by rewrite app_nil_s in *.
  - destruct p as [|c p]; [by left|]. rewrite app_cons_s in H. apply HasPrefix_spec in H as [u [= -> Hu]].
    destruct (IH p) as [Hp|(e & q & -> & Hq)].
    + apply HasPrefix_spec. by exists u.
    + left. apply HasPrefix_spec in Hp as [v ->]. apply HasPrefix_spec. by exists v.
    + right. exists e, q. by rewrite app_cons_s.
Qed.

#[export] Hint Rewrite app_nil_s app_cons_s app_assoc_s sdrop_app stake_app : gocd.
