(* ===== verification/GoRegexp.v ===== *)
(** The part of Go's [regexp] package the program uses: patterns without nested
    repetition, matched on UTF-8 text one rune at a time with leftmost-first
    priorities and numbered groups. *)

From S2P Require Import Prelude GoStrings.

(** ** Runes *)

Definition cont_byte (s : string) : bool :=
  match s with String c _ => byte_between 128 191 c | "" => false end.

(** [utf8.DecodeRuneInString]'s width: the length of the well-formed encoding
    the string starts with, one for an ill-formed byte, zero at the end. *)
Definition rune_width (s : string) : nat :=
  match s with
  | "" => 0
  | String c t =>
      let n := code c in
      let second lo hi := match t with String d _ => byte_between lo hi d | "" => false end in
      if (n <? 128)%nat then 1
      else if (194 <=? n)%nat && (n <=? 223)%nat then if second 128 191 then 2 else 1
      else if (224 <=? n)%nat && (n <=? 239)%nat then
        let lo := if (n =? 224)%nat then 160 else 128 in
        let hi := if (n =? 237)%nat then 159 else 191 in
        if second lo hi && cont_byte (sdrop 1 t) then 3 else 1
      else if (240 <=? n)%nat && (n <=? 244)%nat then
        let lo := if (n =? 240)%nat then 144 else 128 in
        let hi := if (n =? 244)%nat then 143 else 191 in
        if second lo hi && cont_byte (sdrop 1 t) && cont_byte (sdrop 2 t) then 4 else 1
      else 1
  end.

(** ** Patterns *)

(** A class by its ASCII members and whether it has the others: every class the
    program writes holds all of the non-ASCII runes or none. *)
Record cclass := { ascii_in : Ascii.ascii -> bool; other_in : bool }.

Inductive re :=
| Lit (s : string)
| Rep (c : cclass) (greedy : bool) (lo : nat) (hi : option nat)
| Seq (a b : re)
| Alt (a b : re)
| Eps
| Group (n : nat) (r : re).

(** [c], [c*], [c+] and [r?]. *)
Definition One (c : cclass) : re := Rep c true 1 (Some 1).
Definition Star (c : cclass) : re := Rep c true 0 None.
Definition Plus (c : cclass) : re := Rep c true 1 None.
Definition Opt (r : re) : re := Alt r Eps.

(** The rune of class [c] that [s] starts with, by what follows it. *)
Definition take_class (c : cclass) (s : string) : option string :=
  match s with
  | "" => None
  | String b t =>
      if (code b <? 128)%nat then if ascii_in c b then Some t else None
      else if other_in c then Some (sdrop (rune_width s) s) else None
  end.

(** ** Matching *)

(** Groups already closed, by number: the latest capture of a group first. *)
Definition captures := list (nat * string).

(** What a matched prefix consumed. *)
Definition consumed (s s' : string) : string := stake (slen s - slen s') s.

Section Match.
Context {X : Type}.

(** The repetition of a class, [lo] to [hi] times; the length of the string is
    enough fuel because each round consumes a rune. *)
Fixpoint match_rep (fuel : nat) (c : cclass) (greedy : bool) (lo : nat) (hi : option nat)
    (s : string) (k : string -> option X) : option X :=
  let more :=
    match fuel, hi with
    | 0, _ | _, Some 0 => None
    | S fuel, _ =>
        match take_class c s with
        | Some s' => match_rep fuel c greedy (pred lo) (pred <$> hi) s' k
        | None => None
        end
    end in
  match lo with
  | S _ => more
  | 0 =>
      if greedy then match more with Some x => Some x | None => k s end
      else match k s with Some x => Some x | None => more end
  end.

(** Backtracking in priority order, by continuation. *)
Fixpoint match_at (r : re) (s : string) (caps : captures)
    (k : string -> captures -> option X) : option X :=
  match r with
  | Lit l => match CutPrefix s l with Some s' => k s' caps | None => None end
  | Rep c greedy lo hi => match_rep (slen s) c greedy lo hi s (fun s' => k s' caps)
  | Seq a b => match_at a s caps (fun s' caps => match_at b s' caps k)
  | Alt a b =>
      match match_at a s caps k with Some x => Some x | None => match_at b s caps k end
  | Eps => k s caps
  | Group n a => match_at a s caps (fun s' caps => k s' ((n, consumed s s') :: caps))
  end.
End Match.

(** [MatchString] of [^r$]. *)
Definition full_match (r : re) (s : string) : bool :=
  match match_at r s [] (fun s' _ => if decide (s' = "") then Some tt else None) with
  | Some _ => true
  | None => false
  end.

(** The match of [r] at the start of the text: what follows and the groups. *)
Definition prefix_match (r : re) (s : string) : option (string * captures) :=
  match_at r s [] (fun s' caps => Some (s', caps)).

Definition group (caps : captures) (n : nat) : string :=
  default "" (snd <$> (list_find (fun p => fst p = n) caps ≫= fun p => Some (snd p))).

(** The text split by the leftmost matches of an unanchored pattern, none of
    which is empty in the program: plain runs and matches with their groups. *)
Inductive piece := Plain (s : string) | Found (text : string) (caps : captures).

Fixpoint find_all (fuel : nat) (r : re) (plain : string) (s : string) : list piece :=
  let flush l := if decide (plain = "") then l else Plain plain :: l in
  match fuel with
  | 0 => flush []
  | S fuel =>
      match prefix_match r s with
      | Some (s', caps) => flush (Found (consumed s s') caps :: find_all fuel r "" s')
      | None =>
          match s with
          | "" => flush []
          | _ =>
              let w := rune_width s in
              find_all fuel r (plain +:+ stake w s) (sdrop w s)
          end
      end
  end.
(** One more than the length: every step consumes at least a byte. *)
Definition FindAll (r : re) (s : string) : list piece := find_all (S (slen s)) r "" s.

(** [FindAllStringSubmatch], by the groups of each match. *)
Definition FindAllSubmatch (r : re) (s : string) : list captures :=
  omap (fun p => match p with Found _ caps => Some caps | Plain _ => None end) (FindAll r s).

(** ** Languages *)

Inductive in_class (c : cclass) : nat -> string -> string -> Prop :=
| in_class_0 s : in_class c 0 s s
| in_class_S n s s' s'' :
    take_class c s = Some s' -> in_class c n s' s'' -> in_class c (S n) s s''.

(** [r] can match a prefix of the first text and leave the second. *)
Inductive matches : re -> string -> string -> Prop :=
| matches_Lit l s : matches (Lit l) (l +:+ s) s
| matches_Rep c g lo hi n s s' :
    lo <= n -> (forall h, hi = Some h -> n <= h) -> in_class c n s s' ->
    matches (Rep c g lo hi) s s'
| matches_Seq a b s s' s'' : matches a s s' -> matches b s' s'' -> matches (Seq a b) s s''
| matches_Alt_l a b s s' : matches a s s' -> matches (Alt a b) s s'
| matches_Alt_r a b s s' : matches b s s' -> matches (Alt a b) s s'
| matches_Eps s : matches Eps s s
| matches_Group n a s s' : matches a s s' -> matches (Group n a) s s'.
#[export] Hint Constructors matches in_class : gocd.

(** ** The matcher decides the language *)

Lemma slen_sdrop n s : slen (sdrop n s) = slen s - n.
Proof. revert s. induction n as [|n IH]; intros [|c s]; unfold slen in *; simpl; try done; try lia; apply IH. Qed.

Lemma rune_width_pos c t : 0 < rune_width (String c t).
Proof. unfold rune_width. repeat case_match; lia. Qed.

Lemma take_class_slen c s s' : take_class c s = Some s' -> slen s' < slen s.
Proof.
  unfold take_class. destruct s as [|b t]; [done|]. intros H.
  assert (Hs : s' = t \/ s' = sdrop (rune_width (String b t)) (String b t)).
  { repeat case_match; naive_solver. }
  destruct Hs as [->| ->]; [unfold slen; simpl; lia|].
  rewrite slen_sdrop. pose proof (rune_width_pos b t).
  assert (0 < slen (String b t)) by (unfold slen; simpl; lia). lia.
Qed.

Lemma in_class_slen c n s s' : in_class c n s s' -> slen s' + n <= slen s.
Proof. induction 1 as [|n s s' s'' Ht _ IH]; [lia|]. apply take_class_slen in Ht. lia. Qed.

Lemma in_class_S_iff c n s s'' :
  in_class c (S n) s s'' <-> exists s', take_class c s = Some s' /\ in_class c n s' s''.
Proof. split; [inversion 1; eauto|intros (? & ? & ?); eauto with gocd]. Qed.

Section MatchSpec.
Context {X : Type}.

(** What a repetition can do on [s]. *)
Definition rep_can (c : cclass) (lo : nat) (hi : option nat) (s : string)
    (k : string -> option X) : Prop :=
  exists n s', lo <= n /\ (forall h, hi = Some h -> n <= h) /\ in_class c n s s' /\ is_Some (k s').

(** One more round, then the rest. *)
Lemma rep_can_more c lo hi s k :
  hi <> Some 0 ->
  (exists s', take_class c s = Some s' /\ rep_can c (pred lo) (pred <$> hi) s' k) <->
  exists n s', lo <= S n /\ (forall h, hi = Some h -> S n <= h) /\ in_class c (S n) s s' /\
    is_Some (k s').
Proof.
  intros Hhi. unfold rep_can. setoid_rewrite in_class_S_iff. split.
  - intros (s' & Ht & n & s'' & Hlo & Hh & Hin & Hk). exists n, s''.
    split_and!; [lia| |by exists s'|done]. intros h ->. simpl in Hh.
    specialize (Hh _ eq_refl). destruct h; [done|]. simpl in Hh. lia.
  - intros (n & s'' & Hlo & Hh & (s' & Ht & Hin) & Hk). exists s'. split; [done|].
    exists n, s''. split_and!; [lia| |done..]. intros h Heq.
    destruct hi as [h'|]; [|done]. simpl in Heq. simplify_eq. specialize (Hh _ eq_refl). lia.
Qed.

Lemma rep_can_split c lo hi s k :
  rep_can c lo hi s k <->
  (lo = 0 /\ is_Some (k s)) \/
  exists n s', lo <= S n /\ (forall h, hi = Some h -> S n <= h) /\ in_class c (S n) s s' /\
    is_Some (k s').
Proof.
  split.
  - intros ([|n] & s' & Hlo & Hh & Hin & Hk).
    + left. inversion Hin; subst. split; [lia|done].
    + right. eauto 10.
  - intros [[-> Hk]|(n & s' & ? & ? & ? & ?)].
    + exists 0, s. split_and!; [done|intros; lia|constructor|done].
    + exists (S n), s'. eauto.
Qed.

Lemma match_rep_spec fuel c g lo hi s k :
  slen s <= fuel -> is_Some (match_rep fuel c g lo hi s k) <-> rep_can c lo hi s k.
Proof.
  revert lo hi s. induction fuel as [|fuel IH]; intros lo hi s Hf; rewrite rep_can_split.
  - assert (Hno : ~ exists n s', lo <= S n /\ (forall h, hi = Some h -> S n <= h) /\
        in_class c (S n) s s' /\ is_Some (k s')).
    { intros (n & s' & _ & _ & Hin & _). apply in_class_slen in Hin. lia. }
    simpl. destruct lo; [|split; [by intros []|naive_solver]].
    destruct g, (k s); naive_solver.
  - set (more := match fuel with _ => match hi with Some 0 => None | _ =>
        match take_class c s with
        | Some s' => match_rep fuel c g (pred lo) (pred <$> hi) s' k
        | None => None
        end end end).
    assert (Hmore : is_Some more <-> exists n s', lo <= S n /\
        (forall h, hi = Some h -> S n <= h) /\ in_class c (S n) s s' /\ is_Some (k s')).
    { destruct (decide (hi = Some 0)) as [->|Hhi].
      - unfold more. destruct fuel; (split; [by intros []|]);
          intros (n & s' & _ & Hh & _); specialize (Hh _ eq_refl); lia.
      - rewrite <-rep_can_more by done.
        assert (Heq : more = match take_class c s with
          | Some s' => match_rep fuel c g (pred lo) (pred <$> hi) s' k | None => None end).
        { unfold more. destruct fuel, hi as [[]|]; done. }
        rewrite Heq. destruct (take_class c s) as [s'|] eqn:Ht.
        + rewrite IH by (apply take_class_slen in Ht; lia). naive_solver.
        + split; [by intros []|naive_solver]. }
    assert (Hstep : match_rep (S fuel) c g lo hi s k =
      match lo with
      | S _ => more
      | 0 => if g then match more with Some x => Some x | None => k s end
             else match k s with Some x => Some x | None => more end
      end).
    { unfold more. simpl. destruct fuel, hi as [[]|]; done. }
    rewrite Hstep, <-Hmore. destruct lo; [|naive_solver].
    destruct g, more, (k s); naive_solver.
Qed.

(** A continuation that does not look at the groups. *)
Definition groupless (k : string -> captures -> option X) : Prop :=
  forall s caps caps', is_Some (k s caps) <-> is_Some (k s caps').

Lemma match_at_spec r s caps k :
  groupless k ->
  is_Some (match_at r s caps k) <-> exists s', matches r s s' /\ is_Some (k s' []).
Proof.
  revert s caps k. induction r as [l|c g lo hi|a IHa b IHb|a IHa b IHb| |n a IHa];
    intros s caps k Hk; simpl.
  - destruct (CutPrefix s l) as [s'|] eqn:Hc.
    + apply CutPrefix_spec in Hc as ->. rewrite (Hk _ _ []). split; [eauto with gocd|].
      intros (s'' & Hm & Hs). inversion Hm; subst.
      match goal with H : l +:+ _ = l +:+ _ |- _ => by apply (inj (String.app l)) in H as <- end.
    + split; [by intros []|]. intros (s' & Hm & _). inversion Hm; subst.
      assert (CutPrefix (l +:+ s') l = Some s') by by apply CutPrefix_spec. congruence.
  - rewrite match_rep_spec by done. unfold rep_can. split.
    + intros (n & s' & ? & ? & ? & Hs). exists s'. split; [eauto with gocd|].
      by rewrite (Hk _ _ caps).
    + intros (s' & Hm & Hs). inversion Hm; subst. eexists _, s'. split_and!; [done..|].
      by rewrite (Hk _ _ []).
  - rewrite IHa.
    + setoid_rewrite (IHb _ _ k Hk). split.
      * intros (s' & ? & s'' & ? & ?). eauto with gocd.
      * intros (s'' & Hm & ?). inversion Hm; subst. eauto.
    + intros s' c1 c2. by rewrite !IHb.
  - transitivity (is_Some (match_at a s caps k) \/ is_Some (match_at b s caps k)).
    { destruct (match_at a s caps k), (match_at b s caps k); naive_solver. }
    rewrite IHa, IHb by done. split.
    + intros [(s' & ? & ?)|(s' & ? & ?)]; eauto with gocd.
    + intros (s' & Hm & ?). inversion Hm; subst; eauto.
  - rewrite (Hk _ _ []). split; [eauto with gocd|]. intros (s' & Hm & ?). by inversion Hm; subst.
  - rewrite IHa by (intros ???; apply Hk). split.
    + intros (s' & ? & Hs). exists s'. split; [eauto with gocd|]. by rewrite (Hk _ _ [(n, consumed s s')]).
    + intros (s' & Hm & Hs). inversion Hm; subst. exists s'. split; [done|].
      by rewrite (Hk _ _ []).
Qed.
End MatchSpec.

Lemma full_match_spec r s : full_match r s = true <-> matches r s "".
Proof.
  unfold full_match.
  pose proof (match_at_spec r s []
    (fun s' _ => if decide (s' = "") then Some tt else None)) as H.
  assert (Hiff : is_Some (match_at r s []
      (fun s' _ => if decide (s' = "") then Some tt else None)) <-> matches r s "").
  { rewrite H by done. split.
    - intros (s' & Hm & Hs). case_decide; [by subst|by destruct Hs].
    - intros Hm. exists "". split; [done|]. by rewrite decide_True. }
  rewrite <-Hiff. case_match; naive_solver.
Qed.

(** A class of ASCII bytes. *)
Lemma in_class_ascii c n s s' : other_in c = false -> in_class c n s s' ->
  exists t, s = t +:+ s' /\ slen t = n /\ all_bytes (ascii_in c) t = true.
Proof.
  intros Ho. induction 1 as [s|n s s1 s2 Ht _ (t & -> & Hn & Hb)]; [by exists ""|].
  destruct s as [|b u]; [done|]. simpl in Ht. rewrite Ho in Ht. case_match; [|done].
  destruct (ascii_in c b) eqn:E; [|done]. injection Ht as ->. exists (String b t).
  split; [done|]. simpl. rewrite E, Hb. split; [|done]. unfold slen in *. simpl. by rewrite Hn.
Qed.

(** ** Soundness with groups *)

(** [r] takes the text [s] and the groups [caps] to the rest [s'] and [caps']. *)
Inductive runs : re -> string -> captures -> string -> captures -> Prop :=
| runs_Lit l s caps : runs (Lit l) (l +:+ s) caps s caps
| runs_Rep c g lo hi n s s' caps :
    lo <= n -> (forall h, hi = Some h -> n <= h) -> in_class c n s s' ->
    runs (Rep c g lo hi) s caps s' caps
| runs_Seq a b s s' s'' caps caps' caps'' :
    runs a s caps s' caps' -> runs b s' caps' s'' caps'' -> runs (Seq a b) s caps s'' caps''
| runs_Alt_l a b s s' caps caps' : runs a s caps s' caps' -> runs (Alt a b) s caps s' caps'
| runs_Alt_r a b s s' caps caps' : runs b s caps s' caps' -> runs (Alt a b) s caps s' caps'
| runs_Eps s caps : runs Eps s caps s caps
| runs_Group n a s s' caps caps' :
    runs a s caps s' caps' -> runs (Group n a) s caps s' ((n, consumed s s') :: caps').
#[export] Hint Constructors runs : gocd.

Lemma match_rep_sound {X} fuel c g lo hi s (k : string -> option X) x :
  match_rep fuel c g lo hi s k = Some x ->
  exists n s', lo <= n /\ (forall h, hi = Some h -> n <= h) /\ in_class c n s s' /\ k s' = Some x.
Proof.
  revert lo hi s. induction fuel as [|fuel IH]; intros lo hi s.
  - simpl. destruct lo; [|done]. intros H. exists 0, s. split_and!; [done|lia|constructor|].
    destruct g, (k s); naive_solver.
  - assert (Hmore : forall more, (more = match hi with Some 0 => None | _ =>
        match take_class c s with
        | Some s' => match_rep fuel c g (pred lo) (pred <$> hi) s' k
        | None => None
        end end) -> more = Some x -> exists n s', lo <= S n /\ (forall h, hi = Some h -> S n <= h) /\
          in_class c (S n) s s' /\ k s' = Some x).
    { intros more -> H. assert (Hhi : hi <> Some 0) by by intros ->.
      destruct (take_class c s) as [s'|] eqn:Ht; [|destruct hi as [[]|]; done].
      assert (Hr : match_rep fuel c g (pred lo) (pred <$> hi) s' k = Some x)
        by (destruct hi as [[]|]; done).
      apply IH in Hr as (n & s'' & Hlo & Hh & Hin & Hk). exists n, s''.
      split_and!; [lia| |by econstructor|done].
      intros h ->. specialize (Hh _ eq_refl). destruct h; [done|]. simpl in Hh. lia. }
    intros H. simpl in H. specialize (Hmore _ eq_refl).
    assert (Hcase : (match hi with Some 0 => None | _ => match take_class c s with
        | Some s' => match_rep fuel c g (pred lo) (pred <$> hi) s' k
        | None => None end end = Some x) \/ lo = 0 /\ k s = Some x).
    { destruct lo; [|by destruct hi as [[]|]; left].
      destruct g, (k s); destruct hi as [[]|]; repeat case_match; naive_solver. }
    destruct Hcase as [Hm|[-> Hk]].
    + destruct (Hmore Hm) as (n & s' & ? & ? & ? & ?). exists (S n), s'. done.
    + exists 0, s. split_and!; [done|lia|constructor|done].
Qed.

Lemma match_at_sound {X} r s caps (k : string -> captures -> option X) x :
  match_at r s caps k = Some x ->
  exists s' caps', runs r s caps s' caps' /\ k s' caps' = Some x.
Proof.
  revert s caps k. induction r as [l|c g lo hi|a IHa b IHb|a IHa b IHb| |n a IHa];
    intros s caps k; simpl; intros H.
  - destruct (CutPrefix s l) eqn:Hc; [|done]. apply CutPrefix_spec in Hc as ->. eauto with gocd.
  - apply match_rep_sound in H as (n & s' & ? & ? & ? & ?). exists s', caps. eauto with gocd.
  - apply IHa in H as (s' & caps' & ? & H). apply IHb in H as (s'' & caps'' & ? & ?).
    eauto with gocd.
  - destruct (match_at a s caps k) eqn:Ha.
    + simplify_eq. apply IHa in Ha as (? & ? & ? & ?). eauto with gocd.
    + apply IHb in H as (? & ? & ? & ?). eauto with gocd.
  - eauto with gocd.
  - apply IHa in H as (s' & caps' & ? & ?). eauto with gocd.
Qed.

Lemma prefix_match_runs r s s' caps : prefix_match r s = Some (s', caps) -> runs r s [] s' caps.
Proof. intros H. apply match_at_sound in H as (? & ? & ? & ?). naive_solver. Qed.

(** A match consumes a prefix. *)
Lemma in_class_suffix c n s s' : in_class c n s s' -> exists t, s = t +:+ s'.
Proof.
  induction 1 as [s|n s s1 s2 Ht _ (t & ->)]; [by exists ""|].
  assert (Hd : exists u, s = u +:+ (t +:+ s2)).
  { unfold take_class in Ht. destruct s as [|b u]; [done|].
    destruct (code b <? 128)%nat; [destruct (ascii_in c b)|destruct (other_in c)]; simplify_eq.
    - exists (String b ""). by rewrite app_cons_s, app_nil_s.
    - eexists. rewrite <-Ht. symmetry. apply stake_sdrop. }
  destruct Hd as (u & ->). exists (u +:+ t). by rewrite app_assoc_s.
Qed.

Lemma runs_suffix r s caps s' caps' : runs r s caps s' caps' -> exists t, s = t +:+ s'.
Proof.
  induction 1 as [l s|c g lo hi n s s' ? ? ? Hin|a b ? ? ? ? ? ? _ (t & ->) _ (u & ->)
                 | | |s|]; try done.
  - by exists l.
  - by eapply in_class_suffix.
  - exists (t +:+ u). by rewrite app_assoc_s.
  - by exists "".
Qed.

Lemma consumed_app t s : consumed (t +:+ s) s = t.
Proof. unfold consumed. rewrite slen_app, Nat.add_sub. apply stake_app. Qed.

(** ** The pieces are the text *)

Definition piece_text (p : piece) : string :=
  match p with Plain s => s | Found s _ => s end.
Fixpoint text_of (l : list piece) : string :=
  match l with [] => "" | p :: l => piece_text p +:+ text_of l end.

Lemma find_all_text fuel r plain s :
  slen s < fuel -> (forall u s' caps, prefix_match r u = Some (s', caps) -> slen s' < slen u) ->
  text_of (find_all fuel r plain s) = plain +:+ s.
Proof.
  intros Hf Hne. revert plain s Hf. induction fuel as [|fuel IH]; intros plain s Hf; [lia|]. simpl.
  assert (Hflush : forall l, text_of (if decide (plain = "") then l else Plain plain :: l)
                             = plain +:+ text_of l).
  { intros l. by case_decide; subst. }
  destruct (prefix_match r s) as [[s' caps]|] eqn:Hm.
  - pose proof (Hne _ _ _ Hm). rewrite Hflush. simpl. rewrite IH by lia. rewrite app_nil_s.
    apply prefix_match_runs, runs_suffix in Hm as (t & ->). by rewrite consumed_app.
  - destruct s as [|c s]; [by rewrite Hflush|]. rewrite IH.
    + by rewrite app_assoc_s, stake_sdrop.
    + rewrite slen_sdrop. pose proof (rune_width_pos c s).
      assert (slen (String c s) > 0) by (unfold slen; simpl; lia). lia.
Qed.

(** Every match of the text is a match of the pattern, and plain text is not empty. *)
Lemma find_all_pieces fuel r plain s :
  Forall (fun p => match p with
                   | Plain t => t <> ""
                   | Found t caps => exists u s', runs r u [] s' caps /\ u = t +:+ s'
                   end) (find_all fuel r plain s).
Proof.
  revert plain s. induction fuel as [|fuel IH]; intros plain s; simpl.
  { by case_decide; repeat constructor. }
  destruct (prefix_match r s) as [[s' caps]|] eqn:Hm.
  - apply prefix_match_runs in Hm. destruct (runs_suffix _ _ _ _ _ Hm) as (t & ->).
    rewrite consumed_app. case_decide; repeat constructor; eauto.
  - destruct s; [by case_decide; repeat constructor|apply IH].
Qed.

(** ** Matching the matched text again *)

(** Text that ends at an ASCII byte: no rune of it is cut. *)
Fixpoint ends_ascii (a : string) : bool :=
  match a with "" => true | String c t => match t with "" => (code c <? 128)%nat | _ => ends_ascii t end end.
Lemma ends_ascii_tail c a : ends_ascii (String c a) = true -> ends_ascii a = true.
Proof. by destruct a. Qed.
Lemma ends_ascii_sdrop n a : ends_ascii a = true -> ends_ascii (sdrop n a) = true.
Proof. revert a. induction n as [|n IH]; intros [|c a] H; simpl; try done. apply IH. by eapply ends_ascii_tail. Qed.
Lemma ends_ascii_suffix u a : ends_ascii (u +:+ a) = true -> ends_ascii a = true.
Proof. induction u as [|c u IH]; [done|]. rewrite app_cons_s. intros H%ends_ascii_tail. auto. Qed.

Lemma sdrop_app_le n a s : n <= slen a -> sdrop n (a +:+ s) = sdrop n a +:+ s.
Proof.
  revert a. induction n as [|n IH]; intros [|c a] H; try done.
  - unfold slen in H. simpl in H. lia.
  - rewrite app_cons_s. simpl. apply IH. unfold slen in *. simpl in H. lia.
Qed.
Lemma stake_app_le n a s : n <= slen a -> stake n (a +:+ s) = stake n a.
Proof.
  revert a. induction n as [|n IH]; intros [|c a] H; try done.
  - unfold slen in H. simpl in H. lia.
  - rewrite app_cons_s. simpl. f_equal. apply IH. unfold slen in *. simpl in H. lia.
Qed.
Lemma rune_width_le a : a <> "" -> rune_width a <= slen a.
Proof.
  destruct a as [|c t]; [done|]. intros _. unfold rune_width.
  assert (Hif : forall (b : bool) k m, (b = true -> k <= m) -> 1 <= m -> (if b then k else 1) <= m) by (intros [] k m H1 H2; auto).
  assert (H1 : 1 <= slen (String c t)) by (unfold slen; simpl; lia).
  destruct (code c <? 128)%nat; [done|].
  destruct ((194 <=? code c)%nat && (code c <=? 223)%nat).
  { apply Hif; [|done]. destruct t; [done|]. intros _. unfold slen. simpl. lia. }
  destruct ((224 <=? code c)%nat && (code c <=? 239)%nat).
  { apply Hif; [|done]. destruct t as [|d [|e t]]; [done|by rewrite andb_false_r|]. intros _. unfold slen. simpl. lia. }
  destruct ((240 <=? code c)%nat && (code c <=? 244)%nat); [|done].
  apply Hif; [|done]. destruct t as [|d [|e [|f t]]]; [done|by rewrite !andb_false_r|by rewrite !andb_false_r|].
  intros _. unfold slen. simpl. lia.
Qed.

Lemma not_continuation lo hi c : (code c <? 128)%nat = true -> 128 <= lo -> byte_between lo hi c = false.
Proof. intros Hc%Nat.ltb_lt Hl. unfold byte_between. apply andb_false_intro1, Nat.leb_gt. lia. Qed.
Lemma rune_width_app a s : a <> "" -> ends_ascii a = true -> rune_width (a +:+ s) = rune_width a.
Proof.
  destruct a as [|c t]; [done|]. intros _ He. rewrite app_cons_s. unfold rune_width.
  destruct (code c <? 128)%nat eqn:Ec; [done|].
  destruct t as [|d t]; [simpl in He; congruence|]. rewrite app_cons_s. cbn [sdrop].
  destruct t as [|e t].
  { assert (Hd : forall lo hi, 128 <= lo -> byte_between lo hi d = false) by (intros; by apply not_continuation).
    rewrite !Hd by (repeat case_match; lia). done. }
  destruct t as [|f t]; [|done].
  assert (Hd : byte_between 128 191 e = false) by by apply not_continuation.
  rewrite app_cons_s. cbn [sdrop cont_byte]. rewrite !Hd, !andb_false_r. done.
Qed.
Lemma take_class_app cl a s : a <> "" -> ends_ascii a = true ->
  take_class cl (a +:+ s) = (fun t => t +:+ s) <$> take_class cl a.
Proof.
  intros Hne He. pose proof (rune_width_app a s Hne He) as Hw. pose proof (rune_width_le a Hne) as Hle.
  destruct a as [|c t]; [done|]. rewrite app_cons_s in *. unfold take_class.
  destruct (code c <? 128)%nat; [by destruct (ascii_in cl c)|]. destruct (other_in cl); [|done].
  rewrite Hw. simpl. f_equal. rewrite <-app_cons_s. by apply sdrop_app_le.
Qed.

Lemma app_split l b a s : a +:+ s = l +:+ b -> slen s <= slen b -> exists a1, a = l +:+ a1 /\ b = a1 +:+ s.
Proof.
  revert a. induction l as [|c l IH]; intros a H Hle; [by exists a|]. destruct a as [|d a].
  - rewrite app_nil_s, app_cons_s in H. apply (f_equal slen) in H. unfold slen in *. simpl in H.
    change (String.length (l +:+ b)) with (slen (l +:+ b)) in H. rewrite slen_app in H. unfold slen in H. lia.
  - rewrite !app_cons_s in H. injection H as -> H. destruct (IH a H Hle) as (a1 & -> & ->). by exists a1.
Qed.
Lemma consumed_cut a a1 s : consumed (a +:+ s) (a1 +:+ s) = consumed a a1.
Proof.
  unfold consumed. rewrite !slen_app. replace (slen a + slen s - (slen a1 + slen s)) with (slen a - slen a1) by lia.
  apply stake_app_le. lia.
Qed.

(** One run on [a] followed by [s'], one on [a] alone: they take the same choices as
    long as the first does not go past [a]; [bad] is what happens then. *)
Section Cut.
Context {X Y : Type} (s' : string) (tr : X -> Y -> Prop) (bad : X -> Prop).

Definition outcome (o1 : option X) (o2 : option Y) : Prop :=
  (is_Some o2 -> is_Some o1) /\ (forall x, o1 = Some x -> bad x \/ exists y, o2 = Some y /\ tr x y).
Record cut (k1 : string -> option X) (k2 : string -> option Y) : Prop := {
  ct_in : forall a, ends_ascii a = true -> outcome (k1 (a +:+ s')) (k2 a);
  ct_past : forall b x, slen b < slen s' -> k1 b = Some x -> bad x;
}.

Lemma outcome_or o1 o2 p1 p2 : outcome o1 o2 -> outcome p1 p2 ->
  outcome (match o1 with Some x => Some x | None => p1 end) (match o2 with Some y => Some y | None => p2 end).
Proof.
  intros [H1 H2] [H3 H4]. destruct o1 as [x|].
  - split; [eauto|]. intros x' [= <-]. destruct (H2 x eq_refl) as [?|(y & -> & Ht)]; [by left|right; eauto].
  - destruct o2 as [y|]; [|by split]. destruct (H1 ltac:(eauto)) as [x Hx]. discriminate.
Qed.
Lemma match_rep_cut f1 f2 c g lo hi a k1 k2 : cut k1 k2 -> ends_ascii a = true -> slen (a +:+ s') <= f1 -> slen a <= f2 ->
  outcome (match_rep f1 c g lo hi (a +:+ s') k1) (match_rep f2 c g lo hi a k2).
Proof.
  intros Hk. revert f2 lo hi a. induction f1 as [|f1 IH]; intros f2 lo hi a He Hf1 Hf2.
  { assert (a = "" /\ s' = "") as [-> Hs'].
    { rewrite slen_app in Hf1. destruct a, s'; try done; unfold slen in Hf1; simpl in Hf1; lia. }
    rewrite app_nil_s, Hs' in *. simpl. assert (H0 : outcome (None : option X) (None : option Y)) by (split; [done|discriminate]).
    pose proof (ct_in _ _ Hk "" eq_refl) as Hin. rewrite app_nil_s, Hs' in Hin.
    destruct f2 as [|f2]; simpl; destruct lo as [|lo]; try destruct g; try (destruct hi as [[|h]|]); try exact H0; try exact Hin; simpl.
    all: first [exact Hin | apply outcome_or; done]. }
  set (more1 := match hi with Some 0 => None | _ => match take_class c (a +:+ s') with
                  | Some t => match_rep f1 c g (pred lo) (pred <$> hi) t k1 | None => None end end).
  set (more2 := match f2, hi with 0, _ | _, Some 0 => None | S f2, _ => match take_class c a with
                  | Some t => match_rep f2 c g (pred lo) (pred <$> hi) t k2 | None => None end end).
  assert (Hmore : outcome more1 more2).
  { subst more1 more2. destruct (decide (hi = Some 0)) as [->|Hhi]; [destruct f2; (split; [done|discriminate])|].
    destruct a as [|b t].
    - rewrite app_nil_s. replace (match f2, hi with 0, _ | _, Some 0 => None | S f2, _ => _ end) with (@None Y)
        by (destruct f2 as [|f2]; [done|by destruct hi as [[|h]|]]).
      split; [by intros [? ?]|]. intros x Hx. left. destruct hi as [[|h]|]; [done| |];
        (destruct (take_class c s') as [u|] eqn:Ht; [|discriminate]; apply match_rep_sound in Hx as (n & v & _ & _ & Hin & Hv);
         apply in_class_slen in Hin; apply take_class_slen in Ht; apply (ct_past _ _ Hk v x); [lia|done]).
    - rewrite take_class_app by done. destruct f2 as [|f2]; [unfold slen in Hf2; simpl in Hf2; lia|].
      destruct (take_class c (String b t)) as [u|] eqn:Ht; simpl.
      + pose proof (take_class_slen _ _ _ Ht) as Hlt. rewrite slen_app in Hf1.
        assert (Hu : ends_ascii u = true).
        { destruct (in_class_suffix c 1 (String b t) u) as [v Hv]; [econstructor; [exact Ht|constructor]|]. rewrite Hv in He. by eapply ends_ascii_suffix. }
        assert (H1 : slen (u +:+ s') <= f1) by (rewrite slen_app; lia). assert (H2 : slen u <= f2) by lia.
        destruct hi as [[|h]|]; [done| |]; by apply IH.
      + destruct hi as [[|h]|]; (split; [by intros [? ?]|discriminate]). }
  assert (E1 : match_rep (S f1) c g lo hi (a +:+ s') k1 =
    match lo with S _ => more1 | 0 => if g then match more1 with Some x => Some x | None => k1 (a +:+ s') end
                                      else match k1 (a +:+ s') with Some x => Some x | None => more1 end end).
  { by destruct lo, hi as [[|h]|]. }
  assert (E2 : match_rep f2 c g lo hi a k2 =
    match lo with S _ => more2 | 0 => if g then match more2 with Some x => Some x | None => k2 a end
                                      else match k2 a with Some x => Some x | None => more2 end end).
  { by destruct f2, lo, hi as [[|h]|]. }
  rewrite E1, E2. pose proof (ct_in _ _ Hk a He). destruct lo; [|done]. destruct g; by apply outcome_or.
Qed.

Lemma match_at_past r k1 : (forall b caps x, slen b < slen s' -> k1 b caps = Some x -> bad x) ->
  forall b caps x, slen b < slen s' -> match_at r b caps k1 = Some x -> bad x.
Proof.
  intros Hk b caps x Hb H. apply match_at_sound in H as (b' & caps' & Hr & Hx).
  apply runs_suffix in Hr as [t ->]. rewrite slen_app in Hb. apply (Hk b' caps'); [lia|done].
Qed.
Lemma match_at_cut r k1 k2 : (forall caps, cut (fun s => k1 s caps) (fun s => k2 s caps)) ->
  forall a caps, ends_ascii a = true -> outcome (match_at r (a +:+ s') caps k1) (match_at r a caps k2).
Proof.
  revert k1 k2. induction r as [l|c g lo hi|r1 IH1 r2 IH2|r1 IH1 r2 IH2| |n r IH]; intros k1 k2 Hk a caps He; simpl.
  - destruct (CutPrefix a l) as [a1|] eqn:E.
    + apply CutPrefix_spec in E as ->. rewrite app_assoc_s.
      rewrite (proj2 (CutPrefix_spec _ _ _) eq_refl). apply (Hk caps). by eapply ends_ascii_suffix.
    + split; [by intros [? ?]|]. intros x Hx. left. destruct (CutPrefix (a +:+ s') l) as [b|] eqn:E1; [|discriminate].
      apply CutPrefix_spec in E1. apply (ct_past _ _ (Hk caps) b x); [|done].
      destruct (decide (slen s' <= slen b)) as [Hle|]; [|lia]. destruct (app_split _ _ _ _ E1 Hle) as (a1 & -> & _).
      by rewrite (proj2 (CutPrefix_spec _ _ _) eq_refl) in E.
  - apply match_rep_cut; [apply Hk|done|done|done].
  - apply IH1; [|done]. intros caps'. split; [intros a' He'; by apply IH2|].
    intros b x Hb. apply match_at_past; [|done]. intros b' caps'' x'. apply (ct_past _ _ (Hk caps'')).
  - apply outcome_or; [by apply IH1|by apply IH2].
  - by apply Hk.
  - apply IH; [|done]. intros caps'. split.
    + intros a1 He1. rewrite consumed_cut. by apply (ct_in _ _ (Hk _)).
    + intros b x. apply (ct_past _ _ (Hk _)).
Qed.
End Cut.

(** [FindStringSubmatch] on the text of a match gives the groups of that match. *)
Lemma rematch r t s' caps : prefix_match r (t +:+ s') = Some (s', caps) -> ends_ascii t = true ->
  prefix_match r t = Some ("", caps).
Proof.
  intros H He. unfold prefix_match in *.
  destruct (match_at_cut s' (fun x y : string * captures => x.1 = y.1 +:+ s' /\ x.2 = y.2) (fun x => slen x.1 < slen s') r
              (fun u caps => Some (u, caps)) (fun u caps => Some (u, caps))) with (a := t) (caps := @nil (nat * string)) as [_ Hx]; [|done|].
  - intros caps'. split; [|by intros b x Hb [= <-]]. intros a _. split; [eauto|]. intros x [= <-]. right. eauto.
  - destruct (Hx _ H) as [Hb|([a caps'] & -> & Ha & Hc)]; simpl in *; [lia|]. subst caps'. f_equal. f_equal.
    destruct a as [|b a]; [done|]. apply (f_equal slen) in Ha. rewrite slen_app in Ha. unfold slen in Ha. simpl in Ha. lia.
Qed.

Lemma app_inv_tail_s s t u : t +:+ s = u +:+ s -> t = u.
Proof.
  intros H. destruct (app_split u s t s H) as (a & -> & Ha); [done|].
  destruct a as [|c a]; [clear; induction u as [|d u IH]; [done|]; by rewrite app_cons_s, IH|].
  apply (f_equal slen) in Ha. rewrite slen_app in Ha. unfold slen in Ha. simpl in Ha. lia.
Qed.
Lemma ends_ascii_app a b : b <> "" -> ends_ascii b = true -> ends_ascii (a +:+ b) = true.
Proof.
  intros Hb He. induction a as [|c a IH]; [done|]. rewrite app_cons_s. simpl.
  destruct (a +:+ b) as [|d v] eqn:E; [|done]. destruct a; [by rewrite app_nil_s in E|by rewrite app_cons_s in E].
Qed.
(** Every piece found is the leftmost match where it is. *)
Lemma find_all_matches fuel r plain s t caps : Found t caps ∈ find_all fuel r plain s ->
  exists s', prefix_match r (t +:+ s') = Some (s', caps).
Proof.
  revert plain s. induction fuel as [|fuel IH]; intros plain s; cbn [find_all].
  { intros H. case_decide; [by apply elem_of_nil in H|]. apply list_elem_of_singleton in H. done. }
  destruct (prefix_match r s) as [[s' caps']|] eqn:Hm.
  - intros H. assert (Hin : Found t caps ∈ Found (consumed s s') caps' :: find_all fuel r "" s').
    { case_decide; [done|]. by apply elem_of_cons in H as [|]. }
    apply elem_of_cons in Hin as [[= -> ->]|Hin]; [|by eapply IH].
    exists s'. pose proof Hm as Hr. apply prefix_match_runs, runs_suffix in Hr as [u ->]. by rewrite consumed_app.
  - destruct s as [|c s]; [|by apply IH]. intros H. case_decide; [by apply elem_of_nil in H|].
    by apply list_elem_of_singleton in H.
Qed.
