(* ===== verification/GoTime.v ===== *)
(** Go's [time.ParseDuration], with its 64-bit and floating-point arithmetic. *)

From S2P Require Import Prelude GoStrings.
From Stdlib Require Import Floats.SpecFloat.

(** ** float64, by its specification *)

Definition float64 := spec_float.
Definition f64_of_Z (z : Z) : float64 := binary_normalize 53 1024 z 0 false.
Definition f64_mul : float64 -> float64 -> float64 := SFmul 53 1024.
Definition f64_div : float64 -> float64 -> float64 := SFdiv 53 1024.
(** [uint64(f)] of a non-negative float in range: truncation. *)
Definition uint64_of_f64 (f : float64) : Z :=
  match f with
  | S754_finite false m e => Z.shiftl (Zpos m) e
  | _ => 0%Z
  end.

(** ** Digits *)

Inductive duration_error :=
| InvalidDuration | MissingUnit | UnknownUnit (u : string).

Definition digit_of (c : Ascii.ascii) : Z := Z.of_nat (code c - 48).

(** [leadingInt]: [None] on overflow. *)
Fixpoint leadingInt (x : Z) (s : string) : option (Z * string) :=
  match s with
  | String c s' =>
      if is_digit c then
        if (2 ^ 63 / 10 <? x)%Z then None
        else
          let x := (x * 10 + digit_of c)%Z in
          if (2 ^ 63 <? x)%Z then None else leadingInt x s'
      else Some (x, s)
  | "" => Some (x, "")
  end.

(** [leadingFraction]: digits past an overflow are skipped. *)
Fixpoint leadingFraction (overflow : bool) (x : Z) (scale : float64) (s : string)
    : Z * float64 * string :=
  match s with
  | String c s' =>
      if is_digit c then
        if overflow || ((2 ^ 63 - 1) / 10 <? x)%Z then leadingFraction true x scale s'
        else
          let y := (x * 10 + digit_of c)%Z in
          if (2 ^ 63 <? y)%Z then leadingFraction true x scale s'
          else leadingFraction false y (f64_mul scale (f64_of_Z 10)) s'
      else (x, scale, s)
  | "" => (x, scale, "")
  end.

(** ** Units *)

(** The two encodings of the micro sign: U+00B5 and U+03BC. *)
Definition unitMap : gmap string Z :=
  list_to_map [("ns", 1); ("us", 1000); (bytes [194; 181]%nat +:+ "s", 1000);
               (bytes [206; 188]%nat +:+ "s", 1000); ("ms", 1000000); ("s", Second);
               ("m", Minute); ("h", Hour)]%Z.

Definition unit_stop (c : Ascii.ascii) : bool := bool_decide (c = "."%char) || is_digit c.
Fixpoint take_unit (s : string) : string * string :=
  match s with
  | "" => ("", "")
  | String c s' => if unit_stop c then ("", s)
                   else let '(u, rest) := take_unit s' in (String c u, rest)
  end.

(** One [digits(.digits)?unit] round: the nanoseconds it adds and the rest. *)
Definition duration_chunk (s : string) : result duration_error (Z * string) :=
  match s with
  | "" => Err InvalidDuration
  | String c _ =>
      if negb (unit_stop c) then Err InvalidDuration
      else match leadingInt 0 s with
      | None => Err InvalidDuration
      | Some (v, s1) =>
          let pre := negb (slen s =? slen s1)%nat in
          let '(f, scale, s2, post) :=
            match s1 with
            | String "." s1' =>
                let '(f, scale, s2) := leadingFraction false 0 (f64_of_Z 1) s1' in
                (f, scale, s2, negb (slen s1' =? slen s2)%nat)
            | _ => (0%Z, f64_of_Z 1, s1, false)
            end in
          if negb (pre || post) then Err InvalidDuration
          else
            let '(u, s3) := take_unit s2 in
            if decide (u = "") then Err MissingUnit
            else match unitMap !! u with
            | None => Err (UnknownUnit u)
            | Some unit =>
                if (2 ^ 63 / unit <? v)%Z then Err InvalidDuration
                else
                  let v := (v * unit)%Z in
                  let v := if (0 <? f)%Z
                           then (v + uint64_of_f64 (f64_mul (f64_of_Z f)
                                       (f64_div (f64_of_Z unit) scale)))%Z
                           else v in
                  if (0 <? f)%Z && (2 ^ 63 <? v)%Z then Err InvalidDuration else Ok (v, s3)
            end
      end
  end.

(** The loop; [d] is a uint64, so the sum wraps before it is compared. *)
Fixpoint duration_loop (fuel : nat) (d : Z) (s : string) : result duration_error Z :=
  match s, fuel with
  | "", _ => Ok d
  | _, 0 => Err InvalidDuration
  | _, S fuel =>
      match duration_chunk s with
      | Err e => Err e
      | Ok (v, s) =>
          let d := ((d + v) mod 2 ^ 64)%Z in
          if (2 ^ 63 <? d)%Z then Err InvalidDuration else duration_loop fuel d s
      end
  end.

(** Each round consumes a byte, so the length is enough fuel. *)
Definition ParseDuration (s : string) : result duration_error Duration :=
  let neg := match s with String "-" _ => true | _ => false end in
  let s := match s with String "-" t | String "+" t => t | _ => s end in
  if decide (s = "0") then Ok 0%Z
  else if decide (s = "") then Err InvalidDuration
  else match duration_loop (slen s) 0 s with
       | Err e => Err e
       | Ok d => if neg then Ok (- d)%Z
                 else if (2 ^ 63 - 1 <? d)%Z then Err InvalidDuration else Ok d
       end.

Example parse_durations :
  ParseDuration <$> ["5m"; "1h30m"; "1.5h"; "-90s"; "0"; "7d"; "300"; ".s"; "100000h"; "2562048h";
                     "0.1s"; ""]
  = [Ok (5 * Minute); Ok (90 * Minute); Ok (90 * Minute); Ok (- 90 * Second); Ok 0;
     Err (UnknownUnit "d"); Err MissingUnit; Err InvalidDuration; Ok (100000 * Hour);
     Err InvalidDuration; Ok (100 * 1000000); Err InvalidDuration]%Z.
Proof. vm_compute. reflexivity. Qed.

(** ** Range *)

Lemma duration_loop_range fuel d s r :
  (0 <= d <= 2 ^ 63)%Z -> duration_loop fuel d s = Ok r -> (0 <= r <= 2 ^ 63)%Z.
Proof.
  revert d s. induction fuel as [|fuel IH]; intros d s Hd; destruct s as [|c s]; cbn [duration_loop];
    [by intros [= <-]|done|by intros [= <-]|].
  destruct (duration_chunk (String c s)) as [[v s']|e]; [|done].
  destruct (Z.ltb_spec (2 ^ 63) ((d + v) mod 2 ^ 64)) as [|Hle]; [done|].
  apply IH. split; [|exact Hle]. by apply Z.mod_pos_bound.
Qed.

(** A parsed duration is a 64-bit integer. *)
Lemma ParseDuration_range s d : ParseDuration s = Ok d -> (min_duration <= d <= max_duration)%Z.
Proof.
  unfold ParseDuration, min_duration, max_duration.
  set (neg := match s with String "-" _ => true | _ => false end).
  set (t := match s with String "-" t | String "+" t => t | _ => s end).
  case_decide; [intros [= <-]; lia|]. case_decide; [done|].
  destruct (duration_loop (slen t) 0 t) as [r|] eqn:Hr; [|done].
  apply duration_loop_range in Hr; [|lia].
  destruct neg; [intros [= <-]; lia|].
  destruct (Z.ltb_spec (2 ^ 63 - 1) r); [done|]. intros [= <-]. lia.
Qed.

(** ** [time.Parse(time.RFC3339, s)] *)

(** [getnum]: two digits, or one when [fixed] is false. *)
Definition getnum (fixed : bool) (s : string) : option (Z * string) :=
  match s with
  | String a s' =>
      if is_digit a then
        match s' with
        | String b s'' => if is_digit b then Some ((10 * digit_of a + digit_of b)%Z, s'')
                          else if fixed then None else Some (digit_of a, s')
        | "" => if fixed then None else Some (digit_of a, "")
        end
      else None
  | "" => None
  end.
Definition skip_byte (c : Ascii.ascii) (s : string) : option string :=
  match s with String d s' => if decide (d = c) then Some s' else None | "" => None end.
Definition between (lo hi z : Z) : option unit := if ((lo <=? z) && (z <=? hi))%Z then Some tt else None.

Definition parse_year (s : string) : option (Z * string) :=
  '(a, s) ← getnum true s; '(b, s) ← getnum true s; Some ((100 * a + b)%Z, s).

(** A fraction may follow the seconds although the layout has none; at most nine
    digits count. *)
Fixpoint fraction_digits (room : nat) (acc : Z) (s : string) : Z * string :=
  match s with
  | String c s' =>
      if is_digit c then
        match room with
        | 0 => fraction_digits 0 acc s'
        | S k => fraction_digits k (10 * acc + digit_of c)%Z s'
        end
      else ((acc * 10 ^ Z.of_nat room)%Z, s)
  | "" => ((acc * 10 ^ Z.of_nat room)%Z, "")
  end.
Definition parse_fraction (s : string) : Z * string :=
  match s with
  | String c (String d _ as s') =>
      if (bool_decide (c = "."%char) || bool_decide (c = ","%char)) && is_digit d
      then fraction_digits 9 0 s' else (0%Z, s)
  | _ => (0%Z, s)
  end.

(** The offset from UTC in seconds. *)
Definition parse_zone (s : string) : option (Z * string) :=
  match s with
  | String "Z" s' => Some (0%Z, s')
  | String c s' =>
      '(hr, s') ← getnum true s'; s' ← skip_byte ":" s'; '(mm, s') ← getnum true s';
      _ ← between 0 24 hr; _ ← between 0 60 mm;
      let off := ((hr * 60 + mm) * 60)%Z in
      if decide (c = "+"%char) then Some (off, s')
      else if decide (c = "-"%char) then Some ((- off)%Z, s') else None
  | "" => None
  end.

Definition is_leap (y : Z) : bool :=
  ((y mod 4 =? 0) && (negb (y mod 100 =? 0) || (y mod 400 =? 0)))%Z.
Definition days_in (m y : Z) : Z :=
  if (m =? 2)%Z then if is_leap y then 29 else 28
  else if bool_decide (m = 4 \/ m = 6 \/ m = 9 \/ m = 11)%Z then 30 else 31.
(** Days since 1 January 1970 in the proleptic Gregorian calendar. *)
Definition days_from_civil (y m d : Z) : Z :=
  let y' := if (m <=? 2)%Z then (y - 1)%Z else y in
  let era := (y' / 400)%Z in
  let yoe := (y' - era * 400)%Z in
  let doy := ((153 * (if (2 <? m)%Z then m - 3 else m + 9) + 2) / 5 + d - 1)%Z in
  let doe := (yoe * 365 + yoe / 4 - yoe / 100 + doy)%Z in
  (era * 146097 + doe - 719468)%Z.

Definition ParseRFC3339 (s : string) : option Time :=
  '(year, s) ← parse_year s; s ← skip_byte "-" s;
  '(month, s) ← getnum true s; _ ← between 1 12 month; s ← skip_byte "-" s;
  '(day, s) ← getnum true s; s ← skip_byte "T" s;
  '(hour, s) ← getnum false s; _ ← between 0 23 hour; s ← skip_byte ":" s;
  '(min, s) ← getnum true s; _ ← between 0 59 min; s ← skip_byte ":" s;
  '(sec, s) ← getnum true s; _ ← between 0 59 sec;
  let '(nsec, s) := parse_fraction s in
  '(off, s) ← parse_zone s;
  if decide (s <> "") then None
  else
    _ ← between 1 (days_in month year) day;
    Some ((days_from_civil year month day * 86400 + hour * 3600 + min * 60 + sec - off)
            * 1000000000 + nsec)%Z.

Example rfc3339_epoch : ParseRFC3339 "1970-01-01T00:00:00Z" = Some 0%Z.
Proof. reflexivity. Qed.
Example rfc3339_zone : ParseRFC3339 "2024-02-29T12:30:45.25+02:00" = Some 1709202645250000000%Z.
Proof. reflexivity. Qed.
Example rfc3339_day : ParseRFC3339 "2023-02-29T00:00:00Z" = None.
Proof. reflexivity. Qed.
