(* ===== verification/GoSha256.v ===== *)
(** Go's [crypto/sha256.Sum256] and [hex.EncodeToString], which the material
    fingerprints go through. *)

From S2P Require Import Prelude GoStrings.

(** ** 32-bit words *)

Definition w32 (z : Z) : Z := (z mod 2 ^ 32)%Z.
Definition add32 (a b : Z) : Z := w32 (a + b).
Definition rotr (n x : Z) : Z := Z.lor (Z.shiftr x n) (w32 (Z.shiftl x (32 - n))).
Definition xor3 (a b c : Z) : Z := Z.lxor a (Z.lxor b c).

Definition K256 : list Z :=
  [1116352408; 1899447441; 3049323471; 3921009573; 961987163; 1508970993;
   2453635748; 2870763221; 3624381080; 310598401; 607225278; 1426881987;
   1925078388; 2162078206; 2614888103; 3248222580; 3835390401; 4022224774;
   264347078; 604807628; 770255983; 1249150122; 1555081692; 1996064986;
   2554220882; 2821834349; 2952996808; 3210313671; 3336571891; 3584528711;
   113926993; 338241895; 666307205; 773529912; 1294757372; 1396182291;
   1695183700; 1986661051; 2177026350; 2456956037; 2730485921; 2820302411;
   3259730800; 3345764771; 3516065817; 3600352804; 4094571909; 275423344;
   430227734; 506948616; 659060556; 883997877; 958139571; 1322822218;
   1537002063; 1747873779; 1955562222; 2024104815; 2227730452; 2361852424;
   2428436474; 2756734187; 3204031479; 3329325298]%Z.
Definition H256 : list Z :=
  [1779033703; 3144134277; 1013904242; 2773480762; 1359893119; 2600822924;
   528734635; 1541459225]%Z.

(** ** Compression *)

Definition small0 (x : Z) : Z := xor3 (rotr 7 x) (rotr 18 x) (Z.shiftr x 3).
Definition small1 (x : Z) : Z := xor3 (rotr 17 x) (rotr 19 x) (Z.shiftr x 10).
Definition big0 (x : Z) : Z := xor3 (rotr 2 x) (rotr 13 x) (rotr 22 x).
Definition big1 (x : Z) : Z := xor3 (rotr 6 x) (rotr 11 x) (rotr 25 x).
Definition ch (x y z : Z) : Z := Z.lxor (Z.land x y) (Z.land (Z.lxor x (2 ^ 32 - 1)) z).
Definition maj (x y z : Z) : Z := xor3 (Z.land x y) (Z.land x z) (Z.land y z).

(** The schedule, as a sliding window of the last sixteen words. *)
Fixpoint schedule (n : nat) (w : list Z) : list Z :=
  match n with
  | 0 => []
  | S n =>
      let at_ i := nth i w 0%Z in
      let next := add32 (add32 (small1 (at_ 14)) (at_ 9)) (add32 (small0 (at_ 1)) (at_ 0)) in
      at_ 0 :: schedule n (drop 1 w ++ [next])
  end.

Definition round (st : list Z) (kw : Z * Z) : list Z :=
  match st with
  | [a; b; c; d; e; f; g; h] =>
      let t1 := add32 (add32 h (big1 e)) (add32 (ch e f g) (add32 (fst kw) (snd kw))) in
      let t2 := add32 (big0 a) (maj a b c) in
      [add32 t1 t2; a; b; c; add32 d t1; e; f; g]
  | _ => st
  end.

Definition compress (h : list Z) (block : list Z) : list Z :=
  zip_with add32 h (foldl round h (zip K256 (schedule 64 block))).

(** ** Padding and output *)

Fixpoint byte_list (s : string) : list Z :=
  match s with "" => [] | String c s => Z.of_nat (code c) :: byte_list s end.
Definition be (n : nat) (z : Z) : list Z :=
  (fun i => (Z.shiftr z (8 * Z.of_nat (n - 1 - i)) mod 256)%Z) <$> seq 0 n.
Definition pad (l : list Z) : list Z :=
  let n := length l in
  l ++ [128%Z] ++ replicate ((119 - n mod 64) mod 64) 0%Z ++ be 8 (8 * Z.of_nat n)%Z.
Fixpoint words (fuel : nat) (l : list Z) : list Z :=
  match fuel, l with
  | S fuel, a :: b :: c :: d :: l => (a * 2 ^ 24 + b * 2 ^ 16 + c * 2 ^ 8 + d)%Z :: words fuel l
  | _, _ => []
  end.
Fixpoint blocks (fuel : nat) (l : list Z) : list (list Z) :=
  match fuel, l with
  | S fuel, _ :: _ => take 16 l :: blocks fuel (drop 16 l)
  | _, _ => []
  end.
Definition Sum256 (s : string) : list Z :=
  let p := pad (byte_list s) in
  let ws := words (length p) p in
  foldl compress H256 (blocks (length ws) ws) ≫= be 4.

Definition hex_digit (z : Z) : Ascii.ascii :=
  Ascii.ascii_of_nat (if (z <? 10)%Z then Z.to_nat z + 48 else Z.to_nat z + 87).
Definition EncodeToString (l : list Z) : string :=
  foldr (fun z s => String (hex_digit (z / 16)%Z) (String (hex_digit (z mod 16)%Z) s)) "" l.
Definition sha256_hex (s : string) : string := EncodeToString (Sum256 s).

Example sha256_vectors :
  sha256_hex <$> [""; "abc"; "abcdbcdecdefdefgefghfghighijhijkijkljklmklmnlmnomnopnopq"]
  = ["e3b0c44298fc1c149afbf4c8996fb92427ae41e4649b934ca495991b7852b855";
     "ba7816bf8f01cfea414140de5dae2223b00361a396177a9cb410ff61f20015ad";
     "248d6a61d20638b8e5c026930c3e6039a33ce45964ff2167f6ecedd419db06c1"].
Proof. vm_compute. reflexivity. Qed.
