(* ===== verification/Domain.v ===== *)
(** [server/pkg/domain]: the pipeline data model and its pure helpers. *)

From S2P Require Import Prelude GoStrings GoTime GoSha256.

(** ** Data *)

Record ResourceQuantities := { RQ_CPU : string; RQ_Memory : string }.
Record ResourceSpec := { Requests : ResourceQuantities; Limits : ResourceQuantities }.

Record PluginStep := { Plugin_Image : string; Plugin_Settings : gmap string string }.
Record Task := { Task_Script : string; Task_Plugin : option PluginStep }.
Record Rule := { Rule_IfExpr : string; Rule_When : string; Rule_Changes : list string }.

Record CacheSpec := { Cache_Key : string; Cache_Paths : list string }.
Record ArtifactDep := {
  Dep_FromJob : string;
  Dep_FromPipeline : string;
  Dep_Paths : list string;
  Dep_Dest : string;
}.
Record CoverageReportSpec := {
  Coverage_Path : string;
  Coverage_Format : string;
  Coverage_FailUnder : float64;
}.
Record IDTokenSpec := { Aud : list string }.

Record DeployTargetSpec := {
  Target_Cluster : string;
  Target_Application : string;
  Target_Namespace : string;
  Target_SyncMode : string;
}.
Record DeploySpec := {
  Deploy_Environment : string;
  Deploy_Version : string;
  Deploy_Revision : string;
  Deploy_Target : option DeployTargetSpec;
}.

Record ApprovalSpec := {
  Approvers : list string;
  ApproverGroups : list string;
  Required : Z;
  QuorumByLabel : gmap string Z;
  Description : string;
  Timeout : Duration;
}.

Record Job := {
  Job_Name : string;
  Job_Stage : string;
  Job_Image : string;
  Job_Profile : string;
  Job_Cluster : string;
  Job_Resources : ResourceSpec;
  Job_Needs : list string;
  Job_Tasks : list Task;
  Job_Settings : gmap string string;
  Job_Variables : gmap string string;
  Job_Matrix : gmap string (list string);
  Job_Rules : list Rule;
  Job_Secrets : list string;
  Job_Tags : list string;
  Job_ArtifactPaths : list string;
  Job_OptionalArtifactPaths : list string;
  Job_ArtifactsWhen : string;
  Job_ArtifactDeps : list ArtifactDep;
  Job_Docker : bool;
  Job_Cache : list CacheSpec;
  Job_Approval : option ApprovalSpec;
  Job_CoverageReport : option CoverageReportSpec;
  Job_TestReports : list string;
  Job_Outputs : gmap string string;
  Job_OutputMasks : gmap string bool;
  Job_IDTokens : gmap string IDTokenSpec;
  Job_Deploy : option DeploySpec;
  Job_Environment : string;
}.

Inductive NotificationTrigger :=
| NotifyOnFailure | NotifyOnSuccess | NotifyOnAlways | NotifyOnCanceled.
Record Notification := {
  Notif_On : NotificationTrigger;
  Notif_Uses : string;
  Notif_With : gmap string string;
  Notif_Secrets : list string;
}.

Record Toleration := {
  Tol_Key : string;
  Tol_Operator : string;
  Tol_Value : string;
  Tol_Effect : string;
  TolerationSeconds : option Z;
}.
Record Service := {
  Service_Name : string;
  Service_Image : string;
  Service_Env : gmap string string;
  Service_Command : list string;
  Service_NodeSelector : gmap string string;
  Service_Tolerations : list Toleration;
}.

Inductive MaterialType := MaterialGit | MaterialUpstream | MaterialCron | MaterialManual.
Record GitMaterial := {
  Git_URL : string;
  Git_Branch : string;
  Git_Events : list string;
  Git_AutoRegisterWebhook : bool;
  Git_SecretRef : string;
  Git_Paths : list string;
  Git_PollInterval : Duration;
}.
Record UpstreamMaterial := {
  Upstream_Pipeline : string;
  Upstream_Stage : string;
  Upstream_Status : string;
}.
Record CronMaterial := { Cron_Expression : string }.
Record Material := {
  Material_ID : string;
  Material_Type : MaterialType;
  Fingerprint : string;
  AutoUpdate : bool;
  Implicit : bool;
  Material_Git : option GitMaterial;
  Material_Upstream : option UpstreamMaterial;
  Material_Cron : option CronMaterial;
}.

Record Pipeline := {
  Pipeline_ID : string;
  ProjectID : string;
  Pipeline_Name : string;
  Materials : list Material;
  Stages : list string;
  Jobs : list Job;
  Pipeline_Variables : gmap string string;
  Template : string;
  Concurrency : string;
  Supersede : string;
  TriggerEvents : list string;
  TriggerBranches : list string;
  TriggerPaths : list string;
  Services : list Service;
  Notifications : option (list Notification);
}.

(** Go's zero values. *)
Definition zero_resources : ResourceSpec :=
  {| Requests := {| RQ_CPU := ""; RQ_Memory := "" |};
     Limits := {| RQ_CPU := ""; RQ_Memory := "" |} |}.
Definition zero_job : Job := {|
  Job_Name := ""; Job_Stage := ""; Job_Image := ""; Job_Profile := ""; Job_Cluster := "";
  Job_Resources := zero_resources; Job_Needs := []; Job_Tasks := []; Job_Settings := ∅;
  Job_Variables := ∅; Job_Matrix := ∅; Job_Rules := []; Job_Secrets := []; Job_Tags := [];
  Job_ArtifactPaths := []; Job_OptionalArtifactPaths := []; Job_ArtifactsWhen := "";
  Job_ArtifactDeps := []; Job_Docker := false; Job_Cache := []; Job_Approval := None;
  Job_CoverageReport := None; Job_TestReports := []; Job_Outputs := ∅; Job_OutputMasks := ∅;
  Job_IDTokens := ∅; Job_Deploy := None; Job_Environment := "";
|}.
Definition zero_pipeline : Pipeline := {|
  Pipeline_ID := ""; ProjectID := ""; Pipeline_Name := ""; Materials := []; Stages := [];
  Jobs := []; Pipeline_Variables := ∅; Template := ""; Concurrency := ""; Supersede := "";
  TriggerEvents := []; TriggerBranches := []; TriggerPaths := []; Services := [];
  Notifications := None;
|}.

(** The pipeline with other stages and jobs: [out.Stages = ...; out.Jobs = ...]
    on a struct copy. *)
Definition with_stages_jobs (p : Pipeline) (stages : list string) (jobs : list Job) : Pipeline := {|
  Pipeline_ID := Pipeline_ID p; ProjectID := ProjectID p; Pipeline_Name := Pipeline_Name p;
  Materials := Materials p; Stages := stages; Jobs := jobs;
  Pipeline_Variables := Pipeline_Variables p; Template := Template p;
  Concurrency := Concurrency p; Supersede := Supersede p; TriggerEvents := TriggerEvents p;
  TriggerBranches := TriggerBranches p; TriggerPaths := TriggerPaths p;
  Services := Services p; Notifications := Notifications p;
|}.

(** A job with only the fields the gate graph and the validators read. *)
Definition mk_job (name stage : string) (needs : list string)
    (approval : option ApprovalSpec) (deploy : option DeploySpec) (env : string) : Job := {|
  Job_Name := name; Job_Stage := stage; Job_Image := ""; Job_Profile := ""; Job_Cluster := "";
  Job_Resources := zero_resources; Job_Needs := needs; Job_Tasks := []; Job_Settings := ∅;
  Job_Variables := ∅; Job_Matrix := ∅; Job_Rules := []; Job_Secrets := []; Job_Tags := [];
  Job_ArtifactPaths := []; Job_OptionalArtifactPaths := []; Job_ArtifactsWhen := "";
  Job_ArtifactDeps := []; Job_Docker := false; Job_Cache := []; Job_Approval := approval;
  Job_CoverageReport := None; Job_TestReports := []; Job_Outputs := ∅; Job_OutputMasks := ∅;
  Job_IDTokens := ∅; Job_Deploy := deploy; Job_Environment := env;
|}.
Definition mk_approval : ApprovalSpec := {|
  Approvers := []; ApproverGroups := []; Required := 1; QuorumByLabel := ∅; Description := "";
  Timeout := 0%Z;
|}.
Definition mk_deploy (env : string) : DeploySpec := {|
  Deploy_Environment := env; Deploy_Version := ""; Deploy_Revision := ""; Deploy_Target := None;
|}.
Definition mk_pipeline (stages : list string) (jobs : list Job) : Pipeline :=
  with_stages_jobs zero_pipeline stages jobs.

(** ** Helpers of [pipeline.go] *)

(** [ResourceSpec.IsZero]. *)
Definition IsZero (r : ResourceSpec) : bool :=
  bool_decide (RQ_CPU (Requests r) = "") && bool_decide (RQ_Memory (Requests r) = "") &&
  bool_decide (RQ_CPU (Limits r) = "") && bool_decide (RQ_Memory (Limits r) = "").

Definition TargetEnvironment (j : Job) : string :=
  match Job_Deploy j with
  | Some d => if decide (Deploy_Environment d <> "") then Deploy_Environment d
              else Job_Environment j
  | None => Job_Environment j
  end.

Definition ApprovalTimeoutNever : Duration := (-1)%Z.
Definition ApprovalTimeoutMin : Duration := Minute.
Definition ApprovalTimeoutMax : Duration := (90 * 24 * Hour)%Z.

Definition EffectiveApprovalTimeout (a : option ApprovalSpec) (serverDefault : Duration)
    : Duration * bool :=
  match a with
  | None => (0%Z, false)
  | Some a =>
      if (Timeout a =? ApprovalTimeoutNever)%Z then (0%Z, false)
      else if (0 <? Timeout a)%Z then (Timeout a, true)
      else if (0 <? serverDefault)%Z then (serverDefault, true)
      else (0%Z, false)
  end.

(** Git URLs. *)
Section GitURL.
Context `{UnicodeCase}.

Definition normalizeGitURL (raw : string) : string :=
  let s := TrimSpace raw in
  let s := TrimRightByte s "/"%char in
  let s := TrimSuffix s ".git" in
  if HasPrefix s "git@" then
    let after := TrimPrefix s "git@" in
    match Index after ":" with
    | Some (S i) =>
        let host := ToLower (stake (S i) after) in
        let path := TrimLeftByte (sdrop (S (S i)) after) "/"%char in
        host +:+ "/" +:+ path
    | _ => ToLower s
    end
  else
    match Index s "://" with
    | Some i =>
        let rest := sdrop (i + 3) s in
        let rest := match Index rest "@" with
                    | Some at_ => sdrop (at_ + 1) rest
                    | None => rest
                    end in
        match Index rest "/" with
        | Some j => ToLower (stake j rest) +:+ sdrop j rest
        | None => ToLower rest
        end
    | None => s
    end.
Definition NormalizeGitURL (raw : string) : string := normalizeGitURL raw.

(** The canonical fingerprints: parts joined by a NUL byte, hashed. *)
Definition nul : string := bytes [0].
Definition GitFingerprint (cloneURL branch : string) : string :=
  sha256_hex (normalizeGitURL cloneURL +:+ nul +:+ branch).
End GitURL.

Definition UpstreamFingerprint (pipeline stage : string) : string :=
  sha256_hex ("upstream" +:+ bytes [0] +:+ pipeline +:+ bytes [0] +:+ stage).
Definition CronFingerprint (expression : string) : string :=
  sha256_hex ("cron" +:+ bytes [0] +:+ expression).
Definition ManualFingerprint : string := sha256_hex "manual".

Definition HTTPCloneURL (canonical : string) : string :=
  let s := TrimSpace canonical in
  if decide (s = "") then ""
  else if Contains s "://" || HasPrefix s "git@" then s
  else "https://" +:+ s.

(** Notification job names. *)
Definition NotificationStageName : string := "_notifications".

(** [strconv.Atoi] on a 64-bit platform: an optional sign, at least one
    decimal digit, no overflow of [int]. *)
Fixpoint digits_value (acc : Z) (s : string) : option Z :=
  match s with
  | "" => Some acc
  | String c s => if is_digit c then digits_value (acc * 10 + Z.of_nat (code c - 48))%Z s else None
  end.
Definition in_int64 (z : Z) : bool := (- 2 ^ 63 <=? z)%Z && (z <? 2 ^ 63)%Z.
Definition Atoi (s : string) : option Z :=
  let unsigned := match s with
                  | String "-" t | String "+" t => t
                  | _ => s
                  end in
  let sign := match s with String "-" _ => (-1)%Z | _ => 1%Z end in
  if decide (unsigned = "") then None
  else n ← digits_value 0 unsigned;
       if in_int64 (sign * n)%Z then Some (sign * n)%Z else None.

(** [fmt.Sprintf("%d", n)] for a natural number. *)
Definition digit (n : Z) : Ascii.ascii := Ascii.ascii_of_nat (Z.to_nat n + 48).
Fixpoint itoa_fuel (fuel : nat) (n : Z) (acc : string) : string :=
  match fuel with
  | 0 => acc
  | S fuel =>
      let acc := String (digit (n mod 10)%Z) acc in
      if (n <? 10)%Z then acc else itoa_fuel fuel (n / 10)%Z acc
  end.
(** Sixty-four digits are more than any 64-bit integer has. *)
Definition itoa (n : Z) : string := itoa_fuel 64 n "".

Lemma digit_value d : (0 <= d < 10)%Z -> is_digit (digit d) = true /\ Z.of_nat (code (digit d) - 48) = d /\
  digit d <> "-"%char /\ digit d <> "+"%char.
Proof.
  intros Hd. assert (H : (d = 0 \/ d = 1 \/ d = 2 \/ d = 3 \/ d = 4 \/ d = 5 \/ d = 6 \/ d = 7 \/ d = 8 \/ d = 9)%Z) by lia.
  destruct_or! H; subst; vm_compute; split_and!; done.
Qed.
Lemma itoa_digits f n acc : 0 < f -> (0 <= n < 10 ^ Z.of_nat f)%Z -> digits_value 0 (itoa_fuel f n acc) = digits_value n acc.
Proof.
  revert n acc. induction f as [|f IH]; intros n acc Hf Hn; [lia|]. simpl.
  destruct (digit_value (n mod 10)) as (Hd & Hv & _); [apply Z.mod_pos_bound; lia|].
  destruct (Z.ltb_spec n 10) as [Hlt|Hge].
  - cbn [digits_value]. by rewrite Hd, Hv, Z.mod_small by lia.
  - rewrite IH; cycle 1.
    { destruct f; [|lia]. change (10 ^ Z.of_nat 1)%Z with 10%Z in Hn. lia. }
    { rewrite Nat2Z.inj_succ, Z.pow_succ_r in Hn by lia. split; [apply Z.div_pos; lia|apply Z.div_lt_upper_bound; lia]. }
    cbn [digits_value]. rewrite Hd, Hv. f_equal. pose proof (Z.div_mod n 10). lia.
Qed.
Lemma itoa_head f n acc : 0 < f -> exists d t, (0 <= d < 10)%Z /\ itoa_fuel f n acc = String (digit d) t.
Proof.
  revert n acc. induction f as [|f IH]; intros n acc Hf; [lia|]. simpl.
  pose proof (Z.mod_pos_bound n 10). destruct (n <? 10)%Z; [exists (n mod 10)%Z, acc; split; [lia|done]|].
  destruct f as [|f]; [exists (n mod 10)%Z, acc; split; [lia|done]|]. apply IH. lia.
Qed.

Definition NotificationJobName (idx : Z) : string := "_notify_" +:+ itoa idx.
Definition IsNotificationJobName (name : string) : bool := HasPrefix name "_notify_".
Definition NotificationIndexFromName (name : string) : Z * bool :=
  if negb (IsNotificationJobName name) then ((-1)%Z, false)
  else match Atoi (TrimPrefix name "_notify_") with
       | Some i => if (i <? 0)%Z then ((-1)%Z, false) else (i, true)
       | None => ((-1)%Z, false)
       end.

(** Plugin references. *)
Inductive plugin_ref_error :=
| UsesEmpty
| UsesWhitespace (uses : string)
| UsesMissingImage (uses : string)
| UsesMissingVersion (uses : string).

Definition tab_byte : string := bytes [9].
Definition newline_byte : string := bytes [10].

Definition ResolvePluginRef (uses : string) : result plugin_ref_error string :=
  let uses := TrimSpace uses in
  if decide (uses = "") then Err UsesEmpty
  else if ContainsAny uses (" " +:+ tab_byte +:+ newline_byte) then Err (UsesWhitespace uses)
  else match Index uses "@" with
       | None => Ok uses
       | Some at_ =>
           let base := stake at_ uses in
           let suffix := sdrop (at_ + 1) uses in
           if decide (base = "") then Err (UsesMissingImage uses)
           else if decide (suffix = "") then Err (UsesMissingVersion uses)
           else if HasPrefix suffix "sha256:" then Ok uses
           else Ok (base +:+ ":" +:+ suffix)
       end.

(** ** [log_archive.go] *)

Inductive LogArchivePolicy := LogArchiveAuto | LogArchiveOn | LogArchiveOff | LogArchiveOther (s : string).

Definition EffectiveLogArchive (global : LogArchivePolicy) (projectFlag : option bool)
    (hasStore : bool) : bool :=
  match global with
  | LogArchiveOff => false
  | LogArchiveOn =>
      match projectFlag with Some f => f && hasStore | None => hasStore end
  | _ =>
      match projectFlag with Some f => f && hasStore | None => hasStore end
  end.
