(* ===== verification/NeedsGraph.v ===== *)
(** The graph of the jobs' [needs:] lists: the depth-first search of
    [server/pkg/domain/gategraph.go] and its correctness against reachability. *)

From S2P Require Import Prelude Domain.

(** [p.byName()]: a later job of the same name overwrites an earlier one. *)
Definition byName (jobs : list Job) : gmap string Job := index_by Job_Name id jobs.

(** [a] lists [b] in its [needs:]. *)
Definition need_edge (m : gmap string Job) (a b : string) : Prop :=
  exists j, m !! a = Some j /\ b ∈ Job_Needs j.

(** ** [transitivelyNeeds] *)
Section Visit.
Context (m : gmap string Job) (target : string).

(** The [for _, n := range names] loop, given what the recursive call does.
    [None] is a search that ran out of fuel. *)
Fixpoint visit_names (visit : gset string -> list string -> option (bool * gset string))
    (seen : gset string) (names : list string) : option (bool * gset string) :=
  match names with
  | [] => Some (false, seen)
  | n :: names =>
      if decide (n = target) then Some (true, seen)
      else if decide (n ∈ seen) then visit_names visit seen names
      else
        let seen := {[n]} ∪ seen in
        match m !! n with
        | Some child =>
            match visit seen (Job_Needs child) with
            | Some (true, seen) => Some (true, seen)
            | Some (false, seen) => visit_names visit seen names
            | None => None
            end
        | None => visit_names visit seen names
        end
  end.

Fixpoint visit (fuel : nat) (seen : gset string) (names : list string)
    : option (bool * gset string) :=
  match fuel with
  | 0 => None
  | S fuel => visit_names (visit fuel) seen names
  end.

(** Jobs not seen yet: what bounds the recursion depth. *)
Definition unseen (seen : gset string) : nat := size (dom m ∖ seen).

Lemma unseen_mono seen seen' : seen ⊆ seen' -> unseen seen' <= unseen seen.
Proof. intros H. unfold unseen. apply subseteq_size. set_solver. Qed.

Lemma unseen_lt n seen : n ∈ dom m -> n ∉ seen -> unseen ({[n]} ∪ seen) < unseen seen.
Proof. intros Hn Hs. unfold unseen. apply subset_size. set_solver. Qed.

(** What a search that returns establishes. *)
Definition visit_post (seen : gset string) (names : list string)
    (r : option (bool * gset string)) : Prop :=
  exists b seen', r = Some (b, seen') /\ seen ⊆ seen' /\
    if b then exists n, n ∈ names /\ rtc (need_edge m) n target
    else (forall n, n ∈ names -> n ∈ seen') /\
         (target ∉ seen -> target ∉ seen') /\
         (forall n c, n ∈ seen' -> n ∉ seen -> need_edge m n c -> c ∈ seen').

Lemma visit_names_post f seen names :
  (forall seen' ns, unseen seen' < unseen seen -> visit_post seen' ns (f seen' ns)) ->
  visit_post seen names (visit_names f seen names).
Proof.
  revert seen. induction names as [|n names IH]; intros seen Hf; simpl.
  { exists false, seen. set_solver. }
  destruct (decide (n = target)) as [->|Hnt].
  { exists true, seen. split_and!; [done..|]. exists target. split; [set_solver|constructor]. }
  destruct (decide (n ∈ seen)) as [Hin|Hnin].
  { destruct (IH seen Hf) as (b & s & -> & Hs & Hb). exists b, s. split_and!; [done..|].
    destruct b; [set_solver|]. destruct Hb as (H1 & H2 & H3). split_and!; [|done..].
    intros k [->|?]%elem_of_cons; set_solver. }
  destruct (m !! n) as [child|] eqn:Hm.
  - assert (Hlt : unseen ({[n]} ∪ seen) < unseen seen).
    { apply unseen_lt; [|done]. by apply elem_of_dom_2 in Hm. }
    destruct (Hf _ (Job_Needs child) Hlt) as (b & s & -> & Hs & Hb).
    destruct b.
    { exists true, s. split_and!; [done|set_solver|]. destruct Hb as (c & Hc & Hr).
      exists n. split; [set_solver|]. eapply rtc_l; [|done]. by exists child. }
    destruct Hb as (H1 & H2 & H3).
    destruct (IH s) as (b & s' & -> & Hs' & Hb).
    { intros s'' ns Hlt'. apply Hf. pose proof (unseen_mono ({[n]} ∪ seen) s Hs). lia. }
    exists b, s'. split_and!; [done|set_solver|]. destruct b; [set_solver|].
    destruct Hb as (K1 & K2 & K3). split_and!.
    + intros k [->|?]%elem_of_cons; set_solver.
    + set_solver.
    + intros k c Hk Hks Hkc. destruct (decide (k ∈ s)) as [Hin|Hin]; [|by eapply K3].
      apply Hs'. destruct (decide (k = n)) as [->|Hkn].
      * destruct Hkc as (j & Hj & Hc). rewrite Hm in Hj. simplify_eq. by apply H1.
      * eapply H3; [done| |done]. set_solver.
  - destruct (IH ({[n]} ∪ seen)) as (b & s' & -> & Hs' & Hb).
    { intros s'' ns Hlt'. apply Hf.
      pose proof (unseen_mono seen ({[n]} ∪ seen) ltac:(set_solver)). lia. }
    exists b, s'. split_and!; [done|set_solver|]. destruct b; [set_solver|].
    destruct Hb as (K1 & K2 & K3). split_and!.
    + intros k [->|?]%elem_of_cons; set_solver.
    + set_solver.
    + intros k c Hk Hks Hkc. destruct (decide (k = n)) as [->|Hkn].
      * destruct Hkc as (j & Hj & Hc). congruence.
      * eapply K3; [done| |done]. set_solver.
Qed.

Lemma visit_post_fuel fuel seen names :
  unseen seen < fuel -> visit_post seen names (visit fuel seen names).
Proof.
  revert seen names. induction fuel as [|fuel IH]; intros seen names Hlt; [lia|].
  apply visit_names_post. intros seen' ns Hlt'. apply IH. lia.
Qed.
End Visit.

(** The fuel is one more than the number of jobs, which [transitivelyNeeds_spec]
    shows to be enough. *)
Definition transitivelyNeeds (m : gmap string Job) (j : Job) (target : string) : bool :=
  match visit m target (S (size m)) ∅ (Job_Needs j) with
  | Some (b, _) => b
  | None => false
  end.

Lemma transitivelyNeeds_visit m target names :
  visit_post m target ∅ names (visit m target (S (size m)) ∅ names).
Proof.
  apply visit_post_fuel. unfold unseen. rewrite <-size_dom.
  apply Nat.lt_succ_r, subseteq_size. set_solver.
Qed.

Lemma transitivelyNeeds_spec m j target :
  transitivelyNeeds m j target = true <->
  exists n, n ∈ Job_Needs j /\ rtc (need_edge m) n target.
Proof.
  unfold transitivelyNeeds.
  destruct (transitivelyNeeds_visit m target (Job_Needs j)) as (b & s & -> & _ & Hb).
  destruct b; [done|]. destruct Hb as (H1 & H2 & H3). split; [done|].
  intros (n & Hn & Hr). exfalso.
  assert (Hclosed : forall a c, rtc (need_edge m) a c -> a ∈ s -> c ∈ s).
  { induction 1 as [|a b c Hab _ IH]; [done|]. intros Ha. apply IH.
    eapply H3; [done|set_solver|done]. }
  apply H2; [set_solver|]. by eapply Hclosed, H1.
Qed.

(** A job's own transitive needs, as a path of at least one edge. *)
Lemma transitivelyNeeds_tc m j target :
  m !! Job_Name j = Some j ->
  transitivelyNeeds m j target = true <-> tc (need_edge m) (Job_Name j) target.
Proof.
  intros Hj. rewrite transitivelyNeeds_spec. split.
  - intros (n & Hn & Hr). eapply tc_rtc_r; [|done]. apply tc_once. by exists j.
  - inversion 1 as [? ? (j' & Hj' & Hin)|? n ? (j' & Hj' & Hin) Ht]; subst;
      rewrite Hj in Hj'; simplify_eq.
    + exists target. split; [done|constructor].
    + exists n. split; [done|]. by apply tc_rtc.
Qed.
