(* ===== verification/CycleCheck.v ===== *)
(** [server/pkg/parser/parse_validate.go], [validateNoCycles]: the three-colour
    depth-first search over [needs:], and its correctness: it accepts exactly
    the acyclic graphs, and the path it reports is a cycle. *)

From S2P Require Import Prelude Domain NeedsGraph.

Inductive Color := white | gray | black.
#[export] Instance Color_eq_dec : EqDecision Color.
Proof. solve_decision. Defined.

(** [color[name]]: a missing entry is the zero value, white. *)
Definition color_of (color : gmap string Color) (n : string) : Color :=
  default white (color !! n).

(** The variables [color] and [stack] that [visit] closes over. *)
Record dfs := { color : gmap string Color; stack : list string }.

(** [for i, n := range stack { if n == name { start = i; break } }]. *)
Definition first_index (name : string) (stack : list string) : nat :=
  default 0 (fst <$> list_find (fun n => n = name) stack).

Section Visit.
Context (needs : gmap string (list string)).

(** [for _, dep := range deps { ... }]: a dep that names no job is skipped.
    [Err] is the cycle found, [None] a search out of fuel. *)
Fixpoint visit_deps (visit : dfs -> string -> option (result (list string) dfs))
    (s : dfs) (deps : list string) : option (result (list string) dfs) :=
  match deps with
  | [] => Some (Ok s)
  | dep :: deps =>
      match needs !! dep with
      | None => visit_deps visit s deps
      | Some _ =>
          match visit s dep with
          | Some (Ok s) => visit_deps visit s deps
          | r => r
          end
      end
  end.

Fixpoint visit (fuel : nat) (s : dfs) (name : string) : option (result (list string) dfs) :=
  match fuel with
  | 0 => None
  | S fuel =>
      match color_of (color s) name with
      | black => Some (Ok s)
      | gray => Some (Err (drop (first_index name (stack s)) (stack s) ++ [name]))
      | white =>
          let s := {| color := <[name := gray]> (color s); stack := stack s ++ [name] |} in
          let deps := sort_strings (default [] (needs !! name)) in
          match visit_deps (visit fuel) s deps with
          | Some (Ok s) =>
              Some (Ok {| color := <[name := black]> (color s);
                          stack := take (length (stack s) - 1) (stack s) |})
          | r => r
          end
      end
  end.

Fixpoint visit_all (fuel : nat) (s : dfs) (names : list string)
    : option (result (list string) dfs) :=
  match names with
  | [] => Some (Ok s)
  | n :: names =>
      match visit fuel s n with
      | Some (Ok s) => visit_all fuel s names
      | r => r
      end
  end.
End Visit.

(** [Err] carries the cycle of the error message. The fuel, one more than the
    number of jobs, is enough: see [validateNoCycles_sound]. *)
Definition validateNoCycles (jobs : list Job) : result (list string) unit :=
  let needs := index_by Job_Name Job_Needs jobs in
  let names := sort_strings (Job_Name <$> jobs) in
  match visit_all needs (S (size needs)) {| color := ∅; stack := [] |} names with
  | Some (Ok _) => Ok tt
  | Some (Err c) => Err c
  | None => Err []
  end.

(** ** Correctness of the search *)
Section Correct.
Context (needs : gmap string (list string)).

(** [a] needs the existing job [b]. *)
Definition edge (a b : string) : Prop :=
  exists deps, needs !! a = Some deps /\ b ∈ deps /\ is_Some (needs !! b).

(** Consecutive elements are joined by an edge. *)
Fixpoint path (l : list string) : Prop :=
  match l with
  | a :: (b :: _) as l' => edge a b /\ path l'
  | _ => True
  end.

Lemma path_snoc l b : path l -> (forall a, last l = Some a -> edge a b) -> path (l ++ [b]).
Proof.
  induction l as [|a [|c l] IH]; simpl; [done| |].
  - intros _ H. split; [by apply H|done].
  - intros [Hac Hp] H. split; [done|]. apply IH; [done|]. intros x Hx. by apply H.
Qed.

Lemma path_drop l n : path l -> path (drop n l).
Proof.
  revert n. induction l as [|a l IH]; intros [|n] H; simpl; try done.
  apply IH. destruct l; [done|]. by destruct H.
Qed.

(** A path that returns to its first element is a cycle. *)
Lemma path_cycle a l : path (a :: l) -> l <> [] -> last l = Some a -> tc edge a a.
Proof.
  intros Hp Hne Hl.
  assert (H : forall x, path (x :: l) -> tc edge x a).
  { clear Hp. induction l as [|b l IH]; [done|]. intros x [Hxb Hp].
    destruct l as [|c l].
    - simpl in Hl. simplify_eq. by apply tc_once.
    - eapply tc_l; [exact Hxb|]. apply IH; [done| |exact Hp]. by rewrite last_cons_cons in Hl. }
  by apply H.
Qed.

Definition is_black (s : dfs) n := color_of (color s) n = black.

Record inv (s : dfs) : Prop := {
  inv_stack : forall n, n ∈ stack s <-> color_of (color s) n = gray;
  inv_path : path (stack s);
  inv_closed : forall a b, is_black s a -> edge a b -> is_black s b;
  inv_acyclic : forall n, is_black s n -> ~ tc edge n n;
  inv_nonwhite : forall n, n ∈ dom (color s) -> color_of (color s) n <> white;
}.

Lemma closed_rtc s a b : inv s -> is_black s a -> rtc edge a b -> is_black s b.
Proof. intros Hs Ha Hr. induction Hr; [done|]. eauto using inv_closed. Qed.

(** What a search from [name] establishes. *)
Definition post (s : dfs) (done : string -> Prop) (r : option (result (list string) dfs)) : Prop :=
  match r with
  | None => False
  | Some (Err c) => exists a l, c = a :: l /\ path c /\ l <> [] /\ last l = Some a
  | Some (Ok s') =>
      inv s' /\ stack s' = stack s /\ dom (color s) ⊆ dom (color s') /\
      (forall n, is_black s n -> is_black s' n) /\ (forall n, done n -> is_black s' n)
  end.

Definition fresh (s : dfs) : nat := size (dom needs ∖ dom (color s)).

Lemma visit_deps_post f s deps :
  inv s ->
  (forall s' d, inv s' -> stack s' = stack s -> fresh s' <= fresh s -> d ∈ deps ->
     is_Some (needs !! d) -> post s' (fun n => n = d) (f s' d)) ->
  post s (fun n => n ∈ deps /\ is_Some (needs !! n)) (visit_deps needs f s deps).
Proof.
  revert s. induction deps as [|d deps IH]; intros s Hs Hf; simpl.
  { split_and!; [done..|]. intros n [?%elem_of_nil _]. done. }
  destruct (needs !! d) as [x|] eqn:Hd.
  - pose proof (Hf s d Hs eq_refl (Nat.le_refl _) ltac:(set_solver) ltac:(eauto)) as Hp.
    destruct (f s d) as [[s'|c]|]; simpl in Hp; [|exact Hp|done].
    destruct Hp as (Hs' & Hst & Hdom & Hmono & Hdone).
    assert (Hle : fresh s' <= fresh s).
    { unfold fresh. apply subseteq_size. set_solver. }
    pose proof (IH s' Hs') as IH'.
    destruct (visit_deps needs f s' deps) as [[s''|c]|]; simpl in *.
    + destruct IH' as (K1 & K2 & K3 & K4 & K5).
      { intros s3 d3 ? ? ? ? ?. apply Hf; [done|congruence|lia|set_solver|done]. }
      split_and!; [done|congruence|set_solver|auto|].
      intros n [[->|Hn]%elem_of_cons Hsome]; auto.
    + apply IH'. intros s3 d3 ? ? ? ? ?. apply Hf; [done|congruence|lia|set_solver|done].
    + apply IH'. intros s3 d3 ? ? ? ? ?. apply Hf; [done|congruence|lia|set_solver|done].
  - pose proof (IH s Hs) as IH'.
    destruct (visit_deps needs f s deps) as [[s''|c]|]; simpl in *.
    + destruct IH' as (K1 & K2 & K3 & K4 & K5).
      { intros s3 d3 ? ? ? ? ?. apply Hf; [done..|set_solver|done]. }
      split_and!; [done..|]. intros n [[->|Hn]%elem_of_cons Hsome]; [|auto].
      rewrite Hd in Hsome. by destruct Hsome.
    + apply IH'. intros s3 d3 ? ? ? ? ?. apply Hf; [done..|set_solver|done].
    + apply IH'. intros s3 d3 ? ? ? ? ?. apply Hf; [done..|set_solver|done].
Qed.

Lemma color_of_insert m n c k :
  color_of (<[n := c]> m) k = if decide (n = k) then c else color_of m k.
Proof. unfold color_of. rewrite lookup_insert. by case_decide. Qed.

Lemma first_index_lookup n l : n ∈ l -> l !! first_index n l = Some n.
Proof.
  intros Hin. unfold first_index.
  destruct (list_find _ l) as [[i x]|] eqn:Hf; simpl.
  - apply list_find_Some in Hf as (Hi & -> & _). done.
  - apply list_find_None in Hf. rewrite Forall_forall in Hf. by destruct (Hf n).
Qed.

(** A back edge to a job on the stack closes a cycle. *)
Lemma gray_cycle s n :
  inv s -> n ∈ stack s -> (forall a, last (stack s) = Some a -> edge a n) ->
  post s (fun k => k = n) (Some (Err (drop (first_index n (stack s)) (stack s) ++ [n]))).
Proof.
  intros Hs Hn Hlast. pose proof (first_index_lookup n _ Hn) as Hi.
  set (i := first_index n (stack s)) in *.
  pose proof (drop_S _ _ _ Hi) as Hdrop.
  exists n, (drop (S i) (stack s) ++ [n]). split_and!; [by rewrite Hdrop| | |].
  - apply path_snoc; [by apply path_drop, inv_path|].
    intros a Ha. apply Hlast. rewrite <-Ha.
    rewrite <-(take_drop i (stack s)) at 1. by rewrite Hdrop, last_app_cons.
  - by destruct (drop (S i) (stack s)).
  - by rewrite last_snoc.
Qed.

(** Entering a white job keeps the invariant and uses up fuel. *)
Lemma inv_enter s n :
  inv s -> color_of (color s) n = white -> is_Some (needs !! n) ->
  (forall a, last (stack s) = Some a -> edge a n) ->
  let s1 := {| color := <[n := gray]> (color s); stack := stack s ++ [n] |} in
  inv s1 /\ fresh s1 < fresh s.
Proof.
  intros Hs Hn Hsome Hlast. simpl. split; [split; simpl|].
  - intros k. rewrite color_of_insert, elem_of_app, list_elem_of_singleton, (inv_stack s Hs).
    case_decide; naive_solver.
  - apply path_snoc; [by apply inv_path|done].
  - intros a b. unfold is_black. simpl. rewrite !color_of_insert.
    case_decide; [done|]. intros Ha Hab. pose proof (inv_closed s Hs a b Ha Hab) as Hb.
    case_decide; [|done]. unfold is_black in Hb. congruence.
  - intros k. unfold is_black. simpl. rewrite color_of_insert.
    case_decide; [done|]. by apply inv_acyclic.
  - intros k. rewrite color_of_insert. case_decide; [done|].
    rewrite dom_insert_L. intros Hk. apply (inv_nonwhite s Hs). set_solver.
  - unfold fresh. simpl. apply subset_size. rewrite dom_insert_L.
    assert (n ∉ dom (color s)) by (intros Hd; by apply (inv_nonwhite s Hs n Hd)).
    apply elem_of_dom in Hsome. set_solver.
Qed.

(** Leaving a job whose needs are all black keeps the invariant. *)
Lemma inv_leave s n m :
  inv s -> inv {| color := m; stack := stack s ++ [n] |} -> n ∉ stack s ->
  (forall b, edge n b -> color_of m b = black) ->
  inv {| color := <[n := black]> m; stack := stack s |}.
Proof.
  intros Hs Hm Hn Hedge.
  assert (Hgray : color_of m n = gray).
  { apply (inv_stack _ Hm n). simpl. set_solver. }
  split; simpl.
  - intros k. rewrite color_of_insert. pose proof (inv_stack _ Hm k) as Hk. simpl in Hk.
    rewrite elem_of_app, list_elem_of_singleton in Hk. case_decide; naive_solver.
  - by apply inv_path.
  - intros a b. unfold is_black. simpl. rewrite !color_of_insert.
    destruct (decide (n = b)); [done|]. intros Ha Hab.
    destruct (decide (n = a)); [subst; by apply Hedge|].
    by apply (inv_closed _ Hm a b).
  - intros k. unfold is_black. simpl. rewrite color_of_insert. case_decide as Hk; [subst k|].
    + intros _ Hc. assert (Hb : exists b, edge n b /\ rtc edge b n).
      { inversion Hc; subst; eauto using rtc_refl, tc_rtc. }
      destruct Hb as (b & Hnb & Hbn).
      pose proof (closed_rtc _ b n Hm (Hedge b Hnb) Hbn) as Hb.
      unfold is_black in Hb. simpl in Hb. congruence.
    + intros Hb. by apply (inv_acyclic _ Hm k).
  - intros k. rewrite color_of_insert. case_decide; [done|].
    rewrite dom_insert_L. intros Hk. apply (inv_nonwhite _ Hm). simpl. set_solver.
Qed.

Lemma visit_post fuel s n :
  inv s -> is_Some (needs !! n) -> fresh s < fuel ->
  (forall a, last (stack s) = Some a -> edge a n) ->
  post s (fun k => k = n) (visit needs fuel s n).
Proof.
  revert s n. induction fuel as [|fuel IH]; intros s n Hs Hn Hlt Hlast; [lia|]. simpl.
  destruct (color_of (color s) n) eqn:Hc.
  - destruct (inv_enter s n Hs Hc Hn Hlast) as [Hs1 Hf1].
    set (s1 := {| color := <[n := gray]> (color s); stack := stack s ++ [n] |}) in *.
    destruct Hn as [deps Hdeps]. rewrite Hdeps. simpl.
    pose proof (visit_deps_post (visit needs fuel) s1 (sort_strings deps) Hs1) as Hp.
    destruct (visit_deps needs (visit needs fuel) s1 (sort_strings deps)) as [[s2|c]|];
      simpl in *.
    2, 3: apply Hp; intros s' d Hs' Hst Hle Hd Hsome; apply IH;
      [done|done|lia|intros a; rewrite Hst, last_snoc; intros [= <-];
       exists deps; by autorewrite with gocd in Hd].
    destruct Hp as (Hs2 & Hst2 & Hdom & Hmono & Hdone).
    { intros s' d Hs' Hst Hle Hd Hsome. apply IH; [done|done|lia|].
      intros a. rewrite Hst, last_snoc. intros [= <-].
      exists deps. by autorewrite with gocd in Hd. }
    destruct s2 as [m2 st2]. simpl in *. subst st2.
    assert (Hnst : n ∉ stack s) by (rewrite (inv_stack s Hs n); congruence).
    replace (take (length (stack s ++ [n]) - 1) (stack s ++ [n])) with (stack s).
    2: { rewrite length_app. simpl. rewrite Nat.add_sub. by rewrite take_app_length. }
    split_and!; [|done| | |].
    + apply inv_leave; [done..|]. intros b (ds & Hds & Hb & Hsb). rewrite Hdeps in Hds.
      simplify_eq. apply Hdone. split; [by autorewrite with gocd|done].
    + rewrite dom_insert_L. rewrite dom_insert_L in Hdom. set_solver.
    + intros k Hk. unfold is_black. simpl. rewrite color_of_insert. case_decide; [done|].
      apply Hmono. unfold is_black. simpl. rewrite color_of_insert. by rewrite decide_False.
    + intros k ->. unfold is_black. simpl. rewrite color_of_insert. by rewrite decide_True.
  - apply gray_cycle; [done| |done]. by apply (inv_stack s Hs).
  - simpl. split_and!; [done..|]. by intros k ->.
Qed.

Lemma visit_all_post fuel s names :
  inv s -> stack s = [] -> fresh s < fuel -> Forall (fun n => is_Some (needs !! n)) names ->
  post s (fun n => n ∈ names) (visit_all needs fuel s names).
Proof.
  intros Hs Hst Hlt Hnames. revert s Hs Hst Hlt.
  induction Hnames as [|n names Hn _ IH]; intros s Hs Hst Hlt; simpl.
  { split_and!; [done..|]. by intros n ?%elem_of_nil. }
  pose proof (visit_post fuel s n Hs Hn Hlt) as Hp.
  destruct (visit needs fuel s n) as [[s'|c]|]; simpl in Hp.
  2, 3: apply Hp; by rewrite Hst.
  destruct Hp as (Hs' & Hst' & Hdom & Hmono & Hdone); [by rewrite Hst|].
  assert (fresh s' <= fresh s) by (unfold fresh; apply subseteq_size; set_solver).
  pose proof (IH s' Hs' ltac:(congruence) ltac:(lia)) as Hp.
  destruct (visit_all needs fuel s' names) as [[s''|c]|]; simpl in *; [|done..].
  destruct Hp as (K1 & K2 & K3 & K4 & K5).
  split_and!; [done|congruence|set_solver|auto|].
  intros k [->|Hk]%elem_of_cons; auto.
Qed.
End Correct.

(** An edge of the search is an edge of the [needs:] graph to a known job. *)
Lemma edge_need_edge jobs a b :
  edge (index_by Job_Name Job_Needs jobs) a b <->
  need_edge (byName jobs) a b /\ is_Some (byName jobs !! b).
Proof.
  unfold edge, need_edge, byName.
  rewrite (index_by_fmap Job_Name id Job_Needs). setoid_rewrite lookup_fmap.
  setoid_rewrite fmap_is_Some. setoid_rewrite fmap_Some. naive_solver.
Qed.

(** Every job on a cycle is known, so both graphs have the same cycles. *)
Lemma tc_edge_need_edge jobs n :
  tc (edge (index_by Job_Name Job_Needs jobs)) n n <-> tc (need_edge (byName jobs)) n n.
Proof.
  split.
  - apply (tc_congruence id). intros a b Hab. by apply edge_need_edge in Hab as [? _].
  - assert (H : forall a b, tc (need_edge (byName jobs)) a b -> is_Some (byName jobs !! b) ->
        tc (edge (index_by Job_Name Job_Needs jobs)) a b).
    { induction 1 as [a b H|a b c H Ht IH]; intros Hc.
      - by apply tc_once, edge_need_edge.
      - eapply tc_l; [|by apply IH]. apply edge_need_edge. split; [done|].
        inversion Ht as [? ? (j & Hj & _)|? ? ? (j & Hj & _) _]; subst; eauto. }
    intros Ht. apply H; [done|].
    inversion Ht as [? ? (j & Hj & _)|? ? ? (j & Hj & _) _]; subst; eauto.
Qed.

Lemma validateNoCycles_post jobs :
  match validateNoCycles jobs with
  | Ok _ => forall n, ~ tc (need_edge (byName jobs)) n n
  | Err c => exists a l, c = a :: l /\ path (index_by Job_Name Job_Needs jobs) c /\ l <> [] /\
             last l = Some a
  end.
Proof.
  unfold validateNoCycles. set (needs := index_by Job_Name Job_Needs jobs).
  assert (Hp : post needs {| color := ∅; stack := [] |}
      (fun n => n ∈ sort_strings (Job_Name <$> jobs))
      (visit_all needs (S (size needs)) {| color := ∅; stack := [] |}
         (sort_strings (Job_Name <$> jobs)))).
  { apply visit_all_post; [|done| |].
    - split; simpl; try done; set_solver.
    - unfold fresh. simpl. rewrite <-size_dom. apply Nat.lt_succ_r, subseteq_size. set_solver.
    - apply Forall_forall. intros x Hx. autorewrite with gocd in Hx.
      apply list_elem_of_fmap in Hx as (j & -> & Hj). apply index_by_is_Some. eauto. }
  destruct (visit_all _ _ _ _) as [[s|c]|]; simpl in *; [|exact Hp|done].
  destruct Hp as (Hs & _ & _ & _ & Hdone). intros n Hn.
  apply tc_edge_need_edge in Hn as Hn'. apply (inv_acyclic _ s Hs n); [|done].
  apply Hdone. autorewrite with gocd. apply list_elem_of_fmap.
  assert (Hj : is_Some (byName jobs !! n)).
  { inversion Hn as [? ? (j & Hj & _)|? ? ? (j & Hj & _) _]; subst; eauto. }
  apply index_by_is_Some in Hj as (j & Hj & <-). eauto.
Qed.

Lemma validateNoCycles_Err jobs c :
  validateNoCycles jobs = Err c ->
  exists a l, c = a :: l /\ l <> [] /\ last l = Some a /\
    path (index_by Job_Name Job_Needs jobs) c /\ tc (need_edge (byName jobs)) a a.
Proof.
  intros Hc. pose proof (validateNoCycles_post jobs) as H. rewrite Hc in H.
  destruct H as (a & l & -> & Hpath & Hne & Hlast).
  exists a, l. split_and!; [done..|]. apply tc_edge_need_edge. by eapply path_cycle.
Qed.

Lemma validateNoCycles_Ok jobs :
  validateNoCycles jobs = Ok tt <-> forall n, ~ tc (need_edge (byName jobs)) n n.
Proof.
  pose proof (validateNoCycles_post jobs) as H.
  destruct (validateNoCycles jobs) as [[]|c] eqn:Hc; [naive_solver|].
  split; [done|]. intros Hac. apply validateNoCycles_Err in Hc as (a & _ & _ & _ & _ & _ & Ha).
  by destruct (Hac a).
Qed.

(** C8: The cycle check accepts exactly the pipelines whose [needs:] graph has no
    cycle, and what it reports otherwise is a cycle: a path along [needs:] that
    ends where it starts. The search always terminates with an answer. *)
Theorem validateNoCycles_correct (jobs : list Job) :
  (validateNoCycles jobs = Ok tt <-> forall n, ~ tc (need_edge (byName jobs)) n n) /\
  (forall c, validateNoCycles jobs = Err c ->
     exists a l, c = a :: l /\ l <> [] /\ last l = Some a /\
       path (index_by Job_Name Job_Needs jobs) c /\ tc (need_edge (byName jobs)) a a).
Proof. split; [apply validateNoCycles_Ok|apply validateNoCycles_Err]. Qed.

Example two_cycle :
  validateNoCycles [mk_job "a" "build" ["b"] None None ""; mk_job "b" "build" ["a"] None None "";
                    mk_job "c" "build" ["a"; "ghost"] None None ""] = Err ["a"; "b"; "a"].
Proof. vm_compute. reflexivity. Qed.
