(* ===== verification/ValidateNeeds.v ===== *)
(** [server/pkg/parser/parse_validate.go], [validateNeeds], and what the two
    validators together establish about the [needs:] graph of a pipeline. *)

From S2P Require Import Prelude Domain NeedsGraph CycleCheck.

(** [for i, s := range stages { m[s] = i }]: the last occurrence of a name wins. *)
Definition stage_ordinals (stages : list string) : gmap string nat :=
  index_by snd fst (imap pair stages).

(** The three rejections, with the values their messages print. *)
Inductive needs_error :=
| NeedsSelf (job : string)
| NeedsUnknown (job dep : string)
| NeedsForward (job stage : string) (ord : nat) (dep dep_stage : string) (dep_ord : nat).
#[export] Instance needs_error_eq_dec : EqDecision needs_error.
Proof. solve_decision. Defined.

Definition check_need (stageOrdinal : gmap string nat) (m : gmap string Job) (j : Job)
    (dep : string) : result needs_error unit :=
  if decide (dep = Job_Name j) then Err (NeedsSelf (Job_Name j))
  else match m !! dep with
       | None => Err (NeedsUnknown (Job_Name j) dep)
       | Some target =>
           match stageOrdinal !! Job_Stage j, stageOrdinal !! Job_Stage target with
           | Some myOrd, Some targetOrd =>
               if (myOrd <? targetOrd)%nat
               then Err (NeedsForward (Job_Name j) (Job_Stage j) myOrd dep
                           (Job_Stage target) targetOrd)
               else Ok tt
           | _, _ => Ok tt
           end
       end.

Definition validateNeeds (jobs : list Job) (stages : list string) : result needs_error unit :=
  let stageOrdinal := stage_ordinals stages in
  let m := byName jobs in
  check_all (fun j => check_all (check_need stageOrdinal m j) (Job_Needs j)) jobs.

(** ** Specification *)

(** What the validator promises of one entry of a [needs:] list. *)
Definition need_ok (jobs : list Job) (stages : list string) (j : Job) (dep : string) : Prop :=
  dep <> Job_Name j /\
  exists target, byName jobs !! dep = Some target /\
    forall o t, stage_ordinals stages !! Job_Stage j = Some o ->
                stage_ordinals stages !! Job_Stage target = Some t -> t <= o.

Lemma check_need_Ok jobs stages j dep :
  check_need (stage_ordinals stages) (byName jobs) j dep = Ok tt <-> need_ok jobs stages j dep.
Proof.
  unfold check_need, need_ok. case_decide; [naive_solver|].
  destruct (byName jobs !! dep) as [target|]; [|naive_solver].
  destruct (stage_ordinals stages !! Job_Stage j) as [o|] eqn:Ho,
           (stage_ordinals stages !! Job_Stage target) as [t|] eqn:Ht.
  2-4: split; [intros _; split; [done|]; exists target; split; [done|]; congruence|done].
  destruct (Nat.ltb_spec o t).
  - split; [done|]. intros (_ & target' & [= <-] & Hle). specialize (Hle o t eq_refl Ht). lia.
  - split; [|done]. intros _. split; [done|]. exists target. split; [done|].
    intros o' t' ? ?. simplify_eq. lia.
Qed.

Lemma validateNeeds_Ok jobs stages :
  validateNeeds jobs stages = Ok tt <->
  forall j dep, j ∈ jobs -> dep ∈ Job_Needs j -> need_ok jobs stages j dep.
Proof.
  unfold validateNeeds. rewrite check_all_Ok, Forall_forall.
  setoid_rewrite check_all_Ok. setoid_rewrite Forall_forall.
  setoid_rewrite check_need_Ok. naive_solver.
Qed.

(** ** The pipelines the parser accepts *)

(** What [ParseNamed] has checked when it returns: jobs come from a YAML map, so
    names are distinct; every job's stage is declared; the two validators
    accepted. *)
Record valid_pipeline (p : Pipeline) : Prop := {
  vp_names : NoDup (Job_Name <$> Jobs p);
  vp_stages : Forall (fun j => Job_Stage j ∈ Stages p) (Jobs p);
  vp_needs : validateNeeds (Jobs p) (Stages p) = Ok tt;
  vp_acyclic : validateNoCycles (Jobs p) = Ok tt;
}.

#[export] Instance valid_pipeline_dec p : Decision (valid_pipeline p).
Proof.
  refine (cast_if (decide (NoDup (Job_Name <$> Jobs p) /\
    Forall (fun j => Job_Stage j ∈ Stages p) (Jobs p) /\
    validateNeeds (Jobs p) (Stages p) = Ok tt /\ validateNoCycles (Jobs p) = Ok tt)));
    abstract (repeat match goal with H : _ /\ _ |- _ => destruct H
              | H : ~ _ |- ~ _ => contradict H; destruct H end; split_and?; first [done | by split]).
Defined.

Lemma imap_pair_elem (l : list string) i s : (i, s) ∈ imap pair l <-> l !! i = Some s.
Proof.
  rewrite list_elem_of_lookup. setoid_rewrite list_lookup_imap. split.
  - intros [k Hk]. apply fmap_Some in Hk as (x & ? & ?). by simplify_eq.
  - intros H. exists i. by rewrite H.
Qed.

Lemma stage_ordinals_is_Some stages s :
  is_Some (stage_ordinals stages !! s) <-> s ∈ stages.
Proof.
  unfold stage_ordinals. rewrite index_by_is_Some. split.
  - intros ([i x] & Hi & <-). apply imap_pair_elem in Hi. by eapply list_elem_of_lookup_2.
  - intros [i Hi]%list_elem_of_lookup. exists (i, s). by rewrite imap_pair_elem.
Qed.

Lemma stage_ordinals_NoDup stages i s :
  NoDup stages -> stages !! i = Some s -> stage_ordinals stages !! s = Some i.
Proof.
  intros Hnd Hi. unfold stage_ordinals.
  apply (index_by_NoDup snd fst (imap pair stages) (i, s)); [|by apply imap_pair_elem].
  rewrite fmap_imap. change (snd ∘ pair _) with (@id string).
  by rewrite (imap_const id), list_fmap_id.
Qed.

Section ValidPipeline.
Context (p : Pipeline) (Hp : valid_pipeline p).

Lemma vp_byName j : j ∈ Jobs p -> byName (Jobs p) !! Job_Name j = Some j.
Proof. intros Hj. apply (index_by_NoDup Job_Name id); [apply Hp|done]. Qed.

Lemma vp_byName_Some n j : byName (Jobs p) !! n = Some j -> j ∈ Jobs p /\ Job_Name j = n.
Proof. intros H. apply index_by_Some in H as (x & ? & ? & Hx). unfold id in Hx. by subst. Qed.

Lemma vp_ordinal j : j ∈ Jobs p -> is_Some (stage_ordinals (Stages p) !! Job_Stage j).
Proof.
  intros Hj. apply stage_ordinals_is_Some. pose proof (vp_stages p Hp) as H.
  rewrite Forall_forall in H. by apply H.
Qed.

(** A need of a job is a job of the same stage or of an earlier one. *)
Lemma vp_need j dep :
  j ∈ Jobs p -> dep ∈ Job_Needs j ->
  exists t, t ∈ Jobs p /\ Job_Name t = dep /\
    default 0 (stage_ordinals (Stages p) !! Job_Stage t) <=
    default 0 (stage_ordinals (Stages p) !! Job_Stage j).
Proof.
  intros Hj Hd. pose proof (vp_needs p Hp) as H. rewrite validateNeeds_Ok in H.
  destruct (H j dep Hj Hd) as (_ & t & Ht & Hle).
  destruct (vp_byName_Some _ _ Ht) as [Htj <-]. exists t. split_and!; [done..|].
  destruct (vp_ordinal j Hj) as [o Ho], (vp_ordinal t Htj) as [o' Ho'].
  rewrite Ho, Ho'. simpl. eauto.
Qed.

(** Along a path of needs, stages do not increase. *)
Lemma vp_rtc_stage a b :
  rtc (need_edge (byName (Jobs p))) (Job_Name a) b -> a ∈ Jobs p ->
  exists t, t ∈ Jobs p /\ Job_Name t = b /\
    default 0 (stage_ordinals (Stages p) !! Job_Stage t) <=
    default 0 (stage_ordinals (Stages p) !! Job_Stage a).
Proof.
  intros Hr. remember (Job_Name a) as n eqn:Hn. revert a Hn.
  induction Hr as [n|n m b (j & Hj & Hm) _ IH]; intros a -> Ha.
  { exists a. split_and!; done || lia. }
  rewrite vp_byName in Hj by done. simplify_eq.
  destruct (vp_need j m Ha Hm) as (t & Ht & <- & Hle).
  destruct (IH t eq_refl Ht) as (u & ? & ? & ?). exists u. split_and!; [done..|lia].
Qed.

Lemma vp_no_cycle n : ~ tc (need_edge (byName (Jobs p))) n n.
Proof. apply validateNoCycles_Ok, vp_acyclic, Hp. Qed.
End ValidPipeline.

(** ** Putting two accepted job lists together *)

(** The stage order of [l] survives in [l']. *)
Definition keeps_order (l l' : list string) : Prop :=
  forall s t i j i' j', stage_ordinals l !! s = Some i -> stage_ordinals l !! t = Some j ->
    stage_ordinals l' !! s = Some i' -> stage_ordinals l' !! t = Some j' -> i <= j -> i' <= j'.

Lemma stage_ordinals_app l1 l2 s :
  stage_ordinals (l1 ++ l2) !! s =
  match stage_ordinals l2 !! s with
  | Some i => Some (length l1 + i)
  | None => stage_ordinals l1 !! s
  end.
Proof.
  unfold stage_ordinals, index_by.
  induction l2 as [|x l2 IH] using rev_ind; [by rewrite app_nil_r|].
  rewrite app_assoc, (imap_app _ (l1 ++ l2)), (imap_app _ l2). simpl. rewrite !index_from_snoc. simpl.
  rewrite length_app, !Nat.add_0_r.
  destruct (decide (x = s)) as [->|]; [by rewrite !lookup_insert_eq|].
  by rewrite !lookup_insert_ne, IH by done.
Qed.

(** A block of other stages spliced in anywhere. *)
Lemma keeps_order_splice l1 m l2 :
  (forall s, s ∈ m -> s ∉ l1 ++ l2) -> keeps_order (l1 ++ l2) (l1 ++ m ++ l2).
Proof.
  intros Hm s t i j i' j' Hs Ht Hs' Ht' Hij.
  assert (Hnone : forall u k, stage_ordinals (l1 ++ l2) !! u = Some k -> stage_ordinals m !! u = None).
  { intros u k Hu. apply eq_None_not_Some. rewrite stage_ordinals_is_Some. intros Hum.
    apply (Hm u Hum), stage_ordinals_is_Some. eauto. }
  pose proof (Hnone _ _ Hs) as Hs0. pose proof (Hnone _ _ Ht) as Ht0.
  rewrite !stage_ordinals_app in Hs, Ht. rewrite !stage_ordinals_app in Hs', Ht'.
  rewrite Hs0 in Hs'. rewrite Ht0 in Ht'.
  assert (Hlt : forall u k, stage_ordinals l1 !! u = Some k -> k < length l1).
  { intros u k Hu. unfold stage_ordinals in Hu. apply index_by_Some in Hu as ([a b] & Hin & _ & <-).
    apply imap_pair_elem in Hin. by eapply lookup_lt_Some. }
  destruct (stage_ordinals l2 !! s) as [a|] eqn:?, (stage_ordinals l2 !! t) as [b|] eqn:?;
    simplify_eq; try lia.
  pose proof (Hlt _ _ Ht). lia.
Qed.

(** The spliced block itself. *)
Lemma keeps_order_block l1 m l2 :
  (forall s, s ∈ m -> s ∉ l1 ++ l2) -> keeps_order m (l1 ++ m ++ l2).
Proof.
  intros Hm s t i j i' j' Hs Ht Hs' Ht' Hij.
  assert (Hnone : forall u k, stage_ordinals m !! u = Some k -> stage_ordinals l2 !! u = None).
  { intros u k Hu. apply eq_None_not_Some. rewrite stage_ordinals_is_Some. intros Hul.
    apply (Hm u); [|set_solver]. apply stage_ordinals_is_Some. eauto. }
  rewrite !stage_ordinals_app, (Hnone _ _ Hs), Hs in Hs'.
  rewrite !stage_ordinals_app, (Hnone _ _ Ht), Ht in Ht'. simplify_eq. lia.
Qed.

Lemma byName_NoDup jobs n j :
  NoDup (Job_Name <$> jobs) -> byName jobs !! n = Some j <-> j ∈ jobs /\ Job_Name j = n.
Proof.
  intros Hnd. split.
  - intros H. apply index_by_Some in H as (x & ? & ? & Hx). unfold id in Hx. by subst.
  - intros [Hj <-]. by apply (index_by_NoDup Job_Name id).
Qed.

(** One of the two lists, inside the combination [r]. *)
Section Part.
Context (p : Pipeline) (jobs : list Job) (stages : list string).
Hypothesis Hp : valid_pipeline p.
Hypothesis Hnd : NoDup (Job_Name <$> jobs).
Hypothesis Hsub : forall j, j ∈ Jobs p -> j ∈ jobs.
Hypothesis Hord : keeps_order (Stages p) stages.

Lemma part_need_ok j dep :
  j ∈ Jobs p -> dep ∈ Job_Needs j -> need_ok jobs stages j dep.
Proof.
  intros Hj Hd. pose proof (vp_needs p Hp) as H. rewrite validateNeeds_Ok in H.
  destruct (H j dep Hj Hd) as (Hne & t & Ht & Hle). split; [done|]. exists t.
  apply byName_NoDup in Ht as [Htp Hn]; [|apply vp_names, Hp].
  split; [apply byName_NoDup; auto|]. intros o' t' Ho' Ht'.
  destruct (vp_ordinal p Hp j Hj) as [o Ho], (vp_ordinal p Hp t Htp) as [u Hu].
  eapply (Hord _ _ u o); eauto.
Qed.

Lemma part_edge j b :
  j ∈ Jobs p -> need_edge (byName jobs) (Job_Name j) b ->
  need_edge (byName (Jobs p)) (Job_Name j) b /\ exists k, k ∈ Jobs p /\ Job_Name k = b.
Proof.
  intros Hj (j' & Hj' & Hb). apply byName_NoDup in Hj' as [Hj'' Hn]; [|done].
  assert (byName jobs !! Job_Name j = Some j) as Hjj by (apply byName_NoDup; auto).
  assert (byName jobs !! Job_Name j = Some j') as Hjj' by (apply byName_NoDup; auto).
  assert (j' = j) as -> by congruence. split.
  - exists j. split; [|done]. apply byName_NoDup; [apply vp_names, Hp|done].
  - destruct (vp_need p Hp j b Hj Hb) as (t & ? & ? & _). eauto.
Qed.

Lemma part_acyclic j : j ∈ Jobs p -> ~ tc (need_edge (byName jobs)) (Job_Name j) (Job_Name j).
Proof.
  intros Hj Ht.
  assert (Hall : forall a b, tc (need_edge (byName jobs)) a b ->
      (exists k, k ∈ Jobs p /\ Job_Name k = a) -> tc (need_edge (byName (Jobs p))) a b).
  { clear j Hj Ht. induction 1 as [a b He|a b c He _ IH]; intros (k & Hk & <-);
      destruct (part_edge _ _ Hk He) as [He' Hb]; [by apply tc_once|].
    eapply tc_l; [exact He'|by apply IH]. }
  apply Hall in Ht; [|by exists j]. pose proof (vp_acyclic p Hp) as Hac.
  rewrite validateNoCycles_Ok in Hac. by apply Hac in Ht.
Qed.
End Part.

Lemma valid_pipeline_union p q r :
  valid_pipeline p -> valid_pipeline q -> NoDup (Job_Name <$> Jobs r) ->
  (forall j, j ∈ Jobs r <-> j ∈ Jobs p \/ j ∈ Jobs q) ->
  (forall s, s ∈ Stages p \/ s ∈ Stages q -> s ∈ Stages r) ->
  keeps_order (Stages p) (Stages r) -> keeps_order (Stages q) (Stages r) ->
  valid_pipeline r.
Proof.
  intros Hp Hq Hnd Hj Hs Hop Hoq. split; [done| | |].
  - rewrite Forall_forall. intros j [Hin|Hin]%Hj; apply Hs.
    + left. pose proof (vp_stages p Hp) as H. rewrite Forall_forall in H. by apply H.
    + right. pose proof (vp_stages q Hq) as H. rewrite Forall_forall in H. by apply H.
  - rewrite validateNeeds_Ok. intros j dep [Hin|Hin]%Hj Hd.
    + apply (part_need_ok p); naive_solver.
    + apply (part_need_ok q); naive_solver.
  - rewrite validateNoCycles_Ok. intros n Hn.
    assert (exists j, j ∈ Jobs r /\ Job_Name j = n) as (j & [Hin|Hin]%Hj & <-).
    { inversion Hn as [? ? (j & Hk & _)|? ? ? (j & Hk & _)]; subst;
        exists j; by apply byName_NoDup in Hk. }
    + revert Hn. apply (part_acyclic p); naive_solver.
    + revert Hn. apply (part_acyclic q); naive_solver.
Qed.

(** C7: [validateNeeds] accepts exactly the job lists in which every [needs:]
    entry names another existing job whose stage is not later; its error is that
    of the first offending entry of the first offending job, and says what is
    wrong with it. *)
Theorem validateNeeds_correct (jobs : list Job) (stages : list string) :
  match validateNeeds jobs stages with
  | Ok _ => forall j dep, j ∈ jobs -> dep ∈ Job_Needs j -> need_ok jobs stages j dep
  | Err e =>
      exists before j after, jobs = before ++ j :: after /\
        Forall (fun b => forall dep, dep ∈ Job_Needs b -> need_ok jobs stages b dep) before /\
        exists d1 dep d2, Job_Needs j = d1 ++ dep :: d2 /\
          Forall (need_ok jobs stages j) d1 /\
          match e with
          | NeedsSelf n => n = Job_Name j /\ dep = Job_Name j
          | NeedsUnknown n d => n = Job_Name j /\ d = dep /\ byName jobs !! dep = None
          | NeedsForward n s o d s' o' =>
              n = Job_Name j /\ d = dep /\ s = Job_Stage j /\
              (exists t, byName jobs !! dep = Some t /\ Job_Stage t = s') /\
              stage_ordinals stages !! s = Some o /\ stage_ordinals stages !! s' = Some o' /\
              o < o'
          end
  end.
Proof.
  destruct (validateNeeds jobs stages) as [[]|e] eqn:Hr; [by apply validateNeeds_Ok|].
  apply check_all_Err in Hr as (before & j & after & -> & Hb & Hj).
  apply check_all_Err in Hj as (d1 & dep & d2 & Hd & Hd1 & He).
  set (jobs := before ++ j :: after) in *.
  exists before, j, after. split_and!; [done| |].
  - eapply Forall_impl; [exact Hb|]. intros b Hok dep' Hdep'. rewrite check_all_Ok in Hok.
    rewrite Forall_forall in Hok. by apply check_need_Ok, Hok.
  - exists d1, dep, d2. split_and!; [done| |].
    + eapply Forall_impl; [exact Hd1|]. intros d. apply check_need_Ok.
    + unfold check_need in He. case_decide; [simplify_eq; done|].
      destruct (byName jobs !! dep) as [t|] eqn:Ht; [|by simplify_eq].
      destruct (stage_ordinals stages !! Job_Stage j) eqn:?,
               (stage_ordinals stages !! Job_Stage t) eqn:?; try done.
      destruct (Nat.ltb_spec n n0); [|done]. simplify_eq. eauto 10.
Qed.

Example forward_reference :
  validateNeeds [mk_job "a" "build" ["b"] None None ""; mk_job "b" "test" [] None None ""]
    ["build"; "test"] = Err (NeedsForward "a" "build" 0 "b" "test" 1).
Proof. vm_compute. reflexivity. Qed.
