(* ===== verification/GateGraph.v ===== *)
(** [server/pkg/domain/gategraph.go]: which approval gates govern a deploy, and
    which gates are ready. *)

From S2P Require Import Prelude Domain NeedsGraph CycleCheck ValidateNeeds.

Section Gates.
Context (p : Pipeline).

Definition stageIndex : gmap string nat := stage_ordinals (Stages p).
(** [sidx[s]]: a missing stage reads as the zero value. *)
Definition sidx (s : string) : nat := default 0 (stageIndex !! s).

Definition precedes (a b : Job) : bool :=
  (sidx (Job_Stage a) <? sidx (Job_Stage b))%nat ||
  transitivelyNeeds (byName (Jobs p)) b (Job_Name a).

Definition is_gate (j : Job) : bool := if Job_Approval j then true else false.

(** The gates that must clear before [d]. *)
Definition waits (d : Job) : list Job :=
  filter (fun g => is_gate g && precedes g d = true) (Jobs p).
Definition shadowed (ws : list Job) (g : Job) : bool :=
  existsb (fun g2 => negb (bool_decide (Job_Name g2 = Job_Name g)) && precedes g g2) ws.
Definition governingGatesForJob (d : Job) : list string :=
  Job_Name <$> filter (fun g => shadowed (waits d) g = false) (waits d).

(** The environment-collecting loop shared by [GovernedEnvs] and
    [GovernedFreezeEnvs]; they differ in the environment of a job. *)
Definition envs_governed_by (env_of : Job -> string) (gateName : string) : list string :=
  sort_strings (dedup (Jobs p ≫= fun d =>
    if decide (env_of d = "") then []
    else governingGatesForJob d ≫= fun g => if decide (g = gateName) then [env_of d] else [])).

(** [d.Deploy.Environment], empty when there is no deploy marker. *)
Definition deploy_env (d : Job) : string :=
  match Job_Deploy d with Some s => Deploy_Environment s | None => "" end.
Definition GovernedEnvs (gateName : string) : list string :=
  envs_governed_by deploy_env gateName.
Definition GovernedFreezeEnvs (gateName : string) : list string :=
  envs_governed_by TargetEnvironment gateName.

Definition hasGovernedDeploy : bool :=
  existsb (fun j => negb (bool_decide (deploy_env j = ""))) (Jobs p).

(** The common tail of the two ready-gate resolvers, over the gates found
    ready. *)
Definition ready_envs (ready : list Job) : list string * bool :=
  let envs := dedup (ready ≫= fun j => GovernedEnvs (Job_Name j)) in
  match ready, envs with
  | [], _ => ([], false)
  | _, [] => if hasGovernedDeploy then ([], false) else ([], true)
  | _, _ => (sort_strings envs, true)
  end.

Definition ReadyGateEnvsAtStart : list string * bool :=
  match Stages p with
  | [] => ([], false)
  | first :: _ =>
      ready_envs (filter (fun j => is_gate j = true /\ Job_Stage j = first /\ Job_Needs j = [])
                    (Jobs p))
  end.

(** [completedOrdinal] is a Go [int]: a negative one selects no stage or the
    first one. *)
Definition gateNeedsSatisfied (g : Job) (completedOrdinal : Z) : bool :=
  forallb (fun n => match byName (Jobs p) !! n with
                    | Some dep => (Z.of_nat (sidx (Job_Stage dep)) <=? completedOrdinal)%Z
                    | None => false
                    end) (Job_Needs g).

Definition ready_after (completedOrdinal : Z) (nextStage : string) : list Job :=
  filter (fun j => is_gate j = true /\ Job_Stage j = nextStage /\
                   gateNeedsSatisfied j completedOrdinal = true) (Jobs p).

Definition ReadyGateEnvsAfterStage (completedOrdinal : Z) : list string * bool :=
  let next := (completedOrdinal + 1)%Z in
  if (next <=? 0)%Z || (Z.of_nat (length (Stages p)) <=? next)%Z then ([], false)
  else match Stages p !! Z.to_nat next with
       | Some nextStage => ready_envs (ready_after completedOrdinal nextStage)
       | None => ([], false)
       end.

Definition GoverningGates (env : string) : list string :=
  sort_strings (dedup (filter (fun d => Job_Deploy d <> None /\ deploy_env d = env) (Jobs p)
                       ≫= governingGatesForJob)).
End Gates.

(** ** The must-pass-before order *)
Section Order.
Context (p : Pipeline) (Hp : valid_pipeline p).

Lemma precedes_spec a b :
  b ∈ Jobs p ->
  precedes p a b = true <->
  sidx p (Job_Stage a) < sidx p (Job_Stage b) \/
  tc (need_edge (byName (Jobs p))) (Job_Name b) (Job_Name a).
Proof.
  intros Hb. unfold precedes. rewrite orb_true_iff, Nat.ltb_lt.
  rewrite transitivelyNeeds_tc by by apply vp_byName. done.
Qed.

(** What precedes a job lies in its stage or an earlier one. *)
Lemma tc_stage a b :
  a ∈ Jobs p -> b ∈ Jobs p -> tc (need_edge (byName (Jobs p))) (Job_Name b) (Job_Name a) ->
  sidx p (Job_Stage a) <= sidx p (Job_Stage b).
Proof.
  intros Ha Hb Ht. destruct (vp_rtc_stage p Hp b (Job_Name a)) as (t & Ht' & Hn & Hle);
    [by apply tc_rtc|done|].
  assert (t = a) as ->; [|done].
  pose proof (vp_byName p Hp t Ht') as H1. rewrite Hn, vp_byName in H1 by done. congruence.
Qed.

Lemma precedes_stage a b :
  a ∈ Jobs p -> b ∈ Jobs p -> precedes p a b = true ->
  sidx p (Job_Stage a) <= sidx p (Job_Stage b).
Proof. intros Ha Hb [?|?]%precedes_spec; [lia|by apply tc_stage|done]. Qed.

Lemma precedes_irrefl a : a ∈ Jobs p -> precedes p a a = false.
Proof.
  intros Ha. destruct (precedes p a a) eqn:H; [|done].
  apply precedes_spec in H as [?|Ht]; [lia| |done]. by apply (vp_no_cycle p Hp) in Ht.
Qed.

Lemma precedes_trans a b c :
  a ∈ Jobs p -> b ∈ Jobs p -> c ∈ Jobs p ->
  precedes p a b = true -> precedes p b c = true -> precedes p a c = true.
Proof.
  intros Ha Hb Hc Hab Hbc.
  pose proof (precedes_stage a b Ha Hb Hab). pose proof (precedes_stage b c Hb Hc Hbc).
  rewrite precedes_spec in Hab, Hbc |- * by done.
  destruct Hab as [?|Hab]; [left; lia|]. destruct Hbc as [?|Hbc]; [left; lia|].
  right. by trans (Job_Name b).
Qed.

Lemma job_eq_name a b : a ∈ Jobs p -> b ∈ Jobs p -> Job_Name a = Job_Name b -> a = b.
Proof.
  intros Ha Hb Hn. pose proof (vp_byName p Hp a Ha) as H. rewrite Hn, vp_byName in H by done.
  congruence.
Qed.

(** ** Governing gates *)

Lemma elem_of_waits d g :
  g ∈ waits p d <-> g ∈ Jobs p /\ is_gate g = true /\ precedes p g d = true.
Proof. unfold waits. rewrite list_elem_of_filter, andb_true_iff. naive_solver. Qed.

Lemma shadowed_false ws g :
  shadowed p ws g = false <->
  forall g2, g2 ∈ ws -> Job_Name g2 <> Job_Name g -> precedes p g g2 = false.
Proof.
  unfold shadowed. rewrite <-not_true_iff_false, existsb_exists. setoid_rewrite <-list_elem_of_In.
  setoid_rewrite andb_true_iff. setoid_rewrite negb_true_iff. setoid_rewrite bool_decide_eq_false.
  split.
  - intros H g2 Hg2 Hne. destruct (precedes p g g2) eqn:Hpr; [|done]. exfalso. eauto.
  - intros H (g2 & Hg2 & Hne & Hpr). rewrite H in Hpr; done.
Qed.

Lemma elem_of_governing d n :
  n ∈ governingGatesForJob p d <->
  exists g, Job_Name g = n /\ g ∈ waits p d /\
    forall g2, g2 ∈ waits p d -> Job_Name g2 <> n -> precedes p g g2 = false.
Proof.
  unfold governingGatesForJob. rewrite list_elem_of_fmap.
  split; intros (g & H); exists g; rewrite list_elem_of_filter, shadowed_false in *.
  - by destruct H as (-> & H & Hg).
  - by destruct H as (<- & Hg & H).
Qed.

(** Every gate a job waits for governs it or is shadowed by one that does. *)
Lemma governing_covers d g :
  g ∈ waits p d ->
  exists g', g' ∈ waits p d /\ Job_Name g' ∈ governingGatesForJob p d /\
    (g = g' \/ precedes p g g' = true).
Proof.
  intros Hg. destruct (maximal_above (precedes p) (waits p d)) with (x := g)
    as (m & Hm & Hgm & Hmax); [| |done|].
  - intros x (Hx & _)%elem_of_waits. by apply precedes_irrefl.
  - intros x y z (Hx & _)%elem_of_waits (Hy & _)%elem_of_waits (Hz & _)%elem_of_waits.
    by apply precedes_trans.
  - exists m. split_and!; [done| |done]. apply elem_of_governing. exists m. eauto.
Qed.
End Order.

Lemma elem_of_envs_governed_by p env_of gate e :
  e ∈ envs_governed_by p env_of gate <->
  e <> "" /\ exists d, d ∈ Jobs p /\ env_of d = e /\ gate ∈ governingGatesForJob p d.
Proof.
  unfold envs_governed_by. autorewrite with gocd. rewrite list_elem_of_bind. split.
  - intros (d & He & Hd). case_decide; [by apply elem_of_nil in He|].
    apply list_elem_of_bind in He as (g & He & Hg). case_decide; [|by apply elem_of_nil in He].
    apply list_elem_of_singleton in He. subst. eauto.
  - intros (Hne & d & Hd & <- & Hg). exists d. split; [|done].
    rewrite decide_False by done. apply list_elem_of_bind. exists gate.
    rewrite decide_True by done. split; [by apply list_elem_of_singleton|done].
Qed.

Lemma NoDup_envs_governed_by p env_of gate : NoDup (envs_governed_by p env_of gate).
Proof. unfold envs_governed_by. apply NoDup_sort_strings, NoDup_dedup. Qed.

Lemma elem_of_GoverningGates p env g :
  g ∈ GoverningGates p env <->
  exists d, d ∈ Jobs p /\ Job_Deploy d <> None /\ deploy_env d = env /\
    g ∈ governingGatesForJob p d.
Proof.
  unfold GoverningGates. autorewrite with gocd. rewrite list_elem_of_bind.
  setoid_rewrite list_elem_of_filter. naive_solver.
Qed.

(** ** Ready gates *)

Lemma elem_of_ready_after p k stage g :
  g ∈ ready_after p k stage <->
  g ∈ Jobs p /\ is_gate g = true /\ Job_Stage g = stage /\ gateNeedsSatisfied p g k = true.
Proof. unfold ready_after. rewrite list_elem_of_filter. naive_solver. Qed.

Lemma gateNeedsSatisfied_spec p g k :
  gateNeedsSatisfied p g k = true <->
  forall n, n ∈ Job_Needs g -> exists dep, byName (Jobs p) !! n = Some dep /\
    (Z.of_nat (sidx p (Job_Stage dep)) <= k)%Z.
Proof.
  unfold gateNeedsSatisfied. rewrite forallb_forall. setoid_rewrite <-list_elem_of_In.
  split; intros H n Hn; specialize (H n Hn).
  - destruct (byName (Jobs p) !! n) as [dep|]; [|done]. exists dep. split; [done|lia].
  - destruct H as (dep & -> & ?). lia.
Qed.

(** Direct needs in finished stages are enough: everything that precedes such a
    gate is in a finished stage. *)
Lemma gateNeedsSatisfied_precedes p g k :
  valid_pipeline p -> g ∈ Jobs p -> (Z.of_nat (sidx p (Job_Stage g)) <= k + 1)%Z ->
  gateNeedsSatisfied p g k = true <->
  forall b, b ∈ Jobs p -> precedes p b g = true -> (Z.of_nat (sidx p (Job_Stage b)) <= k)%Z.
Proof.
  intros Hp Hg Hk. rewrite gateNeedsSatisfied_spec. split.
  - intros H b Hb Hpr. apply precedes_spec in Hpr as [?|Ht]; [lia| |done|done].
    assert (Hfirst : exists n, n ∈ Job_Needs g /\ rtc (need_edge (byName (Jobs p))) n (Job_Name b)).
    { inversion Ht as [? ? (j & Hj & Hn)|? n ? (j & Hj & Hn) Hr]; subst;
        rewrite vp_byName in Hj by done; simplify_eq.
      - exists (Job_Name b). split; [done|constructor].
      - exists n. split; [done|by apply tc_rtc]. }
    destruct Hfirst as (n & Hn & Hr). destruct (H n Hn) as (dep & Hdep & Hle).
    apply vp_byName_Some in Hdep as [Hdj <-].
    destruct (vp_rtc_stage p Hp dep (Job_Name b) Hr Hdj) as (t & Ht' & Hname & Hle').
    assert (t = b) as -> by by eapply job_eq_name. unfold sidx, stageIndex in *. lia.
  - intros H n Hn. destruct (vp_need p Hp g n Hg Hn) as (t & Ht & <- & _).
    exists t. rewrite vp_byName by done. split; [done|]. apply H; [done|].
    apply precedes_spec; [done..|]. right. apply tc_once. exists g. by rewrite vp_byName.
Qed.

(** What both resolvers return, given the gates they found ready. *)
Lemma ready_envs_spec p ready envs b :
  ready_envs p ready = (envs, b) ->
  (forall e, e ∈ envs <-> exists g, g ∈ ready /\ e ∈ GovernedEnvs p (Job_Name g)) /\
  NoDup envs /\ Sorted String.le envs /\
  (b = true <-> ready <> [] /\ (envs <> [] \/ hasGovernedDeploy p = false)).
Proof.
  unfold ready_envs.
  assert (Hd : forall e, e ∈ dedup (ready ≫= fun j => GovernedEnvs p (Job_Name j)) <->
      exists g, g ∈ ready /\ e ∈ GovernedEnvs p (Job_Name g)).
  { intros e. autorewrite with gocd. rewrite list_elem_of_bind. naive_solver. }
  destruct ready as [|g ready].
  { intros [= <- <-]. split_and!; [|constructor..|naive_solver].
    intros e. split; [by intros ?%elem_of_nil|]. by intros (? & ?%elem_of_nil & _). }
  pose proof (NoDup_dedup ((g :: ready) ≫= fun j => GovernedEnvs p (Job_Name j))) as Hnd.
  destruct (dedup _) as [|e es] eqn:He.
  - destruct (hasGovernedDeploy p); intros [= <- <-]; split_and!;
      try constructor; try done; naive_solver.
  - intros [= <- <-]. split_and!; [|by autorewrite with gocd|auto with gocd|].
    + intros e'. autorewrite with gocd. apply Hd.
    + split; [|done]. intros _. split; [done|]. left. intros Hnil.
      assert (Hin : e ∈ sort_strings (e :: es)) by (autorewrite with gocd; set_solver).
      rewrite Hnil in Hin. by apply elem_of_nil in Hin.
Qed.

(** The gates that the completion of stage [k] makes ready: those of stage
    [k + 1] all of whose predecessors are in stages up to [k]. *)
Definition becomes_ready (p : Pipeline) (k : Z) (g : Job) : Prop :=
  g ∈ Jobs p /\ is_gate g = true /\ Z.of_nat (sidx p (Job_Stage g)) = (k + 1)%Z /\
  forall b, b ∈ Jobs p -> precedes p b g = true -> (Z.of_nat (sidx p (Job_Stage b)) <= k)%Z.

Lemma sidx_lookup p i s : NoDup (Stages p) -> Stages p !! i = Some s -> sidx p s = i.
Proof. intros Hnd Hi. unfold sidx, stageIndex. by rewrite (stage_ordinals_NoDup _ i). Qed.

Lemma sidx_stage p j : NoDup (Stages p) -> valid_pipeline p -> j ∈ Jobs p ->
  Stages p !! sidx p (Job_Stage j) = Some (Job_Stage j).
Proof.
  intros Hnd Hp Hj. pose proof (vp_stages p Hp) as Hs. rewrite Forall_forall in Hs.
  apply Hs, list_elem_of_lookup in Hj as [i Hi]. by rewrite (sidx_lookup p i).
Qed.

Lemma ready_after_becomes_ready p k stage g :
  valid_pipeline p -> NoDup (Stages p) -> (0 <= k + 1)%Z ->
  Stages p !! Z.to_nat (k + 1) = Some stage ->
  g ∈ ready_after p k stage <-> becomes_ready p k g.
Proof.
  intros Hp Hnd Hk Hst. rewrite elem_of_ready_after. unfold becomes_ready. split.
  - intros (Hg & Hgate & Hs & Hn).
    assert (Hi : Z.of_nat (sidx p (Job_Stage g)) = (k + 1)%Z).
    { rewrite Hs, (sidx_lookup p (Z.to_nat (k + 1))) by done. lia. }
    split_and!; [done..|]. apply gateNeedsSatisfied_precedes; [done..|lia|done].
  - intros (Hg & Hgate & Hi & Hb). split_and!; [done|done| |].
    + pose proof (sidx_stage p g Hnd Hp Hg) as Hsg.
      replace (sidx p (Job_Stage g)) with (Z.to_nat (k + 1)) in Hsg by lia. congruence.
    + apply gateNeedsSatisfied_precedes; [done..|lia|done].
Qed.

(** ** Properties *)

(** In a pipeline the parser accepts, "must pass before" is a strict partial
    order on the jobs, and it is exactly stage order joined with reachability
    along [needs:]. *)
Theorem precedes_strict_order (p : Pipeline) (Hp : valid_pipeline p) :
  (forall a b, b ∈ Jobs p -> precedes p a b = true <->
     sidx p (Job_Stage a) < sidx p (Job_Stage b) \/
     tc (need_edge (byName (Jobs p))) (Job_Name b) (Job_Name a)) /\
  (forall a, a ∈ Jobs p -> precedes p a a = false) /\
  (forall a b c, a ∈ Jobs p -> b ∈ Jobs p -> c ∈ Jobs p ->
     precedes p a b = true -> precedes p b c = true -> precedes p a c = true).
Proof.
  split_and!; [by apply precedes_spec|by apply precedes_irrefl|by apply precedes_trans].
Qed.

(** An accepted pipeline cannot deadlock at dispatch: whatever set of jobs
    has finished, if one has not, then some unfinished job waits only for
    finished ones. *)
Theorem accepted_pipeline_progress (p : Pipeline) (finished : Job -> bool) :
  valid_pipeline p -> (exists j, j ∈ Jobs p /\ finished j = false) ->
  exists j, j ∈ Jobs p /\ finished j = false /\
    forall b, b ∈ Jobs p -> precedes p b j = true -> finished b = true.
Proof.
  intros Hp (j & Hj & Hf).
  set (todo := filter (fun j => finished j = false) (Jobs p)).
  assert (Htodo : forall x, x ∈ todo <-> x ∈ Jobs p /\ finished x = false)
    by (intros x; unfold todo; rewrite list_elem_of_filter; naive_solver).
  destruct (maximal_above (fun a b => precedes p b a) todo) with (x := j)
    as (m & Hm & _ & Hmax).
  - intros x (Hx & _)%Htodo. by apply precedes_irrefl.
  - intros x y z (Hx & _)%Htodo (Hy & _)%Htodo (Hz & _)%Htodo ? ?.
    by apply (precedes_trans p Hp z y x).
  - by apply Htodo.
  - apply Htodo in Hm as [Hm Hfm]. exists m. split_and!; [done..|]. intros b Hb Hpr.
    destruct (finished b) eqn:Hfb; [done|]. rewrite Hmax in Hpr; [done|by apply Htodo].
Qed.

(** The governing gates of a job are exactly the closest gates that must
    clear before it, and a job that waits for any gate is never ungoverned:
    each gate it waits for governs it or precedes a gate that does. *)
Theorem governingGates_closest (p : Pipeline) (d : Job) (Hp : valid_pipeline p) :
  (forall n, n ∈ governingGatesForJob p d <->
     exists g, g ∈ Jobs p /\ Job_Name g = n /\ is_gate g = true /\ precedes p g d = true /\
       forall g2, g2 ∈ Jobs p -> is_gate g2 = true -> precedes p g g2 = true ->
                  precedes p g2 d = false) /\
  (forall g, g ∈ Jobs p -> is_gate g = true -> precedes p g d = true ->
     exists g', g' ∈ Jobs p /\ Job_Name g' ∈ governingGatesForJob p d /\
       (g = g' \/ precedes p g g' = true)).
Proof.
  split.
  - intros n. rewrite elem_of_governing. setoid_rewrite elem_of_waits. split.
    + intros (g & <- & (Hg & Hgate & Hpr) & Hcl). exists g. split_and!; [done..|].
      intros g2 Hg2 Hgate2 Hlt. destruct (precedes p g2 d) eqn:Hpr2; [|done]. exfalso.
      destruct (decide (Job_Name g2 = Job_Name g)) as [Hn|Hn].
      * rewrite (job_eq_name p Hp g2 g), precedes_irrefl in Hlt; done.
      * rewrite Hcl in Hlt; done.
    + intros (g & Hg & <- & Hgate & Hpr & Hcl). exists g. split_and!; [done..|].
      intros g2 (Hg2 & Hgate2 & Hpr2) _. destruct (precedes p g g2) eqn:Hlt; [|done].
      rewrite Hcl in Hpr2; done.
  - intros g Hg Hgate Hpr. destruct (governing_covers p Hp d g) as (g' & Hg' & ? & ?).
    { by apply elem_of_waits. }
    apply elem_of_waits in Hg' as [? _]. eauto.
Qed.

(** The two views of governance agree: a gate governs an environment in
    [GovernedEnvs] exactly when it is one of the environment's
    [GoverningGates]; every environment of [GovernedEnvs] is one of
    [GovernedFreezeEnvs]; both are sorted and without duplicates. *)
Theorem governance_duality (p : Pipeline) (gate env : string) :
  (env ∈ GovernedEnvs p gate <-> env <> "" /\ gate ∈ GoverningGates p env) /\
  (env ∈ GovernedEnvs p gate -> env ∈ GovernedFreezeEnvs p gate) /\
  NoDup (GovernedEnvs p gate) /\ Sorted String.le (GovernedEnvs p gate) /\
  NoDup (GovernedFreezeEnvs p gate) /\ Sorted String.le (GovernedFreezeEnvs p gate).
Proof.
  unfold GovernedEnvs, GovernedFreezeEnvs. rewrite !elem_of_envs_governed_by.
  rewrite elem_of_GoverningGates. split_and!.
  - split; intros [Hne (d & H)]; (split; [done|]); exists d.
    + destruct H as (Hd & Henv & Hg). split_and!; [done| |done..].
      intros Hnone. unfold deploy_env in Henv. by rewrite Hnone in Henv.
    + by destruct H as (? & _ & ? & ?).
  - intros (Hne & d & Hd & Henv & Hg). split; [done|]. exists d. split_and!; [done| |done].
    unfold TargetEnvironment, deploy_env in *. destruct (Job_Deploy d); [|done].
    subst. by rewrite decide_True.
  - apply NoDup_envs_governed_by.
  - apply Sorted_sort_strings.
  - apply NoDup_envs_governed_by.
  - apply Sorted_sort_strings.
Qed.

(** The supersede cascade fires for exactly the right gates. When stage [k]
    completes, the environments returned are those governed by a gate of stage
    [k + 1] whose every predecessor, direct or transitive, is in a finished
    stage; and it fires only if such a gate exists, with an empty list only in a
    pipeline that deploys nowhere. The same holds at run creation, which is the
    completion of stage [-1]. *)
Theorem ready_gates_exact (p : Pipeline) (k : Z) (envs : list string) (ready : bool) :
  valid_pipeline p -> NoDup (Stages p) -> (-1 <= k)%Z ->
  (if decide (k = -1)%Z then ReadyGateEnvsAtStart p else ReadyGateEnvsAfterStage p k)
    = (envs, ready) ->
  (forall e, e ∈ envs <-> exists g, becomes_ready p k g /\ e ∈ GovernedEnvs p (Job_Name g)) /\
  (ready = true <-> (exists g, becomes_ready p k g) /\
                    (envs <> [] \/ hasGovernedDeploy p = false)).
Proof.
  intros Hp Hnd Hk Hr.
  assert (Hlist : exists l, ready_envs p l = (envs, ready) /\ forall g, g ∈ l <-> becomes_ready p k g).
  { case_decide as Hk1.
    - subst k. unfold ReadyGateEnvsAtStart in Hr. destruct (Stages p) as [|first rest] eqn:Hs.
      + exists []. split; [done|]. intros g. split; [by intros ?%elem_of_nil|].
        intros (Hg & _). pose proof (sidx_stage p g) as H. rewrite Hs in H.
        by specialize (H Hnd Hp Hg).
      + eexists; split; [exact Hr|]. intros g.
        rewrite <-(ready_after_becomes_ready p (-1) first) by (first [done | lia | by rewrite Hs]).
        rewrite elem_of_ready_after, list_elem_of_filter.
        assert (Hn : gateNeedsSatisfied p g (-1) = true <-> Job_Needs g = []).
        { rewrite gateNeedsSatisfied_spec. destruct (Job_Needs g) as [|n ns]; [set_solver|].
          split; [|done]. intros H. destruct (H n) as (? & _ & ?); [set_solver|lia]. }
        rewrite Hn. naive_solver.
    - unfold ReadyGateEnvsAfterStage in Hr.
      destruct (Z.leb_spec (k + 1) 0); [lia|].
      destruct (Z.leb_spec (Z.of_nat (length (Stages p))) (k + 1)); simpl in Hr.
      + exists []. split; [done|]. intros g. split; [by intros ?%elem_of_nil|].
        intros (Hg & _ & Hi & _). pose proof (sidx_stage p g Hnd Hp Hg) as H1.
        apply lookup_lt_Some in H1. lia.
      + destruct (Stages p !! Z.to_nat (k + 1)) as [stage|] eqn:Hst.
        * exists (ready_after p k stage). split; [done|]. intros g.
          apply ready_after_becomes_ready; [done..|lia|done].
        * apply lookup_ge_None in Hst. lia. }
  destruct Hlist as (l & Hl & Hmem). apply ready_envs_spec in Hl as (He & _ & _ & Hb).
  setoid_rewrite Hmem in He. split; [done|]. rewrite Hb.
  assert (Hne : l <> [] <-> exists g, becomes_ready p k g); [|naive_solver].
  split.
  - destruct l as [|g l]; [done|]. intros _. exists g. apply Hmem. set_solver.
  - intros (g & Hg%Hmem) ->. by apply elem_of_nil in Hg.
Qed.

(** ** Examples *)

(** The pipeline of the file's header comment, with a same-stage chain of two
    gates in front of production. *)
Definition staged_pipeline : Pipeline :=
  mk_pipeline ["build"; "approve-staging"; "deploy-staging"; "approve-prod"; "deploy-prod"]
    [mk_job "compile" "build" [] None None "";
     mk_job "ok-staging" "approve-staging" [] (Some mk_approval) None "";
     mk_job "staging" "deploy-staging" [] None (Some (mk_deploy "staging")) "";
     mk_job "ok-security" "approve-prod" ["compile"] (Some mk_approval) None "";
     mk_job "ok-prod" "approve-prod" ["ok-security"] (Some mk_approval) None "";
     mk_job "migrate" "deploy-prod" [] None None "prod-db";
     mk_job "prod" "deploy-prod" ["migrate"] None (Some (mk_deploy "prod")) ""].

Example staged_governing :
  governingGatesForJob staged_pipeline (mk_job "prod" "deploy-prod" ["migrate"] None
    (Some (mk_deploy "prod")) "") = ["ok-prod"].
Proof. vm_compute. reflexivity. Qed.
Example staged_ready :
  (ReadyGateEnvsAtStart staged_pipeline, ReadyGateEnvsAfterStage staged_pipeline <$> [0; 1; 2; 3; 4]%Z)
  = ([], false, [(["staging"], true); ([], false); ([], false); ([], false); ([], false)]).
Proof. vm_compute. reflexivity. Qed.
Example staged_freeze :
  GovernedFreezeEnvs staged_pipeline "ok-prod" = ["prod"; "prod-db"].
Proof. vm_compute. reflexivity. Qed.

Lemma staged_valid : valid_pipeline staged_pipeline.
Proof. apply (bool_decide_unpack _). vm_compute. exact I. Qed.

Lemma precedes_strict_order_witness :
  valid_pipeline staged_pipeline /\
  forall a, a ∈ Jobs staged_pipeline -> precedes staged_pipeline a a = false.
Proof. split; [exact staged_valid|apply (precedes_strict_order staged_pipeline staged_valid)]. Defined.

Lemma accepted_pipeline_progress_witness :
  exists j, j ∈ Jobs staged_pipeline /\ bool_decide (Job_Stage j = "build") = false /\
    forall b, b ∈ Jobs staged_pipeline -> precedes staged_pipeline b j = true ->
              bool_decide (Job_Stage b = "build") = true.
Proof.
  apply (accepted_pipeline_progress staged_pipeline
           (fun j => bool_decide (Job_Stage j = "build")) staged_valid).
  exists (mk_job "ok-staging" "approve-staging" [] (Some mk_approval) None "").
  split; [simpl; set_solver|reflexivity].
Defined.

Lemma governingGates_closest_witness :
  exists g', g' ∈ Jobs staged_pipeline /\
    Job_Name g' ∈ governingGatesForJob staged_pipeline
      (mk_job "prod" "deploy-prod" ["migrate"] None (Some (mk_deploy "prod")) "") /\
    (mk_job "ok-security" "approve-prod" ["compile"] (Some mk_approval) None "" = g' \/
     precedes staged_pipeline (mk_job "ok-security" "approve-prod" ["compile"] (Some mk_approval)
       None "") g' = true).
Proof.
  apply (governingGates_closest staged_pipeline (mk_job "prod" "deploy-prod" ["migrate"] None
           (Some (mk_deploy "prod")) "") staged_valid); [simpl; set_solver|reflexivity..].
Defined.

Lemma ready_gates_exact_witness :
  exists g, becomes_ready staged_pipeline 0 g /\ "staging" ∈ GovernedEnvs staged_pipeline (Job_Name g).
Proof.
  apply (ready_gates_exact staged_pipeline 0 ["staging"] true staged_valid);
    [apply (bool_decide_unpack _); vm_compute; exact I|lia|vm_compute; reflexivity|set_solver].
Defined.
