(* ===== verification/CacheKey.v ===== *)
(** [proto/cachekey/parser.go]: cache-key templates, parsed by the server at
    apply time and expanded by the agent. *)

From S2P Require Import Prelude GoStrings GoRegexp.

(** ** Limits and patterns *)

Definition MaxKeyLength : nat := 1024.
Definition MaxTokens : nat := 5.
Definition MaxArgLength : nat := 255.
Definition HashOutputLength : nat := 12.

(** White space, word characters, and anything but the double quote. *)
Definition space_class : cclass :=
  {| ascii_in := fun c => bool_decide (code c = 9 \/ code c = 10 \/ code c = 12 \/ code c = 13 \/ code c = 32);
     other_in := false |}.
Definition is_word (c : Ascii.ascii) : bool :=
  is_upper c || is_lower c || is_digit c || bool_decide (code c = 95).
Definition word_class : cclass := {| ascii_in := is_word; other_in := false |}.
Definition not_quote_class : cclass :=
  {| ascii_in := fun c => negb (bool_decide (code c = 34)); other_in := true |}.
Definition quote : string := bytes [34].

(** Two opening braces, a function name (group 1), a quoted argument (group 2)
    and two closing braces, with white space between them. *)
Definition cacheKeyTokenRE : re :=
  Seq (Lit "{{") (Seq (Star space_class) (Seq (Group 1 (Plus word_class))
    (Seq (Plus space_class) (Seq (Lit quote) (Seq (Group 2 (Star not_quote_class))
      (Seq (Lit quote) (Seq (Star space_class) (Lit "}}")))))))).

(** [[a-zA-Z0-9\-_.]], as [^[...]*$] over a whole chunk. *)
Definition key_byte (c : Ascii.ascii) : bool :=
  is_lower c || is_upper c || is_digit c ||
  bool_decide (c = "-"%char \/ c = "_"%char \/ c = "."%char).
Definition literalChunkCharset (s : string) : bool := all_bytes key_byte s.
Definition expandedCharset (s : string) : bool :=
  negb (bool_decide (s = "")) && all_bytes key_byte s.

Definition AllowedFunctions (fn : string) : bool := bool_decide (fn = "hash").

(** ** Parsing *)

Inductive part := Literal (s : string) | Call (fn arg : string).
Record Template := { raw : string; parts : list part }.

Inductive key_error :=
| KeyEmpty
| KeyTooLong (len : nat)
| KeyTooManyTokens (n : nat)
| KeyMalformed (off : nat)
| KeyBadLiteral (chunk : string) (off : nat)
| KeyUnknownFunction (fn : string) (off : nat)
| KeyArgTooLong (fn : string) (len : nat)
| KeyArgEmpty (fn : string) (off : nat)
| KeyArgDotDot (fn arg : string)
| KeyArgAbsolute (fn arg : string).

#[export] Instance part_eq_dec : EqDecision part.
Proof. solve_decision. Defined.
#[export] Instance Template_eq_dec : EqDecision Template.
Proof. solve_decision. Defined.
#[export] Instance key_error_eq_dec : EqDecision key_error.
Proof. solve_decision. Defined.

(** A literal chunk at offset [cursor]: the head and middle chunks are always
    followed by a token, so the charset rule is gated on [hasTokens] in all. *)
Definition parse_literal (hasTokens : bool) (cursor : nat) (chunk : string)
    : result key_error part :=
  match Index chunk "{{" with
  | Some idx => Err (KeyMalformed (cursor + idx))
  | None =>
      if hasTokens && negb (literalChunkCharset chunk) then Err (KeyBadLiteral chunk cursor)
      else Ok (Literal chunk)
  end.

Definition parse_token (start : nat) (fn arg : string) : result key_error part :=
  if negb (AllowedFunctions fn) then Err (KeyUnknownFunction fn start)
  else if (MaxArgLength <? slen arg)%nat then Err (KeyArgTooLong fn (slen arg))
  else if decide (arg = "") then Err (KeyArgEmpty fn start)
  else if Contains arg ".." then Err (KeyArgDotDot fn arg)
  else if HasPrefix arg "/" then Err (KeyArgAbsolute fn arg)
  else Ok (Call fn arg).

Fixpoint parse_parts (hasTokens : bool) (cursor : nat) (l : list piece)
    : result key_error (list part) :=
  match l with
  | [] => Ok []
  | p :: l =>
      x ← match p with
          | Plain chunk => parse_literal hasTokens cursor chunk
          | Found _ caps => parse_token cursor (group caps 1) (group caps 2)
          end;
      xs ← parse_parts hasTokens (cursor + slen (piece_text p)) l;
      Ok (x :: xs)
  end.

Definition is_token (p : piece) : bool := match p with Found _ _ => true | Plain _ => false end.

Definition Parse (s : string) : result key_error Template :=
  if decide (s = "") then Err KeyEmpty
  else if (MaxKeyLength <? slen s)%nat then Err (KeyTooLong (slen s))
  else
    let pieces := FindAll cacheKeyTokenRE s in
    let n := length (filter (fun p => is_token p = true) pieces) in
    if (MaxTokens <? n)%nat then Err (KeyTooManyTokens n)
    else ps ← parse_parts (0 <? n)%nat 0 pieces; Ok {| raw := s; parts := ps |}.

Definition Raw (t : Template) : string := raw t.
Definition is_call (p : part) : bool := match p with Call _ _ => true | Literal _ => false end.
Definition HasTokens (t : Template) : bool := existsb is_call (parts t).

(** ** Expansion *)

Inductive expand_error (E : Type) :=
| HashFailed (arg : string) (e : E)
| HashBadLength (arg : string) (len : nat)
| ExpandUnknownFunction (fn : string)
| ExpandTooLong (len : nat)
| ExpandBadCharset (out : string).
Arguments HashFailed {E} arg e.
Arguments HashBadLength {E} arg len.
Arguments ExpandUnknownFunction {E} fn.
Arguments ExpandTooLong {E} len.
Arguments ExpandBadCharset {E} out.

Section Expand.
(** The [FunctionResolver] the agent supplies. *)
Context {E : Type} (Hash : string -> result E string).

Definition expand_part (p : part) : result (expand_error E) string :=
  match p with
  | Literal s => Ok s
  | Call fn arg =>
      if decide (fn = "hash") then
        match Hash arg with
        | Err e => Err (HashFailed arg e)
        | Ok v => if decide (slen v = HashOutputLength) then Ok v
                  else Err (HashBadLength arg (slen v))
        end
      else Err (ExpandUnknownFunction fn)
  end.

Fixpoint expand_parts (l : list part) : result (expand_error E) string :=
  match l with
  | [] => Ok ""
  | p :: l => x ← expand_part p; y ← expand_parts l; Ok (x +:+ y)
  end.

Definition Expand (t : Template) : result (expand_error E) string :=
  out ← expand_parts (parts t);
  if (MaxKeyLength <? slen out)%nat then Err (ExpandTooLong (slen out))
  else if negb (expandedCharset out) then Err (ExpandBadCharset out)
  else Ok out.
End Expand.

Definition quoted (fn arg : string) : string := "{{ " +:+ fn +:+ " " +:+ quote +:+ arg +:+ quote +:+ " }}".
Example parse_examples :
  Parse <$> ["npm-" +:+ quoted "hash" "package-lock.json" +:+ "-v1"; "pnpm-${CI_BRANCH}";
             "a{{ broken"; quoted "hash" "../etc"; quoted "rm" "x"; "sp ace" +:+ quoted "hash" "f"; ""]
  = [Ok {| raw := "npm-" +:+ quoted "hash" "package-lock.json" +:+ "-v1";
           parts := [Literal "npm-"; Call "hash" "package-lock.json"; Literal "-v1"] |};
     Ok {| raw := "pnpm-${CI_BRANCH}"; parts := [Literal "pnpm-${CI_BRANCH}"] |};
     Err (KeyMalformed 1); Err (KeyArgDotDot "hash" "../etc"); Err (KeyUnknownFunction "rm" 0);
     Err (KeyBadLiteral "sp ace" 0); Err KeyEmpty].
Proof. vm_compute. reflexivity. Qed.

(** ** What a parsed template is *)

Definition call_ok (fn arg : string) : Prop :=
  fn = "hash" /\ arg <> "" /\ slen arg <= MaxArgLength /\ Contains arg ".." = false /\
  HasPrefix arg "/" = false.

(** How a piece of the text became a part. *)
Definition part_of (hasTokens : bool) (p : piece) (x : part) : Prop :=
  match p with
  | Plain chunk => x = Literal chunk /\ Index chunk "{{" = None /\
                   (hasTokens = true -> literalChunkCharset chunk = true)
  | Found _ caps => x = Call (group caps 1) (group caps 2) /\ call_ok (group caps 1) (group caps 2)
  end.

Lemma parse_token_Ok start fn arg x :
  parse_token start fn arg = Ok x -> x = Call fn arg /\ call_ok fn arg.
Proof.
  unfold parse_token, call_ok, AllowedFunctions.
  destruct (bool_decide_reflect (fn = "hash")) as [->|]; [simpl|done].
  destruct (Nat.ltb_spec MaxArgLength (slen arg)); [done|]. case_decide; [done|].
  destruct (Contains arg "..") eqn:?; [done|]. destruct (HasPrefix arg "/") eqn:?; [done|].
  intros [= <-]. done.
Qed.

Lemma parse_parts_Ok ht cursor l ps :
  parse_parts ht cursor l = Ok ps -> Forall2 (part_of ht) l ps.
Proof.
  revert cursor ps. induction l as [|p l IH]; intros cursor ps; simpl.
  { intros [= <-]. constructor. }
  rewrite bind_Ok. intros (x & Hx & H). apply bind_Ok in H as (xs & Hxs & H). simplify_eq.
  constructor; [|by eapply IH]. destruct p as [chunk|t caps]; simpl.
  - unfold parse_literal in Hx. destruct (Index chunk "{{"); [done|].
    destruct ht, (literalChunkCharset chunk) eqn:?; naive_solver.
  - by apply parse_token_Ok in Hx.
Qed.

Lemma is_token_call ht p x : part_of ht p x -> is_call x = is_token p.
Proof. destruct p; simpl; [intros [-> _]|intros [-> _]]; done. Qed.

Lemma count_calls ht l ps :
  Forall2 (part_of ht) l ps ->
  length (filter (fun x => is_call x = true) ps) = length (filter (fun p => is_token p = true) l).
Proof.
  induction 1 as [|p x l ps Hx _ IH]; [done|]. rewrite !filter_cons.
  rewrite (is_token_call ht p x Hx). by case_decide; simpl; rewrite IH.
Qed.

Lemma existsb_filter {A} (f : A -> bool) l :
  existsb f l = (0 <? length (filter (fun x => f x = true) l))%nat.
Proof.
  induction l as [|x l IH]; [done|]. simpl. rewrite filter_cons.
  destruct (f x); [by rewrite decide_True|by rewrite decide_False].
Qed.

Lemma Parse_parts s t :
  Parse s = Ok t ->
  raw t = s /\ s <> "" /\ slen s <= MaxKeyLength /\
  length (filter (fun x => is_call x = true) (parts t)) <= MaxTokens /\
  Forall2 (part_of (HasTokens t)) (FindAll cacheKeyTokenRE s) (parts t).
Proof.
  unfold Parse. case_decide; [done|].
  destruct (Nat.ltb_spec MaxKeyLength (slen s)); [done|].
  destruct (Nat.ltb_spec MaxTokens
    (length (filter (fun p => is_token p = true) (FindAll cacheKeyTokenRE s)))); [done|].
  rewrite bind_Ok. intros (ps & Hps & [= <-]). simpl. apply parse_parts_Ok in Hps.
  pose proof (count_calls _ _ _ Hps) as Hc. unfold HasTokens. simpl.
  rewrite existsb_filter, Hc. split_and!; [done..|lia|done].
Qed.

(** ** The length of a token *)

Ltac invert_runs :=
  repeat match goal with
  | H : runs (Seq _ _) _ _ _ _ |- _ => inversion H; subst; clear H
  | H : runs (Lit _) _ _ _ _ |- _ => inversion H; subst; clear H
  | H : runs (Group _ _) _ _ _ _ |- _ => inversion H; subst; clear H
  | H : runs (Rep _ _ _ _) _ _ _ _ |- _ => inversion H; subst; clear H
  end.

(** A token is at least seven bytes longer than its function name and argument. *)
Lemma token_length u s' caps t :
  runs cacheKeyTokenRE u [] s' caps -> u = t +:+ s' ->
  7 + slen (group caps 1) + slen (group caps 2) <= slen t.
Proof.
  intros Hr Ht%(f_equal slen). rewrite slen_app in Ht.
  unfold cacheKeyTokenRE, Star, Plus in Hr. invert_runs.
  repeat match goal with
  | H : in_class _ _ _ _ |- _ =>
      let Hl := fresh "Hl" in pose proof (in_class_slen _ _ _ _ H) as Hl;
      apply in_class_suffix in H as (? & ->)
  end.
  unfold group. simpl.
  rewrite ?consumed_app. rewrite ?slen_app in *. change (slen "{{") with 2 in *.
  change (slen "}}") with 2 in *. change (slen quote) with 1 in *. lia.
Qed.

Lemma token_nonempty u s' caps : prefix_match cacheKeyTokenRE u = Some (s', caps) -> slen s' < slen u.
Proof.
  intros H%prefix_match_runs. destruct (runs_suffix _ _ _ _ _ H) as (t & ->).
  pose proof (token_length _ _ _ _ H eq_refl). rewrite slen_app. lia.
Qed.

Lemma pieces_text s : text_of (FindAll cacheKeyTokenRE s) = s.
Proof. unfold FindAll. rewrite find_all_text; [apply app_nil_s|lia|apply token_nonempty]. Qed.

(** ** Properties *)

(** A template that parses is safe to expand: it is the text it came from,
    within the length and token limits; every call is [hash] of a non-empty,
    bounded, workspace-relative argument without [..]; no literal holds a stray
    opening brace pair; and next to a call every literal is in the key
    alphabet. *)
Theorem Parse_safe (s : string) (t : Template) :
  Parse s = Ok t ->
  Raw t = s /\ 0 < slen s <= MaxKeyLength /\
  length (filter (fun x => is_call x = true) (parts t)) <= MaxTokens /\
  Forall (fun x => match x with
                   | Call fn arg => call_ok fn arg
                   | Literal l => l <> "" /\ Contains l "{{" = false /\
                                  (HasTokens t = true -> literalChunkCharset l = true)
                   end) (parts t).
Proof.
  intros (Hraw & Hne & Hlen & Hcount & Hparts)%Parse_parts. split_and!; [done| |done..|].
  { destruct s; [done|]. unfold slen. simpl. lia. }
  pose proof (find_all_pieces (S (slen s)) cacheKeyTokenRE "" s) as Hp.
  fold (FindAll cacheKeyTokenRE s) in Hp. clear Hcount. revert Hparts Hp.
  generalize (HasTokens t) (FindAll cacheKeyTokenRE s) (parts t). intros ht l0 ps0 Hparts Hp.
  induction Hparts as [|p x l ps Hpx _ IH]; [constructor|].
  apply Forall_cons in Hp as [Hp Hps]. constructor; [|by apply IH].
  destruct p as [chunk|tok caps]; simpl in Hpx; [|by destruct Hpx as [-> ?]].
  destruct Hpx as (-> & Hidx & Hcs). split_and!; [done| |done]. unfold Contains. by rewrite Hidx.
Qed.

Lemma key_bytes_app s t : literalChunkCharset (s +:+ t) = literalChunkCharset s && literalChunkCharset t.
Proof. apply all_bytes_app. Qed.

(** What expansion does to well-formed parts. *)
Lemma expand_parts_total {E} (Hash : string -> result E string) ht l ps :
  ht = true ->
  (forall arg, exists v, Hash arg = Ok v /\ slen v = HashOutputLength /\ literalChunkCharset v = true) ->
  Forall2 (part_of ht) l ps ->
  Forall (fun p => match p with
                   | Plain t => t <> ""
                   | Found t caps => exists u s', runs cacheKeyTokenRE u [] s' caps /\ u = t +:+ s'
                   end) l ->
  exists out, expand_parts Hash ps = Ok out /\ slen out <= slen (text_of l) /\
    literalChunkCharset out = true /\ (ps <> [] -> 0 < slen out).
Proof.
  intros -> Hhash Hl. induction Hl as [|p x l ps Hpx _ IH]; intros Hps.
  { exists "". by split_and!. }
  apply Forall_cons in Hps as [Hp Hps]. destruct (IH Hps) as (out & Hout & Hle & Hcs & _).
  simpl. destruct p as [chunk|tok caps]; simpl in Hpx.
  - destruct Hpx as (-> & _ & Hc). simpl. rewrite Hout. simpl. exists (chunk +:+ out).
    rewrite !slen_app, key_bytes_app, Hc, Hcs by done. split_and!; [done|lia|done|].
    destruct chunk; [done|]. unfold slen. simpl. lia.
  - destruct Hpx as (-> & Hfn & Harg & _). simpl. rewrite decide_True by done.
    destruct (Hhash (group caps 2)) as (v & -> & Hv & Hvc). rewrite decide_True by done. simpl.
    rewrite Hout. simpl. exists (v +:+ out). rewrite !slen_app, key_bytes_app, Hvc, Hcs.
    destruct Hp as (u & s' & Hr & Hu). pose proof (token_length _ _ _ _ Hr Hu) as Htl.
    assert (slen (group caps 2) > 0) by (destruct (group caps 2); [done|unfold slen; simpl; lia]).
    apply (f_equal slen) in Hfn. change (slen "hash") with 4 in Hfn.
    unfold HashOutputLength in *. split_and!; [done|lia|done|lia].
Qed.

(** Expanding a parsed template with at least one call never fails and
    never exceeds the limits, whatever the literals: given a resolver that
    returns twelve characters of the key alphabet, the expanded key is
    non-empty, no longer than the template, and in the alphabet. *)
Theorem Expand_total {E} (Hash : string -> result E string) (s : string) (t : Template) :
  Parse s = Ok t -> HasTokens t = true ->
  (forall arg, exists v, Hash arg = Ok v /\ slen v = HashOutputLength /\
                         literalChunkCharset v = true) ->
  exists out, Expand Hash t = Ok out /\ 0 < slen out <= slen s /\ expandedCharset out = true.
Proof.
  intros (_ & _ & Hlen & _ & Hparts)%Parse_parts Htok Hhash.
  destruct (expand_parts_total Hash _ _ _ Htok Hhash Hparts (find_all_pieces _ _ _ _))
    as (out & Hout & Hle & Hcs & Hpos).
  rewrite pieces_text in Hle.
  assert (Hne : 0 < slen out) by (apply Hpos; unfold HasTokens in Htok; by intros Hn; rewrite Hn in Htok).
  assert (Hex : expandedCharset out = true).
  { unfold expandedCharset. unfold literalChunkCharset in Hcs. rewrite Hcs.
    rewrite bool_decide_eq_false_2; [done|]. intros ->. unfold slen in Hne. simpl in Hne. lia. }
  exists out. split_and!; [|done..]. unfold Expand. rewrite Hout. simpl.
  destruct (Nat.ltb_spec MaxKeyLength (slen out)); [lia|]. by rewrite Hex.
Qed.

Lemma Parse_safe_witness :
  Parse (quoted "hash" "go.sum") = Ok {| raw := quoted "hash" "go.sum"; parts := [Call "hash" "go.sum"] |} /\
  Raw {| raw := quoted "hash" "go.sum"; parts := [Call "hash" "go.sum"] |} = quoted "hash" "go.sum".
Proof.
  assert (H : Parse (quoted "hash" "go.sum")
              = Ok {| raw := quoted "hash" "go.sum"; parts := [Call "hash" "go.sum"] |})
    by (vm_compute; reflexivity).
  split; [exact H|apply (Parse_safe _ _ H)].
Defined.

Lemma Expand_total_witness :
  exists out, Expand (E := unit) (fun _ => Ok "0123456789ab") {| raw := "k-" +:+ quoted "hash" "go.sum";
      parts := [Literal "k-"; Call "hash" "go.sum"] |} = Ok out /\
    0 < slen out <= slen ("k-" +:+ quoted "hash" "go.sum") /\ expandedCharset out = true.
Proof.
  apply (Expand_total (fun _ => Ok "0123456789ab") ("k-" +:+ quoted "hash" "go.sum"));
    [vm_compute; reflexivity|reflexivity|].
  intros _. exists "0123456789ab". vm_compute. auto.
Defined.
