(* ===== verification/Schema.v ===== *)
(** [server/pkg/parser/schema.go]: the YAML schema, with the hand-written
    decoders of its strict entries.  The YAML library is third-party code: a
    decoded node is its tree, with the tag the library resolved for it, and its
    [Node.Decode] is an argument of the decoders that call it. *)

From S2P Require Import Prelude GoStrings GoTime.

#[local] Set Warnings "-register-all".

(** ** YAML nodes *)

Inductive NodeKind :=
| ZeroNode | DocumentNode | SequenceNode | MappingNode | ScalarNode | AliasNode.
#[export] Instance NodeKind_eq_dec : EqDecision NodeKind.
Proof. solve_decision. Defined.

Inductive Node :=
| mkNode (kind : NodeKind) (short_tag value : string) (line : Z) (content : list Node)
    (alias : option Node).
Definition Kind (n : Node) : NodeKind := let '(mkNode k _ _ _ _ _) := n in k.
Definition ShortTag (n : Node) : string := let '(mkNode _ t _ _ _ _) := n in t.
Definition Value (n : Node) : string := let '(mkNode _ _ v _ _ _) := n in v.
Definition Line (n : Node) : Z := let '(mkNode _ _ _ l _ _) := n in l.
Definition Content (n : Node) : list Node := let '(mkNode _ _ _ _ c _) := n in c.
Definition Alias (n : Node) : option Node := let '(mkNode _ _ _ _ _ a) := n in a.
(** The zero node: the key is absent. *)
Definition zero_node : Node := mkNode ZeroNode "!!null" "" 0 [] None.
Definition IsZeroNode (n : Node) : bool := bool_decide (Kind n = ZeroNode).

(** ** Schema records *)

Record TargetDef := {
  TD_Cluster : string; TD_Application : string; TD_Namespace : string; TD_SyncMode : string }.
Record DeployDef := {
  DD_Environment : string; DD_Version : string; DD_Revision : string;
  DD_Target : option TargetDef }.
Record IDTokenDef := { ID_Aud : list string }.
Record OutputDef := { Out_Env : string; Masked : bool }.
Record ApprovalDef := {
  AD_Approvers : list string; AD_ApproverGroups : list string; AD_Required : Z;
  AD_QuorumByLabel : gmap string Z; AD_Description : string }.
Record NeedsArtifactDef := {
  NA_FromJob : string; NA_FromPipeline : string; NA_Paths : list string; NA_Dest : string }.
Record YCacheSpec := { YC_Key : string; YC_Paths : list string }.
Record Artifacts := {
  Art_Paths : list string; Art_Optional : list string; Art_ExpireIn : string; Art_When : string }.
Record Parallel := { P_Matrix : list (gmap string (list string)); P_Count : Z }.
Record RuleDef := {
  RD_If : string; RD_Changes : list string; RD_Exists : list string; RD_When : string }.
Record CoverageReportDef := { CR_Path : string; CR_Format : string; CR_FailUnder : float64 }.
Record WhenDef := {
  W_Status : list string; W_Branch : list string; W_Event : list string; W_Paths : list string }.
Record AgentDef := { Agent_Profile : string; Agent_Tags : list string }.
Record ResourceQty := { Qty_CPU : string; Qty_Memory : string }.
Record ResourcesDef := { Res_Requests : option ResourceQty; Res_Limits : option ResourceQty }.

(** [None] is a nil slice, map or pointer where the code tells it from an
    empty one. *)
Record JobDef := {
  Stage : string;
  Image : string;
  Extends : string;
  Needs : option (list string);
  Script : option (list string);
  Settings : option (gmap string string);
  Uses : string;
  With : option (gmap string string);
  Variables : option (gmap string string);
  Cache : option (list YCacheSpec);
  JD_Artifacts : option Artifacts;
  NeedsArtifacts : option (list NeedsArtifactDef);
  TestReports : option (list string);
  CoverageReport : option CoverageReportDef;
  JD_Parallel : option Parallel;
  Rules : option (list RuleDef);
  JD_When : option WhenDef;
  JD_Timeout : string;
  Retry : Z;
  Secrets : option (list string);
  Tags : option (list string);
  Agent : option AgentDef;
  JD_Resources : option ResourcesDef;
  Docker : bool;
  Cluster : string;
  Approval : option ApprovalDef;
  Outputs : gmap string OutputDef;
  IDTokens : gmap string IDTokenDef;
  Deploy : option DeployDef;
  Environment : Node;
}.

Record NotificationSpec := {
  NS_On : string; NS_Uses : string; NS_With : gmap string string; NS_Secrets : list string }.
Record TolerationSpec := {
  TS_Key : string; TS_Operator : string; TS_Value : string; TS_Effect : string;
  TS_Seconds : option Z }.
Record ServiceSpec := {
  SS_Name : string; SS_Image : string; SS_Env : gmap string string; SS_Command : list string;
  SS_NodeSelector : gmap string string; SS_Tolerations : list TolerationSpec }.
Record GitSpec := {
  GS_URL : string; GS_Branch : string; GS_On : list string; GS_AutoRegisterWebhook : bool;
  GS_SecretRef : string; GS_PollInterval : string }.
Record UpstreamSpec := { US_Pipeline : string; US_Stage : string; US_Status : string }.
Record CronSpec := { CS_Expression : string }.
Record MaterialSpec := {
  MS_Git : option GitSpec; MS_Upstream : option UpstreamSpec; MS_Cron : option CronSpec;
  MS_Manual : bool }.
Record File := {
  F_Name : string;
  F_Materials : list MaterialSpec;
  F_Stages : list string;
  F_Variables : gmap string string;
  F_Template : string;
  F_Jobs : gmap string JobDef;
  F_Concurrency : string;
  F_Supersede : string;
  F_When : option WhenDef;
  F_Services : list ServiceSpec;
  F_Notifications : option (list NotificationSpec);
}.

(** ** The strict decoders *)

Inductive unmarshal_error :=
| NotAMapping (line : Z)
| OddMapping
| KeyNotScalar (line : Z)
| ValueNotScalar (key : string) (line : Z)
| UnknownKey (key : string) (line : Z)
| DecodeFailed (key : string) (line : Z).

(** What the decoders use of [yaml.Node.Decode]. *)
Class YamlDecode := {
  decode_string : Node -> option string;
  decode_bool : Node -> option bool;
  decode_strings : Node -> option (list string);
  (** Decoding into a type with an [UnmarshalYAML] of its own, from a zero value. *)
  decode_custom : forall {A}, (Node -> result unmarshal_error A) -> A -> Node ->
                              result unmarshal_error A;
}.

Section Decoders.
Context `{YamlDecode}.

(** The shared walk: the mapping guard, then each key and value pair in order. *)
Fixpoint walk_pairs {A} (step : A -> Node -> Node -> result unmarshal_error A) (acc : A)
    (content : list Node) : result unmarshal_error A :=
  match content with
  | key :: val :: rest =>
      if decide (Kind key = ScalarNode) then
        match step acc key val with
        | Ok acc => walk_pairs step acc rest
        | Err e => Err e
        end
      else Err (KeyNotScalar (Line key))
  | _ => Ok acc
  end.

Definition walk_mapping {A} (step : A -> Node -> Node -> result unmarshal_error A) (acc : A)
    (n : Node) : result unmarshal_error A :=
  if negb (bool_decide (Kind n = MappingNode)) then Err (NotAMapping (Line n))
  else if Nat.odd (length (Content n)) then Err OddMapping
  else walk_pairs step acc (Content n).

Definition zero_target : TargetDef :=
  {| TD_Cluster := ""; TD_Application := ""; TD_Namespace := ""; TD_SyncMode := "" |}.

(** The unknown-key check comes before the value's shape is looked at. *)
Definition target_step (t : TargetDef) (key val : Node) : result unmarshal_error TargetDef :=
  let k := Value key in
  if negb (bool_decide (k = "cluster" \/ k = "application" \/ k = "namespace" \/ k = "sync_mode"))
  then Err (UnknownKey k (Line key))
  else if negb (bool_decide (Kind val = ScalarNode)) then Err (ValueNotScalar k (Line val))
  else
    let v := Value val in
    Ok (if decide (k = "cluster") then {| TD_Cluster := v; TD_Application := TD_Application t;
                                          TD_Namespace := TD_Namespace t; TD_SyncMode := TD_SyncMode t |}
        else if decide (k = "application") then
          {| TD_Cluster := TD_Cluster t; TD_Application := v; TD_Namespace := TD_Namespace t;
             TD_SyncMode := TD_SyncMode t |}
        else if decide (k = "namespace") then
          {| TD_Cluster := TD_Cluster t; TD_Application := TD_Application t; TD_Namespace := v;
             TD_SyncMode := TD_SyncMode t |}
        else {| TD_Cluster := TD_Cluster t; TD_Application := TD_Application t;
                TD_Namespace := TD_Namespace t; TD_SyncMode := v |}).
Definition TargetDef_UnmarshalYAML (n : Node) : result unmarshal_error TargetDef :=
  walk_mapping target_step zero_target n.

Definition zero_deploy : DeployDef :=
  {| DD_Environment := ""; DD_Version := ""; DD_Revision := ""; DD_Target := None |}.
Definition scalar_value (k : string) (val : Node) : result unmarshal_error string :=
  if decide (Kind val = ScalarNode) then Ok (Value val) else Err (ValueNotScalar k (Line val)).
Definition deploy_step (d : DeployDef) (key val : Node) : result unmarshal_error DeployDef :=
  let k := Value key in
  if decide (k = "environment") then
    v ← scalar_value k val;
    Ok {| DD_Environment := v; DD_Version := DD_Version d; DD_Revision := DD_Revision d;
          DD_Target := DD_Target d |}
  else if decide (k = "version") then
    v ← scalar_value k val;
    Ok {| DD_Environment := DD_Environment d; DD_Version := v; DD_Revision := DD_Revision d;
          DD_Target := DD_Target d |}
  else if decide (k = "revision") then
    v ← scalar_value k val;
    Ok {| DD_Environment := DD_Environment d; DD_Version := DD_Version d; DD_Revision := v;
          DD_Target := DD_Target d |}
  else if decide (k = "target") then
    t ← decode_custom TargetDef_UnmarshalYAML zero_target val;
    Ok {| DD_Environment := DD_Environment d; DD_Version := DD_Version d;
          DD_Revision := DD_Revision d; DD_Target := Some t |}
  else Err (UnknownKey k (Line key)).
Definition DeployDef_UnmarshalYAML (n : Node) : result unmarshal_error DeployDef :=
  walk_mapping deploy_step zero_deploy n.

Definition idtoken_step (d : IDTokenDef) (key val : Node) : result unmarshal_error IDTokenDef :=
  if decide (Value key = "aud") then
    if decide (Kind val = ScalarNode) then Ok {| ID_Aud := [Value val] |}
    else match decode_strings val with
         | Some l => Ok {| ID_Aud := l |}
         | None => Err (DecodeFailed "aud" (Line key))
         end
  else Err (UnknownKey (Value key) (Line key)).
Definition IDTokenDef_UnmarshalYAML (n : Node) : result unmarshal_error IDTokenDef :=
  walk_mapping idtoken_step {| ID_Aud := [] |} n.

Definition output_step (o : OutputDef) (key val : Node) : result unmarshal_error OutputDef :=
  if decide (Value key = "env") then
    match decode_string val with
    | Some s => Ok {| Out_Env := s; Masked := Masked o |}
    | None => Err (DecodeFailed "env" (Line key))
    end
  else if decide (Value key = "masked") then
    match decode_bool val with
    | Some b => Ok {| Out_Env := Out_Env o; Masked := b |}
    | None => Err (DecodeFailed "masked" (Line key))
    end
  else Err (UnknownKey (Value key) (Line key)).
Definition OutputDef_UnmarshalYAML (n : Node) : result unmarshal_error OutputDef :=
  if decide (Kind n = ScalarNode) then Ok {| Out_Env := Value n; Masked := false |}
  else walk_mapping output_step {| Out_Env := ""; Masked := false |} n.
End Decoders.
