(* ===== verification/Extends.v ===== *)
(** [server/pkg/parser/extends.go]: flattening of [extends:] chains.  Go ranges
    over a map in an arbitrary order, so the order is an argument; the theorems
    hold for every one. *)

From S2P Require Import Prelude GoStrings Schema.

Definition hiddenJobPrefix : string := ".".

(** ** Merging two definitions *)

Definition overlayStrMap (base child : option (gmap string string)) : option (gmap string string) :=
  match base, child with
  | None, None => None
  | _, _ => Some (default ∅ child ∪ default ∅ base)
  end.

(** [if child.X != "" { out.X = child.X }]. *)
Definition set_str (base child : string) : string := if decide (child = "") then base else child.
(** [if child.X != nil { out.X = append([]T(nil), child.X...) }]: appending an
    empty slice to nil is nil. *)
Definition set_list {A} (base child : option (list A)) : option (list A) :=
  match child with
  | None => base
  | Some [] => None
  | Some l => Some l
  end.
(** [if child.X != nil { out.X = child.X }]. *)
Definition set_ptr {A} (base child : option A) : option A :=
  match child with Some x => Some x | None => base end.

Definition mergeJobDef (base child : JobDef) : JobDef := {|
  Stage := set_str (Stage base) (Stage child);
  Image := set_str (Image base) (Image child);
  Extends := set_str (Extends base) (Extends child);
  Needs := set_list (Needs base) (Needs child);
  Script := set_list (Script base) (Script child);
  Settings := overlayStrMap (Settings base) (Settings child);
  Uses := set_str (Uses base) (Uses child);
  With := overlayStrMap (With base) (With child);
  Variables := overlayStrMap (Variables base) (Variables child);
  Cache := set_list (Cache base) (Cache child);
  JD_Artifacts := set_ptr (JD_Artifacts base) (JD_Artifacts child);
  NeedsArtifacts := set_list (NeedsArtifacts base) (NeedsArtifacts child);
  TestReports := set_list (TestReports base) (TestReports child);
  CoverageReport := CoverageReport base;
  JD_Parallel := set_ptr (JD_Parallel base) (JD_Parallel child);
  Rules := set_list (Rules base) (Rules child);
  JD_When := set_ptr (JD_When base) (JD_When child);
  JD_Timeout := set_str (JD_Timeout base) (JD_Timeout child);
  Retry := if decide (Retry child = 0%Z) then Retry base else Retry child;
  Secrets := set_list (Secrets base) (Secrets child);
  Tags := set_list (Tags base) (Tags child);
  Agent := Agent base;
  JD_Resources := JD_Resources base;
  Docker := Docker base || Docker child;
  Cluster := Cluster base;
  Approval := set_ptr (Approval base) (Approval child);
  Outputs := Outputs base;
  IDTokens := IDTokens base;
  Deploy := Deploy base;
  Environment := if IsZeroNode (Environment child) then zero_node else Environment child;
|}.

(** [merged.Extends = ""]. *)
Definition clear_extends (j : JobDef) : JobDef := {|
  Stage := Stage j; Image := Image j; Extends := ""; Needs := Needs j; Script := Script j;
  Settings := Settings j; Uses := Uses j; With := With j; Variables := Variables j;
  Cache := Cache j; JD_Artifacts := JD_Artifacts j; NeedsArtifacts := NeedsArtifacts j;
  TestReports := TestReports j; CoverageReport := CoverageReport j; JD_Parallel := JD_Parallel j;
  Rules := Rules j; JD_When := JD_When j; JD_Timeout := JD_Timeout j; Retry := Retry j;
  Secrets := Secrets j; Tags := Tags j; Agent := Agent j; JD_Resources := JD_Resources j;
  Docker := Docker j; Cluster := Cluster j; Approval := Approval j; Outputs := Outputs j;
  IDTokens := IDTokens j; Deploy := Deploy j; Environment := Environment j;
|}.

(** ** Resolving *)

Inductive extends_error :=
| ExtendsCycle (job : string)
| ExtendsUndefined (job : string)
| ExtendsIn (job : string) (e : extends_error).

Section Resolve.
Context (jobs : gmap string JobDef).

(** [resolving] holds the jobs of the chain being walked: the code marks a name
    before the recursive call and unmarks it after, so the set a caller sees is
    the one it made.  [None] is a search out of fuel. *)
Fixpoint resolve (fuel : nat) (resolving : gset string) (cache : gmap string JobDef)
    (name : string) : option (result extends_error (JobDef * gmap string JobDef)) :=
  match fuel with
  | 0 => None
  | S fuel =>
      match cache !! name with
      | Some cached => Some (Ok (cached, cache))
      | None =>
          if decide (name ∈ resolving) then Some (Err (ExtendsCycle name))
          else match jobs !! name with
          | None => Some (Err (ExtendsUndefined name))
          | Some jd =>
              if decide (Extends jd = "") then Some (Ok (jd, <[name := jd]> cache))
              else match resolve fuel ({[name]} ∪ resolving) cache (Extends jd) with
              | None => None
              | Some (Err e) => Some (Err (ExtendsIn name e))
              | Some (Ok (parent, cache)) =>
                  let merged := clear_extends (mergeJobDef parent jd) in
                  Some (Ok (merged, <[name := merged]> cache))
              end
          end
      end
  end.

(** The [for name := range jobs] loop over the given order of names. *)
Fixpoint resolve_all (fuel : nat) (cache out : gmap string JobDef) (names : list string)
    : option (result extends_error (gmap string JobDef)) :=
  match names with
  | [] => Some (Ok out)
  | name :: names =>
      match resolve fuel ∅ cache name with
      | None => None
      | Some (Err e) => Some (Err e)
      | Some (Ok (merged, cache)) =>
          resolve_all fuel cache
            (if HasPrefix name hiddenJobPrefix then out else <[name := merged]> out) names
      end
  end.
End Resolve.

(** One more than the number of jobs is enough fuel: see [resolve_post]. *)
Definition resolveExtends (order : list string) (jobs : gmap string JobDef)
    : result extends_error (gmap string JobDef) :=
  match resolve_all jobs (S (size jobs)) ∅ ∅ order with
  | Some r => r
  | None => Err (ExtendsUndefined "")
  end.

(** ** What a chain means *)

(** The definitions from a job to the root of its chain. *)
Inductive chain (jobs : gmap string JobDef) : string -> list JobDef -> Prop :=
| chain_root name jd : jobs !! name = Some jd -> Extends jd = "" -> chain jobs name [jd]
| chain_step name jd l :
    jobs !! name = Some jd -> Extends jd <> "" -> chain jobs (Extends jd) l ->
    chain jobs name (jd :: l).

(** The merge of a chain, from the root towards the job. *)
Fixpoint flatten (l : list JobDef) (dflt : JobDef) : JobDef :=
  match l with
  | [] => dflt
  | [jd] => jd
  | jd :: l => clear_extends (mergeJobDef (flatten l dflt) jd)
  end.

Definition ext_edge (jobs : gmap string JobDef) (a b : string) : Prop :=
  exists jd, jobs !! a = Some jd /\ Extends jd <> "" /\ Extends jd = b.

Lemma chain_fun jobs name l l' : chain jobs name l -> chain jobs name l' -> l = l'.
Proof.
  intros H. revert l'. induction H as [name jd Hn He|name jd l Hn He _ IH]; intros l' H';
    inversion H'; subst; simplify_eq; [done|]. f_equal. by apply IH.
Qed.

Lemma chain_acyclic jobs name l : chain jobs name l -> ~ tc (ext_edge jobs) name name.
Proof.
  induction 1 as [name jd Hn He|name jd l Hn He _ IH]; intros Ht.
  - inversion Ht as [? ? (? & ? & ? & ?)|? ? ? (? & ? & ? & ?) _]; subst; simplify_eq.
  - apply IH. assert (Hrt : rtc (ext_edge jobs) (Extends jd) name).
    { inversion Ht as [? ? (? & ? & ? & ?)|? ? ? (? & ? & ? & ?) Hr]; subst; simplify_eq;
        first [by apply tc_rtc|apply rtc_refl]. }
    eapply tc_rtc_l; [exact Hrt|]. apply tc_once. by exists jd.
Qed.

(** ** Correctness *)
Section Correct.
Context (jobs : gmap string JobDef).

Definition flat (name : string) (jd : JobDef) : Prop :=
  exists l, chain jobs name l /\ flatten l jd = jd.

Lemma flatten_cons jd l d : l <> [] -> flatten (jd :: l) d = clear_extends (mergeJobDef (flatten l d) jd).
Proof. by destruct l. Qed.

Lemma chain_nonempty name l : chain jobs name l -> l <> [].
Proof. by destruct 1. Qed.

Lemma flatten_default l d d' : l <> [] -> flatten l d = flatten l d'.
Proof.
  induction l as [|jd [|jd' l] IH]; intros; [done..|].
  rewrite !(flatten_cons jd (jd' :: l)) by done. by rewrite IH.
Qed.

Definition cache_ok (cache : gmap string JobDef) : Prop :=
  forall name jd, cache !! name = Some jd -> exists l, chain jobs name l /\ flatten l jd = jd.

Lemma resolve_post fuel resolving cache name :
  cache_ok cache -> size (dom jobs ∖ resolving) < fuel ->
  (forall r, r ∈ resolving -> tc (ext_edge jobs) r name) ->
  match resolve jobs fuel resolving cache name with
  | None => False
  | Some (Ok (jd, cache')) => flat name jd /\ cache_ok cache'
  | Some (Err _) => ~ exists l, chain jobs name l
  end.
Proof.
  revert resolving cache name. induction fuel as [|fuel IH]; intros resolving cache name Hc Hf Hr;
    [lia|]. simpl.
  destruct (cache !! name) as [jd|] eqn:Hcache; [split; [by apply Hc|done]|].
  destruct (decide (name ∈ resolving)) as [Hin|Hnin].
  { intros [l Hl]. by apply (chain_acyclic jobs name l Hl), Hr. }
  destruct (jobs !! name) as [jd|] eqn:Hj.
  2: { intros [l Hl]. inversion Hl; congruence. }
  destruct (decide (Extends jd = "")) as [He|He].
  { assert (Hflat : flat name jd) by (exists [jd]; split; [by constructor|done]).
    split; [done|]. intros n x Hx. apply lookup_insert_Some in Hx as [[<- <-]|[_ Hx]]; auto. }
  assert (Hsz : size (dom jobs ∖ ({[name]} ∪ resolving)) < fuel).
  { assert (size (dom jobs ∖ ({[name]} ∪ resolving)) < size (dom jobs ∖ resolving)); [|lia].
    apply subset_size. apply elem_of_dom_2 in Hj. set_solver. }
  assert (Hreach : forall r, r ∈ {[name]} ∪ resolving -> tc (ext_edge jobs) r (Extends jd)).
  { intros r [->%elem_of_singleton|Hin]%elem_of_union; [apply tc_once; by exists jd|].
    eapply tc_r; [by apply Hr|by exists jd]. }
  specialize (IH ({[name]} ∪ resolving) cache (Extends jd) Hc Hsz Hreach).
  destruct (resolve jobs fuel ({[name]} ∪ resolving) cache (Extends jd)) as [[[parent cache']|e]|].
  - destruct IH as ((l & Hl & Hflat) & Hc').
    set (merged := clear_extends (mergeJobDef parent jd)).
    assert (Hm : flat name merged).
    { exists (jd :: l). split; [by constructor|]. rewrite flatten_cons by by eapply chain_nonempty.
      rewrite (flatten_default l merged parent) by by eapply chain_nonempty. by rewrite Hflat. }
    split; [done|]. intros n x Hx. apply lookup_insert_Some in Hx as [[<- <-]|[_ Hx]]; auto.
  - intros [l Hl]. apply IH. inversion Hl; subst; simplify_eq. eauto.
  - exact IH.
Qed.

Definition out_ok (seen : list string) (out : gmap string JobDef) : Prop :=
  forall name jd, out !! name = Some jd <->
    name ∈ seen /\ HasPrefix name hiddenJobPrefix = false /\ flat name jd.

Lemma out_ok_nil : out_ok [] ∅.
Proof. intros n x. rewrite lookup_empty. split; [done|]. by intros (?%elem_of_nil & _). Qed.

Lemma flat_fun name jd jd' : flat name jd -> flat name jd' -> jd = jd'.
Proof.
  intros (l & Hl & Hf) (l' & Hl' & Hf'). rewrite (chain_fun _ _ _ _ Hl' Hl) in Hf'.
  rewrite <-Hf, <-Hf'. apply flatten_default. by eapply chain_nonempty.
Qed.

Lemma resolve_all_post fuel cache out seen names :
  size jobs < fuel -> cache_ok cache -> out_ok seen out ->
  match resolve_all jobs fuel cache out names with
  | None => False
  | Some (Ok out') =>
      (forall n, n ∈ names -> exists l, chain jobs n l) /\ out_ok (seen ++ names) out'
  | Some (Err _) => exists n, n ∈ names /\ ~ exists l, chain jobs n l
  end.
Proof.
  intros Hf. revert cache out seen. induction names as [|n names IH]; intros cache out seen Hc Ho; simpl.
  { rewrite app_nil_r. split; [by intros n ?%elem_of_nil|done]. }
  pose proof (resolve_post fuel ∅ cache n Hc) as Hp.
  destruct (resolve jobs fuel ∅ cache n) as [[[jd cache']|e]|].
  - destruct Hp as [Hflat Hc']; [|set_solver|].
    { rewrite difference_empty_L, size_dom. lia. }
    specialize (IH cache' (if HasPrefix n hiddenJobPrefix then out else <[n := jd]> out)
                  (seen ++ [n]) Hc').
    rewrite <-app_assoc in IH.
    assert (Ho' : out_ok (seen ++ [n]) (if HasPrefix n hiddenJobPrefix then out else <[n := jd]> out)).
    { intros k x. rewrite elem_of_app, list_elem_of_singleton.
      destruct (HasPrefix n hiddenJobPrefix) eqn:Hh.
      { rewrite (Ho k x). split; [intros (? & ? & ?); auto|].
        intros ([?| ->] & ? & ?); [done|congruence]. }
      rewrite lookup_insert_Some, (Ho k x).
      split; [intros [[<- <-]|(? & ? & ? & ?)]; auto|].
      intros ([Hk| ->] & Hk' & Hx); [|left; split; [done|by eapply flat_fun]].
      destruct (decide (n = k)) as [->|]; [left; split; [done|by eapply flat_fun]|by right]. }
    specialize (IH Ho'). destruct (resolve_all jobs fuel cache' _ names) as [[out'|e]|]; [|set_solver|done].
    destruct IH as [Hall Hout]. split; [|done].
    intros k [->|Hk]%elem_of_cons; [|auto]. destruct Hflat as (l & Hl & _). eauto.
  - exists n. split; [set_solver|]. apply Hp; [|set_solver]. rewrite difference_empty_L, size_dom. lia.
  - apply Hp; [|set_solver]. rewrite difference_empty_L, size_dom. lia.
Qed.
End Correct.

Lemma resolveExtends_Ok (order : list string) (jobs out : gmap string JobDef) :
  (forall name, name ∈ order <-> is_Some (jobs !! name)) ->
  resolveExtends order jobs = Ok out ->
  (forall name, is_Some (jobs !! name) -> exists l, chain jobs name l) /\
  (forall name jd, out !! name = Some jd <->
     HasPrefix name hiddenJobPrefix = false /\
     exists l, chain jobs name l /\ flatten l jd = jd).
Proof.
  intros Horder. unfold resolveExtends.
  pose proof (resolve_all_post jobs (S (size jobs)) ∅ ∅ [] order) as Hp.
  destruct (resolve_all jobs (S (size jobs)) ∅ ∅ order) as [[out'|e]|]; simpl in Hp; intros [= ->].
  destruct Hp as [Hall Hout]; [lia|done|apply out_ok_nil|].
  split; [intros n Hn; apply Hall, Horder, Hn|].
  intros name jd. rewrite (Hout name jd). split; [by intros (_ & ? & ?)|].
  intros (Hh & l & Hl & Hf). split_and!; [|done|by exists l].
  apply Horder. inversion Hl; subst; eauto.
Qed.

Lemma resolveExtends_Err (order : list string) (jobs : gmap string JobDef) e :
  (forall name, name ∈ order <-> is_Some (jobs !! name)) ->
  resolveExtends order jobs = Err e ->
  exists name, is_Some (jobs !! name) /\ ~ exists l, chain jobs name l.
Proof.
  intros Horder. unfold resolveExtends.
  pose proof (resolve_all_post jobs (S (size jobs)) ∅ ∅ [] order) as Hp.
  destruct (resolve_all jobs (S (size jobs)) ∅ ∅ order) as [[out|e']|]; simpl in Hp; intros H.
  - done.
  - destruct Hp as (n & Hn & Hno); [lia|done|apply out_ok_nil|]. exists n. by rewrite <-Horder.
  - exfalso. apply Hp; [lia|done|apply out_ok_nil].
Qed.

(** Whatever order Go ranges over the jobs in, the resolver returns for each
    non-template job the merge of its whole [extends:] chain from the root down,
    and nothing else; it fails exactly when some chain is broken, by a cycle or
    by a name that is not defined. It always terminates. *)
Theorem resolveExtends_correct (order : list string) (jobs : gmap string JobDef) :
  (forall name, name ∈ order <-> is_Some (jobs !! name)) ->
  (is_ok (resolveExtends order jobs) = true <->
     forall name, is_Some (jobs !! name) -> exists l, chain jobs name l) /\
  (forall out, resolveExtends order jobs = Ok out ->
     forall name jd, out !! name = Some jd <->
       HasPrefix name hiddenJobPrefix = false /\
       exists l, chain jobs name l /\ flatten l jd = jd).
Proof.
  intros Horder. pose proof (resolveExtends_Ok order jobs) as Hok.
  pose proof (resolveExtends_Err order jobs) as Herr.
  destruct (resolveExtends order jobs) as [out|e]; simpl.
  - destruct (Hok out Horder eq_refl) as [Hall Hout]. split; [done|]. by intros out' [= <-].
  - destruct (Herr e Horder eq_refl) as (name & Hn & Hno). split; [|done].
    split; [done|]. intros Hall. exfalso. by apply Hno, Hall.
Qed.

(** ** Which definition of a chain a field comes from *)

(** The first element of the chain that sets a string field. *)
Definition nearest_str (f : JobDef -> string) (l : list JobDef) : string :=
  default "" (head (filter (fun s => s <> "") (f <$> l))).
(** The first element that binds a key. *)
Definition nearest_key (f : JobDef -> option (gmap string string)) (k : string) (l : list JobDef)
    : option string :=
  head (omap (fun jd => default ∅ (f jd) !! k) l).

Lemma nearest_str_cons f jd l :
  nearest_str f (jd :: l) = if decide (f jd = "") then nearest_str f l else f jd.
Proof.
  unfold nearest_str. rewrite fmap_cons, filter_cons.
  destruct (decide (f jd = "")) as [He|He]; [by rewrite decide_False by (intros H; by apply H)|].
  by rewrite decide_True.
Qed.

Lemma nearest_key_cons f k jd l :
  nearest_key f k (jd :: l)
  = match default ∅ (f jd) !! k with Some v => Some v | None => nearest_key f k l end.
Proof. unfold nearest_key. simpl. by destruct (default ∅ (f jd) !! k). Qed.

(** A field merged by [set_str], or by [overlayStrMap], is the nearest one. *)
Lemma flatten_nearest_str f l d :
  (forall b c, f (clear_extends (mergeJobDef b c)) = set_str (f b) (f c)) -> l <> [] ->
  f (flatten l d) = nearest_str f l.
Proof.
  intros Hm. induction l as [|jd [|jd' l] IH]; intros; [done| |].
  - rewrite nearest_str_cons. simpl. case_decide as He; [by rewrite He|done].
  - rewrite flatten_cons, Hm, IH, (nearest_str_cons f jd) by done. done.
Qed.

Lemma overlay_lookup b c k :
  default ∅ (overlayStrMap b c) !! k =
  match default ∅ c !! k with Some v => Some v | None => default ∅ b !! k end.
Proof.
  assert (H : default ∅ (overlayStrMap b c) = default ∅ c ∪ default ∅ b) by (by destruct b, c).
  rewrite H, lookup_union. destruct (default ∅ c !! k), (default ∅ b !! k); done.
Qed.

Lemma flatten_nearest_key f k l d :
  (forall b c, f (clear_extends (mergeJobDef b c)) = overlayStrMap (f b) (f c)) -> l <> [] ->
  default ∅ (f (flatten l d)) !! k = nearest_key f k l.
Proof.
  intros Hm. induction l as [|jd [|jd' l] IH]; intros; [done| |].
  - rewrite nearest_key_cons. simpl. by destruct (default ∅ (f jd) !! k).
  - rewrite flatten_cons, Hm, overlay_lookup, IH, (nearest_key_cons f k jd) by done. done.
Qed.

(** The root of the chain decides a field that the merge takes from the base. *)
Lemma flatten_root {A} (f : JobDef -> A) l d :
  (forall b c, f (clear_extends (mergeJobDef b c)) = f b) -> l <> [] ->
  Some (f (flatten l d)) = f <$> last l.
Proof.
  intros Hm. induction l as [|jd [|jd' l] IH]; intros; [done..|].
  rewrite flatten_cons, Hm, IH, last_cons_cons by done. done.
Qed.

(** In a flattened job the nearest definition of the chain wins: for each
    scalar the first one that sets it, for each key of a map the first one that
    binds it; [environment:] is the job's own and never inherited; the chain is
    closed. But [deploy:], [cluster:], [outputs:] and [id_tokens:] come from the
    root of the chain, whatever the job itself declares. *)
Theorem flattened_fields (jobs : gmap string JobDef) (name : string) (own : JobDef)
    (rest : list JobDef) (jd : JobDef) :
  chain jobs name (own :: rest) -> flatten (own :: rest) jd = jd ->
  Extends jd = "" /\
  Forall (fun f : JobDef -> string => f jd = nearest_str f (own :: rest))
    [Stage; Image; Uses; JD_Timeout] /\
  (forall k, Forall (fun f => default ∅ (f jd) !! k = nearest_key f k (own :: rest))
    [Settings; With; Variables]) /\
  (rest <> [] -> Environment jd = if IsZeroNode (Environment own) then zero_node else Environment own) /\
  (forall root, last (own :: rest) = Some root ->
     Deploy jd = Deploy root /\ Cluster jd = Cluster root /\ Outputs jd = Outputs root /\
     IDTokens jd = IDTokens root).
Proof.
  intros Hc Hf. rewrite <-Hf. split_and!.
  - destruct rest as [|r rest]; [|done].
    inversion Hc; subst; [done|]. by match goal with H : chain _ _ [] |- _ => inversion H end.
  - repeat constructor; by apply flatten_nearest_str.
  - intros k. repeat constructor; by apply flatten_nearest_key.
  - intros Hne. by rewrite flatten_cons.
  - intros root Hroot.
    assert (Hr : forall A (f : JobDef -> A), (forall b c, f (clear_extends (mergeJobDef b c)) = f b) ->
        f (flatten (own :: rest) jd) = f root).
    { intros A f Hm. pose proof (flatten_root f (own :: rest) jd Hm) as H. rewrite Hroot in H.
      specialize (H ltac:(done)). by injection H. }
    split_and!; by apply Hr.
Qed.

(** ** Examples *)

Definition zero_jobdef : JobDef := {|
  Stage := ""; Image := ""; Extends := ""; Needs := None; Script := None; Settings := None;
  Uses := ""; With := None; Variables := None; Cache := None; JD_Artifacts := None;
  NeedsArtifacts := None; TestReports := None; CoverageReport := None; JD_Parallel := None;
  Rules := None; JD_When := None; JD_Timeout := ""; Retry := 0; Secrets := None; Tags := None;
  Agent := None; JD_Resources := None; Docker := false; Cluster := ""; Approval := None;
  Outputs := ∅; IDTokens := ∅; Deploy := None; Environment := zero_node;
|}.
Definition base_def : JobDef :=
  mergeJobDef zero_jobdef {|
    Stage := "deploy"; Image := "alpine"; Extends := ""; Needs := None; Script := Some ["make"];
    Settings := None; Uses := ""; With := None; Variables := Some {["A" := "base"; "B" := "base"]};
    Cache := None; JD_Artifacts := None; NeedsArtifacts := None; TestReports := None;
    CoverageReport := None; JD_Parallel := None; Rules := None; JD_When := None; JD_Timeout := "";
    Retry := 0; Secrets := None; Tags := None; Agent := None; JD_Resources := None;
    Docker := false; Cluster := ""; Approval := None; Outputs := ∅; IDTokens := ∅;
    Deploy := None; Environment := zero_node |}.
Definition prod_def : JobDef := {|
  Stage := ""; Image := "debian"; Extends := ".base"; Needs := None; Script := None;
  Settings := None; Uses := ""; With := None; Variables := Some {["A" := "own"]}; Cache := None;
  JD_Artifacts := None; NeedsArtifacts := None; TestReports := None; CoverageReport := None;
  JD_Parallel := None; Rules := None; JD_When := None; JD_Timeout := ""; Retry := 0;
  Secrets := None; Tags := None; Agent := None; JD_Resources := None; Docker := false;
  Cluster := "prod"; Approval := None; Outputs := ∅; IDTokens := ∅;
  Deploy := Some {| DD_Environment := "prod"; DD_Version := ""; DD_Revision := ""; DD_Target := None |};
  Environment := zero_node;
|}.
Definition prod_jobs : gmap string JobDef := {[".base" := base_def; "prod" := prod_def]}.
Definition prod_flat : JobDef := clear_extends (mergeJobDef base_def prod_def).

(** The template is dropped, the chain merged, and the job's own [deploy:] and
    [cluster:] are lost. *)
Example extends_prod :
  ((fun out => (fun jd => (Stage jd, Image jd, default ∅ (Variables jd) !! "A", Deploy jd, Cluster jd))
      <$> (out !! ".base", out !! "prod").2) <$> resolveExtends ["prod"; ".base"] prod_jobs)
  = Ok (Some ("deploy", "debian", Some "own", None, "")).
Proof. vm_compute. reflexivity. Qed.
Example extends_cycle :
  resolveExtends ["a"; "b"] {["a" := mergeJobDef zero_jobdef (clear_extends prod_def);
                              "b" := prod_def]}
  = Err (ExtendsIn "b" (ExtendsUndefined ".base")).
Proof. vm_compute. reflexivity. Qed.

Lemma prod_chain : chain prod_jobs "prod" [prod_def; base_def].
Proof. repeat (econstructor; try reflexivity). by vm_compute. Qed.

Lemma resolveExtends_correct_witness :
  exists out, resolveExtends ["prod"; ".base"] prod_jobs = Ok out /\
    (forall name jd, out !! name = Some jd <->
       HasPrefix name hiddenJobPrefix = false /\
       exists l, chain prod_jobs name l /\ flatten l jd = jd).
Proof.
  assert (Hd : forall name, name ∈ ["prod"; ".base"] <-> is_Some (prod_jobs !! name)).
  { intros name. rewrite <-elem_of_dom. unfold prod_jobs. rewrite dom_insert_L, dom_singleton_L. set_solver. }
  destruct (resolveExtends_correct ["prod"; ".base"] prod_jobs Hd) as [_ H].
  destruct (resolveExtends ["prod"; ".base"] prod_jobs) as [out|e] eqn:Hr.
  - exists out. split; [reflexivity|exact (H out eq_refl)].
  - exfalso. vm_compute in Hr. discriminate Hr.
Defined.

Lemma flattened_fields_witness :
  Deploy prod_flat = Deploy base_def /\ Deploy prod_flat <> Deploy prod_def.
Proof.
  split; [|by vm_compute].
  apply (flattened_fields prod_jobs "prod" prod_def [base_def] prod_flat prod_chain);
    reflexivity.
Defined.
