(* ===== verification/ParseHelpers.v ===== *)
(** [server/pkg/parser]: the validators [toJob] and [ParseNamed] are built from
    ([parse_helpers.go], [parse_matrix.go], [idtokens.go], [coverage.go],
    [approval_timeout.go], [paths.go] and [domain/approver_ref.go],
    [domain/environment.go]).  The Kubernetes name validators and the glob
    validator are third-party code and stay arguments. *)

From S2P Require Import Prelude GoStrings GoRegexp GoTime Domain Schema.
From Stdlib Require Import Floats.SpecFloat.

(** ** Patterns *)

Definition class_of (f : Ascii.ascii -> bool) : cclass := {| ascii_in := f; other_in := false |}.
Definition is_alpha (c : Ascii.ascii) : bool := is_upper c || is_lower c.
Definition is_alnum (c : Ascii.ascii) : bool := is_alpha c || is_digit c.
Definition one_of (chars : string) (c : Ascii.ascii) : bool :=
  any_byte (fun d => bool_decide (c = d)) chars.

(** [^[A-Za-z_][A-Za-z0-9_]*$], as [envNamePattern] and [outputEnvRE]. *)
Definition envNamePattern : re :=
  Seq (One (class_of (fun c => is_alpha c || one_of "_" c)))
      (Star (class_of (fun c => is_alnum c || one_of "_" c))).
Definition outputEnvRE : re := envNamePattern.
(** [^[a-z][a-zA-Z0-9_-]*$]. *)
Definition outputAliasRE : re :=
  Seq (One (class_of is_lower)) (Star (class_of (fun c => is_alnum c || one_of "_-" c))).
(** [^[a-zA-Z0-9][a-zA-Z0-9._-]{0,63}$]. *)
Definition deployEnvRE : re :=
  Seq (One (class_of is_alnum))
      (Rep (class_of (fun c => is_alnum c || one_of "._-" c)) true 0 (Some 63)).
(** [^[0-9]{1,9}(\.[0-9]{1,9})?[dD]$]. *)
Definition daySuffixRE : re :=
  let digits := Rep (class_of is_digit) true 1 (Some 9) in
  Seq digits (Seq (Opt (Group 1 (Seq (Lit ".") digits))) (One (class_of (one_of "dD")))).

Definition ValidEnvironmentName (s : string) : bool := full_match deployEnvRE s.

(** ** Defaults and events *)

Definition defaultStr (s fallback : string) : string := if decide (s = "") then fallback else s.
Definition defaultEvents (ev : list string) : list string :=
  match ev with [] => ["push"] | _ => ev end.

Definition gitMaterialEvents : list string := ["push"; "pull_request"; "merge_group"; "tag"].
Definition pipelineEvents : list string := gitMaterialEvents ++ ["manual"; "cron"; "upstream"].

(** The error carries the offending event. *)
Definition validate_events (allowed ev : list string) : result string unit :=
  check_all (fun e => if decide (e ∈ allowed) then Ok tt else Err e) ev.
Definition validatePipelineEvents (ev : list string) : result string unit :=
  validate_events pipelineEvents ev.
Definition validateGitMaterialEvents (on : list string) : result string unit :=
  validate_events gitMaterialEvents on.

(** ** Paths *)

Inductive path_error :=
| PathEmpty (i : nat) | PathAbsolute (p : string) | PathDotDot (p : string) | PathBadGlob (p : string).

Section Globs.
(** [doublestar.ValidatePattern]. *)
Context (ValidatePattern : string -> bool).

Definition check_glob (i : nat) (g : string) : result path_error unit :=
  if decide (g = "") then Err (PathEmpty i)
  else if HasPrefix g "/" then Err (PathAbsolute g)
  else if decide (".." ∈ SplitByte g "/"%char) then Err (PathDotDot g)
  else if negb (ValidatePattern g) then Err (PathBadGlob g)
  else Ok tt.
Definition validateTriggerPaths (paths : list string) : result path_error unit :=
  check_all (fun '(i, g) => check_glob i g) (imap pair paths).
End Globs.

(** Trailing slashes go while something else is left. *)
Fixpoint trim_slashes_rev (s : string) : string :=
  match s with
  | String c (String _ _ as t) => if decide (c = "/"%char) then trim_slashes_rev t else s
  | _ => s
  end.
Definition canonicalArtifactPath (p : string) : string := String.rev (trim_slashes_rev (String.rev p)).

(** ** Coverage *)

Inductive coverage_error :=
| CoveragePathMissing | CoveragePathAbsolute (p : string) | CoveragePathDotDot (p : string)
| CoverageFormatMissing | CoverageFormatUnknown (f : string)
| CoverageFailUnderNotFinite | CoverageFailUnderRange (f : float64).

Definition coverageFormats : list string := ["go-cover"; "lcov"; "cobertura"; "jacoco"].
Definition not_finite (f : float64) : bool :=
  match f with S754_nan | S754_infinity _ => true | _ => false end.

Definition toCoverageReport (def : CoverageReportDef) : result coverage_error CoverageReportSpec :=
  let p := CR_Path def in
  if decide (p = "") then Err CoveragePathMissing
  else if HasPrefix p "/" then Err (CoveragePathAbsolute p)
  else if decide (".." ∈ SplitByte p "/"%char) then Err (CoveragePathDotDot p)
  else if decide (CR_Format def = "") then Err CoverageFormatMissing
  else if negb (bool_decide (CR_Format def ∈ coverageFormats))
  then Err (CoverageFormatUnknown (CR_Format def))
  else if not_finite (CR_FailUnder def) then Err CoverageFailUnderNotFinite
  else if SFltb (CR_FailUnder def) (f64_of_Z 0) || SFltb (f64_of_Z 100) (CR_FailUnder def)
  then Err (CoverageFailUnderRange (CR_FailUnder def))
  else Ok {| Coverage_Path := p; Coverage_Format := CR_Format def;
             Coverage_FailUnder := CR_FailUnder def |}.

(** ** Approvals *)

Inductive approver_error :=
| ApproverShape | ApproverNoProvider | ApproverNoSubject | ApproverProviderLong
| ApproverSubjectLong | ApproverWhitespace.

Definition ApproverSubjectPrefix : string := "sub:".
Definition maxApproverProviderLen : nat := 64.
Definition maxApproverSubjectLen : nat := 255.

Definition ApproverSubjectRef (provider subject : string) : string :=
  if decide (provider = "" \/ subject = "") then ""
  else ApproverSubjectPrefix +:+ provider +:+ ":" +:+ subject.

(** [strings.IndexFunc] over runes for [unicode.IsSpace] or [unicode.IsControl]:
    the ASCII and Latin-1 controls, and the white space encodings. *)
Definition control_encodings : list string :=
  (bytes ∘ (fun n => [n]) <$> (seq 0 32 ++ [127])) ++ (bytes ∘ (fun n => [194; n]) <$> seq 128 32).
Fixpoint has_space_or_control (fuel : nat) (s : string) : bool :=
  match s, fuel with
  | "", _ | _, 0 => false
  | _, S fuel =>
      let r := stake (rune_width s) s in
      bool_decide (r ∈ space_encodings ++ control_encodings) ||
      has_space_or_control fuel (sdrop (rune_width s) s)
  end.

Definition ValidateApproverRef (entry : string) : result approver_error unit :=
  match CutPrefix entry ApproverSubjectPrefix with
  | None => Ok tt
  | Some rest =>
      match Cut rest ":" with
      | None => Err ApproverShape
      | Some (provider, subject) =>
          if decide (provider = "") then Err ApproverNoProvider
          else if decide (subject = "") then Err ApproverNoSubject
          else if (maxApproverProviderLen <? slen provider)%nat then Err ApproverProviderLong
          else if (maxApproverSubjectLen <? slen subject)%nat then Err ApproverSubjectLong
          else if has_space_or_control (slen rest) rest then Err ApproverWhitespace
          else Ok tt
      end
  end.

Inductive timeout_error :=
| TimeoutDayUnit (s : string) | TimeoutNotDuration (s : string) | TimeoutZero (s : string)
| TimeoutNegative (s : string) | TimeoutTooShort (s : string) | TimeoutTooLong (s : string).

Definition approvalTimeoutNeverLiteral : string := "never".
Definition approvalTimeoutOffLiteral : string := "off".

Definition parseApprovalTimeout (text : string) : result timeout_error Duration :=
  let trimmed := TrimSpace text in
  if decide (trimmed = "") then Ok 0%Z
  else if EqualFoldASCII trimmed approvalTimeoutNeverLiteral ||
          EqualFoldASCII trimmed approvalTimeoutOffLiteral then Ok ApprovalTimeoutNever
  else match ParseDuration trimmed with
  | Err _ => if full_match daySuffixRE trimmed then Err (TimeoutDayUnit trimmed)
             else Err (TimeoutNotDuration trimmed)
  | Ok d =>
      if (d =? 0)%Z then Err (TimeoutZero trimmed)
      else if (d <? 0)%Z then Err (TimeoutNegative trimmed)
      else if (d <? ApprovalTimeoutMin)%Z then Err (TimeoutTooShort trimmed)
      else if (ApprovalTimeoutMax <? d)%Z then Err (TimeoutTooLong trimmed)
      else Ok d
  end.

(** ** Poll intervals *)

Inductive poll_error := PollParse (s : string) | PollTooShort (s : string) | PollTooLong (s : string).
Definition MinPollInterval : Duration := Minute.
Definition MaxPollInterval : Duration := (24 * Hour)%Z.
Definition ParsePollInterval (text : string) : result poll_error Duration :=
  let s := TrimSpace text in
  if decide (s = "") then Ok 0%Z
  else match ParseDuration s with
  | Err _ => Err (PollParse s)
  | Ok d => if (d <? MinPollInterval)%Z then Err (PollTooShort s)
            else if (MaxPollInterval <? d)%Z then Err (PollTooLong s) else Ok d
  end.

(** ** Outputs, tokens and matrices *)

Inductive outputs_error :=
| OutputsTooMany (n : nat) | OutputAliasBad (a : string) | OutputEnvEmpty (a : string)
| OutputEnvBad (a env : string).

Inductive idtoken_error :=
| TokensTooMany (n : nat) | TokenNameBad (n : string) | TokenReserved (n : string)
| TokenClashVariable (n : string) | TokenClashPipelineVariable (n : string)
| TokenClashSecret (n : string) | TokenNoAud (n : string) | TokenBlankAud (n : string).

Inductive matrix_error :=
| MatrixNoValues (dim : string) | MatrixDuplicate (dim v : string)
| MatrixBadName (dim : string) | MatrixReserved (dim : string)
| MatrixCollides (dim src : string) | MatrixBadValue (dim v : string).

Section Maps.
Context `{MapRange, UnicodeCase}.

Definition maxOutputs : nat := 64.
Definition check_output (p : string * string) : result outputs_error unit :=
  let '(alias, envName) := p in
  if negb (full_match outputAliasRE alias) then Err (OutputAliasBad alias)
  else if decide (envName = "") then Err (OutputEnvEmpty alias)
  else if negb (full_match outputEnvRE envName) then Err (OutputEnvBad alias envName)
  else Ok tt.
Definition validateOutputsDeclaration (outputs : gmap string string) : result outputs_error unit :=
  if (maxOutputs <? size outputs)%nat then Err (OutputsTooMany (size outputs))
  else check_all check_output (range_map outputs).

Definition idTokensCap : nat := 16.
Definition trim_aud (name a : string) : result idtoken_error string :=
  let a := TrimSpace a in if decide (a = "") then Err (TokenBlankAud name) else Ok a.
Fixpoint trim_auds (name : string) (l : list string) : result idtoken_error (list string) :=
  match l with
  | [] => Ok []
  | a :: l => a ← trim_aud name a; l ← trim_auds name l; Ok (a :: l)
  end.
Definition has_key {V} (m : gmap string V) (k : string) : bool :=
  match m !! k with Some _ => true | None => false end.
Definition idtoken_spec (jd : JobDef) (pipelineVars : gmap string string)
    (specs : gmap string IDTokenSpec) (p : string * IDTokenDef)
    : result idtoken_error (gmap string IDTokenSpec) :=
  let '(envName, def) := p in
  let upper := ToUpper envName in
  if negb (full_match envNamePattern envName) then Err (TokenNameBad envName)
  else if HasPrefix upper "CI_" || HasPrefix upper "GOCDNEXT_" then Err (TokenReserved envName)
  else if has_key (default ∅ (Variables jd)) envName then Err (TokenClashVariable envName)
  else if has_key pipelineVars envName then Err (TokenClashPipelineVariable envName)
  else if bool_decide (envName ∈ default [] (Secrets jd)) then Err (TokenClashSecret envName)
  else match ID_Aud def with
       | [] => Err (TokenNoAud envName)
       | auds => auds ← trim_auds envName auds; Ok (<[envName := {| Aud := auds |}]> specs)
       end.
Definition validateIDTokensDeclaration (jd : JobDef) (pipelineVars : gmap string string)
    : result idtoken_error (gmap string IDTokenSpec) :=
  if (idTokensCap <? size (IDTokens jd))%nat then Err (TokensTooMany (size (IDTokens jd)))
  else fold_all (idtoken_spec jd pipelineVars) ∅ (range_map (IDTokens jd)).

(** [out[k] = append(out[k], vs...)] over the entries and their keys. *)
Definition flatten_entry (out : gmap string (list string)) (e : gmap string (list string))
    : gmap string (list string) :=
  foldl (fun out '(k, vs) => <[k := default [] (out !! k) ++ vs]> out) out (range_map e).
Definition flattenMatrix (entries : list (gmap string (list string))) : gmap string (list string) :=
  foldl flatten_entry ∅ entries.

(** [taken]: the later loops of the code overwrite the earlier ones. *)
Definition taken_names (pipelineVars jobVars : gmap string string) (secrets : list string)
    (idTokens : gmap string IDTokenDef) : gmap string string :=
  ((fun _ => "an id_token") <$> idTokens)
  ∪ (list_to_map ((fun s => (s, "a secret")) <$> secrets)
     ∪ (((fun _ => "a job variable") <$> jobVars)
        ∪ ((fun _ => "a pipeline variable") <$> pipelineVars))).

Definition check_dim_name (taken : gmap string string) (p : string * list string)
    : result matrix_error unit :=
  let '(dim, values) := p in
  if negb (full_match outputEnvRE dim) then Err (MatrixBadName dim)
  else if HasPrefix dim "CI_" || HasPrefix dim "GOCDNEXT_" then Err (MatrixReserved dim)
  else match taken !! dim with
       | Some src => Err (MatrixCollides dim src)
       | None => check_all (fun v => if ContainsAny v ",=" then Err (MatrixBadValue dim v) else Ok tt)
                   values
       end.
Definition validateMatrixDimNames (matrix : gmap string (list string))
    (pipelineVars jobVars : gmap string string) (secrets : list string)
    (idTokens : gmap string IDTokenDef) : result matrix_error unit :=
  check_all (check_dim_name (taken_names pipelineVars jobVars secrets idTokens)) (range_map matrix).

Fixpoint check_unique (dim : string) (seen : gset string) (values : list string)
    : result matrix_error unit :=
  match values with
  | [] => Ok tt
  | v :: values => if decide (v ∈ seen) then Err (MatrixDuplicate dim v)
                   else check_unique dim ({[v]} ∪ seen) values
  end.
Definition check_dim (p : string * list string) : result matrix_error unit :=
  let '(dim, values) := p in
  match values with [] => Err (MatrixNoValues dim) | _ => check_unique dim ∅ values end.
Definition validateMatrixDimensions (matrix : gmap string (list string)) : result matrix_error unit :=
  check_all check_dim (range_map matrix).
End Maps.

(** ** Notifications and services *)

Inductive notification_error := NotifUnknownOn (idx : nat) (on : string) | NotifNoUses (idx : nat).

Definition notificationTriggers (on : string) : option NotificationTrigger :=
  if decide (on = "failure") then Some NotifyOnFailure
  else if decide (on = "success") then Some NotifyOnSuccess
  else if decide (on = "always") then Some NotifyOnAlways
  else if decide (on = "canceled") then Some NotifyOnCanceled
  else None.

Definition toNotification `{UnicodeCase} (idx : nat) (n : NotificationSpec)
    : result notification_error Notification :=
  match notificationTriggers (TrimSpace (ToLower (NS_On n))) with
  | None => Err (NotifUnknownOn idx (NS_On n))
  | Some trig =>
      if decide (TrimSpace (NS_Uses n) = "") then Err (NotifNoUses idx)
      else Ok {| Notif_On := trig; Notif_Uses := TrimSpace (NS_Uses n);
                 Notif_With := NS_With n; Notif_Secrets := NS_Secrets n |}
  end.

Inductive toleration_error :=
| TolTooMany (n : nat) | TolOperator (i : nat) (op : string) | TolEffect (i : nat) (eff : string)
| TolExistsValue (i : nat) | TolKeyRequired (i : nat) | TolBadKey (i : nat) (errs : list string)
| TolBadValue (i : nat) (errs : list string) | TolSecondsNegative (i : nat) (s : Z)
| TolSecondsEffect (i : nat) (eff : string).
Inductive service_error :=
| ServiceNoImage | ServiceNoName (image : string) | SelectorTooMany (n : nat)
| SelectorBadKey (k : string) (errs : list string) | SelectorBadValue (k : string) (errs : list string)
| ServiceToleration (e : toleration_error).

Definition maxServiceNodeSelectorEntries : nat := 20.
Definition maxServiceTolerations : nat := 20.

(** [postgres:16] is [postgres]; a registry's port survives, because its colon
    is before a slash. *)
Definition defaultServiceNameFromImage (image : string) : string :=
  let s := match LastIndexByte image ":"%char with
           | Some i =>
               match LastIndexByte image "/"%char with
               | Some j => if (j <? i)%nat then stake i image else image
               | None => stake i image
               end
           | None => image
           end in
  let s := match LastIndexByte s "/"%char with Some j => sdrop (j + 1) s | None => s end in
  TrimSpace s.

Section Services.
Context `{MapRange}.
(** [k8svalidation.IsQualifiedName] and [IsValidLabelValue]: the messages. *)
Context (IsQualifiedName IsValidLabelValue : string -> list string).

Definition check_selector (p : string * string) : result service_error unit :=
  let '(k, v) := p in
  match IsQualifiedName k, IsValidLabelValue v with
  | [], [] => Ok tt
  | [], errs => Err (SelectorBadValue k errs)
  | errs, _ => Err (SelectorBadKey k errs)
  end.
Definition validateServiceNodeSelector (ns : gmap string string) : result service_error unit :=
  if (maxServiceNodeSelectorEntries <? size ns)%nat then Err (SelectorTooMany (size ns))
  else check_all check_selector (range_map ns).

Definition toToleration (i : nat) (t : TolerationSpec) : result toleration_error Toleration :=
  if negb (bool_decide (TS_Operator t ∈ [""; "Equal"; "Exists"])) then Err (TolOperator i (TS_Operator t))
  else if negb (bool_decide (TS_Effect t ∈ [""; "NoSchedule"; "PreferNoSchedule"; "NoExecute"]))
  then Err (TolEffect i (TS_Effect t))
  else
    let op := if decide (TS_Operator t = "") then "Equal" else TS_Operator t in
    let key_errs := if decide (TS_Key t = "") then [] else IsQualifiedName (TS_Key t) in
    let value_errs := if decide (op = "Equal") then IsValidLabelValue (TS_Value t) else [] in
    let tol := {| Tol_Key := TS_Key t; Tol_Operator := op; Tol_Value := TS_Value t;
                  Tol_Effect := TS_Effect t; TolerationSeconds := TS_Seconds t |} in
    if bool_decide (op = "Exists" /\ TS_Value t <> "") then Err (TolExistsValue i)
    else if bool_decide (TS_Key t = "" /\ op <> "Exists") then Err (TolKeyRequired i)
    else match key_errs, value_errs with
    | _ :: _, _ => Err (TolBadKey i key_errs)
    | [], _ :: _ => Err (TolBadValue i value_errs)
    | [], [] =>
        match TS_Seconds t with
        | Some s =>
            if (s <? 0)%Z then Err (TolSecondsNegative i s)
            else if negb (bool_decide (TS_Effect t = "NoExecute"))
            then Err (TolSecondsEffect i (TS_Effect t)) else Ok tol
        | None => Ok tol
        end
    end.

Fixpoint map_res {E A B} (f : A -> result E B) (l : list A) : result E (list B) :=
  match l with
  | [] => Ok []
  | x :: l => y ← f x; ys ← map_res f l; Ok (y :: ys)
  end.

Definition toServiceTolerations (l : list TolerationSpec) : result toleration_error (list Toleration) :=
  if (maxServiceTolerations <? length l)%nat then Err (TolTooMany (length l))
  else map_res (fun '(i, t) => toToleration i t) (imap pair l).

Definition toService (s : ServiceSpec) : result service_error Service :=
  if decide (TrimSpace (SS_Image s) = "") then Err ServiceNoImage
  else
    let name := TrimSpace (SS_Name s) in
    let name := if decide (name = "") then defaultServiceNameFromImage (SS_Image s) else name in
    if decide (name = "") then Err (ServiceNoName (SS_Image s))
    else
      _ ← validateServiceNodeSelector (SS_NodeSelector s);
      tols ← map_err ServiceToleration (toServiceTolerations (SS_Tolerations s));
      Ok {| Service_Name := name; Service_Image := SS_Image s; Service_Env := SS_Env s;
            Service_Command := SS_Command s; Service_NodeSelector := SS_NodeSelector s;
            Service_Tolerations := tols |}.
End Services.

Example image_names :
  defaultServiceNameFromImage <$> ["postgres:16-alpine"; "registry.local:5000/foo/bar"; "redis"]
  = ["postgres"; "bar"; "redis"].
Proof. vm_compute. reflexivity. Qed.
Example approval_timeouts :
  parseApprovalTimeout <$> [""; " Never "; "OFF"; "0"; "7d"; "90m"; "30s"; "10000h"; "x"]
  = [Ok 0; Ok (-1); Ok (-1); Err (TimeoutZero "0"); Err (TimeoutDayUnit "7d"); Ok (90 * Minute);
     Err (TimeoutTooShort "30s"); Err (TimeoutTooLong "10000h"); Err (TimeoutNotDuration "x")]%Z.
Proof. vm_compute. reflexivity. Qed.

(** [map_res] is pointwise. *)
Lemma map_res_Forall2 {E A B} (f : A -> result E B) l l' :
  map_res f l = Ok l' <-> Forall2 (fun x y => f x = Ok y) l l'.
Proof.
  revert l'. induction l as [|x l IH]; intros l'; simpl.
  - split; [intros [= <-]; constructor|by inversion 1].
  - rewrite bind_Ok. split.
    + intros (y & Hy & Hl). apply bind_Ok in Hl as (ys & Hys & [= <-]). constructor; [done|by apply IH].
    + inversion 1; subst. eexists. split; [done|]. apply bind_Ok. eexists. split; [by apply IH|done].
Qed.
