(* ===== verification/ParseJob.v ===== *)
(** [server/pkg/parser/parse_job.go]: one flattened job definition becomes a
    [domain.Job], or is rejected with the first rule it breaks. *)

From S2P Require Import Prelude GoStrings GoRegexp GoTime Domain CacheKey Schema ParseHelpers.

(** ** Patterns *)

(** [^[a-z0-9][a-z0-9._/-]*$]. *)
Definition approvalLabelRE : re :=
  let alnum c := is_lower c || is_digit c in
  Seq (One (class_of alnum)) (Star (class_of (fun c => alnum c || one_of "._/-" c))).
(** [^[a-z0-9][a-z0-9_-]{0,62}$]. *)
Definition jobClusterRE : re :=
  let alnum c := is_lower c || is_digit c in
  Seq (One (class_of alnum)) (Rep (class_of (fun c => alnum c || one_of "_-" c)) true 0 (Some 62)).

(** A strict reference: two opening braces after a dollar, the trimmed content
    (group 1, lazy, at most 256 runes without a closing brace), two closing
    braces. *)
Definition not_brace_class : cclass :=
  {| ascii_in := fun c => negb (one_of "}" c); other_in := true |}.
Definition deployVersionRefRE : re :=
  Seq (Lit "${{") (Seq (Star space_class)
    (Seq (Group 1 (Rep not_brace_class false 1 (Some 256)))
      (Seq (Star space_class) (Lit "}}")))).
(** [needs.<job>.outputs.<alias>], [CI_*] or [vars.NAME]. *)
Definition deployVersionRefOK : re :=
  Group 1 (Alt
    (Seq (Lit "needs.") (Seq (Plus (class_of (fun c => is_alnum c || one_of "_-" c)))
       (Seq (Lit ".outputs.") outputAliasRE)))
    (Alt (Seq (Lit "CI_") (Plus (class_of (fun c => is_upper c || is_digit c || one_of "_" c))))
         (Seq (Lit "vars.") envNamePattern))).

(** ** Errors *)

Inductive target_error :=
| TargetNoCluster | TargetBadCluster (c : string) | TargetNoApplication | TargetNoSyncMode
| TargetBadSyncMode (m : string).

Inductive job_error :=
| ClusterInvalid (c : string) | ClusterAndKubeconfig | ClusterVariableClash | ClusterSecretClash
| ClusterTokenClash | ClusterMatrixClash
| ArtifactsWhenInvalid (w : string)
| CacheNoKey | CacheNoPaths (k : string) | CacheBadKey (k : string) (e : key_error)
| CoverageInvalid (e : coverage_error)
| OutputsInvalid (e : outputs_error)
| TokensInvalid (e : idtoken_error)
| ArtifactNoJob
| GateMatrix | GateExecutes | GateRequiredNegative (n : Z) | GateApprover (i : nat) (e : approver_error)
| GateUnpassable (required : Z) (listSize : nat)
| QuorumTooMany (n : nat) | QuorumEmptyLabel | QuorumBadLabel (l : string)
| QuorumTooSmall (l : string) (n : Z) | QuorumUnpassable (l : string) (n : Z) (listSize : nat)
| QuorumDuplicate (l : string)
| GateTimeout (e : timeout_error)
| UsesAndScript | UsesAndImage | UsesInvalid (e : plugin_ref_error)
| DeployNotExecutable | DeployNoEnvironment | DeployBadEnvironment (e : string)
| DeployBadVersionRef (ref : string) | DeployBadRevisionRef (ref : string)
| DeployTarget (e : target_error)
| EnvNotExecutable | EnvEmpty | EnvNotString (tag : string) | EnvBad (e : string)
| EnvDisagrees (env deploy : string)
| MatrixEmptyEntry (i : nat) | MatrixNoDimensions | MatrixInvalid (e : matrix_error)
| RulesNotEnforced | JobWhenNotImplemented.

(** ** Checks *)

Section ToJob.
Context `{MapRange, UnicodeCase}.

Definition injected : string := "PLUGIN_KUBECONFIG".

Definition check_cluster (jd : JobDef) : result job_error unit :=
  if decide (Cluster jd = "") then Ok tt
  else if negb (full_match jobClusterRE (Cluster jd)) then Err (ClusterInvalid (Cluster jd))
  else if negb (bool_decide (default "" (default ∅ (With jd) !! "kubeconfig") = ""))
  then Err ClusterAndKubeconfig
  else if has_key (default ∅ (Variables jd)) injected then Err ClusterVariableClash
  else if bool_decide (injected ∈ default [] (Secrets jd)) then Err ClusterSecretClash
  else if has_key (IDTokens jd) injected then Err ClusterTokenClash
  else match JD_Parallel jd with
       | Some p => if existsb (fun dim => has_key dim injected) (P_Matrix p)
                   then Err ClusterMatrixClash else Ok tt
       | None => Ok tt
       end.

Definition job_tags (jd : JobDef) : list string :=
  match Agent jd with
  | Some a => default [] (Tags jd) ++ Agent_Tags a
  | None => default [] (Tags jd)
  end.

Definition job_quantities (q : option ResourceQty) : ResourceQuantities :=
  match q with
  | Some q => {| RQ_CPU := Qty_CPU q; RQ_Memory := Qty_Memory q |}
  | None => {| RQ_CPU := ""; RQ_Memory := "" |}
  end.
Definition job_resources (jd : JobDef) : ResourceSpec :=
  match JD_Resources jd with
  | Some r => {| Requests := job_quantities (Res_Requests r); Limits := job_quantities (Res_Limits r) |}
  | None => zero_resources
  end.

(** The dedupe loop by canonical form: [skip] is what the loop may not repeat. *)
Fixpoint dedup_paths (skip seen : gset string) (l : list string) : list string :=
  match l with
  | [] => []
  | p :: l =>
      let canon := canonicalArtifactPath p in
      if decide (canon ∈ skip \/ canon ∈ seen) then dedup_paths skip seen l
      else p :: dedup_paths skip ({[canon]} ∪ seen) l
  end.
Definition artifact_paths (a : Artifacts) : list string := dedup_paths ∅ ∅ (Art_Paths a).
Definition optional_artifact_paths (a : Artifacts) : list string :=
  dedup_paths (list_to_set (canonicalArtifactPath <$> Art_Paths a)) ∅ (Art_Optional a).

Definition artifacts_when (jd : JobDef) : result job_error string :=
  match JD_Artifacts jd with
  | None => Ok ""
  | Some a =>
      let w := TrimSpace (Art_When a) in
      if decide (w = "" \/ w = "on_success") then Ok ""
      else if decide (w = "on_failure" \/ w = "always") then Ok w
      else Err (ArtifactsWhenInvalid (Art_When a))
  end.

Definition to_cache (c : YCacheSpec) : result job_error CacheSpec :=
  if decide (YC_Key c = "") then Err CacheNoKey
  else match YC_Paths c with
  | [] => Err (CacheNoPaths (YC_Key c))
  | paths =>
      match CacheKey.Parse (YC_Key c) with
      | Err e => Err (CacheBadKey (YC_Key c) e)
      | Ok _ => Ok {| Cache_Key := YC_Key c; Cache_Paths := paths |}
      end
  end.

Definition job_outputs (jd : JobDef) : result job_error (gmap string string * gmap string bool) :=
  let flat := Out_Env <$> Outputs jd in
  let masks := (fun _ => true) <$> filter (fun kv => Masked (snd kv) = true) (Outputs jd) in
  if decide (Outputs jd = ∅) then Ok (∅, ∅)
  else _ ← map_err OutputsInvalid (validateOutputsDeclaration flat); Ok (flat, masks).

Definition to_artifact_dep (na : NeedsArtifactDef) : result job_error ArtifactDep :=
  if decide (NA_FromJob na = "") then Err ArtifactNoJob
  else Ok {| Dep_FromJob := NA_FromJob na; Dep_FromPipeline := NA_FromPipeline na;
             Dep_Paths := NA_Paths na; Dep_Dest := NA_Dest na |}.

(** ** Approval gates *)

(** Any knob that would make a gate execute something. *)
Definition gate_executes (jd : JobDef) : bool :=
  negb (bool_decide (default [] (Script jd) = [])) || negb (bool_decide (Uses jd = "")) ||
  negb (bool_decide (Image jd = "")) || (if Settings jd then true else false) ||
  (if JD_Artifacts jd then true else false) ||
  match default [] (NeedsArtifacts jd) with [] => false | _ => true end ||
  match default [] (Cache jd) with [] => false | _ => true end ||
  Docker jd || negb (bool_decide (size (IDTokens jd) = 0)) || (if Deploy jd then true else false) ||
  negb (bool_decide (Cluster jd = "")) || negb (IsZeroNode (Environment jd)).

Definition quorum_step (listSize : nat) (q : gmap string Z) (p : string * Z)
    : result job_error (gmap string Z) :=
  let '(label, override) := p in
  let lower := ToLower label in
  if decide (lower = "") then Err QuorumEmptyLabel
  else if negb (full_match approvalLabelRE lower) then Err (QuorumBadLabel label)
  else if (override <? 1)%Z then Err (QuorumTooSmall label override)
  else if (0 <? listSize)%nat && (Z.of_nat listSize <? override)%Z
  then Err (QuorumUnpassable label override listSize)
  else if has_key q lower then Err (QuorumDuplicate label)
  else Ok (<[lower := override]> q).

Definition approvalQuorumByLabelCap : nat := 16.

Definition approval_spec (ad : ApprovalDef) (timeout : string) : result job_error ApprovalSpec :=
  if (AD_Required ad <? 0)%Z then Err (GateRequiredNegative (AD_Required ad))
  else
    let required := if decide (AD_Required ad = 0%Z) then 1%Z else AD_Required ad in
    let listSize := length (AD_Approvers ad) + length (AD_ApproverGroups ad) in
    _ ← check_all (fun '(i, a) => map_err (GateApprover i) (ValidateApproverRef a))
          (imap pair (AD_Approvers ad));
    if (0 <? listSize)%nat && (Z.of_nat listSize <? required)%Z
    then Err (GateUnpassable required listSize)
    else
      quorum ←
        (if (approvalQuorumByLabelCap <? size (AD_QuorumByLabel ad))%nat
         then Err (QuorumTooMany (size (AD_QuorumByLabel ad)))
         else fold_all (quorum_step listSize) ∅ (range_map (AD_QuorumByLabel ad)));
      window ← map_err GateTimeout (parseApprovalTimeout timeout);
      Ok {| Approvers := AD_Approvers ad; ApproverGroups := AD_ApproverGroups ad;
            Required := required; QuorumByLabel := quorum; Description := AD_Description ad;
            Timeout := window |}.

Definition gate_spec (jd : JobDef) (ad : ApprovalDef) : result job_error ApprovalSpec :=
  if JD_Parallel jd then Err GateMatrix
  else if gate_executes jd then Err GateExecutes
  else approval_spec ad (JD_Timeout jd).

(** ** Tasks, deploys and environments *)

Definition job_tasks (jd : JobDef) : result job_error (list Task) :=
  let script := default [] (Script jd) in
  let script_task := match script with
                     | [] => []
                     | _ => [{| Task_Script := "set -e" +:+ newline_byte +:+ Join script newline_byte;
                                Task_Plugin := None |}]
                     end in
  if negb (bool_decide (Uses jd = "")) then
    match script with
    | _ :: _ => Err UsesAndScript
    | [] =>
        if negb (bool_decide (Image jd = "")) then Err UsesAndImage
        else
          image ← map_err UsesInvalid (ResolvePluginRef (Uses jd));
          Ok [{| Task_Script := "";
                 Task_Plugin := Some {| Plugin_Image := image; Plugin_Settings := default ∅ (With jd) |} |}]
    end
  else match script, Settings jd with
       | [], Some settings =>
           if decide (Image jd = "") then Ok []
           else Ok [{| Task_Script := "";
                       Task_Plugin := Some {| Plugin_Image := Image jd; Plugin_Settings := settings |} |}]
       | _, _ => Ok script_task
       end.

Definition deployTargetSyncModes : list string := ["trigger"; "observe"].
Definition parseDeployTarget (td : TargetDef) : result target_error DeployTargetSpec :=
  let cluster := TrimSpace (TD_Cluster td) in
  let application := TrimSpace (TD_Application td) in
  let syncMode := TrimSpace (TD_SyncMode td) in
  if decide (cluster = "") then Err TargetNoCluster
  else if negb (full_match jobClusterRE cluster) then Err (TargetBadCluster (TD_Cluster td))
  else if decide (application = "") then Err TargetNoApplication
  else if decide (syncMode = "") then Err TargetNoSyncMode
  else if negb (bool_decide (syncMode ∈ deployTargetSyncModes)) then Err (TargetBadSyncMode (TD_SyncMode td))
  else Ok {| Target_Cluster := cluster; Target_Application := application;
             Target_Namespace := TrimSpace (TD_Namespace td); Target_SyncMode := syncMode |}.

(** Every strict reference of a text is of an allowed form. *)
Definition check_refs (bad : string -> job_error) (text : string) : result job_error unit :=
  check_all (fun caps => if full_match deployVersionRefOK (group caps 1) then Ok tt
                         else Err (bad (group caps 1)))
    (FindAllSubmatch deployVersionRefRE text).

Definition job_deploy (jd : JobDef) (tasks : list Task) : result job_error (option DeploySpec) :=
  match Deploy jd with
  | None => Ok None
  | Some dd =>
      let env := TrimSpace (DD_Environment dd) in
      let version := TrimSpace (DD_Version dd) in
      let revision := TrimSpace (DD_Revision dd) in
      match tasks with
      | [] => Err DeployNotExecutable
      | _ =>
          if decide (env = "") then Err DeployNoEnvironment
          else if negb (ValidEnvironmentName env) then Err (DeployBadEnvironment (DD_Environment dd))
          else
            _ ← check_refs DeployBadVersionRef version;
            _ ← check_refs DeployBadRevisionRef revision;
            target ← match DD_Target dd with
                     | None => Ok None
                     | Some td => t ← map_err DeployTarget (parseDeployTarget td); Ok (Some t)
                     end;
            Ok (Some {| Deploy_Environment := env; Deploy_Version := version;
                        Deploy_Revision := revision; Deploy_Target := target |})
      end
  end.

(** [for depth := 0; n.Kind == AliasNode && n.Alias != nil && depth < 10; ...]. *)
Fixpoint follow_alias (depth : nat) (n : Node) : Node :=
  match depth with
  | 0 => n
  | S depth =>
      match Kind n, Alias n with
      | AliasNode, Some a => follow_alias depth a
      | _, _ => n
      end
  end.

Definition job_environment (jd : JobDef) (tasks : list Task) (deploy : option DeploySpec)
    : result job_error string :=
  if IsZeroNode (Environment jd) then Ok ""
  else match tasks with
  | [] => Err EnvNotExecutable
  | _ =>
      let n := follow_alias 10 (Environment jd) in
      let env := TrimSpace (Value n) in
      if decide (ShortTag n = "!!null") then Err EnvEmpty
      else if negb (bool_decide (Kind n = ScalarNode /\ ShortTag n = "!!str"))
      then Err (EnvNotString (ShortTag n))
      else if decide (env = "") then Err EnvEmpty
      else if negb (ValidEnvironmentName env) then Err (EnvBad env)
      else match deploy with
           | Some d => if decide (Deploy_Environment d = env) then Ok env
                       else Err (EnvDisagrees env (Deploy_Environment d))
           | None => Ok env
           end
  end.

Definition job_matrix (jd : JobDef) (pipelineVars : gmap string string)
    : result job_error (gmap string (list string)) :=
  match JD_Parallel jd with
  | None => Ok ∅
  | Some p =>
      match P_Matrix p with
      | [] => Ok ∅
      | entries =>
          _ ← check_all (fun '(i, e) => if decide (e = ∅) then Err (MatrixEmptyEntry i) else Ok tt)
                (imap pair entries);
          let flat := flattenMatrix entries in
          if decide (flat = ∅) then Err MatrixNoDimensions
          else
            _ ← map_err MatrixInvalid (validateMatrixDimensions flat);
            _ ← map_err MatrixInvalid
                  (validateMatrixDimNames flat pipelineVars (default ∅ (Variables jd))
                     (default [] (Secrets jd)) (IDTokens jd));
            Ok flat
      end
  end.

Definition unenforced (jd : JobDef) : result job_error unit :=
  match default [] (Rules jd), JD_When jd with
  | _ :: _, _ => Err RulesNotEnforced
  | [], Some _ => Err JobWhenNotImplemented
  | [], None => Ok tt
  end.

(** ** The job *)

(** The fields assigned before a gate returns. *)
Definition common_job (name : string) (jd : JobDef) (when : string) (caches : list CacheSpec)
    (coverage : option CoverageReportSpec) (outputs : gmap string string * gmap string bool)
    (tokens : gmap string IDTokenSpec) (deps : list ArtifactDep) : Job := {|
  Job_Name := name; Job_Stage := Stage jd; Job_Image := Image jd;
  Job_Profile := match Agent jd with Some a => Agent_Profile a | None => "" end;
  Job_Cluster := Cluster jd; Job_Resources := job_resources jd; Job_Needs := default [] (Needs jd);
  Job_Tasks := []; Job_Settings := default ∅ (Settings jd);
  Job_Variables := default ∅ (Variables jd); Job_Matrix := ∅; Job_Rules := [];
  Job_Secrets := default [] (Secrets jd); Job_Tags := job_tags jd;
  Job_ArtifactPaths := match JD_Artifacts jd with Some a => artifact_paths a | None => [] end;
  Job_OptionalArtifactPaths :=
    match JD_Artifacts jd with Some a => optional_artifact_paths a | None => [] end;
  Job_ArtifactsWhen := when; Job_ArtifactDeps := deps; Job_Docker := Docker jd;
  Job_Cache := caches; Job_Approval := None; Job_CoverageReport := coverage;
  Job_TestReports := default [] (TestReports jd); Job_Outputs := outputs.1;
  Job_OutputMasks := outputs.2; Job_IDTokens := tokens; Job_Deploy := None; Job_Environment := "";
|}.

Definition with_approval (j : Job) (a : ApprovalSpec) : Job := {|
  Job_Name := Job_Name j; Job_Stage := Job_Stage j; Job_Image := Job_Image j;
  Job_Profile := Job_Profile j; Job_Cluster := Job_Cluster j; Job_Resources := Job_Resources j;
  Job_Needs := Job_Needs j; Job_Tasks := Job_Tasks j; Job_Settings := Job_Settings j;
  Job_Variables := Job_Variables j; Job_Matrix := Job_Matrix j; Job_Rules := Job_Rules j;
  Job_Secrets := Job_Secrets j; Job_Tags := Job_Tags j; Job_ArtifactPaths := Job_ArtifactPaths j;
  Job_OptionalArtifactPaths := Job_OptionalArtifactPaths j;
  Job_ArtifactsWhen := Job_ArtifactsWhen j; Job_ArtifactDeps := Job_ArtifactDeps j;
  Job_Docker := Job_Docker j; Job_Cache := Job_Cache j; Job_Approval := Some a;
  Job_CoverageReport := Job_CoverageReport j; Job_TestReports := Job_TestReports j;
  Job_Outputs := Job_Outputs j; Job_OutputMasks := Job_OutputMasks j;
  Job_IDTokens := Job_IDTokens j; Job_Deploy := Job_Deploy j; Job_Environment := Job_Environment j;
|}.

Definition with_execution (j : Job) (tasks : list Task) (deploy : option DeploySpec)
    (env : string) (matrix : gmap string (list string)) : Job := {|
  Job_Name := Job_Name j; Job_Stage := Job_Stage j; Job_Image := Job_Image j;
  Job_Profile := Job_Profile j; Job_Cluster := Job_Cluster j; Job_Resources := Job_Resources j;
  Job_Needs := Job_Needs j; Job_Tasks := tasks; Job_Settings := Job_Settings j;
  Job_Variables := Job_Variables j; Job_Matrix := matrix; Job_Rules := Job_Rules j;
  Job_Secrets := Job_Secrets j; Job_Tags := Job_Tags j; Job_ArtifactPaths := Job_ArtifactPaths j;
  Job_OptionalArtifactPaths := Job_OptionalArtifactPaths j;
  Job_ArtifactsWhen := Job_ArtifactsWhen j; Job_ArtifactDeps := Job_ArtifactDeps j;
  Job_Docker := Job_Docker j; Job_Cache := Job_Cache j; Job_Approval := Job_Approval j;
  Job_CoverageReport := Job_CoverageReport j; Job_TestReports := Job_TestReports j;
  Job_Outputs := Job_Outputs j; Job_OutputMasks := Job_OutputMasks j;
  Job_IDTokens := Job_IDTokens j; Job_Deploy := deploy; Job_Environment := env;
|}.

Definition toJob (name : string) (jd : JobDef) (pipelineVars : gmap string string)
    : result job_error Job :=
  _ ← check_cluster jd;
  when ← artifacts_when jd;
  caches ← map_res to_cache (default [] (Cache jd));
  coverage ← match CoverageReport jd with
             | None => Ok None
             | Some def => c ← map_err CoverageInvalid (toCoverageReport def); Ok (Some c)
             end;
  outputs ← job_outputs jd;
  tokens ← map_err TokensInvalid (validateIDTokensDeclaration jd pipelineVars);
  deps ← map_res to_artifact_dep (default [] (NeedsArtifacts jd));
  let j := common_job name jd when caches coverage outputs tokens deps in
  match Approval jd with
  | Some ad => spec ← gate_spec jd ad; Ok (with_approval j spec)
  | None =>
      tasks ← job_tasks jd;
      deploy ← job_deploy jd tasks;
      env ← job_environment jd tasks deploy;
      matrix ← job_matrix jd pipelineVars;
      _ ← unenforced jd;
      Ok (with_execution j tasks deploy env matrix)
  end.
End ToJob.

(** ** What an accepted job satisfies *)

Section Accepted.
Context `{MapRange, UnicodeCase}.

(** The quorum map of a gate: every override is at least one, and passable. *)
Definition quorum_ok (listSize : nat) (q : gmap string Z) : Prop :=
  forall l n, q !! l = Some n ->
    full_match approvalLabelRE l = true /\ (1 <= n)%Z /\ (0 < listSize -> (n <= Z.of_nat listSize)%Z).

Lemma quorum_step_ok listSize q p q' :
  quorum_ok listSize q -> quorum_step listSize q p = Ok q' -> quorum_ok listSize q'.
Proof.
  intros Hq Hs. unfold quorum_step in Hs. destruct p as [label override]. inv_ok.
  intros l' n' [[<- <-]|[_ Hl]]%lookup_insert_Some; [|by apply Hq].
  destruct_bools. split_and!; [done|lia|].
  intros Hpos. destruct (Nat.ltb_spec 0 listSize); [|lia].
  match goal with Hb : _ && _ = false |- _ => simpl in Hb end. lia.
Qed.

Definition gate_passable (a : ApprovalSpec) : Prop :=
  let listSize := length (Approvers a) + length (ApproverGroups a) in
  (1 <= Required a)%Z /\ (0 < listSize -> (Required a <= Z.of_nat listSize)%Z) /\
  quorum_ok listSize (QuorumByLabel a) /\
  (Timeout a = 0%Z \/ Timeout a = ApprovalTimeoutNever \/
   (ApprovalTimeoutMin <= Timeout a <= ApprovalTimeoutMax)%Z).

Lemma parseApprovalTimeout_range text d :
  parseApprovalTimeout text = Ok d ->
  d = 0%Z \/ d = ApprovalTimeoutNever \/ (ApprovalTimeoutMin <= d <= ApprovalTimeoutMax)%Z.
Proof. unfold parseApprovalTimeout. intros Hd. inv_ok; [auto..|]. right. right. lia. Qed.

Lemma approval_spec_passable ad timeout a : approval_spec ad timeout = Ok a -> gate_passable a.
Proof.
  unfold approval_spec. intros Ha. inv_ok. simpl.
  set (listSize := length (AD_Approvers ad) + length (AD_ApproverGroups ad)) in *.
  unfold gate_passable. simpl. fold listSize. split_and!.
  - case_decide; lia.
  - intros Hpos. destruct (Nat.ltb_spec 0 listSize); [|lia].
    match goal with Hb : _ && _ = false |- _ => simpl in Hb end. lia.
  - match goal with Hf : fold_all _ _ _ = Ok _ |- _ =>
      apply (fold_all_inv _ (quorum_ok listSize)) in Hf; [done| |] end.
    + intros l n Hl. by rewrite lookup_empty in Hl.
    + intros s p s' _. apply quorum_step_ok.
  - by eapply parseApprovalTimeout_range.
Qed.
End Accepted.

Section Names.
Context `{MapRange, UnicodeCase}.

(** An environment name a job may introduce. *)
Definition fresh_name (pipelineVars vars : gmap string string) (secrets : list string) (n : string) : Prop :=
  full_match envNamePattern n = true /\ HasPrefix n "CI_" = false /\ HasPrefix n "GOCDNEXT_" = false /\
  pipelineVars !! n = None /\ vars !! n = None /\ n ∉ secrets.

Lemma has_key_false {V} (m : gmap string V) k : has_key m k = false <-> m !! k = None.
Proof. unfold has_key. by destruct (m !! k). Qed.

Lemma trim_auds_length name l l' : trim_auds name l = Ok l' -> length l' = length l.
Proof.
  revert l'. induction l as [|a l IH]; simpl; intros l' Hl; inv_ok; [done|]. simpl.
  f_equal. by apply IH.
Qed.

Definition token_ok (jd : JobDef) (pipelineVars : gmap string string)
    (specs : gmap string IDTokenSpec) : Prop :=
  forall k s, specs !! k = Some s ->
    is_Some (IDTokens jd !! k) /\ Aud s <> [] /\
    full_match envNamePattern k = true /\
    HasPrefix (ToUpper k) "CI_" = false /\ HasPrefix (ToUpper k) "GOCDNEXT_" = false /\
    pipelineVars !! k = None /\ default ∅ (Variables jd) !! k = None /\
    k ∉ default [] (Secrets jd).

Lemma idtokens_ok jd pv specs :
  validateIDTokensDeclaration jd pv = Ok specs -> token_ok jd pv specs.
Proof.
  unfold validateIDTokensDeclaration. intros Hs. inv_ok.
  apply (fold_all_inv _ (token_ok jd pv)) in Hs; [done| |].
  - intros k s Hk. by rewrite lookup_empty in Hk.
  - intros m [k def] m' Hin Hm Hstep. apply elem_of_range_map in Hin.
    unfold idtoken_spec in Hstep. inv_ok. destruct_bools.
    intros k' s' [[<- <-]|[_ Hk']]%lookup_insert_Some; [|by apply Hm].
    rewrite has_key_false in *. simpl.
    match goal with Ht : trim_auds _ _ = Ok _ |- _ => apply trim_auds_length in Ht end.
    split_and!; try done; [intros ->; simpl in *; lia|].
    match goal with Hb : bool_decide _ = false |- _ => by apply bool_decide_eq_false in Hb end.
Qed.

Lemma check_unique_NoDup dim seen values :
  check_unique dim seen values = Ok tt -> NoDup values /\ forall v, v ∈ values -> v ∉ seen.
Proof.
  revert seen. induction values as [|v values IH]; simpl; intros seen Hv.
  { split; [constructor|]. by intros v ?%elem_of_nil. }
  inv_ok. destruct (IH _ Hv) as [Hnd Hfresh]. split.
  - constructor; [|done]. intros Hin. specialize (Hfresh _ Hin). set_solver.
  - intros w [->|Hw]%elem_of_cons; [done|]. specialize (Hfresh _ Hw). set_solver.
Qed.

Lemma check_all_range_map {V E} (f : string * V -> result E unit) (m : gmap string V) k v :
  check_all f (range_map m) = Ok tt -> m !! k = Some v -> f (k, v) = Ok tt.
Proof.
  rewrite check_all_Ok, Forall_forall. intros Hf Hk. by apply Hf, elem_of_range_map.
Qed.

Lemma taken_names_None pv vars secrets toks k :
  taken_names pv vars secrets toks !! k = None ->
  pv !! k = None /\ vars !! k = None /\ k ∉ secrets /\ toks !! k = None.
Proof.
  unfold taken_names. rewrite !lookup_union_None, !lookup_fmap, !fmap_None.
  intros (? & Hs & ? & ?). split_and!; try done. intros Hin.
  apply not_elem_of_list_to_map in Hs. apply Hs. rewrite <-list_fmap_compose.
  apply list_elem_of_fmap. by exists k.
Qed.

Lemma matrix_ok m pv vars secrets toks :
  validateMatrixDimensions m = Ok tt -> validateMatrixDimNames m pv vars secrets toks = Ok tt ->
  forall dim vs, m !! dim = Some vs ->
    vs <> [] /\ NoDup vs /\ fresh_name pv vars secrets dim /\ toks !! dim = None /\
    Forall (fun v => ContainsAny v ",=" = false) vs.
Proof.
  intros Hd Hn dim vs Hm.
  pose proof (check_all_range_map _ _ _ _ Hd Hm) as Hdim. unfold check_dim in Hdim.
  pose proof (check_all_range_map _ _ _ _ Hn Hm) as Hname. unfold check_dim_name in Hname.
  inv_ok. destruct_bools.
  match goal with Ht : taken_names _ _ _ _ !! _ = None |- _ => apply taken_names_None in Ht end.
  destruct_and!. split_and!; try done.
  - apply check_unique_NoDup in Hdim. by destruct Hdim.
  - apply check_all_Ok in Hname. eapply Forall_impl; [exact Hname|].
    intros v Hv. simpl in Hv. by destruct (ContainsAny v ",=").
Qed.
End Names.

(** The steps of an accepted job. *)
Section Steps.
Context `{MapRange, UnicodeCase}.

Lemma toJob_inv name jd pv j :
  toJob name jd pv = Ok j ->
  exists when caches coverage outputs tokens deps,
    let j0 := common_job name jd when caches coverage outputs tokens deps in
    validateIDTokensDeclaration jd pv = Ok tokens /\
    match Approval jd with
    | Some ad => exists spec, j = with_approval j0 spec /\ gate_spec jd ad = Ok spec
    | None =>
        exists tasks deploy env matrix, j = with_execution j0 tasks deploy env matrix /\
          job_deploy jd tasks = Ok deploy /\ job_environment jd tasks deploy = Ok env /\
          job_matrix jd pv = Ok matrix
    end.
Proof.
  unfold toJob. intros Hj.
  apply bind_Ok in Hj as (_ & _ & Hj). apply bind_Ok in Hj as (when & _ & Hj).
  apply bind_Ok in Hj as (caches & _ & Hj). apply bind_Ok in Hj as (coverage & _ & Hj).
  apply bind_Ok in Hj as (outputs & _ & Hj). apply bind_Ok in Hj as (tokens & Ht & Hj).
  apply bind_Ok in Hj as (deps & _ & Hj).
  exists when, caches, coverage, outputs, tokens, deps. split.
  { by destruct (validateIDTokensDeclaration jd pv); inv_ok. }
  destruct (Approval jd) as [ad|].
  - apply bind_Ok in Hj as (spec & Hs & Hj). inv_ok. eauto.
  - apply bind_Ok in Hj as (tasks & _ & Hj). apply bind_Ok in Hj as (deploy & Hd & Hj).
    apply bind_Ok in Hj as (env & He & Hj). apply bind_Ok in Hj as (matrix & Hm & Hj).
    apply bind_Ok in Hj as (_ & _ & Hj). inv_ok. eauto 10.
Qed.

Lemma gate_spec_inv jd ad a :
  gate_spec jd ad = Ok a -> gate_executes jd = false /\ approval_spec ad (JD_Timeout jd) = Ok a.
Proof. unfold gate_spec. intros Hg. inv_ok. done. Qed.

Lemma lit_seq_prefix l r s : full_match (Seq (Lit l) r) s = true -> exists t, s = l +:+ t.
Proof.
  rewrite full_match_spec. inversion 1; subst.
  match goal with Hl : matches (Lit _) _ _ |- _ => inversion Hl; subst end. eauto.
Qed.

(** The references the parser lets through. *)
Lemma ref_ok_prefix s :
  full_match deployVersionRefOK s = true ->
  exists t, s = "needs." +:+ t \/ s = "CI_" +:+ t \/ s = "vars." +:+ t.
Proof.
  rewrite full_match_spec. unfold deployVersionRefOK. intros Hm.
  assert (Hp : forall l r, matches (Seq (Lit l) r) s "" -> exists t, s = l +:+ t).
  { intros l r Hr. by apply (lit_seq_prefix l r), full_match_spec. }
  inversion Hm as [| | | | | |? ? ? ? Ha]; subst.
  inversion Ha as [| | |? ? ? ? Hb|? ? ? ? Hb| |]; subst.
  - apply Hp in Hb as [t Ht]. eauto.
  - inversion Hb as [| | |? ? ? ? Hc|? ? ? ? Hc| |]; subst; apply Hp in Hc as [t Ht]; eauto.
Qed.

Lemma check_refs_ok bad text :
  check_refs bad text = Ok tt ->
  Forall (fun caps => exists t, group caps 1 = "needs." +:+ t \/
      group caps 1 = "CI_" +:+ t \/ group caps 1 = "vars." +:+ t)
    (FindAllSubmatch deployVersionRefRE text).
Proof.
  unfold check_refs. rewrite check_all_Ok. intros Hf. eapply Forall_impl; [exact Hf|].
  intros caps Hc. simpl in Hc. inv_ok. by apply ref_ok_prefix.
Qed.

Lemma job_deploy_inv jd tasks d :
  job_deploy jd tasks = Ok (Some d) ->
  tasks <> [] /\ ValidEnvironmentName (Deploy_Environment d) = true /\ Deploy_Environment d <> "" /\
  check_refs DeployBadVersionRef (Deploy_Version d) = Ok tt /\
  check_refs DeployBadRevisionRef (Deploy_Revision d) = Ok tt.
Proof.
  unfold job_deploy. intros Hd. destruct (Deploy jd) as [dd|]; [|done].
  destruct tasks as [|task tasks]; [done|]. case_decide; [done|].
  destruct (ValidEnvironmentName _) eqn:Hv; [|done]. simpl in Hd.
  apply bind_Ok in Hd as ([] & Hver & Hd). apply bind_Ok in Hd as ([] & Hrev & Hd).
  apply bind_Ok in Hd as (target & _ & Hd). inv_ok. done.
Qed.

Lemma job_environment_inv jd tasks deploy env :
  job_environment jd tasks deploy = Ok env ->
  (IsZeroNode (Environment jd) = true /\ env = "") \/
  (IsZeroNode (Environment jd) = false /\ tasks <> [] /\ ValidEnvironmentName env = true /\
   env <> "" /\ env = TrimSpace (Value (follow_alias 10 (Environment jd))) /\
   forall d, deploy = Some d -> Deploy_Environment d = env).
Proof.
  unfold job_environment. destruct (IsZeroNode (Environment jd)); [intros [= <-]; auto|].
  destruct tasks as [|task tasks]; [done|]. cbv zeta. intros He. right.
  case_decide; [done|]. destruct (negb _) eqn:?; [done|]. case_decide; [done|].
  destruct (ValidEnvironmentName _) eqn:?; [|done]. simpl in He.
  destruct deploy as [d|]; [case_decide; [|done]|]; injection He as <-; split_and!; try done;
    naive_solver.
Qed.

Lemma job_matrix_inv jd pv m :
  job_matrix jd pv = Ok m ->
  m = ∅ \/ (validateMatrixDimensions m = Ok tt /\
    validateMatrixDimNames m pv (default ∅ (Variables jd)) (default [] (Secrets jd)) (IDTokens jd) = Ok tt).
Proof.
  unfold job_matrix. intros Hm. destruct (JD_Parallel jd) as [p|]; [|inv_ok; auto].
  destruct (P_Matrix p) as [|e es]; [inv_ok; auto|].
  apply bind_Ok in Hm as (_ & _ & Hm). cbv zeta in Hm. case_decide; [done|].
  apply bind_Ok in Hm as ([] & Hd & Hm). apply bind_Ok in Hm as ([] & Hn & Hm). inv_ok.
  right. split.
  - by destruct (validateMatrixDimensions _) as [[]|].
  - by destruct (validateMatrixDimNames _ _ _ _ _) as [[]|].
Qed.
End Steps.

(** ** Properties *)

Section Properties.
Context `{MapRange, UnicodeCase}.

(** A job that parses as an approval gate executes nothing, acts on no
    environment, and can always be decided: its quorum, and every quorum a label
    can raise it to, is at least one and within its approver list, and its
    window is inherited, infinite, or within the documented bounds. *)
Theorem gate_job_safe (name : string) (jd : JobDef) (pv : gmap string string) (j : Job) (a : ApprovalSpec) :
  toJob name jd pv = Ok j -> Job_Approval j = Some a ->
  gate_passable a /\ Job_Tasks j = [] /\ Job_Deploy j = None /\ TargetEnvironment j = "" /\
  Job_Matrix j = ∅ /\ Job_Image j = "" /\ Job_Docker j = false /\ Job_Cluster j = "" /\
  Job_ArtifactPaths j = [] /\ Job_OptionalArtifactPaths j = [].
Proof.
  intros Hj Ha. apply toJob_inv in Hj as (when & caches & coverage & outputs & tokens & deps & Hj).
  cbv zeta in Hj. destruct Hj as (_ & Hj). destruct (Approval jd) as [ad|].
  2: { destruct Hj as (? & ? & ? & ? & -> & _). done. }
  destruct Hj as (spec & -> & Hg). simpl in Ha. simplify_eq.
  apply gate_spec_inv in Hg as [Hex Hs]. unfold gate_executes in Hex. destruct_bools.
  repeat match goal with Hb : bool_decide _ = true |- _ => apply bool_decide_eq_true in Hb end.
  simpl. destruct (JD_Artifacts jd); [done|]. split_and!; try done.
  by eapply approval_spec_passable.
Qed.

(** A deploy marker that parses is on a job that runs something, names a
    valid environment, is the environment a freeze will hold, and its version and
    revision refer only to upstream outputs, CI built-ins and the variables
    namespace: never to a secret or a bare name. A declared [environment:] is
    likewise what the freeze sees, so it cannot be dodged by a second answer. *)
Theorem deploy_job_safe (name : string) (jd : JobDef) (pv : gmap string string) (j : Job) :
  toJob name jd pv = Ok j ->
  (forall d, Job_Deploy j = Some d ->
     Job_Tasks j <> [] /\ ValidEnvironmentName (Deploy_Environment d) = true /\
     TargetEnvironment j = Deploy_Environment d /\
     Forall (fun text => Forall (fun caps => exists t, group caps 1 = "needs." +:+ t \/
                 group caps 1 = "CI_" +:+ t \/ group caps 1 = "vars." +:+ t)
               (FindAllSubmatch deployVersionRefRE text)) [Deploy_Version d; Deploy_Revision d]) /\
  (Job_Environment j <> "" ->
     Job_Tasks j <> [] /\ ValidEnvironmentName (Job_Environment j) = true /\
     TargetEnvironment j = Job_Environment j) /\
  (Approval jd = None -> IsZeroNode (Environment jd) = false ->
     Job_Environment j = TrimSpace (Value (follow_alias 10 (Environment jd))) /\ Job_Environment j <> "").
Proof.
  intros Hj. apply toJob_inv in Hj as (when & caches & coverage & outputs & tokens & deps & Hj).
  cbv zeta in Hj. destruct Hj as (_ & Hj). destruct (Approval jd) as [ad|].
  { destruct Hj as (spec & -> & _). simpl. split_and!; done. }
  destruct Hj as (tasks & deploy & env & matrix & -> & Hd & He & _). simpl.
  unfold TargetEnvironment. simpl. apply job_environment_inv in He.
  split_and!.
  - intros d ->. apply job_deploy_inv in Hd as (Hne & Hv & Hnonempty & Hver & Hrev).
    rewrite decide_True by done. split_and!; [done..|].
    repeat constructor; by eapply check_refs_ok.
  - intros Hne. destruct He as [[_ ->]|(_ & Ht & Hv & _ & _ & Hagree)]; [done|].
    split_and!; [done..|]. destruct deploy as [d|]; [|done]. rewrite (Hagree d) by done.
    by case_decide.
  - intros _ Hz. destruct He as [[Hz' _]|(_ & _ & _ & Hne & -> & _)]; [congruence|done].
Qed.

(** Every name a job adds to its environment is unambiguous: matrix
    dimensions and token names are valid environment names outside the platform's
    prefixes, and collide with no variable, secret or token; every dimension has
    at least one value, without duplicates and without the separators of the
    matrix key; every token has an audience. *)
Theorem job_names_unambiguous (name : string) (jd : JobDef) (pv : gmap string string) (j : Job) :
  toJob name jd pv = Ok j ->
  (forall dim vs, Job_Matrix j !! dim = Some vs ->
     vs <> [] /\ NoDup vs /\ fresh_name pv (Job_Variables j) (Job_Secrets j) dim /\
     Job_IDTokens j !! dim = None /\ Forall (fun v => ContainsAny v ",=" = false) vs) /\
  (forall k s, Job_IDTokens j !! k = Some s ->
     Aud s <> [] /\ full_match envNamePattern k = true /\
     HasPrefix (ToUpper k) "CI_" = false /\ HasPrefix (ToUpper k) "GOCDNEXT_" = false /\
     pv !! k = None /\ Job_Variables j !! k = None /\ k ∉ Job_Secrets j).
Proof.
  intros Hj. apply toJob_inv in Hj as (when & caches & coverage & outputs & tokens & deps & Hj).
  cbv zeta in Hj. destruct Hj as (Ht & Hj). apply idtokens_ok in Ht.
  assert (Hm : Job_IDTokens j = tokens /\ Job_Variables j = default ∅ (Variables jd) /\
      Job_Secrets j = default [] (Secrets jd) /\
      forall dim vs, Job_Matrix j !! dim = Some vs -> vs <> [] /\ NoDup vs /\
        fresh_name pv (default ∅ (Variables jd)) (default [] (Secrets jd)) dim /\
        IDTokens jd !! dim = None /\ Forall (fun v => ContainsAny v ",=" = false) vs).
  { destruct (Approval jd) as [ad|].
    - destruct Hj as (spec & -> & _). simpl. split_and!; [done..|].
      intros dim vs Hdim. by rewrite lookup_empty in Hdim.
    - destruct Hj as (tasks & deploy & env & matrix & -> & _ & _ & Hm). simpl. split_and!; [done..|].
      apply job_matrix_inv in Hm as [->|[Hd Hn]].
      + intros dim vs Hdim. by rewrite lookup_empty in Hdim.
      + by apply matrix_ok. }
  destruct Hm as (-> & -> & -> & Hm). split.
  - intros dim vs Hdim. destruct (Hm dim vs Hdim) as (? & ? & ? & Hnone & ?).
    split_and!; [done..| |done]. destruct (tokens !! dim) as [s|] eqn:Hs; [|done].
    destruct (Ht dim s Hs) as ([def Hdef] & _). congruence.
  - intros k s Hs. by destruct (Ht k s Hs) as (_ & ?).
Qed.
End Properties.

(** ** Examples *)

(** A definition with the fields the examples vary. *)
Definition mk_jobdef (stage image uses : string) (script : option (list string))
    (vars : option (gmap string string)) (parallel : option Parallel) (timeout : string)
    (approval : option ApprovalDef) (tokens : gmap string IDTokenDef) (deploy : option DeployDef)
    (env : Node) : JobDef := {|
  Stage := stage; Image := image; Extends := ""; Needs := None; Script := script; Settings := None;
  Uses := uses; With := None; Variables := vars; Cache := None; JD_Artifacts := None;
  NeedsArtifacts := None; TestReports := None; CoverageReport := None; JD_Parallel := parallel;
  Rules := None; JD_When := None; JD_Timeout := timeout; Retry := 0; Secrets := None; Tags := None;
  Agent := None; JD_Resources := None; Docker := false; Cluster := ""; Approval := approval;
  Outputs := ∅; IDTokens := tokens; Deploy := deploy; Environment := env;
|}.
Definition gate_def : JobDef :=
  mk_jobdef "approve" "" "" None None None "72h"
    (Some {| AD_Approvers := ["ana"; "sub:oidc:42"]; AD_ApproverGroups := ["sre"]; AD_Required := 2;
             AD_QuorumByLabel := {["HotFix" := 3%Z]}; AD_Description := "" |}) ∅ None zero_node.
Definition deploy_def (version : string) : JobDef :=
  mk_jobdef "deploy" "" "ghcr.io/x/deploy@v1" None None None "" None ∅
    (Some {| DD_Environment := " production "; DD_Version := version; DD_Revision := "";
             DD_Target := None |}) (mkNode ScalarNode "!!str" "production" 1 [] None).
Definition matrix_def : JobDef :=
  mk_jobdef "test" "golang" "" (Some ["go test"]) (Some {["A" := "1"]})
    (Some {| P_Matrix := [{["OS" := ["linux"; "darwin"]]}; {["GO" := ["1.24"]]}]; P_Count := 0 |}) ""
    None {["TOKEN" := {| ID_Aud := ["aws"] |}]} None zero_node.

Definition parse_example := @toJob library_range ascii_only_case.

Example version_refs :
  (fun v => is_ok (parse_example "d" (deploy_def v) ∅)) <$>
    ["${{ needs.build.outputs.tag }}"; "${{ CI_COMMIT_SHA }}-${{vars.SUFFIX}}"; "v1";
     "${{ secrets.TOKEN }}"; "${{ TOKEN }}"; "x-${{ needs.a.matrix[b].outputs.c }}"]
  = [true; true; true; false; false; false].
Proof. vm_compute. reflexivity. Qed.

Definition gate_job : Job :=
  match parse_example "gate" gate_def ∅ with Ok j => j | Err _ => zero_job end.
Definition deploy_job : Job :=
  match parse_example "prod" (deploy_def "v${{ vars.N }}") ∅ with Ok j => j | Err _ => zero_job end.
Definition matrix_job : Job :=
  match parse_example "unit" matrix_def ∅ with Ok j => j | Err _ => zero_job end.

Lemma gate_job_safe_witness :
  exists a, Job_Approval gate_job = Some a /\ Required a = 2%Z /\
    QuorumByLabel a !! "hotfix" = Some 3%Z /\ gate_passable a.
Proof.
  eexists. split; [vm_compute; reflexivity|]. split_and!; [reflexivity..|].
  apply (@gate_job_safe library_range ascii_only_case "gate" gate_def ∅ gate_job); vm_compute; reflexivity.
Defined.

Definition prod_deploy : DeploySpec := {|
  Deploy_Environment := "production"; Deploy_Version := "v${{ vars.N }}"; Deploy_Revision := "";
  Deploy_Target := None |}.

Lemma deploy_job_safe_witness :
  Job_Deploy deploy_job = Some prod_deploy /\
  TargetEnvironment deploy_job = Deploy_Environment prod_deploy.
Proof.
  assert (Hj : parse_example "prod" (deploy_def "v${{ vars.N }}") ∅ = Ok deploy_job)
    by (vm_compute; reflexivity).
  assert (Hd : Job_Deploy deploy_job = Some prod_deploy) by (vm_compute; reflexivity).
  split; [exact Hd|]. destruct (deploy_job_safe _ _ _ _ Hj) as [H _].
  destruct (H prod_deploy Hd) as (_ & _ & Ht & _). exact Ht.
Defined.

Lemma job_names_unambiguous_witness :
  Job_Matrix matrix_job !! "OS" = Some ["linux"; "darwin"] /\ Job_IDTokens matrix_job !! "OS" = None.
Proof.
  assert (Hj : parse_example "unit" matrix_def ∅ = Ok matrix_job) by (vm_compute; reflexivity).
  assert (Hm : Job_Matrix matrix_job !! "OS" = Some ["linux"; "darwin"]) by (vm_compute; reflexivity).
  split; [exact Hm|]. destruct (job_names_unambiguous _ _ _ _ Hj) as [H _].
  destruct (H "OS" _ Hm) as (_ & _ & _ & Ht & _). exact Ht.
Defined.
