(* ===== verification/Parse.v ===== *)
(** [server/pkg/parser/parse.go]: a decoded pipeline file becomes a
    [domain.Pipeline].  YAML decoding itself is third-party code: the model
    starts from the decoded [File]. *)

From S2P Require Import Prelude GoStrings GoTime GoRegexp Domain NeedsGraph CycleCheck.
From S2P Require Import ValidateNeeds GateGraph Schema Extends ParseHelpers ParseJob.

(** ** Materials *)

Inductive material_error :=
| MaterialPoll (e : poll_error)
| MaterialEvents (url event : string)
| MaterialEmpty.

Definition mk_material (type : MaterialType) (fingerprint : string) (autoUpdate : bool)
    (git : option GitMaterial) (upstream : option UpstreamMaterial) (cron : option CronMaterial)
    : Material :=
  {| Material_ID := ""; Material_Type := type; Fingerprint := fingerprint;
     AutoUpdate := autoUpdate; Implicit := false; Material_Git := git;
     Material_Upstream := upstream; Material_Cron := cron |}.

Definition toMaterial `{UnicodeCase} (m : MaterialSpec) : result material_error Material :=
  match MS_Git m, MS_Upstream m, MS_Cron m with
  | Some g, _, _ =>
      let branch := defaultStr (GS_Branch g) "main" in
      poll ← map_err MaterialPoll (ParsePollInterval (GS_PollInterval g));
      _ ← map_err (MaterialEvents (GS_URL g)) (validateGitMaterialEvents (GS_On g));
      Ok (mk_material MaterialGit (GitFingerprint (GS_URL g) branch) true
            (Some {| Git_URL := GS_URL g; Git_Branch := branch; Git_Events := defaultEvents (GS_On g);
                     Git_AutoRegisterWebhook := GS_AutoRegisterWebhook g;
                     Git_SecretRef := GS_SecretRef g; Git_Paths := []; Git_PollInterval := poll |})
            None None)
  | None, Some u, _ =>
      Ok (mk_material MaterialUpstream (UpstreamFingerprint (US_Pipeline u) (US_Stage u)) true None
            (Some {| Upstream_Pipeline := US_Pipeline u; Upstream_Stage := US_Stage u;
                     Upstream_Status := defaultStr (US_Status u) "success" |}) None)
  | None, None, Some c =>
      Ok (mk_material MaterialCron (CronFingerprint (CS_Expression c)) true None None
            (Some {| Cron_Expression := CS_Expression c |}))
  | None, None, None =>
      if MS_Manual m then Ok (mk_material MaterialManual ManualFingerprint false None None None)
      else Err MaterialEmpty
  end.

(** ** The pipeline *)

Inductive parse_error :=
| ParseNoName | ParseNameColon (name : string)
| ParseConcurrency (v : string) | ParseSupersede (v : string)
| ParseReservedStage (s : string)
| ParseWhenEvent (name event : string) | ParseWhenStatus (name : string)
| ParseWhenPaths (name : string) (e : path_error)
| ParseService (e : service_error) | ParseNotification (e : notification_error)
| ParseMaterial (e : material_error) | ParseExtends (e : extends_error)
| ParseUndeclaredStage (job stage : string) | ParseJobError (job : string) (e : job_error)
| ParseNeeds (e : needs_error) | ParseCycle (cycle : list string).


Section Parse.
Context `{MapRange, UnicodeCase}.
Context (IsQualifiedName IsValidLabelValue : string -> list string).
Context (ValidatePattern : string -> bool).

Definition pipeline_name (f : File) (fallback : string) : string :=
  if decide (F_Name f = "") then fallback else F_Name f.

Definition parse_supersede (v : string) : result parse_error string :=
  let s := ToLower (TrimSpace v) in
  if decide (s = "" \/ s = "off") then Ok ""
  else if decide (s = "branch" \/ s = "pipeline") then Ok s
  else Err (ParseSupersede v).
Definition parse_concurrency (v : string) : result parse_error string :=
  let s := ToLower (TrimSpace v) in
  if decide (s = "" \/ s = "parallel" \/ s = "serial") then Ok s else Err (ParseConcurrency v).

(** The [when:] block, in the order the code checks it: events, branches,
    status, paths. *)
Definition parse_when (name : string) (when : option WhenDef)
    : result parse_error (list string * list string * list string) :=
  match when with
  | None => Ok ([], [], [])
  | Some w =>
      _ ← map_err (ParseWhenEvent name) (validatePipelineEvents (W_Event w));
      _ ← check (bool_decide (W_Status w = [])) (ParseWhenStatus name);
      _ ← map_err (ParseWhenPaths name) (validateTriggerPaths ValidatePattern (W_Paths w));
      Ok (W_Event w, W_Branch w, W_Paths w)
  end.

Definition parse_notifications (l : option (list NotificationSpec))
    : result parse_error (option (list Notification)) :=
  match l with
  | None => Ok None
  | Some l =>
      ns ← map_res (fun '(i, n) => map_err ParseNotification (toNotification i n)) (imap pair l);
      Ok (Some ns)
  end.

(** The body of the [for name, jd := range resolved] loop. *)
Definition parse_job (f : File) (p : string * JobDef) : result parse_error Job :=
  let '(name, jd) := p in
  _ ← check (bool_decide (Stage jd ∈ F_Stages f)) (ParseUndeclaredStage name (Stage jd));
  map_err (ParseJobError name) (toJob name jd (F_Variables f)).

Definition ParseNamed (f : File) (projectID fallbackName : string) : result parse_error Pipeline :=
  let name := pipeline_name f fallbackName in
  _ ← check (negb (bool_decide (name = ""))) ParseNoName;
  _ ← check (negb (Contains name ":")) (ParseNameColon name);
  concurrency ← parse_concurrency (F_Concurrency f);
  supersede ← parse_supersede (F_Supersede f);
  _ ← check (negb (bool_decide (NotificationStageName ∈ F_Stages f)))
        (ParseReservedStage NotificationStageName);
  when ← parse_when name (F_When f);
  services ← map_res (fun s => map_err ParseService (toService IsQualifiedName IsValidLabelValue s))
               (F_Services f);
  notifications ← parse_notifications (F_Notifications f);
  materials ← map_res (fun m => map_err ParseMaterial (toMaterial m)) (F_Materials f);
  resolved ← map_err ParseExtends (resolveExtends (range_map (F_Jobs f)).*1 (F_Jobs f));
  jobs ← map_res (parse_job f) (range_map resolved);
  _ ← map_err ParseNeeds (validateNeeds jobs (F_Stages f));
  _ ← map_err ParseCycle (validateNoCycles jobs);
  Ok {| Pipeline_ID := ""; ProjectID := projectID; Pipeline_Name := name; Materials := materials;
        Stages := F_Stages f; Jobs := jobs; Pipeline_Variables := F_Variables f;
        Template := F_Template f; Concurrency := concurrency; Supersede := supersede;
        TriggerEvents := when.1.1; TriggerBranches := when.1.2; TriggerPaths := when.2;
        Services := services; Notifications := notifications |}.
End Parse.

(** ** What an accepted file is *)

Section Accepted.
Context `{MapRange, UnicodeCase}.
Context (IsQualifiedName IsValidLabelValue : string -> list string) (ValidatePattern : string -> bool).

Lemma toJob_name_stage name jd pv j :
  toJob name jd pv = Ok j -> Job_Name j = name /\ Job_Stage j = Stage jd /\
    (Job_Approval j <> None <-> Approval jd <> None).
Proof.
  intros Hj. apply toJob_inv in Hj as (? & ? & ? & ? & ? & ? & Hj). cbv zeta in Hj.
  destruct Hj as (_ & Hj). destruct (Approval jd).
  - destruct Hj as (? & -> & _). done.
  - destruct Hj as (? & ? & ? & ? & -> & _). done.
Qed.

Lemma parse_job_spec f name jd j :
  parse_job f (name, jd) = Ok j ->
  Job_Name j = name /\ Job_Stage j ∈ F_Stages f /\ toJob name jd (F_Variables f) = Ok j.
Proof.
  unfold parse_job, check. intros Hj. apply bind_Ok in Hj as (? & Hs & Hj).
  destruct (toJob name jd (F_Variables f)) as [j'|] eqn:Ht; [|done]. simpl in Hj. simplify_eq.
  destruct (toJob_name_stage _ _ _ _ Ht) as (? & Hst & _). rewrite Hst.
  split_and!; [done| |done]. by destruct (bool_decide_reflect (Stage jd ∈ F_Stages f)).
Qed.

Lemma ParseNamed_post (f : File) (projectID fallback : string) (p : Pipeline) :
  ParseNamed IsQualifiedName IsValidLabelValue ValidatePattern f projectID fallback = Ok p ->
  valid_pipeline p /\
  Pipeline_Name p <> "" /\ Contains (Pipeline_Name p) ":" = false /\
  NotificationStageName ∉ Stages p /\
  (forall j, j ∈ Jobs p <-> exists l jd,
     chain (F_Jobs f) (Job_Name j) l /\ flatten l jd = jd /\
     HasPrefix (Job_Name j) hiddenJobPrefix = false /\
     toJob (Job_Name j) jd (F_Variables f) = Ok j).
Proof.
  unfold ParseNamed. intros Hp.
  apply bind_Ok in Hp as ([] & Hname & Hp). apply bind_Ok in Hp as ([] & Hcolon & Hp).
  apply bind_Ok in Hp as (conc & _ & Hp). apply bind_Ok in Hp as (sup & _ & Hp).
  apply bind_Ok in Hp as ([] & Hres & Hp). apply bind_Ok in Hp as (when & _ & Hp).
  apply bind_Ok in Hp as (services & _ & Hp). apply bind_Ok in Hp as (nots & _ & Hp).
  apply bind_Ok in Hp as (mats & _ & Hp). apply bind_Ok in Hp as (resolved & Hext & Hp).
  apply bind_Ok in Hp as (jobs & Hjobs & Hp). apply bind_Ok in Hp as ([] & Hneeds & Hp).
  apply bind_Ok in Hp as ([] & Hcyc & Hp). injection Hp as <-. simpl.
  apply map_res_Forall2 in Hjobs.
  assert (Hnames : Job_Name <$> jobs = (range_map resolved).*1).
  { clear -Hjobs. induction Hjobs as [|[n jd] j l l' Hj _ IH]; [done|]. simpl.
    apply parse_job_spec in Hj as (-> & _). by f_equal. }
  assert (Hmem : forall j, j ∈ jobs <-> exists n jd, resolved !! n = Some jd /\ parse_job f (n, jd) = Ok j).
  { intros j. split.
    - intros Hj. apply (Forall2_member_r _ _ _ _ Hjobs) in Hj as ([n jd] & Hin & Hpj).
      apply elem_of_range_map in Hin. eauto.
    - intros (n & jd & Hn & Hpj). apply elem_of_range_map in Hn.
      apply (Forall2_member_l _ _ _ _ Hjobs) in Hn as (j' & Hin & Hj'). congruence. }
  split_and!.
  - split; simpl.
    + rewrite Hnames. apply NoDup_range_map.
    + apply Forall_forall. intros j (n & jd & _ & Hpj)%Hmem. by apply parse_job_spec in Hpj as (_ & ? & _).
    + by destruct (validateNeeds jobs (F_Stages f)) as [[]|].
    + by destruct (validateNoCycles jobs) as [[]|].
  - unfold check in Hname. by destruct (bool_decide_reflect (pipeline_name f fallback = "")).
  - unfold check in Hcolon. by destruct (Contains (pipeline_name f fallback) ":").
  - unfold check in Hres. by destruct (bool_decide_reflect (NotificationStageName ∈ F_Stages f)).
  - intros j. rewrite Hmem.
    destruct (resolveExtends _ _) as [out|] eqn:Hr; [|done]. simpl in Hext. simplify_eq.
    apply resolveExtends_Ok in Hr as [_ Hout].
    2: { intros n. rewrite list_elem_of_fmap. split.
         - intros ([k jd] & -> & Hin%elem_of_range_map). by exists jd.
         - intros [jd Hjd]. exists (n, jd). by rewrite elem_of_range_map. }
    split.
    + intros (n & jd & Hn & Hpj). apply Hout in Hn as (Hh & l & Hl & Hf).
      apply parse_job_spec in Hpj as (<- & _ & Ht). exists l, jd. done.
    + intros (l & jd & Hl & Hf & Hh & Ht). exists (Job_Name j), jd. split; [apply Hout; eauto|].
      assert (Hn : resolved !! Job_Name j = Some jd) by (apply Hout; eauto).
      apply elem_of_range_map, (Forall2_member_l _ _ _ _ Hjobs) in Hn as (j' & _ & Hj').
      pose proof (parse_job_spec _ _ _ _ Hj') as (_ & _ & Ht'). congruence.
Qed.

(** C11: Whatever the order Go ranges over its maps in, a file that parses gives a
    pipeline the scheduler can rely on: job names are distinct, every job's stage
    is declared, needs are resolvable and acyclic; no stage takes the reserved
    name and the name has no subject separator; and its jobs are exactly the
    non-template definitions with their chains flattened, each lowered by the
    job parser. *)
Theorem ParseNamed_valid (f : File) (projectID fallback : string) (p : Pipeline) :
  ParseNamed IsQualifiedName IsValidLabelValue ValidatePattern f projectID fallback = Ok p ->
  valid_pipeline p /\
  Pipeline_Name p <> "" /\ Contains (Pipeline_Name p) ":" = false /\
  NotificationStageName ∉ Stages p /\
  (forall j, j ∈ Jobs p <-> exists l jd,
     chain (F_Jobs f) (Job_Name j) l /\ flatten l jd = jd /\
     HasPrefix (Job_Name j) hiddenJobPrefix = false /\
     toJob (Job_Name j) jd (F_Variables f) = Ok j).
Proof. apply ParseNamed_post. Qed.
End Accepted.

(** ** Example *)

Definition with_extends (parent : string) (needs : list string) (jd : JobDef) : JobDef := {|
  Stage := Stage jd; Image := Image jd; Extends := parent; Needs := Some needs; Script := Script jd;
  Settings := Settings jd; Uses := Uses jd; With := With jd; Variables := Variables jd;
  Cache := Cache jd; JD_Artifacts := JD_Artifacts jd; NeedsArtifacts := NeedsArtifacts jd;
  TestReports := TestReports jd; CoverageReport := CoverageReport jd; JD_Parallel := JD_Parallel jd;
  Rules := Rules jd; JD_When := JD_When jd; JD_Timeout := JD_Timeout jd; Retry := Retry jd;
  Secrets := Secrets jd; Tags := Tags jd; Agent := Agent jd; JD_Resources := JD_Resources jd;
  Docker := Docker jd; Cluster := Cluster jd; Approval := Approval jd; Outputs := Outputs jd;
  IDTokens := IDTokens jd; Deploy := Deploy jd; Environment := Environment jd;
|}.

Definition example_file : File := {|
  F_Name := ""; F_Materials := [{| MS_Git := Some {| GS_URL := "git@github.com:acme/shop.git";
      GS_Branch := ""; GS_On := []; GS_AutoRegisterWebhook := true; GS_SecretRef := "";
      GS_PollInterval := "5m" |}; MS_Upstream := None; MS_Cron := None; MS_Manual := false |}];
  F_Stages := ["build"; "approve"; "deploy"]; F_Variables := {["REGION" := "eu"]};
  F_Template := "";
  F_Jobs := {[".go" := mk_jobdef "build" "golang" "" (Some ["go build"]) None None "" None ∅ None zero_node;
              "compile" := with_extends ".go" [] zero_jobdef;
              "gate" := gate_def;
              "prod" := with_extends "" ["gate"; "compile"] (deploy_def "v1")]};
  F_Concurrency := " Serial"; F_Supersede := "Branch"; F_When := None;
  F_Services := []; F_Notifications := None;
|}.

Definition parse_file (f : File) (fallback : string) : result parse_error Pipeline :=
  @ParseNamed library_range ascii_only_case (fun _ => []) (fun _ => []) (fun _ => true) f "" fallback.

Definition example_pipeline : Pipeline :=
  match parse_file example_file "ci" with Ok p => p | Err _ => zero_pipeline end.

Example example_parses :
  (Pipeline_Name example_pipeline, Concurrency example_pipeline, Supersede example_pipeline,
   sort_strings (Job_Name <$> Jobs example_pipeline), GateGraph.GovernedEnvs example_pipeline "gate")
  = ("ci", "serial", "branch", ["compile"; "gate"; "prod"], ["production"]).
Proof. vm_compute. reflexivity. Qed.
Example example_colon : parse_file example_file "a:b" = Err (ParseNameColon "a:b").
Proof. vm_compute. reflexivity. Qed.

Lemma ParseNamed_valid_witness :
  parse_file example_file "ci" = Ok example_pipeline /\ valid_pipeline example_pipeline.
Proof.
  assert (Hp : parse_file example_file "ci" = Ok example_pipeline) by (vm_compute; reflexivity).
  split; [exact Hp|].
  destruct (ParseNamed_valid (fun _ => []) (fun _ => []) (fun _ => true) example_file "" "ci" _ Hp)
    as [Hv _].
  exact Hv.
Defined.
