(* ===== verification/GoDuration.v ===== *)
(** Go's [time.Duration.String], and that [time.ParseDuration] reads it back. *)

From S2P Require Import Prelude GoStrings GoTime Domain.

(** [fmtFrac]: the last [prec] digits of [v] behind a point, without trailing zeros. *)
Fixpoint fmt_frac (prec : nat) (print : bool) (acc : string) (v : Z) : string * Z :=
  match prec with
  | 0 => (if print then String "." acc else acc, v)
  | S prec =>
      let d := (v mod 10)%Z in
      let print := print || negb (d =? 0)%Z in
      fmt_frac prec print (if print then String (digit d) acc else acc) (v / 10)%Z
  end.

(** From the back: the seconds with their fraction, the minutes, the hours. *)
Definition fmt_clock (u : Z) : string :=
  let '(frac, secs) := fmt_frac 9 false "s" u in
  let s := itoa (secs mod 60) +:+ frac in
  let mins := (secs / 60)%Z in
  if (0 <? mins)%Z then
    let s := itoa (mins mod 60) +:+ String "m" s in
    let hours := (mins / 60)%Z in
    if (0 <? hours)%Z then itoa hours +:+ String "h" s else s
  else s.
Definition fmt_small (u : Z) : string :=
  let '(prec, unit) := if (u <? 1000)%Z then (0, "ns") else if (u <? 1000000)%Z then (3, bytes [194; 181] +:+ "s") else (6, "ms") in
  let '(frac, v) := fmt_frac prec false unit u in itoa v +:+ frac.
Definition Duration_String (d : Duration) : string :=
  let u := Z.abs d in
  let s := if (u =? 0)%Z then "0s" else if (u <? Second)%Z then fmt_small u else fmt_clock u in
  if (d <? 0)%Z then String "-" s else s.

Example duration_strings :
  Duration_String <$> [0; 1; 1100; 2200000; 1000000000; 90 * Second; Hour; 90 * 24 * Hour; 3661500000000; -1500000000; Minute + 1]%Z
  = ["0s"; "1ns"; "1.1" +:+ bytes [194; 181] +:+ "s"; "2.2ms"; "1s"; "1m30s"; "1h0m0s"; "2160h0m0s"; "1h1m1.5s"; "-1.5s";
     "1m0.000000001s"].
Proof. vm_compute. reflexivity. Qed.

(** ** Reading it back *)

Lemma leadingInt_itoa_fuel f n acc m : 0 < f -> (0 <= n < 10 ^ Z.of_nat f)%Z -> (n <= 2 ^ 63)%Z ->
  leadingInt n acc = m -> leadingInt 0 (itoa_fuel f n acc) = m.
Proof.
  revert n acc. induction f as [|f IH]; intros n acc Hf Hn Hmax Hm; [lia|]. cbn [itoa_fuel].
  destruct (digit_value (n mod 10)) as (Hd & Hv & _); [apply Z.mod_pos_bound; lia|].
  pose proof (Z.div_mod n 10). pose proof (Z.mod_pos_bound n 10).
  assert (Hstep : forall x, (x = n / 10)%Z -> leadingInt x (String (digit (n mod 10)) acc) = m).
  { intros x ->. cbn [leadingInt]. rewrite Hd. unfold digit_of. rewrite Hv.
    assert (n / 10 <= 2 ^ 63 / 10)%Z by (apply Z.div_le_mono; lia).
    destruct (Z.ltb_spec (2 ^ 63 / 10) (n / 10)); [lia|]. replace (n / 10 * 10 + n mod 10)%Z with n by lia.
    by destruct (Z.ltb_spec (2 ^ 63) n); [lia|]. }
  destruct (Z.ltb_spec n 10) as [Hlt|Hge]; [apply Hstep; by rewrite Z.div_small by lia|].
  apply IH; [| | |by apply Hstep].
  - destruct f; [|lia]. change (10 ^ Z.of_nat 1)%Z with 10%Z in Hn. lia.
  - rewrite Nat2Z.inj_succ, Z.pow_succ_r in Hn by lia. split; [apply Z.div_pos; lia|apply Z.div_lt_upper_bound; lia].
  - apply Z.div_le_upper_bound; lia.
Qed.
Lemma itoa_fuel_app f n acc rest : itoa_fuel f n acc +:+ rest = itoa_fuel f n (acc +:+ rest).
Proof.
  revert n acc. induction f as [|f IH]; intros n acc; [done|]. cbn [itoa_fuel]. destruct (n <? 10)%Z; [done|].
  by rewrite IH.
Qed.
Lemma leadingInt_itoa n c rest : (0 <= n <= 2 ^ 63)%Z -> is_digit c = false ->
  leadingInt 0 (itoa n +:+ String c rest) = Some (n, String c rest).
Proof.
  intros Hn Hc. unfold itoa. rewrite itoa_fuel_app, app_nil_s. apply leadingInt_itoa_fuel; [lia| |lia|].
  - assert (2 ^ 63 < 10 ^ Z.of_nat 64)%Z by (vm_compute; done). lia.
  - cbn [leadingInt]. by rewrite Hc.
Qed.

(** One unit of a whole number. *)
Lemma itoa_slen n : 0 < slen (itoa n).
Proof. destruct (itoa_head 64 n "" ltac:(lia)) as (d & t & _ & E). unfold itoa. rewrite E. simpl. lia. Qed.
(** What may follow a unit: nothing, or the digits of the next one. *)
Definition stops (s : string) : Prop := match s with String c _ => unit_stop c = true | "" => True end.
Lemma itoa_stops n s : stops (itoa n +:+ s).
Proof.
  destruct (itoa_head 64 n "" ltac:(lia)) as (d & t & Hd & E). unfold itoa. rewrite E, app_cons_s. simpl.
  destruct (digit_value d Hd) as (H & _). unfold unit_stop. by rewrite H, orb_true_r.
Qed.
Lemma take_unit_stops u rest : unit_stop u = false -> stops rest -> take_unit (String u rest) = (String u "", rest).
Proof. intros Hu Hr. cbn [take_unit]. rewrite Hu. destruct rest as [|c rest]; [done|]. cbn [take_unit]. simpl in Hr. by rewrite Hr. Qed.

Lemma duration_chunk_itoa n u unit rest : unitMap !! String u "" = Some unit -> unit_stop u = false -> stops rest ->
  (0 <= n)%Z -> (0 < unit)%Z -> (n * unit <= 2 ^ 63)%Z ->
  duration_chunk (itoa n +:+ String u rest) = Ok ((n * unit)%Z, rest).
Proof.
  intros Hu Hs Hr Hn Hpos Hmax. assert (n <= 2 ^ 63)%Z by nia.
  assert (is_digit u = false /\ u <> "."%char) as [Hdig Hdot].
  { unfold unit_stop in Hs. apply orb_false_iff in Hs as [H1 H2]. apply bool_decide_eq_false in H1. done. }
  pose proof (leadingInt_itoa n u rest ltac:(lia) Hdig) as Hl. pose proof (itoa_stops n (String u rest)) as Hstop.
  pose proof (itoa_slen n). pose proof (slen_app (itoa n) (String u rest)) as Hlen.
  unfold duration_chunk. destruct (itoa n +:+ String u rest) as [|c s] eqn:E; [simpl in *; lia|]. simpl in Hstop. rewrite Hstop. cbn [negb].
  rewrite Hl. assert ((slen (String c s) =? slen (String u rest))%nat = false) as -> by (apply Nat.eqb_neq; lia). cbn [negb].
  assert (match String u rest with
          | String "." s1' => let '(f, scale, s2) := leadingFraction false 0 (f64_of_Z 1) s1' in (f, scale, s2, negb (slen s1' =? slen s2)%nat)
          | _ => (0%Z, f64_of_Z 1, String u rest, false)
          end = (0%Z, f64_of_Z 1, String u rest, false)) as ->.
  { clear -Hdot. destruct u as [[] [] [] [] [] [] [] []]; try done. }
  cbn [orb negb]. rewrite take_unit_stops by done. rewrite decide_False by done. rewrite Hu.
  pose proof (Z.div_le_lower_bound (2 ^ 63) unit n Hpos ltac:(lia)).
  destruct (Z.ltb_spec (2 ^ 63 / unit) n); [lia|]. done.
Qed.
Lemma duration_loop_itoa fuel d n u unit rest : unitMap !! String u "" = Some unit -> unit_stop u = false -> stops rest ->
  (0 <= n)%Z -> (0 < unit)%Z -> (0 <= d)%Z -> (d + n * unit <= 2 ^ 63)%Z -> slen (itoa n +:+ String u rest) <= fuel ->
  exists fuel', slen rest <= fuel' /\ duration_loop fuel d (itoa n +:+ String u rest) = duration_loop fuel' (d + n * unit)%Z rest.
Proof.
  intros Hu Hs Hr Hn Hpos Hd Hmax Hf. pose proof (itoa_slen n). rewrite slen_app in Hf. simpl in Hf.
  destruct fuel as [|fuel]; [lia|]. exists fuel. split; [lia|].
  pose proof (duration_chunk_itoa n u unit rest Hu Hs Hr Hn Hpos ltac:(lia)) as Hc.
  destruct (itoa n +:+ String u rest) as [|c s] eqn:E; [apply (f_equal slen) in E; rewrite slen_app in E; simpl in E; lia|].
  cbn [duration_loop]. rewrite Hc, Z.mod_small by (split; [lia|]; change (2 ^ 64)%Z with (2 * 2 ^ 63)%Z; lia).
  by destruct (Z.ltb_spec (2 ^ 63) (d + n * unit)); [lia|].
Qed.

Lemma whole_seconds secs : fmt_frac 9 false "s" (secs * Second)%Z = ("s", secs).
Proof.
  assert (Hstep : forall k v, fmt_frac (S k) false "s" (v * 10) = fmt_frac k false "s" v).
  { intros k v. cbn [fmt_frac]. by rewrite Z.mod_mul, Z.div_mul by lia. }
  replace (secs * Second)%Z with (secs * 10 * 10 * 10 * 10 * 10 * 10 * 10 * 10 * 10)%Z by (unfold Second; lia).
  by rewrite !Hstep.
Qed.
Lemma units : unitMap !! "s" = Some Second /\ unitMap !! "m" = Some Minute /\ unitMap !! "h" = Some Hour.
Proof. by vm_compute. Qed.

Lemma duration_loop_clock fuel secs : (0 <= secs)%Z -> (secs * Second <= 2 ^ 63 - 1)%Z ->
  slen (fmt_clock (secs * Second)) <= fuel -> duration_loop fuel 0 (fmt_clock (secs * Second)) = Ok (secs * Second)%Z.
Proof.
  intros Hs Hmax. unfold fmt_clock. rewrite whole_seconds. destruct units as (Us & Um & Uh).
  pose proof (Z.div_mod secs 60) as D1. pose proof (Z.mod_pos_bound secs 60) as B1.
  set (mins := (secs / 60)%Z) in *. pose proof (Z.div_mod mins 60) as D2. pose proof (Z.mod_pos_bound mins 60) as B2.
  assert (0 <= mins)%Z by (apply Z.div_pos; lia). assert (0 <= mins / 60)%Z by (apply Z.div_pos; lia).
  assert (Hsec : forall fuel d, (0 <= d)%Z -> (d + secs mod 60 * Second <= 2 ^ 63)%Z -> slen (itoa (secs mod 60) +:+ "s") <= fuel ->
    duration_loop fuel d (itoa (secs mod 60) +:+ "s") = Ok (d + secs mod 60 * Second)%Z).
  { intros f d Hd Hb Hf. destruct (duration_loop_itoa f d (secs mod 60) "s" Second "") as (f' & _ & ->); try done; try lia.
    by destruct f'. }
  destruct (Z.ltb_spec 0 mins) as [Hm|Hm].
  2: { intros Hf. rewrite Hsec; [|unfold Second in *; lia..|done]. f_equal. unfold Second in *. lia. }
  destruct (Z.ltb_spec 0 (mins / 60)) as [Hh|Hh]; intros Hf.
  - destruct (duration_loop_itoa fuel 0 (mins / 60) "h" Hour (itoa (mins mod 60) +:+ String "m" (itoa (secs mod 60) +:+ "s")))
      as (f1 & Hf1 & ->); [done|done|apply itoa_stops|unfold Hour, Minute, Second in *; lia..|done|].
    destruct (duration_loop_itoa f1 (0 + mins / 60 * Hour) (mins mod 60) "m" Minute (itoa (secs mod 60) +:+ "s"))
      as (f2 & Hf2 & ->); [done|done|apply itoa_stops|unfold Hour, Minute, Second in *; lia..|done|].
    rewrite Hsec; [|unfold Hour, Minute, Second in *; lia..|done]. f_equal. unfold Hour, Minute, Second in *. lia.
  - destruct (duration_loop_itoa fuel 0 (mins mod 60) "m" Minute (itoa (secs mod 60) +:+ "s"))
      as (f2 & Hf2 & ->); [done|done|apply itoa_stops|unfold Hour, Minute, Second in *; lia..|done|].
    rewrite Hsec; [|unfold Hour, Minute, Second in *; lia..|done]. f_equal. unfold Hour, Minute, Second in *. lia.
Qed.

Lemma fmt_clock_shape secs : (0 < secs)%Z -> exists n u rest, fmt_clock (secs * Second) = itoa n +:+ String u rest.
Proof.
  intros Hs. unfold fmt_clock. rewrite whole_seconds. destruct (0 <? secs / 60)%Z; [destruct (0 <? secs / 60 / 60)%Z|];
    by eexists _, _, _.
Qed.
Lemma ParseDuration_digit c t r : is_digit c = true -> String c t <> "0" -> (r <= 2 ^ 63 - 1)%Z ->
  duration_loop (slen (String c t)) 0 (String c t) = Ok r -> ParseDuration (String c t) = Ok r.
Proof.
  intros Hc Hz Hr H. unfold ParseDuration. assert ((2 ^ 63 - 1 <? r)%Z = false) as E by (apply Z.ltb_ge; lia).
  destruct c as [[] [] [] [] [] [] [] []]; try discriminate Hc; rewrite decide_False, H by done; by rewrite E.
Qed.
(** [ParseDuration] inverts [String] on whole seconds. *)
Lemma ParseDuration_String secs : (0 < secs)%Z -> (secs * Second <= 2 ^ 63 - 1)%Z ->
  ParseDuration (Duration_String (secs * Second)%Z) = Ok (secs * Second)%Z.
Proof.
  intros Hs Hmax. unfold Duration_String. rewrite Z.abs_eq by (unfold Second; lia).
  destruct (Z.eqb_spec (secs * Second) 0); [unfold Second in *; lia|].
  destruct (Z.ltb_spec (secs * Second) Second); [unfold Second in *; lia|].
  destruct (Z.ltb_spec (secs * Second) 0); [unfold Second in *; lia|].
  pose proof (duration_loop_clock _ secs ltac:(lia) Hmax (le_n _)) as Hl.
  destruct (fmt_clock_shape secs Hs) as (k & u & rest & E). rewrite E in *. pose proof (itoa_slen k) as Hk.
  destruct (itoa_head 64 k "" ltac:(lia)) as (d & t & Hd & Ei). fold (itoa k) in Ei. rewrite Ei, app_cons_s in *.
  apply ParseDuration_digit; [apply (digit_value d Hd)| |done|done].
  intros [= _ E']. apply (f_equal slen) in E'. rewrite slen_app in E'. simpl in E'. lia.
Qed.
