(* ===== verification/Emit.v ===== *)
(** [server/pkg/parser/emit.go]: a stored pipeline becomes a file again.  The YAML
    encoder is third-party code: the model ends at the fields of the document
    ([File], read back with [omitempty]) and the order of its jobs. *)

From S2P Require Import Prelude GoStrings GoTime GoDuration Domain NeedsGraph Schema ParseHelpers ParseJob.

(** [omitempty]: an empty list, map or struct pointer has no key. *)
Definition omit_list {A} (l : list A) : option (list A) := match l with [] => None | _ => Some l end.
Definition omit_map {A} (m : gmap string A) : option (gmap string A) := if decide (size m = 0) then None else Some m.

Definition toTolerationSpec (t : Toleration) : TolerationSpec :=
  {| TS_Key := Tol_Key t; TS_Operator := Tol_Operator t; TS_Value := Tol_Value t; TS_Effect := Tol_Effect t;
     TS_Seconds := TolerationSeconds t |}.
Definition toTolerationSpecs (l : list Toleration) : list TolerationSpec := toTolerationSpec <$> l.

Definition no_material : MaterialSpec := {| MS_Git := None; MS_Upstream := None; MS_Cron := None; MS_Manual := false |}.
Definition materialToSpec (m : Material) : MaterialSpec :=
  match Material_Type m with
  | MaterialGit =>
      match Material_Git m with
      | None => no_material
      | Some g => {| MS_Git := Some {| GS_URL := Git_URL g; GS_Branch := Git_Branch g; GS_On := Git_Events g;
                                       GS_AutoRegisterWebhook := Git_AutoRegisterWebhook g; GS_SecretRef := Git_SecretRef g;
                                       GS_PollInterval := "" |};
                     MS_Upstream := None; MS_Cron := None; MS_Manual := false |}
      end
  | MaterialUpstream =>
      match Material_Upstream m with
      | None => no_material
      | Some u => {| MS_Git := None; MS_Upstream := Some {| US_Pipeline := Upstream_Pipeline u; US_Stage := Upstream_Stage u;
                                                            US_Status := Upstream_Status u |};
                     MS_Cron := None; MS_Manual := false |}
      end
  | MaterialCron =>
      match Material_Cron m with
      | None => no_material
      | Some c => {| MS_Git := None; MS_Upstream := None; MS_Cron := Some {| CS_Expression := Cron_Expression c |}; MS_Manual := false |}
      end
  | MaterialManual => {| MS_Git := None; MS_Upstream := None; MS_Cron := None; MS_Manual := true |}
  end.

Definition emitApprovalTimeout (d : Duration) : string :=
  if (d =? ApprovalTimeoutNever)%Z then approvalTimeoutNeverLiteral
  else if (0 <? d)%Z then Duration_String d
  else "".

Definition set_e : string := "set -e" +:+ newline_byte.
Definition splitScriptLines (s : string) : list string :=
  let trimmed := TrimPrefix s set_e in
  if decide (trimmed = "") then [] else SplitByte trimmed (Ascii.ascii_of_nat 10).

(** What the loop over the tasks leaves in the definition. *)
Record body := { b_image : string; b_script : list string; b_settings : gmap string string; b_uses : string;
                 b_with : gmap string string }.
Definition emit_task (b : body) (t : Task) : body :=
  let script := if decide (Task_Script t = "") then b_script b else b_script b ++ splitScriptLines (Task_Script t) in
  match Task_Plugin t with
  | None => {| b_image := b_image b; b_script := script; b_settings := b_settings b; b_uses := b_uses b; b_with := b_with b |}
  | Some p => {| b_image := ""; b_script := []; b_settings := ∅; b_uses := Plugin_Image p;
                 b_with := if decide (size (Plugin_Settings p) = 0) then b_with b else Plugin_Settings p |}
  end.
Definition emit_tasks (j : Job) : body :=
  foldl emit_task {| b_image := Job_Image j; b_script := []; b_settings := Job_Settings j; b_uses := ""; b_with := ∅ |} (Job_Tasks j).

Definition emit_deploy (d : DeploySpec) : DeployDef := {|
  DD_Environment := Deploy_Environment d; DD_Version := Deploy_Version d; DD_Revision := Deploy_Revision d;
  DD_Target := (fun t => {| TD_Cluster := Target_Cluster t; TD_Application := Target_Application t;
                            TD_Namespace := Target_Namespace t; TD_SyncMode := Target_SyncMode t |}) <$> Deploy_Target d |}.
Definition emit_quantities (q : ResourceQuantities) : option ResourceQty :=
  if bool_decide (RQ_CPU q = "" /\ RQ_Memory q = "") then None else Some {| Qty_CPU := RQ_CPU q; Qty_Memory := RQ_Memory q |}.
Definition emit_resources (r : ResourceSpec) : option ResourcesDef :=
  if IsZero r then None
  else Some {| Res_Requests := emit_quantities (Requests r); Res_Limits := emit_quantities (Limits r) |}.
Definition emit_artifacts (j : Job) : option Artifacts :=
  match Job_ArtifactPaths j, Job_OptionalArtifactPaths j with
  | [], [] => None
  | paths, optional => Some {| Art_Paths := paths; Art_Optional := optional; Art_ExpireIn := ""; Art_When := Job_ArtifactsWhen j |}
  end.
Definition emit_approval (a : ApprovalSpec) : ApprovalDef := {|
  AD_Approvers := Approvers a; AD_ApproverGroups := ApproverGroups a; AD_Required := Required a;
  AD_QuorumByLabel := QuorumByLabel a; AD_Description := Description a |}.
Definition emit_environment (env : string) : Node :=
  if decide (env = "") then zero_node else mkNode ScalarNode "!!str" env 0 [] None.

Definition jobToDef (j : Job) : JobDef :=
  let b := emit_tasks j in {|
  Stage := Job_Stage j; Image := b_image b; Extends := ""; Needs := omit_list (Job_Needs j);
  Script := omit_list (b_script b); Settings := omit_map (b_settings b); Uses := b_uses b; With := omit_map (b_with b);
  Variables := omit_map (Job_Variables j);
  Cache := omit_list ((fun c => {| YC_Key := Cache_Key c; YC_Paths := Cache_Paths c |}) <$> Job_Cache j);
  JD_Artifacts := emit_artifacts j;
  NeedsArtifacts := omit_list ((fun d => {| NA_FromJob := Dep_FromJob d; NA_FromPipeline := Dep_FromPipeline d;
                                            NA_Paths := Dep_Paths d; NA_Dest := Dep_Dest d |}) <$> Job_ArtifactDeps j);
  TestReports := None; CoverageReport := None;
  JD_Parallel := if decide (size (Job_Matrix j) = 0) then None else Some {| P_Matrix := [Job_Matrix j]; P_Count := 0 |};
  Rules := omit_list ((fun r => {| RD_If := Rule_IfExpr r; RD_Changes := Rule_Changes r; RD_Exists := []; RD_When := Rule_When r |})
                        <$> Job_Rules j);
  JD_When := None;
  JD_Timeout := match Job_Approval j with Some a => emitApprovalTimeout (Timeout a) | None => "" end;
  Retry := 0; Secrets := omit_list (Job_Secrets j); Tags := omit_list (Job_Tags j);
  Agent := if decide (Job_Profile j = "") then None else Some {| Agent_Profile := Job_Profile j; Agent_Tags := [] |};
  JD_Resources := emit_resources (Job_Resources j); Docker := Job_Docker j; Cluster := Job_Cluster j;
  Approval := emit_approval <$> Job_Approval j; Outputs := ∅; IDTokens := ∅; Deploy := emit_deploy <$> Job_Deploy j;
  Environment := emit_environment (Job_Environment j);
|}.

Definition emit_when (p : Pipeline) : option WhenDef :=
  match TriggerEvents p, TriggerBranches p, TriggerPaths p with
  | [], [], [] => None
  | ev, br, pa => Some {| W_Status := []; W_Branch := br; W_Event := ev; W_Paths := pa |}
  end.
Definition emit_service (s : Service) : ServiceSpec := {|
  SS_Name := Service_Name s; SS_Image := Service_Image s; SS_Env := Service_Env s; SS_Command := Service_Command s;
  SS_NodeSelector := Service_NodeSelector s; SS_Tolerations := toTolerationSpecs (Service_Tolerations s) |}.

(** The document of [buildRootNode]: neither [template] nor [notifications] is a key
    of it. *)
Definition emit_file (p : Pipeline) : File := {|
  F_Name := Pipeline_Name p;
  F_Materials := materialToSpec <$> filter (fun m => Implicit m = false) (Materials p);
  F_Stages := Stages p; F_Variables := Pipeline_Variables p; F_Template := "";
  F_Jobs := index_by Job_Name jobToDef (Jobs p);
  F_Concurrency := Concurrency p; F_Supersede := Supersede p; F_When := emit_when p;
  F_Services := emit_service <$> Services p; F_Notifications := None;
|}.

(** [orderedJobsNode]: by declared stage, then by name; unknown stages last. *)
Definition job_rank (p : Pipeline) (jobs : gmap string JobDef) (name : string) : bool * nat :=
  let stageOrder := foldl (fun m '(i, s) => <[s := i]> m) ∅ (imap pair (Stages p)) : gmap string nat in
  match stageOrder !! default "" (Stage <$> jobs !! name) with
  | Some o => (true, o)
  | None => (false, 0)
  end.
Definition job_less (p : Pipeline) (jobs : gmap string JobDef) (a b : string) : bool :=
  let '(oka, oa) := job_rank p jobs a in let '(okb, ob) := job_rank p jobs b in
  if negb (Bool.eqb oka okb) then oka
  else if negb (oa =? ob)%nat then (oa <? ob)%nat
  else String.ltb a b.
Definition emit_order `{MapRange} (p : Pipeline) : list string :=
  let jobs := F_Jobs (emit_file p) in stable_sort (job_less p jobs) (range_map jobs).*1.
