(* ===== verification/EmitProps.v ===== *)
(** [ParseNamed] reads back what [Emit] wrote, up to the fields it does not write. *)

From S2P Require Import Prelude GoStrings GoRegexp GoTime GoDuration Domain NeedsGraph CycleCheck ValidateNeeds CacheKey.
From S2P Require Import Schema Extends ParseHelpers ParseJob Parse Emit.

(** ** Normal forms *)

Lemma strip_one_prefix encs s t : strip_one encs (s +:+ t) = None -> strip_one encs s = None.
Proof.
  rewrite !strip_one_None. intros H. eapply Forall_impl; [exact H|]. intros p Hp. destruct (HasPrefix s p) eqn:E; [|done].
  apply HasPrefix_spec in E as [u ->]. by rewrite app_assoc_s, HasPrefix_app in Hp.
Qed.
Lemma strip_all_suffix n encs s : exists t, s = t +:+ strip_all n encs s.
Proof.
  revert s. induction n as [|n IH]; intros s; cbn [strip_all]; [by exists ""|].
  destruct (strip_one encs s) as [s'|] eqn:E; [|by exists ""]. destruct (IH s') as [t Ht]. unfold strip_one in E.
  apply bind_Some in E as ([i p] & _ & [= <-]). exists (stake (slen p) s +:+ t). by rewrite app_assoc_s, <- Ht, stake_sdrop.
Qed.
Lemma strip_all_done n encs s : Forall (fun p => 0 < slen p) encs -> slen s <= n -> strip_one encs (strip_all n encs s) = None.
Proof.
  intros Hp. revert s. induction n as [|n IH]; intros s Hs; cbn [strip_all].
  - destruct s; [|simpl in Hs; lia]. apply strip_one_None. eapply Forall_impl; [exact Hp|]. by intros [|] ?; [simpl in *; lia|].
  - destruct (strip_one encs s) as [s'|] eqn:E; [|done]. apply IH. pose proof (strip_one_slen _ _ _ Hp E). lia.
Qed.
Lemma TrimSpace_idem s : TrimSpace (TrimSpace s) = TrimSpace s.
Proof.
  unfold TrimSpace at 2 3. unfold TrimRightSpace. set (u := TrimLeftSpace s). set (v := strip_all (slen u) _ _).
  apply TrimSpace_fix; [|rewrite rev_rev_s; apply strip_all_done; [apply rev_encodings_pos|by rewrite slen_rev]].
  destruct (strip_all_suffix (slen u) (String.rev <$> space_encodings) (String.rev u)) as [t Ht]. fold v in Ht.
  apply (strip_one_prefix _ _ (String.rev t)). rewrite <- rev_app_s, <- Ht, rev_rev_s.
  apply strip_all_done; [apply space_encodings_pos|done].
Qed.

Lemma SplitByte_cons s c : SplitByte s c <> [].
Proof. destruct s as [|b s]; [done|]. cbn [SplitByte]. case_decide; [done|]. by destruct (SplitByte s c). Qed.
Lemma Join_SplitByte s c : Join (SplitByte s c) (String c "") = s.
Proof.
  induction s as [|b s IH]; [done|]. cbn [SplitByte]. pose proof (SplitByte_cons s c) as Hn.
  destruct (SplitByte s c) as [|w ws]; [done|]. destruct (decide (b = c)) as [->|Hne].
  - change (Join ("" :: w :: ws) (String c "")) with (String c (Join (w :: ws) (String c ""))). by rewrite IH.
  - rewrite <- IH. by destruct ws.
Qed.

Lemma map_bytes_id f s : all_bytes (fun c => bool_decide (f c = c)) s = true -> map_bytes f s = s.
Proof.
  induction s as [|c s IH]; simpl; [done|]. rewrite andb_true_iff, bool_decide_eq_true. intros [-> Hs]. by rewrite IH.
Qed.
Definition label_byte (c : Ascii.ascii) : bool := is_lower c || is_digit c || one_of "._/-" c.
Lemma label_bytes s : full_match approvalLabelRE s = true -> s <> "" /\ all_bytes label_byte s = true.
Proof.
  rewrite full_match_spec. unfold approvalLabelRE, One, Star. inversion 1 as [| |? ? ? s1 ? Ha Hb| | | |]; subst.
  inversion Ha as [|? ? ? ? n1 ? ? Hlo Hhi H1| | | | |]; subst. inversion Hb as [|? ? ? ? n2 ? ? _ _ H2| | | | |]; subst.
  apply in_class_ascii in H1 as (t1 & -> & Hn & H1); [|done]. apply in_class_ascii in H2 as (t2 & -> & _ & H2); [|done].
  split; [destruct t1; [unfold slen in Hn; simpl in Hn; lia|done]|].
  rewrite !all_bytes_app. simpl. rewrite andb_true_r. apply andb_true_iff. split; [|exact H2].
  eapply all_bytes_impl; [|exact H1]. intros c Hc. unfold label_byte. simpl in Hc. by rewrite Hc.
Qed.

Section Gates.
Context `{MapRange, UnicodeCase}.

Lemma label_lower s : full_match approvalLabelRE s = true -> ToLower s = s.
Proof.
  intros [_ Hb]%label_bytes. unfold ToLower.
  assert (is_ascii s = true) as ->.
  { eapply all_bytes_impl; [|exact Hb]. intros [[] [] [] [] [] [] [] []]; by vm_compute. }
  apply map_bytes_id. eapply all_bytes_impl; [|exact Hb]. intros [[] [] [] [] [] [] [] []]; by vm_compute.
Qed.

(** A quorum map that the parser made is read back as it is. *)
Lemma quorum_again n (l : list (string * Z)) q0 :
  NoDup l.*1 -> (forall k v, (k, v) ∈ l -> q0 !! k = None) ->
  (forall k v, (k, v) ∈ l -> full_match approvalLabelRE k = true /\ (1 <= v)%Z /\ (0 < n -> (v <= Z.of_nat n)%Z)) ->
  fold_all (quorum_step n) q0 l = Ok (list_to_map l ∪ q0).
Proof.
  revert q0. induction l as [|[k v] l IH]; intros q0 Hnd Hq Hok; [simpl; by rewrite (left_id_L ∅ (∪))|].
  apply NoDup_cons in Hnd as [Hni Hnd]. cbn [fold_all]. unfold quorum_step at 1.
  destruct (Hok k v) as (Hre & Hv & Hn); [set_solver|]. rewrite label_lower, Hre by done. destruct (label_bytes k Hre) as [Hne _].
  rewrite decide_False by done. cbn [negb]. destruct (Z.ltb_spec v 1); [lia|].
  assert (((0 <? n)%nat && (Z.of_nat n <? v)%Z) = false) as ->.
  { destruct (Nat.ltb_spec 0 n); [|done]. specialize (Hn ltac:(lia)). simpl. apply Z.ltb_ge. lia. }
  assert (has_key q0 k = false) as -> by (apply has_key_false, (Hq k v); set_solver).
  rewrite IH; [|done| |].
  - f_equal. simpl. rewrite <- insert_union_l, insert_union_r; [done|]. by apply not_elem_of_list_to_map_1.
  - intros k' v' Hin. rewrite lookup_insert_ne; [apply (Hq k' v'); set_solver|]. intros ->. apply Hni.
    apply list_elem_of_fmap. by exists (k', v').
  - intros k' v' Hin. apply Hok. set_solver.
Qed.
Lemma quorum_size n l q q' : fold_all (quorum_step n) q l = Ok q' -> size q' <= size q + length l.
Proof.
  revert q. induction l as [|[k v] l IH]; intros q; cbn [fold_all length]; [intros [= ->]; lia|].
  destruct (quorum_step n q (k, v)) as [q1|] eqn:E; [|done]. intros Hq%IH. unfold quorum_step in E. inv_ok.
  rewrite map_size_insert in Hq. destruct (q !! ToLower k); simpl in Hq; lia.
Qed.
End Gates.

(** ** Jobs *)

(** What the file of a job keeps: not its report, token and output declarations, nor
    the condition of artifacts that are not there; a plugin is written as [uses] and
    [with] alone. *)
Definition has_plugin (j : Job) : bool := existsb (fun t => if Task_Plugin t then true else false) (Job_Tasks j).
Definition kept_job (j : Job) : Job := {|
  Job_Name := Job_Name j; Job_Stage := Job_Stage j; Job_Image := if has_plugin j then "" else Job_Image j;
  Job_Profile := Job_Profile j; Job_Cluster := Job_Cluster j; Job_Resources := Job_Resources j;
  Job_Needs := Job_Needs j; Job_Tasks := Job_Tasks j; Job_Settings := if has_plugin j then ∅ else Job_Settings j;
  Job_Variables := Job_Variables j; Job_Matrix := Job_Matrix j; Job_Rules := Job_Rules j;
  Job_Secrets := Job_Secrets j; Job_Tags := Job_Tags j; Job_ArtifactPaths := Job_ArtifactPaths j;
  Job_OptionalArtifactPaths := Job_OptionalArtifactPaths j;
  Job_ArtifactsWhen := match Job_ArtifactPaths j, Job_OptionalArtifactPaths j with [], [] => "" | _, _ => Job_ArtifactsWhen j end;
  Job_ArtifactDeps := Job_ArtifactDeps j; Job_Docker := Job_Docker j; Job_Cache := Job_Cache j; Job_Approval := Job_Approval j;
  Job_CoverageReport := None; Job_TestReports := []; Job_Outputs := ∅; Job_OutputMasks := ∅; Job_IDTokens := ∅;
  Job_Deploy := Job_Deploy j; Job_Environment := Job_Environment j;
|}.

(** Jobs the file can say: a script that is not empty, a plugin image that [uses]
    resolves to itself, no kubeconfig setting beside a cluster, a gate whose window is
    a whole number of seconds. *)
Definition plain_task (cluster : string) (t : Task) : Prop :=
  match Task_Plugin t with
  | None => Task_Script t <> set_e
  | Some p => ResolvePluginRef (Plugin_Image p) = Ok (Plugin_Image p) /\
              (cluster = "" \/ default "" (Plugin_Settings p !! "kubeconfig") = "")
  end.
Definition plain_job (j : Job) : Prop :=
  Forall (plain_task (Job_Cluster j)) (Job_Tasks j) /\
  (forall a, Job_Approval j = Some a -> (Timeout a mod Second = 0)%Z).
Lemma default_omit_list {A} (l : list A) : default [] (omit_list l) = l.
Proof. by destruct l. Qed.
Lemma default_omit_map {A} (m : gmap string A) : default ∅ (omit_map m) = m.
Proof. unfold omit_map. case_decide as E; [by apply map_size_empty_inv in E as ->|done]. Qed.
#[local] Hint Rewrite @default_omit_list @default_omit_map : emit.

Lemma set_e_text x : TrimPrefix (set_e +:+ x) set_e = x.
Proof. unfold TrimPrefix. by rewrite (proj2 (CutPrefix_spec _ _ _) eq_refl). Qed.

Lemma script_again lines : Join lines newline_byte <> "" ->
  exists lines', splitScriptLines (set_e +:+ Join lines newline_byte) = lines' /\ lines' <> [] /\ Join lines' newline_byte = Join lines newline_byte.
Proof.
  intros Hne. unfold splitScriptLines. rewrite set_e_text, decide_False by done. eexists. split; [done|].
  split; [apply SplitByte_cons|apply Join_SplitByte].
Qed.
Lemma job_tasks_shape jd tasks : job_tasks jd = Ok tasks ->
  (tasks = [] /\ (Settings jd = None \/ Image jd = "")) \/
  (exists lines, tasks = [{| Task_Script := set_e +:+ Join lines newline_byte; Task_Plugin := None |}]) \/
  (exists image settings, tasks = [{| Task_Script := ""; Task_Plugin := Some {| Plugin_Image := image; Plugin_Settings := settings |} |}]).
Proof.
  unfold job_tasks. intros Ht. destruct (bool_decide (Uses jd = "")); cbn [negb] in Ht.
  - destruct (default [] (Script jd)) as [|l ls].
    + destruct (Settings jd) as [st|]; [|injection Ht as <-; left; auto].
      case_decide; injection Ht as <-; [left; auto|]. right. right. eauto.
    + injection Ht as <-. right. left. exists (l :: ls). unfold set_e. by rewrite app_assoc_s.
  - destruct (default [] (Script jd)); [|done]. inv_ok. right. right. eauto.
Qed.
Lemma stable_image image : ResolvePluginRef image = Ok image -> image <> "".
Proof. intros H ->. discriminate H. Qed.
Lemma set_e_not_empty x : set_e +:+ x <> "".
Proof. done. Qed.

Lemma tasks_again jd tasks j : job_tasks jd = Ok tasks -> Job_Tasks j = tasks -> Job_Image j = Image jd ->
  Job_Settings j = default ∅ (Settings jd) -> Forall (plain_task (Job_Cluster j)) tasks ->
  job_tasks (jobToDef j) = Ok tasks /\
  (has_plugin j = false -> Image (jobToDef j) = Job_Image j /\ default ∅ (Settings (jobToDef j)) = Job_Settings j /\ Uses (jobToDef j) = "" /\ With (jobToDef j) = None) /\
  (has_plugin j = true -> Image (jobToDef j) = "" /\ Settings (jobToDef j) = None /\
     exists p, tasks = [{| Task_Script := ""; Task_Plugin := Some p |}] /\ default ∅ (With (jobToDef j)) = Plugin_Settings p).
Proof.
  intros Ht Hj Hi Hs Hp. pose proof (job_tasks_shape jd tasks Ht) as Hshape. unfold has_plugin, jobToDef, job_tasks, emit_tasks.
  cbn [Uses Script Image Settings With]. rewrite Hj.
  destruct Hshape as [[-> Hset]|[(lines & ->)|(image & settings & ->)]]; cbn [foldl existsb orb emit_task Task_Plugin Task_Script b_image b_script b_settings b_uses b_with] in *.
  - split; [|split; [|done]].
    + cbn [default omit_list]. rewrite Hs, Hi, bool_decide_eq_true_2 by done. cbn [negb]. destruct Hset as [-> | ->]; [done|]. by destruct (omit_map _).
    + intros _. autorewrite with emit. done.
  - apply Forall_inv in Hp. simpl in Hp. unfold plain_task in Hp. simpl in Hp.
    assert (Join lines newline_byte <> "") as Hne by (intros E; rewrite E in Hp; by rewrite app_nil_r_s in Hp).
    destruct (script_again lines Hne) as (lines' & El & Hl & Ej). rewrite decide_False by apply set_e_not_empty.
    rewrite El. cbn [app]. destruct lines' as [|l' ls']; [done|]. split; [|split; [|done]].
    + cbn [omit_list default id]. rewrite bool_decide_eq_true_2 by done. cbn [negb id]. rewrite Ej. unfold set_e. by rewrite app_assoc_s.
    + intros _. autorewrite with emit. done.
  - apply Forall_inv in Hp. destruct Hp as [Hr _]. cbn [Plugin_Image Plugin_Settings] in *. split; [|split; [done|]].
    + rewrite bool_decide_eq_false_2 by by apply stable_image. cbn [negb omit_list default]. rewrite bool_decide_eq_true_2 by done.
      cbn [negb]. rewrite Hr. cbn. autorewrite with emit. case_decide as E; [|done]. by apply map_size_empty_inv in E as ->.
    + intros _. split_and!; [done|done|]. eexists. split; [done|]. autorewrite with emit. cbn [Plugin_Settings].
      case_decide as E; [|done]. by apply map_size_empty_inv in E as ->.
Qed.

Notation canon := canonicalArtifactPath.
Lemma dedup_paths_out skip seen l :
  NoDup (canon <$> dedup_paths skip seen l) /\
  forall c, c ∈ canon <$> dedup_paths skip seen l <-> c ∈ canon <$> l /\ c ∉ skip /\ c ∉ seen.
Proof.
  revert seen. induction l as [|p l IH]; intros seen; [split; [constructor|set_solver]|]. cbn [dedup_paths]. cbv zeta.
  case_decide as Hd.
  - destruct (IH seen) as [Hn He]. split; [done|]. intros c. rewrite He. set_solver.
  - destruct (IH ({[canon p]} ∪ seen)) as [Hn He]. rewrite fmap_cons. split.
    + apply NoDup_cons. split; [|done]. rewrite He. set_solver.
    + intros c. rewrite elem_of_cons, He. destruct (decide (c = canon p)) as [->|]; set_solver.
Qed.
Lemma dedup_paths_fix skip seen l : NoDup (canon <$> l) -> (forall c, c ∈ canon <$> l -> c ∉ skip /\ c ∉ seen) -> dedup_paths skip seen l = l.
Proof.
  revert seen. induction l as [|p l IH]; intros seen Hn He; [done|]. rewrite fmap_cons in Hn, He. apply NoDup_cons in Hn as [Hp Hn].
  cbn [dedup_paths]. cbv zeta. rewrite decide_False; [f_equal; apply IH; [done|]|].
  - intros c Hc. destruct (He c) as [H1 H2]; [set_solver|]. split; [done|]. set_solver.
  - destruct (He (canon p)) as [H1 H2]; set_solver.
Qed.
Lemma artifacts_again a :
  let a' := {| Art_Paths := artifact_paths a; Art_Optional := optional_artifact_paths a; Art_ExpireIn := ""; Art_When := Art_When a |} in
  artifact_paths a' = artifact_paths a /\ optional_artifact_paths a' = optional_artifact_paths a.
Proof.
  unfold artifact_paths, optional_artifact_paths. cbn [Art_Paths Art_Optional].
  destruct (dedup_paths_out ∅ ∅ (Art_Paths a)) as [H1 H2].
  destruct (dedup_paths_out (list_to_set (canon <$> Art_Paths a)) ∅ (Art_Optional a)) as [H3 H4]. split.
  - apply dedup_paths_fix; [done|]. set_solver.
  - apply dedup_paths_fix; [done|]. intros c [Hc [Hs _]]%H4. split; [|set_solver].
    rewrite elem_of_list_to_set, H2 in *. set_solver.
Qed.
Lemma artifacts_when_range jd w : artifacts_when jd = Ok w -> w = "" \/ w = "on_failure" \/ w = "always".
Proof. unfold artifacts_when. intros Hw. inv_ok; tauto. Qed.

Definition job_paths (jd : JobDef) : list string * list string :=
  match JD_Artifacts jd with Some a => (artifact_paths a, optional_artifact_paths a) | None => ([], []) end.
Lemma emit_artifacts_again jd w j : artifacts_when jd = Ok w -> Job_ArtifactsWhen j = w ->
  Job_ArtifactPaths j = (job_paths jd).1 -> Job_OptionalArtifactPaths j = (job_paths jd).2 ->
  artifacts_when (jobToDef j) = Ok (Job_ArtifactsWhen (kept_job j)) /\
  (job_paths (jobToDef j)) = (Job_ArtifactPaths j, Job_OptionalArtifactPaths j).
Proof.
  intros Hw Hj Hp Ho. pose proof (artifacts_when_range jd w Hw) as Hr. unfold artifacts_when, job_paths, kept_job, emit_artifacts, jobToDef in *.
  cbn [JD_Artifacts Job_ArtifactsWhen] in *. unfold emit_artifacts.
  assert (Hagain : forall ps os, ps = Job_ArtifactPaths j -> os = Job_OptionalArtifactPaths j ->
    let a := {| Art_Paths := ps; Art_Optional := os; Art_ExpireIn := ""; Art_When := w |} in
    artifact_paths a = ps /\ optional_artifact_paths a = os).
  { intros ps os -> ->. rewrite Hp, Ho. destruct (JD_Artifacts jd) as [a|]; [|done]. apply (artifacts_again a). }
  specialize (Hagain _ _ eq_refl eq_refl). cbn zeta in Hagain. rewrite Hj.
  assert (Hwhen : let t := TrimSpace w in (if decide (t = "" \/ t = "on_success") then Ok "" else if decide (t = "on_failure" \/ t = "always") then Ok t else Err (ArtifactsWhenInvalid w)) = Ok w).
  { destruct Hr as [-> |[-> | ->]]; by vm_compute. }
  destruct (Job_ArtifactPaths j) as [|p ps]; [destruct (Job_OptionalArtifactPaths j) as [|o os]; [done|]|];
    (split; [exact Hwhen|]); cbn [fst snd]; by destruct Hagain as [-> ->].
Qed.

Section Again.
Context `{MapRange, UnicodeCase}.

Notation flat_step := (fun (out : gmap string (list string)) '(k, vs) => <[k := default [] (out !! k) ++ vs]> out).
Lemma flatten_disjoint (l : list (string * list string)) (out : gmap string (list string)) : NoDup l.*1 -> (forall k vs, (k, vs) ∈ l -> out !! k = None) ->
  foldl flat_step out l = list_to_map l ∪ out.
Proof.
  revert out. induction l as [|[k vs] l IH]; intros out Hn Ho; [simpl; by rewrite (left_id_L ∅ (∪))|].
  apply NoDup_cons in Hn as [Hni Hn]. cbn [foldl]. rewrite (Ho k vs) by set_solver. cbn [default app]. rewrite IH; [|done|].
  - simpl. rewrite <- insert_union_l, insert_union_r; [done|]. by apply not_elem_of_list_to_map_1.
  - intros k' vs' Hin. rewrite lookup_insert_ne; [apply (Ho k' vs'); set_solver|]. intros ->. apply Hni.
    apply list_elem_of_fmap. by exists (k', vs').
Qed.
Lemma flattenMatrix_one (m : gmap string (list string)) : flattenMatrix [m] = m.
Proof.
  unfold flattenMatrix. cbn [foldl]. unfold flatten_entry. rewrite flatten_disjoint; [|apply NoDup_range_map|].
  - by rewrite range_map_list_to_map, (right_id_L ∅ (∪)).
  - intros k vs _. apply lookup_empty.
Qed.
Lemma flattenMatrix_keys entries k vs : flattenMatrix entries !! k = Some vs -> exists e, e ∈ entries /\ e !! k <> None.
Proof.
  unfold flattenMatrix. assert (forall out, (foldl flatten_entry out entries) !! k = Some vs ->
    out !! k <> None \/ exists e, e ∈ entries /\ e !! k <> None) as Hall.
  2: { intros Hk. destruct (Hall ∅ Hk) as [Hn|He]; [by rewrite lookup_empty in Hn|done]. }
  induction entries as [|e es IH]; intros out Hk; [left; simpl in Hk; congruence|]. cbn [foldl] in Hk.
  destruct (IH _ Hk) as [Hn|(e' & He' & Hk')]; [|right; exists e'; set_solver].
  assert (forall l out, foldl flat_step out l !! k <> None ->
    out !! k <> None \/ exists vs, (k, vs) ∈ l) as Hl.
  { clear. induction l as [|[k' vs'] l IH]; intros out Hn; [by left|]. cbn [foldl] in Hn. destruct (IH _ Hn) as [Hn'|[vs Hvs]].
    - destruct (decide (k = k')) as [->|Hne]; [right; exists vs'; set_solver|]. rewrite lookup_insert_ne in Hn' by done. by left.
    - right. exists vs. set_solver. }
  destruct (Hl _ _ Hn) as [Hn'|[vs' Hvs]]; [by left|]. right. exists e. split; [set_solver|]. apply elem_of_range_map in Hvs. by rewrite Hvs.
Qed.

Lemma matrix_again jd pv m j : job_matrix jd pv = Ok m -> Job_Matrix j = m ->
  Job_Variables j = default ∅ (Variables jd) -> Job_Secrets j = default [] (Secrets jd) -> job_matrix (jobToDef j) pv = Ok m.
Proof.
  intros Hm Hj Hv Hs. apply job_matrix_inv in Hm. unfold job_matrix, jobToDef. cbn [JD_Parallel Variables Secrets IDTokens]. rewrite Hj.
  case_decide as Hsz; [by apply map_size_empty_inv in Hsz as ->|]. cbn [P_Matrix].
  assert (m <> ∅) as Hne by (intros ->; by rewrite map_size_empty in Hsz). destruct Hm as [->|[Hd Hn]]; [done|].
  rewrite flattenMatrix_one. cbv zeta. change (imap pair [m]) with [(0, m)]. cbn [check_all]. rewrite !(decide_False (P := m = ∅)) by done.
  cbn [mbind result_bind].
  rewrite Hd. autorewrite with emit. rewrite Hv, Hs.
  assert (validateMatrixDimNames m pv (default ∅ (Variables jd)) (default [] (Secrets jd)) ∅ = Ok tt) as ->; [|done].
  revert Hn. unfold validateMatrixDimNames. rewrite !check_all_Ok, !Forall_forall. intros Hn [dim vs] Hin.
  specialize (Hn _ Hin). revert Hn. unfold check_dim_name. destruct (negb _); [done|]. destruct (_ || _); [done|].
  destruct (taken_names pv (default ∅ (Variables jd)) (default [] (Secrets jd)) (IDTokens jd) !! dim) eqn:E; [done|]. intros Hn.
  assert (taken_names pv (default ∅ (Variables jd)) (default [] (Secrets jd)) ∅ !! dim = None) as ->; [|done].
  unfold taken_names in *. rewrite lookup_union_None in E |- *. destruct E as [_ ?]. split; [|done]. by rewrite lookup_fmap, lookup_empty.
Qed.

Lemma deploy_again jd tasks d j : job_deploy jd tasks = Ok d -> Job_Deploy j = d -> job_deploy (jobToDef j) tasks = Ok d.
Proof.
  intros Hd Hj. unfold job_deploy in *. unfold jobToDef. cbn [Deploy]. rewrite Hj.
  destruct (Deploy jd) as [dd|]; [|by injection Hd as <-]. destruct tasks as [|t ts]; [done|].
  destruct (decide (TrimSpace (DD_Environment dd) = "")) as [|Hne]; [done|]. cbv zeta in Hd.
  destruct (negb (ValidEnvironmentName (TrimSpace (DD_Environment dd)))) eqn:Ev; [done|].
  apply bind_Ok in Hd as ([] & Hver & Hd). apply bind_Ok in Hd as ([] & Hrev & Hd). apply bind_Ok in Hd as (target & Ht & [= <-]).
  cbn [fmap option_fmap option_map emit_deploy DD_Environment DD_Version DD_Revision DD_Target Deploy_Environment Deploy_Version Deploy_Revision Deploy_Target].
  rewrite !TrimSpace_idem, decide_False, Ev by done. rewrite Hver, Hrev. cbn [mbind result_bind].
  destruct (DD_Target dd) as [td|]; [|by injection Ht as <-].
  destruct (parseDeployTarget td) as [t'|] eqn:Etd; [|done]. cbn in Ht. injection Ht as <-.
  assert (parseDeployTarget {| TD_Cluster := Target_Cluster t'; TD_Application := Target_Application t';
                               TD_Namespace := Target_Namespace t'; TD_SyncMode := Target_SyncMode t' |} = Ok t') as Hagain.
  { unfold parseDeployTarget in *. cbv zeta in *. inv_ok. cbn [TD_Cluster TD_Application TD_Namespace TD_SyncMode Target_Cluster
      Target_Application Target_Namespace Target_SyncMode]. rewrite !TrimSpace_idem.
    rewrite !decide_False by done. destruct_bools. by repeat match goal with E : _ = true |- _ => rewrite E | E : _ = false |- _ => rewrite E end. }
  cbn [fmap option_fmap option_map]. rewrite Hagain. done.
Qed.

Lemma environment_again jd tasks d e j : job_environment jd tasks d = Ok e -> Job_Environment j = e ->
  job_environment (jobToDef j) tasks d = Ok e.
Proof.
  intros He Hj. unfold jobToDef, job_environment in *. cbn [Environment]. rewrite Hj. unfold emit_environment.
  destruct (IsZeroNode (Environment jd)); [by injection He as <-|]. destruct tasks as [|t ts]; [done|]. cbv zeta in He.
  set (n := follow_alias 10 (Environment jd)) in *.
  destruct (decide (ShortTag n = "!!null")); [done|]. destruct (negb _); [done|].
  destruct (decide (TrimSpace (Value n) = "")) as [|Hne]; [done|]. destruct (negb (ValidEnvironmentName _)) eqn:Ev; [done|].
  assert (e = TrimSpace (Value n)) as ->.
  { destruct d as [d|]; [|by injection He as <-]. case_decide; [by injection He as <-|done]. }
  rewrite decide_False by done. unfold IsZeroNode. cbn [Kind]. rewrite bool_decide_eq_false_2 by done. cbv zeta.
  change (follow_alias 10 (mkNode ScalarNode "!!str" (TrimSpace (Value n)) 0 [] None)) with (mkNode ScalarNode "!!str" (TrimSpace (Value n)) 0 [] None).
  cbn [ShortTag Value Kind]. rewrite decide_False by done. rewrite bool_decide_eq_true_2 by done. cbn [negb].
  rewrite TrimSpace_idem, decide_False by done. rewrite Ev. exact He.
Qed.

Lemma caches_again jd cs : map_res to_cache (default [] (Cache jd)) = Ok cs ->
  map_res to_cache (default [] (omit_list ((fun c => {| YC_Key := Cache_Key c; YC_Paths := Cache_Paths c |}) <$> cs))) = Ok cs.
Proof.
  rewrite default_omit_list, !map_res_Forall2. induction 1 as [|y c l l' Hy _ IH]; [constructor|]. constructor; [|done].
  unfold to_cache in *. inv_ok. destruct y as [k [|p ps]]; [done|]. cbn in *. inv_ok. cbn. rewrite decide_False by done.
  by match goal with E : CacheKey.Parse _ = _ |- _ => rewrite E end.
Qed.
Lemma deps_again jd ds : map_res to_artifact_dep (default [] (NeedsArtifacts jd)) = Ok ds ->
  map_res to_artifact_dep (default [] (omit_list ((fun d => {| NA_FromJob := Dep_FromJob d; NA_FromPipeline := Dep_FromPipeline d;
    NA_Paths := Dep_Paths d; NA_Dest := Dep_Dest d |}) <$> ds))) = Ok ds.
Proof.
  rewrite default_omit_list, !map_res_Forall2. induction 1 as [|y c l l' Hy _ IH]; [constructor|]. constructor; [|done].
  unfold to_artifact_dep in *. inv_ok. cbn. by rewrite decide_False.
Qed.
Lemma resources_again j : job_resources (jobToDef j) = Job_Resources j.
Proof.
  unfold job_resources, jobToDef. cbn [JD_Resources]. unfold emit_resources. destruct (Job_Resources j) as [[c1 m1] [c2 m2]].
  assert (Hq : forall c m, job_quantities (emit_quantities {| RQ_CPU := c; RQ_Memory := m |}) = {| RQ_CPU := c; RQ_Memory := m |}).
  { intros c m. unfold emit_quantities. cbn [RQ_CPU RQ_Memory]. destruct (decide (c = "" /\ m = "")) as [Hn|Hn].
    - rewrite bool_decide_eq_true_2 by done. by destruct Hn as [-> ->].
    - by rewrite bool_decide_eq_false_2. }
  destruct (IsZero _) eqn:E.
  - unfold IsZero in E. cbn [Requests Limits RQ_CPU RQ_Memory] in E. rewrite !andb_true_iff, !bool_decide_eq_true in E.
    by destruct E as [[[-> ->] ->] ->].
  - cbn. by rewrite !Hq.
Qed.

(** A text that starts and ends with other bytes than white space. *)
Definition head_ok (f : Ascii.ascii -> bool) (p : string) : bool := match p with String b _ => f b | "" => false end.
Lemma strip_one_head (encs : list string) f c t : Forall (fun p => head_ok f p = true) encs -> f c = false -> strip_one encs (String c t) = None.
Proof.
  intros Hf Hc. apply strip_one_None. eapply Forall_impl; [exact Hf|]. intros [|b q] Hp; [done|]. simpl in Hp.
  destruct (HasPrefix (String c t) (String b q)) eqn:E; [|done]. apply HasPrefix_spec in E as [u [= -> _]]. congruence.
Qed.
Lemma TrimSpace_word c t : is_digit c = true -> TrimSpace (String c t +:+ "s") = String c t +:+ "s".
Proof.
  intros Hc. apply TrimSpace_fix.
  - rewrite app_cons_s. apply (strip_one_head _ (fun b => negb (is_digit b))); [|by rewrite Hc].
    apply (bool_decide_unpack (Forall _ _)). by vm_compute.
  - rewrite rev_app_s. change (String.rev "s") with "s". rewrite app_cons_s.
    apply (strip_one_head _ (fun b => negb (bool_decide (b = "s"%char)))); [|done].
    apply (bool_decide_unpack (Forall _ _)). by vm_compute.
Qed.
Lemma fmt_clock_word secs : (0 < secs)%Z -> exists c t, is_digit c = true /\ fmt_clock (secs * Second) = String c t +:+ "s".
Proof.
  intros Hs. assert (Hi : forall n x y, exists c t, is_digit c = true /\ itoa n +:+ x +:+ y = String c t +:+ y).
  { intros n x y. destruct (itoa_head 64 n "" ltac:(lia)) as (d & t & Hd & E). unfold itoa. rewrite E.
    exists (digit d), (t +:+ x). split; [apply (digit_value d Hd)|]. by rewrite !app_cons_s, app_assoc_s. }
  unfold fmt_clock. rewrite whole_seconds. set (sec := itoa (secs mod 60)).
  destruct (0 <? secs / 60)%Z; [destruct (0 <? secs / 60 / 60)%Z|].
  - destruct (Hi (secs / 60 / 60)%Z (String "h" (itoa (secs / 60 mod 60) +:+ String "m" sec)) "s") as (c & t & Hc & E).
    exists c, t. split; [done|]. rewrite <- E. by rewrite !app_cons_s, !app_assoc_s, !app_cons_s.
  - destruct (Hi (secs / 60 mod 60)%Z (String "m" sec) "s") as (c & t & Hc & E). exists c, t. split; [done|]. rewrite <- E.
    by rewrite !app_cons_s.
  - destruct (Hi (secs mod 60)%Z "" "s") as (c & t & Hc & E). exists c, t. split; [done|]. by rewrite <- E.
Qed.
Lemma timeout_again d : (d = 0 \/ d = ApprovalTimeoutNever \/ ApprovalTimeoutMin <= d <= ApprovalTimeoutMax)%Z -> (d mod Second = 0)%Z ->
  parseApprovalTimeout (emitApprovalTimeout d) = Ok d.
Proof.
  intros [->|[->|Hd]] Hs; [by vm_compute..|]. unfold emitApprovalTimeout.
  assert (d = (d / Second) * Second)%Z as Ed by (pose proof (Z.div_mod d Second ltac:(done)); lia).
  assert (Hb : (Minute <= d <= 90 * 24 * Hour)%Z) by exact Hd. unfold Hour, Minute in Hb.
  assert (0 < Second)%Z by done. assert (0 < d / Second)%Z by (apply Z.div_str_pos; lia).
  assert (d / Second * Second <= 2 ^ 63 - 1)%Z by (rewrite <- Ed; unfold Second in *; lia).
  pose proof (ParseDuration_String (d / Second) ltac:(lia) ltac:(lia)) as Hp. rewrite <- Ed in Hp.
  destruct (Z.eqb_spec d ApprovalTimeoutNever) as [->|]; [unfold ApprovalTimeoutNever in *; lia|].
  destruct (Z.ltb_spec 0 d); [|lia]. assert (Duration_String d = fmt_clock d) as El.
  { unfold Duration_String. rewrite Z.abs_eq by lia. destruct (Z.eqb_spec d 0); [lia|]. destruct (Z.ltb_spec d Second); [lia|].
    by destruct (Z.ltb_spec d 0); [lia|]. }
  destruct (fmt_clock_word (d / Second)) as (c & t & Hc & Ew); [lia|]. rewrite <- Ed in Ew. unfold parseApprovalTimeout.
  rewrite El, Ew, TrimSpace_word in * by done. rewrite app_cons_s in *. rewrite decide_False by done.
  assert (EqualFoldASCII (String c (t +:+ "s")) approvalTimeoutNeverLiteral || EqualFoldASCII (String c (t +:+ "s")) approvalTimeoutOffLiteral = false) as ->.
  { apply orb_false_iff. unfold EqualFoldASCII. clear -Hc. split; apply bool_decide_eq_false_2; cbn [map_bytes]; intros [= E _];
      destruct c as [[] [] [] [] [] [] [] []]; try discriminate Hc; discriminate E. }
  rewrite Hp. destruct (Z.eqb_spec d 0); [lia|]. destruct (Z.ltb_spec d 0); [lia|].
  destruct (Z.ltb_spec d ApprovalTimeoutMin); [destruct Hd; lia|]. destruct (Z.ltb_spec ApprovalTimeoutMax d); [destruct Hd; lia|]. done.
Qed.

Lemma approval_again ad timeout a : approval_spec ad timeout = Ok a -> (Timeout a mod Second = 0)%Z ->
  approval_spec (emit_approval a) (emitApprovalTimeout (Timeout a)) = Ok a.
Proof.
  intros Ha Hs. destruct (approval_spec_passable _ _ _ Ha) as (Hr & Hl & Hq & Ht). pose proof (timeout_again _ Ht Hs) as Htime.
  unfold approval_spec in Ha. destruct (AD_Required ad <? 0)%Z; [done|]. cbv zeta in Ha. apply bind_Ok in Ha as ([] & Hrefs & Ha).
  destruct (_ && _); [done|]. apply bind_Ok in Ha as (q & Hqo & Ha). apply bind_Ok in Ha as (window & Hw & [= <-]).
  cbn [Approvers ApproverGroups Required QuorumByLabel Description Timeout] in *.
  unfold approval_spec, emit_approval. cbn [AD_Approvers AD_ApproverGroups AD_Required AD_QuorumByLabel AD_Description
    Approvers ApproverGroups Required QuorumByLabel Description Timeout].
  set (required := if decide (AD_Required ad = 0%Z) then 1%Z else AD_Required ad) in *.
  set (n := length (AD_Approvers ad) + length (AD_ApproverGroups ad)) in *.
  destruct (Z.ltb_spec required 0); [lia|]. rewrite Hrefs. cbn [mbind result_bind]. rewrite (decide_False (P := required = 0%Z)) by lia.
  assert (((0 <? n)%nat && (Z.of_nat n <? required)%Z) = false) as ->.
  { destruct (Nat.ltb_spec 0 n); [|done]. simpl. apply Z.ltb_ge. by apply Hl. }
  destruct (approvalQuorumByLabelCap <? size (AD_QuorumByLabel ad))%nat eqn:Ecap; [done|]. apply Nat.ltb_ge in Ecap.
  assert ((approvalQuorumByLabelCap <? size q)%nat = false) as ->.
  { apply Nat.ltb_ge. pose proof (quorum_size _ _ _ _ Hqo) as Hsz. rewrite map_size_empty, (Permutation_length (range_map_perm _ _)), length_map_to_list in Hsz. lia. }
  rewrite quorum_again.
  - cbn [mbind result_bind]. rewrite Htime. cbn. by rewrite range_map_list_to_map, (right_id_L ∅ (∪)).
  - apply NoDup_range_map.
  - intros k v _. apply lookup_empty.
  - intros k v Hin%elem_of_range_map. by apply Hq.
Qed.

Lemma cluster_again jd j m : check_cluster jd = Ok tt -> Job_Cluster j = Cluster jd -> Job_Matrix j = m ->
  Job_Variables j = default ∅ (Variables jd) -> Job_Secrets j = default [] (Secrets jd) ->
  (m = ∅ \/ exists p, JD_Parallel jd = Some p /\ m = flattenMatrix (P_Matrix p)) ->
  (Job_Cluster j = "" \/ default "" (default ∅ (With (jobToDef j)) !! "kubeconfig") = "") ->
  check_cluster (jobToDef j) = Ok tt.
Proof.
  intros Hc Ec Em Ev Es Hm Hk. unfold check_cluster in *.
  assert (Cluster (jobToDef j) = Cluster jd) as -> by done. destruct (decide (Cluster jd = "")) as [|Hne]; [done|].
  destruct Hk as [Hk|Hk]; [congruence|]. rewrite bool_decide_eq_true_2 by exact Hk. cbn [negb].
  destruct (negb (full_match _ _)); [done|]. destruct (negb _); [done|].
  assert (default ∅ (Variables (jobToDef j)) = default ∅ (Variables jd)) as -> by (unfold jobToDef; cbn [Variables]; by rewrite default_omit_map).
  assert (default [] (Secrets (jobToDef j)) = default [] (Secrets jd)) as -> by (unfold jobToDef; cbn [Secrets]; by rewrite default_omit_list).
  destruct (has_key (default ∅ (Variables jd)) injected); [done|]. destruct (bool_decide _); [done|].
  unfold jobToDef. cbn [IDTokens JD_Parallel]. assert (has_key (∅ : gmap string IDTokenDef) injected = false) as -> by (unfold has_key; by rewrite lookup_empty).
  rewrite Em. case_decide as Hsz; [done|]. cbn [P_Matrix existsb]. rewrite orb_false_r.
  destruct Hm as [->|(p & Ep & ->)]; [by rewrite map_size_empty in Hsz|]. rewrite Ep in Hc. destruct (has_key (IDTokens jd) injected); [done|].
  destruct (has_key (flattenMatrix (P_Matrix p)) injected) eqn:E; [|done]. exfalso. unfold has_key in E.
  destruct (flattenMatrix (P_Matrix p) !! injected) as [vs|] eqn:Ef; [|done]. apply flattenMatrix_keys in Ef as (e & He & Hke).
  assert (existsb (fun dim => has_key dim injected) (P_Matrix p) = true) as Hx; [|by rewrite Hx in Hc].
  apply existsb_exists. exists e. split; [by apply list_elem_of_In|]. unfold has_key. by destruct (e !! injected).
Qed.
Lemma job_matrix_flat jd pv m : job_matrix jd pv = Ok m -> m = ∅ \/ exists p, JD_Parallel jd = Some p /\ m = flattenMatrix (P_Matrix p).
Proof.
  unfold job_matrix. destruct (JD_Parallel jd) as [p|]; [|intros [= <-]; by left]. destruct (P_Matrix p) as [|e es] eqn:E; [intros [= <-]; by left|].
  intros Hm. right. exists p. split; [done|]. inv_ok. by rewrite E.
Qed.

(** The fields a gate and an executing job share. *)
Record shares (j j0 : Job) : Prop := {
  sh_name : Job_Name j = Job_Name j0; sh_stage : Job_Stage j = Job_Stage j0; sh_image : Job_Image j = Job_Image j0;
  sh_profile : Job_Profile j = Job_Profile j0; sh_cluster : Job_Cluster j = Job_Cluster j0; sh_resources : Job_Resources j = Job_Resources j0;
  sh_needs : Job_Needs j = Job_Needs j0; sh_settings : Job_Settings j = Job_Settings j0; sh_variables : Job_Variables j = Job_Variables j0;
  sh_rules : Job_Rules j = []; sh_secrets : Job_Secrets j = Job_Secrets j0; sh_tags : Job_Tags j = Job_Tags j0;
  sh_paths : Job_ArtifactPaths j = Job_ArtifactPaths j0; sh_optional : Job_OptionalArtifactPaths j = Job_OptionalArtifactPaths j0;
  sh_when : Job_ArtifactsWhen j = Job_ArtifactsWhen j0; sh_deps : Job_ArtifactDeps j = Job_ArtifactDeps j0;
  sh_docker : Job_Docker j = Job_Docker j0; sh_cache : Job_Cache j = Job_Cache j0;
}.
(** What [toJob] has made of the definition before it looks at the gate. *)
Definition base_job (j : Job) : Job := {|
  Job_Name := Job_Name j; Job_Stage := Job_Stage j; Job_Image := Job_Image (kept_job j); Job_Profile := Job_Profile j;
  Job_Cluster := Job_Cluster j; Job_Resources := Job_Resources j; Job_Needs := Job_Needs j; Job_Tasks := [];
  Job_Settings := Job_Settings (kept_job j); Job_Variables := Job_Variables j; Job_Matrix := ∅; Job_Rules := [];
  Job_Secrets := Job_Secrets j; Job_Tags := Job_Tags j; Job_ArtifactPaths := Job_ArtifactPaths j;
  Job_OptionalArtifactPaths := Job_OptionalArtifactPaths j; Job_ArtifactsWhen := Job_ArtifactsWhen (kept_job j);
  Job_ArtifactDeps := Job_ArtifactDeps j; Job_Docker := Job_Docker j; Job_Cache := Job_Cache j; Job_Approval := None;
  Job_CoverageReport := None; Job_TestReports := []; Job_Outputs := ∅; Job_OutputMasks := ∅; Job_IDTokens := ∅;
  Job_Deploy := None; Job_Environment := "" |}.
Lemma common_again name jd when caches coverage outputs tokens deps j :
  shares j (common_job name jd when caches coverage outputs tokens deps) -> artifacts_when jd = Ok when ->
  Image (jobToDef j) = Job_Image (kept_job j) -> default ∅ (Settings (jobToDef j)) = Job_Settings (kept_job j) ->
  artifacts_when (jobToDef j) = Ok (Job_ArtifactsWhen (kept_job j)) /\
  common_job name (jobToDef j) (Job_ArtifactsWhen (kept_job j)) caches None (∅, ∅) ∅ deps = base_job j.
Proof.
  intros Hsh Hwhen Hi Hset. destruct (emit_artifacts_again jd when j Hwhen) as [Haw Hpaths].
  { apply (sh_when _ _ Hsh). }
  { rewrite (sh_paths _ _ Hsh). unfold common_job, job_paths. cbn. by destruct (JD_Artifacts jd). }
  { rewrite (sh_optional _ _ Hsh). unfold common_job, job_paths. cbn. by destruct (JD_Artifacts jd). }
  split; [done|]. unfold common_job, base_job. rewrite resources_again, Hi, Hset. unfold job_tags.
  assert (match JD_Artifacts (jobToDef j) with Some a => artifact_paths a | None => [] end = Job_ArtifactPaths j) as ->.
  { apply (f_equal fst) in Hpaths. unfold job_paths in Hpaths. simpl in Hpaths. rewrite <- Hpaths.
    change (JD_Artifacts (jobToDef j)) with (emit_artifacts j). by destruct (emit_artifacts j). }
  assert (match JD_Artifacts (jobToDef j) with Some a => optional_artifact_paths a | None => [] end = Job_OptionalArtifactPaths j) as ->.
  { apply (f_equal snd) in Hpaths. unfold job_paths in Hpaths. simpl in Hpaths. rewrite <- Hpaths.
    change (JD_Artifacts (jobToDef j)) with (emit_artifacts j). by destruct (emit_artifacts j). }
  unfold jobToDef. cbn [Stage Needs Variables Secrets Tags Docker Cluster Agent TestReports]. autorewrite with emit.
  assert (match (if decide (Job_Profile j = "") then None else Some {| Agent_Profile := Job_Profile j; Agent_Tags := [] |}) with
          | Some a => Agent_Profile a | None => "" end = Job_Profile j) as -> by (case_decide; [by symmetry|done]).
  assert (match (if decide (Job_Profile j = "") then None else Some {| Agent_Profile := Job_Profile j; Agent_Tags := [] |}) with
          | Some a => Job_Tags j ++ Agent_Tags a | None => Job_Tags j end = Job_Tags j) as -> by (case_decide; [done|]; simpl; by rewrite app_nil_r).
  cbn [default]. rewrite (sh_name _ _ Hsh), (sh_deps _ _ Hsh), (sh_cache _ _ Hsh). reflexivity.
Qed.

Lemma idtokens_none jd pv : IDTokens jd = ∅ -> validateIDTokensDeclaration jd pv = Ok ∅.
Proof.
  intros E. unfold validateIDTokensDeclaration. rewrite E, map_size_empty. cbn [Nat.ltb].
  assert (range_map (∅ : gmap string IDTokenDef) = []) as -> by (apply Permutation_nil; by rewrite range_map_perm, map_to_list_empty).
  done.
Qed.
Lemma gate_nothing jd : gate_executes jd = false ->
  default [] (Script jd) = [] /\ Uses jd = "" /\ Image jd = "" /\ Settings jd = None /\ JD_Artifacts jd = None /\
  default [] (NeedsArtifacts jd) = [] /\ default [] (Cache jd) = [] /\ Docker jd = false /\ Deploy jd = None /\ Cluster jd = "" /\
  IsZeroNode (Environment jd) = true.
Proof.
  unfold gate_executes. intros Hx. repeat (apply orb_false_iff in Hx as [Hx ?]). destruct_bools.
  repeat match goal with H : bool_decide _ = true |- _ => apply bool_decide_eq_true in H end.
  destruct (Settings jd), (JD_Artifacts jd), (Deploy jd), (default [] (NeedsArtifacts jd)), (default [] (Cache jd)); done.
Qed.
(** A gate has nothing the file could lose. *)
Lemma gate_again ad timeout j a : Job_Approval j = Some a -> approval_spec ad timeout = Ok a -> (Timeout a mod Second = 0)%Z ->
  emit_tasks j = {| b_image := ""; b_script := []; b_settings := ∅; b_uses := ""; b_with := ∅ |} -> Job_Cluster j = "" -> Job_Matrix j = ∅ ->
  Job_Deploy j = None -> Job_Environment j = "" -> Job_ArtifactPaths j = [] -> Job_OptionalArtifactPaths j = [] ->
  Job_ArtifactDeps j = [] -> Job_Cache j = [] -> Job_Docker j = false ->
  gate_spec (jobToDef j) (emit_approval a) = Ok a.
Proof.
  intros Ha Hs Htime Eb Hc Hm Hd He Hp Ho Hdeps Hca Hdo. pose proof (approval_again ad _ a Hs Htime) as Hagain.
  unfold gate_spec, jobToDef. rewrite Eb, Hm, Hd, He, Hdeps, Hca, Hc, Hdo, Ha. cbn [JD_Parallel b_image b_script b_settings b_uses b_with JD_Timeout].
  rewrite (decide_True (P := size ∅ = 0)) by apply map_size_empty. unfold gate_executes, emit_artifacts. rewrite Hp, Ho.
  cbn [Script Uses Image Settings JD_Artifacts NeedsArtifacts Cache Docker IDTokens Deploy Cluster Environment].
  match goal with |- (if ?c then _ else _) = _ => assert (c = false) as -> by (by vm_compute) end. exact Hagain.
Qed.

Lemma toJob_again name jd pv when caches coverage outputs tokens deps j :
  shares j (common_job name jd when caches coverage outputs tokens deps) -> artifacts_when jd = Ok when ->
  map_res to_cache (default [] (Cache jd)) = Ok caches -> map_res to_artifact_dep (default [] (NeedsArtifacts jd)) = Ok deps ->
  check_cluster (jobToDef j) = Ok tt ->
  Image (jobToDef j) = Job_Image (kept_job j) -> default ∅ (Settings (jobToDef j)) = Job_Settings (kept_job j) ->
  toJob name (jobToDef j) pv =
    match Job_Approval j with
    | Some a => spec ← gate_spec (jobToDef j) (emit_approval a); Ok (with_approval (base_job j) spec)
    | None =>
        tasks ← job_tasks (jobToDef j); deploy ← job_deploy (jobToDef j) tasks; env ← job_environment (jobToDef j) tasks deploy;
        matrix ← job_matrix (jobToDef j) pv; _ ← unenforced (jobToDef j); Ok (with_execution (base_job j) tasks deploy env matrix)
    end.
Proof.
  intros Hsh Hwhen Hca Hdeps Hcl Hi Hset. destruct (common_again _ _ _ _ _ _ _ _ _ Hsh Hwhen Hi Hset) as [Haw Hcommon].
  unfold toJob. rewrite Hcl, Haw. cbn [mbind result_bind].
  assert (map_res to_cache (default [] (Cache (jobToDef j))) = Ok caches) as ->.
  { unfold jobToDef. cbn [Cache]. rewrite (sh_cache _ _ Hsh). by eapply caches_again. }
  assert (map_res to_artifact_dep (default [] (NeedsArtifacts (jobToDef j))) = Ok deps) as ->.
  { unfold jobToDef. cbn [NeedsArtifacts]. rewrite (sh_deps _ _ Hsh). by eapply deps_again. }
  rewrite idtokens_none by done. assert (job_outputs (jobToDef j) = Ok (∅, ∅)) as -> by done.
  assert (CoverageReport (jobToDef j) = None) as -> by done. cbn [mbind result_bind map_err]. rewrite Hcommon.
  assert (Approval (jobToDef j) = emit_approval <$> Job_Approval j) as -> by done. by destruct (Job_Approval j).
Qed.

Lemma job_again name jd pv j : toJob name jd pv = Ok j -> plain_job j -> toJob name (jobToDef j) pv = Ok (kept_job j).
Proof.
  unfold toJob at 1. intros Hj [Hplain Htime].
  apply bind_Ok in Hj as ([] & Hcl & Hj). apply bind_Ok in Hj as (when & Hwhen & Hj). apply bind_Ok in Hj as (caches & Hca & Hj).
  apply bind_Ok in Hj as (coverage & _ & Hj). apply bind_Ok in Hj as (outputs & _ & Hj). apply bind_Ok in Hj as (tokens & _ & Hj).
  apply bind_Ok in Hj as (deps & Hdeps & Hj). cbv zeta in Hj.
  destruct (Approval jd) as [ad|].
  - apply bind_Ok in Hj as (spec & Hg & [= <-]). destruct (gate_spec_inv _ _ _ Hg) as [Hx Hs].
    destruct (gate_nothing jd Hx) as (Hsc & Hu & Hi & Hset & Hart & Hna & Hc & Hdo & Hd & Hclu & He).
    rewrite Hna in Hdeps. injection Hdeps as <-. rewrite Hc in Hca. injection Hca as <-.
    set (j := with_approval _ spec) in *.
    assert (Eb : emit_tasks j = {| b_image := ""; b_script := []; b_settings := ∅; b_uses := ""; b_with := ∅ |}).
    { unfold emit_tasks, j. cbn. by rewrite Hi, Hset. }
    rewrite (toJob_again name jd pv when [] coverage outputs tokens [] j); [|split; done|done|by rewrite Hc|by rewrite Hna|..].
    + assert (Job_Approval j = Some spec) as Ea by done. rewrite Ea. rewrite (gate_again ad (JD_Timeout jd) j spec); try done.
      * by apply Htime.
      * unfold j. cbn. by rewrite Hart.
      * unfold j. cbn. by rewrite Hart.
    + unfold check_cluster, jobToDef, j. cbn [Cluster Job_Cluster with_approval common_job]. by rewrite decide_True.
    + unfold jobToDef. cbn [Image]. rewrite Eb. unfold kept_job, j. cbn. by rewrite Hi.
    + unfold jobToDef. cbn [Settings]. rewrite Eb, default_omit_map. unfold kept_job, j. cbn. by rewrite Hset.
  - apply bind_Ok in Hj as (tasks & Htasks & Hj). apply bind_Ok in Hj as (deploy & Hd & Hj). apply bind_Ok in Hj as (env & He & Hj).
    apply bind_Ok in Hj as (matrix & Hm & Hj). apply bind_Ok in Hj as ([] & _ & [= <-]). set (j := with_execution _ tasks deploy env matrix) in *.
    destruct (tasks_again jd tasks j Htasks) as (Ht & Hno & Hyes); [done..|].
    rewrite (toJob_again name jd pv when caches coverage outputs tokens deps j); [|split; done|done|done|done|..].
    + assert (Job_Approval j = None) as -> by done. rewrite Ht. cbn [mbind result_bind].
      rewrite (deploy_again jd tasks deploy j) by done. cbn [mbind result_bind].
      rewrite (environment_again jd tasks deploy env j) by done. cbn [mbind result_bind].
      rewrite (matrix_again jd pv matrix j) by done. cbn [mbind result_bind]. done.
    + eapply (cluster_again jd j matrix Hcl); try done; [by apply (job_matrix_flat jd pv)|].
      destruct (has_plugin j).
      * destruct (Hyes eq_refl) as (_ & _ & p & Ep & Ew). rewrite Ew. change (Job_Tasks j) with tasks in Hplain. rewrite Ep in Hplain.
        apply Forall_inv in Hplain. apply Hplain.
      * destruct (Hno eq_refl) as (_ & _ & _ & Ew). right. by rewrite Ew.
    + unfold kept_job at 1. cbn [Job_Image]. destruct (has_plugin j); [by destruct (Hyes eq_refl)|by destruct (Hno eq_refl)].
    + unfold kept_job at 1. cbn [Job_Settings]. destruct (has_plugin j).
      * by destruct (Hyes eq_refl) as (_ & -> & _).
      * by destruct (Hno eq_refl) as (_ & -> & _).
Qed.
End Again.

(** ** The rest of the file *)

Definition kept_material (m : Material) : Material :=
  mk_material (Material_Type m) (Fingerprint m) (AutoUpdate m)
    ((fun g => {| Git_URL := Git_URL g; Git_Branch := Git_Branch g; Git_Events := Git_Events g;
                  Git_AutoRegisterWebhook := Git_AutoRegisterWebhook g; Git_SecretRef := Git_SecretRef g;
                  Git_Paths := []; Git_PollInterval := 0%Z |}) <$> Material_Git m)
    (Material_Upstream m) (Material_Cron m).
(** What the file keeps of a pipeline, its jobs aside. *)
Definition kept_with (p : Pipeline) (jobs : list Job) : Pipeline := {|
  Pipeline_ID := ""; ProjectID := ProjectID p; Pipeline_Name := Pipeline_Name p;
  Materials := kept_material <$> Materials p; Stages := Stages p; Jobs := jobs;
  Pipeline_Variables := Pipeline_Variables p; Domain.Template := ""; Concurrency := Concurrency p; Supersede := Supersede p;
  TriggerEvents := TriggerEvents p; TriggerBranches := TriggerBranches p; TriggerPaths := TriggerPaths p;
  Services := Services p; Notifications := None |}.

Lemma defaultStr_idem s d : d <> "" -> defaultStr (defaultStr s d) d = defaultStr s d.
Proof. unfold defaultStr. intros Hd. by repeat case_decide. Qed.
Lemma map_res_again {E A B} (f : A -> result E B) (g : B -> A) l l' :
  (forall x y, x ∈ l -> f x = Ok y -> f (g y) = Ok y) -> map_res f l = Ok l' -> map_res f (g <$> l') = Ok l'.
Proof.
  intros Hg Hl%map_res_Forall2. apply map_res_Forall2. induction Hl as [|x y l l' Hx _ IH]; [constructor|].
  constructor; [apply (Hg x y); [by left|done]|]. apply IH. intros. eapply Hg; [by right|done].
Qed.

Section Pipelines.
Context `{MapRange, UnicodeCase}.
Context (IsQualifiedName IsValidLabelValue : string -> list string) (ValidatePattern : string -> bool).

Lemma material_again s m : toMaterial s = Ok m -> Implicit m = false /\ toMaterial (materialToSpec m) = Ok (kept_material m).
Proof.
  unfold toMaterial at 1. intros Hm. destruct (MS_Git s) as [g|].
  - apply bind_Ok in Hm as (poll & _ & Hm). apply bind_Ok in Hm as ([] & Hev & [= <-]). split; [done|].
    unfold toMaterial, materialToSpec, mk_material, kept_material, mk_material.
    cbn -[validateGitMaterialEvents defaultEvents defaultStr GitFingerprint]. rewrite defaultStr_idem by done. assert (defaultEvents (defaultEvents (GS_On g)) = defaultEvents (GS_On g)) as -> by by destruct (GS_On g).
    assert (Hv : validateGitMaterialEvents (defaultEvents (GS_On g)) = Ok tt).
    { revert Hev. destruct (GS_On g) as [|e es]; [done|]. change (defaultEvents (e :: es)) with (e :: es).
      by destruct (validateGitMaterialEvents (e :: es)) as [[]|]. }
    by rewrite Hv.
  - destruct (MS_Upstream s) as [u|]; [|destruct (MS_Cron s) as [c|]; [|destruct (MS_Manual s)]]; [..|discriminate Hm];
      injection Hm as <-; (split; [reflexivity|]);
      unfold toMaterial, materialToSpec, kept_material, mk_material; cbn -[defaultStr UpstreamFingerprint CronFingerprint ManualFingerprint].
    + by rewrite defaultStr_idem.
    + reflexivity.
    + reflexivity.
Qed.
Lemma materials_again l ms : map_res (fun m => map_err ParseMaterial (toMaterial m)) l = Ok ms ->
  map_res (fun m => map_err ParseMaterial (toMaterial m)) (materialToSpec <$> filter (fun m => Implicit m = false) ms) = Ok (kept_material <$> ms).
Proof.
  rewrite !map_res_Forall2. induction 1 as [|s m l ms Hs _ IH]; [constructor|].
  destruct (toMaterial s) as [m'|] eqn:E; [|done]. cbn in Hs. injection Hs as ->. destruct (material_again _ _ E) as [Hi Ha].
  rewrite filter_cons_True by done. constructor; [by rewrite Ha|done].
Qed.

Lemma toleration_again i t r : toToleration IsQualifiedName IsValidLabelValue i t = Ok r ->
  toToleration IsQualifiedName IsValidLabelValue i (toTolerationSpec r) = Ok r.
Proof.
  unfold toToleration at 1. cbv zeta. destruct (negb _) eqn:Eop; [done|]. destruct (negb _) eqn:Eef in |- *; [done|].
  set (op := if decide (TS_Operator t = "") then "Equal" else TS_Operator t). intros Ht.
  assert (Hr : r = {| Tol_Key := TS_Key t; Tol_Operator := op; Tol_Value := TS_Value t; Tol_Effect := TS_Effect t; TolerationSeconds := TS_Seconds t |}).
  { clear -Ht. by repeat case_match; simplify_eq. }
  assert (Hop : op <> "" /\ op ∈ [""; "Equal"; "Exists"]).
  { subst op. destruct_bools. apply bool_decide_eq_true in Eop. case_decide; [split; [done|set_solver]|done]. }
  unfold toToleration. rewrite Hr in *. unfold toTolerationSpec. cbn [TS_Key TS_Operator TS_Value TS_Effect TS_Seconds Tol_Key Tol_Operator Tol_Value Tol_Effect TolerationSeconds].
  rewrite (bool_decide_eq_true_2 (op ∈ _)) by apply Hop. cbn [negb]. rewrite Eef. cbv zeta. rewrite (decide_False (P := op = "")) by apply Hop.
  exact Ht.
Qed.
Lemma service_again s r : toService IsQualifiedName IsValidLabelValue s = Ok r ->
  toService IsQualifiedName IsValidLabelValue (emit_service r) = Ok r.
Proof.
  unfold toService at 1. destruct (decide (TrimSpace (SS_Image s) = "")) as [|Hi]; [done|]. cbv zeta.
  set (name := if decide (TrimSpace (SS_Name s) = "") then _ else _). destruct (decide (name = "")) as [|Hn]; [done|].
  intros Hs. apply bind_Ok in Hs as ([] & Hsel & Hs). apply bind_Ok in Hs as (tols & Ht & [= <-]).
  assert (Htrim : TrimSpace name = name).
  { subst name. case_decide; [|apply TrimSpace_idem]. unfold defaultServiceNameFromImage. apply TrimSpace_idem. }
  unfold toService, emit_service. cbn [SS_Name SS_Image SS_Env SS_Command SS_NodeSelector SS_Tolerations Service_Name Service_Image Service_Env
    Service_Command Service_NodeSelector Service_Tolerations]. rewrite decide_False by done. cbv zeta. rewrite Htrim.
  rewrite (decide_False (P := name = "")) by done. rewrite decide_False by done. rewrite Hsel. cbn [mbind result_bind].
  assert (toServiceTolerations IsQualifiedName IsValidLabelValue (toTolerationSpecs tols) = Ok tols) as ->; [|done].
  unfold toServiceTolerations, toTolerationSpecs in *. destruct (_ <? _)%nat eqn:E; [done|].
  destruct (map_res _ (imap pair (SS_Tolerations s))) as [l|] eqn:El; [|done]. injection Ht as ->.
  rewrite length_fmap. apply map_res_Forall2 in El. rewrite <- (Forall2_length _ _ _ El), length_imap, E.
  apply map_res_Forall2, Forall2_same_length_lookup. split; [by rewrite length_imap, length_fmap|].
  intros i x y Hx Hy. rewrite list_lookup_imap, list_lookup_fmap, Hy in Hx. injection Hx as <-.
  apply (Forall2_lookup_r _ _ _ _ _ El) in Hy as ([i' t] & Hit & Hxy). rewrite list_lookup_imap in Hit.
  destruct (SS_Tolerations s !! i); [|done]. injection Hit as -> ->. by eapply toleration_again.
Qed.
Lemma services_again l ss :
  map_res (fun s => map_err ParseService (toService IsQualifiedName IsValidLabelValue s)) l = Ok ss ->
  map_res (fun s => map_err ParseService (toService IsQualifiedName IsValidLabelValue s)) (emit_service <$> ss) = Ok ss.
Proof.
  apply map_res_again. intros s r _ Hs. destruct (toService _ _ s) as [r'|] eqn:E; [|done]. cbn in Hs. injection Hs as ->.
  by rewrite (service_again _ _ E).
Qed.

Lemma resolveExtends_flat (jobs : gmap string JobDef) :
  (forall n jd, jobs !! n = Some jd -> Extends jd = "" /\ HasPrefix n hiddenJobPrefix = false) ->
  resolveExtends (range_map jobs).*1 jobs = Ok jobs.
Proof.
  intros Hflat. assert (Hord : forall n, n ∈ (range_map jobs).*1 <-> is_Some (jobs !! n)).
  { intros n. rewrite list_elem_of_fmap. split.
    - intros ([k jd] & -> & Hin%elem_of_range_map). by exists jd.
    - intros [jd Hjd]. exists (n, jd). by rewrite elem_of_range_map. }
  destruct (resolveExtends _ jobs) as [out|e] eqn:E.
  - f_equal. apply map_eq. intros n. apply option_eq. intros jd. destruct (resolveExtends_Ok _ _ _ Hord E) as [_ ->]. split.
    + intros (_ & l & Hl & Hf). inversion Hl as [? jd' Hn He|? jd' l' Hn He]; subst; [by simpl in Hf; subst|]. by destruct (Hflat _ _ Hn).
    + intros Hn. destruct (Hflat _ _ Hn) as [He Hh]. split; [done|]. exists [jd]. split; [by apply chain_root|done].
  - destruct (resolveExtends_Err _ _ _ Hord E) as (n & [jd Hn] & Hno). destruct Hno. exists [jd].
    by apply chain_root; [|apply (Hflat _ _ Hn)].
Qed.

Lemma map_res_Permutation {E A B} (f : A -> result E B) l k ys :
  map_res f l = Ok ys -> l ≡ₚ k -> exists ys', map_res f k = Ok ys' /\ ys' ≡ₚ ys.
Proof.
  setoid_rewrite map_res_Forall2. intros Hl Hp. revert ys Hl. induction Hp as [|x l k _ IH|x y l|l k k' _ IH1 _ IH2]; intros ys Hl.
  - inversion Hl; subst. by exists [].
  - inversion Hl as [|? z ? ? Hx Hl']; subst. destruct (IH _ Hl') as (ys' & H1' & H2'). exists (z :: ys'). split; [by constructor|]. by apply Permutation_cons.
  - inversion Hl as [|? z ? ? Hx Hl']; subst. inversion Hl' as [|? z' ? ? Hy Hl'']; subst.
    eexists. split; [constructor; [done|constructor; done]|]. apply perm_swap.
  - destruct (IH1 _ Hl) as (ys1 & H1' & H2'). destruct (IH2 _ H1') as (ys2 & H3' & H4'). exists ys2. split; [done|]. by transitivity ys1.
Qed.

Lemma index_by_perm {V} (val : Job -> V) jobs : NoDup (Job_Name <$> jobs) ->
  map_to_list (index_by Job_Name val jobs) ≡ₚ (fun j => (Job_Name j, val j)) <$> jobs.
Proof.
  intros Hnd. assert (index_by Job_Name val jobs = list_to_map ((fun j => (Job_Name j, val j)) <$> jobs)) as ->.
  { apply map_eq. intros n. apply option_eq. intros v. rewrite <- elem_of_list_to_map.
    - rewrite list_elem_of_fmap. split.
      + intros (j & Hj & <- & <-)%index_by_Some. by exists j.
      + intros (j & [= -> ->] & Hj). by apply index_by_NoDup.
    - by rewrite <- list_fmap_compose. }
  apply map_to_list_to_map. by rewrite <- list_fmap_compose.
Qed.

Section Kept.
Context (jobs js : list Job).
Hypothesis Hnd : NoDup (Job_Name <$> jobs).
Hypothesis Hjs : js ≡ₚ kept_job <$> jobs.

Lemma kept_names : NoDup (Job_Name <$> js).
Proof. rewrite Hjs, <- list_fmap_compose. exact Hnd. Qed.
Lemma kept_byName n j' : byName js !! n = Some j' <-> exists j, byName jobs !! n = Some j /\ j' = kept_job j.
Proof.
  rewrite (byName_NoDup js) by apply kept_names. rewrite Hjs, list_elem_of_fmap. setoid_rewrite (byName_NoDup jobs n _ Hnd).
  split; [intros [(j & -> & Hj) <-]; eauto|intros (j & [Hj <-] & ->)]. eauto.
Qed.
Lemma kept_valid stages : validateNeeds jobs stages = Ok tt -> validateNoCycles jobs = Ok tt ->
  validateNeeds js stages = Ok tt /\ validateNoCycles js = Ok tt.
Proof.
  rewrite !validateNeeds_Ok, !validateNoCycles_Ok. intros Hn Hc. split.
  - intros j' dep Hj'. rewrite Hjs, list_elem_of_fmap in Hj'. destruct Hj' as (j & -> & Hj). intros Hdep.
    destruct (Hn j dep Hj Hdep) as (Hne & target & Ht & Ho). split; [done|]. exists (kept_job target).
    split; [apply kept_byName; eauto|exact Ho].
  - intros n Ht. apply (Hc n). revert Ht. apply (tc_congruence id). intros a b (j' & Hj' & Hb).
    apply kept_byName in Hj' as (j & Hj & ->). by exists j.
Qed.
End Kept.

Lemma concurrency_again v s : parse_concurrency v = Ok s -> parse_concurrency s = Ok s.
Proof. unfold parse_concurrency at 1. case_decide as Hs; [|done]. intros [= <-]. destruct Hs as [-> | [-> | ->]]; by vm_compute. Qed.
Lemma supersede_again v s : parse_supersede v = Ok s -> parse_supersede s = Ok s.
Proof.
  unfold parse_supersede at 1. case_decide as Hs; [intros [= <-]; by vm_compute|]. case_decide as Hs'; [|done]. intros [= <-].
  destruct Hs' as [-> | ->]; by vm_compute.
Qed.
Lemma when_again name w t : parse_when ValidatePattern name w = Ok t -> forall p,
  TriggerEvents p = t.1.1 -> TriggerBranches p = t.1.2 -> TriggerPaths p = t.2 -> parse_when ValidatePattern name (emit_when p) = Ok t.
Proof.
  intros Hw p He Hb Hp. unfold emit_when. rewrite He, Hb, Hp. clear He Hb Hp. destruct w as [w|]; [|by injection Hw as <-].
  unfold parse_when in Hw. destruct (validatePipelineEvents (W_Event w)) as [[]|] eqn:Ev; [|done].
  destruct (bool_decide _); [|done]. destruct (validateTriggerPaths ValidatePattern (W_Paths w)) as [[]|] eqn:Ep; [|done].
  injection Hw as <-. simpl. assert (Hfull : parse_when ValidatePattern name (Some {| W_Status := []; W_Branch := W_Branch w; W_Event := W_Event w; W_Paths := W_Paths w |})
    = Ok (W_Event w, W_Branch w, W_Paths w)).
  { unfold parse_when. cbn [W_Event W_Status W_Paths W_Branch]. by rewrite Ev, Ep. }
  destruct (W_Event w), (W_Branch w), (W_Paths w); done.
Qed.

(** A job's definition does not change by what the file drops. *)
Lemma plugin_forgets ts b i s : existsb (fun t => if Task_Plugin t then true else false) ts = true ->
  foldl emit_task b ts =
  foldl emit_task {| b_image := i; b_script := b_script b; b_settings := s; b_uses := b_uses b; b_with := b_with b |} ts.
Proof.
  revert b. induction ts as [|t ts IH]; intros b; [done|]. cbn [existsb foldl]. unfold emit_task at 2 4.
  destruct (Task_Plugin t); [done|]. cbn [orb]. intros Hx. by rewrite (IH _ Hx).
Qed.
Lemma jobToDef_kept j : jobToDef (kept_job j) = jobToDef j.
Proof.
  assert (emit_tasks (kept_job j) = emit_tasks j) as Eb.
  { unfold emit_tasks. change (Job_Tasks (kept_job j)) with (Job_Tasks j). unfold kept_job. cbn [Job_Image Job_Settings].
    destruct (has_plugin j) eqn:E; [|done]. symmetry. by rewrite (plugin_forgets _ _ "" ∅ E). }
  unfold jobToDef. rewrite Eb. unfold emit_artifacts, kept_job. cbn. by destruct (Job_ArtifactPaths j), (Job_OptionalArtifactPaths j).
Qed.
Lemma emit_kept p js : NoDup (Job_Name <$> Jobs p) -> js ≡ₚ kept_job <$> Jobs p -> Forall (fun m => Implicit m = false) (Materials p) ->
  emit_file (kept_with p js) = emit_file p.
Proof.
  intros Hnd Hjs Hm. unfold emit_file. f_equal.
  - cbn [Materials kept_with]. induction Hm as [|m ms Hi _ IH]; [done|]. rewrite fmap_cons, !filter_cons_True, !fmap_cons, IH by done.
    f_equal. unfold materialToSpec, kept_material, mk_material. cbn [Material_Type Material_Git Material_Upstream Material_Cron].
    by destruct (Material_Type m), (Material_Git m).
  - apply map_eq. intros n. apply option_eq. intros jd. cbn [Jobs kept_with].
    assert (Hin : forall l, NoDup (Job_Name <$> l) -> index_by Job_Name jobToDef l !! n = Some jd <-> (n, jd) ∈ (fun j => (Job_Name j, jobToDef j)) <$> l).
    { intros l Hl. by rewrite <- (index_by_perm jobToDef l Hl), elem_of_map_to_list. }
    rewrite !Hin by (done || by eapply kept_names). rewrite Hjs, <- list_fmap_compose.
    rewrite (list_fmap_ext _ (fun j => (Job_Name j, jobToDef j)) (Jobs p)); [done|]. intros i j _. simpl. by rewrite jobToDef_kept.
Qed.

(** The order of the jobs in the file is the declared one, whatever order Go ranges
    over its map in. *)
Lemma job_less_total p jobs a b : job_less p jobs a b = false -> job_less p jobs b a = false -> a = b.
Proof.
  unfold job_less. destruct (job_rank p jobs a) as [[] oa], (job_rank p jobs b) as [[] ob]; cbn [Bool.eqb negb]; try done.
  all: rewrite (Nat.eqb_sym ob oa); destruct (Nat.eqb_spec oa ob) as [->|Hne]; cbn [negb].
  all: try (intros ?%Nat.ltb_ge ?%Nat.ltb_ge; lia). all: intros ?%ltb_false ?%ltb_false; by apply (anti_symm String.le).
Qed.
Lemma job_less_asym p jobs a b : job_less p jobs a b = true -> job_less p jobs b a = false.
Proof.
  intros Hab. destruct (job_less p jobs b a) eqn:Hba; [|done]. exfalso. revert Hab Hba. unfold job_less.
  destruct (job_rank p jobs a) as [[] oa], (job_rank p jobs b) as [[] ob]; cbn [Bool.eqb negb]; try done.
  all: rewrite (Nat.eqb_sym ob oa); destruct (Nat.eqb_spec oa ob) as [->|Hne]; cbn [negb].
  all: try (intros ?%Nat.ltb_lt ?%Nat.ltb_lt; lia). all: intros Hab Hba; pose proof (proj2 (ltb_false b a) (ltb_leb _ _ Hab)); congruence.
Qed.
Lemma job_less_trans p jobs x y z : job_less p jobs y x = false -> job_less p jobs z y = false -> job_less p jobs z x = false.
Proof.
  unfold job_less. destruct (job_rank p jobs x) as [[] ox], (job_rank p jobs y) as [[] oy], (job_rank p jobs z) as [[] oz]; cbn [Bool.eqb negb]; try done.
  all: destruct (Nat.eqb_spec oy ox), (Nat.eqb_spec oz oy), (Nat.eqb_spec oz ox); cbn [negb]; subst; try done; rewrite ?Nat.ltb_ge; try lia.
  all: rewrite !ltb_false; intros ? ?; by etransitivity.
Qed.
Lemma emit_order_fixed (R1 R2 : MapRange) p : @emit_order R1 p = @emit_order R2 p.
Proof.
  unfold emit_order. apply stable_sort_unique; [apply job_less_asym|apply job_less_trans| |].
  - by rewrite (@range_map_perm R1), (@range_map_perm R2).
  - intros x y _ _. apply job_less_total.
Qed.

Lemma jobs_again (g : File) jobs : NoDup (Job_Name <$> jobs) -> F_Jobs g = index_by Job_Name jobToDef jobs ->
  (forall j, j ∈ jobs -> Job_Stage j ∈ F_Stages g /\ plain_job j /\ exists jd, toJob (Job_Name j) jd (F_Variables g) = Ok j) ->
  exists js, js ≡ₚ kept_job <$> jobs /\ map_res (parse_job g) (range_map (F_Jobs g)) = Ok js.
Proof.
  intros Hnd -> Hok. assert (Hmap : map_res (parse_job g) ((fun j => (Job_Name j, jobToDef j)) <$> jobs) = Ok (kept_job <$> jobs)).
  { apply map_res_Forall2, Forall2_fmap, Forall_Forall2_diag, Forall_forall. intros j Hj.
    destruct (Hok j Hj) as (Hst & Hplain & jd & Ht). unfold parse_job, check.
    change (Stage (jobToDef j)) with (Job_Stage j). rewrite bool_decide_eq_true_2 by done. cbn [mbind result_bind].
    by rewrite (job_again _ _ _ _ Ht Hplain). }
  destruct (map_res_Permutation _ _ (range_map (index_by Job_Name jobToDef jobs)) _ Hmap) as (js & H1' & H2'); [|by exists js].
  by rewrite range_map_perm, index_by_perm.
Qed.
Lemma materials_explicit l ms : map_res (fun m => map_err ParseMaterial (toMaterial m)) l = Ok ms -> Forall (fun m => Implicit m = false) ms.
Proof.
  intros Hl%map_res_Forall2. induction Hl as [|s m l ms Hs _ IH]; constructor; [|done].
  destruct (toMaterial s) as [m'|] eqn:E; [|done]. cbn in Hs. injection Hs as ->. by apply (material_again _ _ E).
Qed.

(** C12: A pipeline written out again is read back as the same pipeline: for a parsed
    pipeline whose jobs the file can say ([plain_job]: no empty script, plugin images that
    resolve to themselves, no kubeconfig setting beside a cluster, gate windows of whole
    seconds), parsing what [Emit] makes of it succeeds and gives the same materials, stages,
    jobs (tasks, needs, matrices, gates, deploys and the rest), services and trigger
    filters, only the fields the file never carries being reset; writing the result
    out again gives the same file, with its jobs in the declared order. *)
Theorem emit_roundtrip (f : File) (projectID fallback : string) (p : Pipeline) :
  ParseNamed IsQualifiedName IsValidLabelValue ValidatePattern f projectID fallback = Ok p -> Forall plain_job (Jobs p) ->
  (forall R : MapRange, @emit_order R p = emit_order p) /\
  exists js, js ≡ₚ kept_job <$> Jobs p /\ emit_file (kept_with p js) = emit_file p /\
    forall fallback', ParseNamed IsQualifiedName IsValidLabelValue ValidatePattern (emit_file p) projectID fallback' = Ok (kept_with p js).
Proof.
  intros Hp Hplain. split; [intros R; apply emit_order_fixed|]. destruct (ParseNamed_post _ _ _ _ _ _ _ Hp) as (Hv & _ & _ & _ & Hjobs).
  unfold ParseNamed in Hp.
  apply bind_Ok in Hp as ([] & Hname & Hp). apply bind_Ok in Hp as ([] & Hcolon & Hp). apply bind_Ok in Hp as (conc & Hconc & Hp).
  apply bind_Ok in Hp as (sup & Hsup & Hp). apply bind_Ok in Hp as ([] & Hres & Hp). apply bind_Ok in Hp as (when & Hwhen & Hp).
  apply bind_Ok in Hp as (services & Hser & Hp). apply bind_Ok in Hp as (nots & _ & Hp). apply bind_Ok in Hp as (mats & Hmat & Hp).
  apply bind_Ok in Hp as (resolved & _ & Hp). apply bind_Ok in Hp as (jobs & Hj & Hp). apply bind_Ok in Hp as ([] & Hneeds & Hp).
  apply bind_Ok in Hp as ([] & Hcyc & [= <-]).
  cbn [Jobs Materials] in *. pose proof (vp_names _ Hv) as Hnd. cbn [Jobs] in Hnd. set (p := Build_Pipeline _ _ _ _ _ _ _ _ _ _ _ _ _ _ _) in *.
  destruct (jobs_again (emit_file p) jobs Hnd eq_refl) as (js & Hjs & Hmap).
  { intros j Hin. split; [by eapply Forall_forall in Hin; [|apply (vp_stages _ Hv)]|]. split; [by eapply Forall_forall in Hin|].
    apply Hjobs in Hin as (l & jd & _ & _ & _ & Ht). by exists jd. }
  exists js. split; [done|]. split; [apply (emit_kept p js Hnd Hjs), (materials_explicit _ _ Hmat)|]. intros fallback'.
  destruct (kept_valid jobs js Hnd Hjs (F_Stages f)) as [Hn Hc];
    [by destruct (validateNeeds _ _) as [[]|]|by destruct (validateNoCycles _) as [[]|]|].
  unfold ParseNamed. assert (pipeline_name (emit_file p) fallback' = pipeline_name f fallback) as ->.
  { unfold pipeline_name at 1. change (F_Name (emit_file p)) with (pipeline_name f fallback). destruct (decide (pipeline_name f fallback = "")) as [E|]; [|done].
    unfold check in Hname. by rewrite bool_decide_eq_true_2 in Hname. }
  rewrite Hname, Hcolon. cbn [mbind result_bind]. change (F_Concurrency (emit_file p)) with conc. rewrite (concurrency_again _ _ Hconc).
  cbn [mbind result_bind]. change (F_Supersede (emit_file p)) with sup. rewrite (supersede_again _ _ Hsup). cbn [mbind result_bind].
  change (F_Stages (emit_file p)) with (F_Stages f). rewrite Hres. cbn [mbind result_bind].
  change (F_When (emit_file p)) with (emit_when p). rewrite (when_again _ _ _ Hwhen p eq_refl eq_refl eq_refl). cbn [mbind result_bind].
  change (F_Services (emit_file p)) with (emit_service <$> services). rewrite (services_again _ _ Hser). cbn [mbind result_bind].
  cbn [F_Notifications emit_file parse_notifications mbind result_bind].
  change (F_Materials (emit_file p)) with (materialToSpec <$> filter (fun m => Implicit m = false) mats). rewrite (materials_again _ _ Hmat). cbn [mbind result_bind].
  rewrite resolveExtends_flat.
  - cbn [mbind result_bind map_err]. rewrite Hmap. cbn [mbind result_bind]. rewrite Hn. cbn [mbind result_bind map_err]. rewrite Hc. done.
  - intros n jd Hin. apply index_by_Some in Hin as (j & Hin & <- & <-). split; [done|]. apply Hjobs in Hin as (_ & _ & _ & _ & Hh & _). exact Hh.
Qed.
End Pipelines.

(** ** Example *)

#[local] Instance plain_task_dec cluster t : Decision (plain_task cluster t).
Proof.
  unfold plain_task. destruct (Task_Plugin t) as [p|]; [|apply _]. apply and_dec; [|apply _].
  destruct (ResolvePluginRef (Plugin_Image p)) as [r|]; [|by right].
  destruct (decide (r = Plugin_Image p)) as [->|Hr]; [by left|right; by intros [= ?]].
Defined.
#[local] Instance plain_job_dec j : Decision (plain_job j).
Proof.
  apply and_dec; [apply _|]. destruct (Job_Approval j) as [a|].
  - destruct (decide (Timeout a mod Second = 0)%Z) as [Ha|Ha]; [left; by intros ? [= <-]|right; auto].
  - by left.
Defined.

(** The pipeline with a plugin job, a gate, a deploy and a template. *)
Definition roundtrip_file : File := {|
  F_Name := "shop"; F_Materials := F_Materials example_file ++ [{| MS_Git := None; MS_Upstream := None; MS_Cron := None; MS_Manual := true |}];
  F_Stages := F_Stages example_file; F_Variables := F_Variables example_file; F_Template := "go";
  F_Jobs := <["scan" := mk_jobdef "build" "" "acme/trivy@v1" None (Some {["SEVERITY" := "HIGH"]}) None "" None ∅ None zero_node]> (F_Jobs example_file);
  F_Concurrency := F_Concurrency example_file; F_Supersede := F_Supersede example_file;
  F_When := Some {| W_Status := []; W_Branch := ["main"]; W_Event := ["push"]; W_Paths := ["src/**"] |};
  F_Services := [{| SS_Name := ""; SS_Image := "postgres:16"; SS_Env := ∅; SS_Command := []; SS_NodeSelector := {["disk" := "ssd"]};
                    SS_Tolerations := [{| TS_Key := "ci"; TS_Operator := ""; TS_Value := "yes"; TS_Effect := ""; TS_Seconds := None |}] |}];
  F_Notifications := None |}.
Definition roundtrip_pipeline : Pipeline := match parse_file roundtrip_file "" with Ok p => p | Err _ => zero_pipeline end.
Example roundtrip_reads :
  (@emit_order library_range roundtrip_pipeline, Uses <$> F_Jobs (emit_file roundtrip_pipeline) !! "scan",
   Service_Name <$> Services roundtrip_pipeline, Domain.Template roundtrip_pipeline)
  = (["compile"; "scan"; "gate"; "prod"], Some "acme/trivy:v1", ["postgres"], "go").
Proof. vm_compute. reflexivity. Qed.

Lemma emit_roundtrip_witness :
  parse_file roundtrip_file "" = Ok roundtrip_pipeline /\
  exists js, js ≡ₚ kept_job <$> Jobs roundtrip_pipeline /\
    parse_file (emit_file roundtrip_pipeline) "" = Ok (kept_with roundtrip_pipeline js).
Proof.
  assert (Hp : parse_file roundtrip_file "" = Ok roundtrip_pipeline) by (vm_compute; reflexivity).
  assert (Hplain : Forall plain_job (Jobs roundtrip_pipeline)) by (apply (bool_decide_unpack _); vm_compute; exact I).
  split; [exact Hp|].
  destruct (@emit_roundtrip library_range ascii_only_case (fun _ => []) (fun _ => []) (fun _ => true) roundtrip_file "" "" _ Hp Hplain)
    as (_ & js & Hjs & _ & Hq).
  exists js. split; [exact Hjs|]. exact (Hq "").
Defined.
