(* ===== verification/Sessions.v ===== *)
(** [server/internal/grpcsrv/sessions.go]: the in-memory session table.  The
    state is the store's two maps over a heap of session objects; an operation
    is what one critical section of the mutex does, [None] being a Go panic
    (closing or sending on a closed channel).  The messages are generated
    protobuf types and stay a parameter. *)

From S2P Require Import Prelude.

(** ** Sessions *)

Inductive connState := stateRegistered | stateConnecting | stateReady.
#[export] Instance connState_eq_dec : EqDecision connState.
Proof. solve_decision. Defined.

Inductive dispatch_error :=
| ErrNoSession | ErrSessionBusy | ErrSessionRevoked | ErrConnectClaimed | ErrSessionDraining.
#[export] Instance dispatch_error_eq_dec : EqDecision dispatch_error.
Proof. solve_decision. Defined.

Definition defaultSendBuffer : nat := 16.

Section Sessions.
(** [gocdnextv1.ServerMessage] and [msg.GetAssign() != nil]. *)
Context {Msg : Type} (is_assign : Msg -> bool).

Record Session := {
  ID : string;
  AgentID : string;
  Tags : list string;
  Capacity : Z;
  Engine : string;
  generation : Z;
  out : list Msg;
  closed : bool;
  running : Z;
  revoked : bool;
  draining : bool;
  drainStartedAt : Z;
  state : connState;
  supersededByRegister : bool;
  assignedJobs : gmap string Z;
  finishing : nat;              (* no field of Go's: its results between [ClearAssignment] and [DecRunning] *)
}.

Definition ready (s : Session) : bool := bool_decide (state s = stateReady).

(** Field updates of a session object. *)
Definition set_queue (s : Session) (q : list Msg) (run : Z) (jobs : gmap string Z) : Session :=
  {| ID := ID s; AgentID := AgentID s; Tags := Tags s; Capacity := Capacity s; Engine := Engine s;
     generation := generation s; out := q; closed := closed s; running := run; revoked := revoked s;
     draining := draining s; drainStartedAt := drainStartedAt s; state := state s;
     supersededByRegister := supersededByRegister s; assignedJobs := jobs; finishing := finishing s |}.
Definition set_life (s : Session) (cl rev : bool) (st : connState) (sup : bool) : Session :=
  {| ID := ID s; AgentID := AgentID s; Tags := Tags s; Capacity := Capacity s; Engine := Engine s;
     generation := generation s; out := out s; closed := cl; running := running s; revoked := rev;
     draining := draining s; drainStartedAt := drainStartedAt s; state := st;
     supersededByRegister := sup; assignedJobs := assignedJobs s; finishing := finishing s |}.
Definition set_draining (s : Session) (started : Z) : Session :=
  {| ID := ID s; AgentID := AgentID s; Tags := Tags s; Capacity := Capacity s; Engine := Engine s;
     generation := generation s; out := out s; closed := closed s; running := running s;
     revoked := revoked s; draining := true; drainStartedAt := started; state := state s;
     supersededByRegister := supersededByRegister s; assignedJobs := assignedJobs s; finishing := finishing s |}.
Definition set_finishing (s : Session) (n : nat) : Session :=
  {| ID := ID s; AgentID := AgentID s; Tags := Tags s; Capacity := Capacity s; Engine := Engine s;
     generation := generation s; out := out s; closed := closed s; running := running s;
     revoked := revoked s; draining := draining s; drainStartedAt := drainStartedAt s; state := state s;
     supersededByRegister := supersededByRegister s; assignedJobs := assignedJobs s; finishing := n |}.

Definition IncRunning (s : Session) : Session :=
  set_queue s (out s) (wrap32 (running s + 1)) (assignedJobs s).
Definition DecRunning (s : Session) : Session :=
  set_queue s (out s) (wrap32 (running s - 1)) (assignedJobs s).

(** *** The per-session assignments *)

Definition RecordAssignment (s : Session) (job : string) (attempt : Z) : Session :=
  set_queue s (out s) (running s) (<[job := attempt]> (assignedJobs s)).

Inductive recordResult := recordFresh | recordDuplicate | recordConflict.
Definition recordAssignmentResult (s : Session) (job : string) (attempt : Z) : Session * recordResult :=
  match assignedJobs s !! job with
  | None => (RecordAssignment s job attempt, recordFresh)
  | Some existing => (s, if (existing =? attempt)%Z then recordDuplicate else recordConflict)
  end.
Definition RecordAssignmentCAS (s : Session) (job : string) (attempt : Z) : Session * bool :=
  match assignedJobs s !! job with
  | None => (RecordAssignment s job attempt, true)
  | Some existing => (s, (existing =? attempt)%Z)
  end.
Definition LookupAssignment (s : Session) (job : string) : option Z := assignedJobs s !! job.
Definition ClearAssignment (s : Session) (job : string) : Session :=
  set_queue s (out s) (running s) (delete job (assignedJobs s)).

(** *** The send queue *)

(** [close(sess.out)]. *)
Definition close_out (s : Session) : option Session :=
  if closed s then None else Some (set_life s true (revoked s) (state s) (supersededByRegister s)).
(** [select { case sess.out <- msg: ...; default: ... }]: [Some None] is the
    default branch. *)
Definition try_send (s : Session) (m : Msg) : option (option Session) :=
  if closed s then None
  else if (length (out s) <? defaultSendBuffer)%nat
       then Some (Some (set_queue s (out s ++ [m]) (running s) (assignedJobs s)))
       else Some None.

(** ** The store *)

Record SessionStore := {
  heap : gmap nat Session;
  next : nat;
  byID : gmap string nat;
  latestByAg : gmap string string;
  onReady : bool;
  online : Z;
  fired : nat;
}.

(** [online] is the gauge last published and [fired] counts the [onReady]
    goroutines started; [onReady] says whether a callback is registered. *)
Definition NewSessionStore : SessionStore :=
  {| heap := ∅; next := 0; byID := ∅; latestByAg := ∅; onReady := false; online := 0; fired := 0 |}.

Definition with_heap (st : SessionStore) (p : nat) (s : Session) : SessionStore :=
  {| heap := <[p := s]> (heap st); next := next st; byID := byID st; latestByAg := latestByAg st;
     onReady := onReady st; online := online st; fired := fired st |}.

(** [s.byID[id]], through the pointer. *)
Definition session_of (st : SessionStore) (id : string) : option (nat * Session) :=
  p ← byID st !! id; s ← heap st !! p; Some (p, s).
(** The agent's current session: its id, and the object if the table has it. *)
Definition current (st : SessionStore) (agent : string) : option (string * option (nat * Session)) :=
  id ← latestByAg st !! agent; Some (id, session_of st id).

Definition live_ready (st : SessionStore) (id : string) : bool :=
  match session_of st id with
  | Some (_, s) => negb (revoked s) && ready s
  | None => false
  end.
Definition readyCountLocked (st : SessionStore) : nat :=
  length (filter (fun p => live_ready st (snd p) = true) (map_to_list (latestByAg st))).
Definition publish_gauge (st : SessionStore) : SessionStore :=
  {| heap := heap st; next := next st; byID := byID st; latestByAg := latestByAg st;
     onReady := onReady st; online := Z.of_nat (readyCountLocked st); fired := fired st |}.

Definition SetOnSessionReady (st : SessionStore) (set : bool) : SessionStore :=
  {| heap := heap st; next := next st; byID := byID st; latestByAg := latestByAg st;
     onReady := set; online := online st; fired := fired st |}.

(** The new object of [CreateSession]; the id is [uuid.NewString]'s. *)
Definition fresh_session (id agent : string) (tags : list string) (capacity gen : Z) (engine : string)
    : Session :=
  {| ID := id; AgentID := agent; Tags := tags;
     Capacity := if (capacity <=? 0)%Z then 1%Z else capacity; Engine := engine; generation := gen;
     out := []; closed := false; running := 0; revoked := false; draining := false;
     drainStartedAt := 0; state := stateRegistered; supersededByRegister := false;
     assignedJobs := ∅; finishing := 0 |}.

(** The previous session of the agent is marked superseded and revoked, its
    queue closed, and dropped from the table. *)
Definition evict_previous (st : SessionStore) (agent : string) : option SessionStore :=
  match latestByAg st !! agent with
  | None => Some st
  | Some prev =>
      st' ← match session_of st prev with
            | Some (p, s) =>
                s' ← close_out (set_life s (closed s) true (state s) true);
                Some (with_heap st p s')
            | None => Some st
            end;
      Some {| heap := heap st'; next := next st'; byID := delete prev (byID st');
              latestByAg := latestByAg st'; onReady := onReady st'; online := online st';
              fired := fired st' |}
  end.

Definition CreateSession (st : SessionStore) (id agent : string) (tags : list string)
    (capacity gen : Z) (engine : string) : option (SessionStore * nat) :=
  st ← evict_previous st agent;
  let p := next st in
  Some (publish_gauge
    {| heap := <[p := fresh_session id agent tags capacity gen engine]> (heap st); next := S p;
       byID := <[id := p]> (byID st); latestByAg := <[agent := id]> (latestByAg st);
       onReady := onReady st; online := online st; fired := fired st |}, p).
Definition Create (st : SessionStore) (id agent : string) : option (SessionStore * nat) :=
  CreateSession st id agent [] 1 0 "".

Definition Lookup (st : SessionStore) (id : string) : option nat := byID st !! id.

Definition Revoke (st : SessionStore) (id : string) : option SessionStore :=
  match session_of st id with
  | None => Some st
  | Some (p, s) =>
      s' ← (if revoked s then Some s
            else close_out (set_life s (closed s) true (state s) (supersededByRegister s)));
      let latest := if decide (latestByAg st !! AgentID s = Some id)
                    then delete (AgentID s) (latestByAg st) else latestByAg st in
      Some (publish_gauge
        {| heap := <[p := s']> (heap st); next := next st; byID := delete id (byID st);
           latestByAg := latest; onReady := onReady st; online := online st; fired := fired st |})
  end.

(** The flag is an atomic on the object: it can be set with no lock held. *)
Definition mark_superseded (st : SessionStore) (p : nat) : SessionStore :=
  match heap st !! p with
  | Some s => with_heap st p (set_life s (closed s) (revoked s) (state s) true)
  | None => st
  end.
(** [RevokeForAgent] reads under the lock, then marks and revokes what it read. *)
Definition RevokeForAgent_finish (st : SessionStore) (read : option (string * option (nat * Session)))
    : option SessionStore :=
  match read with
  | None => Some st
  | Some (id, None) => Revoke st id
  | Some (id, Some (p, _)) => Revoke (mark_superseded st p) id
  end.
Definition RevokeForAgent (st : SessionStore) (agent : string) : option SessionStore :=
  RevokeForAgent_finish st (current st agent).

Inductive FenceResult := FenceResultRevoked | FenceResultNoSession | FenceResultGenerationChanged.
(** [FenceStaleSession] likewise: the decision is on the session read. *)
Definition FenceStaleSession_finish (st : SessionStore) (read : option (string * option (nat * Session)))
    (observed : Z) : option (SessionStore * FenceResult) :=
  match read with
  | None | Some (_, None) => Some (st, FenceResultNoSession)
  | Some (id, Some (_, s)) =>
      if negb (generation s =? observed)%Z then Some (st, FenceResultGenerationChanged)
      else st ← Revoke st id; Some (st, FenceResultRevoked)
  end.
Definition FenceStaleSession (st : SessionStore) (agent : string) (observed : Z)
    : option (SessionStore * FenceResult) :=
  FenceStaleSession_finish st (current st agent) observed.

Definition IsAgentSuperseded (st : SessionStore) (agent closing : string) : bool :=
  match latestByAg st !! agent with
  | Some latest => negb (bool_decide (latest = closing))
  | None => false
  end.

Definition ClaimConnect (st : SessionStore) (id : string) : SessionStore * result dispatch_error nat :=
  match session_of st id with
  | None => (st, Err ErrNoSession)
  | Some (p, s) =>
      if revoked s then (st, Err ErrNoSession)
      else if negb (bool_decide (latestByAg st !! AgentID s = Some id)) then (st, Err ErrNoSession)
      else if negb (bool_decide (state s = stateRegistered)) then (st, Err ErrConnectClaimed)
      else (with_heap st p (set_life s (closed s) (revoked s) stateConnecting (supersededByRegister s)),
            Ok p)
  end.

Definition MarkReady (st : SessionStore) (id : string) : SessionStore * result dispatch_error unit :=
  match session_of st id with
  | None => (st, Err ErrNoSession)
  | Some (p, s) =>
      if revoked s || negb (bool_decide (state s = stateConnecting)) then (st, Err ErrNoSession)
      else
        let st := publish_gauge
          (with_heap st p (set_life s (closed s) (revoked s) stateReady (supersededByRegister s))) in
        ({| heap := heap st; next := next st; byID := byID st; latestByAg := latestByAg st;
            onReady := onReady st; online := online st;
            fired := if onReady st then S (fired st) else fired st |}, Ok tt)
  end.

(** ** Dispatch *)

Definition Dispatch (st : SessionStore) (agent : string) (m : Msg)
    : option (SessionStore * result dispatch_error unit) :=
  match current st agent with
  | None | Some (_, None) => Some (st, Err ErrNoSession)
  | Some (_, Some (p, s)) =>
      if revoked s then Some (st, Err ErrNoSession)
      else
        r ← try_send s m;
        match r with
        | Some s => Some (with_heap st p (if is_assign m then IncRunning s else s), Ok tt)
        | None => Some (st, Err ErrSessionBusy)
        end
  end.

Definition DispatchAssignment (st : SessionStore) (agent : string) (m : Msg) (job : string)
    (attempt : Z) : option (SessionStore * result dispatch_error unit) :=
  match current st agent with
  | None | Some (_, None) => Some (st, Err ErrNoSession)
  | Some (_, Some (p, s)) =>
      if revoked s then Some (st, Err ErrNoSession)
      else if negb (ready s) then Some (st, Err ErrNoSession)
      else if draining s then Some (st, Err ErrSessionDraining)
      else match recordAssignmentResult s job attempt with
      | (_, recordConflict) => Some (st, Err ErrSessionBusy)
      | (_, recordDuplicate) => Some (st, Ok tt)
      | (s, recordFresh) =>
          r ← try_send s m;
          match r with
          | Some s => Some (with_heap st p (if is_assign m then IncRunning s else s), Ok tt)
          | None =>
              let s := if decide (LookupAssignment s job = Some attempt)
                       then ClearAssignment s job else s in
              Some (with_heap st p s, Err ErrSessionBusy)
          end
      end
  end.

Definition Release (st : SessionStore) (agent : string) : SessionStore :=
  match current st agent with
  | Some (_, Some (p, s)) => with_heap st p (DecRunning s)
  | _ => st
  end.

(** ** Selection *)

Definition hasAllTags (have required : list string) : bool :=
  forallb (fun t => bool_decide (t ∈ have)) required.

Definition schedulable (s : Session) (required : list string) : bool :=
  negb (revoked s) && ready s && negb (draining s) && (running s <? Capacity s)%Z &&
  hasAllTags (Tags s) required.

Section Selection.
Context `{MapRange}.

(** The first qualifying session, in the order Go ranges over the map. *)
Definition FindIdleWithTags (st : SessionStore) (required : list string) : option string :=
  head (omap (fun '(_, id) =>
    '(_, s) ← session_of st id;
    if schedulable s required then Some (AgentID s) else None) (range_map (latestByAg st))).
Definition FindIdle (st : SessionStore) : option string := FindIdleWithTags st [].

Definition AllAgentIDs (st : SessionStore) (engineFilter : string) : list string :=
  omap (fun '(agent, id) =>
    if decide (engineFilter = "") then Some agent
    else '(_, s) ← session_of st id;
         if decide (Engine s = "" \/ Engine s = engineFilter) then Some agent else None)
    (range_map (latestByAg st)).

Record AgentCapacitySample := { Sample_AgentID : string; Sample_Running : Z; Sample_Capacity : Z }.
Definition CapacitySnapshot (st : SessionStore) : list AgentCapacitySample :=
  omap (fun '(_, id) =>
    '(_, s) ← session_of st id;
    if negb (revoked s) && ready s
    then Some {| Sample_AgentID := AgentID s; Sample_Running := running s; Sample_Capacity := Capacity s |}
    else None) (range_map (latestByAg st)).
End Selection.

(** ** The receive loop's effects on a session ([connect.go]) *)

(** A [Draining] frame. *)
Definition handleDraining (st : SessionStore) (p : nat) (now : Z) : SessionStore :=
  match heap st !! p with
  | Some s => if draining s then st else with_heap st p (set_draining s now)
  | None => st
  end.

(** What [handleJobResult] and [handleDisruptedResult] do to the session.  A
    revoked session's result is dropped, and so is one the session has no
    assignment for; the attempt found is what the store's compare-and-swap is
    given.  Once the store took the completion (SQL, not modelled), the entry and
    then one unit of capacity are given back, on this very session. *)
Definition result_admitted (s : Session) (job : string) : option Z :=
  if revoked s then None else LookupAssignment s job.
Definition result_clear (st : SessionStore) (p : nat) (job : string) : SessionStore :=
  match heap st !! p with
  | Some s => with_heap st p (set_finishing (ClearAssignment s job) (S (finishing s)))
  | None => st
  end.
Definition result_done (st : SessionStore) (p : nat) : SessionStore :=
  match heap st !! p with
  | Some s => with_heap st p (set_finishing (DecRunning s) (pred (finishing s)))
  | None => st
  end.
(** The send pump takes the head of the queue. *)
Definition pump (st : SessionStore) (p : nat) : SessionStore :=
  match heap st !! p with
  | Some s => with_heap st p (set_queue s (tail (out s)) (running s) (assignedJobs s))
  | None => st
  end.

(** ** Executions *)

(** The atomic steps of every goroutine that uses the store.  The two-part
    operations appear as their parts, with arbitrary steps in between.  A result
    is given back at any time after it was admitted, the entry first and its unit of
    capacity any time later; the store's compare-and-swap takes a completion once,
    so the entry is still there. *)
Inductive event :=
| ECreate (id agent : string) (tags : list string) (capacity gen : Z) (engine : string)
| ESupersede (p : nat)
| ERevoke (id : string)
| EClaim (id : string)
| EReady (id : string)
| ESend (agent : string) (m : Msg)
| EAssign (agent : string) (m : Msg) (job : string) (attempt : Z)
| EDrain (p : nat) (now : Z)
| EResult (p : nat) (job : string)
| EResultDone (p : nat)
| EPump (p : nat)
| EHook (set : bool).

Definition exec (st : SessionStore) (e : event) : option SessionStore :=
  match e with
  | ECreate id agent tags capacity gen engine => fst <$> CreateSession st id agent tags capacity gen engine
  | ESupersede p => Some (mark_superseded st p)
  | ERevoke id => Revoke st id
  | EClaim id => Some (ClaimConnect st id).1
  | EReady id => Some (MarkReady st id).1
  | ESend agent m => fst <$> Dispatch st agent m
  | EAssign agent m job attempt => fst <$> DispatchAssignment st agent m job attempt
  | EDrain p now => Some (handleDraining st p now)
  | EResult p job => Some (result_clear st p job)
  | EResultDone p => Some (result_done st p)
  | EPump p => Some (pump st p)
  | EHook set => Some (SetOnSessionReady st set)
  end.

(** A new id is not one already handed out; [Dispatch] is for control frames and
    [DispatchAssignment] for assignments; a result is for an assigned job, and gives
    its unit of capacity back after its entry. *)
Definition enabled (st : SessionStore) (e : event) : Prop :=
  match e with
  | ECreate id _ _ _ _ _ => forall p s, heap st !! p = Some s -> ID s <> id
  | ESend _ m => is_assign m = false
  | EAssign _ m _ _ => is_assign m = true
  | EResult p job => exists s attempt, heap st !! p = Some s /\ LookupAssignment s job = Some attempt
  | EResultDone p => exists s, heap st !! p = Some s /\ 0 < finishing s
  | _ => True
  end.

Inductive step (st : SessionStore) : SessionStore -> Prop :=
| step_exec e st' : enabled st e -> exec st e = Some st' -> step st st'.

Definition reachable (st : SessionStore) : Prop := rtc step NewSessionStore st.

(** ** The invariant *)

Record sess_ok (s : Session) : Prop := {
  ok_closed : closed s = revoked s;
  ok_queue : length (out s) <= defaultSendBuffer;
  ok_assigned : assignedJobs s <> ∅ -> state s = stateReady;
  ok_running : running s = wrap32 (Z.of_nat (size (assignedJobs s) + finishing s));
  ok_capacity : (1 <= Capacity s)%Z;
}.

Record Inv (st : SessionStore) : Prop := {
  inv_byID : forall id p, byID st !! id = Some p ->
    exists s, heap st !! p = Some s /\ ID s = id /\ revoked s = false /\
              latestByAg st !! AgentID s = Some id;
  inv_latest : forall a id, latestByAg st !! a = Some id ->
    exists p s, byID st !! id = Some p /\ heap st !! p = Some s /\ AgentID s = a;
  inv_next : forall p s, heap st !! p = Some s -> p < next st;
  inv_ids : forall p p' s s', heap st !! p = Some s -> heap st !! p' = Some s' -> ID s = ID s' -> p = p';
  inv_sess : forall p s, heap st !! p = Some s -> sess_ok s;
  inv_live : forall p s, heap st !! p = Some s -> revoked s = false -> byID st !! ID s = Some p;
}.

(** What never changes in a session object, and what only goes one way. *)
Definition evolves (s s' : Session) : Prop :=
  ID s' = ID s /\ AgentID s' = AgentID s /\ Tags s' = Tags s /\ Capacity s' = Capacity s /\
  generation s' = generation s /\
  (revoked s = true -> revoked s' = true /\ assignedJobs s' ⊆ assignedJobs s /\
                       exists k, out s' = drop k (out s)) /\
  (state s <> stateRegistered -> state s' <> stateRegistered).

Lemma session_of_Some st id p s :
  session_of st id = Some (p, s) <-> byID st !! id = Some p /\ heap st !! p = Some s.
Proof.
  unfold session_of. split.
  - intros (p' & Hp & H)%bind_Some. apply bind_Some in H as (s' & Hs & [= <- <-]). done.
  - intros [-> Hh]. simpl. by rewrite Hh.
Qed.

Lemma current_Some st a id r :
  current st a = Some (id, r) <-> latestByAg st !! a = Some id /\ r = session_of st id.
Proof.
  unfold current. destruct (latestByAg st !! a) as [id'|]; simpl; [|naive_solver].
  split; [intros [= <- <-]; done|intros [[= ->] ->]; done].
Qed.

(** In a well-formed table the current session is live and is the agent's. *)
Lemma current_live st a id p s :
  Inv st -> current st a = Some (id, Some (p, s)) ->
  latestByAg st !! a = Some id /\ byID st !! id = Some p /\ heap st !! p = Some s /\ ID s = id /\
  revoked s = false /\ AgentID s = a /\ sess_ok s.
Proof.
  intros Hi (Hl & Hs)%current_Some. symmetry in Hs. apply session_of_Some in Hs as [Hb Hh].
  destruct (inv_byID st Hi id p Hb) as (s' & Hh' & Hid & Hrev & Hl'). simplify_eq.
  destruct (inv_latest st Hi a _ Hl) as (p' & s' & Hb' & Hh'' & Ha). simplify_eq.
  split_and!; try done. by eapply inv_sess.
Qed.

Lemma evolves_refl s : evolves s s.
Proof. unfold evolves. split_and!; try done. intros H. split_and!; [done..|]. by exists 0. Qed.
Lemma evolves_trans s1 s2 s3 : evolves s1 s2 -> evolves s2 s3 -> evolves s1 s3.
Proof.
  intros (I1 & A1 & T1 & C1 & G1 & R1 & S1) (I2 & A2 & T2 & C2 & G2 & R2 & S2).
  unfold evolves. split_and!; try congruence; [|auto].
  intros Hr. destruct (R1 Hr) as (Hr' & Hsub & k & Hk), (R2 Hr') as (Hr'' & Hsub' & k' & Hk').
  split_and!; [done|by trans (assignedJobs s2)|]. exists (k + k'). by rewrite Hk', Hk, drop_drop.
Qed.

(** Replacing one object by an evolution of it that keeps the object's
    well-formedness, and does not revoke it, keeps the invariant. *)
Lemma Inv_with_heap st p s s' :
  Inv st -> heap st !! p = Some s -> evolves s s' -> sess_ok s' -> revoked s' = revoked s ->
  Inv (with_heap st p s').
Proof.
  intros Hi Hp (I & A & _) Hok Hrev. split; simpl.
  - intros id q Hq. destruct (inv_byID st Hi id q Hq) as (t & Ht & Hid & Hr & Hl).
    destruct (decide (q = p)) as [->|Hne].
    + simplify_eq. exists s'. rewrite lookup_insert_eq. by rewrite A, I, Hrev.
    + exists t. by rewrite lookup_insert_ne.
  - intros a id Hid. destruct (inv_latest st Hi a id Hid) as (q & t & Hq & Ht & Ha).
    destruct (decide (q = p)) as [->|Hne].
    + simplify_eq. exists p, s'. by rewrite lookup_insert_eq, A.
    + exists q, t. by rewrite lookup_insert_ne.
  - intros q t [[<- <-]|[_ Ht]]%lookup_insert_Some; by eapply inv_next.
  - assert (Hold : forall q t, <[p := s']> (heap st) !! q = Some t ->
        exists t0, heap st !! q = Some t0 /\ ID t0 = ID t).
    { intros q t [[<- <-]|[_ Ht]]%lookup_insert_Some; eauto. }
    intros q q' t t' (t0 & Ht & Hid)%Hold (t0' & Ht' & Hid')%Hold Heq.
    eapply (inv_ids st Hi); [done..|congruence].
  - intros q t [[<- <-]|[_ Ht]]%lookup_insert_Some; [done|by eapply inv_sess].
  - intros q t [[<- <-]|[_ Ht]]%lookup_insert_Some Hr; [|by apply (inv_live st Hi)].
    rewrite I. apply (inv_live st Hi); [done|congruence].
Qed.

(** Every object of the first store is in the second, evolved. *)
Definition grows (st st' : SessionStore) : Prop :=
  forall p s, heap st !! p = Some s -> exists s', heap st' !! p = Some s' /\ evolves s s'.

Lemma grows_refl st : grows st st.
Proof. intros p s Hs. exists s. split; [done|apply evolves_refl]. Qed.
Lemma grows_trans st1 st2 st3 : grows st1 st2 -> grows st2 st3 -> grows st1 st3.
Proof.
  intros H1 H2 p s Hs. destruct (H1 p s Hs) as (s' & Hs' & He), (H2 p s' Hs') as (s'' & ? & ?).
  exists s''. split; [done|by eapply evolves_trans].
Qed.
Lemma grows_insert st st' p s s' :
  heap st !! p = Some s -> heap st' = <[p := s']> (heap st) -> evolves s s' -> grows st st'.
Proof.
  intros Hp Hh He q t Ht. rewrite Hh. destruct (decide (p = q)) as [<-|Hne].
  - rewrite lookup_insert_eq. simplify_eq. eauto.
  - rewrite lookup_insert_ne by done. exists t. split; [done|apply evolves_refl].
Qed.

(** The invariant reads only the heap, the counter and the two maps. *)
Lemma Inv_ext st st' :
  heap st' = heap st -> next st' = next st -> byID st' = byID st ->
  latestByAg st' = latestByAg st -> Inv st -> Inv st'.
Proof. intros Hh Hn Hb Hl [H1 H2 H3 H4 H5 H6]. split; rewrite ?Hh, ?Hn, ?Hb, ?Hl; done. Qed.

Definition good (st st' : SessionStore) : Prop := Inv st' /\ grows st st'.

Lemma good_refl st : Inv st -> good st st.
Proof. intros Hi. split; [done|apply grows_refl]. Qed.

Lemma good_with_heap st p s s' :
  Inv st -> heap st !! p = Some s -> evolves s s' -> sess_ok s' -> revoked s' = revoked s ->
  good st (with_heap st p s').
Proof. intros. split; [by eapply Inv_with_heap|by eapply grows_insert]. Qed.

(** *** Removing a session *)

Lemma good_remove st id p s s' latest :
  Inv st -> byID st !! id = Some p -> heap st !! p = Some s ->
  evolves s s' -> sess_ok s' -> revoked s' = true ->
  latest = delete (AgentID s) (latestByAg st) ->
  forall st', heap st' = <[p := s']> (heap st) -> next st' = next st ->
    byID st' = delete id (byID st) -> latestByAg st' = latest -> good st st'.
Proof.
  intros Hi Hb Hp He Hok Hrs -> st' Hh Hn Hb' Hl'.
  destruct (inv_byID st Hi id p Hb) as (s0 & Hs0 & Hid & Hrev & Hl). simplify_eq.
  destruct He as (I & A & He). split; [|by eapply grows_insert; unfold evolves].
  assert (Hold : forall q t, heap st' !! q = Some t ->
      exists t0, heap st !! q = Some t0 /\ ID t0 = ID t).
  { rewrite Hh. intros q t [[<- <-]|[_ Ht]]%lookup_insert_Some; eauto. }
  split; rewrite ?Hn, ?Hb', ?Hl'.
  - intros id' q [Hne Hq]%lookup_delete_Some.
    destruct (inv_byID st Hi id' q Hq) as (t & Ht & Hid' & Hr & Hlt).
    assert (q <> p) by (intros ->; simplify_eq).
    exists t. rewrite Hh, lookup_insert_ne by done. split_and!; [done..|].
    apply lookup_delete_Some. split; [|done]. intros Heq. rewrite Heq in Hl. congruence.
  - intros a id' [Hne Hq]%lookup_delete_Some.
    destruct (inv_latest st Hi a id' Hq) as (q & t & Hbq & Ht & Ha).
    assert (id' <> ID s) by (intros ->; simplify_eq). assert (q <> p) by (intros ->; simplify_eq).
    exists q, t. rewrite Hh, lookup_insert_ne, lookup_delete_ne by done. done.
  - intros q t (t0 & Ht & _)%Hold. by eapply inv_next.
  - intros q q' t t' (t0 & Ht & Hi1)%Hold (t0' & Ht' & Hi2)%Hold Heq.
    eapply (inv_ids st Hi); [done..|congruence].
  - rewrite Hh. intros q t [[<- <-]|[_ Ht]]%lookup_insert_Some; [done|by eapply inv_sess].
  - rewrite Hh. intros q t [[<- <-]|[Hne Ht]]%lookup_insert_Some Hr; [congruence|].
    apply lookup_delete_Some. split; [|by apply (inv_live st Hi)].
    intros Heq. apply Hne. by eapply (inv_ids st Hi).
Qed.

(** A live object revoked: what both removals make of it. *)
Lemma revoked_ok s sup :
  sess_ok s -> revoked s = false ->
  closed s = false /\
  evolves s (set_life (set_life s (closed s) true (state s) sup) true true (state s) sup) /\
  sess_ok (set_life (set_life s (closed s) true (state s) sup) true true (state s) sup).
Proof.
  intros [H1 H2 H3 H4 H5] Hr. split_and!.
  - by rewrite H1.
  - unfold evolves. simpl. split_and!; try done. congruence.
  - by split.
Qed.

Lemma Revoke_good st id : Inv st -> exists st', Revoke st id = Some st' /\ good st st'.
Proof.
  intros Hi. unfold Revoke. destruct (session_of st id) as [[p s]|] eqn:Hs.
  2: { exists st. split; [done|by apply good_refl]. }
  apply session_of_Some in Hs as [Hb Hp].
  destruct (inv_byID st Hi id p Hb) as (s0 & Hs0 & Hid & Hrev & Hl). simplify_eq.
  destruct (revoked_ok s (supersededByRegister s) (inv_sess st Hi p s Hp) Hrev) as (Hc & He & Hok).
  rewrite Hrev. unfold close_out. simpl. rewrite Hc. simpl. rewrite decide_True by done.
  eexists. split; [done|].
  rewrite Hc in He, Hok. by eapply (good_remove st (ID s) p s _ _ Hi Hb Hp He Hok eq_refl).
Qed.

Lemma evict_good st agent :
  Inv st -> exists st1, evict_previous st agent = Some st1 /\
    Inv {| heap := heap st1; next := next st1; byID := byID st1;
           latestByAg := delete agent (latestByAg st1); onReady := onReady st1;
           online := online st1; fired := fired st1 |} /\
    grows st st1 /\ next st1 = next st /\ latestByAg st1 = latestByAg st /\
    (forall q t, heap st1 !! q = Some t -> exists t0, heap st !! q = Some t0 /\ ID t0 = ID t).
Proof.
  intros Hi. unfold evict_previous. destruct (latestByAg st !! agent) as [prev|] eqn:Hl.
  2: { exists st. split_and!; [done| |apply grows_refl|done..|eauto].
       apply (Inv_ext st); [done..|simpl; by rewrite delete_id|done]. }
  destruct (inv_latest st Hi agent prev Hl) as (p & s & Hb & Hp & Ha).
  destruct (inv_byID st Hi prev p Hb) as (s0 & Hs0 & Hid & Hrev & Hl'). simplify_eq.
  assert (Hs : session_of st (ID s) = Some (p, s)) by by apply session_of_Some.
  destruct (revoked_ok s true (inv_sess st Hi p s Hp) Hrev) as (Hc & He & Hok).
  rewrite Hs. unfold close_out. simpl. rewrite Hc. simpl. eexists. split; [done|].
  rewrite Hc in He, Hok. simpl.
  set (s2 := set_life _ true true (state s) true) in *.
  set (st2 := {| heap := <[p := s2]> (heap st); next := next st; byID := delete (ID s) (byID st);
                 latestByAg := delete (AgentID s) (latestByAg st); onReady := onReady st;
                 online := online st; fired := fired st |}).
  destruct (good_remove st (ID s) p s s2 _ Hi Hb Hp He Hok eq_refl eq_refl st2 eq_refl eq_refl eq_refl eq_refl)
    as [Hinv Hg]. split_and!.
  - eapply Inv_ext; [..|exact Hinv]; reflexivity.
  - intros q t Ht. destruct (Hg q t Ht) as (t' & Ht' & ?). exists t'. done.
  - done.
  - done.
  - intros q t [[<- <-]|[_ Ht]]%lookup_insert_Some; eauto.
Qed.

(** *** Adding a session *)

Lemma fresh_session_ok id agent tags capacity gen engine :
  sess_ok (fresh_session id agent tags capacity gen engine).
Proof.
  split; simpl; try done; [lia|].
  destruct (Z.leb_spec capacity 0); lia.
Qed.

Lemma Inv_add st id agent s st' :
  Inv st -> latestByAg st !! agent = None -> (forall p t, heap st !! p = Some t -> ID t <> id) ->
  ID s = id -> AgentID s = agent -> revoked s = false -> sess_ok s ->
  heap st' = <[next st := s]> (heap st) -> next st' = S (next st) ->
  byID st' = <[id := next st]> (byID st) -> latestByAg st' = <[agent := id]> (latestByAg st) ->
  Inv st'.
Proof.
  intros Hi Hnone Hfresh HI HA Hr Hok Hh Hn Hb Hl.
  assert (Hnext : heap st !! next st = None).
  { destruct (heap st !! next st) eqn:He; [|done]. apply (inv_next st Hi) in He. lia. }
  split; rewrite ?Hh, ?Hn, ?Hb, ?Hl.
  - intros id' q [[<- <-]|[Hne Hq]]%lookup_insert_Some.
    + exists s. rewrite lookup_insert_eq, HA, lookup_insert_eq. done.
    + destruct (inv_byID st Hi id' q Hq) as (t & Ht & Hid & Hrev & Hlt). exists t.
      rewrite lookup_insert_ne by congruence. split_and!; [done..|].
      apply lookup_insert_Some. right. split; [congruence|done].
  - intros a id' [[<- <-]|[Hne Hq]]%lookup_insert_Some.
    + exists (next st), s. by rewrite !lookup_insert_eq.
    + destruct (inv_latest st Hi a id' Hq) as (q & t & Hbq & Ht & Ha). exists q, t.
      assert (id <> id').
      { intros <-. destruct (inv_byID st Hi id q Hbq) as (t' & ? & ? & _). by eapply (Hfresh q). }
      rewrite !lookup_insert_ne by congruence. done.
  - intros q t [[<- <-]|[_ Ht]]%lookup_insert_Some; [lia|]. apply (inv_next st Hi) in Ht. lia.
  - intros q q' t t' Hq Hq' Heq.
    destruct (decide (q = next st)) as [->|Hne], (decide (q' = next st)) as [->|Hne']; [done|..].
    + rewrite lookup_insert_eq in Hq. rewrite lookup_insert_ne in Hq' by done. simplify_eq.
      by destruct (Hfresh q' t' Hq').
    + rewrite lookup_insert_eq in Hq'. rewrite lookup_insert_ne in Hq by done. simplify_eq.
      by destruct (Hfresh q t Hq).
    + rewrite lookup_insert_ne in Hq, Hq' by done. by eapply inv_ids.
  - intros q t [[<- <-]|[_ Ht]]%lookup_insert_Some; [done|by eapply inv_sess].
  - intros q t [[<- <-]|[_ Ht]]%lookup_insert_Some Hrev.
    + rewrite HI. apply lookup_insert_eq.
    + rewrite lookup_insert_ne; [by apply (inv_live st Hi)|]. intros Heq. by eapply (Hfresh q t).
Qed.

Lemma CreateSession_good st id agent tags capacity gen engine :
  Inv st -> (forall p t, heap st !! p = Some t -> ID t <> id) ->
  exists st', CreateSession st id agent tags capacity gen engine = Some (st', next st) /\ good st st' /\
    session_of st' id = Some (next st, fresh_session id agent tags capacity gen engine) /\
    latestByAg st' !! agent = Some id.
Proof.
  intros Hi Hfresh. unfold CreateSession.
  destruct (evict_good st agent Hi) as (st1 & -> & Hinv & Hg & Hn & Hl & Hold). simpl.
  rewrite Hn. eexists. split; [reflexivity|].
  assert (Hnext : heap st1 !! next st = None).
  { destruct (heap st1 !! next st) eqn:He; [|done]. apply (inv_next _ Hinv) in He. simpl in He. lia. }
  split_and!; [split| |].
  - eapply (Inv_add _ id agent (fresh_session id agent tags capacity gen engine) _ Hinv);
      try reflexivity; simpl.
    + by rewrite lookup_delete_eq.
    + intros p t Ht. destruct (Hold p t Ht) as (t0 & Ht0 & <-). by eapply Hfresh.
    + apply fresh_session_ok.
    + by rewrite Hn.
    + by rewrite Hn.
    + by rewrite Hn.
    + symmetry. apply insert_delete_eq.
  - intros p s Hs. destruct (Hg p s Hs) as (s' & Hs' & ?). exists s'. split; [|done].
    simpl. rewrite lookup_insert_ne; [done|]. intros <-. congruence.
  - apply session_of_Some. simpl. split; apply lookup_insert_eq.
  - simpl. apply lookup_insert_eq.
Qed.

(** *** One object replaced *)

Lemma size_delete_job (m : gmap string Z) job attempt :
  m !! job = Some attempt -> size m = S (size (delete job m)).
Proof.
  intros Hj. rewrite <-(insert_delete_id m job attempt) at 1 by done.
  by rewrite map_size_insert_None by apply lookup_delete_eq.
Qed.

Lemma result_clear_good st p job s attempt :
  Inv st -> heap st !! p = Some s -> LookupAssignment s job = Some attempt ->
  good st (result_clear st p job).
Proof.
  intros Hi Hp Ha. unfold result_clear. rewrite Hp. destruct (inv_sess st Hi p s Hp) as [H1 H2 H3 H4 H5].
  assert (Hdel : delete job (assignedJobs s) ⊆ assignedJobs s) by apply delete_subseteq.
  apply good_with_heap with (s := s); try done.
  - unfold evolves. simpl. split_and!; try done. intros ?. split_and!; [done..|by exists 0].
  - split; simpl; try done.
    + intros _. apply H3. intros He. unfold LookupAssignment in Ha. rewrite He in Ha. done.
    + rewrite H4. unfold LookupAssignment in Ha. apply size_delete_job in Ha. rewrite Ha. f_equal. lia.
Qed.
Lemma result_done_good st p s :
  Inv st -> heap st !! p = Some s -> 0 < finishing s -> good st (result_done st p).
Proof.
  intros Hi Hp Hf. unfold result_done. rewrite Hp. destruct (inv_sess st Hi p s Hp) as [H1 H2 H3 H4 H5].
  apply good_with_heap with (s := s); try done.
  - unfold evolves. simpl. split_and!; try done. intros ?. split_and!; [done..|by exists 0].
  - split; simpl; try done. rewrite H4. unfold Z.sub. rewrite wrap32_add. f_equal. lia.
Qed.

Lemma pump_good st p : Inv st -> good st (pump st p).
Proof.
  intros Hi. unfold pump. destruct (heap st !! p) as [s|] eqn:Hp; [|by apply good_refl].
  destruct (inv_sess st Hi p s Hp) as [H1 H2 H3 H4 H5].
  apply good_with_heap with (s := s); try done.
  - unfold evolves. simpl. split_and!; try done. intros ?. split_and!; [done..|]. exists 1.
    by destruct (out s).
  - split; simpl; try done. destruct (out s); simpl in *; lia.
Qed.

Lemma handleDraining_good st p now : Inv st -> good st (handleDraining st p now).
Proof.
  intros Hi. unfold handleDraining. destruct (heap st !! p) as [s|] eqn:Hp; [|by apply good_refl].
  destruct (draining s); [by apply good_refl|]. destruct (inv_sess st Hi p s Hp) as [H1 H2 H3 H4 H5].
  apply good_with_heap with (s := s); try done.
  unfold evolves. simpl. split_and!; try done. intros ?. split_and!; [done..|by exists 0].
Qed.

Lemma mark_superseded_good st p : Inv st -> good st (mark_superseded st p).
Proof.
  intros Hi. unfold mark_superseded. destruct (heap st !! p) as [s|] eqn:Hp; [|by apply good_refl].
  destruct (inv_sess st Hi p s Hp) as [H1 H2 H3 H4 H5].
  apply good_with_heap with (s := s); try done.
  unfold evolves. simpl. split_and!; try done. intros ?. split_and!; [done..|by exists 0].
Qed.

(** A state change of a live session that holds no assignment yet. *)
Lemma set_state_good st p s st' :
  Inv st -> heap st !! p = Some s -> state s <> stateReady -> st' <> stateRegistered ->
  good st (with_heap st p (set_life s (closed s) (revoked s) st' (supersededByRegister s))).
Proof.
  intros Hi Hp Hst Hst'. destruct (inv_sess st Hi p s Hp) as [H1 H2 H3 H4 H5].
  apply good_with_heap with (s := s); try done.
  - unfold evolves. simpl. split_and!; try done. intros ?. split_and!; [done..|by exists 0].
  - split; simpl; try done. intros Hne. by destruct Hst, H3.
Qed.

Lemma ClaimConnect_good st id : Inv st -> good st (ClaimConnect st id).1.
Proof.
  intros Hi. unfold ClaimConnect. destruct (session_of st id) as [[p s]|] eqn:Hs; [|by apply good_refl].
  apply session_of_Some in Hs as [Hb Hp]. destruct (revoked s) eqn:Hr; [by apply good_refl|].
  case_bool_decide; simpl; [|by apply good_refl].
  case_bool_decide as Hst; simpl; [|by apply good_refl].
  rewrite <-Hr. apply set_state_good; [done..|by rewrite Hst|done].
Qed.

Lemma good_ext st st1 st2 :
  good st st1 -> heap st2 = heap st1 -> next st2 = next st1 -> byID st2 = byID st1 ->
  latestByAg st2 = latestByAg st1 -> good st st2.
Proof.
  intros [Hi Hg] Hh Hn Hb Hl. split; [by eapply Inv_ext|].
  intros p s Hs. rewrite Hh. by apply Hg.
Qed.

Lemma MarkReady_good st id : Inv st -> good st (MarkReady st id).1.
Proof.
  intros Hi. unfold MarkReady. destruct (session_of st id) as [[p s]|] eqn:Hs; [|by apply good_refl].
  apply session_of_Some in Hs as [Hb Hp]. destruct (revoked s) eqn:Hr; [by apply good_refl|].
  simpl. case_bool_decide as Hst; simpl; [|by apply good_refl].
  apply (good_ext st (with_heap st p (set_life s (closed s) (revoked s) stateReady
    (supersededByRegister s)))); [|by rewrite ?Hr..].
  apply set_state_good; [done..|by rewrite Hst|done].
Qed.

(** *** Dispatch *)

Lemma try_send_live s m :
  sess_ok s -> revoked s = false ->
  try_send s m = Some (if (length (out s) <? defaultSendBuffer)%nat
                       then Some (set_queue s (out s ++ [m]) (running s) (assignedJobs s)) else None).
Proof. intros [H1 _ _ _ _] Hr. unfold try_send. rewrite H1, Hr. by destruct (_ <? _)%nat. Qed.

Lemma Dispatch_good st agent m :
  Inv st -> is_assign m = false -> exists st' r, Dispatch st agent m = Some (st', r) /\ good st st'.
Proof.
  intros Hi Hm. unfold Dispatch. destruct (current st agent) as [[id [[p s]|]]|] eqn:Hc.
  2,3: eexists _, _; split; [done|by apply good_refl].
  destruct (current_live _ _ _ _ _ Hi Hc) as (Hl & Hb & Hp & Hid & Hr & Ha & Hok).
  rewrite Hr, try_send_live by done. simpl.
  destruct (Nat.ltb_spec (length (out s)) defaultSendBuffer) as [Hlen|Hlen].
  2: { eexists _, _; split; [done|by apply good_refl]. }
  rewrite Hm. eexists _, _. split; [done|]. destruct Hok as [H1 H2 H3 H4 H5].
  apply good_with_heap with (s := s); try done.
  - unfold evolves. simpl. split_and!; try done. congruence.
  - split; simpl; try done. rewrite length_app. simpl. lia.
Qed.

(** The session after an accepted assignment. *)
Definition assigned (s : Session) (m : Msg) (job : string) (attempt : Z) : Session :=
  set_queue s (out s ++ [m]) (wrap32 (running s + 1)) (<[job := attempt]> (assignedJobs s)).

Lemma set_queue_id s : set_queue s (out s) (running s) (assignedJobs s) = s.
Proof. by destruct s. Qed.
Lemma with_heap_id st p s : heap st !! p = Some s -> with_heap st p s = st.
Proof. intros Hp. unfold with_heap. rewrite insert_id by done. by destruct st. Qed.

(** The outcome of [DispatchAssignment], branch by branch, on a live session. *)
Definition assignment_outcome (st : SessionStore) (agent : string) (m : Msg) (job : string)
    (attempt : Z) : SessionStore * result dispatch_error unit :=
  match current st agent with
  | Some (_, Some (p, s)) =>
      if negb (ready s) then (st, Err ErrNoSession)
      else if draining s then (st, Err ErrSessionDraining)
      else match assignedJobs s !! job with
           | Some a => (st, if (a =? attempt)%Z then Ok tt else Err ErrSessionBusy)
           | None => if (length (out s) <? defaultSendBuffer)%nat
                     then (with_heap st p (assigned s m job attempt), Ok tt)
                     else (st, Err ErrSessionBusy)
           end
  | _ => (st, Err ErrNoSession)
  end.

Lemma DispatchAssignment_outcome st agent m job attempt :
  Inv st -> is_assign m = true ->
  DispatchAssignment st agent m job attempt = Some (assignment_outcome st agent m job attempt).
Proof.
  intros Hi Hm. unfold DispatchAssignment, assignment_outcome.
  destruct (current st agent) as [[id [[p s]|]]|] eqn:Hc; [|done..].
  destruct (current_live _ _ _ _ _ Hi Hc) as (Hl & Hb & Hp & Hid & Hr & Ha & Hok).
  rewrite Hr. destruct (ready s); [|done]. simpl. destruct (draining s); [done|].
  unfold recordAssignmentResult. destruct (assignedJobs s !! job) as [a|] eqn:Hj.
  { by destruct (a =? attempt)%Z. }
  assert (Hok' : closed s = false) by (destruct Hok; congruence).
  unfold try_send. simpl. rewrite Hok'.
  destruct (length (out s) <? defaultSendBuffer)%nat; simpl; [by rewrite Hm|].
  unfold LookupAssignment. simpl. rewrite lookup_insert_eq, decide_True by done.
  f_equal. f_equal. unfold ClearAssignment, RecordAssignment. simpl.
  rewrite delete_insert_id by done. 
  replace (set_queue _ _ _ _) with s by (by destruct s). by apply with_heap_id.
Qed.

Lemma assignment_good st agent m job attempt :
  Inv st -> good st (assignment_outcome st agent m job attempt).1.
Proof.
  intros Hi. unfold assignment_outcome.
  destruct (current st agent) as [[id [[p s]|]]|] eqn:Hc; [|by apply good_refl..].
  destruct (current_live _ _ _ _ _ Hi Hc) as (Hl & Hb & Hp & Hid & Hr & Ha & Hok).
  unfold ready. case_bool_decide as Hst; simpl; [|by apply good_refl].
  destruct (draining s); [by apply good_refl|].
  destruct (assignedJobs s !! job) as [a|] eqn:Hj; [by apply good_refl|].
  destruct (Nat.ltb_spec (length (out s)) defaultSendBuffer); [|by apply good_refl].
  destruct Hok as [H1 H2 H3 H4 H5]. simpl.
  apply good_with_heap with (s := s); try done.
  - unfold evolves. simpl. split_and!; try done. congruence.
  - split; simpl; try done.
    + rewrite length_app. simpl. lia.
    + rewrite H4, wrap32_add, map_size_insert_None by done. f_equal. lia.
Qed.

(** *** Every step *)

Lemma exec_good st e :
  Inv st -> enabled st e -> exists st', exec st e = Some st' /\ good st st'.
Proof.
  intros Hi He. destruct e; simpl in *.
  - destruct (CreateSession_good st id agent tags capacity gen engine Hi He) as (st' & -> & Hg & _).
    by exists st'.
  - eexists. split; [done|by apply mark_superseded_good].
  - by apply Revoke_good.
  - eexists. split; [done|by apply ClaimConnect_good].
  - eexists. split; [done|by apply MarkReady_good].
  - destruct (Dispatch_good st agent m Hi He) as (st' & r & -> & Hg). by exists st'.
  - rewrite DispatchAssignment_outcome by done. eexists. split; [done|by apply assignment_good].
  - eexists. split; [done|by apply handleDraining_good].
  - destruct He as (s & attempt & Hp & Ha). eexists. split; [done|by eapply result_clear_good].
  - destruct He as (s & Hp & Hf). eexists. split; [done|by eapply result_done_good].
  - eexists. split; [done|by apply pump_good].
  - eexists. split; [done|]. eapply good_ext; [by apply good_refl|done..].
Qed.

Lemma steps_good st st' : Inv st -> rtc step st st' -> good st st'.
Proof.
  intros Hi Hr. induction Hr as [st|st st1 st' [e ? He Hx] _ IH]; [by apply good_refl|].
  destruct (exec_good st e Hi He) as (st2 & Hx' & Hi2 & Hg2). simplify_eq.
  destruct (IH Hi2) as [Hi' Hg']. split; [done|by eapply grows_trans].
Qed.

Lemma Inv_init : Inv NewSessionStore.
Proof. split; simpl; intros *; by rewrite lookup_empty. Qed.

Lemma reachable_Inv st : reachable st -> Inv st.
Proof. intros Hr. by apply (steps_good NewSessionStore st Inv_init) in Hr as [? _]. Qed.

(** ** Properties *)

(** C23: In every reachable state of the session table, and for every operation a
    goroutine may run next: no channel is closed twice or written after being
    closed (no panic); the two maps describe the same live sessions; only a
    session that was connected holds assignments; and the running counter is the
    number of jobs assigned to the session, plus that of results it is still handling,
    whose entry is gone and whose unit is not given back yet. *)
Theorem sessions_safe (st : SessionStore) :
  reachable st ->
  Inv st /\ forall e, enabled st e -> is_Some (exec st e).
Proof.
  intros Hi%reachable_Inv. split; [done|]. intros e He.
  destruct (exec_good st e Hi He) as (st' & -> & _). by exists st'.
Qed.

(** An assignment goes to exactly the session it is recorded on. On success
    the agent's current session is live, connected and not draining; either the
    same attempt was already there and nothing changes, or the frame is queued on
    that one session together with its record and one unit of capacity. A
    refused dispatch leaves the whole table as it was. *)
Theorem dispatch_assignment_atomic (st : SessionStore) (agent : string) (m : Msg) (job : string)
    (attempt : Z) :
  reachable st -> is_assign m = true ->
  exists st' r, DispatchAssignment st agent m job attempt = Some (st', r) /\
    match r with
    | Err _ => st' = st
    | Ok _ =>
        exists id p s, current st agent = Some (id, Some (p, s)) /\ revoked s = false /\
          state s = stateReady /\ draining s = false /\
          ((LookupAssignment s job = Some attempt /\ st' = st) \/
           (LookupAssignment s job = None /\ st' = with_heap st p (assigned s m job attempt)))
    end.
Proof.
  intros Hi%reachable_Inv Hm. rewrite DispatchAssignment_outcome by done.
  eexists _, _. split; [apply f_equal, surjective_pairing|]. unfold assignment_outcome.
  destruct (current st agent) as [[id [[p s]|]]|] eqn:Hc; [|done..].
  destruct (current_live _ _ _ _ _ Hi Hc) as (_ & _ & _ & _ & Hr & _ & _).
  unfold ready. case_bool_decide; simpl; [|done]. destruct (draining s) eqn:Hd; [done|].
  unfold LookupAssignment. destruct (assignedJobs s !! job) as [a|] eqn:Hj.
  - destruct (Z.eqb_spec a attempt) as [->|]; simpl; [|done]. exists id, p, s. naive_solver.
  - destruct (_ <? _)%nat; simpl; [|done]. exists id, p, s. naive_solver.
Qed.

(** Fencing a stale agent cannot hit its successor, however the two critical
    sections of the fence interleave with every other operation: if the session
    read carried the observed generation, then after any further steps the fence
    removes at most that session, and every session of another generation is
    still in the table, untouched. *)
Theorem fence_spares_successor (st1 st2 st3 : SessionStore) (agent : string) (observed : Z)
    (r : FenceResult) :
  reachable st1 -> rtc step st1 st2 ->
  FenceStaleSession_finish st2 (current st1 agent) observed = Some (st3, r) ->
  (forall id p s, session_of st2 id = Some (p, s) -> generation s <> observed ->
     session_of st3 id = Some (p, s)) /\
  (r = FenceResultRevoked -> exists id p s, current st1 agent = Some (id, Some (p, s)) /\
     generation s = observed /\ session_of st3 id = None /\
     exists s', heap st3 !! p = Some s' /\ revoked s' = true).
Proof.
  intros Hi1%reachable_Inv Hsteps Hf. destruct (steps_good st1 st2 Hi1 Hsteps) as [Hi2 Hg].
  destruct (current st1 agent) as [[id [[p s]|]]|] eqn:Hc; simpl in Hf; simplify_eq;
    [|by split..].
  destruct (Z.eqb_spec (generation s) observed) as [Hgen|]; simpl in Hf; simplify_eq; [|by split].
  destruct (current_live _ _ _ _ _ Hi1 Hc) as (Hl & Hb & Hp & Hid & Hr & Ha & _).
  destruct (Hg p s Hp) as (s2 & Hp2 & HI & _ & _ & _ & HG & Hrev & _).
  unfold Revoke in Hf. destruct (session_of st2 id) as [[p' s']|] eqn:Hs.
  - apply session_of_Some in Hs as [Hb2 Hp'].
    destruct (inv_byID st2 Hi2 id p' Hb2) as (t & Ht & Hid' & Hr' & Hl').
    assert (t = s') as -> by congruence.
    assert (p' = p) as -> by (eapply (inv_ids st2 Hi2 p' p s' s2); [done..|congruence]).
    assert (s' = s2) as -> by congruence.
    rewrite Hr' in Hf. unfold close_out in Hf. simpl in Hf.
    assert (Hcl : closed s2 = false) by (rewrite (ok_closed s2); [done|by eapply inv_sess]).
    rewrite Hcl in Hf. simpl in Hf. injection Hf as <- <-. split.
    + intros id' p' u [Hbu Hpu]%session_of_Some Hne. apply session_of_Some. simpl.
      assert (Hpp : p <> p') by (intros <-; congruence).
      destruct (inv_byID st2 Hi2 id' p' Hbu) as (u' & Hu & Hidu & _).
      rewrite lookup_insert_ne by done. split; [|done]. apply lookup_delete_Some. split; [|done].
      intros Heq. congruence.
    + intros _. eexists _, p, s. split_and!; [done..| |].
      * unfold session_of. simpl. by rewrite lookup_delete_eq.
      * eexists. simpl. by rewrite lookup_insert_eq.
  - injection Hf as <- <-. split; [done|]. intros _. exists id, p, s. split_and!; [done..|].
    exists s2. split; [done|]. destruct (revoked s2) eqn:Hr2; [done|].
    apply (inv_live st2 Hi2 p s2 Hp2) in Hr2.
    assert (session_of st2 id = Some (p, s2)) by (apply session_of_Some; by rewrite <-Hid, <-HI).
    congruence.
Qed.

(** A session is claimed by at most one Connect stream, ever: once a claim
    succeeded, no later claim of the same session succeeds. *)
Theorem claim_exclusive (st1 st2 : SessionStore) (id : string) (p : nat) :
  reachable st1 -> (ClaimConnect st1 id).2 = Ok p -> rtc step (ClaimConnect st1 id).1 st2 ->
  forall q, (ClaimConnect st2 id).2 <> Ok q.
Proof.
  intros Hi1%reachable_Inv Hc Hsteps.
  pose proof (ClaimConnect_good st1 id Hi1) as [Hi1' Hg1].
  destruct (steps_good _ _ Hi1' Hsteps) as [Hi2 Hg2].
  unfold ClaimConnect in Hc, Hi1', Hg2. destruct (session_of st1 id) as [[p' s]|] eqn:Hs; [|done].
  destruct (revoked s) eqn:Hr; [done|]. case_bool_decide; [|done]. simpl in *.
  case_bool_decide; [|done]. simpl in *. simplify_eq.
  apply session_of_Some in Hs as [Hb Hp].
  destruct (inv_byID st1 Hi1 id p Hb) as (t & Ht & Hid & _).
  assert (t = s) as -> by congruence.
  destruct (Hg2 p _ (lookup_insert_eq _ _ _)) as (s2 & Hp2 & HI & _ & _ & _ & _ & _ & Hst). simpl in *.
  intros q. unfold ClaimConnect. destruct (session_of st2 id) as [[p2 t2]|] eqn:Hs2; [|done].
  apply session_of_Some in Hs2 as [Hb2 Ht2].
  destruct (inv_byID st2 Hi2 _ p2 Hb2) as (t' & Ht' & Hid' & _).
  assert (p2 = p) as -> by (eapply (inv_ids st2 Hi2 p2 p t' s2); [done..|congruence]).
  assert (t2 = s2) as -> by congruence.
  destruct (revoked s2); [done|]. destruct (bool_decide (latestByAg st2 !! _ = _)); [|done]. simpl.
  rewrite bool_decide_eq_false_2 by (apply Hst; discriminate). done.
Qed.

(** The idle scan answers an agent exactly when there is one that can take
    the job, whatever order the table is walked in: the agent's current session
    is live, connected, not draining, has a free unit and every required tag. *)
Theorem find_idle_correct `{MapRange} (st : SessionStore) (required : list string) :
  reachable st ->
  match FindIdleWithTags st required with
  | Some agent => exists id p s, current st agent = Some (id, Some (p, s)) /\
      schedulable s required = true
  | None => forall agent id p s, current st agent = Some (id, Some (p, s)) ->
      schedulable s required = false
  end.
Proof.
  intros Hi%reachable_Inv. unfold FindIdleWithTags.
  match goal with |- context[head ?x] => destruct (head x) as [a|] eqn:Hh; set (l := x) in * end.
  - assert (Ha : a ∈ l) by (destruct l; simplify_eq/=; set_solver).
    apply list_elem_of_omap in Ha as ([agent id] & Hin & Hs).
    apply elem_of_range_map in Hin. simpl in Hs.
    destruct (session_of st id) as [[p s]|] eqn:Hs'; simplify_eq/=.
    destruct (schedulable s required) eqn:Hsch; simplify_eq.
    assert (Hc : current st agent = Some (id, Some (p, s))) by (unfold current; by rewrite Hin, <-Hs').
    destruct (current_live _ _ _ _ _ Hi Hc) as (_ & _ & _ & _ & _ & Ha & _).
    exists id, p, s. by rewrite Ha.
  - intros agent id p s Hc. destruct (schedulable s required) eqn:Hsch; [|done].
    apply current_Some in Hc as [Hl Hs].
    assert (Hin : AgentID s ∈ l).
    { apply list_elem_of_omap. exists (agent, id). split; [by apply elem_of_range_map|].
      by rewrite <-Hs; simpl; rewrite Hsch. }
    destruct l; [set_solver|done].
Qed.

End Sessions.

(** ** A run of the table *)

(** Two registrations of one agent: the first session is evicted, the second is
    claimed and made ready; frames are booleans, [true] the assignments. *)
Definition sample_events : list (event (Msg := bool)) :=
  [ECreate "s1" "a" ["linux"] 2 7 ""; EClaim "s1"; EReady "s1"; EAssign "a" true "j1" 0;
   ECreate "s2" "a" ["linux"] 2 8 ""; EClaim "s2"; EReady "s2"; EAssign "a" true "j2" 0].

Fixpoint run_events (st : SessionStore (Msg := bool)) (es : list (event (Msg := bool)))
    : option SessionStore :=
  match es with
  | [] => Some st
  | e :: es => st' ← exec id st e; run_events st' es
  end.

(** [enabled], decided. *)
Definition enabledb (st : SessionStore (Msg := bool)) (e : event (Msg := bool)) : bool :=
  match e with
  | ECreate id _ _ _ _ _ => forallb (fun ps => negb (bool_decide (ID (snd ps) = id))) (map_to_list (heap st))
  | ESend _ m => negb m
  | EAssign _ m _ _ => m
  | EResult p job => match heap st !! p with
                     | Some s => bool_decide (is_Some (LookupAssignment s job)) | None => false end
  | EResultDone p => match heap st !! p with Some s => (0 <? finishing s)%nat | None => false end
  | _ => true
  end.
Lemma enabledb_ok st e : enabledb st e = true -> enabled id st e.
Proof.
  destruct e; simpl; try done.
  - intros Hf p s Hp. rewrite forallb_forall in Hf.
    specialize (Hf (p, s)). simpl in Hf. rewrite <-list_elem_of_In, elem_of_map_to_list in Hf.
    apply Hf in Hp. by case_bool_decide.
  - by destruct m.
  - destruct (heap st !! p) as [s|] eqn:Hp; [|done]. intros [a Ha]%bool_decide_eq_true_1. eauto.
  - destruct (heap st !! p) as [s|] eqn:Hp; [|done]. intros Hf%Nat.ltb_lt. eauto.
Qed.

Fixpoint all_enabled (st : SessionStore (Msg := bool)) (es : list (event (Msg := bool))) : bool :=
  match es with
  | [] => true
  | e :: es => enabledb st e && match exec id st e with Some st' => all_enabled st' es | None => false end
  end.

Lemma run_steps st es st' :
  all_enabled st es = true -> run_events st es = Some st' -> rtc (step id) st st'.
Proof.
  revert st. induction es as [|e es IH]; intros st; simpl; [intros _ [= ->]; apply rtc_refl|].
  intros [He Hx]%andb_prop. destruct (exec id st e) as [st1|] eqn:Hs; [|done]. simpl. intros Hr.
  eapply rtc_l; [|by apply IH]. econstructor; [by apply enabledb_ok|done].
Qed.

Definition after (n : nat) : SessionStore (Msg := bool) :=
  default NewSessionStore (run_events NewSessionStore (take n sample_events)).

Lemma after_reachable n : n <= 8 -> reachable id (after n).
Proof.
  intros Hn. apply run_steps with (es := take n sample_events);
    do 9 (destruct n as [|n]; [vm_compute; reflexivity|]); lia.
Qed.
Lemma after_steps n : n <= 8 -> rtc (step id) (after n) (after 8).
Proof.
  intros Hn. apply run_steps with (es := drop n sample_events);
    do 9 (destruct n as [|n]; [vm_compute; reflexivity|]); lia.
Qed.

Lemma sessions_safe_witness :
  reachable id (after 8) /\ Inv (after 8) /\ forall e, enabled id (after 8) e -> is_Some (exec id (after 8) e).
Proof. split; [by apply after_reachable; lia|]. apply (sessions_safe id). apply after_reachable. lia. Defined.

Lemma dispatch_assignment_atomic_witness :
  exists st' r, DispatchAssignment id (after 8) "a" true "j3" 0 = Some (st', r) /\
    match r with
    | Err _ => st' = after 8
    | Ok _ => exists i p s, current (after 8) "a" = Some (i, Some (p, s)) /\ revoked s = false /\
        state s = stateReady /\ draining s = false /\
        ((LookupAssignment s "j3" = Some 0%Z /\ st' = after 8) \/
         (LookupAssignment s "j3" = None /\ st' = with_heap (after 8) p (assigned s true "j3" 0)))
    end.
Proof. apply (dispatch_assignment_atomic id); [apply after_reachable; lia|reflexivity]. Defined.

(** The fence read the session of generation 7; by the time it acts the agent has
    registered again. *)
Lemma fence_spares_successor_witness :
  exists st3, FenceStaleSession_finish (after 8) (current (after 4) "a") 7 = Some (st3, FenceResultRevoked) /\
  ((forall i p s, session_of (after 8) i = Some (p, s) -> generation s <> 7%Z ->
     session_of st3 i = Some (p, s)) /\
  (FenceResultRevoked = FenceResultRevoked -> exists i p s,
     current (after 4) "a" = Some (i, Some (p, s)) /\ generation s = 7%Z /\ session_of st3 i = None /\
     exists s', heap st3 !! p = Some s' /\ revoked s' = true)).
Proof.
  eexists. split; [vm_compute; reflexivity|].
  apply (fence_spares_successor id (after 4) (after 8) _ "a" 7 FenceResultRevoked);
    [apply after_reachable; lia|apply after_steps; lia|vm_compute; reflexivity].
Defined.

Lemma claim_exclusive_witness :
  (ClaimConnect (after 1) "s1").2 = Ok 0 /\ forall q, (ClaimConnect (after 8) "s1").2 <> Ok q.
Proof.
  split; [vm_compute; reflexivity|].
  apply (claim_exclusive id (after 1) (after 8) "s1" 0);
    [apply after_reachable; lia|vm_compute; reflexivity|].
  change (ClaimConnect (after 1) "s1").1 with (after 2). apply after_steps. lia.
Defined.

Lemma find_idle_correct_witness :
  FindIdleWithTags (H := library_range) (after 8) ["linux"] = Some "a" /\
  match FindIdleWithTags (H := library_range) (after 8) ["linux"] with
  | Some agent => exists i p s, current (after 8) agent = Some (i, Some (p, s)) /\
      schedulable s ["linux"] = true
  | None => forall agent i p s, current (after 8) agent = Some (i, Some (p, s)) ->
      schedulable s ["linux"] = false
  end.
Proof.
  split; [vm_compute; reflexivity|]. apply (find_idle_correct id). apply after_reachable. lia.
Defined.
