(* ===== verification/Compliance.v ===== *)
(** [server/pkg/compliance]: the merge of enforced policies into a project's
    pipeline ([merge.go]) and the server-owned pipeline of a project that has
    none ([synth.go]). *)

From S2P Require Import Prelude GoStrings Domain ValidateNeeds ParseHelpers.

Definition ModeInject : string := "inject".
Definition ModeOverride : string := "override".
Definition ReservedPrefix : string := "_compliance_".

Record Policy := {
  Policy_Name : string;
  Mode : string;
  Priority : Z;
  PositionBefore : string;
  PositionAfter : string;
  Policy_Pipeline : Pipeline;
}.

Definition reserved (name : string) : bool := HasPrefix name ReservedPrefix.

Definition stripReservedStages (stages : list string) : list string :=
  filter (fun s => reserved s = false) stages.
Definition stripReservedJobs (jobs : list Job) : list Job :=
  filter (fun j => reserved (Job_Name j) = false) jobs.

(** The jobs of [add] whose name is not in [seen], first occurrences. *)
Fixpoint fresh_jobs (seen : gset string) (add : list Job) : list Job :=
  match add with
  | [] => []
  | j :: add =>
      if decide (Job_Name j ∈ seen) then fresh_jobs seen add
      else j :: fresh_jobs ({[Job_Name j]} ∪ seen) add
  end.
Definition appendUniqueJobs (existing add : list Job) : list Job :=
  existing ++ fresh_jobs (list_to_set (Job_Name <$> existing)) add.

(** The index of the first occurrence; [None] is the code's -1. *)
Definition indexOf (ss : list string) (want : string) : option nat :=
  fst <$> list_find (fun s => s = want) ss.

Definition anchor (base : list string) (before after : string) : nat :=
  match (if decide (before = "") then None else indexOf base before) with
  | Some i => i
  | None => match (if decide (after = "") then None else indexOf base after) with
            | Some i => S i
            | None => 0
            end
  end.
Definition insertStages (base add : list string) (before after : string) : list string :=
  let fresh := dedup_from (list_to_set base) add in
  match fresh with
  | [] => base
  | _ => let idx := anchor base before after in take idx base ++ fresh ++ drop idx base
  end.

Definition policy_lt (a b : Policy) : bool :=
  if negb (Priority a =? Priority b)%Z then (Priority a <? Priority b)%Z
  else String.ltb (Policy_Name a) (Policy_Name b).

Definition apply_policy (out : Pipeline) (p : Policy) : Pipeline :=
  if decide (Mode p = ModeOverride)
  then with_stages_jobs out (Stages (Policy_Pipeline p)) (Jobs (Policy_Pipeline p))
  else with_stages_jobs out
         (insertStages (Stages out) (Stages (Policy_Pipeline p)) (PositionBefore p) (PositionAfter p))
         (appendUniqueJobs (Jobs out) (Jobs (Policy_Pipeline p))).

Definition ApplyPolicies (raw : Pipeline) (policies : list Policy) : Pipeline :=
  match policies with
  | [] => raw
  | _ => foldl apply_policy
           (with_stages_jobs raw (stripReservedStages (Stages raw)) (stripReservedJobs (Jobs raw)))
           (stable_sort policy_lt policies)
  end.

(** ** The guards *)

Inductive compliance_error :=
| PolicyStageName (s : string) | PolicyJobName (j : string)
| RepoStageReserved (s : string) | RepoJobReserved (j : string).
#[export] Instance compliance_error_eq_dec : EqDecision compliance_error.
Proof. solve_decision. Defined.

Definition ValidatePolicyNames (p : Pipeline) : result compliance_error unit :=
  _ ← check_all (fun s => check (reserved s) (PolicyStageName s)) (Stages p);
  check_all (fun j => check (reserved (Job_Name j)) (PolicyJobName (Job_Name j))) (Jobs p).
Definition RejectReservedNames (raw : Pipeline) : result compliance_error unit :=
  _ ← check_all (fun s => check (negb (reserved s)) (RepoStageReserved s)) (Stages raw);
  check_all (fun j => check (negb (reserved (Job_Name j))) (RepoJobReserved (Job_Name j))) (Jobs raw).

(** ** The pieces of the merge *)

(** What [ValidatePolicyNames] and [RejectReservedNames] promise. *)
Definition all_reserved (p : Pipeline) : Prop :=
  (forall s, s ∈ Stages p -> reserved s = true) /\
  (forall j, j ∈ Jobs p -> reserved (Job_Name j) = true).
Definition none_reserved (p : Pipeline) : Prop :=
  (forall s, s ∈ Stages p -> reserved s = false) /\
  (forall j, j ∈ Jobs p -> reserved (Job_Name j) = false).

Lemma check_names_Ok {E} (ps : list string) (js : list Job) (b : string -> bool) (f g : string -> E) :
  (_ ← check_all (fun s => check (b s) (f s)) ps;
   check_all (fun j => check (b (Job_Name j)) (g (Job_Name j))) js) = Ok tt <->
  (forall s, s ∈ ps -> b s = true) /\ (forall j, j ∈ js -> b (Job_Name j) = true).
Proof.
  rewrite bind_Ok. setoid_rewrite check_all_Ok. setoid_rewrite Forall_forall.
  setoid_rewrite check_Ok. split.
  - intros ([] & Hs & Hj). apply check_all_Ok in Hs. rewrite Forall_forall in Hs.
    setoid_rewrite check_Ok in Hs. done.
  - intros [Hs Hj]. exists tt. split; [|done]. apply check_all_Ok, Forall_forall.
    intros s Hin. by apply check_Ok, Hs.
Qed.

Lemma ValidatePolicyNames_Ok p : ValidatePolicyNames p = Ok tt <-> all_reserved p.
Proof. apply (check_names_Ok (Stages p) (Jobs p) reserved). Qed.
Lemma RejectReservedNames_Ok p : RejectReservedNames p = Ok tt <-> none_reserved p.
Proof.
  unfold RejectReservedNames. rewrite (check_names_Ok _ _ (fun s => negb (reserved s))).
  unfold none_reserved. by setoid_rewrite negb_true_iff.
Qed.

Lemma strip_stages_id (l : list string) : (forall s, s ∈ l -> reserved s = false) -> stripReservedStages l = l.
Proof.
  intros Hl. unfold stripReservedStages. induction l as [|s l IH]; [done|].
  rewrite filter_cons_True, IH by set_solver. done.
Qed.
Lemma strip_jobs_id l : (forall j, j ∈ l -> reserved (Job_Name j) = false) -> stripReservedJobs l = l.
Proof.
  intros Hl. unfold stripReservedJobs. induction l as [|s l IH]; [done|].
  rewrite filter_cons_True, IH by set_solver. done.
Qed.
Lemma strip_stages_nil l : (forall s, s ∈ l -> reserved s = true) -> stripReservedStages l = [].
Proof.
  intros Hl. unfold stripReservedStages. induction l as [|s l IH]; [done|].
  rewrite filter_cons_False, IH; [done|set_solver|]. rewrite Hl by set_solver. done.
Qed.
Lemma strip_jobs_nil l : (forall j, j ∈ l -> reserved (Job_Name j) = true) -> stripReservedJobs l = [].
Proof.
  intros Hl. unfold stripReservedJobs. induction l as [|s l IH]; [done|].
  rewrite filter_cons_False, IH; [done|set_solver|]. rewrite Hl by set_solver. done.
Qed.

Lemma elem_of_fresh_jobs seen add j :
  j ∈ fresh_jobs seen add -> j ∈ add /\ Job_Name j ∉ seen.
Proof.
  revert seen. induction add as [|k add IH]; intros seen; simpl; [set_solver|].
  case_decide; rewrite ?elem_of_cons.
  - intros Hj. destruct (IH _ Hj). auto.
  - intros [->|Hj]; [auto|]. destruct (IH _ Hj). set_solver.
Qed.
Lemma fresh_jobs_all seen add :
  NoDup (Job_Name <$> add) -> (forall j, j ∈ add -> Job_Name j ∉ seen) -> fresh_jobs seen add = add.
Proof.
  revert seen. induction add as [|k add IH]; intros seen; [done|]. csimpl.
  intros [Hk Hnd]%NoDup_cons Hs. rewrite decide_False by (apply Hs; set_solver).
  f_equal. apply IH; [done|]. intros j Hj. specialize (Hs j ltac:(set_solver)).
  apply not_elem_of_union. split; [|done]. intros Heq%elem_of_singleton. apply Hk.
  rewrite <-Heq. by apply list_elem_of_fmap_2.
Qed.
Lemma dedup_from_all seen add :
  NoDup add -> (forall s, s ∈ add -> s ∉ seen) -> dedup_from seen add = add.
Proof.
  revert seen. induction add as [|k add IH]; intros seen; [done|]. simpl.
  intros [Hk Hnd]%NoDup_cons Hs. rewrite decide_False by (apply Hs; set_solver).
  f_equal. apply IH; [done|]. set_solver.
Qed.

(** Inserted stages are spliced in as one block. *)
Lemma insertStages_block base add before after :
  exists l1 l2, base = l1 ++ l2 /\
    insertStages base add before after = l1 ++ dedup_from (list_to_set base) add ++ l2.
Proof.
  unfold insertStages. destruct (dedup_from _ _) as [|s fresh].
  - exists base, []. simpl; by rewrite app_nil_r.
  - eexists _, _. split; [symmetry; apply take_drop|done].
Qed.
Lemma elem_of_insertStages base add before after s :
  s ∈ insertStages base add before after <-> s ∈ base \/ s ∈ add.
Proof.
  destruct (insertStages_block base add before after) as (l1 & l2 & -> & ->).
  rewrite !elem_of_app, elem_of_dedup_from, elem_of_list_to_set, elem_of_app.
  destruct (decide (s ∈ l1)), (decide (s ∈ l2)); naive_solver.
Qed.
Lemma strip_insertStages base add before after :
  (forall s, s ∈ add -> reserved s = true) ->
  stripReservedStages (insertStages base add before after) = stripReservedStages base.
Proof.
  intros Ha. destruct (insertStages_block base add before after) as (l1 & l2 & -> & ->).
  unfold stripReservedStages. rewrite !filter_app.
  rewrite (strip_stages_nil (dedup_from _ _)); [done|].
  intros s Hs%elem_of_dedup_from. naive_solver.
Qed.
Lemma strip_appendUniqueJobs existing add :
  (forall j, j ∈ add -> reserved (Job_Name j) = true) ->
  stripReservedJobs (appendUniqueJobs existing add) = stripReservedJobs existing.
Proof.
  intros Ha. unfold appendUniqueJobs, stripReservedJobs. rewrite filter_app.
  rewrite (strip_jobs_nil (fresh_jobs _ _)); [by rewrite app_nil_r|].
  intros j Hj%elem_of_fresh_jobs. naive_solver.
Qed.

(** ** The merge, policy by policy *)

Definition overrides (p : Policy) : bool := bool_decide (Mode p = ModeOverride).
Definition policy_ok (p : Policy) : Prop := ValidatePolicyNames (Policy_Pipeline p) = Ok tt.

Lemma apply_policy_override out p :
  overrides p = true ->
  apply_policy out p = with_stages_jobs out (Stages (Policy_Pipeline p)) (Jobs (Policy_Pipeline p)).
Proof. intros H%bool_decide_eq_true_1. unfold apply_policy. by rewrite decide_True. Qed.
Lemma apply_policy_inject out p :
  overrides p = false ->
  apply_policy out p = with_stages_jobs out
    (insertStages (Stages out) (Stages (Policy_Pipeline p)) (PositionBefore p) (PositionAfter p))
    (appendUniqueJobs (Jobs out) (Jobs (Policy_Pipeline p))).
Proof. intros H%bool_decide_eq_false_1. unfold apply_policy. by rewrite decide_False. Qed.

(** Only stages and jobs change. *)
Definition same_rest (p q : Pipeline) : Prop := with_stages_jobs p [] [] = with_stages_jobs q [] [].

Lemma same_rest_apply out p : same_rest (apply_policy out p) out.
Proof. unfold apply_policy. by case_decide. Qed.
Lemma same_rest_foldl out ps : same_rest (foldl apply_policy out ps) out.
Proof.
  revert out. induction ps as [|p ps IH]; intros out; simpl; [done|].
  unfold same_rest in *. by rewrite IH, same_rest_apply.
Qed.
Lemma same_rest_with p q s j : same_rest p q -> with_stages_jobs p s j = with_stages_jobs q s j.
Proof. destruct p, q. unfold same_rest, with_stages_jobs. simpl. intros H. injection H. intros. subst. done. Qed.
Lemma with_stages_jobs_id p : with_stages_jobs p (Stages p) (Jobs p) = p.
Proof. by destruct p. Qed.

Lemma ordered_Forall (P : Policy -> Prop) ps :
  Forall P (stable_sort policy_lt ps) <-> Forall P ps.
Proof. by rewrite (stable_sort_perm policy_lt ps). Qed.

(** The unreserved part of the result. *)
Lemma strip_foldl out ps :
  Forall policy_ok ps -> Forall (fun p => overrides p = false) ps ->
  stripReservedStages (Stages (foldl apply_policy out ps)) = stripReservedStages (Stages out) /\
  stripReservedJobs (Jobs (foldl apply_policy out ps)) = stripReservedJobs (Jobs out).
Proof.
  intros Hok. revert out. induction Hok as [|p ps Hp _ IH]; intros out Hi; simpl; [done|].
  apply Forall_cons in Hi as [Hpi Hi]. apply ValidatePolicyNames_Ok in Hp as [Hs Hj].
  destruct (IH (apply_policy out p) Hi) as [-> ->]. rewrite apply_policy_inject by done. simpl.
  by rewrite strip_insertStages, strip_appendUniqueJobs.
Qed.

(** After an override nothing of the start is left. *)
Lemma foldl_override out out' ps :
  same_rest out out' -> existsb overrides ps = true ->
  foldl apply_policy out ps = foldl apply_policy out' ps.
Proof.
  revert out out'. induction ps as [|p ps IH]; intros out out' Hr; simpl; [done|].
  destruct (overrides p) eqn:Hp; simpl.
  - intros _. rewrite !apply_policy_override by done.
    by rewrite (same_rest_with _ _ _ _ Hr).
  - intros He. apply IH; [|done]. unfold same_rest in *. by rewrite !same_rest_apply.
Qed.

(** *** Policies with pairwise distinct names *)

Definition policy_jobs (ps : list Policy) : list Job := ps ≫= (fun p => Jobs (Policy_Pipeline p)).
Definition policy_stages (ps : list Policy) : list string := ps ≫= (fun p => Stages (Policy_Pipeline p)).

(** What the registry's collision check gives. *)
Definition no_collisions (ps : list Policy) : Prop :=
  NoDup (Job_Name <$> policy_jobs ps) /\ NoDup (policy_stages ps).

#[export] Instance policy_jobs_proper : Proper ((≡ₚ) ==> (≡ₚ)) policy_jobs.
Proof. intros l k Hlk. unfold policy_jobs. by rewrite Hlk. Qed.
#[export] Instance policy_stages_proper : Proper ((≡ₚ) ==> (≡ₚ)) policy_stages.
Proof. intros l k Hlk. unfold policy_stages. by rewrite Hlk. Qed.

Lemma no_collisions_ordered ps : no_collisions ps -> no_collisions (stable_sort policy_lt ps).
Proof. unfold no_collisions. by rewrite (stable_sort_perm policy_lt ps). Qed.

(** The reserved jobs of the pipeline built so far and the jobs still to come
    have distinct names. *)
Definition reserved_jobs (p : Pipeline) : list Job := filter (fun j => reserved (Job_Name j) = true) (Jobs p).
Definition pending (out : Pipeline) (ps : list Policy) : Prop :=
  NoDup (Job_Name <$> (reserved_jobs out ++ policy_jobs ps)).

Lemma reserved_jobs_all (l : list Job) :
  (forall j, j ∈ l -> reserved (Job_Name j) = true) ->
  filter (fun j => reserved (Job_Name j) = true) l = l.
Proof.
  intros Hl. induction l as [|j l IH]; [done|]. rewrite filter_cons_True, IH by set_solver. done.
Qed.
Lemma reserved_jobs_strip p : reserved_jobs (with_stages_jobs p (Stages p) (stripReservedJobs (Jobs p))) = [].
Proof.
  unfold reserved_jobs, stripReservedJobs. simpl. induction (Jobs p) as [|j l IH]; [done|].
  rewrite filter_cons. case_decide as Hj; [|done]. rewrite filter_cons_False; [done|].
  by rewrite Hj.
Qed.

Lemma apply_policy_jobs out p ps :
  policy_ok p -> pending out (p :: ps) ->
  Jobs (apply_policy out p) =
    (if overrides p then [] else Jobs out) ++ Jobs (Policy_Pipeline p).
Proof.
  intros [_ Hr]%ValidatePolicyNames_Ok Hp. destruct (overrides p) eqn:Ho.
  - by rewrite apply_policy_override.
  - rewrite apply_policy_inject by done. simpl. unfold appendUniqueJobs. f_equal.
    unfold pending, policy_jobs in Hp. simpl in Hp. rewrite !fmap_app in Hp.
    apply NoDup_app in Hp as (_ & Hd & Hnd). apply NoDup_app in Hnd as (Hnd & _ & _).
    apply fresh_jobs_all; [done|]. intros j Hj. rewrite elem_of_list_to_set.
    intros (k & Hk & Hkin)%list_elem_of_fmap. apply (Hd (Job_Name j)).
    + rewrite Hk. apply list_elem_of_fmap_2, list_elem_of_filter. split; [|done].
      rewrite <-Hk. by apply Hr.
    + apply elem_of_app. left. by apply list_elem_of_fmap_2.
Qed.

Lemma apply_policy_pending out p ps :
  policy_ok p -> pending out (p :: ps) -> pending (apply_policy out p) ps.
Proof.
  intros Hok Hp. unfold pending, reserved_jobs.
  rewrite (apply_policy_jobs out p ps), filter_app by done.
  rewrite (reserved_jobs_all (Jobs (Policy_Pipeline p))) by (by apply ValidatePolicyNames_Ok in Hok as [_ ?]).
  unfold pending, reserved_jobs, policy_jobs in *. simpl in Hp.
  destruct (overrides p); simpl; [|by rewrite <-(assoc_L (++))].
  rewrite fmap_app in Hp. by apply NoDup_app in Hp as (_ & _ & ?).
Qed.

Lemma foldl_pending out l1 l2 :
  Forall policy_ok l1 -> pending out (l1 ++ l2) -> pending (foldl apply_policy out l1) l2.
Proof.
  intros Hok. revert out. induction Hok as [|p l1 Hp _ IH]; intros out; simpl; [done|].
  intros Hd. by apply IH, apply_policy_pending.
Qed.

Lemma foldl_inject_jobs out ps j :
  Forall (fun p => overrides p = false) ps -> j ∈ Jobs out -> j ∈ Jobs (foldl apply_policy out ps).
Proof.
  intros Hi. revert out. induction Hi as [|p ps Hp _ IH]; intros out Hj; simpl; [done|].
  apply IH. rewrite apply_policy_inject by done. simpl. unfold appendUniqueJobs. set_solver.
Qed.
Lemma foldl_inject_stages out ps s :
  Forall (fun p => overrides p = false) ps -> s ∈ Stages out -> s ∈ Stages (foldl apply_policy out ps).
Proof.
  intros Hi. revert out. induction Hi as [|p ps Hp _ IH]; intros out Hj; simpl; [done|].
  apply IH. rewrite apply_policy_inject by done. simpl. rewrite elem_of_insertStages. auto.
Qed.

(** A pipeline with one reserved job of a name has one job of that name. *)
Lemma reserved_unique p j :
  NoDup (Job_Name <$> reserved_jobs p) -> j ∈ Jobs p -> reserved (Job_Name j) = true ->
  filter (fun k => Job_Name k = Job_Name j) (Jobs p) = [j].
Proof.
  intros Hnd Hj Hr. apply list_elem_of_split in Hj as (l1 & l2 & Heq). rewrite Heq.
  unfold reserved_jobs in Hnd. rewrite Heq, filter_app, filter_cons_True, fmap_app in Hnd by done.
  apply NoDup_app in Hnd as (_ & Hd & Hnd). csimpl in Hnd. apply NoDup_cons in Hnd as [Hn _].
  assert (Hnil : forall l, (forall k, k ∈ l -> Job_Name k <> Job_Name j) ->
      filter (fun k => Job_Name k = Job_Name j) l = []).
  { intros l Hl. induction l as [|k l IH]; [done|].
    rewrite filter_cons_False by (apply Hl; set_solver). apply IH. set_solver. }
  rewrite filter_app, filter_cons_True by done. rewrite (Hnil l1), (Hnil l2); [done|..].
  - intros k Hk Hkj. apply Hn. rewrite <-Hkj.
    apply list_elem_of_fmap_2, list_elem_of_filter. by rewrite Hkj.
  - intros k Hk Hkj. apply (Hd (Job_Name j)); [|csimpl; set_solver]. rewrite <-Hkj.
    apply list_elem_of_fmap_2, list_elem_of_filter. by rewrite Hkj.
Qed.

Definition start (raw : Pipeline) : Pipeline :=
  with_stages_jobs raw (stripReservedStages (Stages raw)) (stripReservedJobs (Jobs raw)).
Lemma ApplyPolicies_fold raw ps :
  ps <> [] -> ApplyPolicies raw ps = foldl apply_policy (start raw) (stable_sort policy_lt ps).
Proof. by destruct ps. Qed.

Lemma start_pending raw ps :
  NoDup (Job_Name <$> policy_jobs ps) -> pending (start raw) (stable_sort policy_lt ps).
Proof.
  rewrite <-(stable_sort_perm policy_lt ps) at 1. intros Hnd. unfold pending.
  replace (reserved_jobs (start raw)) with (@nil Job) by (symmetry; apply reserved_jobs_strip). done.
Qed.

(** ** Properties *)

Lemma in_force (raw : Pipeline) (ps l1 l2 : list Policy) (p : Policy) :
  Forall policy_ok ps -> NoDup (Job_Name <$> policy_jobs ps) ->
  stable_sort policy_lt ps = l1 ++ p :: l2 -> Forall (fun q => overrides q = false) l2 ->
  (forall j, j ∈ Jobs (Policy_Pipeline p) ->
     filter (fun k => Job_Name k = Job_Name j) (Jobs (ApplyPolicies raw ps)) = [j]) /\
  (forall s, s ∈ Stages (Policy_Pipeline p) -> s ∈ Stages (ApplyPolicies raw ps)).
Proof.
  intros Hok Hnc Hs Hl2. assert (Hne : ps <> []).
  { intros ->. simpl in Hs. by destruct l1. }
  apply ordered_Forall in Hok. pose proof (start_pending raw ps Hnc) as Hp.
  rewrite ApplyPolicies_fold, Hs by done. rewrite Hs in Hok, Hp.
  assert (Hfin := foldl_pending (start raw) (l1 ++ p :: l2) [] Hok). rewrite app_nil_r in Hfin.
  specialize (Hfin Hp). unfold pending in Hfin. simpl in Hfin. rewrite app_nil_r in Hfin.
  apply Forall_app in Hok as [Hok1 [Hokp _]%Forall_cons].
  apply foldl_pending in Hp; [|done]. rewrite foldl_app in *. simpl in *. split.
  - intros j Hj. apply reserved_unique; [done| |by apply ValidatePolicyNames_Ok in Hokp as [_ ?]; auto].
    apply foldl_inject_jobs; [done|]. rewrite (apply_policy_jobs _ _ l2) by done. set_solver.
  - intros s Hin. apply foldl_inject_stages; [done|]. unfold apply_policy.
    case_decide; simpl; [done|]. apply elem_of_insertStages. auto.
Qed.

(** A policy in force cannot be shadowed or removed. Whatever the project's own
    pipeline contains, every job of a policy that no later override discards is in
    the effective pipeline, it is the only job there of its name, and the stages
    of the policy are there too. *)
Theorem policies_enforced (raw : Pipeline) (ps l1 l2 : list Policy) (p : Policy) :
  Forall policy_ok ps -> NoDup (Job_Name <$> policy_jobs ps) ->
  stable_sort policy_lt ps = l1 ++ p :: l2 -> Forall (fun q => overrides q = false) l2 ->
  (forall j, j ∈ Jobs (Policy_Pipeline p) ->
     filter (fun k => Job_Name k = Job_Name j) (Jobs (ApplyPolicies raw ps)) = [j]) /\
  (forall s, s ∈ Stages (Policy_Pipeline p) -> s ∈ Stages (ApplyPolicies raw ps)).
Proof. apply in_force. Qed.

(** Policies add and never take away: without an override, the project's own
    stages and jobs are in the effective pipeline unchanged and in their order;
    with one, none of them is left. Everything of the pipeline other than stages
    and jobs is untouched, and every other stage or job comes from a policy. *)
Theorem repo_part_kept (raw : Pipeline) (ps : list Policy) :
  ps <> [] -> Forall policy_ok ps ->
  stripReservedStages (Stages (ApplyPolicies raw ps)) =
    (if existsb overrides ps then [] else stripReservedStages (Stages raw)) /\
  stripReservedJobs (Jobs (ApplyPolicies raw ps)) =
    (if existsb overrides ps then [] else stripReservedJobs (Jobs raw)) /\
  same_rest (ApplyPolicies raw ps) raw.
Proof.
  intros Hne Hok. rewrite ApplyPolicies_fold by done. apply ordered_Forall in Hok.
  assert (He : existsb overrides ps = existsb overrides (stable_sort policy_lt ps)).
  { apply eq_iff_eq_true. rewrite !existsb_exists. setoid_rewrite <-list_elem_of_In.
    by setoid_rewrite (stable_sort_perm policy_lt ps). }
  rewrite He. clear He. generalize dependent (stable_sort policy_lt ps). intros l Hok.
  rewrite (assoc and). split; [|exact (same_rest_foldl (start raw) l)].
  assert (Hidem : forall {A} (P : A -> Prop) `{forall x, Decision (P x)} (k : list A), filter P (filter P k) = filter P k).
  { intros A P ? k. induction k as [|x k IH]; [done|]. rewrite filter_cons. case_decide; [|done].
    rewrite filter_cons_True, IH by done. done. }
  destruct (existsb overrides l) eqn:He.
  - rewrite (foldl_override _ (with_stages_jobs raw [] []) l) by done.
    assert (Hall : all_reserved (foldl apply_policy (with_stages_jobs raw [] []) l)).
    { clear He. assert (H0 : all_reserved (with_stages_jobs raw [] [])) by (split; simpl; set_solver).
      revert H0. generalize (with_stages_jobs raw [] []).
      induction Hok as [|p k Hp _ IH]; intros out Hout; simpl; [done|]. apply IH.
      apply ValidatePolicyNames_Ok in Hp as [Hps Hpj]. destruct Hout as [Hos Hoj].
      unfold apply_policy. case_decide; [done|]. split; simpl.
      + intros s [?|?]%elem_of_insertStages; auto.
      + unfold appendUniqueJobs. intros j [?|[? _]%elem_of_fresh_jobs]%elem_of_app; auto. }
    destruct Hall. by rewrite strip_stages_nil, strip_jobs_nil.
  - assert (Hi : Forall (fun p => overrides p = false) l).
    { apply Forall_forall. intros p Hp. destruct (overrides p) eqn:Hpo; [|done].
      rewrite <-He. symmetry. apply existsb_exists. exists p. by rewrite <-list_elem_of_In. }
    destruct (strip_foldl (start raw) l Hok Hi) as [-> ->]. unfold start, stripReservedStages, stripReservedJobs.
    simpl. by rewrite !Hidem.
Qed.

Lemma existsb_ordered ps : existsb overrides (stable_sort policy_lt ps) = existsb overrides ps.
Proof.
  apply eq_iff_eq_true. rewrite !existsb_exists. setoid_rewrite <-list_elem_of_In.
  by setoid_rewrite (stable_sort_perm policy_lt ps).
Qed.
Lemma existsb_inject ps : existsb overrides ps = false -> Forall (fun p => overrides p = false) ps.
Proof.
  intros He. apply Forall_forall. intros p Hp. destruct (overrides p) eqn:Hpo; [|done].
  rewrite <-He. symmetry. apply existsb_exists. exists p. by rewrite <-list_elem_of_In.
Qed.

(** Recomputing is idempotent: merging the policies into an effective pipeline
    that already contains them gives the same pipeline again. *)
Theorem ApplyPolicies_idempotent (raw : Pipeline) (ps : list Policy) :
  Forall policy_ok ps -> ApplyPolicies (ApplyPolicies raw ps) ps = ApplyPolicies raw ps.
Proof.
  intros Hok. destruct (decide (ps = [])) as [->|Hne]; [done|].
  rewrite !ApplyPolicies_fold by done. apply ordered_Forall in Hok.
  set (l := stable_sort policy_lt ps) in *. set (eff := foldl apply_policy (start raw) l).
  assert (Hrest : same_rest eff raw) by exact (same_rest_foldl (start raw) l).
  destruct (existsb overrides l) eqn:He; [by apply foldl_override|].
  unfold eff at 2. f_equal. unfold start at 1.
  destruct (strip_foldl (start raw) l Hok (existsb_inject l He)) as [Hs Hj].
  fold eff in Hs, Hj. rewrite Hs, Hj, (same_rest_with _ _ _ _ Hrest). unfold start. simpl.
  unfold stripReservedStages, stripReservedJobs. rewrite !list_filter_filter.
  f_equal; apply list_filter_iff; naive_solver.
Qed.

Lemma policy_lt_false q p :
  policy_lt q p = false <->
  (Priority p < Priority q)%Z \/
  (Priority p = Priority q /\ String.le (Policy_Name p) (Policy_Name q)).
Proof.
  unfold policy_lt. destruct (Z.eqb_spec (Priority q) (Priority p)) as [He|Hne]; simpl.
  - rewrite ltb_false. naive_solver lia.
  - rewrite Z.ltb_ge. naive_solver lia.
Qed.
Lemma policy_lt_asym p q : policy_lt p q = true -> policy_lt q p = false.
Proof.
  intros Hpq. apply policy_lt_false. apply not_false_iff_true in Hpq.
  rewrite policy_lt_false in Hpq.
  destruct (decide (Priority q = Priority p)), (decide (Priority p < Priority q)%Z); try lia.
  right. split; [done|]. destruct (total String.le (Policy_Name p) (Policy_Name q)); [done|].
  by destruct Hpq; right.
Qed.
Lemma policy_le_trans x y z :
  policy_lt y x = false -> policy_lt z y = false -> policy_lt z x = false.
Proof.
  rewrite !policy_lt_false. intros [Hxy|[Hxy ?]] [Hyz|[Hyz ?]]; [left; lia..|].
  right. split; [lia|by etrans].
Qed.

Lemma ApplyPolicies_perm (raw : Pipeline) (ps ps' : list Policy) :
  ps ≡ₚ ps' -> NoDup (Policy_Name <$> ps) -> ApplyPolicies raw ps = ApplyPolicies raw ps'.
Proof.
  intros Hp Hnd. destruct (decide (ps = [])) as [->|Hne].
  { apply Permutation_nil_l in Hp as ->. done. }
  assert (Hne' : ps' <> []) by (intros ->; by apply Permutation_nil_r in Hp).
  rewrite !ApplyPolicies_fold by done. f_equal.
  apply stable_sort_unique; [apply policy_lt_asym|apply policy_le_trans|done|].
  intros x y Hx Hy [?|[? H1]]%policy_lt_false [?|[? H2]]%policy_lt_false; try lia.
  assert (Hn : Policy_Name x = Policy_Name y) by (by apply (anti_symm String.le)).
  apply list_elem_of_lookup in Hx as [i Hi], Hy as [j Hj].
  assert (i = j) as <-; [|congruence].
  apply (NoDup_lookup (Policy_Name <$> ps) i j (Policy_Name x)); [done|..];
    rewrite list_lookup_fmap; [by rewrite Hi|by rewrite Hj, Hn].
Qed.

(** *** Where the merged parts come from *)

(** What one policy brings or keeps. *)
Lemma elem_of_apply_policy out p :
  (forall j, j ∈ Jobs (apply_policy out p) -> j ∈ Jobs (Policy_Pipeline p) \/ overrides p = false /\ j ∈ Jobs out) /\
  (forall s, s ∈ Stages (apply_policy out p) -> s ∈ Stages (Policy_Pipeline p) \/ overrides p = false /\ s ∈ Stages out).
Proof.
  destruct (overrides p) eqn:Ho; [rewrite apply_policy_override by done; simpl; by split; left|].
  rewrite apply_policy_inject by done. cbn [Jobs Stages with_stages_jobs]. split.
  - intros j [Hj|[Hj _]%elem_of_fresh_jobs]%elem_of_app; [by right|by left].
  - intros s [Hs|Hs]%elem_of_insertStages; [by right|by left].
Qed.
(** Of a part of the pipeline: it is of the start, and nothing overrides, or of a policy
    that nothing later overrides. *)
Definition comes_from {A} (part : Pipeline -> list A) (of_start : A -> Prop) (ordered : list Policy) (x : A) : Prop :=
  (of_start x /\ Forall (fun q => overrides q = false) ordered) \/
  exists l1 p l2, ordered = l1 ++ p :: l2 /\ Forall (fun q => overrides q = false) l2 /\ x ∈ part (Policy_Pipeline p).
Lemma comes_from_later {A} (part : Pipeline -> list A) of_start l p x :
  overrides p = false -> comes_from part of_start l x -> comes_from part of_start (l ++ [p]) x.
Proof.
  intros Ho [[Hx Hl]|(l1 & q & l2 & -> & Hl & Hx)].
  - left. split; [done|]. by apply Forall_app_2; [|apply Forall_singleton].
  - right. exists l1, q, (l2 ++ [p]). split_and!; [by rewrite <-(assoc_L (++))|by apply Forall_app_2; [|apply Forall_singleton]|done].
Qed.
Lemma merged_from out l :
  (forall j, j ∈ Jobs (foldl apply_policy out l) -> comes_from Jobs (.∈ Jobs out) l j) /\
  (forall s, s ∈ Stages (foldl apply_policy out l) -> comes_from Stages (.∈ Stages out) l s).
Proof.
  induction l as [|p l [IHj IHs]] using rev_ind; [by split; intros x Hx; left|]. rewrite foldl_app. simpl.
  destruct (elem_of_apply_policy (foldl apply_policy out l) p) as [Hj Hs]. split; intros x Hx.
  - destruct (Hj x Hx) as [Hx'|[Ho Hx']]; [right; by exists l, p, []|]. by apply comes_from_later, IHj.
  - destruct (Hs x Hx) as [Hx'|[Ho Hx']]; [right; by exists l, p, []|]. by apply comes_from_later, IHs.
Qed.
(** Every job and stage of the effective pipeline is the project's own - unreserved, if
    there are policies at all - or that of a policy in force. *)
Lemma ApplyPolicies_from raw ps :
  let own name := ps = [] \/ reserved name = false in
  (forall j, j ∈ Jobs (ApplyPolicies raw ps) ->
     comes_from Jobs (fun j => j ∈ Jobs raw /\ own (Job_Name j)) (stable_sort policy_lt ps) j) /\
  (forall s, s ∈ Stages (ApplyPolicies raw ps) ->
     comes_from Stages (fun s => s ∈ Stages raw /\ own s) (stable_sort policy_lt ps) s).
Proof.
  cbv zeta. destruct (decide (ps = [])) as [->|Hne].
  { split; intros x Hx; left; split; [by split; [|left]|constructor|by split; [|left]|constructor]. }
  rewrite ApplyPolicies_fold by done. destruct (merged_from (start raw) (stable_sort policy_lt ps)) as [Hj Hs]. split; intros x Hx.
  - destruct (Hj x Hx) as [[Hin Hl]|?]; [left|by right]. split; [|done]. apply list_elem_of_filter in Hin as [? ?]. by split; [|right].
  - destruct (Hs x Hx) as [[Hin Hl]|?]; [left|by right]. split; [|done]. apply list_elem_of_filter in Hin as [? ?]. by split; [|right].
Qed.

(** The effective pipeline does not depend on the order in which the database
    lists the policies. *)
Theorem ApplyPolicies_order (raw : Pipeline) (ps ps' : list Policy) :
  ps ≡ₚ ps' -> NoDup (Policy_Name <$> ps) -> ApplyPolicies raw ps = ApplyPolicies raw ps'.
Proof. apply ApplyPolicies_perm. Qed.

(** Where a policy's stages go: right before the stage named by
    [position_before], else right after the one named by [position_after], else
    first of all. *)
Theorem insertStages_position (base add : list string) (before after : string) :
  NoDup add -> (forall s, s ∈ add -> s ∉ base) ->
  let placed := insertStages base add before after in
  (before <> "" /\ before ∈ base /\
     exists b1 b2, base = b1 ++ before :: b2 /\ before ∉ b1 /\ placed = b1 ++ add ++ before :: b2) \/
  ((before = "" \/ before ∉ base) /\ after <> "" /\ after ∈ base /\
     exists b1 b2, base = b1 ++ after :: b2 /\ after ∉ b1 /\ placed = b1 ++ after :: add ++ b2) \/
  ((before = "" \/ before ∉ base) /\ (after = "" \/ after ∉ base) /\ placed = add ++ base).
Proof.
  intros Hnd Hd. simpl.
  assert (Hp : insertStages base add before after =
    take (anchor base before after) base ++ add ++ drop (anchor base before after) base).
  { unfold insertStages. rewrite dedup_from_all; [|done|set_solver].
    destruct add; [simpl; by rewrite take_drop|done]. }
  rewrite Hp. clear Hp Hnd Hd. unfold anchor.
  assert (Hidx : forall w, match indexOf base w with
    | Some i => w ∈ base /\ exists b2, base = take i base ++ w :: b2 /\ w ∉ take i base /\ drop i base = w :: b2
    | None => w ∉ base end).
  { intros w. unfold indexOf. destruct (list_find (fun s => s = w) base) as [[i s]|] eqn:Hf; simpl.
    - apply list_find_Some in Hf as (Hi & -> & Hlt). split; [by eapply list_elem_of_lookup_2|].
      exists (drop (S i) base). rewrite (drop_S base w i) by done.
      split; [symmetry; rewrite <-(drop_S base w i) by done; apply take_drop|]. split; [|done].
      intros [k Hk]%list_elem_of_lookup. apply lookup_take_Some in Hk as [Hk Hki]. by eapply Hlt.
    - apply list_find_None in Hf. rewrite Forall_forall in Hf. intros Hin. by apply (Hf w). }
  pose proof (Hidx before) as Hb. pose proof (Hidx after) as Ha.
  assert (Hafter : (before = "" \/ before ∉ base) ->
    let idx := match (if decide (after = "") then None else indexOf base after) with
               | Some i => S i | None => 0 end in
    (after <> "" /\ after ∈ base /\ exists b1 b2, base = b1 ++ after :: b2 /\ after ∉ b1 /\
       take idx base ++ add ++ drop idx base = b1 ++ after :: add ++ b2) \/
    ((after = "" \/ after ∉ base) /\ take idx base ++ add ++ drop idx base = add ++ base)).
  { intros _. case_decide; [right; auto|]. destruct (indexOf base after) as [i|]; [left|right; auto].
    destruct Ha as (Hin & b2 & Hbase & Hni & Hdrop). split_and!; [done..|].
    exists (take i base), b2. split_and!; [done..|]. 
    rewrite (take_S_r base i after), <-(assoc_L (++)).
    - simpl. by rewrite <-Nat.add_1_r, <-drop_drop, Hdrop.
    - rewrite <-(Nat.add_0_r i), <-lookup_drop, Hdrop. done. }
  destruct (decide (before = "")) as [Hbe|Hbe].
  { destruct (Hafter (or_introl Hbe)) as [?|?]; naive_solver. }
  destruct (indexOf base before) as [i|] eqn:Hi.
  - left. destruct Hb as (Hin & b2 & Hbase & Hni & Hdrop). split_and!; [done..|].
    exists (take i base), b2. by rewrite Hdrop.
  - destruct (Hafter (or_intror Hb)) as [?|?]; naive_solver.
Qed.

(** A pipeline that is valid and shares no name with the policies to come. *)
Record mergeable (out : Pipeline) (ps : list Policy) : Prop := {
  mg_valid : valid_pipeline out;
  mg_jobs : NoDup (Job_Name <$> (Jobs out ++ policy_jobs ps));
  mg_stages : forall s, s ∈ policy_stages ps -> s ∉ Stages out;
}.

Lemma apply_policy_mergeable out p ps :
  valid_pipeline (Policy_Pipeline p) -> NoDup (policy_stages (p :: ps)) ->
  mergeable out (p :: ps) -> mergeable (apply_policy out p) ps.
Proof.
  intros Hv Hnd [Hout Hj Hs]. unfold policy_stages, policy_jobs in *. simpl in *.
  apply NoDup_app in Hnd as (Hnd & Hdis & _). rewrite !fmap_app in Hj.
  apply NoDup_app in Hj as (Hno & Hd1 & Hj). pose proof Hj as Hj'.
  apply NoDup_app in Hj' as (Hnp & Hd2 & Hnr).
  unfold apply_policy. case_decide.
  { split; simpl; [|by rewrite fmap_app|set_solver].
    split; [apply (vp_names _ Hv)|apply (vp_stages _ Hv)|apply (vp_needs _ Hv)|apply (vp_acyclic _ Hv)]. }
  unfold appendUniqueJobs. rewrite fresh_jobs_all; [|done|].
  2: { intros j Hjp. rewrite elem_of_list_to_set. intros Hin. apply (Hd1 _ Hin).
       apply elem_of_app. left. by apply list_elem_of_fmap_2. }
  set (r := with_stages_jobs _ _ _).
  assert (Hjobs : NoDup (Job_Name <$> Jobs r)).
  { subst r. simpl. rewrite fmap_app. apply NoDup_app. split_and!; [done| |done].
    intros n Hn1 Hn2. apply (Hd1 n Hn1), elem_of_app. by left. }
  split.
  - apply (valid_pipeline_union out (Policy_Pipeline p)); [done..|set_solver| | |].
    + intros s. subst r. simpl. by rewrite elem_of_insertStages.
    + subst r. simpl. destruct (insertStages_block (Stages out) (Stages (Policy_Pipeline p))
        (PositionBefore p) (PositionAfter p)) as (l1 & l2 & Hb & ->).
      rewrite Hb. apply keeps_order_splice. intros s [Hin _]%elem_of_dedup_from. rewrite <-Hb. set_solver.
    + subst r. simpl. destruct (insertStages_block (Stages out) (Stages (Policy_Pipeline p))
        (PositionBefore p) (PositionAfter p)) as (l1 & l2 & Hb & ->).
      rewrite dedup_from_all; [|done|]; [apply keeps_order_block; intros s; rewrite <-Hb|
        intros s; rewrite elem_of_list_to_set]; set_solver.
  - subst r. simpl. by rewrite <-(assoc_L (++)), !fmap_app; apply NoDup_app.
  - subst r. simpl. intros s Hin. rewrite elem_of_insertStages. set_solver.
Qed.

Lemma foldl_mergeable out ps :
  Forall (fun p => valid_pipeline (Policy_Pipeline p)) ps -> NoDup (policy_stages ps) ->
  mergeable out ps -> valid_pipeline (foldl apply_policy out ps).
Proof.
  intros Hv. revert out. induction Hv as [|p ps Hp _ IH]; intros out Hnd Hm; simpl; [apply Hm|].
  apply IH; [|by apply apply_policy_mergeable].
  unfold policy_stages in *. simpl in Hnd. by apply NoDup_app in Hnd as (_ & _ & ?).
Qed.

(** C31: governance never breaks a pipeline: a project pipeline that passed the
    parser and the reserved-name guard, merged with policies that compiled and do
    not collide (no stage or job name twice, in one policy or across them), is a pipeline that passes the parser's checks again (declared
    stages, distinct job names, needs that exist and point backwards, no cycle). *)
Theorem effective_pipeline_valid (raw : Pipeline) (ps : list Policy) :
  valid_pipeline raw -> RejectReservedNames raw = Ok tt ->
  Forall (fun p => valid_pipeline (Policy_Pipeline p)) ps -> Forall policy_ok ps ->
  no_collisions ps -> valid_pipeline (ApplyPolicies raw ps).
Proof.
  intros Hraw [Hrs Hrj]%RejectReservedNames_Ok Hv Hok Hnc.
  destruct (decide (ps = [])) as [->|Hne]; [done|]. rewrite ApplyPolicies_fold by done.
  apply no_collisions_ordered in Hnc as [Hnj Hns].
  rewrite <-ordered_Forall in Hv. rewrite <-ordered_Forall in Hok.
  assert (start raw = raw) as ->.
  { unfold start. rewrite strip_stages_id, strip_jobs_id by done. apply with_stages_jobs_id. }
  set (l := stable_sort policy_lt ps) in *.
  assert (Hres : (forall s, s ∈ policy_stages l -> reserved s = true) /\
                 (forall j, j ∈ policy_jobs l -> reserved (Job_Name j) = true)).
  { unfold policy_stages, policy_jobs. rewrite Forall_forall in Hok.
    split; [intros s (p & Hs & Hp)%list_elem_of_bind|intros j (p & Hj & Hp)%list_elem_of_bind];
      apply Hok, ValidatePolicyNames_Ok in Hp as [? ?]; auto. }
  destruct Hres as [Hres Hrej]. apply foldl_mergeable; [done..|]. split; [done| |].
  - rewrite fmap_app. apply NoDup_app. split_and!; [apply Hraw| |done].
    intros n (j & -> & Hj)%list_elem_of_fmap (k & Hjk & Hk)%list_elem_of_fmap.
    apply Hrj in Hj. apply Hrej in Hk. congruence.
  - intros s Hs Hin. apply Hres in Hs. apply Hrs in Hin. congruence.
Qed.

(** ** Examples *)

Definition sample_policy (name mode : string) (prio : Z) (before stage : string) (jobs : list Job) : Policy :=
  {| Policy_Name := name; Mode := mode; Priority := prio; PositionBefore := before; PositionAfter := "";
     Policy_Pipeline := mk_pipeline [stage] jobs |}.
Definition scan_policy : Policy :=
  sample_policy "scan" ModeInject 20 "deploy" "_compliance_scan"
    [mk_job "_compliance_sast" "_compliance_scan" [] None None "";
     mk_job "_compliance_report" "_compliance_scan" ["_compliance_sast"] None None ""].
Definition gate_policy : Policy :=
  sample_policy "gate" ModeInject 10 "" "_compliance_gate"
    [mk_job "_compliance_ok" "_compliance_gate" [] (Some mk_approval) None ""].
Definition repo_pipeline : Pipeline :=
  mk_pipeline ["build"; "deploy"]
    [mk_job "compile" "build" [] None None ""; mk_job "ship" "deploy" ["compile"] None None ""].

Example merged_stages :
  Stages (ApplyPolicies repo_pipeline [scan_policy; gate_policy]) =
    ["_compliance_gate"; "build"; "_compliance_scan"; "deploy"].
Proof. vm_compute. reflexivity. Qed.

Lemma sample_policies_ok :
  Forall policy_ok [scan_policy; gate_policy] /\ no_collisions [scan_policy; gate_policy].
Proof.
  split; [by repeat constructor|]. split; vm_compute; by repeat (constructor; [set_solver|]); constructor.
Qed.

Lemma policies_enforced_witness :
  (forall j, j ∈ Jobs (Policy_Pipeline gate_policy) ->
     filter (fun k => Job_Name k = Job_Name j)
       (Jobs (ApplyPolicies repo_pipeline [scan_policy; gate_policy])) = [j]) /\
  (forall s, s ∈ Stages (Policy_Pipeline gate_policy) ->
     s ∈ Stages (ApplyPolicies repo_pipeline [scan_policy; gate_policy])).
Proof.
  apply (policies_enforced repo_pipeline [scan_policy; gate_policy] [] [scan_policy] gate_policy);
    [apply sample_policies_ok..|vm_compute; reflexivity|by repeat constructor].
Defined.

Lemma repo_part_kept_witness :
  stripReservedStages (Stages (ApplyPolicies repo_pipeline [scan_policy; gate_policy])) = ["build"; "deploy"] /\
  same_rest (ApplyPolicies repo_pipeline [scan_policy; gate_policy]) repo_pipeline.
Proof.
  destruct (repo_part_kept repo_pipeline [scan_policy; gate_policy]) as (Hs & _ & Hr);
    [discriminate|apply sample_policies_ok|]. split; [rewrite Hs; reflexivity|exact Hr].
Defined.

Lemma ApplyPolicies_idempotent_witness :
  ApplyPolicies (ApplyPolicies repo_pipeline [scan_policy; gate_policy]) [scan_policy; gate_policy] =
    ApplyPolicies repo_pipeline [scan_policy; gate_policy].
Proof. apply ApplyPolicies_idempotent. apply sample_policies_ok. Defined.

Lemma ApplyPolicies_order_witness :
  ApplyPolicies repo_pipeline [scan_policy; gate_policy] =
    ApplyPolicies repo_pipeline [gate_policy; scan_policy].
Proof.
  apply ApplyPolicies_order; [apply Permutation_swap|].
  simpl. by repeat (constructor; [set_solver|]); constructor.
Defined.

Lemma insertStages_position_witness :
  insertStages ["build"; "deploy"] ["_compliance_x"] "deploy" "" = ["build"; "_compliance_x"; "deploy"] /\
  let placed := insertStages ["build"; "deploy"] ["_compliance_x"] "deploy" "" in
  ("deploy" <> "" /\ "deploy" ∈ ["build"; "deploy"] /\
     exists b1 b2, ["build"; "deploy"] = b1 ++ "deploy" :: b2 /\ "deploy" ∉ b1 /\
       placed = b1 ++ ["_compliance_x"] ++ "deploy" :: b2) \/
  (("deploy" = "" \/ "deploy" ∉ ["build"; "deploy"]) /\ "" <> "" /\ "" ∈ ["build"; "deploy"] /\
     exists b1 b2, ["build"; "deploy"] = b1 ++ "" :: b2 /\ "" ∉ b1 /\
       placed = b1 ++ "" :: ["_compliance_x"] ++ b2) \/
  (("deploy" = "" \/ "deploy" ∉ ["build"; "deploy"]) /\ ("" = "" \/ "" ∉ ["build"; "deploy"]) /\
     placed = ["_compliance_x"] ++ ["build"; "deploy"]).
Proof.
  split; [reflexivity|]. apply insertStages_position; [by repeat constructor; set_solver|set_solver].
Defined.

Lemma effective_pipeline_valid_witness :
  valid_pipeline (ApplyPolicies repo_pipeline [scan_policy; gate_policy]).
Proof.
  apply effective_pipeline_valid; [| reflexivity | | apply sample_policies_ok..].
  - apply (bool_decide_unpack _). vm_compute. exact I.
  - repeat constructor; apply (bool_decide_unpack _); vm_compute; exact I.
Defined.

(** A policy may list a stage twice: the parser takes the last position, the
    merge keeps the first, and the accepted needs point forwards afterwards. *)
Definition twice_policy : Policy :=
  {| Policy_Name := "twice"; Mode := ModeInject; Priority := 0; PositionBefore := ""; PositionAfter := "";
     Policy_Pipeline := mk_pipeline ["_compliance_a"; "_compliance_b"; "_compliance_a"]
       [mk_job "_compliance_x" "_compliance_a" ["_compliance_y"] None None "";
        mk_job "_compliance_y" "_compliance_b" [] None None ""] |}.
Lemma duplicate_stage_breaks_needs :
  valid_pipeline (Policy_Pipeline twice_policy) /\ policy_ok twice_policy /\
  let eff := ApplyPolicies repo_pipeline [twice_policy] in
  validateNeeds (Jobs eff) (Stages eff) =
    Err (NeedsForward "_compliance_x" "_compliance_a" 0 "_compliance_y" "_compliance_b" 1).
Proof.
  split; [|split; [reflexivity|vm_compute; reflexivity]]. apply (bool_decide_unpack _). vm_compute. exact I.
Qed.
