(* ===== verification/Governance.v ===== *)
(** [server/internal/store/compliance*.go] and the governance half of
    [projects.go]: the registry of frameworks and policies, the projects'
    pipelines and materials, and the transactions that keep every governed
    project enforced.  The tables are finite maps; a transaction is a function
    of the tables, [Err] being its rollback.  Transactions that touch policies
    take one advisory lock, so they do not interleave. *)

From S2P Require Import Prelude GoStrings Domain ValidateNeeds Schema ParseHelpers Parse Compliance.

(** ** The server-owned pipeline ([pkg/compliance/synth.go]) *)

Definition PipelineName : string := "_compliance".
Definition IsReservedPipelineName (name : string) : bool := HasPrefix name PipelineName.

Section Governance.
Context `{MapRange, UnicodeCase}.
Context (IsQualifiedName IsValidLabelValue : string -> list string).
Context (ValidatePattern : string -> bool).

Definition ComplianceMaterial (scmURL defaultBranch : string) : Material :=
  let branch := if decide (defaultBranch = "") then "main" else defaultBranch in
  {| Material_ID := ""; Material_Type := MaterialGit; Fingerprint := GitFingerprint scmURL branch;
     AutoUpdate := true; Implicit := true;
     Material_Git := Some {| Git_URL := HTTPCloneURL scmURL; Git_Branch := branch;
       Git_Events := ["push"]; Git_AutoRegisterWebhook := true; Git_SecretRef := "";
       Git_Paths := []; Git_PollInterval := 0%Z |};
     Material_Upstream := None; Material_Cron := None |}.

Definition SyntheticPipeline (scmURL defaultBranch : string) : Pipeline :=
  {| Pipeline_ID := ""; ProjectID := ""; Pipeline_Name := PipelineName;
     Materials := [ComplianceMaterial scmURL defaultBranch]; Stages := []; Jobs := [];
     Pipeline_Variables := ∅; Template := ""; Concurrency := ""; Supersede := "";
     TriggerEvents := []; TriggerBranches := []; TriggerPaths := []; Services := [];
     Notifications := None |}.

(** ** The tables *)

(** A material row; the configuration column holds the part of its type. *)
Record MaterialRow := {
  MR_Type : MaterialType;
  MR_Git : option GitMaterial;
  MR_Upstream : option UpstreamMaterial;
  MR_Cron : option CronMaterial;
  MR_AutoUpdate : bool;
}.
(** [marshalMaterialConfig], with the columns [UpsertMaterial] writes. *)
Definition material_row (m : Material) : MaterialRow :=
  {| MR_Type := Material_Type m;
     MR_Git := match Material_Type m with MaterialGit => Material_Git m | _ => None end;
     MR_Upstream := match Material_Type m with MaterialUpstream => Material_Upstream m | _ => None end;
     MR_Cron := match Material_Type m with MaterialCron => Material_Cron m | _ => None end;
     MR_AutoUpdate := AutoUpdate m |}.
(** [json.Unmarshal(m.Config, &prev)] into a zero [GitMaterial]. *)
Definition zero_git : GitMaterial :=
  {| Git_URL := ""; Git_Branch := ""; Git_Events := []; Git_AutoRegisterWebhook := false;
     Git_SecretRef := ""; Git_Paths := []; Git_PollInterval := 0%Z |}.

Record PipelineRow := {
  SystemManaged : bool;
  Definition_ : Pipeline;
  DefinitionRaw : Pipeline;
  MaterialRows : gmap string MaterialRow;
}.

(** A project: its SCM source (normalised URL and default branch), frameworks
    and pipelines by name. *)
Record Project := {
  SCM : option (string * string);
  Frameworks : gset string;
  Pipelines : gmap string PipelineRow;
}.

Record PolicyRow := {
  Row_Name : string;
  Row_Enabled : bool;
  Row_Mode : string;
  Row_Priority : Z;
  Row_AppliesToAll : bool;
  Row_PositionBefore : string;
  Row_PositionAfter : string;
  Row_Config : Pipeline;
  Row_Frameworks : gset string;
}.

Record DB := {
  ComplianceFrameworks : gset string;
  Policies : gmap string PolicyRow;
  Projects : gmap string Project;
}.
Definition empty_db : DB := {| ComplianceFrameworks := ∅; Policies := ∅; Projects := ∅ |}.

Definition with_pipelines (pr : Project) (t : gmap string PipelineRow) : Project :=
  {| SCM := SCM pr; Frameworks := Frameworks pr; Pipelines := t |}.
Definition with_projects (db : DB) (ps : gmap string Project) : DB :=
  {| ComplianceFrameworks := ComplianceFrameworks db; Policies := Policies db; Projects := ps |}.
Definition with_policies (db : DB) (ps : gmap string PolicyRow) : DB :=
  {| ComplianceFrameworks := ComplianceFrameworks db; Policies := ps; Projects := Projects db |}.

(** [marshalPipelineDefinition]: the stored copy carries no database ids. *)
Definition clear_material_id (m : Material) : Material :=
  {| Material_ID := ""; Material_Type := Material_Type m; Fingerprint := Fingerprint m;
     AutoUpdate := AutoUpdate m; Implicit := Implicit m; Material_Git := Material_Git m;
     Material_Upstream := Material_Upstream m; Material_Cron := Material_Cron m |}.
Definition marshalPipelineDefinition (p : Pipeline) : Pipeline :=
  {| Pipeline_ID := ""; ProjectID := ""; Pipeline_Name := Pipeline_Name p;
     Materials := clear_material_id <$> Materials p; Stages := Stages p; Jobs := Jobs p;
     Pipeline_Variables := Pipeline_Variables p; Template := Template p;
     Concurrency := Concurrency p; Supersede := Supersede p; TriggerEvents := TriggerEvents p;
     TriggerBranches := TriggerBranches p; TriggerPaths := TriggerPaths p; Services := Services p;
     Notifications := Notifications p |}.

(** ** Which policies apply *)

(** The condition of [ResolvePoliciesForProject]. *)
Definition applies (fws : gset string) (r : PolicyRow) : bool :=
  Row_Enabled r && (Row_AppliesToAll r || bool_decide (Row_Frameworks r ∩ fws <> ∅)).
Definition to_policy (r : PolicyRow) : Policy :=
  {| Policy_Name := Row_Name r; Mode := Row_Mode r; Priority := Row_Priority r;
     PositionBefore := Row_PositionBefore r; PositionAfter := Row_PositionAfter r;
     Policy_Pipeline := Row_Config r |}.
(** The query orders the rows; the merge orders them again, by bytes, so any
    order is taken here. *)
Definition policiesForProject (pols : gmap string PolicyRow) (fws : gset string) : list Policy :=
  to_policy <$> filter (fun r => applies fws r = true) (range_map pols).*2.

(** ** Reconciling a project ([compliance_synth.go]) *)

Inductive gov_error :=
| GovNoSCM
| GovReserved (e : compliance_error)
| GovPolicyName | GovPolicyMode | GovPositions | GovParse (e : parse_error)
| GovStageTaken (s : string) | GovJobTaken (j : string) | GovNameTaken | GovNotFound | GovNoFramework
| GovNoSlug | GovSCMURL | GovPipelineName | GovPipelineTwice (n : string) | GovPipelineReserved (n : string).

Definition eventsIncludePush (events : list string) : bool :=
  match events with [] => true | _ => existsb (fun e => bool_decide (e = "push")) events end.
Definition unionEvents (existing : list string) (want : string) : list string :=
  dedup (existing ++ [want]).

(** The rows are unique by fingerprint. *)
Definition hardenedPushMaterial (mats : gmap string MaterialRow) (scmURL branch complianceFP : string)
    : option Material :=
  match mats !! complianceFP with
  | Some m =>
      match MR_Type m with
      | MaterialGit =>
          let prev := default zero_git (MR_Git m) in
          if negb (eventsIncludePush (Git_Events prev)) then None
          else
            let base := ComplianceMaterial scmURL branch in
            let g := default zero_git (Material_Git base) in
            Some {| Material_ID := ""; Material_Type := MaterialGit; Fingerprint := Fingerprint base;
                    AutoUpdate := AutoUpdate base; Implicit := Implicit base;
                    Material_Git := Some
                      {| Git_URL := if decide (Git_URL prev = "") then Git_URL g else Git_URL prev;
                         Git_Branch := Git_Branch g;
                         Git_Events := unionEvents (Git_Events prev) "push";
                         Git_AutoRegisterWebhook := true; Git_SecretRef := Git_SecretRef prev;
                         Git_Paths := []; Git_PollInterval := Git_PollInterval prev |};
                    Material_Upstream := None; Material_Cron := None |}
      | _ => None
      end
  | None => None
  end.

Definition UpsertMaterial (mats : gmap string MaterialRow) (m : Material) : gmap string MaterialRow :=
  <[Fingerprint m := material_row m]> mats.

(** One turn of the hardening loop. *)
Definition harden (scmURL branch : string) (r : PipelineRow) : PipelineRow :=
  if SystemManaged r then r
  else match hardenedPushMaterial (MaterialRows r) scmURL branch (GitFingerprint scmURL branch) with
       | Some mat => {| SystemManaged := SystemManaged r; Definition_ := Definition_ r;
                        DefinitionRaw := DefinitionRaw r;
                        MaterialRows := UpsertMaterial (MaterialRows r) mat |}
       | None => r
       end.
Definition fires_on_push (scmURL branch : string) (r : PipelineRow) : bool :=
  negb (SystemManaged r) &&
  bool_decide (is_Some (hardenedPushMaterial (MaterialRows r) scmURL branch (GitFingerprint scmURL branch))).

Definition createSyntheticPipeline (scmURL branch : string) (policies : list Policy)
    (t : gmap string PipelineRow) : gmap string PipelineRow :=
  let raw := SyntheticPipeline scmURL branch in
  let mat := ComplianceMaterial scmURL branch in
  let existing := from_option MaterialRows ∅ (t !! PipelineName) in
  <[PipelineName :=
      {| SystemManaged := true;
         Definition_ := marshalPipelineDefinition (ApplyPolicies raw policies);
         DefinitionRaw := marshalPipelineDefinition raw;
         MaterialRows := filter (fun km => km.1 = Fingerprint mat) (UpsertMaterial existing mat) |}]> t.

Definition dropSyntheticIfPresent (t : gmap string PipelineRow) : gmap string PipelineRow :=
  filter (fun kr => SystemManaged kr.2 = false) t.

Definition synth_name (t : gmap string PipelineRow) : option string :=
  last (fst <$> filter (fun kr => SystemManaged kr.2 = true) (range_map t)).

Definition reconcileGovernance (scm : option (string * string)) (policies : list Policy)
    (t : gmap string PipelineRow) : result gov_error (gmap string PipelineRow) :=
  match policies with
  | [] => Ok (dropSyntheticIfPresent t)
  | _ =>
      match scm with
      | None => Err GovNoSCM
      | Some (scmURL, branch) =>
          let t' := harden scmURL branch <$> t in
          if existsb (fun kr => fires_on_push scmURL branch kr.2) (range_map t)
          then Ok (match synth_name t with Some n => delete n t' | None => t' end)
          else Ok (createSyntheticPipeline scmURL branch policies t')
      end
  end.

Definition recompute_row (policies : list Policy) (r : PipelineRow) : PipelineRow :=
  {| SystemManaged := SystemManaged r;
     Definition_ := marshalPipelineDefinition (ApplyPolicies (DefinitionRaw r) policies);
     DefinitionRaw := DefinitionRaw r; MaterialRows := MaterialRows r |}.
Definition recomputeProjectEffective (db : DB) (pid : string) : result gov_error DB :=
  match Projects db !! pid with
  | None =>
      (* no such project: no source and no pipelines *)
      match policiesForProject (Policies db) ∅ with [] => Ok db | _ => Err GovNoSCM end
  | Some pr =>
      let policies := policiesForProject (Policies db) (Frameworks pr) in
      t ← reconcileGovernance (SCM pr) policies (recompute_row policies <$> Pipelines pr);
      Ok (with_projects db (<[pid := with_pipelines pr t]> (Projects db)))
  end.
Definition recomputeProjects (db : DB) (ids : list string) : result gov_error DB :=
  fold_all recomputeProjectEffective db ids.

(** The query [ListAllProjectIDs] or [ListProjectIDsByFrameworks]. *)
Definition affectedProjectIDs (db : DB) (appliesToAll : bool) (fws : gset string) : list string :=
  fst <$> filter (fun kp => appliesToAll = true \/ Frameworks kp.2 ∩ fws <> ∅) (range_map (Projects db)).

(** ** The administrator's transactions ([compliance.go]) *)

Record PolicyInput := {
  In_Name : string;
  In_Enabled : bool;
  In_Mode : string;
  In_Priority : Z;
  In_AppliesToAll : bool;
  In_PositionBefore : string;
  In_PositionAfter : string;
  In_Frameworks : gset string;
  In_ConfigYAML : File;
}.

Definition CompilePolicy (f : File) : result gov_error Pipeline :=
  p ← map_err GovParse (ParseNamed IsQualifiedName IsValidLabelValue ValidatePattern f "" "policy");
  _ ← map_err GovReserved (ValidatePolicyNames p);
  Ok (mk_pipeline (Stages p) (Jobs p)).

(** The normalised mode and the compiled pipeline. *)
Definition validatePolicyInput (i : PolicyInput) : result gov_error (string * Pipeline) :=
  _ ← check (negb (bool_decide (In_Name i = ""))) GovPolicyName;
  let mode := if decide (In_Mode i = "") then ModeInject else In_Mode i in
  _ ← check (bool_decide (mode = ModeInject \/ mode = ModeOverride)) GovPolicyMode;
  _ ← check (negb (bool_decide (In_PositionBefore i <> "" /\ In_PositionAfter i <> ""))) GovPositions;
  compiled ← CompilePolicy (In_ConfigYAML i);
  Ok (mode, compiled).

Definition checkPolicyNameCollisions (others : gmap string PolicyRow) (compiled : Pipeline)
    : result gov_error unit :=
  let rows := (range_map others).*2 in
  let usedStage : gset string := list_to_set (rows ≫= (fun r => Stages (Row_Config r))) in
  let usedJob : gset string := list_to_set (rows ≫= (fun r => Job_Name <$> Jobs (Row_Config r))) in
  _ ← check_all (fun s => check (bool_decide (s ∉ usedStage)) (GovStageTaken s)) (Stages compiled);
  check_all (fun j => check (bool_decide (Job_Name j ∉ usedJob)) (GovJobTaken (Job_Name j))) (Jobs compiled).

Definition policy_row (i : PolicyInput) (mode : string) (compiled : Pipeline) : PolicyRow :=
  {| Row_Name := In_Name i; Row_Enabled := In_Enabled i; Row_Mode := mode;
     Row_Priority := wrap32 (In_Priority i); Row_AppliesToAll := In_AppliesToAll i;
     Row_PositionBefore := In_PositionBefore i; Row_PositionAfter := In_PositionAfter i;
     Row_Config := compiled; Row_Frameworks := In_Frameworks i |}.

(** The name column is unique and a framework link needs its framework. *)
Definition store_policy (db : DB) (id : string) (r : PolicyRow) : result gov_error DB :=
  _ ← check (forallb (fun kr => negb (bool_decide (Row_Name kr.2 = Row_Name r)))
                (range_map (delete id (Policies db)))) GovNameTaken;
  _ ← check (bool_decide (Row_Frameworks r ⊆ ComplianceFrameworks db)) GovNoFramework;
  Ok (with_policies db (<[id := r]> (Policies db))).

(** [id] is the database's new row id. *)
Definition InsertCompliancePolicy (db : DB) (id : string) (i : PolicyInput) : result gov_error DB :=
  mc ← validatePolicyInput i;
  _ ← checkPolicyNameCollisions (Policies db) mc.2;
  db ← store_policy db id (policy_row i mc.1 mc.2);
  if In_Enabled i
  then recomputeProjects db (affectedProjectIDs db (In_AppliesToAll i) (In_Frameworks i))
  else Ok db.

Definition UpdateCompliancePolicy (db : DB) (id : string) (i : PolicyInput) : result gov_error DB :=
  mc ← validatePolicyInput i;
  _ ← checkPolicyNameCollisions (delete id (Policies db)) mc.2;
  match Policies db !! id with
  | None => Err GovNotFound
  | Some old =>
      db ← store_policy db id (policy_row i mc.1 mc.2);
      recomputeProjects db (affectedProjectIDs db (Row_AppliesToAll old || In_AppliesToAll i)
                              (Row_Frameworks old ∪ In_Frameworks i))
  end.

Definition DeleteCompliancePolicy (db : DB) (id : string) : result gov_error DB :=
  match Policies db !! id with
  | None => Err GovNotFound
  | Some old =>
      let affected := affectedProjectIDs db (Row_AppliesToAll old) (Row_Frameworks old) in
      recomputeProjects (with_policies db (delete id (Policies db))) affected
  end.

Definition InsertComplianceFramework (db : DB) (id : string) : DB :=
  {| ComplianceFrameworks := {[id]} ∪ ComplianceFrameworks db; Policies := Policies db;
     Projects := Projects db |}.

(** The foreign keys drop the framework's links with it. *)
Definition drop_link (fw : string) (r : PolicyRow) : PolicyRow :=
  {| Row_Name := Row_Name r; Row_Enabled := Row_Enabled r; Row_Mode := Row_Mode r;
     Row_Priority := Row_Priority r; Row_AppliesToAll := Row_AppliesToAll r;
     Row_PositionBefore := Row_PositionBefore r; Row_PositionAfter := Row_PositionAfter r;
     Row_Config := Row_Config r; Row_Frameworks := Row_Frameworks r ∖ {[fw]} |}.
Definition with_frameworks (pr : Project) (fws : gset string) : Project :=
  {| SCM := SCM pr; Frameworks := fws; Pipelines := Pipelines pr |}.
Definition DeleteComplianceFramework (db : DB) (fw : string) : result gov_error DB :=
  let affected := affectedProjectIDs db false {[fw]} in
  recomputeProjects
    {| ComplianceFrameworks := ComplianceFrameworks db ∖ {[fw]};
       Policies := drop_link fw <$> Policies db;
       Projects := (fun pr => with_frameworks pr (Frameworks pr ∖ {[fw]})) <$> Projects db |} affected.

Definition SetProjectFrameworks (db : DB) (pid : string) (fws : gset string) : result gov_error DB :=
  match Projects db !! pid with
  | None => if decide (fws = ∅) then recomputeProjectEffective db pid else Err GovNotFound
  | Some pr =>
      _ ← check (bool_decide (fws ⊆ ComplianceFrameworks db)) GovNoFramework;
      recomputeProjectEffective
        (with_projects db (<[pid := with_frameworks pr fws]> (Projects db))) pid
  end.

(** ** Applying a project ([projects.go]) *)

Definition applyPipeline (policies : list Policy) (t : gmap string PipelineRow) (p : Pipeline)
    : result gov_error (gmap string PipelineRow) :=
  _ ← map_err GovReserved (RejectReservedNames p);
  let existing := from_option MaterialRows ∅ (t !! Pipeline_Name p) in
  let wanted : gset string := list_to_set (Fingerprint <$> Materials p) in
  Ok (<[Pipeline_Name p :=
        {| SystemManaged := false;
           Definition_ := marshalPipelineDefinition (ApplyPolicies p policies);
           DefinitionRaw := marshalPipelineDefinition p;
           MaterialRows := filter (fun km => km.1 ∈ wanted)
                             (foldl UpsertMaterial existing (Materials p)) |}]> t).

(** The loop that refuses unnamed and duplicate pipelines. *)
Fixpoint check_wanted (seen : gset string) (ps : list Pipeline) : result gov_error unit :=
  match ps with
  | [] => Ok tt
  | p :: ps =>
      if decide (Pipeline_Name p = "") then Err GovPipelineName
      else if decide (Pipeline_Name p ∈ seen) then Err (GovPipelineTwice (Pipeline_Name p))
      else check_wanted ({[Pipeline_Name p]} ∪ seen) ps
  end.

(** The source as it is stored; its provider and secret play no part here. *)
Definition upsertSCMSource (old : option (string * string)) (s : option (string * string))
    : result gov_error (option (string * string)) :=
  match s with
  | None => Ok old
  | Some (url, branch) =>
      if decide (url = "") then Err GovSCMURL
      else Ok (Some (NormalizeGitURL url, if decide (branch = "") then "main" else branch))
  end.

Definition ApplyProject (db : DB) (slug : string) (scm : option (string * string)) (ps : list Pipeline)
    : result gov_error DB :=
  _ ← check (negb (bool_decide (slug = ""))) GovNoSlug;
  let pr := default {| SCM := None; Frameworks := ∅; Pipelines := ∅ |} (Projects db !! slug) in
  scm ← upsertSCMSource (SCM pr) scm;
  _ ← check_wanted ∅ ps;
  let wanted : gset string := list_to_set (Pipeline_Name <$> ps) in
  let kept := filter (fun kr => SystemManaged kr.2 = true \/ kr.1 ∈ wanted) (Pipelines pr) in
  let policies := policiesForProject (Policies db) (Frameworks pr) in
  _ ← check_all (fun p => check (negb (IsReservedPipelineName (Pipeline_Name p)))
                            (GovPipelineReserved (Pipeline_Name p))) ps;
  t ← fold_all (applyPipeline policies) kept ps;
  t ← reconcileGovernance scm policies t;
  Ok (with_projects db (<[slug := {| SCM := scm; Frameworks := Frameworks pr; Pipelines := t |}]> (Projects db))).

(** ** Lemmas on the resolution of policies *)

Lemma resolve_perm pols fws :
  policiesForProject pols fws ≡ₚ
  to_policy <$> filter (fun r => applies fws r = true) (map_to_list pols).*2.
Proof. unfold policiesForProject. by rewrite (range_map_perm PolicyRow pols). Qed.

Lemma elem_of_resolve pols fws p :
  p ∈ policiesForProject pols fws <->
  exists id r, pols !! id = Some r /\ applies fws r = true /\ p = to_policy r.
Proof.
  unfold policiesForProject. rewrite list_elem_of_fmap. setoid_rewrite list_elem_of_filter.
  setoid_rewrite list_elem_of_fmap. split.
  - intros (r & -> & Ha & ([id r'] & -> & Hin%elem_of_range_map)). eauto.
  - intros (id & r & Hr & Ha & ->). exists r. split_and!; [done..|]. exists (id, r).
    by rewrite elem_of_range_map.
Qed.

Lemma resolve_insert_skip pols fws id r :
  pols !! id = None -> applies fws r = false ->
  policiesForProject (<[id := r]> pols) fws ≡ₚ policiesForProject pols fws.
Proof.
  intros Hid Ha. rewrite !resolve_perm, map_to_list_insert by done. simpl.
  rewrite filter_cons_False; [done|by rewrite Ha].
Qed.
Lemma resolve_delete_skip pols fws id r :
  pols !! id = Some r -> applies fws r = false ->
  policiesForProject (delete id pols) fws ≡ₚ policiesForProject pols fws.
Proof.
  intros Hid Ha. rewrite <-(insert_delete_id pols id r) at 2 by done.
  by rewrite resolve_insert_skip by (done || by rewrite lookup_delete_eq).
Qed.
Lemma resolve_update_skip pols fws id old r :
  pols !! id = Some old -> applies fws old = false -> applies fws r = false ->
  policiesForProject (<[id := r]> pols) fws ≡ₚ policiesForProject pols fws.
Proof.
  intros Hid Ho Hr. rewrite <-insert_delete_eq.
  rewrite resolve_insert_skip by (done || by rewrite lookup_delete_eq).
  by apply resolve_delete_skip with old.
Qed.
Lemma resolve_drop_link pols fws fw :
  fw ∉ fws -> policiesForProject (drop_link fw <$> pols) fws ≡ₚ policiesForProject pols fws.
Proof.
  intros Hfw. rewrite !resolve_perm, map_to_list_fmap.
  induction (map_to_list pols) as [|[id r] l IH]; [done|]. csimpl.
  assert (Ha : applies fws (drop_link fw r) = applies fws r).
  { unfold applies. simpl. do 2 f_equal. apply bool_decide_ext. set_solver. }
  rewrite !filter_cons, Ha. case_decide; csimpl; [by rewrite IH|done].
Qed.

(** *** The registry's invariant *)

Record row_ok (r : PolicyRow) : Prop := {
  ro_reserved : all_reserved (Row_Config r);
  ro_valid : valid_pipeline (Row_Config r);
  ro_mode : Row_Mode r = ModeInject \/ Row_Mode r = ModeOverride;
  ro_position : Row_PositionBefore r = "" \/ Row_PositionAfter r = "";
  ro_name : Row_Name r <> "";
}.
Record apart (r r' : PolicyRow) : Prop := {
  ap_name : Row_Name r <> Row_Name r';
  ap_stages : forall s, s ∈ Stages (Row_Config r) -> s ∉ Stages (Row_Config r');
  ap_jobs : forall n, n ∈ Job_Name <$> Jobs (Row_Config r) -> n ∉ Job_Name <$> Jobs (Row_Config r');
}.
Lemma apart_sym r r' : apart r r' -> apart r' r.
Proof. intros [? Hs Hj]. split; [congruence|..]; [intros s H1 H2; by apply (Hs s)|intros n H1 H2; by apply (Hj n)]. Qed.

Record registry_ok (pols : gmap string PolicyRow) : Prop := {
  rg_rows : forall id r, pols !! id = Some r -> row_ok r;
  rg_apart : forall id id' r r', pols !! id = Some r -> pols !! id' = Some r' -> id <> id' -> apart r r';
}.

Lemma registry_insert pols id r :
  registry_ok pols -> row_ok r -> (forall id' r', pols !! id' = Some r' -> id' <> id -> apart r r') ->
  registry_ok (<[id := r]> pols).
Proof.
  intros [Hr Ha] Hrow Hap. split.
  - intros id' r' [[<- <-]|[Hne Hl]]%lookup_insert_Some; eauto.
  - intros i j a b [[<- <-]|[Hi Hl]]%lookup_insert_Some [[<- <-]|[Hj Hl']]%lookup_insert_Some Hne;
      [done|by eapply Hap|by apply apart_sym; eapply Hap|by eapply Ha].
Qed.
Lemma registry_delete pols id : registry_ok pols -> registry_ok (delete id pols).
Proof.
  intros [Hr Ha]. split.
  - intros i r [_ ?]%lookup_delete_Some. eauto.
  - intros i j r r' [_ ?]%lookup_delete_Some [_ ?]%lookup_delete_Some. eauto.
Qed.
Lemma registry_drop_link pols fw : registry_ok pols -> registry_ok (drop_link fw <$> pols).
Proof.
  intros [Hr Ha]. split.
  - intros i r. rewrite lookup_fmap, fmap_Some. intros (r' & Hi & ->).
    destruct (Hr i r' Hi). by split.
  - intros i j r r'. rewrite !lookup_fmap, !fmap_Some. intros (a & Hi & ->) (b & Hj & ->) Hne.
    destruct (Ha i j a b Hi Hj Hne). by split.
Qed.

Lemma NoDup_fmap_filter {A B} (f : A -> B) (P : A -> Prop) `{forall x, Decision (P x)} (l : list A) :
  NoDup (f <$> l) -> NoDup (f <$> filter P l).
Proof.
  induction l as [|x l IH]; csimpl; [done|]. intros [Hx Hl]%NoDup_cons.
  rewrite filter_cons. case_decide; [|by apply IH]. csimpl. apply NoDup_cons. split; [|by apply IH].
  intros (y & Hy & Hin)%list_elem_of_fmap. apply list_elem_of_filter in Hin as [_ Hin].
  apply Hx. rewrite Hy. by apply list_elem_of_fmap_2.
Qed.

Lemma fmap_bind {A B C} (f : B -> C) (g : A -> list B) (l : list A) :
  f <$> (l ≫= g) = l ≫= (fun x => f <$> g x).
Proof. induction l as [|x l IH]; csimpl; [done|]. by rewrite fmap_app, IH. Qed.

Section Registry.
Context (pols : gmap string PolicyRow) (Hreg : registry_ok pols) (fws : gset string).

Lemma resolve_names : NoDup (Policy_Name <$> policiesForProject pols fws).
Proof.
  unfold policiesForProject. rewrite <-list_fmap_compose. change (Policy_Name ∘ to_policy) with Row_Name.
  apply NoDup_fmap_filter. rewrite <-list_fmap_compose.
  apply NoDup_fmap_2_strong; [|apply (NoDup_fmap_1 fst), NoDup_range_map].
  intros [i r] [j r'] Hi%elem_of_range_map Hj%elem_of_range_map Heq. simpl in Heq.
  destruct (decide (i = j)) as [<-|Hne]; [congruence|].
  by destruct (rg_apart _ Hreg i j r r' Hi Hj Hne).
Qed.

Lemma resolve_same p q :
  p ∈ policiesForProject pols fws -> q ∈ policiesForProject pols fws ->
  (exists n, n ∈ Job_Name <$> Jobs (Policy_Pipeline p) /\ n ∈ Job_Name <$> Jobs (Policy_Pipeline q)) \/
  (exists s, s ∈ Stages (Policy_Pipeline p) /\ s ∈ Stages (Policy_Pipeline q)) -> p = q.
Proof.
  rewrite !elem_of_resolve. intros (i & r & Hi & _ & ->) (j & r' & Hj & _ & ->) Hsh.
  destruct (decide (i = j)) as [<-|Hne]; [congruence|]. simpl in Hsh.
  destruct (rg_apart _ Hreg i j r r' Hi Hj Hne) as [_ Hs Hn]. naive_solver.
Qed.

Lemma resolve_row p : p ∈ policiesForProject pols fws ->
  policy_ok p /\ valid_pipeline (Policy_Pipeline p).
Proof.
  rewrite elem_of_resolve. intros (id & r & Hr & _ & ->). destruct (rg_rows _ Hreg id r Hr).
  split; [by apply ValidatePolicyNames_Ok|done].
Qed.
Lemma resolve_ok : Forall policy_ok (policiesForProject pols fws).
Proof. apply Forall_forall. intros p Hp. by apply resolve_row. Qed.

Lemma resolve_jobs : NoDup (Job_Name <$> policy_jobs (policiesForProject pols fws)).
Proof.
  unfold policy_jobs. rewrite fmap_bind. apply NoDup_bind.
  - intros p q n Hp Hq Hn Hn'. apply resolve_same; eauto.
  - intros p Hp. apply resolve_row in Hp as [_ Hv]. apply (vp_names _ Hv).
  - eapply NoDup_fmap_1, resolve_names.
Qed.
Lemma resolve_stages :
  (forall id r, pols !! id = Some r -> NoDup (Stages (Row_Config r))) ->
  NoDup (policy_stages (policiesForProject pols fws)).
Proof.
  intros Hnd. unfold policy_stages. apply NoDup_bind.
  - intros p q n Hp Hq Hn Hn'. apply resolve_same; eauto.
  - intros p Hp. apply elem_of_resolve in Hp as (id & r & Hr & _ & ->). simpl. eauto.
  - eapply NoDup_fmap_1, resolve_names.
Qed.
End Registry.

(** ** Lemmas on reconciliation *)

Lemma marshal_idem p : marshalPipelineDefinition (marshalPipelineDefinition p) = marshalPipelineDefinition p.
Proof.
  unfold marshalPipelineDefinition. simpl. f_equal. rewrite <-list_fmap_compose.
  by apply list_fmap_ext; intros ? [] _.
Qed.
Lemma marshal_with p s j :
  marshalPipelineDefinition (with_stages_jobs p s j) = with_stages_jobs (marshalPipelineDefinition p) s j.
Proof. done. Qed.
Lemma marshal_ApplyPolicies p ps :
  marshalPipelineDefinition (ApplyPolicies p ps) = ApplyPolicies (marshalPipelineDefinition p) ps.
Proof.
  destruct (decide (ps = [])) as [->|Hne]; [done|]. rewrite !ApplyPolicies_fold by done.
  change (start (marshalPipelineDefinition p)) with (marshalPipelineDefinition (start p)).
  generalize (start p). induction (stable_sort policy_lt ps) as [|q l IH]; intros out; simpl; [done|].
  rewrite IH. f_equal. unfold apply_policy. by case_decide.
Qed.

Lemma eventsIncludePush_true l : eventsIncludePush l = true <-> l = [] \/ "push" ∈ l.
Proof.
  destruct l as [|e l]; [naive_solver|]. unfold eventsIncludePush.
  rewrite existsb_exists. setoid_rewrite bool_decide_eq_true. setoid_rewrite <-list_elem_of_In.
  naive_solver.
Qed.
Lemma unionEvents_push l : eventsIncludePush (unionEvents l "push") = true.
Proof. apply eventsIncludePush_true. right. unfold unionEvents. apply elem_of_dedup. set_solver. Qed.

Lemma synth_rows existing mat k m :
  filter (fun km : string * MaterialRow => km.1 = Fingerprint mat) (UpsertMaterial existing mat) !! k = Some m <->
  k = Fingerprint mat /\ m = material_row mat.
Proof.
  unfold UpsertMaterial. rewrite map_lookup_filter_Some. simpl. split.
  - intros [Hk ->]. by rewrite lookup_insert_eq in Hk; simplify_eq.
  - intros [-> ->]. by rewrite lookup_insert_eq.
Qed.

(** A material that fires on every push to the branch. *)
Definition push_trigger (branch : string) (m : MaterialRow) : Prop :=
  MR_Type m = MaterialGit /\ exists g, MR_Git m = Some g /\ Git_Branch g = branch /\
    eventsIncludePush (Git_Events g) = true /\ Git_Paths g = [].

Lemma compliance_trigger u b : b <> "" ->
  Fingerprint (ComplianceMaterial u b) = GitFingerprint u b /\
  push_trigger b (material_row (ComplianceMaterial u b)).
Proof.
  intros Hb. unfold ComplianceMaterial. rewrite decide_False by done. split; [done|].
  split; [done|]. by eexists.
Qed.

Lemma hardened_trigger mats u b mat : b <> "" ->
  hardenedPushMaterial mats u b (GitFingerprint u b) = Some mat ->
  Fingerprint mat = GitFingerprint u b /\ push_trigger b (material_row mat).
Proof.
  intros Hb. unfold hardenedPushMaterial. destruct (mats !! _) as [m|]; [|done].
  destruct (MR_Type m); [|done..]. destruct (negb _); [done|]. intros [= <-].
  unfold ComplianceMaterial. rewrite decide_False by done. split; [done|]. split; [done|].
  eexists. split; [done|]. simpl. split_and!; [done|apply unionEvents_push|done].
Qed.

(** Every push material of the default branch in the row is unfiltered. *)
Definition unfiltered (u b : string) (r : PipelineRow) : Prop :=
  forall m g, MaterialRows r !! GitFingerprint u b = Some m -> MR_Type m = MaterialGit ->
    MR_Git m = Some g -> eventsIncludePush (Git_Events g) = true -> Git_Paths g = [] /\ Git_Branch g = b.
Definition has_trigger (u b : string) (r : PipelineRow) : Prop :=
  exists m, MaterialRows r !! GitFingerprint u b = Some m /\ push_trigger b m.

Lemma trigger_unfiltered u b r m :
  MaterialRows r !! GitFingerprint u b = Some m -> push_trigger b m -> unfiltered u b r.
Proof. intros Hm (_ & g & Hg & Hb & _ & Hp) m' g' Hm' _ Hg' _. by simplify_eq. Qed.

Lemma harden_row u b r : b <> "" -> SystemManaged r = false ->
  unfiltered u b (harden u b r) /\ (fires_on_push u b r = true -> has_trigger u b (harden u b r)).
Proof.
  intros Hb Hr. unfold harden, fires_on_push. rewrite Hr. simpl.
  destruct (hardenedPushMaterial _ _ _ _) as [mat|] eqn:Hm.
  - destruct (hardened_trigger _ _ _ _ Hb Hm) as [Hf Ht].
    assert (Hl : UpsertMaterial (MaterialRows r) mat !! GitFingerprint u b = Some (material_row mat))
      by (unfold UpsertMaterial; by rewrite Hf, lookup_insert_eq).
    split; [by eapply trigger_unfiltered|]. intros _. by exists (material_row mat).
  - split; [|intros [? ?]%bool_decide_eq_true_1; done].
    intros m g Hl Ht Hg He. unfold hardenedPushMaterial in Hm. rewrite Hl, Ht, Hg in Hm. simpl in Hm.
    by rewrite He in Hm.
Qed.
Lemma harden_fields u b r :
  SystemManaged (harden u b r) = SystemManaged r /\ Definition_ (harden u b r) = Definition_ r /\
  DefinitionRaw (harden u b r) = DefinitionRaw r.
Proof. unfold harden. destruct (SystemManaged r) eqn:?; [done|]. by destruct (hardenedPushMaterial _ _ _ _). Qed.

Record shape_ok (name : string) (r : PipelineRow) : Prop := {
  so_raw : marshalPipelineDefinition (DefinitionRaw r) = DefinitionRaw r;
  so_synth : SystemManaged r = true -> name = PipelineName;
  so_user : SystemManaged r = false -> IsReservedPipelineName name = false /\ none_reserved (DefinitionRaw r);
}.
Definition shapes (t : gmap string PipelineRow) : Prop := forall n r, t !! n = Some r -> shape_ok n r.
Definition current_defs (ps : list Policy) (t : gmap string PipelineRow) : Prop :=
  forall n r, t !! n = Some r -> Definition_ r = ApplyPolicies (DefinitionRaw r) ps.

(** What reconciliation establishes for a governed project. *)
Record enforced (u b : string) (t : gmap string PipelineRow) : Prop := {
  en_path : exists n r, t !! n = Some r /\ has_trigger u b r;
  en_unfiltered : forall n r, t !! n = Some r -> unfiltered u b r;
  en_synth : is_Some (t !! PipelineName) <->
             forall n r, t !! n = Some r -> SystemManaged r = false -> ~ has_trigger u b r;
}.

Lemma synth_name_spec t :
  shapes t -> synth_name t = None /\ (forall n r, t !! n = Some r -> SystemManaged r = false) \/
  synth_name t = Some PipelineName.
Proof.
  intros Hs. unfold synth_name.
  set (l := filter (fun kr => SystemManaged kr.2 = true) (range_map t)).
  assert (Hl : forall kr, kr ∈ l -> kr.1 = PipelineName /\ t !! kr.1 = Some kr.2).
  { intros [n r] [Hr Hin]%list_elem_of_filter. apply elem_of_range_map in Hin.
    split; [exact (so_synth _ _ (Hs _ _ Hin) Hr)|done]. }
  destruct (last (fst <$> l)) as [n|] eqn:Hlast.
  - right. f_equal. apply last_Some_elem_of, list_elem_of_fmap in Hlast as (kr & -> & Hin).
    by apply Hl in Hin as [-> _].
  - left. split; [done|]. apply last_None in Hlast. intros n r Hn.
    destruct (SystemManaged r) eqn:Hr; [|done].
    assert ((n, r) ∈ l) as Hin by (apply list_elem_of_filter; by rewrite elem_of_range_map).
    destruct l; [by apply elem_of_nil in Hin|done].
Qed.

Section Reconcile.
Context (ps : list Policy) (u b : string) (t : gmap string PipelineRow).
Hypothesis (Hb : b <> "") (Hs : shapes t) (Hc : current_defs ps t).

Lemma user_not_synth n r : t !! n = Some r -> SystemManaged r = false -> n <> PipelineName.
Proof. intros Hn Hr ->. by destruct (so_user _ _ (Hs _ _ Hn) Hr) as [? _]. Qed.

Lemma hardened_table n r' :
  (harden u b <$> t) !! n = Some r' -> exists r, t !! n = Some r /\ r' = harden u b r.
Proof. rewrite lookup_fmap, fmap_Some. naive_solver. Qed.

Lemma hardened_shapes : shapes (harden u b <$> t) /\ current_defs ps (harden u b <$> t).
Proof.
  split; intros n r' (r & Hn & ->)%hardened_table; destruct (harden_fields u b r) as (H1 & H2 & H3).
  - destruct (Hs n r Hn). split; rewrite ?H1, ?H3; done.
  - rewrite H2, H3. by eapply Hc.
Qed.

Lemma fires_exists :
  existsb (fun kr => fires_on_push u b kr.2) (range_map t) = true <->
  exists n r, t !! n = Some r /\ fires_on_push u b r = true.
Proof.
  rewrite existsb_exists. setoid_rewrite <-list_elem_of_In. split.
  - intros ([n r] & Hin%elem_of_range_map & Hf). eauto.
  - intros (n & r & Hn & Hf). exists (n, r). by rewrite elem_of_range_map.
Qed.

(** A user pipeline carries push enforcement: the synthetic one goes. *)
Lemma reconcile_kept :
  (exists n r, t !! n = Some r /\ fires_on_push u b r = true) ->
  let t' := match synth_name t with Some n => delete n (harden u b <$> t) | None => harden u b <$> t end in
  shapes t' /\ current_defs ps t' /\ enforced u b t'.
Proof.
  intros (n & r & Hn & Hf) t'. destruct hardened_shapes as [Hs' Hc'].
  assert (Hr : SystemManaged r = false) by (unfold fires_on_push in Hf; by destruct (SystemManaged r)).
  assert (Ht' : forall k r', t' !! k = Some r' <->
    (harden u b <$> t) !! k = Some r' /\ SystemManaged r' = false).
  { intros k r'. subst t'. destruct (synth_name_spec t Hs) as [[-> Hall]| ->].
    - split; [|by intros [? _]]. intros Hk. split; [done|].
      apply hardened_table in Hk as (r0 & Hk & ->). destruct (harden_fields u b r0) as [-> _]. eauto.
    - rewrite lookup_delete_Some. split.
      + intros [Hne Hk]. split; [done|]. destruct (SystemManaged r') eqn:Hr'; [|done].
        by apply (so_synth _ _ (Hs' _ _ Hk)) in Hr'.
      + intros [Hk Hr']. split; [|done]. intros <-. by destruct (so_user _ _ (Hs' _ _ Hk) Hr') as [? _]. }
  assert (Htrig : t' !! n = Some (harden u b r) /\ has_trigger u b (harden u b r)).
  { split; [|by apply harden_row]. apply Ht'. rewrite lookup_fmap, Hn.
    by destruct (harden_fields u b r) as [-> _]. }
  split_and!.
  - intros k r' [Hk _]%Ht'. eauto.
  - intros k r' [Hk _]%Ht'. eauto.
  - split.
    + by exists n, (harden u b r).
    + intros k r' [Hk Hr']%Ht'. apply hardened_table in Hk as (r0 & Hk & ->).
      apply harden_row; [done|]. by destruct (harden_fields u b r0) as [<- _].
    + split.
      * intros [r' [Hk Hr']%Ht']. by destruct (so_user _ _ (Hs' _ _ Hk) Hr') as [? _].
      * intros Hno. destruct Htrig as [Hk Htr]. edestruct Hno; [exact Hk| |done].
        by apply Ht' in Hk as [_ ?].
Qed.

(** None does: the synthetic pipeline is written. *)
Lemma reconcile_created :
  ~ (exists n r, t !! n = Some r /\ fires_on_push u b r = true) ->
  let t' := createSyntheticPipeline u b ps (harden u b <$> t) in
  shapes t' /\ current_defs ps t' /\ enforced u b t'.
Proof.
  intros Hno t'. destruct hardened_shapes as [Hs' Hc'].
  destruct (compliance_trigger u b Hb) as [Hf Htr]. subst t'. unfold createSyntheticPipeline.
  set (row := {| SystemManaged := true |}).
  assert (Hm : forall k m, MaterialRows row !! k = Some m <->
    k = GitFingerprint u b /\ m = material_row (ComplianceMaterial u b)).
  { intros k m. rewrite <-Hf. apply synth_rows. }
  assert (Hrow : has_trigger u b row) by (eexists; split; [by apply Hm|done]).
  assert (Hquiet : forall n r', (harden u b <$> t) !! n = Some r' -> SystemManaged r' = false ->
     unfiltered u b r' /\ ~ has_trigger u b r').
  { intros n r' (r & Hn & ->)%hardened_table Hr. destruct (harden_fields u b r) as [Hsm _].
    rewrite Hsm in Hr. split; [by apply harden_row|].
    intros (m & Hmm & Ht & g & Hg & _ & He & _). apply Hno. exists n, r. split; [done|].
    unfold fires_on_push. rewrite Hr. simpl. apply bool_decide_eq_true.
    unfold harden in Hmm. rewrite Hr in Hmm.
    destruct (hardenedPushMaterial _ _ _ _) as [mat|] eqn:Hh; [done|].
    unfold hardenedPushMaterial in Hh. rewrite Hmm, Ht, Hg in Hh. simpl in Hh. by rewrite He in Hh. }
  split_and!.
  - intros n r [[<- <-]|[_ Hn]]%lookup_insert_Some; [|by apply Hs']. by split.
  - intros n r [[<- <-]|[_ Hn]]%lookup_insert_Some; [|by eapply Hc']. simpl.
    apply marshal_ApplyPolicies.
  - split.
    + exists PipelineName, row. by rewrite lookup_insert_eq.
    + intros n r [[<- <-]|[Hne Hn]]%lookup_insert_Some.
      * destruct Hrow as (m & Hl & Ht). by eapply trigger_unfiltered.
      * apply (Hquiet n); [done|]. destruct (SystemManaged r) eqn:Hr; [|done].
        by destruct Hne; rewrite (so_synth _ _ (Hs' _ _ Hn)).
    + rewrite lookup_insert_eq. split; [|done]. intros _ n r [[<- <-]|[_ Hn]]%lookup_insert_Some Hr; [done|].
      by eapply Hquiet.
Qed.
End Reconcile.

(** *** A project in order *)
Record project_ok (ps : list Policy) (pr : Project) : Prop := {
  po_shape : shapes (Pipelines pr);
  po_current : current_defs ps (Pipelines pr);
  po_branch : forall u b, SCM pr = Some (u, b) -> b <> "";
  po_governed : ps <> [] -> exists u b, SCM pr = Some (u, b) /\ enforced u b (Pipelines pr);
  po_free : ps = [] -> forall n r, Pipelines pr !! n = Some r -> SystemManaged r = false;
}.

Lemma reconcile_ok ps scm fws t t' :
  shapes t -> current_defs ps t -> (forall u b, scm = Some (u, b) -> b <> "") ->
  reconcileGovernance scm ps t = Ok t' ->
  project_ok ps {| SCM := scm; Frameworks := fws; Pipelines := t' |}.
Proof.
  intros Hs Hc Hb Hr. destruct ps as [|p ps]; simpl in Hr.
  - injection Hr as <-. unfold dropSyntheticIfPresent.
    split; simpl.
    + intros n r [Hn _]%map_lookup_filter_Some. eauto.
    + intros n r [Hn _]%map_lookup_filter_Some. by eapply Hc.
    + done.
    + done.
    + by intros _ n r [_ Hr]%map_lookup_filter_Some.
  - destruct scm as [[u b]|]; [|done]. assert (b <> "") as Hbne by eauto.
    assert (Hok : shapes t' /\ current_defs (p :: ps) t' /\ enforced u b t').
    { destruct (existsb _ _) eqn:He; injection Hr as <-.
      - by apply reconcile_kept; [..|apply fires_exists].
      - apply reconcile_created; [done..|]. rewrite <-fires_exists. by rewrite He. }
    destruct Hok as (? & ? & ?). split; simpl; try done. intros _. eauto.
Qed.

(** ** The transactions *)

Lemma project_ok_perm ps ps' pr :
  ps ≡ₚ ps' -> NoDup (Policy_Name <$> ps) -> project_ok ps pr -> project_ok ps' pr.
Proof.
  intros Hp Hnd [Hs Hc Hb Hg Hf].
  assert (Hnil : ps = [] <-> ps' = []).
  { split; intros ->; [by apply Permutation_nil_l in Hp|by apply Permutation_nil_r in Hp]. }
  split; [done| |done|naive_solver..].
  intros n r Hn. rewrite (Hc n r Hn). by apply ApplyPolicies_perm.
Qed.

Definition loose (pr : Project) : Prop :=
  shapes (Pipelines pr) /\ forall u b, SCM pr = Some (u, b) -> b <> "".
Lemma project_ok_loose ps pr : project_ok ps pr -> loose pr.
Proof. by intros []. Qed.

Definition in_order (db : DB) (pr : Project) : Prop :=
  project_ok (policiesForProject (Policies db) (Frameworks pr)) pr.

Lemma recompute_one db pid db' :
  (forall pr, Projects db !! pid = Some pr -> loose pr) ->
  recomputeProjectEffective db pid = Ok db' ->
  Policies db' = Policies db /\ (forall q, q <> pid -> Projects db' !! q = Projects db !! q) /\
  (forall pr, Projects db' !! pid = Some pr -> in_order db pr).
Proof.
  intros Hl. unfold recomputeProjectEffective.
  destruct (Projects db !! pid) as [pr|] eqn:Hpr.
  - intros (t & Ht & [= <-])%bind_Ok. simpl. split_and!; [done| |].
    { intros q Hq. by rewrite lookup_insert_ne. }
    intros pr'. rewrite lookup_insert_eq. intros [= <-]. unfold in_order. simpl.
    destruct (Hl pr eq_refl) as [Hs Hb]. apply reconcile_ok with (recompute_row
      (policiesForProject (Policies db) (Frameworks pr)) <$> Pipelines pr); [..|done|done].
    + intros n r. rewrite lookup_fmap, fmap_Some. intros (r0 & Hn & ->). by destruct (Hs n r0 Hn).
    + intros n r. rewrite lookup_fmap, fmap_Some. intros (r0 & Hn & ->). simpl.
      by rewrite marshal_ApplyPolicies, (so_raw _ _ (Hs n r0 Hn)).
  - destruct (policiesForProject _ _); [|done]. intros [= <-]. split_and!; [done..|].
    intros pr. by rewrite Hpr.
Qed.

Lemma recompute_many db ids db' :
  (forall pid pr, Projects db !! pid = Some pr -> loose pr /\ (pid ∉ ids -> in_order db pr)) ->
  recomputeProjects db ids = Ok db' ->
  Policies db' = Policies db /\ forall pid pr, Projects db' !! pid = Some pr -> in_order db' pr.
Proof.
  unfold recomputeProjects. revert db. induction ids as [|i ids IH]; intros db Hdb; simpl.
  { intros [= <-]. split; [done|]. intros pid pr Hpr. by apply (Hdb pid pr Hpr); set_solver. }
  destruct (recomputeProjectEffective db i) as [db1|] eqn:H1; [|done]. intros Hr.
  destruct (recompute_one db i db1) as (Hp & Hq & Hi); [intros pr Hpr; by apply (Hdb i)|done|].
  destruct (IH db1) as [Hp' Hall]; [|done|split; [congruence|done]].
  intros pid pr Hpr. destruct (decide (pid = i)) as [->|Hne].
  - apply Hi in Hpr. split; [by eapply project_ok_loose|]. intros _. unfold in_order in *. by rewrite Hp.
  - rewrite Hq in Hpr by done. destruct (Hdb pid pr Hpr) as [Hl Ho]. split; [done|].
    intros Hni. unfold in_order in *. rewrite Hp. apply Ho. set_solver.
Qed.

Lemma elem_of_affected db all fws pid :
  pid ∈ affectedProjectIDs db all fws <->
  exists pr, Projects db !! pid = Some pr /\ (all = true \/ Frameworks pr ∩ fws <> ∅).
Proof.
  unfold affectedProjectIDs. rewrite list_elem_of_fmap. setoid_rewrite list_elem_of_filter. split.
  - intros ([k pr] & -> & Hc & Hin%elem_of_range_map). eauto.
  - intros (pr & Hpr & Hc). exists (pid, pr). by rewrite elem_of_range_map.
Qed.
(** A policy the change is about does not apply to an unaffected project. *)
Lemma unaffected_skip db all fws pid pr r :
  Projects db !! pid = Some pr -> pid ∉ affectedProjectIDs db all fws ->
  (Row_AppliesToAll r = true -> all = true) -> Row_Frameworks r ⊆ fws -> applies (Frameworks pr) r = false.
Proof.
  intros Hpr Hni Hall Hfws. rewrite elem_of_affected in Hni. unfold applies.
  destruct (Row_Enabled r); [|done]. simpl. apply orb_false_iff. split.
  - apply not_true_iff_false. intros Ha. apply Hni. eauto.
  - apply bool_decide_eq_false. intros Hne. apply Hni. exists pr. split; [done|]. right. set_solver.
Qed.

(** *** A policy that was accepted *)

Lemma CompilePolicy_Ok f c : CompilePolicy f = Ok c -> all_reserved c /\ valid_pipeline c.
Proof.
  unfold CompilePolicy. intros (p & Hp & (u & Hv & [= <-])%bind_Ok)%bind_Ok.
  destruct (ParseNamed _ _ _ _ _ _) as [p'|] eqn:Hparse; [|done]. simpl in Hp. simplify_eq.
  apply ParseNamed_post in Hparse as ([H1 H2 H3 H4] & _).
  destruct (ValidatePolicyNames p) as [[]|] eqn:Hn; [|done]. apply ValidatePolicyNames_Ok in Hn.
  split; [exact Hn|by split].
Qed.

Lemma validatePolicyInput_Ok i mode c :
  validatePolicyInput i = Ok (mode, c) -> row_ok (policy_row i mode c).
Proof.
  unfold validatePolicyInput. intros (u1 & Hn & (u2 & Hm & (u3 & Hp & (c' & Hc & [= <- <-])%bind_Ok)%bind_Ok)%bind_Ok)%bind_Ok.
  apply CompilePolicy_Ok in Hc as [Hr Hv].
  destruct u1, u2, u3. apply check_Ok in Hn, Hm, Hp.
  apply negb_true_iff, bool_decide_eq_false in Hn, Hp. apply bool_decide_eq_true in Hm.
  split; simpl; try done.
  destruct (decide (In_PositionBefore i = "")), (decide (In_PositionAfter i = "")); naive_solver.
Qed.

Lemma checkPolicyNameCollisions_Ok others c :
  checkPolicyNameCollisions others c = Ok tt ->
  forall id r, others !! id = Some r ->
    (forall s, s ∈ Stages c -> s ∉ Stages (Row_Config r)) /\
    (forall n, n ∈ Job_Name <$> Jobs c -> n ∉ Job_Name <$> Jobs (Row_Config r)).
Proof.
  unfold checkPolicyNameCollisions. intros ([] & Hs & Hj)%bind_Ok id r Hr.
  apply check_all_Ok in Hs, Hj. rewrite Forall_forall in Hs. rewrite Forall_forall in Hj.
  setoid_rewrite check_Ok in Hs. setoid_rewrite check_Ok in Hj.
  assert (Hin : r ∈ (range_map others).*2).
  { apply list_elem_of_fmap. exists (id, r). by rewrite elem_of_range_map. }
  split.
  - intros s Hsc Hsr. apply Hs, bool_decide_eq_true in Hsc. apply Hsc.
    apply elem_of_list_to_set, list_elem_of_bind. eauto.
  - intros n (j & -> & Hjc)%list_elem_of_fmap Hnr. apply Hj, bool_decide_eq_true in Hjc. apply Hjc.
    apply elem_of_list_to_set, list_elem_of_bind. eauto.
Qed.

Lemma store_policy_Ok db id r db' :
  store_policy db id r = Ok db' ->
  db' = with_policies db (<[id := r]> (Policies db)) /\
  forall id' r', Policies db !! id' = Some r' -> id' <> id -> Row_Name r <> Row_Name r'.
Proof.
  unfold store_policy. intros ([] & Hn & (u & _ & [= <-])%bind_Ok)%bind_Ok. split; [done|].
  apply check_Ok in Hn. rewrite forallb_forall in Hn. intros id' r' Hr Hne Heq.
  specialize (Hn (id', r')). rewrite <-list_elem_of_In, elem_of_range_map, lookup_delete_ne in Hn by done.
  apply Hn, negb_true_iff, bool_decide_eq_false in Hr. by apply Hr.
Qed.

Lemma registry_store db id i mode c db' :
  registry_ok (Policies db) -> validatePolicyInput i = Ok (mode, c) ->
  checkPolicyNameCollisions (delete id (Policies db)) c = Ok tt ->
  store_policy db id (policy_row i mode c) = Ok db' ->
  db' = with_policies db (<[id := policy_row i mode c]> (Policies db)) /\ registry_ok (Policies db').
Proof.
  intros Hreg Hv Hcol [-> Hnames]%store_policy_Ok. split; [done|]. simpl.
  apply registry_insert; [done|by apply validatePolicyInput_Ok|]. intros id' r' Hr' Hne.
  assert (Hr : delete id (Policies db) !! id' = Some r') by (by rewrite lookup_delete_ne).
  destruct (checkPolicyNameCollisions_Ok _ _ Hcol id' r' Hr) as [Hs Hj].
  split; [by eapply Hnames|done..].
Qed.

(** *** The invariant of the tables *)

Record db_ok (db : DB) : Prop := {
  db_registry : registry_ok (Policies db);
  db_projects : forall pid pr, Projects db !! pid = Some pr -> in_order db pr;
}.

Lemma empty_db_ok : db_ok empty_db.
Proof. split; [split|]; simpl; intros *; by rewrite lookup_empty. Qed.

(** A change of the registry followed by the recomputation of [ids]. *)
Lemma recompute_db_ok db1 ids db' :
  registry_ok (Policies db1) ->
  (forall pid pr, Projects db1 !! pid = Some pr -> loose pr /\ (pid ∉ ids -> in_order db1 pr)) ->
  recomputeProjects db1 ids = Ok db' -> db_ok db'.
Proof. intros Hreg Hdb Hr. apply recompute_many in Hr as [Hp Hall]; [|done]. split; [by rewrite Hp|done]. Qed.

Lemma policy_change db pols (ids : list string) :
  db_ok db ->
  (forall pid pr, Projects db !! pid = Some pr -> pid ∉ ids ->
     policiesForProject pols (Frameworks pr) ≡ₚ policiesForProject (Policies db) (Frameworks pr)) ->
  forall pid pr, Projects (with_policies db pols) !! pid = Some pr ->
    loose pr /\ (pid ∉ ids -> in_order (with_policies db pols) pr).
Proof.
  intros [Hreg Hdb] Hperm pid pr Hpr. simpl in Hpr. specialize (Hdb pid pr Hpr) as Hok.
  split; [by eapply project_ok_loose|]. intros Hni. unfold in_order in *. simpl.
  eapply project_ok_perm; [symmetry; by apply (Hperm pid)|by apply resolve_names|done].
Qed.

Lemma Insert_ok db id i db' :
  db_ok db -> Policies db !! id = None -> InsertCompliancePolicy db id i = Ok db' -> db_ok db'.
Proof.
  intros Hdb Hid. unfold InsertCompliancePolicy.
  intros ([mode c] & Hv & ([] & Hcol & (db1 & Hst & Hr)%bind_Ok)%bind_Ok)%bind_Ok. simpl in *.
  rewrite <-(delete_id (Policies db) id) in Hcol by done.
  destruct (registry_store db id i mode c db1) as [-> Hreg]; [by destruct Hdb|done..|].
  assert (Hskip : forall pid pr (ids : list string), Projects db !! pid = Some pr ->
     applies (Frameworks pr) (policy_row i mode c) = false -> pid ∉ ids ->
     policiesForProject (<[id := policy_row i mode c]> (Policies db)) (Frameworks pr) ≡ₚ
     policiesForProject (Policies db) (Frameworks pr)).
  { intros. by apply resolve_insert_skip. }
  destruct (In_Enabled i) eqn:He.
  - eapply recompute_db_ok; [| |exact Hr]; [exact Hreg|]. apply policy_change; [done|].
    intros pid pr Hpr Hni. eapply Hskip; [done| |exact Hni].
    eapply (unaffected_skip (with_policies db _)); [exact Hpr|exact Hni|done|done].
  - injection Hr as <-. split; [done|]. intros pid pr Hpr.
    apply (policy_change db _ []) in Hpr as [_ Hok]; [apply Hok; set_solver|done|].
    intros q pr' Hq _. apply resolve_insert_skip; [done|]. unfold applies. simpl. by rewrite He.
Qed.

Lemma Update_ok db id i db' :
  db_ok db -> UpdateCompliancePolicy db id i = Ok db' -> db_ok db'.
Proof.
  intros Hdb. unfold UpdateCompliancePolicy.
  intros ([mode c] & Hv & ([] & Hcol & Hr)%bind_Ok)%bind_Ok. simpl in *.
  destruct (Policies db !! id) as [old|] eqn:Hid; [|done]. apply bind_Ok in Hr as (db1 & Hst & Hr).
  destruct (registry_store db id i mode c db1) as [-> Hreg]; [by destruct Hdb|done..|].
  eapply recompute_db_ok; [| |exact Hr]; [exact Hreg|]. apply policy_change; [done|].
  intros pid pr Hpr Hni. apply resolve_update_skip with old; [done| |];
    (eapply (unaffected_skip (with_policies db _)); [exact Hpr|exact Hni| |simpl; set_solver]).
  - by intros ->.
  - simpl. intros ->. by rewrite orb_true_r.
Qed.

Lemma Delete_ok db id db' : db_ok db -> DeleteCompliancePolicy db id = Ok db' -> db_ok db'.
Proof.
  intros Hdb. unfold DeleteCompliancePolicy. destruct (Policies db !! id) as [old|] eqn:Hid; [|done].
  intros Hr. eapply recompute_db_ok; [|..|exact Hr]; [by apply registry_delete; destruct Hdb|].
  apply policy_change; [done|]. intros pid pr Hpr Hni. apply resolve_delete_skip with old; [done|].
  eapply (unaffected_skip db); [exact Hpr|exact Hni|done|done].
Qed.

Lemma DeleteFramework_ok db fw db' : db_ok db -> DeleteComplianceFramework db fw = Ok db' -> db_ok db'.
Proof.
  intros [Hreg Hdb] Hr. unfold DeleteComplianceFramework in Hr.
  eapply recompute_db_ok; [| |exact Hr]; [by apply registry_drop_link|]. simpl.
  intros pid pr0. rewrite lookup_fmap, fmap_Some. intros (pr & Hpr & ->).
  pose proof (Hdb pid pr Hpr) as Hok. split; [by apply project_ok_loose in Hok|]. intros Hni.
  rewrite elem_of_affected in Hni.
  assert (Hfw : fw ∉ Frameworks pr) by (intros Hin; apply Hni; exists pr; split; [done|right; set_solver]).
  unfold in_order in *. simpl. replace (Frameworks pr ∖ {[fw]}) with (Frameworks pr) by set_solver.
  apply project_ok_perm with (policiesForProject (Policies db) (Frameworks pr)); [|by apply resolve_names|].
  - symmetry. by apply resolve_drop_link.
  - by destruct Hok.
Qed.

Lemma recompute_single db pid db' :
  recomputeProjectEffective db pid = Ok db' -> recomputeProjects db [pid] = Ok db'.
Proof. intros Hr. unfold recomputeProjects. cbn [fold_all]. by rewrite Hr. Qed.

Lemma SetFrameworks_ok db pid fws db' :
  db_ok db -> SetProjectFrameworks db pid fws = Ok db' -> db_ok db'.
Proof.
  intros [Hreg Hdb]. unfold SetProjectFrameworks. destruct (Projects db !! pid) as [pr|] eqn:Hpr.
  - intros (u & _ & Hr%recompute_single)%bind_Ok.
    eapply recompute_db_ok; [| |exact Hr]; [exact Hreg|]. simpl.
    intros q pr' [[<- <-]|[Hne Hq]]%lookup_insert_Some.
    + split; [|set_solver]. by apply Hdb, project_ok_loose in Hpr.
    + split; [by eapply project_ok_loose, Hdb|]. intros _. by apply (Hdb q).
  - case_decide; [|done]. intros Hr%recompute_single.
    eapply recompute_db_ok; [| |exact Hr]; [exact Hreg|].
    intros q pr' Hq. split; [by eapply project_ok_loose, Hdb|]. intros _. by apply (Hdb q).
Qed.

Lemma applyPipeline_ok ps t p t' :
  IsReservedPipelineName (Pipeline_Name p) = false ->
  shapes t /\ current_defs ps t -> applyPipeline ps t p = Ok t' -> shapes t' /\ current_defs ps t'.
Proof.
  intros Hn [Hs Hc]. unfold applyPipeline. intros (u & Hr & [= <-])%bind_Ok.
  destruct (RejectReservedNames p) as [[]|] eqn:Hrej; [|done]. apply RejectReservedNames_Ok in Hrej.
  split; intros n r [[<- <-]|[_ Hl]]%lookup_insert_Some; eauto; simpl.
  - split; simpl; [apply marshal_idem|done|done].
  - apply marshal_ApplyPolicies.
Qed.

Lemma upsertSCMSource_branch old s scm :
  (forall u b, old = Some (u, b) -> b <> "") -> upsertSCMSource old s = Ok scm ->
  forall u b, scm = Some (u, b) -> b <> "".
Proof.
  intros Ho. unfold upsertSCMSource. destruct s as [[url branch]|]; [|by intros [= <-]].
  case_decide; [done|]. intros [= <-] u b [= <- <-]. by case_decide.
Qed.

Lemma Apply_ok db slug scm ps db' : db_ok db -> ApplyProject db slug scm ps = Ok db' -> db_ok db'.
Proof.
  intros [Hreg Hdb]. unfold ApplyProject. set (pr := default {| SCM := None |} _).
  set (pols := policiesForProject (Policies db) (Frameworks pr)).
  intros (u0 & _ & (scm' & Hscm & (u1 & _ & (u2 & Hres & (t & Hfold & (t' & Hrec & [= <-])%bind_Ok)%bind_Ok)%bind_Ok)%bind_Ok)%bind_Ok)%bind_Ok.
  destruct u2. apply check_all_Ok in Hres. rewrite Forall_forall in Hres. setoid_rewrite check_Ok in Hres.
  assert (Hpr : loose pr /\ current_defs pols (Pipelines pr)).
  { subst pols pr. destruct (Projects db !! slug) as [pr|] eqn:Hpr; simpl.
    - split; [by eapply project_ok_loose, Hdb|]. by destruct (Hdb _ _ Hpr).
    - by repeat split; intros *; simpl; rewrite ?lookup_empty. }
  destruct Hpr as [[Hs Hb] Hc].
  assert (Ht : shapes t /\ current_defs pols t).
  { refine (fold_all_inv (applyPipeline pols) (fun t => shapes t /\ current_defs pols t) _ _ _ _ _ Hfold).
    - split; intros n r [Hn _]%map_lookup_filter_Some; eauto.
    - intros s p s' Hp Hs0. apply applyPipeline_ok; [|done]. by apply Hres, negb_true_iff in Hp. }
  split; [done|]. simpl. intros pid pr' [[<- <-]|[_ Hl]]%lookup_insert_Some; [|by apply (Hdb pid)].
  unfold in_order. simpl. destruct Ht as [Ht Htc].
  eapply reconcile_ok; [exact Ht|exact Htc|by eapply upsertSCMSource_branch|done].
Qed.

(** ** Executions *)

(** A committed transaction; the database hands out new policy ids. *)
Inductive tx_step (db : DB) : DB -> Prop :=
| tx_insert_policy id i db' :
    Policies db !! id = None -> InsertCompliancePolicy db id i = Ok db' -> tx_step db db'
| tx_update_policy id i db' : UpdateCompliancePolicy db id i = Ok db' -> tx_step db db'
| tx_delete_policy id db' : DeleteCompliancePolicy db id = Ok db' -> tx_step db db'
| tx_insert_framework id : tx_step db (InsertComplianceFramework db id)
| tx_delete_framework id db' : DeleteComplianceFramework db id = Ok db' -> tx_step db db'
| tx_set_frameworks pid fws db' : SetProjectFrameworks db pid fws = Ok db' -> tx_step db db'
| tx_apply slug scm ps db' : ApplyProject db slug scm ps = Ok db' -> tx_step db db'.
Definition db_reachable (db : DB) : Prop := rtc tx_step empty_db db.

Lemma tx_step_ok db db' : db_ok db -> tx_step db db' -> db_ok db'.
Proof.
  intros Hdb Hs. destruct Hs.
  - by eapply Insert_ok.
  - by eapply Update_ok.
  - by eapply Delete_ok.
  - by destruct Hdb.
  - by eapply DeleteFramework_ok.
  - by eapply SetFrameworks_ok.
  - by eapply Apply_ok.
Qed.
Lemma db_reachable_ok db : db_reachable db -> db_ok db.
Proof.
  intros Hr. assert (H1 : db_ok empty_db) by apply empty_db_ok. revert H1.
  induction Hr as [|? ? ? Hs _ IH]; [done|]. intros H1. by eapply IH, tx_step_ok.
Qed.

(** ** Properties *)

(** The registry keeps the promises the merge relies on: after any sequence of
    committed transactions, every stored policy is a valid pipeline fragment whose
    names are all reserved, and two policies share no name, no stage and no job. *)
Theorem registry_invariant (db : DB) :
  db_reachable db ->
  (forall id r, Policies db !! id = Some r -> row_ok r) /\
  (forall id id' r r', Policies db !! id = Some r -> Policies db !! id' = Some r' -> id <> id' ->
     apart r r').
Proof. intros [[Hr Ha] _]%db_reachable_ok. done. Qed.

(** No effective definition is ever stale: after any sequence of committed
    transactions, whatever projects each of them chose to recompute, the stored
    definition of every pipeline is its own definition merged with exactly the
    policies that apply to its project now. *)
Theorem definitions_current (db : DB) (pid name : string) (pr : Project) (r : PipelineRow) :
  db_reachable db -> Projects db !! pid = Some pr -> Pipelines pr !! name = Some r ->
  Definition_ r = ApplyPolicies (DefinitionRaw r) (policiesForProject (Policies db) (Frameworks pr)).
Proof. intros [_ Hdb]%db_reachable_ok Hpr Hr. by destruct (Hdb pid pr Hpr) as [_ Hc _ _ _]; apply (Hc name). Qed.

(** C30: A governed project cannot escape its policies. It has a source; some
    pipeline of it runs on every push to the default branch, with no path filter
    left on any default-branch push trigger; the server's own pipeline exists
    exactly when no pipeline of the project fires on push; and in every pipeline
    each job of every policy in force is there, once. *)
Theorem governed_enforced (db : DB) (pid : string) (pr : Project) :
  db_reachable db -> Projects db !! pid = Some pr ->
  let ps := policiesForProject (Policies db) (Frameworks pr) in
  ps <> [] ->
  (exists u b, SCM pr = Some (u, b) /\ enforced u b (Pipelines pr)) /\
  forall name r l1 p l2 j,
    Pipelines pr !! name = Some r -> stable_sort policy_lt ps = l1 ++ p :: l2 ->
    Forall (fun q => overrides q = false) l2 -> j ∈ Jobs (Policy_Pipeline p) ->
    filter (fun k => Job_Name k = Job_Name j) (Jobs (Definition_ r)) = [j].
Proof.
  intros [Hreg Hdb]%db_reachable_ok Hpr ps Hne. destruct (Hdb pid pr Hpr) as [_ Hc _ Hg _].
  split; [by apply Hg|]. intros name r l1 p l2 j Hr Hsort Hl2 Hj. rewrite (Hc name r Hr).
  eapply in_force; [by apply resolve_ok|by apply resolve_jobs|exact Hsort|done|done].
Qed.
End Governance.

(** ** Example: a shop with a pull-request pipeline only, then a global policy *)

Definition policy_file : File := {|
  F_Name := ""; F_Materials := []; F_Stages := ["_compliance_gate"]; F_Variables := ∅; F_Template := "";
  F_Jobs := {["_compliance_ok" := ParseJob.mk_jobdef "_compliance_gate" "" "" None None None ""
    (Some {| AD_Approvers := ["ana"]; AD_ApproverGroups := []; AD_Required := 1;
             AD_QuorumByLabel := ∅; AD_Description := "" |}) ∅ None zero_node]};
  F_Concurrency := ""; F_Supersede := ""; F_When := None; F_Services := []; F_Notifications := None;
|}.
Definition policy_input : PolicyInput := {|
  In_Name := "release gate"; In_Enabled := true; In_Mode := ""; In_Priority := 10; In_AppliesToAll := true;
  In_PositionBefore := "deploy"; In_PositionAfter := ""; In_Frameworks := ∅; In_ConfigYAML := policy_file;
|}.
Definition pr_material : Material := {|
  Material_ID := ""; Material_Type := MaterialGit;
  Fingerprint := GitFingerprint (H := ascii_only_case) "https://github.com/acme/shop" "main";
  AutoUpdate := true; Implicit := true;
  Material_Git := Some {| Git_URL := "https://github.com/acme/shop"; Git_Branch := "main";
    Git_Events := ["pull_request"]; Git_AutoRegisterWebhook := true; Git_SecretRef := "";
    Git_Paths := ["docs/**"]; Git_PollInterval := 0%Z |};
  Material_Upstream := None; Material_Cron := None |}.
Definition shop_pipeline : Pipeline := {|
  Pipeline_ID := ""; ProjectID := "p"; Pipeline_Name := "ci"; Materials := [pr_material];
  Stages := Stages repo_pipeline; Jobs := Jobs repo_pipeline; Pipeline_Variables := ∅; Template := "";
  Concurrency := ""; Supersede := ""; TriggerEvents := []; TriggerBranches := []; TriggerPaths := [];
  Services := []; Notifications := None |}.

Definition ok_or {E A} (d : A) (r : result E A) : A := match r with Ok a => a | Err _ => d end.
Lemma ok_or_Ok {E A} (d : A) (r : result E A) : is_ok r = true -> r = Ok (ok_or d r).
Proof. by destruct r. Qed.
Definition db1 : DB :=
  ok_or empty_db (@ApplyProject library_range ascii_only_case empty_db "shop"
    (Some ("https://github.com/acme/shop", "")) [shop_pipeline]).
Definition db2 : DB :=
  ok_or empty_db (@InsertCompliancePolicy library_range ascii_only_case
    (fun _ => []) (fun _ => []) (fun _ => true) db1 "pol1" policy_input).

Definition sample_reachable : DB -> Prop :=
  @db_reachable library_range ascii_only_case (fun _ => []) (fun _ => []) (fun _ => true).
Lemma db2_reachable : sample_reachable db2.
Proof.
  apply rtc_l with db1; [|apply rtc_once].
  - eapply tx_apply with (slug := "shop"). apply ok_or_Ok. vm_compute. reflexivity.
  - eapply tx_insert_policy with (id := "pol1") (i := policy_input); [vm_compute; reflexivity|].
    apply ok_or_Ok. vm_compute. reflexivity.
Qed.

Definition shop : Project := default {| SCM := None; Frameworks := ∅; Pipelines := ∅ |} (Projects db2 !! "shop").
Definition shop_policies : list Policy :=
  @policiesForProject library_range (Policies db2) (Frameworks shop).

(** The pull-request pipeline is left alone; the server's own carries the gate. *)
Example shop_rows :
  (fun kr => (kr.1, SystemManaged kr.2, Stages (Definition_ kr.2),
              from_option (Git_Paths ∘ default zero_git ∘ MR_Git) []
                (MaterialRows kr.2 !! Fingerprint pr_material))) <$> map_to_list (Pipelines shop)
  = [("_compliance", true, ["_compliance_gate"], []);
     ("ci", false, ["build"; "_compliance_gate"; "deploy"], ["docs/**"])].
Proof. vm_compute. reflexivity. Qed.

Lemma registry_invariant_witness :
  is_Some (Policies db2 !! "pol1") /\
  (forall id r, Policies db2 !! id = Some r -> row_ok r) /\
  (forall id id' r r', Policies db2 !! id = Some r -> Policies db2 !! id' = Some r' -> id <> id' ->
     apart r r').
Proof. split; [vm_compute; eauto|]. eapply registry_invariant, db2_reachable. Defined.

Lemma is_Some_decide {A} (o : option A) : bool_decide (is_Some o) = true -> is_Some o.
Proof. apply bool_decide_eq_true_1. Qed.
Lemma shop_row : is_Some (Pipelines shop !! "ci").
Proof. apply is_Some_decide. vm_compute. reflexivity. Qed.
Lemma shop_found : Projects db2 !! "shop" = Some shop.
Proof.
  assert (Hs : is_Some (Projects db2 !! "shop")) by (apply is_Some_decide; vm_compute; reflexivity).
  unfold shop. by destruct Hs as [pr ->].
Qed.

Lemma definitions_current_witness :
  exists r, Pipelines shop !! "ci" = Some r /\
    Definition_ r = ApplyPolicies (DefinitionRaw r) shop_policies.
Proof.
  destruct shop_row as [r Hr]. exists r. split; [exact Hr|].
  eapply (definitions_current _ _ _ db2 "shop" "ci" shop r); [apply db2_reachable|apply shop_found|exact Hr].
Defined.

Lemma governed_enforced_witness :
  (exists u b, SCM shop = Some (u, b) /\ enforced (H0 := ascii_only_case) u b (Pipelines shop)) /\
  forall name r l1 p l2 j,
    Pipelines shop !! name = Some r -> stable_sort policy_lt shop_policies = l1 ++ p :: l2 ->
    Forall (fun q => overrides q = false) l2 -> j ∈ Jobs (Policy_Pipeline p) ->
    filter (fun k => Job_Name k = Job_Name j) (Jobs (Definition_ r)) = [j].
Proof.
  eapply (governed_enforced _ _ _ db2 "shop" shop); [apply db2_reachable|apply shop_found|].
  vm_compute. discriminate.
Defined.
