(* ===== verification/Deploy.v ===== *)
(** [server/internal/deploy]: what the server reads of an external GitOps
    controller, and the decision it takes on each reading.  [convergence.go],
    [decide.go], [rollout.go], [argocd.go] and [validate.go].  The documents the
    cluster answers with are the decoded JSON; fetching them is a parameter. *)

From S2P Require Import Prelude GoStrings GoTime.

(** ** Domain ([provider.go]) *)

Inductive SyncMode := SyncModeTrigger | SyncModeObserve | SyncModeOther (s : string).
Inductive RolloutPhase :=
| RolloutProgressing | RolloutPaused | RolloutDegraded | RolloutHealthy | RolloutOther (s : string).
Inductive OpPhase := OpNone | OpRunning | OpSucceeded | OpFailed | OpError | OpTerminating.
Inductive SyncStatus := SyncUnset | SyncSynced | SyncOutOfSync | SyncUnknown.
Inductive HealthStatus :=
| HealthUnset | HealthHealthy | HealthProgressing | HealthDegraded | HealthSuspended | HealthMissing
| HealthUnknown.
Inductive DeployOutcome := OutcomePending | OutcomeSucceeded | OutcomeFailed.
#[export] Instance SyncMode_eq_dec : EqDecision SyncMode. Proof. solve_decision. Defined.
#[export] Instance RolloutPhase_eq_dec : EqDecision RolloutPhase. Proof. solve_decision. Defined.
#[export] Instance OpPhase_eq_dec : EqDecision OpPhase. Proof. solve_decision. Defined.
#[export] Instance SyncStatus_eq_dec : EqDecision SyncStatus. Proof. solve_decision. Defined.
#[export] Instance HealthStatus_eq_dec : EqDecision HealthStatus. Proof. solve_decision. Defined.
#[export] Instance DeployOutcome_eq_dec : EqDecision DeployOutcome. Proof. solve_decision. Defined.

Record DeploymentTarget := {
  Target_ProjectID : string;
  Target_Environment : string;
  Target_Provider : string;
  Target_Cluster : string;
  Target_Application : string;
  Target_Namespace : string;
  Target_SyncMode : SyncMode;
  Target_RolloutAware : bool;
  Target_RolloutCluster : string;
  Target_RolloutNamespace : string;
  Target_RolloutName : string;
}.
#[export] Instance DeploymentTarget_eq_dec : EqDecision DeploymentTarget. Proof. solve_decision. Defined.

Record RolloutState := {
  Phase : RolloutPhase;
  PauseReason : string;
  CurrentStepIndex : Z;
  CurrentStepKnown : bool;
  StepCount : Z;
  Aborted : bool;
  Message : string;
  StableHash : string;
  PodHash : string;
  PausedIndefinitely : bool;
  FullyPromoted : bool;
  ResolvedCluster : string;
  ResolvedNamespace : string;
  ResolvedName : string;
  AnalysisActive : bool;
  AnalysisKind : string;
  AnalysisName : string;
  AnalysisPhase : string;
  AnalysisMessage : string;
}.
Definition zero_rollout : RolloutState := {|
  Phase := RolloutOther ""; PauseReason := ""; CurrentStepIndex := 0; CurrentStepKnown := false;
  StepCount := 0; Aborted := false; Message := ""; StableHash := ""; PodHash := "";
  PausedIndefinitely := false; FullyPromoted := false; ResolvedCluster := ""; ResolvedNamespace := "";
  ResolvedName := ""; AnalysisActive := false; AnalysisKind := ""; AnalysisName := "";
  AnalysisPhase := ""; AnalysisMessage := "";
|}.

Record DeployState := {
  Sync : SyncStatus;
  Health : HealthStatus;
  ObservedRev : string;
  OperationPhase : OpPhase;
  OperationStartedAt : Time;
  SyncResultRevision : string;
  Rollout : RolloutState;
  RolloutObserved : bool;
  RolloutError : string;
}.
(** [deploy.DeployState{RolloutError: e}]. *)
Definition error_state (e : string) : DeployState := {|
  Sync := SyncUnset; Health := HealthUnset; ObservedRev := ""; OperationPhase := OpNone;
  OperationStartedAt := zero_time; SyncResultRevision := ""; Rollout := zero_rollout;
  RolloutObserved := false; RolloutError := e;
|}.

(** ** Convergence ([convergence.go]) *)

Definition Evaluate (s : DeployState) (expectedRev : string) : DeployOutcome :=
  if decide (Health s = HealthDegraded) then OutcomeFailed
  else if decide (Sync s <> SyncSynced \/ Health s <> HealthHealthy) then OutcomePending
  else if decide (expectedRev <> "" /\ ObservedRev s <> expectedRev) then OutcomePending
  else OutcomeSucceeded.

(** ** The verdict ([decide.go]) *)

Inductive VerdictEffect :=
| Continue | SetDegraded | ClearDegraded | FinalizeSuccess | FinalizeFailed
| ArmGate | Promote | Abort | ClearGate.
#[export] Instance VerdictEffect_eq_dec : EqDecision VerdictEffect. Proof. solve_decision. Defined.
Inductive GateDecision := GateUndecided | GateApproved | GateRejected.
#[export] Instance GateDecision_eq_dec : EqDecision GateDecision. Proof. solve_decision. Defined.

Definition ReasonDeadlineExceeded : string := "progress deadline exceeded".
Definition ReasonDegradedTooLong : string := "degraded beyond debounce window".
Definition ReasonRolloutAborted : string := "rollout aborted".
Definition ReasonRejected : string := "deploy rejected at the approval gate".
Definition ReasonCanceled : string := "deploy canceled".

Record Verdict := { Effect : VerdictEffect; Reason : string }.
Definition verdict (e : VerdictEffect) : Verdict := {| Effect := e; Reason := "" |}.
Definition failed (r : string) : Verdict := {| Effect := FinalizeFailed; Reason := r |}.

Record WatchAnchors := {
  Anchor_SyncMode : SyncMode;
  ExpectedRevision : string;
  SyncRequestedAt : option Time;
  DeadlineAt : Time;
  DegradedSince : option Time;
  RolloutAware : bool;
  Gated : bool;
  CancelRequested : bool;
  GateArmedAt : option Time;
  Decision_ : GateDecision;
  GateActionedAt : option Time;
  GatePausedStep : option Z;
  HasPinnedRolloutTarget : bool;
  RolloutAbortActionedAt : option Time;
}.

Definition operationTrusted (state : DeployState) (w : WatchAnchors) : bool :=
  match SyncRequestedAt w with
  | None => false
  | Some requested =>
      if decide (ExpectedRevision w = "") then false
      else if time_before (OperationStartedAt state) requested then false
      else bool_decide (SyncResultRevision state = ExpectedRevision w)
  end.
Definition rolloutObservedAborted (state : DeployState) : bool :=
  RolloutObserved state && Aborted (Rollout state).
Definition pausedAtArmedStep (state : DeployState) (w : WatchAnchors) : bool :=
  RolloutObserved state && bool_decide (Phase (Rollout state) = RolloutPaused) &&
  match GatePausedStep w with
  | Some step => CurrentStepKnown (Rollout state) && (CurrentStepIndex (Rollout state) =? step)%Z
  | None => false
  end.
Definition hasKnownAbortTarget (state : DeployState) (w : WatchAnchors) : bool :=
  HasPinnedRolloutTarget w ||
  (RolloutObserved state && bool_decide (ResolvedCluster (Rollout state) <> "") &&
   bool_decide (ResolvedNamespace (Rollout state) <> "") && bool_decide (ResolvedName (Rollout state) <> "")).
Definition gateActuatable (w : WatchAnchors) : bool :=
  bool_decide (is_Some (GateArmedAt w)) && HasPinnedRolloutTarget w.

(** Branch (9). *)
Definition converge (state : DeployState) (w : WatchAnchors) (now : Time) (degradedWindow : Duration)
    : Verdict :=
  if bool_decide (Evaluate state (ExpectedRevision w) = OutcomeSucceeded) &&
     (negb (RolloutAware w) || negb (RolloutObserved state) || FullyPromoted (Rollout state))
  then verdict FinalizeSuccess
  else if operationTrusted state w && bool_decide (OperationPhase state = OpFailed)
  then failed "sync operation Failed"
  else if operationTrusted state w && bool_decide (OperationPhase state = OpError)
  then failed "sync operation Error"
  else if decide (Health state = HealthDegraded) then
    match DegradedSince w with
    | None => verdict SetDegraded
    | Some since => if (degradedWindow <=? time_sub now since)%Z then failed ReasonDegradedTooLong
                    else verdict Continue
    end
  else match DegradedSince w with Some _ => verdict ClearDegraded | None => verdict Continue end.

Definition awaitingHuman (w : WatchAnchors) : bool :=
  bool_decide (is_Some (GateArmedAt w)) && bool_decide (Decision_ w = GateUndecided).

Definition Decide (state : DeployState) (w : WatchAnchors) (now : Time) (degradedWindow : Duration)
    : Verdict :=
  let pastDeadline := time_after now (DeadlineAt w) in
  if CancelRequested w && RolloutAware w then
    match RolloutAbortActionedAt w with
    | None =>
        if hasKnownAbortTarget state w then {| Effect := Abort; Reason := ReasonCanceled |}
        else if pastDeadline then failed ReasonDeadlineExceeded
        else verdict Continue
    | Some _ =>
        if rolloutObservedAborted state || pastDeadline then failed ReasonCanceled
        else verdict Continue
    end
  else if CancelRequested w && negb (RolloutAware w) then failed ReasonCanceled
  else if Gated w && bool_decide (Decision_ w = GateRejected) then
    if gateActuatable w && bool_decide (GateActionedAt w = None) && negb (rolloutObservedAborted state)
    then {| Effect := Abort; Reason := ReasonRejected |}
    else if rolloutObservedAborted state || pastDeadline then failed ReasonRejected
    else verdict Continue
  else if RolloutAware w && rolloutObservedAborted state then failed ReasonRolloutAborted
  else if pastDeadline && negb (awaitingHuman w) then failed ReasonDeadlineExceeded
  else if Gated w && RolloutAware w && bool_decide (RolloutError state <> "") then verdict Continue
  else if Gated w && bool_decide (Decision_ w = GateApproved) then
    if negb (gateActuatable w) then verdict Continue
    else match GateActionedAt w with
         | None => verdict Promote
         | Some _ => if pausedAtArmedStep state w then verdict Continue else verdict ClearGate
         end
  else if Gated w && RolloutAware w && RolloutObserved state && PausedIndefinitely (Rollout state) &&
          bool_decide (GateArmedAt w = None)
  then verdict ArmGate
  else if awaitingHuman w && negb (pausedAtArmedStep state w) then verdict ClearGate
  else converge state w now degradedWindow.

(** ** The Rollout ([rollout.go]) *)

Record AnalysisRunStatus := { Run_Name : string; Run_Status : string; Run_Message : string }.

(** The decoded Rollout resource.  A step is [None] when it is no pause, else the
    raw JSON of its duration ([""] when absent). *)
Record RolloutManifest := {
  M_Steps : list (option string);
  M_Phase : string;
  M_Message : string;
  M_CurrentStepIndex : option Z;
  M_Abort : bool;
  M_StableRS : string;
  M_CurrentPodHash : string;
  M_PauseReasons : list string;
  M_StepAnalysis : option AnalysisRunStatus;
  M_BackgroundAnalysis : option AnalysisRunStatus;
}.

Definition PauseReasonCanaryStep : string := "CanaryPauseStep".
Definition isIndefinitePause (step : option string) : bool :=
  match step with
  | None => false
  | Some raw =>
      let d := TrimSpace raw in
      bool_decide (d = "" \/ d = "null" \/ d = bytes [34; 34]%nat)
  end.
Definition normalizeRolloutPhase (s : string) : RolloutPhase :=
  if decide (s = "Progressing") then RolloutProgressing
  else if decide (s = "Paused") then RolloutPaused
  else if decide (s = "Degraded") then RolloutDegraded
  else if decide (s = "Healthy") then RolloutHealthy else RolloutOther s.

Definition step_at (steps : list (option string)) (i : Z) : option (option string) :=
  if (0 <=? i)%Z then steps !! Z.to_nat i else None.

Definition parseRolloutState (m : RolloutManifest) : RolloutState :=
  let steps := M_Steps m in
  let pauseReason := default "" (head (M_PauseReasons m)) in
  let stepKnown := bool_decide (is_Some (M_CurrentStepIndex m)) in
  let stepIdx := default 0%Z (M_CurrentStepIndex m) in
  let pausedIndef := bool_decide (pauseReason = PauseReasonCanaryStep) && stepKnown &&
    match step_at steps stepIdx with Some s => isIndefinitePause s | None => false end in
  let advanced := bool_decide (length steps = 0) ||
    (stepKnown && (Z.of_nat (length steps) <=? stepIdx)%Z) in
  let promoted := advanced && bool_decide (M_CurrentPodHash m <> "") &&
    bool_decide (M_CurrentPodHash m = M_StableRS m) && bool_decide (M_Phase m = "Healthy") in
  let analysis := match M_StepAnalysis m with
                  | Some a => Some ("step", a)
                  | None => match M_BackgroundAnalysis m with
                            | Some a => Some ("background", a) | None => None end
                  end in
  {| Phase := normalizeRolloutPhase (M_Phase m); PauseReason := pauseReason;
     CurrentStepIndex := stepIdx; CurrentStepKnown := stepKnown;
     StepCount := Z.of_nat (length steps); Aborted := M_Abort m; Message := M_Message m;
     StableHash := M_StableRS m; PodHash := M_CurrentPodHash m;
     PausedIndefinitely := pausedIndef; FullyPromoted := promoted;
     ResolvedCluster := ""; ResolvedNamespace := ""; ResolvedName := "";
     AnalysisActive := bool_decide (is_Some analysis);
     AnalysisKind := from_option fst "" analysis;
     AnalysisName := from_option (Run_Name ∘ snd) "" analysis;
     AnalysisPhase := from_option (Run_Status ∘ snd) "" analysis;
     AnalysisMessage := from_option (Run_Message ∘ snd) "" analysis |}.

Record AppResource := {
  Res_Group : string; Res_Kind : string; Res_Namespace : string; Res_Name : string;
}.
Definition is_rollout (r : AppResource) : bool :=
  bool_decide (Res_Group r = "argoproj.io") && bool_decide (Res_Kind r = "Rollout") &&
  bool_decide (Res_Namespace r <> "") && bool_decide (Res_Name r <> "").
Inductive rollout_error := ErrRolloutNotFound | ErrMultipleRollouts.
Definition discoverRollout (resources : list AppResource) : result rollout_error (string * string) :=
  match filter (fun r => is_rollout r = true) resources with
  | [] => Err ErrRolloutNotFound
  | [r] => Ok (Res_Namespace r, Res_Name r)
  | _ => Err ErrMultipleRollouts
  end.

(** ** The provider ([argocd.go]) *)

(** The decoded Application resource. *)
Record Application := {
  App_SyncStatus : string;
  App_SyncRevision : string;
  App_HealthStatus : string;
  App_OpPhase : string;
  App_OpStartedAt : string;
  App_OpRevision : string;
  App_Resources : list AppResource;
}.

Definition normalizeSync (s : string) : SyncStatus :=
  if decide (s = "Synced") then SyncSynced
  else if decide (s = "OutOfSync") then SyncOutOfSync else SyncUnknown.
Definition normalizeHealth (s : string) : HealthStatus :=
  if decide (s = "Healthy") then HealthHealthy
  else if decide (s = "Progressing") then HealthProgressing
  else if decide (s = "Degraded") then HealthDegraded
  else if decide (s = "Suspended") then HealthSuspended
  else if decide (s = "Missing") then HealthMissing else HealthUnknown.
Definition normalizeOpPhase (s : string) : OpPhase :=
  if decide (s = "Running") then OpRunning
  else if decide (s = "Succeeded") then OpSucceeded
  else if decide (s = "Failed") then OpFailed
  else if decide (s = "Error") then OpError
  else if decide (s = "Terminating") then OpTerminating else OpNone.
Definition parseK8sTime (s : string) : Time :=
  if decide (s = "") then zero_time else default zero_time (ParseRFC3339 s).

Definition parseApplicationStatus (app : Application) : DeployState := {|
  Sync := normalizeSync (App_SyncStatus app); Health := normalizeHealth (App_HealthStatus app);
  ObservedRev := App_SyncRevision app; OperationPhase := normalizeOpPhase (App_OpPhase app);
  OperationStartedAt := parseK8sTime (App_OpStartedAt app);
  SyncResultRevision := App_OpRevision app; Rollout := zero_rollout; RolloutObserved := false;
  RolloutError := "";
|}.

(** Why a document could not be had: the transport, or its decoding. *)
Inductive fetch_error := FetchFailed | DecodeFailed.

Definition with_identity (r : RolloutState) (cluster ns name : string) : RolloutState := {|
  Phase := Phase r; PauseReason := PauseReason r; CurrentStepIndex := CurrentStepIndex r;
  CurrentStepKnown := CurrentStepKnown r; StepCount := StepCount r; Aborted := Aborted r;
  Message := Message r; StableHash := StableHash r; PodHash := PodHash r;
  PausedIndefinitely := PausedIndefinitely r; FullyPromoted := FullyPromoted r;
  ResolvedCluster := cluster; ResolvedNamespace := ns; ResolvedName := name;
  AnalysisActive := AnalysisActive r; AnalysisKind := AnalysisKind r; AnalysisName := AnalysisName r;
  AnalysisPhase := AnalysisPhase r; AnalysisMessage := AnalysisMessage r;
|}.
Definition with_rollout (s : DeployState) (r : RolloutState) (observed : bool) (e : string) : DeployState := {|
  Sync := Sync s; Health := Health s; ObservedRev := ObservedRev s; OperationPhase := OperationPhase s;
  OperationStartedAt := OperationStartedAt s; SyncResultRevision := SyncResultRevision s;
  Rollout := r; RolloutObserved := observed; RolloutError := e;
|}.

Section Provider.
(** The two transports: an Application of a target, and a Rollout by project,
    cluster, namespace and name ([None] when none is configured). *)
Context (fetchApplication : DeploymentTarget -> result fetch_error Application).
Context (fetchRollout : option (string -> string -> string -> string -> result fetch_error RolloutManifest)).

Definition rollout_message (e : rollout_error) : string :=
  match e with
  | ErrRolloutNotFound => "deploy: no Rollout resolved for target"
  | ErrMultipleRollouts => "deploy: multiple Rollouts in application; set rollout_name"
  end.

(** The namespace and name to read: the target's own, completed by discovery. *)
Definition resolve_rollout (target : DeploymentTarget) (app : Application)
    : result rollout_error (string * string) :=
  let ns := Target_RolloutNamespace target in
  let name := Target_RolloutName target in
  if decide (ns = "" \/ name = "") then
    match discoverRollout (App_Resources app) with
    | Err e => Err e
    | Ok (dns, dname) => Ok (if decide (ns = "") then dns else ns, if decide (name = "") then dname else name)
    end
  else Ok (ns, name).

Definition observeRollout (target : DeploymentTarget) (app : Application) : result string RolloutState :=
  match fetchRollout with
  | None => Err "rollout transport not configured"
  | Some fetch =>
      match resolve_rollout target app with
      | Err e => Err (rollout_message e)
      | Ok (ns, name) =>
          let cluster := if decide (Target_RolloutCluster target = "") then Target_Cluster target
                         else Target_RolloutCluster target in
          match fetch (Target_ProjectID target) cluster ns name with
          | Err FetchFailed => Err "the rollout could not be read from the cluster"
          | Err DecodeFailed => Err "rollout status could not be parsed"
          | Ok m => Ok (with_identity (parseRolloutState m) cluster ns name)
          end
      end
  end.

Definition Observe (target : DeploymentTarget) : result fetch_error DeployState :=
  match fetchApplication target with
  | Err e => Err e
  | Ok app =>
      let state := parseApplicationStatus app in
      Ok (if Target_RolloutAware target then
            match observeRollout target app with
            | Ok r => with_rollout state r true ""
            | Err reason => with_rollout state zero_rollout false reason
            end
          else state)
  end.
End Provider.

(** ** Registration checks ([validate.go]) *)

Inductive target_error := UnknownProvider | UnknownSyncMode | NoCluster | NoApplication.
Definition SyncMode_of (s : string) : SyncMode :=
  if decide (s = "trigger") then SyncModeTrigger
  else if decide (s = "observe") then SyncModeObserve else SyncModeOther s.
Definition ValidateProvider (p : string) : result target_error unit :=
  check (bool_decide (p = "argocd")) UnknownProvider.
Definition ValidateSyncMode (m : string) : result target_error unit :=
  match SyncMode_of m with SyncModeOther _ => Err UnknownSyncMode | _ => Ok tt end.
Definition ValidateTargetFields (provider cluster application syncMode : string) : result target_error unit :=
  _ ← ValidateProvider provider;
  _ ← ValidateSyncMode syncMode;
  _ ← check (bool_decide (TrimSpace cluster <> "")) NoCluster;
  check (bool_decide (TrimSpace application <> "")) NoApplication.
Definition NormalizeNamespace (ns : string) : string :=
  let s := TrimSpace ns in if decide (s <> "") then s else "argocd".

(** ** Properties of the verdict *)

(** Go down the branches of the verdict, keeping each condition. *)
Ltac verdict_cases :=
  unfold Decide, converge, verdict, failed in *; repeat (case_match; simplify_eq/=); try done.

Definition past_deadline (w : WatchAnchors) (now : Time) : bool := time_after now (DeadlineAt w).

Lemma Decide_promote_iff (state : DeployState) (w : WatchAnchors) (now : Time) (window : Duration) :
  Effect (Decide state w now window) = Promote <->
  CancelRequested w = false /\ Gated w = true /\ Decision_ w = GateApproved /\
  is_Some (GateArmedAt w) /\ HasPinnedRolloutTarget w = true /\ GateActionedAt w = None /\
  past_deadline w now = false /\
  (RolloutAware w = true -> rolloutObservedAborted state = false /\ RolloutError state = "").
Proof.
  unfold past_deadline. split.
  - intros H. verdict_cases.
    apply andb_true_iff in H6 as [Hg Hd%bool_decide_eq_true]. rewrite Hg in H5.
    apply negb_false_iff, andb_true_iff in H7 as [Ha%bool_decide_eq_true Hp].
    unfold awaitingHuman in H4. rewrite Hd, (bool_decide_false (GateApproved = GateUndecided)), andb_false_r in H4 by discriminate.
    rewrite andb_true_r in H4. split_and!; try done.
    + by destruct (CancelRequested w), (RolloutAware w).
    + intros Hr. rewrite Hr in *. split; [done|]. simpl in H5. apply bool_decide_eq_false in H5.
      by apply dec_stable.
  - intros (Hc & Hg & Hd & Ha & Hp & Hact & Hdl & Hr). unfold Decide.
    rewrite Hc, Hg, Hd, Hdl, Hact. simpl. unfold gateActuatable.
    rewrite (bool_decide_true (is_Some (GateArmedAt w))), Hp by done.
    destruct (RolloutAware w); simpl; [|done]. destruct (Hr eq_refl) as [-> He].
    rewrite (bool_decide_false (_ <> "")) by (by intros []). done.
Qed.

Lemma Decide_success_facts (state : DeployState) (w : WatchAnchors) (now : Time) (window : Duration) :
  Effect (Decide state w now window) = FinalizeSuccess ->
  CancelRequested w = false /\
  (Gated w = true -> Decision_ w = GateUndecided) /\
  (past_deadline w now = true -> awaitingHuman w = true) /\
  (awaitingHuman w = true -> pausedAtArmedStep state w = true) /\
  Sync state = SyncSynced /\ Health state = HealthHealthy /\
  (ExpectedRevision w <> "" -> ObservedRev state = ExpectedRevision w) /\
  (RolloutAware w = true ->
     rolloutObservedAborted state = false /\
     (RolloutObserved state = true -> FullyPromoted (Rollout state) = true) /\
     (Gated w = true -> RolloutError state = "")).
Proof.
  unfold past_deadline. intros H. verdict_cases.
  match goal with H : _ && (_ || _) = true |- _ => apply andb_true_iff in H as [He%bool_decide_eq_true Hp] end.
  unfold Evaluate in He. case_decide; [done|]. case_decide as Hsh; [done|]. case_decide as Hrev; [done|].
  apply Decidable.not_or in Hsh as [Hs Hh]. apply dec_stable in Hs, Hh.
  assert (Hc : CancelRequested w = false) by (by destruct (CancelRequested w), (RolloutAware w)).
  split_and!; try done.
  - intros Hg. rewrite Hg in *. simpl in *. apply bool_decide_eq_false in H2, H6.
    by destruct (Decision_ w).
  - intros Hd. rewrite Hd in H4. by destruct (awaitingHuman w).
  - intros Ha. rewrite Ha in H8. by destruct (pausedAtArmedStep state w).
  - intros Hne. destruct (decide (ObservedRev state = ExpectedRevision w)); [done|]. by destruct Hrev.
  - intros Hr. rewrite Hr in *. simpl in *. split_and!; [done| |].
    + intros Ho. by rewrite Ho in Hp.
    + intros Hg. rewrite Hg in H5. simpl in H5. apply bool_decide_eq_false in H5. by apply dec_stable.
Qed.

Lemma Decide_abort (state : DeployState) (w : WatchAnchors) (now : Time) (window : Duration) :
  Effect (Decide state w now window) = Abort ->
  (CancelRequested w = true /\ RolloutAbortActionedAt w = None /\ hasKnownAbortTarget state w = true) \/
  (CancelRequested w = false /\ Decision_ w = GateRejected /\ gateActuatable w = true).
Proof.
  intros H. verdict_cases.
  - left. by apply andb_true_iff in H0 as [-> _].
  - right. apply andb_true_iff in H2 as [_ Hr%bool_decide_eq_true]. apply andb_true_iff in H3 as [H3 _].
    apply andb_true_iff in H3 as [-> _]. split; [|done]. by destruct (CancelRequested w), (RolloutAware w).
Qed.

(** Exactly when the watcher promotes: the deploy is gated and approved, its gate
    is armed and pinned and not yet acted on, it is neither canceled nor past its
    deadline, and the rollout was readable and not aborted. *)
Theorem Decide_promote (state : DeployState) (w : WatchAnchors) (now : Time) (window : Duration) :
  Effect (Decide state w now window) = Promote <->
  CancelRequested w = false /\ Gated w = true /\ Decision_ w = GateApproved /\
  is_Some (GateArmedAt w) /\ HasPinnedRolloutTarget w = true /\ GateActionedAt w = None /\
  past_deadline w now = false /\
  (RolloutAware w = true -> rolloutObservedAborted state = false /\ RolloutError state = "").
Proof. apply Decide_promote_iff. Qed.

(** A deploy is recorded as a success only when it is one: it is not canceled, no
    gate decision is outstanding or against it, the deadline is not spent (unless a
    human is being waited for), the application is synced and healthy on the
    expected revision, and an observed rollout is fully promoted. *)
Theorem Decide_success (state : DeployState) (w : WatchAnchors) (now : Time) (window : Duration) :
  Effect (Decide state w now window) = FinalizeSuccess ->
  CancelRequested w = false /\
  (Gated w = true -> Decision_ w = GateUndecided) /\
  (past_deadline w now = true -> awaitingHuman w = true) /\
  (awaitingHuman w = true -> pausedAtArmedStep state w = true) /\
  Sync state = SyncSynced /\ Health state = HealthHealthy /\
  (ExpectedRevision w <> "" -> ObservedRev state = ExpectedRevision w) /\
  (RolloutAware w = true ->
     rolloutObservedAborted state = false /\
     (RolloutObserved state = true -> FullyPromoted (Rollout state) = true) /\
     (Gated w = true -> RolloutError state = "")).
Proof. apply Decide_success_facts. Qed.

(** Every deploy ends: past the deadline, and unless a human is being waited for,
    the verdict is the failure of the deploy, or the one abort it still owes; once
    that abort was issued it can only be the failure. *)
Theorem Decide_deadline (state : DeployState) (w : WatchAnchors) (now : Time) (window : Duration) :
  past_deadline w now = true ->
  (awaitingHuman w = false \/ CancelRequested w = true) ->
  let e := Effect (Decide state w now window) in
  e = FinalizeFailed \/
  (e = Abort /\ (CancelRequested w = true /\ RolloutAbortActionedAt w = None \/
                 Decision_ w = GateRejected /\ GateActionedAt w = None)).
Proof.
  unfold past_deadline. intros Hd Hw. simpl. unfold Decide, verdict, failed. rewrite Hd.
  destruct (CancelRequested w); simpl.
  - destruct (RolloutAware w); simpl; [|by left]. destruct (RolloutAbortActionedAt w).
    + rewrite orb_true_r. by left.
    + destruct (hasKnownAbortTarget state w); [right; auto|by left].
  - destruct Hw as [Hw|]; [|done]. rewrite Hw, orb_true_r. simpl.
    destruct (Gated w && bool_decide (Decision_ w = GateRejected)) eqn:Hg; simpl.
    + apply andb_true_iff in Hg as [_ Hr%bool_decide_eq_true].
      destruct (gateActuatable w); simpl; [|by left].
      case_bool_decide; simpl; [|by left]. destruct (rolloutObservedAborted state); simpl; auto.
    + by destruct (RolloutAware w && rolloutObservedAborted state); left.
Qed.

(** The clock stops for the human: while an armed gate waits for a decision and
    nobody canceled, the deadline never fails the deploy. *)
Theorem Decide_suspended (state : DeployState) (w : WatchAnchors) (now now' : Time) (window : Duration) :
  awaitingHuman w = true -> CancelRequested w = false ->
  (DegradedSince w = None -> Decide state w now window = Decide state w now' window) /\
  Reason (Decide state w now window) <> ReasonDeadlineExceeded.
Proof.
  intros Ha Hc. assert (Hd : Decision_ w = GateUndecided).
  { unfold awaitingHuman in Ha. by apply andb_true_iff in Ha as [_ ?%bool_decide_eq_true]. }
  unfold Decide. rewrite Hc, Hd, Ha. simpl. rewrite !andb_false_r. split.
  - intros Hdeg. unfold converge. by rewrite Hdeg.
  - unfold converge, verdict, failed. repeat case_match; simpl; done.
Qed.

(** What a failed reading of the application can do to a plain deploy: it never
    succeeds, fails only on the deadline, and otherwise waits - except that a
    running degraded window is reset. *)
Theorem Decide_observe_error (e : string) (w : WatchAnchors) (now : Time) (window : Duration) :
  e <> "" -> CancelRequested w = false -> Gated w = false -> GateArmedAt w = None ->
  Decide (error_state e) w now window =
    if past_deadline w now then failed ReasonDeadlineExceeded
    else match DegradedSince w with Some _ => verdict ClearDegraded | None => verdict Continue end.
Proof.
  intros He Hc Hg Ha. unfold Decide, past_deadline, awaitingHuman. rewrite Hc, Hg, Ha. simpl.
  replace (rolloutObservedAborted (error_state e)) with false by done.
  rewrite andb_false_r. destruct (time_after now (DeadlineAt w)); [done|].
  unfold converge. simpl. rewrite !andb_false_r. by destruct (DegradedSince w).
Qed.

(** *** What the provider reports *)

Section Provider_properties.
Context (fetchApplication : DeploymentTarget -> result fetch_error Application).
Context (fetchRollout : option (string -> string -> string -> string -> result fetch_error RolloutManifest)).

(** A snapshot says what it knows: of a rollout-aware target either the rollout
    was read or there is a reason; a canary paused for a human is at a known step
    with an indefinite pause and is not fully promoted; and a rollout reported as
    promoted runs the new version as the stable one. *)
Theorem Observe_faithful (target : DeploymentTarget) (state : DeployState) :
  Observe fetchApplication fetchRollout target = Ok state ->
  (Target_RolloutAware target = true -> RolloutObserved state = negb (bool_decide (RolloutError state <> ""))) /\
  (Target_RolloutAware target = false -> RolloutObserved state = false /\ RolloutError state = "") /\
  (RolloutObserved state = true ->
     let r := Rollout state in
     exists fetch ns name m, fetchRollout = Some fetch /\
       fetch (Target_ProjectID target) (ResolvedCluster r) ns name = Ok m /\
       ResolvedNamespace r = ns /\ ResolvedName r = name /\
       (PausedIndefinitely r = true -> CurrentStepKnown r = true /\ (0 <= CurrentStepIndex r < StepCount r)%Z /\
          FullyPromoted r = false) /\
       (FullyPromoted r = true -> M_CurrentPodHash m = M_StableRS m /\ M_CurrentPodHash m <> "" /\
          Phase r = RolloutHealthy)).
Proof.
  unfold Observe. destruct (fetchApplication target) as [app|]; [|done]. intros [= <-].
  destruct (Target_RolloutAware target) eqn:Haware.
  2: { split_and!; try done. }
  destruct (observeRollout _ _ _) as [r|reason] eqn:Hobs; simpl.
  - split; [done|]. split; [done|]. intros _. unfold observeRollout in Hobs.
    destruct fetchRollout as [fetch|]; [|done]. destruct (resolve_rollout _ _) as [[ns name]|]; [|done].
    set (cluster := if decide _ then _ else _) in *.
    destruct (fetch _ cluster ns name) as [m|[]] eqn:Hf; simplify_eq. exists fetch, ns, name, m. simpl.
    split_and!; try done.
    + intros Hp. apply andb_true_iff in Hp as [Hp Hstep]. apply andb_true_iff in Hp as [_ Hk].
      unfold step_at in Hstep. destruct (Z.leb_spec 0 (default 0%Z (M_CurrentStepIndex m))); [|done].
      destruct (M_Steps m !! _) as [s|] eqn:Hl; [|done]. apply lookup_lt_Some in Hl.
      split_and!; [done|lia|lia|]. apply not_true_iff_false. intros Hpr.
      apply andb_true_iff in Hpr as [Hpr _]. apply andb_true_iff in Hpr as [Hpr _].
      apply andb_true_iff in Hpr as [Hpr _]. apply orb_true_iff in Hpr as [Hpr|Hpr].
      * apply bool_decide_eq_true in Hpr. lia.
      * apply andb_true_iff in Hpr as [_ Hpr]. lia.
    + intros Hpr. destruct_bools. repeat match goal with H : bool_decide _ = true |- _ =>
        apply bool_decide_eq_true in H end. split_and!; try done.
      match goal with H : M_Phase m = _ |- _ => by rewrite H end.
  - assert (Hr : reason <> "").
    { unfold observeRollout in Hobs. destruct fetchRollout; [|by simplify_eq].
      destruct (resolve_rollout _ _) as [[ns name]|e]; [|destruct e; by simplify_eq].
      destruct (r _ _ _ _) as [m|[]]; by simplify_eq. }
    split; [|done]. intros _. by rewrite bool_decide_true.
Qed.
End Provider_properties.

(** *** Concrete watches and readings *)

(** A gated canary deploy whose gate is armed at step 1 and undecided. *)
Definition demo_anchors : WatchAnchors := {|
  Anchor_SyncMode := SyncModeTrigger; ExpectedRevision := "abc"; SyncRequestedAt := Some 0%Z;
  DeadlineAt := 1000%Z; DegradedSince := None; RolloutAware := true; Gated := true;
  CancelRequested := false; GateArmedAt := Some 10%Z; Decision_ := GateUndecided;
  GateActionedAt := None; GatePausedStep := Some 1%Z; HasPinnedRolloutTarget := true;
  RolloutAbortActionedAt := None;
|}.
(** A deploy with neither a gate nor a rollout. *)
Definition demo_plain (degraded : option Time) : WatchAnchors := {|
  Anchor_SyncMode := SyncModeTrigger; ExpectedRevision := "abc"; SyncRequestedAt := Some 0%Z;
  DeadlineAt := 1000%Z; DegradedSince := degraded; RolloutAware := false; Gated := false;
  CancelRequested := false; GateArmedAt := None; Decision_ := GateUndecided;
  GateActionedAt := None; GatePausedStep := None; HasPinnedRolloutTarget := false;
  RolloutAbortActionedAt := None;
|}.
Definition demo_application : Application := {|
  App_SyncStatus := "Synced"; App_SyncRevision := "abc"; App_HealthStatus := "Healthy";
  App_OpPhase := "Succeeded"; App_OpStartedAt := "2024-05-01T10:00:00Z"; App_OpRevision := "abc";
  App_Resources := [ {| Res_Group := "argoproj.io"; Res_Kind := "Rollout"; Res_Namespace := "web";
                        Res_Name := "shop" |} ];
|}.
Definition demo_manifest : RolloutManifest := {|
  M_Steps := [None; Some ""]; M_Phase := "Paused"; M_Message := ""; M_CurrentStepIndex := Some 1%Z;
  M_Abort := false; M_StableRS := "old"; M_CurrentPodHash := "new";
  M_PauseReasons := ["CanaryPauseStep"]; M_StepAnalysis := None; M_BackgroundAnalysis := None;
|}.
Definition demo_target (aware : bool) : DeploymentTarget := {|
  Target_ProjectID := "p"; Target_Environment := "prod"; Target_Provider := "argocd";
  Target_Cluster := "c1"; Target_Application := "shop"; Target_Namespace := "argocd";
  Target_SyncMode := SyncModeTrigger; Target_RolloutAware := aware; Target_RolloutCluster := "";
  Target_RolloutNamespace := ""; Target_RolloutName := "";
|}.
Definition demo_state : DeployState := parseApplicationStatus demo_application.
Definition demo_app_fetch (t : DeploymentTarget) : result fetch_error Application := Ok demo_application.
Definition demo_fetch (p c ns n : string) : result fetch_error RolloutManifest :=
  if decide (c = "c1" /\ ns = "web" /\ n = "shop") then Ok demo_manifest else Err FetchFailed.

Lemma Decide_success_witness :
  Effect (Decide demo_state (demo_plain None) 500%Z 0%Z) = FinalizeSuccess /\
  Health demo_state = HealthHealthy.
Proof.
  split; [reflexivity|].
  by destruct (Decide_success demo_state (demo_plain None) 500%Z 0%Z eq_refl) as (_ & _ & _ & _ & _ & H & _).
Defined.
Lemma Decide_deadline_witness :
  past_deadline (demo_plain None) 2000%Z = true /\
  Effect (Decide demo_state (demo_plain None) 2000%Z 0%Z) = FinalizeFailed.
Proof.
  split; [reflexivity|].
  destruct (Decide_deadline demo_state (demo_plain None) 2000%Z 0%Z eq_refl (or_introl eq_refl)) as [H|[H _]];
    [exact H|discriminate H].
Defined.
Lemma Decide_suspended_witness :
  awaitingHuman demo_anchors = true /\
  Reason (Decide demo_state demo_anchors 5000%Z 0%Z) <> ReasonDeadlineExceeded.
Proof.
  split; [reflexivity|].
  exact (proj2 (Decide_suspended demo_state demo_anchors 5000%Z 0%Z 0%Z eq_refl eq_refl)).
Defined.
Lemma Decide_observe_error_witness :
  Decide (error_state "down") (demo_plain (Some 3%Z)) 500%Z 0%Z = verdict ClearDegraded.
Proof. exact (Decide_observe_error "down" (demo_plain (Some 3%Z)) 500%Z 0%Z ltac:(discriminate) eq_refl eq_refl eq_refl). Defined.
Lemma Observe_faithful_witness :
  exists state, Observe demo_app_fetch (Some demo_fetch) (demo_target true) = Ok state /\
    RolloutObserved state = true /\ PausedIndefinitely (Rollout state) = true /\
    FullyPromoted (Rollout state) = false.
Proof.
  eexists. split; [reflexivity|]. split; [reflexivity|]. split; [reflexivity|].
  destruct (Observe_faithful demo_app_fetch (Some demo_fetch) (demo_target true) _ eq_refl) as (_ & _ & H).
  destruct (H eq_refl) as (_ & _ & _ & _ & _ & _ & _ & _ & Hp & _).
  exact (proj2 (proj2 (Hp eq_refl))).
Defined.
