(* ===== verification/Approvals.v ===== *)
(** [server/internal/store]: who may decide an approval gate
    ([approver_authz.go]) and how a pipeline's approval gate is decided
    ([approvals.go], [approvals_freeze.go]).  A decision is three moments of one
    call - the external groups, the unlocked checks, the locked part - between
    which every other call of the server may run. *)

From S2P Require Import Prelude GoStrings Domain NeedsGraph GateGraph ParseHelpers.

(** ** Identities and allow-lists ([approver_authz.go]) *)

Notation uuid := N.
Definition Nil : uuid := 0%N.

Definition ProviderServiceAccount : string := "service_account".

Inductive gate_error :=
| ErrApproverNotHuman | ErrApproverGroupsUnavailable | ErrApproverNotAllowed
| ErrApprovalIDRequired | ErrApprovalGateNotFound | ErrApprovalNotPending | ErrApprovalSuperseded
| ErrEnvironmentFrozen (envs : list string) | ErrDecodeDefinition
| ErrGateStale | ErrAlreadyVoted | ErrBadDecision | ErrRevisionRequired | ErrUserRequired | ErrNoJobRun.
#[export] Instance gate_error_eq_dec : EqDecision gate_error. Proof. solve_decision. Defined.

Record ApproverIdentity := {
  Who_UserID : uuid;
  Who_Label : string;
  Who_Email : string;
  Who_Provider : string;
  Who_Subject : string;
}.

(** [ApproverGroupSource]: the groups a source outside gocdnext answers with,
    [None] being its error; the source itself may be absent. *)
Definition ApproverGroupSource : Type := option (ApproverIdentity -> option (list string)).

Definition intersects (have want : list string) : bool := existsb (fun h => bool_decide (h ∈ want)) have.

Definition approverListed (who : ApproverIdentity) (approvers : list string) : bool :=
  let ref := ApproverSubjectRef (Who_Provider who) (Who_Subject who) in
  existsb (fun a =>
    if HasPrefix a ApproverSubjectPrefix then bool_decide (ref <> "") && bool_decide (a = ref)
    else (bool_decide (Who_Label who <> "") && bool_decide (a = Who_Label who)) ||
         (bool_decide (Who_Email who <> "") && bool_decide (a = Who_Email who))) approvers.

(** The rows of [group_members] joined with [groups], by user. *)
Notation GroupTable := (gmap uuid (list string)).
Definition ListUserGroupNames (members : GroupTable) (user : uuid) : list string :=
  default [] (members !! user).

Definition authorizeApprover (members : GroupTable) (who : ApproverIdentity)
    (approvers groups external : list string) : result gate_error unit :=
  if decide (Who_Provider who = ProviderServiceAccount) then Err ErrApproverNotHuman
  else if decide (approvers = [] /\ groups = []) then Ok tt
  else if approverListed who approvers then Ok tt
  else if decide (groups = [] \/ Who_UserID who = Nil) then Err ErrApproverNotAllowed
  else if intersects (ListUserGroupNames members (Who_UserID who)) groups || intersects external groups
  then Ok tt else Err ErrApproverNotAllowed.

Definition resolveExternalApproverGroups (source : ApproverGroupSource) (members : GroupTable)
    (who : ApproverIdentity) (approvers groups : list string) : result gate_error (list string) :=
  match source with
  | None => Ok []
  | Some ApproverGroupNames =>
      if bool_decide (groups = []) || bool_decide (Who_UserID who = Nil) ||
         bool_decide (Who_Provider who = ProviderServiceAccount) || approverListed who approvers
      then Ok []
      else if intersects (ListUserGroupNames members (Who_UserID who)) groups then Ok []
      else match ApproverGroupNames who with
           | Some external => Ok external
           | None => Err ErrApproverGroupsUnavailable
           end
  end.

(** ** Votes *)

(** A row of [job_run_approvals], keyed by job run and user. *)
Record Vote := { Vote_Label : string; Vote_Decision : string; Vote_Comment : string }.
Notation VoteTable := (gmap (uuid * uuid) Vote).

(** [INSERT ... ON CONFLICT (job_run_id, user_id) DO NOTHING]. *)
Definition insert_vote (votes : VoteTable) (job user : uuid) (v : Vote) : VoteTable :=
  match votes !! (job, user) with Some _ => votes | None => <[(job, user) := v]> votes end.
Definition approved_votes (votes : VoteTable) (job : uuid) : VoteTable :=
  filter (fun kv => kv.1.1 = job /\ Vote_Decision kv.2 = "approved") votes.
(** [SELECT COUNT( * ) ... WHERE job_run_id = $1 AND decision = 'approved']. *)
Definition count_approved (votes : VoteTable) (job : uuid) : Z := Z.of_nat (size (approved_votes votes job)).
(** [DELETE FROM job_run_approvals WHERE job_run_id = $1]. *)
Definition delete_votes (votes : VoteTable) (job : uuid) : VoteTable := filter (fun kv => kv.1.1 <> job) votes.

(** ** The gates of the pipelines ([approvals.go]) *)

(** [runs.definition]: absent, not decodable, or the run's own snapshot. *)
Inductive run_definition := NoDefinition | BadDefinition | Definition_ (p : Pipeline).

(** A row of [job_runs], joined with its run. *)
Record GateRow := {
  approval_gate : bool;
  status : string;
  approvers : list string;
  approver_groups : list string;
  approval_required : Z;
  run_id : uuid;
  stage_name : string;
  stage_ordinal : Z;
  gate_name : string;
  superseded : bool;
  project_id : uuid;
  definition : run_definition;
  awaiting_since : Time;
  decision : option string;
  decided_by : string;
  cancel_origin : option string;
}.

(** A row with its mutable columns replaced; the configuration of a gate
    ([approvers], quorum, definition, ...) is written once, at creation. *)
Definition set_gate (row : GateRow) (st : string) (since : Time) (dec : option string) (by_ : string)
    (origin : option string) (sup : bool) : GateRow := {|
  approval_gate := approval_gate row; status := st; approvers := approvers row;
  approver_groups := approver_groups row; approval_required := approval_required row;
  run_id := run_id row; stage_name := stage_name row; stage_ordinal := stage_ordinal row;
  gate_name := gate_name row; superseded := sup; project_id := project_id row;
  definition := definition row; awaiting_since := since; decision := dec; decided_by := by_;
  cancel_origin := origin;
|}.

Record DB := {
  gates : gmap uuid GateRow;
  votes : VoteTable;
  members : GroupTable;
  freezes : gset (uuid * string);
}.
Definition with_gates (db : DB) (g : gmap uuid GateRow) : DB :=
  {| gates := g; votes := votes db; members := members db; freezes := freezes db |}.
Definition with_votes (db : DB) (v : VoteTable) : DB :=
  {| gates := gates db; votes := v; members := members db; freezes := freezes db |}.

Record ApprovalDecision := {
  JobRunID : uuid;
  UserID : uuid;
  User : string;
  UserEmail : string;
  Provider : string;
  Subject : string;
  Comment : string;
}.
Definition identity_of (d : ApprovalDecision) : ApproverIdentity := {|
  Who_UserID := UserID d; Who_Label := User d; Who_Email := UserEmail d; Who_Provider := Provider d;
  Who_Subject := Subject d;
|}.

Record ApprovalResult := {
  Res_RunID : uuid;
  PendingQuorum : bool;
  ApprovalsNow : Z;
  ApprovalsRequired : Z;
}.

(** First moment: the external groups, before the transaction. *)
Definition externalGroupsForJobGate (source : ApproverGroupSource) (db : DB) (job : uuid)
    (who : ApproverIdentity) : result gate_error (list string) :=
  match source with
  | None => Ok []
  | Some _ =>
      match gates db !! job with
      | Some row =>
          if approval_gate row && bool_decide (status row = "awaiting_approval")
          then resolveExternalApproverGroups source (members db) who (approvers row) (approver_groups row)
          else Ok []
      | None => Ok []
      end
  end.

(** [lockApprovalEnvs]: the environments the approval must find unfrozen.  Its
    advisory locks are held by the locked part, which is one step here. *)
Definition lockApprovalEnvs (row : GateRow) : result gate_error (list string) :=
  match definition row with
  | NoDefinition => Ok []
  | BadDefinition => Err ErrDecodeDefinition
  | Definition_ def => Ok (GovernedFreezeEnvs def (gate_name row))
  end.
Definition frozenGovernedEnvsTx (db : DB) (project : uuid) (envs : list string) : list string :=
  sort_strings (dedup (filter (fun e => (project, e) ∈ freezes db) envs)).

(** The row checks, made without the lock and again under it. *)
Definition pending_gate (db : DB) (job : uuid) : result gate_error GateRow :=
  match gates db !! job with
  | None => Err ErrApprovalGateNotFound
  | Some row =>
      if negb (approval_gate row) then Err ErrApprovalGateNotFound
      else if decide (status row = "awaiting_approval") then Ok row
      else if superseded row then Err ErrApprovalSuperseded
      else Err ErrApprovalNotPending
  end.

(** What the unlocked part hands to the locked one. *)
Record Pending := { required : Z; governedEnvs : list string }.

Definition approve_name (approve : bool) : string := if approve then "approved" else "rejected".

(** Second moment: the unlocked reads and the allow-list. *)
Definition decideGate_check (db : DB) (d : ApprovalDecision) (approve : bool) (external : list string)
    : result gate_error Pending :=
  row ← pending_gate db (JobRunID d);
  _ ← authorizeApprover (members db) (identity_of d) (approvers row) (approver_groups row) external;
  envs ← (if approve then lockApprovalEnvs row else Ok []);
  Ok {| required := Z.max 1 (approval_required row); governedEnvs := envs |}.

Definition decided (row : GateRow) (approve : bool) (by_ : string) : GateRow :=
  set_gate row (if approve then "success" else "failed") (awaiting_since row) (Some (approve_name approve)) by_
    (cancel_origin row) (superseded row).

(** Third moment: under the environment locks and the row lock, up to the flip.
    The stage cascade that follows in the same transaction is not part of it. *)
Definition decideGate_locked (db : DB) (d : ApprovalDecision) (approve : bool) (p : Pending)
    : result gate_error (DB * ApprovalResult) :=
  row ← pending_gate db (JobRunID d);
  let frozen := if approve then frozenGovernedEnvsTx db (project_id row) (governedEnvs p) else [] in
  _ ← check (bool_decide (frozen = [])) (ErrEnvironmentFrozen frozen);
  let vs := if decide (UserID d = Nil) then votes db
            else insert_vote (votes db) (JobRunID d) (UserID d)
                   {| Vote_Label := User d; Vote_Decision := approve_name approve; Vote_Comment := Comment d |} in
  let approvedCount := count_approved vs (JobRunID d) in
  if bool_decide (UserID d <> Nil) && approve && (approvedCount <? required p)%Z then
    Ok (with_votes db vs,
        {| Res_RunID := run_id row; PendingQuorum := true; ApprovalsNow := approvedCount;
           ApprovalsRequired := required p |})
  else
    Ok (with_gates (with_votes db vs) (<[JobRunID d := decided row approve (User d)]> (gates db)),
        {| Res_RunID := run_id row; PendingQuorum := false; ApprovalsNow := required p;
           ApprovalsRequired := required p |}).

(** The whole call, when nothing runs in between. *)
Definition decideGate (source : ApproverGroupSource) (db : DB) (d : ApprovalDecision) (approve : bool)
    : result gate_error (DB * ApprovalResult) :=
  if decide (JobRunID d = Nil) then Err ErrApprovalIDRequired
  else
    external ← externalGroupsForJobGate source db (JobRunID d) (identity_of d);
    p ← decideGate_check db d approve external;
    decideGate_locked db d approve p.
Definition ApproveGate source db d := decideGate source db d true.
Definition RejectGate source db d := decideGate source db d false.

(** ** The other writers of a gate row *)

(** [CreateRun] inserts a gate parked, with its effective quorum. *)
Definition fresh_gate (row : GateRow) : GateRow :=
  set_gate row "awaiting_approval" (awaiting_since row) None "" None (superseded row).

Definition update_gates (f : GateRow -> GateRow) (db : DB) : DB := with_gates db (f <$> gates db).

(** The row update of [CancelQueuedJobsInRun]: the failure of an earlier stage, an
    expiry or a cancel of the run takes its parked gates with it. *)
Definition cancel_queued (run : uuid) (origin : string) (row : GateRow) : GateRow :=
  if bool_decide (run_id row = run) && bool_decide (stage_name row <> "_notifications") &&
     bool_decide (status row = "queued" \/ status row = "awaiting_approval")
  then set_gate row "canceled" (awaiting_since row) (decision row) (decided_by row)
         (Some (default origin (cancel_origin row))) (superseded row)
  else row.
Definition CancelQueuedJobsInRun (run : uuid) (origin : string) (db : DB) : DB :=
  update_gates (cancel_queued run origin) db.

(** [runs.superseded_by] of one run is set, or cleared by a rerun. *)
Definition mark_superseded (run : uuid) (b : bool) (row : GateRow) : GateRow :=
  if decide (run_id row = run)
  then set_gate row (status row) (awaiting_since row) (decision row) (decided_by row) (cancel_origin row) b
  else row.

Definition MarkApprovalGateExpired (job run : uuid) (since : Time) (db : DB) : option DB :=
  match gates db !! job with
  | Some row =>
      if bool_decide (run_id row = run) && bool_decide (awaiting_since row = since) && approval_gate row &&
         bool_decide (status row = "awaiting_approval")
      then Some (with_gates db (<[job := set_gate row (status row) since (Some "expired") (decided_by row)
                                           (cancel_origin row) (superseded row)]> (gates db)))
      else None
  | None => None
  end.
(** The expiry of one gate, on the tables of this file. *)
Definition ExpireApprovalGate (job run : uuid) (since : Time) (envs : list string) (project : uuid) (db : DB)
    : result gate_error DB :=
  let frozen := frozenGovernedEnvsTx db project envs in
  _ ← check (bool_decide (frozen = [])) (ErrEnvironmentFrozen frozen);
  match MarkApprovalGateExpired job run since db with
  | Some db' => Ok (CancelQueuedJobsInRun run "approval_expiry" db')
  | None => Err ErrApprovalNotPending
  end.

(** The re-arm of [RerunJob]: the gates after the stage of the rerun job that the
    system canceled park again, without their decision and without their votes. *)
Definition rearms (run : uuid) (ordinal : Z) (row : GateRow) : bool :=
  bool_decide (run_id row = run) && bool_decide (status row = "canceled") &&
  bool_decide (cancel_origin row <> Some "user_job") && approval_gate row && (ordinal <? stage_ordinal row)%Z.
Definition rearm (run : uuid) (ordinal : Z) (now : Time) (row : GateRow) : GateRow :=
  if rearms run ordinal row then set_gate row "awaiting_approval" now None "" None (superseded row) else row.
Definition rearmed (db : DB) (run : uuid) (ordinal : Z) (job : uuid) : bool :=
  match gates db !! job with Some row => rearms run ordinal row | None => false end.
Definition RerunJob_gates (run : uuid) (ordinal : Z) (now : Time) (db : DB) : DB := {|
  gates := mark_superseded run false ∘ rearm run ordinal now <$> gates db;
  votes := filter (fun kv => rearmed db run ordinal kv.1.1 = false) (votes db);
  members := members db;
  freezes := freezes db;
|}.

(** ** The server as a transition system *)

(** Where a call stands: the external groups are known, or the unlocked checks passed. *)
Inductive moment := Resolved (external : list string) | Checked (p : Pending).
Record Call := { call_decision : ApprovalDecision; call_approve : bool; call_source : ApproverGroupSource; call_at : moment }.
(** An allow-list check that let a call go on: who asked for what, the group table it
    read, and what the outside source had answered. *)
Record Authorization := {
  az_job : uuid; az_who : ApproverIdentity; az_approve : bool;
  az_members : GroupTable; az_source : ApproverGroupSource; az_external : list string;
}.
Record World := { db : DB; calls : gmap nat Call; authorized : list Authorization }.
Definition with_db (w : World) (d : DB) : World := {| db := d; calls := calls w; authorized := authorized w |}.
Definition with_call (w : World) (k : nat) (c : Call) : World := {| db := db w; calls := <[k := c]> (calls w); authorized := authorized w |}.
Definition authorization (d : DB) (c : Call) (external : list string) : Authorization := {|
  az_job := JobRunID (call_decision c); az_who := identity_of (call_decision c); az_approve := call_approve c;
  az_members := members d; az_source := call_source c; az_external := external |}.

Inductive step : World -> World -> Prop :=
| step_begin w k source d approve external :
    calls w !! k = None -> externalGroupsForJobGate source (db w) (JobRunID d) (identity_of d) = Ok external ->
    step w (with_call w k {| call_decision := d; call_approve := approve; call_source := source; call_at := Resolved external |})
| step_check w k d approve source external p :
    let c := {| call_decision := d; call_approve := approve; call_source := source; call_at := Resolved external |} in
    calls w !! k = Some c -> decideGate_check (db w) d approve external = Ok p ->
    step w {| db := db w;
              calls := <[k := {| call_decision := d; call_approve := approve; call_source := source; call_at := Checked p |}]> (calls w);
              authorized := authorization (db w) c external :: authorized w |}
| step_locked w k d approve source p db' res :
    calls w !! k = Some {| call_decision := d; call_approve := approve; call_source := source; call_at := Checked p |} ->
    decideGate_locked (db w) d approve p = Ok (db', res) ->
    step w {| db := db'; calls := delete k (calls w); authorized := authorized w |}
| step_return w k : step w {| db := db w; calls := delete k (calls w); authorized := authorized w |}
| step_create w job row :
    gates (db w) !! job = None -> approval_gate row = true ->
    step w (with_db w (with_gates (db w) (<[job := fresh_gate row]> (gates (db w)))))
| step_cancel w run origin : step w (with_db w (CancelQueuedJobsInRun run origin (db w)))
| step_supersede w run :
    step w (with_db w (CancelQueuedJobsInRun run "supersede" (update_gates (mark_superseded run true) (db w))))
| step_expire w job run since envs project db' :
    ExpireApprovalGate job run since envs project (db w) = Ok db' -> step w (with_db w db')
| step_rerun w run ordinal now : step w (with_db w (RerunJob_gates run ordinal now (db w)))
| step_people w members' freezes' :
    step w (with_db w {| gates := gates (db w); votes := votes (db w); members := members'; freezes := freezes' |}).

Definition initial (w : World) : Prop := gates (db w) = ∅ /\ votes (db w) = ∅ /\ calls w = ∅ /\ authorized w = [].
Definition reachable (w : World) : Prop := exists w0, initial w0 /\ rtc step w0 w.

(** ** Who may decide *)

Lemma intersects_true have want : intersects have want = true <-> exists g, g ∈ have /\ g ∈ want.
Proof.
  unfold intersects. rewrite existsb_exists. split; intros (g & Hg & Hw); exists g.
  - by apply bool_decide_eq_true in Hw; rewrite <- list_elem_of_In in Hg.
  - rewrite <- list_elem_of_In. by rewrite bool_decide_true.
Qed.

(** An entry names an identity: a subject entry by provider and subject alone, any
    other entry by label or email alone. *)
Definition names (who : ApproverIdentity) (a : string) : Prop :=
  if HasPrefix a ApproverSubjectPrefix
  then Who_Provider who <> "" /\ Who_Subject who <> "" /\
       a = ApproverSubjectPrefix +:+ Who_Provider who +:+ ":" +:+ Who_Subject who
  else a <> "" /\ (a = Who_Label who \/ a = Who_Email who).

Lemma approverListed_true who l : approverListed who l = true <-> exists a, a ∈ l /\ names who a.
Proof.
  unfold approverListed. rewrite existsb_exists. split; intros (a & Hin & Ha); exists a;
    rewrite <- list_elem_of_In in *; (split; [done|]); unfold names in *;
    destruct (HasPrefix a ApproverSubjectPrefix) eqn:Hp.
  - destruct_bools. repeat match goal with H : bool_decide _ = true |- _ => apply bool_decide_eq_true in H end.
    unfold ApproverSubjectRef in *. case_decide as Hd; [done|]. naive_solver.
  - apply orb_true_iff in Ha as [Ha|Ha]; apply andb_true_iff in Ha as [H1%bool_decide_eq_true H2%bool_decide_eq_true];
      subst; auto.
  - destruct Ha as (H1 & H2 & ->). unfold ApproverSubjectRef.
    rewrite decide_False by (intros [|]; done). by rewrite !bool_decide_true by done.
  - apply orb_true_iff. destruct Ha as [Hne [-> | ->]]; [left|right]; by rewrite !bool_decide_true.
Qed.

(** Who may decide a gate, exactly: never a service account; anyone else when the
    gate lists nobody; otherwise who is named by an entry - a [sub:] entry only by
    the provider's own subject, so no display name can claim it - or, for a known
    user, who is in a listed group, by the local table or the external answer. *)
Theorem authorizeApprover_exact members who approvers groups external :
  authorizeApprover members who approvers groups external = Ok tt <->
  Who_Provider who <> ProviderServiceAccount /\
  ((approvers = [] /\ groups = []) \/ (exists a, a ∈ approvers /\ names who a) \/
   (Who_UserID who <> Nil /\
    exists g, g ∈ groups /\ (g ∈ ListUserGroupNames members (Who_UserID who) \/ g ∈ external))).
Proof.
  rewrite <- approverListed_true. unfold authorizeApprover.
  case_decide as Hsa; [naive_solver|]. case_decide as Hopen; [naive_solver|].
  destruct (approverListed who approvers); [naive_solver|].
  case_decide as Hg.
  { split; [done|]. intros (_ & [?|[?|(Hn & g & Hgin & _)]]); [done|done|]. destruct Hg as [->|?]; [|done].
    by apply not_elem_of_nil in Hgin. }
  apply Decidable.not_or in Hg as [_ Hn].
  destruct (_ || _) eqn:He.
  - apply orb_true_iff in He. rewrite !intersects_true in He. split; [|done]. intros _. split; [done|].
    right. right. naive_solver.
  - apply orb_false_iff in He as [Hl Hx]. split; [done|]. intros (_ & [?|[?|(_ & g & Hgin & [Hm|Hm])]]);
      [done|done|exfalso..].
    + apply not_true_iff_false in Hl. apply Hl, intersects_true. eauto.
    + apply not_true_iff_false in Hx. apply Hx, intersects_true. eauto.
Qed.

(** What the allow-list of a gate asks of an authorisation: no service account; and the
    gate lists nobody, an entry names the caller, or the caller is a known user in a
    listed group, by the group table of that moment or by the outside source's answer. *)
Definition entitled (row : GateRow) (a : Authorization) : Prop :=
  Who_Provider (az_who a) <> ProviderServiceAccount /\
  ((approvers row = [] /\ approver_groups row = []) \/ (exists e, e ∈ approvers row /\ names (az_who a) e) \/
   (Who_UserID (az_who a) <> Nil /\
    exists g, g ∈ approver_groups row /\ (g ∈ ListUserGroupNames (az_members a) (Who_UserID (az_who a)) \/ g ∈ az_external a))) /\
  (az_external a = [] \/ exists ApproverGroupNames, az_source a = Some ApproverGroupNames /\ ApproverGroupNames (az_who a) = Some (az_external a)).

Lemma external_answer source d job who external : externalGroupsForJobGate source d job who = Ok external ->
  external = [] \/ exists f, source = Some f /\ f who = Some external.
Proof.
  unfold externalGroupsForJobGate, resolveExternalApproverGroups. destruct source as [f|]; [|intros [= <-]; by left].
  destruct (gates d !! job) as [row|]; [|intros [= <-]; by left]. destruct (_ && _); [|intros [= <-]; by left].
  destruct (_ || _); [intros [= <-]; by left|]. destruct (intersects _ _); [intros [= <-]; by left|].
  destruct (f who) as [l|] eqn:Hf; [|done]. intros [= <-]. right. eauto.
Qed.

(** ** Counting votes *)

Lemma approved_votes_lookup vs j j' u v :
  approved_votes vs j !! (j', u) = Some v <-> vs !! (j', u) = Some v /\ j' = j /\ Vote_Decision v = "approved".
Proof. unfold approved_votes. by rewrite map_lookup_filter_Some. Qed.

Lemma approved_votes_mono vs vs' j :
  (forall u v, vs !! (j, u) = Some v -> vs' !! (j, u) = Some v) -> (count_approved vs j <= count_approved vs' j)%Z.
Proof.
  intros H. apply Nat2Z.inj_le, map_subseteq_size, map_subseteq_spec. intros [j' u] v.
  rewrite !approved_votes_lookup. intros (Hl & -> & Hd). eauto.
Qed.

Lemma count_approved_ext vs vs' j :
  (forall u, vs !! (j, u) = vs' !! (j, u)) -> count_approved vs j = count_approved vs' j.
Proof. intros H. apply Z.le_antisymm; apply approved_votes_mono; intros u v; by rewrite H. Qed.

Lemma count_approved_none vs j : (forall u, vs !! (j, u) = None) -> count_approved vs j = 0%Z.
Proof.
  intros H. unfold count_approved. replace (approved_votes vs j) with (∅ : VoteTable); [by rewrite map_size_empty|].
  symmetry. apply map_empty. intros [j' u]. apply eq_None_not_Some. intros [v Hv].
  apply approved_votes_lookup in Hv as (Hv & -> & _). by rewrite H in Hv.
Qed.

Lemma insert_vote_other vs j u v j' u' : j' <> j -> insert_vote vs j u v !! (j', u') = vs !! (j', u').
Proof. intros Hn. unfold insert_vote. destruct (vs !! (j, u)); [done|]. apply lookup_insert_ne. congruence. Qed.
Lemma insert_vote_keeps vs j u v j' u' v' :
  vs !! (j', u') = Some v' -> insert_vote vs j u v !! (j', u') = Some v'.
Proof.
  intros H. unfold insert_vote. destruct (vs !! (j, u)) eqn:Hl; [done|]. rewrite lookup_insert_ne; [done|congruence].
Qed.
Lemma insert_vote_inv vs j u v j' u' v' :
  insert_vote vs j u v !! (j', u') = Some v' -> vs !! (j', u') = Some v' \/ (j' = j /\ u' = u).
Proof.
  unfold insert_vote. destruct (vs !! (j, u)); [auto|]. rewrite lookup_insert_Some. naive_solver.
Qed.

(** The users behind the count. *)
Definition voters (vs : VoteTable) (job : uuid) : list uuid := (map_to_list (approved_votes vs job)).*1.*2.
Lemma voters_NoDup vs job : NoDup (voters vs job).
Proof.
  unfold voters. apply NoDup_fmap_2_strong; [|apply NoDup_fst_map_to_list].
  intros [j u] [j' u'] Hx Hy Heq. simpl in Heq. subst.
  apply list_elem_of_fmap in Hx as ([[] ?] & ? & Hx). apply list_elem_of_fmap in Hy as ([[] ?] & ? & Hy).
  simplify_eq/=. apply elem_of_map_to_list, approved_votes_lookup in Hx, Hy. naive_solver.
Qed.
Lemma voters_length vs job : Z.of_nat (length (voters vs job)) = count_approved vs job.
Proof. unfold voters, count_approved. by rewrite !length_fmap, length_map_to_list. Qed.
Lemma voters_spec vs job u :
  u ∈ voters vs job -> exists v, vs !! (job, u) = Some v /\ Vote_Decision v = "approved".
Proof.
  unfold voters. intros (k & -> & (kv & -> & Hkv)%list_elem_of_fmap)%list_elem_of_fmap.
  destruct kv as [[j' u'] v]. apply elem_of_map_to_list, approved_votes_lookup in Hkv as (Hl & -> & Hd). eauto.
Qed.

(** ** The invariant of the gate table *)

(** The columns written once. *)
Definition same_config (row row' : GateRow) : Prop :=
  approval_gate row' = approval_gate row /\ approvers row' = approvers row /\
  approver_groups row' = approver_groups row /\ approval_required row' = approval_required row /\
  gate_name row' = gate_name row /\ project_id row' = project_id row /\ definition row' = definition row.
Lemma same_config_refl row : same_config row row.
Proof. by unfold same_config. Qed.
Lemma same_config_set row st since dec by_ origin sup : same_config row (set_gate row st since dec by_ origin sup).
Proof. by unfold same_config. Qed.
Lemma entitled_config row row' a : same_config row row' -> entitled row a -> entitled row' a.
Proof. unfold same_config, entitled. intros (_ & -> & -> & _). done. Qed.

Definition quorum (row : GateRow) : Z := Z.max 1 (approval_required row).
(** An authorisation of this gate on record. *)
Definition on_record (l : list Authorization) (job : uuid) (row : GateRow) (approve : bool) (a : Authorization) : Prop :=
  a ∈ l /\ az_job a = job /\ az_approve a = approve /\ entitled row a.
Definition decided_row (l : list Authorization) (job : uuid) (approve : bool) (row : GateRow) : Prop :=
  exists a, on_record l job row approve a /\ Who_Label (az_who a) = decided_by row.
(** Without a user id nobody votes: the call decides at once. *)
Definition anonymous_row (l : list Authorization) (job : uuid) (row : GateRow) : Prop :=
  exists a, on_record l job row true a /\ Who_UserID (az_who a) = Nil /\ Who_Label (az_who a) = decided_by row.

Record gate_ok (l : list Authorization) (vs : VoteTable) (job : uuid) (row : GateRow) : Prop := {
  ok_gate : approval_gate row = true;
  ok_pending : status row = "awaiting_approval" -> (count_approved vs job < quorum row)%Z;
  ok_success : status row = "success" -> (quorum row <= count_approved vs job)%Z \/ anonymous_row l job row;
  ok_decided : forall approve : bool, status row = (if approve then "success" else "failed") -> decided_row l job approve row;
}.

Definition vote_ok (l : list Authorization) (g : gmap uuid GateRow) (job user : uuid) (v : Vote) : Prop :=
  exists row a approve, g !! job = Some row /\ on_record l job row approve a /\ Who_UserID (az_who a) = user /\ user <> Nil /\
    Vote_Decision v = approve_name approve.

Definition call_ok (l : list Authorization) (g : gmap uuid GateRow) (c : Call) : Prop :=
  match call_at c with
  | Resolved external => external = [] \/ exists f, call_source c = Some f /\ f (identity_of (call_decision c)) = Some external
  | Checked p =>
      exists row a, g !! JobRunID (call_decision c) = Some row /\ on_record l (JobRunID (call_decision c)) row (call_approve c) a /\
        az_who a = identity_of (call_decision c) /\ required p = quorum row /\
        (call_approve c = true -> lockApprovalEnvs row = Ok (governedEnvs p))
  end.

Record invariant (w : World) : Prop := {
  inv_gates : forall job row, gates (db w) !! job = Some row -> gate_ok (authorized w) (votes (db w)) job row;
  inv_votes : forall job user v, votes (db w) !! (job, user) = Some v -> vote_ok (authorized w) (gates (db w)) job user v;
  inv_calls : forall k c, calls w !! k = Some c -> call_ok (authorized w) (gates (db w)) c;
}.

(** No step deletes a gate or changes its configuration. *)
Definition config_kept (g g' : gmap uuid GateRow) : Prop :=
  forall job row, g !! job = Some row -> exists row', g' !! job = Some row' /\ same_config row row'.

Lemma on_record_kept l l' job row row' approve a : l ⊆ l' -> same_config row row' -> on_record l job row approve a -> on_record l' job row' approve a.
Proof. intros Hl Hc (Hin & Hj & Hap & He). split_and!; [by apply Hl|done|done|by eapply entitled_config]. Qed.
Lemma vote_ok_kept l l' g g' job user v : l ⊆ l' -> config_kept g g' -> vote_ok l g job user v -> vote_ok l' g' job user v.
Proof.
  intros Hl Hk (row & a & approve & Hg & Ha & Hu & Hn & Hv). destruct (Hk _ _ Hg) as (row' & Hg' & Hc).
  exists row', a, approve. split; [done|]. split; [by eapply on_record_kept|done].
Qed.
Lemma call_ok_kept l l' g g' c : l ⊆ l' -> config_kept g g' -> call_ok l g c -> call_ok l' g' c.
Proof.
  unfold call_ok. intros Hl Hk Hc. destruct (call_at c) as [|p]; [done|].
  destruct Hc as (row & a & Hg & Ha & Hw & Hr & Hlk). destruct (Hk _ _ Hg) as (row' & Hg' & Hsc). exists row', a.
  split; [done|]. split; [by eapply on_record_kept|]. destruct Hsc as (_ & _ & _ & Hq & Hgn & _ & Hd).
  unfold quorum, lockApprovalEnvs in *. by rewrite Hq, Hd, Hgn.
Qed.
Lemma config_kept_insert g job row row' :
  g !! job = Some row -> same_config row row' -> config_kept g (<[job := row']> g).
Proof.
  intros Hg Hc j r Hr. destruct (decide (j = job)) as [->|].
  - rewrite lookup_insert_eq. simplify_eq. eauto.
  - rewrite lookup_insert_ne by done. eauto using same_config_refl.
Qed.
Lemma config_kept_fmap f g : (forall row, same_config row (f row)) -> config_kept g (f <$> g).
Proof. intros Hf job row Hg. rewrite lookup_fmap, Hg. eauto. Qed.
Lemma config_kept_new g job row : g !! job = None -> config_kept g (<[job := row]> g).
Proof.
  intros Hg j r Hr. rewrite lookup_insert_ne by congruence. eauto using same_config_refl.
Qed.

(** What a step has to show. *)
Lemma invariant_tables w w' :
  invariant w -> authorized w ⊆ authorized w' -> config_kept (gates (db w)) (gates (db w')) ->
  (forall job row, gates (db w') !! job = Some row -> gate_ok (authorized w') (votes (db w')) job row) ->
  (forall job user v, votes (db w') !! (job, user) = Some v ->
     votes (db w) !! (job, user) = Some v \/ vote_ok (authorized w') (gates (db w)) job user v) ->
  (forall k c, calls w' !! k = Some c -> calls w !! k = Some c \/ call_ok (authorized w') (gates (db w)) c) ->
  invariant w'.
Proof.
  intros [Hg Hv Hc] Hl Hk Hg' Hv' Hc'. split; [done| |].
  - intros job user v Hu. destruct (Hv' _ _ _ Hu) as [H0|H0]; [exact (vote_ok_kept _ _ _ _ _ _ _ Hl Hk (Hv _ _ _ H0))|].
    exact (vote_ok_kept _ _ _ _ _ _ _ (reflexivity _) Hk H0).
  - intros k c Hu. destruct (Hc' _ _ Hu) as [H0|H0]; [exact (call_ok_kept _ _ _ _ _ Hl Hk (Hc _ _ H0))|].
    exact (call_ok_kept _ _ _ _ _ (reflexivity _) Hk H0).
Qed.

(** A row whose status stays, or becomes one that promises nothing. *)
Lemma gate_ok_set l vs job row st since dec by_ origin sup :
  gate_ok l vs job row -> st <> "awaiting_approval" -> st <> "success" -> st <> "failed" ->
  gate_ok l vs job (set_gate row st since dec by_ origin sup).
Proof. intros [] ???. split; simpl; [done|done|done|]. by intros []. Qed.
Lemma gate_ok_keep l vs job row since dec origin sup :
  gate_ok l vs job row -> gate_ok l vs job (set_gate row (status row) since dec (decided_by row) origin sup).
Proof. intros []. by split. Qed.
Lemma gate_ok_ext l vs vs' job row : count_approved vs' job = count_approved vs job -> gate_ok l vs job row -> gate_ok l vs' job row.
Proof. intros Heq []. split; try rewrite Heq; done. Qed.
Lemma gate_ok_more l l' vs job row : l ⊆ l' -> gate_ok l vs job row -> gate_ok l' vs job row.
Proof.
  intros Hl [H1 H2 H3 H4]. assert (forall ap a, on_record l job row ap a -> on_record l' job row ap a) as Ho
    by (intros; eapply on_record_kept; [done|apply same_config_refl|done]).
  split; [done|done| |].
  - intros Hs. destruct (H3 Hs) as [|(a & Ha & Hr)]; [by left|right]. exists a. eauto.
  - intros ap Hs. destruct (H4 ap Hs) as (a & Ha & Hr). exists a. eauto.
Qed.

Lemma cancel_queued_ok l vs job run origin row : gate_ok l vs job row -> gate_ok l vs job (cancel_queued run origin row).
Proof. intros H. unfold cancel_queued. destruct (_ && _); [by apply gate_ok_set|done]. Qed.
Lemma cancel_queued_config run origin row : same_config row (cancel_queued run origin row).
Proof. unfold cancel_queued. destruct (_ && _); [apply same_config_set|apply same_config_refl]. Qed.
Lemma mark_superseded_ok l vs job run b row : gate_ok l vs job row -> gate_ok l vs job (mark_superseded run b row).
Proof. intros H. unfold mark_superseded. case_decide; [by apply gate_ok_keep|done]. Qed.
Lemma mark_superseded_config run b row : same_config row (mark_superseded run b row).
Proof. unfold mark_superseded. case_decide; [apply same_config_set|apply same_config_refl]. Qed.
Lemma rearm_config run o now row : same_config row (rearm run o now row).
Proof. unfold rearm. destruct (rearms _ _ _); [apply same_config_set|apply same_config_refl]. Qed.

Lemma invariant_update f w :
  (forall l vs job row, gate_ok l vs job row -> gate_ok l vs job (f row)) -> (forall row, same_config row (f row)) ->
  invariant w -> invariant (with_db w (update_gates f (db w))).
Proof.
  intros Hf Hc Hw. apply (invariant_tables w); [done|done| |simpl; intros job row..|simpl; eauto].
  - by apply config_kept_fmap.
  - rewrite lookup_fmap_Some. intros (r & <- & Hr). by apply Hf, (inv_gates w).
  - simpl. eauto.
Qed.

Lemma pending_gate_Ok db job row :
  pending_gate db job = Ok row <->
  gates db !! job = Some row /\ approval_gate row = true /\ status row = "awaiting_approval".
Proof.
  unfold pending_gate. split.
  - destruct (gates db !! job) as [r|]; [|done]. destruct (approval_gate r) eqn:Hg; [|done]. simpl.
    case_decide; [by intros [= ->]|by destruct (superseded r)].
  - intros (-> & -> & ->). done.
Qed.

(** *** The steps of a call *)

Definition the_vote (d : ApprovalDecision) (approve : bool) : Vote :=
  {| Vote_Label := User d; Vote_Decision := approve_name approve; Vote_Comment := Comment d |}.

(** The votes after the call, and the outcomes of the locked part. *)
Definition voted (vs : VoteTable) (d : ApprovalDecision) (approve : bool) : VoteTable :=
  if decide (UserID d = Nil) then vs else insert_vote vs (JobRunID d) (UserID d) (the_vote d approve).
Lemma decideGate_locked_Ok db d approve p db' res :
  decideGate_locked db d approve p = Ok (db', res) ->
  exists row, gates db !! JobRunID d = Some row /\ approval_gate row = true /\ status row = "awaiting_approval" /\
    (approve = true -> frozenGovernedEnvsTx db (project_id row) (governedEnvs p) = []) /\
    let vs := voted (votes db) d approve in
    ((UserID d <> Nil /\ approve = true /\ (count_approved vs (JobRunID d) < required p)%Z /\ db' = with_votes db vs /\
      PendingQuorum res = true) \/
     ((UserID d <> Nil -> approve = true -> (required p <= count_approved vs (JobRunID d))%Z) /\
      db' = with_gates (with_votes db vs) (<[JobRunID d := decided row approve (User d)]> (gates db)) /\
      PendingQuorum res = false)).
Proof.
  unfold decideGate_locked. rewrite bind_Ok. intros (row & Hrow & H).
  apply pending_gate_Ok in Hrow as (Hg & Hgate & Hst). apply bind_Ok in H as ([] & Hfz & H).
  apply check_Ok, bool_decide_eq_true in Hfz. exists row. split_and!; [done..| |].
  - intros ->. exact Hfz.
  - cbv zeta. change (if decide (UserID d = Nil) then votes db else _) with (voted (votes db) d approve) in H.
    set (vs := voted (votes db) d approve) in *. destruct (decide (UserID d = Nil)) as [Hu|Hu].
    + rewrite (bool_decide_eq_false_2 (UserID d <> Nil)) in H by (by intros Hn). simpl in H. simplify_eq. right. split_and!; [by intros|done|done].
    + rewrite (bool_decide_eq_true_2 (UserID d <> Nil)) in H by done. destruct approve; simpl in H.
      * destruct (Z.ltb_spec (count_approved vs (JobRunID d)) (required p)); simplify_eq; [by left|right; split_and!; [by intros|done|done]].
      * simplify_eq. right. by split_and!.
Qed.

Lemma insert_vote_count_other vs j u v job :
  job <> j -> count_approved (insert_vote vs j u v) job = count_approved vs job.
Proof. intros Hn. apply count_approved_ext. intros u'. by apply insert_vote_other. Qed.

Lemma voted_inv vs d approve job user v : voted vs d approve !! (job, user) = Some v ->
  vs !! (job, user) = Some v \/ (UserID d <> Nil /\ job = JobRunID d /\ user = UserID d /\ v = the_vote d approve).
Proof.
  unfold voted. case_decide as Hu; [by left|]. unfold insert_vote. destruct (vs !! (JobRunID d, UserID d)); [by left|].
  intros [[[= <- <-] <-]|[_ H]]%lookup_insert_Some; [right; done|by left].
Qed.
Lemma voted_count_other vs d approve job : job <> JobRunID d -> count_approved (voted vs d approve) job = count_approved vs job.
Proof. unfold voted. case_decide; [done|]. apply insert_vote_count_other. Qed.

Lemma invariant_locked w k d approve source p db' res :
  invariant w -> calls w !! k = Some {| call_decision := d; call_approve := approve; call_source := source; call_at := Checked p |} ->
  decideGate_locked (db w) d approve p = Ok (db', res) ->
  invariant {| db := db'; calls := delete k (calls w); authorized := authorized w |}.
Proof.
  intros Hw Hk H. destruct (inv_calls w Hw _ _ Hk) as (row0 & a & Hg0 & Ha & Hwho & Hreq & _). simpl in *.
  destruct (decideGate_locked_Ok _ _ _ _ _ _ H) as (row & Hg & Hgate & Hst & _ & Hcase). simpl in Hcase.
  rewrite Hg0 in Hg. simplify_eq. set (vs := voted _ _ _) in *.
  assert (Hvotes : forall job user v, vs !! (job, user) = Some v ->
      votes (db w) !! (job, user) = Some v \/ vote_ok (authorized w) (gates (db w)) job user v).
  { intros job user v [Hv|(Hn & -> & -> & ->)]%voted_inv; [by left|right]. exists row, a, approve. by rewrite Hwho. }
  assert (Hcalls : forall k' c, delete k (calls w) !! k' = Some c -> calls w !! k' = Some c \/ call_ok (authorized w) (gates (db w)) c).
  { intros k' c [_ ?]%lookup_delete_Some. by left. }
  assert (Hother : forall job r, job <> JobRunID d -> gates (db w) !! job = Some r -> gate_ok (authorized w) vs job r).
  { intros job r Hn Hr. eapply gate_ok_ext; [by apply voted_count_other|by apply (inv_gates w)]. }
  destruct Hcase as [(_ & -> & Hlt & -> & _)|(Hge & -> & _)]; (apply (invariant_tables w); simpl; [done|done| | |done|done]).
  - intros job r Hr. eauto using same_config_refl.
  - intros job r Hr. destruct (decide (job = JobRunID d)) as [->|]; [|by apply Hother].
    rewrite Hg0 in Hr. injection Hr as <-. destruct (inv_gates w Hw _ _ Hg0).
    split; try done; [intros; lia|]. by rewrite Hst.
  - by eapply config_kept_insert, same_config_set.
  - intros job r Hr. destruct (decide (job = JobRunID d)) as [->|Hn]; [|rewrite lookup_insert_ne in Hr by done; by apply Hother].
    rewrite lookup_insert_eq in Hr. simplify_eq.
    assert (on_record (authorized w) (JobRunID d) (decided row approve (User d)) approve a) as Ha'
      by (eapply on_record_kept; [done|apply same_config_set|done]).
    split; simpl; [done|by destruct approve| |].
    + intros Hs. destruct approve; [|done]. destruct (decide (UserID d = Nil)) as [Hu|Hu].
      * right. exists a. by rewrite Hwho.
      * left. specialize (Hge Hu eq_refl). unfold quorum in *. simpl in *. lia.
    + intros ap Hs. assert (ap = approve) as -> by (by destruct ap, approve). exists a. by rewrite Hwho.
Qed.

Lemma MarkApprovalGateExpired_ok w job run since db' :
  invariant w -> MarkApprovalGateExpired job run since (db w) = Some db' -> invariant (with_db w db').
Proof.
  intros Hw H. unfold MarkApprovalGateExpired in H. destruct (gates (db w) !! job) as [row|] eqn:Hg; [|done].
  destruct (_ && _); [|done]. simplify_eq. apply (invariant_tables w); simpl; [done|done| | |eauto|eauto].
  - by eapply config_kept_insert, same_config_set.
  - intros j r Hr. destruct (decide (j = job)) as [->|Hn].
    + rewrite lookup_insert_eq in Hr. simplify_eq. by apply gate_ok_keep, (inv_gates w).
    + rewrite lookup_insert_ne in Hr by done. by apply (inv_gates w).
Qed.

Lemma invariant_rerun w run ordinal now :
  invariant w -> invariant (with_db w (RerunJob_gates run ordinal now (db w))).
Proof.
  intros Hw. apply (invariant_tables w); simpl; [done|done| | |..].
  - apply config_kept_fmap. intros row. simpl. unfold same_config.
    destruct (mark_superseded_config run false (rearm run ordinal now row)) as (-> & -> & -> & -> & -> & -> & ->).
    apply rearm_config.
  - intros job row' Hr. apply lookup_fmap_Some in Hr as (row & <- & Hr). simpl. apply mark_superseded_ok.
    pose proof (inv_gates w Hw _ _ Hr) as Hok. unfold rearm. destruct (rearms run ordinal row) eqn:Hre.
    + destruct Hok. split; simpl; [done| |done|by intros []]. intros _.
      rewrite count_approved_none; [unfold quorum; simpl; lia|]. intros u. apply map_lookup_filter_None. right.
      intros v _. simpl. unfold rearmed. by rewrite Hr, Hre.
    + eapply gate_ok_ext; [|done]. apply count_approved_ext. intros u.
      destruct (votes (db w) !! (job, u)) as [v|] eqn:Hv; [|by apply map_lookup_filter_None; left].
      apply map_lookup_filter_Some. split; [done|]. simpl. unfold rearmed. by rewrite Hr.
  - intros job user v (Hv & _)%map_lookup_filter_Some. eauto.
  - eauto.
Qed.

Lemma invariant_check w k d approve source external p (c := {| call_decision := d; call_approve := approve; call_source := source; call_at := Resolved external |}) :
  invariant w -> calls w !! k = Some c -> decideGate_check (db w) d approve external = Ok p ->
  invariant {| db := db w;
               calls := <[k := {| call_decision := d; call_approve := approve; call_source := source; call_at := Checked p |}]> (calls w);
               authorized := authorization (db w) c external :: authorized w |}.
Proof.
  intros Hw Hk H. pose proof (inv_calls w Hw _ _ Hk) as Hx. simpl in Hx.
  unfold decideGate_check in H. apply bind_Ok in H as (row & (Hg & _)%pending_gate_Ok & H).
  apply bind_Ok in H as ([] & Ha & H). apply bind_Ok in H as (envs & He & [= <-]).
  apply (invariant_tables w); simpl; [done|set_solver|by intros ??; eauto using same_config_refl| |auto|].
  - intros job r Hr. eapply gate_ok_more; [|by apply (inv_gates w)]. set_solver.
  - intros k' c'. rewrite lookup_insert_Some. intros [[<- <-]|[_ ?]]; [right|by left].
    exists row, (authorization (db w) c external). split; [done|]. split; [|split_and!; [done|done|simpl; by intros ->]].
    split_and!; [by left|done|done|]. apply authorizeApprover_exact in Ha as [H1 H2]. by split_and!.
Qed.

Lemma step_invariant w w' : step w w' -> invariant w -> invariant w'.
Proof.
  intros [] Hw.
  - apply (invariant_tables w0); simpl; [done|done|by intros ??; eauto using same_config_refl|apply (inv_gates w0), Hw|auto|].
    intros k' c. rewrite lookup_insert_Some. intros [[<- <-]|[_ ?]]; [right|by left]. by eapply external_answer.
  - by eapply invariant_check.
  - by eapply invariant_locked.
  - apply (invariant_tables w0); simpl; [done|done|by intros ??; eauto using same_config_refl|apply (inv_gates w0), Hw|auto|].
    intros k' c [_ ?]%lookup_delete_Some. by left.
  - apply (invariant_tables w0); simpl; [done|done|by apply config_kept_new| |auto|auto]. intros j r Hr.
    destruct (decide (j = job)) as [->|Hn].
    + rewrite lookup_insert_eq in Hr. simplify_eq. split; simpl; [done| |done|by intros []]. intros _.
      rewrite count_approved_none; [unfold quorum; simpl; lia|]. intros u. apply eq_None_not_Some. intros [v Hv].
      destruct (inv_votes w0 Hw _ _ _ Hv) as (r & ? & ? & Hr & _). congruence.
    + rewrite lookup_insert_ne in Hr by done. by apply (inv_gates w0).
  - apply invariant_update; eauto using cancel_queued_ok, cancel_queued_config.
  - apply (invariant_update (cancel_queued run "supersede") (with_db w0 (update_gates (mark_superseded run true) (db w0))));
      eauto using cancel_queued_ok, cancel_queued_config.
    apply invariant_update; eauto using mark_superseded_ok, mark_superseded_config.
  - unfold ExpireApprovalGate in H. apply bind_Ok in H as ([] & _ & H).
    destruct (MarkApprovalGateExpired _ _ _ _) as [db1|] eqn:Hm; [|done]. simplify_eq.
    apply (invariant_update (cancel_queued run "approval_expiry") (with_db w0 db1));
      eauto using cancel_queued_ok, cancel_queued_config, MarkApprovalGateExpired_ok.
  - by apply invariant_rerun.
  - apply (invariant_tables w0); simpl; [done|done|by intros ??; eauto using same_config_refl|apply (inv_gates w0), Hw|auto|auto].
Qed.

Lemma reachable_invariant w : reachable w -> invariant w.
Proof.
  intros (w0 & (Hg & Hv & Hc & _) & Hs). revert w Hs. apply rtc_ind_r.
  - split; [rewrite Hg|rewrite Hv|rewrite Hc]; intros *; by rewrite lookup_empty.
  - eauto using step_invariant.
Qed.

(** A call none of whose moments is interrupted is three steps of the server. *)
Definition called (w : World) (source : ApproverGroupSource) (d : ApprovalDecision) (approve : bool) (external : list string) (db' : DB) : World := {|
  db := db'; calls := calls w;
  authorized := authorization (db w) {| call_decision := d; call_approve := approve; call_source := source; call_at := Resolved external |} external :: authorized w |}.
Lemma decideGate_reachable w source d approve db' res :
  reachable w -> decideGate source (db w) d approve = Ok (db', res) ->
  exists external, externalGroupsForJobGate source (db w) (JobRunID d) (identity_of d) = Ok external /\ reachable (called w source d approve external db').
Proof.
  intros (w0 & Hi & Hs) H. unfold decideGate in H. case_decide; [done|].
  apply bind_Ok in H as (external & Hx & H). apply bind_Ok in H as (p & Hc & H).
  exists external. split; [done|]. exists w0. split; [done|]. etrans; [exact Hs|].
  set (k := fresh (dom (calls w))). assert (Hk : calls w !! k = None) by (apply not_elem_of_dom, is_fresh).
  eapply rtc_l; [by eapply (step_begin w k)|]. eapply rtc_l; [eapply step_check; [apply lookup_insert_eq|exact Hc]|].
  eapply rtc_l; [eapply step_locked; [apply lookup_insert_eq|exact H]|]. simpl.
  rewrite insert_insert_eq, delete_insert_id by done. apply rtc_refl.
Qed.

(** ** Properties *)

(** C13: An approval gate passes only by its quorum: whatever calls, cancels, expiries,
    supersedes and reruns are interleaved, a gate that succeeded has at least the
    required number of approvals, each of a different user who was on record as
    authorised - no service account, and named by the allow-list, or in a listed group
    by the group table of that moment or by the answer of the outside source, unless the
    gate lists nobody - to approve this gate; or it was approved by a caller without a
    user id, which the allow-list admitted in the same way.  A rejected gate was rejected
    by such an authorised caller, and a gate that still waits has fewer approvals than
    it needs. *)
Theorem gate_passes_by_quorum w job row :
  reachable w -> gates (db w) !! job = Some row ->
  (status row = "success" ->
     (exists users, NoDup users /\ (Z.max 1 (approval_required row) <= Z.of_nat (length users))%Z /\
        Forall (fun u => u <> Nil /\ exists v a, votes (db w) !! (job, u) = Some v /\ Vote_Decision v = "approved" /\
          a ∈ authorized w /\ az_job a = job /\ az_approve a = true /\ Who_UserID (az_who a) = u /\ entitled row a) users) \/
     (exists a, a ∈ authorized w /\ az_job a = job /\ az_approve a = true /\ Who_UserID (az_who a) = Nil /\
        Who_Label (az_who a) = decided_by row /\ entitled row a)) /\
  (status row = "failed" ->
     exists a, a ∈ authorized w /\ az_job a = job /\ az_approve a = false /\ Who_Label (az_who a) = decided_by row /\ entitled row a) /\
  (status row = "awaiting_approval" ->
     (count_approved (votes (db w)) job < Z.max 1 (approval_required row))%Z).
Proof.
  intros Hw%reachable_invariant Hg. destruct (inv_gates w Hw _ _ Hg) as [Hgate Hp Hs Hd].
  split; [|split; [|auto]].
  - intros Hst. destruct (Hs Hst) as [Hq|(a & (Ha & Hj & Hap & He) & Hn & Hlb)]; [left|right; by exists a].
    exists (voters (votes (db w)) job). split; [apply voters_NoDup|]. split; [by rewrite voters_length|].
    apply Forall_forall. intros u (v & Hv & Hdec)%voters_spec.
    destruct (inv_votes w Hw _ _ _ Hv) as (r & a & [] & Hr & (Ha & Hj & Hap & He) & <- & Hn & Hvd); simplify_eq; [|by rewrite Hdec in Hvd]. eauto 10.
  - intros Hst. destruct (Hd false Hst) as (a & (Ha & Hj & Hap & He) & Hlb). by exists a.
Qed.

Lemma frozenGovernedEnvsTx_nil db project envs :
  frozenGovernedEnvsTx db project envs = [] <-> forall e, e ∈ envs -> (project, e) ∉ freezes db.
Proof.
  unfold frozenGovernedEnvsTx. split.
  - intros H e He Hf. assert (Hin : e ∈ @nil string); [|by apply not_elem_of_nil in Hin].
    rewrite <- H. apply elem_of_sort_strings, elem_of_dedup, list_elem_of_filter. done.
  - intros H. destruct (sort_strings _) as [|e l] eqn:Hs; [done|]. exfalso.
    assert (He : e ∈ e :: l) by left. rewrite <- Hs in He.
    apply elem_of_sort_strings, elem_of_dedup, list_elem_of_filter in He as [Hf Hin]. by eapply H.
Qed.

(** Only the locked part of an approval makes a gate succeed. *)
Lemma success_only_by_approval w w' job row row' :
  invariant w -> step w w' -> gates (db w) !! job = Some row -> gates (db w') !! job = Some row' ->
  status row <> "success" -> status row' = "success" ->
  exists k d source p, calls w !! k = Some {| call_decision := d; call_approve := true; call_source := source; call_at := Checked p |} /\
    JobRunID d = job /\ status row = "awaiting_approval" /\
    frozenGovernedEnvsTx (db w) (project_id row) (governedEnvs p) = [] /\ decided_by row' = User d.
Proof.
  intros Hw Hstep Hg Hg' Hn Hs. destruct Hstep; simpl in *; simplify_eq; try done.
  - rename H into Hk. rename H0 into Hl.
    destruct (decideGate_locked_Ok _ _ _ _ _ _ Hl) as (r & Hr & _ & Hst & Hfz & [(_ & _ & _ & -> & _)|(_ & -> & _)]);
      simpl in *; [simplify_eq|].
    destruct (decide (JobRunID d = job)) as [<-|Hne]; [|rewrite lookup_insert_ne in Hg' by done; simplify_eq].
    rewrite lookup_insert_eq in Hg'. simplify_eq. destruct approve; [|done]. exists k, d, source, p. split_and!; try done. by apply Hfz.
  - destruct (decide (job0 = job)) as [->|Hne]; [simplify_eq|]. rewrite lookup_insert_ne in Hg' by done. simplify_eq.
  - apply lookup_fmap_Some in Hg' as (r & <- & Hr). simplify_eq. unfold cancel_queued in Hs. by destruct (_ && _).
  - apply lookup_fmap_Some in Hg' as (r & <- & (r0 & <- & Hr)%lookup_fmap_Some). simplify_eq.
    unfold cancel_queued in Hs. destruct (_ && _); [done|]. unfold mark_superseded in Hs. by case_decide.
  - unfold ExpireApprovalGate, MarkApprovalGateExpired in H. apply bind_Ok in H as ([] & _ & H).
    destruct (gates (db w) !! job0) as [r0|] eqn:Hg0; [|done]. destruct (_ && _); [|done]. simplify_eq/=.
    apply lookup_fmap_Some in Hg' as (r & <- & Hr). unfold cancel_queued in Hs. destruct (_ && _); [done|].
    destruct (decide (job0 = job)) as [->|Hne]; [rewrite lookup_insert_eq in Hr|rewrite lookup_insert_ne in Hr by done];
      simplify_eq; done.
  - apply lookup_fmap_Some in Hg' as (r & <- & Hr). simplify_eq. simpl in Hs. unfold mark_superseded, rearm in Hs.
    destruct (rearms _ _ _); by case_decide.
Qed.

(** An approval never passes into a frozen environment: at the step a gate
    succeeds it was waiting, the approver was authorised, the run's definition is
    readable, and no environment the gate governs for deploys or migrations is
    frozen at that moment - even when the freeze came after the approval was
    checked. *)
Theorem approval_respects_freeze w w' job row row' :
  reachable w -> step w w' -> gates (db w) !! job = Some row -> gates (db w') !! job = Some row' ->
  status row <> "success" -> status row' = "success" ->
  status row = "awaiting_approval" /\ decided_row (authorized w') job true row' /\ definition row <> BadDefinition /\
  (forall def env, definition row = Definition_ def -> env ∈ GovernedFreezeEnvs def (gate_name row) ->
     (project_id row, env) ∉ freezes (db w)).
Proof.
  intros Hw%reachable_invariant Hstep Hg Hg' Hn Hs.
  destruct (success_only_by_approval _ _ _ _ _ Hw Hstep Hg Hg' Hn Hs) as (k & d & source & p & Hk & <- & Hst & Hfz & _).
  destruct (inv_calls w Hw _ _ Hk) as (r & a & Hr & _ & _ & _ & Hlock). simpl in *. simplify_eq.
  specialize (Hlock eq_refl). unfold lockApprovalEnvs in Hlock. rewrite frozenGovernedEnvsTx_nil in Hfz.
  split; [done|]. split; [|split].
  - eapply (ok_decided _ _ _ _ (inv_gates _ (step_invariant _ _ Hstep Hw) _ _ Hg') true Hs).
  - intros Hd. by rewrite Hd in Hlock.
  - intros def env Hd Henv. rewrite Hd in Hlock. apply Hfz. by injection Hlock as <-.
Qed.

(** *** A gate decided by two people *)

Definition demo_pipeline : Pipeline :=
  mk_pipeline ["gate"; "deploy"]
    [mk_job "approve" "gate" [] (Some mk_approval) None "";
     mk_job "ship" "deploy" ["approve"] None (Some (mk_deploy "prod")) ""].
Definition demo_row : GateRow := {|
  approval_gate := true; status := "awaiting_approval"; approvers := ["sub:oidc:ana"; "bob"];
  approver_groups := ["sre"]; approval_required := 2; run_id := 7%N; stage_name := "gate"; stage_ordinal := 0;
  gate_name := "approve"; superseded := false; project_id := 1%N; definition := Definition_ demo_pipeline;
  awaiting_since := 0%Z; decision := None; decided_by := ""; cancel_origin := None;
|}.
Definition demo_call (user : uuid) (label subject : string) : ApprovalDecision := {|
  JobRunID := 5%N; UserID := user; User := label; UserEmail := ""; Provider := "oidc"; Subject := subject;
  Comment := "";
|}.
Definition demo_db (n : nat) : DB :=
  let db0 := {| gates := {[5%N := demo_row]}; votes := ∅; members := {[3%N := ["sre"]]}; freezes := {[(1%N, "staging")]} |} in
  let call db d := match ApproveGate None db d with Ok (db', _) => db' | Err _ => db end in
  match n with
  | 0 => db0
  | 1 => call db0 (demo_call 2 "Ana" "ana")
  | _ => call (call db0 (demo_call 2 "Ana" "ana")) (demo_call 3 "Eve" "eve")
  end.
Definition demo_authorization (n : nat) (d : ApprovalDecision) : Authorization :=
  authorization (demo_db n) {| call_decision := d; call_approve := true; call_source := None; call_at := Resolved [] |} [].
Definition demo_world (n : nat) : World := {|
  db := demo_db n; calls := ∅;
  authorized := match n with
                | 0 => []
                | 1 => [demo_authorization 0 (demo_call 2 "Ana" "ana")]
                | _ => [demo_authorization 1 (demo_call 3 "Eve" "eve"); demo_authorization 0 (demo_call 2 "Ana" "ana")]
                end |}.

(** The display name of another cannot be borrowed, and a second vote of one person does not count. *)
Example borrowed_name : ApproveGate None (demo_db 1) (demo_call 4 "sub:oidc:ana" "mallory") = Err ErrApproverNotAllowed.
Proof. reflexivity. Qed.
Example voting_twice :
  match ApproveGate None (demo_db 1) (demo_call 2 "Ana" "ana") with
  | Ok (_, r) => PendingQuorum r = true /\ ApprovalsNow r = 1%Z | Err _ => False end.
Proof. vm_compute. done. Qed.

Lemma demo_reachable n : (n <= 2)%nat -> reachable (demo_world n).
Proof.
  assert (H0 : reachable (demo_world 0)).
  { set (w0 := {| db := {| gates := ∅; votes := ∅; members := members (demo_db 0); freezes := freezes (demo_db 0) |}; calls := ∅; authorized := [] |}).
    exists w0. split; [done|]. apply rtc_once. exact (step_create w0 5%N demo_row eq_refl eq_refl). }
  assert (H1 : reachable (demo_world 1)).
  { destruct (decideGate_reachable (demo_world 0) None (demo_call 2 "Ana" "ana") true (demo_db 1)
                {| Res_RunID := 7; PendingQuorum := true; ApprovalsNow := 1; ApprovalsRequired := 2 |}) as (ext & [= <-] & H);
      [done|vm_compute; reflexivity|exact H]. }
  assert (H2 : reachable (demo_world 2)).
  { destruct (decideGate_reachable (demo_world 1) None (demo_call 3 "Eve" "eve") true (demo_db 2)
                {| Res_RunID := 7; PendingQuorum := false; ApprovalsNow := 2; ApprovalsRequired := 2 |}) as (ext & [= <-] & H);
      [done|vm_compute; reflexivity|exact H]. }
  intros Hn. destruct n as [|[|[|]]]; [done..|lia].
Qed.

Definition demo_passed : GateRow := decided demo_row true "Eve".

Lemma gate_passes_by_quorum_witness :
  status demo_passed = "success" /\
  exists users, NoDup users /\ (2 <= Z.of_nat (length users))%Z /\
    Forall (fun u => exists v a, votes (demo_db 2) !! (5%N, u) = Some v /\ Vote_Decision v = "approved" /\
                       a ∈ authorized (demo_world 2) /\ Who_UserID (az_who a) = u /\ entitled demo_passed a) users.
Proof.
  split; [reflexivity|].
  destruct (gate_passes_by_quorum (demo_world 2) 5%N demo_passed) as [H _]; [apply demo_reachable; lia|reflexivity|].
  destruct (H eq_refl) as [(users & Hnd & Hq & Hall)|(a & Ha & _ & _ & Hn & _)].
  - exists users. split; [exact Hnd|]. split; [exact Hq|]. eapply Forall_impl; [exact Hall|]. simpl.
    intros u (_ & v & a & Hv & Hd & Ha & _ & _ & Hu & He). eauto 10.
  - exfalso. simpl in Ha. apply elem_of_cons in Ha as [->|Ha]; [discriminate Hn|].
    apply list_elem_of_singleton in Ha as ->. discriminate Hn.
Defined.

Lemma approval_respects_freeze_witness :
  (1%N, "prod") ∉ freezes (demo_db 1) /\ "prod" ∈ GovernedFreezeEnvs demo_pipeline "approve".
Proof.
  assert (He : "prod" ∈ GovernedFreezeEnvs demo_pipeline "approve") by (vm_compute; left).
  split; [|exact He].
  set (d := demo_call 3 "Eve" "eve").
  set (p := {| required := 2; governedEnvs := ["prod"] |}).
  set (c := {| call_decision := d; call_approve := true; call_source := None; call_at := Checked p |}).
  set (w := {| db := demo_db 1; calls := {[0%nat := c]}; authorized := demo_authorization 1 d :: authorized (demo_world 1) |}).
  assert (Hw : reachable w).
  { destruct (demo_reachable 1 ltac:(lia)) as (w0 & Hi & Hs). exists w0. split; [exact Hi|].
    etrans; [exact Hs|]. eapply rtc_l.
    { apply (step_begin (demo_world 1) 0%nat None d true []); reflexivity. }
    eapply rtc_l; [apply (step_check _ 0%nat d true None [] p); [reflexivity|vm_compute; reflexivity]|].
    apply rtc_refl. }
  destruct (approval_respects_freeze w {| db := demo_db 2; calls := delete 0%nat (calls w); authorized := authorized w |} 5%N demo_row demo_passed Hw)
    as (_ & _ & _ & H); [|reflexivity|reflexivity|discriminate|reflexivity|].
  - apply (step_locked w 0%nat d true None p (demo_db 2)
             {| Res_RunID := 7; PendingQuorum := false; ApprovalsNow := 2; ApprovalsRequired := 2 |});
      [reflexivity|vm_compute; reflexivity].
  - exact (H demo_pipeline "prod" eq_refl He).
Defined.
