(* ===== verification/Watcher.v ===== *)
(** [server/internal/deploysvc/watcher.go], [watcher_gate.go] with the tables they
    drive ([store/deploy_watches.go], [store/rollout_gate.go],
    [store/rollout_gate_decide.go], [db/queries/deploy_watches.sql]): the watchers
    that follow a deploy, the human decision on its rollout gate, and the lease
    that keeps one watcher at a time acting on the cluster. *)

From S2P Require Import Prelude GoStrings Approvals Deploy.

(** ** Tables *)

(** The columns of [deploy_watches] written at creation. *)
Record WatchConfig := {
  dw_project : string;
  dw_sync_mode : SyncMode;
  dw_cluster : string;
  dw_application : string;
  dw_namespace : string;
  dw_expected_revision : string;
  dw_rollout_aware : bool;
  dw_rollout_cluster : string;
  dw_rollout_namespace : string;
  dw_rollout_name : string;
  dw_gate_approvers : list string;
  dw_gate_approver_groups : list string;
  dw_gate_required : option Z;
}.
(** The per-arm, decision and action columns; a NULL decision is [GateUndecided]
    and a NULL text the empty string. *)
Record GateState := {
  gate_id : option uuid;
  gate_armed_at : option Time;
  gate_paused_step : option Z;
  gate_rollout_cluster : string;
  gate_rollout_namespace : string;
  gate_rollout_name : string;
  gate_decision : GateDecision;
  gate_decided_by : string;
  gate_actioned_at : option Time;
}.
Definition no_gate : GateState := {|
  gate_id := None; gate_armed_at := None; gate_paused_step := None; gate_rollout_cluster := "";
  gate_rollout_namespace := ""; gate_rollout_name := ""; gate_decision := GateUndecided;
  gate_decided_by := ""; gate_actioned_at := None;
|}.
Record DeployWatch := {
  dw_config : WatchConfig;
  dw_gate : GateState;
  dw_deadline_at : Time;
  dw_sync_requested_at : option Time;
  dw_degraded_since : option Time;
  dw_abort_actioned_at : option Time;
  dw_claim_id : option uuid;
  dw_claimed_at : option Time;
}.
(** [deployment_revisions] and the columns of [job_runs] a deploy reads. *)
Record Revision := { rev_status : string; rev_job : uuid; rev_attempt : Z }.
Record JobRow := {
  job_status : string;
  job_agent : option uuid;
  job_attempt : Z;
  cancel_requested_at : option Time;
}.

Record DB := {
  now : Time;
  used : gset uuid;
  watches : gmap uuid DeployWatch;
  revisions : gmap uuid Revision;
  jobs : gmap uuid JobRow;
  votes : VoteTable;
  members : GroupTable;
}.
Definition with_watches (db : DB) (w : gmap uuid DeployWatch) : DB := {|
  now := now db; used := used db; watches := w; revisions := revisions db; jobs := jobs db;
  votes := votes db; members := members db;
|}.
Definition with_votes (db : DB) (v : VoteTable) : DB := {|
  now := now db; used := used db; watches := watches db; revisions := revisions db; jobs := jobs db;
  votes := v; members := members db;
|}.
Definition with_jobs (db : DB) (j : gmap uuid JobRow) : DB := {|
  now := now db; used := used db; watches := watches db; revisions := revisions db; jobs := j;
  votes := votes db; members := members db;
|}.
Definition with_revisions (db : DB) (r : gmap uuid Revision) : DB := {|
  now := now db; used := used db; watches := watches db; revisions := r; jobs := jobs db;
  votes := votes db; members := members db;
|}.

Definition set_watch (w : DeployWatch) (g : GateState) (deadline : Time) (abort : option Time) : DeployWatch := {|
  dw_config := dw_config w; dw_gate := g; dw_deadline_at := deadline;
  dw_sync_requested_at := dw_sync_requested_at w; dw_degraded_since := dw_degraded_since w;
  dw_abort_actioned_at := abort; dw_claim_id := dw_claim_id w; dw_claimed_at := dw_claimed_at w;
|}.
Definition set_anchors (w : DeployWatch) (sync degraded : option Time) (claim : option uuid)
    (claimed : option Time) : DeployWatch := {|
  dw_config := dw_config w; dw_gate := dw_gate w; dw_deadline_at := dw_deadline_at w;
  dw_sync_requested_at := sync; dw_degraded_since := degraded; dw_abort_actioned_at := dw_abort_actioned_at w;
  dw_claim_id := claim; dw_claimed_at := claimed;
|}.

(** [UPDATE deploy_watches SET ... WHERE deployment_revision_id = $1 AND claim_id = $2
    AND guard]: whether a row was updated. *)
Definition fenced (rev claim : uuid) (guard : DeployWatch -> bool) (f : DeployWatch -> DeployWatch)
    (db : DB) : DB * bool :=
  match watches db !! rev with
  | Some w =>
      if bool_decide (dw_claim_id w = Some claim) && guard w
      then (with_watches db (<[rev := f w]> (watches db)), true) else (db, false)
  | None => (db, false)
  end.

(** ** Lease, anchors and gate columns *)

Definition claimable (lease : Duration) (db : DB) (rev : uuid) (w : DeployWatch) : bool :=
  match revisions db !! rev with
  | Some r => bool_decide (rev_status r = "in_progress") &&
              match dw_claimed_at w with None => true | Some t => time_before t (now db - lease)%Z end
  | None => false
  end.
(** One row of [ClaimDeployWatches]; [token] is its [gen_random_uuid()]. *)
Definition ClaimDeployWatch (lease : Duration) (rev token : uuid) (db : DB) : option (DeployWatch * DB) :=
  match watches db !! rev with
  | Some w =>
      if claimable lease db rev w then
        let w' := set_anchors w (dw_sync_requested_at w) (dw_degraded_since w) (Some token) (Some (now db)) in
        Some (w', {| now := now db; used := {[token]} ∪ used db; watches := <[rev := w']> (watches db);
                     revisions := revisions db; jobs := jobs db; votes := votes db; members := members db |})
      else None
  | None => None
  end.
Definition RenewDeployWatch (rev claim : uuid) (db : DB) : DB * bool :=
  fenced rev claim (fun _ => true)
    (fun w => set_anchors w (dw_sync_requested_at w) (dw_degraded_since w) (dw_claim_id w) (Some (now db))) db.
Definition StampDeployWatchSyncRequested (rev : uuid) (db : DB) : DB :=
  match watches db !! rev with
  | Some w => match dw_sync_requested_at w with
              | None => with_watches db (<[rev := set_anchors w (Some (now db)) (dw_degraded_since w) (dw_claim_id w)
                                                   (dw_claimed_at w)]> (watches db))
              | Some _ => db
              end
  | None => db
  end.
Definition SetDeployWatchDegradedSince (rev claim : uuid) (db : DB) : DB * bool :=
  fenced rev claim (fun _ => true)
    (fun w => set_anchors w (dw_sync_requested_at w) (Some (default (now db) (dw_degraded_since w)))
                (dw_claim_id w) (dw_claimed_at w)) db.
Definition ClearDeployWatchDegraded (rev claim : uuid) (db : DB) : DB * bool :=
  fenced rev claim (fun _ => true)
    (fun w => set_anchors w (dw_sync_requested_at w) None (dw_claim_id w) (dw_claimed_at w)) db.

Inductive arm_error := ErrIncompleteGatePin.
Definition ArmRolloutGate (rev claim token : uuid) (step : Z) (cluster namespace name : string) (db : DB)
    : result arm_error (DB * bool) :=
  if bool_decide (cluster = "" \/ namespace = "" \/ name = "") || (step <? 0)%Z then Err ErrIncompleteGatePin
  else Ok (fenced rev claim (fun w => bool_decide (gate_id (dw_gate w) = None))
    (fun w => set_watch w
       {| gate_id := Some token; gate_armed_at := Some (now db); gate_paused_step := Some step;
          gate_rollout_cluster := cluster; gate_rollout_namespace := namespace; gate_rollout_name := name;
          gate_decision := gate_decision (dw_gate w); gate_decided_by := gate_decided_by (dw_gate w);
          gate_actioned_at := gate_actioned_at (dw_gate w) |}
       (dw_deadline_at w) (dw_abort_actioned_at w)) db).

Definition set_decision (g : GateState) (d : GateDecision) (by_ : string) (actioned : option Time) : GateState := {|
  gate_id := gate_id g; gate_armed_at := gate_armed_at g; gate_paused_step := gate_paused_step g;
  gate_rollout_cluster := gate_rollout_cluster g; gate_rollout_namespace := gate_rollout_namespace g;
  gate_rollout_name := gate_rollout_name g; gate_decision := d; gate_decided_by := by_;
  gate_actioned_at := actioned;
|}.
Definition MarkGateActioned (rev claim : uuid) (db : DB) : DB * bool :=
  fenced rev claim (fun w => bool_decide (gate_actioned_at (dw_gate w) = None))
    (fun w => set_watch w (set_decision (dw_gate w) (gate_decision (dw_gate w)) (gate_decided_by (dw_gate w)) (Some (now db)))
                (dw_deadline_at w) (dw_abort_actioned_at w)) db.

(** The one-time shift: the time an undecided gate held the clock. *)
Definition resumed_deadline (t : Time) (w : DeployWatch) : Time :=
  match gate_armed_at (dw_gate w), gate_decision (dw_gate w) with
  | Some armed, GateUndecided => (dw_deadline_at w + (t - armed))%Z
  | _, _ => dw_deadline_at w
  end.
Definition DeleteDeployGateVotes (rev : uuid) (db : DB) : DB :=
  match revisions db !! rev with
  | Some r => with_votes db (delete_votes (votes db) (rev_job r))
  | None => db
  end.
Definition ClearRolloutGate (rev claim : uuid) (db : DB) : DB * bool :=
  let '(db', ok) := fenced rev claim (fun w => bool_decide (gate_id (dw_gate w) <> None))
    (fun w => set_watch w no_gate (resumed_deadline (now db) w) (dw_abort_actioned_at w)) db in
  if ok then (DeleteDeployGateVotes rev db', true) else (db, false).
Definition MarkRolloutAbortActioned (rev claim : uuid) (db : DB) : DB * bool :=
  let '(db', ok) := fenced rev claim (fun w => bool_decide (dw_abort_actioned_at w = None))
    (fun w => set_watch w no_gate (resumed_deadline (now db) w) (Some (now db))) db in
  if ok then (DeleteDeployGateVotes rev db', true) else (db, false).
Definition DeployWatchCancelRequestedAt (db : DB) (rev : uuid) : option Time :=
  r ← revisions db !! rev; j ← jobs db !! rev_job r; cancel_requested_at j.

(** ** The end of a watch *)

(** [CompleteJobRun] for a server-managed job: the effective status, when the row
    is the expected one. *)
Definition CompleteJobRun (job : uuid) (st : string) (attempt : Z) (db : DB) : option (string * DB) :=
  match jobs db !! job with
  | Some j =>
      if bool_decide (job_status j = "queued" \/ job_status j = "running") && bool_decide (job_agent j = None) &&
         bool_decide (job_attempt j = attempt)
      then let eff := match cancel_requested_at j with Some _ => "canceled" | None => st end in
           Some (eff, with_jobs db (<[job := {| job_status := eff; job_agent := job_agent j;
                                                job_attempt := job_attempt j;
                                                cancel_requested_at := cancel_requested_at j |}]> (jobs db)))
      else None
  | None => None
  end.
Definition delete_watch (rev : uuid) (db : DB) : DB := with_watches db (delete rev (watches db)).
Definition finish_revision (rev : uuid) (st : string) (db : DB) : DB :=
  match revisions db !! rev with
  | Some r => if decide (rev_status r = "in_progress")
              then with_revisions db (<[rev := {| rev_status := st; rev_job := rev_job r; rev_attempt := rev_attempt r |}]> (revisions db))
              else db
  | None => db
  end.
(** The transaction rolls back when the fenced delete, its last statement, finds no
    row, so the fence is tested first here.  The stage cascade is not part of it. *)
Definition FinalizeDeployWatch (rev claim : uuid) (st : string) (db : DB) : DB * bool :=
  match watches db !! rev with
  | Some w =>
      if decide (dw_claim_id w = Some claim) then
        match revisions db !! rev with
        | None => (delete_watch rev db, true)
        | Some r =>
            if decide (rev_status r <> "in_progress") then (delete_watch rev db, true)
            else match CompleteJobRun (rev_job r) st (rev_attempt r) db with
                 | Some (eff, db') => (delete_watch rev (finish_revision rev eff db'), true)
                 | None => (delete_watch rev (finish_revision rev st db), true)
                 end
        end
      else (db, false)
  | None => (db, false)
  end.

(** ** The human decision *)

Record RolloutGateDecisionInput := {
  In_RevisionID : uuid;
  In_ProjectID : string;
  In_GateID : uuid;
  In_Approve : bool;
  In_UserID : uuid;
  In_User : string;
  In_UserEmail : string;
  In_Provider : string;
  In_Subject : string;
  In_Comment : string;
}.
Record RolloutGateResult := { Decided : bool; Result_PendingQuorum : bool; Result_ApprovalsNow : Z; Result_Required : Z }.
Definition decider (i : RolloutGateDecisionInput) : ApproverIdentity := {|
  Who_UserID := In_UserID i; Who_Label := In_User i; Who_Email := In_UserEmail i;
  Who_Provider := In_Provider i; Who_Subject := In_Subject i;
|}.

Definition externalGroupsForRolloutGate (source : ApproverGroupSource) (db : DB) (rev : uuid) (project : string)
    (who : ApproverIdentity) : result gate_error (list string) :=
  match source with
  | None => Ok []
  | Some _ =>
      match watches db !! rev with
      | Some w =>
          if bool_decide (dw_project (dw_config w) = project) && bool_decide (gate_id (dw_gate w) <> None) &&
             bool_decide (gate_decision (dw_gate w) = GateUndecided)
          then resolveExternalApproverGroups source (members db) who (dw_gate_approvers (dw_config w))
                 (dw_gate_approver_groups (dw_config w))
          else Ok []
      | None => Ok []
      end
  end.

(** The transaction of [DecideRolloutGate], under the lock of the watch row. *)
Definition DecideRolloutGate_tx (db : DB) (i : RolloutGateDecisionInput) (external : list string)
    : result gate_error (DB * RolloutGateResult) :=
  match watches db !! In_RevisionID i with
  | None => Err ErrGateStale
  | Some w =>
      let g := dw_gate w in
      if bool_decide (dw_project (dw_config w) <> In_ProjectID i) then Err ErrGateStale
      else if bool_decide (default Nil (gate_id g) <> In_GateID i \/ gate_decision g <> GateUndecided) then Err ErrGateStale
      else match gate_armed_at g, dw_gate_required (dw_config w), revisions db !! In_RevisionID i with
           | Some armed, Some required, Some r =>
               let req := Z.max 1 required in
               let job := rev_job r in
               _ ← authorizeApprover (members db) (decider i) (dw_gate_approvers (dw_config w))
                     (dw_gate_approver_groups (dw_config w)) external;
               if decide (is_Some (votes db !! (job, In_UserID i))) then Err ErrAlreadyVoted
               else
                 let vs := insert_vote (votes db) job (In_UserID i)
                             {| Vote_Label := In_User i; Vote_Decision := approve_name (In_Approve i);
                                Vote_Comment := In_Comment i |} in
                 let approvedNow := count_approved vs job in
                 if In_Approve i && (approvedNow <? req)%Z then
                   Ok (with_votes db vs, {| Decided := false; Result_PendingQuorum := true;
                                            Result_ApprovalsNow := approvedNow; Result_Required := req |})
                 else
                   let d := if In_Approve i then GateApproved else GateRejected in
                   Ok (with_watches (with_votes db vs)
                         (<[In_RevisionID i := set_watch w (set_decision g d (In_User i) (gate_actioned_at g))
                             (dw_deadline_at w + (now db - armed))%Z (dw_abort_actioned_at w)]> (watches db)),
                       {| Decided := true; Result_PendingQuorum := false; Result_ApprovalsNow := approvedNow;
                          Result_Required := req |})
           | _, _, _ => Err ErrGateStale
           end
  end.
Definition DecideRolloutGate_input (i : RolloutGateDecisionInput) : result gate_error unit :=
  if decide (In_RevisionID i = Nil) then Err ErrRevisionRequired
  else if decide (In_UserID i = Nil) then Err ErrUserRequired
  else if decide (In_GateID i = Nil) then Err ErrGateStale else Ok tt.
(** The whole call, when nothing runs between its two parts. *)
Definition DecideRolloutGate (source : ApproverGroupSource) (db : DB) (i : RolloutGateDecisionInput)
    : result gate_error (DB * RolloutGateResult) :=
  _ ← DecideRolloutGate_input i;
  external ← externalGroupsForRolloutGate source db (In_RevisionID i) (In_ProjectID i) (decider i);
  DecideRolloutGate_tx db i external.

(** ** The start of a deploy ([native_deploy.go]), its rerun and its cancel *)

Definition StartNativeDeploy (rev job : uuid) (c : WatchConfig) (deadline : Time) (db : DB) : option DB :=
  match jobs db !! job with
  | Some j =>
      if bool_decide (job_status j = "queued") && bool_decide (job_agent j = None) then
        Some {| now := now db; used := used db;
                watches := <[rev := {| dw_config := c; dw_gate := no_gate; dw_deadline_at := deadline;
                                       dw_sync_requested_at := None; dw_degraded_since := None;
                                       dw_abort_actioned_at := None; dw_claim_id := None; dw_claimed_at := None |}]> (watches db);
                revisions := <[rev := {| rev_status := "in_progress"; rev_job := job; rev_attempt := job_attempt j |}]> (revisions db);
                jobs := <[job := {| job_status := "running"; job_agent := None; job_attempt := job_attempt j;
                                    cancel_requested_at := cancel_requested_at j |}]> (jobs db);
                votes := votes db; members := members db |}
      else None
  | None => None
  end.
(** The job row of [RerunJob]; nothing else of it touches these tables. *)
Definition RerunJob (job : uuid) (db : DB) : option DB :=
  match jobs db !! job with
  | Some j =>
      if bool_decide (job_status j = "queued" \/ job_status j = "running") then None
      else Some (with_jobs db (<[job := {| job_status := "queued"; job_agent := None; job_attempt := job_attempt j + 1;
                                           cancel_requested_at := None |}]> (jobs db)))
  | None => None
  end.
(** A cancel or supersede stamps the running job. *)
Definition StampCancelRequested (job : uuid) (db : DB) : DB :=
  match jobs db !! job with
  | Some j => if decide (job_status j = "running")
              then with_jobs db (<[job := {| job_status := job_status j; job_agent := job_agent j; job_attempt := job_attempt j;
                                             cancel_requested_at := Some (default (now db) (cancel_requested_at j)) |}]> (jobs db))
              else db
  | None => db
  end.
(** Another path - the reaper or a cancel, no agent reports for such a job - ends the
    deploy: the job leaves [running], its revision is finalized and the watch deleted. *)
Definition end_elsewhere (rev : uuid) (st : string) (db : DB) : DB :=
  match revisions db !! rev with
  | Some r =>
      match jobs db !! rev_job r with
      | Some j => delete_watch rev (finish_revision rev st
                    (with_jobs db (<[rev_job r := {| job_status := st; job_agent := job_agent j; job_attempt := job_attempt j;
                                                     cancel_requested_at := cancel_requested_at j |}]> (jobs db))))
      | None => db
      end
  | None => db
  end.

(** ** The watcher ([watcher.go], [watcher_gate.go]) *)

Definition pinned (g : GateState) : bool :=
  bool_decide (gate_rollout_cluster g <> "") && bool_decide (gate_rollout_namespace g <> "") &&
  bool_decide (gate_rollout_name g <> "").
Definition targetOf (dw : DeployWatch) : DeploymentTarget :=
  let c := dw_config dw in {|
  Target_ProjectID := dw_project c; Target_Environment := ""; Target_Provider := "argocd";
  Target_Cluster := dw_cluster c; Target_Application := dw_application c; Target_Namespace := dw_namespace c;
  Target_SyncMode := dw_sync_mode c; Target_RolloutAware := dw_rollout_aware c;
  Target_RolloutCluster := dw_rollout_cluster c; Target_RolloutNamespace := dw_rollout_namespace c;
  Target_RolloutName := dw_rollout_name c;
|}.
Definition at_rollout (t : DeploymentTarget) (cluster ns name : string) : DeploymentTarget := {|
  Target_ProjectID := Target_ProjectID t; Target_Environment := Target_Environment t;
  Target_Provider := Target_Provider t; Target_Cluster := Target_Cluster t;
  Target_Application := Target_Application t; Target_Namespace := Target_Namespace t;
  Target_SyncMode := Target_SyncMode t; Target_RolloutAware := Target_RolloutAware t;
  Target_RolloutCluster := cluster; Target_RolloutNamespace := ns; Target_RolloutName := name;
|}.
Definition pinnedTargetOf (dw : DeployWatch) : DeploymentTarget :=
  at_rollout (targetOf dw) (gate_rollout_cluster (dw_gate dw)) (gate_rollout_namespace (dw_gate dw))
    (gate_rollout_name (dw_gate dw)).
Definition cancelAbortTarget (dw : DeployWatch) (state : DeployState) : DeploymentTarget :=
  if pinned (dw_gate dw) then pinnedTargetOf dw
  else at_rollout (targetOf dw) (ResolvedCluster (Rollout state)) (ResolvedNamespace (Rollout state))
         (ResolvedName (Rollout state)).
Definition anchorsOf (dw : DeployWatch) (cancelRequested : bool) : WatchAnchors :=
  let c := dw_config dw in let g := dw_gate dw in {|
  Anchor_SyncMode := dw_sync_mode c; ExpectedRevision := dw_expected_revision c;
  SyncRequestedAt := dw_sync_requested_at dw; DeadlineAt := dw_deadline_at dw;
  DegradedSince := dw_degraded_since dw; RolloutAware := dw_rollout_aware c;
  Gated := bool_decide (is_Some (dw_gate_required c)); CancelRequested := cancelRequested;
  GateArmedAt := gate_armed_at g; Decision_ := gate_decision g; GateActionedAt := gate_actioned_at g;
  GatePausedStep := gate_paused_step g; HasPinnedRolloutTarget := pinned g;
  RolloutAbortActionedAt := dw_abort_actioned_at dw;
|}.

Definition DefaultDegradedWindow : Duration := (2 * 60 * 1000000000)%Z.
Definition DefaultWatchLeaseSeconds : Duration := (60 * 1000000000)%Z.

(** Where [processWatch] stands, between two calls of the store or the cluster. *)
Inductive pc :=
| AtRenew
| AtCancelRead
| AtObserve (cancelRequested : bool)
| AtEffect (cancelRequested : bool) (state : DeployState) (v : Verdict)
| AtActuate (effect : VerdictEffect) (target : DeploymentTarget) (cancelRequested : bool)
| AtMark (cancelRequested : bool)
| AtFinalize (status reason : string).
Record Thread := { th_rev : uuid; th_claim : uuid; th_watch : DeployWatch; th_pc : pc }.
Definition goto (t : Thread) (p : pc) : Thread :=
  {| th_rev := th_rev t; th_claim := th_claim t; th_watch := th_watch t; th_pc := p |}.

(** What the world answers to one call: whether the cancel read succeeds, what is
    observed ([None] for an error), the uuid an arming draws, and whether the
    controller accepts the order. *)
Record Answer := {
  ans_read : bool;
  ans_observed : option DeployState;
  ans_uuid : uuid;
  ans_accepted : bool;
}.
(** An order given to the cluster. *)
Record Issued := { is_rev : uuid; is_effect : VerdictEffect; is_target : DeploymentTarget }.

Definition renew_then (t : Thread) (p : pc) (db : DB) : DB * option Thread * list Issued :=
  let '(db', ok) := RenewDeployWatch (th_rev t) (th_claim t) db in
  (db', if ok then Some (goto t p) else None, []).
Definition finish (r : DB * bool) : DB * option Thread * list Issued := (r.1, None, []).

Definition apply_verdict (t : Thread) (cancelRequested : bool) (state : DeployState) (v : Verdict)
    (a : Answer) (db : DB) : DB * option Thread * list Issued :=
  let rev := th_rev t in let claim := th_claim t in
  match Effect v with
  | Continue => (db, None, [])
  | SetDegraded => finish (SetDeployWatchDegradedSince rev claim db)
  | ClearDegraded => finish (ClearDeployWatchDegraded rev claim db)
  | ArmGate =>
      let r := Rollout state in
      match ArmRolloutGate rev claim (ans_uuid a) (CurrentStepIndex r) (ResolvedCluster r) (ResolvedNamespace r)
              (ResolvedName r) db with
      | Ok res => finish res
      | Err _ => (db, None, [])
      end
  | Promote => renew_then t (AtActuate Promote (pinnedTargetOf (th_watch t)) false) db
  | Abort =>
      if cancelRequested then renew_then t (AtActuate Abort (cancelAbortTarget (th_watch t) state) true) db
      else renew_then t (AtActuate Abort (pinnedTargetOf (th_watch t)) false) db
  | ClearGate => finish (ClearRolloutGate rev claim db)
  | FinalizeSuccess => renew_then t (AtFinalize "success" "") db
  | FinalizeFailed => renew_then t (AtFinalize "failed" (Reason v)) db
  end.

(** One call of [processWatch]: the tables after it, the watcher if it goes on, and
    the order given. *)
Definition advance (window : Duration) (t : Thread) (a : Answer) (db : DB)
    : DB * option Thread * list Issued :=
  let rev := th_rev t in let claim := th_claim t in
  match th_pc t with
  | AtRenew => renew_then t AtCancelRead db
  | AtCancelRead =>
      let sticky := bool_decide (is_Some (dw_abort_actioned_at (th_watch t))) in
      let read := ans_read a && bool_decide (is_Some (DeployWatchCancelRequestedAt db rev)) in
      (db, Some (goto t (AtObserve (sticky || read))), [])
  | AtObserve c =>
      let state := default (error_state "the deploy could not be observed") (ans_observed a) in
      (db, Some (goto t (AtEffect c state (Decide state (anchorsOf (th_watch t) c) (now db) window))), [])
  | AtEffect c state v => apply_verdict t c state v a db
  | AtActuate effect target c =>
      (db, if ans_accepted a then Some (goto t (AtMark c)) else None,
       [{| is_rev := rev; is_effect := effect; is_target := target |}])
  | AtMark c => finish (if c then MarkRolloutAbortActioned rev claim db else MarkGateActioned rev claim db)
  | AtFinalize st _ => finish (FinalizeDeployWatch rev claim st db)
  end.
Fixpoint processWatch (window : Duration) (answers : list Answer) (t : Thread) (db : DB) : DB * list Issued :=
  match answers with
  | [] => (db, [])
  | a :: answers =>
      let '(db', t', out) := advance window t a db in
      match t' with
      | None => (db', out)
      | Some t' => let '(db'', out') := processWatch window answers t' db' in (db'', out ++ out')
      end
  end.

(** ** The system *)

Record World := { wdb : DB; threads : gmap nat Thread; orders : list Issued }.
Definition with_wdb (w : World) (db : DB) : World := {| wdb := db; threads := threads w; orders := orders w |}.
Definition next_threads (k : nat) (t : option Thread) (m : gmap nat Thread) : gmap nat Thread :=
  match t with Some t => <[k := t]> m | None => delete k m end.

Section System.
(** Whether a deploy only ever starts with no votes recorded for its job. *)
Context (votes_fresh : bool).
Context (lease window : Duration).

Inductive step : World -> World -> Prop :=
| step_time w dt : (0 <= dt)%Z ->
    step w (with_wdb w {| now := (now (wdb w) + dt)%Z; used := used (wdb w); watches := watches (wdb w);
                          revisions := revisions (wdb w); jobs := jobs (wdb w); votes := votes (wdb w);
                          members := members (wdb w) |})
| step_claim w k rev token dw db' :
    threads w !! k = None -> token ∉ used (wdb w) ->
    ClaimDeployWatch lease rev token (wdb w) = Some (dw, db') ->
    step w {| wdb := db'; orders := orders w;
              threads := <[k := {| th_rev := rev; th_claim := token; th_watch := dw; th_pc := AtRenew |}]> (threads w) |}
| step_watcher w k t a db' t' out :
    threads w !! k = Some t -> advance window t a (wdb w) = (db', t', out) ->
    step w {| wdb := db'; threads := next_threads k t' (threads w); orders := orders w ++ out |}
| step_crash w k : step w {| wdb := wdb w; threads := delete k (threads w); orders := orders w |}
| step_vote w i external db' res :
    DecideRolloutGate_input i = Ok tt -> DecideRolloutGate_tx (wdb w) i external = Ok (db', res) ->
    step w (with_wdb w db')
| step_start w rev job c deadline db' :
    revisions (wdb w) !! rev = None ->
    (votes_fresh = true -> forall u, votes (wdb w) !! (job, u) = None) ->
    StartNativeDeploy rev job c deadline (wdb w) = Some db' -> step w (with_wdb w db')
| step_sync w rev : step w (with_wdb w (StampDeployWatchSyncRequested rev (wdb w)))
| step_cancel w job : step w (with_wdb w (StampCancelRequested job (wdb w)))
| step_end w rev st :
    st = "failed" \/ st = "canceled" -> is_Some (watches (wdb w) !! rev) ->
    step w (with_wdb w (end_elsewhere rev st (wdb w)))
| step_rerun w job db' : RerunJob job (wdb w) = Some db' -> step w (with_wdb w db')
| step_queue w job : jobs (wdb w) !! job = None ->
    step w (with_wdb w (with_jobs (wdb w) (<[job := {| job_status := "queued"; job_agent := None; job_attempt := 0;
                                                       cancel_requested_at := None |}]> (jobs (wdb w)))))
| step_people w m : step w (with_wdb w {| now := now (wdb w); used := used (wdb w); watches := watches (wdb w);
                          revisions := revisions (wdb w); jobs := jobs (wdb w); votes := votes (wdb w); members := m |}).

Definition initial (w : World) : Prop :=
  watches (wdb w) = ∅ /\ revisions (wdb w) = ∅ /\ jobs (wdb w) = ∅ /\ votes (wdb w) = ∅ /\ threads w = ∅ /\ orders w = [].
Definition reachable (w : World) : Prop := exists w0, initial w0 /\ rtc step w0 w.
End System.

(** ** What one call does to the tables *)

(** A row whose configuration, gate, deadline and lease holder are kept. *)
Definition neutral (row row' : DeployWatch) : Prop :=
  dw_config row' = dw_config row /\ dw_gate row' = dw_gate row /\ dw_deadline_at row' = dw_deadline_at row /\
  dw_abort_actioned_at row' = dw_abort_actioned_at row /\ dw_claim_id row' = dw_claim_id row.
Lemma neutral_refl row : neutral row row.
Proof. by unfold neutral. Qed.
Lemma neutral_anchors row sync degraded claimed :
  neutral row (set_anchors row sync degraded (dw_claim_id row) claimed).
Proof. by unfold neutral. Qed.

Definition armed_gate (g : GateState) (token : uuid) (t : Time) (step : Z) (cluster ns name : string) : GateState := {|
  gate_id := Some token; gate_armed_at := Some t; gate_paused_step := Some step;
  gate_rollout_cluster := cluster; gate_rollout_namespace := ns; gate_rollout_name := name;
  gate_decision := gate_decision g; gate_decided_by := gate_decided_by g; gate_actioned_at := gate_actioned_at g;
|}.

(** The shapes of a watcher's call on the row it holds. *)
Inductive touches (t : Thread) (db : DB) : DB -> Prop :=
| touch_none : touches t db db
| touch_neutral row row' :
    watches db !! th_rev t = Some row -> dw_claim_id row = Some (th_claim t) -> neutral row row' ->
    touches t db (with_watches db (<[th_rev t := row']> (watches db)))
| touch_arm row token step cluster ns name :
    watches db !! th_rev t = Some row -> dw_claim_id row = Some (th_claim t) -> gate_id (dw_gate row) = None ->
    cluster <> "" -> ns <> "" -> name <> "" ->
    touches t db (with_watches db (<[th_rev t := set_watch row (armed_gate (dw_gate row) token (now db) step cluster ns name)
                                                   (dw_deadline_at row) (dw_abort_actioned_at row)]> (watches db)))
| touch_mark row :
    watches db !! th_rev t = Some row -> dw_claim_id row = Some (th_claim t) ->
    touches t db (with_watches db (<[th_rev t := set_watch row (set_decision (dw_gate row) (gate_decision (dw_gate row))
                                      (gate_decided_by (dw_gate row)) (Some (now db)))
                                    (dw_deadline_at row) (dw_abort_actioned_at row)]> (watches db)))
| touch_disarm row abort :
    watches db !! th_rev t = Some row -> dw_claim_id row = Some (th_claim t) ->
    touches t db (DeleteDeployGateVotes (th_rev t)
      (with_watches db (<[th_rev t := set_watch row no_gate (resumed_deadline (now db) row) abort]> (watches db))))
| touch_final row st reason :
    watches db !! th_rev t = Some row -> dw_claim_id row = Some (th_claim t) -> th_pc t = AtFinalize st reason ->
    touches t db (FinalizeDeployWatch (th_rev t) (th_claim t) st db).1.

Lemma fenced_cases rev claim guard f db db' ok :
  fenced rev claim guard f db = (db', ok) ->
  (ok = true /\ exists row, watches db !! rev = Some row /\ dw_claim_id row = Some claim /\ guard row = true /\
     db' = with_watches db (<[rev := f row]> (watches db))) \/
  (ok = false /\ db' = db).
Proof.
  unfold fenced. destruct (watches db !! rev) as [row|] eqn:Hr; [|intros [= <- <-]; by right].
  destruct (_ && _) eqn:Hc; intros [= <- <-]; [left|by right].
  apply andb_true_iff in Hc as [Hc%bool_decide_eq_true Hg]. eauto 10.
Qed.

Lemma fenced_neutral t guard f db :
  (forall row, neutral row (f row)) ->
  touches t db (fenced (th_rev t) (th_claim t) guard f db).1.
Proof.
  intros Hf. destruct (fenced _ _ _ _ _) as [db' ok] eqn:H.
  destruct (fenced_cases _ _ _ _ _ _ _ H) as [(_ & row & Hr & Hc & _ & ->)|[_ ->]]; [by eapply touch_neutral|constructor].
Qed.

Lemma disarm_touches t guard abort db db' ok :
  fenced (th_rev t) (th_claim t) guard (fun w => set_watch w no_gate (resumed_deadline (now db) w) (abort w)) db = (db', ok) ->
  touches t db (if ok then (DeleteDeployGateVotes (th_rev t) db', true) else (db, false)).1.
Proof.
  intros H. destruct (fenced_cases _ _ _ _ _ _ _ H) as [(-> & row & Hr & Hc & _ & ->)|[-> ->]]; simpl;
    [by eapply touch_disarm|constructor].
Qed.

(** A watcher that goes on has at most renewed its lease, and still holds it. *)
Lemma renew_then_spec t p db db' t' out :
  renew_then t p db = (db', t', out) ->
  touches t db db' /\ out = [] /\
  (t' = None \/ t' = Some (goto t p) /\
     exists row row', watches db !! th_rev t = Some row /\ dw_claim_id row = Some (th_claim t) /\ neutral row row' /\
       db' = with_watches db (<[th_rev t := row']> (watches db))).
Proof.
  unfold renew_then. destruct (RenewDeployWatch _ _ _) as [db1 ok] eqn:H. intros [= <- <- <-].
  unfold RenewDeployWatch in H. split.
  - pose proof (fenced_neutral t (fun _ => true) (fun w => set_anchors w (dw_sync_requested_at w) (dw_degraded_since w)
      (dw_claim_id w) (Some (now db))) db (fun _ => neutral_anchors _ _ _ _)) as Ht. by rewrite H in Ht.
  - split; [done|]. apply fenced_cases in H as [(-> & row & Hr & Hc & _ & ->)|[-> ->]]; [right|by left].
    split; [done|]. exists row. eexists. eauto using neutral_anchors.
Qed.

Lemma apply_verdict_touches t c state v a db db' t' out :
  apply_verdict t c state v a db = (db', t', out) -> touches t db db' /\ out = [].
Proof.
  unfold apply_verdict, finish. destruct (Effect v).
  - intros [= <- <- <-]. split; [constructor|done].
  - intros [= <- <- <-]. split; [apply fenced_neutral; intros; apply neutral_anchors|done].
  - intros [= <- <- <-]. split; [apply fenced_neutral; intros; apply neutral_anchors|done].
  - intros H%renew_then_spec. naive_solver.
  - intros H%renew_then_spec. naive_solver.
  - unfold ArmRolloutGate. destruct (_ || _) eqn:Hpin; [intros [= <- <- <-]; split; [constructor|done]|].
    apply orb_false_iff in Hpin as [Hpin%bool_decide_eq_false _]. destruct (fenced _ _ _ _ _) as [db1 ok] eqn:Hf.
    intros [= <- <- <-]. split; [|done].
    destruct (fenced_cases _ _ _ _ _ _ _ Hf) as [(_ & row & Hr & Hc & Hg%bool_decide_eq_true & ->)|[_ ->]]; [|constructor].
    apply (touch_arm t db row (ans_uuid a)); naive_solver.
  - intros H%renew_then_spec. naive_solver.
  - destruct c; intros H%renew_then_spec; naive_solver.
  - intros [= <- <- <-]. split; [|done]. unfold ClearRolloutGate. destruct (fenced _ _ _ _ _) as [db1 ok] eqn:Hf.
    by eapply disarm_touches.
Qed.

Lemma advance_touches window t a db db' t' out :
  advance window t a db = (db', t', out) -> touches t db db'.
Proof.
  unfold advance. destruct (th_pc t) eqn:Hpc.
  - by intros (? & _)%renew_then_spec.
  - intros [= <- <- <-]. constructor.
  - intros [= <- <- <-]. constructor.
  - by intros (? & _)%apply_verdict_touches.
  - intros [= <- <- <-]. constructor.
  - intros [= <- <- <-]. destruct cancelRequested.
    + unfold MarkRolloutAbortActioned. destruct (fenced _ _ _ _ _) as [db1 ok] eqn:Hf.
      by eapply (disarm_touches _ _ (fun _ => Some (now db))).
    + unfold MarkGateActioned. destruct (fenced _ _ _ _ _) as [db1 ok] eqn:Hf.
      destruct (fenced_cases _ _ _ _ _ _ _ Hf) as [(_ & row & Hr & Hc & _ & ->)|[_ ->]]; [|constructor].
      by eapply touch_mark.
  - intros [= <- <- <-]. destruct (watches db !! th_rev t) as [row|] eqn:Hr.
    + destruct (decide (dw_claim_id row = Some (th_claim t))) as [Hc|Hc]; [by eapply touch_final|].
      unfold FinalizeDeployWatch. rewrite Hr, decide_False by done. constructor.
    + unfold FinalizeDeployWatch. rewrite Hr. constructor.
Qed.

(** ** The invariant of the tables *)

Record gate_wf (g : GateState) : Prop := {
  wf_armed : gate_id g = None -> gate_armed_at g = None;
  wf_decided : gate_id g = None -> gate_decision g = GateUndecided;
}.

(** The job is in its attempt, run by the server and not by an agent. *)
Definition job_runs (r : Revision) (j : JobRow) : Prop :=
  job_status j = "running" /\ job_agent j = None /\ job_attempt j = rev_attempt r.
(** Each watch follows a revision in progress whose job is running, and no two
    watches follow the same job. *)
Record tables_ok (ws : gmap uuid DeployWatch) (rs : gmap uuid Revision) (js : gmap uuid JobRow) : Prop := {
  ok_row : forall rev row, ws !! rev = Some row -> gate_wf (dw_gate row) /\
    exists r j, rs !! rev = Some r /\ rev_status r = "in_progress" /\ js !! rev_job r = Some j /\ job_runs r j;
  ok_unique : forall rev1 rev2 row1 row2 r1 r2,
    ws !! rev1 = Some row1 -> ws !! rev2 = Some row2 -> rs !! rev1 = Some r1 -> rs !! rev2 = Some r2 ->
    rev_job r1 = rev_job r2 -> rev1 = rev2;
}.
Definition db_ok (db : DB) : Prop := tables_ok (watches db) (revisions db) (jobs db).

Lemma tables_ok_update ws rs js rev row row' :
  tables_ok ws rs js -> ws !! rev = Some row -> gate_wf (dw_gate row') -> tables_ok (<[rev := row']> ws) rs js.
Proof.
  intros [Hrow Huniq] Hr Hwf. split.
  - intros rev' r' [[-> ->]|[_ ?]]%lookup_insert_Some; [|eauto]. split; [done|]. by eapply Hrow.
  - assert (Hdom : forall rev' r', <[rev := row']> ws !! rev' = Some r' -> exists r0, ws !! rev' = Some r0).
    { intros rev' r' [[-> ->]|[_ ?]]%lookup_insert_Some; eauto. }
    intros rev1 rev2 row1 row2 r1 r2 [? H1]%Hdom [? H2]%Hdom. by eapply Huniq.
Qed.
(** The watch goes, and only its own revision and job change. *)
Lemma tables_ok_end ws rs js rs' js' rev r :
  tables_ok ws rs js -> rs !! rev = Some r -> (exists row, ws !! rev = Some row) ->
  (forall rev', rev' <> rev -> rs' !! rev' = rs !! rev') -> (forall job, job <> rev_job r -> js' !! job = js !! job) ->
  tables_ok (delete rev ws) rs' js'.
Proof.
  intros [Hrow Huniq] Hr [row Hw] Hrs Hjs. split.
  - intros rev' row' [Hne Hw']%lookup_delete_Some. destruct (Hrow _ _ Hw') as (Hwf & r' & j & Hr' & Hs & Hj & Hst).
    split; [done|]. exists r', j. rewrite Hrs by done. split_and!; [done..| |done]. rewrite Hjs; [done|].
    intros Heq. apply Hne. by eapply (Huniq rev rev').
  - intros rev1 rev2 row1 row2 r1 r2 [Hn1 H1]%lookup_delete_Some [Hn2 H2]%lookup_delete_Some.
    rewrite !Hrs by done. by eapply Huniq.
Qed.
(** The running jobs keep running. *)
Lemma tables_ok_jobs ws rs js js' :
  tables_ok ws rs js ->
  (forall r job j, js !! job = Some j -> job_runs r j -> exists j', js' !! job = Some j' /\ job_runs r j') ->
  tables_ok ws rs js'.
Proof.
  intros [Hrow Huniq] Hj. split; [|done]. intros rev row Hw.
  destruct (Hrow _ _ Hw) as (Hwf & r & j & Hr & Hs & Hjj & Hst). destruct (Hj r _ _ Hjj Hst) as (j' & ? & ?). eauto 10.
Qed.

Lemma FinalizeDeployWatch_tables rev claim st db row :
  watches db !! rev = Some row -> dw_claim_id row = Some claim ->
  let db' := (FinalizeDeployWatch rev claim st db).1 in
  watches db' = delete rev (watches db) /\ votes db' = votes db /\ used db' = used db /\ now db' = now db /\
  (forall rev', rev' <> rev -> revisions db' !! rev' = revisions db !! rev') /\
  (forall rev' r, revisions db !! rev' = Some r -> exists r', revisions db' !! rev' = Some r' /\ rev_job r' = rev_job r) /\
  (forall r, revisions db !! rev = Some r -> forall job, job <> rev_job r -> jobs db' !! job = jobs db !! job) /\
  (forall job j, jobs db !! job = Some j -> exists j', jobs db' !! job = Some j' /\ cancel_requested_at j' = cancel_requested_at j).
Proof.
  intros Hw Hc. unfold FinalizeDeployWatch. rewrite Hw, decide_True by done.
  destruct (revisions db !! rev) as [r|] eqn:Hr; simpl; [|by split_and!; eauto].
  case_decide as Hst; simpl; [by split_and!; eauto|].
  assert (Hfin : forall eff db0, revisions db0 = revisions db ->
    (forall rev', rev' <> rev -> revisions (finish_revision rev eff db0) !! rev' = revisions db !! rev') /\
    (forall rev' r, revisions db !! rev' = Some r ->
       exists r', revisions (finish_revision rev eff db0) !! rev' = Some r' /\ rev_job r' = rev_job r)).
  { intros eff db0 H0. unfold finish_revision. rewrite H0, Hr. case_decide; simpl; rewrite ?H0; [|eauto].
    split; [intros; by rewrite lookup_insert_ne|]. intros rev' r' Hr'. destruct (decide (rev' = rev)) as [->|].
    - rewrite lookup_insert_eq. simplify_eq. eauto.
    - rewrite lookup_insert_ne by done. eauto. }
  assert (Hrest : forall eff db0, watches (finish_revision rev eff db0) = watches db0 /\ votes (finish_revision rev eff db0) = votes db0 /\
     used (finish_revision rev eff db0) = used db0 /\ now (finish_revision rev eff db0) = now db0 /\
     jobs (finish_revision rev eff db0) = jobs db0).
  { intros eff db0. unfold finish_revision. destruct (revisions db0 !! rev); [|done]. by case_decide. }
  unfold CompleteJobRun. destruct (jobs db !! rev_job r) as [j|] eqn:Hj.
  - destruct (_ && _); simpl.
    + destruct (Hrest (match cancel_requested_at j with Some _ => "canceled" | None => st end)
        (with_jobs db (<[rev_job r := {| job_status := match cancel_requested_at j with Some _ => "canceled" | None => st end;
          job_agent := job_agent j; job_attempt := job_attempt j; cancel_requested_at := cancel_requested_at j |}]> (jobs db))))
        as (-> & -> & -> & -> & ->).
      split_and!; [done..| | | |]; [by apply Hfin|by apply Hfin| |].
      * intros r0 [= <-] job Hne. simpl. by rewrite lookup_insert_ne.
      * intros job j0 Hj0. simpl. destruct (decide (job = rev_job r)) as [->|].
        -- rewrite lookup_insert_eq. simplify_eq. eauto.
        -- rewrite lookup_insert_ne by done. eauto.
    + destruct (Hrest st db) as (-> & -> & -> & -> & ->). split_and!; [done..|by apply Hfin|by apply Hfin|done|eauto].
  - simpl. destruct (Hrest st db) as (-> & -> & -> & -> & ->). split_and!; [done..|by apply Hfin|by apply Hfin|done|eauto].
Qed.

(** A later state of the row a watcher took its snapshot of: only an absent decision
    may have been made. *)
Definition gate_kept (row row' : DeployWatch) : Prop :=
  dw_config row' = dw_config row /\ dw_abort_actioned_at row' = dw_abort_actioned_at row /\
  let g := dw_gate row in let g' := dw_gate row' in
  gate_id g' = gate_id g /\ gate_armed_at g' = gate_armed_at g /\ gate_paused_step g' = gate_paused_step g /\
  gate_rollout_cluster g' = gate_rollout_cluster g /\ gate_rollout_namespace g' = gate_rollout_namespace g /\
  gate_rollout_name g' = gate_rollout_name g /\ gate_actioned_at g' = gate_actioned_at g /\
  (gate_decision g = GateUndecided \/ gate_decision g' = gate_decision g).
Lemma gate_kept_neutral row row' : neutral row row' -> gate_kept row row'.
Proof. intros (Hc & Hg & _ & Ha & _). unfold gate_kept. rewrite Hc, Hg, Ha. auto 20. Qed.
Lemma gate_kept_refl row : gate_kept row row.
Proof. apply gate_kept_neutral, neutral_refl. Qed.
Lemma gate_kept_trans row1 row2 row3 : gate_kept row1 row2 -> gate_kept row2 row3 -> gate_kept row1 row3.
Proof.
  unfold gate_kept. intros (-> & -> & -> & -> & -> & -> & -> & -> & -> & Hd) (-> & -> & -> & -> & -> & -> & -> & -> & -> & Hd').
  split_and!; [done..|]. destruct Hd as [|Hd]; [by left|]. rewrite <- Hd. destruct Hd' as [Hd'|]; [left; congruence|by right].
Qed.

(** What a step leaves of the rows held under claims not in [own]. *)
Record frame (own : uuid -> Prop) (db db' : DB) : Prop := {
  fr_used : used db ⊆ used db';
  fr_claims : forall rev row c, watches db' !! rev = Some row -> dw_claim_id row = Some c ->
    (exists row0, watches db !! rev = Some row0 /\ dw_claim_id row0 = Some c) \/ c ∈ used db';
  fr_rows : forall rev row' c, watches db' !! rev = Some row' -> dw_claim_id row' = Some c -> c ∈ used db -> ~ own c ->
    exists row, watches db !! rev = Some row /\ dw_claim_id row = Some c /\ gate_kept row row';
  fr_cancel : forall rev row', watches db' !! rev = Some row' -> is_Some (watches db !! rev) ->
    is_Some (DeployWatchCancelRequestedAt db rev) -> is_Some (DeployWatchCancelRequestedAt db' rev);
}.

Lemma frame_refl own db : frame own db db.
Proof. split; eauto using gate_kept_refl. Qed.
Lemma frame_weaken (own own' : uuid -> Prop) db db' : (forall c, own c -> own' c) -> frame own db db' -> frame own' db db'.
Proof. intros Hw []. split; eauto. Qed.

(** One row is replaced, its claim kept. *)
Lemma frame_row own db db' rev row row' :
  watches db !! rev = Some row -> watches db' = <[rev := row']> (watches db) -> dw_claim_id row' = dw_claim_id row ->
  (forall c, dw_claim_id row = Some c -> own c \/ gate_kept row row') ->
  used db' = used db -> revisions db' = revisions db -> jobs db' = jobs db ->
  frame own db db'.
Proof.
  intros Hr Hw Hc Hk Hu Hrs Hjs. split.
  - by rewrite Hu.
  - intros rev' r' c. rewrite Hw. intros [[-> ->]|[Hn Hr']]%lookup_insert_Some Hc'; left; [|eauto].
    exists row. by rewrite <- Hc.
  - intros rev' r' c. rewrite Hw. intros [[-> ->]|[Hn Hr']]%lookup_insert_Some Hc' _ Hown; [|eauto using gate_kept_refl].
    exists row. split; [done|]. split; [by rewrite <- Hc|]. destruct (Hk c); [by rewrite <- Hc|done|done].
  - intros rev' r' _ _. unfold DeployWatchCancelRequestedAt. by rewrite Hrs, Hjs.
Qed.

Lemma DeleteDeployGateVotes_tables rev db :
  watches (DeleteDeployGateVotes rev db) = watches db /\ revisions (DeleteDeployGateVotes rev db) = revisions db /\
  jobs (DeleteDeployGateVotes rev db) = jobs db /\ used (DeleteDeployGateVotes rev db) = used db /\
  now (DeleteDeployGateVotes rev db) = now db.
Proof. unfold DeleteDeployGateVotes. by destruct (revisions db !! rev). Qed.

(** Rows disappear; revisions keep their job and jobs their cancel. *)
Lemma frame_delete own db db' rev :
  used db' = used db -> watches db' = delete rev (watches db) ->
  (forall rev' r, revisions db !! rev' = Some r -> exists r', revisions db' !! rev' = Some r' /\ rev_job r' = rev_job r) ->
  (forall job j, jobs db !! job = Some j -> exists j', jobs db' !! job = Some j' /\ cancel_requested_at j' = cancel_requested_at j) ->
  frame own db db'.
Proof.
  intros Hu Hw Hrs Hjs. split.
  - by rewrite Hu.
  - intros rev' r' c. rewrite Hw. intros [_ Hr]%lookup_delete_Some Hc. left. eauto.
  - intros rev' r' c. rewrite Hw. intros [_ Hr]%lookup_delete_Some Hc _ _. eauto using gate_kept_refl.
  - intros rev' r' _ _. unfold DeployWatchCancelRequestedAt.
    destruct (revisions db !! rev') as [r|] eqn:Hr; [|by intros []]. simpl.
    destruct (jobs db !! rev_job r) as [j|] eqn:Hj; [|by intros []]. simpl. destruct (Hrs _ _ Hr) as (r0 & -> & Hrj). simpl.
    rewrite Hrj. destruct (Hjs _ _ Hj) as (j' & -> & Hjj). simpl. by rewrite Hjj.
Qed.

Lemma gate_wf_armed g token t step cluster ns name : gate_wf (armed_gate g token t step cluster ns name).
Proof. by split. Qed.
Lemma gate_wf_none : gate_wf no_gate.
Proof. by split. Qed.

Lemma touches_ok t db db' :
  db_ok db -> touches t db db' -> db_ok db' /\ frame (fun c => c = th_claim t) db db'.
Proof.
  intros Hok []; unfold db_ok in *; simpl.
  - eauto using frame_refl.
  - destruct H1 as (Hc & Hg & Hd & Ha & Hcl). split.
    + eapply tables_ok_update; [done..|]. rewrite Hg. by apply (ok_row _ _ _ Hok _ _ H).
    + eapply frame_row; [exact H|done|done|intros c Hc'; left; congruence|done..].
  - split; [eapply tables_ok_update; [done..|apply gate_wf_armed]|].
    eapply frame_row; [exact H|done|done|intros c Hc; left; congruence|done..].
  - split.
    + eapply tables_ok_update; [done..|]. destruct (ok_row _ _ _ Hok _ _ H) as ([] & _). by split.
    + eapply frame_row; [exact H|done|done|intros c Hc; left; congruence|done..].
  - destruct (DeleteDeployGateVotes_tables (th_rev t) (with_watches db (<[th_rev t := set_watch row no_gate (resumed_deadline (now db) row) abort]> (watches db))))
      as (Hw & Hrs & Hjs & Hu & _). rewrite Hw, Hrs, Hjs. simpl in *.
    split; [eapply tables_ok_update; [done..|apply gate_wf_none]|].
    eapply frame_row; [exact H|done|done|intros c Hc; left; congruence|done..].
  - destruct (FinalizeDeployWatch_tables (th_rev t) (th_claim t) st db row H H0) as (Hw & _ & Hu & _ & Hrs & Hrj & Hjs & Hjc).
    destruct (ok_row _ _ _ Hok _ _ H) as (_ & r & j & Hr & _). split.
    + rewrite Hw. eapply tables_ok_end; eauto.
    + eapply frame_delete; eauto.
Qed.

(** *** The steps other than a watcher's *)

Lemma frame_tables own db db' :
  used db' = used db -> watches db' = watches db ->
  (forall rev, is_Some (watches db !! rev) -> is_Some (DeployWatchCancelRequestedAt db rev) ->
     is_Some (DeployWatchCancelRequestedAt db' rev)) -> frame own db db'.
Proof.
  intros Hu Hw Hc. split; rewrite ?Hu, ?Hw; eauto using gate_kept_refl.
Qed.
(** The cancel of a watched deploy is kept when its job is, or keeps its cancel. *)
Lemma cancel_kept db db' rev :
  revisions db' = revisions db ->
  (forall r j, revisions db !! rev = Some r -> jobs db !! rev_job r = Some j -> is_Some (cancel_requested_at j) ->
     exists j', jobs db' !! rev_job r = Some j' /\ is_Some (cancel_requested_at j')) ->
  is_Some (DeployWatchCancelRequestedAt db rev) -> is_Some (DeployWatchCancelRequestedAt db' rev).
Proof.
  intros Hr Hj. unfold DeployWatchCancelRequestedAt. rewrite Hr.
  destruct (revisions db !! rev) as [r|]; [|by intros []]. simpl.
  destruct (jobs db !! rev_job r) as [j|] eqn:Hjj; [|by intros []]. simpl. intros Hc.
  destruct (Hj r j eq_refl Hjj Hc) as (j' & -> & ?). done.
Qed.

Lemma claim_ok lease rev token db dw db' :
  db_ok db -> token ∉ used db -> ClaimDeployWatch lease rev token db = Some (dw, db') ->
  db_ok db' /\ frame (fun _ => False) db db' /\ token ∈ used db' /\
  watches db' !! rev = Some dw /\ dw_claim_id dw = Some token.
Proof.
  intros Hok Ht H. unfold ClaimDeployWatch in H. destruct (watches db !! rev) as [row|] eqn:Hr; [|done].
  destruct (claimable _ _ _ _); [|done]. simplify_eq. unfold db_ok in *. simpl.
  split; [|split; [|split_and!; [set_solver|by rewrite lookup_insert_eq|done]]].
  - eapply tables_ok_update; [done..|]. by apply (ok_row _ _ _ Hok _ _ Hr).
  - split; simpl; [set_solver| | |done].
    + intros rev' r' c [[-> <-]|[_ ?]]%lookup_insert_Some Hc; [|left; eauto]. simpl in Hc. simplify_eq. right. set_solver.
    + intros rev' r' c [[-> <-]|[_ ?]]%lookup_insert_Some Hc Hu _; [|eauto using gate_kept_refl]. simpl in Hc. by simplify_eq.
Qed.

Lemma DecideRolloutGate_tx_Ok db i external db' res :
  DecideRolloutGate_tx db i external = Ok (db', res) ->
  exists w r armed required, watches db !! In_RevisionID i = Some w /\ revisions db !! In_RevisionID i = Some r /\
    gate_decision (dw_gate w) = GateUndecided /\ default Nil (gate_id (dw_gate w)) = In_GateID i /\
    gate_armed_at (dw_gate w) = Some armed /\ dw_gate_required (dw_config w) = Some required /\
    authorizeApprover (members db) (decider i) (dw_gate_approvers (dw_config w))
      (dw_gate_approver_groups (dw_config w)) external = Ok tt /\
    votes db !! (rev_job r, In_UserID i) = None /\
    let vs := <[(rev_job r, In_UserID i) := {| Vote_Label := In_User i; Vote_Decision := approve_name (In_Approve i);
                                               Vote_Comment := In_Comment i |}]> (votes db) in
    ((In_Approve i = true /\ (count_approved vs (rev_job r) < Z.max 1 required)%Z /\ db' = with_votes db vs /\ Decided res = false) \/
     ((In_Approve i = true -> (Z.max 1 required <= count_approved vs (rev_job r))%Z) /\ Decided res = true /\
      db' = with_watches (with_votes db vs)
        (<[In_RevisionID i := set_watch w (set_decision (dw_gate w) (if In_Approve i then GateApproved else GateRejected)
             (In_User i) (gate_actioned_at (dw_gate w))) (dw_deadline_at w + (now db - armed))%Z (dw_abort_actioned_at w)]> (watches db)))).
Proof.
  unfold DecideRolloutGate_tx. destruct (watches db !! In_RevisionID i) as [w|]; [|done]. simpl.
  case_bool_decide as Hproj; [done|]. case_bool_decide as Hg; [done|]. apply Decidable.not_or in Hg as [Hid Hdec].
  apply dec_stable in Hid, Hdec.
  destruct (gate_armed_at (dw_gate w)) as [armed|] eqn:Ha; [|done].
  destruct (dw_gate_required (dw_config w)) as [required|] eqn:Hq; [|done].
  destruct (revisions db !! In_RevisionID i) as [r|] eqn:Hr; [|done]. rewrite bind_Ok. intros ([] & Hauth & H).
  case_decide as Hv; [done|]. apply eq_None_not_Some in Hv. unfold insert_vote in H. rewrite Hv in H.
  exists w, r, armed, required. do 8 (split; [done|]). simpl. destruct (In_Approve i); simpl in *.
  - destruct (Z.ltb_spec (count_approved (<[(rev_job r, In_UserID i) := {| Vote_Label := In_User i; Vote_Decision := "approved";
      Vote_Comment := In_Comment i |}]> (votes db)) (rev_job r)) (Z.max 1 required)); simplify_eq; [by left|right; done].
  - simplify_eq. by right.
Qed.

Lemma vote_step_ok db i external db' res :
  db_ok db -> DecideRolloutGate_tx db i external = Ok (db', res) -> db_ok db' /\ frame (fun _ => False) db db'.
Proof.
  intros Hok H. destruct (DecideRolloutGate_tx_Ok _ _ _ _ _ H) as (w & r & armed & q & Hw & Hr & Hd & Hid & Ha & _ & _ & _ & Hcase).
  destruct Hcase as [(_ & _ & -> & _)|(_ & _ & ->)]; unfold db_ok in *; simpl in *.
  - split; [done|]. by apply frame_tables.
  - split.
    + eapply tables_ok_update; [done..|]. destruct (ok_row _ _ _ Hok _ _ Hw) as ([Hwa _] & _). split; simpl; [done|].
      intros Hn. rewrite Hwa in Ha by done. done.
    + eapply (frame_row _ _ _ _ w); [done|done|done| |done..]. intros c _. right. unfold gate_kept. simpl. split_and!; try done. by left.
Qed.

Lemma StartNativeDeploy_ok rev job c deadline db db' :
  db_ok db -> revisions db !! rev = None -> StartNativeDeploy rev job c deadline db = Some db' ->
  db_ok db' /\ frame (fun _ => False) db db' /\ votes db' = votes db /\
  (forall rev' r, watches db !! rev' = Some r -> forall r', revisions db !! rev' = Some r' -> rev_job r' <> job).
Proof.
  intros Hok Hrev H. unfold StartNativeDeploy in H. destruct (jobs db !! job) as [j|] eqn:Hj; [|done].
  destruct (_ && _) eqn:Hq; [|done]. apply andb_true_iff in Hq as [Hq%bool_decide_eq_true Hag%bool_decide_eq_true]. simplify_eq.
  assert (Hother : forall rev' row, watches db !! rev' = Some row -> rev' <> rev /\ forall r', revisions db !! rev' = Some r' -> rev_job r' <> job).
  { intros rev' row Hw. destruct (ok_row _ _ _ Hok _ _ Hw) as (_ & r & j' & Hr & _ & Hj' & Hst). split; [congruence|].
    intros r' Hr' Heq. destruct Hst as (Hst & _). simplify_eq. congruence. }
  unfold db_ok in *. simpl. split; [|split; [|split; [done|]]].
  - split.
    + intros rev' row [[-> <-]|[Hn Hw]]%lookup_insert_Some.
      * split; [apply gate_wf_none|]. do 2 eexists. rewrite lookup_insert_eq. split; [done|]. simpl. by rewrite lookup_insert_eq; unfold job_runs.
      * destruct (ok_row _ _ _ Hok _ _ Hw) as (Hwf & r & j' & Hr & Hs & Hj' & Hst). split; [done|]. exists r, j'.
        rewrite lookup_insert_ne by done. split_and!; [done..| |done]. rewrite lookup_insert_ne; [done|].
        intros Heq. by apply (proj2 (Hother _ _ Hw) r).
    + intros rev1 rev2 row1 row2 r1 r2 [[-> _]|[Hn1 H1]]%lookup_insert_Some [[-> _]|[Hn2 H2]]%lookup_insert_Some; [done|..].
      * rewrite lookup_insert_eq, lookup_insert_ne by done. intros [= <-] Hr2 Heq. simpl in Heq.
        by destruct (proj2 (Hother _ _ H2) _ Hr2).
      * rewrite lookup_insert_eq, lookup_insert_ne by done. intros Hr1 [= <-] Heq. simpl in Heq.
        by destruct (proj2 (Hother _ _ H1) _ Hr1).
      * rewrite !lookup_insert_ne by done. intros. by eapply (ok_unique _ _ _ Hok rev1 rev2).
  - split; simpl; [done| | |].
    + intros rev' row' c0 [[-> <-]|[_ ?]]%lookup_insert_Some Hc; [done|]. left. eauto.
    + intros rev' row' c0 [[-> <-]|[_ ?]]%lookup_insert_Some Hc _ _; [done|]. eauto using gate_kept_refl.
    + intros rev' row' _ [row Hw]. destruct (Hother _ _ Hw) as [Hn Hnj]. unfold DeployWatchCancelRequestedAt. simpl.
      rewrite lookup_insert_ne by done. destruct (revisions db !! rev') as [r|]; [|by intros []]. simpl.
      rewrite lookup_insert_ne; [done|]. intros Heq. by apply (Hnj r).
  - intros rev' row Hw. apply (proj2 (Hother _ _ Hw)).
Qed.

Lemma job_change_ok db job j j' :
  db_ok db -> jobs db !! job = Some j ->
  (job_status j = "running" -> job_status j' = "running" /\ job_agent j' = job_agent j /\ job_attempt j' = job_attempt j /\ (is_Some (cancel_requested_at j) -> is_Some (cancel_requested_at j'))) ->
  let db' := with_jobs db (<[job := j']> (jobs db)) in db_ok db' /\ frame (fun _ => False) db db'.
Proof.
  intros Hok Hj Hk. simpl. split.
  - eapply tables_ok_jobs; [exact Hok|]. intros r0 job0 j0 Hj0 Hs. simpl. destruct (decide (job0 = job)) as [->|].
    + rewrite lookup_insert_eq. simplify_eq. exists j'. split; [done|]. destruct Hs as (Hs & ? & ?).
      destruct (Hk Hs) as (? & ? & ? & _). split_and!; congruence.
    + rewrite lookup_insert_ne by done. eauto.
  - apply frame_tables; [done..|]. intros rev [row Hw]. apply cancel_kept; [done|]. intros r j0 Hr Hj0 Hc. simpl.
    destruct (ok_row _ _ _ Hok _ _ Hw) as (_ & r' & j1 & Hr' & _ & Hj1 & Hst). simplify_eq.
    destruct (decide (rev_job r = job)) as [<-|].
    + rewrite lookup_insert_eq. assert (j0 = j) as -> by congruence. destruct Hst as (Hst & _). destruct (Hk Hst) as (_ & _ & _ & Hc'). eauto.
    + rewrite lookup_insert_ne by done. eauto.
Qed.

Lemma end_elsewhere_ok db rev st :
  db_ok db -> is_Some (watches db !! rev) ->
  let db' := end_elsewhere rev st db in db_ok db' /\ frame (fun _ => False) db db' /\
  watches db' = delete rev (watches db) /\ votes db' = votes db /\
  (forall rev' r, revisions db !! rev' = Some r -> exists r', revisions db' !! rev' = Some r' /\ rev_job r' = rev_job r).
Proof.
  intros Hok [row Hw]. destruct (ok_row _ _ _ Hok _ _ Hw) as (_ & r & j & Hr & Hs & Hj & _).
  unfold end_elsewhere, finish_revision. rewrite Hr, Hj. simpl. rewrite Hr, decide_True by done. unfold db_ok. simpl.
  assert (Hrs : forall rev' r0, revisions db !! rev' = Some r0 ->
    exists r', <[rev := {| rev_status := st; rev_job := rev_job r; rev_attempt := rev_attempt r |}]> (revisions db) !! rev' = Some r' /\ rev_job r' = rev_job r0).
  { intros rev' r0 Hr0. destruct (decide (rev' = rev)) as [->|].
    - rewrite lookup_insert_eq. simplify_eq. eauto.
    - rewrite lookup_insert_ne by done. eauto. }
  split; [|split; [|done]].
  - eapply tables_ok_end; [exact Hok|exact Hr|eauto|..]; intros; by rewrite lookup_insert_ne.
  - apply (frame_delete _ _ _ rev); simpl; [done..|]. intros job j0 Hj0. destruct (decide (job = rev_job r)) as [->|].
    + rewrite lookup_insert_eq. simplify_eq. eauto.
    + rewrite lookup_insert_ne by done. eauto.
Qed.

Lemma sync_ok db rev :
  db_ok db -> db_ok (StampDeployWatchSyncRequested rev db) /\ frame (fun _ => False) db (StampDeployWatchSyncRequested rev db).
Proof.
  intros Hok. unfold StampDeployWatchSyncRequested. destruct (watches db !! rev) as [row|] eqn:Hw; [|eauto using frame_refl].
  destruct (dw_sync_requested_at row); [eauto using frame_refl|]. unfold db_ok in *. simpl. split.
  - eapply tables_ok_update; [done..|]. by apply (ok_row _ _ _ Hok _ _ Hw).
  - eapply (frame_row _ _ _ _ row); [done|done|done| |done..]. intros c _. right. apply gate_kept_neutral, neutral_anchors.
Qed.

(** *** The votes of a round *)

Definition allowed (row : DeployWatch) (who : ApproverIdentity) : Prop :=
  exists members external,
    authorizeApprover members who (dw_gate_approvers (dw_config row)) (dw_gate_approver_groups (dw_config row)) external = Ok tt.

Record round_ok (vs : VoteTable) (job : uuid) (row : DeployWatch) : Prop := {
  rd_votes : forall u v, vs !! (job, u) = Some v -> exists who, Who_UserID who = u /\ u <> Nil /\ allowed row who;
  rd_approved : gate_decision (dw_gate row) = GateApproved ->
    exists q, dw_gate_required (dw_config row) = Some q /\ (Z.max 1 q <= count_approved vs job)%Z;
  rd_rejected : gate_decision (dw_gate row) = GateRejected ->
    exists who, allowed row who /\ Who_UserID who <> Nil /\ Who_Label who = gate_decided_by (dw_gate row);
}.
Definition votes_ok (db : DB) : Prop :=
  forall rev row r, watches db !! rev = Some row -> revisions db !! rev = Some r -> round_ok (votes db) (rev_job r) row.

Lemma round_ok_config vs job row row' :
  dw_config row' = dw_config row -> gate_decision (dw_gate row') = gate_decision (dw_gate row) ->
  gate_decided_by (dw_gate row') = gate_decided_by (dw_gate row) -> round_ok vs job row -> round_ok vs job row'.
Proof.
  intros Hc Hd Hb [Hv Ha Hr]. unfold allowed in *. split; unfold allowed; rewrite ?Hc, ?Hd, ?Hb; done.
Qed.
Lemma round_ok_votes vs vs' job row :
  (forall u, vs' !! (job, u) = vs !! (job, u)) -> round_ok vs job row -> round_ok vs' job row.
Proof.
  intros He [Hv Ha Hr]. split; [|rewrite (count_approved_ext vs' vs job) by done; done|done]. intros u v. rewrite He. apply Hv.
Qed.
Lemma round_ok_empty vs job row :
  (forall u, vs !! (job, u) = None) -> gate_decision (dw_gate row) = GateUndecided -> round_ok vs job row.
Proof. intros Hn Hd. split; [intros u v; by rewrite Hn|by rewrite Hd..]. Qed.

(** One row changes, with the votes of its own job only. *)
Lemma votes_ok_row db db' rev row row' r :
  db_ok db -> votes_ok db -> watches db !! rev = Some row -> revisions db !! rev = Some r ->
  watches db' = <[rev := row']> (watches db) -> revisions db' = revisions db ->
  (forall job u, job <> rev_job r -> votes db' !! (job, u) = votes db !! (job, u)) ->
  round_ok (votes db') (rev_job r) row' -> votes_ok db'.
Proof.
  intros Hok Hv Hw Hr Hw' Hr' Hvs Hround rev0 row0 r0. rewrite Hw', Hr'.
  intros [[-> <-]|[Hn H0]]%lookup_insert_Some Hr0; [by simplify_eq|].
  eapply round_ok_votes; [|by apply (Hv rev0)]. intros u. apply Hvs. intros Heq. apply Hn.
  by eapply (ok_unique _ _ _ Hok rev rev0).
Qed.

Lemma delete_votes_lookup vs job job' u :
  delete_votes vs job !! (job', u) = if decide (job' = job) then None else vs !! (job', u).
Proof.
  unfold delete_votes. case_decide as Hj.
  - apply map_lookup_filter_None. right. intros v _. simpl. by intros [].
  - destruct (vs !! (job', u)) as [v|] eqn:Hv; [by apply map_lookup_filter_Some|].
    apply map_lookup_filter_None. by left.
Qed.

Lemma touches_votes t db db' : db_ok db -> votes_ok db -> touches t db db' -> votes_ok db'.
Proof.
  intros Hok Hv []; [done|..];
    (destruct (ok_row _ _ _ Hok _ _ H) as (_ & r & j & Hr & _); pose proof (Hv _ _ _ H Hr) as Hround).
  - destruct H1 as (Hc & Hg & _). eapply votes_ok_row; [done..|]. eapply round_ok_config; [done|by rewrite Hg..|done].
  - eapply votes_ok_row; [done..|]. by eapply round_ok_config, Hround.
  - eapply votes_ok_row; [done..|]. by eapply round_ok_config, Hround.
  - unfold DeleteDeployGateVotes. simpl. rewrite Hr. eapply votes_ok_row; [exact Hok|exact Hv|exact H|exact Hr|done|done|..]; simpl.
    + intros job u Hn. by rewrite delete_votes_lookup, decide_False.
    + apply round_ok_empty; [|done]. intros u. by rewrite delete_votes_lookup, decide_True.
  - destruct (FinalizeDeployWatch_tables (th_rev t) (th_claim t) st db row H H0) as (Hw & Hvs & _ & _ & Hrs & _ & _ & _).
    intros rev row' r' Hrow Hr'. rewrite Hw in Hrow. apply lookup_delete_Some in Hrow as [Hn Hrow].
    rewrite Hrs in Hr' by done. rewrite Hvs. by apply (Hv rev).
Qed.

Lemma vote_step_votes db i external db' res :
  db_ok db -> votes_ok db -> In_UserID i <> Nil -> DecideRolloutGate_tx db i external = Ok (db', res) -> votes_ok db'.
Proof.
  intros Hok Hv Hu H.
  destruct (DecideRolloutGate_tx_Ok _ _ _ _ _ H) as (w & r & armed & q & Hw & Hr & Hd & _ & _ & Hq & Hauth & Hnone & Hcase).
  pose proof (Hv _ _ _ Hw Hr) as [Hvotes _ _]. simpl in Hcase. set (vs := <[_:=_]> _) in *.
  assert (Hwho : allowed w (decider i)) by (by do 2 eexists).
  assert (Hvs : forall job u, job <> rev_job r -> vs !! (job, u) = votes db !! (job, u)).
  { intros job u Hn. apply lookup_insert_ne. congruence. }
  assert (Hvotes' : forall u v, vs !! (rev_job r, u) = Some v -> exists who, Who_UserID who = u /\ u <> Nil /\ allowed w who).
  { intros u v [[Heq _]|[_ ?]]%lookup_insert_Some; [|eauto]. injection Heq as <-. by exists (decider i). }
  destruct Hcase as [(_ & _ & -> & _)|(Hge & _ & ->)].
  - eapply (votes_ok_row db _ _ w w); [done..| | |done|]; [by rewrite insert_id|done|].
    split; [done|by rewrite Hd..].
  - eapply votes_ok_row; [exact Hok|exact Hv|exact Hw|exact Hr|done|done|done|]. split; simpl.
    + done.
    + destruct (In_Approve i); [|done]. intros _. exists q. split; [done|by apply Hge].
    + intros _. by exists (decider i).
Qed.

(** ** Orders *)

(** What entitles a watcher to give an order, in the tables at its last renewal. *)
Definition quorum_met (db : DB) (job : uuid) (row : DeployWatch) : Prop :=
  exists q users, dw_gate_required (dw_config row) = Some q /\ NoDup users /\ (Z.max 1 q <= Z.of_nat (length users))%Z /\
    Forall (fun u => exists v who, votes db !! (job, u) = Some v /\ Vote_Decision v = "approved" /\
                       Who_UserID who = u /\ u <> Nil /\ allowed row who) users.
Definition rejected_by_human (row : DeployWatch) : Prop :=
  exists who, allowed row who /\ Who_UserID who <> Nil /\ Who_Label who = gate_decided_by (dw_gate row).
Definition complete (t : DeploymentTarget) : Prop :=
  Target_RolloutCluster t <> "" /\ Target_RolloutNamespace t <> "" /\ Target_RolloutName t <> "".

Definition entitled (fresh : bool) (db : DB) (e : Issued) : Prop :=
  exists row r, watches db !! is_rev e = Some row /\ revisions db !! is_rev e = Some r /\
    rev_status r = "in_progress" /\ complete (is_target e) /\
    match is_effect e with
    | Promote => is_target e = pinnedTargetOf row /\ gate_decision (dw_gate row) = GateApproved /\
                 (fresh = true -> quorum_met db (rev_job r) row)
    | Abort => (gate_decision (dw_gate row) = GateRejected /\ is_target e = pinnedTargetOf row /\
                (fresh = true -> rejected_by_human row)) \/
               (is_Some (DeployWatchCancelRequestedAt db (is_rev e)) /\
                (pinned (dw_gate row) = true -> is_target e = pinnedTargetOf row))
    | _ => False
    end.

Lemma pinned_complete dw : pinned (dw_gate dw) = true -> complete (pinnedTargetOf dw).
Proof.
  unfold pinned, complete. intros H. apply andb_true_iff in H as [H H3%bool_decide_eq_true].
  by apply andb_true_iff in H as [H1%bool_decide_eq_true H2%bool_decide_eq_true].
Qed.
Lemma pinnedTargetOf_kept row row' : gate_kept row row' -> pinnedTargetOf row' = pinnedTargetOf row.
Proof. unfold gate_kept, pinnedTargetOf, targetOf. simpl. by intros (-> & _ & _ & _ & _ & -> & -> & -> & _). Qed.
Lemma pinned_kept row row' : gate_kept row row' -> pinned (dw_gate row') = pinned (dw_gate row).
Proof. unfold gate_kept, pinned. simpl. by intros (_ & _ & _ & _ & _ & -> & -> & -> & _). Qed.
Lemma decision_kept row row' :
  gate_kept row row' -> gate_decision (dw_gate row) <> GateUndecided -> gate_decision (dw_gate row') = gate_decision (dw_gate row).
Proof. intros (_ & _ & _ & _ & _ & _ & _ & _ & _ & [|]); done. Qed.

Lemma quorum_met_approved db job row :
  round_ok (votes db) job row -> gate_decision (dw_gate row) = GateApproved -> quorum_met db job row.
Proof.
  intros [Hv Ha _] Hd. destruct (Ha Hd) as (q & Hq & Hc). exists q, (voters (votes db) job).
  split; [done|]. split; [apply voters_NoDup|]. split; [by rewrite voters_length|].
  apply Forall_forall. intros u (v & Hl & Hdec)%voters_spec. destruct (Hv _ _ Hl) as (who & ? & ? & ?). eauto 10.
Qed.

Section Threads.
Context (fresh : bool) (window : Duration).

(** What a watcher between two calls may rely on, about the row it still holds. *)
Definition thread_match (db : DB) (t : Thread) : Prop :=
  forall row, watches db !! th_rev t = Some row -> dw_claim_id row = Some (th_claim t) -> gate_kept (th_watch t) row.
Definition cancel_fact (db : DB) (t : Thread) (c : bool) : Prop :=
  (c = false -> dw_abort_actioned_at (th_watch t) = None) /\
  (c = true -> is_Some (dw_abort_actioned_at (th_watch t)) \/
    (forall row, watches db !! th_rev t = Some row -> dw_claim_id row = Some (th_claim t) ->
       is_Some (DeployWatchCancelRequestedAt db (th_rev t)))).
Definition pc_ok (seen : Issued -> Prop) (db : DB) (t : Thread) : Prop :=
  match th_pc t with
  | AtRenew | AtCancelRead | AtMark _ => True
  | AtObserve c => cancel_fact db t c
  | AtEffect c s v => cancel_fact db t c /\ exists t0, v = Decide s (anchorsOf (th_watch t) c) t0 window
  | AtActuate e target c => seen {| is_rev := th_rev t; is_effect := e; is_target := target |}
  | AtFinalize st _ => st = "failed" \/
      st = "success" /\ exists c s t0, (c = false -> dw_abort_actioned_at (th_watch t) = None) /\
        Effect (Decide s (anchorsOf (th_watch t) c) t0 window) = FinalizeSuccess
  end.

Record thread_ok (seen : Issued -> Prop) (db : DB) (t : Thread) : Prop := {
  th_used : th_claim t ∈ used db;
  th_match : thread_match db t;
  th_pc_ok : pc_ok seen db t;
}.

Lemma thread_ok_frame (own : uuid -> Prop) (seen seen' : Issued -> Prop) db db' t :
  frame own db db' -> ~ own (th_claim t) -> (forall e, seen e -> seen' e) -> thread_ok seen db t -> thread_ok seen' db' t.
Proof.
  intros [Hu _ Hr Hc] Hown Hseen [Hused Hm Hpc]. split; [set_solver| |].
  - intros row' Hw' Hcl'. destruct (Hr _ _ _ Hw' Hcl' Hused Hown) as (row & Hw & Hcl & Hk).
    eapply gate_kept_trans; [by apply Hm|done].
  - assert (Hcf : forall c, cancel_fact db t c -> cancel_fact db' t c).
    { intros c [Hff Hf]. split; [done|]. intros Hct. destruct (Hf Hct) as [|Hf']; [by left|right]. intros row' Hw' Hcl'.
      destruct (Hr _ _ _ Hw' Hcl' Hused Hown) as (row & Hw & Hcl & _). eapply Hc; eauto. }
    unfold pc_ok in *. destruct (th_pc t); naive_solver.
Qed.

(** The order a watcher is about to give, once its lease is renewed. *)
Lemma verdict_entitled db t c s t0 row e target cancel :
  db_ok db -> (fresh = true -> votes_ok db) -> thread_match db t -> cancel_fact db t c ->
  watches db !! th_rev t = Some row -> dw_claim_id row = Some (th_claim t) ->
  Effect (Decide s (anchorsOf (th_watch t) c) t0 window) = e ->
  (e = Promote /\ target = pinnedTargetOf (th_watch t) /\ cancel = false) \/
  (e = Abort /\ target = (if c then cancelAbortTarget (th_watch t) s else pinnedTargetOf (th_watch t)) /\ cancel = c) ->
  entitled fresh db {| is_rev := th_rev t; is_effect := e; is_target := target |}.
Proof.
  intros Hok Hv Hm Hcf Hw Hcl Heff Hcase. pose proof (Hm _ Hw Hcl) as Hk.
  destruct (ok_row _ _ _ Hok _ _ Hw) as (_ & r & j & Hr & Hst & _). exists row, r. simpl.
  assert (Hround : fresh = true -> round_ok (votes db) (rev_job r) row) by (intros Hf; by eapply Hv).
  do 3 (split; [done|]). destruct Hcase as [(-> & -> & _)|(-> & -> & _)].
  - apply Decide_promote_iff in Heff as (_ & _ & Hd & _ & Hp & _). simpl in *.
    split; [by apply pinned_complete|]. split; [symmetry; by apply pinnedTargetOf_kept|].
    assert (Hda : gate_decision (dw_gate row) = GateApproved) by (rewrite (decision_kept _ _ Hk); rewrite Hd; done).
    split; [done|]. intros Hf. by apply quorum_met_approved; [apply Hround|].
  - apply Decide_abort in Heff as [(Hc & Hab & Hkn)|(Hc & Hd & Hga)]; simpl in *; subst c.
    + unfold cancelAbortTarget. split.
      { destruct (pinned (dw_gate (th_watch t))) eqn:Hp; [by apply pinned_complete|].
        unfold hasKnownAbortTarget in Hkn. simpl in Hkn. rewrite Hp in Hkn. simpl in Hkn.
        apply andb_true_iff in Hkn as [Hkn H3%bool_decide_eq_true]. apply andb_true_iff in Hkn as [Hkn H2%bool_decide_eq_true].
        by apply andb_true_iff in Hkn as [_ H1%bool_decide_eq_true]. }
      right. split.
      * destruct (proj2 Hcf eq_refl) as [Hs|Hs]; [rewrite Hab in Hs; by destruct Hs|by eapply Hs].
      * rewrite (pinned_kept _ _ Hk). intros ->. symmetry. by apply pinnedTargetOf_kept.
    + apply andb_true_iff in Hga as [_ Hp]. simpl in Hp. split; [by apply pinned_complete|]. left.
      assert (Hdr : gate_decision (dw_gate row) = GateRejected) by (rewrite (decision_kept _ _ Hk); rewrite Hd; done).
      split; [done|]. split; [symmetry; by apply pinnedTargetOf_kept|]. intros Hf. by apply (rd_rejected _ _ _ (Hround Hf)).
Qed.

(** A watcher that goes on still relies on true facts; what it orders it was entitled to. *)
Lemma advance_thread (seen : Issued -> Prop) db t a db' t' out :
  db_ok db -> (fresh = true -> votes_ok db) -> thread_ok seen db t -> advance window t a db = (db', t', out) ->
  (forall t2, t' = Some t2 -> th_claim t2 = th_claim t /\ frame (fun _ => False) db db' /\
     thread_ok (fun e => seen e \/ entitled fresh db e) db' t2) /\
  (forall e, e ∈ out -> seen e).
Proof.
  intros Hok Hv Ht H.
  assert (Hgo : forall db0 p, frame (fun _ => False) db db0 ->
     pc_ok (fun e => seen e \/ entitled fresh db e) db0 (goto t p) ->
     th_claim (goto t p) = th_claim t /\ frame (fun _ => False) db db0 /\
     thread_ok (fun e => seen e \/ entitled fresh db e) db0 (goto t p)).
  { intros db0 p Hfr Hp. split; [done|]. split; [done|].
    destruct (thread_ok_frame _ seen (fun e => seen e \/ entitled fresh db e) _ _ _ Hfr (fun H => H) (fun _ H => or_introl H) Ht). by split. }
  assert (Hrenew : forall p, renew_then t p db = (db', t', out) ->
     (forall row, watches db !! th_rev t = Some row -> dw_claim_id row = Some (th_claim t) -> forall db0, frame (fun _ => False) db db0 ->
        pc_ok (fun e => seen e \/ entitled fresh db e) db0 (goto t p)) ->
     (forall t2, t' = Some t2 -> th_claim t2 = th_claim t /\ frame (fun _ => False) db db' /\
        thread_ok (fun e => seen e \/ entitled fresh db e) db' t2) /\ (forall e, e ∈ out -> seen e)).
  { intros p (_ & -> & [->|(-> & row & row' & Hw & Hcl & Hn & ->)])%renew_then_spec Hp;
      (split; [|by intros e He%not_elem_of_nil]); [done|]. intros t2 [= <-].
    assert (Hfr : frame (fun _ => False) db (with_watches db (<[th_rev t := row']> (watches db)))).
    { eapply (frame_row _ _ _ _ row); [done|done|apply Hn| |done..]. intros; right. by apply gate_kept_neutral. }
    apply Hgo; [done|]. by eapply Hp. }
  destruct Ht as [Hused Hm Hpc]. unfold advance in H. destruct (th_pc t) eqn:Epc; unfold pc_ok in Hpc; rewrite Epc in Hpc.
  - by eapply Hrenew.
  - simplify_eq. split; [|by intros e He%not_elem_of_nil]. intros t2 [= <-]. apply Hgo; [apply frame_refl|].
    unfold pc_ok. simpl. split.
    + intros Hc%orb_false_iff. destruct Hc as [Hc%bool_decide_eq_false _]. by destruct (dw_abort_actioned_at _); [destruct Hc|].
    + intros Hc%orb_true_iff. destruct Hc as [Hc%bool_decide_eq_true|Hc]; [by left|right].
      by apply andb_true_iff in Hc as [_ Hc%bool_decide_eq_true].
  - simplify_eq. split; [|by intros e He%not_elem_of_nil]. intros t2 [= <-]. apply Hgo; [apply frame_refl|].
    unfold pc_ok. simpl. split; [done|eauto].
  - destruct Hpc as [Hcf [t0 ->]]. unfold apply_verdict in H. destruct (Effect _) eqn:Heff;
      try (unfold finish in H; simplify_eq; split; [done|by intros e He%not_elem_of_nil]).
    + eapply Hrenew; [exact H|]. intros row Hw Hcl db0 Hfr. unfold pc_ok. simpl. right. split; [done|].
      exists cancelRequested, state, t0. split; [apply Hcf|done].
    + eapply Hrenew; [exact H|]. intros; by left.
    + destruct (ArmRolloutGate _ _ _ _ _ _ _ _); unfold finish in H; simplify_eq;
        (split; [done|by intros e' He%not_elem_of_nil]).
    + eapply Hrenew; [exact H|]. intros row Hw Hcl db0 Hfr. right. eapply (verdict_entitled db t cancelRequested state t0 row Promote _ false); eauto.
    + destruct cancelRequested; (eapply Hrenew; [exact H|]; intros row Hw Hcl db0 Hfr; right).
      * eapply (verdict_entitled db t true state t0 row Abort _ true); eauto.
      * eapply (verdict_entitled db t false state t0 row Abort _ false); eauto.
  - simplify_eq. split; [|by intros e ->%list_elem_of_singleton]. intros t2 Ht2. destruct (ans_accepted a); [|done].
    simplify_eq. apply Hgo; [apply frame_refl|done].
  - unfold finish in H. simplify_eq. split; [done|by intros e He%not_elem_of_nil].
  - unfold finish in H. simplify_eq. split; [done|by intros e He%not_elem_of_nil].
Qed.
End Threads.

(** ** The invariant of the system *)

Section Reach.
Context (votes_fresh : bool) (lease window : Duration).
Notation step := (step votes_fresh lease window).
Notation reachable := (reachable votes_fresh lease window).

(** The order was due at an earlier moment of this execution. *)
Definition seen (w : World) (e : Issued) : Prop :=
  exists w1, reachable w1 /\ rtc step w1 w /\ entitled votes_fresh (wdb w1) e.

Record invariant (w : World) : Prop := {
  iv_db : db_ok (wdb w);
  iv_votes : votes_fresh = true -> votes_ok (wdb w);
  iv_claims : forall rev row c, watches (wdb w) !! rev = Some row -> dw_claim_id row = Some c -> c ∈ used (wdb w);
  iv_threads : forall k t, threads w !! k = Some t -> thread_ok window (seen w) (wdb w) t;
  iv_unique : forall k1 k2 t1 t2, threads w !! k1 = Some t1 -> threads w !! k2 = Some t2 ->
    th_claim t1 = th_claim t2 -> k1 = k2;
  iv_orders : forall e, e ∈ orders w -> seen w e;
}.

Lemma seen_step w w' e : step w w' -> seen w e -> seen w' e.
Proof. intros Hs (w1 & Hr & Hw & He). exists w1. split; [done|]. split; [by eapply rtc_r|done]. Qed.
Lemma seen_now w w' e : reachable w -> step w w' -> entitled votes_fresh (wdb w) e -> seen w' e.
Proof. intros Hr Hs He. exists w. split; [done|]. split; [by apply rtc_once|done]. Qed.

Lemma claims_frame own db db' :
  (forall rev row c, watches db !! rev = Some row -> dw_claim_id row = Some c -> c ∈ used db) -> frame own db db' ->
  forall rev row c, watches db' !! rev = Some row -> dw_claim_id row = Some c -> c ∈ used db'.
Proof.
  intros Hc [Hu Hcl _ _] rev row c Hw Hr. destruct (Hcl _ _ _ Hw Hr) as [(row0 & H0 & H1)|]; [|done].
  apply Hu. by eapply Hc.
Qed.

(** A step of the tables alone. *)
Lemma watcher_invariant_tables w db' :
  invariant w -> step w (with_wdb w db') -> db_ok db' /\ frame (fun _ => False) (wdb w) db' ->
  (votes_fresh = true -> votes_ok (wdb w) -> votes_ok db') -> invariant (with_wdb w db').
Proof.
  intros [Hdb Hv Hc Ht Hu Ho] Hs [Hdb' Hfr] Hv'. split; simpl; [done|by auto| |..].
  - by eapply claims_frame.
  - intros k t Hk. eapply (thread_ok_frame window _ (seen w)); [exact Hfr|tauto| |by eapply Ht]. intros e. by apply seen_step.
  - done.
  - intros e He. by eapply seen_step, Ho.
Qed.

Lemma votes_ok_ext db db' :
  votes db' = votes db -> watches db' = watches db -> revisions db' = revisions db -> votes_ok db -> votes_ok db'.
Proof. intros Hv Hw Hr Ho rev row r. rewrite Hv, Hw, Hr. apply Ho. Qed.
(** Rows that are the same up to lease and anchors. *)
Lemma votes_ok_neutral db db' rev row row' :
  votes db' = votes db -> revisions db' = revisions db -> watches db !! rev = Some row -> neutral row row' ->
  watches db' = <[rev := row']> (watches db) -> votes_ok db -> votes_ok db'.
Proof.
  intros Hv Hr Hw (Hc & Hg & _) Hw' Ho rev0 row0 r0. rewrite Hv, Hr, Hw'.
  intros [[-> <-]|[_ H0]]%lookup_insert_Some Hr0; [|by eapply Ho].
  eapply round_ok_config; [done|by rewrite Hg..|by eapply Ho].
Qed.
Lemma votes_ok_delete db db' rev :
  votes db' = votes db -> watches db' = delete rev (watches db) ->
  (forall rev' r, revisions db !! rev' = Some r -> exists r', revisions db' !! rev' = Some r' /\ rev_job r' = rev_job r) ->
  db_ok db -> votes_ok db -> votes_ok db'.
Proof.
  intros Hv Hw Hr Hok Ho rev0 row0 r0. rewrite Hv, Hw. intros [_ H0]%lookup_delete_Some Hr0.
  destruct (ok_row _ _ _ Hok _ _ H0) as (_ & r1 & j & Hr1 & _). destruct (Hr _ _ Hr1) as (r' & Hr' & Hj). simplify_eq.
  rewrite Hj. by eapply Ho.
Qed.

Lemma invariant_claim w k rev token dw db' :
  reachable w -> invariant w -> threads w !! k = None -> token ∉ used (wdb w) ->
  ClaimDeployWatch lease rev token (wdb w) = Some (dw, db') ->
  invariant {| wdb := db'; orders := orders w;
     threads := <[k := {| th_rev := rev; th_claim := token; th_watch := dw; th_pc := AtRenew |}]> (threads w) |}.
Proof.
  intros Hreach [Hdb Hv Hc Ht Hu Ho] Hk Htok Hcl. destruct (claim_ok _ _ _ _ _ _ Hdb Htok Hcl) as (Hdb' & Hfr & Htok' & Hw & Hd).
  assert (Hs : step w {| wdb := db'; orders := orders w;
     threads := <[k := {| th_rev := rev; th_claim := token; th_watch := dw; th_pc := AtRenew |}]> (threads w) |}) by (by eapply step_claim).
  assert (Hold : forall k' t, threads w !! k' = Some t -> th_claim t <> token).
  { intros k' t Hk' <-. by destruct (Ht _ _ Hk') as [Hused _ _]. }
  split; simpl; [done| | | | |].
  - intros Hf. unfold ClaimDeployWatch in Hcl. destruct (watches (wdb w) !! rev) as [row|] eqn:Hr; [|done].
    destruct (claimable _ _ _ _); [|done]. simplify_eq. intros rev0 row0 r0. simpl.
    intros [[-> <-]|[_ H0]]%lookup_insert_Some Hr0; [|by eapply Hv]. eapply round_ok_config; [..|by eapply (Hv Hf)]; done.
  - by eapply claims_frame.
  - intros k' t [[-> <-]|[Hn Hk']]%lookup_insert_Some.
    + split; simpl; [done| |done]. intros row Hrow _. simpl in Hrow. rewrite Hw in Hrow. simplify_eq. apply gate_kept_refl.
    + eapply (thread_ok_frame window _ (seen w)); [exact Hfr|tauto| |by eapply Ht]. intros e. by apply seen_step.
  - intros k1 k2 t1 t2 [[-> <-]|[Hn1 H1]]%lookup_insert_Some [[-> <-]|[Hn2 H2]]%lookup_insert_Some; simpl; [done|..|eauto].
    + intros Heq. by destruct (Hold _ _ H2).
    + intros Heq. by destruct (Hold _ _ H1).
  - intros e He. by eapply seen_step, Ho.
Qed.

Lemma invariant_watcher w k t a db' t' out :
  reachable w -> invariant w -> threads w !! k = Some t -> advance window t a (wdb w) = (db', t', out) ->
  invariant {| wdb := db'; threads := next_threads k t' (threads w); orders := orders w ++ out |}.
Proof.
  intros Hreach [Hdb Hv Hc Ht Hu Ho] Hk Ha.
  assert (Hs : step w {| wdb := db'; threads := next_threads k t' (threads w); orders := orders w ++ out |})
    by (by eapply step_watcher).
  pose proof (advance_touches _ _ _ _ _ _ _ Ha) as Htouch. destruct (touches_ok _ _ _ Hdb Htouch) as [Hdb' Hfr].
  destruct (advance_thread votes_fresh window _ _ _ _ _ _ _ Hdb Hv (Ht _ _ Hk) Ha) as [Hgo Hout].
  assert (Hnext : forall k' t2, next_threads k t' (threads w) !! k' = Some t2 ->
    (k' = k /\ t' = Some t2) \/ (k' <> k /\ threads w !! k' = Some t2)).
  { intros k' t2. unfold next_threads. destruct t' as [t1|]; [rewrite lookup_insert_Some|rewrite lookup_delete_Some]; naive_solver. }
  split; simpl; [done| | | | |].
  - intros Hf. by eapply touches_votes; [exact Hdb|apply Hv|].
  - by eapply claims_frame.
  - intros k' t2 [[-> ->]|[Hn Hk']]%Hnext.
    + destruct (Hgo _ eq_refl) as (_ & _ & [Hused Hm Hpc]). split; [done|done|]. unfold pc_ok in *.
      destruct (th_pc t2); try done. destruct Hpc as [Hpc|Hpc]; [by eapply seen_step|by eapply seen_now].
    + eapply (thread_ok_frame window (fun c => c = th_claim t) (seen w)); [exact Hfr| | |by eapply Ht].
      * simpl. intros Heq. apply Hn. by eapply Hu.
      * intros e. by apply seen_step.
  - intros k1 k2 t1 t2 [[-> E1]|[Hn1 H1]]%Hnext [[-> E2]|[Hn2 H2]]%Hnext Heq; [done|..|by eapply Hu].
    + destruct (Hgo _ E1) as (Hcl & _). eapply Hu; [done|done|congruence].
    + destruct (Hgo _ E2) as (Hcl & _). eapply Hu; [done|done|congruence].
  - intros e [He|He]%elem_of_app; [by eapply seen_step, Ho|]. eapply seen_step; [done|]. by apply Hout.
Qed.

Lemma watcher_step_invariant w w' : reachable w -> step w w' -> invariant w -> invariant w'.
Proof.
  intros Hreach Hstep Hw. pose proof (iv_db w Hw) as Hdb. pose proof Hstep as Hs. destruct Hstep.
  - eapply watcher_invariant_tables; [done|done| |]; simpl.
    + split; [done|]. by apply frame_tables.
    + intros _. by apply votes_ok_ext.
  - by eapply invariant_claim.
  - by eapply invariant_watcher.
  - destruct Hw as [_ Hv Hc Ht Hu Ho]. split; simpl; [done|done|done| | |].
    + intros k' t [_ Hk]%lookup_delete_Some.
      eapply (thread_ok_frame window (fun _ => False) (seen w)); [apply frame_refl|tauto| |by eapply Ht].
      intros e. by apply seen_step.
    + intros k1 k2 t1 t2 [_ H1]%lookup_delete_Some [_ H2]%lookup_delete_Some. by eapply Hu.
    + intros e He. by eapply seen_step, Ho.
  - eapply watcher_invariant_tables; [done|done|by eapply vote_step_ok|]. intros _ Hv. eapply vote_step_votes; [exact Hdb|exact Hv| |done].
    unfold DecideRolloutGate_input in H. repeat case_decide; done.
  - destruct (StartNativeDeploy_ok _ _ _ _ _ _ Hdb H H1) as (Hdb' & Hfr & Hvs & Hother).
    eapply watcher_invariant_tables; [done|done|done|]. intros Hf Hv. unfold StartNativeDeploy in H1.
    destruct (jobs (wdb w) !! job) as [j|]; [|done]. destruct (_ && _); [|done]. simplify_eq.
    intros rev0 row0 r0. simpl. intros [[-> <-]|[Hn H2]]%lookup_insert_Some; [rewrite lookup_insert_eq|rewrite lookup_insert_ne by done].
    + intros [= <-]. apply round_ok_empty; [|done]. intros u. simpl. by apply H0.
    + intros Hr0. by eapply Hv.
  - destruct (sync_ok (wdb w) rev Hdb) as [Hdb' Hfr]. eapply watcher_invariant_tables; [done|done|done|]. intros _.
    unfold StampDeployWatchSyncRequested. destruct (watches (wdb w) !! rev) as [row|] eqn:Hr; [|done].
    destruct (dw_sync_requested_at row); [done|]. by eapply votes_ok_neutral; [..|exact Hr|apply neutral_anchors|].
  - eapply watcher_invariant_tables; [done|done| |].
    + unfold StampCancelRequested. destruct (jobs (wdb w) !! job) as [j|] eqn:Hj; [|eauto using frame_refl].
      case_decide; [|eauto using frame_refl]. eapply job_change_ok; [done|exact Hj|]. simpl. eauto.
    + intros _. unfold StampCancelRequested. destruct (jobs (wdb w) !! job); [|done]. case_decide; [|done]. by apply votes_ok_ext.
  - destruct (end_elsewhere_ok (wdb w) rev st Hdb H0) as (Hdb' & Hfr & Hws & Hvs & Hrs).
    eapply watcher_invariant_tables; [done|done|done|]. intros _. by eapply votes_ok_delete.
  - unfold RerunJob in H. destruct (jobs (wdb w) !! job) as [j|] eqn:Hj; [|done]. case_bool_decide as Hst; [done|]. simplify_eq.
    eapply watcher_invariant_tables; [done|done| |].
    + eapply job_change_ok; [done|exact Hj|]. intros Hrun. destruct Hst. by right.
    + intros _. by apply votes_ok_ext.
  - eapply watcher_invariant_tables; [done|done| |].
    + unfold db_ok. simpl. split.
      * eapply tables_ok_jobs; [exact Hdb|]. intros r job0 j0 Hj0 Hruns. exists j0. split; [|done].
        rewrite lookup_insert_ne; [done|congruence].
      * apply frame_tables; [done..|]. intros rev _. apply cancel_kept; [done|]. intros r j0 _ Hj0 Hc. simpl.
        rewrite lookup_insert_ne by congruence. eauto.
    + intros _. by apply votes_ok_ext.
  - eapply watcher_invariant_tables; [done|done| |]; simpl.
    + split; [done|]. by apply frame_tables.
    + intros _. by apply votes_ok_ext.
Qed.

Lemma watcher_reachable_invariant w : reachable w -> invariant w.
Proof.
  intros (w0 & Hi & Hs). assert (H : reachable w /\ invariant w); [|apply H].
  revert w Hs. apply rtc_ind_r.
  - split; [exists w0; split; [done|apply rtc_refl]|]. destruct Hi as (Hw & Hr & Hj & Hv & Ht & Ho).
    split.
    + unfold db_ok. rewrite Hw. split; [intros rev row; by rewrite lookup_empty|].
      intros rev1 rev2 row1 row2 r1 r2. by rewrite lookup_empty.
    + intros _ rev row r. by rewrite Hw, lookup_empty.
    + intros rev row c. by rewrite Hw, lookup_empty.
    + intros k t. by rewrite Ht, lookup_empty.
    + intros k1 k2 t1 t2. by rewrite Ht, lookup_empty.
    + intros e. rewrite Ho. by intros ?%not_elem_of_nil.
  - intros w1 w2 _ Hs [Hr Hinv]. split; [|by eapply watcher_step_invariant].
    destruct Hr as (w0' & Hi' & Hs'). exists w0'. split; [done|]. by eapply rtc_r.
Qed.
End Reach.

(** ** Properties *)

(** The cluster is only given orders a human stands behind: each order was due,
    when its watcher last renewed its lease, for a deploy in progress and at a
    complete Rollout identity.  A promotion acts on the identity pinned when the
    gate was armed, after the quorum of distinct authorised humans approved; an abort
    follows a rejection by an authorised human, on the pinned identity, or the cancel
    of the deploy's job. *)
Theorem orders_entitled lease window w e :
  reachable true lease window w -> e ∈ orders w ->
  exists w1, reachable true lease window w1 /\ rtc (step true lease window) w1 w /\ entitled true (wdb w1) e.
Proof. intros Hw He. by apply (iv_orders _ _ _ _ (watcher_reachable_invariant _ _ _ _ Hw)). Qed.

Lemma FinalizeDeployWatch_status db rev claim st row r j rev' r' :
  watches db !! rev = Some row -> dw_claim_id row = Some claim -> revisions db !! rev = Some r ->
  rev_status r = "in_progress" -> jobs db !! rev_job r = Some j -> job_runs r j ->
  revisions (FinalizeDeployWatch rev claim st db).1 !! rev' = Some r' -> rev_status r' = "success" ->
  (exists r0, revisions db !! rev' = Some r0 /\ rev_status r0 = "success") \/
  (rev' = rev /\ st = "success" /\ cancel_requested_at j = None).
Proof.
  intros Hw Hc Hr Hst Hj (Hrun & Hag & Hat). unfold FinalizeDeployWatch, CompleteJobRun, finish_revision.
  rewrite Hw, decide_True, Hr by done. rewrite decide_False by (by intros []). rewrite Hj, Hrun, Hag, Hat.
  rewrite !bool_decide_true by auto. simpl. rewrite Hr, decide_True by done. simpl.
  intros [[-> <-]|[Hn Hr']]%lookup_insert_Some Hs; [|left; eauto]. right. simpl in Hs.
  by destruct (cancel_requested_at j).
Qed.

Lemma touches_revisions t db db' :
  touches t db db' -> revisions db' = revisions db \/
  exists row st reason, watches db !! th_rev t = Some row /\ dw_claim_id row = Some (th_claim t) /\
    th_pc t = AtFinalize st reason /\ db' = (FinalizeDeployWatch (th_rev t) (th_claim t) st db).1.
Proof.
  intros []; try by left.
  - left. by destruct (DeleteDeployGateVotes_tables (th_rev t) (with_watches db (<[th_rev t := set_watch row no_gate (resumed_deadline (now db) row) abort]> (watches db)))) as (_ & -> & _).
  - right. eauto 10.
Qed.

(** A deploy recorded as a success was one: at that step a watcher held its lease,
    its job was not asked to cancel and no abort had been ordered for a cancel, and the watcher had read the
    application as synced and healthy on the expected revision with, when a rollout
    was read, every step of it promoted. *)
Theorem deploy_success_sound fresh lease window w w' rev r r' :
  reachable fresh lease window w -> step fresh lease window w w' ->
  revisions (wdb w) !! rev = Some r -> rev_status r <> "success" ->
  revisions (wdb w') !! rev = Some r' -> rev_status r' = "success" ->
  exists k t row state, threads w !! k = Some t /\ th_rev t = rev /\ watches (wdb w) !! rev = Some row /\
    dw_claim_id row = Some (th_claim t) /\ DeployWatchCancelRequestedAt (wdb w) rev = None /\
    dw_abort_actioned_at row = None /\
    Sync state = SyncSynced /\ Health state = HealthHealthy /\
    (dw_expected_revision (dw_config row) <> "" -> ObservedRev state = dw_expected_revision (dw_config row)) /\
    (dw_rollout_aware (dw_config row) = true -> Aborted (Rollout state) && RolloutObserved state = false /\
       (RolloutObserved state = true -> FullyPromoted (Rollout state) = true)).
Proof.
  intros Hw%watcher_reachable_invariant Hs Hr Hns Hr' Hst. destruct Hs; simpl in *; try congruence.
  - unfold ClaimDeployWatch in H1. destruct (watches (wdb w) !! rev0); [|done]. destruct (claimable _ _ _ _); [|done].
    simplify_eq. simpl in Hr'. congruence.
  - pose proof (advance_touches _ _ _ _ _ _ _ H0) as Ht.
    destruct (touches_revisions _ _ _ Ht) as [Heq|(row & st & reason & Hrow & Hcl & Hpc & ->)]; [congruence|].
    destruct (ok_row _ _ _ (iv_db _ _ _ _ Hw) _ _ Hrow) as (_ & r0 & j & Hr0 & Hip & Hj & Hruns).
    destruct (FinalizeDeployWatch_status _ _ _ _ _ _ _ _ _ Hrow Hcl Hr0 Hip Hj Hruns Hr' Hst) as [(r1 & Hr1 & Hs1)|(-> & -> & Hcan)];
      [congruence|].
    destruct (iv_threads _ _ _ _ Hw _ _ H) as [_ Hm Hp]. unfold pc_ok in Hp. rewrite Hpc in Hp.
    destruct Hp as [|(_ & c & s & t0 & Hab & Heff)]; [done|]. destruct (Hm _ Hrow Hcl) as (Hc & Habk & _).
    apply Decide_success_facts in Heff as (Hcr & _ & _ & _ & Hsy & Hhe & Hrev & Hro). simpl in *.
    exists k, t, row, s. rewrite Hc. split_and!; try done.
    + unfold DeployWatchCancelRequestedAt. rewrite Hr0. simpl. by rewrite Hj.
    + rewrite Habk. by apply Hab.
    + intros Haw. destruct (Hro Haw) as (Hna & Hfp & _). split; [|done]. unfold rolloutObservedAborted in Hna. by rewrite andb_comm.
  - destruct (DecideRolloutGate_tx_Ok _ _ _ _ _ H0) as (? & ? & ? & ? & _ & _ & _ & _ & _ & _ & _ & _ & [(_ & _ & -> & _)|(_ & _ & ->)]);
      simpl in *; congruence.
  - unfold StartNativeDeploy in H1. destruct (jobs (wdb w) !! job); [|done]. destruct (_ && _); [|done]. simplify_eq. simpl in Hr'.
    apply lookup_insert_Some in Hr' as [[-> <-]|[_ ?]]; [done|congruence].
  - unfold StampDeployWatchSyncRequested in Hr'. destruct (watches (wdb w) !! rev0) as [row|]; [|congruence].
    destruct (dw_sync_requested_at row); simpl in *; congruence.
  - unfold StampCancelRequested in Hr'. destruct (jobs (wdb w) !! job); [|congruence]. case_decide; simpl in *; congruence.
  - unfold end_elsewhere, finish_revision in Hr'. destruct (revisions (wdb w) !! rev0) as [r0|] eqn:Hr0; [|congruence].
    destruct (jobs (wdb w) !! rev_job r0); simpl in Hr'; [|congruence]. rewrite Hr0 in Hr'.
    case_decide; simpl in Hr'; [|congruence].
    apply lookup_insert_Some in Hr' as [[-> <-]|[_ ?]]; [|congruence]. simpl in Hst. destruct H; congruence.
  - unfold RerunJob in H. destruct (jobs (wdb w) !! job); [|done]. case_bool_decide; [done|]. simplify_eq. simpl in Hr'. congruence.
Qed.

(** *** The clock of a deploy *)

(** A human is being waited for. *)
Definition waiting (row : DeployWatch) : bool :=
  bool_decide (is_Some (gate_armed_at (dw_gate row))) && bool_decide (gate_decision (dw_gate row) = GateUndecided).
(** The time a deploy has left: its clock stands still at the arming while it waits. *)
Definition time_left (t : Time) (row : DeployWatch) : Duration :=
  match gate_armed_at (dw_gate row) with
  | Some armed => if waiting row then dw_deadline_at row - armed else dw_deadline_at row - t
  | None => dw_deadline_at row - t
  end%Z.

Lemma time_left_neutral t row row' : neutral row row' -> time_left t row' = time_left t row.
Proof. intros (_ & Hg & Hd & _). unfold time_left, waiting. by rewrite Hg, Hd. Qed.
Lemma time_left_disarm t row abort : time_left t (set_watch row no_gate (resumed_deadline t row) abort) = time_left t row.
Proof.
  unfold time_left, resumed_deadline, waiting. simpl. destruct (gate_armed_at (dw_gate row)) as [armed|]; [|done].
  simpl. destruct (gate_decision (dw_gate row)); simpl; lia.
Qed.
Lemma touches_time_left t db db' rev row row' :
  db_ok db -> touches t db db' -> watches db !! rev = Some row -> watches db' !! rev = Some row' ->
  now db' = now db /\ time_left (now db) row' = time_left (now db) row.
Proof.
  intros Hok Ht Hr Hr'.
  assert (Hins : forall row0 row1, watches db !! th_rev t = Some row0 -> <[th_rev t := row1]> (watches db) !! rev = Some row' ->
     time_left (now db) row1 = time_left (now db) row0 -> time_left (now db) row' = time_left (now db) row).
  { intros row0 row1 H0 [[<- <-]|[_ H1]]%lookup_insert_Some Heq; congruence. }
  destruct Ht as [|row0 row1 H0 _ Hn|row0 tok st c n m H0 _ Hg _ _ _|row0 H0 _|row0 abort H0 _|row0 st rs H0 Hc _]; simpl in *.
  - split; [done|congruence].
  - split; [done|]. by eapply Hins, time_left_neutral.
  - split; [done|]. eapply Hins; [done|done|]. destruct (ok_row _ _ _ Hok _ _ H0) as ([Ha Hd] & _).
    unfold time_left, waiting. simpl. by rewrite Ha, Hd by done.
  - split; [done|]. by eapply Hins.
  - destruct (DeleteDeployGateVotes_tables (th_rev t) (with_watches db (<[th_rev t := set_watch row0 no_gate (resumed_deadline (now db) row0) abort]> (watches db))))
      as (Hw & _ & _ & _ & Hnow). rewrite Hw in Hr'. split; [done|]. eapply Hins; [done|exact Hr'|apply time_left_disarm].
  - destruct (FinalizeDeployWatch_tables (th_rev t) (th_claim t) st db row0 H0 Hc) as (Hw & _ & _ & Hnow & _).
    rewrite Hw in Hr'. apply lookup_delete_Some in Hr' as [_ Hr']. split; [done|congruence].
Qed.

(** The clock of a deploy runs exactly while no human is waited for: in any step
    the time it has left drops by the time that passes, and by nothing while its gate
    waits for a decision; arming, deciding, clearing and aborting, in whatever order,
    neither give nor take time. *)
Theorem deadline_accounting fresh lease window w w' rev row row' :
  reachable fresh lease window w -> step fresh lease window w w' ->
  watches (wdb w) !! rev = Some row -> watches (wdb w') !! rev = Some row' ->
  time_left (now (wdb w')) row' =
    (time_left (now (wdb w)) row - if waiting row then 0 else now (wdb w') - now (wdb w))%Z.
Proof.
  intros Hw%watcher_reachable_invariant Hs Hr Hr'. pose proof (iv_db _ _ _ _ Hw) as Hdb.
  assert (Hsame : now (wdb w') = now (wdb w) /\ time_left (now (wdb w)) row' = time_left (now (wdb w)) row ->
    time_left (now (wdb w')) row' = (time_left (now (wdb w)) row - if waiting row then 0 else now (wdb w') - now (wdb w))%Z).
  { intros [-> ->]. destruct (waiting row); lia. }
  destruct Hs; simpl in *.
  - simplify_eq. unfold time_left. destruct (gate_armed_at (dw_gate row)) as [a|] eqn:Ha.
    + destruct (waiting row); lia.
    + unfold waiting. rewrite Ha. simpl. lia.
  - apply Hsame. unfold ClaimDeployWatch in H1. destruct (watches (wdb w) !! rev0) as [r0|] eqn:H2; [|done].
    destruct (claimable _ _ _ _); [|done]. simplify_eq. simpl in *. split; [done|].
    apply lookup_insert_Some in Hr' as [[-> <-]|[_ ?]]; simplify_eq; [by unfold time_left, waiting|done].
  - apply Hsame. eapply touches_time_left; [exact Hdb|by eapply advance_touches|exact Hr|exact Hr'].
  - apply Hsame. simplify_eq. done.
  - apply Hsame. destruct (DecideRolloutGate_tx_Ok _ _ _ _ _ H0) as (r0 & r & armed & q & H1 & _ & Hd & _ & Ha & _ & _ & _ & [(_ & _ & -> & _)|(_ & _ & ->)]);
      simpl in *; [by simplify_eq|]. split; [done|].
    apply lookup_insert_Some in Hr' as [[<- <-]|[_ ?]]; simplify_eq; [|done].
    unfold time_left, waiting. simpl. rewrite Ha, Hd. simpl. destruct (In_Approve i); simpl; lia.
  - apply Hsame. unfold StartNativeDeploy in H1. destruct (jobs (wdb w) !! job); [|done]. destruct (_ && _); [|done]. simplify_eq.
    simpl in *. split; [done|]. apply lookup_insert_Some in Hr' as [[-> <-]|[_ ?]]; [|congruence].
    destruct (ok_row _ _ _ Hdb _ _ Hr) as (_ & r0 & j0 & Hr0 & _). congruence.
  - apply Hsame. unfold StampDeployWatchSyncRequested in *. destruct (watches (wdb w) !! rev0) as [r0|] eqn:H0; [|split; congruence].
    destruct (dw_sync_requested_at r0); [split; congruence|]. simpl in *. split; [done|].
    apply lookup_insert_Some in Hr' as [[-> <-]|[_ ?]]; simplify_eq; [by apply time_left_neutral|done].
  - apply Hsame. unfold StampCancelRequested in *. destruct (jobs (wdb w) !! job); [|split; congruence].
    case_decide; simpl in *; split; congruence.
  - apply Hsame. destruct (end_elsewhere_ok (wdb w) rev0 st Hdb H0) as (_ & _ & Hws & _). rewrite Hws in Hr'.
    apply lookup_delete_Some in Hr' as [_ Hr']. split; [|congruence]. unfold end_elsewhere, finish_revision.
    destruct (revisions (wdb w) !! rev0); [|done]. destruct (jobs _ !! _); [|done]. simpl. destruct (revisions (wdb w) !! rev0); [|done]. by case_decide.
  - apply Hsame. unfold RerunJob in H. destruct (jobs (wdb w) !! job); [|done]. case_bool_decide; [done|]. simplify_eq. simpl in *. split; congruence.
  - apply Hsame. split; congruence.
  - apply Hsame. split; congruence.
Qed.

(** ** Executions *)

Section Script.
Context (votes_fresh : bool) (lease window : Duration).

Inductive event :=
| ETime (dt : Duration)
| EQueue (job : uuid)
| EStart (rev job : uuid) (c : WatchConfig) (deadline : Time)
| EClaim (k : nat) (rev token : uuid)
| EAdvance (k : nat) (a : Answer)
| EVote (i : RolloutGateDecisionInput)
| ERerun (job : uuid).

Definition no_votes (vs : VoteTable) (job : uuid) : bool := bool_decide (map_Forall (fun k _ => k.1 <> job) vs).
Definition run_event (e : event) (w : World) : option World :=
  match e with
  | ETime dt => if (0 <=? dt)%Z then
      Some (with_wdb w {| now := (now (wdb w) + dt)%Z; used := used (wdb w); watches := watches (wdb w);
                          revisions := revisions (wdb w); jobs := jobs (wdb w); votes := votes (wdb w);
                          members := members (wdb w) |}) else None
  | EQueue job => match jobs (wdb w) !! job with
      | None => Some (with_wdb w (with_jobs (wdb w) (<[job := {| job_status := "queued"; job_agent := None; job_attempt := 0;
                                                       cancel_requested_at := None |}]> (jobs (wdb w)))))
      | Some _ => None end
  | EStart rev job c deadline =>
      match revisions (wdb w) !! rev with
      | None => if implb votes_fresh (no_votes (votes (wdb w)) job)
                then with_wdb w <$> StartNativeDeploy rev job c deadline (wdb w) else None
      | Some _ => None end
  | EClaim k rev token =>
      match threads w !! k with
      | None => if bool_decide (token ∉ used (wdb w)) then
          '(dw, db') ← ClaimDeployWatch lease rev token (wdb w);
          Some {| wdb := db'; orders := orders w;
                  threads := <[k := {| th_rev := rev; th_claim := token; th_watch := dw; th_pc := AtRenew |}]> (threads w) |}
          else None
      | Some _ => None end
  | EAdvance k a =>
      t ← threads w !! k;
      let '(db', t', out) := advance window t a (wdb w) in
      Some {| wdb := db'; threads := next_threads k t' (threads w); orders := orders w ++ out |}
  | EVote i =>
      match DecideRolloutGate None (wdb w) i with Ok (db', _) => Some (with_wdb w db') | Err _ => None end
  | ERerun job => with_wdb w <$> RerunJob job (wdb w)
  end.

Lemma run_event_step e w w' : run_event e w = Some w' -> step votes_fresh lease window w w'.
Proof.
  destruct e; simpl.
  - destruct (Z.leb_spec 0 dt); [|done]. intros [= <-]. by constructor.
  - destruct (jobs (wdb w) !! job) eqn:Hj; [done|]. intros [= <-]. by constructor.
  - destruct (revisions (wdb w) !! rev) eqn:Hr; [done|]. destruct (implb _ _) eqn:Hi; [|done].
    rewrite fmap_Some. intros (db' & Hs & ->). eapply step_start; [done| |done]. intros -> u. simpl in Hi.
    apply bool_decide_eq_true in Hi. apply eq_None_not_Some. intros [v Hv]. by apply (Hi _ _ Hv).
  - destruct (threads w !! k) eqn:Hk; [done|]. case_bool_decide; [|done].
    rewrite bind_Some. intros ([dw db'] & Hc & [= <-]). by econstructor.
  - rewrite bind_Some. intros (t & Ht & H). destruct (advance _ _ _ _) as [[db' t'] out] eqn:Ha. simplify_eq. by econstructor.
  - unfold DecideRolloutGate. destruct (DecideRolloutGate_input i) as [[]|] eqn:Hi; [|done]. simpl.
    destruct (DecideRolloutGate_tx (wdb w) i []) as [[db' res]|] eqn:Hd; [|done]. intros [= <-]. by eapply step_vote.
  - rewrite fmap_Some. intros (db' & Hs & ->). by eapply step_rerun.
Qed.

Fixpoint run (es : list event) (w : World) : option World :=
  match es with [] => Some w | e :: es => w' ← run_event e w; run es w' end.
(** The state a script leads to ([w] itself when it gets stuck). *)
Definition after (es : list event) (w : World) : World := default w (run es w).

Lemma script_steps es w : rtc (step votes_fresh lease window) w (after es w).
Proof.
  unfold after. destruct (run es w) as [w'|] eqn:H; simpl; [|apply rtc_refl]. revert w H.
  induction es as [|e es IH]; simpl; intros w; [intros [= ->]; apply rtc_refl|].
  rewrite bind_Some. intros (w1 & H1%run_event_step & H2). eapply rtc_l; eauto.
Qed.
Lemma script_reachable es w : reachable votes_fresh lease window w -> reachable votes_fresh lease window (after es w).
Proof. intros (w0 & Hi & Hs). exists w0. split; [done|]. etrans; [exact Hs|apply script_steps]. Qed.
End Script.

Definition world0 : World := {|
  wdb := {| now := 0%Z; used := ∅; watches := ∅; revisions := ∅; jobs := ∅; votes := ∅; members := ∅ |};
  threads := ∅; orders := []; |}.
Lemma world0_reachable fresh lease window : reachable fresh lease window world0.
Proof. exists world0. split; [done|apply rtc_refl]. Qed.

Definition demo_config (q : option Z) (aware : bool) : WatchConfig := {|
  dw_project := "p"; dw_sync_mode := SyncModeTrigger; dw_cluster := "c1"; dw_application := "shop";
  dw_namespace := "argocd"; dw_expected_revision := "abc"; dw_rollout_aware := aware; dw_rollout_cluster := "";
  dw_rollout_namespace := ""; dw_rollout_name := ""; dw_gate_approvers := []; dw_gate_approver_groups := [];
  dw_gate_required := q;
|}.
Definition paused_state : DeployState :=
  with_rollout demo_state (with_identity (parseRolloutState demo_manifest) "c1" "web" "shop") true "".
Definition answer (s : DeployState) (u : uuid) : Answer :=
  {| ans_read := true; ans_observed := Some s; ans_uuid := u; ans_accepted := true |}.
(** Watcher [k] claims the deploy under [token], then makes [n] calls. *)
Definition watch (k : nat) (rev token : uuid) (n : nat) (s : DeployState) (u : uuid) : list event :=
  EClaim k rev token :: repeat (EAdvance k (answer s u)) n.
Definition ballot (rev gate user : uuid) (label : string) (approve : bool) : event :=
  EVote {| In_RevisionID := rev; In_ProjectID := "p"; In_GateID := gate; In_Approve := approve; In_UserID := user;
           In_User := label; In_UserEmail := ""; In_Provider := "oidc"; In_Subject := label; In_Comment := "" |}.
Definition second : Duration := 1000000000%Z.
Notation run_demo := (after true DefaultWatchLeaseSeconds DefaultDegradedWindow).
Notation run_rerun := (after false DefaultWatchLeaseSeconds DefaultDegradedWindow).

(** A canary that needs two approvals: armed, approved by two, promoted. *)
Definition gated_script : list event :=
  [EQueue 5; EStart 9 5 (demo_config (Some 2%Z) true) (1000 * second)%Z] ++ watch 0 9 101 4 paused_state 201.
Definition gated_world : World := run_demo gated_script world0.
Definition promoted_world : World :=
  run_demo ([ballot 9 201 2 "ana" true; ballot 9 201 3 "bob" true; ETime (61 * second)%Z] ++ watch 0 9 102 6 paused_state 202)
    gated_world.
Definition the_promotion : Issued := {|
  is_rev := 9%N; is_effect := Promote; is_target := at_rollout (targetOf {|
    dw_config := demo_config (Some 2%Z) true; dw_gate := no_gate; dw_deadline_at := 0%Z; dw_sync_requested_at := None;
    dw_degraded_since := None; dw_abort_actioned_at := None; dw_claim_id := None; dw_claimed_at := None |}) "c1" "web" "shop" |}.

Lemma orders_entitled_witness :
  orders promoted_world = [the_promotion] /\
  exists w1, reachable true DefaultWatchLeaseSeconds DefaultDegradedWindow w1 /\
    rtc (step true DefaultWatchLeaseSeconds DefaultDegradedWindow) w1 promoted_world /\ entitled true (wdb w1) the_promotion.
Proof.
  assert (H : orders promoted_world = [the_promotion]) by (vm_compute; reflexivity). split; [exact H|].
  apply orders_entitled; [do 2 apply script_reachable; apply world0_reachable|rewrite H; left].
Defined.

Definition plain_script : list event :=
  [EQueue 5; EStart 9 5 (demo_config None false) (1000 * second)%Z] ++ watch 0 9 101 4 demo_state 201.
Definition finalizing_world : World := run_demo plain_script world0.
Definition finished_world : World := run_demo [EAdvance 0 (answer demo_state 201)] finalizing_world.

Lemma deploy_success_sound_witness :
  (rev_status <$> revisions (wdb finished_world) !! 9%N) = Some "success" /\
  DeployWatchCancelRequestedAt (wdb finalizing_world) 9%N = None.
Proof.
  split; [vm_compute; reflexivity|].
  destruct (deploy_success_sound true DefaultWatchLeaseSeconds DefaultDegradedWindow finalizing_world finished_world 9%N
    {| rev_status := "in_progress"; rev_job := 5%N; rev_attempt := 0 |} {| rev_status := "success"; rev_job := 5%N; rev_attempt := 0 |})
    as (k & t & row & s & _ & _ & _ & _ & H & _).
  - apply script_reachable, world0_reachable.
  - apply (run_event_step _ _ _ (EAdvance 0 (answer demo_state 201))). vm_compute. reflexivity.
  - vm_compute. reflexivity.
  - discriminate.
  - vm_compute. reflexivity.
  - reflexivity.
  - exact H.
Defined.

Lemma deadline_accounting_witness :
  exists row, watches (wdb gated_world) !! 9%N = Some row /\ waiting row = true /\
    time_left (now (wdb gated_world) + 500 * second)%Z row = time_left (now (wdb gated_world)) row.
Proof.
  eexists. split; [vm_compute; reflexivity|]. split; [vm_compute; reflexivity|].
  etrans; [eapply (deadline_accounting true DefaultWatchLeaseSeconds DefaultDegradedWindow gated_world
    (run_demo [ETime (500 * second)%Z] gated_world) 9%N)|].
  - apply script_reachable, world0_reachable.
  - apply (run_event_step _ _ _ (ETime (500 * second)%Z)). vm_compute. reflexivity.
  - vm_compute. reflexivity.
  - vm_compute. reflexivity.
  - vm_compute. reflexivity.
Defined.

(** *** What the votes of an earlier attempt do *)

Definition aborted_state : DeployState :=
  with_rollout demo_state (with_identity (parseRolloutState {|
    M_Steps := [None; Some ""]; M_Phase := "Degraded"; M_Message := ""; M_CurrentStepIndex := Some 1%Z; M_Abort := true;
    M_StableRS := "old"; M_CurrentPodHash := "new"; M_PauseReasons := []; M_StepAnalysis := None;
    M_BackgroundAnalysis := None |}) "c1" "web" "shop") true "".
(** One approval, one rejection: the abort is ordered, the deploy fails, the job is
    rerun, and its second deploy is about to arm its gate. *)
Definition second_attempt : World :=
  run_rerun (gated_script ++ [ballot 9 201 2 "ana" true; ballot 9 201 3 "bob" false; ETime (61 * second)%Z] ++
             watch 0 9 102 6 paused_state 202 ++ [ETime (61 * second)%Z] ++ watch 0 9 103 5 aborted_state 203 ++
             [ERerun 5; EStart 10 5 (demo_config (Some 2%Z) true) (9000 * second)%Z] ++ watch 1 10 104 3 paused_state 301)
    world0.
Definition second_armed : World := run_rerun [EAdvance 1 (answer paused_state 301)] second_attempt.
Definition carol : RolloutGateDecisionInput :=
  {| In_RevisionID := 10%N; In_ProjectID := "p"; In_GateID := 301%N; In_Approve := true; In_UserID := 4%N;
     In_User := "carol"; In_UserEmail := ""; In_Provider := "oidc"; In_Subject := "carol"; In_Comment := "" |}.

(** Votes outlive a deploy that ends without clearing its gate: there is a reachable
    state in which a gate that needs two approvals was armed by the very last step,
    and one single vote decides it - the missing approval was cast on an earlier
    attempt of the job, which a rejection ended. *)
Theorem stale_votes_meet_quorum :
  exists w w' row db' res,
    reachable false DefaultWatchLeaseSeconds DefaultDegradedWindow w /\
    step false DefaultWatchLeaseSeconds DefaultDegradedWindow w w' /\
    (forall row0, watches (wdb w) !! 10%N = Some row0 -> gate_id (dw_gate row0) = None) /\
    watches (wdb w') !! 10%N = Some row /\ gate_id (dw_gate row) = Some 301%N /\
    dw_gate_required (dw_config row) = Some 2%Z /\
    DecideRolloutGate None (wdb w') carol = Ok (db', res) /\ Decided res = true.
Proof.
  exists second_attempt, second_armed. do 3 eexists.
  split; [apply script_reachable, world0_reachable|].
  split; [apply (run_event_step _ _ _ (EAdvance 1 (answer paused_state 301))); vm_compute; reflexivity|].
  split; [intros row0 H; vm_compute in H; by injection H as <-|].
  split; [vm_compute; reflexivity|]. split; [reflexivity|]. split; [reflexivity|].
  split; [vm_compute; reflexivity|reflexivity].
Qed.

(** *** A rejection a watcher erases *)

(** The canary left the armed step by itself, and a watcher has decided to clear the gate. *)
Definition moved_state : DeployState :=
  with_rollout demo_state (with_identity (parseRolloutState {|
    M_Steps := [None; Some ""; None]; M_Phase := "Progressing"; M_Message := ""; M_CurrentStepIndex := Some 2%Z; M_Abort := false;
    M_StableRS := "old"; M_CurrentPodHash := "new"; M_PauseReasons := []; M_StepAnalysis := None;
    M_BackgroundAnalysis := None |}) "c1" "web" "shop") true "".
Definition clearing_world : World :=
  run_demo ([ETime (61 * second)%Z] ++ watch 0 9 102 3 moved_state 202) gated_world.
Definition rejection : event := ballot 9 201 3 "bob" false.
Definition rejected_world : World := run_demo [rejection] clearing_world.
Definition cleared_world : World := run_demo [EAdvance 0 (answer moved_state 202)] rejected_world.

(** The clear of an undecided gate also clears a decision recorded since the watcher
    read the row: the rejection was accepted, and nothing is left of it. *)
Lemma clear_erases_rejection :
  reachable true DefaultWatchLeaseSeconds DefaultDegradedWindow cleared_world /\
  (gate_decision ∘ dw_gate <$> watches (wdb rejected_world) !! 9%N) = Some GateRejected /\
  (gate_decision ∘ dw_gate <$> watches (wdb cleared_world) !! 9%N) = Some GateUndecided /\
  orders cleared_world = [].
Proof.
  split; [do 4 apply script_reachable; apply world0_reachable|].
  split; [vm_compute; reflexivity|]. split; [vm_compute; reflexivity|]. vm_compute. reflexivity.
Qed.
