(* ===== verification/Locks.v ===== *)
(** The advisory locks of [server/internal/store]: the key of an environment of a
    lane ([gatepass.go]) and of the change freeze of an environment
    ([environment_freeze.go]), 64-bit FNV-1a hashes of a text, and the global order
    in which the locks are taken. *)

From S2P Require Import Prelude GoStrings Domain NeedsGraph GateGraph.

(** ** [hash/fnv.New64a] *)

Definition fnv_offset : Z := 14695981039346656037%Z.
Definition fnv_prime : Z := 1099511628211%Z.
Definition w64 (z : Z) : Z := (z mod 2 ^ 64)%Z.
Fixpoint fnv64a (h : Z) (s : string) : Z :=
  match s with
  | "" => h
  | String c s => fnv64a (w64 (Z.lxor h (Z.of_nat (code c)) * fnv_prime)) s
  end.
(** [int64(h.Sum64())]. *)
Definition int64 (z : Z) : Z := if (w64 z <? 2 ^ 63)%Z then w64 z else (w64 z - 2 ^ 64)%Z.

(** [uuid.UUID] is sixteen bytes, the most significant first. *)
Fixpoint be_bytes (n : nat) (z : N) : string :=
  match n with
  | 0 => ""
  | S n => be_bytes n (z / 256) +:+ String (Ascii.ascii_of_N (z mod 256)) ""
  end.
Definition uuid_bytes (id : N) : string := be_bytes 16 id.
Definition nul : Ascii.ascii := Ascii.ascii_of_nat 0.
(** [writeField]. *)
Definition field (s : string) : string := s +:+ String nul "".

(** ** The keys *)

Definition SupersedeBranch : string := "branch".
Definition SupersedePipeline : string := "pipeline".
Definition supersedes (mode : string) : bool :=
  bool_decide (mode = SupersedeBranch) || bool_decide (mode = SupersedePipeline).

(** What is written into the hash. *)
Definition lane_text (pipelineID : N) (laneMode laneRef env : string) : string :=
  let ref := if decide (laneMode <> SupersedeBranch) then "" else laneRef in
  field laneMode +:+ field (uuid_bytes pipelineID) +:+ field ref +:+ field env.
Definition LaneEnvLockKey (pipelineID : N) (laneMode laneRef env : string) : Z :=
  int64 (fnv64a fnv_offset (lane_text pipelineID laneMode laneRef env)).

Definition freeze_text (projectID : N) (env : string) : string :=
  "envfreeze:" +:+ field (uuid_bytes projectID) +:+ env.
Definition ProjectEnvFreezeLockKey (projectID : N) (env : string) : Z :=
  int64 (fnv64a fnv_offset (freeze_text projectID env)).

(** A lock by what it stands for. *)
Inductive lock :=
| LaneLock (pipeline : N) (mode ref env : string)
| FreezeLock (project : N) (env : string).
#[export] Instance lock_eq_dec : EqDecision lock. Proof. solve_decision. Defined.
Definition lock_text (l : lock) : string :=
  match l with
  | LaneLock pipeline mode ref env => lane_text pipeline mode ref env
  | FreezeLock project env => freeze_text project env
  end.
Definition lock_key (l : lock) : Z :=
  match l with
  | LaneLock pipeline mode ref env => LaneEnvLockKey pipeline mode ref env
  | FreezeLock project env => ProjectEnvFreezeLockKey project env
  end.
(** [LaneEnvLockKey] drops the ref of a pipeline lane. *)
Definition canonical (l : lock) : lock :=
  match l with
  | LaneLock pipeline mode ref env => LaneLock pipeline mode (if decide (mode <> SupersedeBranch) then "" else ref) env
  | FreezeLock _ _ => l
  end.

(** The mandatory order: lanes before freezes, each by the name of the environment. *)
Definition lock_rank (l : lock) : bool * string :=
  match l with LaneLock _ _ _ env => (false, env) | FreezeLock _ env => (true, env) end.
Definition rank_lt (a b : bool * string) : Prop :=
  (a.1 = false /\ b.1 = true) \/ (a.1 = b.1 /\ String.ltb a.2 b.2 = true).
#[export] Instance rank_lt_dec a b : Decision (rank_lt a b).
Proof. unfold rank_lt. apply _. Defined.
Definition lock_lt (a b : lock) : Prop := rank_lt (lock_rank a) (lock_rank b).
#[export] Instance lock_lt_dec a b : Decision (lock_lt a b).
Proof. unfold lock_lt. apply _. Defined.

(** ** What the texts determine *)

Lemma slen_be_bytes n z : slen (be_bytes n z) = n.
Proof. revert z. induction n as [|n IH]; intros z; simpl; [done|]. rewrite slen_app, IH. simpl. lia. Qed.

Lemma app_inv_slen s s' t t' : slen s = slen s' -> s +:+ t = s' +:+ t' -> s = s' /\ t = t'.
Proof.
  revert s'. induction s as [|c s IH]; intros [|c' s'] Hl; simpl in *; try lia; [done|].
  intros H. rewrite !app_cons_s in H. injection H as -> H.
  destruct (IH s' ltac:(lia) H) as [-> ->]. done.
Qed.

Lemma be_bytes_inj n z z' : (z < 256 ^ N.of_nat n)%N -> (z' < 256 ^ N.of_nat n)%N -> be_bytes n z = be_bytes n z' -> z = z'.
Proof.
  revert z z'. induction n as [|n IH]; intros z z' Hz Hz' H; [simpl in *; lia|].
  cbn [be_bytes] in H. apply app_inv_slen in H as [H1 H2]; [|by rewrite !slen_be_bytes].
  injection H2 as H2. apply (f_equal Ascii.N_of_ascii) in H2.
  rewrite !Ascii.N_ascii_embedding in H2 by (apply N.mod_upper_bound; done).
  rewrite Nat2N.inj_succ, N.pow_succ_r' in Hz, Hz'.
  apply IH in H1; [|apply N.Div0.div_lt_upper_bound; lia..].
  rewrite (N.div_mod z 256), (N.div_mod z' 256), H1, H2 by done. done.
Qed.

Lemma field_split a b x y : lacks nul a = true -> lacks nul b = true -> field a +:+ x = field b +:+ y -> a = b /\ x = y.
Proof.
  unfold field. rewrite !app_assoc_s, !app_cons_s, !app_nil_s. revert b.
  induction a as [|c a IH]; intros [|d b] Ha Hb H; rewrite ?app_nil_s, ?app_cons_s in H.
  - by injection H.
  - injection H as <- _. by simpl in Hb.
  - injection H as -> _. by simpl in Ha.
  - injection H as -> H. unfold lacks in Ha, Hb. cbn [all_bytes] in Ha, Hb.
    apply andb_true_iff in Ha as [_ Ha]. apply andb_true_iff in Hb as [_ Hb].
    destruct (IH b Ha Hb H) as [-> ->]. done.
Qed.

(** A lock the code can take: the mode is one of the two, identifiers are 128-bit and
    refs and names, as text columns, hold no NUL byte. *)
Definition lock_ok (l : lock) : Prop :=
  match l with
  | LaneLock pipeline mode ref env =>
      (pipeline < 2 ^ 128)%N /\ supersedes mode = true /\ lacks nul ref = true /\ lacks nul env = true
  | FreezeLock project env => (project < 2 ^ 128)%N
  end.

Lemma supersedes_modes mode : supersedes mode = true -> mode = "branch" \/ mode = "pipeline".
Proof. unfold supersedes, SupersedeBranch, SupersedePipeline. rewrite orb_true_iff, !bool_decide_eq_true. done. Qed.
Lemma mode_lacks mode : supersedes mode = true -> lacks nul mode = true.
Proof. intros [->| ->]%supersedes_modes; done. Qed.

Lemma uuid_bytes_inj a b x y : (a < 2 ^ 128)%N -> (b < 2 ^ 128)%N ->
  field (uuid_bytes a) +:+ x = field (uuid_bytes b) +:+ y -> a = b /\ x = y.
Proof.
  intros Ha Hb H. unfold field in H. rewrite !app_assoc_s in H.
  apply app_inv_slen in H as [H1 H2]; [|by unfold uuid_bytes; rewrite !slen_be_bytes].
  apply be_bytes_inj in H1; [|done..]. rewrite !app_cons_s, !app_nil_s in H2. injection H2 as ->. done.
Qed.

Lemma ref_lacks mode ref : lacks nul ref = true -> lacks nul (if decide (mode <> SupersedeBranch) then "" else ref) = true.
Proof. intros. by case_decide. Qed.

Lemma lock_text_inj a b : lock_ok a -> lock_ok b -> lock_text a = lock_text b -> canonical a = canonical b.
Proof.
  destruct a as [p m r e|p e], b as [p' m' r' e'|p' e']; cbn [lock_ok lock_text canonical].
  - intros (Hp & Hm & Hr & He) (Hp' & Hm' & Hr' & He') H. unfold lane_text in H.
    apply field_split in H as [<- H]; [|by apply mode_lacks..].
    apply uuid_bytes_inj in H as [<- H]; [|done..].
    apply field_split in H as [-> H]; [|by apply ref_lacks..].
    rewrite <- (app_nil_r_s (field e)), <- (app_nil_r_s (field e')) in H.
    by apply field_split in H as [-> _].
  - intros (_ & [->| ->]%supersedes_modes & _) _ H; discriminate H.
  - intros _ (_ & [->| ->]%supersedes_modes & _) H; discriminate H.
  - intros Hp Hp' H. unfold freeze_text in H. apply app_inv_slen in H as [_ H]; [|done].
    by apply uuid_bytes_inj in H as [-> ->].
Qed.

Lemma int64_range z : (- 2 ^ 63 <= int64 z < 2 ^ 63)%Z.
Proof.
  unfold int64, w64. pose proof (Z.mod_pos_bound z (2 ^ 64) ltac:(lia)).
  destruct (Z.ltb_spec (z mod 2 ^ 64) (2 ^ 63)); lia.
Qed.
Lemma int64_wraps z : (int64 z mod 2 ^ 64 = z mod 2 ^ 64)%Z.
Proof.
  unfold int64, w64. destruct (z mod 2 ^ 64 <? 2 ^ 63)%Z; [by rewrite Z.mod_mod|].
  rewrite <- (Z.mod_mod z) at 2 by lia. rewrite Zminus_mod, Z.mod_same, Z.sub_0_r, !Z.mod_mod by lia. done.
Qed.
Lemma fnv64a_range h s : (0 <= h < 2 ^ 64)%Z -> (0 <= fnv64a h s < 2 ^ 64)%Z.
Proof.
  revert h. induction s as [|c s IH]; intros h Hh; [done|]. cbn [fnv64a]. apply IH. unfold w64.
  apply Z.mod_pos_bound. lia.
Qed.

Lemma lane_key_ref p mode ref ref' env : mode <> SupersedeBranch ->
  LaneEnvLockKey p mode ref env = LaneEnvLockKey p mode ref' env.
Proof. intros Hm. unfold LaneEnvLockKey, lane_text. by rewrite !decide_True. Qed.

Lemma string_ltb_irrefl s : String.ltb s s = false.
Proof. apply ltb_false. reflexivity. Qed.
Lemma rank_lt_irrefl a : ~ rank_lt a a.
Proof. intros [[H1 H2]|[_ H]]; [congruence|]. by rewrite string_ltb_irrefl in H. Qed.
Lemma string_ltb_trans s t u : String.ltb s t = true -> String.ltb t u = true -> String.ltb s u = true.
Proof.
  intros H1 H2. destruct (String.ltb s u) eqn:E; [done|]. apply ltb_false in E.
  pose proof (ltb_leb _ _ H1) as L1. pose proof (ltb_leb _ _ H2) as L2.
  assert (t = u) as -> by (apply (anti_symm String.le); [done|]; by transitivity s).
  by rewrite string_ltb_irrefl in H2.
Qed.
Lemma rank_lt_trans a b c : rank_lt a b -> rank_lt b c -> rank_lt a c.
Proof.
  intros [[H1 H2]|[H1 H2]] [[H3 H4]|[H3 H4]]; unfold rank_lt; [congruence|left; split; congruence..|right].
  split; [congruence|]. by eapply string_ltb_trans.
Qed.

(** the lock keys are exactly as fine as they should be - two locks the code takes
    hash the same text only if they guard the same environment of the same lane or the
    freeze of the same environment of the same project (lanes and freezes never share a
    text, a pipeline lane ignores the ref, an empty ref of a branch lane is not the
    pipeline lane), so two of them exclude each other without need only on a collision
    of the hash; and every key is a signed 64-bit integer congruent to the hash. *)
Theorem lock_keys_exact (a b : lock) : lock_ok a -> lock_ok b ->
  (lock_text a = lock_text b <-> canonical a = canonical b) /\
  (canonical a = canonical b -> lock_key a = lock_key b) /\
  (- 2 ^ 63 <= lock_key a < 2 ^ 63)%Z /\
  (lock_key a mod 2 ^ 64 = fnv64a fnv_offset (lock_text a))%Z.
Proof.
  intros Ha Hb. assert (Hkey : forall l, lock_key l = int64 (fnv64a fnv_offset (lock_text l))) by (by intros []).
  assert (Hcanon : forall l, lock_text (canonical l) = lock_text l).
  { intros [p m r e|]; [|done]. cbn [canonical lock_text]. unfold lane_text. by case_decide. }
  split_and!.
  - split; [by apply lock_text_inj|]. intros H. by rewrite <- (Hcanon a), H, Hcanon.
  - intros H. by rewrite !Hkey, <- (Hcanon a), H, Hcanon.
  - rewrite Hkey. apply int64_range.
  - rewrite Hkey. apply int64_range.
  - rewrite Hkey, int64_wraps. apply Z.mod_small, fnv64a_range. unfold fnv_offset. lia.
Qed.

(** Published vectors of the hash, and two keys. *)
Example fnv_vectors : fnv64a fnv_offset "" = 14695981039346656037%Z /\ fnv64a fnv_offset "a" = 12638187200555641996%Z /\
  fnv64a fnv_offset "foobar" = 9625390261332436968%Z.
Proof. split_and!; vm_compute; reflexivity. Qed.
Lemma lock_keys_exact_witness :
  let a := LaneLock 7 "pipeline" "main" "production" in let b := LaneLock 7 "pipeline" "v2" "production" in
  lock_ok a /\ lock_ok b /\ lock_key a = lock_key b /\ lock_text a <> lock_text (LaneLock 7 "branch" "" "production").
Proof.
  assert (Ha : lock_ok (LaneLock 7 "pipeline" "main" "production")) by (by vm_compute).
  assert (Hb : lock_ok (LaneLock 7 "pipeline" "v2" "production")) by (by vm_compute).
  assert (Hc : lock_ok (LaneLock 7 "branch" "" "production")) by (by vm_compute).
  split_and!; [done..|by apply (lock_keys_exact _ _ Ha Hb)|].
  intros H%(lock_keys_exact _ _ Ha Hc). discriminate H.
Defined.
