(* ===== verification/Lanes.v ===== *)
(** [server/internal/store]: several runs, deploys and freezes at once.  A gate's
    approval writes the markers that say a run has cleared an environment
    ([gatepass.go], [approvals.go], [approvals_freeze.go]); the dispatcher holds the
    lock of the lane while it checks those markers and hands a deploy over
    ([deployments.go], [scheduler.go]); a freeze excludes both
    ([environment_freeze.go], [environment_freeze_admit.go]).  Every call is a thread
    that takes its locks one at a time; between any two of its moments any other call
    may run, and any thread may die, which releases what it holds. *)

From S2P Require Import Prelude GoStrings Domain NeedsGraph GateGraph Locks.

Notation uuid := N.

(** ** The tables *)

(** [runs.definition]: absent on old rows, not decodable, or the run's own snapshot. *)
Inductive snapshot := NoSnapshot | BadSnapshot | Snapshot (p : Pipeline).
Record LaneRun := {
  lr_pipeline : uuid;
  lr_ref : string;
  lr_counter : Z;
  lr_definition : snapshot;
  lr_status : string;
}.
(** [pipelines]: the live definition, which the dispatcher reads. *)
Record PipelineRow := { pl_project : uuid; pl_definition : Pipeline }.
Record JobRow := { lj_run : uuid; lj_name : string; lj_status : string; lj_rollback : bool }.
(** [run_gate_pass], keyed by run and environment. *)
Record Marker := { gp_pipeline : uuid; gp_ref : string; gp_counter : Z }.

(** Gates are never matrix jobs: the run and the name are the key of their row. *)
Record DB := {
  runs : gmap uuid LaneRun;
  gates : gmap (uuid * string) string;
  jobs : gmap uuid JobRow;
  markers : gmap (uuid * string) Marker;
  freezes : gset (uuid * string);
  pipelines : gmap uuid PipelineRow;
}.
Definition with_runs (d : DB) (x : gmap uuid LaneRun) : DB :=
  {| runs := x; gates := gates d; jobs := jobs d; markers := markers d; freezes := freezes d; pipelines := pipelines d |}.
Definition with_gates (d : DB) (x : gmap (uuid * string) string) : DB :=
  {| runs := runs d; gates := x; jobs := jobs d; markers := markers d; freezes := freezes d; pipelines := pipelines d |}.
Definition with_jobs (d : DB) (x : gmap uuid JobRow) : DB :=
  {| runs := runs d; gates := gates d; jobs := x; markers := markers d; freezes := freezes d; pipelines := pipelines d |}.
Definition with_markers (d : DB) (x : gmap (uuid * string) Marker) : DB :=
  {| runs := runs d; gates := gates d; jobs := jobs d; markers := x; freezes := freezes d; pipelines := pipelines d |}.
Definition with_freezes (d : DB) (x : gset (uuid * string)) : DB :=
  {| runs := runs d; gates := gates d; jobs := jobs d; markers := markers d; freezes := x; pipelines := pipelines d |}.
Definition with_pipelines (d : DB) (x : gmap uuid PipelineRow) : DB :=
  {| runs := runs d; gates := gates d; jobs := jobs d; markers := markers d; freezes := freezes d; pipelines := x |}.
Definition run_status (r : LaneRun) (s : string) : LaneRun :=
  {| lr_pipeline := lr_pipeline r; lr_ref := lr_ref r; lr_counter := lr_counter r; lr_definition := lr_definition r; lr_status := s |}.
Definition job_status (j : JobRow) (s : string) : JobRow :=
  {| lj_run := lj_run j; lj_name := lj_name j; lj_status := s; lj_rollback := lj_rollback j |}.

(** ** The statements *)

Definition CountPassedGates (d : DB) (run : uuid) (names : list string) : nat :=
  size (filter (fun kv : uuid * string * string => kv.1.1 = run /\ kv.1.2 ∈ names /\ kv.2 = "success") (gates d)).
(** [ON CONFLICT (run_id, environment) DO NOTHING]. *)
Definition InsertRunGatePass (d : DB) (run : uuid) (row : LaneRun) (env : string) : DB :=
  match markers d !! (run, env) with
  | Some _ => d
  | None => with_markers d (<[(run, env) := {| gp_pipeline := lr_pipeline row; gp_ref := lr_ref row; gp_counter := lr_counter row |}]>
                              (markers d))
  end.
(** [newerGatePassExists]: the two queries. *)
Definition newer_marker (d : DB) (pipelineID : uuid) (mode ref env : string) (counter : Z)
    (kv : uuid * string * Marker) : bool :=
  bool_decide (gp_pipeline kv.2 = pipelineID) && (bool_decide (mode <> SupersedeBranch) || bool_decide (gp_ref kv.2 = ref)) &&
  bool_decide (kv.1.2 = env) && (counter <? gp_counter kv.2)%Z &&
  match runs d !! kv.1.1 with Some r => bool_decide (lr_status r <> "canceled") | None => false end.
Definition newerGatePassExists (d : DB) (pipelineID : uuid) (mode ref env : string) (counter : Z) : bool :=
  existsb (newer_marker d pipelineID mode ref env counter) (map_to_list (markers d)).

Definition ListAwaitingGateNamesForRun (d : DB) (run : uuid) : list string :=
  (map_to_list (filter (fun kv : uuid * string * string => kv.1.1 = run /\ kv.2 = "awaiting_approval") (gates d))).*1.*2.
(** [clearRevivedGatePassMarkers]; [None] is its error. *)
Definition clearRevivedGatePassMarkers (d : DB) (run : uuid) : option DB :=
  match ListAwaitingGateNamesForRun d run with
  | [] => Some d
  | gateNames =>
      match lr_definition <$> runs d !! run with
      | Some (Snapshot def) =>
          if supersedes (Supersede def)
          then Some (with_markers d (filter (fun kv : uuid * string * Marker => ~ (kv.1.1 = run /\ kv.1.2 ∈ gateNames ≫= GovernedEnvs def)) (markers d)))
          else Some d
      | _ => None
      end
  end.

(** ** Threads *)

Inductive phase :=
| LaneLocked      (* the guard's session holds the lane lock *)
| LaneClear       (* and no newer marker was found; or there is no guard *)
| FreezeLocked_   (* the admitting transaction holds the freeze lock *)
| Thawed_         (* and found no freeze *)
| Claimed_.       (* committed: the job runs *)
#[export] Instance phase_eq_dec : EqDecision phase. Proof. solve_decision. Defined.
Record Dispatch := {
  d_job : uuid; d_run : uuid; d_pipeline : uuid; d_ref : string; d_counter : Z; d_project : uuid; d_env : string;
  d_lane : option string;   (* the mode, when the deploy guard is taken *)
  d_at : phase;
}.
Definition at_phase (d : Dispatch) (p : phase) : Dispatch := {|
  d_job := d_job d; d_run := d_run d; d_pipeline := d_pipeline d; d_ref := d_ref d; d_counter := d_counter d;
  d_project := d_project d; d_env := d_env d; d_lane := d_lane d; d_at := p |}.
Inductive thread :=
| Approving (run : uuid) (gate : string) (taken want : list lock)        (* advisory locks, in order *)
| Passing (run : uuid) (gate : string) (taken : list lock) (todo inserts : list string)   (* row locked and flipped, not committed *)
| ChangingFreeze (project : uuid) (env : string) (on locked : bool)
| Dispatching (d : Dispatch).

(** An advisory lock belongs to a connection: the transaction of a thread, or the
    session of its deploy guard. *)
Notation owner := (nat * bool)%type.
Inductive event :=
| Froze (project : uuid) (env : string) | Unfroze (project : uuid) (env : string)
| Passed (run : uuid) (gate : string)
| Cleared (run : uuid) (env : string)
| Entered (job project : uuid) (env : string)
| Sent (job run : uuid) (env : string) (lane : option string).
Record World := { db : DB; locks : gmap Z owner; threads : gmap nat thread; log : list event }.
Definition with_db (w : World) (d : DB) : World := {| db := d; locks := locks w; threads := threads w; log := log w |}.
Definition with_thread (w : World) (k : nat) (t : thread) : World :=
  {| db := db w; locks := locks w; threads := <[k := t]> (threads w); log := log w |}.
Definition with_log (w : World) (l : list event) : World :=
  {| db := db w; locks := locks w; threads := threads w; log := l ++ log w |}.

(** [pg_advisory_xact_lock] when it does not have to wait: the key is free or already
    this transaction's. *)
Definition acquire (w : World) (o : owner) (key : Z) : option World :=
  match locks w !! key with
  | None => Some {| db := db w; locks := <[key := o]> (locks w); threads := threads w; log := log w |}
  | Some o' => if decide (o' = o) then Some w else None
  end.
(** The transaction of the thread ends. *)
Definition end_tx (w : World) (k : nat) : World :=
  {| db := db w; locks := filter (fun kv : Z * owner => kv.2 <> (k, false)) (locks w); threads := threads w; log := log w |}.
(** The thread ends, with its transaction and its guard. *)
Definition finish (w : World) (k : nat) : World :=
  {| db := db w; locks := filter (fun kv : Z * owner => kv.2.1 <> k) (locks w); threads := delete k (threads w); log := log w |}.

(** What [lockApprovalEnvs] locks, in its order. *)
Definition approval_locks (pipelineID projectID : uuid) (runRef : string) (def : Pipeline) (gateName : string) : list lock :=
  (if supersedes (Supersede def) then LaneLock pipelineID (Supersede def) runRef <$> GovernedEnvs def gateName else []) ++
  (FreezeLock projectID <$> GovernedFreezeEnvs def gateName).
(** The environments [writeGatePassMarkers] goes through. *)
Definition marked_envs (s : snapshot) (gateName : string) : option (list string) :=
  match s with
  | NoSnapshot => Some []
  | BadSnapshot => None
  | Snapshot def => Some (if supersedes (Supersede def) then GovernedEnvs def gateName else [])
  end.
Definition freeze_envs (s : snapshot) (gateName : string) : list string :=
  match s with Snapshot def => GovernedFreezeEnvs def gateName | _ => [] end.
Definition project_of (d : DB) (pipelineID : uuid) : uuid :=
  match pipelines d !! pipelineID with Some p => pl_project p | None => 0%N end.

(** The row lock of a gate, taken by the call that has flipped it. *)
Definition row_locked (w : World) (run : uuid) (gate : string) : bool :=
  existsb (fun kt => match kt.2 with Passing r g _ _ _ => bool_decide (r = run /\ g = gate) | _ => false end) (map_to_list (threads w)).

(** ** The approval of a gate *)

Definition parked (d : DB) (run : uuid) (gate : string) : bool := bool_decide (gates d !! (run, gate) = Some "awaiting_approval").
Definition begin_approve (w : World) (k : nat) (run : uuid) (gate : string) : option World :=
  match threads w !! k, parked (db w) run gate, runs (db w) !! run with
  | None, true, Some row =>
      match lr_definition row with
      | BadSnapshot => None
      | NoSnapshot => Some (with_thread w k (Approving run gate [] []))
      | Snapshot def =>
          Some (with_thread w k (Approving run gate []
            (approval_locks (lr_pipeline row) (project_of (db w) (lr_pipeline row)) (lr_ref row) def gate)))
      end
  | _, _, _ => None
  end.
(** Under all the locks: the row is locked and checked again, no governed environment
    is frozen, the vote is recorded.  Without a quorum the call commits the vote and
    ends; with one it flips the row and goes on to the markers. *)
Definition decide_gate (w : World) (k : nat) (run : uuid) (gate : string) (taken : list lock) (quorum : bool) : option World :=
  match parked (db w) run gate, runs (db w) !! run with
  | true, Some row =>
      let frozen := filter (fun e => (project_of (db w) (lr_pipeline row), e) ∈ freezes (db w)) (freeze_envs (lr_definition row) gate) in
      if row_locked w run gate || negb (bool_decide (frozen = [])) then None
      else if quorum then
        match marked_envs (lr_definition row) gate with
        | Some todo => Some (with_thread w k (Passing run gate taken todo []))
        | None => None
        end
      else Some (finish w k)
  | _, _ => None
  end.
(** One turn of the loop of [writeGatePassMarkers]: the lock, which the transaction
    already holds, the gates that govern the environment, and how many have passed -
    the flipped row is visible to its own transaction. *)
Definition passed_gates (d : DB) (run : uuid) (gate : string) (governing : list string) : nat :=
  CountPassedGates (with_gates d (<[(run, gate) := "success"]> (gates d))) run governing.
Definition mark_env (w : World) (k : nat) (run : uuid) (gate : string) (taken : list lock) (env : string) (todo inserts : list string) : option World :=
  match runs (db w) !! run with
  | Some row =>
      match lr_definition row with
      | Snapshot def =>
          w ← acquire w (k, false) (LaneEnvLockKey (lr_pipeline row) (Supersede def) (lr_ref row) env);
          let governing := GoverningGates def env in
          let insert_ := negb (bool_decide (governing = [])) && (length governing <=? passed_gates (db w) run gate governing)%nat in
          Some (with_thread w k (Passing run gate taken todo (if insert_ then inserts ++ [env] else inserts)))
      | _ => None
      end
  | None => None
  end.
Definition passed_db (d : DB) (run : uuid) (row : LaneRun) (gate : string) (inserts : list string) : DB :=
  foldl (fun d env => InsertRunGatePass d run row env) (with_gates d (<[(run, gate) := "success"]> (gates d))) inserts.
Definition commit_gate (w : World) (k : nat) (run : uuid) (gate : string) (inserts : list string) : option World :=
  match runs (db w) !! run with
  | Some row =>
      Some (finish (with_log (with_db w (passed_db (db w) run row gate inserts)) (rev (Passed run gate :: (Cleared run <$> inserts)))) k)
  | None => None
  end.

(** ** Freezes *)

Definition commit_freeze (w : World) (k : nat) (project : uuid) (env : string) (on : bool) : World :=
  let d := with_freezes (db w) (if on then freezes (db w) ∪ {[(project, env)]} else freezes (db w) ∖ {[(project, env)]}) in
  finish (with_log (with_db w d) [if on then Froze project env else Unfroze project env]) k.

(** ** The dispatch of a job that declares an environment *)

Definition begin_dispatch (w : World) (k : nat) (job : uuid) : option World :=
  match threads w !! k, jobs (db w) !! job with
  | None, Some j =>
      match runs (db w) !! lj_run j with
      | None => None
      | Some row =>
          match pipelines (db w) !! lr_pipeline row with
          | None => None
          | Some live =>
              match List.find (fun d => bool_decide (Job_Name d = lj_name j)) (Jobs (pl_definition live)) with
              | None => None
              | Some jobDef =>
                  let env := TargetEnvironment jobDef in
                  let mode := Supersede (pl_definition live) in
                  let guard := (match Job_Deploy jobDef with Some _ => true | None => false end) && negb (lj_rollback j) && supersedes mode in
                  let d := {| d_job := job; d_run := lj_run j; d_pipeline := lr_pipeline row; d_ref := lr_ref row;
                              d_counter := lr_counter row; d_project := pl_project live; d_env := env;
                              d_lane := if guard then Some mode else None;
                              d_at := if guard then LaneLocked else LaneClear |} in
                  if bool_decide (env = "") then None   (* the plain [AssignJob] *)
                  else if guard then
                    (* [pg_try_advisory_lock] *)
                    match locks w !! LaneEnvLockKey (lr_pipeline row) mode (lr_ref row) env with
                    | Some _ => None
                    | None => w ← acquire w (k, true) (LaneEnvLockKey (lr_pipeline row) mode (lr_ref row) env);
                              Some (with_thread w k (Dispatching d))
                    end
                  else Some (with_thread w k (Dispatching d))
              end
          end
      end
  | _, _ => None
  end.
Definition check_lane (w : World) (k : nat) (d : Dispatch) : option World :=
  match d_at d, d_lane d with
  | LaneLocked, Some mode =>
      if newerGatePassExists (db w) (d_pipeline d) mode (d_ref d) (d_env d) (d_counter d) then Some (finish w k)
      else Some (with_thread w k (Dispatching (at_phase d LaneClear)))
  | _, _ => None
  end.
(** [admitJobIfEnvNotFrozen]: the freeze lock ([take_lock]), the check, the claim. *)
Definition check_freeze (w : World) (k : nat) (d : Dispatch) : option World :=
  match d_at d with
  | FreezeLocked_ => if decide ((d_project d, d_env d) ∈ freezes (db w)) then Some (finish w k)
                     else Some (with_thread w k (Dispatching (at_phase d Thawed_)))
  | _ => None
  end.
Definition admit_job (w : World) (k : nat) (d : Dispatch) : option World :=
  match d_at d, jobs (db w) !! d_job d with
  | Thawed_, Some j =>
      if decide (lj_status j = "queued") then
        let w := with_db w (with_jobs (db w) (<[d_job d := job_status j "running"]> (jobs (db w)))) in
        Some (with_thread (with_log (end_tx w k) [Entered (d_job d) (d_project d) (d_env d)]) k (Dispatching (at_phase d Claimed_)))
      else Some (finish w k)
  | _, _ => None
  end.
(** The deploy revision is recorded and the agent takes the assignment; else
    [rollbackUndispatchedAssignment]. *)
Definition send (w : World) (k : nat) (d : Dispatch) : option World :=
  match d_at d with
  | Claimed_ => Some (finish (with_log w [Sent (d_job d) (d_run d) (d_env d) (d_lane d)]) k)
  | _ => None
  end.
Definition rollback_assignment (w : World) (k : nat) (d : Dispatch) : option World :=
  match d_at d, jobs (db w) !! d_job d with
  | Claimed_, Some j => Some (finish (with_db w (with_jobs (db w) (<[d_job d := job_status j "queued"]> (jobs (db w))))) k)
  | _, _ => None
  end.

(** The lock a thread needs next. *)
Definition wants (t : thread) : option lock :=
  match t with
  | Approving _ _ _ (l :: _) => Some l
  | ChangingFreeze project env _ false => Some (FreezeLock project env)
  | Dispatching d => match d_at d with LaneClear => Some (FreezeLock (d_project d) (d_env d)) | _ => None end
  | _ => None
  end.
Definition got_lock (t : thread) : thread :=
  match t with
  | Approving run gate taken (l :: want) => Approving run gate (taken ++ [l]) want
  | ChangingFreeze project env on _ => ChangingFreeze project env on true
  | Dispatching d => Dispatching (at_phase d FreezeLocked_)
  | _ => t
  end.
Definition take_lock (w : World) (k : nat) : option World :=
  match threads w !! k with
  | Some t => match wants t with
              | Some l => w ← acquire w (k, false) (lock_key l); Some (with_thread w k (got_lock t))
              | None => None
              end
  | None => None
  end.

(** ** The other writers *)

Definition next_counter (d : DB) (pipelineID : uuid) : Z :=
  (1 + foldr Z.max 0 (lr_counter <$> (filter (fun kv : uuid * LaneRun => lr_pipeline kv.2 = pipelineID) (map_to_list (runs d))).*2))%Z.
Definition create_run (d : DB) (run pipelineID : uuid) (ref : string) : option DB :=
  match runs d !! run, pipelines d !! pipelineID with
  | None, Some live =>
      let row := {| lr_pipeline := pipelineID; lr_ref := ref; lr_counter := next_counter d pipelineID;
                    lr_definition := Snapshot (pl_definition live); lr_status := "queued" |} in
      let names := Job_Name <$> filter (fun j => is_gate j = true) (Jobs (pl_definition live)) in
      Some (with_runs (with_gates d (list_to_map ((fun n => ((run, n), "awaiting_approval")) <$> names) ∪ gates d))
                      (<[run := row]> (runs d)))
  | _, _ => None
  end.
Definition create_job (d : DB) (job run : uuid) (name : string) : option DB :=
  match jobs d !! job, runs d !! run with
  | None, Some _ => Some (with_jobs d (<[job := {| lj_run := run; lj_name := name; lj_status := "queued"; lj_rollback := false |}]> (jobs d)))
  | _, _ => None
  end.
(** A cascade, a cancel or a supersede; nothing but a rerun takes a run out of [canceled]. *)
Definition set_run_status (d : DB) (run : uuid) (s : string) : option DB :=
  match runs d !! run with
  | Some row => if decide (lr_status row = "canceled") then None else Some (with_runs d (<[run := run_status row s]> (runs d)))
  | None => None
  end.
Definition reject_gate (w : World) (run : uuid) (gate : string) : option World :=
  if parked (db w) run gate && negb (row_locked w run gate)
  then Some (with_db w (with_gates (db w) (<[(run, gate) := "failed"]> (gates (db w))))) else None.
(** [CancelQueuedJobsInRun] on a gate; it waits for the row locks. *)
Definition cancel_gate (w : World) (run : uuid) (gate : string) : option World :=
  if parked (db w) run gate && negb (row_locked w run gate)
  then Some (with_db w (with_gates (db w) (<[(run, gate) := "canceled"]> (gates (db w))))) else None.
Definition end_job (d : DB) (job : uuid) (s : string) : option DB :=
  match jobs d !! job with
  | Some j => if decide (lj_status j = "running") then Some (with_jobs d (<[job := job_status j s]> (jobs d))) else None
  | None => None
  end.
(** The part of [rerunJobTx] on these tables: the job and the run are open again, some
    of the canceled gates park again, and their markers go. *)
Definition rearm_gates (d : DB) (run : uuid) (names : list string) : DB :=
  with_gates d (map_imap (fun (key : uuid * string) st =>
    Some (if bool_decide (key.1 = run /\ key.2 ∈ names /\ st = "canceled") then "awaiting_approval" else st)) (gates d)).
Definition revived_run (row : LaneRun) : LaneRun :=
  run_status row (if bool_decide (lr_status row ∈ ["success"; "failed"; "canceled"]) then "running" else lr_status row).
Definition rerun_job (d : DB) (job : uuid) (rollback : bool) (names : list string) : option DB :=
  match jobs d !! job with
  | None => None
  | Some j =>
      match runs d !! lj_run j with
      | None => None
      | Some row =>
          if decide (lj_status j ∈ ["queued"; "running"]) then None
          else
            let d := with_jobs d (<[job := {| lj_run := lj_run j; lj_name := lj_name j; lj_status := "queued"; lj_rollback := rollback |}]> (jobs d)) in
            let d := with_runs d (<[lj_run j := revived_run row]> (runs d)) in
            clearRevivedGatePassMarkers (rearm_gates d (lj_run j) names) (lj_run j)
      end
  end.
Definition apply_project (d : DB) (pipelineID : uuid) (def : Pipeline) : option DB :=
  match pipelines d !! pipelineID with
  | Some live => Some (with_pipelines d (<[pipelineID := {| pl_project := pl_project live; pl_definition := def |}]> (pipelines d)))
  | None => None
  end.

(** ** The transition system *)

Inductive action :=
| BeginApprove (run : uuid) (gate : string) | DecideGate (quorum : bool) | MarkEnv | CommitGate
| BeginFreeze (project : uuid) (env : string) (on : bool) | CommitFreeze
| BeginDispatch (job : uuid) | CheckLane | CheckFreeze | Admit | Send_ | Rollback
| TakeLock | Die
| RejectGate (run : uuid) (gate : string) | CancelGate (run : uuid) (gate : string)
| SetRunStatus (run : uuid) (s : string) | EndJob (job : uuid) (s : string)
| CreateRun (run pipelineID : uuid) (ref : string) | CreateJob (job run : uuid) (name : string)
| RerunJob (job : uuid) (rollback : bool) (names : list string)
| ApplyProject (pipelineID : uuid) (def : Pipeline).

(** Which histories are considered. *)
Record flags := { reruns : bool; reapply : bool }.

Definition act (f : flags) (a : action) (k : nat) (w : World) : option World :=
  match a, threads w !! k with
  | BeginApprove run gate, _ => begin_approve w k run gate
  | DecideGate quorum, Some (Approving run gate taken []) => decide_gate w k run gate taken quorum
  | MarkEnv, Some (Passing run gate taken (env :: todo) inserts) => mark_env w k run gate taken env todo inserts
  | CommitGate, Some (Passing run gate _ [] inserts) => commit_gate w k run gate inserts
  | BeginFreeze project env on, None => Some (with_thread w k (ChangingFreeze project env on false))
  | CommitFreeze, Some (ChangingFreeze project env on true) => Some (commit_freeze w k project env on)
  | BeginDispatch job, _ => begin_dispatch w k job
  | CheckLane, Some (Dispatching d) => check_lane w k d
  | CheckFreeze, Some (Dispatching d) => check_freeze w k d
  | Admit, Some (Dispatching d) => admit_job w k d
  | Send_, Some (Dispatching d) => send w k d
  | Rollback, Some (Dispatching d) => rollback_assignment w k d
  | TakeLock, _ => take_lock w k
  | Die, Some _ => Some (finish w k)
  | RejectGate run gate, _ => reject_gate w run gate
  | CancelGate run gate, _ => cancel_gate w run gate
  | SetRunStatus run s, _ => with_db w <$> set_run_status (db w) run s
  | EndJob job s, _ => with_db w <$> end_job (db w) job s
  | CreateRun run pipelineID ref, _ => with_db w <$> create_run (db w) run pipelineID ref
  | CreateJob job run name, _ => with_db w <$> create_job (db w) job run name
  | RerunJob job rollback names, _ => if reruns f then with_db w <$> rerun_job (db w) job rollback names else None
  | ApplyProject pipelineID def, _ => if reapply f then with_db w <$> apply_project (db w) pipelineID def else None
  | _, _ => None
  end.
Definition step (f : flags) (w w' : World) : Prop := exists a k, act f a k w = Some w'.

(** An installation with its pipelines and nothing else. *)
Definition initial (w : World) : Prop :=
  runs (db w) = ∅ /\ gates (db w) = ∅ /\ jobs (db w) = ∅ /\ markers (db w) = ∅ /\ freezes (db w) = ∅ /\
  locks w = ∅ /\ threads w = ∅ /\ log w = [].
Definition reachable (f : flags) (w : World) : Prop := exists w0, initial w0 /\ rtc (step f) w0 w.

(** A history to run. *)
Fixpoint play (f : flags) (l : list (action * nat)) (w : World) : option World :=
  match l with [] => Some w | (a, k) :: l => w ← act f a k w; play f l w end.

(** ** Histories to run *)

(** Two gates in front of one deploy. *)
Definition lane_pipeline (mode : string) : Pipeline := {|
  Pipeline_ID := ""; ProjectID := ""; Pipeline_Name := "ship"; Materials := []; Stages := ["approve"; "deploy"];
  Jobs := [mk_job "qa" "approve" [] (Some mk_approval) None ""; mk_job "ops" "approve" [] (Some mk_approval) None "";
           mk_job "ship" "deploy" ["qa"; "ops"] None (Some (mk_deploy "prod")) ""];
  Pipeline_Variables := ∅; Template := ""; Concurrency := ""; Supersede := mode;
  TriggerEvents := []; TriggerBranches := []; TriggerPaths := []; Services := []; Notifications := None;
|}.
Definition installation (mode : string) : World := {|
  db := {| runs := ∅; gates := ∅; jobs := ∅; markers := ∅; freezes := ∅;
           pipelines := {[ 10%N := {| pl_project := 1; pl_definition := lane_pipeline mode |} ]} |};
  locks := ∅; threads := ∅; log := [];
|}.
Lemma played f mode l w : play f l (installation mode) = Some w -> reachable f w.
Proof.
  intros H. exists (installation mode). split; [by repeat split|]. revert H. generalize (installation mode).
  induction l as [|[a k] l IH]; intros w0 H; simpl in H; [injection H as ->; apply rtc_refl|].
  destruct (act f a k w0) as [w1|] eqn:E; [|done]. eapply rtc_l; [by exists a, k|]. by apply IH.
Qed.
(** A gate approved in one go. *)
Definition approve (run : uuid) (gate : string) (k : nat) : list (action * nat) :=
  (fun a => (a, k)) <$> [BeginApprove run gate; TakeLock; TakeLock; DecideGate true; MarkEnv; CommitGate].
Definition dispatch (job : uuid) (k : nat) : list (action * nat) :=
  (fun a => (a, k)) <$> [BeginDispatch job; CheckLane; TakeLock; CheckFreeze; Admit].
(** Two runs of a branch; the deploy of each is queued. *)
Definition two_runs : list (action * nat) :=
  (fun a => (a, 0)) <$> [CreateRun 1 10 "main"; CreateRun 2 10 "main"; CreateJob 101 1 "ship"; CreateJob 102 2 "ship"].
(** The gates of the newer run are approved at the same time: the second call waits
    for the lane lock and then counts the first one's row. *)
Definition both_gates : list (action * nat) :=
  [(BeginApprove 2 "qa", 1); (BeginApprove 2 "ops", 2); (TakeLock, 1); (TakeLock, 1); (DecideGate true, 1); (MarkEnv, 1); (CommitGate, 1);
   (TakeLock, 2); (TakeLock, 2); (DecideGate true, 2); (MarkEnv, 2); (CommitGate, 2)].
Lemma play_view {B} (view : World -> B) f l w0 w v : play f l w0 = Some w -> view <$> play f l w0 = Some v -> view w = v.
Proof. intros ->. by intros [= ->]. Qed.
(** What is seen at the end of a history. *)
Tactic Notation "seen" constr(view) "in" hyp(E) := apply (play_view view _ _ _ _ _ E); vm_compute; reflexivity.
