(* ===== verification/LaneProps.v ===== *)
(** The calls of [Lanes] under any interleaving: what each leaves alone, what a thread
    knows and holds, and that nothing enters a frozen environment. *)

From S2P Require Import Prelude GoStrings Domain NeedsGraph GateGraph Locks Lanes.

(** ** Frames *)

Ltac act_cases :=
  repeat match goal with
         | H : _ ≫= _ = Some _ |- _ => apply bind_Some in H as (? & ? & H)
         | H : fmap _ _ = Some _ |- _ => apply fmap_Some in H as (? & ? & ->)
         | H : (match ?x with _ => _ end) = Some _ |- _ => destruct x eqn:?; try discriminate H
         | H : Some _ = Some _ |- _ => injection H as <-
         end.

(** The branches of a call that succeeded. *)
Ltac open_act H :=
  unfold begin_approve, decide_gate, mark_env, commit_gate, begin_dispatch, check_lane, check_freeze, admit_job, send,
    rollback_assignment, take_lock, reject_gate, cancel_gate, set_run_status, end_job, create_run, create_job,
    rerun_job, revived_run, apply_project in H; act_cases.

Definition rows_kept (d d' : DB) : Prop :=
  (forall run row, runs d !! run = Some row -> exists s, runs d' !! run = Some (run_status row s)) /\
  pl_project <$> pipelines d' = pl_project <$> pipelines d.

Lemma run_status_same row : run_status row (lr_status row) = row.
Proof. by destruct row. Qed.
Lemma rows_kept_same d d' : runs d' = runs d -> pipelines d' = pipelines d -> rows_kept d d'.
Proof. intros Hr Hp. split; [|by rewrite Hp]. intros run row H. exists (lr_status row). by rewrite Hr, run_status_same. Qed.
Lemma rows_kept_status d run row s : runs d !! run = Some row -> rows_kept d (with_runs d (<[run := run_status row s]> (runs d))).
Proof.
  intros H. split; [|done]. intros run' row' H'. destruct (decide (run' = run)) as [->|Hne].
  - exists s. simpl. rewrite lookup_insert_eq. congruence.
  - exists (lr_status row'). simpl. by rewrite lookup_insert_ne, run_status_same by done.
Qed.
Lemma rows_kept_trans d1 d2 d3 : rows_kept d1 d2 -> rows_kept d2 d3 -> rows_kept d1 d3.
Proof.
  intros [H1 P1] [H2 P2]. split; [|congruence]. intros run row H.
  destruct (H1 run row H) as [s Hs]. destruct (H2 run _ Hs) as [s' Hs']. by exists s'.
Qed.

Lemma acquire_frame w o key w' : acquire w o key = Some w' ->
  db w' = db w /\ threads w' = threads w /\ log w' = log w.
Proof. unfold acquire. intros H. act_cases; done. Qed.

Ltac acquire_frames :=
  repeat match goal with
         | H : acquire _ _ _ = Some _ |- _ => let E := fresh "E" in pose proof (acquire_frame _ _ _ _ H) as (? & ? & ?); clear H
         end.

Lemma clear_markers_rows d run d' : clearRevivedGatePassMarkers d run = Some d' ->
  runs d' = runs d /\ gates d' = gates d /\ jobs d' = jobs d /\ freezes d' = freezes d /\ pipelines d' = pipelines d.
Proof. unfold clearRevivedGatePassMarkers. intros H. act_cases; done. Qed.

Lemma insert_marker_rows d run row env : let d' := InsertRunGatePass d run row env in
  runs d' = runs d /\ gates d' = gates d /\ jobs d' = jobs d /\ freezes d' = freezes d /\ pipelines d' = pipelines d.
Proof. unfold InsertRunGatePass. by destruct (_ !! _). Qed.
Lemma insert_markers_rows d run row envs : let d' := foldl (fun d env => InsertRunGatePass d run row env) d envs in
  runs d' = runs d /\ gates d' = gates d /\ jobs d' = jobs d /\ freezes d' = freezes d /\ pipelines d' = pipelines d.
Proof.
  revert d. induction envs as [|e envs IH]; intros d; cbn [foldl]; [done|].
  destruct (IH (InsertRunGatePass d run row e)) as (-> & -> & -> & -> & ->). apply insert_marker_rows.
Qed.

Lemma passed_db_rows d run row gate inserts : let d' := passed_db d run row gate inserts in
  runs d' = runs d /\ gates d' = <[(run, gate) := "success"]> (gates d) /\ jobs d' = jobs d /\ freezes d' = freezes d /\ pipelines d' = pipelines d.
Proof. exact (insert_markers_rows (with_gates d (<[(run, gate) := "success"]> (gates d))) run row inserts). Qed.

Lemma act_rows_kept f a k w w' : act f a k w = Some w' -> rows_kept (db w) (db w').
Proof.
  destruct a; cbn [act]; intros H;
    open_act H; acquire_frames;
    try (by apply rows_kept_same; simpl; congruence).
  - simpl. destruct (passed_db_rows (db w) run l gate inserts) as (E1 & _ & _ & _ & E2). by apply rows_kept_same.
  - by apply rows_kept_status.
  - split; [|done]. intros run' row' H'. exists (lr_status row'). simpl.
    rewrite lookup_insert_ne by congruence. by rewrite run_status_same.
  - match goal with H : clearRevivedGatePassMarkers _ _ = _ |- _ => apply clear_markers_rows in H as (E1 & _ & _ & _ & E2) end.
    eapply rows_kept_trans; [by apply (rows_kept_status _ (lj_run j) l (lr_status (revived_run l)))|]. by apply rows_kept_same.
  - split; [intros run row H; exists (lr_status row); simpl; by rewrite run_status_same|]. simpl.
    rewrite fmap_insert. apply insert_id. simpl. rewrite lookup_fmap.
    match goal with H : pipelines _ !! _ = _ |- _ => by rewrite H end.
Qed.

(** A call moves nothing but its own thread. *)
Lemma act_other f a k w w' k' : act f a k w = Some w' -> k' <> k -> threads w' !! k' = threads w !! k'.
Proof.
  destruct a; cbn [act]; intros H Hne;
    open_act H; acquire_frames;
    simpl in *; rewrite ?lookup_insert_ne, ?lookup_delete_ne by done; congruence.
Qed.

(** ** What a thread knows stays true *)

Definition planned (d : DB) (row : LaneRun) (gate : string) : option (list lock) :=
  match lr_definition row with
  | NoSnapshot => Some []
  | BadSnapshot => None
  | Snapshot def => Some (approval_locks (lr_pipeline row) (project_of d (lr_pipeline row)) (lr_ref row) def gate)
  end.
Definition thread_ok (d : DB) (t : thread) : Prop :=
  match t with
  | Approving run gate taken want => exists row, runs d !! run = Some row /\ planned d row gate = Some (taken ++ want)
  | Passing run gate taken todo inserts =>
      exists row done, runs d !! run = Some row /\ planned d row gate = Some taken /\
        marked_envs (lr_definition row) gate = Some (done ++ todo) /\ inserts ⊆ done
  | ChangingFreeze _ _ _ _ => True
  | Dispatching x =>
      (exists row, runs d !! d_run x = Some row /\ d_pipeline x = lr_pipeline row /\ d_ref x = lr_ref row /\
         d_counter x = lr_counter row /\ d_project x = project_of d (d_pipeline x)) /\
      (forall mode, d_lane x = Some mode -> supersedes mode = true) /\ (d_at x = LaneLocked -> d_lane x <> None)
  end.

Lemma project_of_kept d d' p : rows_kept d d' -> project_of d' p = project_of d p.
Proof.
  intros [_ H]. unfold project_of. apply (f_equal (.!! p)) in H. rewrite !lookup_fmap in H.
  destruct (pipelines d' !! p), (pipelines d !! p); simpl in H; congruence.
Qed.
Lemma thread_ok_kept d d' t : rows_kept d d' -> thread_ok d t -> thread_ok d' t.
Proof.
  intros Hk. pose proof (fun p => project_of_kept d d' p Hk) as Hp. destruct Hk as [Hr _].
  destruct t as [run gate taken want|run gate taken todo inserts| |x]; cbn [thread_ok]; [| |done|].
  - intros (row & H & Hl). destruct (Hr _ _ H) as [s Hs]. exists (run_status row s). split; [done|].
    unfold planned in *. simpl. by rewrite Hp.
  - intros (row & dn & H & Hl & Hm & Hi). destruct (Hr _ _ H) as [s Hs]. exists (run_status row s), dn. split_and!; [done| |done..].
    unfold planned in *. simpl. by rewrite Hp.
  - intros [(row & H & H1 & H2 & H3 & H4) H5]. destruct (Hr _ _ H) as [s Hs]. split; [|done].
    exists (run_status row s). rewrite Hp. done.
Qed.

Lemma marked_planned d row gate : marked_envs (lr_definition row) gate <> None -> exists taken, planned d row gate = Some taken.
Proof. unfold marked_envs, planned. destruct (lr_definition row); naive_solver. Qed.

Lemma thread_ok_phase d x p : thread_ok d (Dispatching x) -> p <> LaneLocked -> thread_ok d (Dispatching (at_phase x p)).
Proof. intros (H1 & H2 & H3) Hp. split_and!; [done..|]. by intros. Qed.
Lemma thread_ok_got d t l : thread_ok d t -> wants t = Some l -> thread_ok d (got_lock t).
Proof.
  destruct t as [run gate taken [|l' want]| |project env on []|x]; simpl; try done.
  - intros (row & H & Hp) _. exists row. by rewrite <- app_assoc.
  - intros H _. by apply (thread_ok_phase d x).
Qed.
Lemma begin_dispatch_ok w k job w' : begin_dispatch w k job = Some w' ->
  threads w !! k = None /\ exists x, threads w' !! k = Some (Dispatching x) /\ thread_ok (db w) (Dispatching x) /\
    db w' = db w /\ (d_at x = LaneLocked \/ d_at x = LaneClear) /\ (d_at x = LaneLocked <-> d_lane x <> None) /\
    (forall mode, d_lane x = Some mode -> exists row live, runs (db w) !! d_run x = Some row /\
       pipelines (db w) !! lr_pipeline row = Some live /\ mode = Supersede (pl_definition live) /\
       acquire w (k, true) (LaneEnvLockKey (d_pipeline x) mode (d_ref x) (d_env x)) = Some {| db := db w'; locks := locks w'; threads := threads w; log := log w |}) /\
    (d_lane x = None -> locks w' = locks w).
Proof.
  unfold begin_dispatch. intros H. act_cases; (split; [done|]); eexists; (split; [simpl; apply lookup_insert_eq|]).
  - match goal with H : acquire _ _ _ = Some _ |- _ => pose proof (acquire_frame _ _ _ _ H) as (Ed & Et & El); rename H into Ha end.
    match goal with H : _ && _ && _ = true |- _ => apply andb_true_iff in H as [_ Hs] end.
    simpl; split_and!; try done.
    + exists l. split_and!; [done..|]. unfold project_of. by match goal with H : pipelines _ !! _ = _ |- _ => rewrite H end.
    + intros mode [= <-]. done.
    + by left.
    + intros mode [= <-]. exists l, p. split_and!; [done..|]. rewrite Ha. destruct x. simpl in *. by subst.
  - simpl; split_and!; try done; [|by right].
    exists l. split_and!; [done..|]. unfold project_of. by match goal with H : pipelines _ !! _ = _ |- _ => rewrite H end.
Qed.

Lemma act_thread_ok f a k w w' t' : act f a k w = Some w' ->
  (forall t, threads w !! k = Some t -> thread_ok (db w) t) -> threads w' !! k = Some t' -> thread_ok (db w') t'.
Proof.
  intros H Hok Ht'. pose proof (act_rows_kept _ _ _ _ _ H) as Hk. revert H.
  assert (Hsame : threads w' !! k = threads w !! k -> thread_ok (db w') t').
  { intros E. eapply thread_ok_kept; [done|]. apply Hok. by rewrite <- E. }
  intros H. destruct a as [| | | | | |job| | | | | | | | | | | | | | |]; cbn [act] in H.
  7: { destruct (begin_dispatch_ok _ _ _ _ H) as (_ & x & Hx & Hokx & -> & _). by simplify_eq. }
  all: open_act H; acquire_frames;
    simpl in Ht'; rewrite ?lookup_insert_eq, ?lookup_delete_eq in Ht'; simplify_eq; try (by apply Hsame; simpl; congruence);
    try specialize (Hok _ eq_refl);
    try match goal with E : threads _ !! _ = Some ?t |- _ => specialize (Hok t E) end;
    eapply thread_ok_kept; try exact Hk; try done.
  - exists l. unfold planned. match goal with H : lr_definition _ = _ |- _ => by rewrite H end.
  - exists l. unfold planned. match goal with H : lr_definition _ = _ |- _ => by rewrite H end.
  - destruct Hok as (row & Hr & Hp). simplify_eq. rewrite app_nil_r in Hp. by exists row, [].
  - destruct Hok as (row & dn & Hr & Hp & Hm & Hi). exists row, (dn ++ [s]). rewrite <- app_assoc. split_and!; [done..|].
    case_match; set_solver.
  - by apply thread_ok_phase.
  - by apply thread_ok_phase.
  - by apply (thread_ok_phase (db w) d Claimed_).
  - by eapply thread_ok_got.
Qed.

Definition threads_ok (w : World) : Prop := forall k t, threads w !! k = Some t -> thread_ok (db w) t.
Lemma act_threads_ok f a k w w' : act f a k w = Some w' -> threads_ok w -> threads_ok w'.
Proof.
  intros H Hok k' t Ht. destruct (decide (k' = k)) as [->|Hne].
  - eapply act_thread_ok; [done| |done]. apply Hok.
  - rewrite (act_other _ _ _ _ _ _ H Hne) in Ht. eapply thread_ok_kept; [by eapply act_rows_kept|]. by eapply Hok.
Qed.

(** ** The lock table *)

Definition held (t : thread) : list (lock * bool) :=
  match t with
  | Approving _ _ taken _ | Passing _ _ taken _ _ => (fun l => (l, false)) <$> taken
  | ChangingFreeze project env _ true => [(FreezeLock project env, false)]
  | ChangingFreeze _ _ _ false => []
  | Dispatching x =>
      match d_lane x with Some mode => [(LaneLock (d_pipeline x) mode (d_ref x) (d_env x), true)] | None => [] end ++
      match d_at x with FreezeLocked_ | Thawed_ => [(FreezeLock (d_project x) (d_env x), false)] | _ => [] end
  end.
Definition held_of (o : option thread) : list (lock * bool) := match o with Some t => held t | None => [] end.
(** The table holds exactly what the threads have taken. *)
Definition table (L : gmap Z owner) (T : gmap nat thread) : Prop :=
  forall key k g, L !! key = Some (k, g) <-> exists l, (l, g) ∈ held_of (T !! k) /\ lock_key l = key.

Lemma table_finish L T k : table L T -> table (filter (fun kv : Z * owner => kv.2.1 <> k) L) (delete k T).
Proof.
  intros H key k' g. unfold table in H. rewrite map_lookup_filter_Some, H. simpl. destruct (decide (k' = k)) as [->|Hne].
  - rewrite lookup_delete_eq. simpl. split; [by intros [_ ?]|by intros (l & ?%elem_of_nil & _)].
  - rewrite lookup_delete_ne by done. naive_solver.
Qed.
Lemma table_replace L T k t : table L T -> (forall p, p ∈ held t <-> p ∈ held_of (T !! k)) -> table L (<[k := t]> T).
Proof.
  intros H Hh key k' g. unfold table in H. rewrite H. destruct (decide (k' = k)) as [->|Hne].
  - rewrite lookup_insert_eq. simpl. by setoid_rewrite Hh.
  - by rewrite lookup_insert_ne.
Qed.
Lemma table_take L T k g l t : table L T -> L !! lock_key l = None \/ L !! lock_key l = Some (k, g) ->
  (forall p, p ∈ held t <-> p = (l, g) \/ p ∈ held_of (T !! k)) -> table (<[lock_key l := (k, g)]> L) (<[k := t]> T).
Proof.
  intros H Hfree Hh key k' g'. unfold table in H. destruct (decide (key = lock_key l)) as [->|Hk].
  - rewrite lookup_insert_eq. split.
    + intros [= <- <-]. exists l. rewrite lookup_insert_eq. simpl. rewrite Hh. auto.
    + intros (l' & Hl' & E). destruct (decide (k' = k)) as [->|Hne].
      * rewrite lookup_insert_eq in Hl'. simpl in Hl'. apply Hh in Hl' as [[= -> ->]|Hl']; [done|].
        assert (L !! lock_key l = Some (k, g')) as E' by (rewrite H; by exists l').
        destruct Hfree as [Hf|Hf]; congruence.
      * rewrite lookup_insert_ne in Hl' by done.
        assert (L !! lock_key l = Some (k', g')) as E' by (rewrite H; by exists l').
        destruct Hfree as [Hf|Hf]; congruence.
  - rewrite lookup_insert_ne, H by done. destruct (decide (k' = k)) as [->|Hne].
    + rewrite lookup_insert_eq. simpl. setoid_rewrite Hh. split; [naive_solver|].
      intros (l' & [[= -> ->]|Hl'] & E); [congruence|]. by exists l'.
    + by rewrite lookup_insert_ne.
Qed.
Lemma table_end_tx L T k t : table L T -> (forall p, p ∈ held t <-> p ∈ held_of (T !! k) /\ p.2 = true) ->
  table (filter (fun kv : Z * owner => kv.2 <> (k, false)) L) (<[k := t]> T).
Proof.
  intros H Hh key k' g. unfold table in H. rewrite map_lookup_filter_Some, H. simpl. destruct (decide (k' = k)) as [->|Hne].
  - rewrite lookup_insert_eq. simpl. setoid_rewrite Hh. simpl. split.
    + intros [(l & Hl & E) Hg]. exists l. split_and!; [done| |done]. by destruct g.
    + intros (l & [Hl ->] & E). split; [by exists l|done].
  - rewrite lookup_insert_ne by done. naive_solver.
Qed.
Lemma acquire_table w o key w' : acquire w o key = Some w' ->
  locks w' = <[key := o]> (locks w) /\ (locks w !! key = None \/ locks w !! key = Some o).
Proof.
  unfold acquire. intros H. act_cases; simpl; [|auto]. subst. split; [by rewrite insert_id|auto].
Qed.
Lemma acquire_held w k l w' g : table (locks w) (threads w) -> (l, g) ∈ held_of (threads w !! k) ->
  acquire w (k, g) (lock_key l) = Some w' -> w' = w.
Proof.
  intros H Hl. assert (locks w !! lock_key l = Some (k, g)) as E by (apply H; by exists l).
  unfold acquire. rewrite E, decide_True by done. congruence.
Qed.

Lemma take_lock_held t l : wants t = Some l -> forall p, p ∈ held (got_lock t) <-> p = (l, false) \/ p ∈ held t.
Proof.
  intros Hw p. destruct t as [run gate taken [|l' want]| |project env on []|x]; simpl in *; try discriminate.
  - injection Hw as ->. rewrite fmap_app, elem_of_app. simpl. rewrite list_elem_of_singleton. tauto.
  - injection Hw as <-. rewrite list_elem_of_singleton. set_solver.
  - destruct (d_at x); try discriminate. injection Hw as <-. unfold at_phase. simpl. rewrite !elem_of_app, list_elem_of_singleton.
    set_solver.
Qed.

(** The lane lock of a marked environment is one the approval has taken. *)
Lemma planned_lane d row def gate env taken : planned d row gate = Some taken -> lr_definition row = Snapshot def ->
  supersedes (Supersede def) = true -> env ∈ GovernedEnvs def gate ->
  LaneLock (lr_pipeline row) (Supersede def) (lr_ref row) env ∈ taken.
Proof.
  unfold planned. intros H E Hs He. rewrite E in H. injection H as <-. unfold approval_locks. rewrite Hs.
  apply elem_of_app. left. by apply list_elem_of_fmap_2.
Qed.
Lemma planned_freeze d row gate env taken : planned d row gate = Some taken -> env ∈ freeze_envs (lr_definition row) gate ->
  FreezeLock (project_of d (lr_pipeline row)) env ∈ taken.
Proof.
  unfold planned, freeze_envs. destruct (lr_definition row) as [| |def]; [by intros _ ?%elem_of_nil|done|].
  intros [= <-] He. unfold approval_locks. apply elem_of_app. right. by apply list_elem_of_fmap_2.
Qed.
Lemma marked_lane s gate l env : marked_envs s gate = Some l -> env ∈ l ->
  exists def, s = Snapshot def /\ supersedes (Supersede def) = true /\ env ∈ GovernedEnvs def gate.
Proof.
  unfold marked_envs. destruct s as [| |def]; [by intros [= <-] ?%elem_of_nil|done|].
  destruct (supersedes (Supersede def)) eqn:E; intros [= <-] He; [by exists def|by apply elem_of_nil in He].
Qed.

Ltac at_thread := match goal with E : threads _ !! _ = _ |- _ => rewrite E end.
Lemma mark_env_acquire w k run gate taken env todo inserts w' row def :
  threads_ok w -> table (locks w) (threads w) -> threads w !! k = Some (Passing run gate taken (env :: todo) inserts) ->
  runs (db w) !! run = Some row -> lr_definition row = Snapshot def ->
  acquire w (k, false) (LaneEnvLockKey (lr_pipeline row) (Supersede def) (lr_ref row) env) = Some w' -> w' = w.
Proof.
  intros Hok Ht Hk Hr Hd. destruct (Hok _ _ Hk) as (row' & dn & Hr' & Hp & Hm & _). simplify_eq.
  destruct (marked_lane _ _ _ env Hm) as (def' & Hd' & Hs & He); [set_solver|]. assert (def' = def) as -> by congruence.
  apply (acquire_held w k (LaneLock (lr_pipeline row) (Supersede def) (lr_ref row) env)); [done|].
  rewrite Hk. simpl. apply list_elem_of_fmap. eexists. split; [done|by eapply planned_lane].
Qed.

Lemma act_table f a k w w' : act f a k w = Some w' -> threads_ok w -> table (locks w) (threads w) -> table (locks w') (threads w').
Proof.
  intros H Hok Ht. destruct a as [| | | | | |job| | | | | | | | | | | | | | |]; cbn [act] in H.
  7: { destruct (begin_dispatch_ok _ _ _ _ H) as (Hn & x & Hx & _ & Ed & Hph & Hlp & Hla & Hlk).
       assert (threads w' = <[k := Dispatching x]> (threads w)) as ->.
       { apply map_eq. intros k'. destruct (decide (k' = k)) as [->|Hne]; [by rewrite lookup_insert_eq|].
         rewrite lookup_insert_ne by done. eapply (act_other f (BeginDispatch job)); [exact H|done]. }
       destruct (d_lane x) as [mode|] eqn:El.
       - destruct (Hla mode eq_refl) as (row & live & _ & _ & _ & Ha). apply acquire_table in Ha as [E Hfree]. cbn [locks] in E. rewrite E.
         apply (table_take _ _ k true (LaneLock (d_pipeline x) mode (d_ref x) (d_env x))); [done..|].
         intros p. rewrite Hn. simpl. rewrite El. destruct Hph as [-> | ->]; simpl; rewrite list_elem_of_singleton; set_solver.
       - rewrite Hlk by done. apply table_replace; [done|]. intros p. rewrite Hn. simpl. rewrite El.
         destruct Hph as [-> | ->]; done. }
  all: open_act H; try (by apply table_finish); try exact Ht; simpl.
  4: match goal with E : acquire _ _ _ = Some ?x |- _ => assert (x = w) as -> by (by eapply mark_env_acquire) end.
  1-7: apply table_replace; [done|]; at_thread; simpl; try match goal with E : d_at _ = _ |- _ => rewrite E end; done.
  - apply table_end_tx; [done|]. at_thread. intros p. simpl. match goal with E : d_at d = _ |- _ => rewrite E end.
    rewrite !elem_of_app, list_elem_of_singleton, elem_of_nil. destruct (d_lane d); rewrite ?list_elem_of_singleton, ?elem_of_nil; naive_solver.
  - match goal with E : acquire _ _ _ = _ |- _ => pose proof (acquire_frame _ _ _ _ E) as (_ & -> & _); apply acquire_table in E as [-> Hfree] end.
    apply table_take; [done..|]. at_thread. simpl. by apply take_lock_held.
Qed.

(** ** What is written when *)

Inductive written (k : nat) (w w' : World) : Prop :=
| wrote_nothing : freezes (db w') = freezes (db w) -> log w' = log w -> written k w w'
| wrote_freeze project env on :
    threads w !! k = Some (ChangingFreeze project env on true) -> w' = commit_freeze w k project env on -> written k w w'
| wrote_gate run gate taken inserts row :
    threads w !! k = Some (Passing run gate taken [] inserts) -> runs (db w) !! run = Some row ->
    freezes (db w') = freezes (db w) -> db w' = passed_db (db w) run row gate inserts ->
    log w' = rev (Passed run gate :: (Cleared run <$> inserts)) ++ log w -> written k w w'
| wrote_claim x :
    threads w !! k = Some (Dispatching x) -> d_at x = Thawed_ -> freezes (db w') = freezes (db w) ->
    log w' = Entered (d_job x) (d_project x) (d_env x) :: log w -> written k w w'
| wrote_sent x :
    threads w !! k = Some (Dispatching x) -> d_at x = Claimed_ -> freezes (db w') = freezes (db w) ->
    log w' = Sent (d_job x) (d_run x) (d_env x) (d_lane x) :: log w -> db w' = db w -> written k w w'.

Lemma act_written f a k w w' : act f a k w = Some w' -> written k w w'.
Proof.
  intros H. destruct a; cbn [act] in H; open_act H; acquire_frames;
    try (by apply wrote_nothing; simpl; congruence).
  - eapply wrote_gate; [done..| |done|done]. simpl. by apply passed_db_rows.
  - by eapply wrote_freeze.
  - by eapply wrote_claim.
  - by eapply wrote_sent.
  - match goal with H : clearRevivedGatePassMarkers _ _ = _ |- _ => apply clear_markers_rows in H as (_ & _ & _ & E & _) end.
    by apply wrote_nothing.
Qed.

(** ** Freezes *)

(** The environments a thread has found open, under their locks. *)
Definition relies (d : DB) (t : thread) : list (uuid * string) :=
  match t with
  | Passing run gate _ _ _ =>
      match runs d !! run with
      | Some row => (fun e => (project_of d (lr_pipeline row), e)) <$> freeze_envs (lr_definition row) gate
      | None => []
      end
  | Dispatching x => match d_at x with Thawed_ => [(d_project x, d_env x)] | _ => [] end
  | _ => []
  end.
Lemma relies_held d t p e : thread_ok d t -> (p, e) ∈ relies d t -> (FreezeLock p e, false) ∈ held t.
Proof.
  destruct t as [|run gate taken todo ins| |x]; simpl; try (by intros _ ?%elem_of_nil).
  - intros (row & dn & -> & Hp & _) H. apply list_elem_of_fmap in H as (e' & [= -> ->] & He).
    apply list_elem_of_fmap. eexists. split; [done|]. by eapply planned_freeze.
  - intros _ H. apply elem_of_app. right. destruct (d_at x); try (by apply elem_of_nil in H).
    apply list_elem_of_singleton in H as [= -> ->]. by apply list_elem_of_singleton.
Qed.
Lemma relies_kept d d' t : rows_kept d d' -> thread_ok d t -> relies d' t = relies d t.
Proof.
  intros Hk. pose proof (fun p => project_of_kept d d' p Hk) as Hp. destruct Hk as [Hr _].
  destruct t as [|run gate taken todo ins| |x]; simpl; try done.
  intros (row & dn & H & _). destruct (Hr _ _ H) as [s ->]. rewrite H. simpl. by rewrite Hp.
Qed.

Fixpoint frozen_by (l : list event) : gset (uuid * string) :=
  match l with
  | [] => ∅
  | Froze p e :: l => frozen_by l ∪ {[(p, e)]}
  | Unfroze p e :: l => frozen_by l ∖ {[(p, e)]}
  | _ :: l => frozen_by l
  end.

Lemma frozen_by_quiet l l' :
  Forall (fun ev => match ev with Froze _ _ | Unfroze _ _ => False | _ => True end) l -> frozen_by (l ++ l') = frozen_by l'.
Proof. induction 1 as [|ev l Hev _ IH]; [done|]. simpl. by destruct ev. Qed.

Record sound (w : World) : Prop := {
  s_threads : threads_ok w;
  s_table : table (locks w) (threads w);
  s_freezes : freezes (db w) = frozen_by (log w);
  s_open : forall k t, threads w !! k = Some t -> forall pe, pe ∈ relies (db w) t -> pe ∉ freezes (db w);
}.

Lemma holds_unique w k k' t t' l l' g g' : table (locks w) (threads w) ->
  threads w !! k = Some t -> threads w !! k' = Some t' -> (l, g) ∈ held t -> (l', g') ∈ held t' ->
  lock_key l = lock_key l' -> k = k' /\ g = g'.
Proof.
  intros Ht Hk Hk' Hl Hl' E.
  assert (locks w !! lock_key l = Some (k, g)) as E1 by (apply Ht; exists l; by rewrite Hk).
  assert (locks w !! lock_key l = Some (k', g')) as E2 by (apply Ht; exists l'; by rewrite Hk').
  split; congruence.
Qed.

Lemma act_open f a k w w' t : act f a k w = Some w' -> sound w -> threads w' !! k = Some t ->
  forall pe, pe ∈ relies (db w') t -> pe ∉ freezes (db w').
Proof.
  intros H Hs Ht pe Hpe. pose proof (act_rows_kept _ _ _ _ _ H) as Hk. destruct Hs as [Hok _ _ Hopen].
  assert (Hok' : forall t, threads w !! k = Some t -> thread_ok (db w) t) by (intros; by eapply Hok).
  assert (Hsame : threads w' !! k = threads w !! k -> freezes (db w') = freezes (db w) -> pe ∉ freezes (db w')).
  { intros E ->. rewrite E in Ht. apply (Hopen k t Ht). by rewrite <- (relies_kept (db w) (db w')) by eauto. }
  destruct a; cbn [act] in H; open_act H; acquire_frames; simpl in Ht;
    rewrite ?lookup_insert_eq, ?lookup_delete_eq in Ht; simplify_eq; try (by apply Hsame; simpl; congruence);
    try (by apply elem_of_nil in Hpe).
  - simpl in Hpe |- *. match goal with H : runs _ !! run = _ |- _ => rewrite H in Hpe end.
    apply list_elem_of_fmap in Hpe as (e & -> & He). match goal with H : _ || _ = false |- _ => apply orb_false_iff in H as [_ Hf] end.
    apply negb_false_iff, bool_decide_eq_true in Hf. intros Hin. apply (elem_of_nil e). rewrite <- Hf. by apply list_elem_of_filter.
  - simpl in Hpe |- *. match goal with E : db x = _ |- _ => rewrite E in Hpe |- * end. eapply (Hopen k); [done|]. done.
  - simpl in Hpe |- *. apply list_elem_of_singleton in Hpe as ->. done.
  - destruct t0 as [? ? ? [|]| |? ? ? []|x0]; simpl in *; try done; try (by apply elem_of_nil in Hpe).
  - match goal with H : clearRevivedGatePassMarkers _ _ = _ |- _ => apply clear_markers_rows in H as (_ & _ & _ & E & _) end.
    by apply Hsame.
Qed.

Lemma act_sound f a k w w' : act f a k w = Some w' -> sound w -> sound w'.
Proof.
  intros H Hs. split.
  - eapply act_threads_ok; [done|apply Hs].
  - eapply act_table; [done|apply Hs..].
  - destruct (act_written _ _ _ _ _ H) as [E1 E2|p e on Hk ->|run gate taken ins row _ _ E1 _ E2|x _ _ E1 E2|x _ _ E1 E2 _].
    + rewrite E1, E2. apply Hs.
    + simpl. rewrite (s_freezes w Hs). by destruct on.
    + rewrite E1, E2, (s_freezes w Hs), frozen_by_quiet; [done|]. apply Forall_rev. constructor; [done|].
      apply Forall_fmap, Forall_true. done.
    + rewrite E1, E2. apply Hs.
    + rewrite E1, E2. apply Hs.
  - intros k' t Ht pe Hpe. destruct (decide (k' = k)) as [->|Hne]; [by eapply act_open|].
    pose proof Ht as Ht'. rewrite (act_other _ _ _ _ _ _ H Hne) in Ht'. pose proof (s_threads w Hs _ _ Ht') as Hokt.
    rewrite (relies_kept (db w) (db w')) in Hpe; [|by eapply act_rows_kept|done].
    pose proof (s_open w Hs _ _ Ht' pe Hpe) as Ho.
    destruct (act_written _ _ _ _ _ H) as [E1 _|p e on Hk ->|? ? ? ? ? _ _ E1 _ _|x _ _ E1 _|x _ _ E1 _ _]; try by rewrite E1.
    simpl. destruct on; [|set_solver]. intros [Hin|Hin%elem_of_singleton]%elem_of_union; [done|]. subst pe.
    destruct (holds_unique w k k' _ t (FreezeLock p e) (FreezeLock p e) false false (s_table w Hs) Hk Ht') as [Hkk _]; [|by apply relies_held with (db w)|done|done].
    by apply list_elem_of_singleton.
Qed.

Lemma initial_sound w : initial w -> sound w.
Proof.
  intros (_ & _ & _ & _ & Hf & Hl & Ht & Hlog). split.
  - intros k t. by rewrite Ht, lookup_empty.
  - intros key k g. rewrite Hl, Ht, !lookup_empty. simpl. split; [done|]. by intros (l & ?%elem_of_nil & _).
  - by rewrite Hf, Hlog.
  - intros k t. by rewrite Ht, lookup_empty.
Qed.
Lemma rtc_invariant {f} (P : World -> Prop) w w' : rtc (step f) w w' ->
  (forall a k w w', act f a k w = Some w' -> P w -> P w') -> P w -> P w'.
Proof. intros Hr Hs. induction Hr as [|x y z (a & k & H) _ IH]; [done|]. intros Hx. apply IH. by eapply Hs. Qed.
Lemma lanes_sound f w : reachable f w -> sound w.
Proof. intros (w0 & H0 & Hr). eapply rtc_invariant; [done| |by apply initial_sound]. apply act_sound. Qed.

(** ** Histories *)

(** Every event is right with respect to the ones before it; the newest is first. *)
Fixpoint all_after (P : event -> list event -> Prop) (l : list event) : Prop :=
  match l with [] => True | ev :: l => P ev l /\ all_after P l end.
Lemma all_after_split P l l1 ev l2 : all_after P l -> l = l1 ++ ev :: l2 -> P ev l2.
Proof. intros H ->. induction l1 as [|x l1 IH]; simpl in H; [apply H|]. apply IH, H. Qed.
Lemma all_after_app P l l' : Forall (fun ev => forall t, P ev t) l -> all_after P l' -> all_after P (l ++ l').
Proof. induction 1 as [|ev l Hev _ IH]; [done|]. intros H. split; [apply Hev|by apply IH]. Qed.
Lemma all_after_mono (P Q : event -> list event -> Prop) l : (forall ev t, ev ∈ l -> P ev t -> Q ev t) -> all_after P l -> all_after Q l.
Proof.
  induction l as [|ev l IH]; [done|]. intros HPQ [H1 H2]. split; [apply HPQ; [set_solver|done]|].
  apply IH; [|done]. intros ev' t Hin. apply HPQ. set_solver.
Qed.

(** What was open when the event was written. *)
Definition entered_open (d : DB) (ev : event) (before : list event) : Prop :=
  match ev with
  | Entered _ project env => (project, env) ∉ frozen_by before
  | Passed run gate => exists row, runs d !! run = Some row /\ forall env, env ∈ freeze_envs (lr_definition row) gate ->
      (project_of d (lr_pipeline row), env) ∉ frozen_by before
  | _ => True
  end.
Lemma entered_open_kept d d' ev l : rows_kept d d' -> entered_open d ev l -> entered_open d' ev l.
Proof.
  intros Hk. destruct ev; try done. simpl. intros (row & Hr & H). pose proof (project_of_kept d d' (lr_pipeline row) Hk) as Hp.
  destruct Hk as [Hk _]. destruct (Hk _ _ Hr) as [s Hs]. exists (run_status row s). simpl. by rewrite Hp.
Qed.
Lemma cleared_quiet (P : event -> list event -> Prop) run inserts : (forall e t, P (Cleared run e) t) -> Forall (fun ev => forall t, P ev t) (rev (Cleared run <$> inserts)).
Proof. intros H. apply Forall_rev, Forall_fmap, Forall_true. intros e t. apply H. Qed.

Lemma act_entered_open f a k w w' : act f a k w = Some w' -> sound w ->
  all_after (entered_open (db w)) (log w) -> all_after (entered_open (db w')) (log w').
Proof.
  intros H Hs Hall. pose proof (act_rows_kept _ _ _ _ _ H) as Hk.
  assert (Hkept : all_after (entered_open (db w')) (log w)).
  { eapply all_after_mono; [|done]. intros ev t _. by apply entered_open_kept. }
  destruct (act_written _ _ _ _ _ H) as [_ E|p e on _ ->|run gate taken ins row Ht Hr E1 _ E2|x Ht Hd E1 E2|x _ _ _ E _].
  - by rewrite E.
  - simpl. destruct on; by split.
  - rewrite E2. simpl. rewrite <- app_assoc. cbn [app]. apply all_after_app; [by apply cleared_quiet|]. split; [|done].
    apply (entered_open_kept (db w)); [done|]. exists row. split; [done|]. intros env He.
    rewrite <- (s_freezes w Hs). apply (s_open w Hs k _ Ht). simpl. rewrite Hr. by apply list_elem_of_fmap_2.
  - rewrite E2. split; [|done]. simpl. rewrite <- (s_freezes w Hs). apply (s_open w Hs k _ Ht). simpl. rewrite Hd. by apply list_elem_of_singleton.
  - rewrite E. by split.
Qed.

(** C25: a change freeze holds - in every history of approvals, dispatches and freezes,
    interleaved at every lock and cut short anywhere, no job is admitted to an
    environment between the moment its freeze is answered and the moment the freeze is
    lifted, and no gate is passed that governs a deploy or a migration to it; whoever
    reads the table sees exactly the freezes answered and not lifted. *)
Theorem freeze_holds (f : flags) (w : World) (before after : list event) (ev : event) :
  reachable f w -> log w = after ++ ev :: before ->
  freezes (db w) = frozen_by (log w) /\ entered_open (db w) ev before.
Proof.
  intros (w0 & H0 & Hr) E.
  assert (sound w /\ all_after (entered_open (db w)) (log w)) as [Hs Hall].
  { eapply (rtc_invariant (fun w => sound w /\ all_after (entered_open (db w)) (log w))); [done| |].
    - intros a k w1 w2 H [Hs Hall]. split; [by eapply act_sound|by eapply act_entered_open].
    - split; [by apply initial_sound|]. destruct H0 as (_ & _ & _ & _ & _ & _ & _ & ->). done. }
  split; [apply Hs|]. by eapply all_after_split.
Qed.

(** A freeze, lifted; a gate; and a freeze that stops the second gate of the run. *)
Definition freezing (on : bool) (k : nat) : list (action * nat) := (fun a => (a, k)) <$> [BeginFreeze 1 "prod" on; TakeLock; CommitFreeze].
Definition frozen_story : list (action * nat) :=
  two_runs ++ freezing true 1 ++ freezing false 2 ++ approve 2 "qa" 3 ++ freezing true 4.
Definition all_flags : flags := {| reruns := true; reapply := true |}.
Example second_gate_refused :
  play all_flags (frozen_story ++ approve 2 "ops" 5) (installation "branch") = None.
Proof. vm_compute. reflexivity. Qed.
Lemma freeze_holds_witness : exists w, play all_flags frozen_story (installation "branch") = Some w /\
  log w = [Froze 1 "prod"; Passed 2 "qa"; Unfroze 1 "prod"; Froze 1 "prod"] /\
  freezes (db w) = frozen_by (log w) /\ entered_open (db w) (Passed 2 "qa") [Unfroze 1 "prod"; Froze 1 "prod"].
Proof.
  destruct (play all_flags frozen_story (installation "branch")) as [w|] eqn:E; [|vm_compute in E; discriminate E].
  exists w. split; [done|]. pose proof (played all_flags "branch" frozen_story w E) as Hw.
  assert (log w = [Froze 1 "prod"; Passed 2 "qa"; Unfroze 1 "prod"; Froze 1 "prod"]) as El by (seen log in E).
  clear E. split; [exact El|]. exact (freeze_holds all_flags w _ [Froze 1 "prod"] (Passed 2 "qa") Hw El).
Defined.
