(* ===== verification/LaneMarkers.v ===== *)
(** The markers of [run_gate_pass] under any interleaving of the calls of [Lanes]: a
    run has its marker for an environment exactly when all the gates that govern it
    have passed. *)

From S2P Require Import Prelude GoStrings Domain NeedsGraph GateGraph Locks Lanes LaneProps.

(** ** Markers *)

Lemma count_passed d run names : NoDup names ->
  CountPassedGates d run names = length (filter (fun g => gates d !! (run, g) = Some "success") names).
Proof.
  intros Hn. unfold CountPassedGates. rewrite <- length_map_to_list.
  rewrite <- (length_fmap fst), <- (length_fmap (pair run) (filter _ names)). apply Permutation_length, NoDup_Permutation.
  - apply NoDup_fst_map_to_list.
  - apply NoDup_fmap; [by intros ? ? [=]|]. by apply NoDup_filter.
  - intros [r g]. rewrite !list_elem_of_fmap. split.
    + intros ([[r' g'] st] & [= -> ->] & H). apply elem_of_map_to_list, map_lookup_filter_Some in H as (H & Hc). simpl in *.
      destruct Hc as (-> & Hg & ->). exists g'. split; [done|]. by apply list_elem_of_filter.
    + intros (g' & [= -> ->] & (H & Hg)%list_elem_of_filter). exists ((run, g'), "success"). split; [done|].
      by apply elem_of_map_to_list, map_lookup_filter_Some.
Qed.
Lemma filter_all {A} (P : A -> Prop) `{forall x, Decision (P x)} (l : list A) : length l <= length (filter P l) <-> forall x, x ∈ l -> P x.
Proof.
  induction l as [|x l IH]; [set_solver|]. rewrite filter_cons. case_decide as Hx; simpl.
  - rewrite <- Nat.succ_le_mono, IH. set_solver.
  - pose proof (length_filter P l). split; [lia|]. set_solver.
Qed.
Lemma passed_all d run gate names : NoDup names ->
  (length names <=? passed_gates d run gate names)%nat = true <->
  forall g, g ∈ names -> g = gate \/ gates d !! (run, g) = Some "success".
Proof.
  intros Hn. unfold passed_gates. rewrite count_passed, Nat.leb_le, filter_all by done. simpl.
  apply forall_proper. intros g. split; intros H Hg; specialize (H Hg).
  - destruct (decide (g = gate)) as [->|Hne]; [by left|]. rewrite lookup_insert_ne in H; [by right|]. congruence.
  - destruct H as [->|H]; [apply lookup_insert_eq|]. destruct (decide (g = gate)) as [->|Hne]; [apply lookup_insert_eq|].
    rewrite lookup_insert_ne; [done|congruence].
Qed.
Lemma governed p gate env : env ∈ GovernedEnvs p gate <-> env <> "" /\ gate ∈ GoverningGates p env.
Proof. apply governance_duality. Qed.
Lemma NoDup_GoverningGates p env : NoDup (GoverningGates p env).
Proof. unfold GoverningGates. rewrite NoDup_sort_strings. apply NoDup_dedup. Qed.

Definition marker_of (row : LaneRun) : Marker := {| gp_pipeline := lr_pipeline row; gp_ref := lr_ref row; gp_counter := lr_counter row |}.
(** The run has cleared the environment: its own snapshot supersedes, gates govern the
    environment, and all of them have passed. *)
Definition has_cleared (d : DB) (run : uuid) (row : LaneRun) (env : string) : Prop :=
  exists def, lr_definition row = Snapshot def /\ supersedes (Supersede def) = true /\ env <> "" /\ GoverningGates def env <> [] /\
    forall g, g ∈ GoverningGates def env -> gates d !! (run, g) = Some "success".
Record exact (d : DB) : Prop := {
  e_gates : forall run g, gates d !! (run, g) = Some "success" -> runs d !! run <> None;
  e_markers : forall run env m, markers d !! (run, env) = Some m <->
    exists row, runs d !! run = Some row /\ m = marker_of row /\ has_cleared d run row env;
}.

Lemma has_cleared_same d d' run row s env : (forall g, gates d' !! (run, g) = Some "success" <-> gates d !! (run, g) = Some "success") ->
  has_cleared d' run (run_status row s) env <-> has_cleared d run row env.
Proof.
  intros E. unfold has_cleared. simpl. split; intros (def & H1 & H2 & H3 & H4 & H); exists def; (split_and!; [done..|]);
    intros g Hg; apply E, H, Hg.
Qed.

Lemma awaiting_names d run g : g ∈ ListAwaitingGateNamesForRun d run <-> gates d !! (run, g) = Some "awaiting_approval".
Proof.
  unfold ListAwaitingGateNamesForRun. rewrite !list_elem_of_fmap. split.
  - intros ([r g'] & -> & ([[r2 g2] st] & [= -> ->] & H)%list_elem_of_fmap).
    apply elem_of_map_to_list, map_lookup_filter_Some in H as (H & Hc). simpl in Hc. destruct Hc as [-> ->]. done.
  - intros H. exists (run, g). split; [done|]. apply list_elem_of_fmap. exists ((run, g), "awaiting_approval"). split; [done|].
    by apply elem_of_map_to_list, map_lookup_filter_Some.
Qed.
(** A rerun never finds a marker to delete. *)
Lemma clear_nothing d run d' : exact d -> clearRevivedGatePassMarkers d run = Some d' -> d' = d.
Proof.
  intros He H. unfold clearRevivedGatePassMarkers in H. destruct (ListAwaitingGateNamesForRun d run) as [|g0 names] eqn:Eg; [congruence|].
  destruct (lr_definition <$> runs d !! run) as [[| |def]|] eqn:Ed; try done.
  destruct (supersedes (Supersede def)); [|congruence]. injection H as <-.
  rewrite map_filter_id; [by destruct d|]. intros [r env] m Hm [Hrun Hin]. cbn [fst snd] in Hrun, Hin. subst r.
  change (env ∈ (g0 :: names) ≫= GovernedEnvs def) in Hin.
  apply (e_markers d He) in Hm as (row & Hr & _ & def' & Hd & _ & _ & _ & Hall).
  rewrite Hr in Ed. simpl in Ed. assert (def' = def) as -> by congruence.
  apply list_elem_of_bind in Hin as (g & Henv & Hg). apply governed in Henv as [_ Hgov].
  rewrite <- Eg in Hg. apply awaiting_names in Hg. specialize (Hall g Hgov). congruence.
Qed.

(** Either nothing changes about which gates have passed, or one gate is committed. *)
Inductive gate_change (k : nat) (w w' : World) : Prop :=
| gates_quiet : markers (db w') = markers (db w) ->
    (forall run g, gates (db w') !! (run, g) = Some "success" <-> gates (db w) !! (run, g) = Some "success") -> gate_change k w w'
| gate_commit run gate taken inserts row :
    threads w !! k = Some (Passing run gate taken [] inserts) -> runs (db w) !! run = Some row ->
    threads w' = delete k (threads w) -> db w' = passed_db (db w) run row gate inserts -> gate_change k w w'.

Lemma success_replaced (G : gmap (uuid * string) string) key st st' : G !! key = Some st -> st <> "success" -> st' <> "success" ->
  forall run g, <[key := st']> G !! (run, g) = Some "success" <-> G !! (run, g) = Some "success".
Proof.
  intros H H1 H2 run g. destruct (decide (key = (run, g))) as [->|Hne].
  - rewrite lookup_insert_eq, H. split; congruence.
  - by rewrite lookup_insert_ne.
Qed.
Lemma rearm_success d run names r g :
  gates (rearm_gates d run names) !! (r, g) = Some "success" <-> gates d !! (r, g) = Some "success".
Proof.
  unfold rearm_gates, with_gates. cbn [gates]. rewrite map_lookup_imap. destruct (gates d !! (r, g)) as [st|]; [|done]. cbn.
  case_bool_decide as H; [|done]. destruct H as (_ & _ & ->). done.
Qed.
Lemma exact_same d d' : rows_kept d d' -> markers d' = markers d ->
  (forall run g, gates d' !! (run, g) = Some "success" <-> gates d !! (run, g) = Some "success") -> exact d -> exact d'.
Proof.
  intros [Hr _] Em Eg [He1 He2]. split.
  - intros run g H%Eg%He1. destruct (runs d !! run) as [row|] eqn:E; [|done]. destruct (Hr _ _ E) as [s ->]. done.
  - intros run env m. rewrite Em, He2. destruct (runs d !! run) as [row|] eqn:E.
    + destruct (Hr _ _ E) as [s ->]. split; intros (row' & [= <-] & -> & H); eexists; (split; [done|]); (split; [done|]);
        by eapply (has_cleared_same d d' run row s).
    + split; [by intros (row & [=] & _)|]. intros (row & Hrow & -> & def & _ & _ & _ & Hg & Hall).
      destruct (GoverningGates def env) as [|g gs] eqn:Egs; [done|]. exfalso. apply (He1 run g); [|done]. apply Eg, Hall. set_solver.
Qed.

Lemma act_gate_change f a k w w' : act f a k w = Some w' -> exact (db w) -> gate_change k w w'.
Proof.
  intros H He. destruct a; cbn [act] in H; open_act H; acquire_frames;
    try (by apply gates_quiet; simpl; [congruence|intros; match goal with E : db _ = _ |- _ => by rewrite E | |- _ => done end]).
  - by eapply gate_commit.
  - match goal with H : _ && _ = true |- _ => apply andb_true_iff in H as [Hp%bool_decide_eq_true _] end.
    apply gates_quiet; [done|]. by eapply success_replaced.
  - match goal with H : _ && _ = true |- _ => apply andb_true_iff in H as [Hp%bool_decide_eq_true _] end.
    apply gates_quiet; [done|]. by eapply success_replaced.
  - apply gates_quiet; [done|]. intros r g. cbn [db with_db gates with_runs with_gates]. rewrite lookup_union_Some_raw. split.
    + intros [Hn|[_ H]]; [|done]. apply elem_of_list_to_map_2, list_elem_of_fmap in Hn as (? & [=] & _).
    + intros H. right. split; [|done]. apply not_elem_of_list_to_map_1. intros (x & Hk & Hx)%list_elem_of_fmap.
      apply list_elem_of_fmap in Hx as (n & -> & _). injection Hk as -> ->. by apply (e_gates (db w) He) in H.
  - match goal with H : clearRevivedGatePassMarkers _ _ = _ |- _ => rename H into Hc end.
    match type of Hc with clearRevivedGatePassMarkers ?d0 _ = _ => set (d0' := d0) in Hc; assert (He' : exact d0') end.
    { apply (exact_same (db w)); [|done| |done].
      - by apply (rows_kept_status (db w) (lj_run j) l (lr_status (revived_run l))).
      - intros r g. subst d0'. cbn [db with_db]. by rewrite rearm_success. }
    apply clear_nothing in Hc; [|done]. subst x. apply gates_quiet; [done|]. intros r g. subst d0'. cbn [db with_db]. by rewrite rearm_success.
Qed.

(** What a committing gate knows about the environments it has gone through. *)
Definition marking (d : DB) (t : thread) : Prop :=
  match t with
  | Passing run gate taken todo inserts =>
      exists row done, runs d !! run = Some row /\ marked_envs (lr_definition row) gate = Some (done ++ todo) /\ inserts ⊆ done /\
        forall env def, env ∈ done -> lr_definition row = Snapshot def ->
          (env ∈ inserts <-> forall g, g ∈ GoverningGates def env -> g = gate \/ gates d !! (run, g) = Some "success")
  | _ => True
  end.
Record exact_world (w : World) : Prop := {
  w_sound : sound w;
  w_exact : exact (db w);
  w_marking : forall k t, threads w !! k = Some t -> marking (db w) t;
}.

Lemma insert_markers d run row inserts key : let d' := foldl (fun d env => InsertRunGatePass d run row env) d inserts in
  (forall m, markers d !! (run, key) = Some m -> m = marker_of row) ->
  markers d' !! (run, key) = if decide (key ∈ inserts) then Some (marker_of row) else markers d !! (run, key).
Proof.
  revert d. induction inserts as [|e l IH]; intros d; cbn [foldl]; [done|]. intros Hm.
  assert (E : markers (InsertRunGatePass d run row e) !! (run, key) = if decide (key = e) then Some (marker_of row) else markers d !! (run, key)).
  { unfold InsertRunGatePass. destruct (decide (key = e)) as [->|Hk]; destruct (markers d !! (run, e)) as [m|] eqn:Ee; try done.
    - rewrite Ee. f_equal. by apply Hm.
    - simpl. by rewrite lookup_insert_eq.
    - simpl. rewrite lookup_insert_ne; congruence. }
  cbn zeta in IH. rewrite IH.
  - rewrite E. repeat case_decide; set_solver.
  - intros m. rewrite E. case_decide; [|apply Hm]. congruence.
Qed.
Lemma insert_markers_other d run row inserts run' key : run' <> run ->
  markers (foldl (fun d env => InsertRunGatePass d run row env) d inserts) !! (run', key) = markers d !! (run', key).
Proof.
  intros Hne. revert d. induction inserts as [|e l IH]; intros d; cbn [foldl]; [done|]. rewrite IH.
  unfold InsertRunGatePass. destruct (markers d !! (run, e)); [done|]. simpl. rewrite lookup_insert_ne; congruence.
Qed.

Lemma passed_cleared d run row gate inserts env taken :
  marking d (Passing run gate taken [] inserts) -> runs d !! run = Some row -> env ∉ inserts ->
  has_cleared (passed_db d run row gate inserts) run row env -> has_cleared d run row env.
Proof.
  intros (row' & dn & Hr & Hm & _ & Hi) Hr' Hni (def & Hd & Hs & Hne & Hg & Hall). assert (row' = row) as -> by congruence.
  exists def. split_and!; [done..|]. pose proof (passed_db_rows d run row gate inserts) as (_ & Eg & _). rewrite Eg in Hall.
  intros g Hin. specialize (Hall g Hin) as Hgs. destruct (decide (g = gate)) as [->|Hgne]; [|rewrite lookup_insert_ne in Hgs; congruence].
  exfalso. apply Hni. rewrite app_nil_r in Hm. apply Hi with def; [|done|].
  - unfold marked_envs in Hm. rewrite Hd, Hs in Hm. injection Hm as <-. by apply governed.
  - intros g' Hg'. destruct (decide (g' = gate)) as [->|Hne']; [by left|right]. specialize (Hall g' Hg').
    rewrite lookup_insert_ne in Hall; congruence.
Qed.
Lemma passed_inserted d run row gate inserts env taken :
  marking d (Passing run gate taken [] inserts) -> runs d !! run = Some row -> env ∈ inserts ->
  has_cleared (passed_db d run row gate inserts) run row env.
Proof.
  intros (row' & dn & Hr & Hm & Hsub & Hi) Hr' Hin. assert (row' = row) as -> by congruence. rewrite app_nil_r in Hm.
  destruct (marked_lane _ _ dn env Hm ltac:(set_solver)) as (def & Hd & Hs & [Hne Hg]%governed).
  exists def. split_and!; [done..| |].
  - intros E. rewrite E in Hg. by apply elem_of_nil in Hg.
  - intros g Hg'. pose proof (passed_db_rows d run row gate inserts) as (_ & -> & _).
    destruct (decide (g = gate)) as [->|Hgne]; [apply lookup_insert_eq|]. rewrite lookup_insert_ne by congruence.
    destruct (proj1 (Hi env def ltac:(set_solver) Hd) Hin g Hg'); done.
Qed.
Lemma has_cleared_mono d d' run row env : (forall g, gates d !! (run, g) = Some "success" -> gates d' !! (run, g) = Some "success") ->
  has_cleared d run row env -> has_cleared d' run row env.
Proof. intros E (def & H1 & H2 & H3 & H4 & H). exists def. split_and!; [done..|]. auto. Qed.

Lemma passed_exact d run row gate inserts taken :
  marking d (Passing run gate taken [] inserts) -> runs d !! run = Some row -> exact d -> exact (passed_db d run row gate inserts).
Proof.
  intros Hm Hr [He1 He2]. pose proof (passed_db_rows d run row gate inserts) as (Er & Eg & _). split.
  - intros r g. rewrite Er, Eg. destruct (decide ((run, gate) = (r, g))) as [[= -> ->]|Hne]; [by rewrite Hr|].
    rewrite lookup_insert_ne by done. apply He1.
  - intros r env m. rewrite Er. destruct (decide (r = run)) as [->|Hne].
    + assert (Hold : forall m, markers d !! (run, env) = Some m -> m = marker_of row).
      { intros m' (row' & Hr' & -> & _)%He2. congruence. }
      unfold passed_db at 1. rewrite insert_markers by done. rewrite Hr. case_decide as Hin.
      * pose proof (passed_inserted _ _ _ _ _ _ _ Hm Hr Hin). naive_solver.
      * simpl. rewrite He2, Hr. split; intros (row' & [= <-] & -> & H); exists row; split_and!; try done.
        -- eapply has_cleared_mono; [|done]. intros g Hg. rewrite Eg.
           destruct (decide (g = gate)) as [->|]; [apply lookup_insert_eq|rewrite lookup_insert_ne; congruence].
        -- by eapply passed_cleared.
    + unfold passed_db at 1. rewrite insert_markers_other by done. simpl. rewrite He2.
      apply exist_proper. intros row'. enough (has_cleared (passed_db d run row gate inserts) r row' env <-> has_cleared d r row' env) by tauto.
      split; apply has_cleared_mono; intros g; rewrite Eg, lookup_insert_ne; congruence.
Qed.

Lemma marking_kept d d' t : rows_kept d d' ->
  (forall run gate taken todo inserts row def env g, t = Passing run gate taken todo inserts -> runs d !! run = Some row ->
     lr_definition row = Snapshot def -> (forall l, marked_envs (lr_definition row) gate = Some l -> env ∈ l) ->
     g ∈ GoverningGates def env -> g <> gate ->
     gates d' !! (run, g) = Some "success" <-> gates d !! (run, g) = Some "success") ->
  marking d t -> marking d' t.
Proof.
  intros [Hk _] Hg. destruct t as [|run gate taken todo inserts| |]; try done. simpl.
  intros (row & dn & Hr & Hm & Hsub & Hi). destruct (Hk _ _ Hr) as [s Hs]. exists (run_status row s), dn. simpl.
  split_and!; [done..|]. intros env def Henv Hd. rewrite (Hi env def Henv Hd). apply forall_proper. intros g.
  assert (Hl : forall l, marked_envs (lr_definition row) gate = Some l -> env ∈ l) by (intros l E; rewrite Hm in E; injection E as <-; set_solver).
  destruct (decide (g = gate)) as [->|Hne]; [tauto|].
  split; intros H Hin; specialize (H Hin); (destruct H as [->|H]; [by left|right]);
    by apply (Hg _ _ _ _ _ row def env g eq_refl Hr Hd Hl Hin Hne).
Qed.
Lemma act_marks f a k w w' t : act f a k w = Some w' -> (forall t, threads w !! k = Some t -> marking (db w) t) ->
  threads w' !! k = Some t -> marking (db w) t.
Proof.
  intros H Hok Ht.
  assert (Hsame : threads w' !! k = threads w !! k -> marking (db w) t) by (intros E; apply Hok; by rewrite <- E).
  destruct a as [| | | | | |job| | | | | | | | | | | | | | |]; cbn [act] in H.
  7: { destruct (begin_dispatch_ok _ _ _ _ H) as (_ & x & Hx & _). by simplify_eq. }
  all: open_act H; acquire_frames; simpl in Ht; rewrite ?lookup_insert_eq, ?lookup_delete_eq in Ht; simplify_eq;
    try (by apply Hsame; simpl; congruence); try done.
  - simpl. exists l, []. split_and!; try done. by intros env def ?%elem_of_nil.
  - destruct (Hok _ eq_refl) as (row & dn & Hr & Hm & Hsub & Hi). clear Hsame Hok. simplify_eq.
    match goal with E : db x = db w |- _ => rewrite E end.
    match goal with E : runs _ !! run = Some ?r |- _ => rename r into row end.
    exists row, (dn ++ [s]). rewrite <- app_assoc. split_and!; [done..|case_match; set_solver|].
    intros env def Henv Hd. assert (def = p) as -> by congruence.
    assert (gate ∈ GoverningGates p s) as Hgs.
    { destruct (marked_lane _ _ _ s Hm) as (def & Hd' & _ & He); [set_solver|]. assert (def = p) as -> by congruence. by apply governed. }
    pose proof (passed_all (db w) run gate (GoverningGates p s) (NoDup_GoverningGates p s)) as Hall.
    destruct (decide (env = s)) as [->|Hne].
    + rewrite <- Hall. rewrite bool_decide_false by (intros E; rewrite E in Hgs; by apply elem_of_nil in Hgs). cbn [negb andb].
      destruct (_ <=? _)%nat; [set_solver|]. split; [|done]. intros Hin. exfalso. discriminate (proj2 Hall (proj1 (Hi s p (Hsub _ Hin) Hd) Hin)).
    + rewrite <- (Hi env p) by set_solver. case_match; set_solver.
  - match goal with E : wants ?t = _ |- _ => by destruct t as [? ? ? [|]| |? ? ? []|x0] end.
Qed.

Lemma act_exact f a k w w' : act f a k w = Some w' -> exact_world w -> exact_world w'.
Proof.
  intros H [Hs He Hm]. pose proof (act_rows_kept _ _ _ _ _ H) as Hk. split; [by eapply act_sound| |].
  - destruct (act_gate_change _ _ _ _ _ H He) as [E1 E2|run gate taken ins row Ht Hr _ ->]; [by eapply exact_same|].
    eapply passed_exact; [by apply (Hm k)|done..].
  - intros k' t Ht. destruct (decide (k' = k)) as [->|Hne].
    + destruct (act_gate_change _ _ _ _ _ H He) as [E1 E2|run gate taken ins row _ _ E _]; [|by rewrite E, lookup_delete_eq in Ht].
      eapply marking_kept; [done| |exact (act_marks _ _ _ _ _ _ H (Hm k) Ht)]. intros. apply E2.
    + pose proof Ht as Ht'. rewrite (act_other _ _ _ _ _ _ H Hne) in Ht'. eapply marking_kept; [done| |by eapply Hm].
      intros run gate taken todo ins row def env g -> Hr Hd Hl Hg Hgne.
      destruct (act_gate_change _ _ _ _ _ H He) as [E1 E2|run' gate' taken' ins' row' Hth Hr' _ ->]; [apply E2|].
      destruct (passed_db_rows (db w) run' row' gate' ins') as (_ & -> & _).
      destruct (decide ((run', gate') = (run, g))) as [[= -> ->]|Hkey]; [|by rewrite lookup_insert_ne].
      exfalso. apply Hne. assert (row' = row) as -> by congruence.
      pose proof (s_threads w Hs _ _ Ht') as (r1 & d1 & Hr1 & Hp1 & Hm1 & _). assert (r1 = row) as -> by congruence.
      pose proof (s_threads w Hs _ _ Hth) as (r2 & d2 & Hr2 & Hp2 & Hm2 & _). assert (r2 = row) as -> by congruence.
      destruct (marked_lane _ _ _ env Hm1 (Hl _ Hm1)) as (def' & Hd' & Hsup & Henv). assert (def' = def) as -> by congruence.
      assert (env ∈ GovernedEnvs def g) as Henv' by (apply governed in Henv as [? _]; by apply governed).
      set (L := LaneLock (lr_pipeline row) (Supersede def) (lr_ref row) env).
      apply (holds_unique w k' k _ _ L L false false (s_table w Hs) Ht' Hth); [| |done];
        simpl; apply list_elem_of_fmap; exists L; (split; [done|]); by eapply planned_lane.
Qed.
Lemma initial_exact w : initial w -> exact_world w.
Proof.
  intros Hi. split; [by apply initial_sound| |]; destruct Hi as (Hr & Hg & _ & Hm & _ & _ & Ht & _).
  - split; [intros run g; by rewrite Hg|]. intros run env m. rewrite Hm, Hr, !lookup_empty. split; [done|]. by intros (? & [=] & _).
  - intros k t. by rewrite Ht.
Qed.
Lemma reachable_exact f w : reachable f w -> exact_world w.
Proof. intros (w0 & H0 & Hr). eapply rtc_invariant; [done|apply act_exact|by apply initial_exact]. Qed.

(** C15: the lane markers are exact - in every history of approvals of several gates,
    reruns, cancels and re-applied pipelines, interleaved at every lock and cut short
    anywhere, a run has its marker for an environment if and only if its own snapshot
    supersedes, the environment is not empty, some gate of the snapshot governs it, and
    every gate that does has passed - also when the last
    two gates are approved at the same time and neither call sees the other's row - and
    the marker carries the lane and the counter of its run; in particular the clearing
    of the markers of gates that a rerun parks again never finds one. *)
Theorem markers_exact (f : flags) (w : World) (run : uuid) (env : string) (m : Marker) :
  reachable f w ->
  (markers (db w) !! (run, env) = Some m <->
   exists row, runs (db w) !! run = Some row /\
     m = {| gp_pipeline := lr_pipeline row; gp_ref := lr_ref row; gp_counter := lr_counter row |} /\
     exists def, lr_definition row = Snapshot def /\ supersedes (Supersede def) = true /\ env <> "" /\ GoverningGates def env <> [] /\
       forall g, g ∈ GoverningGates def env -> gates (db w) !! (run, g) = Some "success") /\
  forall d, clearRevivedGatePassMarkers (db w) run = Some d -> d = db w.
Proof.
  intros H. destruct (reachable_exact f w H) as [_ He _]. split; [apply He|]. intros d. by apply clear_nothing.
Qed.

Lemma markers_exact_witness : exists w,
  play {| reruns := true; reapply := true |} (two_runs ++ both_gates) (installation "branch") = Some w /\
  exists row def, runs (db w) !! 2%N = Some row /\ lr_definition row = Snapshot def /\
    GoverningGates def "prod" <> [] /\ forall g, g ∈ GoverningGates def "prod" -> gates (db w) !! (2%N, g) = Some "success".
Proof.
  set (f := {| reruns := true; reapply := true |}).
  destruct (play f (two_runs ++ both_gates) (installation "branch")) as [w|] eqn:E; [|vm_compute in E; discriminate E].
  exists w. split; [done|]. pose proof (played f "branch" (two_runs ++ both_gates) w E) as Hw.
  assert (markers (db w) !! (2%N, "prod") = Some {| gp_pipeline := 10; gp_ref := "main"; gp_counter := 2 |}) as Hm
    by (seen (fun w => markers (db w) !! (2%N, "prod")) in E).
  clear E. destruct (markers_exact f w 2 "prod" {| gp_pipeline := 10; gp_ref := "main"; gp_counter := 2 |} Hw) as [[H _] _]. destruct (H Hm) as (row & Hr & _ & def & Hd & _ & _ & Hg & Hall).
  exists row, def. split; [exact Hr|]. split; [exact Hd|]. split; [exact Hg|exact Hall].
Defined.
