(* ===== verification/LaneOrder.v ===== *)
(** The deploy guard of the dispatcher under any interleaving of the calls of
    [Lanes]: an older run is never handed to an agent over a newer one of its lane
    that has cleared the environment; and the advisory locks never deadlock. *)

From S2P Require Import Prelude GoStrings Domain NeedsGraph GateGraph Locks Lanes LaneProps LaneMarkers.

(** ** Histories without reruns and re-applied pipelines *)

Notation plain := {| reruns := false; reapply := false |}.

(** Canceled runs stay canceled. *)
Definition ended_kept (d d' : DB) : Prop :=
  forall run row, runs d !! run = Some row ->
    exists s, runs d' !! run = Some (run_status row s) /\ (lr_status row = "canceled" -> s = "canceled").
Lemma ended_kept_same d d' : runs d' = runs d -> ended_kept d d'.
Proof. intros E run row H. exists (lr_status row). by rewrite E, run_status_same. Qed.
Lemma act_ended_kept f a k w w' : act f a k w = Some w' -> reruns f = false -> ended_kept (db w) (db w').
Proof.
  intros H Hf. destruct a; cbn [act] in H; open_act H; acquire_frames;
    try (by apply ended_kept_same; simpl; congruence); try congruence.
  - simpl. destruct (passed_db_rows (db w) run l gate inserts) as (E & _). by apply ended_kept_same.
  - intros run' row' H'. destruct (decide (run' = run)) as [->|Hne].
    + exists s. simpl. rewrite lookup_insert_eq. split; congruence.
    + exists (lr_status row'). simpl. by rewrite lookup_insert_ne, run_status_same.
  - intros run' row' H'. exists (lr_status row'). simpl. rewrite lookup_insert_ne by congruence. by rewrite run_status_same.
Qed.
Lemma act_pipelines f a k w w' : act f a k w = Some w' -> reapply f = false -> pipelines (db w') = pipelines (db w).
Proof.
  intros H Hf. destruct a; cbn [act] in H; open_act H; acquire_frames; try (by simpl; congruence).
  - simpl. by apply passed_db_rows.
  - match goal with H : clearRevivedGatePassMarkers _ _ = _ |- _ => apply clear_markers_rows in H as (_ & _ & _ & _ & E) end. done.
Qed.
(** Every snapshot is the definition the dispatcher reads. *)
Definition live_snapshots (d : DB) : Prop := forall run row def, runs d !! run = Some row -> lr_definition row = Snapshot def ->
  exists live, pipelines d !! lr_pipeline row = Some live /\ pl_definition live = def.
Lemma act_live_snapshots f a k w w' : act f a k w = Some w' -> reapply f = false -> live_snapshots (db w) -> live_snapshots (db w').
Proof.
  intros H Hf Hl. pose proof (act_pipelines _ _ _ _ _ H Hf) as Ep. pose proof (act_rows_kept _ _ _ _ _ H) as [Hk _].
  intros run row def Hr Hd. destruct (runs (db w) !! run) as [row0|] eqn:E0.
  - destruct (Hk _ _ E0) as [s Hs]. rewrite Hs in Hr. injection Hr as <-. rewrite Ep. exact (Hl _ _ _ E0 Hd).
  - clear Hk. destruct a; cbn [act] in H; open_act H; acquire_frames; simpl in Hr; try congruence.
    + destruct (passed_db_rows (db w) run0 l gate inserts) as (E & _). simpl in E. congruence.
    + rewrite lookup_insert_ne in Hr by congruence. congruence.
    + destruct (decide (run0 = run)) as [->|Hne]; [|rewrite lookup_insert_ne in Hr by done; congruence].
      rewrite lookup_insert_eq in Hr. injection Hr as <-. simpl in *. injection Hd as <-. by eexists.
    + match goal with H : clearRevivedGatePassMarkers _ _ = _ |- _ => apply clear_markers_rows in H as (E & _) end.
      rewrite E in Hr. simpl in Hr. rewrite lookup_insert_ne in Hr by congruence. congruence.
Qed.

(** ** The guard *)

Definition lane_clear (d : DB) (x : Dispatch) (mode : string) : Prop :=
  forall n m row, markers d !! (n, d_env x) = Some m -> runs d !! n = Some row -> gp_pipeline m = d_pipeline x ->
    (mode = SupersedeBranch -> gp_ref m = d_ref x) -> (d_counter x < gp_counter m)%Z -> lr_status row = "canceled".
Lemma newer_clear d x mode :
  newerGatePassExists d (d_pipeline x) mode (d_ref x) (d_env x) (d_counter x) = false -> lane_clear d x mode.
Proof.
  unfold newerGatePassExists. intros H n m row Hm Hr Hp Href Hc.
  assert (newer_marker d (d_pipeline x) mode (d_ref x) (d_env x) (d_counter x) ((n, d_env x), m) = false) as E.
  { apply not_true_iff_false. intros E. apply not_true_iff_false in H. apply H, existsb_exists.
    exists ((n, d_env x), m). split; [|done]. by apply list_elem_of_In, elem_of_map_to_list. }
  unfold newer_marker in E. cbn [fst snd] in E. rewrite Hr in E.
  destruct (decide (lr_status row = "canceled")) as [|Hs]; [done|]. exfalso.
  rewrite (bool_decide_eq_true_2 _ Hp), (bool_decide_eq_true_2 (d_env x = d_env x)), (bool_decide_eq_true_2 _ Hs) in E by done.
  apply Z.ltb_lt in Hc. rewrite Hc in E. destruct (decide (mode = SupersedeBranch)) as [Hb|Hb].
  - rewrite (bool_decide_eq_true_2 _ (Href Hb)), orb_true_r in E. discriminate.
  - rewrite (bool_decide_eq_true_2 _ Hb) in E. discriminate.
Qed.

Definition guarded (d : DB) (t : thread) : Prop :=
  match t with
  | Dispatching x => forall mode, d_lane x = Some mode ->
      (exists live, pipelines d !! d_pipeline x = Some live /\ Supersede (pl_definition live) = mode) /\
      (d_at x <> LaneLocked -> lane_clear d x mode)
  | _ => True
  end.

Lemma lane_clear_kept d d' x mode : exact d -> ended_kept d d' ->
  (forall n m, markers d' !! (n, d_env x) = Some m -> gp_pipeline m = d_pipeline x -> (mode = SupersedeBranch -> gp_ref m = d_ref x) ->
     markers d !! (n, d_env x) = Some m) -> lane_clear d x mode -> lane_clear d' x mode.
Proof.
  intros He Hk Hm Hc n m row Hn Hr Hp Href Hlt. pose proof (Hm n m Hn Hp Href) as Hn'.
  pose proof (proj1 (e_markers d He _ _ _) Hn') as (row0 & Hr0 & _). destruct (Hk _ _ Hr0) as (s & Hs & Hc').
  rewrite Hs in Hr. injection Hr as <-. by apply Hc', (Hc n m).
Qed.
Lemma act_guards f a k w w' t : act f a k w = Some w' -> (forall t, threads w !! k = Some t -> guarded (db w) t) ->
  threads w' !! k = Some t -> guarded (db w) t.
Proof.
  intros H Hok Ht.
  assert (Hsame : threads w' !! k = threads w !! k -> guarded (db w) t) by (intros E; apply Hok; by rewrite <- E).
  destruct a as [| | | | | |job| | | | | | | | | | | | | | |]; cbn [act] in H.
  7: { destruct (begin_dispatch_ok _ _ _ _ H) as (_ & x & Hx & ((row & Hr & Ep & _) & _) & _ & Hph & Hlp & Hl & _). simplify_eq.
       intros mode E. destruct (Hl mode E) as (row' & live & Hr' & Hp & -> & _). simplify_eq. split.
       - exists live. by rewrite Ep.
       - intros Hn. destruct Hlp as [_ Hlp]. exfalso. apply Hn, Hlp. by rewrite E. }
  all: open_act H; acquire_frames; simpl in Ht; rewrite ?lookup_insert_eq, ?lookup_delete_eq in Ht; simplify_eq;
    try (by apply Hsame; simpl; congruence); try done.
  - intros mode E. destruct (Hok _ eq_refl mode E) as [Hlive _]. split; [done|]. intros _. simpl in E.
    assert (mode = s) as -> by congruence. by apply newer_clear.
  - intros mode E. destruct (Hok _ eq_refl mode E) as [Hlive Hc]. split; [done|]. intros _. apply Hc. congruence.
  - intros mode E. destruct (Hok _ eq_refl mode E) as [Hlive Hc]. split; [done|]. intros _. apply Hc. simpl in *; congruence.
  - match goal with E : wants ?t = _ |- _ => destruct t as [? ? ? [|]| |? ? ? []|x0]; try done end.
    intros mode E. destruct (Hok _ eq_refl mode E) as [Hlive Hc]. split; [done|]. intros _. apply Hc. simpl in *. by destruct (d_at x0).
Qed.

(** What holds at every moment of a plain history. *)
Definition stale_free (d : DB) (ev : event) (before : list event) : Prop :=
  match ev with
  | Sent job r env (Some mode) => exists row, runs d !! r = Some row /\
      forall n, Cleared n env ∈ before -> exists newer, runs d !! n = Some newer /\
        (lr_pipeline newer = lr_pipeline row -> (mode = SupersedeBranch -> lr_ref newer = lr_ref row) ->
         (lr_counter row < lr_counter newer)%Z -> lr_status newer = "canceled")
  | _ => True
  end.
Record ordered (w : World) : Prop := {
  o_exact : exact_world w;
  o_live : live_snapshots (db w);
  o_guards : forall k t, threads w !! k = Some t -> guarded (db w) t;
  o_cleared : forall n env, Cleared n env ∈ log w -> markers (db w) !! (n, env) <> None;
  o_log : all_after (stale_free (db w)) (log w);
}.

(** While the guard of a dispatch is held, no gate commits a marker of its lane. *)
Lemma guard_excludes w k k' x mode run gate taken inserts row env : ordered w ->
  threads w !! k' = Some (Dispatching x) -> d_lane x = Some mode ->
  threads w !! k = Some (Passing run gate taken [] inserts) -> runs (db w) !! run = Some row -> env ∈ inserts -> d_env x = env ->
  lr_pipeline row = d_pipeline x -> (mode = SupersedeBranch -> lr_ref row = d_ref x) -> False.
Proof.
  intros Ho Hx Hm Hp Hr Hin <- Epl Eref. pose proof (w_sound w (o_exact w Ho)) as Hs.
  destruct (o_guards w Ho _ _ Hx mode Hm) as [(live & El & <-) _].
  pose proof (s_threads w Hs _ _ Hp) as (row' & dn & Hr' & Hpl & Hme & Hsub). simplify_eq.
  destruct (marked_lane _ _ _ (d_env x) Hme) as (def & Hd & Hsup & Henv); [set_solver|].
  destruct (o_live w Ho _ _ _ Hr Hd) as (live' & El' & <-). rewrite Epl in El'. simplify_eq.
  set (L := LaneLock (lr_pipeline row) (Supersede (pl_definition live)) (lr_ref row) (d_env x)).
  set (L' := LaneLock (d_pipeline x) (Supersede (pl_definition live)) (d_ref x) (d_env x)).
  enough (k = k' /\ false = true) as [_ [=]].
  apply (holds_unique w k k' _ _ L L' false true (s_table w Hs) Hp Hx).
  - simpl. apply list_elem_of_fmap. exists L. split; [done|]. by eapply planned_lane.
  - simpl. rewrite Hm. set_solver.
  - unfold L, L', lock_key. rewrite Epl. destruct (decide (Supersede (pl_definition live) = SupersedeBranch)) as [Hb|Hb].
    + by rewrite Eref.
    + by apply lane_key_ref.
Qed.

Lemma guarded_kept d d' t : exact d -> ended_kept d d' -> pipelines d' = pipelines d ->
  (forall x mode n m, t = Dispatching x -> d_lane x = Some mode -> markers d' !! (n, d_env x) = Some m -> gp_pipeline m = d_pipeline x ->
     (mode = SupersedeBranch -> gp_ref m = d_ref x) -> markers d !! (n, d_env x) = Some m) ->
  guarded d t -> guarded d' t.
Proof.
  intros He Hk Ep Hm. destruct t as [| | |x]; try done. intros Hg mode E. destruct (Hg mode E) as [Hl Hc]. rewrite Ep.
  split; [done|]. intros Hp. eapply lane_clear_kept; [done..| |by apply Hc]. intros n m. exact (Hm x mode n m eq_refl E).
Qed.
Lemma passed_markers d run row gate inserts n env m : exact d -> runs d !! run = Some row ->
  markers (passed_db d run row gate inserts) !! (n, env) = Some m ->
  markers d !! (n, env) = Some m \/ (n = run /\ env ∈ inserts /\ m = marker_of row).
Proof.
  intros He Hr H. destruct (decide (n = run)) as [->|Hne].
  - unfold passed_db in H. rewrite insert_markers in H.
    + case_decide; [injection H as <-; by right|by left].
    + simpl. intros m' (row' & Hr' & -> & _)%(e_markers d He). congruence.
  - unfold passed_db in H. rewrite insert_markers_other in H by done. by left.
Qed.
Lemma passed_markers_kept d run row gate inserts n env : exact d -> runs d !! run = Some row ->
  markers d !! (n, env) <> None \/ (n = run /\ env ∈ inserts) -> markers (passed_db d run row gate inserts) !! (n, env) <> None.
Proof.
  intros He Hr H. destruct (decide (n = run)) as [->|Hne].
  - unfold passed_db. rewrite insert_markers.
    + case_decide; [done|]. naive_solver.
    + simpl. intros m' (row' & Hr' & -> & _)%(e_markers d He). congruence.
  - unfold passed_db. rewrite insert_markers_other by done. naive_solver.
Qed.
Lemma act_ordered_guards f a k w w' k' t : act f a k w = Some w' -> reruns f = false -> reapply f = false -> ordered w ->
  threads w' !! k' = Some t -> guarded (db w') t.
Proof.
  intros H Hf1 Hf2 Ho Ht. pose proof (o_exact w Ho) as [_ He _].
  pose proof (act_ended_kept _ _ _ _ _ H Hf1) as Hk. pose proof (act_pipelines _ _ _ _ _ H Hf2) as Ep.
  assert (Hold : guarded (db w) t).
  { destruct (decide (k' = k)) as [->|Hne]; [eapply act_guards; [done| |done]; apply (o_guards w Ho)|].
    rewrite (act_other _ _ _ _ _ _ H Hne) in Ht. by eapply (o_guards w Ho). }
  eapply guarded_kept; [done..| |done]. intros x mode n m -> Hm.
  destruct (act_gate_change _ _ _ _ _ H He) as [-> _|run gate taken ins row Hth Hr Et ->]; [done|].
  destruct (decide (k' = k)) as [->|Hne]; [by rewrite Et, lookup_delete_eq in Ht|].
  intros [|(-> & Hin & ->)]%passed_markers Hp Href; [done| |done..]. exfalso.
  rewrite (act_other _ _ _ _ _ _ H Hne) in Ht. by eapply (guard_excludes w k k' x mode).
Qed.
Lemma stale_free_kept d d' ev l : ended_kept d d' -> stale_free d ev l -> stale_free d' ev l.
Proof.
  intros Hk. destruct ev as [| | | | |job r env [mode|]]; try done. intros (row & Hr & H).
  destruct (Hk _ _ Hr) as (s & Hs & _). exists (run_status row s). split; [done|]. intros n Hn.
  destruct (H n Hn) as (newer & Hnr & Hc). destruct (Hk _ _ Hnr) as (s' & Hs' & Hc'). exists (run_status newer s'). split; [done|].
  simpl. auto.
Qed.
Lemma sent_fresh w k x : ordered w -> threads w !! k = Some (Dispatching x) -> d_at x = Claimed_ ->
  stale_free (db w) (Sent (d_job x) (d_run x) (d_env x) (d_lane x)) (log w).
Proof.
  intros Ho Hx Hat. pose proof (o_exact w Ho) as [Hs He _]. destruct (d_lane x) as [mode|] eqn:Em; simpl; rewrite ?Em; [|done].
  pose proof (s_threads w Hs _ _ Hx) as [(row & Hr & E1 & E2 & E3 & _) _]. exists row. split; [done|]. intros n Hn.
  apply (o_cleared w Ho) in Hn. destruct (markers (db w) !! (n, d_env x)) as [m|] eqn:E; [|done].
  pose proof (proj1 (e_markers _ He _ _ _) E) as (newer & Hnr & -> & _). exists newer. split; [done|]. intros Hp Href Hc.
  destruct (o_guards w Ho _ _ Hx mode Em) as [_ Hclear]. assert (d_at x <> LaneLocked) as Hne by congruence. apply (Hclear Hne n _ newer E Hnr); simpl; [congruence| |lia].
  intros Hb. rewrite E2. by apply Href.
Qed.

Lemma act_ordered f a k w w' : act f a k w = Some w' -> reruns f = false -> reapply f = false -> ordered w -> ordered w'.
Proof.
  intros H Hf1 Hf2 Ho. pose proof (o_exact w Ho) as Hew. pose proof (w_exact w Hew) as He.
  pose proof (act_ended_kept _ _ _ _ _ H Hf1) as Hk.
  assert (Hlog : all_after (stale_free (db w')) (log w)).
  { eapply all_after_mono; [|apply (o_log w Ho)]. intros ev t _. by apply stale_free_kept. }
  assert (Hcl : forall n env, Cleared n env ∈ log w -> markers (db w') !! (n, env) <> None).
  { intros n env Hin%(o_cleared w Ho). destruct (act_gate_change _ _ _ _ _ H He) as [-> _|run gate taken ins row _ Hr _ ->]; [done|].
    apply passed_markers_kept; [done..|by left]. }
  split; [by eapply act_exact|exact (act_live_snapshots _ _ _ _ _ H Hf2 (o_live w Ho))|exact (fun k' t => act_ordered_guards _ _ _ _ _ k' t H Hf1 Hf2 Ho)|..];
    destruct (act_written _ _ _ _ _ H) as [_ E|p e on _ E|run gate taken ins row Ht Hr _ Ed E|x Ht Hd _ E|x Ht Hd _ E _];
    try (rewrite E; exact Hcl); try (rewrite E; exact Hlog).
  - subst w'. intros n env [Hin|Hin]%elem_of_cons; [by destruct on|by apply Hcl].
  - rewrite E. intros n env [Hin|Hin]%elem_of_app; [|by apply Hcl]. apply list_elem_of_In, in_rev, list_elem_of_In in Hin.
    apply elem_of_cons in Hin as [[=]|Hin]. apply list_elem_of_fmap in Hin as (e & [= -> ->] & Hin). rewrite Ed.
    apply passed_markers_kept; [done..|by right].
  - rewrite E. intros n env [[=]|Hin]%elem_of_cons. by apply Hcl.
  - rewrite E. intros n env [[=]|Hin]%elem_of_cons. by apply Hcl.
  - subst w'. split; [by destruct on|done].
  - rewrite E. simpl. rewrite <- app_assoc. apply all_after_app; [by apply cleared_quiet|]. by split.
  - rewrite E. by split.
  - rewrite E. split; [|done]. eapply stale_free_kept; [done|]. by apply (sent_fresh w k).
Qed.
Lemma reachable_ordered w : reachable plain w -> ordered w.
Proof.
  intros (w0 & H0 & Hr). eapply rtc_invariant; [done| |].
  - intros a k w1 w2 H. by eapply act_ordered.
  - split; [by apply initial_exact|..]; destruct H0 as (H0 & _ & _ & _ & _ & _ & Ht & Hl).
    + intros run row def. by rewrite H0.
    + intros k t. by rewrite Ht.
    + intros n env. rewrite Hl. by intros ?%elem_of_nil.
    + by rewrite Hl.
Qed.

(** C14: latest wins - in every history without reruns and re-applied pipelines, of runs
    of any pipelines whose gates are approved, rejected and canceled, whose deploys are
    dispatched and rolled back, and whose calls are interleaved at every lock and cut
    short anywhere: once a run has cleared an environment of its lane, no guarded deploy
    of an older run of that lane is handed to an agent for that environment, unless the
    newer run has been canceled - even when the older deploy passed its check before
    the newer run cleared, since the guard excludes the commit until the deploy is sent. *)
Theorem latest_wins (w : World) (before after : list event) (job r n : uuid) (env mode : string) (older newer : LaneRun) :
  reachable plain w -> log w = after ++ Sent job r env (Some mode) :: before -> Cleared n env ∈ before ->
  runs (db w) !! r = Some older -> runs (db w) !! n = Some newer ->
  lr_pipeline newer = lr_pipeline older -> (mode = SupersedeBranch -> lr_ref newer = lr_ref older) ->
  (lr_counter older < lr_counter newer)%Z ->
  lr_status newer = "canceled".
Proof.
  intros Hw E Hc Hr Hn Hp Href Hlt. pose proof (o_log w (reachable_ordered w Hw)) as H.
  destruct (all_after_split _ _ _ _ _ H E) as (older' & Hr' & Hall). destruct (Hall n Hc) as (newer' & Hn' & Hfin).
  simplify_eq. by apply Hfin.
Qed.

(** ** The order of the locks *)

Lemma le_ltb s t : String.le s t -> s <> t -> String.ltb s t = true.
Proof. intros Hle Hne. destruct (String.ltb s t) eqn:E; [done|]. apply ltb_false in E. destruct Hne. by apply (anti_symm String.le). Qed.
Lemma envs_lock_sorted (mk : string -> lock) (b : bool) envs : (forall e, lock_rank (mk e) = (b, e)) ->
  NoDup envs -> Sorted String.le envs -> StronglySorted lock_lt (mk <$> envs).
Proof.
  intros Hmk Hn Hs. apply Sorted_StronglySorted in Hs; [|apply _].
  induction Hs as [|e envs Hs IH Hall]; [constructor|]. apply NoDup_cons in Hn as [Hni Hn]. constructor; [by apply IH|].
  apply Forall_fmap, Forall_forall. intros e' He'. rewrite Forall_forall in Hall. specialize (Hall e' He').
  right. rewrite (Hmk e), (Hmk e'). split; [reflexivity|]. cbn. apply le_ltb; [done|]. intros ->. done.
Qed.
Lemma approval_locks_sorted p project ref def gate : StronglySorted lock_lt (approval_locks p project ref def gate).
Proof.
  destruct (governance_duality def gate "") as (_ & _ & N1 & S1 & N2 & S2). unfold approval_locks. apply StronglySorted_app. split_and!.
  - intros l l' Hl Hl'. destruct (supersedes (Supersede def)); [|by apply elem_of_nil in Hl].
    apply list_elem_of_fmap in Hl as (e & -> & _). apply list_elem_of_fmap in Hl' as (e' & -> & _). by left.
  - destruct (supersedes (Supersede def)); [|constructor]. by apply (envs_lock_sorted _ false).
  - by apply (envs_lock_sorted _ true).
Qed.
(** Whatever a thread waits for comes after all that it holds. *)
Lemma wants_above d t l l' g : thread_ok d t -> wants t = Some l -> (l', g) ∈ held t -> lock_lt l' l.
Proof.
  destruct t as [run gate taken [|l0 want]| |project env on []|x]; try done.
  - intros (row & _ & Hp) [= ->] Hl. simpl in Hl. apply list_elem_of_fmap in Hl as (l'' & [= -> ->] & Hl).
    unfold planned in Hp. destruct (lr_definition row) as [| |def]; [injection Hp as Hp; by destruct taken|done|].
    injection Hp as Hp. pose proof (approval_locks_sorted (lr_pipeline row) (project_of d (lr_pipeline row)) (lr_ref row) def gate) as Hs.
    rewrite Hp in Hs. apply StronglySorted_app in Hs as (Hs & _ & _). apply Hs; [done|set_solver].
  - intros _ _ Hl. by apply elem_of_nil in Hl.
  - intros _ Hw Hl. simpl in *. destruct (d_at x); try done. injection Hw as <-. rewrite app_nil_r in Hl.
    destruct (d_lane x); [|by apply elem_of_nil in Hl]. apply list_elem_of_singleton in Hl as [= -> ->]. by left.
Qed.
(** A call that cannot go on before another one ends: its next advisory lock is not to
    be had; or it holds all of them and the row of the gate is locked; or, under its own
    row lock and its freeze locks, the lane lock that the next marker takes is not its own. *)
Definition blocked (w : World) (k : nat) (t : thread) : Prop :=
  (is_Some (wants t) /\ take_lock w k = None) \/
  (exists run gate taken, t = Approving run gate taken [] /\ row_locked w run gate = true) \/
  (exists run gate taken env todo inserts, t = Passing run gate taken (env :: todo) inserts /\
     mark_env w k run gate taken env todo inserts = None).
Lemma take_lock_waits w k t l : threads w !! k = Some t -> wants t = Some l -> take_lock w k = None ->
  exists o, locks w !! lock_key l = Some o /\ o <> (k, false).
Proof.
  unfold take_lock, acquire. intros -> ->. destruct (locks w !! lock_key l) as [o|]; [|done]. case_decide; [done|]. eauto.
Qed.
(** The lane lock of a marker is one the call holds since before it flipped the row. *)
Lemma marks_go_on w k run gate taken env todo inserts : sound w ->
  threads w !! k = Some (Passing run gate taken (env :: todo) inserts) -> mark_env w k run gate taken env todo inserts <> None.
Proof.
  intros Hs Ht. pose proof (s_threads w Hs _ _ Ht) as (row & dn & Hr & Hp & Hm & _).
  destruct (marked_lane _ _ _ env Hm) as (def & Hd & Hsup & Henv); [set_solver|].
  pose proof (planned_lane _ _ _ _ _ _ Hp Hd Hsup Henv) as Hin.
  assert (locks w !! LaneEnvLockKey (lr_pipeline row) (Supersede def) (lr_ref row) env = Some (k, false)) as Hl.
  { apply (s_table w Hs). eexists. rewrite Ht. split; [by apply (list_elem_of_fmap_2 (fun l => (l, false)))|done]. }
  unfold mark_env, acquire. rewrite Hr, Hd, Hl, decide_True by done. done.
Qed.
(** The keys the threads use collide only where the locks are the same. *)
Definition no_collision (w : World) : Prop := forall k t l k' t' l' g',
  threads w !! k = Some t -> wants t = Some l -> threads w !! k' = Some t' -> (l', g') ∈ held t' ->
  lock_key l = lock_key l' -> canonical l = canonical l'.

Lemma canonical_rank l : lock_rank (canonical l) = lock_rank l.
Proof. by destruct l. Qed.
Lemma row_locker w run gate : sound w -> row_locked w run gate = true -> exists k t, threads w !! k = Some t /\ ~ blocked w k t.
Proof.
  unfold row_locked. intros Hs ([k t] & Hin & Ht)%existsb_exists. apply list_elem_of_In, elem_of_map_to_list in Hin.
  exists k, t. split; [done|]. simpl in Ht. destruct t; try done.
  intros [[[] _]|[(? & ? & ? & [=] & _)|(? & ? & ? & ? & ? & ? & [= <- <- <- -> <-] & Hm)]]; [done|]. by eapply marks_go_on.
Qed.

Lemma unblocked_without_want w k t : sound w -> threads w !! k = Some t -> wants t = None ->
  exists k t, threads w !! k = Some t /\ ~ blocked w k t.
Proof.
  intros Hs Ht Hw.
  assert ((exists run gate taken, t = Approving run gate taken [] /\ row_locked w run gate = true) \/ ~ blocked w k t)
    as [(run & gate & taken & _ & Hrow)|Hb]; [|by eapply row_locker|by exists k, t].
  assert (~ (exists run gate taken, t = Approving run gate taken [] /\ row_locked w run gate = true) -> ~ blocked w k t) as Hb.
  { intros H [[[l E] _]|[Hr|(? & ? & ? & ? & ? & ? & -> & Hm)]]; [congruence|by apply H|]. by eapply marks_go_on. }
  destruct t as [run gate taken [|l want]| | |]; try (right; apply Hb; by intros (? & ? & ? & [=] & _)).
  destruct (row_locked w run gate) eqn:E; [left; by exists run, gate, taken|].
  right. apply Hb. intros (? & ? & ? & [= <- <- <-] & E'). congruence.
Qed.

(** C24: the calls never deadlock - in every moment of every history (any number of
    approvals, freezes and dispatches, each somewhere in its list of locks), as long as
    no two different locks have the same 64-bit key, some call under way is not waiting
    for another: each takes its lanes before its freezes and both in the order of the
    environments, the guard is only tried, and a call that holds the row of a gate, and
    takes the locks of the lanes once more to write its markers, holds them already. *)
Theorem no_deadlock (f : flags) (w : World) :
  reachable f w -> no_collision w -> threads w <> ∅ ->
  exists k t, threads w !! k = Some t /\ ~ blocked w k t.
Proof.
  intros Hw Hnc Hne. pose proof (lanes_sound f w Hw) as Hs.
  destruct (decide (Exists (fun kt => wants kt.2 = None) (map_to_list (threads w)))) as [Hex|Hall].
  { apply Exists_exists in Hex as ([k t] & Hin%elem_of_map_to_list & Hwn). by eapply unblocked_without_want. }
  assert (Hwant : forall k t, threads w !! k = Some t -> exists l, wants t = Some l).
  { intros k t Ht. destruct (wants t) as [l|] eqn:E; [by exists l|]. destruct Hall. apply Exists_exists.
    exists (k, t). split; [by apply elem_of_map_to_list|done]. }
  destruct (map_choose _ Hne) as (k0 & t0 & Ht0). destruct (Hwant _ _ Ht0) as [l0 Hl0].
  set (ranks := omap (fun kt => lock_rank <$> wants kt.2) (map_to_list (threads w))).
  assert (Hranks : forall r, r ∈ ranks <-> exists k t l, threads w !! k = Some t /\ wants t = Some l /\ lock_rank l = r).
  { intros r. unfold ranks. rewrite list_elem_of_omap. split.
    - intros ([k t] & Hin%elem_of_map_to_list & (l & Hl & ->)%fmap_Some). by exists k, t, l.
    - intros (k & t & l & Ht & Hl & <-). exists (k, t). split; [by apply elem_of_map_to_list|]. simpl. by rewrite Hl. }
  destruct (maximal_above (fun a b => bool_decide (rank_lt a b)) ranks) with (x := lock_rank l0) as (m & Hm & _ & Hmax).
  { intros a _. apply bool_decide_eq_false_2, rank_lt_irrefl. }
  { intros a b c _ _ _. rewrite !bool_decide_eq_true. apply rank_lt_trans. }
  { apply Hranks. by exists k0, t0, l0. }
  apply Hranks in Hm as (k & t & l & Ht & Hl & <-). exists k, t. split; [done|].
  intros [[_ Htl]|[(? & ? & ? & -> & _)|(? & ? & ? & ? & ? & ? & -> & _)]]; [|done|done].
  destruct (take_lock_waits _ _ _ _ Ht Hl Htl) as ([k' g] & Ho & _).
  apply (s_table w Hs) in Ho as (lh & Hh & Ekey). destruct (threads w !! k') as [t'|] eqn:Ht'; [|by apply elem_of_nil in Hh].
  destruct (Hwant _ _ Ht') as [l2 Hl2]. pose proof (wants_above _ _ _ _ _ (s_threads w Hs _ _ Ht') Hl2 Hh) as Hlt.
  assert (lock_rank lh = lock_rank l) as E.
  { rewrite <- (canonical_rank lh), <- (canonical_rank l), (Hnc _ _ _ _ _ _ _ Ht Hl Ht' Hh (eq_sym Ekey)). done. }
  assert (bool_decide (rank_lt (lock_rank l) (lock_rank l2)) = false) as H.
  { apply Hmax, Hranks. by exists k', t', l2. }
  apply bool_decide_eq_false in H. apply H. by rewrite <- E.
Qed.

(** ** Examples *)

#[export] Instance marker_eq_dec : EqDecision Marker. Proof. solve_decision. Defined.
Definition marker2 : Marker := {| gp_pipeline := 10; gp_ref := "main"; gp_counter := 2 |}.
Definition shown (w : option World) : option (list event * bool * list (nat * thread)) :=
  (fun w => (log w, bool_decide (markers (db w) !! (2%N, "prod") = Some marker2), map_to_list (threads w))) <$> w.
(** Neither approval alone clears the lane; the older deploy is then refused by the
    guard; and it goes out once the newer run is canceled. *)
Example second_gate_clears :
  shown (play plain (two_runs ++ both_gates) (installation "branch")) = Some ([Cleared 2 "prod"; Passed 2 "ops"; Passed 2 "qa"], true, []).
Proof. vm_compute. reflexivity. Qed.
Example older_deploy_blocked :
  shown (play plain (two_runs ++ both_gates ++ [(BeginDispatch 101, 3); (CheckLane, 3)]) (installation "branch"))
  = Some ([Cleared 2 "prod"; Passed 2 "ops"; Passed 2 "qa"], true, []).
Proof. vm_compute. reflexivity. Qed.

Definition canceled_story : list (action * nat) :=
  two_runs ++ both_gates ++ [(SetRunStatus 2 "canceled", 0)] ++ dispatch 101 3 ++ [(Send_, 3)].
Definition run2 (status : string) : LaneRun := {|
  lr_pipeline := 10; lr_ref := "main"; lr_counter := 2; lr_definition := Snapshot (lane_pipeline "branch"); lr_status := status |}.
Definition run1 : LaneRun := {|
  lr_pipeline := 10; lr_ref := "main"; lr_counter := 1; lr_definition := Snapshot (lane_pipeline "branch"); lr_status := "queued" |}.
Definition canceled_log : list event := [Sent 101 1 "prod" (Some "branch"); Entered 101 1 "prod"; Cleared 2 "prod"; Passed 2 "ops"; Passed 2 "qa"].
Lemma latest_wins_witness : exists w, play plain canceled_story (installation "branch") = Some w /\
  log w = canceled_log /\ lr_status (run2 "canceled") = "canceled".
Proof.
  destruct (play plain canceled_story (installation "branch")) as [w|] eqn:E; [|vm_compute in E; discriminate E].
  exists w. split; [done|]. pose proof (played plain "branch" canceled_story w E) as Hw.
  assert (log w = canceled_log) as El by (seen log in E).
  assert (runs (db w) !! 1%N = Some run1) as E1 by (seen (fun w => runs (db w) !! 1%N) in E).
  assert (runs (db w) !! 2%N = Some (run2 "canceled")) as E2 by (seen (fun w => runs (db w) !! 2%N) in E).
  split; [exact El|]. clear E.
  refine (latest_wins w (tail canceled_log) [] 101%N 1%N 2%N "prod" "branch" run1 (run2 "canceled") Hw El _ E1 E2 eq_refl (fun _ => eq_refl) eq_refl).
  unfold canceled_log. set_solver.
Defined.

(** The guard is held between its check and the dispatch: a gate of the newer run
    waits for it, and the deploy goes out before the lane is cleared. *)
Definition racing : list (action * nat) :=
  two_runs ++ approve 2 "qa" 1 ++ [(BeginApprove 2 "ops", 1)] ++ dispatch 101 3.
Example commit_waits : exists w, play plain racing (installation "branch") = Some w /\
  (exists t, threads w !! 1 = Some t /\ blocked w 1 t) /\ act plain TakeLock 1 w = None.
Proof.
  destruct (play plain racing (installation "branch")) as [w|] eqn:E; [|vm_compute in E; discriminate E].
  exists w. split; [done|]. split.
  - exists (Approving 2 "ops" [] [LaneLock 10 "branch" "main" "prod"; FreezeLock 1 "prod"]).
    split; [seen (fun w => threads w !! 1) in E|]. left. split; [done|].
    assert (bool_decide (take_lock w 1 = None) = true) as H by (seen (fun w => bool_decide (take_lock w 1 = None)) in E).
    by apply bool_decide_eq_true in H.
  - assert (bool_decide (is_Some (act plain TakeLock 1 w)) = false) as H by (seen (fun w => bool_decide (is_Some (act plain TakeLock 1 w))) in E).
    apply bool_decide_eq_false in H. by apply eq_None_not_Some.
Qed.

Definition drifting : list (action * nat) :=
  two_runs ++ [(ApplyProject 10 (lane_pipeline "pipeline"), 0)] ++ approve 2 "qa" 1 ++ dispatch 101 3 ++ approve 2 "ops" 1 ++ [(Send_, 3)].
Definition drifted_log : list event := [Cleared 2 "prod"; Passed 2 "ops"; Entered 101 1 "prod"; Passed 2 "qa"].
(** the guard reads the mode of the lane from the live definition of the pipeline,
    the gates from the snapshots of their runs - so after the pipeline is applied with
    another mode their locks no longer exclude each other: the deploy of an older run
    is handed over for an environment that a newer run of the lane, not canceled, had
    already cleared. *)
Theorem lane_drift : exists w before job r n env mode older newer,
  reachable {| reruns := false; reapply := true |} w /\ log w = Sent job r env (Some mode) :: before /\ Cleared n env ∈ before /\
  runs (db w) !! r = Some older /\ runs (db w) !! n = Some newer /\ lr_pipeline newer = lr_pipeline older /\
  lr_ref newer = lr_ref older /\ (lr_counter older < lr_counter newer)%Z /\ lr_status newer = "queued".
Proof.
  destruct (play {| reruns := false; reapply := true |} drifting (installation "branch")) as [w|] eqn:E; [|vm_compute in E; discriminate E].
  pose proof (played _ "branch" drifting w E) as Hw.
  assert (log w = Sent 101 1 "prod" (Some "pipeline") :: drifted_log) as El by (seen log in E).
  assert (runs (db w) !! 1%N = Some run1) as E1 by (seen (fun w => runs (db w) !! 1%N) in E).
  assert (runs (db w) !! 2%N = Some (run2 "queued")) as E2 by (seen (fun w => runs (db w) !! 2%N) in E).
  clear E. exists w, drifted_log, 101%N, 1%N, 2%N, "prod", "pipeline", run1, (run2 "queued").
  unfold drifted_log in *. split_and!; [exact Hw|exact El|set_solver|exact E1|exact E2|reflexivity..].
Qed.

(** [no_collision], decided. *)
Definition collision_free (w : World) : bool :=
  forallb (fun kt => match wants kt.2 with
                     | Some l => forallb (fun kt' => forallb (fun h => negb (lock_key l =? lock_key h.1)%Z || bool_decide (canonical l = canonical h.1)) (held kt'.2))
                                         (map_to_list (threads w))
                     | None => true
                     end) (map_to_list (threads w)).
Lemma collision_free_ok w : collision_free w = true -> no_collision w.
Proof.
  unfold collision_free. intros H k t l k' t' l' g' Ht Hl Ht' Hl' E.
  rewrite forallb_forall in H. assert (In (k, t) (map_to_list (threads w))) as Hin by (by apply list_elem_of_In, elem_of_map_to_list).
  specialize (H _ Hin). simpl in H. rewrite Hl, forallb_forall in H.
  assert (In (k', t') (map_to_list (threads w))) as Hin' by (by apply list_elem_of_In, elem_of_map_to_list).
  specialize (H _ Hin'). simpl in H. rewrite forallb_forall in H. specialize (H (l', g') (proj1 (list_elem_of_In _ _) Hl')).
  simpl in H. rewrite E, Z.eqb_refl in H. by apply bool_decide_eq_true in H.
Qed.
(** A freeze in progress, an approval that waits for it, an approval that waits for that. *)
Definition waiting_chain : list (action * nat) :=
  two_runs ++ [(BeginFreeze 1 "prod" true, 3); (TakeLock, 3); (BeginApprove 2 "qa", 1); (TakeLock, 1); (BeginApprove 1 "ops", 2)].
Lemma no_deadlock_witness : exists w, play plain waiting_chain (installation "branch") = Some w /\
  act plain TakeLock 1 w = None /\ act plain TakeLock 2 w = None /\ exists k t, threads w !! k = Some t /\ ~ blocked w k t.
Proof.
  destruct (play plain waiting_chain (installation "branch")) as [w|] eqn:E; [|vm_compute in E; discriminate E].
  exists w. split; [done|]. pose proof (played plain "branch" waiting_chain w E) as Hw.
  assert ((bool_decide (act plain TakeLock 1 w = None), bool_decide (act plain TakeLock 2 w = None)) = (true, true)) as [= E1 E2].
  { seen (fun w => (bool_decide (act plain TakeLock 1 w = None), bool_decide (act plain TakeLock 2 w = None))) in E. }
  assert (collision_free w = true) as Hc by (seen collision_free in E).
  assert (bool_decide (threads w = ∅) = false) as Hn by (seen (fun w => bool_decide (threads w = ∅)) in E).
  clear E. split; [by apply bool_decide_eq_true in E1|]. split; [by apply bool_decide_eq_true in E2|].
  apply (no_deadlock plain w Hw); [by apply collision_free_ok|by apply bool_decide_eq_false in Hn].
Defined.
