(* ===== verification/RunTables.v ===== *)
(** One run's rows - [runs], [stage_runs], [job_runs] - and the SQL statements of
    [server/internal/store] that read and write them (as called from
    [results.go], [dispatch.go], [runs_actions.go], [sweeper.go] and
    [supersede.go]), with the cascade that promotes a stage and its run.

    Timestamps that no decision reads ([started_at], [finished_at]) and the
    log-archive pointers are left out; [pg_notify] is left out because a scheduler
    tick may run at any moment of the model. *)

From S2P Require Import Prelude GoStrings Domain.

Notation uuid := N.

(** ** Rows *)

(** The values [status] takes in the three tables. *)
Inductive Status :=
| StatusQueued | StatusRunning | StatusAwaitingApproval
| StatusSuccess | StatusFailed | StatusCanceled | StatusSkipped.
#[export] Instance Status_eq_dec : EqDecision Status. Proof. solve_decision. Defined.

Definition status_name (s : Status) : string :=
  match s with
  | StatusQueued => "queued" | StatusRunning => "running" | StatusAwaitingApproval => "awaiting_approval"
  | StatusSuccess => "success" | StatusFailed => "failed" | StatusCanceled => "canceled"
  | StatusSkipped => "skipped"
  end.

(** [status IN ('queued', 'running')]: a stage, or a run, that has not ended. *)
Definition active (s : Status) : bool :=
  match s with StatusQueued | StatusRunning => true | _ => false end.
(** [status IN ('queued', 'running', 'awaiting_approval')]: a job that has not ended. *)
Definition unfinished (s : Status) : bool :=
  match s with StatusQueued | StatusRunning | StatusAwaitingApproval => true | _ => false end.

Inductive CancelOrigin :=
| cancelOriginUserJob | cancelOriginUserRun | cancelOriginDependency | cancelOriginSupersede | CancelOriginMergeGroup
| cancelOriginApprovalExpiry.
#[export] Instance CancelOrigin_eq_dec : EqDecision CancelOrigin. Proof. solve_decision. Defined.

(** The columns written when the row is created and never again. *)
Record JobSpec := {
  js_stage : uuid;
  js_name : string;
  js_matrix_key : string;
  js_needs : list string;
  js_gate : bool;
  js_retry_unsafe : bool;
}.
Record JobRow := {
  j_spec : JobSpec;
  j_status : Status;
  j_agent : option uuid;
  j_attempt : Z;
  j_cancel_requested_at : option Time;
  j_cancel_origin : option CancelOrigin;
  j_exit_code : option Z;
  j_error : string;
  j_outputs : gmap string string;
  j_deploy_rollback : bool;
}.
Record StageSpec := { ss_name : string; ss_ordinal : Z }.
Record StageRow := { s_spec : StageSpec; s_status : Status }.
Record RunRow := {
  r_status : Status;
  r_superseded_by : option uuid;
  r_service_generation : Z;
  r_terminal_effects_required : bool;
}.

(** The rows of one run, and the jobs (with their attempt) that have a live row in
    [deploy_watches]. *)
Record RunDB := {
  run : RunRow;
  stages : gmap uuid StageRow;
  jobs : gmap uuid JobRow;
  watched : gset (uuid * Z);
}.

Definition with_run (db : RunDB) (r : RunRow) : RunDB :=
  {| run := r; stages := stages db; jobs := jobs db; watched := watched db |}.
Definition with_stages (db : RunDB) (s : gmap uuid StageRow) : RunDB :=
  {| run := run db; stages := s; jobs := jobs db; watched := watched db |}.
Definition with_jobs (db : RunDB) (j : gmap uuid JobRow) : RunDB :=
  {| run := run db; stages := stages db; jobs := j; watched := watched db |}.
Definition with_watched (db : RunDB) (w : gset (uuid * Z)) : RunDB :=
  {| run := run db; stages := stages db; jobs := jobs db; watched := w |}.

(** [SET status, agent_id, attempt, cancel_requested_at, cancel_origin] on a row. *)
Definition set_job (row : JobRow) (st : Status) (agent : option uuid) (attempt : Z)
    (cancel : option Time) (origin : option CancelOrigin) : JobRow := {|
  j_spec := j_spec row; j_status := st; j_agent := agent; j_attempt := attempt;
  j_cancel_requested_at := cancel; j_cancel_origin := origin; j_exit_code := j_exit_code row;
  j_error := j_error row; j_outputs := j_outputs row; j_deploy_rollback := j_deploy_rollback row;
|}.
(** [SET status = st]. *)
Definition set_status (st : Status) (row : JobRow) : JobRow :=
  set_job row st (j_agent row) (j_attempt row) (j_cancel_requested_at row) (j_cancel_origin row).
(** [SET exit_code, error, outputs]. *)
Definition set_result (row : JobRow) (code : option Z) (err : string) (out : gmap string string) : JobRow := {|
  j_spec := j_spec row; j_status := j_status row; j_agent := j_agent row; j_attempt := j_attempt row;
  j_cancel_requested_at := j_cancel_requested_at row; j_cancel_origin := j_cancel_origin row;
  j_exit_code := code; j_error := err; j_outputs := out; j_deploy_rollback := j_deploy_rollback row;
|}.
Definition set_rollback (row : JobRow) (b : bool) : JobRow := {|
  j_spec := j_spec row; j_status := j_status row; j_agent := j_agent row; j_attempt := j_attempt row;
  j_cancel_requested_at := j_cancel_requested_at row; j_cancel_origin := j_cancel_origin row;
  j_exit_code := j_exit_code row; j_error := j_error row; j_outputs := j_outputs row;
  j_deploy_rollback := b;
|}.
Definition set_stage (st : Status) (row : StageRow) : StageRow := {| s_spec := s_spec row; s_status := st |}.
Definition set_run (row : RunRow) (st : Status) (by_ : option uuid) (gen : Z) (effects : bool) : RunRow := {|
  r_status := st; r_superseded_by := by_; r_service_generation := gen; r_terminal_effects_required := effects;
|}.

(** ** Statements *)

(** [UPDATE job_runs SET ... WHERE id = $1 AND P RETURNING *]: [None] is
    [pgx.ErrNoRows]. *)
Definition update_job (id : uuid) (P : JobRow -> bool) (f : JobRow -> JobRow) (db : RunDB)
    : option (JobRow * RunDB) :=
  row ← jobs db !! id;
  if P row then Some (f row, with_jobs db (<[id := f row]> (jobs db))) else None.
(** [UPDATE job_runs SET ... WHERE P], over the rows of the run. *)
Definition update_jobs (P : JobRow -> bool) (f : JobRow -> JobRow) (db : RunDB) : RunDB :=
  with_jobs db ((fun row => if P row then f row else row) <$> jobs db).
Definition update_stages (P : uuid -> StageRow -> bool) (f : StageRow -> StageRow) (db : RunDB) : RunDB :=
  with_stages db (map_imap (fun id row => Some (if P id row then f row else row)) (stages db)).

(** The stage of a job: [JOIN stage_runs s ON s.id = j.stage_run_id]. *)
Definition stage_of (db : RunDB) (row : JobRow) : option StageRow := stages db !! js_stage (j_spec row).
Definition synthetic (s : StageRow) : bool := bool_decide (ss_name (s_spec s) = NotificationStageName).
(** [... AND s.name != '_notifications']. *)
Definition in_user_stage (db : RunDB) (row : JobRow) : bool :=
  match stage_of db row with Some s => negb (synthetic s) | None => false end.

(** [COUNT(star) FILTER (WHERE P)]. *)
Definition count_jobs (P : JobRow -> bool) (db : RunDB) : nat :=
  size (filter (fun kv => P kv.2 = true) (jobs db)).
Definition count_stages (P : StageRow -> bool) (db : RunDB) : nat :=
  size (filter (fun kv => P kv.2 = true) (stages db)).

Definition has_status (st : Status) (row : JobRow) : bool := bool_decide (j_status row = st).
Definition in_stage (id : uuid) (row : JobRow) : bool := bool_decide (js_stage (j_spec row) = id).

Record StageProgress := { sp_unfinished : nat; sp_failed : nat; sp_canceled : nat }.
Definition GetStageProgress (stage : uuid) (db : RunDB) : StageProgress := {|
  sp_unfinished := count_jobs (fun j => in_stage stage j && unfinished (j_status j)) db;
  sp_failed := count_jobs (fun j => in_stage stage j && has_status StatusFailed j) db;
  sp_canceled := count_jobs (fun j => in_stage stage j && has_status StatusCanceled j) db;
|}.
Definition LockStageRunForUpdate (stage : uuid) (db : RunDB) : option Status := s_status <$> stages db !! stage.
Definition CompleteStageRun (stage : uuid) (st : Status) (db : RunDB) : RunDB * nat :=
  match stages db !! stage with
  | Some row => if active (s_status row) then (with_stages db (<[stage := set_stage st row]> (stages db)), 1)
                else (db, 0)
  | None => (db, 0)
  end.
Definition CancelQueuedStagesInRun (db : RunDB) : RunDB :=
  update_stages (fun _ s => bool_decide (s_status s = StatusQueued) && negb (synthetic s))
    (set_stage StatusCanceled) db.
(** [COALESCE(cancel_origin, @origin)]: the first origin wins. *)
Definition coalesce {A} (o : option A) (a : A) : option A := match o with Some _ => o | None => Some a end.
Definition cancel_job (origin : CancelOrigin) (row : JobRow) : JobRow :=
  set_job row StatusCanceled (j_agent row) (j_attempt row) (j_cancel_requested_at row)
    (coalesce (j_cancel_origin row) origin).
Definition CancelQueuedJobsInRun (origin : CancelOrigin) (db : RunDB) : RunDB :=
  update_jobs (fun j => in_user_stage db j && (has_status StatusQueued j || has_status StatusAwaitingApproval j))
    (cancel_job origin) db.
Definition GetRunProgress (db : RunDB) : nat := count_stages (fun s => active (s_status s)) db.
Record UserStageOutcome := { uo_failed : nat; uo_canceled : nat }.
Definition GetRunUserStageOutcome (db : RunDB) : UserStageOutcome := {|
  uo_failed := count_jobs (fun j => in_user_stage db j && has_status StatusFailed j) db;
  uo_canceled := count_jobs (fun j => in_user_stage db j && has_status StatusCanceled j) db;
|}.
Definition CompleteRun (st : Status) (db : RunDB) : RunDB * nat :=
  if active (r_status (run db))
  then (with_run db (set_run (run db) st (r_superseded_by (run db)) (r_service_generation (run db)) true), 1)
  else (db, 0).

(** ** The cascade *)

Inductive store_error :=
| ErrNoRows | ErrInvalidStatus | ErrRunNotFound | ErrRunAlreadyTerminal | ErrJobRunNotFound
| ErrJobRunTerminal | ErrApprovalGateDecided | ErrCannotRerunGate | ErrJobRunActive | ErrUnknownStage (job : string)
| ErrNoStages | ErrPluginRef (i : nat).
#[export] Instance store_error_eq_dec : EqDecision store_error. Proof. solve_decision. Defined.

(** [JobCompletion]: what the cascade closed ([Some] is Completed with a status). *)
Record JobCompletion := {
  JobStatus : Status;
  StageCompleted : option Status;
  RunCompleted : option (Status * Z);
}.
Definition completion (st : Status) (stage : option Status) (r : option (Status * Z)) : JobCompletion :=
  {| JobStatus := st; StageCompleted := stage; RunCompleted := r |}.

(** Priority: failed > canceled > success. *)
Definition rollup (failed canceled : nat) : Status :=
  if decide (0 < failed) then StatusFailed
  else if decide (0 < canceled) then StatusCanceled
  else StatusSuccess.

(** The run branch: close the run once no stage is left. *)
Definition finish_run (db : RunDB) : RunDB * option (Status * Z) :=
  if decide (0 < GetRunProgress db) then (db, None)
  else
    let userOutcome := GetRunUserStageOutcome db in
    let runStatus := rollup (uo_failed userOutcome) (uo_canceled userOutcome) in
    let '(db, runRows) := CompleteRun runStatus db in
    if decide (runRows = 0) then (db, None)
    else (db, Some (runStatus, r_service_generation (run db))).

(** Fail-fast: a failed stage cancels the queued user work of the run. *)
Definition fail_fast (st : Status) (db : RunDB) : RunDB :=
  if decide (st = StatusFailed)
  then CancelQueuedJobsInRun cancelOriginDependency (CancelQueuedStagesInRun db)
  else db.

Definition cascadeAfterJobCompletion (stage : uuid) (st : Status) (db : RunDB)
    : result store_error (RunDB * JobCompletion) :=
  match LockStageRunForUpdate stage db with
  | None => Err ErrNoRows
  | Some s =>
      if negb (active s) then Ok (db, completion st None None)
      else
        let p := GetStageProgress stage db in
        if decide (0 < sp_unfinished p) then Ok (db, completion st None None)
        else
          let stageStatus := rollup (sp_failed p) (sp_canceled p) in
          let '(db, stageRows) := CompleteStageRun stage stageStatus db in
          if decide (stageRows = 0) then Ok (db, completion st None None)
          else
            let '(db, r) := finish_run (fail_fast stageStatus db) in
            Ok (db, completion st (Some stageStatus) r)
  end.

(** A transaction that changes one job and then cascades: no row matched is
    [ok = false], an error rolls everything back. *)
Definition then_cascade (r : option (JobRow * RunDB)) : result store_error (option (RunDB * JobCompletion)) :=
  match r with
  | None => Ok None
  | Some (row, db) => Some <$> cascadeAfterJobCompletion (js_stage (j_spec row)) (j_status row) db
  end.
