(* ===== verification/RunOps.v ===== *)
(** The transactions of [server/internal/store] on the rows of one run: completing,
    skipping and failing jobs ([results.go]), claiming them ([dispatch.go]),
    cancelling and rerunning ([runs_actions.go]), reclaiming ([sweeper.go],
    [disruption.go]), deciding a gate ([approvals.go]) and superseding
    ([supersede.go]).  A database error aborts the transaction and is the
    unchanged database. *)

From S2P Require Import Prelude GoStrings Domain RunTables.

(** ** Completing jobs ([results.go]) *)

Record CompleteJobInput := {
  in_JobRunID : uuid;
  in_Status : Status;
  in_ExitCode : Z;
  in_ErrorMsg : string;
  in_ExpectedAgentID : option uuid;
  in_ExpectedAttempt : Z;
  in_Outputs : gmap string string;
}.

(** [agent_id IS NOT DISTINCT FROM @expected_agent_id AND attempt = @expected_attempt]. *)
Definition snapshot_matches (agent : option uuid) (attempt : Z) (row : JobRow) : bool :=
  bool_decide (j_agent row = agent) && (j_attempt row =? attempt)%Z.
(** [status IN ('queued', 'running')] and the snapshot. *)
Definition completable (agent : option uuid) (attempt : Z) (row : JobRow) : bool :=
  active (j_status row) && snapshot_matches agent attempt row.

(** The terminal status is derived: a stamped cancel wins over the report, and only
    an un-cancelled success keeps its outputs. *)
Definition completed (i : CompleteJobInput) (row : JobRow) : JobRow :=
  let canceled := bool_decide (is_Some (j_cancel_requested_at row)) in
  set_result (set_status (if canceled then StatusCanceled else in_Status i) row)
    (Some (in_ExitCode i)) (in_ErrorMsg i)
    (if negb canceled && bool_decide (in_Status i = StatusSuccess) then in_Outputs i else ∅).

Definition PrecheckJobCompletion (i : CompleteJobInput) (db : RunDB) : bool :=
  match jobs db !! in_JobRunID i with
  | Some row => completable (in_ExpectedAgentID i) (in_ExpectedAttempt i) row
  | None => false
  end.
Definition CompleteJobRun (i : CompleteJobInput) (db : RunDB) : option (JobRow * RunDB) :=
  update_job (in_JobRunID i) (completable (in_ExpectedAgentID i) (in_ExpectedAttempt i)) (completed i) db.

Definition CompleteJob (i : CompleteJobInput) (db : RunDB)
    : result store_error (option (RunDB * JobCompletion)) :=
  if negb (bool_decide (in_Status i = StatusSuccess) || bool_decide (in_Status i = StatusFailed))
  then Err ErrInvalidStatus
  else if negb (PrecheckJobCompletion i db) then Ok None
  else then_cascade (CompleteJobRun i db).

Definition SkipJob (id : uuid) (db : RunDB) : result store_error (option (RunDB * JobCompletion)) :=
  then_cascade (update_job id (has_status StatusQueued) (set_status StatusSkipped) db).

Definition FailJobWithReason (id : uuid) (reason : string) (db : RunDB)
    : result store_error (option (RunDB * JobCompletion)) :=
  then_cascade (update_job id (has_status StatusQueued)
    (fun row => set_result (set_status StatusFailed row) (j_exit_code row) reason (j_outputs row)) db).

(** [NotificationTriggerMatches]. *)
Definition NotificationTriggerMatches (on : NotificationTrigger) (o : UserStageOutcome) : bool :=
  match on with
  | NotifyOnAlways => true
  | NotifyOnFailure => bool_decide (0 < uo_failed o)
  | NotifyOnCanceled => bool_decide (0 < uo_canceled o)
  | NotifyOnSuccess => bool_decide (uo_failed o = 0) && bool_decide (uo_canceled o = 0)
  end.

(** ** Claiming jobs ([dispatch.go], [native_deploy.go]) *)

(** [status = 'queued' AND agent_id IS NULL]. *)
Definition unclaimed (row : JobRow) : bool := has_status StatusQueued row && bool_decide (j_agent row = None).
Definition with_agent (agent : option uuid) (row : JobRow) : JobRow :=
  set_job row StatusRunning agent (j_attempt row) (j_cancel_requested_at row) (j_cancel_origin row).

Definition AssignJob (id agent : uuid) (db : RunDB) : option (JobRow * RunDB) :=
  update_job id unclaimed (with_agent (Some agent)) db.

Definition MarkRunRunning (db : RunDB) : RunDB :=
  if decide (r_status (run db) = StatusQueued)
  then with_run db (set_run (run db) StatusRunning (r_superseded_by (run db)) (r_service_generation (run db))
                      (r_terminal_effects_required (run db)))
  else db.
Definition MarkStageRunning (stage : uuid) (db : RunDB) : RunDB :=
  update_stages (fun id s => bool_decide (id = stage) && bool_decide (s_status s = StatusQueued))
    (set_stage StatusRunning) db.

(** [startNativeDeployTx]: the claim without an agent, the stage and the run marked
    and the watch created in the same transaction. *)
Definition StartServerManagedJob (id : uuid) (db : RunDB) : option (JobRow * RunDB) :=
  update_job id unclaimed (with_agent None) db.
Definition StartNativeDeploy (id : uuid) (db : RunDB) : option RunDB :=
  '(row, db) ← StartServerManagedJob id db;
  let db := MarkRunRunning (MarkStageRunning (js_stage (j_spec row)) db) in
  Some (with_watched db ({[(id, j_attempt row)]} ∪ watched db)).

(** [FinalizeDeployWatch] ([deploy_watches.go]) on the rows of the run: the watch
    goes, and the job it drove is completed when the snapshot still matches and the
    revision of the watch is still [in_progress] (a row of another table). *)
Definition deploy_verdict (st : Status) : bool :=
  match st with StatusSuccess | StatusFailed | StatusCanceled => true | _ => false end.
Definition FinalizeDeployWatch (in_progress : bool) (id : uuid) (attempt : Z) (st : Status) (reason : string)
    (db : RunDB) : result store_error (option RunDB) :=
  if negb (deploy_verdict st) then Err ErrInvalidStatus
  else if decide ((id, attempt) ∈ watched db) then
    let db := with_watched db (watched db ∖ {[(id, attempt)]}) in
    if negb in_progress then Ok (Some db)
    else
      r ← then_cascade (CompleteJobRun
            {| in_JobRunID := id; in_Status := st;
               in_ExitCode := if decide (st = StatusFailed) then 1%Z else 0%Z;
               in_ErrorMsg := if decide (st = StatusFailed) then reason else "";
               in_ExpectedAgentID := None; in_ExpectedAttempt := attempt; in_Outputs := ∅ |} db);
      Ok (Some (match r with Some (db, _) => db | None => db end))
  else Ok None.
Lemma deploy_verdict_cases st : deploy_verdict st = true -> st = StatusSuccess \/ st = StatusFailed \/ st = StatusCanceled.
Proof. destruct st; naive_solver. Qed.

(** [UnassignJob]: the dispatch did not reach the agent.  A cancel stamped in
    between terminalises the job instead of requeueing it. *)
Definition unassigned (row : JobRow) : JobRow :=
  match j_cancel_requested_at row with
  | Some _ => set_status StatusCanceled row
  | None => set_job row StatusQueued None (j_attempt row) None None
  end.
Definition UnassignJobRun (id agent : uuid) (attempt : Z) (db : RunDB) : option (JobRow * RunDB) :=
  update_job id (fun row => has_status StatusRunning row && snapshot_matches (Some agent) attempt row) unassigned db.
Definition UnassignJob (id agent : uuid) (attempt : Z) (db : RunDB) : result store_error (option (RunDB * Status)) :=
  match UnassignJobRun id agent attempt db with
  | None => Ok None
  | Some (row, db) =>
      if decide (j_status row = StatusCanceled)
      then (fun r => Some (fst r, j_status row)) <$> cascadeAfterJobCompletion (js_stage (j_spec row)) (j_status row) db
      else Ok (Some (db, j_status row))
  end.

(** ** Cancelling ([runs_actions.go]) *)

(** [COALESCE(cancel_requested_at, NOW())] and the origin, on a running job. *)
Definition stamp_cancel (now : Time) (origin : CancelOrigin) (row : JobRow) : JobRow :=
  set_job row (j_status row) (j_agent row) (j_attempt row) (coalesce (j_cancel_requested_at row) now)
    (coalesce (j_cancel_origin row) origin).

(** Queued and awaiting user jobs end, running ones are stamped. *)
Definition cancel_run_job (origin : CancelOrigin) (now : Time) (row : JobRow) : JobRow :=
  if has_status StatusRunning row then stamp_cancel now origin row else cancel_job origin row.
Definition cancel_user_jobs (origin : CancelOrigin) (now : Time) (db : RunDB) : RunDB :=
  update_jobs (fun j => in_user_stage db j && unfinished (j_status j)) (cancel_run_job origin now) db.
Definition CancelRunJobs (now : Time) (db : RunDB) : RunDB := cancel_user_jobs cancelOriginUserRun now db.
Definition CancelActiveRun (db : RunDB) : option RunDB :=
  if active (r_status (run db))
  then Some (with_run db (set_run (run db) StatusCanceled (r_superseded_by (run db)) (r_service_generation (run db)) true))
  else None.
(** [CancelRun], with the list of jobs whose agent gets a [CancelJob] frame.  The
    status is checked before the transaction and again by its last statement. *)
Definition cancel_targets (P : JobRow -> bool) (db : RunDB) : list (uuid * uuid) :=
  omap (fun kv => if P kv.2 && has_status StatusRunning kv.2 then a ← j_agent kv.2; Some (kv.1, a) else None)
    (map_to_list (jobs db)).
Definition CancelRun (now : Time) (db : RunDB) : result store_error (RunDB * list (uuid * uuid)) :=
  if negb (active (r_status (run db))) then Err ErrRunAlreadyTerminal
  else
    let targets := cancel_targets (in_user_stage db) db in
    match CancelActiveRun (CancelQueuedStagesInRun (CancelRunJobs now db)) with
    | None => Err ErrRunAlreadyTerminal
    | Some db => Ok (db, targets)
    end.

(** [CancelJobRun]: the agent to signal when the job was running. *)
Record CancelJobRunResult := { NeedsDispatch : bool; Dispatched : option uuid }.
Definition CancelJobRun (now : Time) (id : uuid) (db : RunDB) : result store_error (RunDB * CancelJobRunResult) :=
  match jobs db !! id with
  | None => Err ErrJobRunNotFound
  | Some row =>
      match j_status row with
      | StatusRunning =>
          let db := match j_cancel_requested_at row with
                    | Some _ => db
                    | None => with_jobs db (<[id := stamp_cancel now cancelOriginUserJob row]> (jobs db))
                    end in
          Ok (db, {| NeedsDispatch := true; Dispatched := j_agent row |})
      | StatusQueued =>
          let row := cancel_job cancelOriginUserJob row in
          '(db, _) ← cascadeAfterJobCompletion (js_stage (j_spec row)) (j_status row)
                       (with_jobs db (<[id := row]> (jobs db)));
          Ok (db, {| NeedsDispatch := false; Dispatched := None |})
      | _ => Err ErrJobRunTerminal
      end
  end.

(** The reaper's cancels, of running stamped jobs it finds abandoned.  [gone] is
    the liveness predicate of the statement: the owning agent is offline or silent
    for the grace period, or no deploy watch exists for an agent-less job. *)
Definition abandoned (gone : uuid -> JobRow -> bool) (id : uuid) (row : JobRow) : bool :=
  has_status StatusRunning row && bool_decide (is_Some (j_cancel_requested_at row)) && gone id row.
Fixpoint cascade_rows (rows : list (uuid * JobRow)) (db : RunDB) : result store_error RunDB :=
  match rows with
  | [] => Ok db
  | (_, row) :: rows =>
      '(db, _) ← cascadeAfterJobCompletion (js_stage (j_spec row)) StatusCanceled db;
      cascade_rows rows db
  end.
Definition ReclaimPendingCancels (gone : uuid -> JobRow -> bool) (db : RunDB) : result store_error RunDB :=
  let rows := filter (fun kv => abandoned gone kv.1 kv.2 = true) (map_to_list (jobs db)) in
  cascade_rows rows
    (with_jobs db (map_imap (fun id row => Some (if abandoned gone id row then set_status StatusCanceled row else row))
                     (jobs db))).

(** ** Rerunning one job ([runs_actions.go]) *)

Definition requeued (row : JobRow) (attempt : Z) : JobRow :=
  set_result (set_job row StatusQueued None attempt None None) None "" (j_outputs row).
Definition ended (s : Status) : bool :=
  match s with StatusSuccess | StatusFailed | StatusCanceled => true | _ => false end.

(** A job of a later stage the system cancelled: not a user's own single-job cancel. *)
Definition revivable (db : RunDB) (ordinal : Z) (row : JobRow) : bool :=
  has_status StatusCanceled row && negb (bool_decide (j_cancel_origin row = Some cancelOriginUserJob)) &&
  match stage_of db row with Some s => (ordinal <? ss_ordinal (s_spec s))%Z | None => false end.
Definition revived (row : JobRow) : JobRow :=
  if js_gate (j_spec row)
  then set_result (set_job row StatusAwaitingApproval None (j_attempt row) None None) None "" (j_outputs row)
  else requeued row (j_attempt row).
Definition reopened (db : RunDB) (ordinal : Z) (id : uuid) (s : StageRow) : bool :=
  bool_decide (s_status s = StatusCanceled) && (ordinal <? ss_ordinal (s_spec s))%Z &&
  bool_decide (0 < count_jobs (fun j => in_stage id j &&
                   (has_status StatusQueued j || has_status StatusAwaitingApproval j)) db).

Definition RerunJob (id : uuid) (isRollback : bool) (db : RunDB) : result store_error (RunDB * Z) :=
  match jobs db !! id with
  | None => Err ErrJobRunNotFound
  | Some row =>
      if js_gate (j_spec row) then Err ErrCannotRerunGate
      else if active (j_status row) then Err ErrJobRunActive
      else
        let attempt := (j_attempt row + 1)%Z in
        let stage := js_stage (j_spec row) in
        match stages db !! stage with
        | None => Err ErrNoRows
        | Some s =>
            let ordinal := ss_ordinal (s_spec s) in
            let db := with_jobs db (<[id := set_rollback (requeued row attempt) isRollback]> (jobs db)) in
            let db := update_stages (fun k s => bool_decide (k = stage) && ended (s_status s))
                        (set_stage StatusRunning) db in
            let db := if ended (r_status (run db))
                      then with_run db (set_run (run db) StatusRunning None (r_service_generation (run db) + 1)%Z false)
                      else db in
            let db := update_jobs (revivable db ordinal) revived db in
            Ok (update_stages (reopened db ordinal) (set_stage StatusQueued) db, attempt)
        end
  end.

(** ** Reclaiming ([sweeper.go], [disruption.go]) *)

(** [ReclaimJobForRetry]. *)
Definition retryable (maxAttempts : Z) (agent : option uuid) (attempt : Z) (row : JobRow) : bool :=
  has_status StatusRunning row && bool_decide (j_cancel_requested_at row = None) &&
  (j_attempt row <? maxAttempts)%Z && snapshot_matches agent attempt row.
Definition requeueStaleJob (id : uuid) (maxAttempts attempt : Z) (agent : option uuid) (db : RunDB)
    : option (JobRow * RunDB) :=
  update_job id (retryable maxAttempts agent attempt) (fun row => requeued row (j_attempt row + 1)%Z) db.

(** [FailStaleJobAtMax] and its cascade. *)
Definition failJobIfStale (id : uuid) (attempt : Z) (agent : option uuid) (reason : string) (db : RunDB)
    : result store_error (option (RunDB * JobCompletion)) :=
  then_cascade (update_job id
    (fun row => has_status StatusRunning row && bool_decide (j_cancel_requested_at row = None) &&
                snapshot_matches agent attempt row)
    (fun row => set_result (set_status StatusFailed row) (Some (-1)%Z) reason (j_outputs row)) db).

Inductive DisruptedOutcome :=
| DisruptedRequeued | DisruptedFailedCapped | DisruptedFailedUnsafe | DisruptedCanceled | DisruptedSkipped.
#[export] Instance DisruptedOutcome_eq_dec : EqDecision DisruptedOutcome. Proof. solve_decision. Defined.

(** [HandleDisruptedJob]: [cls] is the row the unlocked classifying read saw, the
    database may have moved since. *)
Definition HandleDisruptedJob (id agent : uuid) (attempt maxAttempts : Z) (reason : string)
    (cls : option JobRow) (db : RunDB) : result store_error (RunDB * DisruptedOutcome) :=
  let maxAttempts := if (maxAttempts <=? 0)%Z then 3%Z else maxAttempts in
  match cls with
  | None => Ok (db, DisruptedSkipped)
  | Some cls =>
      if negb (has_status StatusRunning cls) then Ok (db, DisruptedSkipped)
      else
        let requeue := negb (js_retry_unsafe (j_spec cls)) && bool_decide (j_cancel_requested_at cls = None) &&
                       (j_attempt cls + 1 <=? maxAttempts)%Z in
        match (if requeue then requeueStaleJob id maxAttempts attempt (Some agent) db else None) with
        | Some (_, db) => Ok (db, DisruptedRequeued)
        | None =>
            r ← CompleteJob {| in_JobRunID := id; in_Status := StatusFailed; in_ExitCode := (-1)%Z;
                               in_ErrorMsg := reason; in_ExpectedAgentID := Some agent;
                               in_ExpectedAttempt := attempt; in_Outputs := ∅ |} db;
            match r with
            | None => Ok (db, DisruptedSkipped)
            | Some (db, comp) =>
                Ok (db, if decide (JobStatus comp = StatusCanceled) then DisruptedCanceled
                        else if js_retry_unsafe (j_spec cls) then DisruptedFailedUnsafe
                        else DisruptedFailedCapped)
            end
        end
  end.

(** ** Gates and superseding *)

(** The terminal transition of [decideGate] and its cascade. *)
Definition settle_gate (id : uuid) (approved : bool) (db : RunDB)
    : result store_error (option (RunDB * JobCompletion)) :=
  then_cascade (update_job id (fun row => js_gate (j_spec row) && has_status StatusAwaitingApproval row)
    (set_status (if approved then StatusSuccess else StatusFailed)) db).

(** The run ends as cancelled, its queued work with it, and what is still running
    is stamped: the tail of [supersedeOne] and of [ExpireApprovalGate]. *)
Definition terminate_run (origin : CancelOrigin) (now : Time) (r : RunRow) (db : RunDB) : RunDB :=
  update_jobs (has_status StatusRunning) (stamp_cancel now origin)
    (CancelQueuedJobsInRun origin (CancelQueuedStagesInRun (with_run db r))).
Definition supersedeOne (by_ : uuid) (now : Time) (db : RunDB) : option RunDB :=
  if active (r_status (run db))
  then Some (terminate_run cancelOriginSupersede now
         (set_run (run db) StatusCanceled (Some by_) (r_service_generation (run db))
            (r_terminal_effects_required (run db))) db)
  else None.
(** One run of [CancelMergeGroupRuns] ([store/merge_group.go]): it was active when it was
    chosen, which only the last of the three statements asks again.  Whether the run ended. *)
Definition cancelMergeGroupOne (now : Time) (db : RunDB) : RunDB * bool :=
  let db := CancelQueuedStagesInRun (cancel_user_jobs CancelOriginMergeGroup now db) in
  if active (r_status (run db))
  then (with_run db (set_run (run db) StatusCanceled (r_superseded_by (run db)) (r_service_generation (run db))
          (r_terminal_effects_required (run db))), true)
  else (db, false).
(** The guards on other tables - freezes, the window, [awaiting_since] - are those of
    [Approvals.ExpireApprovalGate]; here the gate may expire whenever the rows let it. *)
Definition ExpireApprovalGate (gate : uuid) (now : Time) (db : RunDB) : result store_error RunDB :=
  if negb (active (r_status (run db))) then Err ErrRunAlreadyTerminal
  else match jobs db !! gate with
       | Some row =>
           if js_gate (j_spec row) && has_status StatusAwaitingApproval row
           then Ok (terminate_run cancelOriginApprovalExpiry now
                  (set_run (run db) StatusCanceled (r_superseded_by (run db)) (r_service_generation (run db)) true) db)
           else Err ErrApprovalGateDecided
       | None => Err ErrApprovalGateDecided
       end.
