(* ===== verification/Needs.v ===== *)
(** [server/internal/scheduler/needs.go] and [scheduler_needs.go]: the gate that
    decides, from one snapshot of the run's job statuses, whether a job's [needs:]
    allow it to be dispatched. *)

From S2P Require Import Prelude GoStrings Domain RunTables.

(** ** The snapshot *)

Record JobStatusForRun := { jr_name : string; jr_matrix_key : string; jr_status : Status }.
Record JobStatusRow := { st_matrix_key : string; st_status : Status }.
Notation JobStatusMap := (gmap string (list JobStatusRow)).

Definition push_row (m : JobStatusMap) (r : JobStatusForRun) : JobStatusMap :=
  <[jr_name r := default [] (m !! jr_name r) ++
                 [{| st_matrix_key := jr_matrix_key r; st_status := jr_status r |}]]> m.
Definition buildJobStatusMap (rows : list JobStatusForRun) : JobStatusMap := foldl push_row ∅ rows.

(** ** Messages *)

Definition maxNeedsField : nat := 128.
Definition clampNeedsField (s : string) : string :=
  if decide (slen s <= maxNeedsField) then s else stake maxNeedsField s.
Definition describeBlocker (name : string) (r : JobStatusRow) : string :=
  let n := clampNeedsField name in
  let s := clampNeedsField (status_name (st_status r)) in
  if decide (st_matrix_key r = "") then n +:+ ": " +:+ s
  else n +:+ "[" +:+ clampNeedsField (st_matrix_key r) +:+ "]: " +:+ s.

(** ** The verdict *)

Record NeedsCheck := { Check_Ok : bool; UpstreamTerminal : bool; Skip : bool; Detail : string }.
Definition blocked (terminal skip : bool) (detail : string) : NeedsCheck :=
  {| Check_Ok := false; UpstreamTerminal := terminal; Skip := skip; Detail := detail |}.
Definition satisfied : NeedsCheck :=
  {| Check_Ok := true; UpstreamTerminal := false; Skip := false; Detail := "" |}.

(** The two variables of the loop: the first cancelled or skipped blocker, the
    first one still running. *)
Record Blockers := { cancelSkip : option NeedsCheck; waiting : option NeedsCheck }.
Definition no_blockers : Blockers := {| cancelSkip := None; waiting := None |}.

(** The loop over the rows of one name; [inl] is the early return. *)
Fixpoint scan_rows (name : string) (rows : list JobStatusRow) (b : Blockers) : NeedsCheck + Blockers :=
  match rows with
  | [] => inr b
  | r :: rows =>
      match st_status r with
      | StatusSuccess => scan_rows name rows b
      | StatusFailed => inl (blocked true false (describeBlocker name r))
      | StatusCanceled | StatusSkipped =>
          scan_rows name rows
            {| cancelSkip := coalesce (cancelSkip b) (blocked true true (describeBlocker name r));
               waiting := waiting b |}
      | _ =>
          scan_rows name rows
            {| cancelSkip := cancelSkip b;
               waiting := coalesce (waiting b) (blocked false false (describeBlocker name r)) |}
      end
  end.

Fixpoint scan_needs (needs : list string) (status : JobStatusMap) (b : Blockers) : NeedsCheck + Blockers :=
  match needs with
  | [] => inr b
  | name :: needs =>
      match status !! name with
      | None => inl (blocked true false (clampNeedsField name +:+ ": not in this run"))
      | Some [] => inl (blocked true false (clampNeedsField name +:+ ": no job_run rows"))
      | Some rows =>
          match scan_rows name rows b with
          | inl v => inl v
          | inr b => scan_needs needs status b
          end
      end
  end.

Definition needsSatisfied (needs : list string) (status : JobStatusMap) : NeedsCheck :=
  match scan_needs needs status no_blockers with
  | inl v => v
  | inr b =>
      match waiting b, cancelSkip b with
      | Some v, _ => v
      | None, Some v => v
      | None, None => satisfied
      end
  end.

(** [summarizeNeeds]: the first row of every need that has not succeeded. *)
Definition ellipsis : string := bytes [226; 128; 166].
Definition summarizeNeeds (needs : list string) (status : JobStatusMap) : string :=
  let parts := omap (fun name =>
    match status !! name with
    | None => Some (clampNeedsField name +:+ ":missing")
    | Some rows =>
        match filter (fun r => st_status r <> StatusSuccess) rows with
        | [] => None
        | blocker :: _ => Some (describeBlocker name blocker)
        end
    end) needs in
  let out := Join parts ", " in
  if decide (240 < slen out) then stake 240 out +:+ ellipsis else out.

(** ** What a snapshot says *)

Definition rows_of (rows : list JobStatusForRun) (name : string) : list JobStatusRow :=
  (fun r => {| st_matrix_key := jr_matrix_key r; st_status := jr_status r |}) <$>
    filter (fun r => jr_name r = name) rows.

Lemma buildJobStatusMap_spec rows name :
  buildJobStatusMap rows !! name = match rows_of rows name with [] => None | l => Some l end.
Proof.
  unfold buildJobStatusMap, rows_of. induction rows as [|r rows IH] using rev_ind; [done|].
  rewrite foldl_app, filter_app, fmap_app, filter_cons, filter_nil. simpl. unfold push_row at 1.
  destruct (decide (jr_name r = name)) as [<-|Hne].
  - rewrite lookup_insert_eq, IH. by destruct (_ <$> filter _ rows).
  - rewrite lookup_insert_ne, IH by done. simpl. by rewrite app_nil_r.
Qed.

(** ** The verdict, exactly *)

Section Verdict.
Context (needs : list string) (status : JobStatusMap).

Definition row_in (name : string) (P : Status -> Prop) : Prop :=
  exists rows r, status !! name = Some rows /\ r ∈ rows /\ P (st_status r).
(** A need that can never be met: no row, or a failed one. *)
Definition need_dead (name : string) : Prop :=
  status !! name = None \/ status !! name = Some [] \/ row_in name (fun s => s = StatusFailed).
Definition need_pending (name : string) : Prop := row_in name (fun s => unfinished s = true).
Definition need_cancelled (name : string) : Prop := row_in name (fun s => s = StatusCanceled \/ s = StatusSkipped).
(** A need whose rows exist and all succeeded. *)
Definition need_met (name : string) : Prop :=
  exists rows, status !! name = Some rows /\ rows <> [] /\ Forall (fun r => st_status r = StatusSuccess) rows.

(** The first blocker kept in a variable is [Some] exactly when it was already, or a
    row of the kind was met, and it carries the kind's verdict. *)
Definition tracks (terminal : bool) (o o' : option NeedsCheck) (P : Prop) : Prop :=
  (is_Some o' <-> is_Some o \/ P) /\
  (forall v, o' = Some v -> o = Some v \/ (Check_Ok v = false /\ UpstreamTerminal v = terminal /\ Skip v = terminal)).

Lemma tracks_refl t o P : ~ P -> tracks t o o P.
Proof. split; naive_solver. Qed.
Lemma tracks_coalesce t o d (P : Prop) : P -> tracks t o (coalesce o (blocked t t d)) P.
Proof.
  intros HP. unfold tracks. destruct o as [v|]; simpl.
  - split; [|naive_solver]. split; eauto.
  - split; [split; eauto|]. intros ? [= <-]. right. done.
Qed.
Lemma tracks_trans t o1 o2 o3 (P Q R : Prop) :
  tracks t o1 o2 P -> tracks t o2 o3 Q -> (R <-> P \/ Q) -> tracks t o1 o3 R.
Proof.
  intros [H1 H2] [H3 H4] HR. split; [tauto|]. intros v Hv. destruct (H4 _ Hv) as [Hv'|]; [|by right]. auto.
Qed.

Lemma scan_rows_spec name rows b :
  match scan_rows name rows b with
  | inl v => v = blocked true false (Detail v) /\ exists r, r ∈ rows /\ st_status r = StatusFailed
  | inr b' =>
      (forall r, r ∈ rows -> st_status r <> StatusFailed) /\
      tracks true (cancelSkip b) (cancelSkip b')
        (exists r, r ∈ rows /\ (st_status r = StatusCanceled \/ st_status r = StatusSkipped)) /\
      tracks false (waiting b) (waiting b') (exists r, r ∈ rows /\ unfinished (st_status r) = true)
  end.
Proof.
  revert b. induction rows as [|r rows IH]; intros b; simpl.
  - split; [set_solver|]. split; apply tracks_refl; set_solver.
  - assert (Hcase : forall b1 (P Q : Prop),
      tracks true (cancelSkip b) (cancelSkip b1) P -> tracks false (waiting b) (waiting b1) Q ->
      (P <-> st_status r = StatusCanceled \/ st_status r = StatusSkipped) ->
      (Q <-> unfinished (st_status r) = true) -> st_status r <> StatusFailed ->
      match scan_rows name rows b1 with
      | inl v => v = blocked true false (Detail v) /\ exists r0, r0 ∈ r :: rows /\ st_status r0 = StatusFailed
      | inr b' =>
          (forall r0, r0 ∈ r :: rows -> st_status r0 <> StatusFailed) /\
          tracks true (cancelSkip b) (cancelSkip b')
            (exists r0, r0 ∈ r :: rows /\ (st_status r0 = StatusCanceled \/ st_status r0 = StatusSkipped)) /\
          tracks false (waiting b) (waiting b') (exists r0, r0 ∈ r :: rows /\ unfinished (st_status r0) = true)
      end).
    { intros b1 P Q HP HQ HPe HQe Hf. specialize (IH b1). destruct (scan_rows name rows b1) as [v|b2].
      - destruct IH as (Hv & r0 & Hr0 & Hs). split; [done|]. exists r0. set_solver.
      - destruct IH as (Hnf & Hc & Hw). split_and!.
        + intros r0 [->|Hr0]%elem_of_cons; auto.
        + eapply tracks_trans; [exact HP|exact Hc|]. rewrite HPe. setoid_rewrite elem_of_cons. naive_solver.
        + eapply tracks_trans; [exact HQ|exact Hw|]. rewrite HQe. setoid_rewrite elem_of_cons. naive_solver. }
    assert (Hrefl : forall t o, tracks t o o False) by (intros t o; apply tracks_refl; tauto).
    assert (Hput : forall t o d, tracks t o (coalesce o (blocked t t d)) True) by (intros t o d; by apply tracks_coalesce).
    destruct (st_status r) eqn:Hr.
    1, 2, 3: apply (Hcase _ False True); [apply Hrefl|apply Hput|rewrite ?Hr; simpl; naive_solver..].
    + apply (Hcase b False False); [apply Hrefl|apply Hrefl|rewrite ?Hr; simpl; naive_solver..].
    + split; [done|]. exists r. split; [by left|done].
    + apply (Hcase _ True False); [apply Hput|apply Hrefl|rewrite ?Hr; simpl; naive_solver..].
    + apply (Hcase _ True False); [apply Hput|apply Hrefl|rewrite ?Hr; simpl; naive_solver..].
Qed.

Lemma exists_cons {A} (P : A -> Prop) x l : (exists y, y ∈ x :: l /\ P y) <-> P x \/ exists y, y ∈ l /\ P y.
Proof. setoid_rewrite elem_of_cons. naive_solver. Qed.
Lemma row_in_Some name rows P : status !! name = Some rows ->
  row_in name P <-> exists r, r ∈ rows /\ P (st_status r).
Proof. intros H. unfold row_in. rewrite H. naive_solver. Qed.

(** The verdict of the gate: a dead need wins, then a pending one, then a
    cancelled one. *)
Lemma scan_needs_spec b :
  match scan_needs needs status b with
  | inl v => v = blocked true false (Detail v) /\ exists n, n ∈ needs /\ need_dead n
  | inr b' =>
      (forall n, n ∈ needs -> ~ need_dead n) /\
      tracks true (cancelSkip b) (cancelSkip b') (exists n, n ∈ needs /\ need_cancelled n) /\
      tracks false (waiting b) (waiting b') (exists n, n ∈ needs /\ need_pending n)
  end.
Proof.
  revert b. induction needs as [|n ns IH]; intros b; simpl.
  - split; [set_solver|]. split; apply tracks_refl; set_solver.
  - destruct (status !! n) as [[|r rows]|] eqn:Hn.
    1, 3: split; [done|]; exists n; split; [left|unfold need_dead; auto].
    pose proof (scan_rows_spec n (r :: rows) b) as Hs.
    destruct (scan_rows n (r :: rows) b) as [v|b1].
    + destruct Hs as (Hv & r0 & Hr0 & Hst). split; [done|]. exists n. split; [left|].
      right; right. exists (r :: rows), r0. auto.
    + destruct Hs as (Hnf & Hc & Hw). specialize (IH b1). destruct (scan_needs ns status b1) as [v|b2].
      * destruct IH as (Hv & n' & Hn' & Hd). split; [done|]. exists n'. split; [by right|done].
      * destruct IH as (Hnd & Hc' & Hw'). split_and!.
        -- intros n' [->|Hn']%elem_of_cons; [|auto]. unfold need_dead, row_in.
           rewrite Hn. intros [?|[?|(rows' & r0 & [= <-] & Hr0 & Hst)]]; [done|done|]. by apply (Hnf r0).
        -- eapply tracks_trans; [exact Hc|exact Hc'|]. rewrite exists_cons. unfold need_cancelled at 1.
           by rewrite (row_in_Some _ _ _ Hn).
        -- eapply tracks_trans; [exact Hw|exact Hw'|]. rewrite exists_cons. unfold need_pending at 1.
           by rewrite (row_in_Some _ _ _ Hn).
Qed.

Lemma need_met_iff n :
  need_met n <-> ~ need_dead n /\ ~ need_pending n /\ ~ need_cancelled n.
Proof.
  unfold need_met, need_dead, need_pending, need_cancelled, row_in. destruct (status !! n) as [rows|]; [|naive_solver].
  split.
  - intros (? & [= <-] & Hne & Hall). rewrite Forall_forall in Hall.
    split_and!; [intros [?|[[= ->]|(? & r & [= <-] & Hr & Hst)]]; [done|done|] | intros (? & r & [= <-] & Hr & Hst)
      | intros (? & r & [= <-] & Hr & Hst)]; rewrite (Hall r Hr) in Hst; naive_solver.
  - intros (Hd & Hp & Hc). exists rows. split; [done|]. split; [naive_solver|].
    apply Forall_forall. intros r Hr. destruct (st_status r) eqn:E; [exfalso..|done|exfalso|exfalso|exfalso].
    1, 2, 3: apply Hp; exists rows, r; by rewrite E.
    + apply Hd. right; right. by exists rows, r.
    + apply Hc. exists rows, r. auto.
    + apply Hc. exists rows, r. auto.
Qed.

Inductive verdict_spec : NeedsCheck -> Prop :=
| verdict_met : (forall n, n ∈ needs -> need_met n) -> verdict_spec satisfied
| verdict_dead d : (exists n, n ∈ needs /\ need_dead n) -> verdict_spec (blocked true false d)
| verdict_wait d : (forall n, n ∈ needs -> ~ need_dead n) -> (exists n, n ∈ needs /\ need_pending n) ->
    verdict_spec (blocked false false d)
| verdict_skip d : (forall n, n ∈ needs -> ~ need_dead n /\ ~ need_pending n) ->
    (exists n, n ∈ needs /\ need_cancelled n) -> verdict_spec (blocked true true d).

Lemma verdict_shape v t : Check_Ok v = false -> UpstreamTerminal v = t -> Skip v = t -> v = blocked t t (Detail v).
Proof. destruct v; simpl. by intros -> -> ->. Qed.

Lemma needsSatisfied_spec : verdict_spec (needsSatisfied needs status).
Proof.
  unfold needsSatisfied. pose proof (scan_needs_spec no_blockers) as H.
  destruct (scan_needs needs status no_blockers) as [v|b].
  - destruct H as [-> Hd]. by constructor.
  - destruct H as (Hnd & [Hc Hcv] & [Hw Hwv]). simpl in *.
    destruct (waiting b) as [v|] eqn:Ew.
    + destruct (Hwv v eq_refl) as [?|(H1 & H2 & H3)]; [done|]. rewrite (verdict_shape v false) by done.
      constructor; [done|]. destruct Hw as [Hw _]. destruct (Hw (mk_is_Some _ _ eq_refl)) as [[]%is_Some_None|?]; done.
    + assert (Hnp : ~ exists n, n ∈ needs /\ need_pending n).
      { intros Hp. destruct (is_Some_None (A := NeedsCheck)). tauto. }
      destruct (cancelSkip b) as [v|] eqn:Ec.
      * destruct (Hcv v eq_refl) as [?|(H1 & H2 & H3)]; [done|]. rewrite (verdict_shape v true) by done.
        constructor; [naive_solver|]. destruct Hc as [Hc _]. destruct (Hc (mk_is_Some _ _ eq_refl)) as [[]%is_Some_None|?]; done.
      * assert (Hnc : ~ exists n, n ∈ needs /\ need_cancelled n).
        { intros Hp. destruct (is_Some_None (A := NeedsCheck)). tauto. }
        constructor. intros n Hn. apply need_met_iff. naive_solver.
Qed.
End Verdict.
