(* ===== verification/Scheduler.v ===== *)
(** [server/internal/scheduler/scheduler.go]: one dispatch tick over one run.  The
    tick lists the dispatchable jobs of the active stage, reads the statuses of the
    run once, and then treats each listed job in turn; every statement it issues is
    a separate step between which other calls of the server may run. *)

From S2P Require Import Prelude GoStrings Domain RunTables RunOps Needs.

(** ** The reads of a tick *)

Record DispatchableJob := {
  dj_ID : uuid;
  dj_StageRunID : uuid;
  dj_Name : string;
  dj_MatrixKey : string;
  dj_Needs : list string;
  dj_Attempt : Z;
  dj_DeployRollback : bool;
}.
Definition dispatchable_of (kv : uuid * JobRow) : DispatchableJob := {|
  dj_ID := kv.1; dj_StageRunID := js_stage (j_spec kv.2); dj_Name := js_name (j_spec kv.2);
  dj_MatrixKey := js_matrix_key (j_spec kv.2); dj_Needs := js_needs (j_spec kv.2);
  dj_Attempt := j_attempt kv.2; dj_DeployRollback := j_deploy_rollback kv.2;
|}.

(** [SELECT MIN(ordinal) ... WHERE status IN ('queued', 'running')]. *)
Definition min_ordinal (kv : uuid * StageRow) (acc : option Z) : option Z :=
  if active (s_status kv.2)
  then Some (match acc with Some o => Z.min (ss_ordinal (s_spec kv.2)) o | None => ss_ordinal (s_spec kv.2) end)
  else acc.
Definition active_stage (db : RunDB) : option Z := foldr min_ordinal None (map_to_list (stages db)).

Definition in_ordinal (db : RunDB) (o : option Z) (row : JobRow) : bool :=
  match stage_of db row, o with
  | Some s, Some o => (ss_ordinal (s_spec s) =? o)%Z
  | _, _ => false
  end.
Definition dispatchable (db : RunDB) (row : JobRow) : bool :=
  unclaimed row && negb (js_gate (j_spec row)) && in_ordinal db (active_stage db) row.

Section Collation.
(** The database's text order, which [ORDER BY name, matrix_key] uses. *)
Context (text_lt : string -> string -> bool).

Definition row_lt (a b : uuid * JobRow) : bool :=
  let n a := js_name (j_spec (snd a)) in
  let k a := js_matrix_key (j_spec (snd a)) in
  text_lt (n a) (n b) || (negb (text_lt (n b) (n a)) && text_lt (k a) (k b)).
Definition ordered (l : list (uuid * JobRow)) : list (uuid * JobRow) := stable_sort row_lt l.

Definition ListDispatchableJobs (db : RunDB) : list DispatchableJob :=
  dispatchable_of <$> ordered (filter (fun kv => dispatchable db kv.2 = true) (map_to_list (jobs db))).
Definition ListJobStatusForRun (db : RunDB) : list JobStatusForRun :=
  (fun kv => {| jr_name := js_name (j_spec kv.2); jr_matrix_key := js_matrix_key (j_spec kv.2);
                jr_status := j_status kv.2 |}) <$> ordered (map_to_list (jobs db)).

(** ** The tick *)

(** What the resolvers between the needs gate and the claim answer for one job:
    the environment freeze, the deploy guard, the native takeover, the agent pool,
    and the secrets, artifacts, profile, outputs, tokens and cluster lookups. *)
Inductive Prep :=
| Hold                            (* frozen, busy, no idle agent, a failed read: nothing is written *)
| StopTick                        (* the materials read failed: [break] *)
| Misconfigured (msg : string)    (* [failJobWithError] *)
| TakeOver                        (* native deploy *)
| ToAgent (agent : uuid).
(** [a_delivered]: whether the deploy revision was recorded and the session took
    the assignment. *)
Record Answer := { a_prep : Prep; a_delivered : bool }.

Inductive pc := PStatus | PJob | PClaimed (agent : uuid) (attempt : Z) | PSent.
Record Tick := {
  tk_todo : list DispatchableJob;
  tk_status : JobStatusMap;
  tk_outcome : option UserStageOutcome;
  tk_dispatched : bool;
  tk_pc : pc;
}.
Definition set_tick (t : Tick) (todo : list DispatchableJob) (p : pc) : Tick := {|
  tk_todo := todo; tk_status := tk_status t; tk_outcome := tk_outcome t;
  tk_dispatched := tk_dispatched t; tk_pc := p;
|}.
Definition sent (t : Tick) : Tick := {|
  tk_todo := tail (tk_todo t); tk_status := tk_status t; tk_outcome := tk_outcome t;
  tk_dispatched := true; tk_pc := PJob;
|}.
Definition with_status (t : Tick) (m : JobStatusMap) : Tick := {|
  tk_todo := tk_todo t; tk_status := m; tk_outcome := tk_outcome t; tk_dispatched := tk_dispatched t;
  tk_pc := PJob;
|}.
Definition with_outcome (t : Tick) (o : UserStageOutcome) : Tick := {|
  tk_todo := tk_todo t; tk_status := tk_status t; tk_outcome := Some o; tk_dispatched := tk_dispatched t;
  tk_pc := PJob;
|}.

(** The head of [dispatchRun]: [busy] is whether a serial pipeline has another
    running run. *)
Definition start_tick (busy : bool) (db : RunDB) : option Tick :=
  if busy then None
  else match ListDispatchableJobs db with
       | [] => None
       | l => Some {| tk_todo := l; tk_status := ∅; tk_outcome := None; tk_dispatched := false; tk_pc := PStatus |}
       end.

(** A call whose result the tick ignores: on an error the transaction is undone. *)
Definition committed {A} (r : result store_error (option (RunDB * A))) (db : RunDB) : RunDB :=
  match r with Ok (Some (db, _)) => db | _ => db end.

Definition failJobWithError (j : DispatchableJob) (msg : string) (db : RunDB) : RunDB :=
  committed (CompleteJob {| in_JobRunID := dj_ID j; in_Status := StatusFailed; in_ExitCode := (-1)%Z;
                            in_ErrorMsg := msg; in_ExpectedAgentID := None;
                            in_ExpectedAttempt := dj_Attempt j; in_Outputs := ∅ |} db) db.
Definition failJobNeedsUnmet (j : DispatchableJob) (detail : string) (db : RunDB) : RunDB :=
  committed (FailJobWithReason (dj_ID j) ("needs unmet: " +:+ detail) db) db.
Definition skipJobNeedsUnmet (j : DispatchableJob) (db : RunDB) : RunDB :=
  committed (SkipJob (dj_ID j) db) db.

(** The part of the iteration after the notification trigger. *)
Definition treat (a : Answer) (j : DispatchableJob) (t next : Tick) (db : RunDB) : RunDB * option Tick :=
  let c := needsSatisfied (dj_Needs j) (tk_status t) in
  if negb (Check_Ok c) then
    (if negb (UpstreamTerminal c) then db
     else if Skip c then skipJobNeedsUnmet j db
     else failJobNeedsUnmet j (Detail c) db, Some next)
  else match a_prep a with
       | Hold => (db, Some next)
       | StopTick => (db, Some (set_tick t [] PJob))
       | Misconfigured msg => (failJobWithError j msg db, Some next)
       | TakeOver => (default db (StartNativeDeploy (dj_ID j) db), Some next)
       | ToAgent agent =>
           match AssignJob (dj_ID j) agent db with
           | None => (db, Some next)
           | Some (row, db) => (db, Some (set_tick t (tk_todo t) (PClaimed agent (j_attempt row))))
           end
       end.

(** One step of a tick; [None] is the end of [dispatchRun]. *)
Definition advance (spec : Z -> option NotificationTrigger) (a : Answer) (t : Tick) (db : RunDB)
    : RunDB * option Tick :=
  match tk_pc t, tk_todo t with
  | PStatus, _ => (db, Some (with_status t (buildJobStatusMap (ListJobStatusForRun db))))
  | PJob, [] => (if tk_dispatched t then MarkRunRunning db else db, None)
  | PJob, j :: todo =>
      let next := set_tick t todo PJob in
      let '(idx, isNotif) := NotificationIndexFromName (dj_Name j) in
      if isNotif then
        match spec idx with
        | None => (db, Some next)
        | Some on =>
            match tk_outcome t with
            | None => (db, Some (with_outcome t (GetRunUserStageOutcome db)))
            | Some o => if negb (NotificationTriggerMatches on o)
                        then (committed (SkipJob (dj_ID j) db) db, Some next)
                        else treat a j t next db
            end
        end
      else treat a j t next db
  | PClaimed agent attempt, j :: todo =>
      if a_delivered a then (db, Some (set_tick t (tk_todo t) PSent))
      else (match UnassignJob (dj_ID j) agent attempt db with Ok (Some (db, _)) => db | _ => db end,
            Some (set_tick t todo PJob))
  | PSent, j :: _ => (MarkStageRunning (dj_StageRunID j) db, Some (sent t))
  | _, [] => (db, None)
  end.

(** A whole tick with nothing in between: [answer] is what the resolvers say of a
    job.  Each job takes at most four steps. *)
Fixpoint run_tick (fuel : nat) (spec : Z -> option NotificationTrigger) (answer : DispatchableJob -> Answer)
    (t : Tick) (db : RunDB) : RunDB :=
  match fuel with
  | 0 => db
  | S fuel =>
      let a := match tk_todo t with j :: _ => answer j | [] => {| a_prep := Hold; a_delivered := false |} end in
      match advance spec a t db with
      | (db, Some t) => run_tick fuel spec answer t db
      | (db, None) => db
      end
  end.
Definition tick_fuel (t : Tick) : nat := 2 + 4 * length (tk_todo t).
Definition dispatchRun (spec : Z -> option NotificationTrigger) (answer : DispatchableJob -> Answer)
    (busy : bool) (db : RunDB) : RunDB :=
  match start_tick busy db with
  | None => db
  | Some t => run_tick (tick_fuel t) spec answer t db
  end.
End Collation.
