(* ===== verification/RunInv.v ===== *)
(** What the transactions of [RunOps] keep: facts about a run's rows that never
    become false again ([grows]), and the safety of the rows themselves ([safe]),
    each proved statement by statement and then for every transaction but the
    rerun of a job. *)

From S2P Require Import Prelude GoStrings Domain RunTables RunOps Needs Scheduler.

(** ** Counting rows *)

Lemma size_filter_pos {V} (P : V -> bool) (m : gmap uuid V) :
  0 < size (filter (fun kv => P kv.2 = true) m) <-> exists id v, m !! id = Some v /\ P v = true.
Proof.
  split.
  - intros Hpos. destruct (map_choose (filter (fun kv : uuid * V => P kv.2 = true) m)) as (id & v & Hv).
    { intros Hz. rewrite Hz, map_size_empty in Hpos. lia. }
    apply map_lookup_filter_Some in Hv as [? ?]. eauto.
  - intros (id & v & Hv & HP). apply Nat.neq_0_lt_0, map_size_non_empty_iff. intros Hz.
    assert (H : filter (fun kv : uuid * V => P kv.2 = true) m !! id = Some v) by by apply map_lookup_filter_Some.
    by rewrite Hz, lookup_empty in H.
Qed.
Lemma count_jobs_pos P db : 0 < count_jobs P db <-> exists id row, jobs db !! id = Some row /\ P row = true.
Proof. apply size_filter_pos. Qed.
Lemma count_jobs_zero P db : ~ 0 < count_jobs P db <-> forall id row, jobs db !! id = Some row -> P row = false.
Proof.
  rewrite count_jobs_pos. split.
  - intros H id row Hr. destruct (P row) eqn:E; [|done]. destruct H. eauto.
  - intros H (id & row & Hr & HP). rewrite (H id row Hr) in HP. done.
Qed.
Lemma count_stages_pos P db : 0 < count_stages P db <-> exists id s, stages db !! id = Some s /\ P s = true.
Proof. apply size_filter_pos. Qed.

(** ** Facts that stay *)

(** A job that has ended; [Skipped] counts. *)
Notation finished st := (unfinished st = false).

Definition job_grows (r r' : JobRow) : Prop :=
  j_spec r' = j_spec r /\ (j_attempt r <= j_attempt r')%Z /\
  (finished (j_status r) -> j_status r' = j_status r).
Definition stage_grows (s s' : StageRow) : Prop :=
  s_spec s' = s_spec s /\ (active (s_status s) = false -> s_status s' = s_status s).
Record grows (db db' : RunDB) : Prop := {
  gr_run : active (r_status (run db)) = false -> r_status (run db') = r_status (run db);
  gr_stages : forall id, option_relation stage_grows (fun _ => False) (fun _ => False) (stages db !! id) (stages db' !! id);
  gr_jobs : forall id, option_relation job_grows (fun _ => False) (fun _ => False) (jobs db !! id) (jobs db' !! id);
}.

Lemma job_grows_refl r : job_grows r r.
Proof. split; [done|]. split; [lia|done]. Qed.
Lemma stage_grows_refl s : stage_grows s s.
Proof. done. Qed.

#[export] Instance grows_preorder : PreOrder grows.
Proof.
  split.
  - intros db. split; [done|..]; intros id.
    + destruct (stages db !! id); simpl; [apply stage_grows_refl|done].
    + destruct (jobs db !! id); simpl; [apply job_grows_refl|done].
  - intros a b c [Hr1 Hs1 Hj1] [Hr2 Hs2 Hj2]. split.
    + intros Ha. rewrite Hr2; [auto|]. by rewrite Hr1.
    + intros id. specialize (Hs1 id). specialize (Hs2 id).
      destruct (stages a !! id), (stages b !! id), (stages c !! id); simpl in *; try done.
      destruct Hs1 as [E1 H1], Hs2 as [E2 H2]. split; [congruence|]. intros Ha. rewrite H2; [auto|]. by rewrite H1.
    + intros id. specialize (Hj1 id). specialize (Hj2 id).
      destruct (jobs a !! id), (jobs b !! id), (jobs c !! id); simpl in *; try done.
      destruct Hj1 as (E1 & L1 & H1), Hj2 as (E2 & L2 & H2). split; [congruence|]. split; [lia|].
      intros Ha. rewrite H2; [auto|]. by rewrite H1.
Qed.

Section Growth.
Context (db db' : RunDB).
Hypothesis Hg : grows db db'.

Lemma grows_job id row : jobs db !! id = Some row -> exists row', jobs db' !! id = Some row' /\ job_grows row row'.
Proof.
  intros Hr. pose proof (gr_jobs _ _ Hg id) as H. rewrite Hr in H.
  destruct (jobs db' !! id); simpl in H; [eauto|done].
Qed.
Lemma grows_job_inv id row' : jobs db' !! id = Some row' -> exists row, jobs db !! id = Some row /\ job_grows row row'.
Proof.
  intros Hr. pose proof (gr_jobs _ _ Hg id) as H. rewrite Hr in H.
  destruct (jobs db !! id); simpl in H; [eauto|done].
Qed.
Lemma grows_stage id s : stages db !! id = Some s -> exists s', stages db' !! id = Some s' /\ stage_grows s s'.
Proof.
  intros Hr. pose proof (gr_stages _ _ Hg id) as H. rewrite Hr in H.
  destruct (stages db' !! id); simpl in H; [eauto|done].
Qed.
Lemma grows_stage_inv id s' : stages db' !! id = Some s' -> exists s, stages db !! id = Some s /\ stage_grows s s'.
Proof.
  intros Hr. pose proof (gr_stages _ _ Hg id) as H. rewrite Hr in H.
  destruct (stages db !! id); simpl in H; [eauto|done].
Qed.
End Growth.

(** ** Notions on the rows *)

(** The job is in a stage the user declared. *)
Definition user (db : RunDB) (row : JobRow) : Prop :=
  exists s, stage_of db row = Some s /\ synthetic s = false.
Lemma in_user_stage_iff db row : in_user_stage db row = true <-> user db row.
Proof.
  unfold in_user_stage, user. destruct (stage_of db row) as [s|]; [|naive_solver]. rewrite negb_true_iff. naive_solver.
Qed.

Lemma user_spec db row row' : j_spec row' = j_spec row -> user db row -> user db row'.
Proof. unfold user, stage_of. by intros ->. Qed.

Definition user_with (db : RunDB) (st : Status) : Prop :=
  exists id row, jobs db !! id = Some row /\ user db row /\ j_status row = st.

(** Every job named in [needs] exists and all its rows succeeded. *)
Definition needs_met (db : RunDB) (row : JobRow) : Prop :=
  forall n, n ∈ js_needs (j_spec row) ->
    (exists id r, jobs db !! id = Some r /\ js_name (j_spec r) = n) /\
    (forall id r, jobs db !! id = Some r -> js_name (j_spec r) = n -> j_status r = StatusSuccess).
(** Every stage before the ordinal has ended. *)
Definition before_done (db : RunDB) (o : Z) : Prop :=
  forall id s, stages db !! id = Some s -> (ss_ordinal (s_spec s) < o)%Z -> active (s_status s) = false.
Definition stages_before_done (db : RunDB) (row : JobRow) : Prop :=
  exists s, stage_of db row = Some s /\ before_done db (ss_ordinal (s_spec s)).

Lemma stages_before_done_spec db row row' :
  j_spec row' = j_spec row -> stages_before_done db row -> stages_before_done db row'.
Proof. unfold stages_before_done, stage_of. by intros ->. Qed.

(** What must hold of a row for an agent, or the server, to have been given it. *)
Definition startable (db : RunDB) (row : JobRow) : Prop := needs_met db row /\ stages_before_done db row.
Definition started (st : Status) : bool := match st with StatusRunning | StatusSuccess => true | _ => false end.

Section GrowthFacts.
Context (db db' : RunDB).
Hypothesis Hg : grows db db'.

Lemma grows_stage_of row row' s : j_spec row' = j_spec row -> stage_of db row = Some s ->
  exists s', stage_of db' row' = Some s' /\ stage_grows s s'.
Proof. unfold stage_of. intros ->. by apply grows_stage. Qed.
Lemma grows_user row row' : j_spec row' = j_spec row -> user db row -> user db' row'.
Proof.
  intros He (s & Hs & Hn). destruct (grows_stage_of _ _ _ He Hs) as (s' & Hs' & Hsp & _).
  exists s'. split; [done|]. unfold synthetic. by rewrite Hsp.
Qed.
Lemma grows_user_inv row row' : j_spec row' = j_spec row -> user db' row' -> user db row.
Proof.
  unfold user, stage_of. intros -> (s' & Hs' & Hn). destruct (grows_stage_inv _ _ Hg _ _ Hs') as (s & Hs & Hsp & _).
  exists s. split; [done|]. unfold synthetic in *. by rewrite <-Hsp.
Qed.
Lemma grows_user_with st : finished st -> user_with db st -> user_with db' st.
Proof.
  intros Hf (id & row & Hr & Hu & Hst). destruct (grows_job _ _ Hg _ _ Hr) as (row' & Hr' & He & _ & Hk).
  exists id, row'. split; [done|]. split; [by eapply grows_user|]. rewrite Hk; [done|by rewrite Hst].
Qed.
Lemma grows_needs_met row row' : j_spec row' = j_spec row -> needs_met db row -> needs_met db' row'.
Proof.
  intros He Hn n. rewrite He. intros Hin. destruct (Hn n Hin) as [(id & r & Hr & Hnm) Hall]. split.
  - destruct (grows_job _ _ Hg _ _ Hr) as (r' & Hr' & Hr'e & _). exists id, r'. split; [done|]. by rewrite Hr'e.
  - intros id' r' Hr' Hn'. destruct (grows_job_inv _ _ Hg _ _ Hr') as (r0 & Hr0 & He0 & _ & Hk0).
    assert (Hs : j_status r0 = StatusSuccess) by (apply (Hall id' r0 Hr0); by rewrite <-He0).
    rewrite Hk0; by rewrite Hs.
Qed.
Lemma grows_before_done o : before_done db o -> before_done db' o.
Proof.
  intros Hb id s' Hs' Ho. destruct (grows_stage_inv _ _ Hg _ _ Hs') as (s & Hs & He & Hk).
  assert (Ha : active (s_status s) = false) by (apply (Hb id s Hs); by rewrite <-He). by rewrite Hk.
Qed.
Lemma grows_startable row row' : j_spec row' = j_spec row -> startable db row -> startable db' row'.
Proof.
  intros He [Hn (s & Hs & Hb)]. split; [by eapply grows_needs_met|].
  destruct (grows_stage_of _ _ _ He Hs) as (s' & Hs' & Hsp & _). exists s'. split; [done|].
  rewrite Hsp. by apply grows_before_done.
Qed.
End GrowthFacts.

(** ** The invariant *)

(** What is fixed when the rows are created: foreign keys, gates and notification
    names are where they belong, and the synthetic stage is the last one. *)
Record named (db : RunDB) : Prop := {
  nm_fk : forall id row, jobs db !! id = Some row -> is_Some (stage_of db row);
  nm_gate : forall id row, jobs db !! id = Some row -> js_gate (j_spec row) = true -> user db row;
  nm_needs : forall id row id' row', jobs db !! id = Some row -> user db row ->
    jobs db !! id' = Some row' -> js_name (j_spec row') ∈ js_needs (j_spec row) -> user db row';
  nm_notify : forall id row, jobs db !! id = Some row -> user db row ->
    (NotificationIndexFromName (js_name (j_spec row))).2 = false;
  nm_last : forall id s id' s', stages db !! id = Some s -> stages db !! id' = Some s' ->
    synthetic s = false -> synthetic s' = true -> (ss_ordinal (s_spec s) < ss_ordinal (s_spec s'))%Z;
}.

Lemma named_grows db db' : grows db db' -> named db -> named db'.
Proof.
  intros Hg [H1 H2 H3 H4 H5]. split.
  - intros id r' Hr'. destruct (grows_job_inv _ _ Hg _ _ Hr') as (r & Hr & He & _).
    destruct (H1 _ _ Hr) as [s Hs]. destruct (grows_stage_of _ _ Hg _ r' _ He Hs) as (s' & Hs' & _). eauto.
  - intros id r' Hr' Hgt. destruct (grows_job_inv _ _ Hg _ _ Hr') as (r & Hr & He & _). rewrite He in Hgt.
    eapply grows_user; [done|exact He|eauto].
  - intros id r' id2 r2' Hr' Hu Hr2' Hin. destruct (grows_job_inv _ _ Hg _ _ Hr') as (r & Hr & He & _).
    destruct (grows_job_inv _ _ Hg _ _ Hr2') as (r2 & Hr2 & He2 & _). rewrite He, He2 in Hin.
    eapply grows_user; [done|exact He2|]. eapply (H3 id r id2 r2); eauto. by eapply grows_user_inv.
  - intros id r' Hr' Hu. destruct (grows_job_inv _ _ Hg _ _ Hr') as (r & Hr & He & _). rewrite He.
    eapply H4; [done|]. by eapply grows_user_inv.
  - intros id s' id2 s2' Hs' Hs2'. unfold synthetic. destruct (grows_stage_inv _ _ Hg _ _ Hs') as (s & Hs & -> & _).
    destruct (grows_stage_inv _ _ Hg _ _ Hs2') as (s2 & Hs2 & -> & _). by apply (H5 id s id2 s2).
Qed.

Definition job_in (db : RunDB) (stage : uuid) (row : JobRow) : Prop :=
  exists id, jobs db !! id = Some row /\ js_stage (j_spec row) = stage.

Record safe (db : RunDB) : Prop := {
  sf_queued : forall id row, jobs db !! id = Some row -> j_status row = StatusQueued -> j_agent row = None;
  sf_gate : forall id row, jobs db !! id = Some row -> js_gate (j_spec row) = true ->
    j_status row <> StatusQueued /\ j_status row <> StatusRunning /\ j_status row <> StatusSkipped;
  sf_plain : forall id row, jobs db !! id = Some row -> js_gate (j_spec row) = false ->
    j_status row <> StatusAwaitingApproval;
  sf_started : forall id row, jobs db !! id = Some row -> js_gate (j_spec row) = false ->
    started (j_status row) = true -> startable db row;
  sf_notified : forall id row, jobs db !! id = Some row -> ~ user db row -> j_status row = StatusFailed ->
    stages_before_done db row;
  sf_skipped : forall id row, jobs db !! id = Some row -> user db row -> j_status row = StatusSkipped ->
    user_with db StatusCanceled;
  sf_stage : forall id s, stages db !! id = Some s -> s_status s <> StatusSkipped /\ s_status s <> StatusAwaitingApproval;
  sf_success : forall id s row, stages db !! id = Some s -> s_status s = StatusSuccess -> job_in db id row ->
    j_status row = StatusSuccess \/ j_status row = StatusSkipped;
  sf_failed : forall id s, stages db !! id = Some s -> s_status s = StatusFailed ->
    (forall row, job_in db id row -> finished (j_status row)) /\
    exists row, job_in db id row /\ j_status row = StatusFailed;
  sf_canceled : forall id s, stages db !! id = Some s -> s_status s = StatusCanceled -> synthetic s = false ->
    user_with db StatusFailed \/ user_with db StatusCanceled \/ r_status (run db) = StatusCanceled;
  sf_run : r_status (run db) <> StatusSkipped /\ r_status (run db) <> StatusAwaitingApproval;
  sf_run_success : r_status (run db) = StatusSuccess ->
    forall id s, stages db !! id = Some s -> synthetic s = false -> s_status s = StatusSuccess;
  sf_run_failed : r_status (run db) = StatusFailed -> user_with db StatusFailed;
  sf_watched : forall id a, (id, a) ∈ watched db -> exists row, jobs db !! id = Some row /\
    (a <= j_attempt row)%Z /\
    (a = j_attempt row -> (j_status row = StatusRunning /\ j_agent row = None) \/ finished (j_status row));
}.

Definition kept (db db' : RunDB) : Prop := safe db' /\ grows db db'.
Lemma kept_refl db : safe db -> kept db db.
Proof. done. Qed.
Lemma kept_trans a b c : kept a b -> (safe b -> kept b c) -> kept a c.
Proof. intros [Hs Hg] Hk. destruct (Hk Hs) as [Hs' Hg']. split; [done|by transitivity b]. Qed.

(** ** Statements on jobs *)

(** A change of one job row the invariant allows. *)
Record job_step (db : RunDB) (row row' : JobRow) : Prop := {
  jt_spec : j_spec row' = j_spec row;
  jt_attempt : (j_attempt row <= j_attempt row')%Z;
  jt_unfinished : unfinished (j_status row) = true;
  jt_queued : j_status row' = StatusQueued -> j_agent row' = None;
  jt_gate : js_gate (j_spec row) = true ->
    j_status row' <> StatusQueued /\ j_status row' <> StatusRunning /\ j_status row' <> StatusSkipped;
  jt_plain : js_gate (j_spec row) = false -> j_status row' <> StatusAwaitingApproval;
  jt_started : js_gate (j_spec row) = false -> started (j_status row') = true -> startable db row;
  jt_notified : ~ user db row -> j_status row' = StatusFailed -> stages_before_done db row;
  jt_skipped : user db row -> j_status row' = StatusSkipped -> user_with db StatusCanceled;
  jt_watched : j_attempt row' = j_attempt row -> j_status row = StatusRunning -> j_agent row = None ->
    (j_status row' = StatusRunning /\ j_agent row' = None) \/ finished (j_status row');
}.
Definition jobs_step (db : RunDB) (js : gmap uuid JobRow) : Prop :=
  forall id, option_relation (fun r r' => r' = r \/ job_step db r r') (fun _ => False) (fun _ => False) (jobs db !! id) (js !! id).

Lemma grows_jobs db js : jobs_step db js -> grows db (with_jobs db js).
Proof.
  intros H. split; [done| |]; intros id; simpl.
  - destruct (stages db !! id); simpl; [apply stage_grows_refl|done].
  - specialize (H id). destruct (jobs db !! id) as [r|], (js !! id) as [r'|]; simpl in *; try done.
    destruct H as [->|[He Ha Hu _ _ _ _ _ _ _]]; [apply job_grows_refl|]. split; [done|]. split; [done|]. congruence.
Qed.

Lemma safe_jobs db js : jobs_step db js -> safe db -> kept db (with_jobs db js).
Proof.
  intros H Hs. pose proof (grows_jobs _ _ H) as Hg. split; [|done].
  assert (Hback : forall id r', js !! id = Some r' -> exists r, jobs db !! id = Some r /\ (r' = r \/ job_step db r r')).
  { intros id r' Hr'. specialize (H id). rewrite Hr' in H. destruct (jobs db !! id); simpl in H; [eauto|done]. }
  assert (Hin : forall st r', job_in (with_jobs db js) st r' -> exists r, job_in db st r /\ (r' = r \/ job_step db r r')).
  { intros st r' (id & Hr' & Hst). destruct (Hback _ _ Hr') as (r & Hr & Hc). exists r. split; [|done].
    exists id. split; [done|]. destruct Hc as [->|Hc]; [done|]. by rewrite <-(jt_spec _ _ _ Hc). }
  split; simpl.
  - intros id r' Hr'. destruct (Hback _ _ Hr') as (r & Hr & [->|Hc]); [by eapply sf_queued|by apply (jt_queued _ _ _ Hc)].
  - intros id r' Hr'. destruct (Hback _ _ Hr') as (r & Hr & [->|Hc]); [by eapply sf_gate|].
    rewrite (jt_spec _ _ _ Hc). apply (jt_gate _ _ _ Hc).
  - intros id r' Hr'. destruct (Hback _ _ Hr') as (r & Hr & [->|Hc]); [by eapply sf_plain|].
    rewrite (jt_spec _ _ _ Hc). apply (jt_plain _ _ _ Hc).
  - intros id r' Hr' Hgt Hst. destruct (Hback _ _ Hr') as (r & Hr & [->|Hc]).
    + eapply grows_startable; [done..|]. by eapply sf_started.
    + rewrite (jt_spec _ _ _ Hc) in Hgt. eapply grows_startable; [done|by rewrite (jt_spec _ _ _ Hc)|].
      by apply (jt_started _ _ _ Hc).
  - intros id r' Hr' Hu Hst. destruct (Hback _ _ Hr') as (r & Hr & [->|Hc]).
    + apply (sf_notified _ Hs id r) in Hr; [exact Hr| |done]. exact Hu.
    + apply (stages_before_done_spec db r); [by rewrite (jt_spec _ _ _ Hc)|]. apply (jt_notified _ _ _ Hc); [|done].
      intros Hu'. apply Hu. apply (user_spec db r); [by rewrite (jt_spec _ _ _ Hc)|done].
  - intros id r' Hr' Hu Hst. eapply grows_user_with; [done|done|].
    destruct (Hback _ _ Hr') as (r & Hr & [->|Hc]); [by eapply sf_skipped|].
    apply (jt_skipped _ _ _ Hc); [|done]. apply (grows_user_inv _ _ Hg r r'); [apply Hc|done].
  - intros id s. apply (sf_stage _ Hs).
  - intros id s r' Hst Hss Hr'. destruct (Hin _ _ Hr') as (r & Hr & [->|Hc]); [by eapply sf_success|].
    pose proof (jt_unfinished _ _ _ Hc) as Hu. destruct (sf_success _ Hs _ _ _ Hst Hss Hr) as [E|E]; by rewrite E in Hu.
  - intros id s Hst Hss. destruct (sf_failed _ Hs _ _ Hst Hss) as [Hall (r & Hr & Hf)]. split.
    + intros r' Hr'. destruct (Hin _ _ Hr') as (r0 & Hr0 & [->|Hc]); [by apply Hall|].
      pose proof (jt_unfinished _ _ _ Hc). by rewrite (Hall _ Hr0) in *.
    + destruct Hr as (jid & Hj & Hjs). destruct (grows_job _ _ Hg _ _ Hj) as (r' & Hr' & He & _ & Hk).
      exists r'. split; [exists jid; split; [done|by rewrite He]|]. rewrite Hk; [done|by rewrite Hf].
  - intros id s Hst Hss Hsy. destruct (sf_canceled _ Hs _ _ Hst Hss Hsy) as [Hu|[Hu|Hu]];
      [left|right; left|by right; right]; by eapply grows_user_with.
  - apply (sf_run _ Hs).
  - apply (sf_run_success _ Hs).
  - intros Hr. eapply grows_user_with; [done|done|]. by apply sf_run_failed.
  - intros id a Hw. destruct (sf_watched _ Hs _ _ Hw) as (r & Hr & Ha & Hk).
    destruct (grows_job _ _ Hg _ _ Hr) as (r' & Hr' & He & Hle & Hfin). exists r'. split; [done|]. split; [lia|].
    intros ->. assert (Heq : j_attempt r' = j_attempt r) by lia. destruct (Hk Heq) as [[H1 H2]|Hf].
    + destruct (Hback _ _ Hr') as (r0 & Hr0 & Hc). assert (r0 = r) as -> by congruence.
      destruct Hc as [->|Hc]; [by left|]. by apply (jt_watched _ _ _ Hc).
    + right. by rewrite Hfin.
Qed.

(** ** Statements on stages, the run and the watches *)

(** What closes, or marks, a stage. *)
Inductive stage_step (db : RunDB) (id : uuid) (s : StageRow) : Status -> Prop :=
| st_running : stage_step db id s StatusRunning
| st_success : (forall row, job_in db id row -> j_status row = StatusSuccess \/ j_status row = StatusSkipped) ->
    stage_step db id s StatusSuccess
| st_failed row : (forall row, job_in db id row -> finished (j_status row)) ->
    job_in db id row -> j_status row = StatusFailed -> stage_step db id s StatusFailed
| st_canceled :
    (synthetic s = false -> user_with db StatusFailed \/ user_with db StatusCanceled \/ r_status (run db) = StatusCanceled) ->
    stage_step db id s StatusCanceled.
Definition stages_step (db : RunDB) (ss : gmap uuid StageRow) : Prop :=
  forall id, option_relation
    (fun s s' => s' = s \/ (active (s_status s) = true /\ exists st, s' = set_stage st s /\ stage_step db id s st))
    (fun _ => False) (fun _ => False) (stages db !! id) (ss !! id).

Lemma grows_stages db ss : stages_step db ss -> grows db (with_stages db ss).
Proof.
  intros H. split; [done| |]; intros id; simpl.
  - specialize (H id). destruct (stages db !! id) as [s|], (ss !! id) as [s'|]; simpl in *; try done.
    destruct H as [->|(Ha & st & -> & _)]; [apply stage_grows_refl|]. split; [done|]. congruence.
  - destruct (jobs db !! id); simpl; [apply job_grows_refl|done].
Qed.

Lemma safe_stages db ss : stages_step db ss -> safe db -> kept db (with_stages db ss).
Proof.
  intros H Hs. pose proof (grows_stages _ _ H) as Hg. split; [|done].
  assert (Hback : forall id s', ss !! id = Some s' -> exists s, stages db !! id = Some s /\
    (s' = s \/ (active (s_status s) = true /\ exists st, s' = set_stage st s /\ stage_step db id s st))).
  { intros id s' Hs'. specialize (H id). rewrite Hs' in H. destruct (stages db !! id); simpl in H; [eauto|done]. }
  split; simpl.
  - apply (sf_queued _ Hs).
  - apply (sf_gate _ Hs).
  - apply (sf_plain _ Hs).
  - intros id r Hr Hgt Hst. eapply grows_startable; [done..|]. by eapply sf_started.
  - intros id r Hr Hu Hst. destruct (sf_notified _ Hs id r Hr) as (s & Hss & Hb); [|done|].
    { intros Hu'. apply Hu. by apply (grows_user _ _ Hg r r). }
    destruct (grows_stage_of _ _ Hg _ r _ eq_refl Hss) as (s' & Hs' & Hsp & _). exists s'. split; [done|].
    rewrite Hsp. by eapply grows_before_done.
  - intros id r Hr Hu Hst. eapply grows_user_with; [done|done|]. apply (sf_skipped _ Hs id r); [done| |done].
    by apply (grows_user_inv _ _ Hg r r).
  - intros id s' Hs'. destruct (Hback _ _ Hs') as (s & Hs0 & [->|(_ & st & -> & Hst)]); [by eapply sf_stage|].
    by inversion Hst.
  - intros id s' r Hs' Hss Hr. destruct (Hback _ _ Hs') as (s & Hs0 & [->|(_ & st & -> & Hst)]); [by eapply sf_success|].
    simpl in Hss. subst. inversion Hst; subst. eauto.
  - intros id s' Hs' Hss. destruct (Hback _ _ Hs') as (s & Hs0 & [->|(_ & st & -> & Hst)]);
      [exact (sf_failed _ Hs _ _ Hs0 Hss)|].
    simpl in Hss. subst. inversion Hst as [| |r Hall Hr Hf|]; subst. split; [exact Hall|]. by exists r.
  - intros id s' Hs' Hss Hsy. assert (Hu : user_with db StatusFailed \/ user_with db StatusCanceled \/ r_status (run db) = StatusCanceled).
    { destruct (Hback _ _ Hs') as (s & Hs0 & [->|(_ & st & -> & Hst)]); [by eapply sf_canceled|].
      simpl in Hss. subst. inversion Hst; subst. eauto. }
    destruct Hu as [Hu|[Hu|Hu]]; [left|right; left|by right; right]; by eapply grows_user_with.
  - apply (sf_run _ Hs).
  - intros Hr id s' Hs' Hsy. destruct (Hback _ _ Hs') as (s & Hs0 & [->|(Ha & st & -> & _)]); [by eapply sf_run_success|].
    assert (E : s_status s = StatusSuccess) by by eapply sf_run_success. by rewrite E in Ha.
  - intros Hr. eapply grows_user_with; [done|done|]. by apply sf_run_failed.
  - apply (sf_watched _ Hs).
Qed.

Definition run_step (db : RunDB) (st : Status) : Prop :=
  st = r_status (run db) \/ (active (r_status (run db)) = true /\
    (st = StatusRunning \/ st = StatusCanceled \/
     (st = StatusSuccess /\ forall id s, stages db !! id = Some s -> synthetic s = false -> s_status s = StatusSuccess) \/
     (st = StatusFailed /\ user_with db StatusFailed))).

Lemma safe_run db r : run_step db (r_status r) -> safe db -> kept db (with_run db r).
Proof.
  intros H Hs. assert (Hg : grows db (with_run db r)).
  { split; simpl.
    - intros Ha. destruct H as [H|[H _]]; [done|congruence].
    - intros id. destruct (stages db !! id); simpl; [apply stage_grows_refl|done].
    - intros id. destruct (jobs db !! id); simpl; [apply job_grows_refl|done]. }
  split; [|done].
  split; simpl; [apply (sf_queued _ Hs)|apply (sf_gate _ Hs)|apply (sf_plain _ Hs)|apply (sf_started _ Hs)
    |apply (sf_notified _ Hs)|apply (sf_skipped _ Hs)|apply (sf_stage _ Hs)|apply (sf_success _ Hs)|apply (sf_failed _ Hs)| | | | |apply (sf_watched _ Hs)].
  - intros id s Hst Hss Hsy. destruct (sf_canceled _ Hs _ _ Hst Hss Hsy) as [?|[?|Hr]]; [by left|by right; left|].
    right; right. destruct H as [->|[Ha _]]; [done|by rewrite Hr in Ha].
  - destruct H as [->|[_ [->|[->|[[-> _]|[-> _]]]]]]; [apply (sf_run _ Hs)|done..].
  - intros Hr. destruct H as [H|[_ [H|[H|[[_ H]|[H _]]]]]]; [|congruence|congruence|exact H|congruence].
    apply (sf_run_success _ Hs). congruence.
  - intros Hr. destruct H as [H|[_ [H|[H|[[H _]|[_ H]]]]]]; [|congruence|congruence|congruence|exact H].
    apply (sf_run_failed _ Hs). congruence.
Qed.

Lemma safe_watched db ws : (forall id a, (id, a) ∈ ws -> (id, a) ∈ watched db \/
    exists row, jobs db !! id = Some row /\ a = j_attempt row /\ j_status row = StatusRunning /\ j_agent row = None) ->
  safe db -> kept db (with_watched db ws).
Proof.
  intros H Hs. split.
  - split; simpl; try by apply Hs. intros id a Hw. destruct (H _ _ Hw) as [Hw'|(row & Hr & -> & ? & ?)]; [by apply Hs|].
    exists row. split; [done|]. split; [lia|]. auto.
  - split; [done|..]; intros id; simpl.
    + destruct (stages db !! id); simpl; [apply stage_grows_refl|done].
    + destruct (jobs db !! id); simpl; [apply job_grows_refl|done].
Qed.

(** ** The statements of [RunTables] *)

Lemma update_jobs_step db P f :
  (forall id row, jobs db !! id = Some row -> P row = true -> job_step db row (f row)) ->
  jobs_step db (jobs (update_jobs P f db)).
Proof.
  intros H id. simpl. rewrite lookup_fmap. destruct (jobs db !! id) as [r|] eqn:Hr; simpl; [|done].
  destruct (P r) eqn:HP; [right; eauto|by left].
Qed.
Lemma update_stages_step db P st :
  (forall id s, stages db !! id = Some s -> P id s = true -> active (s_status s) = true /\ stage_step db id s st) ->
  stages_step db (stages (update_stages P (set_stage st) db)).
Proof.
  intros H id. simpl. rewrite map_lookup_imap. destruct (stages db !! id) as [s|] eqn:Hs; simpl; [|done].
  destruct (P id s) eqn:HP; [right|by left]. destruct (H id s Hs HP). eauto.
Qed.
Lemma insert_job_step db id row row' :
  jobs db !! id = Some row -> job_step db row row' -> jobs_step db (<[id := row']> (jobs db)).
Proof.
  intros Hr Hj k. destruct (decide (k = id)) as [->|Hne].
  - rewrite lookup_insert_eq, Hr. simpl. by right.
  - rewrite lookup_insert_ne by done. destruct (jobs db !! k); simpl; [by left|done].
Qed.
Lemma update_job_Some id P f db row' db' : update_job id P f db = Some (row', db') ->
  exists row, jobs db !! id = Some row /\ P row = true /\ row' = f row /\ db' = with_jobs db (<[id := row']> (jobs db)).
Proof.
  unfold update_job. destruct (jobs db !! id) as [row|] eqn:E; simpl; [|done].
  destruct (P row) eqn:HP; [|done]. intros [= <- <-]. eauto.
Qed.

(** A job that ends without having started is always allowed. *)
Lemma job_step_end db row row' :
  j_spec row' = j_spec row -> j_attempt row' = j_attempt row -> unfinished (j_status row) = true ->
  finished (j_status row') -> j_status row' <> StatusSkipped ->
  (j_status row' = StatusSuccess -> js_gate (j_spec row) = false -> startable db row) ->
  (~ user db row -> j_status row' = StatusFailed -> stages_before_done db row) -> job_step db row row'.
Proof.
  intros He Ha Hu Hf Hsk Hst Hn. split; try done; try lia.
  - intros E. by rewrite E in Hf.
  - intros _. split_and!; [| |done]; intros E; by rewrite E in Hf.
  - intros _ E. by rewrite E in Hf.
  - intros Hg E. apply Hst; [|done]. by destruct (j_status row').
  - by right.
Qed.
Lemma job_step_cancel db row origin : unfinished (j_status row) = true -> job_step db row (cancel_job origin row).
Proof. intros Hu. apply job_step_end; done. Qed.
(** A running job that only gets a cancel stamp. *)
Lemma job_step_stamp db id row now origin : safe db -> jobs db !! id = Some row -> j_status row = StatusRunning ->
  job_step db row (stamp_cancel now origin row).
Proof.
  intros Hs Hr Hst. split; simpl; rewrite ?Hst; try done; try lia.
  - intros Hg. by destruct (sf_gate _ Hs _ _ Hr Hg) as (_ & ? & _).
  - intros Hg _. eapply sf_started; [done..|]. by rewrite Hst.
  - intros _ _ ->. by left.
Qed.

(** ** The cascade *)

(** A job that satisfies a count of [GetStageProgress]. *)
Lemma stage_count st P db :
  0 < count_jobs (fun j => in_stage st j && P j) db <-> exists row, job_in db st row /\ P row = true.
Proof.
  rewrite count_jobs_pos. unfold job_in, in_stage. split.
  - intros (id & row & Hr & [H1%bool_decide_eq_true H2]%andb_true_iff). eauto.
  - intros (row & (id & Hr & Hst) & HP). exists id, row. split; [done|]. by rewrite bool_decide_eq_true_2, HP.
Qed.
Lemma has_status_true st row : has_status st row = true <-> j_status row = st.
Proof. unfold has_status. apply bool_decide_eq_true. Qed.

(** What the rollup of a stage without unfinished jobs says of them. *)
Lemma rollup_stage st db s :
  ~ 0 < sp_unfinished (GetStageProgress st db) ->
  stages db !! st = Some s ->
  stage_step db st s (rollup (sp_failed (GetStageProgress st db)) (sp_canceled (GetStageProgress st db))).
Proof.
  simpl. rewrite (stage_count st (fun j => unfinished (j_status j))). intros Hu Hs.
  assert (Hf : forall row, job_in db st row -> finished (j_status row)).
  { intros row Hr. destruct (unfinished (j_status row)) eqn:E; [|done]. destruct Hu. eauto. }
  unfold rollup. destruct (decide (0 < _)) as [H|H1].
  - apply stage_count in H as (row & Hr & Hst%has_status_true). by eapply st_failed.
  - destruct (decide (0 < _)) as [H|H2].
    + apply stage_count in H as (row & (id & Hr & Hst') & Hst%has_status_true). apply st_canceled. intros Hsy.
      right; left. exists id, row. split_and!; [done| |done]. exists s. unfold stage_of. by rewrite Hst'.
    + apply st_success. intros row Hr. specialize (Hf row Hr). destruct (j_status row) eqn:E; try done; auto; exfalso.
      * apply H1, stage_count. exists row. split; [done|]. by apply has_status_true.
      * apply H2, stage_count. exists row. split; [done|]. by apply has_status_true.
Qed.

Lemma rollup_cases f c :
  (rollup f c = StatusFailed /\ 0 < f) \/ (rollup f c = StatusCanceled /\ f = 0 /\ 0 < c) \/
  (rollup f c = StatusSuccess /\ f = 0 /\ c = 0).
Proof. unfold rollup. repeat case_decide; [left|right; left|right; right]; split_and?; done || lia. Qed.

Lemma user_count P db :
  0 < count_jobs (fun j => in_user_stage db j && P j) db <->
  exists id row, jobs db !! id = Some row /\ user db row /\ P row = true.
Proof.
  rewrite count_jobs_pos. split.
  - intros (id & row & Hr & [H1%in_user_stage_iff H2]%andb_true_iff). eauto.
  - intros (id & row & Hr & Hu%in_user_stage_iff & HP). exists id, row. split; [done|]. by rewrite Hu, HP.
Qed.
Lemma outcome_failed db : 0 < uo_failed (GetRunUserStageOutcome db) <-> user_with db StatusFailed.
Proof. simpl. rewrite (user_count (has_status StatusFailed)). unfold user_with. setoid_rewrite has_status_true. done. Qed.
Lemma outcome_canceled db : 0 < uo_canceled (GetRunUserStageOutcome db) <-> user_with db StatusCanceled.
Proof. simpl. rewrite (user_count (has_status StatusCanceled)). unfold user_with. setoid_rewrite has_status_true. done. Qed.

Lemma stage_ended_cases s : active s = false -> s <> StatusSkipped -> s <> StatusAwaitingApproval ->
  s = StatusSuccess \/ s = StatusFailed \/ s = StatusCanceled.
Proof. destruct s; naive_solver. Qed.

(** When every stage has ended, the run's rollup is one the invariant allows. *)
Lemma rollup_run db : safe db -> ~ 0 < GetRunProgress db -> active (r_status (run db)) = true ->
  run_step db (rollup (uo_failed (GetRunUserStageOutcome db)) (uo_canceled (GetRunUserStageOutcome db))).
Proof.
  intros Hs Hp Ha. right. split; [done|].
  destruct (rollup_cases (uo_failed (GetRunUserStageOutcome db)) (uo_canceled (GetRunUserStageOutcome db)))
    as [[-> Hf]|[[-> _]|(-> & Hf & Hc)]].
  - right; right; right. split; [done|]. by apply outcome_failed.
  - by right; left.
  - right; right; left. split; [done|]. intros id s Hst Hsy.
    assert (Hend : active (s_status s) = false).
    { destruct (active (s_status s)) eqn:E; [|done]. destruct Hp. apply count_stages_pos. eauto. }
    destruct (sf_stage _ Hs _ _ Hst) as [Hns Hna]. destruct (stage_ended_cases (s_status s)) as [?|[E|E]]; [done..| |].
    + destruct (sf_failed _ Hs _ _ Hst E) as [_ (row & (jid & Hj & Hjs) & Hjf)].
      assert (H : user_with db StatusFailed).
      { exists jid, row. split_and!; [done| |done]. exists s. unfold stage_of. by rewrite Hjs. }
      apply outcome_failed in H. lia.
    + destruct (sf_canceled _ Hs _ _ Hst E Hsy) as [H|[H|H]].
      * apply outcome_failed in H. lia.
      * apply outcome_canceled in H. lia.
      * by rewrite H in Ha.
Qed.

Lemma finish_run_kept db : safe db -> kept db (finish_run db).1.
Proof.
  intros Hs. unfold finish_run. case_decide; [by apply kept_refl|]. unfold CompleteRun.
  destruct (active (r_status (run db))) eqn:Ha; simpl; [|by apply kept_refl].
  apply safe_run; [|done]. simpl. by apply rollup_run.
Qed.

Lemma cancel_jobs_kept origin db : safe db -> kept db (CancelQueuedJobsInRun origin db).
Proof.
  intros Hs. apply safe_jobs; [|done]. apply update_jobs_step. intros id row Hr HP. apply job_step_cancel.
  apply andb_true_iff in HP as [_ [H|H]%orb_true_iff]; apply has_status_true in H; by rewrite H.
Qed.
Lemma cancel_stages_kept db : safe db ->
  (forall id s, stages db !! id = Some s -> s_status s = StatusQueued -> synthetic s = false ->
     user_with db StatusFailed \/ user_with db StatusCanceled \/ r_status (run db) = StatusCanceled) ->
  kept db (CancelQueuedStagesInRun db).
Proof.
  intros Hs Hq. apply safe_stages; [|done]. apply update_stages_step. intros id s Hst HP.
  apply andb_true_iff in HP as [HP%bool_decide_eq_true Hsy%negb_true_iff]. rewrite HP. split; [done|].
  apply st_canceled. eauto.
Qed.

(** The failed stage's own failed job justifies the fail-fast; when the synthetic
    stage fails no user stage is left to cancel. *)
Lemma fail_fast_kept db stage st s : named db -> safe db -> stages db !! stage = Some s -> s_status s = st ->
  kept db (fail_fast st db).
Proof.
  intros Hn Hs Hst Est. unfold fail_fast. case_decide as E; [|by apply kept_refl]. rewrite E in Est. clear E.
  apply (kept_trans _ (CancelQueuedStagesInRun db)); [|apply cancel_jobs_kept].
  apply cancel_stages_kept; [done|]. intros id q Hq Hqs Hqsy.
  destruct (sf_failed _ Hs _ _ Hst Est) as [_ (row & (jid & Hj & Hjs) & Hjf)].
  assert (Hso : stage_of db row = Some s) by (unfold stage_of; by rewrite Hjs).
  destruct (synthetic s) eqn:Hsy.
  - destruct (sf_notified _ Hs _ _ Hj) as (s' & Hs' & Hb); [|done|].
    { intros (s' & Hs' & Hf). congruence. }
    assert (s' = s) as -> by congruence. specialize (Hb id q Hq (nm_last _ Hn _ _ _ _ Hq Hst Hqsy Hsy)).
    by rewrite Hqs in Hb.
  - left. exists jid, row. split_and!; [done| |done]. by exists s.
Qed.

Lemma cascade_kept stage st db db' c : named db -> safe db ->
  cascadeAfterJobCompletion stage st db = Ok (db', c) -> kept db db'.
Proof.
  intros Hn Hs. unfold cascadeAfterJobCompletion, LockStageRunForUpdate.
  destruct (stages db !! stage) as [s|] eqn:Hst; simpl; [|done].
  destruct (negb _) eqn:Ha; [intros [= <- _]; by apply kept_refl|]. apply negb_false_iff in Ha.
  case_decide as Hu; [intros [= <- _]; by apply kept_refl|]. unfold CompleteStageRun. rewrite Hst, Ha.
  rewrite decide_False by done. set (t := rollup _ _). set (db1 := with_stages _ _).
  assert (K1 : kept db db1).
  { apply safe_stages; [|done]. intros k. destruct (decide (k = stage)) as [->|Hne].
    - rewrite lookup_insert_eq, Hst. right. split; [done|]. exists t. split; [done|]. by apply rollup_stage.
    - rewrite lookup_insert_ne by done. destruct (stages db !! k); simpl; [by left|done]. }
  assert (K2 : kept db1 (fail_fast t db1)).
  { apply fail_fast_kept with stage (set_stage t s); [|apply K1|simpl; by rewrite lookup_insert_eq|done].
    eapply named_grows; [apply K1|done]. }
  pose proof (finish_run_kept (fail_fast t db1) (proj1 K2)) as K3.
  destruct (finish_run (fail_fast t db1)) as [db2 r]. intros [= <- _].
  eapply kept_trans; [exact K1|]. intros _. eapply kept_trans; [exact K2|]. done.
Qed.

(** A transaction of the shape of [then_cascade]. *)
Lemma then_cascade_kept id P f db db' c : named db -> safe db ->
  (forall row, jobs db !! id = Some row -> P row = true -> job_step db row (f row)) ->
  then_cascade (update_job id P f db) = Ok (Some (db', c)) -> kept db db'.
Proof.
  intros Hn Hs Hf. unfold then_cascade. destruct (update_job id P f db) as [[row db1]|] eqn:E; [|done].
  apply update_job_Some in E as (r & Hr & HP & -> & ->). intros Hc.
  destruct (cascadeAfterJobCompletion _ _ _) as [[db2 c2]|] eqn:Ec; [|done]. simpl in Hc. injection Hc as <- <-.
  assert (K : kept db (with_jobs db (<[id := f r]> (jobs db)))).
  { apply safe_jobs; [|done]. eapply insert_job_step; eauto. }
  eapply kept_trans; [exact K|]. intros Hs1. eapply cascade_kept; [|exact Hs1|exact Ec].
  eapply named_grows; [apply K|done].
Qed.
