(* ===== verification/RunKeeps.v ===== *)
(** Every transaction of [RunOps] keeps the safety of the rows, except the rerun of
    a job: each lemma states what the caller must know. *)

From S2P Require Import Prelude GoStrings Domain RunTables RunOps Needs Scheduler RunInv.

Section Keeps.
Context (db : RunDB).
Hypothesis Hn : named db.
Hypothesis Hs : safe db.

Lemma running_startable id row : jobs db !! id = Some row -> j_status row = StatusRunning -> startable db row.
Proof.
  intros Hr Hst. apply (sf_started _ Hs id row); [done| |by rewrite Hst].
  destruct (js_gate (j_spec row)) eqn:Hg; [|done]. by destruct (sf_gate _ Hs _ _ Hr Hg) as (_ & ? & _).
Qed.
Lemma queued_plain id row : jobs db !! id = Some row -> j_status row = StatusQueued -> js_gate (j_spec row) = false.
Proof.
  intros Hr Hst. destruct (js_gate (j_spec row)) eqn:Hg; [|done]. by destruct (sf_gate _ Hs _ _ Hr Hg) as (? & _).
Qed.
Lemma active_cases st : active st = true -> st = StatusQueued \/ st = StatusRunning.
Proof. destruct st; naive_solver. Qed.

(** What the caller of [CompleteJobRun] knows of a row it finds queued. *)
Definition knows (i : CompleteJobInput) : Prop :=
  forall row, jobs db !! in_JobRunID i = Some row ->
    completable (in_ExpectedAgentID i) (in_ExpectedAttempt i) row = true -> j_status row = StatusQueued ->
    in_Status i = StatusFailed /\ stages_before_done db row.

Lemma completed_step i row : knows i -> in_Status i <> StatusSkipped -> finished (in_Status i) ->
  jobs db !! in_JobRunID i = Some row -> completable (in_ExpectedAgentID i) (in_ExpectedAttempt i) row = true ->
  job_step db row (completed i row).
Proof.
  intros Hk Hsk Hfin Hr Hc. pose proof Hc as [Ha _]%andb_true_iff. apply active_cases in Ha.
  apply job_step_end; simpl; try done.
  - by destruct Ha as [-> | ->].
  - by case_bool_decide.
  - by case_bool_decide.
  - intros Hsuc _. destruct Ha as [Hq|Hrun]; [|by eapply running_startable].
    destruct (Hk row Hr Hc Hq) as [E _]. rewrite E in Hsuc. by case_bool_decide.
  - intros _ _. destruct Ha as [Hq|Hrun]; [by apply (Hk row)|]. by apply (running_startable _ _ Hr Hrun).
Qed.

Lemma CompleteJob_kept i db' c : knows i -> CompleteJob i db = Ok (Some (db', c)) -> kept db db'.
Proof.
  intros Hk. unfold CompleteJob. destruct (negb _) eqn:Hv; [done|]. destruct (negb (PrecheckJobCompletion _ _)); [done|].
  apply negb_false_iff, orb_true_iff in Hv. apply then_cascade_kept; [done..|]. intros row Hr HP.
  apply completed_step; [done| | |done..]; by destruct Hv as [->%bool_decide_eq_true | ->%bool_decide_eq_true].
Qed.

Lemma SkipJob_kept id db' c :
  (forall row, jobs db !! id = Some row -> j_status row = StatusQueued -> user db row -> user_with db StatusCanceled) ->
  SkipJob id db = Ok (Some (db', c)) -> kept db db'.
Proof.
  intros Hk. apply then_cascade_kept; [done..|]. intros row Hr HP%has_status_true.
  split; simpl; try done; try lia; rewrite ?HP; try done.
  - intros Hg. by rewrite (queued_plain _ _ Hr HP) in Hg.
  - intros Hu _. by apply (Hk row).
Qed.

Lemma FailJobWithReason_kept id reason db' c :
  (forall row, jobs db !! id = Some row -> j_status row = StatusQueued -> stages_before_done db row) ->
  FailJobWithReason id reason db = Ok (Some (db', c)) -> kept db db'.
Proof.
  intros Hk. apply then_cascade_kept; [done..|]. intros row Hr HP%has_status_true.
  apply job_step_end; simpl; try done; rewrite ?HP; try done. intros _ _. by apply (Hk row).
Qed.

(** Claims: what the tick that claims a job knows of it. *)
Definition claimable_job (id : uuid) : Prop :=
  forall row, jobs db !! id = Some row -> js_gate (j_spec row) = false /\ startable db row.
Lemma claim_kept id agent row' db' :
  claimable_job id -> update_job id unclaimed (with_agent agent) db = Some (row', db') -> kept db db'.
Proof.
  intros Hk H. apply update_job_Some in H as (row & Hr & HP & -> & ->).
  destruct (Hk _ Hr) as [Hg Hst]. apply andb_true_iff in HP as [HP%has_status_true _].
  apply safe_jobs; [|done]. eapply insert_job_step; [done|].
  split; simpl; try done; try lia; rewrite ?HP; try done. by rewrite Hg.
Qed.

Lemma MarkRunRunning_kept : kept db (MarkRunRunning db).
Proof.
  unfold MarkRunRunning. case_decide as E; [|by apply kept_refl]. apply safe_run; [|done].
  right. simpl. rewrite E. auto.
Qed.
Lemma MarkStageRunning_kept stage : kept db (MarkStageRunning stage db).
Proof.
  apply safe_stages; [|done]. apply update_stages_step. intros id s Hst [_ HP%bool_decide_eq_true]%andb_true_iff.
  rewrite HP. split; [done|constructor].
Qed.

Lemma requeued_step id row attempt agent :
  jobs db !! id = Some row -> j_status row = StatusRunning -> (j_attempt row <= attempt)%Z ->
  (j_attempt row < attempt)%Z \/ j_agent row = Some agent ->
  job_step db row (set_result (set_job row StatusQueued None attempt None None) None "" (j_outputs row)) /\
  job_step db row (set_job row StatusQueued None attempt None None).
Proof.
  intros Hr Hst Ha Hd.
  split; (split; simpl; rewrite ?Hst; try done; try lia;
    [intros Hg; by destruct (sf_gate _ Hs _ _ Hr Hg) as (_ & ? & _)|intros E _ Hag; exfalso; destruct Hd as [Hd|Hd]; [lia|congruence]]).
Qed.

Lemma UnassignJob_kept id agent attempt db' st : UnassignJob id agent attempt db = Ok (Some (db', st)) -> kept db db'.
Proof.
  unfold UnassignJob, UnassignJobRun. destruct (update_job _ _ _ _) as [[row' db1]|] eqn:E; [|done].
  apply update_job_Some in E as (row & Hr & HP & -> & ->).
  apply andb_true_iff in HP as [HP%has_status_true Hsn]. apply andb_true_iff in Hsn as [Hag%bool_decide_eq_true _].
  assert (K : kept db (with_jobs db (<[id := unassigned row]> (jobs db)))).
  { apply safe_jobs; [|done]. eapply insert_job_step; [done|]. unfold unassigned.
    destruct (j_cancel_requested_at row); [apply job_step_end; simpl; try done; by rewrite HP|].
    eapply requeued_step; [done..|lia|by right]. }
  case_decide as Hc; [|by intros [= <- _]].
  intros H. destruct (cascadeAfterJobCompletion _ _ _) as [[db2 c]|] eqn:Ec; [|done]. simpl in H. injection H as <- _.
  eapply kept_trans; [exact K|]. intros Hs1. eapply cascade_kept; [|exact Hs1|exact Ec]. eapply named_grows; [apply K|done].
Qed.

Lemma requeueStaleJob_kept id m attempt agent row' db' :
  requeueStaleJob id m attempt agent db = Some (row', db') -> kept db db'.
Proof.
  intros H. apply update_job_Some in H as (row & Hr & HP & -> & ->).
  apply andb_true_iff in HP as [HP _]. apply andb_true_iff in HP as [HP _]. apply andb_true_iff in HP as [HP%has_status_true _].
  apply safe_jobs; [|done]. eapply insert_job_step; [done|]. eapply (requeued_step _ _ _ 0%N); [done..|lia|left; lia].
Qed.

Lemma failJobIfStale_kept id attempt agent reason db' c :
  failJobIfStale id attempt agent reason db = Ok (Some (db', c)) -> kept db db'.
Proof.
  apply then_cascade_kept; [done..|]. intros row Hr HP.
  apply andb_true_iff in HP as [HP _]. apply andb_true_iff in HP as [HP%has_status_true _].
  apply job_step_end; simpl; try done; rewrite ?HP; try done. intros _ _. by apply (running_startable _ _ Hr HP).
Qed.

Lemma settle_gate_kept id ok db' c : settle_gate id ok db = Ok (Some (db', c)) -> kept db db'.
Proof.
  apply then_cascade_kept; [done..|]. intros row Hr [Hg HP%has_status_true]%andb_true_iff.
  apply job_step_end; simpl; try done; rewrite ?HP; try done.
  - by destruct ok.
  - by destruct ok.
  - by rewrite Hg.
  - intros Hu. destruct Hu. by apply (nm_gate _ Hn id).
Qed.

Lemma agent_knows i agent : in_ExpectedAgentID i = Some agent -> knows i.
Proof.
  intros E row Hr [_ Hsn]%andb_true_iff Hq. apply andb_true_iff in Hsn as [Hag%bool_decide_eq_true _].
  rewrite (sf_queued _ Hs _ _ Hr Hq) in Hag. congruence.
Qed.

Lemma HandleDisruptedJob_kept id agent attempt m reason cls db' o :
  HandleDisruptedJob id agent attempt m reason cls db = Ok (db', o) -> kept db db'.
Proof.
  unfold HandleDisruptedJob. destruct cls as [cls|]; [|intros [= <- _]; by apply kept_refl].
  destruct (negb _); [intros [= <- _]; by apply kept_refl|].
  set (b := _ && _ && _). set (m' := if (m <=? 0)%Z then _ else _).
  destruct (if b then requeueStaleJob id m' attempt (Some agent) db else None) as [[row' db1]|] eqn:E.
  - intros [= <- _]. destruct b; [|done]. by eapply requeueStaleJob_kept.
  - intros H. apply bind_Ok in H as (r & Hr & H). destruct r as [[db1 c]|].
    + injection H as <- _. eapply CompleteJob_kept; [|exact Hr]. by eapply agent_knows.
    + injection H as <- _. by apply kept_refl.
Qed.

Lemma CancelJobRun_kept now id db' r : CancelJobRun now id db = Ok (db', r) -> kept db db'.
Proof.
  unfold CancelJobRun. destruct (jobs db !! id) as [row|] eqn:Hr; [|done].
  destruct (j_status row) eqn:Hst; try done.
  - intros H. apply bind_Ok in H as ([db1 c] & Hc & [= <- _]).
    assert (K : kept db (with_jobs db (<[id := cancel_job cancelOriginUserJob row]> (jobs db)))).
    { apply safe_jobs; [|done]. eapply insert_job_step; [done|]. apply job_step_cancel. by rewrite Hst. }
    eapply kept_trans; [exact K|]. intros Hs1. eapply cascade_kept; [|exact Hs1|exact Hc].
    eapply named_grows; [apply K|done].
  - intros [= <- _]. destruct (j_cancel_requested_at row); [by apply kept_refl|].
    apply safe_jobs; [|done]. eapply insert_job_step; [done|]. by eapply job_step_stamp.
Qed.
End Keeps.

(** ** Whole-run transactions *)

Lemma cancel_run_jobs_kept origin now db : safe db -> kept db (cancel_user_jobs origin now db).
Proof.
  intros Hs. apply safe_jobs; [|done]. apply update_jobs_step. intros id row Hr [_ HP]%andb_true_iff.
  unfold cancel_run_job. destruct (has_status StatusRunning row) eqn:E.
  - apply has_status_true in E. by eapply job_step_stamp.
  - by apply job_step_cancel.
Qed.

(** Cancelling the run last, as [CancelRun] does, or first comes to the same rows. *)
Lemma cancel_stages_run_kept db r : safe db -> active (r_status (run db)) = true -> r_status r = StatusCanceled ->
  kept db (CancelQueuedStagesInRun (with_run db r)).
Proof.
  intros Hs Ha Hr. assert (K : kept db (with_run db r)).
  { apply safe_run; [|done]. rewrite Hr. right. auto. }
  eapply kept_trans; [exact K|]. intros Hs1. apply cancel_stages_kept; [done|]. intros. simpl. auto.
Qed.
Lemma CancelRun_kept now db db' l : safe db -> CancelRun now db = Ok (db', l) -> kept db db'.
Proof.
  intros Hs. unfold CancelRun. destruct (negb _) eqn:Ha; [done|]. apply negb_false_iff in Ha.
  unfold CancelActiveRun. simpl. rewrite Ha. intros [= <- _].
  eapply kept_trans; [by apply cancel_run_jobs_kept|]. intros Hs1.
  by apply (cancel_stages_run_kept (CancelRunJobs now db)).
Qed.
Lemma terminate_run_kept origin now r db : safe db -> active (r_status (run db)) = true -> r_status r = StatusCanceled ->
  kept db (terminate_run origin now r db).
Proof.
  intros Hs Ha Hr. unfold terminate_run. eapply kept_trans; [by apply cancel_stages_run_kept|]. intros Hs1.
  eapply kept_trans; [by apply cancel_jobs_kept|]. intros Hs2.
  apply safe_jobs; [|done]. apply update_jobs_step. intros id row Hrow HP%has_status_true. by eapply job_step_stamp.
Qed.
Lemma supersedeOne_kept by_ now db db' : safe db -> supersedeOne by_ now db = Some db' -> kept db db'.
Proof.
  intros Hs. unfold supersedeOne. destruct (active _) eqn:Ha; [|done]. intros [= <-]. by apply terminate_run_kept.
Qed.
(** Whatever the run became since it was chosen. *)
Lemma cancelMergeGroupOne_kept now db : safe db -> kept db (cancelMergeGroupOne now db).1.
Proof.
  intros Hs. pose proof (cancel_run_jobs_kept CancelOriginMergeGroup now db Hs) as K. unfold cancelMergeGroupOne.
  set (db1 := cancel_user_jobs _ now db) in *. change (run (CancelQueuedStagesInRun db1)) with (run db1).
  destruct (active (r_status (run db1))) eqn:Ha; (eapply kept_trans; [exact K|]); intros Hs1; cbn [fst].
  - by apply (cancel_stages_run_kept db1).
  - apply cancel_stages_kept; [done|]. intros id s Hst Hq Hsy. destruct (sf_run _ Hs1) as [? ?].
    destruct (r_status (run db1)) eqn:Hr; try done; [|left; by apply sf_run_failed|by right; right].
    pose proof (sf_run_success _ Hs1 Hr id s Hst Hsy). congruence.
Qed.
Lemma ExpireApprovalGate_kept gate now db db' : safe db -> ExpireApprovalGate gate now db = Ok db' -> kept db db'.
Proof.
  intros Hs. unfold ExpireApprovalGate. destruct (active _) eqn:Ha; [|done]. cbn [negb].
  destruct (jobs db !! gate) as [row|]; [|done]. destruct (_ && _); [|done]. intros [= <-]. by apply terminate_run_kept.
Qed.

Lemma cascade_rows_kept rows db db' : named db -> safe db -> cascade_rows rows db = Ok db' -> kept db db'.
Proof.
  revert db. induction rows as [|[id row] rows IH]; intros db Hn Hs; simpl; [intros [= <-]; by apply kept_refl|].
  intros H. apply bind_Ok in H as ([db1 c] & Hc & H). pose proof (cascade_kept _ _ _ _ _ Hn Hs Hc) as K.
  eapply kept_trans; [exact K|]. intros Hs1. apply (IH db1); [|done|done]. eapply named_grows; [apply K|done].
Qed.
Lemma ReclaimPendingCancels_kept gone db db' : named db -> safe db -> ReclaimPendingCancels gone db = Ok db' -> kept db db'.
Proof.
  intros Hn Hs H. unfold ReclaimPendingCancels in H.
  assert (K : kept db (with_jobs db (map_imap (fun id row => Some (if abandoned gone id row then set_status StatusCanceled row else row)) (jobs db)))).
  { apply safe_jobs; [|done]. intros id. rewrite map_lookup_imap. destruct (jobs db !! id) as [row|] eqn:Hr; simpl; [|done].
    destruct (abandoned gone id row) eqn:E; [right|by left].
    apply andb_true_iff in E as [E _]. apply andb_true_iff in E as [E%has_status_true _].
    apply job_step_end; simpl; try done; by rewrite E. }
  eapply kept_trans; [exact K|]. intros Hs1. eapply cascade_rows_kept; [|exact Hs1|exact H].
  eapply named_grows; [apply K|done].
Qed.

Lemma FinalizeDeployWatch_kept open id a st reason db db' : named db -> safe db ->
  FinalizeDeployWatch open id a st reason db = Ok (Some db') -> kept db db'.
Proof.
  intros Hn Hs. unfold FinalizeDeployWatch. destruct (deploy_verdict st) eqn:Hv; [|done]. simpl negb. cbn iota.
  assert (Hsk : st <> StatusSkipped /\ finished st) by (by apply deploy_verdict_cases in Hv as [-> |[-> | ->]]).
  destruct Hsk as [Hsk Hf]. case_decide as Hw; [|done]. set (db1 := with_watched _ _).
  assert (K : kept db db1) by (apply safe_watched; [set_solver|done]).
  destruct open; cbn [negb]; [|by intros [= <-]]. intros (r & Hr & [= <-])%bind_Ok.
  destruct r as [[db2 c]|]; [|exact K]. eapply kept_trans; [exact K|]. intros Hs1.
  eapply (then_cascade_kept _ _ _ _ _ _); [eapply named_grows; [apply K|done]|done| |exact Hr].
  intros row Hrow HP. apply (completed_step db1 Hs1); [|done..]. intros row' Hr' HP' Hq.
  destruct (sf_watched _ Hs _ _ Hw) as (row0 & Hr0 & Hle & Hk). simpl in Hr'. assert (row0 = row') as -> by congruence.
  apply andb_true_iff in HP' as [_ Hsn]. apply andb_true_iff in Hsn as [_ Ha%Z.eqb_eq]. simpl in Ha.
  destruct (Hk (eq_sym Ha)) as [[E _]|E]; by rewrite Hq in E.
Qed.
Lemma StartNativeDeploy_kept id db db' : named db -> safe db -> claimable_job db id ->
  StartNativeDeploy id db = Some db' -> kept db db'.
Proof.
  intros Hn Hs Hk. unfold StartNativeDeploy, StartServerManagedJob.
  destruct (update_job _ _ _ _) as [[row' db1]|] eqn:E; [|done]. simpl. intros [= <-].
  pose proof (claim_kept _ Hs _ _ _ _ Hk E) as K1.
  apply update_job_Some in E as (row & Hr & _ & -> & ->).
  set (db1 := with_jobs db _) in *.
  pose proof (MarkStageRunning_kept db1 (proj1 K1) (js_stage (j_spec (with_agent None row)))) as K2.
  pose proof (MarkRunRunning_kept _ (proj1 K2)) as K3.
  eapply kept_trans; [exact K1|]. intros _. eapply kept_trans; [exact K2|]. intros _.
  eapply kept_trans; [exact K3|]. intros Hs3. apply safe_watched; [|done].
  intros id' a [Hw|Hw]%elem_of_union; [|by left]. right. apply elem_of_singleton in Hw as [= -> ->].
  exists (with_agent None row). split; [|done].
  assert (Hj : forall d, jobs (MarkRunRunning d) = jobs d) by (intros d; unfold MarkRunRunning; by case_decide).
  rewrite Hj. simpl. by rewrite lookup_insert_eq.
Qed.
