(* ===== verification/RunWorld.v ===== *)
(** One run under every call of the server: scheduler ticks of any number of
    replicas, each interrupted between its statements, agent results, deploy
    watches, humans and the reaper.  What every reachable state satisfies, and the
    meaning of a run's final status. *)

From S2P Require Import Prelude GoStrings Domain RunTables RunOps Needs Scheduler RunInv RunKeeps.

Record World := { wdb : RunDB; ticks : gmap nat Tick }.
Definition with_wdb (w : World) (db : RunDB) : World := {| wdb := db; ticks := ticks w |}.
Definition with_ticks (w : World) (t : gmap nat Tick) : World := {| wdb := wdb w; ticks := t |}.
Definition next_tick (k : nat) (t : option Tick) (m : gmap nat Tick) : gmap nat Tick :=
  match t with Some t => <[k := t]> m | None => delete k m end.

Section System.
(** [reruns]: whether [RerunJob] is among the calls.  [early]: whether a gate may
    be decided before its stage is the active one. *)
Context (reruns early : bool).
Context (text_lt : string -> string -> bool) (spec : Z -> option NotificationTrigger).

Inductive step : World -> World -> Prop :=
| step_tick w k busy t : ticks w !! k = None -> start_tick text_lt busy (wdb w) = Some t ->
    step w (with_ticks w (<[k := t]> (ticks w)))
| step_advance w k t a db' t' : ticks w !! k = Some t -> advance text_lt spec a t (wdb w) = (db', t') ->
    step w {| wdb := db'; ticks := next_tick k t' (ticks w) |}
| step_crash w k : step w (with_ticks w (delete k (ticks w)))
| step_result w i agent db' c : in_ExpectedAgentID i = Some agent ->
    CompleteJob i (wdb w) = Ok (Some (db', c)) -> step w (with_wdb w db')
| step_disrupted w id agent attempt m reason cls db' o :
    HandleDisruptedJob id agent attempt m reason cls (wdb w) = Ok (db', o) -> step w (with_wdb w db')
| step_watch w open id attempt st reason db' :
    FinalizeDeployWatch open id attempt st reason (wdb w) = Ok (Some db') -> step w (with_wdb w db')
| step_gate w id approved db' c :
    (early = false -> forall row, jobs (wdb w) !! id = Some row -> in_ordinal (wdb w) (active_stage (wdb w)) row = true) ->
    settle_gate id approved (wdb w) = Ok (Some (db', c)) -> step w (with_wdb w db')
| step_expire w id now db' : ExpireApprovalGate id now (wdb w) = Ok db' -> step w (with_wdb w db')
| step_cancel_run w now db' l : CancelRun now (wdb w) = Ok (db', l) -> step w (with_wdb w db')
| step_cancel_job w now id db' r : CancelJobRun now id (wdb w) = Ok (db', r) -> step w (with_wdb w db')
| step_supersede w by_ now db' : supersedeOne by_ now (wdb w) = Some db' -> step w (with_wdb w db')
| step_merge_group w now : step w (with_wdb w (cancelMergeGroupOne now (wdb w)).1)
| step_reclaim_cancels w gone db' : ReclaimPendingCancels gone (wdb w) = Ok db' -> step w (with_wdb w db')
| step_requeue w id m attempt agent row db' :
    requeueStaleJob id m attempt agent (wdb w) = Some (row, db') -> step w (with_wdb w db')
| step_fail_stale w id attempt agent reason db' c :
    failJobIfStale id attempt agent reason (wdb w) = Ok (Some (db', c)) -> step w (with_wdb w db')
| step_rerun w id rollback db' a : reruns = true ->
    RerunJob id rollback (wdb w) = Ok (db', a) -> step w (with_wdb w db').

(** The rows as a run is created with. *)
Record fresh (db : RunDB) : Prop := {
  fr_named : named db;
  fr_run : r_status (run db) = StatusQueued;
  fr_stages : forall id s, stages db !! id = Some s -> s_status s = StatusQueued;
  fr_jobs : forall id row, jobs db !! id = Some row ->
    j_status row = (if js_gate (j_spec row) then StatusAwaitingApproval else StatusQueued) /\ j_agent row = None;
  fr_watched : watched db = ∅;
}.
Definition initial (w : World) : Prop := fresh (wdb w) /\ ticks w = ∅.
Definition reachable (w : World) : Prop := exists w0, initial w0 /\ rtc step w0 w.
End System.

Definition distinct_ordinals (db : RunDB) : Prop := forall id s id' s', stages db !! id = Some s ->
  stages db !! id' = Some s' -> ss_ordinal (s_spec s) = ss_ordinal (s_spec s') -> id = id'.

(** What is fixed when the rows are created: every stage has a job, ordinals are
    distinct, and needs go down a rank and never to a later stage. *)
Record orderly (db : RunDB) : Prop := {
  od_ordinals : distinct_ordinals db;
  od_stage : exists id s, stages db !! id = Some s;
  od_staffed : forall id s, stages db !! id = Some s -> exists row, job_in db id row;
  od_needs : exists rank : string -> nat, forall id row n, jobs db !! id = Some row -> n ∈ js_needs (j_spec row) ->
    rank n < rank (js_name (j_spec row)) /\
    forall id' r s s', jobs db !! id' = Some r -> js_name (j_spec r) = n ->
      stage_of db r = Some s -> stage_of db row = Some s' -> (ss_ordinal (s_spec s) <= ss_ordinal (s_spec s'))%Z;
}.

Lemma fresh_safe db : fresh db -> safe db.
Proof.
  intros [_ Hr Hss Hj Hw].
  assert (Hst : forall id row, jobs db !! id = Some row -> j_status row = StatusQueued \/ j_status row = StatusAwaitingApproval).
  { intros id row H. destruct (Hj _ _ H) as [-> _]. case_match; auto. }
  split.
  - intros id row H _. by apply (Hj id).
  - intros id row H Hg. destruct (Hj _ _ H) as [-> _]. by rewrite Hg.
  - intros id row H Hg. destruct (Hj _ _ H) as [-> _]. by rewrite Hg.
  - intros id row H Hg E. by destruct (Hst _ _ H) as [E'|E']; rewrite E' in E.
  - intros id row H _ E. by destruct (Hst _ _ H) as [E'|E']; rewrite E' in E.
  - intros id row H _ E. by destruct (Hst _ _ H) as [E'|E']; rewrite E' in E.
  - intros id s H. by rewrite (Hss _ _ H).
  - intros id s row H E. by rewrite (Hss _ _ H) in E.
  - intros id s H E. by rewrite (Hss _ _ H) in E.
  - intros id s H E. by rewrite (Hss _ _ H) in E.
  - by rewrite Hr.
  - intros E. by rewrite Hr in E.
  - intros E. by rewrite Hr in E.
  - intros id a. rewrite Hw. set_solver.
Qed.

(** ** Reads *)

Section Reads.
Context (text_lt : string -> string -> bool).

Lemma elem_of_ordered l kv : kv ∈ ordered text_lt l <-> kv ∈ l.
Proof. unfold ordered. by rewrite (stable_sort_perm (row_lt text_lt) l). Qed.

Lemma elem_of_dispatchable db j : j ∈ ListDispatchableJobs text_lt db <->
  exists id row, jobs db !! id = Some row /\ dispatchable db row = true /\ j = dispatchable_of (id, row).
Proof.
  unfold ListDispatchableJobs. rewrite list_elem_of_fmap. split.
  - intros ([id row] & -> & H). apply elem_of_ordered, list_elem_of_filter in H as [Hd H].
    apply elem_of_map_to_list in H. eauto.
  - intros (id & row & Hr & Hd & ->). exists (id, row). split; [done|].
    apply elem_of_ordered, list_elem_of_filter. split; [done|]. by apply elem_of_map_to_list.
Qed.

(** The active stage is the lowest one that has not ended. *)
Lemma active_stage_Some db o : active_stage db = Some o ->
  (exists id s, stages db !! id = Some s /\ active (s_status s) = true /\ ss_ordinal (s_spec s) = o) /\
  forall id s, stages db !! id = Some s -> active (s_status s) = true -> (o <= ss_ordinal (s_spec s))%Z.
Proof.
  unfold active_stage. intros H.
  assert (G : forall l, match foldr min_ordinal None l with
    | Some o => (exists kv, kv ∈ l /\ active (s_status kv.2) = true /\ ss_ordinal (s_spec kv.2) = o) /\
                forall kv, kv ∈ l -> active (s_status kv.2) = true -> (o <= ss_ordinal (s_spec kv.2))%Z
    | None => forall kv, kv ∈ l -> active (s_status kv.2) = false
    end).
  { clear. induction l as [|kv l IH]; simpl; [set_solver|]. unfold min_ordinal at 1.
    destruct (active (s_status kv.2)) eqn:Ha.
    - destruct (foldr min_ordinal None l) as [o|]; split.
      + destruct IH as [(kv' & Hin & Ha' & <-) _].
        destruct (Z.min_spec (ss_ordinal (s_spec kv.2)) (ss_ordinal (s_spec kv'.2))) as [[_ ->]|[_ ->]];
          [exists kv|exists kv']; split_and!; done || set_solver.
      + destruct IH as [_ IH]. intros kv' [->|Hin]%elem_of_cons Ha'; [lia|]. specialize (IH kv' Hin Ha'). lia.
      + exists kv. set_solver.
      + intros kv' [->|Hin]%elem_of_cons Ha'; [lia|]. by rewrite (IH kv' Hin) in Ha'.
    - destruct (foldr min_ordinal None l) as [o|].
      + destruct IH as [(kv' & Hin & Ha' & <-) IH]. split.
        * exists kv'. set_solver.
        * intros kv2 [->|Hin2]%elem_of_cons Ha2; [congruence|auto].
      + intros kv' [->|Hin]%elem_of_cons; [done|auto]. }
  specialize (G (map_to_list (stages db))). rewrite H in G. destruct G as [([id s] & Hin & Ha & Ho) G]. split.
  - apply elem_of_map_to_list in Hin. eauto.
  - intros id' s' Hs' Ha'. by apply (G (id', s')), Ha'; apply elem_of_map_to_list.
Qed.
Lemma active_stage_None db : active_stage db = None -> forall id s, stages db !! id = Some s -> active (s_status s) = false.
Proof.
  unfold active_stage. intros H id s Hs%elem_of_map_to_list. revert H Hs.
  induction (map_to_list (stages db)) as [|kv l IH]; simpl; [set_solver|]. unfold min_ordinal at 1.
  destruct (active (s_status kv.2)) eqn:Ha; [done|]. intros Hn [<-|Hin]%elem_of_cons; [done|auto].
Qed.

(** A dispatchable job is an unclaimed job whose earlier stages have all ended. *)
Lemma dispatchable_spec db row : dispatchable db row = true ->
  unclaimed row = true /\ js_gate (j_spec row) = false /\ stages_before_done db row.
Proof.
  unfold dispatchable, in_ordinal. intros [[Hu Hg%negb_true_iff]%andb_true_iff H]%andb_true_iff. split; [done|]. split; [done|].
  destruct (stage_of db row) as [s|] eqn:Hs; [|done]. destruct (active_stage db) as [o|] eqn:Ho; [|done].
  apply Z.eqb_eq in H as <-. exists s. split; [done|]. apply active_stage_Some in Ho as [_ Ho].
  intros id s' Hs' Hlt. destruct (active (s_status s')) eqn:Ha; [|done]. specialize (Ho _ _ Hs' Ha). lia.
Qed.

(** What the status snapshot of a tick says of the rows it was taken from. *)
Definition snapshot (db : RunDB) : JobStatusMap := buildJobStatusMap (ListJobStatusForRun text_lt db).
Lemma elem_of_rows_of db n r : r ∈ rows_of (ListJobStatusForRun text_lt db) n <->
  exists id row, jobs db !! id = Some row /\ js_name (j_spec row) = n /\
    r = {| st_matrix_key := js_matrix_key (j_spec row); st_status := j_status row |}.
Proof.
  unfold rows_of, ListJobStatusForRun. rewrite list_elem_of_fmap. split.
  - intros (q & -> & [Hq Hin]%list_elem_of_filter). apply list_elem_of_fmap in Hin as ([id row] & -> & Hin).
    apply elem_of_ordered, elem_of_map_to_list in Hin. simpl in *. eauto.
  - intros (id & row & Hr & Hnm & ->).
    exists {| jr_name := js_name (j_spec row); jr_matrix_key := js_matrix_key (j_spec row); jr_status := j_status row |}.
    split; [done|]. apply list_elem_of_filter. split; [done|]. apply list_elem_of_fmap. exists (id, row).
    split; [done|]. apply elem_of_ordered. by apply elem_of_map_to_list.
Qed.
Lemma snapshot_row db n P : row_in (snapshot db) n P <->
  exists id row, jobs db !! id = Some row /\ js_name (j_spec row) = n /\ P (j_status row).
Proof.
  unfold row_in, snapshot. rewrite buildJobStatusMap_spec. split.
  - intros (rows & r & H & Hr & HP). destruct (rows_of _ n) as [|r0 rs] eqn:E; [done|]. injection H as <-.
    rewrite <-E in Hr. apply elem_of_rows_of in Hr as (id & row & ? & ? & ->). eauto.
  - intros (id & row & Hr & Hnm & HP).
    assert (Hin : {| st_matrix_key := js_matrix_key (j_spec row); st_status := j_status row |} ∈ rows_of (ListJobStatusForRun text_lt db) n)
      by (apply elem_of_rows_of; eauto).
    destruct (rows_of _ n) as [|r0 rs]; [set_solver|]. eauto.
Qed.
Lemma snapshot_met db n : need_met (snapshot db) n <->
  (exists id r, jobs db !! id = Some r /\ js_name (j_spec r) = n) /\
  (forall id r, jobs db !! id = Some r -> js_name (j_spec r) = n -> j_status r = StatusSuccess).
Proof.
  unfold need_met, snapshot. rewrite buildJobStatusMap_spec. split.
  - intros (rows & H & Hne & Hall). destruct (rows_of _ n) as [|r0 rs] eqn:E; [done|]. injection H as <-.
    rewrite Forall_forall in Hall. split.
    + assert (Hin : r0 ∈ rows_of (ListJobStatusForRun text_lt db) n) by (rewrite E; left).
      apply elem_of_rows_of in Hin as (id & row & ? & ? & _). eauto.
    + intros id row Hr Hnm.
      apply (Hall {| st_matrix_key := js_matrix_key (j_spec row); st_status := j_status row |}).
      rewrite <-E. apply elem_of_rows_of. eauto.
  - intros [(id & r & Hr & Hnm) Hall].
    assert (Hin : {| st_matrix_key := js_matrix_key (j_spec r); st_status := j_status r |} ∈ rows_of (ListJobStatusForRun text_lt db) n)
      by (apply elem_of_rows_of; eauto).
    destruct (rows_of _ n) as [|r0 rs] eqn:E; [set_solver|]. exists (r0 :: rs). split; [done|]. split; [done|].
    apply Forall_forall. intros q Hq. rewrite <-E in Hq. apply elem_of_rows_of in Hq as (id' & row & Hrow & Hn' & ->). eauto.
Qed.
End Reads.

(** ** What a tick knows *)

Section Ticks.
Context (text_lt : string -> string -> bool) (spec : Z -> option NotificationTrigger).

(** The row a listed job still stands for. *)
Definition listed (db : RunDB) (j : DispatchableJob) : Prop :=
  exists row, jobs db !! dj_ID j = Some row /\
    js_stage (j_spec row) = dj_StageRunID j /\ js_name (j_spec row) = dj_Name j /\
    js_needs (j_spec row) = dj_Needs j /\ js_gate (j_spec row) = false /\ stages_before_done db row.
(** The statuses a tick decides from were those of an earlier database. *)
Definition remembered (db : RunDB) (m : JobStatusMap) : Prop :=
  exists db0, safe db0 /\ grows db0 db /\ m = snapshot text_lt db0.
Definition tick_ok (db : RunDB) (t : Tick) : Prop :=
  (forall j, j ∈ tk_todo t -> listed db j) /\ (tk_pc t <> PStatus -> remembered db (tk_status t)).

Lemma listed_grows db db' j : grows db db' -> listed db j -> listed db' j.
Proof.
  intros Hg (row & Hr & H1 & H2 & H3 & H4 & s & Hs & Hb).
  destruct (grows_job _ _ Hg _ _ Hr) as (row' & Hr' & He & _). exists row'. rewrite He. split_and!; try done.
  destruct (grows_stage_of _ _ Hg row row' s He Hs) as (s' & Hs' & Hsp & _). exists s'. split; [done|].
  rewrite Hsp. by eapply grows_before_done.
Qed.
Lemma tick_ok_grows db db' t : grows db db' -> tick_ok db t -> tick_ok db' t.
Proof.
  intros Hg [Hl Hm]. split; [eauto using listed_grows|]. intros Hp. destruct (Hm Hp) as (db0 & Hs & Hg0 & Ht).
  exists db0. split_and!; [done|by transitivity db|done].
Qed.

Lemma start_tick_ok busy db t : start_tick text_lt busy db = Some t -> tick_ok db t.
Proof.
  unfold start_tick. destruct busy; [done|]. destruct (ListDispatchableJobs text_lt db) as [|j0 l] eqn:E; [done|].
  intros [= <-]. split; [|done]. simpl. rewrite <-E. intros j (id & row & Hr & Hd & ->)%elem_of_dispatchable.
  apply dispatchable_spec in Hd as (_ & Hg & Hb). by exists row.
Qed.

(** ** What a step of a tick keeps *)

Lemma committed_kept {A} (r : result store_error (option (RunDB * A))) db :
  safe db -> (forall db' c, r = Ok (Some (db', c)) -> kept db db') -> kept db (committed r db).
Proof. intros Hs H. destruct r as [[[db' c]|]|]; simpl; [by eapply H|by apply kept_refl..]. Qed.

Context (db : RunDB) (t : Tick) (j : DispatchableJob).
Hypothesis Hn : named db.
Hypothesis Hs : safe db.
Hypothesis Hj : listed db j.

(** A job all of whose needs had succeeded when the tick looked may be started now. *)
Lemma met_startable m : remembered db m -> (forall n, n ∈ dj_Needs j -> need_met m n) -> claimable_job db (dj_ID j).
Proof.
  intros (db0 & Hs0 & Hg & ->) Hm row Hr. destruct Hj as (row' & Hr' & _ & _ & Hnd & Hgt & Hb).
  assert (row' = row) as -> by congruence. split; [done|]. split; [|done].
  destruct (grows_job_inv _ _ Hg _ _ Hr) as (row0 & Hr0 & He & _).
  eapply (grows_needs_met db0 db Hg row0 row); [by rewrite He|]. intros n Hin. apply (snapshot_met text_lt).
  apply Hm. by rewrite <-Hnd, He.
Qed.
(** A job is skipped only behind a cancelled user job. *)
Lemma cancelled_skippable m : remembered db m -> (exists n, n ∈ dj_Needs j /\ need_cancelled m n) ->
  forall row, jobs db !! dj_ID j = Some row -> user db row -> user_with db StatusCanceled.
Proof.
  intros (db0 & Hs0 & Hg & ->) (n & Hin & Hc) row Hr Hu. destruct Hj as (row' & Hr' & _ & _ & Hnd & _).
  assert (row' = row) as -> by congruence. apply snapshot_row in Hc as (id & r & Hrow & Hnm & Hst).
  destruct (grows_job _ _ Hg _ _ Hrow) as (r' & Hr2 & He2 & _).
  assert (Hu2 : user db r').
  { apply (nm_needs _ Hn _ _ _ _ Hr Hu Hr2). by rewrite He2, Hnm, Hnd. }
  assert (Hu0 : user db0 r) by by eapply grows_user_inv.
  apply (grows_user_with _ _ Hg); [done|]. destruct Hst as [Hst|Hst]; [by exists id, r|]. by apply (sf_skipped _ Hs0 id r).
Qed.

Lemma skip_kept m : remembered db m -> (exists n, n ∈ dj_Needs j /\ need_cancelled m n) -> kept db (skipJobNeedsUnmet j db).
Proof.
  intros Hm Hc. apply committed_kept; [done|]. intros db' c. apply SkipJob_kept; [done..|].
  intros row Hr _ Hu. by eapply cancelled_skippable.
Qed.
Lemma listed_before row : jobs db !! dj_ID j = Some row -> stages_before_done db row.
Proof. destruct Hj as (row' & Hr & _ & _ & _ & _ & Hb). intros Hr'. by assert (row' = row) as <- by congruence. Qed.
Lemma unmet_kept d : kept db (failJobNeedsUnmet j d db).
Proof.
  apply committed_kept; [done|]. intros db' c. apply FailJobWithReason_kept; [done..|].
  intros row Hr _. by apply listed_before.
Qed.
Lemma misconfigured_kept msg : kept db (failJobWithError j msg db).
Proof.
  apply committed_kept; [done|]. intros db' c. apply CompleteJob_kept; [done..|].
  intros row Hr _ _. split; [done|]. by apply listed_before.
Qed.
Lemma notification_skip_kept : (NotificationIndexFromName (dj_Name j)).2 = true -> kept db (committed (SkipJob (dj_ID j) db) db).
Proof.
  intros Hi. apply committed_kept; [done|]. intros db' c. apply SkipJob_kept; [done..|].
  intros row Hr _ Hu. pose proof (nm_notify _ Hn _ _ Hr Hu) as Hf.
  destruct Hj as (row' & Hr' & _ & Hnm & _). assert (row' = row) as -> by congruence. congruence.
Qed.

Lemma treat_kept a next : tk_pc t <> PStatus -> tk_pc next <> PStatus ->
  remembered db (tk_status t) -> tk_status next = tk_status t ->
  (forall j', j' ∈ tk_todo next -> j' ∈ tk_todo t) ->
  forall db' t', treat a j t next db = (db', t') ->
    kept db db' /\ forall t1, t' = Some t1 ->
      tk_pc t1 <> PStatus /\ tk_status t1 = tk_status t /\ (forall j', j' ∈ tk_todo t1 -> j' ∈ tk_todo t).
Proof.
  intros Hpc Hpn Hm Hst Hsub db' t'. unfold treat. pose proof (needsSatisfied_spec (dj_Needs j) (tk_status t)) as Hv.
  assert (Hnext : forall t1, Some next = Some t1 -> tk_pc t1 <> PStatus /\ tk_status t1 = tk_status t /\
                     (forall j', j' ∈ tk_todo t1 -> j' ∈ tk_todo t)) by by intros ? [= <-].
  inversion Hv as [Hmet E|d Hd E|d _ _ E|d _ Hc E]; simpl.
  - pose proof (met_startable _ Hm Hmet) as Hcl. destruct (a_prep a) as [| |msg| |agent].
    + intros [= <- <-]. split; [by apply kept_refl|done].
    + intros [= <- <-]. split; [by apply kept_refl|]. intros t1 [= <-]. simpl. split_and!; [done|done|set_solver].
    + intros [= <- <-]. split; [apply misconfigured_kept|done].
    + intros [= <- <-]. split; [|done]. destruct (StartNativeDeploy (dj_ID j) db) eqn:Ed; simpl; [|by apply kept_refl].
      by eapply StartNativeDeploy_kept.
    + destruct (AssignJob (dj_ID j) agent db) as [[row db1]|] eqn:Ed; intros [= <- <-].
      * split; [by eapply claim_kept|]. by intros t1 [= <-].
      * split; [by apply kept_refl|done].
  - intros [= <- <-]. split; [apply unmet_kept|done].
  - intros [= <- <-]. split; [by apply kept_refl|done].
  - intros [= <- <-]. split; [by eapply skip_kept|done].
Qed.
End Ticks.

(** The jobs left are among the jobs of the tick. *)
Ltac sub_todo :=
  let x := fresh in let Hin := fresh in
  intros x Hin; simpl in *;
  repeat match goal with E : tk_todo ?t = _ |- _ => rewrite E in * end; (exact Hin || (right; exact Hin)).
(** Every step of a tick keeps the rows safe, and the tick well informed. *)
Lemma advance_kept text_lt spec a t db db' t' : named db -> safe db -> tick_ok text_lt db t ->
  advance text_lt spec a t db = (db', t') -> kept db db' /\ forall t1, t' = Some t1 -> tick_ok text_lt db' t1.
Proof.
  intros Hn Hs [Hl Hm] H.
  assert (Hsame : forall t1, kept db db' -> (forall j, j ∈ tk_todo t1 -> j ∈ tk_todo t) ->
            (tk_pc t1 <> PStatus -> remembered text_lt db (tk_status t1)) -> tick_ok text_lt db' t1).
  { intros t1 [_ Hg] Hsub Hm1. split; [intros j Hj; eapply listed_grows; eauto|]. intros Hp.
    destruct (Hm1 Hp) as (db0 & Hs0 & Hg0 & ->). exists db0. split_and!; [done|by transitivity db|done]. }
  assert (Hend : forall t1, kept db db' -> (db', t') = (db', Some t1) -> (forall j, j ∈ tk_todo t1 -> j ∈ tk_todo t) ->
            (tk_pc t1 <> PStatus -> remembered text_lt db (tk_status t1)) ->
            kept db db' /\ forall t1, t' = Some t1 -> tick_ok text_lt db' t1).
  { intros t1 K [= ->] Hsub Hm1. split; [done|]. intros t2 [= <-]. by apply Hsame. }
  unfold advance in H. destruct (tk_pc t) as [| |agent attempt|] eqn:Hpc.
  - injection H as <- <-. eapply Hend; [by apply kept_refl|done|done|]. intros _. by exists db.
  - assert (Hm' : remembered text_lt db (tk_status t)) by by apply Hm.
    destruct (tk_todo t) as [|j todo] eqn:Htd.
    { injection H as <- <-. split; [|done]. destruct (tk_dispatched t); [by apply MarkRunRunning_kept|by apply kept_refl]. }
    assert (Hj : listed db j) by (apply Hl; left).
    assert (Htreat : treat a j t (set_tick t todo PJob) db = (db', t') ->
              kept db db' /\ forall t1, t' = Some t1 -> tick_ok text_lt db' t1).
    { intros E. destruct (treat_kept text_lt db t j Hn Hs Hj a (set_tick t todo PJob)) with (db' := db') (t' := t')
        as [K Ht1]; [by rewrite Hpc|done|done|done|sub_todo|done|]. split; [done|].
      intros t1 E1. destruct (Ht1 t1 E1) as (_ & Est & Hsub). apply Hsame; [done|by rewrite Htd in Hsub|by rewrite Est]. }
    destruct (NotificationIndexFromName (dj_Name j)) as [idx notif] eqn:Hidx. destruct notif; [|auto].
    destruct (spec idx) as [on|].
    2: { injection H as <- <-. eapply Hend; [by apply kept_refl|done|sub_todo|done]. }
    destruct (tk_outcome t) as [o|].
    2: { injection H as <- <-. eapply Hend; [by apply kept_refl|done|sub_todo|done]. }
    destruct (negb _); [|auto]. injection H as <- <-. eapply Hend; [|done|sub_todo|done].
    apply notification_skip_kept; [done..|]. by rewrite Hidx.
  - assert (Hm' : remembered text_lt db (tk_status t)) by by apply Hm.
    destruct (tk_todo t) as [|j todo] eqn:Htd; [injection H as <- <-; split; [by apply kept_refl|done]|].
    destruct (a_delivered a); injection H as <- <-; (eapply Hend; [|done|sub_todo|done]).
    + by apply kept_refl.
    + destruct (UnassignJob _ _ _ _) as [[[db1 st]|]|] eqn:E; [|by apply kept_refl..]. by eapply UnassignJob_kept.
  - assert (Hm' : remembered text_lt db (tk_status t)) by by apply Hm.
    destruct (tk_todo t) as [|j todo] eqn:Htd; injection H as <- <-; [split; [by apply kept_refl|done]|].
    eapply Hend; [by apply MarkStageRunning_kept|done|sub_todo|done].
Qed.

(** ** Every reachable state *)

Record sound (text_lt : string -> string -> bool) (w : World) : Prop := {
  sd_named : named (wdb w);
  sd_safe : safe (wdb w);
  sd_ticks : forall k t, ticks w !! k = Some t -> tick_ok text_lt (wdb w) t;
}.

Section Soundness.
Context (early : bool) (text_lt : string -> string -> bool) (spec : Z -> option NotificationTrigger).

Lemma sound_kept w db : sound text_lt w -> kept (wdb w) db -> sound text_lt (with_wdb w db).
Proof.
  intros [Hn Hs Ht] [Hs' Hg]. split; simpl; [by eapply named_grows|done|]. intros k t Hk.
  eapply tick_ok_grows; eauto.
Qed.
Lemma fresh_sound w : initial w -> sound text_lt w.
Proof. intros [Hf Ht]. split; [apply Hf|by apply fresh_safe|]. by rewrite Ht. Qed.

Lemma step_kept w w' : sound text_lt w -> step false early text_lt spec w w' ->
  sound text_lt w' /\ grows (wdb w) (wdb w').
Proof.
  intros Hw H. pose proof Hw as [Hn Hs Ht].
  assert (Hk : forall db, kept (wdb w) db -> sound text_lt (with_wdb w db) /\ grows (wdb w) db).
  { intros db K. split; [by apply sound_kept|apply K]. }
  inversion H; subst; simpl.
  - split; [|done]. split; simpl; [done..|]. intros k0 t0. destruct (decide (k0 = k)) as [->|Hne].
    + rewrite lookup_insert_eq. intros [= <-]. by eapply start_tick_ok.
    + rewrite lookup_insert_ne by done. apply Ht.
  - destruct (advance_kept text_lt spec a t (wdb w) db' t') as [K Hok]; [done..|by eapply Ht|done|].
    split; [|apply K]. destruct (sound_kept w db' Hw K) as [Hn' Hs' Ht']. split; simpl; [done..|].
    intros k0 t0. unfold next_tick. destruct t' as [t1|]; (destruct (decide (k0 = k)) as [->|Hne]).
    + rewrite lookup_insert_eq. intros [= <-]. by apply Hok.
    + rewrite lookup_insert_ne by done. apply Ht'.
    + by rewrite lookup_delete_eq.
    + rewrite lookup_delete_ne by done. apply Ht'.
  - split; [|done]. split; simpl; [done..|]. intros k0 t0 [_ Hk0]%lookup_delete_Some. by eapply Ht.
  - apply Hk. eapply CompleteJob_kept; [done..| |done]. by eapply agent_knows.
  - apply Hk. by eapply HandleDisruptedJob_kept.
  - apply Hk. by eapply FinalizeDeployWatch_kept.
  - apply Hk. by eapply settle_gate_kept.
  - apply Hk. by eapply ExpireApprovalGate_kept.
  - apply Hk. by eapply CancelRun_kept.
  - apply Hk. by eapply CancelJobRun_kept.
  - apply Hk. by eapply supersedeOne_kept.
  - apply Hk. by apply cancelMergeGroupOne_kept.
  - apply Hk. by eapply ReclaimPendingCancels_kept.
  - apply Hk. by eapply requeueStaleJob_kept.
  - apply Hk. by eapply failJobIfStale_kept.
  - done.
Qed.

Lemma reachable_sound w : reachable false early text_lt spec w -> sound text_lt w.
Proof.
  intros (w0 & H0 & Hr). apply fresh_sound in H0. induction Hr as [|w w1 w2 H1 _ IH]; [done|].
  apply IH. by eapply step_kept.
Qed.
Lemma reachable_grows w w' : sound text_lt w -> rtc (step false early text_lt spec) w w' -> grows (wdb w) (wdb w').
Proof.
  intros Hw Hr. induction Hr as [|w w1 w2 H1 _ IH]; [done|]. destruct (step_kept _ _ Hw H1) as [Hw1 Hg].
  transitivity (wdb w1); auto.
Qed.
End Soundness.
