(* ===== verification/Matrix.v ===== *)
(** [server/internal/store/runs.go], [scheduler/scheduler_needs.go] and
    [scheduler/refs.go]: the matrix of a job - its expansion into combinations, the
    key that names one, and the two normalisations that read a key back, from a row
    and from a selector - up to the table of outputs a downstream job reads. *)

From S2P Require Import Prelude GoStrings GoRegexp Domain Schema ParseHelpers ParseJob RunTables.

(** ** Combinations and their keys *)

Notation combo := (gmap string string).
(** Outputs by job, and by job and matrix key. *)
Notation NeedsOutputs := (gmap string combo).
Notation MatrixNeedsOutputs := (gmap string (gmap string combo)).

Definition pair_text (k v : string) : string := k +:+ "=" +:+ v.
Definition join_pairs (keys : list string) (m : combo) : string :=
  Join ((fun k => pair_text k (default "" (m !! k))) <$> keys) ",".

Section Matrix.
Context `{MapRange}.

(** The keys of a map, collected in range order and then sorted. *)
Definition sorted_keys {V} (m : gmap string V) : list string := sort_strings (range_map m).*1.

Definition expand_dim (m : gmap string (list string)) (combos : list combo) (k : string) : list combo :=
  match default [] (m !! k) with
  | [] => combos
  | values => combos ≫= fun prev => (fun v => <[k := v]> prev) <$> values
  end.
Definition expandMatrix (m : gmap string (list string)) : list combo :=
  if decide (m = ∅) then [∅] else foldl (expand_dim m) [∅] (sorted_keys m).

Definition matrixKey (c : combo) : string :=
  if decide (c = ∅) then "" else join_pairs (sorted_keys c) c.

(** ** Reading keys back *)

Inductive key_error :=
| EmptySelector | ShortcutDims (dims : list string) | NotPair (part : string)
| RepeatedDim (k : string) | UnknownDim (k : string).
#[export] Instance key_error_eq_dec : EqDecision key_error. Proof. solve_decision. Defined.

(** [eq <= 0 || eq == len(p)-1] refuses the part. *)
Definition cut_pair (p : string) : option (string * string) :=
  match IndexByte p "="%char with
  | Some (S i) => if decide (S i = slen p - 1) then None else Some (stake (S i) p, sdrop (S (S i)) p)
  | _ => None
  end.

Record Pairs := { pairs_keys : list string; pairs_values : combo }.
Definition no_pairs : Pairs := {| pairs_keys := []; pairs_values := ∅ |}.
Definition add_pair (s : Pairs) (k v : string) : Pairs :=
  {| pairs_keys := pairs_keys s ++ [k]; pairs_values := <[k := v]> (pairs_values s) |}.

Definition stored_part (s : Pairs) (p : string) : result key_error Pairs :=
  let p := TrimSpace p in
  match cut_pair p with
  | None => Err (NotPair p)
  | Some (k, v) => if has_key (pairs_values s) k then Err (RepeatedDim k) else Ok (add_pair s k v)
  end.
Definition canonicalizeMatrixKey (stored : string) : result key_error string :=
  if decide (stored = "") then Ok ""
  else
    s ← fold_all stored_part no_pairs (SplitByte stored ","%char);
    Ok (join_pairs (sort_strings (pairs_keys s)) (pairs_values s)).

Definition selector_part (dimNames : list string) (seen : combo) (p : string) : result key_error combo :=
  let p := TrimSpace p in
  match cut_pair p with
  | None => Err (NotPair p)
  | Some (k, v) =>
      if has_key seen k then Err (RepeatedDim k)
      else if negb (bool_decide (k ∈ dimNames)) && (0 <? length dimNames)%nat then Err (UnknownDim k)
      else Ok (<[k := v]> seen)
  end.
Definition canonicalMatrixKey (body : string) (dimNames : list string) : result key_error string :=
  let body := TrimSpace body in
  if decide (body = "") then Err EmptySelector
  else if negb (Contains body "=") then
    match dimNames with
    | [d] => Ok (pair_text d body)
    | _ => Err (ShortcutDims dimNames)
    end
  else
    seen ← fold_all (selector_part dimNames) ∅ (SplitByte body ","%char);
    Ok (join_pairs (sorted_keys seen) seen).

(** ** The outputs a downstream job can read *)

Record JobOutputs := {
  jo_Name : string; jo_MatrixKey : string; jo_Status : Status; jo_Outputs : combo;
}.
Inductive group_error :=
| MalformedKey (job key : string) (e : key_error) | DuplicateKey (job canon : string).

Definition group_rows (rows : list JobOutputs) : gmap string (list JobOutputs) :=
  foldl (fun m r => <[jo_Name r := default [] (m !! jo_Name r) ++ [r]]> m) ∅ rows.
Definition add_row (name : string) (rowMap : gmap string combo) (g : JobOutputs)
    : result group_error (gmap string combo) :=
  canon ← map_err (MalformedKey name (jo_MatrixKey g)) (canonicalizeMatrixKey (jo_MatrixKey g));
  if has_key rowMap canon then Err (DuplicateKey name canon) else Ok (<[canon := jo_Outputs g]> rowMap).
Definition add_group (acc : NeedsOutputs * MatrixNeedsOutputs) (p : string * list JobOutputs)
    : result group_error (NeedsOutputs * MatrixNeedsOutputs) :=
  let '(plain, matrix) := acc in
  let '(name, group) := p in
  let successful := filter (fun g => jo_Status g = StatusSuccess) group in
  let expanded := rowMap ← fold_all (add_row name) ∅ successful; Ok (plain, <[name := rowMap]> matrix) in
  match successful with
  | [] => Ok acc
  | [g] => if decide (jo_MatrixKey g = "") then Ok (<[name := jo_Outputs g]> plain, matrix) else expanded
  | _ => expanded
  end.
Definition groupNeedsOutputs (rows : list JobOutputs) : result group_error (NeedsOutputs * MatrixNeedsOutputs) :=
  fold_all add_group (∅, ∅) (range_map (group_rows rows)).
End Matrix.

(** ** Keys as lists of pairs *)

Definition name_byte (c : Ascii.ascii) : bool := is_alnum c || one_of "_" c.
(** What the parser makes sure of in a dimension and a value. *)
Definition key_ok (p : string * string) : Prop :=
  p.1 <> "" /\ all_bytes name_byte p.1 = true /\ ContainsAny p.2 ",=" = false.
(** What reading a key back takes besides: a value, without white space around it. *)
Definition clean_pair (p : string * string) : Prop := key_ok p /\ p.2 <> "" /\ TrimSpace p.2 = p.2.
Definition clean (c : combo) : Prop := forall k v, c !! k = Some v -> clean_pair (k, v).
Definition texts (l : list (string * string)) : list string := (fun p => pair_text p.1 p.2) <$> l.

Lemma name_lacks k (c : Ascii.ascii) : all_bytes name_byte k = true -> name_byte c = false -> lacks c k = true.
Proof.
  intros Hk Hc. unfold lacks. eapply all_bytes_impl; [|exact Hk]. intros d Hd. apply negb_true_iff, bool_decide_eq_false.
  intros ->. congruence.
Qed.
Lemma value_lacks v chars (c : Ascii.ascii) : ContainsAny v chars = false -> one_of chars c = true -> lacks c v = true.
Proof.
  unfold ContainsAny. rewrite any_byte_false. intros Hv Hc. unfold lacks. eapply all_bytes_impl; [|exact Hv].
  intros d Hd%negb_true_iff. apply negb_true_iff, bool_decide_eq_false. intros ->. unfold one_of in Hc. simpl in Hd. congruence.
Qed.

Section Pair.
Context (k v : string).
Hypothesis Hok : key_ok (k, v).

Lemma pair_lacks_comma : lacks "," (pair_text k v) = true.
Proof.
  destruct Hok as (_ & Hk & Hv). simpl in *. unfold pair_text, lacks. rewrite !all_bytes_app.
  pose proof (name_lacks k "," Hk eq_refl) as H1. pose proof (value_lacks v ",=" "," Hv eq_refl) as H2.
  unfold lacks in H1, H2. by rewrite H1, H2.
Qed.
Lemma index_pair : IndexByte (pair_text k v) "=" = Some (slen k).
Proof. destruct Hok as (_ & Hk & _). apply IndexByte_app. by apply name_lacks. Qed.
Lemma cut_pair_text : v <> "" -> cut_pair (pair_text k v) = Some (k, v).
Proof.
  intros Hv. destruct Hok as (Hne & _ & _). simpl in Hne. unfold cut_pair. rewrite index_pair.
  assert (Hlen : slen (pair_text k v) = slen k + 1 + slen v) by (unfold pair_text; rewrite !slen_app; unfold slen; simpl; lia).
  assert (Hpos : slen v <> 0) by by destruct v.
  destruct k as [|c k']; [done|]. change (slen (String c k')) with (S (slen k')) in *.
  cbv beta iota. rewrite decide_False by lia.
  f_equal. f_equal.
  - change (S (slen k')) with (slen (String c k')). unfold pair_text. apply stake_app.
  - unfold pair_text. change ("=" +:+ v) with (String "=" v).
    assert (H : forall s d t, sdrop (S (slen s)) (s +:+ String d t) = t) by (intros s d t; induction s; [done|exact IHs]).
    exact (H (String c k') _ _).
Qed.
End Pair.

(** A text that starts with a name and ends with [=] and a trimmed value is trimmed. *)
Lemma no_space_starts_name : Forall (fun p => match p with String c _ => name_byte c = false | "" => False end) space_encodings.
Proof. unfold space_encodings. simpl. repeat constructor. Qed.
Lemma no_equal_in_space : Forall (fun p => lacks "=" p = true) (String.rev <$> space_encodings).
Proof. apply (bool_decide_unpack (Forall _ _)). by vm_compute. Qed.

Lemma TrimSpace_text s a t u v : s = String a t -> name_byte a = true -> s = u +:+ String "=" v ->
  v <> "" -> TrimSpace v = v -> TrimSpace s = s.
Proof.
  intros Hs Ha Hu Hne Hv. apply TrimSpace_fix; apply strip_one_None, Forall_forall; intros p Hp; apply not_true_is_false; intros Hpre.
  - pose proof no_space_starts_name as H. rewrite Forall_forall in H. specialize (H p Hp).
    destruct p as [|c p]; [done|]. apply HasPrefix_spec in Hpre as [w Hw]. rewrite Hs in Hw. injection Hw as -> _. congruence.
  - apply TrimSpace_fixed in Hv as [_ Hv%strip_one_None]. rewrite Forall_forall in Hv. specialize (Hv p Hp).
    rewrite Hu, rev_app_s, rev_cons_s, app_assoc_s in Hpre. apply HasPrefix_app_inv in Hpre as [H|(c & q & -> & Hq)]; [congruence|].
    pose proof no_equal_in_space as H. rewrite Forall_forall in H. specialize (H _ Hp). unfold lacks in H.
    rewrite all_bytes_app in H. apply andb_true_iff in H as [_ H]. apply HasPrefix_spec in Hq as [w [= Hc _]].
    simpl in H. rewrite bool_decide_eq_true_2 in H; [done|]. by symmetry.
Qed.
Lemma TrimSpace_pair k v : clean_pair (k, v) -> TrimSpace (pair_text k v) = pair_text k v.
Proof.
  intros ((Hne & Hk & _) & Hv & Ht). simpl in *. destruct k as [|a k]; [done|]. simpl in Hk.
  apply andb_true_iff in Hk as [Ha _]. by eapply TrimSpace_text.
Qed.

Lemma texts_lack_comma l : Forall key_ok l -> Forall (fun s => lacks "," s = true) (texts l).
Proof. intros H. unfold texts. apply Forall_fmap. eapply Forall_impl; [exact H|]. intros [k v] Hp. by apply pair_lacks_comma. Qed.
Lemma split_texts l : l <> [] -> Forall key_ok l -> SplitByte (Join (texts l) ",") "," = texts l.
Proof. intros Hne Hl. apply SplitByte_Join; [by destruct l|]. by apply texts_lack_comma. Qed.

Lemma texts_inj l1 l2 : Forall key_ok l1 -> Forall key_ok l2 -> texts l1 = texts l2 -> l1 = l2.
Proof.
  intros H1. revert l2. induction H1 as [|[k v] l1 Hp H1 IH]; intros l2 H2 H; [by destruct l2|].
  destruct H2 as [|[k2 v2] l2 Hp2 H2]; [done|]. injection H as H Hl. f_equal; [|by apply IH].
  pose proof (index_pair _ _ Hp) as E1. pose proof (index_pair _ _ Hp2) as E2. simpl in H. rewrite H in E1.
  rewrite E1 in E2. injection E2 as E2. assert (k = k2) as ->.
  { rewrite <-(stake_app k ("=" +:+ v)), <-(stake_app k2 ("=" +:+ v2)), E2. f_equal. exact H. }
  f_equal. assert (Hd : sdrop (slen k2) (pair_text k2 v) = sdrop (slen k2) (pair_text k2 v2)) by by rewrite H.
  unfold pair_text in Hd. rewrite !sdrop_app in Hd. by injection Hd.
Qed.

(** ** Reading back the pairs of a combination *)

Definition insert_pairs (m : combo) (l : list (string * string)) : combo := foldl (fun m p => <[p.1 := p.2]> m) m l.

Lemma insert_pairs_spec l m : NoDup l.*1 -> insert_pairs m l = list_to_map l ∪ m.
Proof.
  revert m. induction l as [|[k v] l IH]; intros m Hd; simpl; [by rewrite (left_id_L ∅ _)|].
  inversion Hd as [|? ? Hk Hd']; subst. rewrite IH by done. apply map_eq. intros i.
  rewrite !lookup_union. destruct (decide (i = k)) as [->|Hne].
  - rewrite !lookup_insert_eq. apply not_elem_of_list_to_map in Hk. rewrite Hk. simpl. by destruct (m !! k).
  - by rewrite !lookup_insert_ne.
Qed.
Lemma insert_pairs_combo l (c : combo) : l ≡ₚ map_to_list c -> insert_pairs ∅ l = c.
Proof.
  intros Hl. assert (Hd : NoDup l.*1) by (rewrite Hl; apply NoDup_fst_map_to_list).
  rewrite insert_pairs_spec by done. rewrite (right_id_L ∅ _). rewrite <-(list_to_map_to_list c).
  by apply list_to_map_proper.
Qed.

Lemma clean_Forall (c : combo) l : clean c -> l ≡ₚ map_to_list c -> Forall clean_pair l.
Proof. intros Hc Hl. rewrite Hl. apply Forall_forall. intros [k v] Hin%elem_of_map_to_list. by apply Hc. Qed.
Lemma pairs_nonempty (c : combo) l : c <> ∅ -> l ≡ₚ map_to_list c -> l <> [].
Proof. intros Hc Hl ->. apply Permutation_nil, map_to_list_empty_iff in Hl. done. Qed.
Lemma clean_key l : Forall clean_pair l -> Forall key_ok l.
Proof. intros H. eapply Forall_impl; [exact H|]. by intros p [? _]. Qed.

Lemma key_absent {V} (m : gmap string V) k : m !! k = None -> has_key m k = false.
Proof. unfold has_key. by intros ->. Qed.

Lemma fold_stored l s : Forall clean_pair l -> NoDup l.*1 -> (forall k, k ∈ l.*1 -> pairs_values s !! k = None) ->
  fold_all stored_part s (texts l) =
    Ok {| pairs_keys := pairs_keys s ++ l.*1; pairs_values := insert_pairs (pairs_values s) l |}.
Proof.
  intros Hl. revert s. induction Hl as [|[k v] l Hp Hl IH]; intros s Hd Hs; simpl.
  - rewrite app_nil_r. by destruct s.
  - inversion Hd as [|? ? Hk Hd']; subst. unfold stored_part at 1. cbv zeta. pose proof Hp as (Hok & Hv & _).
    rewrite TrimSpace_pair, cut_pair_text by done. rewrite key_absent by (apply Hs; left).
    rewrite IH; [|done|].
    + simpl. by rewrite <-app_assoc.
    + simpl. intros k' Hk'. rewrite lookup_insert_ne; [apply Hs; by right|]. intros ->. done.
Qed.
Lemma fold_selector dims l s : Forall clean_pair l -> NoDup l.*1 -> (forall k, k ∈ l.*1 -> s !! k = None) ->
  (forall k, k ∈ l.*1 -> k ∈ dims) -> fold_all (selector_part dims) s (texts l) = Ok (insert_pairs s l).
Proof.
  intros Hl. revert s. induction Hl as [|[k v] l Hp Hl IH]; intros s Hd Hs Hdim; simpl; [done|].
  inversion Hd as [|? ? Hk Hd']; subst. unfold selector_part at 1. cbv zeta. pose proof Hp as (Hok & Hv & _).
  rewrite TrimSpace_pair, cut_pair_text by done. rewrite key_absent by (apply Hs; left).
  rewrite bool_decide_eq_true_2 by (apply Hdim; left). simpl. rewrite IH; [done|done| |].
  - intros k' Hk'. rewrite lookup_insert_ne; [apply Hs; by right|]. intros ->. done.
  - intros k' Hk'. apply Hdim. by right.
Qed.

Section Keys.
Context `{MapRange}.

Lemma elem_of_sorted_keys {V} (m : gmap string V) k : k ∈ sorted_keys m <-> is_Some (m !! k).
Proof.
  unfold sorted_keys. rewrite elem_of_sort_strings, list_elem_of_fmap. split.
  - intros ([k' v] & -> & Hin%elem_of_range_map). eauto.
  - intros [v Hv]. exists (k, v). split; [done|]. by apply elem_of_range_map.
Qed.
Lemma NoDup_sorted_keys {V} (m : gmap string V) : NoDup (sorted_keys m).
Proof. unfold sorted_keys. rewrite NoDup_sort_strings. apply NoDup_range_map. Qed.
Lemma sort_pairs l (c : combo) : l ≡ₚ map_to_list c -> sort_strings l.*1 = sorted_keys c.
Proof.
  intros Hl. apply sort_strings_unique.
  - intros k. rewrite Hl, !list_elem_of_fmap. split; intros ([k' v] & -> & Hin); exists (k', v);
      (split; [done|]); revert Hin; by rewrite elem_of_range_map, elem_of_map_to_list.
  - rewrite Hl. apply NoDup_fst_map_to_list.
  - apply NoDup_range_map.
Qed.

(** The pairs a key is written from. *)
Definition key_pairs (c : combo) : list (string * string) := (fun k => (k, default "" (c !! k))) <$> sorted_keys c.
Lemma key_pairs_perm c : key_pairs c ≡ₚ map_to_list c.
Proof.
  apply NoDup_Permutation.
  - unfold key_pairs. apply NoDup_fmap_2; [|apply NoDup_sorted_keys]. by intros x y [= ->].
  - apply NoDup_map_to_list.
  - intros [k v]. unfold key_pairs. rewrite list_elem_of_fmap, elem_of_map_to_list. split.
    + intros (k' & [= -> ->] & [w Hw]%elem_of_sorted_keys). by rewrite Hw.
    + intros Hv. exists k. rewrite Hv. split; [done|]. apply elem_of_sorted_keys. eauto.
Qed.
Lemma join_pairs_texts c : join_pairs (sorted_keys c) c = Join (texts (key_pairs c)) ",".
Proof. unfold join_pairs, texts, key_pairs. by rewrite <-list_fmap_compose. Qed.

Lemma matrixKey_nonempty c : c <> ∅ -> matrixKey c = Join (texts (key_pairs c)) ",".
Proof. intros Hc. unfold matrixKey. rewrite decide_False by done. apply join_pairs_texts. Qed.

Lemma join_texts_form l : l <> [] -> Forall clean_pair l -> exists a t u v,
  Join (texts l) "," = String a t /\ name_byte a = true /\ Join (texts l) "," = u +:+ String "=" v /\ v <> "" /\ TrimSpace v = v.
Proof.
  intros Hne Hl. induction Hl as [|[k v] l Hp Hl IH]; [done|]. destruct Hp as ((Hk0 & Hk & _) & Hv & Ht).
  cbn [fst snd] in *. destruct k as [|a k]; [done|]. simpl in Hk. apply andb_true_iff in Hk as [Ha _].
  destruct l as [|p l].
  - exists a, (k +:+ "=" +:+ v), (String a k), v. done.
  - destruct IH as (b & t & u & w & E1 & _ & E2 & Hw & Htw); [done|].
    exists a, (k +:+ "=" +:+ v +:+ "," +:+ Join (texts (p :: l)) ","), (pair_text (String a k) v +:+ "," +:+ u), w.
    split_and!; [|done| |done|done].
    + change (texts (_ :: p :: l)) with (pair_text (String a k) v :: texts (p :: l)).
      change (Join (?x :: ?y) ",") with (x +:+ "," +:+ Join y ","). unfold pair_text. by rewrite !app_assoc_s.
    + change (texts (_ :: p :: l)) with (pair_text (String a k) v :: texts (p :: l)).
      change (Join (?x :: ?y) ",") with (x +:+ "," +:+ Join y ","). rewrite E2. by rewrite !app_assoc_s.
Qed.

Lemma canonicalize_pairs c l : c <> ∅ -> clean c -> l ≡ₚ map_to_list c ->
  canonicalizeMatrixKey (Join (texts l) ",") = Ok (matrixKey c).
Proof.
  intros Hc Hcl Hl. pose proof (clean_Forall _ _ Hcl Hl) as Hf. pose proof (pairs_nonempty _ _ Hc Hl) as Hne.
  unfold canonicalizeMatrixKey. destruct (join_texts_form l Hne Hf) as (a & t & _ & _ & E & _). rewrite decide_False by by rewrite E.
  rewrite split_texts by auto using clean_key. rewrite fold_stored; [|done| |done].
  - simpl. rewrite (insert_pairs_combo _ _ Hl), (sort_pairs _ _ Hl). unfold matrixKey. by rewrite decide_False.
  - rewrite Hl. apply NoDup_fst_map_to_list.
Qed.
Lemma select_pairs c l dims : c <> ∅ -> clean c -> l ≡ₚ map_to_list c -> (forall k, is_Some (c !! k) -> k ∈ dims) ->
  canonicalMatrixKey (Join (texts l) ",") dims = Ok (matrixKey c).
Proof.
  intros Hc Hcl Hl Hdims. pose proof (clean_Forall _ _ Hcl Hl) as Hf. pose proof (pairs_nonempty _ _ Hc Hl) as Hne.
  unfold canonicalMatrixKey. destruct (join_texts_form l Hne Hf) as (a & t & u & v & E & Ha & Eu & Hv & Ht). cbv zeta.
  rewrite (TrimSpace_text _ a t u v) by done. rewrite decide_False by by rewrite E.
  assert (Contains (Join (texts l) ",") "=" = true) as ->.
  { apply Contains_spec. exists u, v. rewrite Eu. done. }
  simpl negb. cbv iota. rewrite split_texts by auto using clean_key. rewrite fold_selector.
  - simpl. rewrite (insert_pairs_combo _ _ Hl). unfold matrixKey. by rewrite decide_False.
  - done.
  - rewrite Hl. apply NoDup_fst_map_to_list.
  - done.
  - intros k. rewrite Hl, list_elem_of_fmap. intros ([k' v'] & -> & Hin%elem_of_map_to_list). apply Hdims. eauto.
Qed.
Lemma canonicalize_matrixKey c : clean c -> canonicalizeMatrixKey (matrixKey c) = Ok (matrixKey c).
Proof.
  intros Hcl. destruct (decide (c = ∅)) as [->|Hc].
  - unfold matrixKey. by rewrite decide_True.
  - rewrite (matrixKey_nonempty c Hc) at 1. apply canonicalize_pairs; [done..|]. apply key_pairs_perm.
Qed.

(** Distinct combinations have distinct keys. *)
Definition keyed (c : combo) : Prop := forall k v, c !! k = Some v -> key_ok (k, v).
Lemma matrixKey_inj c1 c2 : keyed c1 -> keyed c2 -> matrixKey c1 = matrixKey c2 -> c1 = c2.
Proof.
  assert (Hf : forall c, keyed c -> Forall key_ok (key_pairs c)).
  { intros c Hc. rewrite key_pairs_perm. apply Forall_forall. intros [k v] Hin%elem_of_map_to_list. by apply Hc. }
  assert (Hne : forall c, keyed c -> c <> ∅ -> matrixKey c <> "").
  { intros c Hk Hc E. rewrite matrixKey_nonempty in E by done. pose proof (split_texts (key_pairs c)) as Hs.
    rewrite E in Hs. specialize (Hs (pairs_nonempty _ _ Hc (key_pairs_perm c)) (Hf c Hk)).
    destruct (key_pairs c) as [|[k v] l] eqn:El; [done|]. injection Hs as Hs _. unfold pair_text in Hs.
    pose proof (Hf c Hk) as Hfk. rewrite El in Hfk. inversion Hfk as [|? ? (Hk0 & _) _]; subst. simpl in Hk0. by destruct k. }
  intros H1 H2 E. destruct (decide (c1 = ∅)) as [->|Hc1], (decide (c2 = ∅)) as [->|Hc2]; [done|..].
  - exfalso. apply (Hne c2 H2 Hc2). rewrite <-E. unfold matrixKey. by rewrite decide_True.
  - exfalso. apply (Hne c1 H1 Hc1). rewrite E. unfold matrixKey. by rewrite decide_True.
  - rewrite !matrixKey_nonempty in E by done.
    assert (El : texts (key_pairs c1) = texts (key_pairs c2)).
    { pose proof (pairs_nonempty c1 _ Hc1 (key_pairs_perm c1)). pose proof (pairs_nonempty c2 _ Hc2 (key_pairs_perm c2)).
      by rewrite <-(split_texts (key_pairs c1)), <-(split_texts (key_pairs c2)), E by auto. }
    apply texts_inj in El; [|auto..]. apply map_to_list_inj. by rewrite <-!key_pairs_perm, El.
Qed.
End Keys.

(** ** The expansion *)

(** A combination takes one value of every dimension that has any. *)
Definition picks (m : gmap string (list string)) (c : combo) : Prop :=
  forall k, match default [] (m !! k) with
            | [] => c !! k = None
            | vs => exists v, v ∈ vs /\ c !! k = Some v
            end.

Lemma elem_of_expand_dim m cs k c : c ∈ expand_dim m cs k <->
  match default [] (m !! k) with
  | [] => c ∈ cs
  | vs => exists prev v, prev ∈ cs /\ v ∈ vs /\ c = <[k := v]> prev
  end.
Proof.
  unfold expand_dim. destruct (default [] (m !! k)) as [|v0 vs]; [done|]. rewrite list_elem_of_bind. split.
  - intros (prev & (v & -> & Hv)%list_elem_of_fmap & Hp). eauto.
  - intros (prev & v & Hp & Hv & ->). exists prev. split; [|done]. apply list_elem_of_fmap. eauto.
Qed.

(** The combinations after the dimensions [keys], from those that have none of them. *)
Lemma elem_of_expand_dims m keys cs c : NoDup keys -> (forall p k, p ∈ cs -> k ∈ keys -> p !! k = None) ->
  c ∈ foldl (expand_dim m) cs keys <->
  exists prev, prev ∈ cs /\ (forall k, k ∉ keys -> c !! k = prev !! k) /\
    (forall k, k ∈ keys -> match default [] (m !! k) with
                           | [] => c !! k = None
                           | vs => exists v, v ∈ vs /\ c !! k = Some v
                           end).
Proof.
  revert cs. induction keys as [|k keys IH]; intros cs Hd Hcs; simpl.
  - split.
    + intros Hc. exists c. split_and!; [done|done|set_solver].
    + intros (p & Hp & He & _). assert (c = p) as ->; [|done]. apply map_eq. intros i. apply He. set_solver.
  - apply NoDup_cons in Hd as [Hk Hd]. rewrite IH; [|done|].
    2: { intros p k' Hp Hk'. apply elem_of_expand_dim in Hp. destruct (default [] (m !! k)) as [|v0 vs].
         - apply Hcs; [done|by right].
         - destruct Hp as (prev & v & Hp & _ & ->). rewrite lookup_insert_ne; [apply Hcs; [done|by right]|]. by intros ->. }
    setoid_rewrite elem_of_expand_dim. split.
    + intros (p & Hp & Hout & Hin). destruct (default [] (m !! k)) as [|v0 vs] eqn:Ek.
      * exists p. split; [done|]. split; [intros k' Hk'; apply Hout; set_solver|].
        intros k' [->|Hk']%elem_of_cons; [|exact (Hin k' Hk')]. rewrite Ek, Hout by done. apply Hcs; [done|left].
      * destruct Hp as (prev & v & Hp & Hv & ->). exists prev. split; [done|]. split.
        -- intros k' Hk'. rewrite Hout by set_solver. apply lookup_insert_ne. set_solver.
        -- intros k' [->|Hk']%elem_of_cons; [|exact (Hin k' Hk')]. rewrite Ek, Hout by done. exists v. by rewrite lookup_insert_eq.
    + intros (prev & Hp & Hout & Hin). pose proof (Hin k ltac:(left)) as Hck.
      assert (Hin' : forall k', k' ∈ keys -> match default [] (m !! k') with
                | [] => c !! k' = None | vs => exists v, v ∈ vs /\ c !! k' = Some v end) by (intros k' Hk'; apply Hin; by right).
      destruct (default [] (m !! k)) as [|v0 vs] eqn:Ek.
      * exists prev. split; [done|]. split; [|done]. intros k' Hk'. destruct (decide (k' = k)) as [->|Hne].
        -- rewrite Hck. symmetry. apply Hcs; [done|left].
        -- apply Hout. set_solver.
      * destruct Hck as (v & Hv & Hck). exists (<[k := v]> prev). split; [by exists prev, v|]. split; [|done].
        intros k' Hk'. destruct (decide (k' = k)) as [->|Hne]; [by rewrite lookup_insert_eq|].
        rewrite lookup_insert_ne by done. apply Hout. set_solver.
Qed.

Lemma NoDup_expand_dim m cs k : NoDup cs -> NoDup (default [] (m !! k)) -> (forall p, p ∈ cs -> p !! k = None) ->
  NoDup (expand_dim m cs k).
Proof.
  intros Hcs Hvs Hk. unfold expand_dim. destruct (default [] (m !! k)) as [|v0 vs]; [done|]. apply NoDup_bind; [| |done].
  - intros p1 p2 c Hp1 Hp2 (v1 & -> & _)%list_elem_of_fmap (v2 & E & _)%list_elem_of_fmap.
    apply map_eq. intros i. destruct (decide (i = k)) as [->|Hne]; [by rewrite !Hk|].
    rewrite <-(lookup_insert_ne p1 k i v1), E by done. by apply lookup_insert_ne.
  - intros p Hp. apply NoDup_fmap_2; [|done]. intros v1 v2 E.
    assert (H : <[k := v1]> p !! k = <[k := v2]> p !! k) by by rewrite E. rewrite !lookup_insert_eq in H. by injection H.
Qed.

Section Expansion.
Context `{MapRange}.

Lemma elem_of_expandMatrix m c : c ∈ expandMatrix m <-> picks m c.
Proof.
  unfold expandMatrix, picks. case_decide as Hm.
  - subst. rewrite list_elem_of_singleton. split.
    + intros -> k. by rewrite lookup_empty.
    + intros Hc. apply map_eq. intros k. specialize (Hc k). by rewrite lookup_empty in Hc.
  - rewrite elem_of_expand_dims; [|apply NoDup_sorted_keys|by intros p k ->%list_elem_of_singleton].
    setoid_rewrite elem_of_sorted_keys. split.
    + intros (p & ->%list_elem_of_singleton & Hout & Hin) k. destruct (m !! k) as [vs|] eqn:Ek.
      * specialize (Hin k (ltac:(eauto))). by rewrite Ek in Hin.
      * simpl. rewrite Hout; [done|]. rewrite Ek. by intros [].
    + intros Hc. exists ∅. split; [by apply list_elem_of_singleton|]. split; [|intros k _; exact (Hc k)].
      intros k Hk. specialize (Hc k). destruct (m !! k); [destruct Hk; eauto|]. by rewrite lookup_empty.
Qed.
Lemma expandMatrix_ne m : exists c, c ∈ expandMatrix m.
Proof.
  exists (omap head m). apply elem_of_expandMatrix. intros k. rewrite lookup_omap.
  destruct (m !! k) as [[|v vs]|]; simpl; [done| |done]. exists v. split; [left|done].
Qed.
Lemma NoDup_expandMatrix m : (forall k vs, m !! k = Some vs -> NoDup vs) -> NoDup (expandMatrix m).
Proof.
  intros Hm. unfold expandMatrix. case_decide; [apply NoDup_singleton|].
  assert (G : forall keys cs, NoDup keys -> NoDup cs -> (forall p k, p ∈ cs -> k ∈ keys -> p !! k = None) ->
            NoDup (foldl (expand_dim m) cs keys)).
  { induction keys as [|k keys IH]; intros cs Hd Hcs Hn; simpl; [done|]. apply NoDup_cons in Hd as [Hk Hd].
    apply IH; [done| |].
    - apply NoDup_expand_dim; [done| |].
      + destruct (m !! k) as [vs|] eqn:Ek; simpl; [eauto|constructor].
      + intros p Hp. apply Hn; [done|left].
    - intros p k' Hp Hk'. apply elem_of_expand_dim in Hp. destruct (default [] (m !! k)).
      + apply Hn; [done|by right].
      + destruct Hp as (prev & v & Hp & _ & ->). rewrite lookup_insert_ne; [apply Hn; [done|by right]|]. by intros ->. }
  apply G; [apply NoDup_sorted_keys|apply NoDup_singleton|]. by intros p k ->%list_elem_of_singleton.
Qed.

(** The matrices the parser accepts. *)
Definition keyed_matrix (m : gmap string (list string)) : Prop :=
  forall k vs, m !! k = Some vs -> NoDup vs /\ Forall (fun v => key_ok (k, v)) vs.
Lemma expand_keyed m c : keyed_matrix m -> c ∈ expandMatrix m -> keyed c.
Proof.
  intros Hm Hc k v Hv. apply elem_of_expandMatrix in Hc. specialize (Hc k). destruct (m !! k) as [vs|] eqn:Ek; simpl in Hc.
  - destruct (Hm _ _ Ek) as [_ Hf]. destruct vs as [|v0 vs]; [congruence|]. destruct Hc as (w & Hw & E).
    assert (v = w) as -> by congruence. rewrite Forall_forall in Hf. by apply Hf.
  - congruence.
Qed.
Lemma NoDup_keys m : keyed_matrix m -> NoDup (matrixKey <$> expandMatrix m).
Proof.
  intros Hm. apply NoDup_fmap_2_strong; [|apply NoDup_expandMatrix; intros k vs Hk; by destruct (Hm k vs Hk)].
  intros c1 c2 H1 H2. apply matrixKey_inj; by apply (expand_keyed m).
Qed.
End Expansion.

(** ** The table of outputs *)

Section Groups.
Context `{MapRange}.

Definition insert_rows (m : gmap string combo) (l : list JobOutputs) : gmap string combo :=
  foldl (fun m g => <[jo_MatrixKey g := jo_Outputs g]> m) m l.
(** The key of the row is one a clean combination was written with. *)
Definition canonical (g : JobOutputs) : Prop := exists c, jo_MatrixKey g = matrixKey c /\ clean c.

Lemma fold_rows name l m : Forall canonical l -> NoDup (jo_MatrixKey <$> l) ->
  (forall g, g ∈ l -> m !! jo_MatrixKey g = None) -> fold_all (add_row name) m l = Ok (insert_rows m l).
Proof.
  intros Hl. revert m. induction Hl as [|g l (c & Hk & Hc) Hl IH]; intros m Hd Hm; simpl; [done|].
  inversion Hd as [|? ? Hin Hd']; subst. unfold add_row at 1. rewrite Hk, canonicalize_matrixKey by done. simpl.
  rewrite <-Hk, key_absent by (apply Hm; left). apply IH; [done|]. intros g' Hg'.
  rewrite lookup_insert_ne; [apply Hm; by right|]. intros E. apply Hin. rewrite E. by apply list_elem_of_fmap_2.
Qed.
Lemma insert_rows_lookup l m g : NoDup (jo_MatrixKey <$> l) -> g ∈ l -> insert_rows m l !! jo_MatrixKey g = Some (jo_Outputs g).
Proof.
  assert (Hold : forall l m k, k ∉ jo_MatrixKey <$> l -> insert_rows m l !! k = m !! k).
  { clear. induction l as [|g l IH]; intros m k Hk; simpl; [done|]. rewrite IH by set_solver.
    apply lookup_insert_ne. set_solver. }
  revert m. induction l as [|g0 l IH]; intros m Hd Hg; [set_solver|]. inversion Hd as [|? ? Hin Hd']; subst.
  apply elem_of_cons in Hg as [->|Hg]; simpl; [|by apply IH]. rewrite Hold by done. apply lookup_insert_eq.
Qed.

Definition named_rows (rows : list JobOutputs) (name : string) : list JobOutputs := filter (fun r => jo_Name r = name) rows.
Lemma group_rows_spec rows name :
  group_rows rows !! name = match named_rows rows name with [] => None | l => Some l end.
Proof.
  unfold group_rows, named_rows. induction rows as [|r rows IH] using rev_ind; [done|].
  rewrite foldl_app, filter_app, filter_cons, filter_nil. simpl.
  destruct (decide (jo_Name r = name)) as [<-|Hne].
  - rewrite lookup_insert_eq, IH. by destruct (filter _ rows).
  - rewrite lookup_insert_ne, IH by done. by rewrite app_nil_r.
Qed.

Definition successful (group : list JobOutputs) : list JobOutputs := filter (fun g => jo_Status g = StatusSuccess) group.
Definition well_keyed (group : list JobOutputs) : Prop :=
  Forall canonical (successful group) /\ NoDup (jo_MatrixKey <$> successful group).

(** The rows of a group with a matrix row all land in the matrix table. *)
Definition holds (matrix : MatrixNeedsOutputs) (p : string * list JobOutputs) : Prop :=
  forall g, g ∈ successful p.2 -> jo_MatrixKey g <> "" ->
    exists rm, matrix !! p.1 = Some rm /\ rm !! jo_MatrixKey g = Some (jo_Outputs g).

Lemma add_group_ok acc p : well_keyed p.2 -> exists acc', add_group acc p = Ok acc' /\ holds acc'.2 p /\
  forall n, n <> p.1 -> acc'.2 !! n = acc.2 !! n.
Proof.
  destruct p as [name group], acc as [plain matrix]. intros [Hc Hd]. simpl in *.
  assert (Hexp : forall l, successful group = l -> l <> [] -> exists acc',
            (rowMap ← fold_all (add_row name) ∅ l; Ok (plain, <[name := rowMap]> matrix)) = Ok acc' /\
            holds acc'.2 (name, group) /\ forall n, n <> name -> acc'.2 !! n = matrix !! n).
  { intros l <- _. rewrite fold_rows by done. eexists. split; [done|]. simpl. split.
    - intros g Hg _. exists (insert_rows ∅ (successful group)). rewrite lookup_insert_eq. split; [done|].
      by apply insert_rows_lookup.
    - intros n Hn. by apply lookup_insert_ne. }
  unfold add_group. fold (successful group). destruct (successful group) as [|g [|g' l]] eqn:E.
  - eexists. split; [done|]. split; [|done]. intros g Hg. simpl in Hg. rewrite E in Hg. set_solver.
  - case_decide as Hk; [|by apply Hexp]. eexists. split; [done|]. split; [|done].
    intros g' Hg'. simpl in Hg'. rewrite E in Hg'. apply list_elem_of_singleton in Hg' as ->. done.
  - by apply Hexp.
Qed.

Lemma fold_groups l acc : NoDup l.*1 -> Forall (fun p => well_keyed p.2) l ->
  exists acc', fold_all add_group acc l = Ok acc' /\ Forall (holds acc'.2) l /\
    forall n, n ∉ l.*1 -> acc'.2 !! n = acc.2 !! n.
Proof.
  intros Hd Hl. revert acc Hd. induction Hl as [|p l Hp Hl IH]; intros acc Hd; simpl; [by exists acc|].
  inversion Hd as [|? ? Hin Hd']; subst. destruct (add_group_ok acc p Hp) as (acc1 & -> & Hh & Ho).
  destruct (IH acc1 Hd') as (acc2 & -> & Hhs & Ho2). exists acc2. split; [done|]. split.
  - constructor; [|done]. intros g Hg Hk. destruct (Hh g Hg Hk) as (rm & Hrm & Hlk). exists rm. split; [|done]. by rewrite Ho2.
  - intros n [Hn Hnl]%not_elem_of_cons. rewrite Ho2 by done. by apply Ho.
Qed.

Lemma NoDup_named rows name : NoDup ((fun r => (jo_Name r, jo_MatrixKey r)) <$> rows) ->
  NoDup (jo_MatrixKey <$> successful (named_rows rows name)).
Proof.
  intros Hd. unfold successful, named_rows. induction rows as [|r rows IH]; [constructor|].
  simpl in Hd. apply NoDup_cons in Hd as [Hr Hd]. rewrite filter_cons. case_decide as Hn; [|auto].
  rewrite filter_cons. case_decide; [|auto]. simpl. constructor; [|auto]. intros (g & Hk & Hg)%list_elem_of_fmap.
  apply list_elem_of_filter in Hg as [_ [Hgn Hg]%list_elem_of_filter]. apply Hr. apply list_elem_of_fmap.
  exists g. split; [congruence|done].
Qed.

Lemma groupNeedsOutputs_ok rows : Forall canonical rows -> NoDup ((fun r => (jo_Name r, jo_MatrixKey r)) <$> rows) ->
  exists plain matrix, groupNeedsOutputs rows = Ok (plain, matrix) /\
    forall r, r ∈ rows -> jo_Status r = StatusSuccess -> jo_MatrixKey r <> "" ->
      exists rm, matrix !! jo_Name r = Some rm /\ rm !! jo_MatrixKey r = Some (jo_Outputs r).
Proof.
  intros Hc Hd. rewrite Forall_forall in Hc.
  destruct (fold_groups (range_map (group_rows rows)) (∅, ∅)) as ([plain matrix] & E & Hh & _).
  - apply NoDup_range_map.
  - apply Forall_forall. intros [name group] Hin%elem_of_range_map. simpl. rewrite group_rows_spec in Hin.
    assert (group = named_rows rows name) as -> by by destruct (named_rows rows name); simplify_eq. split.
    + apply Forall_forall. intros g [_ [_ Hg]%list_elem_of_filter]%list_elem_of_filter. by apply Hc.
    + by apply NoDup_named.
  - exists plain, matrix. split; [done|]. intros r Hr Hs Hk. rewrite Forall_forall in Hh.
    assert (Hrn : r ∈ named_rows rows (jo_Name r)) by by apply list_elem_of_filter.
    apply (Hh (jo_Name r, named_rows rows (jo_Name r))); [|by apply list_elem_of_filter|done].
    apply elem_of_range_map. rewrite group_rows_spec. by destruct (named_rows rows (jo_Name r)); [set_solver|].
Qed.
End Groups.

(** ** What the parser accepts *)

Lemma envname_bytes k : full_match outputEnvRE k = true -> k <> "" /\ all_bytes name_byte k = true.
Proof.
  rewrite full_match_spec. unfold outputEnvRE, envNamePattern, One, Star. inversion 1 as [| |? ? ? s1 ? Ha Hb| | | |]; subst.
  inversion Ha as [|? ? ? ? n1 ? ? Hlo Hhi H1| | | | |]; subst. inversion Hb as [|? ? ? ? n2 ? ? _ _ H2| | | | |]; subst.
  apply in_class_ascii in H1 as (t1 & -> & Hn & H1); [|done]. apply in_class_ascii in H2 as (t2 & -> & _ & H2); [|done].
  split.
  - destruct t1; [unfold slen in Hn; simpl in Hn; lia|done].
  - rewrite !all_bytes_app. simpl. rewrite andb_true_r. apply andb_true_iff. split; [|exact H2].
    eapply all_bytes_impl; [|exact H1]. intros c Hc. unfold name_byte, is_alnum. simpl in Hc.
    destruct (is_alpha c); [done|]. simpl in *. rewrite Hc. apply orb_true_r.
Qed.

Section Accepted.
Context `{MapRange, UnicodeCase}.

Lemma job_matrix_keyed jd pv m : job_matrix jd pv = Ok m -> keyed_matrix m.
Proof.
  intros Hm. apply job_matrix_inv in Hm as [->|[Hd Hn]]; [by intros k vs; rewrite lookup_empty|].
  intros k vs Hk. destruct (matrix_ok _ _ _ _ _ Hd Hn k vs Hk) as (_ & Hnd & _ & _ & Hf). split; [done|].
  pose proof (check_all_range_map _ _ _ _ Hn Hk) as Hname. unfold check_dim_name in Hname.
  destruct (full_match outputEnvRE k) eqn:E; [|done]. apply envname_bytes in E as [Hne Hb].
  eapply Forall_impl; [exact Hf|]. intros v Hv. done.
Qed.
Lemma toJob_matrix name jd pv j : toJob name jd pv = Ok j -> keyed_matrix (Job_Matrix j).
Proof.
  intros Hj. apply toJob_inv in Hj as (? & ? & ? & ? & ? & ? & Hj). cbv zeta in Hj. destruct Hj as [_ Hj].
  destruct (Approval jd).
  - destruct Hj as (? & -> & _). by intros k vs; simpl; rewrite lookup_empty.
  - destruct Hj as (? & ? & ? & m & -> & _ & _ & Hm). simpl. by eapply job_matrix_keyed.
Qed.

(** ** Properties *)

(** The rows of an accepted matrix job are its combinations, each once: a
    combination is created exactly when it takes one value of every dimension, and no
    two rows of the job share a matrix key. *)
Theorem matrix_rows_exact (name : string) (jd : JobDef) (pv : gmap string string) (j : Job) :
  toJob name jd pv = Ok j ->
  (forall c, c ∈ expandMatrix (Job_Matrix j) <->
     forall k, match default [] (Job_Matrix j !! k) with
               | [] => c !! k = None
               | vs => exists v, v ∈ vs /\ c !! k = Some v
               end) /\
  NoDup (matrixKey <$> expandMatrix (Job_Matrix j)).
Proof.
  intros Hj. split; [intros c; apply elem_of_expandMatrix|]. apply NoDup_keys. by eapply toJob_matrix.
Qed.

(** What a matrix row produced is found again by a selector that names its
    combination: with the rows of a run under distinct keys and values free of outer
    white space, grouping succeeds, keeps every successful matrix row under the key
    it was stored with, and any spelling of the combination - its pairs in any
    order, or the bare value of the only dimension - normalises to that key. *)
Theorem matrix_output_resolves (rows : list JobOutputs) :
  Forall canonical rows -> NoDup ((fun r => (jo_Name r, jo_MatrixKey r)) <$> rows) ->
  exists plain matrix, groupNeedsOutputs rows = Ok (plain, matrix) /\
  forall r c, r ∈ rows -> jo_Status r = StatusSuccess -> clean c -> c <> ∅ -> jo_MatrixKey r = matrixKey c ->
    (exists rm, matrix !! jo_Name r = Some rm /\ rm !! matrixKey c = Some (jo_Outputs r)) /\
    (forall l dims, l ≡ₚ map_to_list c -> (forall k, is_Some (c !! k) -> k ∈ dims) ->
       canonicalMatrixKey (Join (texts l) ",") dims = Ok (matrixKey c)) /\
    (forall d v, c = {[d := v]} -> canonicalMatrixKey v [d] = Ok (matrixKey c)).
Proof.
  intros Hc Hd. destruct (groupNeedsOutputs_ok rows Hc Hd) as (plain & matrix & E & Hr).
  exists plain, matrix. split; [done|]. intros r c Hin Hs Hcl Hne Hk. split_and!.
  - rewrite <-Hk. apply Hr; [done..|]. rewrite Hk, matrixKey_nonempty by done.
    destruct (join_texts_form (key_pairs c)) as (a & t & _ & _ & -> & _); [| |done].
    + eapply pairs_nonempty; eauto using key_pairs_perm.
    + eapply clean_Forall; eauto using key_pairs_perm.
  - intros l dims Hl Hdims. by apply select_pairs.
  - intros d v ->. destruct (Hcl d v) as (Hok & Hv & Ht); [apply lookup_singleton_eq|].
    cbn [fst snd] in *. unfold canonicalMatrixKey. cbv zeta. rewrite Ht, decide_False by done.
    assert (Contains v "=" = false) as ->.
    { destruct (Contains v "=") eqn:Ec; [|done]. apply Contains_spec in Ec as (t & u & ->). exfalso.
      destruct Hok as (_ & _ & Hok). pose proof (value_lacks _ _ "=" Hok eq_refl) as Hl. simpl in Hl. unfold lacks in Hl.
      rewrite all_bytes_app in Hl. apply andb_true_iff in Hl as [_ Hl]. done. }
    simpl. f_equal. rewrite matrixKey_nonempty by done.
    assert (key_pairs {[d := v]} = [(d, v)]) as ->; [|done].
    apply Permutation_singleton_r. rewrite key_pairs_perm. by rewrite map_to_list_singleton.
Qed.
End Accepted.

(** ** Examples *)

Definition matrix_job : Job := match parse_example "test" matrix_def ∅ with Ok j => j | Err _ => zero_job end.
Example matrix_expands :
  @matrixKey library_range <$> @expandMatrix library_range (Job_Matrix matrix_job)
  = ["GO=1.24,OS=linux"; "GO=1.24,OS=darwin"].
Proof. vm_compute. reflexivity. Qed.
Lemma matrix_rows_exact_witness :
  parse_example "test" matrix_def ∅ = Ok matrix_job /\
  NoDup (@matrixKey library_range <$> @expandMatrix library_range (Job_Matrix matrix_job)).
Proof.
  assert (Hp : parse_example "test" matrix_def ∅ = Ok matrix_job) by (vm_compute; reflexivity).
  split; [exact Hp|]. apply (@matrix_rows_exact library_range ascii_only_case "test" matrix_def ∅ matrix_job Hp).
Defined.

Definition linux : combo := {["OS" := "linux"; "GO" := "1.24"]}.
Definition linux_row : JobOutputs := {|
  jo_Name := "test"; jo_MatrixKey := @matrixKey library_range linux; jo_Status := StatusSuccess;
  jo_Outputs := {["bin" := "a.out"]};
|}.
Lemma linux_clean : clean linux.
Proof.
  intros k v Hv. unfold linux in Hv.
  apply lookup_insert_Some in Hv as [[<- <-]|[_ [<- <-]%lookup_singleton_Some]];
    unfold clean_pair, key_ok; simpl; split_and!; done || by vm_compute.
Qed.
Lemma matrix_output_resolves_witness :
  exists plain matrix, @groupNeedsOutputs library_range [linux_row] = Ok (plain, matrix) /\
    @canonicalMatrixKey library_range " OS=linux, GO=1.24" ["OS"; "GO"] = Ok (@matrixKey library_range linux) /\
    exists rm, matrix !! "test" = Some rm /\ rm !! @matrixKey library_range linux = Some {["bin" := "a.out"]}.
Proof.
  destruct (@matrix_output_resolves library_range [linux_row]) as (plain & matrix & E & Hr).
  - constructor; [|constructor]. exists linux. split; [reflexivity|exact linux_clean].
  - apply NoDup_singleton.
  - exists plain, matrix. split; [exact E|]. split; [vm_compute; reflexivity|].
    apply (Hr linux_row linux); [left|reflexivity|exact linux_clean|done|reflexivity].
Defined.

(** Values with outer white space, and the empty value, pass the parser and break
    every downstream job: their rows cannot be told apart, or read back at all. *)
Definition values_def (vs : list string) : JobDef :=
  mk_jobdef "test" "golang" "" (Some ["go test"]) None
    (Some {| P_Matrix := [{["OS" := vs]}]; P_Count := 0 |}) "" None ∅ None zero_node.
Definition values_rows (vs : list string) : result job_error (list JobOutputs) :=
  j ← parse_example "test" (values_def vs) ∅;
  Ok ((fun c => {| jo_Name := "test"; jo_MatrixKey := @matrixKey library_range c; jo_Status := StatusSuccess;
                   jo_Outputs := ∅ |}) <$> @expandMatrix library_range (Job_Matrix j)).
Example blank_values_break :
  (fun vs => @groupNeedsOutputs library_range <$> values_rows vs) <$> [["a"; "a "]; [""]]
  = [Ok (Err (DuplicateKey "test" "OS=a")); Ok (Err (MalformedKey "test" "OS=" (NotPair "OS=")))].
Proof. vm_compute. reflexivity. Qed.
