(* ===== verification/Refs.v ===== *)
(** [server/pkg/refs] and the scheduler's needs references ([scheduler/refs.go],
    [refs_deploy.go], [deploy_marker.go]): the substitution of [${{ ... }}] and
    [${VAR}] tokens, the version and the correlation anchor of a deploy. *)

From S2P Require Import Prelude GoStrings GoRegexp Domain CacheKey ParseHelpers ParseJob RunTables Matrix.

(** ** Patterns *)

Definition RefPattern : re :=
  Seq (Lit "${{") (Seq (Star space_class)
    (Seq (Group 1 (Rep not_brace_class false 1 None))
      (Seq (Star space_class) (Lit "}}")))).
Definition identPattern : re := envNamePattern.
Definition shellVarPattern : re := Seq (Lit "${") (Seq (Group 1 envNamePattern) (Lit "}")).

Definition job_class : cclass := class_of (fun c => is_alnum c || one_of "_-" c).
Definition not_bracket_class : cclass := {| ascii_in := fun c => negb (one_of "]" c); other_in := true |}.
Definition needsRefPattern : re :=
  Seq (Lit "needs.") (Seq (Group 1 (Plus job_class)) (Seq (Lit ".outputs.") (Group 2 outputAliasRE))).
Definition needsRefMatrixPattern : re :=
  Seq (Lit "needs.") (Seq (Group 1 (Plus job_class)) (Seq (Lit ".matrix[")
    (Seq (Group 2 (Plus not_bracket_class)) (Seq (Lit "].outputs.") (Group 3 outputAliasRE))))).

(** [FindStringSubmatch] of an anchored pattern. *)
Definition full_submatch (r : re) (s : string) : option captures :=
  match_at r s [] (fun s' caps => if decide (s' = "") then Some caps else None).
(** [FindStringSubmatch(match)[1]] of a match of the pattern. *)
Definition submatch_1 (r : re) (s : string) : string :=
  match FindAllSubmatch r s with caps :: _ => group caps 1 | [] => "" end.

(** ** [pkg/refs] *)

Definition nsVars : string := "vars.".
Definition nsSecrets : string := "secrets.".
Record Namespaces := { Vars : gmap string string; NS_Secrets : gmap string string }.
Definition no_namespaces : Namespaces := {| Vars := ∅; NS_Secrets := ∅ |}.

(** The first source that has the name. *)
Fixpoint lookup_sources (sources : list (gmap string string)) (name : string) : option string :=
  match sources with
  | [] => None
  | src :: sources => match src !! name with Some v => Some v | None => lookup_sources sources name end
  end.

(** What the callback does with one token: its value, or the list the body goes to. *)
Inductive resolution := Value (v : string) | Unresolved | Invalid.
#[export] Instance resolution_eq_dec : EqDecision resolution. Proof. solve_decision. Defined.
Definition found (o : option string) : resolution := match o with Some v => Value v | None => Unresolved end.
Definition resolve_ref (ns : Namespaces) (bareSources : list (gmap string string)) (body : string) : resolution :=
  match CutPrefix body nsVars with
  | Some name => if full_match identPattern name then found (Vars ns !! name) else Invalid
  | None =>
      match CutPrefix body nsSecrets with
      | Some name => if full_match identPattern name then found (NS_Secrets ns !! name) else Invalid
      | None => if full_match identPattern body then found (lookup_sources bareSources body) else Invalid
      end
  end.

Definition DedupeSorted (l : list string) : list string :=
  if decide (length l <= 1) then l else sort_strings (dedup l).

Inductive refs_error := UnsupportedRefs (bodies : list string) | UnresolvedRefs (bodies : list string).
#[export] Instance refs_error_eq_dec : EqDecision refs_error. Proof. solve_decision. Defined.

(** [ReplaceAllStringFunc]: plain text is kept, a match goes through [f]. *)
Fixpoint replace_pieces (f : string -> string) (l : list piece) : string :=
  match l with
  | [] => ""
  | Plain t :: l => t +:+ replace_pieces f l
  | Found t _ :: l => f t +:+ replace_pieces f l
  end.
Definition matched (l : list piece) : list string := omap (fun p => match p with Found t _ => Some t | Plain _ => None end) l.

Definition SubstituteRefsNS (s : string) (ns : Namespaces) (bareSources : list (gmap string string))
    : result refs_error string :=
  if negb (Contains s "${{") then Ok s
  else
    let l := FindAll RefPattern s in
    let bodies := submatch_1 RefPattern <$> matched l in
    let invalid := filter (fun b => resolve_ref ns bareSources b = Invalid) bodies in
    let unresolved := filter (fun b => resolve_ref ns bareSources b = Unresolved) bodies in
    let out := replace_pieces (fun t => match resolve_ref ns bareSources (submatch_1 RefPattern t) with
                                        | Value v => v | _ => t end) l in
    if decide (invalid <> []) then Err (UnsupportedRefs (DedupeSorted invalid))
    else if decide (unresolved <> []) then Err (UnresolvedRefs (DedupeSorted unresolved))
    else Ok out.
Definition SubstituteRefs (s : string) (sources : list (gmap string string)) : result refs_error string :=
  SubstituteRefsNS s no_namespaces sources.

Definition SubstituteShellVars (s : string) (sources : list (gmap string string)) : string :=
  if negb (Contains s "${") then s
  else replace_pieces (fun t => default t (lookup_sources sources (submatch_1 shellVarPattern t)))
         (FindAll shellVarPattern s).

Notation MatrixDimNames := (gmap string (list string)).

Section Maps.
Context `{MapRange}.

(** The map lifts: values in range order, the first error with its key. *)
Definition substitute_map {E} (f : string -> result E string) (in_ : gmap string string)
    : result (string * E) (gmap string string) :=
  if decide (in_ = ∅) then Ok in_
  else list_to_map <$> map_res (fun kv => v ← map_err (pair kv.1) (f kv.2); Ok (kv.1, v)) (range_map in_).
Definition SubstituteRefsNSMap (in_ : gmap string string) (ns : Namespaces) (bareSources : list (gmap string string)) :=
  substitute_map (fun v => SubstituteRefsNS v ns bareSources) in_.
Definition SubstituteRefsMap (in_ : gmap string string) (sources : list (gmap string string)) :=
  SubstituteRefsNSMap in_ no_namespaces sources.
Definition SubstituteShellVarsMap (in_ : gmap string string) (sources : list (gmap string string)) : gmap string string :=
  if decide (in_ = ∅) then in_ else (fun v => SubstituteShellVars v sources) <$> in_.

(** ** Needs references ([scheduler/refs.go]) *)

(** Each wraps [ErrNeedsRefUnresolved]; the lists are the bodies the message names.
    [SelectorBadShape] and [SelectorMissKey] print more of each, and sort and
    deduplicate what they print: here the bodies are in order of appearance. *)
Inductive needs_ref_error :=
| MissingJob (bodies : list string) | BareOnMatrix (bodies : list string) | SelectorOnPlain (bodies : list string)
| SelectorBadShape (bodies : list (string * key_error)) | SelectorMissKey (bodies : list string)
| MissingOutput (bodies : list string).
#[export] Instance needs_ref_error_eq_dec : EqDecision needs_ref_error. Proof. solve_decision. Defined.

(** The branches of the callback. *)
Inductive needs_resolution :=
| NR_Value (v : string) | NR_Other | NR_MissingJob | NR_BareOnMatrix | NR_SelectorOnPlain
| NR_BadShape (e : key_error) | NR_MissKey | NR_MissingOutput.
#[export] Instance needs_resolution_eq_dec : EqDecision needs_resolution. Proof. solve_decision. Defined.

Definition alias_value (outputs : combo) (alias : string) : needs_resolution :=
  match outputs !! alias with Some v => NR_Value v | None => NR_MissingOutput end.
Definition resolve_needs (needs : NeedsOutputs) (matrix : MatrixNeedsOutputs) (dims : MatrixDimNames) (body : string)
    : needs_resolution :=
  match full_submatch needsRefMatrixPattern body with
  | Some mm =>
      let jobName := group mm 1 in
      match matrix !! jobName with
      | None => if has_key needs jobName then NR_SelectorOnPlain else NR_MissingJob
      | Some rows =>
          match canonicalMatrixKey (group mm 2) (default [] (dims !! jobName)) with
          | Err e => NR_BadShape e
          | Ok canon => match rows !! canon with
                        | None => NR_MissKey
                        | Some rowOutputs => alias_value rowOutputs (group mm 3)
                        end
          end
      end
  | None =>
      match full_submatch needsRefPattern body with
      | None => NR_Other
      | Some m =>
          match needs !! group m 1 with
          | None => if has_key matrix (group m 1) then NR_BareOnMatrix else NR_MissingJob
          | Some outputs => alias_value outputs (group m 2)
          end
      end
  end.

Section Needs.
Context (needs : NeedsOutputs) (matrix : MatrixNeedsOutputs) (dims : MatrixDimNames).

Definition bodies_with (r : needs_resolution) (bodies : list string) : list string :=
  filter (fun b => resolve_needs needs matrix dims b = r) bodies.
(** The switch after the pass. *)
Definition needs_errors (bodies : list string) : option needs_ref_error :=
  let bad := omap (fun b => match resolve_needs needs matrix dims b with NR_BadShape e => Some (b, e) | _ => None end) bodies in
  if decide (bodies_with NR_MissingJob bodies <> []) then Some (MissingJob (DedupeSorted (bodies_with NR_MissingJob bodies)))
  else if decide (bodies_with NR_BareOnMatrix bodies <> [])
       then Some (BareOnMatrix (DedupeSorted (bodies_with NR_BareOnMatrix bodies)))
  else if decide (bodies_with NR_SelectorOnPlain bodies <> [])
       then Some (SelectorOnPlain (DedupeSorted (bodies_with NR_SelectorOnPlain bodies)))
  else if decide (bad <> []) then Some (SelectorBadShape bad)
  else if decide (bodies_with NR_MissKey bodies <> []) then Some (SelectorMissKey (bodies_with NR_MissKey bodies))
  else if decide (bodies_with NR_MissingOutput bodies <> [])
       then Some (MissingOutput (DedupeSorted (bodies_with NR_MissingOutput bodies)))
  else None.

Definition substituteNeedsRefs (s : string) : result needs_ref_error string :=
  if negb (Contains s "${{") then Ok s
  else if negb (Contains s "needs.") then Ok s
  else
    let l := FindAll RefPattern s in
    match needs_errors (submatch_1 RefPattern <$> matched l) with
    | Some e => Err e
    | None => Ok (replace_pieces (fun t => match resolve_needs needs matrix dims (submatch_1 RefPattern t) with
                                           | NR_Value v => v | _ => t end) l)
    end.
Definition substituteNeedsRefsMap (in_ : gmap string string) : result (string * needs_ref_error) (gmap string string) :=
  substitute_map substituteNeedsRefs in_.

(** ** Deploy markers ([refs_deploy.go], [deploy_marker.go]) *)

Definition leftoverCIShellRE : re := Seq (Lit "${CI_") (Seq (Star not_brace_class) (Lit "}")).
Inductive version_error :=
| VersionNeeds (e : needs_ref_error) | VersionRefs (e : refs_error) | VersionLeftover   (* ErrDeployVersionUnresolved *)
| VersionEmpty.                                                                         (* ErrDeployVersionEmpty *)

Definition resolveDeployVersion (raw : string) (vars ciVars : gmap string string) : result version_error string :=
  v ← map_err VersionNeeds (substituteNeedsRefs raw);
  v ← map_err VersionRefs (SubstituteRefsNS v {| Vars := vars; NS_Secrets := ∅ |} [ciVars]);
  let v := SubstituteShellVars v [ciVars] in
  if decide (matched (FindAll leftoverCIShellRE v) <> []) then Err VersionLeftover else Ok v.

Definition resolveDeployMarkerVersion (d : DeploySpec) (vars ciVars : gmap string string) : result version_error string :=
  version ← (if decide (Deploy_Version d = "") then Ok (default "" (ciVars !! "CI_COMMIT_SHORT_SHA"))
             else resolveDeployVersion (Deploy_Version d) vars ciVars);
  if decide (version = "") then Err VersionEmpty else Ok version.
End Needs.

Definition buildMatrixDims (def : Pipeline) (matrix : MatrixNeedsOutputs) : MatrixDimNames :=
  map_imap (fun upstreamName _ =>
    upstream ← list_find (fun j => Job_Name j = upstreamName) (Jobs def);
    if decide (Job_Matrix upstream.2 = ∅) then None else Some (sorted_keys (Job_Matrix upstream.2))) matrix.
End Maps.

Section Anchor.
Context `{UnicodeCase}.
Definition hex_class : cclass := class_of (fun c => is_digit c || byte_between 97 102 c || byte_between 65 70 c).
Definition fullSHARE : re := Rep hex_class true 40 (Some 40).
Definition hexShaRE : re := Rep hex_class true 4 (Some 40).

Definition resolveAnchor (candidate run : string) : option string :=
  if full_match fullSHARE candidate then Some candidate
  else if full_match hexShaRE candidate && negb (bool_decide (run = "")) && HasPrefix run candidate then Some run
  else None.
(** [None] is [ErrDeployRevisionNotCorrelatable]. *)
Definition correlationRevision (version revision runCommit : string) : option string :=
  let run := ToLower (TrimSpace runCommit) in
  let run := if full_match fullSHARE run then run else "" in
  let rev := ToLower (TrimSpace revision) in
  let v := ToLower (TrimSpace version) in
  if decide (rev <> "") then resolveAnchor rev run
  else if full_match hexShaRE v then resolveAnchor v run
  else if decide (run = "") then None else Some run.
End Anchor.

(** ** The lifts to maps *)

Section MapLift.
Context `{MapRange} {E : Type} (f : string -> result E string).

Lemma substitute_map_Ok m m' : substitute_map f m = Ok m' ->
  forall k, match m !! k with Some v => exists v', f v = Ok v' /\ m' !! k = Some v' | None => m' !! k = None end.
Proof.
  unfold substitute_map. case_decide as Hm; [intros [= <-] k; by rewrite Hm, lookup_empty|].
  destruct (map_res _ _) as [l|] eqn:E1; [|done]. intros [= <-] k. apply map_res_Forall2 in E1.
  assert (Hrow : Forall2 (fun kv kv' => kv.1 = kv'.1 /\ f kv.2 = Ok kv'.2) (range_map m) l).
  { eapply Forall2_impl; [exact E1|]. intros [k1 v1] [k2 v2] H1. simpl in *. destruct (f v1); [|done]. by injection H1 as -> ->. }
  assert (Hkeys : l.*1 = (range_map m).*1).
  { clear E1. induction Hrow as [|[k1 v1] [k2 v2] l1 l2 [H1 _] _ IH]; [done|]. simpl in *. f_equal; [by symmetry|exact IH]. }
  assert (Hd : NoDup l.*1) by (rewrite Hkeys; apply NoDup_range_map).
  destruct (m !! k) as [v|] eqn:Hk.
  - apply elem_of_range_map in Hk. destruct (Forall2_member_l _ _ _ _ Hrow Hk) as ([k2 v'] & Hin & H1 & H2). simpl in *. subst k2.
    exists v'. split; [done|]. by apply elem_of_list_to_map.
  - apply not_elem_of_list_to_map. rewrite Hkeys, list_elem_of_fmap. intros ([k2 v] & -> & Hin%elem_of_range_map). simpl in *. congruence.
Qed.
Lemma substitute_map_lookup m m' k v' : substitute_map f m = Ok m' ->
  m' !! k = Some v' <-> exists v, m !! k = Some v /\ f v = Ok v'.
Proof.
  intros Hm. pose proof (substitute_map_Ok m m' Hm k) as Hk. destruct (m !! k) as [v|].
  - destruct Hk as (v1 & Hf & ->). split; [intros [= <-]; eauto|]. intros (w & [= <-] & Hw). congruence.
  - rewrite Hk. split; [done|]. by intros (? & ? & _).
Qed.
(** The error is that of some value, under its key. *)
Lemma substitute_map_Err m k e : substitute_map f m = Err (k, e) -> exists v, m !! k = Some v /\ f v = Err e.
Proof.
  unfold substitute_map. case_decide; [done|]. assert (Hl : forall kv, kv ∈ range_map m -> m !! kv.1 = Some kv.2).
  { intros [k1 v1]. apply elem_of_range_map. }
  revert Hl. induction (range_map m) as [|[k1 v1] l IH]; intros Hl; simpl; [done|].
  destruct (f v1) as [v'|e1] eqn:Ef; simpl.
  - destruct (map_res _ l) as [l'|e2] eqn:El; simpl; [done|]. intros [= ->]. apply IH; [|done]. intros kv Hin. apply Hl. by right.
  - intros [= -> ->]. exists v1. split; [|done]. apply (Hl (k, v1)). left.
Qed.
End MapLift.

(** ** A substitution is decided by the names it mentions *)

(** The bodies of the references of a text. *)
Definition ref_bodies (s : string) : list string :=
  if Contains s "${{" then submatch_1 RefPattern <$> matched (FindAll RefPattern s) else [].

Lemma elem_of_matched l t : t ∈ matched l <-> exists caps, Found t caps ∈ l.
Proof.
  unfold matched. rewrite list_elem_of_omap. split.
  - intros ([p|p caps] & Hin & H); simpl in H; simplify_eq. eauto.
  - intros (caps & H). by exists (Found t caps).
Qed.
Lemma replace_pieces_ext f g l : (forall t, t ∈ matched l -> f t = g t) -> replace_pieces f l = replace_pieces g l.
Proof.
  induction l as [|[t|t caps] l IH]; intros H; simpl; [done| |].
  - f_equal. by apply IH.
  - f_equal; [apply H; left|]. apply IH. intros t' Ht'. apply H. by right.
Qed.
Lemma filter_ext_in {A} (P Q : A -> Prop) `{forall x, Decision (P x), forall x, Decision (Q x)} (l : list A) :
  (forall x, x ∈ l -> P x <-> Q x) -> filter P l = filter Q l.
Proof.
  induction l as [|x l IH]; intros H1; [done|]. rewrite !filter_cons.
  assert (Hx : P x <-> Q x) by (apply H1; left). rewrite IH by (intros y Hy; apply H1; by right).
  repeat case_decide; tauto || done.
Qed.

Section Locality.
Context (s : string).

Lemma ref_bodies_found : Contains s "${{" = true -> ref_bodies s = submatch_1 RefPattern <$> matched (FindAll RefPattern s).
Proof. intros H. unfold ref_bodies. by rewrite H. Qed.

(** Equal resolutions of the bodies, equal results; resolutions of the same kind,
    equal errors. *)
Definition same_kind (r r' : resolution) : Prop :=
  match r, r' with
  | Value _, Value _ | Unresolved, Unresolved | Invalid, Invalid => True
  | _, _ => False
  end.
Definition same_error {E A} (r r' : result E A) : Prop :=
  match r, r' with Ok _, Ok _ => True | Err e, Err e' => e = e' | _, _ => False end.

Lemma substitute_kinds ns bare ns' bare' :
  (forall b, b ∈ ref_bodies s -> same_kind (resolve_ref ns bare b) (resolve_ref ns' bare' b)) ->
  same_error (SubstituteRefsNS s ns bare) (SubstituteRefsNS s ns' bare').
Proof.
  unfold SubstituteRefsNS. destruct (Contains s "${{") eqn:Hc; [|done]. rewrite (ref_bodies_found Hc).
  set (l := FindAll RefPattern s). set (bs := submatch_1 RefPattern <$> matched l). intros H. cbn [negb]. cbv zeta.
  assert (Hi : filter (fun b => resolve_ref ns bare b = Invalid) bs = filter (fun b => resolve_ref ns' bare' b = Invalid) bs).
  { apply filter_ext_in. intros b Hb. specialize (H b Hb). by destruct (resolve_ref ns bare b), (resolve_ref ns' bare' b). }
  assert (Hu : filter (fun b => resolve_ref ns bare b = Unresolved) bs = filter (fun b => resolve_ref ns' bare' b = Unresolved) bs).
  { apply filter_ext_in. intros b Hb. specialize (H b Hb). by destruct (resolve_ref ns bare b), (resolve_ref ns' bare' b). }
  rewrite Hi, Hu. by repeat case_decide.
Qed.
Lemma substitute_local ns bare ns' bare' :
  (forall b, b ∈ ref_bodies s -> resolve_ref ns bare b = resolve_ref ns' bare' b) ->
  SubstituteRefsNS s ns bare = SubstituteRefsNS s ns' bare'.
Proof.
  intros H. pose proof (substitute_kinds ns bare ns' bare') as Hk.
  assert (Hkind : forall b, b ∈ ref_bodies s -> same_kind (resolve_ref ns bare b) (resolve_ref ns' bare' b)).
  { intros b Hb. rewrite (H b Hb). by destruct (resolve_ref ns' bare' b). }
  specialize (Hk Hkind). destruct (SubstituteRefsNS s ns bare) as [o|e] eqn:E, (SubstituteRefsNS s ns' bare') as [o'|e'] eqn:E';
    simpl in Hk; [|done|done|by subst].
  revert E E'. unfold SubstituteRefsNS. destruct (Contains s "${{") eqn:Hc; [|by intros [= <-] [= <-]].
  cbn [negb]. cbv zeta. repeat (case_decide; try done). intros [= <-] [= <-]. f_equal. apply replace_pieces_ext.
  intros t Ht. rewrite H; [done|]. rewrite (ref_bodies_found Hc). apply list_elem_of_fmap. eauto.
Qed.
End Locality.

(** Two sets of sources that an observer of the names in [bodies] relates by [R]. *)
Record related (R : option string -> option string -> Prop) (bodies : list string)
    (ns : Namespaces) (bare : list (gmap string string)) (ns' : Namespaces) (bare' : list (gmap string string)) : Prop := {
  rl_vars : forall n, nsVars +:+ n ∈ bodies -> R (Vars ns !! n) (Vars ns' !! n);
  rl_secrets : forall n, nsSecrets +:+ n ∈ bodies -> R (NS_Secrets ns !! n) (NS_Secrets ns' !! n);
  rl_bare : forall n, n ∈ bodies -> full_match identPattern n = true -> R (lookup_sources bare n) (lookup_sources bare' n);
}.
Definition both_or_none {A} (o o' : option A) : Prop := is_Some o <-> is_Some o'.

Lemma resolve_related R bodies ns bare ns' bare' b : related R bodies ns bare ns' bare' -> b ∈ bodies ->
  resolve_ref ns bare b = resolve_ref ns' bare' b \/
  exists o o', R o o' /\ resolve_ref ns bare b = found o /\ resolve_ref ns' bare' b = found o'.
Proof.
  intros [Hv Hs Hb] Hin. unfold resolve_ref. destruct (CutPrefix b nsVars) as [n|] eqn:E.
  { apply CutPrefix_spec in E as ->. destruct (full_match identPattern n); [right|by left]. eauto 6. }
  destruct (CutPrefix b nsSecrets) as [n|] eqn:E'.
  { apply CutPrefix_spec in E' as ->. destruct (full_match identPattern n); [right|by left]. eauto 6. }
  destruct (full_match identPattern b) eqn:Ei; [right|by left]. eauto 6.
Qed.

(** The text of the pieces is the input. *)
Lemma RefPattern_shorter u s' caps : prefix_match RefPattern u = Some (s', caps) -> slen s' < slen u.
Proof.
  intros H. apply prefix_match_runs in H. unfold RefPattern in H. inversion H as [| |a b ? ? s1 ? ? ? Ha Hb| | | |]; subst.
  inversion Ha; subst. apply runs_suffix in Hb as [t Ht]. rewrite slen_app, Ht, slen_app.
  enough (0 < slen "${{") by lia. vm_compute. lia.
Qed.
Lemma FindAll_text s : text_of (FindAll RefPattern s) = s.
Proof. unfold FindAll. rewrite find_all_text; [done|lia|apply RefPattern_shorter]. Qed.

(** ** The parser's allow-list and the resolver agree *)

(** A lazy repetition stops at the first place where the rest matches, so a bound
    only matters when that place is beyond it. *)
Lemma lazy_bound {X} fuel c lo h s (k : string -> option X) :
  match_rep fuel c false lo (Some h) s k = match_rep fuel c false lo None s k \/
  exists n s' x, h < n /\ in_class c n s s' /\ match_rep fuel c false lo None s k = Some x /\ k s' = Some x.
Proof.
  revert lo h s. induction fuel as [|fuel IH]; intros lo h s.
  { left. simpl. destruct lo; by destruct h. }
  assert (Hmore : match h with 0 => None | S h => match take_class c s with
                    | Some s' => match_rep fuel c false (pred lo) (Some h) s' k | None => None end end =
                  match take_class c s with
                  | Some s' => match_rep fuel c false (pred lo) None s' k | None => None end \/
                  exists n s' x, h < n /\ in_class c n s s' /\
                    match take_class c s with
                    | Some s' => match_rep fuel c false (pred lo) None s' k | None => None end = Some x /\ k s' = Some x).
  { destruct (take_class c s) as [s1|] eqn:Ht; [|left; by destruct h]. destruct h as [|h].
    - destruct (match_rep fuel c false (pred lo) None s1 k) as [x|] eqn:E; [right|by left].
      apply match_rep_sound in E as (n & s' & _ & _ & Hin & Hk). exists (S n), s', x. split_and!; [lia|by econstructor|done..].
    - destruct (IH (pred lo) h s1) as [E|(n & s' & x & Hlt & Hin & E & Hk)]; [by left|right].
      exists (S n), s', x. split_and!; [lia|by econstructor|done..]. }
  destruct lo as [|lo]; simpl.
  - destruct (k s) as [x|] eqn:Hk; [by left|]. by destruct h.
  - by destruct h.
Qed.
(** Without the bound there are only more matches. *)
Lemma bound_some {X} fuel c lo h s (k : string -> option X) :
  slen s <= fuel -> is_Some (match_rep fuel c false lo (Some h) s k) -> is_Some (match_rep fuel c false lo None s k).
Proof.
  intros Hf. rewrite !match_rep_spec by done. intros (n & s' & H1 & _ & H3 & H4). exists n, s'. split_and!; [done|done|done|done].
Qed.

(** Two continuations that agree unless the second reaches [P]: so do the matches. *)
Definition agree_or {X} (P : X -> Prop) (o1 o2 : option X) : Prop := o1 = o2 \/ exists x, o2 = Some x /\ P x.
Lemma agree_or_first {X} (P : X -> Prop) o1 o2 p1 p2 : agree_or P o1 o2 -> agree_or P p1 p2 ->
  agree_or P (match o1 with Some x => Some x | None => p1 end) (match o2 with Some x => Some x | None => p2 end).
Proof. intros [->|(x & -> & Hx)] Hp; [|right; eauto]. by destruct o2; [left|]. Qed.
Lemma match_rep_agree {X} (P : X -> Prop) k1 k2 fuel c g lo hi s :
  (forall t, agree_or P (k1 t) (k2 t)) -> agree_or P (match_rep fuel c g lo hi s k1) (match_rep fuel c g lo hi s k2).
Proof.
  intros Hk. revert lo hi s. induction fuel as [|fuel IH]; intros lo hi s.
  { cbn [match_rep]. assert (agree_or P None None) by by left. destruct lo; [|done].
    destruct g; [apply Hk|by apply (agree_or_first P _ _ None None)]. }
  assert (Hmore : agree_or P
    (match hi with Some 0 => None | _ => match take_class c s with
       Some s' => match_rep fuel c g (pred lo) (pred <$> hi) s' k1 | None => None end end)
    (match hi with Some 0 => None | _ => match take_class c s with
       Some s' => match_rep fuel c g (pred lo) (pred <$> hi) s' k2 | None => None end end)).
  { destruct hi as [[|h]|]; [by left| |]; (destruct (take_class c s); [apply IH|by left]). }
  cbn [match_rep]. destruct lo; [|exact Hmore]. destruct g; by apply agree_or_first.
Qed.

Definition ref_tail : re := Seq (Star space_class) (Lit "}}").
(** A match of the unbounded pattern is the bounded one's, or its body is longer
    than the bound. *)
Lemma bounded_agree u :
  agree_or (fun x : string * captures => 256 < slen (group x.2 1)) (prefix_match deployVersionRefRE u) (prefix_match RefPattern u).
Proof.
  unfold prefix_match, deployVersionRefRE, RefPattern. cbn [match_at].
  destruct (CutPrefix u "${{") as [u1|]; [|by left].
  apply match_rep_agree. intros t. cbn [match_at].
  match goal with |- agree_or _ (match_rep _ _ _ _ _ _ ?k) _ => destruct (lazy_bound (slen t) not_brace_class 1 256 t k) as [E|(n & t' & x & Hn & Hin & E & Hk)] end;
    [by left|right]. exists x. split; [exact E|].
  apply match_rep_sound in Hk as (m & v & _ & _ & _ & Hv).
  destruct (CutPrefix v "}}") as [w|]; [|done]. injection Hv as <-. simpl. change (group _ 1) with (consumed t t').
  pose proof (in_class_slen _ _ _ _ Hin). destruct (in_class_suffix _ _ _ _ Hin) as [b ->]. rewrite consumed_app, slen_app in *. lia.
Qed.

Definition short_captures (p : piece) : Prop :=
  match p with Found _ caps => slen (group caps 1) <= 256 | Plain _ => True end.
Lemma find_all_agree fuel plain s : Forall short_captures (find_all fuel RefPattern plain s) ->
  find_all fuel deployVersionRefRE plain s = find_all fuel RefPattern plain s.
Proof.
  revert plain s. induction fuel as [|fuel IH]; intros plain s; [done|]. cbn [find_all].
  intros Hs. destruct (bounded_agree s) as [E|([s' caps] & E & Hlong)]; rewrite E in *.
  - destruct (prefix_match RefPattern s) as [[s' caps]|].
    + rewrite IH; [done|]. case_decide; [by apply Forall_cons in Hs as [_ Hs]|].
      apply Forall_cons in Hs as [_ Hs]. by apply Forall_cons in Hs as [_ Hs].
    + destruct s; [done|]. by apply IH.
  - exfalso. simpl in Hlong. assert (Hin : short_captures (Found (consumed s s') caps)).
    { eapply Forall_forall; [exact Hs|]. case_decide; [left|right; left]. }
    simpl in Hin. lia.
Qed.

(** The callback's second match of the matched text gives the groups of the first. *)
Lemma RefPattern_ends u t s' caps : prefix_match RefPattern u = Some (s', caps) -> u = t +:+ s' -> ends_ascii t = true.
Proof.
  intros H ->. apply prefix_match_runs in H. unfold RefPattern in H.
  inversion H as [| |? ? ? s1 ? ? c1 ? Ha Hb| | | |]; subst.
  inversion Hb as [| |? ? ? s2 ? ? c2 ? Hc Hd| | | |]; subst.
  inversion Hd as [| |? ? ? s3 ? ? c3 ? He Hf| | | |]; subst.
  inversion Hf as [| |? ? ? s4 ? ? c4 ? Hg Hh| | | |]; subst. inversion Hh; subst. clear Hd Hf Hh.
  apply runs_suffix in Ha as [p Hp]. apply runs_suffix in Hc as [q ->]. apply runs_suffix in He as [r ->].
  apply runs_suffix in Hg as [v ->].
  assert (t = ((((p +:+ q) +:+ r) +:+ v) +:+ "}}")) as ->.
  { apply (app_inv_tail_s s'). rewrite Hp, !app_assoc_s. done. }
  by apply ends_ascii_app.
Qed.

Lemma body_captures s t caps : Found t caps ∈ FindAll RefPattern s -> submatch_1 RefPattern t = group caps 1.
Proof.
  intros H. apply find_all_matches in H as [s' Hm].
  assert (Hp : prefix_match RefPattern t = Some ("", caps)) by by eapply rematch, RefPattern_ends.
  unfold submatch_1, FindAllSubmatch, FindAll. cbn [find_all]. rewrite Hp. by rewrite decide_True.
Qed.
Lemma elem_of_ref_bodies s b : b ∈ ref_bodies s <->
  Contains s "${{" = true /\ exists t caps, Found t caps ∈ FindAll RefPattern s /\ b = group caps 1.
Proof.
  unfold ref_bodies. destruct (Contains s "${{"); [|split; [by intros ?%elem_of_nil|by intros []]].
  rewrite list_elem_of_fmap. split.
  - intros (t & -> & (caps & Ht)%elem_of_matched). split; [done|]. exists t, caps. split; [done|]. by eapply body_captures.
  - intros (_ & t & caps & Ht & ->). exists t. split; [symmetry; by eapply body_captures|]. apply elem_of_matched. eauto.
Qed.

(** The references the parser reads are the ones substitution reads. *)
Lemma parsed_bodies s b : Forall (fun b => slen b <= 256) (ref_bodies s) -> b ∈ ref_bodies s ->
  exists caps, caps ∈ FindAllSubmatch deployVersionRefRE s /\ b = group caps 1.
Proof.
  intros Hs Hb. pose proof Hb as (Hc & t & caps & Ht & ->)%elem_of_ref_bodies. exists caps. split; [|done].
  unfold FindAllSubmatch, FindAll. rewrite find_all_agree.
  - apply list_elem_of_omap. by exists (Found t caps).
  - apply Forall_forall. intros [p|t' caps'] Hp; simpl; [done|].
    rewrite Forall_forall in Hs. apply Hs. apply elem_of_ref_bodies. eauto.
Qed.

Lemma full_submatch_spec r s : is_Some (full_submatch r s) <-> matches r s "".
Proof.
  unfold full_submatch. rewrite match_at_spec.
  - split; [|intros H; exists ""; by rewrite decide_True]. intros (s' & H & Hs). case_decide; [by subst|by destruct Hs].
  - intros s' c1 c2. case_decide; [by split; eauto|done].
Qed.
Lemma in_class_mono c d n s s' : (forall t u, take_class c t = Some u -> take_class d t = Some u) ->
  in_class c n s s' -> in_class d n s s'.
Proof. intros H. induction 1; eauto with gocd. Qed.

Lemma ok_forms b : full_match deployVersionRefOK b = true ->
  matches needsRefPattern b "" \/
  (exists n, b = nsVars +:+ n /\ full_match identPattern n = true) \/
  (full_match identPattern b = true /\ CutPrefix b nsVars = None /\ CutPrefix b nsSecrets = None).
Proof.
  rewrite full_match_spec. unfold deployVersionRefOK. inversion 1 as [| | | | | |? ? ? ? Ha]; subst.
  inversion Ha as [| | |? ? ? ? Hb|? ? ? ? Hb| |]; subst.
  - left. inversion Hb as [| |? ? ? ? ? Hl Hc| | | |]; subst. inversion Hc as [| |? ? ? ? ? Hj Hd| | | |]; subst.
    inversion Hd as [| |? ? ? ? ? Ho He| | | |]; subst. unfold needsRefPattern. repeat (econstructor; eauto).
  - right. inversion Hb as [| | |? ? ? ? Hc|? ? ? ? Hc| |]; subst; inversion Hc as [| |? ? ? ? ? Hl Hr| | | |]; subst; inversion Hl; subst.
    + right. split_and!; [|done..]. apply full_match_spec. inversion Hr as [|? ? ? ? n ? ? H1 H2 H3| | | | |]; subst.
      econstructor; [eapply (matches_Rep _ _ _ _ 1); [done|by intros ? [= <-]|by econstructor; [vm_compute; reflexivity|constructor]]|].
      eapply (matches_Rep _ _ _ _ (2 + n)); [lia|done|].
      econstructor; [vm_compute; reflexivity|]. econstructor; [vm_compute; reflexivity|].
      eapply in_class_mono; [|exact H3]. intros [|c t] u; [done|]. simpl. destruct (code c <? 128)%nat; [|done].
      unfold is_alnum, is_alpha. destruct (is_upper c), (is_lower c), (is_digit c), (one_of "_" c); simpl; done.
    + left. eexists. split; [done|]. by apply full_match_spec.
Qed.

(** ** Properties *)

Lemma elem_of_DedupeSorted l b : b ∈ DedupeSorted l <-> b ∈ l.
Proof. unfold DedupeSorted. case_decide; [done|]. by rewrite elem_of_sort_strings, elem_of_dedup. Qed.
Lemma DedupeSorted_nil l : DedupeSorted l = [] -> l = [].
Proof. destruct l as [|b l]; [done|]. intros H. assert (b ∈ DedupeSorted (b :: l)) as Hb by (apply elem_of_DedupeSorted; left). rewrite H in Hb. by apply elem_of_nil in Hb. Qed.
Lemma filter_nil_none {A} (P : A -> Prop) `{forall x, Decision (P x)} l x : filter P l = [] -> x ∈ l -> ~ P x.
Proof. intros H1 Hx HP. assert (Hin : x ∈ filter P l) by by apply list_elem_of_filter. rewrite H1 in Hin. by apply elem_of_nil in Hin. Qed.

(** substitution leaks nothing - sources that agree on the names a text mentions
    give equal results, so a value no reference names cannot reach the output; and
    sources that only have the same names give the same error, so an error message
    says nothing of any value. *)
Theorem refs_noninterference (s : string) (ns ns' : Namespaces) (bare bare' : list (gmap string string)) :
  (related eq (ref_bodies s) ns bare ns' bare' -> SubstituteRefsNS s ns bare = SubstituteRefsNS s ns' bare') /\
  (related both_or_none (ref_bodies s) ns bare ns' bare' ->
     same_error (SubstituteRefsNS s ns bare) (SubstituteRefsNS s ns' bare')).
Proof.
  split; intros H.
  - apply substitute_local. intros b Hb. by destruct (resolve_related eq _ _ _ _ _ _ H Hb) as [|(o & ? & <- & -> & ->)].
  - apply substitute_kinds. intros b Hb.
    destruct (resolve_related both_or_none _ _ _ _ _ _ H Hb) as [->|(o & o' & [Ho Ho'] & -> & ->)];
      [by destruct (resolve_ref ns' bare' b)|].
    destruct o, o'; simpl; try done; [by destruct Ho as [? ?]; eauto|by destruct Ho' as [? ?]; eauto].
Qed.

(** a version or revision the parser accepts is one that dispatch can resolve -
    each of its references, up to 256 bytes, is an upstream output the needs pass
    handles, a variable looked up in the variables alone, or a platform variable
    looked up in the bare sources; none is refused as unsupported, and none reads a
    secret. *)
Theorem accepted_refs_resolve `{MapRange} (bad : string -> job_error) (s b : string) :
  check_refs bad s = Ok tt -> Forall (fun b => slen b <= 256) (ref_bodies s) -> b ∈ ref_bodies s ->
  (forall needs matrix dims, resolve_needs needs matrix dims b <> NR_Other) \/
  (exists n, b = nsVars +:+ n /\ forall ns bare, resolve_ref ns bare b = found (Vars ns !! n)) \/
  (forall ns bare, resolve_ref ns bare b = found (lookup_sources bare b)).
Proof.
  intros Hok Hs Hb. destruct (parsed_bodies s b Hs Hb) as (caps & Hin & ->).
  unfold check_refs in Hok. rewrite check_all_Ok, Forall_forall in Hok. specialize (Hok caps Hin). simpl in Hok.
  destruct (full_match deployVersionRefOK (group caps 1)) eqn:Hm; [|done].
  apply ok_forms in Hm as [Hn|[(n & -> & Hn)|(Hi & Hv & Hsec)]].
  - left. intros needs matrix dims. apply full_submatch_spec in Hn as [c Hc]. unfold resolve_needs, alias_value. rewrite Hc.
    repeat case_match; congruence.
  - right; left. exists n. split; [done|]. intros ns bare. unfold resolve_ref.
    by rewrite (proj2 (CutPrefix_spec _ _ _) eq_refl), Hn.
  - right; right. intros ns bare. unfold resolve_ref. by rewrite Hv, Hsec, Hi.
Qed.

Lemma full_is_hex v : full_match fullSHARE v = true -> full_match hexShaRE v = true.
Proof.
  rewrite !full_match_spec. inversion 1 as [|? ? ? ? n ? ? H1 H2 H3| | | | |]; subst.
  specialize (H2 40 eq_refl). apply (matches_Rep _ _ _ _ n); [lia| |done]. intros h [= <-]. lia.
Qed.

(** the anchor that correlates a deploy is always a full 40-digit hexadecimal
    commit, and it extends what the operator wrote: the explicit revision, else a
    version that looks like a commit, else it is the run's own commit; an
    abbreviation is only ever expanded to the run's commit, and the resolution fails
    only when the field that decides is no full commit either. *)
Theorem correlationRevision_post `{UnicodeCase} (version revision runCommit : string) :
  let run := ToLower (TrimSpace runCommit) in
  let rev := ToLower (TrimSpace revision) in
  let v := ToLower (TrimSpace version) in
  match correlationRevision version revision runCommit with
  | Some anchor =>
      full_match fullSHARE anchor = true /\ (anchor = run \/ anchor = rev \/ anchor = v) /\
      (rev <> "" -> HasPrefix anchor rev = true) /\
      (rev = "" -> if full_match hexShaRE v then HasPrefix anchor v = true else anchor = run)
  | None =>
      if decide (rev <> "") then full_match fullSHARE rev = false
      else full_match fullSHARE v = false /\ (full_match hexShaRE v = false -> full_match fullSHARE run = false)
  end.
Proof.
  intros run rev v. unfold correlationRevision. fold run rev v. cbv zeta.
  assert (Hrun : full_match fullSHARE (if full_match fullSHARE run then run else "") = full_match fullSHARE run).
  { destruct (full_match fullSHARE run) eqn:E; [done|reflexivity]. }
  assert (Hanchor : forall c, match resolveAnchor c (if full_match fullSHARE run then run else "") with
    | Some a => full_match fullSHARE a = true /\ (a = run \/ a = c) /\ HasPrefix a c = true
    | None => full_match fullSHARE c = false end).
  { intros c. unfold resolveAnchor. destruct (full_match fullSHARE c) eqn:Ec.
    - split_and!; [done|by right|]. apply HasPrefix_spec. exists "". clear. induction c as [|d c IH]; [done|]. by rewrite app_cons_s, <-IH.
    - destruct (full_match hexShaRE c); [|done]. destruct (full_match fullSHARE run) eqn:Er; [|done]. simpl.
      case_bool_decide; [done|]. simpl. destruct (HasPrefix run c) eqn:Hp; [|done]. split_and!; [done|by left|done]. }
  destruct (decide (rev <> "")) as [Hr|Hr].
  { specialize (Hanchor rev). destruct (resolveAnchor rev _) as [a|]; [|done]. destruct Hanchor as (? & ? & ?). split_and!; [done|tauto|done|done]. }
  apply dec_stable in Hr. destruct (full_match hexShaRE v) eqn:Ev.
  { specialize (Hanchor v). destruct (resolveAnchor v _) as [a|]; [|done]. destruct Hanchor as (? & ? & ?). split_and!; [done|tauto|done|done]. }
  assert (Hnf : full_match fullSHARE v = false).
  { destruct (full_match fullSHARE v) eqn:E; [|done]. apply full_is_hex in E. congruence. }
  case_decide as Hempty.
  - split; [done|]. intros _. rewrite <-Hrun, Hempty. reflexivity.
  - destruct (full_match fullSHARE run) eqn:Er; [|done]. split_and!; [done|by left|done|done].
Qed.

(** ** Examples *)

Definition example_version : string := "v${{ needs.build.outputs.tag }}-${{vars.TRACK}}-${{ CI_COMMIT_SHORT_SHA }}".
Example example_version_bodies : ref_bodies example_version = ["needs.build.outputs.tag"; "vars.TRACK"; "CI_COMMIT_SHORT_SHA"].
Proof. vm_compute. reflexivity. Qed.
Lemma accepted_refs_resolve_witness :
  check_refs DeployBadVersionRef example_version = Ok tt /\
  ((forall needs matrix dims, @resolve_needs library_range needs matrix dims "vars.TRACK" <> NR_Other) \/
   (exists n, "vars.TRACK" = nsVars +:+ n /\ forall ns bare, resolve_ref ns bare "vars.TRACK" = found (Vars ns !! n)) \/
   (forall ns bare, resolve_ref ns bare "vars.TRACK" = found (lookup_sources bare "vars.TRACK"))).
Proof.
  split; [vm_compute; reflexivity|].
  refine (@accepted_refs_resolve library_range DeployBadVersionRef example_version "vars.TRACK" _ _ _).
  - vm_compute. reflexivity.
  - rewrite example_version_bodies. repeat constructor; vm_compute; lia.
  - rewrite example_version_bodies. set_solver.
Defined.

(** A longer reference is not seen at apply time: the parser accepts a text whose
    only reference is a secret, and dispatch reads it. *)
Definition long_name : string := Join (replicate 258 "A") "".
Example long_ref_escapes :
  check_refs DeployBadVersionRef ("${{ secrets." +:+ long_name +:+ " }}") = Ok tt /\
  is_ok (check_refs DeployBadVersionRef "${{ secrets.TOKEN }}") = false /\
  SubstituteRefsNS ("${{ secrets." +:+ long_name +:+ " }}") {| Vars := ∅; NS_Secrets := {[long_name := "hush"]} |} [] = Ok "hush".
Proof. vm_compute. auto. Qed.

(** Each pass is single, but the passes compose: the value of an upstream output is
    scanned again by the pass that reads secrets. *)
Example upstream_output_rescanned :
  let needs : NeedsOutputs := {["build" := {["msg" := "${{ secrets.TOKEN }}"]}]} in
  let raw := "${{ needs.build.outputs.msg }}" in
  (v ← map_err (fun _ => UnresolvedRefs []) (@substituteNeedsRefs library_range needs ∅ ∅ raw);
   SubstituteRefsNS v {| Vars := ∅; NS_Secrets := {["TOKEN" := "hush"]} |} []) = Ok "hush".
Proof. vm_compute. reflexivity. Qed.
Example correlation_examples :
  let run := "0123456789abcdef0123456789abcdef01234567" in
  @correlationRevision ascii_only_case "v1.2.0" "" run = Some run /\
  @correlationRevision ascii_only_case "0123456" "" run = Some run /\
  @correlationRevision ascii_only_case "deadbee" "" run = None /\
  @correlationRevision ascii_only_case "" " 0123ABCD " run = None.
Proof. vm_compute. auto. Qed.
