(* ===== verification/RefsExact.v ===== *)
(** What a reference is and what it stands for, said without the pattern of
    [server/pkg/refs], and the substitution pass ([SubstituteRefsNS]) against it. *)

From S2P Require Import Prelude GoStrings GoRegexp Domain CacheKey ParseHelpers ParseJob Refs.

(** ** The language of references *)

Definition blank (c : Ascii.ascii) : bool := bool_decide (c ∈ ["009"; "010"; "012"; "013"; " "]%char).
Fixpoint ltrim (s : string) : string :=
  match s with String c t => if blank c then ltrim t else s | "" => "" end.
Definition trim (s : string) : string := String.rev (ltrim (String.rev (ltrim s))).
(** What a reference names: what is between its braces less the blanks around it, or
    the last blank when there is nothing else. *)
Definition body_of (x : string) : string :=
  if decide (trim x = "") then stake 1 (String.rev x) else trim x.
(** The text of a reference, and its body. *)
Inductive reference : string -> string -> Prop :=
| reference_intro x : x <> "" -> lacks "}" x = true -> reference ("${{" +:+ x +:+ "}}") (body_of x).

(** A text is its references, from the left, and the bytes where none starts. *)
Inductive chunk := Byte (c : Ascii.ascii) | Ref (text body : string).
Inductive cut_into : string -> list chunk -> Prop :=
| cut_nil : cut_into "" []
| cut_ref t b s l : reference t b -> cut_into s l -> cut_into (t +:+ s) (Ref t b :: l)
| cut_byte c s l :
    (forall t b s', reference t b -> String c s <> t +:+ s') -> cut_into s l -> cut_into (String c s) (Byte c :: l).
Definition bodies (l : list chunk) : list string := omap (fun k => match k with Ref _ b => Some b | Byte _ => None end) l.

(** ** The names a body can have *)

Definition ident_byte (c : Ascii.ascii) : bool := is_upper c || is_lower c || is_digit c || bool_decide (c = "_"%char).
(** A name: letters, digits and underscores, no digit first. *)
Definition ident (n : string) : bool :=
  match n with "" => false | String c t => negb (is_digit c) && ident_byte c && all_bytes ident_byte t end.

(** What a body stands for: a variable of the namespace, a secret of the namespace, or
    a bare name, in the first source that has it. *)
Inductive stands_for (ns : Namespaces) (bare : list (gmap string string)) : string -> option string -> Prop :=
| stands_var n : ident n = true -> stands_for ns bare ("vars." +:+ n) (Vars ns !! n)
| stands_secret n : ident n = true -> stands_for ns bare ("secrets." +:+ n) (NS_Secrets ns !! n)
| stands_bare n : ident n = true -> stands_for ns bare n (head (omap (fun src : gmap string string => src !! n) bare)).

(** The text with each reference replaced by what it stands for. *)
Inductive rendered (ns : Namespaces) (bare : list (gmap string string)) : list chunk -> string -> Prop :=
| rendered_nil : rendered ns bare [] ""
| rendered_byte c l out : rendered ns bare l out -> rendered ns bare (Byte c :: l) (String c out)
| rendered_ref t b v l out : stands_for ns bare b (Some v) -> rendered ns bare l out -> rendered ns bare (Ref t b :: l) (v +:+ out).

(** ** Trimming *)

Lemma blank_ascii c : blank c = true -> (code c <? 128)%nat = true.
Proof. unfold blank. rewrite bool_decide_eq_true. rewrite !elem_of_cons. intros [->|[->|[->|[->|[->|H]]]]]; try reflexivity. by apply elem_of_nil in H. Qed.
Lemma blank_class c : ascii_in space_class c = blank c.
Proof. destruct c as [[] [] [] [] [] [] [] []]; vm_compute; reflexivity. Qed.
Lemma ltrim_app w s : all_bytes blank w = true -> ltrim (w +:+ s) = ltrim s.
Proof. induction w as [|c w IH]; [done|]. simpl. intros [-> H]%andb_true_iff. by apply IH. Qed.
Lemma ltrim_fix c s : blank c = false -> ltrim (String c s) = String c s.
Proof. intros H. simpl. by rewrite H. Qed.
Lemma last_byte s : s = "" \/ exists u c, s = u +:+ String c "".
Proof.
  induction s as [|c s [->|(u & d & ->)]]; [by left|right; exists "", c; done|].
  right. exists (String c u), d. by rewrite app_cons_s.
Qed.
(** A body between blanks that itself starts and ends with something else. *)
Lemma trim_mid w1 b w2 : all_bytes blank w1 = true -> all_bytes blank w2 = true -> b <> "" ->
  (forall c u, b = String c u -> blank c = false) -> (forall c u, b = u +:+ String c "" -> blank c = false) ->
  trim (w1 +:+ b +:+ w2) = b.
Proof.
  intros H1 H2 Hb Hs He. unfold trim. rewrite ltrim_app by done.
  destruct b as [|c b]; [done|]. rewrite app_cons_s, ltrim_fix by by eapply Hs. rewrite <-app_cons_s, rev_app_s.
  rewrite ltrim_app by by rewrite all_bytes_rev. destruct (last_byte (String c b)) as [|(u & d & E)]; [done|].
  rewrite E, rev_app_s. change (String.rev (String d "")) with (String d ""). rewrite app_cons_s, app_nil_s, ltrim_fix by by eapply He.
  by rewrite rev_cons_s, rev_rev_s.
Qed.
Lemma body_mid w1 b w2 : all_bytes blank w1 = true -> all_bytes blank w2 = true -> b <> "" ->
  (forall c u, b = String c u -> blank c = false) -> (forall c u, b = u +:+ String c "" -> blank c = false) ->
  body_of (w1 +:+ b +:+ w2) = b.
Proof. intros. unfold body_of. by rewrite trim_mid, decide_False. Qed.
Lemma body_blank w c : all_bytes blank w = true -> blank c = true -> body_of (w +:+ String c "") = String c "".
Proof.
  intros Hw Hc. unfold body_of, trim. rewrite ltrim_app by done. simpl. rewrite Hc. rewrite decide_True by done.
  by rewrite rev_app_s.
Qed.

(** ** Priorities of the repetitions *)

Section Priority.
Context {X : Type}.
Implicit Types (k : string -> option X).

Lemma in_class_take c n s s1 u : take_class c s = Some s1 -> in_class c n s u -> n = 0 /\ u = s \/ exists m, n = S m /\ in_class c m s1 u.
Proof. intros Ht. inversion 1; subst; [by left|]. right. simplify_eq. eauto. Qed.

(** A greedy repetition stops where it does because no longer one works. *)
Lemma greedy_longest fuel c s k x : slen s <= fuel -> match_rep fuel c true 0 None s k = Some x ->
  exists n s', in_class c n s s' /\ k s' = Some x /\ forall m u, n < m -> in_class c m s u -> k u = None.
Proof.
  revert s. induction fuel as [|fuel IH]; intros s Hf; cbn [match_rep].
  { intros Hk. exists 0, s. split_and!; [constructor|done|]. intros m u Hm Hu%in_class_slen. lia. }
  destruct (take_class c s) as [s1|] eqn:Ht.
  - pose proof (take_class_slen _ _ _ Ht). cbn [pred fmap option_fmap option_map].
    destruct (match_rep fuel c true 0 None s1 k) as [y|] eqn:Em.
    + intros [= <-]. destruct (IH s1 ltac:(lia) Em) as (n & s' & Hin & Hk & Hlong). exists (S n), s'.
      split_and!; [by econstructor|done|]. intros m u Hm Hu.
      destruct (in_class_take _ _ _ _ _ Ht Hu) as [[-> _]|(m' & -> & Hu')]; [lia|]. apply (Hlong m' u); [lia|done].
    + intros Hk. exists 0, s. split_and!; [constructor|done|]. intros m u Hm Hu.
      destruct (in_class_take _ _ _ _ _ Ht Hu) as [[-> _]|(m' & -> & Hu')]; [lia|].
      destruct (k u) as [y|] eqn:Eu; [|done]. exfalso. assert (is_Some (match_rep fuel c true 0 None s1 k)) as [? ?]; [|congruence].
      apply match_rep_spec; [lia|]. exists m', u. split_and!; [lia|done|done|by rewrite Eu].
  - intros Hk. exists 0, s. split_and!; [constructor|done|]. intros m u Hm Hu. inversion Hu; subst; [lia|congruence].
Qed.
(** A lazy repetition stops where it does because no shorter one works. *)
Lemma lazy_shortest fuel c lo s k x : match_rep fuel c false lo None s k = Some x ->
  exists n s', lo <= n /\ in_class c n s s' /\ k s' = Some x /\ forall m u, lo <= m -> m < n -> in_class c m s u -> k u = None.
Proof.
  revert lo s. induction fuel as [|fuel IH]; intros lo s; cbn [match_rep].
  { destruct lo; [|done]. intros H. exists 0, s. split_and!; [done|apply in_class_0|by destruct (k s)|lia]. }
  assert (Hmore : match take_class c s with Some s1 => match_rep fuel c false (pred lo) None s1 k | None => None end = Some x ->
    (lo = 0 -> k s = None) ->
    exists n s', lo <= n /\ in_class c n s s' /\ k s' = Some x /\ forall m u, lo <= m -> m < n -> in_class c m s u -> k u = None).
  { destruct (take_class c s) as [s1|] eqn:Ht; [|done]. intros Em H0. destruct (IH _ _ Em) as (n & s' & Hlo & Hin & Hk & Hshort).
    exists (S n), s'. split_and!; [lia|by econstructor|done|]. intros m u H1 H2 Hu.
    destruct (in_class_take _ _ _ _ _ Ht Hu) as [[-> ->]|(m' & -> & Hu')]; [apply H0; lia|]. apply (Hshort m' u); [lia|lia|done]. }
  cbn [fmap option_fmap option_map]. destruct lo as [|lo]; [|by intros H; apply Hmore].
  destruct (k s) as [y|] eqn:E; [|by intros H; apply Hmore].
  intros [= <-]. exists 0, s. split_and!; [done|constructor|done|lia].
Qed.
End Priority.

Lemma in_class_further c m n s u v : in_class c m s u -> in_class c n s v -> n <= m -> slen u <= slen v.
Proof.
  revert m s. induction n as [|n IH]; intros m s Hu Hv Hle; inversion Hv as [|? ? s1 ? Ht Hv']; subst.
  - apply in_class_slen in Hu. lia.
  - destruct (in_class_take _ _ _ _ _ Ht Hu) as [[-> _]|(m' & -> & Hu')]; [lia|]. apply (IH m' s1); [done|done|lia].
Qed.
Lemma in_class_app c m n s u v : in_class c m s u -> in_class c n u v -> in_class c (m + n) s v.
Proof. induction 1; [done|]. intros H1. simpl. econstructor; eauto. Qed.

(** ** Runes and braces *)

Definition high (c : Ascii.ascii) : bool := negb (code c <? 128)%nat.
Lemma between_high lo hi c : 128 <= lo -> byte_between lo hi c = true -> high c = true.
Proof. unfold byte_between, high. intros Hl [H%Nat.leb_le _]%andb_true_iff. destruct (Nat.ltb_spec (code c) 128); [lia|done]. Qed.
Lemma high_not c d : high c = true -> high d = false -> c <> d.
Proof. congruence. Qed.

Lemma cont_high s : cont_byte s = true -> exists c t, s = String c t /\ high c = true.
Proof. destruct s as [|c t]; [done|]. intros H. exists c, t. split; [done|]. by eapply (between_high 128 191). Qed.
(** The first rune: one byte, or several that are all outside ASCII. *)
Lemma rune_tail c t : exists u, stake (rune_width (String c t)) (String c t) = String c u /\ all_bytes high u = true /\
  (high c = false -> u = "").
Proof.
  unfold rune_width, high at 2. destruct (code c <? 128)%nat eqn:Ec; [by exists ""|]. simpl negb.
  assert (Hone : exists u, stake 1 (String c t) = String c u /\ all_bytes high u = true /\ (true = false -> u = "")) by by exists "".
  assert (Hsec : forall lo hi (b : bool) m, 128 <= lo ->
    (match t with String d _ => byte_between lo hi d | "" => false end = true -> b = true ->
       exists u, stake m (String c t) = String c u /\ all_bytes high u = true /\ (true = false -> u = "")) ->
    exists u, stake (if match t with String d _ => byte_between lo hi d | "" => false end && b then m else 1) (String c t) = String c u /\
      all_bytes high u = true /\ (true = false -> u = "")).
  { intros lo hi b m _ H. destruct (match t with String d _ => _ | _ => _ end); [|done]. destruct b; [|done]. by apply H. }
  destruct (_ && _).
  { specialize (Hsec 128 191 true 2 ltac:(lia)). rewrite andb_true_r in Hsec. apply Hsec. intros H _.
    destruct t as [|d t]; [done|]. exists (String d ""). split; [by destruct t|]. split; [|done]. simpl. by erewrite between_high. }
  destruct (_ && _).
  { assert (Hlo : 128 <= if (code c =? 224)%nat then 160 else 128) by (destruct (code c =? 224)%nat; lia).
    apply Hsec; [done|]. intros H (e & v & E & He)%cont_high. destruct t as [|d t]; [done|]. simpl in E. destruct t as [|e' t]; simplify_eq.
    exists (String d (String e "")). split; [by destruct v|]. split; [|done]. simpl. rewrite He. by erewrite between_high. }
  destruct (_ && _); [|done]. rewrite <-andb_assoc.
  assert (Hlo : 128 <= if (code c =? 240)%nat then 144 else 128) by (destruct (code c =? 240)%nat; lia). apply Hsec; [done|].
  intros H [(e & v & E & He)%cont_high (f & v' & E' & Hf)%cont_high]%andb_true_iff. destruct t as [|d t]; [done|].
  simpl in E, E'. destruct t as [|e' t]; simplify_eq.
  exists (String d (String e (String f ""))). split; [by destruct v'|]. split; [|done]. simpl. rewrite He, Hf. by erewrite between_high.
Qed.

Lemma high_lacks c u : all_bytes high u = true -> high c = false -> lacks c u = true.
Proof.
  intros Hu Hc. unfold lacks. eapply all_bytes_impl; [|exact Hu]. intros d Hd. simpl.
  apply negb_true_iff, bool_decide_eq_false. intros ->. congruence.
Qed.
Lemma lacks_app c s t : lacks c (s +:+ t) = true <-> lacks c s = true /\ lacks c t = true.
Proof. unfold lacks. by rewrite all_bytes_app, andb_true_iff. Qed.
Lemma lacks_cons c d s : lacks c (String d s) = true <-> d <> c /\ lacks c s = true.
Proof. unfold lacks. simpl. by rewrite andb_true_iff, negb_true_iff, bool_decide_eq_false. Qed.
Lemma brace_free d : ascii_in not_brace_class d = true <-> d <> "}"%char.
Proof.
  simpl. unfold one_of. cbn [any_byte]. rewrite orb_false_r, negb_true_iff, bool_decide_eq_false. done.
Qed.

(** What the class without the brace takes has no brace. *)
Lemma taken_lacks n s s' : in_class not_brace_class n s s' -> exists t, s = t +:+ s' /\ lacks "}" t = true /\ (0 < n -> t <> "").
Proof.
  induction 1 as [s|n s s1 s2 Ht _ (t & -> & Hl & _)]; [exists ""; split_and!; [done|done|lia]|].
  destruct s as [|b u]; [done|]. unfold take_class in Ht. destruct (code b <? 128)%nat eqn:Eb.
  - destruct (ascii_in not_brace_class b) eqn:Ea; [|done]. injection Ht as ->. exists (String b t). split_and!; [done| |done].
    apply lacks_cons. split; [by apply brace_free|done].
  - cbn [other_in not_brace_class] in Ht. injection Ht as Ht. destruct (rune_tail b u) as (v & Hv & Hh & _).
    exists (String b v +:+ t). split_and!; [|apply lacks_app; split; [|done]|done].
    + by rewrite app_assoc_s, <-Ht, <-Hv, stake_sdrop.
    + apply high_lacks; [|done]. simpl. unfold high at 1. by rewrite Eb, Hh.
Qed.

Definition starts_low (r : string) : Prop := exists d r', r = String d r' /\ high d = false.
Lemma stake_sdrop_slen n s : slen (stake n s) = min n (slen s).
Proof. revert s. induction n as [|n IH]; intros [|c s]; unfold slen in *; simpl; try done. by rewrite IH. Qed.
(** A rune does not reach over an ASCII byte. *)
Lemma rune_width_before y r : y <> "" -> starts_low r -> rune_width (y +:+ r) <= slen y.
Proof.
  intros Hy (d & r' & -> & Hd). destruct y as [|c t]; [done|]. rewrite app_cons_s. destruct (rune_tail c (t +:+ String d r')) as (u & Hu & Hh & _).
  destruct (decide (rune_width (String c (t +:+ String d r')) <= slen (String c t))) as [|Hn]; [done|]. exfalso.
  assert (Hs : slen (String c t) < slen (String c u)).
  { rewrite <-Hu, stake_sdrop_slen. rewrite <-app_cons_s at 2. rewrite slen_app. assert (slen (String d r') = S (slen r')) by done. lia. }
  assert (Hp : exists v, String c (t +:+ String d r') = String c u +:+ v) by (rewrite <-Hu; eexists; symmetry; apply stake_sdrop).
  destruct Hp as (v & Hp). rewrite app_cons_s in Hp. injection Hp as Hp.
  symmetry in Hp. destruct (app_split t (String d r') u v) as (a & -> & Ha); [done| |].
  { apply (f_equal slen) in Hp. rewrite !slen_app in Hp. unfold slen in *. simpl in *. lia. }
  destruct a as [|d' a]; [rewrite app_nil_r_s in Hs; lia|]. rewrite app_cons_s in Ha. injection Ha as -> _.
  rewrite all_bytes_app in Hh. simpl in Hh. rewrite Hd in Hh. by rewrite andb_false_r in Hh.
Qed.
(** The class takes every text without a brace that an ASCII byte follows. *)
Lemma takes_lacking y r : lacks "}" y = true -> starts_low r -> exists n, in_class not_brace_class n (y +:+ r) r /\ (y <> "" -> 0 < n).
Proof.
  intros Hy Hr. remember (slen y) as m eqn:Hm. revert y Hy Hm. induction (lt_wf m) as [m _ IH]. intros y Hy ->.
  destruct y as [|c t]; [exists 0; split; [constructor|done]|]. rewrite app_cons_s.
  assert (Hstep : exists y1, take_class not_brace_class (String c (t +:+ r)) = Some (y1 +:+ r) /\ lacks "}" y1 = true /\ slen y1 < slen (String c t)).
  { unfold take_class. destruct (code c <? 128)%nat eqn:Ec.
    - apply lacks_cons in Hy as [Hc Ht]. apply brace_free in Hc as ->. exists t. split_and!; [done|done|]. unfold slen. simpl. lia.
    - cbn [other_in not_brace_class]. pose proof (rune_width_before (String c t) r ltac:(done) Hr) as Hw. rewrite app_cons_s in Hw.
      exists (sdrop (rune_width (String c (t +:+ r))) (String c t)). split_and!.
      + f_equal. rewrite <-(app_cons_s c t r) at 2. by apply sdrop_app_le.
      + rewrite <-(stake_sdrop (rune_width (String c (t +:+ r))) (String c t)) in Hy. by apply lacks_app in Hy as [_ Hy].
      + rewrite slen_sdrop. pose proof (rune_width_pos c (t +:+ r)). assert (0 < slen (String c t)) by (unfold slen; simpl; lia). lia. }
  destruct Hstep as (y1 & Ht & Hl & Hlt). destruct (IH _ Hlt y1 Hl eq_refl) as (n & Hn & _). exists (S n). split; [by econstructor|lia].
Qed.
Lemma blanks_taken n s s' : in_class space_class n s s' -> exists w, s = w +:+ s' /\ all_bytes blank w = true.
Proof.
  intros H. apply in_class_ascii in H as (w & -> & _ & Hw); [|done]. exists w. split; [done|]. eapply all_bytes_impl; [|exact Hw].
  intros c. simpl. by rewrite <-blank_class.
Qed.
Lemma takes_blanks w r : all_bytes blank w = true -> in_class space_class (slen w) (w +:+ r) r.
Proof.
  induction w as [|c w IH]; [constructor|]. simpl. intros [Hc Hw]%andb_true_iff. rewrite app_cons_s. econstructor; [|by apply IH].
  simpl. rewrite (blank_ascii c Hc). change (bool_decide _) with (ascii_in space_class c). by rewrite blank_class, Hc.
Qed.
Lemma blanks_lack w : all_bytes blank w = true -> lacks "}" w = true.
Proof. apply all_bytes_impl. intros c Hc. apply negb_true_iff, bool_decide_eq_false. intros ->. done. Qed.

(** ** The pattern matches the references *)

Definition closing (caps : captures) (s : string) : option (string * captures) :=
  match_rep (slen s) space_class true 0 None s (fun u => match CutPrefix u "}}" with Some s' => Some (s', caps) | None => None end).
Definition bodied (s : string) : option (string * captures) :=
  match_rep (slen s) not_brace_class false 1 None s (fun u => closing [(1, consumed s u)] u).
Lemma RefPattern_unfold s : prefix_match RefPattern s =
  match CutPrefix s "${{" with Some s1 => match_rep (slen s1) space_class true 0 None s1 bodied | None => None end.
Proof. reflexivity. Qed.

Lemma CutPrefix_app p s : CutPrefix (p +:+ s) p = Some s.
Proof. by apply CutPrefix_spec. Qed.
Lemma starts_low_blank w r : all_bytes blank w = true -> starts_low r -> starts_low (w +:+ r).
Proof.
  destruct w as [|c w]; [done|]. simpl. intros [Hc _]%andb_true_iff _. exists c, (w +:+ r). split; [by rewrite app_cons_s|].
  apply negb_false_iff. by apply blank_ascii.
Qed.
Lemma starts_low_close s : starts_low ("}}" +:+ s).
Proof. by exists "}"%char, ("}" +:+ s). Qed.
Lemma closing_some caps w s : all_bytes blank w = true -> is_Some (closing caps (w +:+ "}}" +:+ s)).
Proof.
  intros Hw. apply match_rep_spec; [done|]. exists (slen w), ("}}" +:+ s).
  split_and!; [lia|done|by apply takes_blanks|]. rewrite CutPrefix_app. eauto.
Qed.
Lemma closing_Some caps s s' caps' : closing caps s = Some (s', caps') ->
  caps' = caps /\ exists w, s = w +:+ "}}" +:+ s' /\ all_bytes blank w = true.
Proof.
  intros H. apply match_rep_sound in H as (n & u & _ & _ & Hin & Hu). apply blanks_taken in Hin as (w & -> & Hw).
  destruct (CutPrefix u "}}") as [v|] eqn:E; [|done]. simplify_eq. apply CutPrefix_spec in E as ->. eauto.
Qed.
Lemma bodied_some y s : y <> "" -> lacks "}" y = true -> is_Some (bodied (y +:+ "}}" +:+ s)).
Proof.
  intros Hy Hl. destruct (takes_lacking y ("}}" +:+ s) Hl (starts_low_close s)) as (n & Hin & Hn).
  apply match_rep_spec; [done|]. exists n, ("}}" +:+ s). split_and!; [by apply Hn|done|done|]. apply (closing_some _ ""). done.
Qed.
(** The lazy body does not end with a blank, unless it is that blank. *)
Lemma bodied_Some s s' caps : bodied s = Some (s', caps) ->
  exists b w, s = b +:+ w +:+ "}}" +:+ s' /\ caps = [(1, b)] /\ b <> "" /\ lacks "}" b = true /\ all_bytes blank w = true /\
    forall u c, b = u +:+ String c "" -> u <> "" -> blank c = false.
Proof.
  intros H. apply lazy_shortest in H as (n & u & Hn & Hin & Hk & Hshort).
  apply closing_Some in Hk as (-> & w & -> & Hw). pose proof Hin as (b & -> & Hb & Hne)%taken_lacks.
  exists b, w. rewrite consumed_app. split_and!; [done|done|by apply Hne|done|done|]. intros v c -> Hv. destruct (blank c) eqn:Hc; [exfalso|done].
  apply lacks_app in Hb as [Hlv _].
  assert (Hr : starts_low (String c (w +:+ "}}" +:+ s'))) by (eexists _, _; split; [done|apply negb_false_iff; by apply blank_ascii]).
  destruct (takes_lacking v _ Hlv Hr) as (m & Hm & Hpos).
  assert (Hs : (v +:+ String c "") +:+ w +:+ "}}" +:+ s' = v +:+ String c (w +:+ "}}" +:+ s')) by by rewrite app_assoc_s, app_cons_s, app_nil_s.
  assert (Hlt : m < n).
  { destruct (decide (n <= m)) as [Hle|]; [|lia]. rewrite Hs in Hin. pose proof (in_class_further _ _ _ _ _ _ Hm Hin Hle) as Hl.
    unfold slen in Hl. simpl in Hl. lia. }
  rewrite <-Hs in Hm. specialize (Hshort m _ (Hpos Hv) Hlt Hm).
  apply eq_None_not_Some in Hshort. apply Hshort, (closing_some _ (String c w)). simpl. by rewrite Hc, Hw.
Qed.

(** A match of the pattern is a reference, and its group is the body. *)
Lemma match_reference s s' caps : prefix_match RefPattern s = Some (s', caps) ->
  exists t, s = t +:+ s' /\ reference t (group caps 1).
Proof.
  rewrite RefPattern_unfold. destruct (CutPrefix s "${{") as [s1|] eqn:E; [|done]. apply CutPrefix_spec in E as ->.
  intros H. apply greedy_longest in H as (n & u & Hin & Hk & Hlong); [|done].
  apply bodied_Some in Hk as (b & w2 & -> & -> & Hb & Hl & Hw2 & Hend). pose proof Hin as (w1 & -> & Hw1)%blanks_taken.
  change (group [(1, b)] 1) with b.
  assert (Hfirst : forall c v, b = String c v -> blank c = true -> v = "" /\ w2 = "").
  { intros c v -> Hc. apply lacks_cons in Hl as [_ Hv]. destruct (decide (v +:+ w2 = "")) as [He|Hne].
    { destruct v; [by rewrite app_nil_s in He|by rewrite app_cons_s in He]. }
    exfalso. destruct (bodied_some (v +:+ w2) s' Hne) as [? Hx]; [apply lacks_app; split; [done|by apply blanks_lack]|].
    rewrite app_assoc_s in Hx. rewrite (Hlong (n + 1) (v +:+ w2 +:+ "}}" +:+ s')) in Hx; [done|lia|].
    eapply in_class_app; [exact Hin|]. rewrite app_cons_s. econstructor; [|constructor]. simpl.
    rewrite (blank_ascii c Hc). change (bool_decide _) with (ascii_in space_class c). by rewrite blank_class, Hc. }
  exists ("${{" +:+ (w1 +:+ b +:+ w2) +:+ "}}"). split; [by rewrite !app_assoc_s|].
  assert (Hbody : body_of (w1 +:+ b +:+ w2) = b).
  { destruct b as [|c v]; [done|]. destruct (blank c) eqn:Hc.
    - destruct (Hfirst c v eq_refl Hc) as [-> ->]. rewrite app_nil_r_s. by apply body_blank.
    - apply body_mid; [done|done|done|by intros ? ? [= <- <-]|]. intros d u Hu. destruct u as [|e u].
      + rewrite app_nil_s in Hu. by injection Hu as <- ->.
      + by apply (Hend (String e u) d). }
  rewrite <-Hbody at 2. constructor.
  - intros He. apply (f_equal slen) in He. rewrite !slen_app in He. destruct b; [done|]. unfold slen in He. simpl in He. lia.
  - apply lacks_app. split; [by apply blanks_lack|]. apply lacks_app. split; [done|by apply blanks_lack].
Qed.
(** Every reference is matched. *)
Lemma reference_matched t b s : reference t b -> is_Some (prefix_match RefPattern (t +:+ s)).
Proof.
  intros [x Hx Hl]. rewrite RefPattern_unfold, !app_assoc_s, CutPrefix_app. apply match_rep_spec; [done|].
  exists 0, (x +:+ "}}" +:+ s). split_and!; [done|done|constructor|by apply bodied_some].
Qed.

Lemma lacks_inj c x y u v : lacks c x = true -> lacks c y = true -> x +:+ String c u = y +:+ String c v -> x = y /\ u = v.
Proof.
  revert y. induction x as [|d x IH]; intros [|e y] Hx Hy; rewrite ?app_nil_s, ?app_cons_s; intros H; injection H; try intros H2 H1; subst; try done.
  - by apply lacks_cons in Hy as [? _].
  - by apply lacks_cons in Hx as [? _].
  - apply lacks_cons in Hx as [_ Hx]. apply lacks_cons in Hy as [_ Hy]. by destruct (IH y Hx Hy ltac:(eassumption)) as [-> ->].
Qed.
(** At most one reference starts at a place. *)
Lemma reference_det t b t' b' s s' : reference t b -> reference t' b' -> t +:+ s = t' +:+ s' -> t = t' /\ b = b' /\ s = s'.
Proof.
  intros [x _ Hx] [y _ Hy] H. rewrite !app_assoc_s in H. apply (inj (String.app "${{")) in H.
  change ("}}" +:+ s) with (String "}" ("}" +:+ s)) in H. change ("}}" +:+ s') with (String "}" ("}" +:+ s')) in H.
  apply lacks_inj in H as [-> H]; [|done|done]. split_and!; [done|done|]. by injection H.
Qed.
Lemma cut_into_det s l l' : cut_into s l -> cut_into s l' -> l' = l.
Proof.
  intros H. revert l'. induction H as [|t b s l Hr _ IH|c s l Hno _ IH]; intros l' H'.
  - inversion H' as [|t' b' s' l0 Hr' _ Hs|]; subst; [done|]. by destruct Hr'.
  - inversion H' as [Hs|t' b' s' l0 Hr' Hc Hs|c s' l0 Hno _ Hs]; subst.
    + by destruct Hr.
    + destruct (reference_det _ _ _ _ _ _ Hr' Hr Hs) as (-> & -> & ->). f_equal. auto.
    + by destruct (Hno t b s Hr).
  - inversion H' as [|t' b' s' l0 Hr' _ Hs|]; subst; [by destruct (Hno t' b' s' Hr')|]. f_equal. auto.
Qed.

(** ** The pieces are the cut *)

Fixpoint byte_chunks (s : string) : list chunk := match s with "" => [] | String c t => Byte c :: byte_chunks t end.
Fixpoint chunks (l : list piece) : list chunk :=
  match l with
  | [] => []
  | Plain t :: l => byte_chunks t ++ chunks l
  | Found t caps :: l => Ref t (group caps 1) :: chunks l
  end.
Lemma byte_chunks_app s t : byte_chunks (s +:+ t) = byte_chunks s ++ byte_chunks t.
Proof. induction s as [|c s IH]; [done|]. rewrite app_cons_s. simpl. by rewrite IH. Qed.

Lemma high_starts_none c s : high c = true -> forall t b s', reference t b -> String c s <> t +:+ s'.
Proof. intros Hc t b s' [x _ _]. rewrite !app_assoc_s. simpl. intros [= -> _]. done. Qed.
Lemma cut_high u s l : all_bytes high u = true -> cut_into s l -> cut_into (u +:+ s) (byte_chunks u ++ l).
Proof.
  intros Hu Hs. induction u as [|c u IH]; [done|]. simpl in Hu. apply andb_true_iff in Hu as [Hc Hu].
  rewrite app_cons_s. simpl. apply cut_byte; [by apply high_starts_none|by apply IH].
Qed.
Lemma chunks_flush plain l : chunks (if decide (plain = "") then l else Plain plain :: l) = byte_chunks plain ++ chunks l.
Proof. by case_decide; subst. Qed.
Lemma find_all_cut fuel plain s : slen s < fuel ->
  exists l, cut_into s l /\ chunks (find_all fuel RefPattern plain s) = byte_chunks plain ++ l.
Proof.
  revert plain s. induction fuel as [|fuel IH]; intros plain s Hf; [lia|]. cbn [find_all].
  destruct (prefix_match RefPattern s) as [[s' caps]|] eqn:Hm.
  - pose proof (RefPattern_shorter _ _ _ Hm). destruct (match_reference _ _ _ Hm) as (t & -> & Ht).
    destruct (IH "" s' ltac:(lia)) as (l & Hl & E). exists (Ref t (group caps 1) :: l). split; [by constructor|].
    rewrite chunks_flush, consumed_app. simpl. by rewrite E.
  - destruct s as [|c s]; [exists []; split; [constructor|by rewrite chunks_flush]|].
    destruct (rune_tail c s) as (u & Hu & Hh & _). pose proof (rune_width_pos c s).
    destruct (IH (plain +:+ String c u) (sdrop (rune_width (String c s)) (String c s))) as (l & Hl & E).
    { rewrite slen_sdrop. assert (0 < slen (String c s)) by (unfold slen; simpl; lia). lia. }
    exists (Byte c :: byte_chunks u ++ l). rewrite Hu, E, byte_chunks_app, <-app_assoc. split; [|done].
    assert (Hs : String c s = String c (u +:+ sdrop (rune_width (String c s)) (String c s))).
    { rewrite <-app_cons_s, <-Hu. symmetry. apply stake_sdrop. }
    rewrite Hs at 1. apply cut_byte; [|by apply cut_high]. intros t b s' Ht Heq. rewrite <-Hs in Heq.
    destruct (reference_matched t b s' Ht) as [? Hx]. rewrite Heq in Hm. congruence.
Qed.
Lemma FindAll_cut s : cut_into s (chunks (FindAll RefPattern s)).
Proof. destruct (find_all_cut (S (slen s)) "" s) as (l & Hl & E); [lia|]. unfold FindAll. by rewrite E. Qed.
Lemma elem_of_chunk_bodies l b : b ∈ bodies (chunks l) <-> exists t caps, Found t caps ∈ l /\ b = group caps 1.
Proof.
  unfold bodies. rewrite list_elem_of_omap. split.
  - intros (k & Hk & E). destruct k as [|t b']; [done|]. simplify_eq. induction l as [|[p|p caps] l IH]; simpl in Hk.
    + by apply elem_of_nil in Hk.
    + apply elem_of_app in Hk as [Hk|Hk].
      * exfalso. clear -Hk. induction p as [|c p IHp]; simpl in Hk; [by apply elem_of_nil in Hk|]. apply elem_of_cons in Hk as [|]; [done|auto].
      * destruct (IH Hk) as (u & caps & Hin & ->). exists u, caps. split; [by right|done].
    + apply elem_of_cons in Hk as [[= -> ->]|Hk]; [exists p, caps; split; [left|done]|].
      destruct (IH Hk) as (u & caps' & Hin & ->). exists u, caps'. split; [by right|done].
  - intros (t & caps & Hin & ->). exists (Ref t (group caps 1)). split; [|done]. induction l as [|[p|p caps'] l IH]; simpl.
    + by apply elem_of_nil in Hin.
    + apply elem_of_app. right. apply IH. by apply elem_of_cons in Hin as [|].
    + apply elem_of_cons in Hin as [[= -> ->]|Hin]; [left|right; auto].
Qed.
Lemma ref_bodies_chunks s b : Contains s "${{" = true -> b ∈ ref_bodies s <-> b ∈ bodies (chunks (FindAll RefPattern s)).
Proof. intros Hc. rewrite elem_of_ref_bodies, elem_of_chunk_bodies. tauto. Qed.
(** A text without the opening braces has no reference. *)
Lemma no_opening s l : Contains s "${{" = false -> cut_into s l -> l = byte_chunks s.
Proof.
  intros Hc H. induction H as [|t b s l [x _ _] _ _|c s l _ _ IH]; [done| |].
  - exfalso. assert (Contains ((("${{" +:+ x +:+ "}}") +:+ s)) "${{" = true); [|congruence].
    apply Contains_spec. exists "", ((x +:+ "}}") +:+ s). by rewrite app_nil_s, !app_assoc_s.
  - simpl. f_equal. apply IH. destruct (Contains s "${{") eqn:E; [|done]. apply Contains_spec in E as (t & u & ->).
    assert (Contains (String c (t +:+ "${{" +:+ u)) "${{" = true); [|congruence]. apply Contains_spec. by exists (String c t), u.
Qed.
Lemma rendered_bytes ns bare s l out : rendered ns bare l out -> rendered ns bare (byte_chunks s ++ l) (s +:+ out).
Proof. intros H. induction s as [|c s IH]; [done|]. rewrite app_cons_s. simpl. by constructor. Qed.

(** ** The resolver computes what a body stands for *)

Lemma in_bytes_class c t : (forall d, ascii_in c d = true -> (code d <? 128)%nat = true) -> all_bytes (ascii_in c) t = true ->
  in_class c (slen t) t "".
Proof.
  intros Ha. induction t as [|d t IH]; [constructor|]. simpl. intros [Hd Ht]%andb_true_iff. econstructor; [|by apply IH].
  simpl. by rewrite (Ha d Hd), Hd.
Qed.
Lemma ident_ascii d : ident_byte d = true -> (code d <? 128)%nat = true.
Proof. destruct d as [[] [] [] [] [] [] [] []]; vm_compute; congruence. Qed.
Lemma ident_tail_class d : ascii_in (class_of (fun c => is_alnum c || one_of "_" c)) d = ident_byte d.
Proof. destruct d as [[] [] [] [] [] [] [] []]; vm_compute; reflexivity. Qed.
Lemma ident_head_class d : ascii_in (class_of (fun c => is_alpha c || one_of "_" c)) d = negb (is_digit d) && ident_byte d.
Proof. destruct d as [[] [] [] [] [] [] [] []]; vm_compute; reflexivity. Qed.
Lemma all_bytes_same (f g : Ascii.ascii -> bool) s : (forall c, f c = g c) -> all_bytes f s = all_bytes g s.
Proof. intros H. induction s as [|c s IH]; [done|]. simpl. by rewrite H, IH. Qed.
Lemma identPattern_ident n : full_match identPattern n = ident n.
Proof.
  apply eq_true_iff_eq. rewrite full_match_spec. unfold identPattern, envNamePattern. split.
  - intros H. inversion H as [| |? ? ? s' ? H1 H2| | | |]; subst. inversion H1 as [|? ? ? ? m ? ? Hlo Hhi Hin| | | | |]; subst.
    inversion H2 as [|? ? ? ? m' ? ? _ _ Hin'| | | | |]; subst. specialize (Hhi 1 eq_refl). assert (m = 1) as -> by lia.
    apply in_class_ascii in Hin as (t & -> & Ht & Hc); [|done]. apply in_class_ascii in Hin' as (u & -> & _ & Hu); [|done].
    destruct t as [|c [|? ?]]; [done| |done]. rewrite app_cons_s, app_nil_s, app_nil_r_s. simpl. rewrite (all_bytes_same _ _ _ ident_tail_class) in Hu.
    simpl in Hc. rewrite andb_true_r in Hc. pose proof (ident_head_class c) as E. simpl in E. rewrite <-E, Hc. done.
  - destruct n as [|c t]; [done|]. cbn [ident]. rewrite !andb_true_iff. intros [[Hd Hc] Ht].
    econstructor; [eapply (matches_Rep _ _ _ _ 1); [done|by intros ? [= <-]|]|].
    + econstructor; [|constructor]. unfold take_class. by rewrite ident_head_class, ident_ascii, Hd, Hc.
    + eapply (matches_Rep _ _ _ _ (slen t)); [lia|done|]. apply in_bytes_class.
      * intros d. rewrite ident_tail_class. apply ident_ascii.
      * by rewrite (all_bytes_same _ _ _ ident_tail_class).
Qed.
Lemma lookup_sources_first sources n : lookup_sources sources n = head (omap (fun src : gmap string string => src !! n) sources).
Proof. induction sources as [|src sources IH]; [done|]. simpl. by destruct (src !! n). Qed.

Lemma dotted_no_ident p n : one_of p "." = true -> ident (p +:+ n) = false.
Proof.
  intros Hp. destruct (ident (p +:+ n)) eqn:E; [|done]. exfalso.
  assert (Hall : all_bytes ident_byte (p +:+ n) = true).
  { destruct (p +:+ n); [done|]. cbn [ident] in E. rewrite !andb_true_iff in E. simpl. rewrite andb_true_iff. tauto. }
  rewrite all_bytes_app in Hall. apply andb_true_iff in Hall as [Hall _].
  assert (Hno : any_byte (fun d => bool_decide ("."%char = d)) p = false).
  { apply any_byte_false. eapply all_bytes_impl; [|exact Hall]. intros c Hc. apply negb_true_iff, bool_decide_eq_false. by intros <-. }
  unfold one_of in Hp. congruence.
Qed.
Section Resolve.
Context (ns : Namespaces) (bare : list (gmap string string)).

Lemma resolve_ref_found b o : stands_for ns bare b o -> resolve_ref ns bare b = found o.
Proof.
  unfold resolve_ref. intros [n Hn|n Hn|n Hn].
  - change "vars." with nsVars. rewrite (CutPrefix_app nsVars), identPattern_ident. by rewrite Hn.
  - assert (CutPrefix ("secrets." +:+ n) nsVars = None) as -> by reflexivity. change "secrets." with nsSecrets.
    rewrite (CutPrefix_app nsSecrets), identPattern_ident. by rewrite Hn.
  - destruct (CutPrefix n nsVars) eqn:E; [apply CutPrefix_spec in E as ->; by rewrite dotted_no_ident in Hn|].
    destruct (CutPrefix n nsSecrets) eqn:E'; [apply CutPrefix_spec in E' as ->; by rewrite dotted_no_ident in Hn|].
    by rewrite identPattern_ident, Hn, lookup_sources_first.
Qed.
Lemma resolve_ref_cases b : (exists o, stands_for ns bare b o) \/ resolve_ref ns bare b = Invalid.
Proof.
  unfold resolve_ref. destruct (CutPrefix b nsVars) as [n|] eqn:E.
  { apply CutPrefix_spec in E as ->. rewrite identPattern_ident. destruct (ident n) eqn:Hn; [left; eexists; by constructor|by right]. }
  destruct (CutPrefix b nsSecrets) as [n|] eqn:E'.
  { apply CutPrefix_spec in E' as ->. rewrite identPattern_ident. destruct (ident n) eqn:Hn; [left; eexists; by constructor|by right]. }
  rewrite identPattern_ident. destruct (ident b) eqn:Hn; [left; eexists; by constructor|by right].
Qed.
Lemma found_not_Invalid o : found o <> Invalid.
Proof. by destruct o. Qed.
Lemma resolve_Value b v : resolve_ref ns bare b = Value v <-> stands_for ns bare b (Some v).
Proof.
  split; [|by intros ->%resolve_ref_found]. destruct (resolve_ref_cases b) as [[o Ho]| ->]; [|done].
  rewrite (resolve_ref_found _ _ Ho). destruct o; [|done]. by intros [= <-].
Qed.
Lemma resolve_Unresolved b : resolve_ref ns bare b = Unresolved <-> stands_for ns bare b None.
Proof.
  split; [|by intros ->%resolve_ref_found]. destruct (resolve_ref_cases b) as [[o Ho]| ->]; [|done].
  rewrite (resolve_ref_found _ _ Ho). by destruct o.
Qed.
Lemma resolve_Invalid b : resolve_ref ns bare b = Invalid <-> forall o, ~ stands_for ns bare b o.
Proof.
  split.
  - intros H o Ho%resolve_ref_found. by apply (found_not_Invalid o); rewrite <-Ho.
  - intros H. destruct (resolve_ref_cases b) as [[o Ho]|]; [by destruct (H o)|done].
Qed.
Lemma replaced_rendered l f :
  (forall t caps, Found t caps ∈ l -> stands_for ns bare (group caps 1) (Some (f t))) -> rendered ns bare (chunks l) (replace_pieces f l).
Proof.
  induction l as [|[t|t caps] l IH]; intros H; simpl; [constructor| |].
  - apply rendered_bytes, IH. intros u caps Hin. apply (H u caps). by right.
  - constructor; [apply H; left|]. apply IH. intros u caps' Hin. apply (H u caps'). by right.
Qed.
End Resolve.

(** ** Property *)

(** C29: the substitution pass is exact - a text has one reading as references (text
    between [${{] and the first braces after it, the body trimmed) and bytes outside
    them; the pass gives the text with every reference replaced by what it stands for
    (a variable, a secret, or a bare name in the first source that has it) when each
    stands for a value, the error that lists exactly the bodies that are no name at
    all when there are any, and otherwise the error that lists exactly the bodies
    whose name has no value. *)
Theorem SubstituteRefsNS_exact (s : string) (ns : Namespaces) (bare : list (gmap string string)) :
  exists l, cut_into s l /\ (forall l', cut_into s l' -> l' = l) /\
    match SubstituteRefsNS s ns bare with
    | Ok out => rendered ns bare l out
    | Err (UnsupportedRefs bs) => bs <> [] /\ forall b, b ∈ bs <-> b ∈ bodies l /\ forall o, ~ stands_for ns bare b o
    | Err (UnresolvedRefs bs) =>
        bs <> [] /\ (forall b, b ∈ bodies l -> exists o, stands_for ns bare b o) /\
        forall b, b ∈ bs <-> b ∈ bodies l /\ stands_for ns bare b None
    end.
Proof.
  pose proof (FindAll_cut s) as Hcut. exists (chunks (FindAll RefPattern s)).
  split_and!; [done|intros l'; by apply cut_into_det|]. unfold SubstituteRefsNS. destruct (Contains s "${{") eqn:Hc.
  2: { rewrite (no_opening _ _ Hc Hcut). cbn [negb].
       pose proof (rendered_bytes ns bare s [] "" (rendered_nil ns bare)) as H. by rewrite app_nil_r, app_nil_r_s in H. }
  pose proof (fun b => ref_bodies_chunks s b Hc) as Hbs. rewrite (ref_bodies_found _ Hc) in Hbs. cbn [negb]. cbv zeta.
  set (l := FindAll RefPattern s) in *. set (bs := submatch_1 RefPattern <$> matched l) in *.
  case_decide as Hi; [|case_decide as Hu].
  - split; [by intros H%DedupeSorted_nil|]. intros b. rewrite elem_of_DedupeSorted, list_elem_of_filter, <-resolve_Invalid, <-Hbs. tauto.
  - split_and!; [by intros H%DedupeSorted_nil| |].
    + intros b Hb. destruct (resolve_ref_cases ns bare b) as [|Hx]; [done|]. apply Hbs in Hb. by destruct (filter_nil_none _ _ _ Hi Hb).
    + intros b. rewrite elem_of_DedupeSorted, list_elem_of_filter, <-resolve_Unresolved, <-Hbs. tauto.
  - apply replaced_rendered. intros t caps Hin. pose proof (body_captures _ _ _ Hin) as <-.
    assert (Hb : submatch_1 RefPattern t ∈ bs) by (apply list_elem_of_fmap; exists t; split; [done|apply elem_of_matched; eauto]).
    pose proof (filter_nil_none _ _ _ Hi Hb) as H1. pose proof (filter_nil_none _ _ _ Hu Hb) as H2. simpl in H1, H2.
    destruct (resolve_ref ns bare (submatch_1 RefPattern t)) as [v| |] eqn:E; [|done|done]. by apply resolve_Value.
Qed.

(** ** Examples *)

Example bodies_of_blanks : body_of "  vars.A " = "vars.A" /\ body_of "   " = " " /\ body_of " a b " = "a b".
Proof. vm_compute. auto. Qed.
Example substitution_example :
  SubstituteRefsNS "${{ vars.A }}/${{B}}" {| Vars := {["A" := "1"]}; NS_Secrets := {["A" := "2"]} |} [∅; {["B" := "3"]}] = Ok "1/3" /\
  SubstituteRefsNS "${{ }}${{x y}}${{ vars.Z }}" no_namespaces [] = Err (UnsupportedRefs [" "; "x y"]).
Proof. vm_compute. auto. Qed.
