(* ===== verification/Claims.v ===== *)
(** [server/internal/oidcissuer/claims.go] and [scheduler/oidctokens.go]: the claims of
    the identity token a job receives, and the subject cloud policies are pinned to. *)

From S2P Require Import Prelude GoStrings GoTime Domain RunTables Scheduler Matrix Assignment.

(** ** The subject *)

Record JobClaims := {
  JC_ProjectSlug : string; JC_ProjectID : string; JC_Pipeline : string; JC_PipelineID : string; JC_Job : string;
  JC_MatrixKey : string; JC_RunID : string; JC_RunCounter : string; JC_Ref : string; JC_RefType : string;
  JC_SHA : string; JC_Cause : string; JC_PRNumber : string;
}.

(** [strings.ReplaceAll] of one byte. *)
Fixpoint ReplaceAllByte (s : string) (old : Ascii.ascii) (new : string) : string :=
  match s with
  | "" => ""
  | String c s => if decide (c = old) then new +:+ ReplaceAllByte s old new else String c (ReplaceAllByte s old new)
  end.
Definition escapeSub (s : string) : string := ReplaceAllByte (ReplaceAllByte s "%" "%25") ":" "%3A".

Definition Subject (c : JobClaims) : string :=
  let base := "project:" +:+ escapeSub (JC_ProjectSlug c) +:+ ":pipeline:" +:+ escapeSub (JC_Pipeline c) in
  if decide (JC_Cause c = "pull_request") then base +:+ ":pull_request"
  else if decide (JC_Cause c = "merge_group") then
    let ref := if decide (JC_Ref c = "") then "none" else JC_Ref c in
    base +:+ ":merge_group:ref:" +:+ escapeSub ref
  else
    let '(refType, ref) := if decide (JC_RefType c = "" \/ JC_Ref c = "") then ("none", "none") else (JC_RefType c, JC_Ref c) in
    base +:+ ":ref_type:" +:+ refType +:+ ":ref:" +:+ escapeSub ref.

(** ** The payload *)

Inductive claim := CString (s : string) | CStrings (l : list string) | CInt (n : Z).
(** [if v != "" { p[k] = v }]. *)
Definition claim_nonempty (k v : string) (p : gmap string claim) : gmap string claim :=
  if decide (v = "") then p else <[k := CString v]> p.
(** Times in seconds: [Time.Unix]. *)
Definition buildPayload (issuer : string) (jc : JobClaims) (aud : list string) (now ttl : Z) (jti : string) : gmap string claim :=
  let p : gmap string claim := list_to_map [
    ("iss", CString issuer); ("sub", CString (Subject jc)); ("iat", CInt now); ("nbf", CInt (now - 60)); ("exp", CInt (now + ttl));
    ("jti", CString jti); ("project_slug", CString (JC_ProjectSlug jc)); ("project_id", CString (JC_ProjectID jc));
    ("pipeline", CString (JC_Pipeline jc)); ("pipeline_id", CString (JC_PipelineID jc)); ("job", CString (JC_Job jc));
    ("run_id", CString (JC_RunID jc)); ("run_counter", CString (JC_RunCounter jc)); ("cause", CString (JC_Cause jc))] in
  let p := <["aud" := match aud with [a] => CString a | _ => CStrings aud end]> p in
  let p := if decide (JC_RefType jc = "" \/ JC_Ref jc = "") then <["ref_type" := CString "none"]> p
           else <["ref" := CString (JC_Ref jc)]> (<["ref_type" := CString (JC_RefType jc)]> p) in
  let p := claim_nonempty "matrix_key" (JC_MatrixKey jc) p in
  let p := claim_nonempty "sha" (JC_SHA jc) p in
  claim_nonempty "pr_number" (JC_PRNumber jc) p.

(** ** The claims of a dispatched job *)

Section Build.
Context `{MapRange} `{UUIDText}.

Definition pipelineNameFromDefinition (raw : option Pipeline) : string :=
  match raw with Some def => Pipeline_Name def | None => "" end.
(** The reference a token names, its type first. *)
Definition claim_ref (run : RunForDispatch) (branch : string) : string * string :=
  let on_branch := if decide (branch = "") then ("", "") else ("branch", branch) in
  if decide (RD_Cause run = "tag") then
    match cd_tag (RD_CauseDetail run) with
    | Some t => if decide (Tag_Name t = "") then ("", "") else ("tag", Tag_Name t)
    | None => ("", "")
    end
  else if decide (RD_Cause run = "pull_request") then on_branch
  else if decide (RD_Cause run = "merge_group") then
    match cd_mg (RD_CauseDetail run) with
    | Some mg => if decide (MG_BaseRef mg = "") then ("", "") else ("merge_group", MG_BaseRef mg)
    | None => ("", "")
    end
  else on_branch.
Definition claim_pr (run : RunForDispatch) : string :=
  if decide (RD_Cause run = "pull_request") then
    match cd_pr (RD_CauseDetail run) with
    | Some pr => if (0 <? PR_Number pr)%Z then FormatInt (PR_Number pr) else ""
    | None => ""
    end
  else "".
Definition buildJobClaims (run : RunForDispatch) (job : DispatchableJob) : JobClaims :=
  let '(sha, branch) := primaryRevision (RD_Revisions run) in
  let '(refType, ref) := claim_ref run branch in
  {| JC_ProjectSlug := RD_ProjectSlug run; JC_ProjectID := UUIDString (RD_ProjectID run);
     JC_Pipeline := pipelineNameFromDefinition (RD_Definition run); JC_PipelineID := UUIDString (RD_PipelineID run);
     JC_Job := dj_Name job; JC_MatrixKey := dj_MatrixKey job; JC_RunID := UUIDString (RD_ID run);
     JC_RunCounter := FormatInt (RD_Counter run); JC_Ref := ref; JC_RefType := refType; JC_SHA := sha;
     JC_Cause := RD_Cause run; JC_PRNumber := claim_pr run |}.

(** The [id_tokens] of one job, and the tokens minted for it in range order;
    [mint]'s error is under the variable's name.  No minter is a configuration error. *)
Inductive token_error := IssuerDisabled | MintFailed (envName msg : string).
Definition idTokenSpecsForJob (definition : option Pipeline) (jobName : string) : gmap string IDTokenSpec :=
  match definition with
  | None => ∅
  | Some def => match findJob (Jobs def) jobName with Some j => Job_IDTokens j | None => ∅ end
  end.
Definition mintIDTokens (minter : option (JobClaims -> list string -> result string string)) (run : RunForDispatch)
    (job : DispatchableJob) : result token_error (gmap string string) :=
  let specs := idTokenSpecsForJob (RD_Definition run) (dj_Name job) in
  if decide (specs = ∅) then Ok ∅
  else match minter with
       | None => Err IssuerDisabled
       | Some mint =>
           let jc := buildJobClaims run job in
           fold_all (fun tokens kv => token ← map_err (MintFailed kv.1) (mint jc (Aud kv.2)); Ok (<[kv.1 := token]> tokens))
             ∅ (range_map specs)
       end.
End Build.

(** ** A subject names one policy surface *)

Definition esc (c : Ascii.ascii) : string := if decide (c = "%"%char) then "%25" else if decide (c = ":"%char) then "%3A" else String c "".
Lemma escapeSub_cons c s : escapeSub (String c s) = esc c +:+ escapeSub s.
Proof.
  unfold escapeSub, esc. simpl. case_decide as H1.
  - simpl. repeat (rewrite decide_False by done). done.
  - simpl. by case_decide.
Qed.
Lemma esc_lacks c : lacks ":" (esc c) = true.
Proof.
  unfold esc. do 2 (case_decide; [done|]). unfold lacks. simpl. by rewrite bool_decide_eq_false_2.
Qed.
Lemma escape_lacks s : lacks ":" (escapeSub s) = true.
Proof.
  induction s as [|c s IH]; [done|]. rewrite escapeSub_cons. unfold lacks in *. rewrite all_bytes_app, IH.
  pose proof (esc_lacks c) as H. unfold lacks in H. by rewrite H.
Qed.
Lemma esc_inj a b x y : esc a +:+ x = esc b +:+ y -> a = b /\ x = y.
Proof. unfold esc. repeat case_decide; subst; simpl; intros E; by simplify_eq. Qed.
Lemma escape_inj s t : escapeSub s = escapeSub t -> s = t.
Proof.
  revert t. induction s as [|c s IH]; intros [|d t]; [done| | |].
  - rewrite escapeSub_cons. unfold esc. by repeat case_decide.
  - rewrite escapeSub_cons. unfold esc. by repeat case_decide.
  - rewrite !escapeSub_cons. intros [-> H]%esc_inj. f_equal. by apply IH.
Qed.

(** The first separator splits in one way. *)
Lemma split_first c a b x y : lacks c a = true -> lacks c b = true -> a +:+ String c x = b +:+ String c y -> a = b /\ x = y.
Proof.
  intros Ha Hb H. pose proof (IndexByte_app c a x Ha) as E. rewrite H, (IndexByte_app c b y Hb) in E. injection E as E.
  assert (a = b) as ->.
  { rewrite <-(stake_app a (String c x)), <-(stake_app b (String c y)), H. by f_equal. }
  split; [done|]. apply (inj (String.app b)) in H. by injection H.
Qed.

(** What a policy can tell apart: a pull request, a merge queue by its base, or a
    reference by type and name. *)
Inductive surface := OfPullRequest | OfMergeGroup (base : string) | OfRef (refType ref : string).
Definition surface_of (c : JobClaims) : surface :=
  if decide (JC_Cause c = "pull_request") then OfPullRequest
  else if decide (JC_Cause c = "merge_group") then OfMergeGroup (if decide (JC_Ref c = "") then "none" else JC_Ref c)
  else if decide (JC_RefType c = "" \/ JC_Ref c = "") then OfRef "none" "none" else OfRef (JC_RefType c) (JC_Ref c).
Definition surface_text (s : surface) : string :=
  match s with
  | OfPullRequest => "pull_request"
  | OfMergeGroup base => "merge_group:ref:" +:+ escapeSub base
  | OfRef refType ref => "ref_type:" +:+ refType +:+ ":ref:" +:+ escapeSub ref
  end.
Lemma Subject_text c : Subject c =
  "project:" +:+ (escapeSub (JC_ProjectSlug c) +:+ String ":" ("pipeline:" +:+ (escapeSub (JC_Pipeline c) +:+ String ":" (surface_text (surface_of c))))).
Proof.
  unfold Subject, surface_of. repeat case_decide; cbn [surface_text]; rewrite !app_assoc_s; f_equal.
Qed.
Lemma surface_text_inj s1 s2 :
  match s1 with OfRef t _ => lacks ":" t = true | _ => True end -> match s2 with OfRef t _ => lacks ":" t = true | _ => True end ->
  surface_text s1 = surface_text s2 -> s1 = s2.
Proof.
  destruct s1 as [|b1|t1 r1], s2 as [|b2|t2 r2]; intros H1 H2 H; try done; cbn [surface_text] in H.
  - apply (inj (String.app _)) in H. by apply escape_inj in H as ->.
  - apply (inj (String.app _)) in H. apply split_first in H as [-> H]; [|done..].
    apply (inj (String.app "ref:")) in H. by apply escape_inj in H as ->.
Qed.
Lemma Subject_inj c1 c2 : lacks ":" (JC_RefType c1) = true -> lacks ":" (JC_RefType c2) = true -> Subject c1 = Subject c2 ->
  JC_ProjectSlug c1 = JC_ProjectSlug c2 /\ JC_Pipeline c1 = JC_Pipeline c2 /\ surface_of c1 = surface_of c2.
Proof.
  intros H1 H2. rewrite !Subject_text. intros H. apply (inj (String.app _)) in H.
  apply split_first in H as [Hs H]; [|apply escape_lacks..]. apply (inj (String.app _)) in H.
  apply split_first in H as [Hp H]; [|apply escape_lacks..]. split_and!; [by apply escape_inj|by apply escape_inj|].
  apply surface_text_inj; [| |done]; unfold surface_of; repeat case_decide; done.
Qed.

Section Built.
Context `{MapRange} `{UUIDText}.

(** the subject of a job's token, which cloud policies are pinned to, cannot be
    forged - two dispatched jobs with the same subject belong to the same project and
    pipeline and to the same surface: pull requests match only pull requests, whatever
    their branch is called, a merge queue only a queue with its base, and a branch or
    a tag only itself. *)
Theorem subject_unforgeable (run1 run2 : RunForDispatch) (job1 job2 : DispatchableJob) :
  Subject (buildJobClaims run1 job1) = Subject (buildJobClaims run2 job2) ->
  RD_ProjectSlug run1 = RD_ProjectSlug run2 /\
  pipelineNameFromDefinition (RD_Definition run1) = pipelineNameFromDefinition (RD_Definition run2) /\
  surface_of (buildJobClaims run1 job1) = surface_of (buildJobClaims run2 job2) /\
  (RD_Cause run1 = "pull_request" <-> RD_Cause run2 = "pull_request") /\
  (RD_Cause run1 = "merge_group" <-> RD_Cause run2 = "merge_group").
Proof.
  assert (Hf : forall run job, lacks ":" (JC_RefType (buildJobClaims run job)) = true /\
            JC_ProjectSlug (buildJobClaims run job) = RD_ProjectSlug run /\
            JC_Pipeline (buildJobClaims run job) = pipelineNameFromDefinition (RD_Definition run) /\
            JC_Cause (buildJobClaims run job) = RD_Cause run).
  { intros run job. unfold buildJobClaims. destruct (primaryRevision _) as [sha branch].
    destruct (claim_ref run branch) as [t r] eqn:E. split_and!; [|done..]. cbn [JC_RefType].
    unfold claim_ref in E. repeat case_match; by simplify_eq. }
  destruct (Hf run1 job1) as (L1 & S1 & P1 & C1), (Hf run2 job2) as (L2 & S2 & P2 & C2).
  intros (Hs & Hp & Hc)%Subject_inj; [|done..]. rewrite S1, S2 in Hs. rewrite P1, P2 in Hp.
  split_and!; [done|done|done|..]; revert Hc; unfold surface_of; rewrite C1, C2; repeat case_decide; intros Hc; try done; split; intros; congruence.
Qed.

(** Every declared token is minted, under its own name, for the job's claims. *)
Lemma mint_fold (mint : JobClaims -> list string -> result string string) jc (l : list (string * IDTokenSpec)) (acc tokens : gmap string string) : NoDup l.*1 ->
  fold_all (fun tokens kv => token ← map_err (MintFailed kv.1) (mint jc (Aud kv.2)); Ok (<[kv.1 := token]> tokens)) acc l = Ok tokens ->
  (forall k spec, (k, spec) ∈ l -> exists tok, tokens !! k = Some tok /\ mint jc (Aud spec) = Ok tok) /\
  (forall k, k ∉ l.*1 -> tokens !! k = acc !! k).
Proof.
  revert acc. induction l as [|[k spec] l IH]; intros acc Hd; simpl.
  - intros [= <-]. split; [by intros k spec ?%elem_of_nil|done].
  - inversion Hd as [|? ? Hk Hd']; subst. destruct (mint jc (Aud spec)) as [tok|] eqn:Em; simpl; [|done].
    intros [H1 H2]%IH; [|done]. split.
    + intros k' spec' [[= -> ->]|Hin]%elem_of_cons; [|by apply H1]. exists tok. rewrite H2 by done. by rewrite lookup_insert_eq.
    + intros k' Hk'. apply not_elem_of_cons in Hk' as [Hne Hk']. rewrite H2 by done. by rewrite lookup_insert_ne.
Qed.
Lemma mintIDTokens_complete minter run job tokens : mintIDTokens minter run job = Ok tokens ->
  forall k, match idTokenSpecsForJob (RD_Definition run) (dj_Name job) !! k with
            | Some spec => exists mint tok, minter = Some mint /\ tokens !! k = Some tok /\
                             mint (buildJobClaims run job) (Aud spec) = Ok tok
            | None => tokens !! k = None
            end.
Proof.
  unfold mintIDTokens. case_decide as He; [intros [= <-] k; by rewrite He, lookup_empty|].
  destruct minter as [mint|]; [|done]. intros [H1 H2]%mint_fold k; [|apply NoDup_range_map].
  destruct (_ !! k) as [spec|] eqn:Ek.
  - destruct (H1 k spec) as (tok & Ht & Hm); [by apply elem_of_range_map|]. eauto.
  - rewrite H2; [apply lookup_empty|]. rewrite list_elem_of_fmap. intros ([k' spec] & -> & Hin%elem_of_range_map). simpl in *. congruence.
Qed.
End Built.

(** ** Examples *)

Example pr_subject : Subject (@buildJobClaims library_range example_uuids (pr_run "t") ship) = "project:shop:pipeline::pull_request".
Proof. vm_compute. reflexivity. Qed.
Example branch_subject : Subject (@buildJobClaims library_range example_uuids ship_run ship) =
  "project:shop:pipeline::ref_type:branch:ref:main".
Proof. vm_compute. reflexivity. Qed.
Lemma subject_unforgeable_witness :
  Subject (@buildJobClaims library_range example_uuids ship_run ship) = Subject (@buildJobClaims library_range example_uuids ship_run audit) /\
  surface_of (@buildJobClaims library_range example_uuids ship_run ship) = OfRef "branch" "main".
Proof.
  assert (E : Subject (@buildJobClaims library_range example_uuids ship_run ship) =
              Subject (@buildJobClaims library_range example_uuids ship_run audit)) by (vm_compute; reflexivity).
  split; [exact E|].
  rewrite (proj1 (proj2 (proj2 (@subject_unforgeable library_range example_uuids ship_run ship_run ship audit E)))).
  vm_compute. reflexivity.
Defined.
