(* ===== verification/Dispatch.v ===== *)
(** [server/internal/scheduler]: what a dispatch tick decides for one job once its
    needs are met - the freeze pre-scan ([freeze.go]), the native takeover
    ([scheduler_native.go]), the resolvers ([scheduler_resolve.go], [clusters.go],
    [oidctokens.go]), the assignment, the build cache ([buildcache.go]) and the
    deploy guard - in the order of the loop of [dispatchRun] ([scheduler.go]).  The
    decision is the answer the tick of [Scheduler] is given. *)

From S2P Require Import Prelude GoStrings GoRegexp Domain CacheKey ParseHelpers ParseJob RunTables Needs Scheduler Matrix Refs Assignment Claims.

(** ** The definition's readers *)

Definition jobDefFromDefinition (run : RunForDispatch) (name : string) : result assign_error Job :=
  match RD_Definition run with
  | None => Err DecodePipeline
  | Some def => match findJob (Jobs def) name with Some j => Ok j | None => Err (NotInDefinition name) end
  end.
Definition JobSecretsFromDefinition (run : RunForDispatch) (name : string) : result assign_error (list string) :=
  Job_Secrets <$> jobDefFromDefinition run name.
Definition JobTagsFromDefinition (run : RunForDispatch) (name : string) : result assign_error (list string) :=
  Job_Tags <$> jobDefFromDefinition run name.
Definition JobArtifactDepsFromDefinition (run : RunForDispatch) (name : string) : result assign_error (list ArtifactDep) :=
  Job_ArtifactDeps <$> jobDefFromDefinition run name.
Definition clusterNameForJob (run : RunForDispatch) (name : string) : string :=
  match RD_Definition run with
  | None => ""
  | Some def => match findJob (Jobs def) name with Some j => Job_Cluster j | None => "" end
  end.

(** ** The queue reason of a tick *)

Inductive holdPriority := holdNone | holdSupersedeLockBusy | holdSupersedeBlocked | holdFrozen.
Definition hold_rank (p : holdPriority) : nat :=
  match p with holdNone => 0 | holdSupersedeLockBusy => 1 | holdSupersedeBlocked => 2 | holdFrozen => 3 end.
Record runHold := { hold_priority : holdPriority; hold_reason : string }.
Definition no_hold : runHold := {| hold_priority := holdNone; hold_reason := "" |}.
Definition record_hold (h : runHold) (pr : holdPriority * string) : runHold :=
  let '(p, reason) := pr in
  if (hold_rank (hold_priority h) <? hold_rank p)%nat ||
     ((hold_rank p =? hold_rank (hold_priority h))%nat && (bool_decide (hold_reason h = "") || String.ltb reason (hold_reason h)))
  then {| hold_priority := p; hold_reason := reason |} else h.
Definition held (h : runHold) : bool := match hold_priority h with holdNone => false | _ => true end.

(** ** The freeze pre-scan *)

Record freezeMemo := { frozen : gset string; winner : string; envByJob : gmap string string }.
Definition empty_memo : freezeMemo := {| frozen := ∅; winner := ""; envByJob := ∅ |}.
Definition memo_any (m : freezeMemo) : bool := negb (bool_decide (frozen m = ∅)).
Definition holds (m : freezeMemo) (env : string) : bool := bool_decide (env ∈ frozen m).
Definition envFor (m : freezeMemo) (jobName : string) : string := default "" (envByJob m !! jobName).

(** A later job of the same name wins: the loop assigns. *)
Definition declaredEnvIndex (def : Pipeline) : gmap string string :=
  foldl (fun out j => let env := TargetEnvironment j in if decide (env = "") then out else <[Job_Name j := env]> out)
    ∅ (Jobs def).
(** [frozenEnvironments]: the ones that are frozen among those asked for; its
    failure leaves the pre-scan without an opinion. *)
Definition scanFrozenDeployEnvs (frozenEnvironments : list string -> option (list string)) (run : RunForDispatch)
    (ready : list DispatchableJob) : freezeMemo :=
  match RD_Definition run with
  | None => empty_memo
  | Some def =>
      let index := declaredEnvIndex def in
      if decide (index = ∅) then empty_memo
      else
        let none := {| frozen := ∅; winner := ""; envByJob := index |} in
        let envs := dedup (omap (fun j => index !! dj_Name j) ready) in
        match envs with
        | [] => none
        | _ => match frozenEnvironments envs with
               | None => none
               | Some l => match sort_strings l with
                           | [] => none
                           | first :: _ => {| frozen := list_to_set l; winner := first; envByJob := index |}
                           end
               end
        end
  end.

(** ** What the scheduler calls *)

Inductive profile_error := ErrRunnerProfileNotFound | ProfileError (msg : string).
Inductive cluster_error := ClusterUnavailable | ClusterFailed (msg : string).
Record ArtifactRow := { AR_Path : string; AR_StorageKey : string; AR_ContentSHA256 : string; AR_JobName : string }.
Inductive guard_status := GuardFailed | GuardLockBusy | GuardBlocked | GuardTaken.
Inductive reconcile_result := ReconcileError | ReconcileTerminalFault (public : string) | ReconcileConflictRetry
| ReconcileChanged | ReconcileUnchanged.
Record NativeDeployInput := { ND_Environment : string; ND_Version : string; ND_Revision : string; ND_Declared : option DeployTargetSpec }.
Inductive native_decision := DecisionNative | DecisionSkip | DecisionFrozen | DecisionGated | DecisionFallback.
Record NativeBackend := {
  HasTarget : string -> option bool;                           (* [None]: the lookup failed *)
  ReconcileDeclarativeTarget : string -> DeployTargetSpec -> reconcile_result;
  TakeOverCall : NativeDeployInput -> option native_decision;  (* [None]: it failed *)
}.

Inductive dispatch_error :=
| SecretsDefinition (e : assign_error) | SecretsNoBackend (name : string) | SecretsBackend (msg : string)
| SecretsMissing (names : list string)
| DepsDefinition (e : assign_error) | DepsNoBackend | DepsUpstream (msg : string) | DepsNoUpstream (pipeline : string)
| DepsOtherUpstream (pipeline actual : string) | DepsLookup (job msg : string) | DepsNone (job : string) | DepsSign (path msg : string)
| ProfileDefinition (e : assign_error) | ProfileFailed (name : string) (e : profile_error)
| NeedsFailed (msg : string) | NeedsGrouping (e : group_error)
| TokensFailed (e : token_error) | ClusterDispatch (e : cluster_error)
| AssignmentFailed (e : assign_error)
| MarkerFailed (e : version_error) | MarkerNotCorrelatable
| TargetFault (public : string) | TargetGated (env : string).

Record Backend := {
  FrozenEnvironments : list string -> option (list string);
  native : option NativeBackend;
  BeginGuard : string -> guard_status;                         (* [BeginDeploymentRevisionGuard] *)
  FindIdle : list string -> option uuid;
  SecretResolver : option (list string -> result string (gmap string string));
  ArtifactSign : option (string -> result string string);
  ListReady : uuid -> string -> list string -> result string (list ArtifactRow);
  UpstreamContext : result string (option (uuid * string));    (* run and pipeline *)
  ProfileByName : string -> result profile_error ResolvedProfile;
  ListMaterials : option (list MaterialRow);
  CloneTokens : list MaterialRow -> gmap string string;
  OutputRows : list string -> result string (list JobOutputs);
  Minter : option (JobClaims -> list string -> result string string);
  ResolveCluster : string -> result cluster_error (string * list string);
  AdmissionFrozen : string -> bool;                            (* the re-check inside the claim *)
}.

Definition DefaultRunnerProfileName : string := "default".

(** ** The resolvers *)

Section Resolve.
Context `{MapRange} `{UUIDText} (b : Backend) (run : RunForDispatch).

Definition resolveJobSecrets (name : string) : result dispatch_error (gmap string string) :=
  names ← map_err SecretsDefinition (JobSecretsFromDefinition run name);
  match names with
  | [] => Ok ∅
  | n :: _ =>
      match SecretResolver b with
      | None => Err (SecretsNoBackend n)
      | Some resolve =>
          resolved ← map_err SecretsBackend (resolve names);
          match filter (fun n => resolved !! n = None) names with
          | [] => Ok resolved
          | missing => Err (SecretsMissing missing)
          end
      end
  end.

Definition resolveDepRunID (dep : ArtifactDep) : result dispatch_error uuid :=
  if decide (Dep_FromPipeline dep = "") then Ok (RD_ID run)
  else
    ctx ← map_err DepsUpstream (UpstreamContext b);
    match ctx with
    | None => Err (DepsNoUpstream (Dep_FromPipeline dep))
    | Some (id, pipeline) => if decide (pipeline = Dep_FromPipeline dep) then Ok id
                             else Err (DepsOtherUpstream (Dep_FromPipeline dep) pipeline)
    end.
Definition sign_row (sign : string -> result string string) (dest : string) (a : ArtifactRow) : result dispatch_error ArtifactDownload :=
  url ← map_err (DepsSign (AR_Path a)) (sign (AR_StorageKey a));
  Ok {| Dl_Path := AR_Path a; StorageKey := AR_StorageKey a; GetUrl := url; Dl_Dest := dest;
        ContentSha256 := AR_ContentSHA256 a; Dl_FromJob := AR_JobName a |}.
Definition resolve_dep (sign : string -> result string string) (dep : ArtifactDep) : result dispatch_error (list ArtifactDownload) :=
  sourceRunID ← resolveDepRunID dep;
  rows ← map_err (DepsLookup (Dep_FromJob dep)) (ListReady b sourceRunID (Dep_FromJob dep) (Dep_Paths dep));
  match rows with
  | [] => Err (DepsNone (Dep_FromJob dep))
  | _ => map_res (sign_row sign (if decide (Dep_Dest dep = "") then "./" else Dep_Dest dep)) rows
  end.
Definition resolveArtifactDeps (name : string) : result dispatch_error (list ArtifactDownload) :=
  deps ← map_err DepsDefinition (JobArtifactDepsFromDefinition run name);
  match deps with
  | [] => Ok []
  | _ => match ArtifactSign b with
         | None => Err DepsNoBackend
         | Some sign => (fun l => concat l) <$> map_res (resolve_dep sign) deps
         end
  end.

Definition resolveProfile (name : string) : result dispatch_error ResolvedProfile :=
  jobDef ← map_err ProfileDefinition (jobDefFromDefinition run name);
  if decide (Job_Profile jobDef = "") then
    match ProfileByName b DefaultRunnerProfileName with
    | Ok p => Ok p
    | Err ErrRunnerProfileNotFound => Ok empty_profile
    | Err e => Err (ProfileFailed DefaultRunnerProfileName e)
    end
  else map_err (ProfileFailed (Job_Profile jobDef)) (ProfileByName b (Job_Profile jobDef)).

Definition buildNeedsOutputs (j : DispatchableJob) : result dispatch_error (NeedsOutputs * MatrixNeedsOutputs) :=
  match dj_Needs j with
  | [] => Ok (∅, ∅)
  | needs => rows ← map_err NeedsFailed (OutputRows b needs); map_err NeedsGrouping (groupNeedsOutputs rows)
  end.
Definition resolveClusterKubeconfig (name : string) : result dispatch_error (string * list string) :=
  let cluster := clusterNameForJob run name in
  if decide (cluster = "") then Ok ("", []) else map_err ClusterDispatch (ResolveCluster b cluster).

(** ** The deploy guard and the native takeover *)

Inductive guard_outcome := guardProceed | guardSkip (h : holdPriority * string) | guardError.
Definition beginDeployGuard (env : string) : guard_outcome :=
  match RD_Definition run with
  | None => guardError
  | Some def =>
      if negb (bool_decide (Supersede def = "branch") || bool_decide (Supersede def = "pipeline")) then guardProceed
      else match BeginGuard b env with
           | GuardFailed => guardError
           | GuardLockBusy => guardSkip (holdSupersedeLockBusy, "supersede-lock-busy:" +:+ env)
           | GuardBlocked => guardSkip (holdSupersedeBlocked, "supersede-blocked:" +:+ env)
           | GuardTaken => guardProceed
           end
  end.

(** What the tick does with the job. *)
Inductive outcome :=
| Stays (h : option (holdPriority * string))      (* queued; nothing is written *)
| Stops                                           (* [break] *)
| Fails (e : dispatch_error)                      (* [failJobWithError] *)
| GoesNative (i : NativeDeployInput)
| GoesToAgent (agent : uuid) (a : JobAssignment) (t : option DeployTarget).
Definition held_frozen (env : string) : option (holdPriority * string) := Some (holdFrozen, "frozen-deploy:" +:+ env).

Context `{UnicodeCase}.

Inductive marker_error := MarkerTerminal (e : dispatch_error) | MarkerRetry.
Definition resolveNativeDeployMarker (j : DispatchableJob) (jobDef : Job) (d : DeploySpec) : result marker_error (string * string) :=
  '(needs, matrix) ← map_err (fun _ => MarkerRetry) (buildNeedsOutputs j);
  match RD_Definition run with
  | None => Err MarkerRetry
  | Some def =>
      let dims := buildMatrixDims def matrix in
      let ciVars := buildCIVars run (dj_Name j) in
      let vars := Job_Variables jobDef ∪ Pipeline_Variables def in
      version ← map_err (fun e => MarkerTerminal (MarkerFailed e)) (resolveDeployMarkerVersion needs matrix dims d vars ciVars);
      let declared := TrimSpace (Deploy_Revision d) in
      declared ← (if decide (declared <> "")
                  then map_err (fun e => MarkerTerminal (MarkerFailed e)) (resolveDeployVersion needs matrix dims declared vars ciVars)
                  else Ok declared);
      match correlationRevision version declared (default "" (ciVars !! "CI_COMMIT_SHA")) with
      | Some revision => Ok (version, revision)
      | None => Err (MarkerTerminal MarkerNotCorrelatable)
      end
  end.

Definition declaredNamespace (ns : string) : string := if decide (TrimSpace ns <> "") then TrimSpace ns else "argocd".
(** [inl]: nothing more for this job in this tick; [inr]: the takeover goes on. *)
Definition reconcileDeclaredTarget (nb : NativeBackend) (env : string) (declared : DeployTargetSpec) : outcome + unit :=
  match ReconcileDeclarativeTarget nb env declared with
  | ReconcileError | ReconcileConflictRetry => inl (Stays None)
  | ReconcileTerminalFault public => inl (Fails (TargetFault public))
  | ReconcileChanged | ReconcileUnchanged => inr tt
  end.
Definition native_rules (nb : NativeBackend) (d : DeploySpec) : option (outcome + unit) :=
  match Deploy_Target d with
  | Some declared => Some (reconcileDeclaredTarget nb (Deploy_Environment d) declared)
  | None => match HasTarget nb (Deploy_Environment d) with
            | None => Some (inl (Stays None))
            | Some true => Some (inr tt)
            | Some false => None
            end
  end.
(** [None] falls through to the agent. *)
Definition tryNativeDeploy (nb : NativeBackend) (j : DispatchableJob) (jobDef : Job) (d : DeploySpec) : option outcome :=
  let env := Deploy_Environment d in
  match beginDeployGuard env with
  | guardSkip h => Some (Stays (Some h))
  | guardError => Some (Stays None)
  | guardProceed =>
      match native_rules nb d with
      | None => None
      | Some (inl o) => Some o
      | Some (inr tt) =>
          match resolveNativeDeployMarker j jobDef d with
          | Err (MarkerTerminal e) => Some (Fails e)
          | Err MarkerRetry => Some (Stays None)
          | Ok (version, revision) =>
              let i := {| ND_Environment := env; ND_Version := version; ND_Revision := revision;
                          ND_Declared := (fun t => {| Target_Cluster := Target_Cluster t; Target_Application := Target_Application t;
                                                      Target_Namespace := declaredNamespace (Target_Namespace t);
                                                      Target_SyncMode := Target_SyncMode t |}) <$> Deploy_Target d |} in
              match TakeOverCall nb i with
              | None | Some DecisionSkip => Some (Stays None)
              | Some DecisionNative => Some (GoesNative i)
              | Some DecisionFrozen => Some (Stays (held_frozen env))
              | Some DecisionGated => Some (Fails (TargetGated env))
              | Some DecisionFallback => match Deploy_Target d with Some _ => Some (Stays None) | None => None end
              end
          end
      end
  end.
End Resolve.

(** ** The build cache ([buildcache.go]) *)

Definition gradlePluginRepo : string := "gocdnext-plugin-gradle".
Definition before_byte (s : string) (c : Ascii.ascii) : string := match IndexByte s c with Some i => stake i s | None => s end.
Definition imageRepoBasename (image : string) : string :=
  let image := before_byte image "@"%char in
  let image := match LastIndexByte image "/"%char with Some i => sdrop (i + 1) image | None => image end in
  before_byte image ":"%char.
Definition usesGradlePlugin (a : JobAssignment) : bool :=
  existsb (fun t => match t with
                    | TaskSpec_Plugin image _ => bool_decide (imageRepoBasename image = gradlePluginRepo)
                    | TaskSpec_Script _ => bool_decide (imageRepoBasename "" = gradlePluginRepo)
                    end) (JA_Tasks a).
(** What the cache is configured with; the mint is the token signed for the project,
    with write access or not. *)
Record BuildCache := {
  bc_base : string;                       (* the public base URL *)
  bc_generation : option string;          (* [None]: the lookup failed; empty: disabled *)
  bc_shared : bool;                       (* the cache scope resolves to the shared lane *)
  bc_mint : bool -> string -> string;     (* write access, generation *)
}.
Definition with_cache (a : JobAssignment) (env : gmap string string) (token : string) : JobAssignment := {|
  JA_RunId := JA_RunId a; JA_JobId := JA_JobId a; JA_Name := JA_Name a; JA_Image := JA_Image a; JA_Tasks := JA_Tasks a;
  JA_Env := env ∪ JA_Env a; JA_Checkouts := JA_Checkouts a; JA_Workspace := JA_Workspace a; JA_TimeoutSeconds := JA_TimeoutSeconds a;
  JA_LogMasks := JA_LogMasks a ++ [token]; JA_ArtifactPaths := JA_ArtifactPaths a;
  JA_OptionalArtifactPaths := JA_OptionalArtifactPaths a; JA_ArtifactsWhen := JA_ArtifactsWhen a;
  JA_ArtifactDownloads := JA_ArtifactDownloads a; JA_Docker := JA_Docker a; JA_Services := JA_Services a;
  JA_Caches := JA_Caches a; JA_TestReports := JA_TestReports a; JA_CoverageReport := JA_CoverageReport a;
  JA_Resources := JA_Resources a; JA_Profile := JA_Profile a; JA_Outputs := JA_Outputs a; JA_NodeSelector := JA_NodeSelector a;
  JA_Tolerations := JA_Tolerations a; JA_PreferredNodeAffinity := JA_PreferredNodeAffinity a;
  JA_WorkspaceSize := JA_WorkspaceSize a; JA_WorkspaceStorageClass := JA_WorkspaceStorageClass a;
  JA_DindStorageSize := JA_DindStorageSize a; JA_DindStorageClass := JA_DindStorageClass a;
  JA_ServiceGeneration := JA_ServiceGeneration a;
|}.
(** [None]: no signing key is configured. *)
Definition injectBuildCache (c : option BuildCache) (run : RunForDispatch) (a : JobAssignment) : JobAssignment :=
  match c with
  | None => a
  | Some c =>
      if decide (bc_base c = "") then a
      else if negb (usesGradlePlugin a) then a
      else match bc_generation c with
           | None => a
           | Some gen =>
               if decide (gen = "") then a
               else
                 let write := bc_shared c in
                 let token := bc_mint c write gen in
                 if decide (token = "") then a
                 else with_cache a (list_to_map [
                        ("GOCDNEXT_BUILD_CACHE_URL", bc_base c +:+ "/api/v1/buildcache/" +:+ RD_ProjectSlug run +:+ "/");
                        ("GOCDNEXT_BUILD_CACHE_USER", "gocdnext"); ("GOCDNEXT_BUILD_CACHE_PASSWORD", token);
                        ("GOCDNEXT_BUILD_CACHE_PUSH", if write then "true" else "false")]) token
           end
  end.

(** ** One job of the tick *)

(** Whether a failed build will fail the same way for ever: [ErrNeedsRefUnresolved],
    [ErrDeployVersionEmpty] and [ErrDeployVersionUnresolved]. *)
Definition terminal (e : assign_error) : bool :=
  match e with EnvNeeds _ _ | SettingsNeeds _ _ _ | DeployVersion _ => true | _ => false end.

Section Prepare.
Context `{MapRange} `{UUIDText} `{UnicodeCase} (b : Backend) (cache : option BuildCache) (run : RunForDispatch) (image : string).

(** The assignment for the agent that was found. *)
Definition assign (j : DispatchableJob) : outcome + (JobAssignment * option DeployTarget) :=
  let fails {A} (f : A -> outcome + (JobAssignment * option DeployTarget)) (m : result dispatch_error A) :=
    match m with Ok x => f x | Err e => inl (Fails e) end in
  fails (fun secrets => fails (fun downloads => fails (fun profile =>
    match ListMaterials b with
    | None => inl Stops
    | Some materials =>
        fails (fun nm => fails (fun tokens => fails (fun cluster =>
          let r := {| rs_secrets := secrets; rs_downloads := downloads; rs_profile := profile;
                      rs_cloneTokens := CloneTokens b materials; rs_needs := nm.1; rs_matrix := nm.2; rs_idTokens := tokens;
                      rs_clusterKubeconfig := cluster.1; rs_clusterMasks := cluster.2 |} in
          match BuildAssignment run j image materials r with
          | Ok (a, t) => inr (injectBuildCache cache run a, t)
          | Err e => inl (if terminal e then Fails (AssignmentFailed e) else Stays None)
          end) (resolveClusterKubeconfig b run (dj_Name j)))
            (map_err TokensFailed (mintIDTokens (Minter b) run j)))
              (buildNeedsOutputs b j)
    end)
      (resolveProfile b run (dj_Name j)))
        (resolveArtifactDeps b run (dj_Name j)))
          (resolveJobSecrets b run (dj_Name j)).

(** The part of the iteration after the native takeover. *)
Definition to_agent (memo : freezeMemo) (j : DispatchableJob) : outcome :=
  match JobTagsFromDefinition run (dj_Name j) with
  | Err _ => Stays None
  | Ok tags =>
      match FindIdle b tags with
      | None => Stays None
      | Some agent =>
          match assign j with
          | inl o => o
          | inr (a, t) =>
              let guard := match t with
                           | Some target => if dj_DeployRollback j then guardProceed else beginDeployGuard b run (DT_Environment target)
                           | None => guardProceed
                           end in
              match guard with
              | guardSkip h => Stays (Some h)
              | guardError => Stays None
              | guardProceed =>
                  let env := match t with Some target => DT_Environment target | None => envFor memo (dj_Name j) end in
                  let checked := match t with Some _ => true | None => negb (bool_decide (env = "")) end in
                  if checked && AdmissionFrozen b env then Stays (held_frozen env) else GoesToAgent agent a t
              end
          end
      end
  end.
Definition prepare (memo : freezeMemo) (j : DispatchableJob) : outcome :=
  let env := envFor memo (dj_Name j) in
  if memo_any memo && negb (bool_decide (env = "")) && holds memo env then Stays (held_frozen (winner memo))
  else
    match native b with
    | Some nb =>
        if dj_DeployRollback j then to_agent memo j
        else match jobDefFromDefinition run (dj_Name j) with
             | Ok jobDef => match Job_Deploy jobDef with
                            | Some d => match tryNativeDeploy b run nb j jobDef d with
                                        | Some o => o
                                        | None => to_agent memo j
                                        end
                            | None => to_agent memo j
                            end
             | Err _ => to_agent memo j
             end
    | None => to_agent memo j
    end.

(** The answer the tick of [Scheduler] is given; [delivered]: the deploy revision was
    recorded and the session took the assignment. *)
Definition prep_of (message : dispatch_error -> string) (o : outcome) : Prep :=
  match o with
  | Stays _ => Hold
  | Stops => StopTick
  | Fails e => Misconfigured (message e)
  | GoesNative _ => TakeOver
  | GoesToAgent agent _ _ => ToAgent agent
  end.
End Prepare.

(** ** The queue reason does not depend on the order of the jobs *)

(** [x] outranks [y], or ties with it and is not the later reason. *)
Definition hold_le (x y : holdPriority * string) : Prop :=
  hold_rank y.1 < hold_rank x.1 \/ (hold_rank x.1 = hold_rank y.1 /\ String.le x.2 y.2).
Definition hold_pair (h : runHold) : holdPriority * string := (hold_priority h, hold_reason h).
Definition opinion (x : holdPriority * string) : Prop := x.1 <> holdNone /\ x.2 <> "".

Lemma hold_rank_inj p q : hold_rank p = hold_rank q -> p = q.
Proof. by destruct p, q. Qed.
Lemma hold_le_trans x y z : hold_le x y -> hold_le y z -> hold_le x z.
Proof.
  unfold hold_le. intros [H1|[H1 H2]] [H3|[H3 H4]]; [left; lia|left; lia|left; lia|right]. split; [lia|].
  by transitivity y.2.
Qed.
Lemma hold_le_antisym x y : hold_le x y -> hold_le y x -> x = y.
Proof.
  unfold hold_le. intros [H1|[H1 H2]] [H3|[H3 H4]]; [lia..|]. destruct x, y. simpl in *.
  apply hold_rank_inj in H1 as ->. f_equal. by apply (anti_symm String.le).
Qed.
Lemma record_hold_step h x : opinion x -> (hold_priority h = holdNone \/ hold_reason h <> "") ->
  (hold_pair (record_hold h x) = x /\ hold_le x (hold_pair h)) \/ (record_hold h x = h /\ hold_le (hold_pair h) x).
Proof.
  destruct x as [p reason], h as [q old]. intros [Hp Hr] Hh. unfold record_hold, hold_le. cbn [hold_priority hold_reason hold_pair fst snd] in *.
  destruct (Nat.ltb_spec (hold_rank q) (hold_rank p)) as [Hlt|Hge]; simpl; [by left; auto|].
  destruct (Nat.eqb_spec (hold_rank p) (hold_rank q)) as [He|Hne]; simpl; [|right; split; [done|left; lia]].
  assert (Hold : old <> ""). { destruct Hh as [Hq|?]; [|done]. destruct Hp. by apply hold_rank_inj in He as ->. }
  rewrite bool_decide_eq_false_2 by done. simpl. destruct (String.ltb reason old) eqn:E.
  - left. split; [done|]. right. split; [done|by apply ltb_leb].
  - right. split; [done|]. right. split; [done|by apply ltb_false].
Qed.
Lemma fold_hold l h : Forall opinion l -> (hold_priority h = holdNone \/ hold_reason h <> "") ->
  let r := foldl record_hold h l in
  (r = h \/ hold_pair r ∈ l) /\ (hold_le (hold_pair r) (hold_pair h)) /\ (forall x, x ∈ l -> hold_le (hold_pair r) x).
Proof.
  intros Hl. revert h. induction Hl as [|x l Hx _ IH]; intros h Hh; simpl.
  - split_and!; [by left|by right|]. by intros x ?%elem_of_nil.
  - assert (Hh' : hold_priority (record_hold h x) = holdNone \/ hold_reason (record_hold h x) <> "").
    { destruct (record_hold_step h x Hx Hh) as [[E _]|[-> _]]; [|done]. right. destruct Hx as [_ Hx]. by rewrite <-E in Hx. }
    destruct (IH _ Hh') as (H1 & H2 & H3). destruct (record_hold_step h x Hx Hh) as [[E Hle]|[E Hle]].
    + rewrite E in H2. split_and!.
      * right. destruct H1 as [->|?]; [rewrite E; left|by right].
      * by eapply hold_le_trans.
      * intros y [->|Hy]%elem_of_cons; [done|by apply H3].
    + rewrite E in *. split_and!; [destruct H1; [by left|right; by right]|done|].
      intros y [->|Hy]%elem_of_cons; [by eapply hold_le_trans|by apply H3].
Qed.

(** the queue reason written at the end of a tick does not depend on the order in
    which the jobs were visited - it is the highest-ranking reason recorded, a change
    freeze before a supersede state, and of equal ones the smallest text; and a run is
    held exactly when some job recorded a reason. *)
Theorem queue_reason_order (l l' : list (holdPriority * string)) :
  Forall opinion l -> l ≡ₚ l' ->
  foldl record_hold no_hold l = foldl record_hold no_hold l' /\
  (forall x, x ∈ l -> hold_le (hold_pair (foldl record_hold no_hold l)) x) /\
  (held (foldl record_hold no_hold l) = true <-> l <> []) /\
  (l <> [] -> hold_pair (foldl record_hold no_hold l) ∈ l).
Proof.
  intros Hl Hp. assert (Hl' : Forall opinion l') by by rewrite <-Hp.
  destruct (fold_hold l no_hold Hl) as (H1 & H2 & H3); [by left|]. destruct (fold_hold l' no_hold Hl') as (H1' & H2' & H3'); [by left|].
  set (r := foldl record_hold no_hold l) in *. set (r' := foldl record_hold no_hold l') in *.
  assert (Hsome : l <> [] -> hold_pair r ∈ l).
  { intros Hne. destruct H1 as [E|?]; [|done]. destruct l as [|x l0]; [done|]. specialize (H3 x ltac:(left)).
    inversion Hl as [|? ? [Hx _] _]; subst. rewrite E in H3. destruct H3 as [H3|[H3 _]]; simpl in H3; [lia|].
    destruct Hx. by apply hold_rank_inj. }
  assert (Heq : r = r').
  { assert (E : hold_pair r = hold_pair r').
    { destruct H1' as [E'|Hin'].
      - destruct (decide (l = [])) as [->|Hne]; [apply Permutation_nil in Hp as ->; done|]. exfalso.
        assert (Hne' : l' <> []) by (intros ->; by apply Permutation_nil_r in Hp).
        specialize (H3' (hold_pair r)). rewrite <-Hp in H3'. specialize (H3' (Hsome Hne)).
        specialize (Hsome Hne). rewrite Forall_forall in Hl. destruct (Hl _ Hsome) as [Hn _]. rewrite E' in H3'.
        destruct H3' as [H3'|[H3' _]]; simpl in H3'; [lia|]. destruct Hn. by apply hold_rank_inj.
      - rewrite <-Hp in Hin'. apply hold_le_antisym; [by apply H3|]. apply H3'. rewrite <-Hp. apply Hsome.
        intros ->. by apply elem_of_nil in Hin'. }
    destruct r, r'. unfold hold_pair in E. simpl in E. by injection E as -> ->. }
  split_and!; [done|done| |done]. split.
  - intros Hh ->. done.
  - intros Hne. specialize (Hsome Hne). rewrite Forall_forall in Hl. destruct (Hl _ Hsome) as [Hn _]. unfold held.
    by destruct (hold_priority r) eqn:E; [destruct Hn; simpl; rewrite E|..].
Qed.

(** ** What is sent *)

Section Sent.
Context `{MapRange} `{UUIDText} `{UnicodeCase} (b : Backend) (cache : option BuildCache) (run : RunForDispatch) (image : string).

(** A job the definition does not hold: the tags are read from the definition, so the
    job is left as it is before any resolver is asked. *)
Lemma unlisted_stays memo j : (forall e, RD_Definition run = Some e -> findJob (Jobs e) (dj_Name j) = None) ->
  exists h, prepare b cache run image memo j = Stays h.
Proof.
  intros Hn. assert (Hdef : exists e, jobDefFromDefinition run (dj_Name j) = Err e).
  { unfold jobDefFromDefinition. destruct (RD_Definition run) as [def|]; [rewrite (Hn def) by done|]; eauto. }
  destruct Hdef as [e He]. assert (Hag : to_agent b cache run image memo j = Stays None).
  { unfold to_agent, JobTagsFromDefinition. by rewrite He. }
  unfold prepare. rewrite He, Hag. destruct (_ && _); [eauto|]. destruct (native b); [|eauto]. destruct (dj_DeployRollback j); eauto.
Qed.

(** What a job sent to an agent went through. *)
Record sent_checks (memo : freezeMemo) (j : DispatchableJob) (agent : uuid) (a : JobAssignment) (t : option DeployTarget)
    (jobDef : Job) (r : Resolved) (materials : list MaterialRow) (built_ : JobAssignment) : Prop := {
  se_job : jobDefFromDefinition run (dj_Name j) = Ok jobDef;
  se_agent : FindIdle b (Job_Tags jobDef) = Some agent;
  se_secrets : resolveJobSecrets b run (dj_Name j) = Ok (rs_secrets r);
  se_downloads : resolveArtifactDeps b run (dj_Name j) = Ok (rs_downloads r);
  se_profile : resolveProfile b run (dj_Name j) = Ok (rs_profile r);
  se_materials : ListMaterials b = Some materials;
  se_needs : buildNeedsOutputs b j = Ok (rs_needs r, rs_matrix r);
  se_tokens : mintIDTokens (Minter b) run j = Ok (rs_idTokens r);
  se_cluster : resolveClusterKubeconfig b run (dj_Name j) = Ok (rs_clusterKubeconfig r, rs_clusterMasks r);
  se_built : BuildAssignment run j image materials r = Ok (built_, t);
  se_cache : a = injectBuildCache cache run built_;
  se_guard : forall target, t = Some target -> dj_DeployRollback j = false -> beginDeployGuard b run (DT_Environment target) = guardProceed;
  se_admitted : forall target, t = Some target -> AdmissionFrozen b (DT_Environment target) = false;
  se_env : t = None -> envFor memo (dj_Name j) <> "" -> AdmissionFrozen b (envFor memo (dj_Name j)) = false;
}.
Lemma assign_inv j a t : assign b cache run image j = inr (a, t) -> exists r materials built_,
  resolveJobSecrets b run (dj_Name j) = Ok (rs_secrets r) /\ resolveArtifactDeps b run (dj_Name j) = Ok (rs_downloads r) /\
  resolveProfile b run (dj_Name j) = Ok (rs_profile r) /\ ListMaterials b = Some materials /\
  buildNeedsOutputs b j = Ok (rs_needs r, rs_matrix r) /\ mintIDTokens (Minter b) run j = Ok (rs_idTokens r) /\
  resolveClusterKubeconfig b run (dj_Name j) = Ok (rs_clusterKubeconfig r, rs_clusterMasks r) /\
  BuildAssignment run j image materials r = Ok (built_, t) /\ a = injectBuildCache cache run built_.
Proof.
  unfold assign. destruct (resolveJobSecrets b run (dj_Name j)) as [secrets|] eqn:E1; [|done].
  destruct (resolveArtifactDeps b run (dj_Name j)) as [downloads|] eqn:E2; [|done].
  destruct (resolveProfile b run (dj_Name j)) as [profile|] eqn:E3; [|done].
  destruct (ListMaterials b) as [materials|] eqn:E4; [|done].
  destruct (buildNeedsOutputs b j) as [[needs matrix]|] eqn:E5; [|done].
  destruct (mintIDTokens (Minter b) run j) as [tokens|] eqn:E6; [|done]. cbn [map_err].
  destruct (resolveClusterKubeconfig b run (dj_Name j)) as [[kube cmasks]|] eqn:E7; [|done].
  match goal with |- match BuildAssignment run j image materials ?r with _ => _ end = _ -> _ => set (r0 := r) end.
  destruct (BuildAssignment run j image materials r0) as [[a0 t0]|] eqn:E8; [|by destruct (terminal e)].
  intros [= <- <-]. exists r0, materials, a0. done.
Qed.
Lemma to_agent_inv memo j agent a t : to_agent b cache run image memo j = GoesToAgent agent a t ->
  exists jobDef r materials built_, sent_checks memo j agent a t jobDef r materials built_.
Proof.
  unfold to_agent, JobTagsFromDefinition. destruct (jobDefFromDefinition run (dj_Name j)) as [jobDef|] eqn:Ej; [|done].
  cbn [fmap result_fmap]. destruct (FindIdle b (Job_Tags jobDef)) as [ag|] eqn:Ea; [|done].
  destruct (assign b cache run image j) as [o|[a0 t0]] eqn:Es; [intros ->|].
  { exfalso. unfold assign in Es. repeat (case_match; simplify_eq/=). }
  destruct (assign_inv j a0 t0 Es) as (r & materials & built_ & S1 & S2 & S3 & S4 & S5 & S6 & S7 & S8 & S9).
  intros Hg. exists jobDef, r, materials, built_.
  assert (Hall : ag = agent /\ a0 = a /\ t0 = t /\
    (forall target, t = Some target -> dj_DeployRollback j = false -> beginDeployGuard b run (DT_Environment target) = guardProceed) /\
    (forall target, t = Some target -> AdmissionFrozen b (DT_Environment target) = false) /\
    (t = None -> envFor memo (dj_Name j) <> "" -> AdmissionFrozen b (envFor memo (dj_Name j)) = false)).
  { destruct t0 as [target|].
    - destruct (dj_DeployRollback j) eqn:Er.
      + cbn [andb] in Hg. destruct (AdmissionFrozen b (DT_Environment target)) eqn:Ef; [done|]. injection Hg as <- <- <-.
        split_and!; [done..| | |done]; by intros ? [= <-].
      + destruct (beginDeployGuard b run (DT_Environment target)) as [|h|] eqn:Eg; [|done..]. cbn [andb] in Hg.
        destruct (AdmissionFrozen b (DT_Environment target)) eqn:Ef; [done|]. injection Hg as <- <- <-.
        split_and!; [done..| | |done]; by intros ? [= <-].
    - destruct (negb (bool_decide (envFor memo (dj_Name j) = "")) && AdmissionFrozen b (envFor memo (dj_Name j))) eqn:Ef; [done|].
      injection Hg as <- <- <-. split_and!; [done..|]. intros _ Hne. by rewrite bool_decide_eq_false_2 in Ef. }
  destruct Hall as (-> & -> & -> & G1 & G2 & G3). by split.
Qed.
Lemma native_not_agent nb j jobDef d agent a t : tryNativeDeploy b run nb j jobDef d <> Some (GoesToAgent agent a t).
Proof.
  unfold tryNativeDeploy. destruct (beginDeployGuard b run (Deploy_Environment d)); [|done..].
  destruct (native_rules nb d) as [[o|[]]|] eqn:En; [| |done].
  - unfold native_rules, reconcileDeclaredTarget in En. destruct (Deploy_Target d).
    + destruct (ReconcileDeclarativeTarget _ _ _); by simplify_eq.
    + destruct (HasTarget _ _) as [[]|]; by simplify_eq.
  - destruct (resolveNativeDeployMarker _ _ _ _ _) as [[v rv]|[e|]]; [|done..].
    destruct (TakeOverCall _ _) as [[]|]; try done. by destruct (Deploy_Target d).
Qed.
Lemma prepare_agent memo j agent a t : prepare b cache run image memo j = GoesToAgent agent a t ->
  to_agent b cache run image memo j = GoesToAgent agent a t /\
  (envFor memo (dj_Name j) <> "" -> envFor memo (dj_Name j) ∉ frozen memo).
Proof.
  unfold prepare. destruct (_ && _) eqn:Eh; [done|]. intros Hp.
  assert (Hag : to_agent b cache run image memo j = GoesToAgent agent a t).
  { destruct (native b) as [nb|]; [|done]. destruct (dj_DeployRollback j); [done|].
    destruct (jobDefFromDefinition run (dj_Name j)) as [jobDef|]; [|done]. destruct (Job_Deploy jobDef) as [d|]; [|done].
    destruct (tryNativeDeploy b run nb j jobDef d) as [o|] eqn:En; [|done]. subst o. by apply native_not_agent in En. }
  split; [done|]. intros Hne Hin. unfold memo_any, holds in Eh. rewrite (bool_decide_eq_true_2 (_ ∈ _)) in Eh by done.
  rewrite (bool_decide_eq_false_2 (_ = "")) in Eh by done. rewrite bool_decide_eq_false_2 in Eh; [done|]. set_solver.
Qed.
End Sent.

(** ** Properties *)

Lemma lookup_sources_some (l : list (gmap string string)) m k : m ∈ l -> is_Some (m !! k) -> is_Some (lookup_sources l k).
Proof.
  intros Hm Hk. induction l as [|m' l IH]; [by apply elem_of_nil in Hm|]. simpl. destruct (m' !! k) eqn:E; [eauto|].
  apply elem_of_cons in Hm as [->|Hm]; [|by apply IH]. rewrite E in Hk. by destruct Hk.
Qed.

Section Theorems.
Context `{MapRange} `{UUIDText} `{UnicodeCase} (b : Backend) (cache : option BuildCache) (run : RunForDispatch) (image : string).

Lemma cache_keeps a : JA_ArtifactDownloads (injectBuildCache cache run a) = JA_ArtifactDownloads a /\
  (forall v, v ∈ JA_LogMasks a -> v ∈ JA_LogMasks (injectBuildCache cache run a)) /\
  (forall k, is_Some (JA_Env a !! k) -> is_Some (JA_Env (injectBuildCache cache run a) !! k)).
Proof.
  unfold injectBuildCache. destruct cache as [c|]; [|done]. case_decide; [done|]. destruct (negb _); [done|].
  destruct (bc_generation c); [|done]. do 2 (case_decide; [done|]). split_and!; [done| |]; simpl.
  - intros v Hv. apply elem_of_app. by left.
  - intros k Hk. rewrite lookup_union. destruct Hk as [v ->]. by destruct (_ !! k); eexists.
Qed.

(** Each dependency is downloaded whole. *)
Lemma deps_downloaded name downloads jobDef : jobDefFromDefinition run name = Ok jobDef -> resolveArtifactDeps b run name = Ok downloads ->
  forall dep, dep ∈ Job_ArtifactDeps jobDef -> exists id rows, resolveDepRunID b run dep = Ok id /\
    ListReady b id (Dep_FromJob dep) (Dep_Paths dep) = Ok rows /\ rows <> [] /\
    forall row, row ∈ rows -> exists d, d ∈ downloads /\ Dl_Path d = AR_Path row /\ StorageKey d = AR_StorageKey row /\
      ContentSha256 d = AR_ContentSHA256 row /\ Dl_Dest d = (if decide (Dep_Dest dep = "") then "./" else Dep_Dest dep).
Proof.
  unfold resolveArtifactDeps, JobArtifactDepsFromDefinition. intros ->. cbn [fmap result_fmap map_err mbind result_bind].
  intros E dep Hdep. destruct (Job_ArtifactDeps jobDef) as [|d0 deps]; [by apply elem_of_nil in Hdep|].
  destruct (ArtifactSign b) as [sign|]; [|done]. destruct (map_res _ _) as [l|] eqn:El; [|done]. injection E as <-.
  apply map_res_Forall2 in El. destruct (Forall2_member_l _ _ _ _ El Hdep) as (ds & Hds & Hd). unfold resolve_dep in Hd.
  apply bind_Ok in Hd as (id & Hid & Hd). apply bind_Ok in Hd as (rows & Hrows & Hd). exists id, rows.
  split; [done|]. split; [by destruct (ListReady _ _ _ _); simplify_eq/=|].
  destruct rows as [|row0 rows]; [done|]. split; [done|]. intros row Hrow. apply map_res_Forall2 in Hd.
  destruct (Forall2_member_l _ _ _ _ Hd Hrow) as (d & Hin & Hs). exists d. split.
  - apply list_elem_of_In, in_concat. exists ds. split; by apply list_elem_of_In.
  - unfold sign_row in Hs. apply bind_Ok in Hs as (url & _ & [= <-]). done.
Qed.

(** The pre-scan knows the environment of every job, when no two share a name. *)
Lemma findJob_Some jobs name j : findJob jobs name = Some j -> j ∈ jobs /\ Job_Name j = name.
Proof.
  unfold findJob. intros ([i x] & Hx & ->)%fmap_Some. apply list_find_Some in Hx as (Hl & Hn & _).
  split; [by eapply list_elem_of_lookup_2|done].
Qed.
Lemma index_other l n out : n ∉ Job_Name <$> l ->
  foldl (fun out j => let env := TargetEnvironment j in if decide (env = "") then out else <[Job_Name j := env]> out) out l !! n
  = (out : gmap string string) !! n.
Proof.
  revert out. induction l as [|x l IH]; intros out Hn; [done|]. cbn [fmap list_fmap] in Hn. apply not_elem_of_cons in Hn as [Hx Hn].
  cbn [foldl]. rewrite IH by done. cbv zeta. case_decide; [done|]. by rewrite lookup_insert_ne.
Qed.
Lemma index_of l n j (out : gmap string string) : NoDup (Job_Name <$> l) -> j ∈ l -> Job_Name j = n -> TargetEnvironment j <> "" ->
  foldl (fun out j => let env := TargetEnvironment j in if decide (env = "") then out else <[Job_Name j := env]> out) out l !! n = Some (TargetEnvironment j).
Proof.
  revert out. induction l as [|x l IH]; intros out Hnd Hj <- Hne; [by apply elem_of_nil in Hj|].
  cbn [fmap list_fmap] in Hnd. apply NoDup_cons in Hnd as [Hx Hnd]. cbn [foldl]. apply elem_of_cons in Hj as [->|Hj]; [|by apply IH].
  rewrite index_other by done. cbv zeta. rewrite decide_False by done. apply lookup_insert_eq.
Qed.
Lemma scanned_env frozenEnvironments run' ready def n j : RD_Definition run' = Some def -> NoDup (Job_Name <$> Jobs def) ->
  findJob (Jobs def) n = Some j -> TargetEnvironment j <> "" ->
  envFor (scanFrozenDeployEnvs frozenEnvironments run' ready) n = TargetEnvironment j.
Proof.
  intros Hd Hnd Hf Hne. assert (declaredEnvIndex def !! n = Some (TargetEnvironment j)) as Hi.
  { apply findJob_Some in Hf as [Hj Hn]. by apply index_of. }
  unfold scanFrozenDeployEnvs. rewrite Hd. cbv zeta. rewrite decide_False by (intros E; by rewrite E, lookup_empty in Hi).
  unfold envFor. destruct (dedup _) as [|e l]; [by simpl; rewrite Hi|]. destruct (frozenEnvironments _) as [fr|]; [|by simpl; rewrite Hi].
  by destruct (sort_strings fr); simpl; rewrite Hi.
Qed.

(** C26: dispatch fails closed - under the pre-scan of the tick's ready jobs, a job handed
    to an agent is one the definition holds and no approval gate, its agent has its tags,
    and its environment is frozen neither in the pre-scan nor when it is admitted, whether
    it deploys there or only declares it; and everything it declared was resolved: every secret and
    every identity token is set in its environment and masked, its cluster was
    authorised, its profile exists and every artifact dependency has artifacts, all of
    which it downloads. *)
Theorem dispatch_fails_closed (ready : list DispatchableJob) (j : DispatchableJob) (agent : uuid) (a : JobAssignment) (t : option DeployTarget) :
  let memo := scanFrozenDeployEnvs (FrozenEnvironments b) run ready in
  prepare b cache run image memo j = GoesToAgent agent a t ->
  exists def jobDef, RD_Definition run = Some def /\ findJob (Jobs def) (dj_Name j) = Some jobDef /\
    Job_Approval jobDef = None /\ FindIdle b (Job_Tags jobDef) = Some agent /\
    (NoDup (Job_Name <$> Jobs def) -> TargetEnvironment jobDef <> "" -> TargetEnvironment jobDef ∉ frozen memo) /\
    match Job_Deploy jobDef with
    | Some d => exists version, t = Some {| DT_Environment := Deploy_Environment d; DT_Version := version |} /\
        AdmissionFrozen b (Deploy_Environment d) = false /\
        (dj_DeployRollback j = false -> Supersede def = "branch" \/ Supersede def = "pipeline" ->
           BeginGuard b (Deploy_Environment d) = GuardTaken)
    | None => t = None /\
        (NoDup (Job_Name <$> Jobs def) -> Job_Environment jobDef <> "" -> AdmissionFrozen b (Job_Environment jobDef) = false)
    end /\
    (forall n, n ∈ Job_Secrets jobDef -> exists resolve v vs, SecretResolver b = Some resolve /\ resolve (Job_Secrets jobDef) = Ok vs /\
       vs !! n = Some v /\ is_Some (JA_Env a !! n) /\ (v <> "" -> v ∈ JA_LogMasks a)) /\
    (forall n spec, Job_IDTokens jobDef !! n = Some spec -> exists mint tok, Minter b = Some mint /\
       mint (buildJobClaims run j) (Aud spec) = Ok tok /\ is_Some (JA_Env a !! n) /\ (tok <> "" -> tok ∈ JA_LogMasks a)) /\
    (Job_Cluster jobDef <> "" -> exists kube ms, ResolveCluster b (Job_Cluster jobDef) = Ok (kube, ms) /\
       (kube <> "" -> is_Some (JA_Env a !! "PLUGIN_KUBECONFIG")) /\ (forall v, v ∈ ms -> v <> "" -> v ∈ JA_LogMasks a)) /\
    (Job_Profile jobDef <> "" -> exists p, ProfileByName b (Job_Profile jobDef) = Ok p /\
       forall v, v ∈ SecretValues p -> v <> "" -> v ∈ JA_LogMasks a) /\
    (forall dep, dep ∈ Job_ArtifactDeps jobDef -> exists id rows, resolveDepRunID b run dep = Ok id /\
       ListReady b id (Dep_FromJob dep) (Dep_Paths dep) = Ok rows /\ rows <> [] /\
       forall row, row ∈ rows -> exists d, d ∈ JA_ArtifactDownloads a /\ StorageKey d = AR_StorageKey row).
Proof.
  intros memo [Hag Hfz]%prepare_agent. destruct (to_agent_inv _ _ _ _ _ _ _ _ _ Hag) as (jobDef & r & materials & built_ & Hs).
  destruct Hs as [Hj Ha Hsec Hdl Hpr Hm Hn Htk Hcl Hb -> Hg Hadm Henv].
  pose proof Hj as Hj0. unfold jobDefFromDefinition in Hj0. destruct (RD_Definition run) as [def|] eqn:Ed; [|done].
  destruct (findJob (Jobs def) (dj_Name j)) as [jd|] eqn:Ef; [|done]. injection Hj0 as ->.
  assert (Hbt : built run j materials r built_ t def jobDef).
  { eapply built_for; [exact Hb|done|]. unfold job_definition. by rewrite Ef. }
  destruct (cache_keeps built_) as (Kd & Km & Ke).
  assert (Hmask : forall v, v <> "" -> _ -> v ∈ JA_LogMasks (injectBuildCache cache run built_))
    by (intros v Hv Hin; apply Km; exact (built_masks _ _ _ _ _ _ _ _ v Hbt Hv Hin)).
  assert (Hset : forall m k, m ∈ layers run def jobDef j r -> is_Some (m !! k) -> is_Some (JA_Env (injectBuildCache cache run built_) !! k))
    by (intros m k Hin Hk; apply Ke; eapply built_set; [exact Hbt|]; by eapply lookup_sources_some).
  exists def, jobDef. split_and!; [done|done|apply Hbt|done|..].
  - intros Hnd Hne. pose proof (scanned_env (FrozenEnvironments b) run ready def (dj_Name j) jobDef Ed Hnd Ef Hne) as Hs. fold memo in Hs.
    rewrite Hs in Hfz. auto.
  - pose proof (bt_deploy _ _ _ _ _ _ _ _ Hbt) as Hd. unfold deploy_target in Hd. destruct (Job_Deploy jobDef) as [d|] eqn:Edp.
    2: { injection Hd as <-. split; [done|]. intros Hnd Hne. assert (TargetEnvironment jobDef = Job_Environment jobDef) as E by (unfold TargetEnvironment; by rewrite Edp).
         pose proof (scanned_env (FrozenEnvironments b) run ready def (dj_Name j) jobDef Ed Hnd Ef) as Hs. rewrite E in Hs.
         specialize (Hs Hne). fold memo in Hs. rewrite Hs in Henv. auto. }
    apply bind_Ok in Hd as (version & _ & Hd). injection Hd as Ht. symmetry in Ht. exists version. split; [done|]. split; [by apply (Hadm _ Ht)|].
    intros Hr Hsup. specialize (Hg _ Ht Hr). unfold beginDeployGuard in Hg. rewrite Ed in Hg.
    assert (bool_decide (Supersede def = "branch") || bool_decide (Supersede def = "pipeline") = true) as Hsup'.
    { apply orb_true_iff. destruct Hsup; [left|right]; by apply bool_decide_eq_true. }
    rewrite Hsup' in Hg. simpl in Hg. by destruct (BeginGuard b (Deploy_Environment d)).
  - intros n Hin. unfold resolveJobSecrets, JobSecretsFromDefinition in Hsec. rewrite Hj in Hsec. cbn [fmap result_fmap map_err mbind result_bind] in Hsec.
    destruct (Job_Secrets jobDef) as [|n0 names] eqn:En; [by apply elem_of_nil in Hin|]. rewrite <-En in *.
    destruct (SecretResolver b) as [resolve|]; [|done]. destruct (resolve (Job_Secrets jobDef)) as [vs|] eqn:Er; [|done]. simpl in Hsec.
    destruct (filter _ (Job_Secrets jobDef)) as [|n1 missing] eqn:Efl; [|done]. injection Hsec as ->.
    destruct (rs_secrets r !! n) as [v|] eqn:Ev.
    + exists resolve, v, (rs_secrets r). split_and!; [done|done|done| |].
      * eapply Hset; [do 3 right; left|]. exists v. by apply map_lookup_filter_Some.
      * intros Hv. apply Hmask; [done|]. right; left. eauto.
    + assert (Hmis : n ∈ filter (fun n => rs_secrets r !! n = None) (Job_Secrets jobDef)) by by apply list_elem_of_filter.
      rewrite Efl in Hmis. by apply elem_of_nil in Hmis.
  - intros n spec Hspec. pose proof (mintIDTokens_complete _ _ _ _ Htk n) as Hmint. unfold idTokenSpecsForJob in Hmint.
    rewrite Ed, Ef, Hspec in Hmint. destruct Hmint as (mint & tok & Hmi & Htok & Hcall). exists mint, tok. split_and!; [done|done| |].
    + eapply Hset; [do 2 right; left|]. eauto.
    + intros Hne. apply Hmask; [done|]. right; right; left. eauto.
  - intros Hc. unfold resolveClusterKubeconfig, clusterNameForJob in Hcl. rewrite Ed, Ef, decide_False in Hcl by done.
    destruct (ResolveCluster b (Job_Cluster jobDef)) as [[kube ms]|]; [|done]. injection Hcl as -> ->.
    exists (rs_clusterKubeconfig r), (rs_clusterMasks r). split_and!; [done| |].
    + intros Hk. eapply Hset; [right; left|]. rewrite decide_True by done. rewrite lookup_singleton_eq. eauto.
    + intros v Hv Hne. apply Hmask; [done|]. tauto.
  - intros Hp. unfold resolveProfile in Hpr. rewrite Hj in Hpr. cbn [map_err mbind result_bind] in Hpr. rewrite decide_False in Hpr by done.
    destruct (ProfileByName b (Job_Profile jobDef)) as [p|]; [|done]. injection Hpr as ->. exists (rs_profile r). split; [done|].
    intros v Hv Hne. apply Hmask; [done|]. tauto.
  - intros dep Hdep. destruct (deps_downloaded _ _ _ Hj Hdl dep Hdep) as (id & rows & K1 & K2 & K3 & K4). exists id, rows.
    split_and!; [done..|]. intros row Hrow. destruct (K4 row Hrow) as (d & K5 & _ & K6 & _). exists d. split; [|done].
    by rewrite Kd, (bt_downloads _ _ _ _ _ _ _ _ Hbt).
Qed.

Lemma anchor_full version declared c anchor : correlationRevision version declared c = Some anchor -> full_match fullSHARE anchor = true.
Proof.
  assert (Ha : forall cand r0, r0 = "" \/ full_match fullSHARE r0 = true -> resolveAnchor cand r0 = Some anchor -> full_match fullSHARE anchor = true).
  { intros cand r0 Hr. unfold resolveAnchor. destruct (full_match fullSHARE cand) eqn:Ef; [by intros [= <-]|].
    destruct (full_match hexShaRE cand); [|done]. case_bool_decide as E0; [done|]. simpl. destruct (HasPrefix r0 cand); [|done].
    intros [= <-]. by destruct Hr. }
  unfold correlationRevision. cbv zeta. set (r0 := if full_match fullSHARE (ToLower (TrimSpace c)) then _ else _).
  assert (Hr : r0 = "" \/ full_match fullSHARE r0 = true) by (subst r0; destruct (full_match fullSHARE (ToLower (TrimSpace c))) eqn:E; auto).
  case_decide; [by apply Ha|]. destruct (full_match hexShaRE _); [by apply Ha|]. case_decide; [done|].
  intros [= <-]. by destruct Hr.
Qed.
Lemma native_marker j jobDef d version revision : resolveNativeDeployMarker b run j jobDef d = Ok (version, revision) ->
  full_match fullSHARE revision = true /\ version <> "".
Proof.
  unfold resolveNativeDeployMarker. intros ([needs matrix] & _ & E)%bind_Ok. destruct (RD_Definition run) as [def|]; [|done].
  apply bind_Ok in E as (v & Ev & E). apply bind_Ok in E as (declared & _ & E).
  destruct (correlationRevision v declared _) as [anchor|] eqn:Ea; [|done]. injection E as <- <-. split; [by eapply anchor_full|].
  destruct (resolveDeployMarkerVersion _ _ _ _ _ _) as [v'|] eqn:Er; simplify_eq/=. unfold resolveDeployMarkerVersion in Er.
  apply bind_Ok in Er as (w & _ & Er). by case_decide; simplify_eq.
Qed.
Lemma to_agent_not_native memo j i : to_agent b cache run image memo j <> GoesNative i.
Proof.
  unfold to_agent. destruct (JobTagsFromDefinition run (dj_Name j)) as [tags|]; [|done]. destruct (FindIdle b tags); [|done].
  destruct (assign b cache run image j) as [o|[a t]] eqn:Es.
  - intros ->. unfold assign in Es. repeat (case_match; simplify_eq/=).
  - repeat case_match; done.
Qed.

(** a native takeover is guarded and pinned - the job is a deploy and no rollback,
    its environment is not frozen, the supersede guard let it through, a target is
    registered or the declared one was reconciled, the version is not empty and the
    revision to correlate with is a full commit.  A job that declares its target is
    never sent to an agent instead while native deploys are on. *)
Theorem native_takeover_pinned (memo : freezeMemo) (j : DispatchableJob) (nb : NativeBackend) :
  native b = Some nb -> dj_DeployRollback j = false ->
  (forall i, prepare b cache run image memo j = GoesNative i ->
     exists jobDef d, jobDefFromDefinition run (dj_Name j) = Ok jobDef /\ Job_Deploy jobDef = Some d /\
       ND_Environment i = Deploy_Environment d /\ beginDeployGuard b run (Deploy_Environment d) = guardProceed /\
       full_match fullSHARE (ND_Revision i) = true /\ ND_Version i <> "" /\
       match Deploy_Target d with
       | Some t => reconcileDeclaredTarget nb (Deploy_Environment d) t = inr tt /\ is_Some (ND_Declared i)
       | None => HasTarget nb (Deploy_Environment d) = Some true /\ ND_Declared i = None
       end /\
       (envFor memo (dj_Name j) <> "" -> envFor memo (dj_Name j) ∉ frozen memo)) /\
  (forall jobDef d target agent a t, jobDefFromDefinition run (dj_Name j) = Ok jobDef -> Job_Deploy jobDef = Some d ->
     Deploy_Target d = Some target -> prepare b cache run image memo j <> GoesToAgent agent a t).
Proof.
  intros Hnb Hrb. split.
  - intros i. unfold prepare. destruct (_ && _) eqn:Eh; [done|]. rewrite Hnb, Hrb.
    destruct (jobDefFromDefinition run (dj_Name j)) as [jobDef|] eqn:Ej; [|by intros ?%to_agent_not_native].
    destruct (Job_Deploy jobDef) as [d|] eqn:Ed; [|by intros ?%to_agent_not_native].
    destruct (tryNativeDeploy b run nb j jobDef d) as [o|] eqn:Et; [intros ->|by intros ?%to_agent_not_native].
    exists jobDef, d. split; [done|]. split; [done|]. unfold tryNativeDeploy in Et.
    destruct (beginDeployGuard b run (Deploy_Environment d)) eqn:Eg; [|done..].
    destruct (native_rules nb d) as [[o|[]]|] eqn:En; [| |done].
    { exfalso. injection Et as ->. unfold native_rules, reconcileDeclaredTarget in En. repeat case_match; simplify_eq. }
    destruct (resolveNativeDeployMarker b run j jobDef d) as [[version revision]|[e|]] eqn:Em; [|done..].
    apply native_marker in Em as [Hfull Hne].
    assert (Hi : ND_Environment i = Deploy_Environment d /\ ND_Version i = version /\ ND_Revision i = revision /\
                 (is_Some (ND_Declared i) <-> is_Some (Deploy_Target d))).
    { destruct (TakeOverCall _ _) as [[]|]; [|done..|by destruct (Deploy_Target d)|done]. injection Et as <-. simpl.
      split_and!; [done..|]. by rewrite fmap_is_Some. }
    destruct Hi as (-> & -> & -> & Hdecl). split_and!; [done..| |].
    + unfold native_rules in En. destruct (Deploy_Target d) as [t|].
      * split; [by injection En|]. apply Hdecl. eauto.
      * destruct (HasTarget nb (Deploy_Environment d)) as [[]|]; [|done..]. split; [done|].
        destruct (ND_Declared i); [|done]. destruct (proj1 Hdecl ltac:(eauto)) as [? ?]. done.
    + intros Henv Hin. unfold memo_any, holds in Eh. rewrite (bool_decide_eq_true_2 (_ ∈ _)) in Eh by done.
      rewrite (bool_decide_eq_false_2 (_ = "")) in Eh by done. rewrite bool_decide_eq_false_2 in Eh; [done|]. set_solver.
  - intros jobDef d target agent a t Hj Hd Ht. unfold prepare. destruct (_ && _); [done|]. rewrite Hnb, Hrb, Hj, Hd.
    destruct (tryNativeDeploy b run nb j jobDef d) as [o|] eqn:Et; [intros ->; by apply native_not_agent in Et|]. exfalso.
    unfold tryNativeDeploy, native_rules in Et. rewrite Ht in Et. repeat case_match; simplify_eq.
Qed.

(** a notification is never sent - the tags, the secrets and the profile of a job
    are read from the pipeline's definition, which does not hold the jobs synthesised
    for its notifications, so whatever the resolvers answer such a job is left queued. *)
Theorem notification_never_sent (memo : freezeMemo) (j : DispatchableJob) (message : dispatch_error -> string) :
  (forall def, RD_Definition run = Some def -> findJob (Jobs def) (dj_Name j) = None) ->
  prep_of message (prepare b cache run image memo j) = Hold.
Proof. intros Hn. by destruct (unlisted_stays b cache run image memo j Hn) as [h ->]. Qed.

(** A pull request can hold its own run up - when a title, a branch, a tag message
    or any other value of the platform's own variables contains a reference that does
    not resolve, the job is never handed to an agent, whatever the resolvers answer,
    and the error is not one that ends the job. *)
Theorem platform_value_blocks (memo : freezeMemo) (j : DispatchableJob) (k v body : string) (agent : uuid)
    (a : JobAssignment) (t : option DeployTarget) :
  buildCIVars run (dj_Name j) !! k = Some v -> Contains v "needs." = false -> body ∈ ref_bodies v ->
  (forall ns bare, resolve_ref ns bare body = Invalid) ->
  prepare b cache run image memo j <> GoesToAgent agent a t.
Proof.
  intros Hk Hneeds Hbody Hinv [Hag _]%prepare_agent.
  destruct (to_agent_inv _ _ _ _ _ _ _ _ _ Hag) as (jobDef & r & materials & built_ & Hs).
  destruct (BuildAssignment_built _ _ _ _ _ _ _ (se_built _ _ _ _ _ _ _ _ _ _ _ _ _ Hs)) as (def & jd & Hbt).
  destruct (built_set _ _ _ _ _ _ _ _ k Hbt) as [w Hw].
  { eapply lookup_sources_some; [left|]. eauto. }
  apply (built_env _ _ _ _ _ _ _ _ Hbt) in Hw as (raw & v' & Hraw & Hn & Hsub). simpl in Hraw. rewrite Hk in Hraw. injection Hraw as <-.
  unfold substituteNeedsRefs in Hn. rewrite Hneeds in Hn.
  assert (v' = v) as -> by by destruct (negb (Contains v "${{")); simplify_eq/=.
  pose proof Hbody as Hc. unfold ref_bodies in Hc. destruct (Contains v "${{") eqn:E; [|by apply elem_of_nil in Hc].
  unfold SubstituteRefsNS in Hsub. rewrite E in Hsub. cbn [negb] in Hsub. cbv zeta in Hsub. case_decide as Hi; [done|].
  eapply (filter_nil_none _ _ body Hi) in Hc. by apply Hc.
Qed.

(** the build cache's credential follows least privilege - it is injected only for a
    job one of whose plugins is exactly the gradle plugin, pushing is switched on only
    for a run that owns the shared lane, the token is the one minted for that access,
    and it is masked; nothing else of the assignment changes. *)
Theorem build_cache_least_privilege (c : BuildCache) (a : JobAssignment) :
  injectBuildCache (Some c) run a = a \/
  (exists image_ settings gen token, TaskSpec_Plugin image_ settings ∈ JA_Tasks a /\ imageRepoBasename image_ = gradlePluginRepo /\
     bc_generation c = Some gen /\ gen <> "" /\ token = bc_mint c (bc_shared c) gen /\ token <> "" /\
     let a' := injectBuildCache (Some c) run a in
     JA_Env a' !! "GOCDNEXT_BUILD_CACHE_PASSWORD" = Some token /\
     (JA_Env a' !! "GOCDNEXT_BUILD_CACHE_PUSH" = Some "true" <-> bc_shared c = true) /\
     token ∈ JA_LogMasks a' /\ JA_Tasks a' = JA_Tasks a /\
     forall k, HasPrefix k "GOCDNEXT_BUILD_CACHE_" = false -> JA_Env a' !! k = JA_Env a !! k).
Proof.
  unfold injectBuildCache. case_decide; [by left|]. destruct (usesGradlePlugin a) eqn:Eu; [|by left].
  destruct (bc_generation c) as [gen|] eqn:Eg; [|by left]. cbn [negb]. case_decide as Hgen; [by left|]. case_decide as Htok; [by left|].
  right. unfold usesGradlePlugin in Eu. apply existsb_exists in Eu as (tk & Hin & Htk). destruct tk as [s|image_ settings]; [done|].
  apply bool_decide_eq_true in Htk. exists image_, settings, gen, (bc_mint c (bc_shared c) gen).
  split_and!; [by apply list_elem_of_In|done|done|done|done|done|..]; cbn [with_cache JA_Env JA_LogMasks JA_Tasks].
  - by apply lookup_union_Some_l.
  - rewrite (lookup_union_Some_l _ _ "GOCDNEXT_BUILD_CACHE_PUSH" (if bc_shared c then "true" else "false")) by done. by destruct (bc_shared c).
  - apply elem_of_app. right. left.
  - done.
  - intros k Hk. apply lookup_union_r. apply not_elem_of_list_to_map. simpl. intros Hin'.
    repeat (apply elem_of_cons in Hin' as [->|Hin']; [done|]). by apply elem_of_nil in Hin'.
Qed.
End Theorems.

(** ** Examples *)

(** Every resolver answers, native deploys are off. *)
Definition example_backend : Backend := {|
  FrozenEnvironments := fun _ => Some []; native := None; BeginGuard := fun _ => GuardTaken; FindIdle := fun _ => Some 77%N;
  SecretResolver := Some (fun _ => Ok {["TOKEN" := "hush"]}); ArtifactSign := None; ListReady := fun _ _ _ => Ok [];
  UpstreamContext := Ok None; ProfileByName := fun _ => Err ErrRunnerProfileNotFound; ListMaterials := Some ship_materials;
  CloneTokens := fun _ => ∅; OutputRows := fun _ => Ok [{| jo_Name := "build"; jo_MatrixKey := ""; jo_Status := StatusSuccess;
                                                           jo_Outputs := {["tag" := "1.2"]} |}];
  Minter := None; ResolveCluster := fun _ => Err ClusterUnavailable; AdmissionFrozen := fun _ => false;
|}.
Definition example_native : NativeBackend := {|
  HasTarget := fun _ => Some true; ReconcileDeclarativeTarget := fun _ _ => ReconcileUnchanged; TakeOverCall := fun _ => Some DecisionNative;
|}.
Definition native_backend : Backend := {|
  FrozenEnvironments := fun _ => Some []; native := Some example_native; BeginGuard := fun _ => GuardTaken; FindIdle := fun _ => Some 77%N;
  SecretResolver := Some (fun _ => Ok {["TOKEN" := "hush"]}); ArtifactSign := None; ListReady := fun _ _ _ => Ok [];
  UpstreamContext := Ok None; ProfileByName := fun _ => Err ErrRunnerProfileNotFound; ListMaterials := Some ship_materials;
  CloneTokens := fun _ => ∅; OutputRows := OutputRows example_backend;
  Minter := None; ResolveCluster := fun _ => Err ClusterUnavailable; AdmissionFrozen := fun _ => false;
|}.
Notation prepare_ex := (@prepare library_range example_uuids ascii_only_case).
Definition outcome_kind (o : outcome) : string :=
  match o with Stays _ => "stays" | Stops => "stops" | Fails _ => "fails" | GoesNative _ => "native" | GoesToAgent _ _ _ => "agent" end.

Example ship_sent : outcome_kind (prepare_ex example_backend None ship_run "alpine" empty_memo ship) = "agent".
Proof. vm_compute. reflexivity. Qed.
Example ship_native : outcome_kind (prepare_ex native_backend None ship_run "alpine" empty_memo ship) = "native".
Proof. vm_compute. reflexivity. Qed.
Definition notify : DispatchableJob := {|
  dj_ID := 11%N; dj_StageRunID := 12%N; dj_Name := "_notify_0"; dj_MatrixKey := ""; dj_Needs := []; dj_Attempt := 0;
  dj_DeployRollback := false;
|}.
(** Built for a notification, the assignment is fine; the dispatcher never gets there. *)
Definition notified_run : RunForDispatch := {|
  RD_ID := 1; RD_PipelineID := 2; RD_ProjectID := 3; RD_ProjectSlug := "shop"; RD_Counter := 42;
  RD_Revisions := RD_Revisions ship_run; RD_ServiceGeneration := 0; RD_Definition := Some ship_pipeline;
  RD_ProjectNotifications := Some [{| Notif_On := NotifyOnAlways; Notif_Uses := "ghcr.io/acme/slack"; Notif_With := ∅; Notif_Secrets := [] |}];
  RD_Cause := "webhook"; RD_CauseDetail := no_detail;
|}.
Example notification_builds_but_stays :
  is_ok (@BuildAssignment library_range example_uuids notified_run notify "ghcr.io/acme/slack" [] (ship_resolved "hush")) = true /\
  prepare_ex example_backend None notified_run "ghcr.io/acme/slack" empty_memo notify = Stays None.
Proof. vm_compute. auto. Qed.
Example title_stays :
  prepare_ex example_backend None (pr_run "Use ${{ github.actor }}") "alpine" empty_memo ship = Stays None.
Proof. vm_compute. reflexivity. Qed.
Example secret_refused :
  outcome_kind (prepare_ex example_backend None (with_definition ship_run None) "alpine" empty_memo ship) = "stays".
Proof. vm_compute. reflexivity. Qed.
Example basenames : imageRepoBasename <$> ["ghcr.io/klinux/gocdnext-plugin-gradle@sha256:aa"; "host:5000/klinux/gocdnext-plugin-gradle:v1";
    "ghcr.io/evil/gocdnext-plugin-gradle-backdoor"] =
  [gradlePluginRepo; gradlePluginRepo; "gocdnext-plugin-gradle-backdoor"].
Proof. vm_compute. reflexivity. Qed.

(** ** Witnesses *)

Definition example_holds : list (holdPriority * string) :=
  [(holdSupersedeBlocked, "supersede-blocked:qa"); (holdFrozen, "frozen-deploy:prod"); (holdFrozen, "frozen-deploy:edge")].
Lemma queue_reason_order_witness :
  foldl record_hold no_hold example_holds = foldl record_hold no_hold (reverse example_holds) /\
  hold_reason (foldl record_hold no_hold example_holds) = "frozen-deploy:edge".
Proof.
  split; [|vm_compute; reflexivity]. refine (proj1 (queue_reason_order example_holds (reverse example_holds) _ _)).
  - repeat constructor; done.
  - symmetry. apply reverse_Permutation.
Defined.
Lemma agent_outcome o : outcome_kind o = "agent" -> exists agent a t, o = GoesToAgent agent a t.
Proof. destruct o; try done. eauto. Qed.
Lemma native_outcome o : outcome_kind o = "native" -> exists i, o = GoesNative i.
Proof. destruct o; try done. eauto. Qed.
Definition ship_memo : freezeMemo := scanFrozenDeployEnvs (FrozenEnvironments example_backend) ship_run [ship].
Example ship_sent_scanned : outcome_kind (prepare_ex example_backend None ship_run "alpine" ship_memo ship) = "agent".
Proof. vm_compute. reflexivity. Qed.
Lemma dispatch_fails_closed_witness : exists agent a t v,
  prepare_ex example_backend None ship_run "alpine" ship_memo ship = GoesToAgent agent a t /\ v ∈ JA_LogMasks a.
Proof.
  destruct (agent_outcome _ ship_sent_scanned) as (agent & a & t & E).
  destruct (@dispatch_fails_closed library_range example_uuids ascii_only_case example_backend None ship_run "alpine" [ship] ship agent a t E)
    as (def & jobDef & Hd & Hj & _ & _ & _ & _ & Hsec & _).
  assert (jobDef = ship_job) as ->.
  { vm_compute in Hd. injection Hd as <-. vm_compute in Hj. injection Hj as <-. reflexivity. }
  destruct (Hsec "TOKEN" ltac:(left)) as (resolve & v & vs & Hr & Hvs & Hv & _ & Hm).
  exists agent, a, t, "hush". split; [exact E|]. injection Hr as <-. injection Hvs as <-.
  assert (v = "hush") as ->; [by injection Hv|]. by apply Hm.
Defined.
Lemma native_takeover_pinned_witness : exists i,
  prepare_ex native_backend None ship_run "alpine" empty_memo ship = GoesNative i /\ full_match fullSHARE (ND_Revision i) = true.
Proof.
  destruct (native_outcome _ ship_native) as [i E]. exists i. split; [exact E|].
  destruct (proj1 (@native_takeover_pinned library_range example_uuids ascii_only_case native_backend None ship_run "alpine" empty_memo ship
    example_native eq_refl eq_refl) i E) as (jobDef & d & _ & _ & _ & _ & Hf & _). exact Hf.
Defined.
Lemma notification_never_sent_witness :
  prep_of (fun _ => "") (prepare_ex example_backend None notified_run "ghcr.io/acme/slack" empty_memo notify) = Hold.
Proof. apply notification_never_sent. intros def Hd. injection Hd as <-. vm_compute. reflexivity. Defined.
Lemma platform_value_blocks_witness : ~ exists agent a t,
  prepare_ex example_backend None (pr_run "Use ${{ github.actor }}") "alpine" empty_memo ship = GoesToAgent agent a t.
Proof.
  intros (agent & a & t & E).
  refine (@platform_value_blocks library_range example_uuids ascii_only_case example_backend None (pr_run "Use ${{ github.actor }}") "alpine"
           empty_memo ship "CI_PULL_REQUEST_TITLE" "Use ${{ github.actor }}" "github.actor" agent a t _ _ _ _ E).
  - vm_compute. reflexivity.
  - vm_compute. reflexivity.
  - assert (Eb : ref_bodies "Use ${{ github.actor }}" = ["github.actor"]) by (vm_compute; reflexivity). rewrite Eb. left.
  - intros ns bare. reflexivity.
Defined.
