(* ===== verification/RunCreate.v ===== *)
(** [server/internal/store/runs.go] and [approval_resolve.go]: the rows a run is
    created with - stages in the order of the pipeline, a job row per matrix
    combination, gates waiting with their quorum, and the synthetic stage of the
    notifications. *)

From S2P Require Import Prelude GoStrings Domain NeedsGraph CycleCheck ValidateNeeds GateGraph.
From S2P Require Import Schema ParseHelpers ParseJob Parse RunTables RunOps Needs Scheduler RunInv RunKeeps RunWorld Matrix.

(** ** The lane of a run *)

Definition maxRefLen : nat := 255.
(** [utf8.RuneStart]: not a continuation byte. *)
Definition RuneStart (c : Ascii.ascii) : bool := negb (byte_between 128 191 c).
Fixpoint back_to_rune (ref : string) (cut : nat) : nat :=
  match cut with
  | 0 => 0
  | S n => match String.get cut ref with
           | Some c => if RuneStart c then cut else back_to_rune ref n
           | None => cut
           end
  end.
Definition capRef (ref : string) : string :=
  if (slen ref <=? maxRefLen)%nat then ref else stake (back_to_rune ref maxRefLen) ref.

(** ** The quorum of a gate *)

(** [labels] is [cause_detail.pr_labels] as it decodes, [None] when it does not. *)
Definition better_label (overrides : gmap string Z) (best : Z * string) (l : string) : Z * string :=
  match overrides !! l with
  | Some q => if (fst best <? q)%Z then (q, l) else best
  | None => best
  end.
Definition resolveEffectiveQuorum (cause : string) (labels : option (list string)) (baseRequired : Z)
    (overrides : gmap string Z) : Z * string :=
  if decide (overrides = ∅) then (baseRequired, "")
  else if negb (bool_decide (cause = "pull_request")) then (baseRequired, "")
  else
    let '(bestQuorum, bestLabel) := foldl (better_label overrides) (0%Z, "") (sort_strings (default [] labels)) in
    if (bestQuorum =? 0)%Z then (baseRequired, "") else (bestQuorum, bestLabel).

(** ** The rows *)

(** The columns of a gate row, and the audit event of a raised quorum. *)
Record GateColumns := {
  gc_approvers : list string;
  gc_approver_groups : list string;
  gc_required : Z;
  gc_description : string;
  gc_quorum_label : option string;
}.
Record QuorumAudit := {
  qa_job : uuid; qa_name : string; qa_matrix_key : string; qa_base : Z; qa_effective : Z; qa_label : string;
}.
(** The supersede pass the creation asks for; it changes other runs only. *)
Record SupersedeFire := { sf_lane : string; sf_mode : string; sf_envs : list string }.
Record RunCreated := {
  rc_db : RunDB;
  rc_ref : string;
  rc_gates : gmap uuid GateColumns;
  rc_audit : list QuorumAudit;
  rc_supersede : option SupersedeFire;
}.
Definition with_db (c : RunCreated) (db : RunDB) : RunCreated := {|
  rc_db := db; rc_ref := rc_ref c; rc_gates := rc_gates c; rc_audit := rc_audit c; rc_supersede := rc_supersede c |}.
Definition with_gate (c : RunCreated) (db : RunDB) (id : uuid) (g : GateColumns) (a : list QuorumAudit) : RunCreated := {|
  rc_db := db; rc_ref := rc_ref c; rc_gates := <[id := g]> (rc_gates c); rc_audit := rc_audit c ++ a;
  rc_supersede := rc_supersede c |}.
Definition with_fire (c : RunCreated) (f : option SupersedeFire) : RunCreated := {|
  rc_db := rc_db c; rc_ref := rc_ref c; rc_gates := rc_gates c; rc_audit := rc_audit c; rc_supersede := f |}.

(** What the trigger hands to the row materialisation. *)
Record RunRowsSpec := {
  Def : Pipeline;
  ProjectNotifs : option (option (list Notification));   (* [Some None] does not decode *)
  Cause : string;
  PRLabels : option (list string);
  Ref : string;
}.

Inductive create_error :=
| CreateNoStages | CreateStageExists (name : string) | CreateUnknownStage (job stage : string)
| CreatePluginRef (i : nat) (e : plugin_ref_error) | CreateProjectNotifs.
#[export] Instance plugin_ref_error_eq_dec : EqDecision plugin_ref_error. Proof. solve_decision. Defined.
#[export] Instance create_error_eq_dec : EqDecision create_error. Proof. solve_decision. Defined.

Definition new_run : RunRow := {|
  r_status := StatusQueued; r_superseded_by := None; r_service_generation := 0%Z; r_terminal_effects_required := false |}.
Definition new_stage (name : string) (ordinal : Z) : StageRow :=
  {| s_spec := {| ss_name := name; ss_ordinal := ordinal |}; s_status := StatusQueued |}.
Definition new_job (spec : JobSpec) : JobRow := {|
  j_spec := spec; j_status := if js_gate spec then StatusAwaitingApproval else StatusQueued; j_agent := None;
  j_attempt := 0%Z; j_cancel_requested_at := None; j_cancel_origin := None; j_exit_code := None; j_error := "";
  j_outputs := ∅; j_deploy_rollback := false |}.
Definition set_gate_columns (row : JobRow) : JobRow :=
  let s := j_spec row in
  new_job {| js_stage := js_stage s; js_name := js_name s; js_matrix_key := js_matrix_key s; js_needs := js_needs s;
             js_gate := true; js_retry_unsafe := js_retry_unsafe s |}.

Section Create.
Context `{MapRange}.
(** [gen_random_uuid()]: the identifier of the n-th row of each table. *)
Context (stage_id job_id : nat -> uuid).

(** [UNIQUE (run_id, name)] on [stage_runs]. *)
Definition InsertStageRun (name : string) (ordinal : nat) (db : RunDB) : result create_error (uuid * RunDB) :=
  if existsb (fun kv => bool_decide (ss_name (s_spec (snd kv)) = name)) (map_to_list (stages db))
  then Err (CreateStageExists name)
  else
    let id := stage_id (size (stages db)) in
    Ok (id, with_stages db (<[id := new_stage name (wrap32 (Z.of_nat ordinal))]> (stages db))).
Definition InsertJobRun (stage : uuid) (name key : string) (needs : list string) (unsafe : bool) (db : RunDB)
    : uuid * RunDB :=
  let id := job_id (size (jobs db)) in
  let spec := {| js_stage := stage; js_name := name; js_matrix_key := key; js_needs := needs; js_gate := false;
                 js_retry_unsafe := unsafe |} in
  (id, with_jobs db (<[id := new_job spec]> (jobs db))).

Definition insert_stage (acc : RunDB * gmap string uuid) (p : nat * string) : result create_error (RunDB * gmap string uuid) :=
  '(id, db) ← InsertStageRun (snd p) (fst p) (fst acc);
  Ok (db, <[snd p := id]> (snd acc)).

(** The body of the loop over the combinations. *)
Definition insert_combo (in_ : RunRowsSpec) (job : Job) (stage : uuid) (c : RunCreated) (cmb : combo) : RunCreated :=
  let key := matrixKey cmb in
  let '(id, db) := InsertJobRun stage (Job_Name job) key (Job_Needs job)
                     (negb (bool_decide (TargetEnvironment job = ""))) (rc_db c) in
  match Job_Approval job with
  | None => with_db c db
  | Some a =>
      let required := if (Required a <? 1)%Z then 1%Z else Required a in
      let '(effective, label) := resolveEffectiveQuorum (Cause in_) (PRLabels in_) required (QuorumByLabel a) in
      let gate := {| gc_approvers := Approvers a; gc_approver_groups := ApproverGroups a; gc_required := effective;
                     gc_description := Description a;
                     gc_quorum_label := if decide (label = "") then None else Some label |} in
      let db := with_jobs db (alter set_gate_columns id (jobs db)) in
      with_gate c db id gate
        (if decide (label = "") then []
         else [{| qa_job := id; qa_name := Job_Name job; qa_matrix_key := key; qa_base := required;
                  qa_effective := effective; qa_label := label |}])
  end.
Definition insert_job (in_ : RunRowsSpec) (ids : gmap string uuid) (c : RunCreated) (job : Job)
    : result create_error RunCreated :=
  match ids !! Job_Stage job with
  | None => Err (CreateUnknownStage (Job_Name job) (Job_Stage job))
  | Some stage => Ok (foldl (insert_combo in_ job stage) c (expandMatrix (Job_Matrix job)))
  end.

Definition supersede_fire (in_ : RunRowsSpec) : option SupersedeFire :=
  let mode := Supersede (Def in_) in
  if bool_decide (mode = "branch") || bool_decide (mode = "pipeline") then
    let '(envs, ready) := ReadyGateEnvsAtStart (Def in_) in
    if ready then Some {| sf_lane := if decide (mode = "branch") then capRef (Ref in_) else "";
                          sf_mode := mode; sf_envs := envs |}
    else None
  else None.

Definition effective_notifications (in_ : RunRowsSpec) : result create_error (list Notification) :=
  match Notifications (Def in_), ProjectNotifs in_ with
  | Some l, _ => Ok l
  | None, None => Ok []
  | None, Some None => Err CreateProjectNotifs
  | None, Some (Some l) => Ok l
  end.

Definition insert_notification (stage : uuid) (db : RunDB) (p : nat * Notification) : result create_error RunDB :=
  _ ← map_err (CreatePluginRef (fst p)) (ResolvePluginRef (Notif_Uses (snd p)));
  Ok (snd (InsertJobRun stage (NotificationJobName (Z.of_nat (fst p))) "" [] false db)).
Definition synthesizeNotificationStage (userStageCount : nat) (l : list Notification) (db : RunDB) : result create_error RunDB :=
  match l with
  | [] => Ok db
  | _ =>
      '(stage, db) ← InsertStageRun NotificationStageName userStageCount db;
      fold_all (insert_notification stage) db (imap pair l)
  end.

Definition empty_run : RunDB := {| run := new_run; stages := ∅; jobs := ∅; watched := ∅ |}.
Definition insertRunRowsTx (in_ : RunRowsSpec) : result create_error RunCreated :=
  let def := Def in_ in
  '(db, stageIDByName) ← fold_all insert_stage (empty_run, ∅) (imap pair (Stages def));
  let result := {| rc_db := db; rc_ref := capRef (Ref in_); rc_gates := ∅; rc_audit := []; rc_supersede := None |} in
  result ← fold_all (insert_job in_ stageIDByName) result (Jobs def);
  let result := with_fire result (supersede_fire in_) in
  notifications ← effective_notifications in_;
  db ← synthesizeNotificationStage (length (Stages def)) notifications (rc_db result);
  Ok (with_db result db).

(** [insertRunSkeleton] past its read of the definition. *)
Definition insertRunSkeleton (in_ : RunRowsSpec) : result create_error RunCreated :=
  match Stages (Def in_) with
  | [] => Err CreateNoStages
  | _ => insertRunRowsTx in_
  end.
End Create.

(** ** Tables numbered by insertion *)

Section Table.
Context (ids : nat -> uuid) `{!Inj (=) (=) ids}.

Definition table {V} (l : list V) : gmap uuid V := list_to_map (imap (fun i v => (ids i, v)) l).

Lemma table_keys {V} (l : list V) : (imap (fun i v => (ids i, v)) l).*1 = ids <$> seq 0 (length l).
Proof.
  rewrite fmap_imap. apply list_eq. intros i. rewrite list_lookup_imap, list_lookup_fmap.
  destruct (decide (i < length l)) as [Hi|Hi].
  - rewrite lookup_seq_lt by done. destruct (lookup_lt_is_Some_2 l i Hi) as [v ->]. done.
  - rewrite lookup_seq_ge, (lookup_ge_None_2 l) by lia. done.
Qed.
Lemma NoDup_table_keys {V} (l : list V) : NoDup (imap (fun i v => (ids i, v)) l).*1.
Proof. rewrite table_keys. apply NoDup_fmap_2; [done|apply NoDup_seq]. Qed.
Lemma table_lookup {V} (l : list V) k v : table l !! k = Some v <-> exists i, k = ids i /\ l !! i = Some v.
Proof.
  unfold table. rewrite <-elem_of_list_to_map by apply NoDup_table_keys. rewrite elem_of_lookup_imap. split.
  - intros (i & w & [= -> ->] & Hi). eauto.
  - intros (i & -> & Hi). eauto.
Qed.
Lemma table_at {V} (l : list V) i v : l !! i = Some v -> table l !! ids i = Some v.
Proof. intros H. apply table_lookup. eauto. Qed.
Lemma table_next {V} (l : list V) : table l !! ids (length l) = None.
Proof.
  destruct (table l !! ids (length l)) as [v|] eqn:E; [|done]. apply table_lookup in E as (i & Hi & Hv).
  apply (inj ids) in Hi as <-. apply lookup_lt_Some in Hv. lia.
Qed.
Lemma table_snoc {V} (l : list V) v : table (l ++ [v]) = <[ids (length l) := v]> (table l).
Proof.
  unfold table. rewrite imap_app. simpl. rewrite Nat.add_0_r. apply list_to_map_snoc.
  rewrite table_keys, list_elem_of_fmap. intros (i & Hi & Hin%elem_of_seq). apply (inj ids) in Hi. lia.
Qed.
Lemma table_size {V} (l : list V) : size (table l) = length l.
Proof.
  induction l as [|v l IH] using rev_ind; [apply map_size_empty|].
  rewrite table_snoc, map_size_insert_None by apply table_next. rewrite IH, length_app. simpl. lia.
Qed.
End Table.

(** ** The rows a run is created with *)

Section Layout.
Context `{MapRange}.
Context (stage_id job_id : nat -> uuid) `{!Inj (=) (=) stage_id, !Inj (=) (=) job_id}.

Definition stage_rows (names : list string) : list StageRow := imap (fun i n => new_stage n (wrap32 (Z.of_nat i))) names.
(** The stage of a job: the position of its name. *)
Definition stage_index (names : list string) (name : string) : nat :=
  default 0 (fst <$> list_find (fun n => n = name) names).
Definition job_spec (p : Pipeline) (job : Job) (c : combo) : JobSpec := {|
  js_stage := stage_id (stage_index (Stages p) (Job_Stage job)); js_name := Job_Name job; js_matrix_key := matrixKey c;
  js_needs := Job_Needs job; js_gate := bool_decide (is_Some (Job_Approval job));
  js_retry_unsafe := negb (bool_decide (TargetEnvironment job = "")) |}.
Definition gate_columns (in_ : RunRowsSpec) (a : ApprovalSpec) : GateColumns :=
  let '(effective, label) := resolveEffectiveQuorum (Cause in_) (PRLabels in_) (Z.max 1 (Required a)) (QuorumByLabel a) in
  {| gc_approvers := Approvers a; gc_approver_groups := ApproverGroups a; gc_required := effective;
     gc_description := Description a; gc_quorum_label := if decide (label = "") then None else Some label |}.
(** A row per job and combination, in the order of the jobs. *)
Definition user_rows (in_ : RunRowsSpec) : list (JobSpec * option GateColumns) :=
  Jobs (Def in_) ≫= fun job =>
    (fun c => (job_spec (Def in_) job c, gate_columns in_ <$> Job_Approval job)) <$> expandMatrix (Job_Matrix job).
Definition notification_spec (stage : uuid) (i : nat) : JobSpec := {|
  js_stage := stage; js_name := NotificationJobName (Z.of_nat i); js_matrix_key := ""; js_needs := [];
  js_gate := false; js_retry_unsafe := false |}.
Definition notification_rows (in_ : RunRowsSpec) (l : list Notification) : list JobSpec :=
  imap (fun i _ => notification_spec (stage_id (length (Stages (Def in_)))) i) l.
Definition stage_names (in_ : RunRowsSpec) (l : list Notification) : list string :=
  Stages (Def in_) ++ match l with [] => [] | _ => [NotificationStageName] end.

Definition layout (in_ : RunRowsSpec) (l : list Notification) : RunDB := {|
  run := new_run; stages := table stage_id (stage_rows (stage_names in_ l));
  jobs := table job_id (new_job <$> ((user_rows in_).*1 ++ notification_rows in_ l)); watched := ∅ |}.
Definition gate_table (in_ : RunRowsSpec) : gmap uuid GateColumns := omap snd (table job_id (user_rows in_)).

(** *** Stages *)

Lemma stage_rows_snoc l n : stage_rows (l ++ [n]) = stage_rows l ++ [new_stage n (wrap32 (Z.of_nat (length l)))].
Proof. unfold stage_rows. rewrite imap_app. simpl. by rewrite Nat.add_0_r. Qed.
Lemma elem_of_stage_rows l n : existsb (fun kv : uuid * StageRow => bool_decide (ss_name (s_spec kv.2) = n))
    (map_to_list (table stage_id (stage_rows l))) = bool_decide (n ∈ l).
Proof.
  apply eq_true_iff_eq. rewrite existsb_exists, bool_decide_eq_true. split.
  - intros ([id s] & Hin%list_elem_of_In%elem_of_map_to_list & Hn%bool_decide_eq_true). simpl in Hn.
    apply table_lookup in Hin as (i & -> & Hi); [|done]. unfold stage_rows in Hi.
    rewrite list_lookup_imap in Hi. apply fmap_Some in Hi as (m & Hm & ->). simpl in Hn. subst. by eapply list_elem_of_lookup_2.
  - intros [i Hi]%list_elem_of_lookup. exists (stage_id i, new_stage n (wrap32 (Z.of_nat i))). split.
    + apply list_elem_of_In, elem_of_map_to_list, table_at; [done|]. unfold stage_rows. by rewrite list_lookup_imap, Hi.
    + by apply bool_decide_eq_true.
Qed.
Lemma InsertStageRun_table l n db : stages db = table stage_id (stage_rows l) ->
  InsertStageRun stage_id n (length l) db =
    if decide (n ∈ l) then Err (CreateStageExists n)
    else Ok (stage_id (length l), with_stages db (table stage_id (stage_rows (l ++ [n])))).
Proof.
  intros Hs. unfold InsertStageRun. rewrite Hs, elem_of_stage_rows, (bool_decide_decide (n ∈ l)).
  destruct (decide (n ∈ l)); [done|]. rewrite table_size by done.
  rewrite stage_rows_snoc, table_snoc by done. unfold stage_rows. by rewrite length_imap.
Qed.

(** The identifiers collected for the stages. *)
Definition stage_ids (names : list string) : gmap string uuid :=
  list_to_map (imap (fun i n => (n, stage_id i)) names).
Lemma stage_ids_keys (l : list string) : (imap (fun i n => (n, stage_id i)) l).*1 = l.
Proof. rewrite fmap_imap. apply list_eq. intros i. rewrite list_lookup_imap. by destruct (l !! i). Qed.
Lemma stage_ids_snoc l n : n ∉ l -> stage_ids (l ++ [n]) = <[n := stage_id (length l)]> (stage_ids l).
Proof.
  intros Hn. unfold stage_ids. rewrite imap_app. simpl. rewrite Nat.add_0_r. apply list_to_map_snoc. by rewrite stage_ids_keys.
Qed.
Lemma stage_index_at l i n : NoDup l -> l !! i = Some n -> stage_index l n = i.
Proof.
  intros Hd Hi. unfold stage_index. destruct (list_find (fun m => m = n) l) as [[j m]|] eqn:E; simpl.
  - apply list_find_Some in E as (Hj & -> & _). by eapply NoDup_lookup.
  - apply list_find_None in E. rewrite Forall_lookup in E. by specialize (E _ _ Hi).
Qed.
Lemma stage_ids_lookup l n : NoDup l -> stage_ids l !! n = if decide (n ∈ l) then Some (stage_id (stage_index l n)) else None.
Proof.
  intros Hd. case_decide as Hn.
  - apply list_elem_of_lookup in Hn as [i Hi]. rewrite (stage_index_at l i n Hd Hi). unfold stage_ids.
    apply elem_of_list_to_map; [by rewrite stage_ids_keys|]. apply elem_of_lookup_imap. eauto.
  - unfold stage_ids. apply not_elem_of_list_to_map. by rewrite stage_ids_keys.
Qed.

Definition stages_db (l : list string) : RunDB := with_stages empty_run (table stage_id (stage_rows l)).
Lemma insert_stage_at dn n : insert_stage stage_id (stages_db dn, stage_ids dn) (length dn, n) =
  if decide (n ∈ dn) then Err (CreateStageExists n) else Ok (stages_db (dn ++ [n]), stage_ids (dn ++ [n])).
Proof.
  unfold insert_stage. simpl. rewrite (InsertStageRun_table dn) by done. case_decide as Hn; simpl; [done|].
  by rewrite (stage_ids_snoc dn n Hn).
Qed.
Lemma imap_shift (dn : list string) n l :
  imap (fun i n => (length dn + i, n)) (n :: l) = (length dn, n) :: imap (fun i m => (length (dn ++ [n]) + i, m)) l.
Proof.
  simpl. rewrite Nat.add_0_r. f_equal. apply imap_ext. intros i x _. simpl. rewrite length_app. simpl. f_equal. lia.
Qed.
Lemma fold_stages_ok dn l : NoDup (dn ++ l) ->
  fold_all (insert_stage stage_id) (stages_db dn, stage_ids dn) (imap (fun i n => (length dn + i, n)) l) =
    Ok (stages_db (dn ++ l), stage_ids (dn ++ l)).
Proof.
  revert dn. induction l as [|n l IH]; intros dn Hd; [by rewrite app_nil_r|].
  rewrite imap_shift. simpl. rewrite insert_stage_at, decide_False.
  - replace (dn ++ n :: l) with ((dn ++ [n]) ++ l) by by rewrite <-app_assoc.
    apply IH. by rewrite <-app_assoc.
  - apply NoDup_app in Hd as (_ & Hd & _). intros Hn. apply (Hd n Hn). left.
Qed.
Lemma fold_stages_err dn l : NoDup dn -> ~ NoDup (dn ++ l) -> exists n,
  fold_all (insert_stage stage_id) (stages_db dn, stage_ids dn) (imap (fun i n => (length dn + i, n)) l) =
    Err (CreateStageExists n).
Proof.
  revert dn. induction l as [|n l IH]; intros dn Hd Hn; [by rewrite app_nil_r in Hn|].
  rewrite imap_shift. simpl. rewrite insert_stage_at. case_decide as Hin; [eauto|].
  apply IH.
  - apply NoDup_app. split; [done|]. split; [|apply NoDup_singleton]. by intros x Hx ->%list_elem_of_singleton.
  - by rewrite <-app_assoc.
Qed.

(** *** Jobs *)

Section Jobs.
Context (in_ : RunRowsSpec) (names : list string).

Definition rows_db (specs : list JobSpec) : RunDB := {|
  run := new_run; stages := table stage_id (stage_rows names); jobs := table job_id (new_job <$> specs); watched := ∅ |}.
Record filled (rows : list (JobSpec * option GateColumns)) (c : RunCreated) : Prop := {
  fi_db : rc_db c = rows_db rows.*1;
  fi_gates : rc_gates c = omap snd (table job_id rows);
  fi_ref : rc_ref c = capRef (Ref in_);
}.
Definition row_of (job : Job) (c : combo) : JobSpec * option GateColumns :=
  (job_spec (Def in_) job c, gate_columns in_ <$> Job_Approval job).

Lemma InsertJobRun_rows stage name key needs unsafe specs :
  InsertJobRun job_id stage name key needs unsafe (rows_db specs) =
    (job_id (length specs),
     rows_db (specs ++ [{| js_stage := stage; js_name := name; js_matrix_key := key; js_needs := needs;
                           js_gate := false; js_retry_unsafe := unsafe |}])).
Proof.
  unfold InsertJobRun, rows_db, with_jobs. simpl. rewrite table_size by done. rewrite length_fmap.
  rewrite fmap_app. simpl. by rewrite table_snoc, length_fmap.
Qed.

Lemma gates_snoc (rows : list (JobSpec * option GateColumns)) s o :
  omap snd (table job_id (rows ++ [(s, o)])) =
    match o with Some g => <[job_id (length rows) := g]> (omap snd (table job_id rows)) | None => omap snd (table job_id rows) end.
Proof.
  rewrite table_snoc by done. rewrite omap_insert. simpl. destruct o; [done|].
  apply delete_id. rewrite lookup_omap, table_next by done. done.
Qed.

Lemma insert_combo_filled job rows c cmb : filled rows c ->
  filled (rows ++ [row_of job cmb])
    (insert_combo job_id in_ job (stage_id (stage_index (Stages (Def in_)) (Job_Stage job))) c cmb).
Proof.
  intros [Hdb Hg Hr]. unfold insert_combo, row_of. cbv zeta. rewrite Hdb, InsertJobRun_rows.
  assert (Hlen : length rows.*1 = length rows) by apply length_fmap.
  destruct (Job_Approval job) as [a|] eqn:Ea; simpl.
  - unfold gate_columns. assert ((if (Required a <? 1)%Z then 1%Z else Required a) = Z.max 1 (Required a)) as ->.
    { destruct (Z.ltb_spec (Required a) 1); lia. }
    destruct (resolveEffectiveQuorum _ _ _ _) as [eff label]. split; simpl; [| |done].
    + rewrite fmap_app. unfold rows_db, with_jobs. simpl. f_equal.
      rewrite !fmap_app. simpl. rewrite !table_snoc by done. rewrite !length_fmap, alter_insert_eq. f_equal.
      unfold set_gate_columns, job_spec. simpl. by rewrite Ea.
    + rewrite gates_snoc, Hg, Hlen. done.
  - split; simpl; [| |done].
    + rewrite fmap_app. simpl. unfold job_spec. by rewrite Ea.
    + by rewrite gates_snoc.
Qed.
Lemma insert_combos_filled job l rows c : filled rows c ->
  filled (rows ++ (row_of job <$> l))
    (foldl (insert_combo job_id in_ job (stage_id (stage_index (Stages (Def in_)) (Job_Stage job)))) c l).
Proof.
  revert rows c. induction l as [|cmb l IH]; intros rows c Hc; [by rewrite app_nil_r|].
  rewrite fmap_cons, cons_middle, app_assoc. cbn [foldl].
  apply IH. by apply insert_combo_filled.
Qed.

Definition rows_of_jobs (l : list Job) : list (JobSpec * option GateColumns) :=
  l ≫= fun job => row_of job <$> expandMatrix (Job_Matrix job).
Hypothesis Hnd : NoDup (Stages (Def in_)).
Lemma insert_jobs_filled l rows c : Forall (fun j => Job_Stage j ∈ Stages (Def in_)) l -> filled rows c ->
  exists c', fold_all (insert_job job_id in_ (stage_ids (Stages (Def in_)))) c l = Ok c' /\ filled (rows ++ rows_of_jobs l) c'.
Proof.
  intros Hl. revert rows c. induction Hl as [|job l Hj Hl IH]; intros rows c Hc; simpl.
  - exists c. by rewrite app_nil_r.
  - unfold insert_job at 1. rewrite stage_ids_lookup, decide_True by done.
    destruct (IH _ _ (insert_combos_filled job (expandMatrix (Job_Matrix job)) rows c Hc)) as (c' & E & Hc').
    exists c'. split; [exact E|]. by rewrite <-app_assoc in Hc'.
Qed.
Lemma insert_jobs_err l c : ~ Forall (fun j => Job_Stage j ∈ Stages (Def in_)) l ->
  exists job stage, fold_all (insert_job job_id in_ (stage_ids (Stages (Def in_)))) c l = Err (CreateUnknownStage job stage).
Proof.
  revert c. induction l as [|job l IH]; intros c Hl; simpl; [destruct Hl; constructor|].
  unfold insert_job at 1. rewrite stage_ids_lookup by done. case_decide as Hj; [|eauto].
  apply IH. intros Hf. apply Hl. by constructor.
Qed.
End Jobs.

(** *** Notifications *)

Definition uses_ok (l : list Notification) : Prop := Forall (fun n => is_ok (ResolvePluginRef (Notif_Uses n)) = true) l.
Lemma insert_notification_rows names stage specs i n : insert_notification job_id stage (rows_db names specs) (i, n) =
  match ResolvePluginRef (Notif_Uses n) with
  | Ok _ => Ok (rows_db names (specs ++ [notification_spec stage i]))
  | Err e => Err (CreatePluginRef i e)
  end.
Proof.
  unfold insert_notification. cbn [fst snd]. rewrite InsertJobRun_rows. by destruct (ResolvePluginRef (Notif_Uses n)).
Qed.
Lemma insert_notifications names stage specs l k : uses_ok l ->
  fold_all (insert_notification job_id stage) (rows_db names specs) (imap (fun i n => (k + i, n)) l) =
    Ok (rows_db names (specs ++ imap (fun i _ => notification_spec stage (k + i)) l)).
Proof.
  intros Hl. revert specs k. induction Hl as [|n l Hn Hl IH]; intros specs k; [by rewrite app_nil_r|].
  cbn [imap fold_all]. rewrite insert_notification_rows. destruct (ResolvePluginRef (Notif_Uses n)) as [img|]; [|done].
  rewrite (imap_ext _ (fun i n => (S k + i, n))) by (intros; simpl; f_equal; lia). rewrite IH, <-app_assoc, Nat.add_0_r.
  simpl. do 4 f_equal. apply imap_ext. intros i x _. simpl. f_equal. lia.
Qed.
Lemma insert_notifications_err names stage specs l k : ~ uses_ok l -> exists i e,
  fold_all (insert_notification job_id stage) (rows_db names specs) (imap (fun i n => (k + i, n)) l) = Err (CreatePluginRef i e).
Proof.
  revert specs k. induction l as [|n l IH]; intros specs k Hl; [destruct Hl; constructor|].
  cbn [imap fold_all]. rewrite insert_notification_rows.
  destruct (ResolvePluginRef (Notif_Uses n)) as [img|e] eqn:E; [|eauto].
  rewrite (imap_ext _ (fun i n => (S k + i, n))) by (intros; simpl; f_equal; lia).
  apply IH. intros Hf. apply Hl. constructor; [by rewrite E|done].
Qed.

Lemma synthesize_rows names specs l : uses_ok l -> (l = [] \/ NotificationStageName ∉ names) ->
  synthesizeNotificationStage stage_id job_id (length names) l (rows_db names specs) =
    Ok (rows_db (names ++ match l with [] => [] | _ => [NotificationStageName] end)
          (specs ++ imap (fun i _ => notification_spec (stage_id (length names)) i) l)).
Proof.
  intros Hl Hn. unfold synthesizeNotificationStage. destruct l as [|n l]; [by rewrite !app_nil_r|].
  destruct Hn as [?|Hn]; [done|]. rewrite (InsertStageRun_table names) by done. rewrite decide_False by done. cbn [mbind result_bind].
  rewrite <-(insert_notifications (names ++ [NotificationStageName]) _ specs (n :: l) 0) by done. done.
Qed.
Lemma synthesize_err names specs l : ~ (uses_ok l /\ (l = [] \/ NotificationStageName ∉ names)) -> exists e,
  synthesizeNotificationStage stage_id job_id (length names) l (rows_db names specs) = Err e.
Proof.
  intros Hn. unfold synthesizeNotificationStage. destruct l as [|n l]; [destruct Hn; split; [constructor|by left]|].
  rewrite (InsertStageRun_table names) by done. case_decide as Hin; simpl; [eauto|].
  destruct (insert_notifications_err (names ++ [NotificationStageName]) (stage_id (length names)) specs (n :: l) 0) as (i & e & E).
  { intros Hu. apply Hn. split; [done|by right]. }
  exists (CreatePluginRef i e). exact E.
Qed.

(** ** The creation, exactly *)

(** What [insertRunRowsTx] needs of the definition and the notifications. *)
Definition creatable (in_ : RunRowsSpec) (l : list Notification) : Prop :=
  NoDup (Stages (Def in_)) /\ Forall (fun j => Job_Stage j ∈ Stages (Def in_)) (Jobs (Def in_)) /\
  effective_notifications in_ = Ok l /\ uses_ok l /\ (l = [] \/ NotificationStageName ∉ Stages (Def in_)).

Lemma created_rows in_ l : creatable in_ l -> exists c, insertRunRowsTx stage_id job_id in_ = Ok c /\
  rc_db c = layout in_ l /\ rc_gates c = gate_table in_ /\ rc_ref c = capRef (Ref in_) /\ rc_supersede c = supersede_fire in_.
Proof.
  intros (Hnd & Hj & Hl & Hu & Hs). unfold insertRunRowsTx. cbv zeta.
  pose proof (fold_stages_ok [] (Stages (Def in_)) Hnd) as E. simpl in E.
  change (imap pair (Stages (Def in_))) with (imap (fun i n => (i, n)) (Stages (Def in_))). unfold stages_db in E at 1.
  assert (E0 : with_stages empty_run (table stage_id (stage_rows [])) = empty_run) by done. rewrite E0 in E. clear E0.
  change (stage_ids []) with (∅ : gmap string uuid) in E. rewrite E. simpl.
  destruct (insert_jobs_filled in_ (Stages (Def in_)) Hnd (Jobs (Def in_)) []
              {| rc_db := stages_db (Stages (Def in_)); rc_ref := capRef (Ref in_); rc_gates := ∅; rc_audit := [];
                 rc_supersede := None |}) as (c & Ec & [Hdb Hg Hr]); [done|by split|].
  rewrite Ec. simpl. rewrite Hl. simpl. rewrite Hdb, synthesize_rows by done. simpl.
  eexists. split; [done|]. simpl. split_and!; [|exact Hg|exact Hr|done]. reflexivity.
Qed.
Lemma created_inv in_ c : insertRunRowsTx stage_id job_id in_ = Ok c -> exists l, creatable in_ l.
Proof.
  unfold insertRunRowsTx. cbv zeta. change (imap pair (Stages (Def in_))) with (imap (fun i n => (length (@nil string) + i, n)) (Stages (Def in_))).
  change (empty_run, ∅) with (stages_db [], stage_ids []).
  intros Hc. destruct (decide (NoDup (Stages (Def in_)))) as [Hnd|Hnd].
  2: { destruct (fold_stages_err [] (Stages (Def in_))) as (n & E); [constructor|done|]. by rewrite E in Hc. }
  rewrite (fold_stages_ok [] (Stages (Def in_))) in Hc by done. simpl in Hc.
  destruct (decide (Forall (fun j => Job_Stage j ∈ Stages (Def in_)) (Jobs (Def in_)))) as [Hj|Hj].
  2: { destruct (insert_jobs_err in_ Hnd (Jobs (Def in_)) {| rc_db := stages_db (Stages (Def in_)); rc_ref := capRef (Ref in_);
         rc_gates := ∅; rc_audit := []; rc_supersede := None |} Hj) as (j & s & E). by rewrite E in Hc. }
  destruct (insert_jobs_filled in_ (Stages (Def in_)) Hnd (Jobs (Def in_)) []
              {| rc_db := stages_db (Stages (Def in_)); rc_ref := capRef (Ref in_); rc_gates := ∅; rc_audit := [];
                 rc_supersede := None |}) as (c1 & Ec & [Hdb _ _]); [done|by split|].
  rewrite Ec in Hc. simpl in Hc. destruct (effective_notifications in_) as [l|] eqn:El; [|done]. simpl in Hc.
  exists l. destruct (decide (Forall (fun n => is_ok (ResolvePluginRef (Notif_Uses n)) = true) l /\
                      (l = [] \/ NotificationStageName ∉ Stages (Def in_)))) as [[Hu Hs]|Hn]; [by split_and!|].
  rewrite app_nil_l in Hdb. rewrite Hdb in Hc. destruct (synthesize_err (Stages (Def in_)) (rows_of_jobs in_ (Jobs (Def in_))).*1 l Hn) as (e & E).
  rewrite E in Hc. done.
Qed.
End Layout.

(** ** The quorum a label raises *)

Section Quorum.
Context (overrides : gmap string Z).

(** The best label so far: none, or the greatest override and its first label. *)
Definition best_of (done : list string) (best : Z * string) : Prop :=
  (best.1 = 0%Z \/ (best.2 ∈ done /\ overrides !! best.2 = Some best.1 /\ (0 < best.1)%Z)) /\
  forall l q, l ∈ done -> overrides !! l = Some q -> (q <= best.1)%Z /\ (q = best.1 -> (0 < q)%Z -> String.le best.2 l).

Lemma better_best dn best l : (forall x, x ∈ dn -> String.le x l) -> (0 <= best.1)%Z -> best_of dn best ->
  best_of (dn ++ [l]) (better_label overrides best l) /\ (0 <= (better_label overrides best l).1)%Z.
Proof.
  intros Hle Hpos [Hb Hm]. unfold better_label. destruct (overrides !! l) as [q|] eqn:El.
  - destruct (Z.ltb_spec best.1 q) as [Hlt|Hge]; split; try (simpl; lia).
    + split; simpl.
      * right. split; [set_solver|]. split; [done|lia].
      * intros l' q' [Hl'| ->%list_elem_of_singleton]%elem_of_app Hq'.
        -- destruct (Hm _ _ Hl' Hq'). split; [lia|]. intros ->. lia.
        -- assert (q' = q) as -> by congruence. done.
    + split.
      * destruct Hb as [?|(? & ? & ?)]; [by left|right]. split; [set_solver|done].
      * intros l' q' [Hl'| ->%list_elem_of_singleton]%elem_of_app Hq'; [by apply Hm|].
        assert (q' = q) as -> by congruence. split; [lia|]. intros Heq Hq.
        destruct Hb as [Hz|(Hin & _)]; [lia|]. by apply Hle.
  - split; [|done]. split.
    + destruct Hb as [?|(? & ? & ?)]; [by left|right]. split; [set_solver|done].
    + intros l' q' [Hl'| ->%list_elem_of_singleton]%elem_of_app Hq'; [by apply Hm|congruence].
Qed.
Lemma best_fold l dn best : Sorted String.le (dn ++ l) -> (0 <= best.1)%Z -> best_of dn best ->
  best_of (dn ++ l) (foldl (better_label overrides) best l).
Proof.
  revert dn best. induction l as [|x l IH]; intros dn best Hs Hpos Hb; simpl; [by rewrite app_nil_r|].
  rewrite cons_middle, app_assoc. destruct (better_best dn best x) as [Hb' Hp']; [|done..|].
  - intros y Hy. apply Sorted_StronglySorted in Hs; [|apply _]. apply StronglySorted_app in Hs as (Hall & _ & _).
    apply Hall; [done|left].
  - apply IH; [|done..]. by rewrite <-app_assoc.
Qed.

(** The quorum of a gate row: the greatest override among the labels of the pull
    request, the first label that has it named; otherwise the declared one. *)
Lemma resolveEffectiveQuorum_spec cause labels base eff label :
  resolveEffectiveQuorum cause labels base overrides = (eff, label) ->
  (eff = base /\ label = "" /\ (cause = "pull_request" -> forall l q, l ∈ default [] labels -> overrides !! l = Some q -> (q <= 0)%Z)) \/
  (cause = "pull_request" /\ label ∈ default [] labels /\ overrides !! label = Some eff /\ (0 < eff)%Z /\
   forall l q, l ∈ default [] labels -> overrides !! l = Some q -> (q <= eff)%Z /\ (q = eff -> String.le label l)).
Proof.
  unfold resolveEffectiveQuorum. case_decide as He.
  { intros [= <- <-]. left. split_and!; [done..|]. intros _ l q _. by rewrite He, lookup_empty. }
  destruct (bool_decide_reflect (cause = "pull_request")) as [Hc|Hc]; simpl; [|intros [= <- <-]; by left].
  pose proof (best_fold (sort_strings (default [] labels)) [] (0%Z, "") (Sorted_sort_strings _)) as [Hb Hm].
  { simpl. lia. } { split; [by left|]. intros l q Hl. set_solver. }
  rewrite app_nil_l in Hb, Hm. destruct (foldl _ _ _) as [q l]. simpl in *. setoid_rewrite elem_of_sort_strings in Hm.
  rewrite elem_of_sort_strings in Hb. destruct (Z.eqb_spec q 0) as [->|Hq]; intros [= <- <-].
  - left. split_and!; [done..|]. intros _ l' q' Hl' Hq'. by apply (Hm l' q').
  - right. destruct Hb as [?|(Hl & Ho & Hp)]; [done|]. split_and!; [done..|]. intros l' q' Hl' Hq'.
    destruct (Hm l' q' Hl' Hq') as [H1 H2]. split; [done|]. intros ->. by apply H2.
Qed.
End Quorum.

(** ** A created run is a fresh one *)

Section Fresh.
Context `{MapRange}.
Context (stage_id job_id : nat -> uuid) `{!Inj (=) (=) stage_id, !Inj (=) (=) job_id}.
Context (in_ : RunRowsSpec) (l : list Notification).
Notation p := (Def in_).
Notation db := (layout stage_id job_id in_ l).
Hypothesis Hcr : creatable in_ l.
Hypothesis Hp : valid_pipeline p.
Hypothesis Hres : NotificationStageName ∉ Stages p.
Hypothesis Hwidth : (Z.of_nat (length (Stages p)) < 2 ^ 31)%Z.

(** The rows, by where they come from. *)
Inductive created_job : JobSpec -> Prop :=
| created_user job c : job ∈ Jobs p -> c ∈ expandMatrix (Job_Matrix job) -> created_job (job_spec stage_id p job c)
| created_notification i n : l !! i = Some n -> created_job (notification_spec (stage_id (length (Stages p))) i).

Lemma layout_job id row : jobs db !! id = Some row -> row = new_job (j_spec row) /\ created_job (j_spec row).
Proof.
  simpl. intros (i & -> & Hi)%table_lookup; [|done]. rewrite list_lookup_fmap in Hi.
  apply fmap_Some in Hi as (s & Hs & ->). simpl. split; [done|]. apply lookup_app_Some in Hs as [Hs|[_ Hs]].
  - apply list_elem_of_lookup_2, list_elem_of_fmap in Hs as ([s' o] & -> & Hin).
    apply list_elem_of_bind in Hin as (job & Hin & Hj). apply list_elem_of_fmap in Hin as (c & [= -> ->] & Hc).
    by constructor.
  - unfold notification_rows in Hs. rewrite list_lookup_imap in Hs. apply fmap_Some in Hs as (n & Hn & ->).
    by econstructor.
Qed.
Lemma layout_stage i n : stage_names in_ l !! i = Some n ->
  stages db !! stage_id i = Some (new_stage n (wrap32 (Z.of_nat i))).
Proof. intros Hi. apply table_at; [done|]. unfold stage_rows. by rewrite list_lookup_imap, Hi. Qed.
Lemma layout_stage_inv id s : stages db !! id = Some s ->
  exists i n, id = stage_id i /\ stage_names in_ l !! i = Some n /\ s = new_stage n (wrap32 (Z.of_nat i)).
Proof.
  simpl. intros (i & -> & Hi)%table_lookup; [|done]. unfold stage_rows in Hi. rewrite list_lookup_imap in Hi.
  apply fmap_Some in Hi as (n & Hn & ->). eauto.
Qed.
Lemma user_index job : job ∈ Jobs p -> exists i, stage_index (Stages p) (Job_Stage job) = i /\ Stages p !! i = Some (Job_Stage job).
Proof.
  intros Hj. destruct Hcr as (Hnd & Hs & _). rewrite Forall_forall in Hs. specialize (Hs _ Hj).
  apply list_elem_of_lookup in Hs as [i Hi]. exists i. split; [by apply stage_index_at|done].
Qed.
Lemma stage_names_user i n : Stages p !! i = Some n -> stage_names in_ l !! i = Some n.
Proof. intros Hi. unfold stage_names. rewrite lookup_app_l by by apply lookup_lt_Some in Hi. done. Qed.
Lemma stage_names_inv i n : stage_names in_ l !! i = Some n ->
  Stages p !! i = Some n \/ (i = length (Stages p) /\ n = NotificationStageName).
Proof.
  unfold stage_names. intros [Hi|[Hge Hi]]%lookup_app_Some; [by left|right].
  destruct l; [done|]. destruct (i - length (Stages p)) as [|k] eqn:E; [|done]. injection Hi as <-. split; [lia|done].
Qed.
Lemma ordinal_small i n : stage_names in_ l !! i = Some n -> wrap32 (Z.of_nat i) = Z.of_nat i.
Proof.
  intros [Hi|[-> _]]%stage_names_inv; apply wrap32_small; [apply lookup_lt_Some in Hi|]; lia.
Qed.

Lemma created_stage_user job c : job ∈ Jobs p -> forall row, j_spec row = job_spec stage_id p job c -> user db row.
Proof.
  intros Hj row Hr. destruct (user_index job Hj) as (i & Hi & Hl). exists (new_stage (Job_Stage job) (wrap32 (Z.of_nat i))).
  unfold stage_of. rewrite Hr. simpl js_stage. rewrite Hi. split; [by apply layout_stage, stage_names_user|].
  unfold synthetic. apply bool_decide_eq_false. simpl. intros E. apply Hres. rewrite <-E. by eapply list_elem_of_lookup_2.
Qed.
Lemma notification_stage i n row : l !! i = Some n -> j_spec row = notification_spec (stage_id (length (Stages p))) i ->
  exists s, stage_of db row = Some s /\ synthetic s = true.
Proof.
  intros Hl Hr. exists (new_stage NotificationStageName (wrap32 (Z.of_nat (length (Stages p))))).
  unfold stage_of. rewrite Hr. simpl js_stage. split; [|by apply bool_decide_eq_true].
  apply layout_stage. unfold stage_names. rewrite lookup_app_r, Nat.sub_diag by lia. by destruct l.
Qed.
Lemma user_created row : created_job (j_spec row) -> user db row ->
  exists job c, job ∈ Jobs p /\ c ∈ expandMatrix (Job_Matrix job) /\ j_spec row = job_spec stage_id p job c.
Proof.
  intros Hc Hu. inversion Hc as [job c Hj Hcm E|i n Hl E]; [by exists job, c|].
  destruct (notification_stage i n row Hl) as (s & Hs & Hsy); [done|]. destruct Hu as (s' & Hs' & Hn). congruence.
Qed.

Lemma need_is_job job n : job ∈ Jobs p -> n ∈ Job_Needs job -> exists t, t ∈ Jobs p /\ Job_Name t = n.
Proof.
  intros Hj Hn. pose proof (vp_needs p Hp) as Hv. rewrite validateNeeds_Ok in Hv.
  destruct (Hv _ _ Hj Hn) as (_ & t & Ht & _). exists t. apply index_by_Some in Ht. naive_solver.
Qed.

Hypothesis Hnames : Forall (fun j => (NotificationIndexFromName (Job_Name j)).2 = false) (Jobs p).
Hypothesis Hindexed : forall i n, l !! i = Some n -> (NotificationIndexFromName (NotificationJobName (Z.of_nat i))).2 = true.

Lemma layout_named : named db.
Proof.
  split.
  - intros id row [_ Hc]%layout_job. inversion Hc as [job c Hj Hcm E|i n Hl E].
    + destruct (created_stage_user job c Hj row) as (s & Hs & _); [done|eauto].
    + destruct (notification_stage i n row Hl) as (s & Hs & _); [done|eauto].
  - intros id row [_ Hc]%layout_job Hg. inversion Hc as [job c Hj Hcm E|i n Hl E].
    + by eapply created_stage_user.
    + by rewrite <-E in Hg.
  - intros id row id' row' [_ Hc]%layout_job Hu Hr' Hin. pose proof (layout_job _ _ Hr') as [_ Hc'].
    destruct (user_created row Hc Hu) as (job & c & Hj & _ & E). rewrite E in Hin. simpl in Hin.
    destruct (need_is_job job _ Hj Hin) as (t & Ht & Hnm).
    inversion Hc' as [job' c' Hj' _ E'|i n Hl E']; [by eapply created_stage_user|]. exfalso.
    rewrite Forall_forall in Hnames. specialize (Hnames _ Ht). rewrite Hnm, <-E' in Hnames. simpl js_name in Hnames.
    by rewrite (Hindexed _ _ Hl) in Hnames.
  - intros id row [_ Hc]%layout_job Hu. destruct (user_created row Hc Hu) as (job & c & Hj & _ & E). rewrite E. simpl.
    rewrite Forall_forall in Hnames. by apply Hnames.
  - intros id s id' s' (i & n & -> & Hi & ->)%layout_stage_inv (i' & n' & -> & Hi' & ->)%layout_stage_inv Hf Ht.
    simpl. rewrite (ordinal_small _ _ Hi), (ordinal_small _ _ Hi'). unfold synthetic in *. simpl in *.
    apply bool_decide_eq_false in Hf. apply bool_decide_eq_true in Ht.
    apply stage_names_inv in Hi as [Hi|[_ ?]]; [|done]. apply stage_names_inv in Hi' as [Hi'|[-> _]].
    + destruct Hres. rewrite <-Ht. by eapply list_elem_of_lookup_2.
    + apply lookup_lt_Some in Hi. lia.
Qed.

Lemma layout_fresh : fresh db.
Proof.
  split; [apply layout_named|done| | |done].
  - intros id s (i & n & -> & _ & ->)%layout_stage_inv. done.
  - intros id row [-> _]%layout_job. done.
Qed.
End Fresh.

(** What the pipeline's own checks leave in order: needs go down the must-pass-before
    order, and every stage of the pipeline that has a job has a job row. *)
Section Orderly.
Context `{MapRange}.
Context (stage_id job_id : nat -> uuid) `{!Inj (=) (=) stage_id, !Inj (=) (=) job_id}.
Context (in_ : RunRowsSpec) (l : list Notification).
Notation p := (Def in_).
Notation db := (layout stage_id job_id in_ l).
Hypothesis Hcr : creatable in_ l.
Hypothesis Hp : valid_pipeline p.
Hypothesis Hres : NotificationStageName ∉ Stages p.
Hypothesis Hwidth : (Z.of_nat (length (Stages p)) < 2 ^ 31)%Z.

Lemma user_row job c : job ∈ Jobs p -> c ∈ expandMatrix (Job_Matrix job) ->
  exists id, jobs db !! id = Some (new_job (job_spec stage_id p job c)).
Proof.
  intros Hj Hc. assert (Hin : job_spec stage_id p job c ∈ (user_rows stage_id in_).*1).
  { apply list_elem_of_fmap. exists (job_spec stage_id p job c, gate_columns in_ <$> Job_Approval job). split; [done|].
    apply list_elem_of_bind. exists job. split; [|done]. apply list_elem_of_fmap. eauto. }
  apply list_elem_of_lookup in Hin as [i Hi]. exists (job_id i). simpl. apply table_at; [done|].
  rewrite list_lookup_fmap, (lookup_app_l_Some _ _ _ _ Hi). done.
Qed.
Lemma notification_row i n : l !! i = Some n ->
  exists id, jobs db !! id = Some (new_job (notification_spec (stage_id (length (Stages p))) i)).
Proof.
  intros Hi. exists (job_id (length (user_rows stage_id in_).*1 + i)). simpl. apply table_at; [done|].
  rewrite list_lookup_fmap, lookup_app_r by lia. replace (_ + i - _) with i by lia.
  unfold notification_rows. by rewrite list_lookup_imap, Hi.
Qed.

(** How many jobs must pass before a name's. *)
Definition need_rank (n : string) : nat :=
  match byName (Jobs p) !! n with
  | Some a => length (filter (fun b => precedes p b a = true) (Jobs p))
  | None => 0
  end.
Lemma need_rank_lt a b : a ∈ Jobs p -> b ∈ Jobs p -> Job_Name a ∈ Job_Needs b -> need_rank (Job_Name a) < need_rank (Job_Name b).
Proof.
  intros Ha Hb Hn. unfold need_rank. rewrite !vp_byName by done.
  assert (Hpr : precedes p a b = true).
  { apply (precedes_spec p Hp); [done|]. right. apply tc_once. exists b. by rewrite vp_byName. }
  apply (length_filter_strict _ _ (Jobs p) a).
  - intros y Hy Hya. by apply (precedes_trans p Hp y a b).
  - done.
  - done.
  - by rewrite (precedes_irrefl p Hp).
Qed.
Lemma need_stage_le a b : a ∈ Jobs p -> b ∈ Jobs p -> Job_Name a ∈ Job_Needs b ->
  stage_index (Stages p) (Job_Stage a) <= stage_index (Stages p) (Job_Stage b).
Proof.
  intros Ha Hb Hn. pose proof (vp_needs p Hp) as Hv. rewrite validateNeeds_Ok in Hv.
  destruct (Hv _ _ Hb Hn) as (_ & t & Ht & Hle). rewrite vp_byName in Ht by done. simplify_eq.
  destruct (user_index in_ l Hcr t Ha) as (i & <- & Hi). destruct (user_index in_ l Hcr b Hb) as (k & <- & Hk).
  pose proof (proj1 Hcr) as Hnd. apply Hle; by apply stage_ordinals_NoDup.
Qed.

Lemma user_stage job c row s : job ∈ Jobs p -> j_spec row = job_spec stage_id p job c -> stage_of db row = Some s ->
  ss_ordinal (s_spec s) = Z.of_nat (stage_index (Stages p) (Job_Stage job)).
Proof.
  intros Hj E Hs. unfold stage_of in Hs. rewrite E in Hs. cbn [js_stage job_spec] in Hs.
  destruct (user_index in_ l Hcr job Hj) as (i & Hi & Hl). rewrite Hi in *.
  pose proof (stage_names_user in_ l i _ Hl) as Hn. rewrite (layout_stage stage_id job_id in_ l i _ Hn) in Hs.
  injection Hs as <-. simpl. exact (ordinal_small in_ l Hcr Hwidth i _ Hn).
Qed.
Lemma needs_user job n id' r : job ∈ Jobs p -> n ∈ Job_Needs job ->
  Forall (fun j => (NotificationIndexFromName (Job_Name j)).2 = false) (Jobs p) ->
  (forall i x, l !! i = Some x -> (NotificationIndexFromName (NotificationJobName (Z.of_nat i))).2 = true) ->
  jobs db !! id' = Some r -> js_name (j_spec r) = n ->
  exists t ct, t ∈ Jobs p /\ Job_Name t = n /\ ct ∈ expandMatrix (Job_Matrix t) /\ j_spec r = job_spec stage_id p t ct.
Proof.
  intros Hj Hin Hnames Hidx [_ Hc]%layout_job Hnm. 2: done. inversion Hc as [t ct Ht Hct E|i x Hl E].
  - exists t, ct. split_and!; [done| |done|done]. by rewrite <-Hnm, <-E.
  - exfalso. destruct (need_is_job in_ Hp job n Hj Hin) as (t & Ht & E').
    rewrite Forall_forall in Hnames. specialize (Hnames _ Ht). rewrite E', <-Hnm, <-E in Hnames. simpl js_name in Hnames.
    by rewrite (Hidx _ _ Hl) in Hnames.
Qed.

Lemma layout_orderly : Stages p <> [] -> (forall s, s ∈ Stages p -> exists j, j ∈ Jobs p /\ Job_Stage j = s) ->
  Forall (fun j => (NotificationIndexFromName (Job_Name j)).2 = false) (Jobs p) ->
  (forall i x, l !! i = Some x -> (NotificationIndexFromName (NotificationJobName (Z.of_nat i))).2 = true) ->
  orderly db.
Proof.
  intros Hne Hst Hnames Hidx. split.
  - intros id s id' s' (i & n & -> & Hi & ->)%layout_stage_inv (i' & n' & -> & Hi' & ->)%layout_stage_inv; [|done..].
    simpl. rewrite !(ordinal_small in_ l Hcr Hwidth _ _ Hi), !(ordinal_small in_ l Hcr Hwidth _ _ Hi'). intros ?. f_equal. lia.
  - destruct (Stages p) as [|n ss] eqn:E; [done|]. exists (stage_id 0). eexists. apply layout_stage; [done|].
    apply stage_names_user. by rewrite E.
  - intros id s (i & n & -> & Hi & ->)%layout_stage_inv; [|done]. destruct (stage_names_inv in_ l Hcr i n Hi) as [Hu|[-> ->]].
    + destruct (Hst n) as (j & Hj & Hs); [by eapply list_elem_of_lookup_2|].
      destruct (expandMatrix_ne (Job_Matrix j)) as [c Hc]. destruct (user_row j c Hj Hc) as [id Hid].
      eexists. exists id. split; [exact Hid|]. simpl. rewrite Hs. by rewrite (stage_index_at _ _ _ (proj1 Hcr) Hu).
    + unfold stage_names in Hi. rewrite lookup_app_r, Nat.sub_diag in Hi by lia. assert (Hx : exists x, l !! 0 = Some x) by (destruct l as [|x l']; [done|by exists x]). destruct Hx as [x Hx].
      destruct (notification_row 0 x Hx) as [id Hid]. eexists. exists id. split; [exact Hid|done].
  - exists need_rank. intros id row n Hrow Hn. pose proof (layout_job _ _ _ _ _ _ Hrow) as [_ Hc].
    inversion Hc as [job c Hj Hcm E|i x Hl E]; [|by rewrite <-E in Hn; apply not_elem_of_nil in Hn].
    rewrite <-E in Hn. cbn in Hn. cbn [js_name job_spec].
    destruct (need_is_job in_ Hp job n Hj Hn) as (t & Ht & Hnm). split; [rewrite <-Hnm in *; by apply need_rank_lt|].
    intros id' r s s' Hr Hname Hs Hs'.
    destruct (needs_user job n id' r Hj Hn Hnames Hidx Hr Hname) as (t' & ct & Ht' & Hnm' & _ & E').
    rewrite (user_stage t' ct r s Ht' E' Hs), (user_stage job c row s' Hj (eq_sym E) Hs').
    apply Nat2Z.inj_le, need_stage_le; [done..|]. by rewrite Hnm'.
Qed.
End Orderly.

(** ** Notification names *)

(** [Atoi] reads back what [%d] wrote. *)
Lemma Atoi_itoa n : (0 <= n < 2 ^ 63)%Z -> Atoi (itoa n) = Some n.
Proof.
  intros Hn. unfold Atoi, itoa. pose proof (itoa_digits 64 n "" ltac:(lia)) as Hd.
  destruct (itoa_head 64 n "" ltac:(lia)) as (d & t & Hdr & E). rewrite E in *.
  destruct (digit_value d Hdr) as (_ & _ & Hm & Hp).
  assert (Hu : (match String (digit d) t with String "-" t' | String "+" t' => t' | _ => String (digit d) t end) = String (digit d) t /\
               (match String (digit d) t with String "-" _ => (-1)%Z | _ => 1%Z end) = 1%Z).
  { destruct (digit d) as [[] [] [] [] [] [] [] []]; done. }
  destruct Hu as [-> ->]. rewrite decide_False by done.
  assert (Hpow : (2 ^ 63 <= 10 ^ Z.of_nat 64)%Z) by (vm_compute; done). rewrite Hd by lia. cbn [digits_value].
  change (Some n ≫= ?f) with (f n). cbv beta. rewrite Z.mul_1_l. unfold in_int64.
  destruct (Z.leb_spec (- 2 ^ 63) n); [|lia]. destruct (Z.ltb_spec n (2 ^ 63)); [done|lia].
Qed.
Lemma notification_index i : (0 <= i < 2 ^ 63)%Z -> NotificationIndexFromName (NotificationJobName i) = (i, true).
Proof.
  intros Hi. unfold NotificationIndexFromName, NotificationJobName, IsNotificationJobName. rewrite HasPrefix_app. simpl negb.
  cbv iota. unfold TrimPrefix, CutPrefix. rewrite HasPrefix_app, sdrop_app. simpl default. rewrite Atoi_itoa by done.
  destruct (Z.ltb_spec i 0); [lia|done].
Qed.

(** ** Rows are told apart by name and key *)

Section Distinct.
Context `{MapRange}.
Context (stage_id job_id : nat -> uuid) `{!Inj (=) (=) stage_id, !Inj (=) (=) job_id}.
Context (in_ : RunRowsSpec) (l : list Notification).
Notation p := (Def in_).
Hypothesis Hp : NoDup (Job_Name <$> Jobs p).
Hypothesis Hm : Forall (fun j => keyed_matrix (Job_Matrix j)) (Jobs p).
Hypothesis Hnames : Forall (fun j => (NotificationIndexFromName (Job_Name j)).2 = false) (Jobs p).
Hypothesis Hl : (Z.of_nat (length l) < 2 ^ 63)%Z.

Definition row_key (s : JobSpec) : string * string := (js_name s, js_matrix_key s).

Lemma elem_of_user_rows s : s ∈ (user_rows stage_id in_).*1 ->
  exists job c, job ∈ Jobs p /\ c ∈ expandMatrix (Job_Matrix job) /\ s = job_spec stage_id p job c.
Proof.
  intros ([s' o] & -> & Hin)%list_elem_of_fmap. apply list_elem_of_bind in Hin as (job & Hin & Hj).
  apply list_elem_of_fmap in Hin as (c & [= -> ->] & Hc). eauto.
Qed.
Lemma NoDup_user_keys : NoDup (row_key <$> (user_rows stage_id in_).*1).
Proof.
  unfold user_rows. revert Hp Hm. clear Hnames. generalize (Jobs p). induction l0 as [|job js IH]; intros Hd Hk; [constructor|].
  rewrite bind_cons, !fmap_app. simpl in Hd. apply NoDup_cons in Hd as [Hin Hd].
  inversion Hk as [|? ? Hkj Hks]; subst. apply NoDup_app. split_and!; [| |by apply IH].
  - rewrite <-!list_fmap_compose. apply (NoDup_fmap_1 snd). rewrite <-list_fmap_compose.
    change (NoDup (matrixKey <$> expandMatrix (Job_Matrix job))). by apply NoDup_keys.
  - intros k (s & -> & Hs)%list_elem_of_fmap (s' & Hk' & Hs')%list_elem_of_fmap. apply Hin.
    apply list_elem_of_fmap in Hs as ([s1 o1] & -> & Hs). apply list_elem_of_fmap in Hs as (c & [= -> ->] & _).
    apply list_elem_of_fmap in Hs' as ([s2 o2] & -> & Hs'). apply list_elem_of_bind in Hs' as (job' & Hs' & Hj').
    apply list_elem_of_fmap in Hs' as (c' & [= -> ->] & _). injection Hk' as -> _. by apply list_elem_of_fmap_2.
Qed.
Lemma elem_of_notification_rows s : s ∈ notification_rows stage_id in_ l ->
  exists i, (Z.of_nat i < 2 ^ 63)%Z /\ s = notification_spec (stage_id (length (Stages p))) i.
Proof.
  unfold notification_rows. intros [i Hi]%list_elem_of_lookup. rewrite list_lookup_imap in Hi.
  apply fmap_Some in Hi as (n & Hn & ->). exists i. split; [|done]. apply lookup_lt_Some in Hn. lia.
Qed.
Lemma NoDup_row_keys : NoDup (row_key <$> ((user_rows stage_id in_).*1 ++ notification_rows stage_id in_ l)).
Proof.
  rewrite fmap_app. apply NoDup_app. split_and!; [apply NoDup_user_keys| |].
  - intros k (s & -> & Hs)%list_elem_of_fmap (s' & Hk & Hs')%list_elem_of_fmap.
    apply elem_of_user_rows in Hs as (job & c & Hj & _ & ->). apply elem_of_notification_rows in Hs' as (i & Hi & ->).
    injection Hk as Hk _. rewrite Forall_forall in Hnames. specialize (Hnames _ Hj). cbv beta in Hnames.
    rewrite Hk, notification_index in Hnames by lia. done.
  - apply NoDup_alt. intros i j k Hi Hj. rewrite list_lookup_fmap in Hi, Hj. unfold notification_rows in Hi, Hj.
    rewrite list_lookup_imap in Hi, Hj. destruct (l !! i) as [n|] eqn:Ei; [|done]. destruct (l !! j) as [m|] eqn:Ej; [|done].
    pose proof (f_equal (fmap fst) (eq_trans Hi (eq_sym Hj))) as E.
    change (Some (NotificationJobName (Z.of_nat i)) = Some (NotificationJobName (Z.of_nat j))) in E.
    apply (inj Some), (f_equal NotificationIndexFromName) in E. apply lookup_lt_Some in Ei, Ej.
    rewrite !notification_index in E by lia. injection E as E. lia.
Qed.
Lemma layout_distinct id id' row row' : jobs (layout stage_id job_id in_ l) !! id = Some row ->
  jobs (layout stage_id job_id in_ l) !! id' = Some row' -> row_key (j_spec row) = row_key (j_spec row') -> id = id'.
Proof.
  simpl. intros (i & -> & Hi)%table_lookup (j & -> & Hj)%table_lookup E; [|done..]. f_equal.
  rewrite list_lookup_fmap in Hi, Hj. apply fmap_Some in Hi as (s & Hs & ->). apply fmap_Some in Hj as (s' & Hs' & ->).
  eapply (NoDup_lookup (row_key <$> _)); [apply NoDup_row_keys|by rewrite list_lookup_fmap, Hs|].
  rewrite list_lookup_fmap, Hs'. simpl in *. by rewrite E.
Qed.
End Distinct.

(** ** Properties *)

Section Properties.
Context `{MapRange, UnicodeCase}.
Context (stage_id job_id : nat -> uuid) `{!Inj (=) (=) stage_id, !Inj (=) (=) job_id}.

(** What a gate row needs to be decidable: a quorum of at least one, within the
    approver list when there is one. *)
Definition passable_columns (g : GateColumns) : Prop :=
  (1 <= gc_required g)%Z /\
  (0 < length (gc_approvers g) + length (gc_approver_groups g) ->
   (gc_required g <= Z.of_nat (length (gc_approvers g) + length (gc_approver_groups g)))%Z).

Lemma gate_columns_passable in_ a : gate_passable a -> passable_columns (gate_columns in_ a).
Proof.
  intros (Hr & Hrl & Hq & _). unfold gate_columns. rewrite Z.max_r by done.
  destruct (resolveEffectiveQuorum _ _ _ _) as [eff label] eqn:E. apply resolveEffectiveQuorum_spec in E.
  destruct E as [(-> & _)|(_ & _ & Ho & _)]; unfold passable_columns; simpl; [done|].
  destruct (Hq _ _ Ho) as (_ & H1 & H2). done.
Qed.
Lemma toJob_gate name jd pv j a : toJob name jd pv = Ok j -> Job_Approval j = Some a -> gate_passable a.
Proof.
  intros Hj Ha. apply toJob_inv in Hj as (? & ? & ? & ? & ? & ? & Hj). cbv zeta in Hj. destruct Hj as [_ Hj].
  destruct (Approval jd) as [ad|].
  - destruct Hj as (spec & -> & Hg). simpl in Ha. simplify_eq. apply gate_spec_inv in Hg as [_ Hs].
    by eapply approval_spec_passable.
  - by destruct Hj as (? & ? & ? & ? & -> & _).
Qed.

(** C9: A run is created exactly when its definition can be materialised - distinct
    stages, no job in an undeclared one, decodable notifications with usable plugin
    references, and no clash with the reserved stage - and then holds exactly the
    reference rows: a stage per name in order, a job per combination with its gate
    columns, the notifications behind them, and the supersede pass it owes. *)
Theorem run_creation_exact (in_ : RunRowsSpec) :
  match insertRunRowsTx stage_id job_id in_ with
  | Ok c => exists l, creatable in_ l /\ rc_db c = layout stage_id job_id in_ l /\
      rc_gates c = gate_table stage_id job_id in_ /\ rc_ref c = capRef (Ref in_) /\ rc_supersede c = supersede_fire in_
  | Err _ => ~ exists l, creatable in_ l
  end.
Proof.
  destruct (insertRunRowsTx stage_id job_id in_) as [c|e] eqn:E.
  - destruct (created_inv stage_id job_id in_ c E) as [l Hl]. exists l. split; [done|].
    destruct (created_rows stage_id job_id in_ l Hl) as (c' & E' & Hc). by assert (c' = c) as -> by congruence.
  - intros [l Hl]. destruct (created_rows stage_id job_id in_ l Hl) as (c' & E' & _). congruence.
Qed.

Lemma created_run_post (IsQualifiedName IsValidLabelValue : string -> list string) (ValidatePattern : string -> bool)
    (f : File) (projectID fallback : string) (in_ : RunRowsSpec) (c : RunCreated) :
  ParseNamed IsQualifiedName IsValidLabelValue ValidatePattern f projectID fallback = Ok (Def in_) ->
  (Z.of_nat (length (Stages (Def in_))) < 2 ^ 31)%Z ->
  Forall (fun j => (NotificationIndexFromName (Job_Name j)).2 = false) (Jobs (Def in_)) ->
  (forall l, effective_notifications in_ = Ok l -> (Z.of_nat (length l) < 2 ^ 63)%Z) ->
  insertRunRowsTx stage_id job_id in_ = Ok c ->
  fresh (rc_db c) /\
  (Stages (Def in_) <> [] -> (forall s, s ∈ Stages (Def in_) -> exists j, j ∈ Jobs (Def in_) /\ Job_Stage j = s) ->
   orderly (rc_db c)) /\
  (forall id id' row row', jobs (rc_db c) !! id = Some row -> jobs (rc_db c) !! id' = Some row' ->
     js_name (j_spec row) = js_name (j_spec row') -> js_matrix_key (j_spec row) = js_matrix_key (j_spec row') -> id = id') /\
  (forall id g, rc_gates c !! id = Some g -> passable_columns g).
Proof.
  intros Hparse Hw Hn Hl Hc. apply ParseNamed_post in Hparse as (Hv & _ & _ & Hres & Hjobs).
  destruct (created_inv stage_id job_id in_ c Hc) as [l Hcr].
  destruct (created_rows stage_id job_id in_ l Hcr) as (c' & E & Hdb & Hg & _). assert (c' = c) as -> by congruence.
  pose proof Hcr as (_ & _ & Heff & _). specialize (Hl l Heff). rewrite Hdb, Hg.
  assert (Hidx : forall i n, l !! i = Some n -> (NotificationIndexFromName (NotificationJobName (Z.of_nat i))).2 = true).
  { intros i n Hi%lookup_lt_Some. by rewrite notification_index by lia. }
  split_and!.
  - apply layout_fresh; done.
  - intros Hne Hst. apply layout_orderly; done.
  - intros id id' row row' Hr Hr' E1 E2. eapply (layout_distinct stage_id job_id in_ l); [apply Hv| |done|done|exact Hr|exact Hr'|].
    + apply Forall_forall. intros j (k & jd & _ & _ & _ & Hj)%Hjobs. by eapply toJob_matrix.
    + unfold row_key. by rewrite E1, E2.
  - intros id g Hgate. unfold gate_table in Hgate. rewrite lookup_omap in Hgate.
    apply bind_Some in Hgate as ([s o] & Hs & Ho). simpl in Ho. subst o. apply table_lookup in Hs as (i & _ & Hi); [|done].
    apply list_elem_of_lookup_2, list_elem_of_bind in Hi as (job & Hin & Hj). apply list_elem_of_fmap in Hin as (cmb & [= _ Ho] & _).
    symmetry in Ho. apply fmap_Some in Ho as (a & Ha & ->). apply gate_columns_passable.
    apply Hjobs in Hj as (k & jd & _ & _ & _ & Hj). by eapply toJob_gate.
Qed.
(** C10: From file to rows: the run created for an accepted pipeline whose jobs do not
    use the names of notifications, with stages and notifications in the range of their
    columns, starts fresh - everything queued, gates waiting, foreign
    keys, needs and notification names where the scheduler expects them - and, when
    no stage is empty, orderly; no two of its job rows share a name and a matrix key,
    and every gate row it creates can be decided, whatever labels the pull request
    has. *)
Theorem created_run_fresh (IsQualifiedName IsValidLabelValue : string -> list string) (ValidatePattern : string -> bool)
    (f : File) (projectID fallback : string) (in_ : RunRowsSpec) (c : RunCreated) :
  ParseNamed IsQualifiedName IsValidLabelValue ValidatePattern f projectID fallback = Ok (Def in_) ->
  (Z.of_nat (length (Stages (Def in_))) < 2 ^ 31)%Z ->
  Forall (fun j => (NotificationIndexFromName (Job_Name j)).2 = false) (Jobs (Def in_)) ->
  (forall l, effective_notifications in_ = Ok l -> (Z.of_nat (length l) < 2 ^ 63)%Z) ->
  insertRunRowsTx stage_id job_id in_ = Ok c ->
  fresh (rc_db c) /\
  (Stages (Def in_) <> [] -> (forall s, s ∈ Stages (Def in_) -> exists j, j ∈ Jobs (Def in_) /\ Job_Stage j = s) ->
   orderly (rc_db c)) /\
  (forall id id' row row', jobs (rc_db c) !! id = Some row -> jobs (rc_db c) !! id' = Some row' ->
     js_name (j_spec row) = js_name (j_spec row') -> js_matrix_key (j_spec row) = js_matrix_key (j_spec row') -> id = id') /\
  (forall id g, rc_gates c !! id = Some g -> passable_columns g).
Proof. apply created_run_post. Qed.
End Properties.

(** ** Example *)

Definition n_id (n : nat) : uuid := N.of_nat n.
#[export] Instance n_id_inj : Inj (=) (=) n_id.
Proof. intros x y H. by apply Nat2N.inj. Qed.

Definition create (in_ : RunRowsSpec) : result create_error RunCreated := @insertRunRowsTx library_range n_id n_id in_.
Definition example_spec : RunRowsSpec := {|
  Def := example_pipeline; ProjectNotifs := Some (Some [{| Notif_On := NotifyOnFailure; Notif_Uses := "slack@v1";
    Notif_With := ∅; Notif_Secrets := [] |}]);
  Cause := "pull_request"; PRLabels := Some ["docs"; "hotfix"]; Ref := "pr:5" |}.
Definition empty_created : RunCreated :=
  {| rc_db := empty_run; rc_ref := ""; rc_gates := ∅; rc_audit := []; rc_supersede := None |}.
Definition example_run : RunCreated := match create example_spec with Ok c => c | Err _ => empty_created end.

Example example_created :
  create example_spec = Ok example_run /\
  (js_name ∘ j_spec <$> (map_to_list (jobs (rc_db example_run))).*2,
   gc_required <$> (map_to_list (rc_gates example_run)).*2, qa_label <$> rc_audit example_run, size (stages (rc_db example_run)))
  = (["prod"; "_notify_0"; "compile"; "gate"], [3%Z], ["hotfix"], 4).
Proof. split; vm_compute; reflexivity. Qed.

Lemma run_creation_exact_witness :
  exists l, creatable example_spec l /\ rc_db example_run = @layout library_range n_id n_id example_spec l.
Proof.
  pose proof (@run_creation_exact library_range n_id n_id _ _ example_spec) as H.
  assert (E : create example_spec = Ok example_run) by (vm_compute; reflexivity). unfold create in E. rewrite E in H.
  destruct H as (l & Hl & Hdb & _). exists l. split; [exact Hl|exact Hdb].
Defined.
Lemma example_staffed : forall s, s ∈ Stages (Def example_spec) -> exists j, j ∈ Jobs (Def example_spec) /\ Job_Stage j = s.
Proof.
  assert (He : Forall (fun s => Exists (fun j => Job_Stage j = s) (Jobs (Def example_spec))) (Stages (Def example_spec))).
  { apply (bool_decide_unpack (Forall _ _)). vm_compute. exact I. }
  rewrite Forall_forall in He. intros s Hs. specialize (He s Hs). by apply Exists_exists in He.
Qed.
Lemma example_stages : Stages (Def example_spec) <> [].
Proof. vm_compute. discriminate. Qed.
Lemma example_post : fresh (rc_db example_run) /\ orderly (rc_db example_run).
Proof.
  destruct (@created_run_post library_range ascii_only_case n_id n_id _ _ (fun _ => []) (fun _ => []) (fun _ => true)
           example_file "" "ci" example_spec example_run) as (Hf & Ho & _).
  - vm_compute. reflexivity.
  - vm_compute. reflexivity.
  - apply (bool_decide_unpack (Forall _ _)). vm_compute. exact I.
  - intros l Hl. vm_compute in Hl. injection Hl as <-. vm_compute. reflexivity.
  - vm_compute. reflexivity.
  - split; [exact Hf|exact (Ho example_stages example_staffed)].
Qed.
Lemma example_fresh : fresh (rc_db example_run).
Proof. apply example_post. Qed.
Lemma created_run_fresh_witness : fresh (rc_db example_run).
Proof.
  refine (proj1 (@created_run_fresh library_range ascii_only_case n_id n_id _ _ (fun _ => []) (fun _ => []) (fun _ => true)
           example_file "" "ci" example_spec example_run _ _ _ _ _)).
  - vm_compute. reflexivity.
  - vm_compute. reflexivity.
  - apply (bool_decide_unpack (Forall _ _)). vm_compute. exact I.
  - intros l Hl. vm_compute in Hl. injection Hl as <-. vm_compute. reflexivity.
  - vm_compute. reflexivity.
Defined.
