(* ===== verification/RunProps.v ===== *)
(** What the run engine guarantees, and scripts of calls that show it at work. *)

From S2P Require Import Prelude GoStrings Domain Parse RunTables RunOps Needs Scheduler RunInv RunKeeps RunWorld RunCreate.

(** ** Calls *)

Inductive call :=
| CallTick (k : nat) (busy : bool)
| CallAdvance (k : nat) (a : Answer)
| CallResult (i : CompleteJobInput) (agent : uuid)
| CallWatch (in_progress : bool) (id : uuid) (attempt : Z) (st : Status) (reason : string)
| CallGate (id : uuid) (approved : bool)
| CallCancelRun (now : Time)
| CallCancelJob (now : Time) (id : uuid)
| CallReclaimCancels
| CallRerun (id : uuid).

Section Calls.
Context (reruns early : bool).
Context (text_lt : string -> string -> bool) (spec : Z -> option NotificationTrigger).

Definition gate_active (db : RunDB) (id : uuid) : bool :=
  match jobs db !! id with Some row => in_ordinal db (active_stage db) row | None => true end.

Definition exec (c : call) (w : World) : option World :=
  let db := wdb w in
  match c with
  | CallTick k busy =>
      match ticks w !! k, start_tick text_lt busy db with
      | None, Some t => Some (with_ticks w (<[k := t]> (ticks w)))
      | _, _ => None
      end
  | CallAdvance k a =>
      match ticks w !! k with
      | Some t => let '(db, t) := advance text_lt spec a t db in Some {| wdb := db; ticks := next_tick k t (ticks w) |}
      | None => None
      end
  | CallResult i agent =>
      if decide (in_ExpectedAgentID i = Some agent) then
        match CompleteJob i db with Ok (Some (db, _)) => Some (with_wdb w db) | _ => None end
      else None
  | CallWatch open id attempt st reason =>
      match FinalizeDeployWatch open id attempt st reason db with Ok (Some db) => Some (with_wdb w db) | _ => None end
  | CallGate id approved =>
      if early || gate_active db id then
        match settle_gate id approved db with Ok (Some (db, _)) => Some (with_wdb w db) | _ => None end
      else None
  | CallCancelRun now => match CancelRun now db with Ok (db, _) => Some (with_wdb w db) | Err _ => None end
  | CallCancelJob now id => match CancelJobRun now id db with Ok (db, _) => Some (with_wdb w db) | Err _ => None end
  | CallReclaimCancels =>
      match ReclaimPendingCancels (fun _ _ => true) db with Ok db => Some (with_wdb w db) | Err _ => None end
  | CallRerun id =>
      if reruns then match RerunJob id false db with Ok (db, _) => Some (with_wdb w db) | Err _ => None end else None
  end.
Fixpoint execs (l : list call) (w : World) : option World :=
  match l with [] => Some w | c :: l => exec c w ≫= execs l end.

Lemma exec_step c w w' : exec c w = Some w' -> step reruns early text_lt spec w w'.
Proof.
  destruct c as [k busy|k a|i agent|open id attempt st reason|id approved|now|now id| |id]; simpl; intros H.
  - destruct (ticks w !! k) eqn:Hk; [done|]. destruct (start_tick text_lt busy (wdb w)) as [t|] eqn:E; [|done].
    injection H as <-. by eapply step_tick.
  - destruct (ticks w !! k) as [t|] eqn:Hk; [|done]. destruct (advance text_lt spec a t (wdb w)) as [db t'] eqn:E.
    injection H as <-. by eapply step_advance.
  - case_decide; [|done]. destruct (CompleteJob i (wdb w)) as [[[db c]|]|] eqn:E; [|done..]. injection H as <-. by eapply step_result.
  - destruct (FinalizeDeployWatch open id attempt st reason (wdb w)) as [[db|]|] eqn:E; [|done..].
    injection H as <-. by eapply step_watch.
  - destruct (early || gate_active (wdb w) id) eqn:Hg; [|done].
    destruct (settle_gate id approved (wdb w)) as [[[db c]|]|] eqn:E; [|done..]. injection H as <-. eapply step_gate; [|done].
    intros He row Hr. rewrite He in Hg. simpl in Hg. unfold gate_active in Hg. by rewrite Hr in Hg.
  - destruct (CancelRun now (wdb w)) as [[db l]|] eqn:E; [|done]. injection H as <-. by eapply step_cancel_run.
  - destruct (CancelJobRun now id (wdb w)) as [[db l]|] eqn:E; [|done]. injection H as <-. by eapply step_cancel_job.
  - destruct (ReclaimPendingCancels _ (wdb w)) as [db|] eqn:E; [|done]. injection H as <-. by eapply step_reclaim_cancels.
  - destruct reruns eqn:Hre; [|done]. destruct (RerunJob id false (wdb w)) as [[db a]|] eqn:E; [|done]. injection H as <-.
    rewrite <-Hre. by eapply step_rerun.
Qed.
Lemma execs_steps l w w' : execs l w = Some w' -> rtc (step reruns early text_lt spec) w w'.
Proof.
  revert w. induction l as [|c l IH]; intros w; simpl; [by intros [= <-]|].
  intros (w1 & H1 & H2)%bind_Some. eapply rtc_l; [by eapply exec_step|auto].
Qed.
Lemma execs_reachable l w0 w : initial w0 -> execs l w0 = Some w -> reachable reruns early text_lt spec w.
Proof. intros H0 H. exists w0. split; [done|]. by eapply execs_steps. Qed.
End Calls.

(** ** The status of a run *)

Lemma safe_success db : safe db -> r_status (run db) = StatusSuccess ->
  forall id row, jobs db !! id = Some row -> user db row -> j_status row = StatusSuccess.
Proof.
  intros Hs Hr.
  assert (G : forall id row, jobs db !! id = Some row -> user db row ->
            j_status row = StatusSuccess \/ j_status row = StatusSkipped).
  { intros id row Hrow (s & Hst & Hsy). eapply (sf_success _ Hs); [exact Hst| |by exists id].
    by eapply (sf_run_success _ Hs). }
  intros id row Hrow Hu. destruct (G _ _ Hrow Hu) as [?|Hsk]; [done|].
  destruct (sf_skipped _ Hs _ _ Hrow Hu Hsk) as (id' & row' & Hr' & Hu' & Hc).
  by destruct (G _ _ Hr' Hu') as [E|E]; rewrite Hc in E.
Qed.

Section Properties.
Context (early : bool) (text_lt : string -> string -> bool) (spec : Z -> option NotificationTrigger).

(** C1: Green means green: in every state that any interleaving of ticks, agents,
    watches, humans and the reaper reaches without a rerun, a successful run has
    every job of every declared stage successful, a failed run has a failed one, and
    a successful stage has only successful jobs, or ones skipped behind a cancelled
    job. *)
Theorem run_status_sound (w : World) : reachable false early text_lt spec w ->
  (r_status (run (wdb w)) = StatusSuccess ->
     forall id row, jobs (wdb w) !! id = Some row -> user (wdb w) row -> j_status row = StatusSuccess) /\
  (r_status (run (wdb w)) = StatusFailed ->
     exists id row, jobs (wdb w) !! id = Some row /\ user (wdb w) row /\ j_status row = StatusFailed) /\
  (forall sid s id row, stages (wdb w) !! sid = Some s -> s_status s = StatusSuccess ->
     jobs (wdb w) !! id = Some row -> js_stage (j_spec row) = sid -> user (wdb w) row ->
     j_status row = StatusSuccess \/
     (j_status row = StatusSkipped /\
      exists id' row', jobs (wdb w) !! id' = Some row' /\ user (wdb w) row' /\ j_status row' = StatusCanceled)).
Proof.
  intros Hr. pose proof (reachable_sound early text_lt spec w Hr) as [_ Hs _]. split_and!.
  - by apply safe_success.
  - apply (sf_run_failed _ Hs).
  - intros sid s id row Hst Hss Hrow <- Hu.
    destruct (sf_success _ Hs _ _ row Hst Hss) as [?|Hsk]; [by exists id|by left|right].
    split; [done|]. by eapply (sf_skipped _ Hs).
Qed.


(** C4: What has ended stays: from any reachable state on, no call but a rerun changes
    the status of an ended run, stage or job, gives a job another definition, or
    lowers its attempt, and no row appears or disappears. *)
Theorem ended_is_final (w w' : World) : reachable false early text_lt spec w -> rtc (step false early text_lt spec) w w' ->
  (active (r_status (run (wdb w))) = false -> r_status (run (wdb w')) = r_status (run (wdb w))) /\
  (forall id s, stages (wdb w) !! id = Some s -> exists s', stages (wdb w') !! id = Some s' /\ s_spec s' = s_spec s /\
     (active (s_status s) = false -> s_status s' = s_status s)) /\
  (forall id row, jobs (wdb w) !! id = Some row -> exists row', jobs (wdb w') !! id = Some row' /\
     j_spec row' = j_spec row /\ (j_attempt row <= j_attempt row')%Z /\
     (unfinished (j_status row) = false -> j_status row' = j_status row)) /\
  (forall id, stages (wdb w) !! id = None -> stages (wdb w') !! id = None) /\
  (forall id, jobs (wdb w) !! id = None -> jobs (wdb w') !! id = None).
Proof.
  intros Hr Hst. pose proof (reachable_sound early text_lt spec w Hr) as Hs.
  pose proof (reachable_grows early text_lt spec w w' Hs Hst) as Hg. split_and!.
  - apply (gr_run _ _ Hg).
  - intros id s Hid. destruct (grows_stage _ _ Hg _ _ Hid) as (s' & H1 & H2 & H3). by exists s'.
  - intros id row Hid. destruct (grows_job _ _ Hg _ _ Hid) as (row' & H1 & H2 & H3 & H4). by exists row'.
  - intros id Hid. pose proof (gr_stages _ _ Hg id) as H. rewrite Hid in H. by destruct (stages (wdb w') !! id).
  - intros id Hid. pose proof (gr_jobs _ _ Hg id) as H. rewrite Hid in H. by destruct (jobs (wdb w') !! id).
Qed.
End Properties.

(** C6: The needs gate, exactly, on the rows of one read: a job may go when each
    need has rows and all of them succeeded; it fails when some need has no row or a
    failed one; else it waits while some need is unfinished; else it is skipped
    behind a cancelled one.  The order of the needs and of the rows does not matter. *)
Theorem needs_verdict_exact (needs : list string) (rows : list JobStatusForRun) :
  let c := needsSatisfied needs (buildJobStatusMap rows) in
  let has n P := exists r, r ∈ rows /\ jr_name r = n /\ P (jr_status r) in
  let dead := exists n, n ∈ needs /\ (~ has n (fun _ => True) \/ has n (fun s => s = StatusFailed)) in
  let pending := exists n, n ∈ needs /\ has n (fun s => unfinished s = true) in
  (Check_Ok c = true <-> forall n, n ∈ needs -> has n (fun _ => True) /\
     forall r, r ∈ rows -> jr_name r = n -> jr_status r = StatusSuccess) /\
  (UpstreamTerminal c = true /\ Skip c = false <-> dead) /\
  (Check_Ok c = false /\ UpstreamTerminal c = false <-> ~ dead /\ pending) /\
  (Skip c = true <-> ~ dead /\ ~ pending /\
     exists n, n ∈ needs /\ has n (fun s => s = StatusCanceled \/ s = StatusSkipped)).
Proof.
  set (m := buildJobStatusMap rows). intros c has dead pending.
  assert (Hin : forall n P, row_in m n P <-> has n P).
  { intros n P. unfold row_in, m, has. rewrite buildJobStatusMap_spec. split.
    - intros (l & r & Hl & Hr & HP). destruct (rows_of rows n) as [|r0 l0] eqn:E; [done|]. injection Hl as <-.
      rewrite <-E in Hr. apply list_elem_of_fmap in Hr as (q & -> & [Hq Hqin]%list_elem_of_filter). by exists q.
    - intros (q & Hq & Hn & HP). assert (Hr : {| st_matrix_key := jr_matrix_key q; st_status := jr_status q |} ∈ rows_of rows n).
      { apply list_elem_of_fmap. exists q. split; [done|]. by apply list_elem_of_filter. }
      destruct (rows_of rows n) as [|r0 l0] eqn:E; [set_solver|]. eexists _, _. split; [done|]. by split. }
  assert (Hdead : forall n, need_dead m n <-> ~ has n (fun _ => True) \/ has n (fun s => s = StatusFailed)).
  { intros n. unfold need_dead. rewrite Hin, <-(Hin n (fun _ => True)). unfold row_in, m. rewrite buildJobStatusMap_spec.
    destruct (rows_of rows n) as [|r0 l0]; [naive_solver|]. split; [naive_solver|]. intros [Hn|?]; [|auto].
    destruct Hn. exists (r0 :: l0), r0. split; [done|]. split; [left|done]. }
  assert (Hmet : forall n, need_met m n <-> has n (fun _ => True) /\ forall r, r ∈ rows -> jr_name r = n -> jr_status r = StatusSuccess).
  { intros n. rewrite <-Hin. unfold need_met, row_in, m. rewrite buildJobStatusMap_spec.
    assert (Hall : Forall (fun r => st_status r = StatusSuccess) (rows_of rows n) <->
                   forall r, r ∈ rows -> jr_name r = n -> jr_status r = StatusSuccess).
    { unfold rows_of. rewrite Forall_fmap, Forall_forall. setoid_rewrite list_elem_of_filter. naive_solver. }
    rewrite <-Hall. destruct (rows_of rows n) as [|r0 l0]; [naive_solver|]. split.
    - intros (l & [= <-] & _ & Hf). split; [|done]. exists (r0 :: l0), r0. split_and!; [done|left|done].
    - intros [_ Hf]. by exists (r0 :: l0). }
  assert (Hd : dead <-> exists n, n ∈ needs /\ need_dead m n) by (unfold dead; by setoid_rewrite Hdead).
  assert (Hp : pending <-> exists n, n ∈ needs /\ need_pending m n) by (unfold pending, need_pending; by setoid_rewrite Hin).
  assert (Hc : (exists n, n ∈ needs /\ has n (fun s => s = StatusCanceled \/ s = StatusSkipped)) <->
               exists n, n ∈ needs /\ need_cancelled m n) by (unfold need_cancelled; by setoid_rewrite Hin).
  assert (Hm : (forall n, n ∈ needs -> need_met m n) <->
               ~ dead /\ ~ pending /\ ~ exists n, n ∈ needs /\ need_cancelled m n).
  { rewrite Hd, Hp. setoid_rewrite need_met_iff. naive_solver. }
  setoid_rewrite <-Hmet. rewrite Hc, Hm. clear Hmet Hdead Hin.
  pose proof (needsSatisfied_spec needs m) as Hv. fold m in Hv. change (needsSatisfied needs m) with c in Hv.
  inversion Hv as [Ha E|d Ha E|d Ha Hb E|d Ha Hb E]; simpl.
  - apply Hm in Ha. naive_solver.
  - apply Hd in Ha. naive_solver.
  - apply Hp in Hb. assert (~ dead) by (rewrite Hd; naive_solver). naive_solver.
  - assert (~ dead) by (rewrite Hd; naive_solver). assert (~ pending) by (rewrite Hp; naive_solver). naive_solver.
Qed.

(** ** A result and its cascade, exactly *)

(** The priority of the rollup: failed, then cancelled, then success. *)
Definition outcome_of (failed canceled : Prop) (t : Status) : Prop :=
  (t = StatusFailed /\ failed) \/ (t = StatusCanceled /\ ~ failed /\ canceled) \/
  (t = StatusSuccess /\ ~ failed /\ ~ canceled).

(** What becomes of the run once a stage has closed. *)
Inductive run_settled (db1 db' : RunDB) : option (Status * Z) -> Prop :=
| run_open : run db' = run db1 ->
    (exists id s, stages db' !! id = Some s /\ active (s_status s) = true) \/ active (r_status (run db1)) = false ->
    run_settled db1 db' None
| run_closed rs : active (r_status (run db1)) = true ->
    (forall id s, stages db' !! id = Some s -> active (s_status s) = false) ->
    outcome_of (user_with db' StatusFailed) (user_with db' StatusCanceled) rs ->
    run db' = set_run (run db1) rs (r_superseded_by (run db1)) (r_service_generation (run db1)) true ->
    run_settled db1 db' (Some (rs, r_service_generation (run db1))).

(** The queued work a failed stage takes with it. *)
Definition queued_user (db : RunDB) (row : JobRow) : bool :=
  in_user_stage db row && (has_status StatusQueued row || has_status StatusAwaitingApproval row).
Definition failed_over (t : Status) (db : RunDB) (row : JobRow) : JobRow :=
  if bool_decide (t = StatusFailed) && queued_user db row then cancel_job cancelOriginDependency row else row.
Definition stage_after (t : Status) (stage id : uuid) (s : StageRow) : StageRow :=
  if decide (id = stage) then set_stage t s
  else if bool_decide (t = StatusFailed) && bool_decide (s_status s = StatusQueued) && negb (synthetic s)
       then set_stage StatusCanceled s else s.

Inductive settled (stage : uuid) (st : Status) (s : StageRow) (db1 : RunDB) : RunDB -> JobCompletion -> Prop :=
| settled_open :
    active (s_status s) = false \/ (exists row, job_in db1 stage row /\ unfinished (j_status row) = true) ->
    settled stage st s db1 db1 (completion st None None)
| settled_closed t db' r :
    active (s_status s) = true -> (forall row, job_in db1 stage row -> unfinished (j_status row) = false) ->
    outcome_of (exists row, job_in db1 stage row /\ j_status row = StatusFailed)
               (exists row, job_in db1 stage row /\ j_status row = StatusCanceled) t ->
    (forall id, jobs db' !! id = failed_over t db1 <$> jobs db1 !! id) ->
    (forall id, stages db' !! id = stage_after t stage id <$> stages db1 !! id) ->
    watched db' = watched db1 -> run_settled db1 db' r ->
    settled stage st s db1 db' (completion st (Some t) r).

Lemma rollup_outcome f c (F C : Prop) : (0 < f <-> F) -> (0 < c <-> C) -> outcome_of F C (rollup f c).
Proof.
  intros Hf Hc. unfold outcome_of. destruct (rollup_cases f c) as [[-> H]|[[-> [H1 H2]]|(-> & H1 & H2)]].
  - left. split; [done|]. by apply Hf.
  - right; left. split; [done|]. split; [rewrite <-Hf; lia|by apply Hc].
  - right; right. split; [done|]. split; [rewrite <-Hf; lia|rewrite <-Hc; lia].
Qed.
Lemma stage_count_status stage st db : 0 < count_jobs (fun j => in_stage stage j && has_status st j) db <->
  exists row, job_in db stage row /\ j_status row = st.
Proof. rewrite (stage_count stage (has_status st)). by setoid_rewrite has_status_true. Qed.

Lemma in_user_stage_ext db db' row : (forall id, s_spec <$> stages db' !! id = s_spec <$> stages db !! id) ->
  in_user_stage db' row = in_user_stage db row.
Proof.
  intros H. unfold in_user_stage, stage_of, synthetic. specialize (H (js_stage (j_spec row))).
  destruct (stages db' !! _), (stages db !! _); simpl in *; try done. by injection H as ->.
Qed.

Lemma finish_run_settled db1 db : run db = run db1 -> run_settled db1 (finish_run db).1 (finish_run db).2.
Proof.
  intros Hr. unfold finish_run. case_decide as Hp; simpl.
  - constructor; [done|]. left. by apply count_stages_pos in Hp.
  - unfold CompleteRun. rewrite Hr. destruct (active (r_status (run db1))) eqn:Ha; simpl.
    + assert (Hend : forall id s, stages db !! id = Some s -> active (s_status s) = false).
      { intros id s Hs. destruct (active (s_status s)) eqn:E; [|done]. destruct Hp. apply count_stages_pos. eauto. }
      apply run_closed; [done|exact Hend| |done]. apply rollup_outcome; [exact (outcome_failed db)|exact (outcome_canceled db)].
    + apply run_open; [done|by right].
Qed.

Lemma finish_run_rows db : jobs (finish_run db).1 = jobs db /\ stages (finish_run db).1 = stages db /\
  watched (finish_run db).1 = watched db.
Proof. unfold finish_run, CompleteRun. case_decide; [done|]. by destruct (active _). Qed.

Lemma cascade_exact stage st db1 :
  match cascadeAfterJobCompletion stage st db1 with
  | Err e => e = ErrNoRows /\ stages db1 !! stage = None
  | Ok (db', c) => exists s, stages db1 !! stage = Some s /\ settled stage st s db1 db' c
  end.
Proof.
  unfold cascadeAfterJobCompletion, LockStageRunForUpdate. destruct (stages db1 !! stage) as [s|] eqn:Hs; simpl; [|done].
  destruct (active (s_status s)) eqn:Ha; simpl; [|exists s; split; [done|]; constructor; by left].
  case_decide as Hu.
  { exists s. split; [done|]. constructor. right. by apply (stage_count stage (fun j => unfinished (j_status j))). }
  unfold CompleteStageRun. rewrite Hs, Ha, decide_False by done. set (t := rollup _ _). set (db2 := with_stages _ _).
  destruct (finish_run (fail_fast t db2)) as [db3 r] eqn:Ef. exists s. split; [done|].
  assert (Hrun : run (fail_fast t db2) = run db1) by (unfold fail_fast; by case_decide).
  pose proof (finish_run_settled db1 (fail_fast t db2) Hrun) as Hrs. rewrite Ef in Hrs. simpl in Hrs.
  assert (Hsame : jobs db3 = jobs (fail_fast t db2) /\ stages db3 = stages (fail_fast t db2) /\ watched db3 = watched (fail_fast t db2)).
  { pose proof (finish_run_rows (fail_fast t db2)) as Hrows. by rewrite Ef in Hrows. }
  destruct Hsame as (Hj3 & Hs3 & Hw3). apply settled_closed; [done| | | | |by rewrite Hw3; unfold fail_fast; case_decide|done].
  - intros row Hrow. destruct (unfinished (j_status row)) eqn:E; [|done]. destruct Hu.
    apply (stage_count stage (fun j => unfinished (j_status j))). eauto.
  - apply rollup_outcome; apply stage_count_status.
  - intros id. rewrite Hj3. unfold fail_fast, failed_over. destruct (decide (t = StatusFailed)) as [->|Ht].
    + simpl. rewrite lookup_fmap. destruct (jobs db1 !! id) as [row|]; simpl; [|done]. f_equal. unfold queued_user.
      rewrite (in_user_stage_ext db1); [done|]. intros k. simpl. rewrite map_lookup_imap.
      destruct (decide (k = stage)) as [->|Hne]; [rewrite lookup_insert_eq, Hs|rewrite lookup_insert_ne by done]; simpl;
        [try case_match; done|]. destruct (stages db1 !! k); simpl; [by case_match|done].
    + rewrite bool_decide_eq_false_2 by done. simpl. by destruct (jobs db1 !! id).
  - intros id. rewrite Hs3. unfold fail_fast, stage_after. destruct (decide (id = stage)) as [->|Hne].
    + rewrite Hs. simpl. case_decide; simpl; [|by rewrite lookup_insert_eq]. rewrite map_lookup_imap, lookup_insert_eq. simpl.
      rewrite bool_decide_eq_false_2; [done|]. unfold t, rollup. repeat case_decide; done.
    + case_decide as Ht; simpl.
      * rewrite map_lookup_imap, lookup_insert_ne by done. rewrite Ht. by destruct (stages db1 !! id).
      * rewrite lookup_insert_ne by done. rewrite bool_decide_eq_false_2 by done. simpl. by destruct (stages db1 !! id).
Qed.

(** C5: A job result, on every branch: a report that is neither success nor failure
    is an error; one whose agent or attempt is not the row's, or whose job has ended,
    changes nothing; otherwise the row takes the reported status, or cancelled when a
    cancel was stamped before, with the report's outputs only on a plain success,
    and the cascade is exact: the stage closes when it is open and has no job left,
    by the priority failed, cancelled, success; a failed stage cancels the queued
    user stages and the queued and waiting user jobs and nothing else; and the run
    closes when no stage is left, by the same priority over the user jobs. *)
Theorem complete_job_exact (i : CompleteJobInput) (db : RunDB) :
  match CompleteJob i db with
  | Err e => (e = ErrInvalidStatus /\ in_Status i <> StatusSuccess /\ in_Status i <> StatusFailed) \/
             (e = ErrNoRows /\ exists row, jobs db !! in_JobRunID i = Some row /\ stages db !! js_stage (j_spec row) = None)
  | Ok None => (in_Status i = StatusSuccess \/ in_Status i = StatusFailed) /\
      forall row, jobs db !! in_JobRunID i = Some row -> active (j_status row) = false \/
        j_agent row <> in_ExpectedAgentID i \/ j_attempt row <> in_ExpectedAttempt i
  | Ok (Some (db', c)) => (in_Status i = StatusSuccess \/ in_Status i = StatusFailed) /\
      exists row row' s, jobs db !! in_JobRunID i = Some row /\ active (j_status row) = true /\
        j_agent row = in_ExpectedAgentID i /\ j_attempt row = in_ExpectedAttempt i /\
        stages db !! js_stage (j_spec row) = Some s /\
        j_spec row' = j_spec row /\ j_attempt row' = j_attempt row /\
        (forall when, j_cancel_requested_at row = Some when -> j_status row' = StatusCanceled /\ j_outputs row' = ∅) /\
        (j_cancel_requested_at row = None -> j_status row' = in_Status i /\
           j_outputs row' = if decide (in_Status i = StatusSuccess) then in_Outputs i else ∅) /\
        settled (js_stage (j_spec row)) (j_status row') s
          (with_jobs db (<[in_JobRunID i := row']> (jobs db))) db' c
  end.
Proof.
  unfold CompleteJob. destruct (negb _) eqn:Hv.
  { apply negb_true_iff, orb_false_iff in Hv as [H1%bool_decide_eq_false H2%bool_decide_eq_false]. by left. }
  assert (Hst : in_Status i = StatusSuccess \/ in_Status i = StatusFailed).
  { apply negb_false_iff, orb_true_iff in Hv as [H%bool_decide_eq_true|H%bool_decide_eq_true]; auto. }
  assert (Hno : forall row, completable (in_ExpectedAgentID i) (in_ExpectedAttempt i) row = false ->
            active (j_status row) = false \/ j_agent row <> in_ExpectedAgentID i \/ j_attempt row <> in_ExpectedAttempt i).
  { unfold completable, snapshot_matches. intros row [?|[?%bool_decide_eq_false|?%Z.eqb_neq]%andb_false_iff]%andb_false_iff; auto. }
  unfold PrecheckJobCompletion. destruct (jobs db !! in_JobRunID i) as [row|] eqn:Hr; simpl; [|by split].
  destruct (completable _ _ row) eqn:Hc; simpl; [|split; [done|]; intros ? [= <-]; auto].
  unfold CompleteJobRun, update_job. rewrite Hr. simpl. rewrite Hc. simpl.
  pose proof (cascade_exact (js_stage (j_spec row)) (j_status (completed i row))
                (with_jobs db (<[in_JobRunID i := completed i row]> (jobs db)))) as Hx.
  change (js_stage (j_spec (completed i row))) with (js_stage (j_spec row)).
  destruct (cascadeAfterJobCompletion _ _ _) as [[db' c]|e]; simpl.
  - destruct Hx as (s & Hs & Hx). split; [done|]. exists row, (completed i row), s.
    apply andb_true_iff in Hc as [Hact [Hag%bool_decide_eq_true Hat%Z.eqb_eq]%andb_true_iff].
    split_and!; try done; unfold completed; simpl.
    + intros w ->. rewrite bool_decide_eq_true_2 by done. done.
    + intros ->. rewrite bool_decide_eq_false_2 by by intros []. simpl. split; [done|]. by rewrite bool_decide_decide; case_decide.
  - right. destruct Hx as [-> Hs]. split; [done|]. by exists row.
Qed.

(** ** The example run *)

Definition to_agent : Answer := {| a_prep := ToAgent 7; a_delivered := true |}.
(** A tick that dispatches one job, and one that skips one notification. *)
Definition dispatch_one (k : nat) : list call := CallTick k false :: replicate 5 (CallAdvance k to_agent).
Definition report (id : uuid) (st : Status) : CompleteJobInput := {|
  in_JobRunID := id; in_Status := st; in_ExitCode := 0; in_ErrorMsg := ""; in_ExpectedAgentID := Some 7%N;
  in_ExpectedAttempt := 0; in_Outputs := ∅ |}.
Definition notify_spec (i : Z) : option NotificationTrigger := if decide (i = 0%Z) then Some NotifyOnFailure else None.

Definition example_start : World := {| wdb := rc_db example_run; ticks := ∅ |}.
Definition run_script (reruns early : bool) (l : list call) (w : World) : World :=
  default w (execs reruns early String.ltb notify_spec l w).
Definition example_calls : list call :=
  dispatch_one 0 ++ [CallResult (report 1 StatusSuccess) 7; CallGate 0 true] ++ dispatch_one 1 ++
  [CallResult (report 2 StatusSuccess) 7] ++ CallTick 2 false :: replicate 4 (CallAdvance 2 to_agent).
Definition example_half : World := run_script false false (take 14 example_calls) example_start.
Definition example_end : World := run_script false false example_calls example_start.

Definition statuses (w : World) : Status * list (string * Status) * list (string * Status) :=
  (r_status (run (wdb w)), (fun s => (ss_name (s_spec s), s_status s)) <$> (map_to_list (stages (wdb w))).*2,
   (fun r => (js_name (j_spec r), j_status r)) <$> (map_to_list (jobs (wdb w))).*2).
Example example_runs :
  statuses example_end =
    (StatusSuccess,
     [("deploy", StatusSuccess); ("_notifications", StatusSuccess); ("approve", StatusSuccess); ("build", StatusSuccess)],
     [("prod", StatusSuccess); ("_notify_0", StatusSkipped); ("compile", StatusSuccess); ("gate", StatusSuccess)]).
Proof. vm_compute. reflexivity. Qed.

Lemma example_initial : initial example_start.
Proof. split; [exact example_fresh|reflexivity]. Qed.
Lemma example_reaches l w : execs false false String.ltb notify_spec l example_start = Some w ->
  reachable false false String.ltb notify_spec w.
Proof. apply execs_reachable, example_initial. Qed.

Lemma run_status_sound_witness :
  r_status (run (wdb example_end)) = StatusSuccess /\
  (forall id row, jobs (wdb example_end) !! id = Some row -> user (wdb example_end) row -> j_status row = StatusSuccess).
Proof.
  assert (Hr : reachable false false String.ltb notify_spec example_end).
  { apply (example_reaches example_calls). vm_compute. reflexivity. }
  split; [vm_compute; reflexivity|]. apply (run_status_sound false String.ltb notify_spec example_end Hr). vm_compute. reflexivity.
Defined.
Lemma ended_is_final_witness :
  r_status (run (wdb (run_script false false [CallCancelRun 5%Z] example_half))) = StatusCanceled /\
  forall id row, jobs (wdb example_half) !! id = Some row -> exists row',
    jobs (wdb (run_script false false [CallCancelRun 5%Z] example_half)) !! id = Some row' /\ j_spec row' = j_spec row /\
    (j_attempt row <= j_attempt row')%Z /\ (unfinished (j_status row) = false -> j_status row' = j_status row).
Proof.
  assert (Hr : reachable false false String.ltb notify_spec example_half).
  { apply (example_reaches (take 14 example_calls)). vm_compute. reflexivity. }
  split; [vm_compute; reflexivity|].
  apply (ended_is_final false String.ltb notify_spec example_half (run_script false false [CallCancelRun 5%Z] example_half) Hr).
  apply (execs_steps false false String.ltb notify_spec [CallCancelRun 5%Z]). vm_compute. reflexivity.
Defined.
