(* ===== verification/Supersede.v ===== *)
(** [server/internal/store/supersede.go]: the pass that clears older pending runs
    from a lane, over the rows of all runs, and the two places that fire it.  The
    external effects it owes are in [Outbox]. *)

From S2P Require Import Prelude GoStrings Domain ValidateNeeds GateGraph Locks RunTables RunOps RunInv RunProps RunCreate Parse.

(** The lane columns of a run, which no statement changes, and its rows. *)
Record FleetRun := { lr_pipeline : uuid; lr_ref : string; lr_counter : Z; lr_db : RunDB }.
Definition Fleet := gmap uuid FleetRun.
Definition with_rows (r : FleetRun) (db : RunDB) : FleetRun :=
  {| lr_pipeline := lr_pipeline r; lr_ref := lr_ref r; lr_counter := lr_counter r; lr_db := db |}.

Record supersedeInput := {
  si_PipelineID : uuid; si_Ref : string; si_LaneMode : string; si_NewerRunID : uuid; si_NewerCounter : Z;
  si_ReadyEnvs : list string; si_Def : Pipeline;
}.
Record RunningJobRef := { JobID : uuid; AgentID : uuid }.
Record SupersededRun := { RunID : uuid; Counter : Z; RunningJobs : list RunningJobRef }.

Definition envSetsIntersect (a b : list string) : bool :=
  match a, b with
  | [], _ | _, [] => true
  | _, _ => existsb (fun e => bool_decide (e ∈ a)) b
  end.

(** [gateEnvMemo]: the environments of the gates asked for so far in the pass. *)
Definition envsForGate (def : Pipeline) (gate : string) (memo : gmap string (list string))
    : list string * gmap string (list string) :=
  match memo !! gate with
  | Some envs => (envs, memo)
  | None => let envs := GovernedEnvs def gate in (envs, <[gate := envs]> memo)
  end.
(** The loop over the pending gates of a victim. *)
Fixpoint victim_envs (def : Pipeline) (gates : list string) (seen : list string) (memo : gmap string (list string))
    : list string * gmap string (list string) :=
  match gates with
  | [] => (seen, memo)
  | gn :: gates =>
      let '(envs, memo) := envsForGate def gn memo in
      victim_envs def gates (append_new seen envs) memo
  end.

Section Pass.

(** Rows that a query does not order come in the order of the table. *)
Definition awaiting_gate (row : JobRow) : bool := js_gate (j_spec row) && has_status StatusAwaitingApproval row.
Definition awaiting_gate_names (db : RunDB) : list string :=
  (fun kv => js_name (j_spec kv.2)) <$> filter (fun kv => awaiting_gate kv.2 = true) (map_to_list (jobs db)).

(** [SupersedeCandidatesBranch] and [SupersedeCandidatesPipeline]. *)
Definition candidate (in_ : supersedeInput) (r : FleetRun) : bool :=
  bool_decide (lr_pipeline r = si_PipelineID in_) &&
  (bool_decide (si_LaneMode in_ = SupersedePipeline) || bool_decide (lr_ref r = si_Ref in_)) &&
  (lr_counter r <? si_NewerCounter in_)%Z && active (r_status (run (lr_db r))) &&
  negb (bool_decide (awaiting_gate_names (lr_db r) = [])).
Definition candidates (in_ : supersedeInput) (f : Fleet) : list (uuid * Z) :=
  stable_sort (fun a b => (a.1 <? b.1)%N)
    ((fun kv => (kv.1, lr_counter kv.2)) <$> filter (fun kv => candidate in_ kv.2 = true) (map_to_list f)).

(** The rows [StampCancelRequestedAtForRun] returns, those with an agent. *)
Definition running_jobs (db : RunDB) : list RunningJobRef :=
  omap (fun kv => if has_status StatusRunning kv.2 then (fun a => {| JobID := kv.1; AgentID := a |}) <$> j_agent kv.2 else None)
    (map_to_list (jobs db)).

(** One victim: locked, checked again, ended.  [None]: it raced out from under us. *)
Definition supersede_victim (in_ : supersedeInput) (now : Time) (r : FleetRun) (memo : gmap string (list string))
    : option RunDB * gmap string (list string) :=
  if negb (active (r_status (run (lr_db r)))) then (None, memo)
  else match awaiting_gate_names (lr_db r) with
       | [] => (None, memo)
       | gateNames =>
           let '(victimEnvs, memo) := victim_envs (si_Def in_) gateNames [] memo in
           if negb (envSetsIntersect (si_ReadyEnvs in_) victimEnvs) then (None, memo)
           else (supersedeOne (si_NewerRunID in_) now (lr_db r), memo)
       end.

(** [contended id]: the lock on the rows of that run is not had in time, and its
    savepoint is rolled back. *)
Context (contended : uuid -> bool).
Fixpoint supersede_loop (in_ : supersedeInput) (now : Time) (cs : list (uuid * Z)) (memo : gmap string (list string))
    (f : Fleet) : list SupersededRun * Fleet :=
  match cs with
  | [] => ([], f)
  | (id, counter) :: cs =>
      match f !! id with
      | None => supersede_loop in_ now cs memo f
      | Some r =>
          let '(ended, memo) := supersede_victim in_ now r memo in
          if contended id then supersede_loop in_ now cs memo f
          else match ended with
               | None => supersede_loop in_ now cs memo f
               | Some db =>
                   let '(out, f) := supersede_loop in_ now cs memo (<[id := with_rows r db]> f) in
                   ({| RunID := id; Counter := counter; RunningJobs := running_jobs db |} :: out, f)
               end
      end
  end.

(** The candidates are read in [snapshot]; what other calls commit before the locks
    are had is in [f]. *)
Definition supersedeLaneSiblings (in_ : supersedeInput) (now : Time) (snapshot f : Fleet) : list SupersededRun * Fleet :=
  let '(out, f) := supersede_loop in_ now (candidates in_ snapshot) ∅ f in
  (stable_sort (fun a b => (Counter b <? Counter a)%Z) out, f).

(** [definition]: the column [runs.definition] of the run, decoded. *)
Definition supersedeAfterCascade (definition : option Pipeline) (runID stageRunID : uuid) (comp : JobCompletion)
    (now : Time) (snapshot f : Fleet) : result store_error (list SupersededRun * Fleet) :=
  match StageCompleted comp with
  | Some StatusSuccess =>
      match f !! runID with
      | None => Err ErrNoRows
      | Some r =>
          match definition with
          | None => Err ErrInvalidStatus
          | Some def =>
              if negb (supersedes (Supersede def)) then Ok ([], f)
              else match stages (lr_db r) !! stageRunID with
                   | None => Err ErrNoRows
                   | Some stage =>
                       let '(readyEnvs, ready) := ReadyGateEnvsAfterStage def (ss_ordinal (s_spec stage)) in
                       if ready
                       then Ok (supersedeLaneSiblings
                              {| si_PipelineID := lr_pipeline r;
                                 si_Ref := if decide (Supersede def = SupersedeBranch) then lr_ref r else "";
                                 si_LaneMode := Supersede def; si_NewerRunID := runID; si_NewerCounter := lr_counter r;
                                 si_ReadyEnvs := readyEnvs; si_Def := def |} now snapshot f)
                       else Ok ([], f)
                   end
          end
      end
  | _ => Ok ([], f)
  end.

(** The pass [insertRunRowsTx] fires for the run it has created. *)
Definition supersede_at_creation (def : Pipeline) (fire : option SupersedeFire) (pipelineID runID : uuid) (counter : Z)
    (now : Time) (snapshot f : Fleet) : list SupersededRun * Fleet :=
  match fire with
  | None => ([], f)
  | Some s => supersedeLaneSiblings
      {| si_PipelineID := pipelineID; si_Ref := sf_lane s; si_LaneMode := sf_mode s; si_NewerRunID := runID;
         si_NewerCounter := counter; si_ReadyEnvs := sf_envs s; si_Def := def |} now snapshot f
  end.
End Pass.

(** ** What a pass clears *)

Section Spec.
Context (in_ : supersedeInput) (now : Time).
Implicit Types (r : FleetRun) (f : Fleet) (id : uuid).

(** The run is in the lane of the newer one and older than it. *)
Definition in_lane r : Prop :=
  lr_pipeline r = si_PipelineID in_ /\ (si_LaneMode in_ = SupersedePipeline \/ lr_ref r = si_Ref in_) /\
  (lr_counter r < si_NewerCounter in_)%Z.
(** It waits at a gate, and the environments its gates govern meet those of the newer
    run's gate; a side without environments meets everything. *)
Definition pending_gates r : list string := awaiting_gate_names (lr_db r).
Definition hit r : Prop :=
  active (r_status (run (lr_db r))) = true /\ pending_gates r <> [] /\
  (si_ReadyEnvs in_ = [] \/ (forall g, g ∈ pending_gates r -> GovernedEnvs (si_Def in_) g = []) \/
   exists e g, e ∈ si_ReadyEnvs in_ /\ g ∈ pending_gates r /\ e ∈ GovernedEnvs (si_Def in_) g).
Definition ended r : RunDB :=
  terminate_run cancelOriginSupersede now
    (set_run (run (lr_db r)) StatusCanceled (Some (si_NewerRunID in_)) (r_service_generation (run (lr_db r)))
       (r_terminal_effects_required (run (lr_db r)))) (lr_db r).

Lemma envSetsIntersect_true a b : envSetsIntersect a b = true <-> a = [] \/ b = [] \/ exists e, e ∈ a /\ e ∈ b.
Proof.
  unfold envSetsIntersect. destruct a as [|x a]; [tauto|]. destruct b as [|y b]; [tauto|].
  rewrite existsb_exists. setoid_rewrite bool_decide_eq_true. setoid_rewrite <- list_elem_of_In. naive_solver.
Qed.

Definition memo_ok (memo : gmap string (list string)) : Prop :=
  forall g envs, memo !! g = Some envs -> envs = GovernedEnvs (si_Def in_) g.
Lemma envsForGate_spec g memo : memo_ok memo ->
  (envsForGate (si_Def in_) g memo).1 = GovernedEnvs (si_Def in_) g /\ memo_ok (envsForGate (si_Def in_) g memo).2.
Proof.
  intros Hm. unfold envsForGate. destruct (memo !! g) as [envs|] eqn:E; [by rewrite <- (Hm g envs E)|].
  cbv zeta. split; [done|]. intros g' envs. simpl. destruct (decide (g' = g)) as [->|Hne].
  - rewrite lookup_insert_eq. congruence.
  - rewrite lookup_insert_ne by done. apply Hm.
Qed.
Lemma victim_envs_spec gates seen memo : memo_ok memo ->
  memo_ok (victim_envs (si_Def in_) gates seen memo).2 /\
  forall e, e ∈ (victim_envs (si_Def in_) gates seen memo).1 <-> e ∈ seen \/ exists g, g ∈ gates /\ e ∈ GovernedEnvs (si_Def in_) g.
Proof.
  revert seen memo. induction gates as [|g gates IH]; intros seen memo Hm; cbn [victim_envs].
  { split; [done|]. intros e. simpl. set_solver. }
  destruct (envsForGate_spec g memo Hm) as [He Hm']. destruct (envsForGate _ g memo) as [envs memo']. simpl in *. subst envs.
  destruct (IH (append_new seen (GovernedEnvs (si_Def in_) g)) memo' Hm') as [H1 H2].
  split; [done|]. intros e. rewrite H2, elem_of_append_new. setoid_rewrite elem_of_cons. naive_solver.
Qed.

Lemma supersede_victim_spec r memo : memo_ok memo ->
  memo_ok (supersede_victim in_ now r memo).2 /\
  forall db, (supersede_victim in_ now r memo).1 = Some db <-> hit r /\ db = ended r.
Proof.
  intros Hm. unfold supersede_victim, hit, pending_gates. destruct (active _) eqn:Ha; cbn [negb]; [|split; [done|naive_solver]].
  destruct (awaiting_gate_names (lr_db r)) as [|g gs]; [split; [done|naive_solver]|].
  destruct (victim_envs_spec (g :: gs) [] memo Hm) as [Hm' Hel]. destruct (victim_envs _ _ _ _) as [envs memo']. cbn [fst snd] in *.
  destruct (envSetsIntersect _ _) eqn:E; cbn [negb]; (split; [done|]); intros db.
  - unfold supersedeOne. rewrite Ha. fold (ended r). split; [intros [= <-]|intros [_ ->]; done]. split; [|done]. split_and!; [done..|].
    apply envSetsIntersect_true in E as [E|[->|(e & He & Hv)]]; [by left| |].
    + right. left. intros g' Hg. destruct (GovernedEnvs (si_Def in_) g') as [|e es] eqn:Eg; [done|]. exfalso.
      apply (not_elem_of_nil e), Hel. right. exists g'. rewrite Eg. split; [done|by left].
    + right. right. apply Hel in Hv as [Hv|(g' & Hg & Hv)]; [by apply elem_of_nil in Hv|]. eauto.
  - split; [done|]. intros [(_ & _ & Ho) _]. exfalso. apply not_true_iff_false in E. apply E, envSetsIntersect_true.
    destruct Ho as [Ho|[Ho|(e & g' & He & Hg & Hv)]]; [by left| |].
    + right. left. destruct envs as [|e es]; [done|]. exfalso. destruct (proj1 (Hel e) ltac:(by left)) as [Hv|(g' & Hg & Hv)]; [by apply elem_of_nil in Hv|].
      rewrite (Ho g' Hg) in Hv. by apply elem_of_nil in Hv.
    + right. right. exists e. split; [done|]. apply Hel. eauto.
Qed.

Lemma candidates_spec f id c : (id, c) ∈ candidates in_ f <-> exists r, f !! id = Some r /\ c = lr_counter r /\ in_lane r /\
  active (r_status (run (lr_db r))) = true /\ pending_gates r <> [].
Proof.
  unfold candidates. rewrite stable_sort_perm, list_elem_of_fmap. setoid_rewrite list_elem_of_filter. split.
  - intros ([id' r] & [= -> ->] & Hc & Hin%elem_of_map_to_list). exists r. split; [done|]. split; [done|]. simpl in Hc.
    unfold candidate in Hc. rewrite !andb_true_iff, orb_true_iff, !bool_decide_eq_true, Z.ltb_lt, negb_true_iff, bool_decide_eq_false in Hc.
    unfold in_lane, pending_gates. tauto.
  - intros (r & Hr & -> & Hl & Ha & Hp). exists (id, r). split; [done|]. split; [|by apply elem_of_map_to_list]. simpl. unfold candidate.
    rewrite !andb_true_iff, orb_true_iff, !bool_decide_eq_true, Z.ltb_lt, negb_true_iff, bool_decide_eq_false. unfold in_lane, pending_gates in *. tauto.
Qed.
Lemma candidates_NoDup f : NoDup (candidates in_ f).*1.
Proof.
  unfold candidates. rewrite stable_sort_perm, <- list_fmap_compose. change (NoDup ((fun kv : uuid * FleetRun => kv.1) <$> filter (fun kv => candidate in_ kv.2 = true) (map_to_list f))).
  eapply sublist_NoDup; [apply (NoDup_fst_map_to_list f)|]. apply fmap_sublist, sublist_filter.
Qed.

Context (contended : uuid -> bool).
(** The run [id], read with counter [c], is cleared by a pass over [cs]. *)
Definition cleared (cs : list (uuid * Z)) f id (c : Z) r : Prop :=
  (id, c) ∈ cs /\ contended id = false /\ f !! id = Some r /\ hit r.
Lemma cleared_tail id c cs f f' id' c' r :
  id' <> id -> f' !! id' = f !! id' -> cleared cs f' id' c' r <-> cleared ((id, c) :: cs) f id' c' r.
Proof. intros Hne Hf. unfold cleared. rewrite Hf, elem_of_cons. naive_solver. Qed.
Lemma cleared_skip id c cs f id' c' r : (forall r', f !! id = Some r' -> contended id = false -> ~ hit r') ->
  cleared ((id, c) :: cs) f id' c' r <-> cleared cs f id' c' r.
Proof. intros Hno. unfold cleared. rewrite elem_of_cons. naive_solver. Qed.

Record pass_exact (cs : list (uuid * Z)) f (out : list SupersededRun) f' : Prop := {
  pe_out s : s ∈ out <-> exists r, cleared cs f (RunID s) (Counter s) r /\ RunningJobs s = running_jobs (ended r);
  pe_cleared id c r : cleared cs f id c r -> f' !! id = Some (with_rows r (ended r));
  pe_kept id : (forall c r, ~ cleared cs f id c r) -> f' !! id = f !! id;
  pe_once : NoDup (RunID <$> out);
}.
Lemma pass_skip id c cs f out f' : (forall r, f !! id = Some r -> contended id = false -> ~ hit r) ->
  pass_exact cs f out f' -> pass_exact ((id, c) :: cs) f out f'.
Proof.
  intros Hno [H1 H2 H3 H4]. split.
  - intros s. rewrite H1. setoid_rewrite (cleared_skip id c cs f _ _ _ Hno). done.
  - intros id' c' r. rewrite (cleared_skip id c cs f id' c' r Hno). apply H2.
  - intros id' Hn. apply H3. intros c' r. rewrite <- (cleared_skip id c cs f id' c' r Hno). apply Hn.
  - done.
Qed.
Lemma supersede_loop_exact cs memo f : NoDup cs.*1 -> memo_ok memo ->
  pass_exact cs f (supersede_loop contended in_ now cs memo f).1 (supersede_loop contended in_ now cs memo f).2.
Proof.
  revert memo f. induction cs as [|[id c] cs IH]; intros memo f Hnd Hm; cbn [supersede_loop].
  { split; simpl; try done. - intros s. split; [by intros ?%elem_of_nil|]. by intros (r & (?%elem_of_nil & _) & _).
    - by intros id c r (?%elem_of_nil & _). }
  rewrite fmap_cons in Hnd. apply NoDup_cons in Hnd as [Hid Hnd]. destruct (f !! id) as [r|] eqn:Hr; [|apply pass_skip; [congruence|by apply IH]].
  destruct (supersede_victim_spec r memo Hm) as [Hm' Hv]. destruct (supersede_victim _ _ _ _) as [e memo']. cbn [fst snd] in *.
  destruct (contended id) eqn:Hc; [apply pass_skip; [congruence|by apply IH]|].
  destruct e as [db|]; [|apply pass_skip; [|by apply IH]; intros r' Er _ Hh; simplify_eq; by pose proof (proj2 (Hv _) (conj Hh eq_refl))].
  destruct (proj1 (Hv db) eq_refl) as [Hh ->]. pose proof (IH memo' (<[id := with_rows r (ended r)]> f) Hnd Hm') as [H1 H2 H3 H4].
  destruct (supersede_loop _ _ _ _ _ _) as [out f']. cbn [fst snd] in *.
  assert (Hself : cleared ((id, c) :: cs) f id c r) by (split_and!; [by left|done..]).
  assert (Hnot : forall c' r', ~ cleared cs (<[id := with_rows r (ended r)]> f) id c' r').
  { intros c' r' [Hin _]. apply Hid, list_elem_of_fmap. by exists (id, c'). }
  assert (Hcons : forall c' r', cleared ((id, c) :: cs) f id c' r' -> c' = c /\ r' = r).
  { intros c' r' ([[= ->]|Hin]%elem_of_cons & _ & Hr' & _); [split; congruence|]. destruct Hid. apply list_elem_of_fmap. by exists (id, c'). }
  assert (Hother : forall id' c' r', id' <> id -> cleared cs (<[id := with_rows r (ended r)]> f) id' c' r' <-> cleared ((id, c) :: cs) f id' c' r').
  { intros id' c' r' Hne. apply cleared_tail; [done|]. by apply lookup_insert_ne. }
  split.
  - intros s. rewrite elem_of_cons, H1. split.
    + intros [->|(r' & Hcl & Hj)]; [by exists r|]. exists r'. split; [|done]. destruct (decide (RunID s = id)) as [E|Hne].
      * rewrite E in Hcl. by destruct (Hnot _ _ Hcl).
      * by apply Hother.
    + intros (r' & Hcl & Hj). destruct (decide (RunID s = id)) as [E|Hne].
      * left. rewrite E in Hcl. apply Hcons in Hcl as [Ec ->]. destruct s. simpl in *. congruence.
      * right. exists r'. split; [by apply Hother|done].
  - intros id' c' r' Hcl. destruct (decide (id' = id)) as [->|Hne].
    + apply Hcons in Hcl as [_ ->]. etrans; [apply H3, Hnot|apply lookup_insert_eq].
    + apply Hother in Hcl; [|done]. by eapply H2.
  - intros id' Hn. destruct (decide (id' = id)) as [->|Hne]; [by destruct (Hn _ _ Hself)|].
    etrans; [apply H3|by apply lookup_insert_ne]. intros c' r'. rewrite Hother by done. apply Hn.
  - rewrite fmap_cons. constructor; [|done]. intros (s & Es & Hin)%list_elem_of_fmap. apply H1 in Hin as (r' & Hcl & _).
    rewrite <- Es in Hcl. by destruct (Hnot _ _ Hcl).
Qed.
Lemma pass_lane snapshot f out f' :
  supersedeLaneSiblings contended in_ now snapshot f = (out, f') ->
  pass_exact (candidates in_ snapshot) f out f' /\ StronglySorted (fun a b => (Counter b <= Counter a)%Z) out.
Proof.
  unfold supersedeLaneSiblings. pose proof (candidates_NoDup snapshot) as Hnd.
  pose proof (supersede_loop_exact (candidates in_ snapshot) ∅ f Hnd) as Hp. destruct (supersede_loop _ _ _ _ _ _) as [l g].
  intros [= <- <-]. cbn [fst snd] in Hp. destruct Hp as [H1 H2 H3 H4]; [by intros ???|]. set (lt := fun a b => (Counter b <? Counter a)%Z).
  split.
  - split; [|done..|].
    + intros s. by rewrite (stable_sort_perm lt l), H1.
    + by rewrite (stable_sort_perm lt l).
  - assert (Hs : StronglySorted (sort_le lt) (stable_sort lt l)).
    { apply stable_sort_sorted; unfold lt; intros *; rewrite ?Z.ltb_lt, ?Z.ltb_ge; lia. }
    induction Hs as [|a k _ IH Ha]; constructor; [done|]. eapply Forall_impl; [exact Ha|]. intros b. unfold sort_le, lt. by rewrite Z.ltb_ge.
Qed.

(** What ending a run does to its jobs. *)
Lemma ended_job r id : jobs (ended r) !! id =
  (fun row => if has_status StatusRunning row then stamp_cancel now cancelOriginSupersede row
              else if in_user_stage (lr_db r) row && (has_status StatusQueued row || has_status StatusAwaitingApproval row)
                   then cancel_job cancelOriginSupersede row else row) <$> jobs (lr_db r) !! id.
Proof.
  unfold ended, terminate_run, CancelQueuedJobsInRun, update_jobs. cbn [jobs with_jobs]. rewrite !lookup_fmap.
  change (jobs (CancelQueuedStagesInRun (with_run (lr_db r) _))) with (jobs (lr_db r)).
  destruct (jobs (lr_db r) !! id) as [row|]; [|done]. simpl. f_equal.
  rewrite (in_user_stage_ext (lr_db r)).
  - unfold has_status. destruct (j_status row) eqn:E; simpl; rewrite ?andb_false_r, ?andb_true_r; try done.
    all: destruct (in_user_stage (lr_db r) row); simpl; by rewrite ?E.
  - intros k. simpl. rewrite map_lookup_imap. destruct (stages (lr_db r) !! k); [|done]. simpl. by case_match.
Qed.
Lemma ended_running r j a : {| JobID := j; AgentID := a |} ∈ running_jobs (ended r) <->
  exists row, jobs (lr_db r) !! j = Some row /\ j_status row = StatusRunning /\ j_agent row = Some a.
Proof.
  unfold running_jobs. rewrite list_elem_of_omap. split.
  - intros ([j' row] & Hin & Hx). apply elem_of_map_to_list in Hin. rewrite ended_job in Hin.
    destruct (jobs (lr_db r) !! j') as [row0|] eqn:E; [|done]. injection Hin as <-. cbn [snd fst] in Hx.
    destruct (has_status StatusRunning row0) eqn:Er.
    + unfold has_status in Hx, Er. apply bool_decide_eq_true in Er. simpl in Hx. rewrite Er in Hx. simpl in Hx.
      destruct (j_agent row0) as [a'|] eqn:Ea; [|done]. injection Hx as -> ->. by exists row0.
    + destruct (in_user_stage _ _ && _); [done|]. by rewrite Er in Hx.
  - intros (row & Hr & Hs & Ha). exists (j, stamp_cancel now cancelOriginSupersede row). rewrite elem_of_map_to_list, ended_job, Hr. simpl.
    assert (has_status StatusRunning row = true) as E by (unfold has_status; by rewrite Hs). rewrite E. split; [done|].
    unfold has_status. simpl. by rewrite Hs, Ha.
Qed.
Lemma ended_waits_no_more r row id : jobs (ended r) !! id = Some row -> in_user_stage (lr_db r) row = true ->
  j_status row <> StatusQueued /\ j_status row <> StatusAwaitingApproval.
Proof.
  rewrite ended_job. destruct (jobs (lr_db r) !! id) as [row0|]; [|done]. intros [= <-].
  destruct (has_status StatusRunning row0) eqn:Er.
  - unfold has_status in Er. apply bool_decide_eq_true in Er. simpl. by rewrite Er.
  - destruct (in_user_stage _ row0 && _) eqn:E; [done|]. intros Hu. rewrite Hu in E. apply orb_false_iff in E as [E1 E2].
    unfold has_status in *. by apply bool_decide_eq_false in E1, E2.
Qed.
End Spec.

(** The lane columns of a run are written once. *)
Definition same_lanes (f g : Fleet) : Prop := forall id r s, f !! id = Some r -> g !! id = Some s ->
  lr_pipeline s = lr_pipeline r /\ lr_ref s = lr_ref r /\ lr_counter s = lr_counter r.
Definition cascade_input (def : Pipeline) (r : FleetRun) (runID : uuid) (envs : list string) : supersedeInput := {|
  si_PipelineID := lr_pipeline r; si_Ref := if decide (Supersede def = SupersedeBranch) then lr_ref r else "";
  si_LaneMode := Supersede def; si_NewerRunID := runID; si_NewerCounter := lr_counter r;
  si_ReadyEnvs := envs; si_Def := def |}.

(** C16: When a stage ends green and makes a gate of the next stage ready, the pass clears
    exactly the runs it should: those of the same pipeline - and branch, in branch mode -
    with a lower counter, still open and waiting at a gate for an environment the newly
    ready gate governs, whose rows it could lock.  Each ends cancelled by the newer run
    with nothing left waiting, and with exactly its running jobs listed for a stop; every
    other run keeps its rows.  The pass leaves everything as it is only when the stage did
    not end green, the definition does not supersede, or no gate became ready. *)
Theorem supersede_exact (contended : uuid -> bool) (definition : option Pipeline) (runID stageRunID : uuid)
    (comp : JobCompletion) (now : Time) (snapshot f f' : Fleet) (out : list SupersededRun) :
  supersedeAfterCascade contended definition runID stageRunID comp now snapshot f = Ok (out, f') -> same_lanes snapshot f ->
  (out = [] /\ f' = f /\
     (StageCompleted comp <> Some StatusSuccess \/
      exists N def, f !! runID = Some N /\ definition = Some def /\
        (supersedes (Supersede def) = false \/
         exists stage, stages (lr_db N) !! stageRunID = Some stage /\ (ReadyGateEnvsAfterStage def (ss_ordinal (s_spec stage))).2 = false))) \/
  exists N def stage envs, let in_ := cascade_input def N runID envs in
    f !! runID = Some N /\ definition = Some def /\ StageCompleted comp = Some StatusSuccess /\ supersedes (Supersede def) = true /\
    stages (lr_db N) !! stageRunID = Some stage /\ ReadyGateEnvsAfterStage def (ss_ordinal (s_spec stage)) = (envs, true) /\
    (forall id r, f !! id = Some r -> id ∈ RunID <$> out <->
       in_lane in_ r /\ hit in_ r /\ contended id = false /\ exists r0, snapshot !! id = Some r0 /\
       active (r_status (run (lr_db r0))) = true /\ pending_gates r0 <> []) /\
    (forall s, s ∈ out -> exists r, f !! RunID s = Some r /\ Counter s = lr_counter r /\
       f' !! RunID s = Some (with_rows r (ended in_ now r)) /\
       r_status (run (ended in_ now r)) = StatusCanceled /\ r_superseded_by (run (ended in_ now r)) = Some runID /\
       (forall id row, jobs (ended in_ now r) !! id = Some row -> in_user_stage (lr_db r) row = true ->
          j_status row <> StatusQueued /\ j_status row <> StatusAwaitingApproval) /\
       (forall j a, {| JobID := j; AgentID := a |} ∈ RunningJobs s <->
          exists row, jobs (lr_db r) !! j = Some row /\ j_status row = StatusRunning /\ j_agent row = Some a)) /\
    (forall id, id ∉ RunID <$> out -> f' !! id = f !! id) /\
    NoDup (RunID <$> out) /\ StronglySorted (fun a b => (Counter b <= Counter a)%Z) out.
Proof.
  unfold supersedeAfterCascade. intros Hpass Hl.
  destruct (StageCompleted comp) as [[]|] eqn:Es; try (injection Hpass as <- <-; left; split_and!; [done|done|by left]).
  destruct (f !! runID) as [N|] eqn:EN; [|done]. destruct definition as [def|]; [|done].
  destruct (supersedes (Supersede def)) eqn:Em; cbn [negb] in Hpass; [|injection Hpass as <- <-; left; eauto 10].
  destruct (stages (lr_db N) !! stageRunID) as [stage|] eqn:Est; [|done].
  destruct (ReadyGateEnvsAfterStage def _) as [envs []] eqn:Er.
  2: { injection Hpass as <- <-. left. split_and!; [done|done|]. right. exists N, def. split_and!; [done|done|]. right.
       exists stage. by rewrite Er. }
  right. exists N, def, stage, envs. cbv zeta. do 6 (split; [done|]). fold (cascade_input def N runID envs) in Hpass.
  set (in_ := cascade_input def N runID envs) in *. injection Hpass as Hpass.
  destruct (pass_lane in_ now contended snapshot f out f' Hpass) as [[H1 H2 H3 H4] Hs].
  assert (Hlane : forall id r r0, f !! id = Some r -> snapshot !! id = Some r0 -> in_lane in_ r0 <-> in_lane in_ r).
  { intros id r r0 Hr Hr0. destruct (Hl id r0 r Hr0 Hr) as (E1 & E2 & E3). unfold in_lane. rewrite E1, E2, E3. done. }
  split; [|split; [|split; [|done]]].
  - intros id r Hr. rewrite list_elem_of_fmap. setoid_rewrite H1. unfold cleared. setoid_rewrite candidates_spec. split.
    + intros (s & -> & r' & ((r0 & Hr0 & _ & Hin & Ha & Hp) & Hc & Hr' & Hh) & _). simplify_eq. apply (Hlane _ _ _ Hr Hr0) in Hin. eauto 10.
    + intros (Hin & Hh & Hc & r0 & Hr0 & Ha & Hp). exists {| RunID := id; Counter := lr_counter r0; RunningJobs := running_jobs (ended in_ now r) |}.
      split; [done|]. exists r. split; [|done]. split; [|done]. exists r0. apply (Hlane _ _ _ Hr Hr0) in Hin. done.
  - intros s Hsin. apply H1 in Hsin as (r & Hcl & Hj). exists r. pose proof Hcl as (Hcand & _ & Hr & _).
    apply candidates_spec in Hcand as (r0 & Hr0 & Ec & _). split; [done|]. split; [rewrite Ec; symmetry; by apply (Hl _ _ _ Hr0 Hr)|].
    split; [by eapply H2|]. split; [done|]. split; [done|]. split; [intros id row; apply ended_waits_no_more|].
    intros j a. rewrite Hj. apply ended_running.
  - intros id Hn. apply H3. intros c r Hcl. apply Hn, list_elem_of_fmap.
    exists {| RunID := id; Counter := c; RunningJobs := running_jobs (ended in_ now r) |}. split; [done|]. apply H1. by exists r.
Qed.

(** ** Example *)

Definition lane_job (stage : uuid) (name : string) (gate : bool) (st : Status) (agent : option uuid) : JobRow := {|
  j_spec := {| js_stage := stage; js_name := name; js_matrix_key := ""; js_needs := []; js_gate := gate; js_retry_unsafe := false |};
  j_status := st; j_agent := agent; j_attempt := 0%Z; j_cancel_requested_at := None; j_cancel_origin := None;
  j_exit_code := None; j_error := ""; j_outputs := ∅; j_deploy_rollback := false |}.
Definition lane_db (lint : JobRow) : RunDB := {|
  run := {| r_status := StatusRunning; r_superseded_by := None; r_service_generation := 0%Z; r_terminal_effects_required := false |};
  stages := {[10%N := {| s_spec := {| ss_name := "build"; ss_ordinal := 0%Z |}; s_status := StatusSuccess |};
              11%N := {| s_spec := {| ss_name := "approve"; ss_ordinal := 1%Z |}; s_status := StatusQueued |};
              12%N := {| s_spec := {| ss_name := "deploy"; ss_ordinal := 2%Z |}; s_status := StatusQueued |}]};
  jobs := {[20%N := lane_job 10 "compile" false StatusSuccess None; 21%N := lane_job 11 "gate" true StatusAwaitingApproval None; 22%N := lint]};
  watched := ∅ |}.
Definition lane_run (ref : string) (counter : Z) (lint : JobRow) : FleetRun :=
  {| lr_pipeline := 7%N; lr_ref := ref; lr_counter := counter; lr_db := lane_db lint |}.
Definition example_fleet : Fleet :=
  {[1%N := lane_run "main" 1 (lane_job 11 "lint" false StatusRunning (Some 90%N)); 2%N := lane_run "dev" 2 (lane_job 11 "lint" false StatusQueued None);
    3%N := lane_run "main" 3 (lane_job 11 "lint" false StatusQueued None); 4%N := lane_run "main" 4 (lane_job 11 "lint" false StatusQueued None);
    5%N := lane_run "main" 5 (lane_job 11 "lint" false StatusQueued None)]}.
Definition green_stage : JobCompletion :=
  {| JobStatus := StatusSuccess; StageCompleted := Some StatusSuccess; RunCompleted := None |}.
(** Run 3 cannot be locked, run 2 is of another branch and run 5 is newer. *)
Definition example_pass : result store_error (list SupersededRun * Fleet) :=
  supersedeAfterCascade (fun id => bool_decide (id = 3%N)) (Some Parse.example_pipeline) 4 10 green_stage 0%Z example_fleet example_fleet.
Definition passed (r : result store_error (list SupersededRun * Fleet)) : list SupersededRun * Fleet :=
  match r with Ok p => p | Err _ => ([], ∅) end.
Example example_cleared : (fun s => (RunID s, Counter s, RunningJobs s)) <$> (passed example_pass).1 = [(1%N, 1%Z, [{| JobID := 22; AgentID := 90 |}])].
Proof. vm_compute. reflexivity. Qed.

(** The gates of a victim are looked up in the definition of the newer run: one that
    this definition does not know stands for every environment. *)
Definition renamed (db : RunDB) : RunDB := with_jobs db (<[21%N := lane_job 11 "staging-gate" true StatusAwaitingApproval None]> (jobs db)).
Example renamed_gate_cleared : envSetsIntersect ["production"] (victim_envs Parse.example_pipeline (awaiting_gate_names (renamed (lane_db (lane_job 11 "lint" false StatusQueued None)))) [] ∅).1 = true.
Proof. vm_compute. reflexivity. Qed.

Lemma supersede_exact_witness :
  example_pass = Ok (passed example_pass) /\ (passed example_pass).2 !! 3%N = example_fleet !! 3%N.
Proof.
  assert (Hp : example_pass = Ok (passed example_pass)) by (vm_compute; reflexivity). split; [exact Hp|].
  destruct (supersede_exact _ _ _ _ _ _ _ _ (passed example_pass).2 (passed example_pass).1
              (eq_trans Hp (f_equal Ok (surjective_pairing _)))) as [(_ & E & _)|(N & def & stage & envs & Hx)].
  - intros id r s Hr Hs. rewrite Hr in Hs. injection Hs as <-. split_and!; reflexivity.
  - rewrite E. reflexivity.
  - destruct Hx as (_ & _ & _ & _ & _ & _ & _ & _ & Hkept & _). apply Hkept.
    intros Hin. cut (bool_decide (3%N ∈ RunID <$> (passed example_pass).1) = false).
    + intros Hf. apply bool_decide_eq_false in Hf. exact (Hf Hin).
    + vm_compute. reflexivity.
Defined.
