(* ===== verification/Outbox.v ===== *)
(** The durable side effects of an ended run: [scheduler/run_terminal_effects.go],
    [scheduler/supersede_effects.go] and [scheduler/merge_group_cancel_effects.go],
    with the statements of [store/run_terminal_effects.go], [store/supersede.go] and
    [store/merge_group.go] they claim, read and end_run a run by.

    A worker is a tree of calls ([prog]); between any two of its calls other workers,
    reruns and new endings of the same run take their steps, and it may die. *)

From S2P Require Import Prelude GoStrings Domain RunTables.

(** ** The columns of the run *)

Record EffectRow := {
  e_status : Status;
  e_merge_group : bool;              (* [cause = 'merge_group'] *)
  e_has_services : bool;
  e_cancel_reason : string;
  e_superseded_by : option uuid;
  e_generation : Z;
  sup_claimed : option Time; sup_at : option Time;
  mg_claimed : option Time; mg_at : option Time;
  term_required : bool; term_claimed : option Time; term_at : option Time;
}.

Definition set_sup (r : EffectRow) (claimed at_ : option Time) : EffectRow := {|
  e_status := e_status r; e_merge_group := e_merge_group r; e_has_services := e_has_services r; e_cancel_reason := e_cancel_reason r;
  e_superseded_by := e_superseded_by r; e_generation := e_generation r; sup_claimed := claimed; sup_at := at_;
  mg_claimed := mg_claimed r; mg_at := mg_at r; term_required := term_required r; term_claimed := term_claimed r; term_at := term_at r |}.
Definition set_mg (r : EffectRow) (claimed at_ : option Time) : EffectRow := {|
  e_status := e_status r; e_merge_group := e_merge_group r; e_has_services := e_has_services r; e_cancel_reason := e_cancel_reason r;
  e_superseded_by := e_superseded_by r; e_generation := e_generation r; sup_claimed := sup_claimed r; sup_at := sup_at r;
  mg_claimed := claimed; mg_at := at_; term_required := term_required r; term_claimed := term_claimed r; term_at := term_at r |}.
Definition set_term (r : EffectRow) (required : bool) (claimed at_ : option Time) : EffectRow := {|
  e_status := e_status r; e_merge_group := e_merge_group r; e_has_services := e_has_services r; e_cancel_reason := e_cancel_reason r;
  e_superseded_by := e_superseded_by r; e_generation := e_generation r; sup_claimed := sup_claimed r; sup_at := sup_at r;
  mg_claimed := mg_claimed r; mg_at := mg_at r; term_required := required; term_claimed := claimed; term_at := at_ |}.
Definition set_end (r : EffectRow) (st : Status) (reason : string) (by_ : option uuid) (gen : Z) : EffectRow := {|
  e_status := st; e_merge_group := e_merge_group r; e_has_services := e_has_services r; e_cancel_reason := reason;
  e_superseded_by := by_; e_generation := gen; sup_claimed := sup_claimed r; sup_at := sup_at r;
  mg_claimed := mg_claimed r; mg_at := mg_at r; term_required := term_required r; term_claimed := term_claimed r; term_at := term_at r |}.

(** ** Statements *)

Definition supersedeEffectsLease : Duration := (2 * Minute)%Z.
(** [claimed_at IS NULL OR claimed_at < NOW() - lease]. *)
Definition claim_free (now : Time) (claimed : option Time) : bool :=
  match claimed with None => true | Some t => (t <? now - supersedeEffectsLease)%Z end.
Definition is_none {A} (o : option A) : bool := match o with None => true | Some _ => false end.

Definition ClaimSupersedeEffects (now : Time) (r : EffectRow) : option (bool * EffectRow) :=
  if negb (is_none (e_superseded_by r)) && is_none (sup_at r) && claim_free now (sup_claimed r)
  then Some (is_none (sup_claimed r), set_sup r (Some now) (sup_at r)) else None.
Definition MarkSupersedeEffectsDone (now : Time) (r : EffectRow) : EffectRow :=
  if negb (is_none (e_superseded_by r)) then set_sup r (sup_claimed r) (Some now) else r.
Definition pending_supersede (now : Time) (r : EffectRow) : bool :=
  negb (is_none (e_superseded_by r)) && is_none (sup_at r) && claim_free now (sup_claimed r).
Definition GetSupersededRunGeneration (r : EffectRow) : option Z :=
  if is_none (e_superseded_by r) then None else Some (e_generation r).

(** [cause = 'merge_group' AND cancel_reason LIKE 'github merge_group destroyed%']. *)
Definition merge_destroyed (r : EffectRow) : bool := e_merge_group r && HasPrefix (e_cancel_reason r) "github merge_group destroyed".
Definition merge_canceled (r : EffectRow) : bool := merge_destroyed r && bool_decide (e_status r = StatusCanceled).
Definition ClaimMergeGroupCancelEffects (now : Time) (r : EffectRow) : option (bool * EffectRow) :=
  if merge_canceled r && is_none (mg_at r) && claim_free now (mg_claimed r)
  then Some (is_none (mg_claimed r), set_mg r (Some now) (mg_at r)) else None.
Definition MarkMergeGroupCancelEffectsDone (now : Time) (r : EffectRow) : EffectRow :=
  if merge_canceled r then set_mg r (mg_claimed r) (Some now) else r.
Definition pending_merge_group (now : Time) (r : EffectRow) : bool :=
  merge_canceled r && is_none (mg_at r) && claim_free now (mg_claimed r).
Definition MergeGroupCanceledRunServiceGeneration (r : EffectRow) : option Z :=
  if merge_canceled r && is_none (mg_at r) then Some (e_generation r) else None.

(** What the three statements of the generic outbox ask of the row. *)
Definition owes_terminal (r : EffectRow) : bool :=
  term_required r && negb (active (e_status r)) && is_none (e_superseded_by r) && negb (merge_destroyed r) && is_none (term_at r).
Record RunTerminalEffectsClaim := { Claim_Status : Status; ServiceGeneration : Z; FirstClaim : bool }.
Definition ClaimRunTerminalEffects (now : Time) (r : EffectRow) : option (RunTerminalEffectsClaim * EffectRow) :=
  if owes_terminal r && claim_free now (term_claimed r)
  then Some ({| Claim_Status := e_status r; ServiceGeneration := e_generation r; FirstClaim := is_none (term_claimed r) |},
             set_term r (term_required r) (Some now) (term_at r))
  else None.
Definition MarkRunTerminalEffectsDone (now : Time) (gen : Z) (r : EffectRow) : bool * EffectRow :=
  if (e_generation r =? gen)%Z && owes_terminal r && negb (is_none (term_claimed r))
  then (true, set_term r false (term_claimed r) (Some now)) else (false, r).
Definition pending_terminal (now : Time) (r : EffectRow) : bool := owes_terminal r && claim_free now (term_claimed r).

(** ** How a run ends and comes back *)

(** [CompleteRun], [CancelActiveRun] and [ExpireApprovalRun]. *)
Definition end_run (st : Status) (reason : string) (r : EffectRow) : EffectRow :=
  set_term (set_end r st reason (e_superseded_by r) (e_generation r)) true None None.
Definition SupersedeRun (by_ : uuid) (reason : string) (r : EffectRow) : EffectRow :=
  set_end r StatusCanceled reason (Some by_) (e_generation r).
Definition cancel_merge_group (reason : string) (r : EffectRow) : EffectRow :=
  set_mg (set_end r StatusCanceled reason (e_superseded_by r) (e_generation r)) None None.
(** The part of [RerunJob] that revives the run. *)
Definition revive (r : EffectRow) : EffectRow :=
  set_term (set_mg (set_sup (set_end r StatusRunning "" None (e_generation r + 1)%Z) None None) None None) false None None.

(** ** Workers *)

Record SupersedeAuditInfo := { BySupersedingRunID : uuid }.
Record RunningJobRef := { RJ_Job : uuid; RJ_Agent : uuid }.

(** The calls a worker makes on the store, the session table and the outside. *)
Inductive op : Type -> Type :=
| OpClaimSupersede : op (option bool)
| OpClaimTerminal : op (option RunTerminalEffectsClaim)
| OpClaimMergeGroup : op (option bool)
| OpCountSuperseded : op unit
| OpListRunningCancelRequested : op (list RunningJobRef)
| OpCancelJob (j : RunningJobRef) (reason : string) : op unit
| OpSupersededGeneration : op (option Z)
| OpMergeGroupGeneration : op (option Z)
| OpHasServices : op bool
| OpListAgents : op (list uuid)
| OpKubernetesAgents : op (list uuid)
| OpCleanup (agent : uuid) (maxGeneration : Z) : op unit
| OpAuditInfo : op (option SupersedeAuditInfo)
| OpEmitAudit (info : SupersedeAuditInfo) : op unit
| OpReport (st : Status) : op unit
| OpMarkSupersede : op unit
| OpMarkTerminal (gen : Z) : op bool
| OpMarkMergeGroup : op unit.

(** The rest of a call that returns [None] when the call it makes fails. *)
Inductive prog : Type :=
| Done
| Do {A : Type} (o : op A) (k : option A -> prog).

(** The loops over [jobs] and over [targets]. *)
Fixpoint cancel_jobs (reason : string) (l : list RunningJobRef) (k : prog) : prog :=
  match l with [] => k | j :: l => Do (OpCancelJob j reason) (fun _ => cancel_jobs reason l k) end.
Fixpoint broadcast (gen : Z) (targets : list uuid) (delivered : bool) (k : bool -> prog) : prog :=
  match targets with
  | [] => k delivered
  | id :: targets => Do (OpCleanup id gen) (fun sent => broadcast gen targets (match sent with Some _ => true | None => delivered end) k)
  end.
(** What the three cleanups share, from the generation on. *)
Definition cleanup_generation (gen : Z) (k : bool -> prog) : prog :=
  Do OpHasServices (fun has =>
    if default true has then
      Do OpListAgents (fun ran =>
        Do OpKubernetesAgents (fun connected =>
          let targets := append_new (append_new [] (default [] ran)) (default [] connected) in
          match targets with [] => k false | _ => broadcast gen targets false k end))
    else k true).

Definition cleanupTerminalRunServices (gen : Z) (k : bool -> prog) : prog := cleanup_generation gen k.
Definition cleanupSupersededServices (k : bool -> prog) : prog :=
  Do OpSupersededGeneration (fun g =>
    match g with None => k false | Some None => k true | Some (Some gen) => cleanup_generation gen k end).
Definition cleanupMergeGroupCanceledServices (k : bool -> prog) : prog :=
  Do OpMergeGroupGeneration (fun g =>
    match g with None => k false | Some None => k true | Some (Some gen) => cleanup_generation gen k end).
Definition emitSupersedeAudit (k : bool -> prog) : prog :=
  Do OpAuditInfo (fun info =>
    match info with
    | None => k false
    | Some None => k true
    | Some (Some i) => Do (OpEmitAudit i) (fun e => k (negb (is_none e)))
    end).

Section Workers.
(** [s.checks != nil]. *)
Context (checks : bool).
Definition report_check (st : Status) (k : prog) : prog := if checks then Do (OpReport st) (fun _ => k) else k.

Definition fireRunTerminalEffects : prog :=
  Do OpClaimTerminal (fun c =>
    match c with
    | Some (Some claim) =>
        report_check (Claim_Status claim)
          (cleanupTerminalRunServices (ServiceGeneration claim) (fun ok =>
             if ok then Do (OpMarkTerminal (ServiceGeneration claim)) (fun _ => Done) else Done))
    | _ => Done
    end).
Definition fireSupersedeEffects : prog :=
  Do OpClaimSupersede (fun c =>
    match c with
    | Some (Some firstClaim) =>
        let rest := Do OpListRunningCancelRequested (fun jobs =>
          cancel_jobs "superseded" (default [] jobs)
            (cleanupSupersededServices (fun cleaned => emitSupersedeAudit (fun audited =>
               report_check StatusCanceled (if cleaned && audited then Do OpMarkSupersede (fun _ => Done) else Done))))) in
        if firstClaim then Do OpCountSuperseded (fun _ => rest) else rest
    | _ => Done
    end).
Definition fireMergeGroupCancelEffects : prog :=
  Do OpClaimMergeGroup (fun c =>
    match c with
    | Some (Some _) =>
        Do OpListRunningCancelRequested (fun jobs =>
          cancel_jobs "merge_group destroyed" (default [] jobs)
            (cleanupMergeGroupCanceledServices (fun cleaned => if cleaned then Do OpMarkMergeGroup (fun _ => Done) else Done)))
    | _ => Done
    end).
End Workers.

(** ** The run, its workers and what has left the server *)

Record World := {
  w_row : EffectRow;
  w_now : Time;
  w_workers : gmap nat prog;
  w_frames : list (uuid * Z);             (* cleanups handed to a session: agent and generation *)
  w_cancels : list RunningJobRef;
  w_audit : option SupersedeAuditInfo;    (* one row at most: [ON CONFLICT DO NOTHING] *)
  w_counted : nat;                        (* [metrics.RunsSuperseded] *)
  w_told : list nat;                      (* the events whose claim said "first" *)
  w_events : nat;                         (* times the run was superseded *)
}.
Definition with_row (w : World) (r : EffectRow) : World := {|
  w_row := r; w_now := w_now w; w_workers := w_workers w; w_frames := w_frames w; w_cancels := w_cancels w; w_audit := w_audit w;
  w_counted := w_counted w; w_told := w_told w; w_events := w_events w |}.
Definition with_workers (w : World) (l : gmap nat prog) : World := {|
  w_row := w_row w; w_now := w_now w; w_workers := l; w_frames := w_frames w; w_cancels := w_cancels w; w_audit := w_audit w;
  w_counted := w_counted w; w_told := w_told w; w_events := w_events w |}.
Definition with_sent (w : World) (fs : list (uuid * Z)) (js : list RunningJobRef) : World := {|
  w_row := w_row w; w_now := w_now w; w_workers := w_workers w; w_frames := fs; w_cancels := js; w_audit := w_audit w;
  w_counted := w_counted w; w_told := w_told w; w_events := w_events w |}.
Definition with_audit (w : World) (i : SupersedeAuditInfo) : World := {|
  w_row := w_row w; w_now := w_now w; w_workers := w_workers w; w_frames := w_frames w; w_cancels := w_cancels w;
  w_audit := match w_audit w with Some a => Some a | None => Some i end;
  w_counted := w_counted w; w_told := w_told w; w_events := w_events w |}.
Definition with_counts (w : World) (counted : nat) (told : list nat) (events : nat) : World := {|
  w_row := w_row w; w_now := w_now w; w_workers := w_workers w; w_frames := w_frames w; w_cancels := w_cancels w; w_audit := w_audit w;
  w_counted := counted; w_told := told; w_events := events |}.
Definition with_now (w : World) (t : Time) : World := {|
  w_row := w_row w; w_now := t; w_workers := w_workers w; w_frames := w_frames w; w_cancels := w_cancels w; w_audit := w_audit w;
  w_counted := w_counted w; w_told := w_told w; w_events := w_events w |}.

(** What the other tables and the sessions answer. *)
Record Surroundings := {
  running_cancel_requested : list RunningJobRef;
  agents_for_run : list uuid;        (* the Kubernetes agents that ran a job of the run *)
  kubernetes_agents : list uuid;     (* connected now *)
  dispatches : uuid -> bool;         (* [Dispatch] returns no error *)
}.

(** A call that succeeds. *)
Definition perform (s : Surroundings) {A} (o : op A) (w : World) : option A * World :=
  match o in op A return option A * World with
  | OpClaimSupersede =>
      match ClaimSupersedeEffects (w_now w) (w_row w) with
      | Some (first, r) => (Some (Some first), with_counts (with_row w r) (w_counted w) (if first then w_events w :: w_told w else w_told w) (w_events w))
      | None => (Some None, w)
      end
  | OpClaimTerminal =>
      match ClaimRunTerminalEffects (w_now w) (w_row w) with
      | Some (c, r) => (Some (Some c), with_row w r)
      | None => (Some None, w)
      end
  | OpClaimMergeGroup =>
      match ClaimMergeGroupCancelEffects (w_now w) (w_row w) with
      | Some (first, r) => (Some (Some first), with_row w r)
      | None => (Some None, w)
      end
  | OpCountSuperseded => (Some tt, with_counts w (S (w_counted w)) (w_told w) (w_events w))
  | OpListRunningCancelRequested => (Some (running_cancel_requested s), w)
  | OpCancelJob j _ => if dispatches s (RJ_Agent j) then (Some tt, with_sent w (w_frames w) (j :: w_cancels w)) else (None, w)
  | OpSupersededGeneration => (Some (GetSupersededRunGeneration (w_row w)), w)
  | OpMergeGroupGeneration => (Some (MergeGroupCanceledRunServiceGeneration (w_row w)), w)
  | OpHasServices => (Some (e_has_services (w_row w)), w)
  | OpListAgents => (Some (agents_for_run s), w)
  | OpKubernetesAgents => (Some (kubernetes_agents s), w)
  | OpCleanup a g => if dispatches s a then (Some tt, with_sent w ((a, g) :: w_frames w) (w_cancels w)) else (None, w)
  | OpAuditInfo => (Some ((fun by_ => {| BySupersedingRunID := by_ |}) <$> e_superseded_by (w_row w)), w)
  | OpEmitAudit i => (Some tt, with_audit w i)
  | OpReport _ => (Some tt, w)
  | OpMarkSupersede => (Some tt, with_row w (MarkSupersedeEffectsDone (w_now w) (w_row w)))
  | OpMarkTerminal g => let '(b, r) := MarkRunTerminalEffectsDone (w_now w) g (w_row w) in (Some b, with_row w r)
  | OpMarkMergeGroup => (Some tt, with_row w (MarkMergeGroupCancelEffectsDone (w_now w) (w_row w)))
  end.
(** A worker left alone. *)
Fixpoint play (s : Surroundings) (p : prog) (w : World) : World :=
  match p with Done => w | Do o k => let '(a, w) := perform s o w in play s (k a) w end.

Definition fires (p : prog) : Prop :=
  exists checks, p = fireRunTerminalEffects checks \/ p = fireSupersedeEffects checks \/ p = fireMergeGroupCancelEffects.
Definition can_revive (st : Status) : bool := match st with StatusSuccess | StatusFailed | StatusCanceled => true | _ => false end.

Inductive step : World -> World -> Prop :=
| step_fire w i p : fires p -> w_workers w !! i = None -> step w (with_workers w (<[i := p]> (w_workers w)))
| step_call w i A (o : op A) k s : w_workers w !! i = Some (Do o k) ->
    step w (with_workers (perform s o w).2 (<[i := k (perform s o w).1]> (w_workers w)))
(** The call is done and its reply lost, or it is not done. *)
| step_lost w i A (o : op A) k s : w_workers w !! i = Some (Do o k) ->
    step w (with_workers (perform s o w).2 (<[i := k None]> (w_workers w)))
| step_fail w i A (o : op A) k : w_workers w !! i = Some (Do o k) -> step w (with_workers w (<[i := k None]> (w_workers w)))
| step_die w i : step w (with_workers w (delete i (w_workers w)))
| step_time w t : (w_now w <= t)%Z -> step w (with_now w t)
| step_start w : e_status (w_row w) = StatusQueued ->
    step w (with_row w (set_end (w_row w) StatusRunning (e_cancel_reason (w_row w)) (e_superseded_by (w_row w)) (e_generation (w_row w))))
| step_end w st reason : active (e_status (w_row w)) = true -> active st = false -> step w (with_row w (end_run st reason (w_row w)))
| step_supersede w by_ reason : active (e_status (w_row w)) = true ->
    step w (with_counts (with_row w (SupersedeRun by_ reason (w_row w))) (w_counted w) (w_told w) (S (w_events w)))
| step_merge_group w reason : active (e_status (w_row w)) = true -> e_merge_group (w_row w) = true ->
    step w (with_row w (cancel_merge_group reason (w_row w)))
| step_revive w : can_revive (e_status (w_row w)) = true -> step w (with_row w (revive (w_row w))).

Definition fresh (merge_group services : bool) (t : Time) : World := {|
  w_row := {| e_status := StatusQueued; e_merge_group := merge_group; e_has_services := services; e_cancel_reason := "";
              e_superseded_by := None; e_generation := 0%Z; sup_claimed := None; sup_at := None; mg_claimed := None; mg_at := None;
              term_required := false; term_claimed := None; term_at := None |};
  w_now := t; w_workers := ∅; w_frames := []; w_cancels := []; w_audit := None; w_counted := 0; w_told := []; w_events := 0 |}.
Definition reachable (w : World) : Prop := exists mg services t, rtc step (fresh mg services t) w.

(** ** What a worker may know *)

(** No pod of the run's present life has generation [g]. *)
Definition dead (w : World) (g : Z) : Prop :=
  (g < e_generation (w_row w))%Z \/ (g = e_generation (w_row w) /\ active (e_status (w_row w)) = false).
(** A cleanup that covers generation [g] was handed to an agent, or none is needed. *)
Definition resolved (w : World) (g : Z) : Prop :=
  e_has_services (w_row w) = false \/ exists a g', (a, g') ∈ w_frames w /\ (g <= g')%Z.

Record knowledge := { k_dead : list Z; k_resolved : list Z; k_none : bool }.
Definition know_dead (g : Z) (K : knowledge) : knowledge := {| k_dead := g :: k_dead K; k_resolved := k_resolved K; k_none := k_none K |}.
Definition know_resolved (g : Z) (K : knowledge) : knowledge := {| k_dead := k_dead K; k_resolved := g :: k_resolved K; k_none := k_none K |}.
Definition know_none (K : knowledge) : knowledge := {| k_dead := k_dead K; k_resolved := k_resolved K; k_none := true |}.
Definition holds (w : World) (K : knowledge) : Prop :=
  (forall g, g ∈ k_dead K -> dead w g) /\ (forall g, g ∈ k_resolved K -> resolved w g) /\
  (k_none K = true -> e_has_services (w_row w) = false).

Definition pre {A} (o : op A) (K : knowledge) : Prop :=
  match o with
  | OpCleanup _ g => g ∈ k_dead K
  | OpMarkTerminal g => k_none K = true \/ g ∈ k_resolved K
  | _ => True
  end.
Definition learn {A} (o : op A) : option A -> knowledge -> knowledge :=
  match o in op A return option A -> knowledge -> knowledge with
  | OpClaimTerminal => fun a K => match a with Some (Some c) => know_dead (ServiceGeneration c) K | _ => K end
  | OpSupersededGeneration => fun a K => match a with Some (Some g) => know_dead g K | _ => K end
  | OpMergeGroupGeneration => fun a K => match a with Some (Some g) => know_dead g K | _ => K end
  | OpHasServices => fun a K => match a with Some false => know_none K | _ => K end
  | OpCleanup _ g => fun a K => match a with Some _ => know_resolved g K | None => K end
  | _ => fun _ K => K
  end.
(** Every call a worker makes is one that what it has learnt allows. *)
Fixpoint sound (K : knowledge) (p : prog) : Prop :=
  match p with Done => True | Do o k => pre o K /\ forall a, sound (learn o a K) (k a) end.

Definition covers (K : knowledge) (g : Z) : Prop := k_none K = true \/ g ∈ k_resolved K.
Lemma cancel_jobs_sound K reason l k : sound K k -> sound K (cancel_jobs reason l k).
Proof. intros Hk. induction l as [|j l IH]; [done|]. split; [done|]. intros a. apply IH. Qed.
Lemma broadcast_sound g targets delivered k K : g ∈ k_dead K -> (delivered = true -> covers K g) ->
  (forall K' b, (b = true -> covers K' g) -> sound K' (k b)) -> sound K (broadcast g targets delivered k).
Proof.
  intros Hd Hc Hk. revert delivered K Hd Hc. induction targets as [|t targets IH]; intros delivered K Hd Hc; [by apply Hk|].
  split; [done|]. intros [u|]; apply IH; try done. intros _. right. by left.
Qed.
Lemma cleanup_sound g k K : g ∈ k_dead K -> (forall K' b, (b = true -> covers K' g) -> sound K' (k b)) -> sound K (cleanup_generation g k).
Proof.
  intros Hd Hk. split; [done|]. intros [[|]|]; simpl; [|by apply Hk; intros _; left|].
  all: split; [done|]; intros ran; split; [done|]; intros connected; cbv zeta.
  all: destruct (append_new _ _); [by apply Hk|]; apply broadcast_sound; done.
Qed.
Lemma report_sound checks st k K : sound K k -> sound K (report_check checks st k).
Proof. unfold report_check. by destruct checks. Qed.
Lemma fires_sound p K : fires p -> sound K p.
Proof.
  intros (checks & [->|[->| ->]]).
  - split; [done|]. intros [[c|]|]; try done. apply report_sound, cleanup_sound; [by left|]. intros K' [|] Hb; [|done]. split; [by apply Hb|done].
  - assert (Hrest : forall K', sound K' (emitSupersedeAudit (fun audited => report_check checks StatusCanceled (if audited then Do OpMarkSupersede (fun _ => Done) else Done)))
                      /\ sound K' (emitSupersedeAudit (fun _ => report_check checks StatusCanceled Done))).
    { intros K'. split; split; try done; intros [[i|]|]; simpl; try (by apply report_sound); (split; [done|]); intros [u|]; by apply report_sound. }
    split; [done|]. intros [[[|]|]|]; try done; [split; [done|]; intros u|];
      (split; [done|]); intros jobs; apply cancel_jobs_sound; (split; [done|]); intros [[g|]|]; try (by apply Hrest);
      (apply cleanup_sound; [by left|]); intros K' [|] _; by apply Hrest.
  - split; [done|]. intros [[f|]|]; try done. split; [done|]. intros jobs. apply cancel_jobs_sound. split; [done|].
    intros [[g|]|]; try done. apply cleanup_sound; [by left|]. by intros K' [|] _.
Qed.

(** ** The invariant *)

Definition uncounted (r : EffectRow) : bool := negb (is_none (e_superseded_by r)) && is_none (sup_claimed r).
Record core (w : World) : Prop := {
  c_superseded : e_superseded_by (w_row w) <> None -> active (e_status (w_row w)) = false;
  c_done : term_at (w_row w) <> None -> active (e_status (w_row w)) = false /\ resolved w (e_generation (w_row w));
  c_frames a g : (a, g) ∈ w_frames w -> dead w g;
  c_told : NoDup (w_told w) /\ Forall (fun e => 0 < e <= w_events w) (w_told w);
  c_event : e_superseded_by (w_row w) <> None -> 0 < w_events w;
  c_first : uncounted (w_row w) = true -> w_events w ∉ w_told w;
  c_open : active (e_status (w_row w)) = true -> sup_claimed (w_row w) = None;
}.
(** What later states still know. *)
Record later (w w' : World) : Prop := {
  l_dead g : dead w g -> dead w' g;
  l_resolved g : resolved w g -> resolved w' g;
  l_services : e_has_services (w_row w') = e_has_services (w_row w);
}.
Lemma later_refl w : later w w. Proof. by split. Qed.
Lemma later_holds w w' K : later w w' -> holds w K -> holds w' K.
Proof. intros [H1 H2 H3] (Hd & Hr & Hn). split_and!; [eauto..|]. rewrite H3. exact Hn. Qed.
(** The row keeps its generation, status and services, and no frame is taken back. *)
Lemma later_same w w' : e_generation (w_row w') = e_generation (w_row w) -> e_status (w_row w') = e_status (w_row w) ->
  e_has_services (w_row w') = e_has_services (w_row w) -> w_frames w ⊆ w_frames w' -> later w w'.
Proof.
  intros Hg Hs Hh Hf. split; [|unfold resolved; rewrite Hh|done].
  - intros g. unfold dead. by rewrite Hg, Hs.
  - intros g [Hn|(a & g' & Hin & Hle)]; [by left|]. right. exists a, g'. auto.
Qed.

Lemma with_row_same w : with_row w (w_row w) = w. Proof. by destruct w. Qed.
Lemma is_none_true {A} (o : option A) : is_none o = true <-> o = None. Proof. by destruct o. Qed.
Lemma is_none_false {A} (o : option A) : is_none o = false <-> o <> None. Proof. by destruct o. Qed.

(** A worker's statements change only the columns of the outboxes. *)
Lemma core_columns w r :
  e_generation r = e_generation (w_row w) -> e_status r = e_status (w_row w) -> e_has_services r = e_has_services (w_row w) ->
  e_superseded_by r = e_superseded_by (w_row w) -> term_at r = term_at (w_row w) ->
  (active (e_status (w_row w)) = true -> sup_claimed r = None) -> (uncounted r = true -> uncounted (w_row w) = true) ->
  core w -> core (with_row w r) /\ later w (with_row w r).
Proof.
  intros Hg Hs Hh Hb Ht Hc Hu [H1 H2 H3 H4 H6 H7 H5]. assert (Hl : later w (with_row w r)) by by apply later_same. split; [|done].
  split; cbn [with_row w_row w_frames w_told w_events]; rewrite ?Hs, ?Hb, ?Ht; try done.
  - intros Hn. destruct (H2 Hn) as [Ha Hr]. split; [done|]. rewrite Hg. by apply Hl.
  - intros a g Hin. apply Hl. by eapply H3.
  - auto.
Qed.

Lemma perform_ok s {A} (o : op A) w K : core w -> holds w K -> pre o K ->
  core (perform s o w).2 /\ later w (perform s o w).2 /\ holds (perform s o w).2 (learn o (perform s o w).1 K) /\
  w_workers (perform s o w).2 = w_workers w.
Proof.
  intros Hc Hk Hp. pose proof Hc as [H1 H2 H3 H4 H6 H7 H5].
  assert (Hrow : forall r, core (with_row w r) /\ later w (with_row w r) ->
    core (with_row w r) /\ later w (with_row w r) /\ holds (with_row w r) K /\ w_workers (with_row w r) = w_workers w).
  { intros r [Hr Hl]. split_and!; [done..| |done]. by eapply later_holds. }
  assert (Hstay : core w /\ later w w /\ holds w K /\ w_workers w = w_workers w) by (split_and!; [done|apply later_refl|done..]).
  assert (Hdead : forall g, dead w g -> holds w (know_dead g K)).
  { intros g Hg. destruct Hk as (Hd & Hr & Hn). split_and!; [|done..]. by intros g' [->|?]%elem_of_cons; auto. }
  destruct o; cbn [perform learn pre] in *.
  - unfold ClaimSupersedeEffects. destruct (negb _ && _ && _) eqn:E; [|by rewrite ?fst_pair].
    rewrite !andb_true_iff, negb_true_iff, is_none_false, is_none_true in E. destruct E as [[Hb Ha] Hl]. specialize (H1 Hb).
    set (r := set_sup _ _ _). destruct (core_columns w r) as [Hr Hla]; [done..|congruence| |done|].
    { unfold uncounted, r. simpl. by rewrite andb_false_r. }
    destruct (Hrow r (conj Hr Hla)) as (_ & _ & Hh & _). destruct Hr as [R1 R2 R3 R4 R6 R7 R5]. simpl.
    split; [|split_and!; [|exact Hh|done]].
    + split; simpl; try done; [|unfold uncounted; simpl; by rewrite andb_false_r].
      destruct (is_none (sup_claimed (w_row w))) eqn:Ef; [|done]. destruct H4 as [Hn Hall]. specialize (H6 Hb). split.
      * constructor; [|done]. apply H7. unfold uncounted. by rewrite (proj2 (is_none_false _) Hb), Ef.
      * constructor; [lia|done].
    + destruct Hla. by split.
  - unfold ClaimRunTerminalEffects. destruct (_ && _) eqn:E; [|done]. rewrite andb_true_iff in E. destruct E as [E _].
    unfold owes_terminal in E. rewrite !andb_true_iff, negb_true_iff in E. destruct E as ((((_ & Ha) & _) & _) & _).
    set (r := set_term _ _ _ _). destruct (core_columns w r) as [Hr Hla]; [done..|]. simpl. split_and!; [done|done| |done].
    apply (later_holds w _ _ Hla), Hdead. right. done.
  - unfold ClaimMergeGroupCancelEffects. destruct (_ && _ && _); [|done]. apply Hrow. by apply core_columns.
  - split_and!; [by split|by split| |done]. by eapply later_holds; [|exact Hk].
  - done.
  - destruct (dispatches s _); [|done]. simpl. assert (Hl : later w (with_sent w (w_frames w) (j :: w_cancels w))) by by split.
    split_and!; [by split|done| |done]. by eapply later_holds.
  - split_and!; [done..| |done]. unfold GetSupersededRunGeneration. destruct (is_none _) eqn:E; [done|]. apply is_none_false in E.
    apply Hdead. right. auto.
  - split_and!; [done..| |done]. unfold MergeGroupCanceledRunServiceGeneration. destruct (_ && _) eqn:E; [|done].
    apply andb_true_iff in E as [E _]. unfold merge_canceled in E. rewrite andb_true_iff, bool_decide_eq_true in E. destruct E as [_ E].
    apply Hdead. right. by rewrite E.
  - split_and!; [done..| |done]. destruct (e_has_services (w_row w)) eqn:E; [done|]. destruct Hk as (Hd & Hr & _). by split_and!.
  - done.
  - done.
  - destruct (dispatches s agent); [|done]. simpl. assert (Hl : later w (with_sent w ((agent, maxGeneration) :: w_frames w) (w_cancels w))).
    { apply later_same; try done. simpl. set_solver. }
    split_and!; [|done| |done].
    + split; simpl; try done.
      * intros Hn. destruct (H2 Hn) as [Ha Hr]. split; [done|]. by apply (l_resolved _ _ Hl).
      * intros a g [[= -> ->]|Hin]%elem_of_cons; [|by eapply H3]. by apply Hk.
    + pose proof (later_holds _ _ _ Hl Hk) as (Hd & Hr & Hn). split_and!; [done| |done].
      intros g [->|Hg]%elem_of_cons; [|by apply Hr]. right. exists agent, maxGeneration. split; [by left|lia].
  - done.
  - split_and!; [by split|by split| |done]. by eapply later_holds; [|exact Hk].
  - done.
  - unfold MarkSupersedeEffectsDone. simpl. case_match; [by apply Hrow, core_columns|]. by rewrite with_row_same.
  - unfold MarkRunTerminalEffectsDone. destruct (_ && _ && _) eqn:E; [|simpl; by rewrite with_row_same].
    rewrite !andb_true_iff in E. destruct E as [[Hg E] _]. apply Z.eqb_eq in Hg. unfold owes_terminal in E. rewrite !andb_true_iff, negb_true_iff in E.
    destruct E as ((((_ & Ha) & _) & _) & _). simpl. set (r := set_term _ _ _ _).
    assert (Hl : later w (with_row w r)) by by apply later_same. split_and!; [|done| |done]; [|by eapply later_holds].
    split; simpl; try done. intros _. split; [done|]. apply (l_resolved _ _ Hl). destruct Hk as (_ & Hr & Hn). rewrite Hg.
    destruct Hp as [Hp|Hp]; [left; by apply Hn|by apply Hr].
  - unfold MarkMergeGroupCancelEffectsDone. simpl. case_match; [by apply Hrow, core_columns|]. by rewrite with_row_same.
Qed.

Definition inv (w : World) : Prop :=
  core w /\ forall i p, w_workers w !! i = Some p -> exists K, holds w K /\ sound K p.

(** A change of the run itself, with no frame sent. *)
Lemma env_ok w w' : w_workers w' = w_workers w -> core w' -> later w w' -> inv w -> inv w'.
Proof. intros Hw Hc Hl [_ Hk]. split; [done|]. rewrite Hw. intros i p Hi. destruct (Hk i p Hi) as (K & Hh & Hs). exists K. split; [by eapply later_holds|done]. Qed.
(** Worker [i] goes on with [p] after a call. *)
Lemma worker_ok w w' i p K : core w' -> later w w' -> w_workers w' = w_workers w -> holds w' K -> sound K p -> inv w ->
  inv (with_workers w' (<[i := p]> (w_workers w))).
Proof.
  intros Hc Hl Hw Hh Hs [_ Hk]. assert (Hl' : later w' (with_workers w' (<[i := p]> (w_workers w)))) by by apply later_same.
  split; [by destruct Hc; split|]. intros j q Hj. simpl in Hj. destruct (decide (j = i)) as [->|Hne].
  - rewrite lookup_insert_eq in Hj. injection Hj as <-. exists K. split; [by eapply later_holds|done].
  - rewrite lookup_insert_ne in Hj by done. destruct (Hk j q Hj) as (K' & Hh' & Hs'). exists K'. split; [|done].
    eapply later_holds; [exact Hl'|]. by eapply later_holds.
Qed.
(** The run ends, or comes back with a higher generation. *)
Lemma moved w w' : w_frames w' = w_frames w -> e_has_services (w_row w') = e_has_services (w_row w) ->
  (active (e_status (w_row w)) = true /\ e_generation (w_row w') = e_generation (w_row w) \/
   e_generation (w_row w') = (e_generation (w_row w) + 1)%Z) -> later w w'.
Proof.
  intros Hf Hh Hg. split; [|unfold resolved; by rewrite Hh, Hf|done]. unfold dead. intros g Hd. destruct Hg as [[Ha Hg]|Hg]; rewrite Hg.
  - destruct Hd as [Hd|[_ Hd]]; [by left|congruence].
  - left. destruct Hd as [Hd|[-> _]]; lia.
Qed.

Lemma step_inv w w' : step w w' -> inv w -> inv w'.
Proof.
  intros Hstep Hi. pose proof Hi as [Hc Hk]. pose proof Hc as [H1 H2 H3 H4 H6 H7 H5].
  destruct Hstep as [w i p Hp _|w i A o k s Hp|w i A o k s Hp|w i A o k Hp|w i|w t Ht|w Hq|w st reason Ha Hst|w by_ reason Ha|w reason Ha Hm|w Hr].
  - apply (worker_ok w w i p {| k_dead := []; k_resolved := []; k_none := false |}); try done; [split_and!; set_solver|by apply fires_sound].
  - destruct (Hk i _ Hp) as (K & Hh & Hpre & Hs). destruct (perform_ok s o w K Hc Hh Hpre) as (Hc' & Hl & Hh' & Hw). by eapply worker_ok.
  - destruct (Hk i _ Hp) as (K & Hh & Hpre & Hs). destruct (perform_ok s o w K Hc Hh Hpre) as (Hc' & Hl & Hh' & Hw).
    apply (worker_ok w _ i _ K); try done; [by eapply later_holds|]. specialize (Hs None). by destruct o.
  - destruct (Hk i _ Hp) as (K & Hh & Hpre & Hs). apply (worker_ok w w i _ K); try done. specialize (Hs None). by destruct o.
  - split; [by split|]. intros j q Hj. simpl in Hj. apply lookup_delete_Some in Hj as [_ Hj]. destruct (Hk j q Hj) as (K & Hh & Hs). exists K. split; [|done].
    eapply later_holds; [|exact Hh]. by apply later_same.
  - apply (env_ok w); [done|by split|by apply later_same|done].
  - assert (Hl : later w (with_row w (set_end (w_row w) StatusRunning (e_cancel_reason (w_row w)) (e_superseded_by (w_row w)) (e_generation (w_row w))))).
    { apply moved; [done..|]. left. by rewrite Hq. }
    apply (env_ok w); [done| |done|done]. rewrite Hq in *. split; simpl; try done.
    intros a g Hin. by apply Hl, (H3 a).
  - assert (Hl : later w (with_row w (end_run st reason (w_row w)))) by (apply moved; [done..|by left]).
    apply (env_ok w); [done| |done|done]. split; simpl; try done.
    + intros a g Hin. by apply Hl, (H3 a).
    + congruence.
  - set (w' := with_counts _ _ _ _). assert (Hl : later w w') by (apply moved; [done..|by left]).
    apply (env_ok w); [done| |done|done]. split; simpl; try done.
    + intros Hn. destruct (H2 Hn) as [Hn' _]. congruence.
    + intros a g Hin. by apply Hl, (H3 a).
    + destruct H4 as [Hn Hall]. split; [done|]. eapply Forall_impl; [exact Hall|]. simpl. lia.
    + lia.
    + intros _ Hin. destruct H4 as [_ Hall]. rewrite Forall_forall in Hall. specialize (Hall _ Hin). lia.
  - set (w' := with_row _ _). assert (Hl : later w w') by (apply moved; [done..|by left]).
    apply (env_ok w); [done| |done|done]. split; simpl; try done.
    + intros Hn. destruct (H2 Hn) as [Hn' _]. congruence.
    + intros a g Hin. by apply Hl, (H3 a).
  - set (w' := with_row _ _). assert (Hl : later w w') by (apply moved; [done..|by right]).
    apply (env_ok w); [done| |done|done]. split; simpl; try done.
    + intros a g Hin. by apply Hl, (H3 a).
Qed.
Lemma reachable_inv w : reachable w -> inv w.
Proof.
  intros (mg & services & t & Hsteps). apply (rtc_ind_r inv (fresh mg services t)) in Hsteps; [done| |intros ????; by eapply step_inv].
  split; [split; simpl; try done; [by intros a g ?%elem_of_nil|split; constructor]|]. done.
Qed.

(** *** The counter *)

Definition counts {A} (o : op A) : bool := match o with OpCountSuperseded => true | _ => false end.
(** The answer of a claim that is its event's first. *)
Definition firsts {A} (o : op A) : option A -> bool :=
  match o in op A return option A -> bool with
  | OpClaimSupersede => fun a => match a with Some (Some true) => true | _ => false end
  | _ => fun _ => false
  end.
(** Programs that never count, that are about to count once, and that will only once a
    claim has told them to. *)
Fixpoint quiet (p : prog) : Prop := match p with Done => True | Do o k => counts o = false /\ forall a, quiet (k a) end.
Definition counting (p : prog) : Prop := match p with Done => False | Do o k => counts o = true /\ forall a, quiet (k a) end.
Definition claiming (p : prog) : Prop :=
  match p with Done => False | Do o k => counts o = false /\ forall a, if firsts o a then counting (k a) else quiet (k a) end.
Definition counts_next (p : prog) : bool := match p with Done => false | Do o _ => counts o end.
Definition counter_ok (p : prog) : Prop := quiet p \/ counting p \/ claiming p.

Lemma quiet_next p : quiet p -> counts_next p = false. Proof. destruct p; [done|]. by intros []. Qed.
Lemma cancel_jobs_quiet reason l k : quiet k -> quiet (cancel_jobs reason l k).
Proof. intros Hk. by induction l as [|j l IH]; [|split]. Qed.
Lemma broadcast_quiet g targets delivered k : (forall b, quiet (k b)) -> quiet (broadcast g targets delivered k).
Proof. intros Hk. revert delivered. induction targets as [|t l IH]; intros d; [apply Hk|]. split; [done|]. intros a. apply IH. Qed.
Lemma cleanup_quiet g k : (forall b, quiet (k b)) -> quiet (cleanup_generation g k).
Proof.
  intros Hk. split; [done|]. intros [[|]|]; simpl; [|apply Hk|]; (split; [done|]); intros ran; (split; [done|]); intros connected;
    destruct (append_new _ _); try apply Hk; by apply broadcast_quiet.
Qed.
Lemma report_quiet checks st k : quiet k -> quiet (report_check checks st k).
Proof. unfold report_check. by destruct checks. Qed.
Lemma audit_quiet k : (forall b, quiet (k b)) -> quiet (emitSupersedeAudit k).
Proof. intros Hk. split; [done|]. intros [[i|]|]; [|apply Hk..]. split; [done|]. intros a. apply Hk. Qed.
Lemma fires_counter p : fires p -> counter_ok p.
Proof.
  intros (checks & [->|[->| ->]]).
  - left. split; [done|]. intros [[c|]|]; [|done..]. apply report_quiet, cleanup_quiet. by intros [].
  - right; right. split; [done|].
    assert (Hrest : forall jobs, quiet (cancel_jobs "superseded" (default [] jobs)
      (cleanupSupersededServices (fun cleaned => emitSupersedeAudit (fun audited =>
         report_check checks StatusCanceled (if cleaned && audited then Do OpMarkSupersede (fun _ => Done) else Done)))))).
    { intros jobs. apply cancel_jobs_quiet. assert (forall c, quiet (emitSupersedeAudit (fun audited =>
         report_check checks StatusCanceled (if c && audited then Do OpMarkSupersede (fun _ => Done) else Done)))) as Ha.
      { intros c. apply audit_quiet. intros b. apply report_quiet. by destruct c, b. }
      split; [done|]. intros [[g|]|]; [by apply cleanup_quiet|apply Ha..]. }
    intros [[[|]|]|]; simpl; [split; [done|]; intros _|..|done|done]; (split; [done|]); intros jobs; apply Hrest.
  - left. split; [done|]. intros [[f|]|]; [|done..]. split; [done|]. intros jobs. apply cancel_jobs_quiet. split; [done|].
    intros [[g|]|]; [|done..]. apply cleanup_quiet. by intros [].
Qed.
Lemma counter_next A (o : op A) k a : counter_ok (Do o k) ->
  counter_ok (k a) /\ (counts_next (k a) = true -> firsts o a = true).
Proof.
  intros [[_ H]|[[_ H]|[_ H]]].
  - split; [left; apply H|]. rewrite (quiet_next _ (H a)). done.
  - split; [left; apply H|]. rewrite (quiet_next _ (H a)). done.
  - specialize (H a). destruct (firsts o a); [by split; [right; left|]|]. split; [by left|]. rewrite (quiet_next _ H). done.
Qed.

(** The workers that are about to count. *)
Definition pending (ws : gmap nat prog) : nat := size (filter (fun ip : nat * prog => counts_next ip.2 = true) ws).
Lemma pending_new ws i p : ws !! i = None -> pending (<[i := p]> ws) = Nat.b2n (counts_next p) + pending ws.
Proof.
  intros Hi. unfold pending. destruct (counts_next p) eqn:E.
  - rewrite map_filter_insert_True by done. rewrite map_size_insert_None; [done|]. by apply map_lookup_filter_None_2; left.
  - rewrite map_filter_insert_False by (simpl; congruence). by rewrite delete_id.
Qed.
Lemma pending_old ws i p : ws !! i = Some p -> pending ws = Nat.b2n (counts_next p) + pending (delete i ws).
Proof. intros Hi. rewrite <- (insert_delete_id _ _ _ Hi) at 1. apply pending_new, lookup_delete_eq. Qed.
Lemma pending_move ws i p q : ws !! i = Some p ->
  pending (<[i := q]> ws) + Nat.b2n (counts_next p) = pending ws + Nat.b2n (counts_next q).
Proof.
  intros Hi. rewrite (pending_old _ _ _ Hi), <- insert_delete_eq, pending_new by apply lookup_delete_eq. lia.
Qed.

Lemma perform_counter s {A} (o : op A) w :
  w_counted (perform s o w).2 = w_counted w + Nat.b2n (counts o) /\
  length (w_told (perform s o w).2) = length (w_told w) + Nat.b2n (firsts o (perform s o w).1) /\
  w_workers (perform s o w).2 = w_workers w.
Proof.
  destruct o; cbn [perform counts firsts Nat.b2n]; rewrite ?Nat.add_0_r; try done;
    try (repeat case_match; simpl in *; simplify_eq; simpl; (split_and!; [lia|lia|done])).
Qed.

Definition counter_inv (w : World) : Prop :=
  (forall i p, w_workers w !! i = Some p -> counter_ok p) /\ w_counted w + pending (w_workers w) <= length (w_told w).
Lemma counter_worker w w' i p q : w_workers w !! i = Some p -> w_workers w' = <[i := q]> (w_workers w) ->
  counter_ok q -> w_counted w' + Nat.b2n (counts_next q) + length (w_told w) <= w_counted w + Nat.b2n (counts_next p) + length (w_told w') ->
  counter_inv w -> counter_inv w'.
Proof.
  intros Hp Hw Hq Hle [Hk Hc]. pose proof (pending_move _ _ _ q Hp) as Hm. split; [|rewrite Hw; lia].
  rewrite Hw. intros j r [[<- <-]|[_ Hj]]%lookup_insert_Some; [done|by eapply Hk].
Qed.
Lemma step_counter w w' : step w w' -> counter_inv w -> counter_inv w'.
Proof.
  intros Hstep Hi. pose proof Hi as [Hk Hc].
  destruct Hstep as [w i p Hp Hn|w i A o k s Hp|w i A o k s Hp|w i A o k Hp|w i|w t Ht|w Hq|w st reason Ha Hst|w by_ reason Ha|w reason Ha Hm|w Hr]; try done.
  - split; simpl.
    + intros j q [[<- <-]|[_ Hj]]%lookup_insert_Some; [by apply fires_counter|by eapply Hk].
    + rewrite pending_new by done. destruct (fires_counter p Hp) as [Hq|[Hq|Hq]]; [rewrite (quiet_next _ Hq); simpl; lia| |].
      * destruct Hp as (checks & [->|[->| ->]]); by destruct Hq.
      * destruct p; [done|]. destruct Hq as [Hq _]. simpl. rewrite Hq. simpl. lia.
  - destruct (perform_counter s o w) as (E1 & E2 & E3). destruct (counter_next _ o k (perform s o w).1 (Hk _ _ Hp)) as [Hq Hf].
    eapply counter_worker; [exact Hp|done|exact Hq| |done]. cbn [with_workers w_counted w_told counts_next].
    rewrite E1, E2. destruct (counts_next (k _)); [rewrite Hf by done|]; simpl; lia.
  - destruct (perform_counter s o w) as (E1 & E2 & E3). destruct (counter_next _ o k None (Hk _ _ Hp)) as [Hq Hf].
    eapply counter_worker; [exact Hp|done|exact Hq| |done]. cbn [with_workers w_counted w_told counts_next].
    rewrite E1, E2. assert (firsts o None = false) as E by by destruct o. rewrite E in Hf.
    destruct (counts_next (k None)); [by discriminate Hf|]. simpl. lia.
  - destruct (counter_next _ o k None (Hk _ _ Hp)) as [Hq Hf].
    eapply counter_worker; [exact Hp|done|exact Hq| |done]. cbn [with_workers w_counted w_told counts_next].
    assert (firsts o None = false) as E by by destruct o. rewrite E in Hf.
    destruct (counts_next (k None)); [by discriminate Hf|]. simpl. lia.
  - split; simpl; [intros j q [_ Hj]%lookup_delete_Some; by eapply Hk|].
    destruct (w_workers w !! i) as [p|] eqn:E; [rewrite (pending_old _ _ _ E) in Hc; lia|by rewrite delete_id].
Qed.
Lemma reachable_counter w : reachable w -> counter_inv w.
Proof.
  intros (mg & services & t & Hsteps). apply (rtc_ind_r counter_inv (fresh mg services t)) in Hsteps; [done|by split|].
  intros ????. by eapply step_counter.
Qed.

(** C17: Whatever workers, crashes, lost replies, reruns and new endings interleave: no
    cleanup that was ever handed to an agent covers the generation of a run that is
    open; the generic outbox is marked done only when the services of the present
    generation had their cleanup, or there are none; and the counter of superseded runs
    counts no event twice: each supersede event is claimed as the first at most once, and
    every count belongs to a claim of its own that was told so. *)
Theorem outboxes_safe (w : World) : reachable w ->
  (forall a g, (a, g) ∈ w_frames w -> (g < e_generation (w_row w))%Z \/
     (g = e_generation (w_row w) /\ active (e_status (w_row w)) = false)) /\
  (term_at (w_row w) <> None -> active (e_status (w_row w)) = false /\
     (e_has_services (w_row w) = false \/ exists a g, (a, g) ∈ w_frames w /\ (e_generation (w_row w) <= g)%Z)) /\
  NoDup (w_told w) /\ Forall (fun e => 0 < e <= w_events w) (w_told w) /\ w_counted w <= length (w_told w).
Proof.
  intros Hr. pose proof (reachable_counter w Hr) as [_ Hc]. apply reachable_inv in Hr as [[_ H2 H3 [H4 H5] _ _ _] _].
  split_and!; [exact H3|exact H2|done|done|lia].
Qed.

(** ** An outbox drains *)

Lemma play_cancel s reason l k w : exists cs, play s (cancel_jobs reason l k) w = play s k (with_sent w (w_frames w) cs).
Proof.
  revert w. induction l as [|j l IH]; intros w; [exists (w_cancels w); by destruct w|].
  cbn [cancel_jobs play perform]. destruct (dispatches s _); [|apply IH]. destruct (IH (with_sent w (w_frames w) (j :: w_cancels w))) as [cs Hc].
  exists cs. exact Hc.
Qed.
Lemma play_broadcast s g targets d k w : exists fs, play s (broadcast g targets d k) w = play s (k (d || existsb (dispatches s) targets)) (with_sent w (fs ++ w_frames w) (w_cancels w))
  /\ (existsb (dispatches s) targets = true -> exists a, (a, g) ∈ fs).
Proof.
  revert d w. induction targets as [|t targets IH]; intros d w.
  { exists []. rewrite orb_false_r. split; [by destruct w|done]. }
  cbn [broadcast play perform existsb]. destruct (dispatches s t).
  - destruct (IH true (with_sent w ((t, g) :: w_frames w) (w_cancels w))) as (fs & E & _). exists (fs ++ [(t, g)]). rewrite <- (assoc_L (++)).
    rewrite orb_true_r. split; [exact E|]. intros _. exists t. set_solver.
  - destruct (IH d w) as (fs & E & Hf). exists fs. by split.
Qed.
(** Some agent takes the cleanup, or none has to. *)
Definition deliverable (s : Surroundings) (services : bool) : bool :=
  negb services || existsb (dispatches s) (append_new (append_new [] (agents_for_run s)) (kubernetes_agents s)).
Lemma deliverable_iff s services : deliverable s services = true <->
  services = false \/ exists a, (a ∈ agents_for_run s \/ a ∈ kubernetes_agents s) /\ dispatches s a = true.
Proof.
  unfold deliverable. rewrite orb_true_iff, negb_true_iff, existsb_exists. setoid_rewrite <- list_elem_of_In.
  setoid_rewrite elem_of_append_new. setoid_rewrite elem_of_append_new. set_solver.
Qed.
Lemma play_cleanup s g k w : exists fs,
  play s (cleanup_generation g k) w = play s (k (deliverable s (e_has_services (w_row w)))) (with_sent w (fs ++ w_frames w) (w_cancels w)) /\
  (deliverable s (e_has_services (w_row w)) = true -> e_has_services (w_row w) = true -> exists a, (a, g) ∈ fs).
Proof.
  unfold cleanup_generation, deliverable. cbn [play perform]. destruct (e_has_services (w_row w)); cbn [from_option id negb orb].
  - cbn [play perform from_option id]. set (targets := append_new _ _). destruct targets as [|t targets]; [exists []; split; [by destruct w|by destruct w]|].
    destruct (play_broadcast s g (t :: targets) false k w) as (fs & E & Hf). exists fs. split; [exact E|]. auto.
  - exists []. split; [by destruct w|done].
Qed.

(** The row owes an outbox its effects, whoever may hold the claim. *)
Definition owes_supersede (r : EffectRow) : bool := negb (is_none (e_superseded_by r)) && is_none (sup_at r).
Definition owes_merge_group (r : EffectRow) : bool := merge_canceled r && is_none (mg_at r).

Definition drained (s : Surroundings) (w w' : World) (at_ : EffectRow -> option Time) (owes : EffectRow -> bool) : Prop :=
  if deliverable s (e_has_services (w_row w))
  then at_ (w_row w') = Some (w_now w) /\ owes (w_row w') = false /\
       (e_has_services (w_row w) = true -> exists a, (a, e_generation (w_row w)) ∈ w_frames w')
  else owes (w_row w') = true.

Lemma play_report s checks st k w : play s (report_check checks st k) w = play s k w.
Proof. by destruct checks. Qed.
Lemma drain_terminal s checks w : owes_terminal (w_row w) = true -> claim_free (w_now w) (term_claimed (w_row w)) = true ->
  drained s w (play s (fireRunTerminalEffects checks) w) term_at owes_terminal.
Proof.
  intros Ho Hc. unfold drained. cbn [fireRunTerminalEffects play perform]. unfold ClaimRunTerminalEffects. rewrite Ho, Hc. cbn [andb].
  rewrite play_report. unfold cleanupTerminalRunServices. set (w1 := with_row w _). cbn [Claim_Status ServiceGeneration].
  destruct (play_cleanup s (e_generation (w_row w)) (fun ok => if ok then Do (OpMarkTerminal (e_generation (w_row w))) (fun _ => Done) else Done) w1) as (fs & -> & Hf).
  change (e_has_services (w_row w1)) with (e_has_services (w_row w)) in *. destruct (deliverable _ _) eqn:E.
  - cbn [play perform]. unfold MarkRunTerminalEffectsDone. cbn [w_row with_sent]. change (owes_terminal (w_row w1)) with (owes_terminal (w_row w)).
    rewrite Ho. cbn [w_row w1 with_row e_generation set_term term_claimed is_none negb andb]. rewrite Z.eqb_refl. cbn. split; [done|].
    split; [done|]. intros Hs. destruct (Hf eq_refl Hs) as [a Ha]. exists a. set_solver.
  - exact Ho.
Qed.
Lemma play_supersede_rest s w k : exists cs,
  play s (Do OpListRunningCancelRequested (fun jobs => cancel_jobs "superseded" (default [] jobs) k)) w = play s k (with_sent w (w_frames w) cs).
Proof. cbn [play perform from_option id]. apply play_cancel. Qed.
Lemma drain_supersede s checks w : owes_supersede (w_row w) = true -> claim_free (w_now w) (sup_claimed (w_row w)) = true ->
  let w' := play s (fireSupersedeEffects checks) w in w_audit w' <> None /\ drained s w w' sup_at owes_supersede.
Proof.
  intros Ho Hc. unfold drained, owes_supersede in *. pose proof Ho as [Hb Ha]%andb_true_iff. apply negb_true_iff in Hb.
  cbn [fireSupersedeEffects play perform]. unfold ClaimSupersedeEffects. rewrite Ho, Hc. cbn [andb].
  set (w0 := with_counts _ _ _ _).
  set (tail := fun cleaned => emitSupersedeAudit (fun audited => report_check checks StatusCanceled (if cleaned && audited then Do OpMarkSupersede (fun _ => Done) else Done))).
  set (rest := Do OpListRunningCancelRequested _).
  assert (Hgo : exists n cs, play s (if is_none (sup_claimed (w_row w)) then Do OpCountSuperseded (fun _ => rest) else rest) w0
            = play s (cleanupSupersededServices tail) (with_sent (with_counts w0 n (w_told w0) (w_events w0)) (w_frames w) cs)).
  { destruct (is_none (sup_claimed (w_row w))).
    - destruct (play_supersede_rest s (with_counts w0 (S (w_counted w0)) (w_told w0) (w_events w0)) (cleanupSupersededServices tail)) as [cs E].
      exists (S (w_counted w0)), cs. exact E.
    - destruct (play_supersede_rest s w0 (cleanupSupersededServices tail)) as [cs E]. exists (w_counted w0), cs. exact E. }
  destruct Hgo as (n & cs & Hgo). cbv zeta. rewrite Hgo. set (w1 := with_sent _ _ _).
  unfold cleanupSupersededServices. cbn [play perform]. unfold GetSupersededRunGeneration.
  change (e_superseded_by (w_row w1)) with (e_superseded_by (w_row w)). rewrite Hb.
  destruct (play_cleanup s (e_generation (w_row w1)) tail w1) as (fs & -> & Hf). change (e_has_services (w_row w1)) with (e_has_services (w_row w)) in *.
  set (w2 := with_sent w1 _ _). unfold tail, emitSupersedeAudit. cbn [play perform].
  change (e_superseded_by (w_row w2)) with (e_superseded_by (w_row w)). destruct (e_superseded_by (w_row w)) as [by_|] eqn:Eb; [|done].
  cbn [fmap option_fmap option_map play perform negb is_none]. rewrite play_report.
  assert (Haud : w_audit (with_audit w2 {| BySupersedingRunID := by_ |}) <> None) by (simpl; by destruct (w_audit w)).
  destruct (deliverable _ _); cbn [andb play perform].
  - split; [exact Haud|]. unfold MarkSupersedeEffectsDone. cbn [w_row with_row with_audit]. change (e_superseded_by (w_row w2)) with (e_superseded_by (w_row w)).
    rewrite Eb. cbn. split; [done|]. split; [by rewrite andb_false_r|]. intros Hs. destruct (Hf eq_refl Hs) as [a Hin]. exists a. set_solver.
  - split; [exact Haud|]. cbn. by rewrite Eb, Ha.
Qed.
Lemma drain_merge_group s w : owes_merge_group (w_row w) = true -> claim_free (w_now w) (mg_claimed (w_row w)) = true ->
  drained s w (play s fireMergeGroupCancelEffects w) mg_at owes_merge_group.
Proof.
  intros Ho Hc. unfold drained, owes_merge_group in *. cbn [fireMergeGroupCancelEffects play perform]. unfold ClaimMergeGroupCancelEffects.
  rewrite Ho, Hc. cbn [andb play perform from_option id]. set (w0 := with_row w _).
  destruct (play_cancel s "merge_group destroyed" (running_cancel_requested s)
              (cleanupMergeGroupCanceledServices (fun cleaned => if cleaned then Do OpMarkMergeGroup (fun _ => Done) else Done)) w0) as [cs ->].
  set (w1 := with_sent _ _ _). unfold cleanupMergeGroupCanceledServices. cbn [play perform]. unfold MergeGroupCanceledRunServiceGeneration.
  change (merge_canceled (w_row w1) && is_none (mg_at (w_row w1))) with (merge_canceled (w_row w) && is_none (mg_at (w_row w))). rewrite Ho.
  destruct (play_cleanup s (e_generation (w_row w1)) (fun cleaned => if cleaned then Do OpMarkMergeGroup (fun _ => Done) else Done) w1) as (fs & -> & Hf).
  change (e_has_services (w_row w1)) with (e_has_services (w_row w)) in *. apply andb_true_iff in Ho as [Hm Ha].
  destruct (deliverable _ _); cbn [play perform].
  - unfold MarkMergeGroupCancelEffectsDone. cbn [w_row with_row with_sent]. change (merge_canceled (w_row w1)) with (merge_canceled (w_row w)).
    rewrite Hm. cbn. split; [done|]. split; [by rewrite andb_false_r|]. intros Hs. destruct (Hf eq_refl Hs) as [a Hin]. exists a. set_solver.
  - change (merge_canceled (w_row w) && is_none (mg_at (w_row w)) = true). by rewrite Hm, Ha.
Qed.

(** C18: An outbox entry is never stuck behind a claim: once its last claim is older than
    the lease, the replay lists it, and a worker that then runs with a working store
    marks it done exactly when the run has no services or some agent takes the cleanup,
    which is then handed over for the present generation; a superseded run has its
    audit row by then. *)
Theorem outboxes_drain (s : Surroundings) (checks : bool) (w : World) :
  (owes_terminal (w_row w) = true -> claim_free (w_now w) (term_claimed (w_row w)) = true ->
     pending_terminal (w_now w) (w_row w) = true /\ drained s w (play s (fireRunTerminalEffects checks) w) term_at owes_terminal) /\
  (owes_supersede (w_row w) = true -> claim_free (w_now w) (sup_claimed (w_row w)) = true ->
     pending_supersede (w_now w) (w_row w) = true /\ w_audit (play s (fireSupersedeEffects checks) w) <> None /\
     drained s w (play s (fireSupersedeEffects checks) w) sup_at owes_supersede) /\
  (owes_merge_group (w_row w) = true -> claim_free (w_now w) (mg_claimed (w_row w)) = true ->
     pending_merge_group (w_now w) (w_row w) = true /\ drained s w (play s fireMergeGroupCancelEffects w) mg_at owes_merge_group).
Proof.
  split_and!; intros Ho Hc.
  - split; [|by apply drain_terminal]. unfold pending_terminal. by rewrite Ho.
  - split; [|by apply drain_supersede]. unfold pending_supersede. unfold owes_supersede in Ho. by rewrite Ho.
  - split; [|by apply drain_merge_group]. unfold pending_merge_group. unfold owes_merge_group in Ho. by rewrite Ho.
Qed.

(** ** Executions *)

(** The next call of worker [i]. *)
Definition call (s : Surroundings) (i : nat) (w : World) : World :=
  match w_workers w !! i with
  | Some (Do o k) => with_workers (perform s o w).2 (<[i := k (perform s o w).1]> (w_workers w))
  | _ => w
  end.
Lemma call_steps s i w : rtc step w (call s i w).
Proof. unfold call. destruct (w_workers w !! i) as [[|A o k]|] eqn:E; [done| |done]. apply rtc_once. by apply step_call. Qed.
Lemma calls_steps s i n w : rtc step w (Nat.iter n (call s i) w).
Proof. induction n as [|n IH]; [done|]. etrans; [exact IH|]. apply call_steps. Qed.
Definition one_agent : Surroundings :=
  {| running_cancel_requested := []; agents_for_run := [5%N]; kubernetes_agents := [5%N]; dispatches := fun _ => true |}.
Definition spawn (i : nat) (p : prog) (w : World) : World := with_workers w (<[i := p]> (w_workers w)).
Definition superseded (by_ : uuid) (w : World) : World :=
  with_counts (with_row w (SupersedeRun by_ "superseded" (w_row w))) (w_counted w) (w_told w) (S (w_events w)).

(** The first worker has handed over the cleanup and is about to mark the row. *)
Definition before_mark : World := Nat.iter 10 (call one_agent 0) (spawn 0 (fireSupersedeEffects false) (superseded 8 (fresh false true 0%Z))).
(** A rerun revives the run, a newer run supersedes it again, the mark lands. *)
Definition after_mark : World :=
  let w := with_row before_mark (revive (w_row before_mark)) in
  let w := call one_agent 0 (superseded 9 w) in with_workers w (delete 0 (w_workers w)).
Lemma after_mark_reachable : reachable after_mark.
Proof.
  exists false, true, 0%Z. unfold after_mark. cbv zeta.
  eapply rtc_r; [|apply step_die]. etrans; [|apply call_steps].
  eapply rtc_r; [|apply step_supersede; vm_compute; reflexivity]. eapply rtc_r; [|apply step_revive; vm_compute; reflexivity].
  etrans; [|apply calls_steps]. eapply rtc_r; [|apply step_fire; [exists false; by right; left|vm_compute; reflexivity]].
  apply rtc_once. by apply step_supersede.
Qed.

(** A superseded run can lose its effects for good.  Marking the effects done does not
    say which supersede event they belong to: a worker of the first event that marks
    after a rerun and a second supersede closes the second one, whose pods were never
    cleaned, which no worker serves and which no claim of any outbox can take at any
    later time. *)
Theorem superseded_effects_lost : exists w, reachable w /\
  e_superseded_by (w_row w) <> None /\ e_has_services (w_row w) = true /\ w_workers w = ∅ /\ w_events w = 2 /\ length (w_told w) = 1 /\
  (forall a g, (a, g) ∈ w_frames w -> (g < e_generation (w_row w))%Z) /\
  forall t, ClaimSupersedeEffects t (w_row w) = None /\ pending_supersede t (w_row w) = false /\
    ClaimRunTerminalEffects t (w_row w) = None /\ ClaimMergeGroupCancelEffects t (w_row w) = None.
Proof.
  exists after_mark. split; [apply after_mark_reachable|].
  assert (Hf : w_frames after_mark = [(5%N, 0%Z)]) by (vm_compute; reflexivity).
  assert (Hr : w_row after_mark = {| e_status := StatusCanceled; e_merge_group := false; e_has_services := true;
    e_cancel_reason := "superseded"; e_superseded_by := Some 9%N; e_generation := 1%Z; sup_claimed := None; sup_at := Some 0%Z;
    mg_claimed := None; mg_at := None; term_required := false; term_claimed := None; term_at := None |}) by (vm_compute; reflexivity).
  rewrite Hf, Hr. clear Hf Hr. do 2 (split; [done|]). split; [apply map_eq; intros [|i]; vm_compute; reflexivity|].
  split; [vm_compute; reflexivity|]. split; [vm_compute; reflexivity|]. split; [|intros t; split_and!; reflexivity].
  intros a g [E|Hn]%elem_of_cons; [injection E as -> ->; reflexivity|by apply elem_of_nil in Hn].
Qed.

(** A run ends; its worker dies before the cleanup; the lease runs out. *)
Definition failed_run : World := with_row (fresh false true 0%Z) (end_run StatusFailed "" (w_row (fresh false true 0%Z))).
Definition orphaned : World :=
  let w := call one_agent 0 (spawn 0 (fireRunTerminalEffects true) failed_run) in
  with_now w (3 * Minute)%Z.
Definition recovered : World := Nat.iter 7 (call one_agent 1) (spawn 1 (fireRunTerminalEffects true) orphaned).
Lemma orphaned_reachable : reachable orphaned.
Proof.
  exists false, true, 0%Z. unfold orphaned. cbv zeta. eapply rtc_r; [|apply step_time; vm_compute; discriminate].
  etrans; [|apply call_steps].
  eapply rtc_r; [|apply step_fire; [exists true; by left|reflexivity]].
  apply rtc_once. by apply step_end.
Qed.
Lemma recovered_reachable : reachable recovered.
Proof.
  destruct orphaned_reachable as (mg & services & t & Hs). exists mg, services, t. etrans; [exact Hs|].
  eapply rtc_l; [|apply calls_steps]. apply step_fire; [exists true; by left|vm_compute; reflexivity].
Qed.
Lemma outboxes_safe_witness :
  reachable recovered /\ term_at (w_row recovered) = Some (3 * Minute)%Z /\
  (term_at (w_row recovered) <> None -> active (e_status (w_row recovered)) = false /\
     (e_has_services (w_row recovered) = false \/ exists a g, (a, g) ∈ w_frames recovered /\ (e_generation (w_row recovered) <= g)%Z)).
Proof.
  split; [exact recovered_reachable|]. split; [vm_compute; reflexivity|].
  destruct (outboxes_safe recovered recovered_reachable) as (_ & H & _). exact H.
Defined.
Lemma outboxes_drain_witness :
  claim_free (w_now orphaned) (term_claimed (w_row orphaned)) = true /\
  drained one_agent orphaned (play one_agent (fireRunTerminalEffects true) orphaned) term_at owes_terminal.
Proof.
  assert (Hc : claim_free (w_now orphaned) (term_claimed (w_row orphaned)) = true) by (vm_compute; reflexivity). split; [exact Hc|].
  destruct (outboxes_drain one_agent true orphaned) as (H & _ & _). apply H; [vm_compute; reflexivity|exact Hc].
Defined.
