(* ===== verification/LogBatcher.v ===== *)
(** [server/internal/grpcsrv/log_batcher.go]: the buffer between the receive loop of an
    agent's stream and the log table.  Two goroutines: the receive loop ([producer])
    pushes lines and barriers into a bounded channel, the flusher ([run]) batches,
    groups and writes them.  A step of the model is what one goroutine does between two
    points at which the other may act. *)

From S2P Require Import Prelude GoStrings Domain.

(** ** Sizing *)

Record logBatcherConfig := { batchSize : Z; flushEvery : Z; maxLines : Z; maxInflightBytes : Z }.
Definition defaultLogBatchSize : Z := 100.
Definition defaultLogFlushEvery : Z := 200000000.                     (* 200 ms *)
Definition defaultLogMaxLines : Z := 4096.
Definition defaultLogMaxInflightBytes : Z := Z.shiftl 16 20.
Definition logMaxLinesCeiling : Z := 65536.
Definition logMinInflightBytes : Z := Z.shiftl 1 20.
Definition logMaxInflightBytesCeiling : Z := Z.shiftl 512 20.
Definition defaultLogBatcherConfig : logBatcherConfig := {|
  batchSize := defaultLogBatchSize; flushEvery := defaultLogFlushEvery; maxLines := defaultLogMaxLines;
  maxInflightBytes := defaultLogMaxInflightBytes |}.
Definition clamped (c : logBatcherConfig) : logBatcherConfig :=
  let size := if (batchSize c <=? 0)%Z then defaultLogBatchSize else batchSize c in
  let every := if (flushEvery c <=? 0)%Z then defaultLogFlushEvery else flushEvery c in
  let lines := if (maxLines c <? size)%Z then size else maxLines c in
  let lines := if (logMaxLinesCeiling <? lines)%Z then logMaxLinesCeiling else lines in
  let bytes := if (maxInflightBytes c <? logMinInflightBytes)%Z then logMinInflightBytes else maxInflightBytes c in
  let bytes := if (logMaxInflightBytesCeiling <? bytes)%Z then logMaxInflightBytesCeiling else bytes in
  {| batchSize := size; flushEvery := every; maxLines := lines; maxInflightBytes := bytes |}.

Lemma clamped_bounds c : let d := clamped c in
  (0 < batchSize d)%Z /\ (0 < maxLines d <= logMaxLinesCeiling)%Z /\
  (logMinInflightBytes <= maxInflightBytes d <= logMaxInflightBytesCeiling)%Z.
Proof.
  unfold clamped. cbv zeta. cbn [batchSize maxLines maxInflightBytes].
  assert (0 < logMinInflightBytes <= logMaxInflightBytesCeiling)%Z by done. unfold defaultLogBatchSize, logMaxLinesCeiling.
  repeat match goal with |- context [(?a <=? ?b)%Z] => destruct (Z.leb_spec a b) | |- context [(?a <? ?b)%Z] => destruct (Z.ltb_spec a b) end; lia.
Qed.

(** ** The two goroutines *)

Record LogLine := { JobRunID : N; Seq : Z; Text : string }.
Definition lineBytes (l : LogLine) : Z := Z.of_nat (slen (Text l)).
(** [pendingLine]: a line with the attempt it was received under, or a barrier.  The
    number of a barrier is how many lines were in the channel before it, ever. *)
Inductive pendingLine :=
| Pending (line : LogLine) (attempt : Z)
| AfterFlushBarrier (fn : nat) (behind : nat).
Definition flushKey : Type := N * Z.
Definition key_of (l : LogLine * Z) : flushKey := (JobRunID l.1, l.2).

(** Where [Push], [AfterFlush] and [Stop] are. *)
Inductive producer_at :=
| ReadyToPush
| CheckBytes (l : LogLine) (attempt : Z)   (* past the discard flag *)
| Offer (e : pendingLine)                  (* the first [select] *)
| OfferFor50ms (e : pendingLine)           (* the second one *)
| AddBytes (l : LogLine)                   (* sent; [inflightBytes.Add] is next *)
| Closed.
Inductive then_at := ThenLoop | ThenBarrier (fn behind : nat) | ThenReturn.
Inductive flusher_at :=
| Selecting
| Inserting (groups : list (flushKey * list LogLine)) (next : then_at)
| Flushed (next : then_at)
| Returned.
#[export] Instance flusher_returned_dec f : Decision (f = Returned).
Proof. destruct f; first [by left | by right]. Defined.
Inductive insert_result := Inserted | SnapshotStale | InsertFailed.

Record Batcher := {
  b_in : list pendingLine; b_closed : bool; b_canceled : bool; b_discard : bool; b_inflight : Z;
  b_producer : producer_at;
  b_flusher : flusher_at; b_batch : list (LogLine * Z);
  dropBackpressure : nat; dropBytesFull : nat; dropSnapshotStale : nat; dropFlushFailed : nat; sessionDiscarded : nat;
  sink : list (LogLine * Z);                 (* what [BulkInsertLogLinesForJob] has written, in order *)
  ran : list (nat * nat * nat);              (* callbacks: which, lines before it, lines that had left *)
  pushed : list (LogLine * Z);               (* calls of [Push], in order *)
  gone : list (LogLine * Z);                 (* lines that have left the buffer, in order *)
}.

Definition with_producer (b : Batcher) (p : producer_at) : Batcher := {|
  b_in := b_in b; b_closed := b_closed b; b_canceled := b_canceled b; b_discard := b_discard b; b_inflight := b_inflight b; b_producer := p;
  b_flusher := b_flusher b; b_batch := b_batch b; dropBackpressure := dropBackpressure b; dropBytesFull := dropBytesFull b;
  dropSnapshotStale := dropSnapshotStale b; dropFlushFailed := dropFlushFailed b; sessionDiscarded := sessionDiscarded b;
  sink := sink b; ran := ran b; pushed := pushed b; gone := gone b |}.
Definition with_in (b : Batcher) (l : list pendingLine) : Batcher := {|
  b_in := l; b_closed := b_closed b; b_canceled := b_canceled b; b_discard := b_discard b; b_inflight := b_inflight b; b_producer := b_producer b;
  b_flusher := b_flusher b; b_batch := b_batch b; dropBackpressure := dropBackpressure b; dropBytesFull := dropBytesFull b;
  dropSnapshotStale := dropSnapshotStale b; dropFlushFailed := dropFlushFailed b; sessionDiscarded := sessionDiscarded b;
  sink := sink b; ran := ran b; pushed := pushed b; gone := gone b |}.
Definition with_flags (b : Batcher) (closed canceled discard : bool) (inflight : Z) : Batcher := {|
  b_in := b_in b; b_closed := closed; b_canceled := canceled; b_discard := discard; b_inflight := inflight; b_producer := b_producer b;
  b_flusher := b_flusher b; b_batch := b_batch b; dropBackpressure := dropBackpressure b; dropBytesFull := dropBytesFull b;
  dropSnapshotStale := dropSnapshotStale b; dropFlushFailed := dropFlushFailed b; sessionDiscarded := sessionDiscarded b;
  sink := sink b; ran := ran b; pushed := pushed b; gone := gone b |}.
Definition with_counts (b : Batcher) (bp bytes stale failed disc : nat) : Batcher := {|
  b_in := b_in b; b_closed := b_closed b; b_canceled := b_canceled b; b_discard := b_discard b; b_inflight := b_inflight b; b_producer := b_producer b;
  b_flusher := b_flusher b; b_batch := b_batch b; dropBackpressure := bp; dropBytesFull := bytes;
  dropSnapshotStale := stale; dropFlushFailed := failed; sessionDiscarded := disc;
  sink := sink b; ran := ran b; pushed := pushed b; gone := gone b |}.
Definition with_flusher (b : Batcher) (f : flusher_at) (batch : list (LogLine * Z)) : Batcher := {|
  b_in := b_in b; b_closed := b_closed b; b_canceled := b_canceled b; b_discard := b_discard b; b_inflight := b_inflight b; b_producer := b_producer b;
  b_flusher := f; b_batch := batch; dropBackpressure := dropBackpressure b; dropBytesFull := dropBytesFull b;
  dropSnapshotStale := dropSnapshotStale b; dropFlushFailed := dropFlushFailed b; sessionDiscarded := sessionDiscarded b;
  sink := sink b; ran := ran b; pushed := pushed b; gone := gone b |}.
Definition with_out (b : Batcher) (s : list (LogLine * Z)) (r : list (nat * nat * nat)) (calls g : list (LogLine * Z)) : Batcher := {|
  b_in := b_in b; b_closed := b_closed b; b_canceled := b_canceled b; b_discard := b_discard b; b_inflight := b_inflight b; b_producer := b_producer b;
  b_flusher := b_flusher b; b_batch := b_batch b; dropBackpressure := dropBackpressure b; dropBytesFull := dropBytesFull b;
  dropSnapshotStale := dropSnapshotStale b; dropFlushFailed := dropFlushFailed b; sessionDiscarded := sessionDiscarded b;
  sink := s; ran := r; pushed := calls; gone := g |}.

(** [flush] groups its batch by job and attempt. *)
Fixpoint add_to (k : flushKey) (l : LogLine) (gs : list (flushKey * list LogLine)) : list (flushKey * list LogLine) :=
  match gs with
  | [] => [(k, [l])]
  | (k', ls) :: gs => if decide (k' = k) then (k', ls ++ [l]) :: gs else (k', ls) :: add_to k l gs
  end.
Definition group_batch (batch : list (LogLine * Z)) : list (flushKey * list LogLine) :=
  foldl (fun gs e => add_to (key_of e) e.1 gs) [] batch.

Definition lines (l : list pendingLine) : list (LogLine * Z) :=
  omap (fun e => match e with Pending l a => Some (l, a) | AfterFlushBarrier _ _ => None end) l.
Definition bytes_of (l : list (LogLine * Z)) : Z := foldr (fun e n => lineBytes e.1 + n)%Z 0%Z l.

(** The deferred release, and [batch = batch[:0]]. *)
Definition release (b : Batcher) (next : then_at) : Batcher :=
  with_flusher (with_flags (with_out b (sink b) (ran b) (pushed b) (gone b ++ b_batch b))
                  (b_closed b) (b_canceled b) (b_discard b) (b_inflight b - bytes_of (b_batch b))%Z) (Flushed next) [].
Definition flush (b : Batcher) (next : then_at) : Batcher :=
  match b_batch b with
  | [] => with_flusher b (Flushed next) []
  | _ =>
      if b_discard b
      then release (with_counts b (dropBackpressure b) (dropBytesFull b) (dropSnapshotStale b) (dropFlushFailed b)
                      (sessionDiscarded b + length (b_batch b))) next
      else with_flusher b (Inserting (group_batch (b_batch b)) next) (b_batch b)
  end.
Definition inserted (b : Batcher) (g : flushKey * list LogLine) (r : insert_result) : Batcher :=
  let n := length g.2 in
  match r with
  | Inserted => with_out b (sink b ++ ((fun l => (l, g.1.2)) <$> g.2)) (ran b) (pushed b) (gone b)
  | SnapshotStale => with_counts b (dropBackpressure b) (dropBytesFull b) (dropSnapshotStale b + n) (dropFlushFailed b) (sessionDiscarded b)
  | InsertFailed => with_counts b (dropBackpressure b) (dropBytesFull b) (dropSnapshotStale b) (dropFlushFailed b + n) (sessionDiscarded b)
  end.

(** What [Push] and [AfterFlush] send; a barrier is told how many lines are before it. *)
Definition sent (b : Batcher) (e : pendingLine) : Batcher :=
  match e with
  | Pending l a => with_producer (with_in b (b_in b ++ [e])) (AddBytes l)
  | AfterFlushBarrier fn _ =>
      with_producer (with_in b (b_in b ++ [AfterFlushBarrier fn (length (gone b) + length (b_batch b) + length (lines (b_in b)))])) ReadyToPush
  end.
Definition timed_out (b : Batcher) (e : pendingLine) : Batcher :=
  match e with
  | Pending _ _ => with_producer (with_counts b (S (dropBackpressure b)) (dropBytesFull b) (dropSnapshotStale b) (dropFlushFailed b) (sessionDiscarded b)) ReadyToPush
  | AfterFlushBarrier _ _ => with_producer b ReadyToPush
  end.

Section Steps.
Context (c : logBatcherConfig).
Definition room (b : Batcher) : bool := (Z.of_nat (length (b_in b)) <? maxLines c)%Z.

(** [Push] up to the discard flag, and its test of the byte bound. *)
Definition Push (b : Batcher) (l : LogLine) (attempt : Z) : Batcher :=
  let b := with_out b (sink b) (ran b) (pushed b ++ [(l, attempt)]) (gone b) in
  if b_discard b
  then with_counts b (dropBackpressure b) (dropBytesFull b) (dropSnapshotStale b) (dropFlushFailed b) (S (sessionDiscarded b))
  else with_producer b (CheckBytes l attempt).
Definition check_bytes (b : Batcher) (l : LogLine) (attempt : Z) : Batcher :=
  if (maxInflightBytes c <? b_inflight b + lineBytes l)%Z
  then with_producer (with_counts b (dropBackpressure b) (S (dropBytesFull b)) (dropSnapshotStale b) (dropFlushFailed b) (sessionDiscarded b)) ReadyToPush
  else with_producer b (Offer (Pending l attempt)).
Definition AfterFlush (b : Batcher) (fn : nat) : Batcher :=
  if b_discard b then b else with_producer b (Offer (AfterFlushBarrier fn 0)).
(** The flusher takes a line, or what is not a line. *)
Definition take_line (b : Batcher) (l : LogLine) (attempt : Z) (rest : list pendingLine) : Batcher :=
  let b := with_flusher (with_in b rest) Selecting (b_batch b ++ [(l, attempt)]) in
  if (batchSize c <=? Z.of_nat (length (b_batch b)))%Z then flush b ThenLoop else b.
Definition after_flush (b : Batcher) (next : then_at) : Batcher :=
  match next with
  | ThenLoop => with_flusher b Selecting (b_batch b)
  | ThenReturn => with_flusher b Returned (b_batch b)
  | ThenBarrier fn behind =>
      let b' := with_flusher b Selecting (b_batch b) in
      if b_discard b then b' else with_out b' (sink b) (ran b ++ [(fn, behind, length (gone b))]) (pushed b) (gone b)
  end.

Inductive step (b : Batcher) : Batcher -> Prop :=
| step_push l a : b_producer b = ReadyToPush -> step b (Push b l a)
| step_check l a : b_producer b = CheckBytes l a -> step b (check_bytes b l a)
| step_barrier fn : b_producer b = ReadyToPush -> step b (AfterFlush b fn)
| step_send e : (b_producer b = Offer e \/ b_producer b = OfferFor50ms e) -> room b = true -> step b (sent b e)
| step_full e : b_producer b = Offer e -> room b = false -> step b (with_producer b (OfferFor50ms e))
| step_timeout e : b_producer b = OfferFor50ms e -> step b (timed_out b e)
| step_add l : b_producer b = AddBytes l ->
    step b (with_producer (with_flags b (b_closed b) (b_canceled b) (b_discard b) (b_inflight b + lineBytes l)%Z) ReadyToPush)
| step_stop : b_producer b = ReadyToPush -> step b (with_producer (with_flags b true (b_canceled b) (b_discard b) (b_inflight b)) Closed)
| step_cancel : step b (with_flags b (b_closed b) true (b_discard b) (b_inflight b))
| step_discard : step b (with_flags b (b_closed b) (b_canceled b) true (b_inflight b))
| step_line l a rest : b_flusher b = Selecting -> b_in b = Pending l a :: rest -> step b (take_line b l a rest)
| step_flush_barrier fn n rest : b_flusher b = Selecting -> b_in b = AfterFlushBarrier fn n :: rest ->
    step b (flush (with_in b rest) (ThenBarrier fn n))
| step_drained : b_flusher b = Selecting -> b_in b = [] -> b_closed b = true -> step b (flush b ThenReturn)
| step_tick : b_flusher b = Selecting -> step b (flush b ThenLoop)
| step_ctx_done : b_flusher b = Selecting -> b_canceled b = true -> step b (flush b ThenReturn)
| step_insert gs next g gs' r : b_flusher b = Inserting gs next -> gs ≡ₚ g :: gs' ->
    step b (with_flusher (inserted b g r) (Inserting gs' next) (b_batch b))
| step_inserted next : b_flusher b = Inserting [] next -> step b (release b next)
| step_after next : b_flusher b = Flushed next -> step b (after_flush b next).

Definition start : Batcher := {|
  b_in := []; b_closed := false; b_canceled := false; b_discard := false; b_inflight := 0; b_producer := ReadyToPush; b_flusher := Selecting; b_batch := [];
  dropBackpressure := 0; dropBytesFull := 0; dropSnapshotStale := 0; dropFlushFailed := 0; sessionDiscarded := 0;
  sink := []; ran := []; pushed := []; gone := [] |}.
Definition reachable : Batcher -> Prop := rtc step start.
End Steps.

(** ** Groups *)

Notation keyed k := (filter (fun e : LogLine * Z => key_of e = k)).
Definition lines_in (gs : list (flushKey * list LogLine)) : nat := foldr (fun g n => length g.2 + n) 0 gs.
Definition paired (g : flushKey * list LogLine) : list (LogLine * Z) := (fun l => (l, g.1.2)) <$> g.2.

Lemma lines_in_perm gs gs' : gs ≡ₚ gs' -> lines_in gs = lines_in gs'.
Proof. unfold lines_in. induction 1; simpl; lia. Qed.
Lemma add_to_lines k l gs : lines_in (add_to k l gs) = S (lines_in gs).
Proof.
  unfold lines_in. induction gs as [|[k' ls] gs IH]; simpl; [done|]. case_decide; simpl; rewrite ?length_app; simpl; lia.
Qed.
Lemma add_to_keys k l gs x : x ∈ (add_to k l gs).*1 <-> x = k \/ x ∈ gs.*1.
Proof. induction gs as [|[k' ls] gs IH]; simpl; [set_solver|]. case_decide; simpl; set_solver. Qed.
Lemma add_to_NoDup k l gs : NoDup gs.*1 -> NoDup (add_to k l gs).*1.
Proof.
  induction gs as [|[k' ls] gs IH]; simpl; [intros _; apply NoDup_singleton|]. intros [Hn Hd]%NoDup_cons. case_decide; simpl; constructor; try done; [|by apply IH].
  rewrite add_to_keys. naive_solver.
Qed.
Lemma add_to_group k l gs k' ls : NoDup gs.*1 -> (k', ls) ∈ add_to k l gs ->
  (k' <> k /\ (k', ls) ∈ gs) \/ (k' = k /\ ((ls = [l] /\ k ∉ gs.*1) \/ exists ls0, (k, ls0) ∈ gs /\ ls = ls0 ++ [l])).
Proof.
  induction gs as [|[k0 ls0] gs IH]; simpl.
  - intros _ [[= -> ->]|?%elem_of_nil]%elem_of_cons; [|done]. right. split; [done|]. left. split; [done|]. apply not_elem_of_nil.
  - intros [Hn Hd]%NoDup_cons. case_decide as Hk; rewrite elem_of_cons.
    + subst k0. intros [[= -> ->]|Hin]; [right; split; [done|]; right; exists ls0; split; [by left|done]|].
      left. split; [|by right]. intros ->. apply Hn, list_elem_of_fmap. by exists (k, ls).
    + intros [[= -> ->]|Hin]; [left; split; [done|by left]|]. destruct (IH Hd Hin) as [[Hne Hg]|[-> [[-> Hni]|(ls1 & Hg & ->)]]].
      * left. split; [done|by right].
      * right. split; [done|]. left. split; [done|]. simpl. rewrite not_elem_of_cons. done.
      * right. split; [done|]. right. exists ls1. split; [by right|done].
Qed.
Lemma group_batch_spec batch :
  NoDup (group_batch batch).*1 /\ lines_in (group_batch batch) = length batch /\
  (forall k, k ∈ (group_batch batch).*1 <-> exists e, e ∈ batch /\ key_of e = k) /\
  forall g, g ∈ group_batch batch -> paired g = keyed g.1 batch.
Proof.
  unfold group_batch. induction batch as [|e batch IH] using rev_ind; [split_and!; [constructor|done|set_solver|set_solver]|].
  rewrite foldl_snoc, length_app. destruct IH as (Hnd & Hlen & Hkeys & Hg). set (gs := foldl _ _ _) in *. split_and!.
  - by apply add_to_NoDup.
  - rewrite add_to_lines, Hlen. simpl. lia.
  - intros k. rewrite add_to_keys, Hkeys. setoid_rewrite elem_of_app. setoid_rewrite list_elem_of_singleton. naive_solver.
  - intros [k ls] Hin. cbn [fst]. rewrite filter_app. apply add_to_group in Hin; [|done].
    destruct Hin as [[Hne Hin]|[-> [[-> Hni]|(ls0 & Hin & ->)]]].
    + rewrite filter_cons_False by congruence. rewrite filter_nil, app_nil_r. apply (Hg _ Hin).
    + rewrite filter_cons_True by done. rewrite filter_nil. assert (paired (key_of e, [e.1]) = [e]) as -> by by destruct e.
      destruct (keyed (key_of e) batch) as [|x xs] eqn:E; [done|]. exfalso.
      assert (x ∈ keyed (key_of e) batch) as [Hk Hx]%list_elem_of_filter by (rewrite E; by left). apply Hni, Hkeys. eauto.
    + rewrite filter_cons_True by done. specialize (Hg _ Hin). cbn [fst] in Hg. rewrite filter_nil, <- Hg. unfold paired. simpl. rewrite fmap_app. f_equal. by destruct e.
Qed.

Lemma filter_filter_same (k : flushKey) (l : list (LogLine * Z)) : keyed k (keyed k l) = keyed k l.
Proof. induction l as [|e l IH]; [done|]. rewrite filter_cons. case_decide; [|done]. rewrite filter_cons_True by done. by rewrite IH. Qed.
Lemma filter_filter_other (k k' : flushKey) (l : list (LogLine * Z)) : k <> k' -> keyed k (keyed k' l) = [].
Proof. intros Hne. induction l as [|e l IH]; [done|]. rewrite filter_cons. case_decide; [|done]. rewrite filter_cons_False by congruence. done. Qed.

Lemma sublist_filter_keyed (k : flushKey) (l l' : list (LogLine * Z)) : sublist l l' -> sublist (keyed k l) (keyed k l').
Proof.
  induction 1 as [|x l l' H IH|x l l' H IH]; rewrite ?filter_cons; [done| |]; case_decide; try done; by constructor.
Qed.

(** ** Invariants *)

Section Invariant.
Context (c : logBatcherConfig).
Hypothesis Hsize : (0 < batchSize c)%Z.
Hypothesis Hbytes : (0 <= maxInflightBytes c)%Z.

(** What the receive loop holds, and what it has not added to the counter yet. *)
Definition offered (e : pendingLine) : list (LogLine * Z) := match e with Pending l a => [(l, a)] | AfterFlushBarrier _ _ => [] end.
Definition in_hand (p : producer_at) : list (LogLine * Z) :=
  match p with CheckBytes l a => [(l, a)] | Offer e | OfferFor50ms e => offered e | _ => [] end.
Definition admitted (p : producer_at) : Z := match p with Offer e | OfferFor50ms e => bytes_of (offered e) | _ => 0%Z end.
Definition owed (p : producer_at) : Z := match p with AddBytes l => lineBytes l | _ => 0%Z end.
Definition retained (b : Batcher) : list (LogLine * Z) := b_batch b ++ lines (b_in b).
Definition unwritten (b : Batcher) : nat := match b_flusher b with Inserting gs _ => lines_in gs | _ => length (b_batch b) end.
Definition dropped (b : Batcher) : nat :=
  dropBackpressure b + dropBytesFull b + dropSnapshotStale b + dropFlushFailed b + sessionDiscarded b.
Definition then_ok (b : Batcher) (next : then_at) : Prop :=
  match next with
  | ThenLoop => True
  | ThenBarrier fn n => n = length (gone b) + length (b_batch b)
  | ThenReturn => b_canceled b = true \/ (b_closed b = true /\ b_in b = [])
  end.
Definition flusher_ok (b : Batcher) : Prop :=
  match b_flusher b with
  | Selecting => forall k, sublist (keyed k (sink b)) (keyed k (gone b))
  | Inserting gs next => then_ok b next /\ NoDup gs.*1 /\ (forall g, g ∈ gs -> paired g = keyed g.1 (b_batch b)) /\
      forall k, (k ∈ gs.*1 -> sublist (keyed k (sink b)) (keyed k (gone b))) /\ sublist (keyed k (sink b)) (keyed k (gone b ++ b_batch b))
  | Flushed next => then_ok b next /\ b_batch b = [] /\ forall k, sublist (keyed k (sink b)) (keyed k (gone b))
  | Returned => then_ok b ThenReturn /\ b_batch b = [] /\ forall k, sublist (keyed k (sink b)) (keyed k (gone b))
  end.

Record inv (b : Batcher) : Prop := {
  i_bytes : (b_inflight b + owed (b_producer b) = bytes_of (retained b))%Z;
  i_cap : (bytes_of (retained b) + admitted (b_producer b) <= maxInflightBytes c)%Z;
  i_room : (Z.of_nat (length (b_in b)) <= Z.max 0 (maxLines c))%Z;
  i_batch : (Z.of_nat (length (b_batch b)) <= batchSize c)%Z;
  i_order : sublist (gone b ++ retained b ++ in_hand (b_producer b)) (pushed b);
  i_flusher : flusher_ok b;
  i_barrier before fn n after : b_in b = before ++ AfterFlushBarrier fn n :: after ->
    n = length (gone b) + length (b_batch b) + length (lines before);
  i_ran fn n g : (fn, n, g) ∈ ran b -> n = g /\ g <= length (gone b);
  i_closed : b_closed b = true <-> b_producer b = Closed;
}.
Definition counted (b : Batcher) : Prop :=
  length (pushed b) = length (sink b) + dropped b + unwritten b + length (lines (b_in b)) + length (in_hand (b_producer b)).
Definition selecting (b : Batcher) : Prop := b_flusher b = Selecting -> (Z.of_nat (length (b_batch b)) < batchSize c)%Z.

#[local] Arguments lines : simpl never.
#[local] Arguments bytes_of : simpl never.
#[local] Arguments dropped : simpl never.
Lemma lines_app l l' : lines (l ++ l') = lines l ++ lines l'.
Proof. apply omap_app. Qed.
Lemma bytes_cons e l : bytes_of (e :: l) = (lineBytes e.1 + bytes_of l)%Z.
Proof. done. Qed.
Lemma bytes_app l l' : bytes_of (l ++ l') = (bytes_of l + bytes_of l')%Z.
Proof. induction l as [|e l IH]; [done|]. rewrite <- app_comm_cons, !bytes_cons, IH. lia. Qed.
Lemma bytes_pos l : (0 <= bytes_of l)%Z.
Proof. induction l as [|e l IH]; [done|]. rewrite bytes_cons. unfold lineBytes. lia. Qed.
Lemma sublist_snoc_l {A} (l k : list A) x : sublist (l ++ [x]) k -> sublist l k.
Proof. intros H. etrans; [|exact H]. by apply sublist_inserts_r. Qed.

Lemma release_inv b next : inv b -> (b_flusher b = Inserting [] next \/ (b_flusher b = Selecting /\ then_ok b next)) -> inv (release b next).
Proof.
  intros [H1 H2 H3 H4 H6 H7 H8 H9 H10] Hf. unfold retained in *. rewrite bytes_app in *. pose proof (bytes_pos (b_batch b)).
  split; cbn; unfold retained; cbn; try done; try lia.
  - rewrite <- app_assoc. by rewrite <- app_assoc in H6.
  - unfold flusher_ok in *. destruct Hf as [Ef|[Ef Hok]]; rewrite Ef in H7; cbn in *.
    + destruct H7 as (Hok & _ & _ & Hk). split_and!; [destruct next; simpl in *; rewrite ?length_app; lia || done|done|].
      intros k. apply Hk.
    + split_and!; [destruct next; simpl in *; rewrite ?length_app; lia || done|done|]. intros k. rewrite filter_app. etrans; [apply H7|]. by apply sublist_inserts_r.
  - intros before fn n after E. rewrite length_app, (H8 _ _ _ _ E). simpl. lia.
  - intros fn n g Hin. destruct (H9 _ _ _ Hin) as [-> Hle]. rewrite length_app. split; [done|lia].
Qed.
(** The invariant does not look at the counters. *)
Lemma counts_inv b bp by_ st f d : inv b -> inv (with_counts b bp by_ st f d).
Proof. by intros []. Qed.
Lemma flush_inv b next : inv b -> b_flusher b = Selecting -> then_ok b next -> inv (flush b next) /\ selecting (flush b next).
Proof.
  intros Hi Hf Hok. unfold flush. destruct (b_batch b) as [|e batch] eqn:Eb; [|destruct (b_discard b)].
  - split; [|done]. destruct Hi as [H1 H2 H3 H4 H6 H7 H8 H9 H10]. unfold retained in *. rewrite Eb in *. split; cbn; unfold retained; cbn; try done.
    unfold flusher_ok in *. rewrite Hf in H7. cbn. split_and!; [|done|done]. destruct next; simpl in *; rewrite ?Eb in Hok; done.
  - split; [|done]. apply release_inv; [by apply counts_inv|]. right. split; [done|]. by destruct next.
  - split; [|done]. destruct (group_batch_spec (e :: batch)) as (Hnd & _ & Hkeys & Hg).
    destruct Hi as [H1 H2 H3 H4 H6 H7 H8 H9 H10]. unfold retained in *. rewrite Eb in *. split; cbn -[group_batch]; unfold retained; cbn -[group_batch]; try done.
    unfold flusher_ok in *. rewrite Hf in H7. cbn -[group_batch]. split_and!; [|done|done|].
    + destruct next; simpl in *; rewrite ?Eb in Hok; done.
    + intros k. split; [by intros _|]. rewrite filter_app. etrans; [apply H7|]. by apply sublist_inserts_r.
Qed.

Lemma after_inv b next : inv b -> b_flusher b = Flushed next -> inv (after_flush b next).
Proof.
  intros [H1 H2 H3 H4 H6 H7 H8 H9 H10] Hf. unfold flusher_ok in H7. rewrite Hf in H7. destruct H7 as (Hok & Eb & Hk).
  destruct next as [|fn n|]; cbn; [done|destruct (b_discard b)|]; split; try done.
  cbn. intros fn' n' g [?|[= -> -> ->]%list_elem_of_singleton]%elem_of_app; [by eapply H9|]. simpl in Hok. rewrite Hok, Eb. simpl. lia.
Qed.

(** The receive loop does not touch what the flusher holds. *)
Lemma producer_inv b b' : inv b ->
  b_batch b' = b_batch b -> b_flusher b' = b_flusher b -> sink b' = sink b -> ran b' = ran b -> gone b' = gone b ->
  (then_ok b ThenReturn -> then_ok b' ThenReturn) ->
  (b_inflight b' + owed (b_producer b') = bytes_of (retained b'))%Z ->
  (bytes_of (retained b') + admitted (b_producer b') <= maxInflightBytes c)%Z ->
  (Z.of_nat (length (b_in b')) <= Z.max 0 (maxLines c))%Z ->
  sublist (gone b ++ retained b' ++ in_hand (b_producer b')) (pushed b') ->
  (forall before fn n after, b_in b' = before ++ AfterFlushBarrier fn n :: after -> n = length (gone b) + length (b_batch b) + length (lines before)) ->
  (b_closed b' = true <-> b_producer b' = Closed) -> inv b'.
Proof.
  intros [H1 H2 H3 H4 H6 H7 H8 H9 H10] Eb Ef Es Er Eg Hret P1 P2 P3 P4 P5 P6. split; rewrite ?Eb, ?Eg, ?Er; try done.
  unfold flusher_ok in *. rewrite Ef, ?Es, ?Eg, ?Eb. destruct (b_flusher b) as [|gs next|next|]; [done|..].
  - destruct H7 as (Hok & Hrest). split; [|done]. destruct next; [done|simpl; by rewrite Eg, Eb|by apply Hret].
  - destruct H7 as (Hok & Hrest). split; [|done]. destruct next; [done|simpl; by rewrite Eg, Eb|by apply Hret].
  - destruct H7 as (Hok & Hrest). split; [|done]. by apply Hret.
Qed.
Lemma owed_zero_retained b : inv b -> owed (b_producer b) = 0%Z -> b_inflight b = bytes_of (retained b).
Proof. intros Hi Ho. pose proof (i_bytes b Hi). lia. Qed.
Lemma barrier_snoc (l : list pendingLine) e before fn n after : l ++ [e] = before ++ AfterFlushBarrier fn n :: after ->
  (exists after', l = before ++ AfterFlushBarrier fn n :: after') \/ (before = l /\ e = AfterFlushBarrier fn n).
Proof.
  intros E. destruct after as [|x after _] using rev_ind.
  - apply app_inj_tail in E as [-> ->]. by right.
  - left. rewrite app_comm_cons, app_assoc in E. apply app_inj_tail in E as [-> _]. by exists after.
Qed.

Lemma batcher_step_inv b b' : step c b b' -> inv b /\ selecting b -> inv b' /\ selecting b'.
Proof.
  intros Hs [Hi Hsel]. pose proof Hi as [H1 H2 H3 H4 H6 H7 H8 H9 H10].
  assert (Hopen : b_producer b <> Closed -> b_closed b = false).
  { intros Hn. apply not_true_iff_false. intros Hc. by apply Hn, H10. }
  destruct Hs as [l a Hp|l a Hp|fn Hp|e Hp Hr|e Hp Hr|e Hp|l Hp|Hp| | |l a rest Hf Hin|fn n rest Hf Hin|Hf Hin Hc|Hf|Hf Hc|gs next g gs' r Hf Hperm|next Hf|next Hf].
  - unfold Push. cbn. split; [|by destruct (b_discard b)]. rewrite Hp in *. cbn in *. rewrite app_nil_r in H6. destruct (b_discard b).
    + apply (producer_inv b); cbn; rewrite ?Hp; try done. cbn. rewrite app_nil_r. by apply sublist_inserts_r.
    + apply (producer_inv b); cbn; rewrite ?Hp; try done; [|by rewrite Hopen].
      rewrite app_assoc. by apply sublist_app.
  - unfold check_bytes. rewrite Hp in *. cbn in *. destruct (Z.ltb_spec (maxInflightBytes c) (b_inflight b + lineBytes l)); (split; [|done]).
    + apply (producer_inv b); cbn; try done; [rewrite app_nil_r; rewrite app_assoc in H6; by eapply sublist_snoc_l|by rewrite Hopen].
    + apply (producer_inv b); cbn; try done; [|by rewrite Hopen]. unfold retained in *. cbn. change (bytes_of [(l, a)]) with (lineBytes l + 0)%Z. lia.
  - unfold AfterFlush. destruct (b_discard b); [done|]. rewrite Hp in *. cbn in *. split; [|done]. apply (producer_inv b); cbn; try done. by rewrite Hopen.
  - assert (Hn : b_producer b <> Closed) by by destruct Hp as [-> | ->].
    assert (Ha : in_hand (b_producer b) = offered e /\ admitted (b_producer b) = bytes_of (offered e) /\ owed (b_producer b) = 0%Z) by by destruct Hp as [-> | ->].
    destruct Ha as (Eh & Ea & Eo). rewrite Eh, Ea in *. pose proof (owed_zero_retained b Hi Eo) as Hbytes'. unfold room in Hr. apply Z.ltb_lt in Hr.
    destruct e as [l a|fn n]; cbn [sent offered] in *; (split; [|done]).
    + apply (producer_inv b); cbn; unfold retained in *; cbn; rewrite ?lines_app; try done.
      * rewrite Hopen by done. intros [?|[? _]]; [by left|done].
      * rewrite !bytes_app, Hbytes', bytes_app. change (bytes_of (lines [Pending l a])) with (lineBytes l + 0)%Z. lia.
      * rewrite !bytes_app in *. change (bytes_of (lines [Pending l a])) with (lineBytes l + 0)%Z. change (bytes_of [(l, a)]) with (lineBytes l + 0)%Z in H2. lia.
      * rewrite length_app. simpl. lia.
      * rewrite app_nil_r. change (lines [Pending l a]) with [(l, a)]. by rewrite (app_assoc (b_batch b)).
      * intros before fn n after [[after' E]|[_ ?]]%barrier_snoc; [by eapply H8|done].
      * by rewrite Hopen.
    + apply (producer_inv b); cbn; unfold retained in *; cbn; rewrite ?lines_app; try done.
      * rewrite Hopen by done. intros [?|[? _]]; [by left|done].
      * change (lines [AfterFlushBarrier fn _]) with (@nil (LogLine * Z)). rewrite app_nil_r. lia.
      * change (lines [AfterFlushBarrier fn _]) with (@nil (LogLine * Z)). rewrite app_nil_r. exact H2.
      * rewrite length_app. simpl. lia.
      * change (lines [AfterFlushBarrier fn _]) with (@nil (LogLine * Z)). rewrite !app_nil_r. by rewrite app_nil_r in H6.
      * intros before fn' n' after [[after' E]|[-> [= -> <-]]]%barrier_snoc; [by eapply H8|done].
      * by rewrite Hopen.
  - split; [|done]. apply (producer_inv b); cbn; rewrite Hp in *; try done. by rewrite Hopen.
  - assert (Hn : b_producer b <> Closed) by by rewrite Hp. split; [|by destruct e]. rewrite Hp in *.
    destruct e as [l a|fn n]; apply (producer_inv b); cbn in *; try done; try (by rewrite Hopen).
    + pose proof (bytes_pos [(l, a)]). unfold retained in H2. lia.
    + rewrite app_nil_r. rewrite app_assoc in H6. by eapply sublist_snoc_l.
  - split; [|done]. rewrite Hp in *. apply (producer_inv b); cbn in *; try done; [unfold retained in *; lia|by rewrite Hopen].
  - split; [|done]. rewrite Hp in *. apply (producer_inv b); cbn in *; try done. intros [?|[_ ?]]; [by left|by right].
  - split; [|done]. apply (producer_inv b); cbn; try done. by left.
  - split; [|done]. by apply (producer_inv b).
  - unfold take_line. cbn. set (b1 := with_flusher _ _ _).
    assert (inv b1).
    { unfold retained in *. rewrite Hin in *. subst b1. split; cbn; unfold retained; cbn; try done.
      - rewrite H1, !bytes_app. change (lines (Pending l a :: rest)) with ((l, a) :: lines rest). rewrite bytes_cons. change (bytes_of [(l, a)]) with (lineBytes l + 0)%Z. cbn. lia.
      - rewrite <- app_assoc. exact H2.
      - simpl in H3. lia.
      - rewrite length_app. specialize (Hsel Hf). simpl. lia.
      - rewrite <- (app_assoc (b_batch b)). exact H6.
      - unfold flusher_ok in *. by rewrite Hf in H7.
      - intros before fn n after E. rewrite (H8 (Pending l a :: before) fn n after) by by rewrite E. rewrite length_app. change (lines (Pending l a :: before)) with ((l, a) :: lines before). simpl. lia. }
    case (Z.leb_spec (batchSize c) (Z.of_nat (length (b_batch b ++ [(l, a)])))); intros Hle.
    + by apply flush_inv.
    + split; [done|]. intros _. exact Hle.
  - assert (inv (with_in b rest) /\ then_ok (with_in b rest) (ThenBarrier fn n)) as [Hi' Hok].
    { unfold retained in *. rewrite Hin in *. change (lines (AfterFlushBarrier fn n :: rest)) with (lines rest) in *. split.
      - split; cbn; unfold retained; cbn; try done; [simpl in H3; lia|unfold flusher_ok in *; cbn; by rewrite Hf in H7 |- *|].
        intros before fn' n' after E. by rewrite (H8 (AfterFlushBarrier fn n :: before) fn' n' after) by by rewrite E.
      - cbn. rewrite (H8 [] fn n rest) by done. change (lines []) with (@nil (LogLine * Z)). simpl. lia. }
    by apply flush_inv.
  - apply flush_inv; [done..|]. right. done.
  - apply flush_inv; done.
  - apply flush_inv; [done..|]. by left.
  - split; [|done]. unfold flusher_ok in H7. rewrite Hf in H7. destruct H7 as (Hok & Hnd & Hg & Hk).
    assert (Hperm' : gs.*1 ≡ₚ g.1 :: gs'.*1) by by rewrite Hperm. rewrite Hperm' in Hnd. apply NoDup_cons in Hnd as [Hni Hnd].
    assert (Hgg : paired g = keyed g.1 (b_batch b)) by (apply Hg; rewrite Hperm; by left).
    assert (Hrest : forall g0, g0 ∈ gs' -> paired g0 = keyed g0.1 (b_batch b)) by (intros; apply Hg; rewrite Hperm; by right).
    destruct r; cbn; (split; cbn; try done); unfold flusher_ok; cbn; (split_and!; [by destruct next|done|done|]); intros k.
    + change ((fun l : LogLine => (l, g.1.2)) <$> g.2) with (paired g). rewrite !filter_app, Hgg. destruct (decide (k = g.1)) as [->|Hne].
      * split; [done|]. apply sublist_app; [apply Hk; rewrite Hperm'; by left|]. by rewrite filter_filter_same.
      * rewrite filter_filter_other, app_nil_r by done. specialize (Hk k). rewrite filter_app in Hk. split; [|apply Hk]. intros Hin. apply Hk. rewrite Hperm'. by right.
    + split; [|apply Hk]. intros Hin. apply Hk. rewrite Hperm'. by right.
    + split; [|apply Hk]. intros Hin. apply Hk. rewrite Hperm'. by right.
  - split; [|done]. apply release_inv; [done|]. by left.
  - unfold flusher_ok in H7. rewrite Hf in H7. destruct H7 as (Hok & Eb & Hk). split; [by apply after_inv|].
    unfold selecting. destruct next; cbn; [..|done]; try destruct (b_discard b); cbn; rewrite Eb; done.
Qed.

(** Every push is accounted for, whatever happened to it. *)
Lemma counted_flush b next : b_flusher b = Selecting -> counted b -> counted (flush b next).
Proof.
  intros Hf. unfold counted, flush. destruct (b_batch b) as [|e batch] eqn:Eb; [|destruct (b_discard b)]; unfold unwritten, dropped; rewrite Hf, Eb; cbn -[group_batch].
  - lia.
  - lia.
  - destruct (group_batch_spec (e :: batch)) as (_ & -> & _). simpl. lia.
Qed.
Lemma step_counted b b' : step c b b' -> counted b -> counted b'.
Proof.
  intros Hs Hc. pose proof Hc as H. unfold counted in H.
  destruct Hs as [l a Hp|l a Hp|fn Hp|e Hp Hr|e Hp Hr|e Hp|l Hp|Hp| | |l a rest Hf Hin|fn n rest Hf Hin|Hf Hin _|Hf|Hf _|gs next g gs' r Hf Hperm|next Hf|next Hf].
  - unfold Push. cbn. rewrite Hp in H. destruct (b_discard b); unfold counted, dropped, unwritten in *; cbn; rewrite ?Hp, length_app; cbn in *; lia.
  - unfold check_bytes. rewrite Hp in H. destruct (_ <? _)%Z; unfold counted, dropped, unwritten in *; cbn in *; lia.
  - unfold AfterFlush. rewrite Hp in H. destruct (b_discard b); [done|]. unfold counted, dropped, unwritten in *. cbn in *. lia.
  - assert (Eh : in_hand (b_producer b) = offered e) by by destruct Hp as [-> | ->].
    rewrite Eh in H. destruct e as [l a|fn n]; unfold counted, dropped, unwritten in *; cbn in *; rewrite lines_app, length_app;
      [change (lines [Pending l a]) with [(l, a)]|change (lines [AfterFlushBarrier fn _]) with (@nil (LogLine * Z))]; simpl; lia.
  - rewrite Hp in H. done.
  - rewrite Hp in H. destruct e; unfold counted, dropped, unwritten in *; cbn in *; lia.
  - rewrite Hp in H. done.
  - rewrite Hp in H. done.
  - done.
  - done.
  - rewrite Hin in H. change (lines (Pending l a :: rest)) with ((l, a) :: lines rest) in H. unfold take_line. cbn.
    assert (counted (with_flusher (with_in b rest) Selecting (b_batch b ++ [(l, a)]))).
    { unfold counted, dropped, unwritten in *. rewrite Hf in H. cbn in *. rewrite length_app. simpl. lia. }
    destruct (_ <=? _)%Z; [by apply counted_flush|done].
  - apply counted_flush; [done|]. rewrite Hin in H. done.
  - by apply counted_flush.
  - by apply counted_flush.
  - by apply counted_flush.
  - unfold counted, unwritten in *. rewrite Hf, (lines_in_perm _ _ Hperm) in H.
    change (lines_in (g :: gs')) with (length g.2 + lines_in gs') in H. destruct r; unfold dropped in *; cbn in *; rewrite ?length_app, ?length_fmap; lia.
  - unfold counted, dropped, unwritten in *. rewrite Hf in H. cbn in *. lia.
  - destruct next; cbn; [..|]; try destruct (b_discard b); unfold counted, dropped, unwritten in *; rewrite Hf in H; cbn in *; lia.
Qed.

Lemma start_inv : inv start /\ selecting start /\ counted start.
Proof.
  split_and!; [|by intros _|done]. split; cbn; try done; try (change (bytes_of (retained start)) with 0%Z; lia).
  - intros before fn n after E. by destruct before.
  - intros fn n g Hin. by apply elem_of_nil in Hin.
Qed.
Lemma batcher_inv b : reachable c b -> inv b /\ selecting b /\ counted b.
Proof.
  intros Hr. assert (forall a, rtc (step c) a b -> inv a /\ selecting a /\ counted a -> inv b /\ selecting b /\ counted b) as H; [|exact (H start Hr start_inv)].
  clear Hr. intros a. induction 1 as [|x y z Hxy _ IH]; [done|]. intros (Hi & Hsel & Hc). apply IH.
  destruct (batcher_step_inv x y Hxy (conj Hi Hsel)) as [Hi' Hsel']. split; [exact Hi'|]. split; [exact Hsel'|]. by eapply step_counted.
Qed.
Lemma sink_order b k : inv b -> sublist (keyed k (sink b)) (keyed k (pushed b)).
Proof.
  intros Hi. assert (sublist (keyed k (sink b)) (keyed k (gone b ++ b_batch b))) as Hs.
  { pose proof (i_flusher b Hi) as Hf. unfold flusher_ok in Hf. rewrite filter_app. destruct (b_flusher b).
    - apply sublist_inserts_r, Hf.
    - destruct Hf as (_ & _ & _ & Hk). rewrite <- filter_app. apply Hk.
    - destruct Hf as (_ & _ & Hk). apply sublist_inserts_r, Hk.
    - destruct Hf as (_ & _ & Hk). apply sublist_inserts_r, Hk. }
  etrans; [exact Hs|]. apply sublist_filter_keyed. etrans; [|apply (i_order b Hi)].
  unfold retained. rewrite <- app_assoc, (app_assoc (gone b)). by apply sublist_inserts_r.
Qed.
End Invariant.

(** ** The flusher returns *)

(** What is left for the flusher to do, a step counting one: a line or a barrier costs
    at most ten steps, whatever batch it ends up in. *)
Definition work (b : Batcher) : nat :=
  10 * length (b_in b) +
  match b_flusher b with
  | Selecting => 4 + 4 * length (b_batch b)
  | Inserting gs _ => 6 + length gs
  | Flushed ThenReturn => 1
  | Flushed _ => 5
  | Returned => 0
  end.
Definition idle_tick (b b' : Batcher) : Prop := b_batch b = [] /\ b' = with_flusher b (Flushed ThenLoop) [].

Lemma add_to_length k l gs : length (add_to k l gs) <= S (length gs).
Proof. induction gs as [|[k' ls] gs IH]; simpl; [lia|]. case_decide; simpl; lia. Qed.
Lemma group_batch_length batch : length (group_batch batch) <= length batch.
Proof.
  unfold group_batch. induction batch as [|e batch IH] using rev_ind; [done|].
  rewrite foldl_snoc, length_app. pose proof (add_to_length (key_of e) e.1 (foldl (fun gs e => add_to (key_of e) e.1 gs) [] batch)). simpl. lia.
Qed.
Lemma flush_work b next : work (flush b next) <= 10 * length (b_in b) + 6 + length (b_batch b) /\
  (b_batch b <> [] \/ next = ThenReturn -> b_flusher b = Selecting -> work (flush b next) < work b).
Proof.
  unfold flush. destruct (b_batch b) as [|e batch] eqn:Eb; [|destruct (b_discard b)]; unfold work; cbn -[Nat.mul group_batch].
  - split; [destruct next; lia|]. intros [?| ->] ->; [done|]. rewrite Eb. cbn -[Nat.mul]. lia.
  - split; [destruct next; lia|]. intros _ ->. rewrite Eb. destruct next; cbn -[Nat.mul]; lia.
  - pose proof (group_batch_length (e :: batch)). cbn -[Nat.mul group_batch] in *. split; [lia|]. intros _ ->. rewrite Eb. cbn -[Nat.mul group_batch]. lia.
Qed.
Lemma after_work b next : b_flusher b = Flushed next -> b_batch b = [] -> work (after_flush b next) < work b.
Proof.
  intros Hf Eb. unfold work. rewrite Hf. destruct next; cbn -[Nat.mul]; [|destruct (b_discard b)|]; cbn -[Nat.mul]; rewrite ?Eb; cbn -[Nat.mul]; lia.
Qed.
Section Stop.
Context (c : logBatcherConfig).
Lemma flush_closed b next : b_closed (flush b next) = b_closed b.
Proof. unfold flush. destruct (b_batch b); [done|]. by destruct (b_discard b). Qed.
Lemma closed_stays b b' : step c b b' -> b_closed b = true -> b_closed b' = true.
Proof.
  intros [] Hc; rewrite <- Hc; try done; rewrite ?flush_closed; try done.
  - unfold Push. cbn. by destruct (b_discard b).
  - unfold check_bytes. by destruct (_ <? _)%Z.
  - unfold AfterFlush. by destruct (b_discard b).
  - by destruct e.
  - by destruct e.
  - unfold take_line. destruct (_ <=? _)%Z; by rewrite ?flush_closed.
  - by destruct r.
  - destruct next; cbn; [done|by destruct (b_discard b)|done].
Qed.
Lemma take_work b l a rest : b_flusher b = Selecting -> b_in b = Pending l a :: rest -> work (take_line c b l a rest) < work b.
Proof.
  intros Hf Hin. unfold take_line. cbv zeta. set (b1 := with_flusher _ _ _). assert (work b1 < work b).
  { unfold work. subst b1. cbn -[Nat.mul]. rewrite Hf, Hin, length_app. cbn -[Nat.mul]. lia. }
  destruct (_ <=? _)%Z; [|done]. destruct (flush_work b1 ThenLoop) as [_ Hw].
  specialize (Hw ltac:(left; subst b1; cbn; by destruct (b_batch b)) eq_refl). lia.
Qed.
Lemma barrier_work b fn n rest : b_flusher b = Selecting -> b_in b = AfterFlushBarrier fn n :: rest ->
  work (flush (with_in b rest) (ThenBarrier fn n)) < work b.
Proof.
  intros Hf Hin. destruct (flush_work (with_in b rest) (ThenBarrier fn n)) as [Hw _].
  assert (work b = 10 * length (b_in b) + (4 + 4 * length (b_batch b))) as -> by (unfold work; by rewrite Hf). rewrite Hin. cbn -[Nat.mul work] in *. lia.
Qed.
Lemma closed_step b b' : step c b b' -> inv c b -> b_closed b = true ->
  work b' < work b \/ idle_tick b b' \/ exists canceled discard, b' = with_flags b true canceled discard (b_inflight b).
Proof.
  intros Hs Hi Hc. assert (Hp : b_producer b = Closed) by by apply (i_closed _ _ Hi).
  assert (Hflushed : forall next, b_flusher b = Flushed next -> b_batch b = []).
  { intros next E. pose proof (i_flusher _ _ Hi) as Hf. unfold flusher_ok in Hf. rewrite E in Hf. apply Hf. }
  destruct Hs as [l a Hp'|l a Hp'|fn Hp'|e Hp' Hr|e Hp' Hr|e Hp'|l Hp'|Hp'| | |l a rest Hf Hin|fn n rest Hf Hin|Hf Hin _|Hf|Hf _|gs next g gs' r Hf Hperm|next Hf|next Hf];
    try (rewrite Hp in Hp'; naive_solver).
  - right. right. rewrite Hc. by exists true, (b_discard b).
  - right. right. rewrite Hc. by exists (b_canceled b), true.
  - left. by eapply take_work.
  - left. by eapply barrier_work.
  - left. apply flush_work; [by right|done].
  - destruct (b_batch b) eqn:Eb; [|left; apply flush_work; [left; by rewrite Eb|done]]. right. left. unfold idle_tick, flush. by rewrite Eb.
  - left. apply flush_work; [by right|done].
  - left. unfold work. rewrite Hf. apply Permutation_length in Hperm. destruct r; cbn -[Nat.mul]; cbn -[Nat.mul] in Hperm; lia.
  - left. unfold work. rewrite Hf. cbn -[Nat.mul]. destruct next; lia.
  - left. by apply after_work; [|eapply Hflushed].
Qed.
Lemma closed_enabled b : inv c b -> b_closed b = true -> b_flusher b <> Returned -> exists b', step c b b' /\ work b' < work b.
Proof.
  intros Hi Hc Hn. destruct (b_flusher b) as [|gs next|next|] eqn:Hf; [| | |done].
  - destruct (b_in b) as [|[l a|fn n] rest] eqn:Hin; eexists.
    + split; [by apply step_drained|]. apply flush_work; [by right|done].
    + split; [by eapply step_line|]. by eapply take_work.
    + split; [by eapply step_flush_barrier|]. by eapply barrier_work.
  - destruct gs as [|g gs].
    + exists (release b next). split; [by apply step_inserted|]. unfold work. rewrite Hf. cbn -[Nat.mul]. destruct next; lia.
    + exists (with_flusher (inserted b g Inserted) (Inserting gs next) (b_batch b)). split; [by eapply step_insert|]. unfold work. rewrite Hf. cbn -[Nat.mul]. lia.
  - exists (after_flush b next). split; [by apply step_after|]. apply after_work; [done|].
    pose proof (i_flusher _ _ Hi) as Hf'. unfold flusher_ok in Hf'. rewrite Hf in Hf'. apply Hf'.
Qed.
End Stop.

(** ** Properties *)

(** C19: in every reachable state of a batcher, whatever the configuration it was given: the
    text it retains (batch and channel) is within the byte bound, the channel within the
    line bound and the batch within its size; every call of Push is counted exactly once, as
    written, as one of the five counted drops, or as still in the buffer; the rows the sink
    has received for a job and attempt are, in order and without a repetition, lines pushed
    for that job and attempt; a callback ran when all the lines accepted before its barrier,
    and no other, had left the buffer; and a flusher that returned without the stream's
    context being cancelled has left nothing behind. *)
Theorem log_lines_accounted cfg b : reachable (clamped cfg) b ->
  (bytes_of (retained b) <= maxInflightBytes (clamped cfg))%Z /\
  (Z.of_nat (length (b_in b)) <= maxLines (clamped cfg))%Z /\ (Z.of_nat (length (b_batch b)) <= batchSize (clamped cfg))%Z /\
  length (pushed b) = length (sink b) + dropped b + unwritten b + length (lines (b_in b)) + length (in_hand (b_producer b)) /\
  (forall k, sublist (keyed k (sink b)) (keyed k (pushed b))) /\
  (forall fn behind left_before, (fn, behind, left_before) ∈ ran b -> behind = left_before) /\
  (b_flusher b = Returned -> b_canceled b = false -> length (pushed b) = length (sink b) + dropped b).
Proof.
  intros Hr. pose proof (clamped_bounds cfg) as (Hsize & Hlines & Hmin & _). assert (0 < logMinInflightBytes)%Z by done.
  destruct (batcher_inv (clamped cfg) Hsize ltac:(lia) b Hr) as (Hi & _ & Hc). split_and!.
  - pose proof (i_cap _ _ Hi). assert (0 <= admitted (b_producer b))%Z by (destruct (b_producer b); simpl; try apply bytes_pos; lia). lia.
  - pose proof (i_room _ _ Hi). lia.
  - apply (i_batch _ _ Hi).
  - exact Hc.
  - intros k. by eapply sink_order.
  - intros fn n g Hin. by eapply i_ran.
  - intros Hf Hcan. pose proof (i_flusher _ _ Hi) as Hok. unfold flusher_ok in Hok. rewrite Hf in Hok. destruct Hok as ([?|[Hcl Hin]] & Hb & _); [congruence|].
    apply (i_closed _ _ Hi) in Hcl. unfold counted, unwritten in Hc. rewrite Hf, Hb, Hin, Hcl in Hc. cbn in Hc. rewrite Hc. lia.
Qed.

(** C20: once the receive loop has closed the channel, [Stop] returns: until the flusher has
    returned one of its steps is enabled and brings it closer (the measure is ten steps per
    line or barrier left), and every other step is a tick with nothing batched, which changes
    nothing, or a change of the cancel and discard flags. *)
Theorem stop_returns cfg b : reachable (clamped cfg) b -> b_closed b = true ->
  (b_flusher b <> Returned -> exists b', step (clamped cfg) b b' /\ work b' < work b) /\
  (exists b', rtc (step (clamped cfg)) b b' /\ b_flusher b' = Returned) /\
  (forall b', step (clamped cfg) b b' ->
     work b' < work b \/ idle_tick b b' \/ exists canceled discard, b' = with_flags b true canceled discard (b_inflight b)).
Proof.
  intros Hr Hc. pose proof (clamped_bounds cfg) as (Hsize & Hlines & Hmin & _). assert (0 < logMinInflightBytes)%Z by done.
  pose proof (fun b Hr => proj1 (batcher_inv (clamped cfg) Hsize ltac:(lia) b Hr)) as Hinv.
  split; [|split].
  - apply closed_enabled; auto.
  - remember (work b) as n eqn:Hn. revert b Hr Hc Hn. induction n as [n IH] using lt_wf_ind. intros b Hr Hc ->.
    destruct (decide (b_flusher b = Returned)) as [?|Hf]; [by exists b|].
    destruct (closed_enabled _ b (Hinv b Hr) Hc Hf) as (b1 & Hs & Hw).
    assert (Hr1 : reachable (clamped cfg) b1) by (eapply rtc_r; eassumption).
    assert (Hc1 : b_closed b1 = true) by (eapply closed_stays; eassumption).
    destruct (IH _ Hw b1 Hr1 Hc1 eq_refl) as (b2 & Hs2 & ?). exists b2. split; [|done]. by eapply rtc_l.
  - intros b' Hs. eapply closed_step; eauto.
Qed.

(** A connection that breaks. *)
Definition line (n : Z) : LogLine := {| JobRunID := 7; Seq := n; Text := "+ make test" |}.
(** One step of a trace; the state reached is computed. *)
Ltac computed := match goal with |- rtc _ ?b _ => let b' := eval vm_compute in b in change b with b' end.
Ltac run step := eapply rtc_l; [eapply step; try left; vm_compute; reflexivity|]; computed.
(** Nothing of a stopped batcher moves but its flags. *)
Lemma stopped_frozen c b b' : rtc (step c) b b' -> b_flusher b = Returned -> b_producer b = Closed ->
  sink b' = sink b /\ dropped b' = dropped b /\ ran b' = ran b.
Proof.
  induction 1 as [|x y z Hxy _ IH]; [done|]. intros Hf Hp.
  assert (exists closed canceled discard inflight, y = with_flags x closed canceled discard inflight) as (w1 & w2 & w3 & w4 & ->).
  { destruct Hxy as [| | |? []| | | | | | | | | | | | | |]; try congruence; by do 4 eexists. }
  destruct (IH Hf Hp) as (-> & -> & ->). done.
Qed.

(** the flusher runs under the stream's own context, so a stream that breaks stops it
    with lines still in the channel: here a line was pushed and its job's archive barrier
    queued, the context is cancelled, the flusher returns, [Stop] returns with it, and the
    line is neither written nor counted on any series, and the barrier's callback never
    runs, in any state reachable from there. *)
Theorem broken_stream_loses_lines :
  exists b, reachable (clamped defaultLogBatcherConfig) b /\ b_flusher b = Returned /\ b_producer b = Closed /\
    pushed b = [(line 1, 1%Z)] /\ lines (b_in b) = [(line 1, 1%Z)] /\
    forall b', rtc (step (clamped defaultLogBatcherConfig)) b b' -> sink b' = [] /\ dropped b' = 0 /\ ran b' = [].
Proof.
  eexists. split.
  - unfold reachable. run (step_push (clamped defaultLogBatcherConfig) start (line 1) 1). run step_check.
    run step_send. run step_add.
    eapply rtc_l; [apply (step_barrier _ _ 0); reflexivity|]; computed. run step_send.
    eapply rtc_l; [apply step_cancel|]; computed. run step_ctx_done. run step_after. run step_stop. apply rtc_refl.
  - split_and!; [reflexivity..|]. intros b' Hr. apply (stopped_frozen _ _ _ Hr); reflexivity.
Qed.

(** Ten steps of a stream that ends well: a line and a barrier, both through. *)
Lemma finished_trace : exists b, reachable (clamped defaultLogBatcherConfig) b /\ b_flusher b = Returned /\ b_canceled b = false /\
  b_closed b = true /\ sink b = [(line 1, 1%Z)] /\ ran b = [(0, 1, 1)].
Proof.
  eexists. split.
  - unfold reachable. run (step_push (clamped defaultLogBatcherConfig) start (line 1) 1). run step_check.
    run step_send. run step_line. run step_add.
    eapply rtc_l; [apply (step_barrier _ _ 0); reflexivity|]; computed. run step_send.
    run step_stop. run step_flush_barrier.
    eapply rtc_l; [eapply (step_insert _ _ [((7%N, 1%Z), [line 1])] _ ((7%N, 1%Z), [line 1]) [] Inserted); reflexivity|]; computed. run step_inserted. run step_after.
    run step_drained. run step_after. apply rtc_refl.
  - split_and!; reflexivity.
Defined.
Lemma log_lines_accounted_witness : exists b, sink b = [(line 1, 1%Z)] /\ length (pushed b) = length (sink b) + dropped b.
Proof.
  destruct finished_trace as (b & Hr & Hf & Hcan & _ & Hs & _). exists b. split; [exact Hs|].
  destruct (log_lines_accounted defaultLogBatcherConfig b Hr) as (_ & _ & _ & _ & _ & _ & H). exact (H Hf Hcan).
Defined.
Lemma stop_returns_witness : exists b b', reachable (clamped defaultLogBatcherConfig) b /\ b_flusher b = Selecting /\
  rtc (step (clamped defaultLogBatcherConfig)) b b' /\ b_flusher b' = Returned.
Proof.
  assert (exists b, reachable (clamped defaultLogBatcherConfig) b /\ b_closed b = true /\ b_flusher b = Selecting) as (b & Hr & Hc & Hf).
  { eexists. split.
    - unfold reachable. run (step_push (clamped defaultLogBatcherConfig) start (line 1) 1). run step_check.
      run step_send. run step_add. run step_stop. apply rtc_refl.
    - by split. }
  destruct (stop_returns defaultLogBatcherConfig b Hr Hc) as (_ & (b' & Hs & Hret) & _). exists b, b'. by split_and!.
Defined.
