(* ===== verification/LogBroker.v ===== *)
(** The live log broker ([logstream/broker.go]): agents' lines handed to the browsers that
    watch a run.  Any number of publishers and subscribers run interleaved; [Publish] takes
    its targets under the lock and sends after it, [Close] evicts under the lock and closes
    the channel after it, and what happens in between is the matter of this file. *)

From S2P Require Import Prelude.
Open Scope list_scope.

(** ** State *)

Record Event := { Ev_RunID : N; Ev_JobRunID : N; Ev_Seq : Z; Ev_Stream : string; Ev_At : Z; Ev_Text : string }.

(** How far [Subscriber.Close] has come: the flag taken, the broker's entry deleted, the
    channel closed.  [s.mu] is held throughout, so a second [Close] waits and returns. *)
Inductive Stage := Subscribed | Closing | Evicted | Closed.
#[export] Instance Stage_eq_dec : EqDecision Stage.
Proof. solve_decision. Defined.

(** A subscription: its channel, what its handler has read, and every event a publisher
    tried on it, with whether it was taken. *)
Record subscription := {
  sub_run : N; sub_stage : Stage; sub_buffer : list Event; sub_read : list Event; sub_offered : list (Event * bool);
}.
Record Broker := { byRun : gmap N (gset nat); subs : list subscription }.
(** A [Publish] past its snapshot: the subscriptions it found, and those it still has to try. *)
Record Publishing := { pub_event : Event; pub_found : gset nat; pub_targets : list nat }.
Record State := { broker : Broker; publishing : list Publishing; panicked : bool }.

Definition set_stage (st : Stage) (s : subscription) : subscription :=
  {| sub_run := sub_run s; sub_stage := st; sub_buffer := sub_buffer s; sub_read := sub_read s; sub_offered := sub_offered s |}.
Definition with_sub (b : Broker) (i : nat) (s : subscription) : Broker := {| byRun := byRun b; subs := <[i := s]> (subs b) |}.

Section Broker.
(** [New]'s buffer size. *)
Variable requested : Z.
Definition bufferSize : nat := if (requested <? 1)%Z then 256 else Z.to_nat requested.

(** ** Operations *)

Definition subscribers (b : Broker) (run : N) : gset nat := default ∅ (byRun b !! run).
Definition Subscribe (b : Broker) (run : N) : nat * Broker :=
  let i := length (subs b) in
  (i, {| byRun := <[run := {[i]} ∪ subscribers b run]> (byRun b);
         subs := subs b ++ [{| sub_run := run; sub_stage := Subscribed; sub_buffer := []; sub_read := []; sub_offered := [] |}] |}).

Definition SubscriberCount (b : Broker) (run : N) : nat := size (subscribers b run).

(** [Close], in three parts. *)
Definition close_flag (b : Broker) (i : nat) : Broker :=
  match subs b !! i with
  | Some s => if decide (sub_stage s = Subscribed) then with_sub b i (set_stage Closing s) else b
  | None => b
  end.
Definition evict (m : gmap N (gset nat)) (run : N) (i : nat) : gmap N (gset nat) :=
  match m !! run with
  | Some x => if decide (x ∖ {[i]} = ∅) then delete run m else <[run := x ∖ {[i]}]> m
  | None => m
  end.
Definition close_evict (b : Broker) (i : nat) : Broker :=
  match subs b !! i with
  | Some s => if decide (sub_stage s = Closing)
              then {| byRun := evict (byRun b) (sub_run s) i; subs := <[i := set_stage Evicted s]> (subs b) |}
              else b
  | None => b
  end.
Definition close_channel (b : Broker) (i : nat) : Broker :=
  match subs b !! i with
  | Some s => if decide (sub_stage s = Evicted) then with_sub b i (set_stage Closed s) else b
  | None => b
  end.

(** The non-blocking send: a full channel drops the event, a closed one panics ([None]). *)
Definition send (ev : Event) (s : subscription) : option subscription :=
  if decide (sub_stage s = Closed) then None
  else
    let fits := (length (sub_buffer s) <? bufferSize)%nat in
    Some {| sub_run := sub_run s; sub_stage := sub_stage s; sub_buffer := if fits then sub_buffer s ++ [ev] else sub_buffer s;
            sub_read := sub_read s; sub_offered := sub_offered s ++ [(ev, fits)] |}.
Definition receive (s : subscription) : option subscription :=
  match sub_buffer s with
  | ev :: rest => Some {| sub_run := sub_run s; sub_stage := sub_stage s; sub_buffer := rest; sub_read := sub_read s ++ [ev]; sub_offered := sub_offered s |}
  | [] => None
  end.

(** One turn of the loop of [Publish]. *)
Definition publish_one (st : State) (k : nat) : State :=
  match publishing st !! k with
  | Some {| pub_event := ev; pub_found := found; pub_targets := i :: rest |} =>
      match subs (broker st) !! i with
      | Some s =>
          match send ev s with
          | Some s' => {| broker := with_sub (broker st) i s';
                          publishing := <[k := {| pub_event := ev; pub_found := found; pub_targets := rest |}]> (publishing st);
                          panicked := panicked st |}
          | None => {| broker := broker st; publishing := publishing st; panicked := true |}
          end
      | None => st
      end
  | _ => st
  end.

Definition with_broker (st : State) (b : Broker) : State := {| broker := b; publishing := publishing st; panicked := panicked st |}.

(** [Publish] up to the release of the read lock; the range over the map is in any order. *)
Definition publish_start (st : State) (ev : Event) (l : list nat) : State :=
  {| broker := broker st;
     publishing := publishing st ++ [{| pub_event := ev; pub_found := subscribers (broker st) (Ev_RunID ev); pub_targets := l |}];
     panicked := panicked st |}.

(** What any goroutine of the process may do next. *)
Inductive act (st : State) : State -> Prop :=
| act_subscribe run : act st (with_broker st (Subscribe (broker st) run).2)
| act_close_flag i : act st (with_broker st (close_flag (broker st) i))
| act_close_evict i : act st (with_broker st (close_evict (broker st) i))
| act_close_channel i : act st (with_broker st (close_channel (broker st) i))
| act_receive i s s' : subs (broker st) !! i = Some s -> receive s = Some s' -> act st (with_broker st (with_sub (broker st) i s'))
| act_publish ev l : l ≡ₚ elements (subscribers (broker st) (Ev_RunID ev)) -> act st (publish_start st ev l)
| act_send k : act st (publish_one st k).
(** A panic nobody recovers ends the process. *)
Definition step (st st' : State) : Prop := panicked st = false /\ act st st'.

Definition boot : State := {| broker := {| byRun := ∅; subs := [] |}; publishing := []; panicked := false |}.
Definition reachable (st : State) : Prop := rtc step boot st.

(** ** The invariant *)

Definition taken (l : list (Event * bool)) : list Event := fst <$> filter (fun o => o.2 = true) l.
(** The events of the publishers that are through with subscription [i]. *)
Definition tried (i : nat) (l : list Publishing) : list Event :=
  pub_event <$> filter (fun p => i ∈ pub_found p /\ i ∉ pub_targets p) l.
Definition listed (s : subscription) : bool := bool_decide (sub_stage s = Subscribed \/ sub_stage s = Closing).
(** The channel keeps its capacity, every event taken is read or still held, in order, and
    nothing is dropped before the channel could have filled up. *)
Record sub_ok (s : subscription) : Prop := {
  so_bound : length (sub_buffer s) <= bufferSize;
  so_taken : sub_read s ++ sub_buffer s = taken (sub_offered s);
  so_full : forall pre ev post, sub_offered s = pre ++ (ev, false) :: post -> bufferSize <= length (taken pre);
  so_run : Forall (fun o => Ev_RunID o.1 = sub_run s) (sub_offered s);
}.
Record Inv (st : State) : Prop := {
  in_subs : Forall sub_ok (subs (broker st));
  in_listed : forall run i, i ∈ subscribers (broker st) run <->
    exists s, subs (broker st) !! i = Some s /\ sub_run s = run /\ listed s = true;
  in_entries : forall run x, byRun (broker st) !! run = Some x -> x <> ∅;
  in_targets : forall k p, publishing st !! k = Some p -> NoDup (pub_targets p) /\ list_to_set (pub_targets p) ⊆ pub_found p /\
    forall i, i ∈ pub_found p -> exists s, subs (broker st) !! i = Some s /\ sub_run s = Ev_RunID (pub_event p);
  in_tried : forall i s, subs (broker st) !! i = Some s -> fst <$> sub_offered s ≡ₚ tried i (publishing st);
}.

Lemma bufferSize_pos : 0 < bufferSize.
Proof. unfold bufferSize. destruct (Z.ltb_spec requested 1); lia. Qed.

Lemma taken_snoc l ev b : taken (l ++ [(ev, b)]) = taken l ++ (if b then [ev] else []).
Proof. unfold taken. rewrite filter_app, fmap_app. f_equal. by destruct b. Qed.

(** [o] is either an event of [l], or the one appended to it. *)
Lemma snoc_split {A} (l : list A) x pre y post : l ++ [x] = pre ++ y :: post -> (exists post', l = pre ++ y :: post') \/ (pre = l /\ y = x).
Proof.
  intros H. destruct post as [|z post _] using rev_ind.
  - apply app_inj_tail in H as [-> ->]. by right.
  - rewrite app_comm_cons, app_assoc in H. apply app_inj_tail in H as [-> _]. left. by exists post.
Qed.

Lemma tried_app i l1 l2 : tried i (l1 ++ l2) = tried i l1 ++ tried i l2.
Proof. unfold tried. by rewrite filter_app, fmap_app. Qed.
Lemma tried_cons i p l :
  tried i (p :: l) = (if decide (i ∈ pub_found p /\ i ∉ pub_targets p) then [pub_event p] else []) ++ tried i l.
Proof. unfold tried. rewrite filter_cons. by case_decide. Qed.
Lemma tried_new i l : (forall p, p ∈ l -> i ∉ pub_found p) -> tried i l = [].
Proof.
  intros H. unfold tried. induction l as [|p l IH]; [done|]. rewrite filter_cons_False; [apply IH; set_solver|].
  intros [Hp _]. apply (H p); [by left|done].
Qed.
(** Moving on to the next target counts the one just tried, and no other. *)
Lemma tried_next ev found i rest l k j :
  l !! k = Some {| pub_event := ev; pub_found := found; pub_targets := i :: rest |} -> i ∈ found -> i ∉ rest ->
  tried j (<[k := {| pub_event := ev; pub_found := found; pub_targets := rest |}]> l) ≡ₚ
    (if decide (j = i) then [ev] else []) ++ tried j l.
Proof.
  intros Hk Hf Hr. rewrite (insert_take_drop _ _ _ (lookup_lt_Some _ _ _ Hk)). rewrite <- (take_drop_middle _ _ _ Hk) at 3.
  rewrite !tried_app, !tried_cons. cbn [pub_found pub_targets pub_event].
  rewrite (Permutation_app_swap_app (if decide (j = i) then [ev] else [])). apply Permutation_app_head. rewrite app_assoc.
  apply Permutation_app_tail. destruct (decide (j = i)) as [->|Hne].
  - rewrite decide_True by done. rewrite decide_False; [done|]. intros [_ H]. apply H. by left.
  - simpl. assert ((j ∉ i :: rest) <-> j ∉ rest) as Hj by (rewrite elem_of_cons; tauto).
    repeat case_decide; try done; exfalso; tauto.
Qed.

Lemma send_ok ev s s' : sub_ok s -> sub_run s = Ev_RunID ev -> send ev s = Some s' ->
  sub_ok s' /\ sub_run s' = sub_run s /\ sub_stage s' = sub_stage s /\ fst <$> sub_offered s' = (fst <$> sub_offered s) ++ [ev].
Proof.
  intros [Hb Ht Hf Hr] Hev. unfold send. case_decide; [done|]. intros [= <-]. simpl. rewrite fmap_app. split; [|done].
  assert (Forall (fun o : Event * bool => Ev_RunID o.1 = sub_run s) (sub_offered s ++ [(ev, (length (sub_buffer s) <? bufferSize)%nat)])) as Hrun
    by (apply Forall_app; split; [done|]; constructor; [by symmetry|constructor]).
  pose proof (f_equal length Ht) as Hlen. rewrite length_app in Hlen.
  destruct (Nat.ltb_spec (length (sub_buffer s)) bufferSize) as [Hlt|Hge]; split; simpl; try done.
  - rewrite length_app. simpl. lia.
  - by rewrite taken_snoc, app_assoc, Ht.
  - intros pre e post [(post' & H')|[_ H']]%snoc_split; [eauto|by simplify_eq].
  - by rewrite taken_snoc, app_nil_r.
  - intros pre e post [(post' & H')|[-> _]]%snoc_split; [eauto|lia].
Qed.
Lemma receive_ok s s' : sub_ok s -> receive s = Some s' ->
  sub_ok s' /\ sub_run s' = sub_run s /\ sub_stage s' = sub_stage s /\ sub_offered s' = sub_offered s.
Proof.
  intros [Hb Ht Hf Hr]. unfold receive. destruct (sub_buffer s) as [|ev rest] eqn:He; [done|]. intros [= <-].
  split; [|done]. split; simpl in *; [lia| |done|done]. by rewrite <- app_assoc.
Qed.

Definition targets_ok (st : State) (p : Publishing) : Prop :=
  NoDup (pub_targets p) /\ list_to_set (pub_targets p) ⊆ pub_found p /\
  forall i, i ∈ pub_found p -> exists s, subs (broker st) !! i = Some s /\ sub_run s = Ev_RunID (pub_event p).

(** A step that rewrites one subscription and leaves its run and whether it is listed. *)
Lemma with_sub_inv st i s s' pl pk :
  Inv st -> subs (broker st) !! i = Some s -> sub_ok s' -> sub_run s' = sub_run s -> listed s' = listed s ->
  (forall k p, pl !! k = Some p -> targets_ok st p) ->
  fst <$> sub_offered s' ≡ₚ tried i pl -> (forall j, j <> i -> tried j pl ≡ₚ tried j (publishing st)) ->
  Inv {| broker := with_sub (broker st) i s'; publishing := pl; panicked := pk |}.
Proof.
  intros HI Hs Hok Hr Hl Hpl Hti Htj. pose proof (lookup_lt_Some _ _ _ Hs) as Hlt.
  assert (forall j (P : subscription -> Prop), (forall a b, sub_run a = sub_run b -> listed a = listed b -> P a <-> P b) ->
            (exists x, subs (broker st) !! j = Some x /\ P x) <-> (exists x, <[i := s']> (subs (broker st)) !! j = Some x /\ P x)) as Hj.
  { intros j P HP. destruct (decide (j = i)) as [->|Hne].
    - rewrite list_lookup_insert_eq by done. split.
      + intros (x & Hx & Hp). assert (x = s) as -> by congruence. exists s'. split; [done|]. by apply (HP s' s).
      + intros (x & [= <-] & Hp). exists s. split; [done|]. by apply (HP s' s).
    - by rewrite list_lookup_insert_ne by done. }
  split; simpl.
  - apply Forall_insert; [apply HI|done].
  - intros run j. change (subscribers (with_sub (broker st) i s') run) with (subscribers (broker st) run).
    rewrite (in_listed _ HI). apply (Hj j (fun x => sub_run x = run /\ listed x = true)). intros a b -> ->. done.
  - apply HI.
  - intros k p Hk. destruct (Hpl _ _ Hk) as (Hnd & Hin & Ht). split; [done|]. split; [done|]. intros j Hjf.
    apply (Hj j (fun x => sub_run x = Ev_RunID (pub_event p))); [by intros a b -> _|auto].
  - intros j x. destruct (decide (j = i)) as [->|Hne].
    + rewrite list_lookup_insert_eq by done. by intros [= <-].
    + rewrite list_lookup_insert_ne by done. intros Hx. rewrite Htj by done. by apply (in_tried _ HI).
Qed.
(** The same when nobody publishes. *)
Lemma with_sub_inv_same st i s s' :
  Inv st -> subs (broker st) !! i = Some s -> sub_ok s' -> sub_run s' = sub_run s -> listed s' = listed s ->
  sub_offered s' = sub_offered s -> Inv (with_broker st (with_sub (broker st) i s')).
Proof.
  intros HI Hs Hok Hr Hl Ho. apply (with_sub_inv _ _ s); try done; [apply HI|]. rewrite Ho. by apply (in_tried _ HI).
Qed.

Lemma stage_ok st s : sub_ok s -> sub_ok (set_stage st s).
Proof. by intros [? ? ? ?]. Qed.
Lemma Inv_sub st i s : Inv st -> subs (broker st) !! i = Some s -> sub_ok s.
Proof. intros HI Hs. pose proof (in_subs _ HI) as H. rewrite Forall_lookup in H. eauto. Qed.

Lemma found_lt st i p : Inv st -> p ∈ publishing st -> i ∈ pub_found p -> i < length (subs (broker st)).
Proof.
  intros HI [k Hk]%list_elem_of_lookup Hi. destruct (in_targets _ HI _ _ Hk) as (_ & _ & Ht). destruct (Ht i Hi) as (s & Hs & _).
  by eapply lookup_lt_Some.
Qed.

Lemma subscribe_inv st run : Inv st -> Inv (with_broker st (Subscribe (broker st) run).2).
Proof.
  intros HI. split; simpl.
  - apply Forall_app. split; [apply HI|]. constructor; [|constructor]. split; simpl; [lia|done| |constructor].
    intros pre ev post H. by destruct pre.
  - intros r j. unfold subscribers. cbn [byRun]. destruct (decide (r = run)) as [->|Hne].
    + rewrite lookup_insert_eq. simpl. rewrite elem_of_union, elem_of_singleton. fold (subscribers (broker st) run).
      rewrite (in_listed _ HI). split.
      * intros [->|(s & Hs & Hr & Hl)]; [|exists s; by rewrite (lookup_app_l_Some _ _ _ _ Hs)].
        eexists. split; [by apply list_lookup_middle|done].
      * intros (s & Hs & Hr & Hl). apply lookup_app_Some in Hs as [Hs|[Hge Hs]]; [right; eauto|].
        apply list_lookup_singleton_Some in Hs as [Hz _]. left. lia.
    + rewrite lookup_insert_ne by done. fold (subscribers (broker st) r). rewrite (in_listed _ HI). split.
      * intros (s & Hs & Hr & Hl). exists s. by rewrite (lookup_app_l_Some _ _ _ _ Hs).
      * intros (s & Hs & Hr & Hl). apply lookup_app_Some in Hs as [Hs|[Hge Hs]]; [eauto|].
        apply list_lookup_singleton_Some in Hs as [_ <-]. simpl in Hr. congruence.
  - intros r x. destruct (decide (r = run)) as [->|Hne]; [rewrite lookup_insert_eq; intros [= <-]; set_solver|].
    rewrite lookup_insert_ne by done. apply (in_entries _ HI).
  - intros k p Hk. destruct (in_targets _ HI _ _ Hk) as (Hnd & Hin & Ht). split; [done|]. split; [done|].
    intros i Hi. destruct (Ht i Hi) as (s & Hs & Hr). exists s. split; [by apply lookup_app_l_Some|done].
  - intros i s [Hs|[Hge Hs]]%lookup_app_Some; [by apply (in_tried _ HI)|].
    apply list_lookup_singleton_Some in Hs as [Hi <-]. simpl. rewrite tried_new; [done|]. intros p Hp Hf.
    pose proof (found_lt _ _ _ HI Hp Hf). lia.
Qed.

Lemma evict_lookup m run i r : default ∅ (evict m run i !! r) = if decide (r = run) then default ∅ (m !! r) ∖ {[i]} else default ∅ (m !! r).
Proof.
  unfold evict. destruct (m !! run) as [x|] eqn:Hx.
  - destruct (decide (r = run)) as [->|Hne]; case_decide as He.
    + rewrite lookup_delete_eq, Hx. simpl. by rewrite He.
    + by rewrite lookup_insert_eq, Hx.
    + by rewrite lookup_delete_ne by done.
    + by rewrite lookup_insert_ne by done.
  - case_decide as Hr; [|done]. rewrite Hr, Hx. simpl. set_solver.
Qed.
Lemma close_evict_inv st i : Inv st -> Inv (with_broker st (close_evict (broker st) i)).
Proof.
  intros HI. unfold close_evict. destruct (subs (broker st) !! i) as [s|] eqn:Hs; [|by destruct HI]. case_decide as Hst; [|by destruct HI].
  pose proof (lookup_lt_Some _ _ _ Hs) as Hlt. split; simpl.
  - apply Forall_insert; [apply HI|]. by eapply stage_ok, Inv_sub.
  - intros run j. unfold subscribers. cbn [byRun]. rewrite evict_lookup. fold (subscribers (broker st) run).
    assert (j ∈ (if decide (run = sub_run s) then subscribers (broker st) run ∖ {[i]} else subscribers (broker st) run)
            <-> j <> i /\ j ∈ subscribers (broker st) run) as ->.
    { case_decide as Hr; [set_solver|]. split; [|tauto]. intros Hj. split; [|done]. intros ->.
      apply (in_listed _ HI) in Hj as (s' & Hs' & Hr' & _). congruence. }
    rewrite (in_listed _ HI). destruct (decide (j = i)) as [->|Hne].
    + rewrite list_lookup_insert_eq by done. split; [by intros []|]. intros (x & [= <-] & _ & Hl). by apply bool_decide_eq_true in Hl as [].
    + rewrite list_lookup_insert_ne by done. tauto.
  - intros run x. unfold evict. destruct (byRun (broker st) !! sub_run s) as [y|] eqn:Hy; [|apply (in_entries _ HI)].
    case_decide as He; [by intros [_ Hx]%lookup_delete_Some; apply (in_entries _ HI run)|].
    intros [[_ <-]|[_ Hx]]%lookup_insert_Some; [done|by apply (in_entries _ HI run)].
  - intros k p Hk. destruct (in_targets _ HI _ _ Hk) as (Hnd & Hin & Ht). split; [done|]. split; [done|].
    intros j Hj. destruct (Ht j Hj) as (x & Hx & Hr).
    destruct (decide (j = i)) as [->|Hne]; [|exists x; by rewrite list_lookup_insert_ne].
    exists (set_stage Evicted s). rewrite list_lookup_insert_eq by done. split; [done|]. simpl. congruence.
  - intros j x. destruct (decide (j = i)) as [->|Hne]; [rewrite list_lookup_insert_eq by done; intros [= <-]|rewrite list_lookup_insert_ne by done; intros Hx];
      [by apply (in_tried _ HI _ _ Hs)|by apply (in_tried _ HI _ _ Hx)].
Qed.

Lemma stage_inv st i s sg : Inv st -> subs (broker st) !! i = Some s -> listed (set_stage sg s) = listed s ->
  Inv (with_broker st (with_sub (broker st) i (set_stage sg s))).
Proof. intros HI Hi Hl. apply (with_sub_inv_same _ _ s); try done. by eapply stage_ok, Inv_sub. Qed.

Lemma publish_start_inv st ev l : l ≡ₚ elements (subscribers (broker st) (Ev_RunID ev)) -> Inv st -> Inv (publish_start st ev l).
Proof.
  intros Hl HI. split; simpl; try apply HI.
  - intros k p [Hk|[_ Hk]]%lookup_app_Some; [by eapply in_targets|].
    apply list_lookup_singleton_Some in Hk as [_ <-]. simpl. split; [rewrite Hl; apply NoDup_elements|]. split.
    { intros i. rewrite elem_of_list_to_set, Hl, elem_of_elements. done. }
    intros i Hi. apply (in_listed _ HI) in Hi as (s & Hs & Hr & _). eauto.
  - intros i s Hs. rewrite tried_app, tried_cons. cbn [pub_found pub_targets pub_event].
    rewrite decide_False by (rewrite Hl, elem_of_elements; tauto). simpl. rewrite app_nil_r. by apply (in_tried _ HI).
Qed.

Lemma publish_one_inv st k : Inv st -> Inv (publish_one st k).
Proof.
  intros HI. unfold publish_one. destruct (publishing st !! k) as [[ev found [|i rest]]|] eqn:Hk; [done| |done].
  destruct (in_targets _ HI _ _ Hk) as (Hnd & Hin & Ht). simpl in *. apply NoDup_cons in Hnd as [Hni Hnd].
  assert (i ∈ found) as Hif by set_solver. destruct (Ht i Hif) as (s & Hs & Hr). rewrite Hs.
  destruct (send ev s) as [s'|] eqn:Hsend; [|by destruct HI].
  destruct (send_ok ev s s' (Inv_sub _ _ _ HI Hs) Hr Hsend) as (Hok & Hrun & Hst & Ho).
  apply (with_sub_inv _ _ s); [done|done|done|done|unfold listed; by rewrite Hst| | |].
  - intros k' p. destruct (decide (k' = k)) as [->|Hne]; [|rewrite list_lookup_insert_ne by done; apply (in_targets _ HI)].
    rewrite list_lookup_insert_eq by (by eapply lookup_lt_Some). intros [= <-]. unfold targets_ok. simpl. split; [done|]. split; [set_solver|done].
  - rewrite Ho, (tried_next _ _ _ _ _ _ _ Hk) by done. rewrite decide_True by done.
    rewrite (in_tried _ HI _ _ Hs). by rewrite Permutation_app_comm.
  - intros j Hj. rewrite (tried_next _ _ _ _ _ _ _ Hk) by done. by rewrite decide_False by done.
Qed.

Lemma broker_step_Inv st st' : Inv st -> step st st' -> Inv st'.
Proof.
  intros HI [_ Hs]. destruct Hs as [run|i|i|i|i s s' Hi Hr|ev l Hl|k].
  - by apply subscribe_inv.
  - unfold close_flag. destruct (subs (broker st) !! i) as [s|] eqn:Hi; [|by destruct HI]. case_decide as Hst; [|by destruct HI].
    apply stage_inv; [done|done|]. unfold listed. simpl. by rewrite Hst.
  - by apply close_evict_inv.
  - unfold close_channel. destruct (subs (broker st) !! i) as [s|] eqn:Hi; [|by destruct HI]. case_decide as Hst; [|by destruct HI].
    apply stage_inv; [done|done|]. unfold listed. simpl. by rewrite Hst.
  - destruct (receive_ok s s' (Inv_sub _ _ _ HI Hi) Hr) as (Hok & Hrun & Hst & Ho).
    apply (with_sub_inv_same _ _ s); try done. unfold listed. by rewrite Hst.
  - by apply publish_start_inv.
  - by apply publish_one_inv.
Qed.
Lemma broker_reachable_Inv st : reachable st -> Inv st.
Proof.
  revert st. apply (rtc_ind_r (fun st => Inv st) boot); [|intros s1 s2 _ Hst HI; by eapply broker_step_Inv].
  split; simpl; try done. intros run i. unfold subscribers. simpl. rewrite lookup_empty. simpl. split; [set_solver|].
  by intros (s & Hs & _).
Qed.

(** The one way to panic: the next target of a publisher has been closed since. *)
Definition panic_cause (st : State) : Prop :=
  exists k p i s, publishing st !! k = Some p /\ head (pub_targets p) = Some i /\ subs (broker st) !! i = Some s /\ sub_stage s = Closed.
Lemma publish_one_panics st k : panicked st = false -> panicked (publish_one st k) = true -> panic_cause (publish_one st k).
Proof.
  intros Hp. unfold publish_one. destruct (publishing st !! k) as [[ev found [|i rest]]|] eqn:Hk; [congruence| |congruence].
  destruct (subs (broker st) !! i) as [s|] eqn:Hs; [|congruence].
  destruct (send ev s) as [s'|] eqn:Hsend; [simpl; congruence|]. intros _. unfold send in Hsend. case_decide; [|done].
  by exists k, {| pub_event := ev; pub_found := found; pub_targets := i :: rest |}, i, s.
Qed.
Lemma reachable_panic st : reachable st -> panicked st = true -> panic_cause st.
Proof.
  revert st. apply (rtc_ind_r (fun st => panicked st = true -> panic_cause st) boot); [done|]. intros s1 s2 _ [Hp Ha] _.
  destruct Ha; simpl; try congruence. by apply publish_one_panics.
Qed.

(** A publisher on its own: as many turns as it has targets. *)
Definition publish_rest (st : State) (k : nat) : State :=
  match publishing st !! k with Some p => Nat.iter (length (pub_targets p)) (fun s => publish_one s k) st | None => st end.
Lemma publish_turn st k ev found i rest :
  Inv st -> publishing st !! k = Some {| pub_event := ev; pub_found := found; pub_targets := i :: rest |} ->
  panicked (publish_one st k) = true \/
  publishing (publish_one st k) !! k = Some {| pub_event := ev; pub_found := found; pub_targets := rest |}.
Proof.
  intros HI Hk. unfold publish_one. rewrite Hk. destruct (in_targets _ HI _ _ Hk) as (_ & Hin & Ht). simpl in *.
  destruct (Ht i) as (s & -> & _); [set_solver|]. destruct (send ev s) as [s'|]; [right|by left]. simpl.
  apply list_lookup_insert_eq. by eapply lookup_lt_Some.
Qed.
Lemma publish_one_stays st k : panicked st = true -> panicked (publish_one st k) = true.
Proof.
  intros H. unfold publish_one. destruct (publishing st !! k) as [[ev found [|i rest]]|]; [done| |done].
  destruct (subs (broker st) !! i); [|done]. by case_match.
Qed.
Lemma turns_stay n st k : panicked st = true -> panicked (Nat.iter n (fun s => publish_one s k) st) = true.
Proof. intros H. induction n as [|n IH]; simpl; [done|]. by apply publish_one_stays. Qed.
Lemma turns_end st k l : forall ev found,
  Inv st -> publishing st !! k = Some {| pub_event := ev; pub_found := found; pub_targets := l |} ->
  let st' := Nat.iter (length l) (fun s => publish_one s k) st in
  panicked st' = true \/ publishing st' !! k = Some {| pub_event := ev; pub_found := found; pub_targets := [] |}.
Proof.
  revert st. induction l as [|i l IH]; intros st ev found HI Hk; cbn [length Nat.iter]; [by right|].
  change (Nat.iter (S (length l)) (fun s => publish_one s k) st) with (publish_one (Nat.iter (length l) (fun s => publish_one s k) st) k).
  assert (publish_one (Nat.iter (length l) (fun s => publish_one s k) st) k = Nat.iter (length l) (fun s => publish_one s k) (publish_one st k)) as ->
    by (symmetry; apply (Nat.iter_swap (length l) _ (fun s => publish_one s k))).
  destruct (publish_turn _ _ _ _ _ _ HI Hk) as [Hp|Hn]; [left; by apply turns_stay|].
  apply IH; [by apply publish_one_inv|done].
Qed.
Lemma publish_rest_ends st k p : Inv st -> publishing st !! k = Some p ->
  panicked (publish_rest st k) = true \/ exists p', publishing (publish_rest st k) !! k = Some p' /\ pub_targets p' = [] /\ pub_event p' = pub_event p.
Proof.
  intros HI Hk. unfold publish_rest. rewrite Hk. destruct p as [ev found l]. cbn [pub_targets pub_event].
  destruct (turns_end st k l ev found HI Hk) as [Hp|Hn]; [by left|right; eauto].
Qed.

(** A browser that leaves while a line is on its way: [Publish] has taken its targets and
    released the lock, the handler's deferred [Close] closes the channel, and the send to it
    panics.  Nothing in the ingest path recovers. *)
Lemma publish_can_panic (ev : Event) : exists st, reachable st /\ panicked st = true.
Proof.
  set (s0 := with_broker boot (Subscribe (broker boot) (Ev_RunID ev)).2).
  set (s1 := publish_start s0 ev [0]).
  set (s2 := with_broker s1 (close_flag (broker s1) 0)).
  set (s3 := with_broker s2 (close_evict (broker s2) 0)).
  set (s4 := with_broker s3 (close_channel (broker s3) 0)).
  exists (publish_one s4 0). split; [|done].
  apply (rtc_l _ _ s0); [split; [done|constructor]|].
  apply (rtc_l _ _ s1); [split; [done|]; apply act_publish|].
  { unfold s0, subscribers. simpl. rewrite lookup_insert_eq. simpl. unfold subscribers. simpl.
    rewrite lookup_empty. simpl. by rewrite union_empty_r_L, elements_singleton. }
  apply (rtc_l _ _ s2); [split; [done|apply act_close_flag]|].
  apply (rtc_l _ _ s3); [split; [done|apply act_close_evict]|].
  apply (rtc_l _ _ s4); [split; [done|apply act_close_channel]|].
  apply rtc_once. split; [done|apply act_send].
Qed.

(** C39: In every state that subscribers, leaving browsers and publishers reach together: a
    run's entry lists exactly its subscriptions not yet evicted and is never empty; each
    subscription was offered exactly the events of the publishers that are through with it,
    all of its own run, it holds or has delivered exactly those taken, in order, within its
    capacity, and none was dropped before as many as the capacity were taken; a publisher
    alone ends in as many turns as it has targets, never waiting for a reader; and a panic
    means that a target was closed after the publisher had listed it. *)
Theorem broker_exact (st : State) (H : reachable st) :
  (forall run i, i ∈ subscribers (broker st) run <->
     exists s, subs (broker st) !! i = Some s /\ sub_run s = run /\ (sub_stage s = Subscribed \/ sub_stage s = Closing)) /\
  (forall run x, byRun (broker st) !! run = Some x -> x <> ∅) /\
  (forall i s, subs (broker st) !! i = Some s ->
     fst <$> sub_offered s ≡ₚ tried i (publishing st) /\
     Forall (fun o => Ev_RunID o.1 = sub_run s) (sub_offered s) /\
     sub_read s ++ sub_buffer s = taken (sub_offered s) /\
     length (sub_buffer s) <= bufferSize /\
     forall pre ev post, sub_offered s = pre ++ (ev, false) :: post -> bufferSize <= length (taken pre)) /\
  (forall k p, publishing st !! k = Some p -> panicked (publish_rest st k) = true \/
     exists p', publishing (publish_rest st k) !! k = Some p' /\ pub_targets p' = [] /\ pub_event p' = pub_event p) /\
  (panicked st = true -> exists k p i s,
     publishing st !! k = Some p /\ head (pub_targets p) = Some i /\ subs (broker st) !! i = Some s /\ sub_stage s = Closed).
Proof.
  pose proof (broker_reachable_Inv _ H) as HI. repeat apply conj.
  - intros run i. rewrite (in_listed _ HI). unfold listed. by setoid_rewrite bool_decide_eq_true.
  - apply HI.
  - intros i s Hs. destruct (Inv_sub _ _ _ HI Hs). by repeat split; [apply (in_tried _ HI)|..].
  - intros k p. by apply publish_rest_ends.
  - by apply reachable_panic.
Qed.
End Broker.

(** One line of run 7 to a subscriber with room for one, then a second that is dropped. *)
Definition ev_at (n : Z) : Event := {| Ev_RunID := 7; Ev_JobRunID := 1; Ev_Seq := n; Ev_Stream := "stdout"; Ev_At := n; Ev_Text := "line" |}.
Definition demo1 : State := with_broker boot (Subscribe (broker boot) 7).2.
Definition demo2 : State := publish_one 1 (publish_start demo1 (ev_at 1) [0]) 0.
Definition demo3 : State := publish_one 1 (publish_start demo2 (ev_at 2) [0]) 1.
Lemma broker_demo_reachable : reachable 1 demo3.
Proof.
  apply (rtc_l _ _ demo1); [split; [done|constructor]|].
  apply (rtc_l _ _ (publish_start demo1 (ev_at 1) [0])); [split; [done|]; apply act_publish; by vm_compute|].
  apply (rtc_l _ _ demo2); [split; [done|]; apply act_send|].
  apply (rtc_l _ _ (publish_start demo2 (ev_at 2) [0])); [split; [done|]; apply act_publish; by vm_compute|].
  apply rtc_once. split; [done|]. apply act_send.
Qed.
Lemma broker_exact_witness :
  reachable 1 demo3 /\ panicked demo3 = false /\
  (sub_buffer <$> subs (broker demo3) !! 0) = Some [ev_at 1] /\
  (sub_offered <$> subs (broker demo3) !! 0) = Some [(ev_at 1, true); (ev_at 2, false)] /\
  (forall run x, byRun (broker demo3) !! run = Some x -> x <> ∅).
Proof.
  split; [apply broker_demo_reachable|]. split; [reflexivity|]. split; [reflexivity|]. split; [reflexivity|].
  apply (broker_exact 1 demo3 broker_demo_reachable).
Defined.
