(* ===== verification/AgentCleanup.v ===== *)
(** [agent/internal/rpc/client.go], the cleanup of run services: the receive loop puts run
    ids into a bounded queue under a mutex and merges repeated requests by their highest
    generation; four workers take them and call the engine until the ceiling is stable.
    A step of the model is one critical section, one channel operation or the return of an
    engine call. *)

From S2P Require Import Prelude GoStrings Domain.

Definition cleanupQueueCap : nat := 256.
Definition cleanupWorkers : nat := 4.

(** Where a worker is: in the loop of [cleanupWorkerLoop], past a receive, inside
    [runCleanup] - with the highest ceiling processed so far, and with what follows it -
    or in [drainCleanupQueue]. *)
Inductive return_to := ToLoop | ToDrain.
Inductive worker_at :=
| Loop
| Received (runID : string)
| Ceiling (runID : string) (processed : Z) (next : return_to)
| Calling (runID : string) (maxGeneration : Z) (next : return_to)
| Failed (runID : string) (next : return_to)
| DrainLoop
| DrainReceived (runID : string)
| Gone.

Record Cleanup := {
  cleanupQueue : list string; cleanupPending : gset string; cleanupMaxGen : gmap string Z;
  workers : nat -> worker_at; canceled : bool; budgetExpired : bool;
  accepted : list (string * Z);      (* requests that were queued or merged *)
  saturated : list (string * Z);     (* requests the full queue refused *)
  calls : list (string * Z);         (* engine calls begun *)
  passes : list (string * Z);        (* engine calls that succeeded *)
  gaveUp : list (string * Z);        (* requests dropped with a failed engine call *)
  abandoned : list (string * Z);     (* requests the drain budget cut off *)
}.
Definition with_worker (s : Cleanup) (w : nat) (a : worker_at) : Cleanup := {|
  cleanupQueue := cleanupQueue s; cleanupPending := cleanupPending s; cleanupMaxGen := cleanupMaxGen s;
  workers := fun v => if decide (v = w) then a else workers s v; canceled := canceled s; budgetExpired := budgetExpired s;
  accepted := accepted s; saturated := saturated s; calls := calls s; passes := passes s; gaveUp := gaveUp s; abandoned := abandoned s |}.
Definition with_queue (s : Cleanup) (q : list string) (p : gset string) (g : gmap string Z) : Cleanup := {|
  cleanupQueue := q; cleanupPending := p; cleanupMaxGen := g; workers := workers s; canceled := canceled s; budgetExpired := budgetExpired s;
  accepted := accepted s; saturated := saturated s; calls := calls s; passes := passes s; gaveUp := gaveUp s; abandoned := abandoned s |}.
Definition with_flags (s : Cleanup) (c e : bool) : Cleanup := {|
  cleanupQueue := cleanupQueue s; cleanupPending := cleanupPending s; cleanupMaxGen := cleanupMaxGen s; workers := workers s; canceled := c;
  budgetExpired := e; accepted := accepted s; saturated := saturated s; calls := calls s; passes := passes s; gaveUp := gaveUp s; abandoned := abandoned s |}.
Definition with_log (s : Cleanup) (a f c p g b : list (string * Z)) : Cleanup := {|
  cleanupQueue := cleanupQueue s; cleanupPending := cleanupPending s; cleanupMaxGen := cleanupMaxGen s; workers := workers s; canceled := canceled s;
  budgetExpired := budgetExpired s; accepted := a; saturated := f; calls := c; passes := p; gaveUp := g; abandoned := b |}.
Definition accept (s : Cleanup) (r : string) (g : Z) : Cleanup :=
  with_log s (accepted s ++ [(r, g)]) (saturated s) (calls s) (passes s) (gaveUp s) (abandoned s).

(** The requests for a run so far. *)
Definition requests (s : Cleanup) (r : string) : list (string * Z) := filter (fun q => q.1 = r) (accepted s).

(** [enqueueRunCleanup]. *)
Definition ceiling (s : Cleanup) (runID : string) : Z := default 0%Z (cleanupMaxGen s !! runID).
Definition enqueueRunCleanup (s : Cleanup) (runID : string) (maxGeneration : Z) : Cleanup :=
  if decide (runID = "") then s
  else if decide (runID ∈ cleanupPending s) then
    accept (if (ceiling s runID <? maxGeneration)%Z
            then with_queue s (cleanupQueue s) (cleanupPending s) (<[runID := maxGeneration]> (cleanupMaxGen s)) else s) runID maxGeneration
  else if (length (cleanupQueue s) <? cleanupQueueCap) then
    accept (with_queue s (cleanupQueue s ++ [runID]) ({[runID]} ∪ cleanupPending s) (<[runID := maxGeneration]> (cleanupMaxGen s))) runID maxGeneration
  else with_log s (accepted s) (saturated s ++ [(runID, maxGeneration)]) (calls s) (passes s) (gaveUp s) (abandoned s).

Definition back (next : return_to) : worker_at := match next with ToLoop => Loop | ToDrain => DrainLoop end.
(** [clearCleanupEntry]. *)
Definition clearCleanupEntry (s : Cleanup) (runID : string) : Cleanup :=
  with_queue s (cleanupQueue s) (cleanupPending s ∖ {[runID]}) (delete runID (cleanupMaxGen s)).
(** The critical section of [runCleanup]'s loop; with no engine the entry is just cleared. *)
Definition check_ceiling (engine : bool) (s : Cleanup) (w : nat) (runID : string) (processed : Z) (next : return_to) : Cleanup :=
  if negb engine then with_worker (clearCleanupEntry (with_log s (accepted s) (saturated s) (calls s) (passes s) (gaveUp s ++ requests s runID) (abandoned s)) runID) w (back next)
  else if (ceiling s runID <=? processed)%Z then with_worker (clearCleanupEntry s runID) w (back next)
  else with_worker (with_log s (accepted s) (saturated s) (calls s ++ [(runID, ceiling s runID)]) (passes s) (gaveUp s) (abandoned s))
         w (Calling runID (ceiling s runID) next).

Section Steps.
Context (engine : bool).
Inductive step (s : Cleanup) : Cleanup -> Prop :=
| step_enqueue r g : step s (enqueueRunCleanup s r g)
| step_cancel : step s (with_flags s true (budgetExpired s))
| step_expire : canceled s = true -> step s (with_flags s true true)
| step_done w : w < cleanupWorkers -> workers s w = Loop -> canceled s = true -> step s (with_worker s w DrainLoop)
| step_receive w r q : w < cleanupWorkers -> workers s w = Loop -> cleanupQueue s = r :: q ->
    step s (with_worker (with_queue s q (cleanupPending s) (cleanupMaxGen s)) w (Received r))
| step_received w r : w < cleanupWorkers -> workers s w = Received r ->
    step s (with_worker s w (Ceiling r (-1) (if canceled s then ToDrain else ToLoop)))
| step_check w r processed next : w < cleanupWorkers -> workers s w = Ceiling r processed next ->
    step s (check_ceiling engine s w r processed next)
| step_cleaned w r g next : w < cleanupWorkers -> workers s w = Calling r g next ->
    step s (with_worker (with_log s (accepted s) (saturated s) (calls s) (passes s ++ [(r, g)]) (gaveUp s) (abandoned s)) w (Ceiling r g next))
| step_error w r g next : w < cleanupWorkers -> workers s w = Calling r g next -> step s (with_worker s w (Failed r next))
| step_clear w r next : w < cleanupWorkers -> workers s w = Failed r next ->
    step s (with_worker (clearCleanupEntry (with_log s (accepted s) (saturated s) (calls s) (passes s) (gaveUp s ++ requests s r) (abandoned s)) r) w (back next))
| step_drain_over w : w < cleanupWorkers -> workers s w = DrainLoop -> budgetExpired s = true \/ cleanupQueue s = [] -> step s (with_worker s w Gone)
| step_drain_receive w r q : w < cleanupWorkers -> workers s w = DrainLoop -> cleanupQueue s = r :: q ->
    step s (with_worker (with_queue s q (cleanupPending s) (cleanupMaxGen s)) w (DrainReceived r))
| step_drain_cleanup w r : w < cleanupWorkers -> workers s w = DrainReceived r -> budgetExpired s = false ->
    step s (with_worker s w (Ceiling r (-1) ToDrain))
| step_abandon w r : w < cleanupWorkers -> workers s w = DrainReceived r -> budgetExpired s = true ->
    step s (with_worker (with_queue (with_log s (accepted s) (saturated s) (calls s) (passes s) (gaveUp s) (abandoned s ++ requests s r))
              (cleanupQueue s) (cleanupPending s ∖ {[r]}) (cleanupMaxGen s)) w DrainLoop).

Definition start : Cleanup := {|
  cleanupQueue := []; cleanupPending := ∅; cleanupMaxGen := ∅; workers := fun _ => Loop; canceled := false; budgetExpired := false;
  accepted := []; saturated := []; calls := []; passes := []; gaveUp := []; abandoned := [] |}.
Definition reachable : Cleanup -> Prop := rtc step start.
End Steps.

(** ** Invariant *)

Definition held (a : worker_at) : option string :=
  match a with Received r | DrainReceived r | Ceiling r _ _ | Calling r _ _ | Failed r _ => Some r | Loop | DrainLoop | Gone => None end.
(** A request is answered by a pass at its generation or above, or was dropped when an
    engine call for its run failed or the shutdown budget ran out; otherwise it is owed. *)
Definition served (s : Cleanup) (r : string) (g : Z) : Prop :=
  (exists g', (r, g') ∈ passes s /\ (g <= g')%Z) \/ (r, g) ∈ gaveUp s \/ (r, g) ∈ abandoned s.
Definition owed (s : Cleanup) (r : string) (g : Z) : Prop := r ∈ cleanupPending s /\ (g <= ceiling s r)%Z.
Record inv (s : Cleanup) : Prop := {
  i_queue : NoDup (cleanupQueue s);
  i_cap : length (cleanupQueue s) <= cleanupQueueCap;
  i_held w r : w < cleanupWorkers -> held (workers s w) = Some r -> r ∉ cleanupQueue s /\ r ∈ cleanupPending s;
  i_one v w r : v < cleanupWorkers -> w < cleanupWorkers -> held (workers s v) = Some r -> held (workers s w) = Some r -> v = w;
  i_pending r : r ∈ cleanupPending s -> r ∈ cleanupQueue s \/ exists w, w < cleanupWorkers /\ held (workers s w) = Some r;
  i_queued r : r ∈ cleanupQueue s -> r ∈ cleanupPending s;
  i_ceiling r : r ∈ cleanupPending s -> exists g, cleanupMaxGen s !! r = Some g /\ (r, g) ∈ accepted s;
  i_served r g : (r, g) ∈ accepted s -> (0 <= g)%Z -> served s r g \/ owed s r g;
  i_processed w r p next : w < cleanupWorkers -> workers s w = Ceiling r p next -> p = (-1)%Z \/ (r, p) ∈ passes s;
  i_calls r g : (r, g) ∈ calls s -> (r, g) ∈ accepted s;
}.

#[local] Arguments held : simpl never.
Lemma served_mono s s' r g : passes s ⊆ passes s' -> gaveUp s ⊆ gaveUp s' -> abandoned s ⊆ abandoned s' -> served s r g -> served s' r g.
Proof. intros H1 H2 H3 [(g' & Hin & Hle)|[Hin|Hin]]; [left; exists g'; split; [by apply H1|done]|right; left; by apply H2|right; right; by apply H3]. Qed.
Lemma workers_set s w a v : workers (with_worker s w a) v = if decide (v = w) then a else workers s v.
Proof. done. Qed.

(** A worker that keeps what it holds. *)
Lemma keep_inv s w a : inv s -> held a = held (workers s w) ->
  (forall r p next, a = Ceiling r p next -> p = (-1)%Z \/ (r, p) ∈ passes s) -> inv (with_worker s w a).
Proof.
  intros [H1 H2 H3 H4 H5 H6 H7 H8 H9 H10] Hh Hp.
  assert (He : forall v, held (workers (with_worker s w a) v) = held (workers s v)) by (intros v; rewrite workers_set; destruct (decide _) as [->|]; done).
  split; try done.
  - intros v r Hv. rewrite He. by apply H3.
  - intros u v r Hu Hv. rewrite !He. by apply H4.
  - intros r Hr. destruct (H5 r Hr) as [?|(v & Hv & E)]; [by left|]. right. exists v. by rewrite He.
  - intros v r p next Hv. rewrite workers_set. destruct (decide _) as [->|]; [intros ->; by eapply Hp|by apply H9].
Qed.
(** A worker that lets go of its run. *)
Lemma let_go_inv s s' w r a : inv s -> w < cleanupWorkers -> held (workers s w) = Some r -> held a = None ->
  cleanupQueue s' = cleanupQueue s -> cleanupPending s' = cleanupPending s ∖ {[r]} ->
  (forall r', r' <> r -> cleanupMaxGen s' !! r' = cleanupMaxGen s !! r') -> workers s' = workers (with_worker s w a) ->
  accepted s' = accepted s -> passes s' = passes s -> calls s' = calls s -> gaveUp s ⊆ gaveUp s' -> abandoned s ⊆ abandoned s' ->
  (forall g, (r, g) ∈ accepted s -> (0 <= g)%Z -> owed s r g -> served s' r g) -> inv s'.
Proof.
  intros [H1 H2 H3 H4 H5 H6 H7 H8 H9 H10] Hw Hh Ha Eq Ep Em Ew Ea Es Ec Hg Hb Hs.
  assert (He : forall v, held (workers s' v) = if decide (v = w) then None else held (workers s v)) by (intros v; rewrite Ew, workers_set; by destruct (decide _)).
  split; rewrite ?Eq, ?Ep, ?Ea, ?Ec; try done.
  - intros v r' Hv. rewrite He. destruct (decide _) as [|Hne]; [done|]. intros E. destruct (H3 _ _ Hv E) as [? ?]. split; [done|].
    apply elem_of_difference. split; [done|]. intros ->%elem_of_singleton. by apply Hne, (H4 _ _ r).
  - intros u v r' Hu Hv. rewrite !He. repeat destruct (decide _); try done. by apply H4.
  - intros r' [Hr Hne%not_elem_of_singleton]%elem_of_difference. destruct (H5 _ Hr) as [?|(v & Hv & E)]; [by left|]. right. exists v. split; [done|].
    rewrite He. rewrite decide_False; [done|]. intros ->. congruence.
  - intros r' Hq. apply elem_of_difference. split; [by apply H6|]. intros ->%elem_of_singleton. by destruct (H3 _ _ Hw Hh).
  - intros r' [Hr Hne%not_elem_of_singleton]%elem_of_difference. rewrite Em by done. by apply H7.
  - intros r' g Hin Hpos. destruct (H8 _ _ Hin Hpos) as [Hsv|Ho]; [left; eapply served_mono; [| | |exact Hsv]; [by rewrite Es|done|done]|].
    destruct (decide (r' = r)) as [->|Hne]; [left; by apply Hs|]. right. destruct Ho as [Ho1 Ho2]. unfold owed, ceiling. rewrite Ep, Em by done. split; [|done]. by apply elem_of_difference; split; [|apply not_elem_of_singleton].
  - intros v r' p next Hv E. rewrite Es. apply (f_equal held) in E as E'. rewrite He in E'. rewrite Ew, workers_set in E.
    destruct (decide _); [done|]. by eapply H9.
Qed.
(** A worker that takes the first run of the queue. *)
Lemma take_inv s w a r q : inv s -> w < cleanupWorkers -> held (workers s w) = None -> cleanupQueue s = r :: q -> held a = Some r ->
  (forall r' p next, a <> Ceiling r' p next) -> inv (with_worker (with_queue s q (cleanupPending s) (cleanupMaxGen s)) w a).
Proof.
  intros [H1 H2 H3 H4 H5 H6 H7 H8 H9 H10] Hw Hh Eq Ha Hc. rewrite Eq in *. apply NoDup_cons in H1 as [Hni H1]. set (s' := with_worker _ _ _).
  assert (He : forall v, held (workers s' v) = if decide (v = w) then Some r else held (workers s v)) by (intros v; unfold s'; rewrite workers_set; by destruct (decide _)).
  split; try done.
  - cbn. simpl in H2. lia.
  - intros v r' Hv. rewrite He. destruct (decide _) as [->|Hne]; [intros [= <-]; split; [done|apply H6; by left]|].
    intros E. destruct (H3 _ _ Hv E) as [Hnq ?]. apply not_elem_of_cons in Hnq as [_ ?]. done.
  - intros u v r' Hu Hv. rewrite !He. repeat destruct (decide _); subst; try done.
    + intros [= <-] E. destruct (H3 _ _ Hv E) as [Hnq _]. by apply not_elem_of_cons in Hnq as [? _].
    + intros E [= <-]. destruct (H3 _ _ Hu E) as [Hnq _]. by apply not_elem_of_cons in Hnq as [? _].
    + by apply H4.
  - intros r' Hr. destruct (H5 _ Hr) as [[->|?]%elem_of_cons|(v & Hv & E)]; [right|by left|right].
    + exists w. rewrite He, decide_True by done. done.
    + exists v. split; [done|]. rewrite He, decide_False; [done|]. intros ->. congruence.
  - intros r' Hr. apply H6. by right.
  - intros v r' p next Hv. unfold s'. rewrite workers_set. destruct (decide _) as [->|]; [intros E; by apply Hc in E|by apply H9].
Qed.

Lemma ceiling_insert s q p r g r' : ceiling (with_queue s q p (<[r := g]> (cleanupMaxGen s))) r' = if decide (r' = r) then g else ceiling s r'.
Proof. unfold ceiling. cbn. destruct (decide _) as [->|]; [by rewrite lookup_insert_eq|by rewrite lookup_insert_ne by done]. Qed.
Lemma enqueue_inv s r g : inv s -> inv (enqueueRunCleanup s r g).
Proof.
  intros Hi. pose proof Hi as [H1 H2 H3 H4 H5 H6 H7 H8 H9 H10]. unfold enqueueRunCleanup. destruct (decide _) as [|Hr]; [done|].
  destruct (decide (r ∈ cleanupPending s)) as [Hp|Hp].
  - set (s1 := if (ceiling s r <? g)%Z then with_queue s (cleanupQueue s) (cleanupPending s) (<[r := g]> (cleanupMaxGen s)) else s).
    assert (cleanupQueue s1 = cleanupQueue s /\ cleanupPending s1 = cleanupPending s /\ workers s1 = workers s /\ accepted s1 = accepted s /\
            calls s1 = calls s /\ passes s1 = passes s /\ gaveUp s1 = gaveUp s /\ abandoned s1 = abandoned s) as (E1 & E2 & E3 & E4 & E5 & E6 & E7 & E8)
      by (unfold s1; by destruct (_ <? _)%Z).
    assert (Hc : (g <= ceiling s1 r)%Z /\ forall r', (ceiling s r' <= ceiling s1 r')%Z).
    { unfold s1. destruct (Z.ltb_spec (ceiling s r) g); [|split; [done|intros r'; lia]]. split; [rewrite ceiling_insert, decide_True by done; lia|].
      intros r'. rewrite ceiling_insert. destruct (decide _) as [->|]; lia. }
    destruct Hc as [Hc Hm]. split; cbn; rewrite ?E1, ?E2, ?E3, ?E4, ?E5, ?E6; try done.
    + intros r' Hr'. destruct (H7 _ Hr') as (g' & Hg' & Hin). unfold s1. destruct (_ <? _)%Z; cbn; [|exists g'; split; [done|]; apply elem_of_app; by left].
      destruct (decide (r' = r)) as [->|]; [exists g; rewrite lookup_insert_eq; split; [done|]; apply elem_of_app; right; by left|].
      exists g'. rewrite lookup_insert_ne by done. split; [done|]. apply elem_of_app. by left.
    + intros r' g' [Hin|[= -> ->]%list_elem_of_singleton]%elem_of_app Hpos.
      * destruct (H8 _ _ Hin Hpos) as [Hs|[Ho Hle]]; [left|right].
        -- eapply served_mono; [| | |exact Hs]; cbn; by rewrite ?E6, ?E7, ?E8.
        -- unfold owed. cbn. rewrite E2. split; [done|]. specialize (Hm r'). unfold ceiling in *. cbn. lia.
      * right. unfold owed. cbn. rewrite E2. done.
    + intros r' g' Hin. apply elem_of_app. left. by apply H10.
  - destruct (Nat.ltb_spec (length (cleanupQueue s)) cleanupQueueCap) as [Hlt|]; [|done]. split; cbn; try done.
    + apply NoDup_app. split_and!; [done| |apply NoDup_singleton]. intros x Hx ->%list_elem_of_singleton. by apply Hp, H6.
    + rewrite length_app. simpl. lia.
    + intros w r' Hw E. destruct (H3 _ _ Hw E) as [Hq Hr']. split; [|apply elem_of_union; by right].
      intros [?| ->%list_elem_of_singleton]%elem_of_app; done.
    + intros r' [->%elem_of_singleton|Hr']%elem_of_union; [left; apply elem_of_app; right; by left|].
      destruct (H5 _ Hr'); [left; apply elem_of_app; by left|by right].
    + intros r' [?| ->%list_elem_of_singleton]%elem_of_app; apply elem_of_union; [right; by apply H6|left; by apply elem_of_singleton].
    + intros r' Hr'. destruct (decide (r' = r)) as [->|Hne].
      * exists g. rewrite lookup_insert_eq. split; [done|]. apply elem_of_app. right. by left.
      * apply elem_of_union in Hr' as [->%elem_of_singleton|Hr']; [done|]. destruct (H7 _ Hr') as (g' & Hg' & Hin). exists g'.
        rewrite lookup_insert_ne by done. split; [done|]. apply elem_of_app. by left.
    + intros r' g' [Hin|[= -> ->]%list_elem_of_singleton]%elem_of_app Hpos.
      * destruct (H8 _ _ Hin Hpos) as [Hs|[Ho Hle]]; [by left|right]. unfold owed, accept, ceiling in *. cbn.
        split; [apply elem_of_union; by right|]. rewrite lookup_insert_ne; [done|]. intros ->. done.
      * right. unfold owed, accept, ceiling. cbn. rewrite lookup_insert_eq. split; [apply elem_of_union; left; by apply elem_of_singleton|done].
    + intros r' g' Hin. apply elem_of_app. left. by apply H10.
Qed.

Lemma log_inv s c p : inv s -> c ⊆ accepted s -> passes s ⊆ p -> inv (with_log s (accepted s) (saturated s) c p (gaveUp s) (abandoned s)).
Proof.
  intros [H1 H2 H3 H4 H5 H6 H7 H8 H9 H10] Hc Hp. split; cbn; try done.
  - intros r g Hin Hpos. destruct (H8 _ _ Hin Hpos) as [Hs|?]; [left|by right]. eapply served_mono; [| | |exact Hs]; done.
  - intros w r q next Hw E. destruct (H9 _ _ _ _ Hw E); [by left|right]. by apply Hp.
  - intros r g Hin. by apply Hc.
Qed.
Lemma cleanup_step_inv engine s s' : step engine s s' -> inv s -> inv s'.
Proof.
  intros Hs Hi. pose proof Hi as [H1 H2 H3 H4 H5 H6 H7 H8 H9 H10].
  destruct Hs as [r g| |Hc|w Hw Ew Hc|w r q Hw Ew Eq|w r Hw Ew|w r p next Hw Ew|w r g next Hw Ew|w r g next Hw Ew|w r next Hw Ew|w Hw Ew _|w r q Hw Ew Eq|w r Hw Ew Hb|w r Hw Ew Hb].
  - by apply enqueue_inv.
  - done.
  - done.
  - apply keep_inv; [done|by rewrite Ew|done].
  - eapply take_inv; try done. by rewrite Ew.
  - apply keep_inv; [done|by rewrite Ew|]. intros r' p' next [= -> <- _]. by left.
  - unfold check_ceiling. destruct (negb engine); [|destruct (Z.leb_spec (ceiling s r) p) as [Hle|Hgt]].
    + eapply (let_go_inv s _ w r (back next)); try done; [by rewrite Ew|by destruct next|intros; cbn; by rewrite lookup_delete_ne|cbn; intros x Hx; apply elem_of_app; by left|].
      intros g Hin _ _. right. left. cbn. apply elem_of_app. right. by apply list_elem_of_filter.
    + eapply (let_go_inv s _ w r (back next)); try done; [by rewrite Ew|by destruct next|intros; cbn; by rewrite lookup_delete_ne|].
      intros g Hin Hpos [_ Hg]. destruct (H9 _ _ _ _ Hw Ew) as [->|Hpass]; [lia|]. left. exists p. split; [done|]. lia.
    + destruct (H3 w r Hw) as [_ Hpend]; [by rewrite Ew|]. destruct (H7 _ Hpend) as (g & Hg & Hacc).
      apply keep_inv; [|by cbn; rewrite Ew|done]. apply log_inv; [done| |done]. intros x [?| ->%list_elem_of_singleton]%elem_of_app; [destruct x; by apply H10|].
      unfold ceiling. by rewrite Hg.
  - apply keep_inv; [|by cbn; rewrite Ew|].
    + apply log_inv; [done|intros [] ?; by apply H10|]. intros x Hx. apply elem_of_app. by left.
    + intros r' p' next' [= -> -> _]. right. cbn. apply elem_of_app. right. by left.
  - apply keep_inv; [done|by rewrite Ew|done].
  - eapply (let_go_inv s _ w r (back next)); try done; [by rewrite Ew|by destruct next|intros; cbn; by rewrite lookup_delete_ne|cbn; intros x Hx; apply elem_of_app; by left|].
    intros g Hin _ _. right. left. cbn. apply elem_of_app. right. by apply list_elem_of_filter.
  - apply keep_inv; [done|by rewrite Ew|done].
  - eapply take_inv; try done. by rewrite Ew.
  - apply keep_inv; [done|by rewrite Ew|]. intros r' p' next [= -> <- _]. by left.
  - eapply (let_go_inv s _ w r DrainLoop); try done; [by rewrite Ew|cbn; intros x Hx; apply elem_of_app; by left|].
    intros g Hin _ _. right. right. cbn. apply elem_of_app. right. by apply list_elem_of_filter.
Qed.
Lemma cleanup_inv engine s : reachable engine s -> inv s.
Proof.
  unfold reachable. intros Hr. assert (inv start) as Hi.
  { split; cbn; try done; try set_solver.
    - constructor.
    - unfold cleanupQueueCap. lia. }
  revert Hi. induction Hr as [|x y z Hxy _ IH]; [done|]. intros Hi. by eapply IH, cleanup_step_inv.
Qed.

(** ** Properties *)

(** C21: every cleanup request the agent took - queued, or merged with one in the queue or
    at work - is answered by an engine pass at its generation or above, is still owed by
    the queue or by exactly one worker with a ceiling that covers it, or was dropped
    with an engine call for its run that failed or by the shutdown budget.  No run is with two
    workers or queued twice, the queue is bounded, the engine is never called with a
    generation nobody asked for, and once the queue is empty and the workers idle nothing
    is owed. *)
Theorem cleanup_covers engine s : reachable engine s ->
  (forall r g, (r, g) ∈ accepted s -> (0 <= g)%Z -> served s r g \/
     ((g <= ceiling s r)%Z /\ (r ∈ cleanupQueue s \/ exists w, w < cleanupWorkers /\ held (workers s w) = Some r))) /\
  (forall v w r, v < cleanupWorkers -> w < cleanupWorkers -> held (workers s v) = Some r -> held (workers s w) = Some r -> v = w) /\
  NoDup (cleanupQueue s) /\ length (cleanupQueue s) <= cleanupQueueCap /\
  (forall r g, (r, g) ∈ calls s -> (r, g) ∈ accepted s) /\
  (cleanupQueue s = [] -> (forall w, w < cleanupWorkers -> held (workers s w) = None) ->
     forall r g, (r, g) ∈ accepted s -> (0 <= g)%Z -> served s r g).
Proof.
  intros Hr. destruct (cleanup_inv engine s Hr) as [H1 H2 H3 H4 H5 H6 H7 H8 H9 H10]. split_and!; try done.
  - intros r g Hin Hpos. destruct (H8 r g Hin Hpos) as [|[Hp Hle]]; [by left|right]. split; [done|]. by apply H5.
  - intros Hq Hw r g Hin Hpos. destruct (H8 r g Hin Hpos) as [|[Hp Hle]]; [done|]. destruct (H5 _ Hp) as [Hr'|(w & Hlt & E)].
    + rewrite Hq in Hr'. by apply elem_of_nil in Hr'.
    + by rewrite Hw in E.
Qed.

(** an engine call that fails takes with it a request merged while it ran: here the
    cleanup of generation 1 is at work, the run is revived, ended again and its generation
    2 is asked for, the first call fails, and the entry is wiped with the raised ceiling;
    the queue is empty and every worker idle, and the engine was never called for
    generation 2. *)
Theorem failed_cleanup_forgets : exists s, reachable true s /\
  accepted s = [("run", 1%Z); ("run", 2%Z)] /\ calls s = [("run", 1%Z)] /\ passes s = [] /\ abandoned s = [] /\ saturated s = [] /\
  cleanupQueue s = [] /\ cleanupPending s = ∅ /\ cleanupMaxGen s = ∅ /\ (forall w, workers s w = Loop).
Proof.
  eexists. split.
  - unfold reachable. eapply rtc_l; [apply (step_enqueue _ _ "run" 1)|]. eapply rtc_l; [apply (step_receive _ _ 0 "run" []); [unfold cleanupWorkers; lia|reflexivity|reflexivity]|].
    eapply rtc_l; [apply (step_received _ _ 0 "run"); [unfold cleanupWorkers; lia|reflexivity]|].
    eapply rtc_l; [apply (step_check _ _ 0 "run" (-1) ToLoop); [unfold cleanupWorkers; lia|reflexivity]|].
    eapply rtc_l; [apply (step_enqueue _ _ "run" 2)|].
    eapply rtc_l; [apply (step_error _ _ 0 "run" 1 ToLoop); [unfold cleanupWorkers; lia|reflexivity]|].
    eapply rtc_l; [apply (step_clear _ _ 0 "run" ToLoop); [unfold cleanupWorkers; lia|reflexivity]|]. apply rtc_refl.
  - split_and!; try (vm_compute; reflexivity). intros [|w]; vm_compute; reflexivity.
Qed.
Lemma cleanup_covers_witness : exists s, reachable true s /\ served s "run" 2.
Proof.
  eassert (exists s, reachable true s /\ accepted s = [("run", 1%Z); ("run", 2%Z)] /\ cleanupQueue s = [] /\ forall w, w < cleanupWorkers -> held (workers s w) = None) as (s & Hr & Ha & Hq & Hw).
  { eexists. split.
    - unfold reachable. eapply rtc_l; [apply (step_enqueue _ _ "run" 1)|]. eapply rtc_l; [apply (step_receive _ _ 0 "run" []); [unfold cleanupWorkers; lia|reflexivity|reflexivity]|].
      eapply rtc_l; [apply (step_received _ _ 0 "run"); [unfold cleanupWorkers; lia|reflexivity]|].
      eapply rtc_l; [apply (step_check _ _ 0 "run" (-1) ToLoop); [unfold cleanupWorkers; lia|reflexivity]|].
      eapply rtc_l; [apply (step_enqueue _ _ "run" 2)|].
      eapply rtc_l; [apply (step_cleaned _ _ 0 "run" 1 ToLoop); [unfold cleanupWorkers; lia|reflexivity]|].
      eapply rtc_l; [apply (step_check _ _ 0 "run" 1 ToLoop); [unfold cleanupWorkers; lia|reflexivity]|].
      eapply rtc_l; [apply (step_cleaned _ _ 0 "run" 2 ToLoop); [unfold cleanupWorkers; lia|reflexivity]|].
      eapply rtc_l; [apply (step_check _ _ 0 "run" 2 ToLoop); [unfold cleanupWorkers; lia|reflexivity]|]. apply rtc_refl.
    - split_and!; try (vm_compute; reflexivity). intros [|w] _; vm_compute; reflexivity. }
  exists s. split; [exact Hr|]. destruct (cleanup_covers true s Hr) as (_ & _ & _ & _ & _ & H). apply (H Hq Hw); [rewrite Ha; right; left|lia].
Defined.
