(* ===== verification/AgentDrain.v ===== *)
(** [agent/internal/rpc/drain.go], with [runStream], [sendLoop], [dispatchJob] of
    [agent/internal/rpc/client.go]: the goroutines of an agent that is told to stop - the
    jobs, the loop that alone writes to the stream, the loop that reads from it, and the
    drain - over one bounded FIFO.  A step is what one of them does between two points at
    which another may act; deadlines may pass at any of the points that wait for them. *)

From S2P Require Import Prelude GoStrings Domain.

(** ** State *)

Inductive kind := JobResult | Output | LogLine | Other.
(** [jobOutputID] and [isJobResult]. *)
Definition isOut (k : kind) : bool := match k with JobResult | Output => true | LogLine | Other => false end.
Inductive barrier := Cutoff | Final.
Definition closeSend (b : barrier) : bool := match b with Final => true | Cutoff => false end.
(** [outboundItem]; a job is named by its id, an execution of it by its [jobState]. *)
Inductive outboundItem :=
| Message (k : kind) (job : string) (by_ : nat) (state : option nat)
| Marker (b : barrier).

Inductive exec_at :=
| Executing
| Sending (item : outboundItem)    (* past the suppression check of [sendOutbound] *)
| Reported                         (* the result was handed over; services, workspace *)
| Exited                           (* [done] is closed *)
| Removed.                         (* out of [running], [jobsWG] released *)
Record jobState := { js_job : string; js_at : exec_at; js_canceled : bool; terminalSent : bool }.

Inductive sender_at := SLoop | AtBarrier (b : barrier) | SendClosed | SendFailed.
Inductive recv_end := EOF | RecvError.
Record DrainOutcome := { Clean : bool; Running : nat; FlushTimedOut : bool }.
Notation candidates := (gmap string nat).
Inductive drain_at :=
| NotDraining
| Announcing                                   (* [draining] is set; the Draining frame *)
| WaitJobs
| CleanEnqueue | CleanReached | CleanEOF       (* [flushClean] *)
| Snapshot
| CutoffEnqueue (c : candidates) | CutoffReached (c : candidates)
| Publishing (c : candidates)
| Releasing (c : candidates) (suppressed : gset string)
| Aborting (c : candidates) (suppressed : gset string)
| WaitDone (c : candidates) (suppressed : gset string)
| FinalEnqueue (c : candidates) (suppressed : gset string)
| FinalReached (c : candidates) (suppressed : gset string)
| FinalEOF (c : candidates) (suppressed : gset string)
| Abandoning (c : candidates)
| AbandonPublish (all : candidates)
| Finished (o : DrainOutcome).

Record Agent := {
  states : list jobState;                       (* every [jobState] ever made *)
  running : gmap string nat;                    (* [c.running] *)
  draining : bool; suppressed : option (gset string);
  outbound : list outboundItem; sender : sender_at;
  reached : barrier -> bool; released : barrier -> bool;
  wire : list (kind * string * nat);            (* what [stream.Send] took *)
  recv : option recv_end; ctxDone : bool;
  drainer : drain_at;
  received : list string;                       (* the assignments that arrived *)
}.
Definition outboundCap : nat := 4096.
Definition room (a : Agent) : bool := length (outbound a) <? outboundCap.

Definition with_states (a : Agent) (l : list jobState) (r : gmap string nat) (d : bool) : Agent := {|
  states := l; running := r; draining := d; suppressed := suppressed a; outbound := outbound a; sender := sender a; reached := reached a;
  released := released a; wire := wire a; recv := recv a; ctxDone := ctxDone a; drainer := drainer a; received := received a |}.
Definition with_outbound (a : Agent) (o : list outboundItem) : Agent := {|
  states := states a; running := running a; draining := draining a; suppressed := suppressed a; outbound := o; sender := sender a; reached := reached a;
  released := released a; wire := wire a; recv := recv a; ctxDone := ctxDone a; drainer := drainer a; received := received a |}.
Definition with_sender (a : Agent) (s : sender_at) (w : list (kind * string * nat)) : Agent := {|
  states := states a; running := running a; draining := draining a; suppressed := suppressed a; outbound := outbound a; sender := s; reached := reached a;
  released := released a; wire := w; recv := recv a; ctxDone := ctxDone a; drainer := drainer a; received := received a |}.
Definition with_barriers (a : Agent) (r l : barrier -> bool) : Agent := {|
  states := states a; running := running a; draining := draining a; suppressed := suppressed a; outbound := outbound a; sender := sender a; reached := r;
  released := l; wire := wire a; recv := recv a; ctxDone := ctxDone a; drainer := drainer a; received := received a |}.
Definition with_stream (a : Agent) (r : option recv_end) (c : bool) : Agent := {|
  states := states a; running := running a; draining := draining a; suppressed := suppressed a; outbound := outbound a; sender := sender a; reached := reached a;
  released := released a; wire := wire a; recv := r; ctxDone := c; drainer := drainer a; received := received a |}.
Definition with_drainer (a : Agent) (d : drain_at) (s : option (gset string)) : Agent := {|
  states := states a; running := running a; draining := draining a; suppressed := s; outbound := outbound a; sender := sender a; reached := reached a;
  released := released a; wire := wire a; recv := recv a; ctxDone := ctxDone a; drainer := d; received := received a |}.
Definition with_received (a : Agent) (l : list string) : Agent := {|
  states := states a; running := running a; draining := draining a; suppressed := suppressed a; outbound := outbound a; sender := sender a; reached := reached a;
  released := released a; wire := wire a; recv := recv a; ctxDone := ctxDone a; drainer := drainer a; received := l |}.
Definition goes (a : Agent) (d : drain_at) : Agent := with_drainer a d (suppressed a).
Definition flag (f : barrier -> bool) (b : barrier) : barrier -> bool := fun b' => match b, b' with Cutoff, Cutoff | Final, Final => true | _, _ => f b' end.

(** ** Jobs *)

(** [isSuppressed]. *)
Definition isSuppressed (a : Agent) (job : string) : bool := match suppressed a with Some s => bool_decide (job ∈ s) | None => false end.
Definition set_at (x : exec_at) (j : jobState) : jobState := {| js_job := js_job j; js_at := x; js_canceled := js_canceled j; terminalSent := terminalSent j |}.
Definition moved (a : Agent) (i : nat) (x : exec_at) : Agent := with_states a (alter (set_at x) i (states a)) (running a) (draining a).
(** [dispatchJob]. *)
Definition dispatchJob (a : Agent) (id : string) : Agent :=
  let a := with_received a (received a ++ [id]) in
  if draining a then a
  else match running a !! id with
  | Some _ => a
  | None =>
      with_states a (states a ++ [{| js_job := id; js_at := Executing; js_canceled := false; terminalSent := false |}])
        (<[id := length (states a)]> (running a)) (draining a)
  end.
(** [sendOutbound] up to its selects: a suppressed output is dropped, a result carries the
    state it finds in [running]. *)
Definition after_send (k : kind) : exec_at := match k with JobResult => Reported | _ => Executing end.
Definition sendOutbound (a : Agent) (i : nat) (job : string) (k : kind) : Agent :=
  if isOut k && isSuppressed a job then moved a i (after_send k)
  else moved a i (Sending (Message k job i (match k with JobResult => running a !! job | _ => None end))).
(** [Execute] has returned: the deferred function, up to and including [jobsWG.Done]. *)
Definition removed (a : Agent) (i : nat) (job : string) : Agent :=
  with_states a (alter (set_at Removed) i (states a)) (delete job (running a)) (draining a).

(** ** [sendLoop] *)

Definition set_sent (j : jobState) : jobState := {| js_job := js_job j; js_at := js_at j; js_canceled := js_canceled j; terminalSent := true |}.
Definition mark_sent (o : option nat) (l : list jobState) : list jobState := match o with Some i => alter set_sent i l | None => l end.
Definition send_item (a : Agent) (k : kind) (job : string) (i : nat) (st : option nat) (rest : list outboundItem) : Agent :=
  let a := with_outbound a rest in
  if isOut k && isSuppressed a job then a
  else with_sender (with_states a (mark_sent st (states a)) (running a) (draining a)) SLoop (wire a ++ [(k, job, i)]).

(** ** [drain] *)

Definition set_canceled (j : jobState) : jobState := {| js_job := js_job j; js_at := js_at j; js_canceled := true; terminalSent := terminalSent j |}.
Definition cancel_all (l : list nat) (js : list jobState) : list jobState := foldr (fun i js => alter set_canceled i js) js l.
Definition sent_of (a : Agent) (i : nat) : bool := match states a !! i with Some j => terminalSent j | None => false end.
(** The candidates whose result did not cross before the cutoff. *)
Definition unsent (a : Agent) (c : candidates) : gset string := dom (filter (fun p => sent_of a p.2 = false) c).
Definition states_of (c : candidates) (s : gset string) : list nat := (map_to_list (filter (fun p => p.1 ∈ s) c)).*2.

Inductive step (a : Agent) : Agent -> Prop :=
(* the jobs *)
| step_dispatch id : step a (dispatchJob a id)
| step_send i j k : states a !! i = Some j -> js_at j = Executing -> step a (sendOutbound a i (js_job j) k)
| step_sent i j k job st : states a !! i = Some j -> js_at j = Sending (Message k job i st) -> room a = true ->
    step a (moved (with_outbound a (outbound a ++ [Message k job i st])) i (after_send k))
| step_log_dropped i j job st : states a !! i = Some j -> js_at j = Sending (Message LogLine job i st) -> room a = false -> step a (moved a i Executing)
| step_torn_down i j k job st : states a !! i = Some j -> js_at j = Sending (Message k job i st) -> k <> LogLine -> ctxDone a = true ->
    step a (moved a i (after_send k))
| step_exit i j : states a !! i = Some j -> js_at j = Reported -> step a (moved a i Exited)
| step_removed i j : states a !! i = Some j -> js_at j = Exited -> step a (removed a i (js_job j))
(* [sendLoop] *)
| step_item k job i st rest : sender a = SLoop -> outbound a = Message k job i st :: rest -> step a (send_item a k job i st rest)
| step_item_error k job i st rest : sender a = SLoop -> outbound a = Message k job i st :: rest -> step a (with_sender (with_outbound a rest) SendFailed (wire a))
| step_heartbeat_error : sender a = SLoop -> step a (with_sender a SendFailed (wire a))
| step_reach b rest : sender a = SLoop -> outbound a = Marker b :: rest ->
    step a (with_sender (with_barriers (with_outbound a rest) (flag (reached a) b) (released a)) (AtBarrier b) (wire a))
| step_pass b : sender a = AtBarrier b -> released a b = true -> step a (with_sender a (if closeSend b then SendClosed else SLoop) (wire a))
| step_close : ctxDone a = true -> (sender a = SLoop \/ exists b, sender a = AtBarrier b) -> step a (with_sender a SendClosed (wire a))
(* [recvLoop]: the server ends the stream without an error once it has read the end of it *)
| step_eof : recv a = None -> sender a = SendClosed -> step a (with_stream a (Some EOF) (ctxDone a))
| step_recv_error : recv a = None -> step a (with_stream a (Some RecvError) (ctxDone a))
| step_teardown : recv a <> None -> step a (with_stream a (recv a) true)
(* [drain] *)
| step_trigger : drainer a = NotDraining -> step a (goes (with_states a (states a) (running a) true) Announcing)
| step_announced : drainer a = Announcing -> room a = true -> step a (goes (with_outbound a (outbound a ++ [Message Other "" 0 None])) WaitJobs)
| step_unannounced : drainer a = Announcing -> step a (goes a WaitJobs)
| step_all_done : drainer a = WaitJobs -> Forall (fun j => js_at j = Removed) (states a) -> step a (goes a CleanEnqueue)
| step_budget : drainer a = WaitJobs -> step a (goes a Snapshot)
| step_clean_barrier : drainer a = CleanEnqueue -> room a = true -> step a (goes (with_outbound a (outbound a ++ [Marker Final])) CleanReached)
| step_clean_reached : drainer a = CleanReached -> reached a Final = true -> step a (goes (with_barriers a (reached a) (flag (released a) Final)) CleanEOF)
| step_clean_eof e : drainer a = CleanEOF -> recv a = Some e ->
    step a (goes a (Finished (match e with EOF => {| Clean := true; Running := 0; FlushTimedOut := false |} | RecvError => {| Clean := false; Running := 0; FlushTimedOut := true |} end)))
| step_clean_timeout : (drainer a = CleanEnqueue \/ drainer a = CleanReached \/ drainer a = CleanEOF) ->
    step a (goes a (Finished {| Clean := false; Running := 0; FlushTimedOut := true |}))
| step_snapshot : drainer a = Snapshot -> step a (goes a (CutoffEnqueue (running a)))
| step_cutoff c : drainer a = CutoffEnqueue c -> room a = true -> step a (goes (with_outbound a (outbound a ++ [Marker Cutoff])) (CutoffReached c))
| step_cutoff_reached c : drainer a = CutoffReached c -> reached a Cutoff = true -> step a (goes a (Publishing c))
| step_publish c : drainer a = Publishing c -> step a (with_drainer a (Releasing c (unsent a c)) (Some (unsent a c)))
| step_release c s : drainer a = Releasing c s -> step a (goes (with_barriers a (reached a) (flag (released a) Cutoff)) (Aborting c s))
| step_abort c s : drainer a = Aborting c s -> step a (goes (with_states a (cancel_all (states_of c s) (states a)) (running a) (draining a)) (WaitDone c s))
| step_waited c s : drainer a = WaitDone c s -> step a (goes a (FinalEnqueue c s))
| step_final c s : drainer a = FinalEnqueue c s -> room a = true -> step a (goes (with_outbound a (outbound a ++ [Marker Final])) (FinalReached c s))
| step_final_reached c s : drainer a = FinalReached c s -> reached a Final = true ->
    step a (goes (with_barriers a (reached a) (flag (released a) Final)) (FinalEOF c s))
| step_final_eof c s e : drainer a = FinalEOF c s -> recv a = Some e ->
    step a (goes a (match e with EOF => Finished {| Clean := false; Running := size s; FlushTimedOut := false |} | RecvError => Abandoning c end))
| step_flush_timeout c : (drainer a = CutoffEnqueue c \/ drainer a = CutoffReached c \/ exists s, drainer a = FinalEnqueue c s \/ drainer a = FinalReached c s \/ drainer a = FinalEOF c s) ->
    step a (goes a (Abandoning c))
| step_abandon c : drainer a = Abandoning c -> step a (goes a (AbandonPublish (running a ∪ c)))
| step_abandoned c : drainer a = AbandonPublish c ->
    step a (with_drainer (with_states a (cancel_all (map_to_list c).*2 (states a)) (running a) (draining a))
              (Finished {| Clean := false; Running := size c; FlushTimedOut := true |}) (Some (dom c))).

Definition start : Agent := {|
  states := []; running := ∅; draining := false; suppressed := None; outbound := []; sender := SLoop; reached := fun _ => false; released := fun _ => false;
  wire := []; recv := None; ctxDone := false; drainer := NotDraining; received := [] |}.
Definition reachable : Agent -> Prop := rtc step start.

(** ** The jobs and the FIFO *)

Definition reported (j : jobState) : bool := match js_at j with Reported | Exited | Removed => true | _ => false end.
Definition result_of (it : outboundItem) : option nat := match it with Message JobResult _ i _ => Some i | _ => None end.
Definition result_items (l : list outboundItem) : list nat := omap result_of l.
Definition wire_results (w : list (kind * string * nat)) : list nat := omap (fun m => match m.1.1 with JobResult => Some m.2 | _ => None end) w.
(** A message names the execution that sent it and its job. *)
Definition item_ok (st : list jobState) (it : outboundItem) : Prop :=
  match it with
  | Message k job i s => s = (match k with JobResult => Some i | _ => None end) /\ (isOut k = true -> exists j, st !! i = Some j /\ js_job j = job)
  | Marker _ => True
  end.
Record jobs_ok (st : list jobState) (run : gmap string nat) (out : list outboundItem) (w : list (kind * string * nat)) : Prop := {
  j_running job i : run !! job = Some i <-> exists j, st !! i = Some j /\ js_job j = job /\ js_at j <> Removed;
  j_sending i j it : st !! i = Some j -> js_at j = Sending it -> exists k, it = Message k (js_job j) i (match k with JobResult => Some i | _ => None end);
  j_items it : it ∈ out -> item_ok st it;
  j_once : NoDup (wire_results w ++ result_items out);
  j_reported i : i ∈ wire_results w ++ result_items out -> exists j, st !! i = Some j /\ reported j = true;
  j_sent i j : st !! i = Some j -> terminalSent j = true <-> i ∈ wire_results w;
}.
Definition jobs_inv (a : Agent) : Prop := jobs_ok (states a) (running a) (outbound a) (wire a).

#[local] Arguments result_items : simpl never.
#[local] Arguments wire_results : simpl never.
Lemma result_items_app l l' : result_items (l ++ l') = result_items l ++ result_items l'.
Proof. apply omap_app. Qed.
Lemma result_items_cons it l : result_items (it :: l) = (match result_of it with Some i => [i] | None => [] end) ++ result_items l.
Proof. unfold result_items. simpl. by destruct (result_of it). Qed.
Lemma wire_results_snoc w k job i : wire_results (w ++ [(k, job, i)]) = wire_results w ++ (match k with JobResult => [i] | _ => [] end).
Proof. unfold wire_results. rewrite omap_app. simpl. by destruct k. Qed.

(** Changes that keep every job's id, and every result where it is. *)
Definition same_jobs (st st' : list jobState) : Prop :=
  (forall i j', st' !! i = Some j' -> exists j, st !! i = Some j /\ js_job j' = js_job j) /\
  (forall i j, st !! i = Some j -> exists j', st' !! i = Some j' /\ js_job j' = js_job j).
Lemma item_ok_same st st' it : same_jobs st st' -> item_ok st it -> item_ok st' it.
Proof.
  intros [_ H] Hit. destruct it as [k job i s|b]; [|done]. destruct Hit as [-> Hj]. split; [done|]. intros Ho. destruct (Hj Ho) as (j & Hi & Hn).
  destruct (H _ _ Hi) as (j' & Hi' & Hn'). exists j'. split; [done|congruence].
Qed.
Lemma alter_lookup (f : jobState -> jobState) (i : nat) (l : list jobState) (k : nat) j' : alter f i l !! k = Some j' ->
  exists j, l !! k = Some j /\ j' = (if decide (k = i) then f j else j).
Proof.
  destruct (decide (k = i)) as [->|Hne].
  - rewrite list_lookup_alter_eq. destruct (l !! i) as [j|] eqn:E; [|done]. intros [= <-]. eauto.
  - rewrite list_lookup_alter_ne by done. eauto.
Qed.
Lemma alter_lookup_intro (f : jobState -> jobState) (i : nat) (l : list jobState) (k : nat) j : l !! k = Some j -> alter f i l !! k = Some (if decide (k = i) then f j else j).
Proof. intros E. destruct (decide (k = i)) as [->|Hne]; [by rewrite list_lookup_alter_eq, E|by rewrite list_lookup_alter_ne]. Qed.
Lemma same_jobs_alter (f : jobState -> jobState) (i : nat) (l : list jobState) : (forall j, js_job (f j) = js_job j) -> same_jobs l (alter f i l).
Proof.
  intros Hf. split; intros k j E.
  - apply alter_lookup in E as (j0 & E & ->). exists j0. split; [done|]. by destruct (decide _).
  - eexists. split; [by apply alter_lookup_intro|]. by destruct (decide _).
Qed.

(** A job moves; its result stays where it was. *)
Lemma jobs_move st run out w i j x : jobs_ok st run out w -> st !! i = Some j -> js_at j <> Removed -> x <> Removed ->
  (reported j = true -> reported (set_at x j) = true) -> (forall it, x = Sending it -> exists k, it = Message k (js_job j) i (match k with JobResult => Some i | _ => None end)) ->
  jobs_ok (alter (set_at x) i st) run out w.
Proof.
  intros [H1 H2 H3 H4 H5 H6] Hi Hj Hx Hrep Hs. split; try done.
  - intros job k. rewrite H1. split; intros (j0 & E & En & Ea).
    + eexists. split; [by apply alter_lookup_intro|]. destruct (decide _) as [->|]; [|done]. by simplify_eq.
    + apply alter_lookup in E as (j1 & E & ->). exists j1. split; [done|]. destruct (decide _) as [->|]; [|done]. simplify_eq. done.
  - intros k j0 it E Ea. apply alter_lookup in E as (j1 & E & ->). destruct (decide _) as [->|]; [|by eapply H2]. simplify_eq. cbn in *. by apply Hs.
  - intros it Hit. eapply item_ok_same; [by apply same_jobs_alter|]. by apply H3.
  - intros k Hk. destruct (H5 _ Hk) as (j0 & E & Hr). eexists. split; [by apply alter_lookup_intro|]. destruct (decide _) as [->|]; [|done]. simplify_eq. by apply Hrep.
  - intros k j0 E. apply alter_lookup in E as (j1 & E & ->). rewrite <- (H6 _ _ E). by destruct (decide _).
Qed.
Lemma jobs_out st run out out' w : jobs_ok st run out w -> result_items out' = result_items out -> (forall it, it ∈ out' -> item_ok st it) ->
  jobs_ok st run out' w.
Proof. intros [H1 H2 H3 H4 H5 H6] E Ho. by split; rewrite ?E. Qed.
Lemma jobs_marker st run out w b : jobs_ok st run out w -> jobs_ok st run (out ++ [Marker b]) w.
Proof.
  intros H. eapply jobs_out; [exact H|rewrite result_items_app, result_items_cons; by rewrite app_nil_r|].
  intros it [?| ->%list_elem_of_singleton]%elem_of_app; [by apply (j_items _ _ _ _ H)|done].
Qed.
Lemma jobs_drop st run it out w : jobs_ok st run (it :: out) w -> jobs_ok st run out w.
Proof.
  intros [H1 H2 H3 H4 H5 H6]. rewrite result_items_cons in *. split; try done.
  - intros x Hx. apply H3. by right.
  - rewrite !NoDup_app in *. destruct H4 as (? & Hd & _ & _ & ?). split_and!; try done. intros x Hx Hin. apply (Hd x Hx), elem_of_app. by right.
  - intros i Hi. apply H5. rewrite !elem_of_app in *. tauto.
Qed.
Lemma cancel_lookup l : forall (st : list jobState) (k : nat) j', cancel_all l st !! k = Some j' -> exists j, st !! k = Some j /\ (j' = j \/ j' = set_canceled j).
Proof.
  induction l as [|i l IH]; intros st k j'; simpl; [eauto|]. intros E. apply alter_lookup in E as (j & E & ->). destruct (IH _ _ _ E) as (j0 & E0 & [->| ->]);
    exists j0; (split; [done|]); destruct (decide _); auto.
Qed.
Lemma cancel_lookup_intro l : forall (st : list jobState) (k : nat) j, st !! k = Some j -> exists j', cancel_all l st !! k = Some j' /\ (j' = j \/ j' = set_canceled j) /\ (k ∈ l -> j' = set_canceled j).
Proof.
  induction l as [|i l IH]; intros st k j E; simpl; [exists j; split_and!; auto; by intros ?%elem_of_nil|].
  destruct (IH _ _ _ E) as (j' & E' & Hj & Hc). eexists. split; [by apply alter_lookup_intro|]. destruct (decide _) as [->|Hne]; destruct Hj as [->| ->]; split_and!; auto.
  - intros [?|?]%elem_of_cons; [done|auto].
Qed.
Lemma jobs_cancel st run out w l : jobs_ok st run out w -> jobs_ok (cancel_all l st) run out w.
Proof.
  intros [H1 H2 H3 H4 H5 H6].
  assert (Hsame : same_jobs st (cancel_all l st)).
  { split; intros i j E; [apply cancel_lookup in E as (j0 & E & [->| ->]); eauto|].
    destruct (cancel_lookup_intro l _ _ _ E) as (j' & E' & [->| ->] & _); eauto. }
  split; try done.
  - intros job k. rewrite H1. split; intros (j0 & E & En & Ea).
    + destruct (cancel_lookup_intro l _ _ _ E) as (j' & E' & [->| ->] & _); eauto.
    + apply cancel_lookup in E as (j1 & E & [->| ->]); eauto.
  - intros k j0 it E Ea. apply cancel_lookup in E as (j1 & E & [->| ->]); by apply (H2 _ _ _ E).
  - intros it Hit. eapply item_ok_same; [done|]. by apply H3.
  - intros k Hk. destruct (H5 _ Hk) as (j0 & E & Hr). destruct (cancel_lookup_intro l _ _ _ E) as (j' & E' & [->| ->] & _); eauto.
  - intros k j0 E. apply cancel_lookup in E as (j1 & E & [->| ->]); by apply (H6 _ _ E).
Qed.

Lemma jobs_dispatch st run out w id : jobs_ok st run out w -> run !! id = None ->
  jobs_ok (st ++ [{| js_job := id; js_at := Executing; js_canceled := false; terminalSent := false |}]) (<[id := length st]> run) out w.
Proof.
  intros [H1 H2 H3 H4 H5 H6] Hid. set (new := {| js_job := id |}). assert (Hnew : (st ++ [new]) !! length st = Some new) by by rewrite lookup_app_r, Nat.sub_diag.
  assert (Hlk : forall i j, (st ++ [new]) !! i = Some j -> (i = length st /\ j = new) \/ st !! i = Some j).
  { intros i j [?|[Hge E]]%lookup_app_Some; [by right|left]. apply list_lookup_singleton_Some in E as [? <-]. split; [lia|done]. }
  assert (Hold : forall i j, st !! i = Some j -> (st ++ [new]) !! i = Some j) by (intros; by apply lookup_app_l_Some).
  split; try done.
  - intros job i. destruct (decide (job = id)) as [->|Hne].
    + rewrite lookup_insert_eq. split; [intros [= <-]; by exists new|]. intros (j & [[-> _]|E]%Hlk & En & Ea); [done|]. exfalso. assert (run !! id = Some i) by (apply H1; eauto). congruence.
    + rewrite lookup_insert_ne by done. rewrite H1. split; intros (j & E & En & Ea); [eauto|]. apply Hlk in E as [[_ ->]|E]; [done|eauto].
  - intros i j it [[_ ->]|E]%Hlk Ea; [done|by eapply H2].
  - intros it Hit. specialize (H3 _ Hit). destruct it as [k job i s|]; [|done]. destruct H3 as [-> Hj]. split; [done|]. intros Ho. destruct (Hj Ho) as (j & E & En). eauto.
  - intros i Hi. destruct (H5 _ Hi) as (j & E & Hr). eauto.
  - intros i j [[-> ->]|E]%Hlk; [|by apply H6]. cbn. split; [done|]. intros Hin. destruct (H5 (length st)) as (j & E & _); [apply elem_of_app; by left|].
    apply lookup_lt_Some in E. lia.
Qed.
Lemma jobs_enqueue st run out w i j k : jobs_ok st run out w -> st !! i = Some j ->
  js_at j = Sending (Message k (js_job j) i (match k with JobResult => Some i | _ => None end)) ->
  jobs_ok (alter (set_at (after_send k)) i st) run (out ++ [Message k (js_job j) i (match k with JobResult => Some i | _ => None end)]) w.
Proof.
  intros H Hi Ha. pose proof H as [H1 H2 H3 H4 H5 H6]. assert (Hnr : reported j = false) by by unfold reported; rewrite Ha.
  assert (Hm : jobs_ok (alter (set_at (after_send k)) i st) run out w).
  { apply (jobs_move _ _ _ _ _ j); try done; [by rewrite Ha|by destruct k|by rewrite Hnr|by destruct k]. }
  pose proof Hm as [M1 M2 M3 M4 M5 M6]. rewrite <- (app_nil_r (result_items out)) in *.
  set (r := match k with JobResult => [i] | _ => [] end).
  assert (Er : result_items (out ++ [Message k (js_job j) i (match k with JobResult => Some i | _ => None end)]) = result_items out ++ r).
  { rewrite result_items_app, result_items_cons. unfold r. destruct k; simpl; by rewrite ?app_nil_r. }
  assert (Hr : forall x, x ∈ r -> x = i /\ k = JobResult) by (unfold r; destruct k; intros x Hx; try (by apply elem_of_nil in Hx); by apply list_elem_of_singleton in Hx).
  assert (Hfresh : forall x, x ∈ r -> x ∉ wire_results w ++ result_items out).
  { intros x [-> _]%Hr Hin. destruct (H5 i) as (j0 & E & Hrep); [by rewrite app_nil_r|]. simplify_eq. congruence. }
  split; try done; rewrite ?Er.
  - intros it [?| ->%list_elem_of_singleton]%elem_of_app; [by apply M3|]. split; [done|]. intros _. eexists. split; [by apply alter_lookup_intro|]. by rewrite decide_True.
  - rewrite app_assoc. apply NoDup_app. split_and!; [by rewrite !app_nil_r in H4|intros x Hx Hxr; by apply (Hfresh x)|unfold r; destruct k; [apply NoDup_singleton|constructor..]].
  - intros x. rewrite app_assoc. intros [Hx|Hx]%elem_of_app; [apply M5; by rewrite app_nil_r|]. apply Hr in Hx as [-> ->].
    eexists. split; [by apply alter_lookup_intro|]. by rewrite decide_True.
Qed.
Lemma jobs_removed st run out w i j : jobs_ok st run out w -> st !! i = Some j -> js_at j = Exited ->
  jobs_ok (alter (set_at Removed) i st) (delete (js_job j) run) out w.
Proof.
  intros [H1 H2 H3 H4 H5 H6] Hi Ha. assert (Hrun : run !! js_job j = Some i) by (apply H1; exists j; by rewrite Ha).
  split; try done.
  - intros job k. destruct (decide (job = js_job j)) as [->|Hne].
    + rewrite lookup_delete_eq. split; [done|]. intros (j0 & E & En & Ex). apply alter_lookup in E as (j1 & E & ->). destruct (decide _) as [->|Hki]; [done|].
      exfalso. apply Hki. assert (run !! js_job j = Some k) by (apply H1; eauto). congruence.
    + rewrite lookup_delete_ne by done. rewrite H1. split; intros (j0 & E & En & Ex).
      * eexists. split; [by apply alter_lookup_intro|]. destruct (decide _) as [->|]; [|done]. simplify_eq.
      * apply alter_lookup in E as (j1 & E & ->). destruct (decide _) as [->|]; [done|eauto].
  - intros k j0 it E Ex. apply alter_lookup in E as (j1 & E & ->). destruct (decide _) as [->|]; [done|by eapply H2].
  - intros it Hit. eapply item_ok_same; [by apply same_jobs_alter|]. by apply H3.
  - intros k Hk. destruct (H5 _ Hk) as (j0 & E & Hr). eexists. split; [by apply alter_lookup_intro|]. by destruct (decide _).
  - intros k j0 E. apply alter_lookup in E as (j1 & E & ->). rewrite <- (H6 _ _ E). by destruct (decide _).
Qed.
Lemma jobs_wire st run out w k job i s : jobs_ok st run (Message k job i s :: out) w ->
  jobs_ok (mark_sent s st) run out (w ++ [(k, job, i)]).
Proof.
  intros H. pose proof (jobs_drop _ _ _ _ _ H) as [D1 D2 D3 D4 D5 D6]. destruct H as [H1 H2 H3 H4 H5 H6].
  destruct (H3 _ ltac:(by left)) as [-> Hj]. rewrite result_items_cons in *.
  assert (Hw : wire_results (w ++ [(k, job, i)]) = wire_results w ++ (match k with JobResult => [i] | _ => [] end)) by apply wire_results_snoc.
  assert (Hk : k <> JobResult -> jobs_ok st run out (w ++ [(k, job, i)])) by (intros Hk; split; rewrite ?Hw; destruct k; rewrite ?app_nil_r; try done).
  destruct k; try (by apply Hk). clear Hk. cbn [mark_sent result_of] in *.
  destruct (Hj eq_refl) as (j & Hi & En). assert (Hsame : same_jobs st (alter set_sent i st)) by by apply same_jobs_alter.
  split; rewrite ?Hw, <- ?app_assoc; try done.
  - intros job' k. rewrite H1. split; intros (j0 & E & En' & Ea).
    + eexists. split; [by apply alter_lookup_intro|]. by destruct (decide _).
    + apply alter_lookup in E as (j1 & E & ->). exists j1. by destruct (decide _).
  - intros k j0 it E Ea. apply alter_lookup in E as (j1 & E & ->). destruct (decide _) as [->|]; by apply (H2 _ _ _ E).
  - intros it Hit. eapply item_ok_same; [done|]. by apply D3.
  - intros k Hk. destruct (H5 _ Hk) as (j0 & E & Hr). eexists. split; [by apply alter_lookup_intro|]. by destruct (decide _).
  - intros k j0 E. apply alter_lookup in E as (j1 & E & ->). rewrite elem_of_app, list_elem_of_singleton. destruct (decide _) as [->|Hne]; cbn.
    + split; [by right|done].
    + rewrite (H6 _ _ E). naive_solver.
Qed.

(** ** The drain *)

Definition healthy (a : Agent) : Prop := recv a <> Some RecvError /\ sender a <> SendFailed.
Definition wired (a : Agent) (i : nat) : Prop := i ∈ wire_results (wire a).
(** The barrier was reached, and the results of [S] are on the wire; or it is queued, and
    they are on the wire or before it. *)
Definition ahead (a : Agent) (b : barrier) (S : nat -> string -> Prop) : Prop :=
  if reached a b then forall i j, states a !! i = Some j -> S i (js_job j) -> wired a i
  else exists before after, outbound a = before ++ Marker b :: after /\ Marker b ∉ before /\
    forall i j, states a !! i = Some j -> S i (js_job j) -> i ∈ wire_results (wire a) ++ result_items before.
Definition begun (d : drain_at) (b : barrier) : bool :=
  match d, b with
  | (NotDraining | Announcing | WaitJobs | CleanEnqueue | Snapshot | CutoffEnqueue _), _ => false
  | (CleanReached | CleanEOF | FinalReached _ _ | FinalEOF _ _ | Abandoning _ | AbandonPublish _ | Finished _), _ => true
  | _, Cutoff => true
  | _, Final => false
  end.
Definition passed (d : drain_at) : bool :=
  match d with CleanEOF | FinalEOF _ _ | Abandoning _ | AbandonPublish _ | Finished _ => true | _ => false end.
Record stream_inv (a : Agent) : Prop := {
  s_ctx : ctxDone a = true -> recv a <> None;
  s_eof : recv a = Some EOF -> sender a = SendClosed;
  s_open : healthy a -> released a Final = false -> sender a <> SendClosed;
  s_account i j : healthy a -> sender a <> SendClosed -> states a !! i = Some j -> reported j = true ->
    i ∈ wire_results (wire a) ++ result_items (outbound a) \/ isSuppressed a (js_job j) = true;
  s_marks b : begun (drainer a) b = false -> Marker b ∉ outbound a /\ reached a b = false /\ released a b = false /\ sender a <> AtBarrier b;
  s_released : passed (drainer a) = false -> released a Final = false;
}.

Definition cand (a : Agent) (c : candidates) : Prop := forall job i, c !! job = Some i -> exists j, states a !! i = Some j /\ js_job j = job.
Definition cut (a : Agent) (c : candidates) (s : gset string) : Prop :=
  draining a = true /\ suppressed a = Some s /\ s ⊆ dom c /\ cand a c /\
  (healthy a -> forall i j, states a !! i = Some j -> wired a i <-> ~ (c !! js_job j = Some i /\ js_job j ∈ s)).
Definition aborted (a : Agent) (c : candidates) (s : gset string) : Prop :=
  forall i j, states a !! i = Some j -> c !! js_job j = Some i -> js_job j ∈ s -> js_canceled j = true.
Definition all_removed (a : Agent) : Prop := forall i j, states a !! i = Some j -> js_at j = Removed.
Definition conclusion (a : Agent) (o : DrainOutcome) : Prop :=
  draining a = true /\
  (forall i j, states a !! i = Some j -> js_at j = Removed \/ wired a i \/ (isSuppressed a (js_job j) = true /\ js_canceled j = true)) /\
  (Clean o = true -> forall i j, states a !! i = Some j -> wired a i /\ js_at j = Removed) /\
  (Clean o = false -> FlushTimedOut o = false -> exists c s, Running o = size s /\ s ⊆ dom c /\ cand a c /\ suppressed a = Some s /\
     forall i j, states a !! i = Some j -> (wired a i <-> ~ (c !! js_job j = Some i /\ js_job j ∈ s)) /\
       (c !! js_job j = Some i -> js_job j ∈ s -> js_canceled j = true)).
Definition phase_ok (a : Agent) : Prop :=
  match drainer a with
  | NotDraining => draining a = false /\ suppressed a = None
  | Announcing | WaitJobs | Snapshot => draining a = true /\ suppressed a = None
  | CleanEnqueue => draining a = true /\ suppressed a = None /\ all_removed a
  | CleanReached => draining a = true /\ suppressed a = None /\ all_removed a /\ (healthy a -> ahead a Final (fun _ _ => True))
  | CleanEOF => draining a = true /\ suppressed a = None /\ all_removed a /\ (healthy a -> forall i j, states a !! i = Some j -> wired a i)
  | CutoffEnqueue c => draining a = true /\ suppressed a = None /\ cand a c /\
      forall i j, states a !! i = Some j -> c !! js_job j <> Some i -> js_at j = Removed
  | CutoffReached c => draining a = true /\ suppressed a = None /\ cand a c /\ (healthy a -> ahead a Cutoff (fun i job => c !! job <> Some i))
  | Publishing c => draining a = true /\ suppressed a = None /\ cand a c /\
      (healthy a -> forall i j, states a !! i = Some j -> c !! js_job j <> Some i -> wired a i)
  | Releasing c s | Aborting c s => cut a c s
  | WaitDone c s | FinalEnqueue c s | FinalReached c s | FinalEOF c s => cut a c s /\ aborted a c s
  | Abandoning c => draining a = true /\ forall job, isSuppressed a job = true -> job ∈ dom c
  | AbandonPublish c => draining a = true /\ (forall job, isSuppressed a job = true -> job ∈ dom c) /\
      forall i j, states a !! i = Some j -> js_at j = Removed \/ c !! js_job j = Some i
  | Finished o => conclusion a o
  end.

(** *** What jobs, the writer and the reader do to a drain under way *)

Definition later (j j' : jobState) : Prop :=
  js_job j' = js_job j /\ (js_at j = Removed -> js_at j' = Removed) /\ (js_canceled j = true -> js_canceled j' = true).
Record quiet (a a' : Agent) : Prop := {
  q_drainer : drainer a' = drainer a; q_draining : draining a' = draining a; q_suppressed : suppressed a' = suppressed a;
  q_back i j' : draining a = true -> states a' !! i = Some j' -> exists j, states a !! i = Some j /\ later j j';
  q_fwd i j : states a !! i = Some j -> exists j', states a' !! i = Some j' /\ later j j';
  q_wire i : wired a i -> wired a' i;
  q_new i : wired a' i -> wired a i \/ exists j, states a !! i = Some j /\ isSuppressed a (js_job j) = false;
  q_healthy : healthy a' -> healthy a;
  q_ahead b S : healthy a' -> draining a = true -> suppressed a = None -> ahead a b S -> ahead a' b S;
}.
Lemma quiet_cand a a' c : quiet a a' -> cand a c -> cand a' c.
Proof. intros Hq Hc job i E. destruct (Hc _ _ E) as (j & Hi & En). destruct (q_fwd _ _ Hq _ _ Hi) as (j' & Hi' & En' & _). exists j'. split; [done|congruence]. Qed.
(** What was sent before the cutoff stays sent, and the suppressed jobs stay unsent. *)
Lemma quiet_cut_iff a a' (c : candidates) s : quiet a a' -> draining a = true -> suppressed a = Some s ->
  (forall i j, states a !! i = Some j -> wired a i <-> ~ (c !! js_job j = Some i /\ js_job j ∈ s)) ->
  forall i j, states a' !! i = Some j -> wired a' i <-> ~ (c !! js_job j = Some i /\ js_job j ∈ s).
Proof.
  intros Hq Hd Hs H i j' Hi'. destruct (q_back _ _ Hq _ _ Hd Hi') as (j & Hi & En & _). rewrite En. split.
  - intros Hw [Hc Hin]. destruct (q_new _ _ Hq _ Hw) as [Hw0|(j0 & Hi0 & Hns)].
    + exact (proj1 (H _ _ Hi) Hw0 (conj Hc Hin)).
    + assert (j0 = j) as -> by congruence. unfold isSuppressed in Hns. rewrite Hs in Hns. by apply bool_decide_eq_false in Hns.
  - intros Hn. apply (q_wire _ _ Hq). by apply (H _ _ Hi).
Qed.
Lemma quiet_cut a a' c s : quiet a a' -> cut a c s -> cut a' c s.
Proof.
  intros Hq (Hd & Hs & Hsub & Hc & H). split_and!; [by rewrite (q_draining _ _ Hq)|by rewrite (q_suppressed _ _ Hq)|done|by eapply quiet_cand|].
  intros Hh. eapply quiet_cut_iff; [done..|]. by apply H, (q_healthy _ _ Hq).
Qed.
Lemma quiet_aborted a a' c s : quiet a a' -> draining a = true -> aborted a c s -> aborted a' c s.
Proof. intros Hq Hd H i j' Hi' Hc Hin. destruct (q_back _ _ Hq _ _ Hd Hi') as (j & Hi & En & _ & Hcan). rewrite En in *. by eapply Hcan, H. Qed.
Lemma quiet_removed a a' : quiet a a' -> draining a = true -> all_removed a -> all_removed a'.
Proof. intros Hq Hd H i j' Hi'. destruct (q_back _ _ Hq _ _ Hd Hi') as (j & Hi & _ & Hr & _). by eapply Hr, H. Qed.
Lemma quiet_suppressed a a' : quiet a a' -> forall job, isSuppressed a' job = isSuppressed a job.
Proof. intros Hq job. unfold isSuppressed. by rewrite (q_suppressed _ _ Hq). Qed.
Lemma quiet_conclusion a a' o : quiet a a' -> conclusion a o -> conclusion a' o.
Proof.
  intros Hq (Hd & Hall & Hcl & Hto). split_and!; [by rewrite (q_draining _ _ Hq)| | |].
  - intros i j' Hi'. destruct (q_back _ _ Hq _ _ Hd Hi') as (j & Hi & En & Hr & Hcan). rewrite En, (quiet_suppressed a a' Hq).
    destruct (Hall _ _ Hi) as [?|[?|[? ?]]]; [left; auto|right; left; by apply (q_wire _ _ Hq)|right; right; auto].
  - intros Hc i j' Hi'. destruct (q_back _ _ Hq _ _ Hd Hi') as (j & Hi & _ & Hr & _). destruct (Hcl Hc _ _ Hi). split; [by apply (q_wire _ _ Hq)|auto].
  - intros Hc Hf. destruct (Hto Hc Hf) as (c & s & Hn & Hsub & Hca & Hs & H). exists c, s. split_and!; [done|done|by eapply quiet_cand|by rewrite (q_suppressed _ _ Hq)|].
    intros i j' Hi'. split.
    + eapply quiet_cut_iff; [done..| |done]. intros k j Hk. by apply H.
    + destruct (q_back _ _ Hq _ _ Hd Hi') as (j & Hi & En & _ & Hcan). rewrite En. intros Hci Hin. apply Hcan. by apply (H _ _ Hi).
Qed.
Lemma quiet_wired a a' (S : nat -> string -> Prop) : quiet a a' -> draining a = true ->
  (healthy a -> forall i j, states a !! i = Some j -> S i (js_job j) -> wired a i) -> healthy a' -> forall i j, states a' !! i = Some j -> S i (js_job j) -> wired a' i.
Proof.
  intros Hq Hd H Hh i j' Hi' HS. destruct (q_back _ _ Hq _ _ Hd Hi') as (j & Hi & En & _). rewrite En in HS.
  apply (q_wire _ _ Hq). by eapply H; [apply (q_healthy _ _ Hq)| |].
Qed.
Lemma quiet_phase a a' : quiet a a' -> phase_ok a -> phase_ok a'.
Proof.
  intros Hq. unfold phase_ok. rewrite (q_drainer _ _ Hq), (q_draining _ _ Hq), (q_suppressed _ _ Hq). pose proof (quiet_cand a a') as Hcand.
  pose proof (fun H => quiet_suppressed a a' H) as Hsup. destruct (drainer a); try done.
  - intros (Hd & Hs & Hr). split_and!; [done..|by eapply quiet_removed].
  - intros (Hd & Hs & Hr & Ha). split_and!; [done..|by eapply quiet_removed|]. intros Hh. apply (q_ahead _ _ Hq); try done. by apply Ha, (q_healthy _ _ Hq).
  - intros (Hd & Hs & Hr & Ha). split_and!; [done..|by eapply quiet_removed|]. intros Hh i j Hi.
    eapply (quiet_wired a a' (fun _ _ => True)); try done. intros Hh' k j' Hk _. by eapply Ha.
  - intros (Hd & Hs & Hc & H). split_and!; [done..|by eapply Hcand|]. intros i j' Hi' Hn.
    destruct (q_back _ _ Hq _ _ Hd Hi') as (j & Hi & En & Hr & _). rewrite En in Hn. by eapply Hr, H.
  - intros (Hd & Hs & Hc & H). split_and!; [done..|by eapply Hcand|]. intros Hh. apply (q_ahead _ _ Hq); try done. by apply H, (q_healthy _ _ Hq).
  - intros (Hd & Hs & Hc & H). split_and!; [done..|by eapply Hcand|]. intros Hh i j Hi Hn. by eapply (quiet_wired a a' (fun i job => c !! job <> Some i)).
  - intros H. by eapply quiet_cut.
  - intros H. by eapply quiet_cut.
  - intros [H Ha]. split; [by eapply quiet_cut|]. eapply quiet_aborted; [done| |done]. by destruct H.
  - intros [H Ha]. split; [by eapply quiet_cut|]. eapply quiet_aborted; [done| |done]. by destruct H.
  - intros [H Ha]. split; [by eapply quiet_cut|]. eapply quiet_aborted; [done| |done]. by destruct H.
  - intros [H Ha]. split; [by eapply quiet_cut|]. eapply quiet_aborted; [done| |done]. by destruct H.
  - intros [Hd H]. split; [done|]. intros job. rewrite Hsup by done. apply H.
  - intros (Hd & H & Hr). split_and!; [done|intros job; rewrite Hsup by done; apply H|]. intros i j' Hi'.
    destruct (q_back _ _ Hq _ _ Hd Hi') as (j & Hi & En & Hrem & _). rewrite En. destruct (Hr _ _ Hi); auto.
  - by apply quiet_conclusion.
Qed.

(** *** The steps of the jobs *)

Lemma job_later_refl j : later j j.
Proof. by split_and!. Qed.
Lemma back_alter (f : jobState -> jobState) (i : nat) (l : list jobState) : (forall j, l !! i = Some j -> later j (f j)) ->
  (forall k j', alter f i l !! k = Some j' -> exists j, l !! k = Some j /\ later j j') /\
  (forall k j, l !! k = Some j -> exists j', alter f i l !! k = Some j' /\ later j j').
Proof.
  intros Hf. split; intros k j E.
  - apply alter_lookup in E as (j0 & E & ->). exists j0. split; [done|]. destruct (decide (k = i)) as [->|]; [by apply Hf|apply job_later_refl].
  - eexists. split; [by apply alter_lookup_intro|]. destruct (decide (k = i)) as [->|]; [by apply Hf|apply job_later_refl].
Qed.
Lemma quiet_grow a a' l : drainer a' = drainer a -> draining a' = draining a -> suppressed a' = suppressed a -> wire a' = wire a ->
  recv a' = recv a -> sender a' = sender a -> reached a' = reached a -> outbound a' = outbound a ++ l ->
  (forall i j', draining a = true -> states a' !! i = Some j' -> exists j, states a !! i = Some j /\ later j j') ->
  (forall i j, states a !! i = Some j -> exists j', states a' !! i = Some j' /\ later j j') -> quiet a a'.
Proof.
  intros E1 E2 E3 E4 E5 E6 E7 E8 Hb Hf. split; try done; unfold wired, healthy in *; rewrite ?E4, ?E5, ?E6; try done.
  - by left.
  - intros b S _ Hd _. unfold ahead. rewrite E7, E8, E4. destruct (reached a b).
    + intros H i j' Hi' HS. destruct (Hb _ _ Hd Hi') as (j & Hi & En & _). rewrite En in HS. unfold wired. rewrite E4. by eapply H.
    + intros (before & after & E & Hn & H). exists before, (after ++ l). rewrite E, <- app_assoc. split_and!; [done|done|].
      intros i j' Hi' HS. destruct (Hb _ _ Hd Hi') as (j & Hi & En & _). rewrite En in HS. by eapply H.
Qed.
Lemma stream_grow a a' l : stream_inv a -> drainer a' = drainer a -> suppressed a' = suppressed a -> wire a' = wire a ->
  recv a' = recv a -> ctxDone a' = ctxDone a -> sender a' = sender a -> reached a' = reached a -> released a' = released a ->
  outbound a' = outbound a ++ l -> (forall b, Marker b ∉ l) ->
  (forall i j', healthy a -> sender a <> SendClosed -> states a' !! i = Some j' -> reported j' = true ->
     (exists j, states a !! i = Some j /\ reported j = true /\ js_job j' = js_job j) \/ i ∈ result_items l \/ isSuppressed a (js_job j') = true) -> stream_inv a'.
Proof.
  intros [H1 H2 H3 H4 H5 H6] E1 E2 E3 E4 E5 E6 E7 E8 E9 Hl Hacc. unfold healthy, isSuppressed in *. split; unfold healthy, isSuppressed; rewrite ?E1, ?E2, ?E3, ?E4, ?E5, ?E6, ?E7, ?E8, ?E9; try done.
  - intros i j' Hh Hs Hi' Hr. rewrite result_items_app, !elem_of_app. destruct (Hacc _ _ Hh Hs Hi' Hr) as [(j & Hi & Hrj & En)|[?|?]]; [|tauto|tauto].
    rewrite En. specialize (H4 _ _ Hh Hs Hi Hrj). rewrite elem_of_app in H4. tauto.
  - intros b Hb. destruct (H5 b Hb) as (Hm & ? & ? & ?). split_and!; try done. intros [?|?]%elem_of_app; [done|by apply (Hl b)].
Qed.
Lemma job_moved a i j x : jobs_inv a -> stream_inv a -> states a !! i = Some j -> js_at j <> Removed -> x <> Removed ->
  (reported j = true -> reported (set_at x j) = true) -> (forall it, x <> Sending it) ->
  (healthy a -> sender a <> SendClosed -> reported (set_at x j) = true -> reported j = true \/ isSuppressed a (js_job j) = true) ->
  jobs_inv (moved a i x) /\ stream_inv (moved a i x) /\ quiet a (moved a i x).
Proof.
  intros Hj Hs Hi Ha Hx Hrep Hns Hacc. destruct (back_alter (set_at x) i (states a)) as [Hb Hf].
  { intros j0 E. assert (j0 = j) as -> by congruence. by split_and!. }
  split_and!.
  - apply (jobs_move _ _ _ _ _ j); try done. intros it ->. by destruct (Hns it).
  - apply (stream_grow a _ []); try done; [by rewrite app_nil_r|intros b ?; by apply (not_elem_of_nil (Marker b))|].
    intros k j' Hh Hsn E Hr. apply alter_lookup in E as (j0 & E & ->). destruct (decide (k = i)) as [->|]; [|left; eauto].
    assert (j0 = j) as -> by congruence. destruct (Hacc Hh Hsn Hr) as [?|?]; [left; eauto|right; by right].
  - apply (quiet_grow a _ []); try done; [by rewrite app_nil_r|]. eauto.
Qed.
Lemma job_sending a i j k : jobs_inv a -> stream_inv a -> states a !! i = Some j -> js_at j = Executing ->
  let it := Message k (js_job j) i (match k with JobResult => running a !! js_job j | _ => None end) in
  jobs_inv (moved a i (Sending it)) /\ stream_inv (moved a i (Sending it)) /\ quiet a (moved a i (Sending it)).
Proof.
  intros Hj Hs Hi Ha it. destruct (back_alter (set_at (Sending it)) i (states a)) as [Hb Hf].
  { intros j0 E. assert (j0 = j) as -> by congruence. split_and!; [done|by rewrite Ha|done]. }
  assert (Hrun : running a !! js_job j = Some i) by (apply (j_running _ _ _ _ Hj); exists j; by rewrite Ha).
  split_and!.
  - apply (jobs_move _ _ _ _ _ j); try done; [by rewrite Ha|by unfold reported; rewrite Ha|]. intros it' [= <-]. exists k. subst it. destruct k; by rewrite ?Hrun.
  - apply (stream_grow a _ []); try done; [by rewrite app_nil_r|intros b ?; by apply (not_elem_of_nil (Marker b))|].
    intros n j' Hh Hsn E Hr. apply alter_lookup in E as (j0 & E & ->). destruct (decide (n = i)) as [->|]; [done|left; eauto].
  - apply (quiet_grow a _ []); try done; [by rewrite app_nil_r|]. eauto.
Qed.
Lemma job_sent a i j k job st : jobs_inv a -> stream_inv a -> states a !! i = Some j -> js_at j = Sending (Message k job i st) ->
  let a' := moved (with_outbound a (outbound a ++ [Message k job i st])) i (after_send k) in jobs_inv a' /\ stream_inv a' /\ quiet a a'.
Proof.
  intros Hj Hs Hi Ha. destruct (j_sending _ _ _ _ Hj _ _ _ Hi Ha) as (k' & [= <- -> ->]). cbv zeta. destruct (back_alter (set_at (after_send k)) i (states a)) as [Hb Hf].
  { intros j0 E. assert (j0 = j) as -> by congruence. split_and!; [done|by rewrite Ha|done]. }
  split_and!.
  - by apply jobs_enqueue.
  - eapply (stream_grow a _ [_]); try done; [intros b Hm%list_elem_of_singleton; done|].
    intros n j' Hh Hsn E Hr. apply alter_lookup in E as (j0 & E & ->). destruct (decide (n = i)) as [->|]; [|left; eauto].
    right. left. destruct k; try done. rewrite result_items_cons. by left.
  - eapply (quiet_grow a _ [_]); try done; eauto.
Qed.
Lemma job_dispatched a id : jobs_inv a -> stream_inv a -> jobs_inv (dispatchJob a id) /\ stream_inv (dispatchJob a id) /\ quiet a (dispatchJob a id).
Proof.
  intros Hj Hs. unfold dispatchJob. cbv zeta. set (b := with_received _ _).
  assert (Hsame : jobs_inv b /\ stream_inv b /\ quiet a b).
  { split_and!; [done| |].
    - apply (stream_grow a _ []); try done; [by rewrite app_nil_r|intros x ?; by apply (not_elem_of_nil (Marker x))|]. intros i j' _ _ E Hr. left. eauto.
    - apply (quiet_grow a _ []); try done; [by rewrite app_nil_r| |].
      + intros i j _ E. exists j. split; [done|apply job_later_refl].
      + intros i j E. exists j. split; [done|apply job_later_refl]. }
  destruct (draining b) eqn:Ed; [done|]. destruct (running b !! id) eqn:Er; [done|]. clear Hsame.
  set (new := {| js_job := id |}). split_and!.
  - by apply jobs_dispatch.
  - apply (stream_grow a _ []); try done; [by rewrite app_nil_r|intros x ?; by apply (not_elem_of_nil (Marker x))|].
    intros i j' _ _ [E|[_ E]]%lookup_app_Some Hr; [left; eauto|]. apply list_lookup_singleton_Some in E as [_ <-]. done.
  - apply (quiet_grow a _ []); try done; [by rewrite app_nil_r|..].
    + intros i j' Hd. cbn in Ed. congruence.
    + intros i j E. exists j. split; [by apply lookup_app_l_Some|apply job_later_refl].
Qed.
Lemma job_removed a i j : jobs_inv a -> stream_inv a -> states a !! i = Some j -> js_at j = Exited ->
  jobs_inv (removed a i (js_job j)) /\ stream_inv (removed a i (js_job j)) /\ quiet a (removed a i (js_job j)).
Proof.
  intros Hj Hs Hi Ha. destruct (back_alter (set_at Removed) i (states a)) as [Hb Hf].
  { intros j0 _. by split_and!. }
  split_and!.
  - by apply jobs_removed.
  - apply (stream_grow a _ []); try done; [by rewrite app_nil_r|intros b ?; by apply (not_elem_of_nil (Marker b))|].
    intros k j' _ _ E Hr. apply alter_lookup in E as (j0 & E & ->). left. exists j0. split; [done|]. destruct (decide (k = i)) as [->|]; [|done].
    assert (j0 = j) as -> by congruence. unfold reported. by rewrite Ha.
  - apply (quiet_grow a _ []); try done; [by rewrite app_nil_r|]. eauto.
Qed.

(** *** The steps of the writer and the reader *)

Lemma quiet_stream a a' : states a' = states a -> drainer a' = drainer a -> draining a' = draining a -> suppressed a' = suppressed a -> wire a' = wire a ->
  reached a' = reached a -> (healthy a' -> healthy a) -> (healthy a' -> outbound a' = outbound a) -> quiet a a'.
Proof.
  intros E1 E2 E3 E4 E5 E6 Hh Ho. split; try done; unfold wired; rewrite ?E1, ?E5; try done.
  - intros i j _ E. exists j. split; [done|apply job_later_refl].
  - intros i j E. exists j. split; [done|apply job_later_refl].
  - by left.
  - intros b S Hh' _ _. unfold ahead, wired. by rewrite E6, E1, E5, Ho.
Qed.
Lemma account_drop a k job i st rest : jobs_inv a -> outbound a = Message k job i st :: rest -> isOut k && isSuppressed a job = true ->
  forall n j, states a !! n = Some j -> n ∈ wire_results (wire a) ++ result_items (outbound a) ->
  n ∈ wire_results (wire a) ++ result_items rest \/ isSuppressed a (js_job j) = true.
Proof.
  intros Hj Eo Hd n j Hn. rewrite Eo, result_items_cons, !elem_of_app. destruct (j_items _ _ _ _ Hj (Message k job i st)) as [_ Hok]; [rewrite Eo; by left|].
  apply andb_true_iff in Hd as [Hk Hsup]. destruct (Hok Hk) as (j0 & Hi & <-). intros [?|[Hin|?]]; [tauto| |tauto].
  right. destruct k; try (by apply elem_of_nil in Hin). cbn in Hin. apply list_elem_of_singleton in Hin as ->. by simplify_eq.
Qed.
Lemma sender_item a k job i st rest : jobs_inv a -> stream_inv a -> sender a = SLoop -> outbound a = Message k job i st :: rest ->
  let a' := send_item a k job i st rest in jobs_inv a' /\ stream_inv a' /\ quiet a a'.
Proof.
  intros Hj Hs El Eo. unfold send_item. cbv zeta. destruct (isOut k && isSuppressed (with_outbound a rest) job) eqn:Ed.
  - pose proof (account_drop a k job i st rest Hj Eo Ed) as Hacc. pose proof Hs as [H1 H2 H3 H4 H5 H6]. split_and!.
    + unfold jobs_inv in *. rewrite Eo in Hj. by eapply jobs_drop.
    + split; try done.
      * intros n j Hh Hsn Hn Hr. destruct (H4 _ _ Hh Hsn Hn Hr) as [Hin|?]; [by eapply Hacc|by right].
      * intros b Hb. destruct (H5 b Hb) as (Hm & ?). rewrite Eo, not_elem_of_cons in Hm. split; [by destruct Hm|done].
    + split; try done.
      * intros n j _ E. exists j. split; [done|apply job_later_refl].
      * intros n j E. exists j. split; [done|apply job_later_refl].
      * by left.
      * intros b S _ _ Hn. unfold isSuppressed in Ed. cbn in Ed. rewrite Hn, andb_false_r in Ed. done.
  - pose proof Hs as [H1 H2 H3 H4 H5 H6]. pose proof Hj as Hj'. unfold jobs_inv in Hj'. rewrite Eo in Hj'.
    destruct (j_items _ _ _ _ Hj (Message k job i st)) as [Est Hok]; [rewrite Eo; by left|].
    assert (Hmark : forall n j, states a !! n = Some j -> exists j', mark_sent st (states a) !! n = Some j' /\ later j j').
    { intros n j E. destruct st as [s|]; simpl; [|exists j; split; [done|apply job_later_refl]]. eexists. split; [by apply alter_lookup_intro|]. by destruct (decide _). }
    assert (Hmark' : forall n j', mark_sent st (states a) !! n = Some j' -> exists j, states a !! n = Some j /\ later j j' /\ reported j = reported j').
    { intros n j'. destruct st as [s|]; simpl; [|intros E; exists j'; split_and!; [done|apply job_later_refl|done]].
      intros E. apply alter_lookup in E as (j & E & ->). exists j. split; [done|]. by destruct (decide _). }
    assert (Hw : forall n, n ∈ wire_results (wire a) ++ result_items (outbound a) <-> n ∈ wire_results (wire a ++ [(k, job, i)]) ++ result_items rest).
    { intros n. rewrite Eo, wire_results_snoc, result_items_cons, !elem_of_app. destruct k; cbn; tauto. }
    split_and!.
    + by apply jobs_wire.
    + split; cbn; try done.
      * intros He. specialize (H2 He). congruence.
      * intros n j' Hh _ Hn Hr. apply Hmark' in Hn as (j & Hn & (En & _) & Hre). rewrite <- Hw, En. unfold isSuppressed in *.
        eapply H4; try done; [|by rewrite El|congruence]. unfold healthy in *. cbn in Hh. by rewrite El.
      * intros b Hb. destruct (H5 b Hb) as (Hm & ? & ? & ?). rewrite Eo, not_elem_of_cons in Hm. destruct Hm. by split_and!.
    + split; try done; cbn.
      * intros n j' _ Hn. apply Hmark' in Hn as (j & ? & ? & _). eauto.
      * intros n Hn. unfold wired in *. cbn. rewrite wire_results_snoc. apply elem_of_app. by left.
      * intros n. unfold wired. cbn. rewrite wire_results_snoc. intros [?|Hin]%elem_of_app; [by left|right].
        destruct k; try (by apply elem_of_nil in Hin). apply list_elem_of_singleton in Hin as ->. destruct (Hok eq_refl) as (j & Hi & <-). exists j. by split.
      * intros [? _]. split; [done|by rewrite El].
      * intros b S _ _ _. unfold ahead, wired. cbn. destruct (reached a b).
        -- intros H n j' Hn HS. apply Hmark' in Hn as (j & Hn & (En & _) & _). rewrite En in HS. rewrite wire_results_snoc. apply elem_of_app. left. by eapply H.
        -- intros (before & after & E & Hnb & H). rewrite Eo in E. destruct before as [|it before]; [done|]. injection E as <- Er.
           exists before, after. split; [done|]. split; [by apply not_elem_of_cons in Hnb as [_ ?]|].
           intros n j' Hn HS. apply Hmark' in Hn as (j & Hn & (En & _) & _). rewrite En in HS. specialize (H _ _ Hn HS).
           rewrite wire_results_snoc, <- app_assoc. rewrite result_items_cons in H. clear -H. rewrite !elem_of_app in *. destruct k; cbn in *; tauto.
Qed.
Lemma sender_failed a rest : jobs_inv a -> stream_inv a -> sender a = SLoop -> (exists l, outbound a = l ++ rest) -> jobs_ok (states a) (running a) rest (wire a) ->
  let a' := with_sender (with_outbound a rest) SendFailed (wire a) in jobs_inv a' /\ stream_inv a' /\ quiet a a'.
Proof.
  intros Hj Hs El [l Eo] Hj'. destruct Hs as [H1 H2 H3 H4 H5 H6]. split_and!; [done| |].
  - split; cbn; try done; try (by intros [_ ?]).
    + intros He. specialize (H2 He). congruence.
    + by intros i j [_ ?].
    + intros b Hb. destruct (H5 b Hb) as (Hm & ? & ? & ?). split_and!; try done. intros Hin. apply Hm. rewrite Eo. apply elem_of_app. by right.
  - apply quiet_stream; try done; by intros [_ ?].
Qed.
Lemma sender_reach a b rest : jobs_inv a -> stream_inv a -> sender a = SLoop -> outbound a = Marker b :: rest ->
  let a' := with_sender (with_barriers (with_outbound a rest) (flag (reached a) b) (released a)) (AtBarrier b) (wire a) in
  jobs_inv a' /\ stream_inv a' /\ quiet a a'.
Proof.
  intros Hj Hs El Eo. pose proof Hs as [H1 H2 H3 H4 H5 H6]. split_and!.
  - unfold jobs_inv in *. rewrite Eo in Hj. by eapply jobs_drop.
  - split; cbn; try done.
    + intros He. specialize (H2 He). congruence.
    + intros n j Hh _ Hn Hr. assert (Hh' : healthy a) by (destruct Hh as [? _]; split; [done|by rewrite El]).
      assert (Hsn : sender a <> SendClosed) by by rewrite El. destruct (H4 n j Hh' Hsn Hn Hr) as [Hin|?]; [|by right].
      rewrite Eo, result_items_cons in Hin. by left.
    + intros b' Hb. destruct (H5 b' Hb) as (Hm & Hr & ? & ?). rewrite Eo, not_elem_of_cons in Hm. destruct Hm as [Hne Hm].
      split_and!; [done| |done|]; [destruct b, b'; simpl; done|congruence].
  - split; try done; cbn.
    + intros n j _ E. exists j. split; [done|apply job_later_refl].
    + intros n j E. exists j. split; [done|apply job_later_refl].
    + by left.
    + intros [? _]. split; [done|by rewrite El].
    + intros b' S _ _ _. unfold ahead, wired. cbn. rewrite Eo. destruct (reached a b') eqn:Er; [by destruct b, b'; simpl; rewrite ?Er|].
      intros (before & after & E & Hnb & H). destruct before as [|it before].
      * injection E as <- ->. intros. assert (flag (reached a) b b = true) as -> by by destruct b. intros n j Hn HS. specialize (H _ _ Hn HS).
        by rewrite app_nil_r in H.
      * injection E as <- ->. apply not_elem_of_cons in Hnb as [Hne Hnb]. assert (flag (reached a) b b' = false) as -> by by destruct b, b'.
        exists before, after. split_and!; [done|done|]. intros n j Hn HS. specialize (H _ _ Hn HS). by rewrite result_items_cons in H.
Qed.
Lemma sender_pass a b : jobs_inv a -> stream_inv a -> sender a = AtBarrier b -> released a b = true ->
  let a' := with_sender a (if closeSend b then SendClosed else SLoop) (wire a) in jobs_inv a' /\ stream_inv a' /\ quiet a a'.
Proof.
  intros Hj Hs Eb Er. pose proof Hs as [H1 H2 H3 H4 H5 H6].
  assert (Hh : healthy (with_sender a (if closeSend b then SendClosed else SLoop) (wire a)) -> healthy a) by (intros [? _]; split; [done|by rewrite Eb]).
  split_and!; [done| |].
  - split; cbn; try done.
    + intros He. specialize (H2 He). congruence.
    + intros _ Hrf. destruct b; [done|congruence].
    + intros n j Hh' Hsn Hn Hrep. eapply H4; try done; [by apply Hh|by rewrite Eb].
    + intros b' Hb. destruct (H5 b' Hb) as (? & ? & ? & ?). split_and!; try done. by destruct b.
  - by apply quiet_stream.
Qed.
Lemma not_healthy_ctx a : stream_inv a -> ctxDone a = true -> sender a <> SendClosed -> ~ healthy a.
Proof.
  intros Hs Hc Hn [Hr _]. pose proof (s_ctx _ Hs Hc) as Hne. destruct (recv a) as [[|]|] eqn:E; [|done|done]. by apply Hn, (s_eof _ Hs).
Qed.
Lemma sender_close a : jobs_inv a -> stream_inv a -> ctxDone a = true -> (sender a = SLoop \/ exists b, sender a = AtBarrier b) ->
  let a' := with_sender a SendClosed (wire a) in jobs_inv a' /\ stream_inv a' /\ quiet a a'.
Proof.
  intros Hj Hs Hc He. assert (Hn : ~ healthy a) by (apply not_healthy_ctx; try done; by destruct He as [->|[? ->]]).
  assert (Hn' : ~ healthy (with_sender a SendClosed (wire a))).
  { intros [? _]. apply Hn. split; [done|]. by destruct He as [->|[? ->]]. }
  pose proof Hs as [H1 H2 H3 H4 H5 H6]. split_and!; [done| |by apply quiet_stream].
  split; cbn; try done. intros b' Hb. destruct (H5 b' Hb) as (? & ? & ? & ?). by split_and!.
Qed.
Lemma reader_ends a e c : jobs_inv a -> stream_inv a -> (recv a = None \/ recv a = Some e) -> (e = EOF -> sender a = SendClosed) ->
  let a' := with_stream a (Some e) c in jobs_inv a' /\ stream_inv a' /\ quiet a a'.
Proof.
  intros Hj Hs Hr He. pose proof Hs as [H1 H2 H3 H4 H5 H6].
  assert (Hh : healthy (with_stream a (Some e) c) -> healthy a) by (intros [? ?]; split; [by destruct Hr as [->| ->]|done]).
  split_and!; [done| |by apply quiet_stream].
  split; cbn; try done.
  - intros [= ->]. by apply He.
  - intros Hh'. by apply H3, Hh.
  - intros n j Hh'. by apply H4, Hh.
Qed.

(** *** The steps of the drain *)

Lemma stream_drain a a' l : stream_inv a -> wire a' = wire a -> recv a' = recv a -> ctxDone a' = ctxDone a -> sender a' = sender a -> reached a' = reached a ->
  outbound a' = outbound a ++ l -> result_items l = [] ->
  (forall b, begun (drainer a') b = false -> begun (drainer a) b = false /\ Marker b ∉ l /\ released a' b = released a b) ->
  (passed (drainer a') = false -> passed (drainer a) = false) -> (passed (drainer a') = false -> released a' Final = released a Final) ->
  (released a' Final = false -> released a Final = false) ->
  (forall i j', states a' !! i = Some j' -> exists j, states a !! i = Some j /\ reported j = reported j' /\ js_job j' = js_job j) ->
  (forall job, isSuppressed a job = true -> isSuppressed a' job = true) -> stream_inv a'.
Proof.
  intros [H1 H2 H3 H4 H5 H6] E1 E2 E3 E4 E5 E6 El Hb Hp Hp' Hf Hst Hsup. unfold healthy in *. split; unfold healthy; rewrite ?E1, ?E2, ?E3, ?E4, ?E5, ?E6; try done.
  - intros Hh Hr. apply H3; auto.
  - intros i j' Hh Hn Hi Hr. destruct (Hst _ _ Hi) as (j & Hi0 & Hre & ->). rewrite result_items_app, El, app_nil_r.
    destruct (H4 i j Hh Hn Hi0 ltac:(by rewrite Hre)); auto.
  - intros b Hbeg. destruct (Hb b Hbeg) as (Hb1 & Hl & ->). destruct (H5 b Hb1) as (? & ? & ? & ?). split_and!; try done. intros [?|?]%elem_of_app; done.
  - intros Hpa. rewrite Hp' by done. auto.
Qed.
Lemma same_states (a : Agent) : forall i j', states a !! i = Some j' -> exists j, states a !! i = Some j /\ reported j = reported j' /\ js_job j' = js_job j.
Proof. eauto. Qed.
(** A step that only moves the drain on. *)
Lemma stream_goes a d : stream_inv a -> (forall b, begun d b = false -> begun (drainer a) b = false) -> (passed d = false -> passed (drainer a) = false) ->
  stream_inv (goes a d).
Proof. intros Hs Hb Hp. apply (stream_drain a _ []); try done; [by rewrite app_nil_r|intros b Hd; split_and!; [by apply Hb|apply not_elem_of_nil|done]|exact (same_states a)]. Qed.
Lemma jobs_cand a : jobs_inv a -> cand a (running a).
Proof. intros Hj job i E. apply (j_running _ _ _ _ Hj) in E as (j & ? & ? & _). eauto. Qed.
Lemma sent_of_wired a i j : jobs_inv a -> states a !! i = Some j -> sent_of a i = true <-> wired a i.
Proof. intros Hj Hi. unfold sent_of, wired. rewrite Hi. apply (j_sent _ _ _ _ Hj _ _ Hi). Qed.
Lemma unsent_spec a c job : job ∈ unsent a c <-> exists i, c !! job = Some i /\ sent_of a i = false.
Proof. unfold unsent. rewrite elem_of_dom. split; [intros [i [? ?]%map_lookup_filter_Some]; eauto|intros (i & ? & ?); exists i; by apply map_lookup_filter_Some]. Qed.
Lemma states_of_spec c s i : i ∈ states_of c s <-> exists job, c !! job = Some i /\ job ∈ s.
Proof.
  unfold states_of. rewrite list_elem_of_fmap. split.
  - intros ([job k] & -> & Hin%elem_of_map_to_list). apply map_lookup_filter_Some in Hin as [? ?]. eauto.
  - intros (job & Hc & Hin). exists (job, i). split; [done|]. apply elem_of_map_to_list, map_lookup_filter_Some. done.
Qed.
(** A barrier that joins a FIFO in which every result it must follow already is. *)
Lemma ahead_enqueued a b d (S : nat -> string -> Prop) : stream_inv a -> begun (drainer a) b = false ->
  (forall i j, states a !! i = Some j -> S i (js_job j) -> i ∈ wire_results (wire a) ++ result_items (outbound a)) ->
  ahead (goes (with_outbound a (outbound a ++ [Marker b])) d) b S.
Proof.
  intros Hs Hb H. destruct (s_marks _ Hs b Hb) as (Hm & Hr & _). unfold ahead. cbn. rewrite Hr. exists (outbound a), []. by split_and!.
Qed.
Lemma jobs_other st run out w k job i : jobs_ok st run out w -> isOut k = false -> k <> JobResult -> jobs_ok st run (out ++ [Message k job i None]) w.
Proof.
  intros H Hk Hn. eapply jobs_out; [exact H|rewrite result_items_app, result_items_cons; destruct k; try done; by rewrite app_nil_r|].
  intros it [?| ->%list_elem_of_singleton]%elem_of_app; [by apply (j_items _ _ _ _ H)|]. split; [by destruct k|]. by rewrite Hk.
Qed.
Lemma cancel_states l a' a : states a' = cancel_all l (states a) ->
  forall i j', states a' !! i = Some j' -> exists j, states a !! i = Some j /\ reported j = reported j' /\ js_job j' = js_job j.
Proof. intros -> i j' E. apply cancel_lookup in E as (j & E & [->| ->]); eauto. Qed.

Definition inv (a : Agent) : Prop := jobs_inv a /\ stream_inv a /\ phase_ok a.
Lemma quiet_inv a a' : inv a -> jobs_inv a' /\ stream_inv a' /\ quiet a a' -> inv a'.
Proof. intros (_ & _ & Hp) (Hj & Hs & Hq). split_and!; [done|done|by eapply quiet_phase]. Qed.
Lemma goes_inv a d : inv a -> (forall b, begun d b = false -> begun (drainer a) b = false) -> (passed d = false -> passed (drainer a) = false) ->
  phase_ok (goes a d) -> inv (goes a d).
Proof. intros (Hj & Hs & _) Hb Hp Hph. split_and!; [exact Hj|by apply stream_goes|exact Hph]. Qed.
Lemma phase_of a d : inv a -> drainer a = d -> phase_ok a /\ jobs_inv a /\ stream_inv a.
Proof. intros (? & ? & ?) _. done. Qed.
(** While the final barrier is not released, a healthy writer is at work, and every result
    handed over is on the wire or in the FIFO. *)
Lemma accounted a : stream_inv a -> passed (drainer a) = false -> suppressed a = None -> healthy a ->
  forall i j, states a !! i = Some j -> js_at j = Removed -> i ∈ wire_results (wire a) ++ result_items (outbound a).
Proof.
  intros Hs Hp Hn Hh i j Hi Hr. assert (Hsn : sender a <> SendClosed) by (apply (s_open _ Hs Hh), (s_released _ Hs Hp)).
  destruct (s_account _ Hs _ _ Hh Hsn Hi) as [?|Hsup]; [by unfold reported; rewrite Hr|done|]. unfold isSuppressed in Hsup. by rewrite Hn in Hsup.
Qed.
Lemma recv_eof_healthy a : stream_inv a -> recv a = Some EOF -> healthy a.
Proof. intros Hs Hr. split; [by rewrite Hr|by rewrite (s_eof _ Hs Hr)]. Qed.

(** *** The clean path *)
Lemma clean_barrier_inv a : inv a -> drainer a = CleanEnqueue -> inv (goes (with_outbound a (outbound a ++ [Marker Final])) CleanReached).
Proof.
  intros (Hj & Hs & Hp) Ed. unfold phase_ok in Hp. rewrite Ed in Hp. destruct Hp as (Hd & Hn & Hr). split_and!.
  - by apply jobs_marker.
  - apply (stream_drain a _ [Marker Final]); try done; [by rewrite Ed|exact (same_states a)].
  - split_and!; [done|done|done|]. intros Hh. apply ahead_enqueued; [done|by rewrite Ed|]. intros i j Hi _.
    eapply (accounted a Hs); [by rewrite Ed|done|done|done|by eapply Hr].
Qed.
Lemma clean_reached_inv a : inv a -> drainer a = CleanReached -> reached a Final = true -> inv (goes (with_barriers a (reached a) (flag (released a) Final)) CleanEOF).
Proof.
  intros (Hj & Hs & Hp) Ed Er. unfold phase_ok in Hp. rewrite Ed in Hp. destruct Hp as (Hd & Hn & Hr & Ha). split_and!; [done| |].
  - apply (stream_drain a _ []); try done; [by rewrite app_nil_r|exact (same_states a)].
  - split_and!; [done|done|done|]. intros Hh i j Hi. specialize (Ha Hh). unfold ahead in Ha. rewrite Er in Ha. by eapply Ha.
Qed.
Lemma clean_end_inv a o : inv a -> (drainer a = CleanEnqueue \/ drainer a = CleanReached \/ drainer a = CleanEOF) ->
  (Clean o = true -> drainer a = CleanEOF /\ recv a = Some EOF) -> (Clean o = false -> FlushTimedOut o = true) -> inv (goes a (Finished o)).
Proof.
  intros Hi Ed Hc Hf. pose proof Hi as (Hj & Hs & Hp). apply goes_inv; [done|done|done|].
  assert (Hr : draining a = true /\ all_removed a).
  { unfold phase_ok in Hp. destruct Ed as [Ed|[Ed|Ed]]; rewrite Ed in Hp; by destruct Hp as (? & _ & ? & _) || destruct Hp as (? & _ & ?). }
  destruct Hr as [Hd Hr]. split_and!; [done|intros i j E; left; by eapply Hr| |].
  - intros Hcl i j E. destruct (Hc Hcl) as [Ee Hrecv]. split; [|by eapply Hr]. unfold phase_ok in Hp. rewrite Ee in Hp.
    destruct Hp as (_ & _ & _ & Hw). eapply Hw; [by apply recv_eof_healthy|done].
  - intros Hcl Hft. rewrite Hf in Hft; done.
Qed.

(** *** The cutoff *)
Lemma snapshot_inv a : inv a -> drainer a = Snapshot -> inv (goes a (CutoffEnqueue (running a))).
Proof.
  intros Hi Ed. pose proof Hi as (Hj & Hs & Hp). unfold phase_ok in Hp. rewrite Ed in Hp. destruct Hp as [Hd Hn]. apply goes_inv; [done|by rewrite Ed|by rewrite Ed|].
  split_and!; [done|done|exact (jobs_cand a Hj)|]. intros i j E Hne.
  destruct (js_at j) eqn:Ex; try done; exfalso; apply Hne, (j_running _ _ _ _ Hj); exists j; by rewrite Ex.
Qed.
Lemma cutoff_inv a c : inv a -> drainer a = CutoffEnqueue c -> inv (goes (with_outbound a (outbound a ++ [Marker Cutoff])) (CutoffReached c)).
Proof.
  intros (Hj & Hs & Hp) Ed. unfold phase_ok in Hp. rewrite Ed in Hp. destruct Hp as (Hd & Hn & Hc & Hr). split_and!.
  - by apply jobs_marker.
  - apply (stream_drain a _ [Marker Cutoff]); try done; [|by rewrite Ed|exact (same_states a)].
    intros [] Hb; [done|]. rewrite Ed. split_and!; [done| |done]. by intros ?%list_elem_of_singleton.
  - split_and!; [done|done|done|]. intros Hh. apply ahead_enqueued; [done|by rewrite Ed|]. intros i j Hi Hne.
    eapply (accounted a Hs); [by rewrite Ed|done|done|done|by eapply Hr].
Qed.
Lemma cutoff_reached_inv a c : inv a -> drainer a = CutoffReached c -> reached a Cutoff = true -> inv (goes a (Publishing c)).
Proof.
  intros Hi Ed Er. pose proof Hi as (Hj & Hs & Hp). unfold phase_ok in Hp. rewrite Ed in Hp. destruct Hp as (Hd & Hn & Hc & Ha).
  apply goes_inv; [done|by rewrite Ed|by rewrite Ed|]. split_and!; [done|done|done|]. intros Hh i j E Hne. specialize (Ha Hh). unfold ahead in Ha. rewrite Er in Ha. by eapply Ha.
Qed.
Lemma publish_inv a c : inv a -> drainer a = Publishing c -> inv (with_drainer a (Releasing c (unsent a c)) (Some (unsent a c))).
Proof.
  intros (Hj & Hs & Hp) Ed. unfold phase_ok in Hp. rewrite Ed in Hp. destruct Hp as (Hd & Hn & Hc & Hw). split_and!; [done| |].
  - apply (stream_drain a _ []); try done; [by rewrite app_nil_r|intros [] Hb; [done|]; rewrite Ed; split_and!; [done|apply not_elem_of_nil|done]|by rewrite Ed|exact (same_states a)|].
    intros job. unfold isSuppressed. by rewrite Hn.
  - split_and!; [done|done| |done|].
    + intros job (i & E & _)%unsent_spec. by eapply elem_of_dom_2.
    + intros Hh i j Hi. change (wired a i <-> ~ (c !! js_job j = Some i /\ js_job j ∈ unsent a c)). rewrite <- (sent_of_wired a i j Hj Hi). split.
      * intros Ht [Hci (i' & Hci' & Hf)%unsent_spec]. congruence.
      * intros Hne. destruct (sent_of a i) eqn:Ef; [done|]. destruct (decide (c !! js_job j = Some i)) as [Hci|Hci].
        -- exfalso. apply Hne. split; [done|]. apply unsent_spec. eauto.
        -- rewrite <- Ef. apply (sent_of_wired a i j Hj Hi). by eapply Hw.
Qed.
Lemma release_cutoff_inv a c s : inv a -> drainer a = Releasing c s -> inv (goes (with_barriers a (reached a) (flag (released a) Cutoff)) (Aborting c s)).
Proof.
  intros (Hj & Hs & Hp) Ed. unfold phase_ok in Hp. rewrite Ed in Hp. split_and!; [done| |exact Hp].
  apply (stream_drain a _ []); try done; [by rewrite app_nil_r| |by rewrite Ed|exact (same_states a)].
  intros [] Hb; [done|]. rewrite Ed. split_and!; [done|apply not_elem_of_nil|done].
Qed.
Lemma cut_cancel a a' c s l : states a' = cancel_all l (states a) -> wire a' = wire a -> draining a' = draining a -> suppressed a' = suppressed a ->
  (healthy a' -> healthy a) -> cut a c s -> cut a' c s.
Proof.
  intros E1 E2 E3 E4 Hh (Hd & Hs & Hsub & Hc & H). split_and!; [by rewrite E3|by rewrite E4|done| |].
  - intros job i E. destruct (Hc _ _ E) as (j & Hi & En). rewrite E1. destruct (cancel_lookup_intro l _ _ _ Hi) as (j' & Hi' & [->| ->] & _); eauto.
  - intros Hh' i j' Hi. rewrite E1 in Hi. unfold wired. rewrite E2. apply cancel_lookup in Hi as (j & Hi & [->| ->]); exact (H (Hh Hh') i j Hi).
Qed.
Lemma abort_inv a c s : inv a -> drainer a = Aborting c s ->
  inv (goes (with_states a (cancel_all (states_of c s) (states a)) (running a) (draining a)) (WaitDone c s)).
Proof.
  intros (Hj & Hs & Hp) Ed. unfold phase_ok in Hp. rewrite Ed in Hp. split_and!.
  - by apply jobs_cancel.
  - apply (stream_drain a _ []); try done; [by rewrite app_nil_r| |by rewrite Ed|by eapply cancel_states].
    rewrite Ed. intros b Hb. split_and!; [done|apply not_elem_of_nil|done].
  - split; [by eapply cut_cancel|]. intros i j' Hi Hc Hin. apply cancel_lookup in Hi as Hi'. destruct Hi' as (j & Hi0 & Hj').
    destruct (cancel_lookup_intro (states_of c s) _ _ _ Hi0) as (j2 & Hi2 & _ & Hcan). cbn in Hi. rewrite Hi in Hi2. injection Hi2 as <-.
    rewrite Hcan; [done|]. apply states_of_spec. exists (js_job j'). done.
Qed.

(** *** The final barrier and the abandonment *)
Lemma final_inv a c s : inv a -> drainer a = FinalEnqueue c s -> inv (goes (with_outbound a (outbound a ++ [Marker Final])) (FinalReached c s)).
Proof.
  intros (Hj & Hs & Hp) Ed. unfold phase_ok in Hp. rewrite Ed in Hp. split_and!; [by apply jobs_marker| |exact Hp].
  apply (stream_drain a _ [Marker Final]); try done; [by rewrite Ed|exact (same_states a)].
Qed.
Lemma final_reached_inv a c s : inv a -> drainer a = FinalReached c s -> reached a Final = true ->
  inv (goes (with_barriers a (reached a) (flag (released a) Final)) (FinalEOF c s)).
Proof.
  intros (Hj & Hs & Hp) Ed Er. unfold phase_ok in Hp. rewrite Ed in Hp. split_and!; [done| |exact Hp].
  apply (stream_drain a _ []); try done; [by rewrite app_nil_r|exact (same_states a)].
Qed.
Lemma cut_suppressed a c s : cut a c s -> forall job, isSuppressed a job = true -> job ∈ dom c.
Proof. intros (_ & Hs & Hsub & _) job. unfold isSuppressed. rewrite Hs. intros Hin%bool_decide_eq_true. by apply Hsub. Qed.
Lemma final_eof_inv a c s e : inv a -> drainer a = FinalEOF c s -> recv a = Some e ->
  inv (goes a (match e with EOF => Finished {| Clean := false; Running := size s; FlushTimedOut := false |} | RecvError => Abandoning c end)).
Proof.
  intros Hi Ed Er. pose proof Hi as (Hj & Hs & Hp). unfold phase_ok in Hp. rewrite Ed in Hp. destruct Hp as [Hcut Hab].
  apply goes_inv; [done|by destruct e|by destruct e|]. pose proof Hcut as (Hd & Hsu & Hsub & Hc & Hw). destruct e.
  - specialize (Hw (recv_eof_healthy a Hs Er)). split_and!; [done| |done|].
    + intros i j E. destruct (decide (c !! js_job j = Some i /\ js_job j ∈ s)) as [[Hci Hin]|Hn]; right.
      * right. split; [unfold isSuppressed; cbn; rewrite Hsu; by apply bool_decide_eq_true|by eapply Hab].
      * left. by apply (Hw _ _ E).
    + intros _ _. exists c, s. split_and!; try done. intros i j E. split; [by apply Hw|]. intros. by eapply Hab.
  - split; [done|]. exact (cut_suppressed a c s Hcut).
Qed.
Lemma flush_timeout_inv a c : inv a -> (drainer a = CutoffEnqueue c \/ drainer a = CutoffReached c \/ exists s, drainer a = FinalEnqueue c s \/ drainer a = FinalReached c s \/ drainer a = FinalEOF c s) ->
  inv (goes a (Abandoning c)).
Proof.
  intros Hi Ed. pose proof Hi as (Hj & Hs & Hp). apply goes_inv; [done|done|done|]. unfold phase_ok in Hp.
  assert (H : draining a = true /\ forall job, isSuppressed a job = true -> job ∈ dom c); [|exact H].
  destruct Ed as [Ed|[Ed|(s & [Ed|[Ed|Ed]])]]; rewrite Ed in Hp.
  - destruct Hp as (Hd & Hn & _). split; [done|]. intros job. unfold isSuppressed. by rewrite Hn.
  - destruct Hp as (Hd & Hn & _). split; [done|]. intros job. unfold isSuppressed. by rewrite Hn.
  - destruct Hp as [Hcut _]. split; [by destruct Hcut|by eapply cut_suppressed].
  - destruct Hp as [Hcut _]. split; [by destruct Hcut|by eapply cut_suppressed].
  - destruct Hp as [Hcut _]. split; [by destruct Hcut|by eapply cut_suppressed].
Qed.
Lemma abandon_inv a c : inv a -> drainer a = Abandoning c -> inv (goes a (AbandonPublish (running a ∪ c))).
Proof.
  intros Hi Ed. pose proof Hi as (Hj & Hs & Hp). unfold phase_ok in Hp. rewrite Ed in Hp. destruct Hp as [Hd Hsup].
  apply goes_inv; [done|done|done|]. split_and!; [done| |].
  - intros job Hjob. rewrite dom_union_L. apply elem_of_union. right. by apply Hsup.
  - intros i j E. destruct (js_at j) eqn:Ex; [right..|by left]; apply lookup_union_Some_l, (j_running _ _ _ _ Hj); exists j; by rewrite Ex.
Qed.
Lemma abandoned_inv a c : inv a -> drainer a = AbandonPublish c ->
  inv (with_drainer (with_states a (cancel_all (map_to_list c).*2 (states a)) (running a) (draining a))
         (Finished {| Clean := false; Running := size c; FlushTimedOut := true |}) (Some (dom c))).
Proof.
  intros (Hj & Hs & Hp) Ed. unfold phase_ok in Hp. rewrite Ed in Hp. destruct Hp as (Hd & Hsup & Hr). split_and!.
  - by apply jobs_cancel.
  - apply (stream_drain a _ []); try done; [by rewrite app_nil_r|by eapply cancel_states|].
    intros job Hjob. apply bool_decide_eq_true. by apply Hsup.
  - split_and!; [done| |done|done]. intros i j' E. cbn in E. apply cancel_lookup in E as E0. destruct E0 as (j & E0 & Hj').
    destruct (cancel_lookup_intro (map_to_list c).*2 _ _ _ E0) as (j2 & E2 & _ & Hcan). rewrite E in E2. injection E2 as <-.
    destruct (Hr _ _ E0) as [Hrem|Hci]; [left; by destruct Hj' as [->| ->]|]. right. right.
    assert (js_job j' = js_job j) as -> by by destruct Hj' as [->| ->]. split; [apply bool_decide_eq_true; by eapply elem_of_dom_2|].
    rewrite Hcan; [done|]. apply list_elem_of_fmap. exists (js_job j, i). split; [done|]. by apply elem_of_map_to_list.
Qed.

Lemma drain_step_inv a a' : step a a' -> inv a -> inv a'.
Proof.
  intros Hs Hi. pose proof Hi as (Hj & Hst & Hp).
  destruct Hs as [id|i j k Es Ea|i j k job st Es Ea Hr|i j job st Es Ea Hr|i j k job st Es Ea Hk Hc|i j Es Ea|i j Es Ea
    |k job i st rest El Eo|k job i st rest El Eo|El|b rest El Eo|b Eb Er|Hc He|Hr Hsc|Hr|Hr
    |Ed|Ed Hr|Ed|Ed Hall|Ed|Ed Hr|Ed Er|e Ed Er|Ed|Ed|c Ed Hr|c Ed Er|c Ed|c s Ed|c s Ed|c s Ed|c s Ed Hr|c s Ed Er|c s e Ed Er|c Ed|c Ed|c Ed].
  - by apply (quiet_inv a), job_dispatched.
  - apply (quiet_inv a); [done|]. unfold sendOutbound. destruct (isOut k && isSuppressed a (js_job j)) eqn:Eb; [|by apply job_sending].
    apply andb_true_iff in Eb as [_ Hsup]. apply (job_moved a i j); try done; [by rewrite Ea|by destruct k|by unfold reported; rewrite Ea|by destruct k|by right].
  - by apply (quiet_inv a), (job_sent a i j).
  - apply (quiet_inv a); [done|]. apply (job_moved a i j); try done; [by rewrite Ea|by unfold reported; rewrite Ea].
  - apply (quiet_inv a); [done|]. apply (job_moved a i j); try done; [by rewrite Ea|by destruct k|by unfold reported; rewrite Ea|by destruct k|].
    intros Hh Hn. by destruct (not_healthy_ctx a Hst Hc Hn).
  - apply (quiet_inv a); [done|]. apply (job_moved a i j); try done; [by rewrite Ea|]. intros. left. unfold reported. by rewrite Ea.
  - by apply (quiet_inv a), job_removed.
  - by apply (quiet_inv a), sender_item.
  - apply (quiet_inv a); [done|]. apply sender_failed; try done; [by exists [Message k job i st]|]. unfold jobs_inv in Hj. rewrite Eo in Hj. by eapply jobs_drop.
  - apply (quiet_inv a); [done|]. assert (with_sender a SendFailed (wire a) = with_sender (with_outbound a (outbound a)) SendFailed (wire a)) as -> by done.
    apply sender_failed; try done. by exists [].
  - by apply (quiet_inv a), sender_reach.
  - by apply (quiet_inv a), sender_pass.
  - by apply (quiet_inv a), sender_close.
  - apply (quiet_inv a); [done|]. apply reader_ends; auto.
  - apply (quiet_inv a); [done|]. apply reader_ends; auto. done.
  - apply (quiet_inv a); [done|]. destruct (recv a) as [e|] eqn:Er; [|done]. apply reader_ends; auto. intros ->. by apply (s_eof _ Hst).
  - unfold phase_ok in Hp. rewrite Ed in Hp. split_and!; [done| |by destruct Hp].
    apply (stream_drain a _ []); try done; [by rewrite app_nil_r| |by rewrite Ed|exact (same_states a)]. intros b _. rewrite Ed. split_and!; [done|apply not_elem_of_nil|done].
  - unfold phase_ok in Hp. rewrite Ed in Hp. split_and!; [by apply jobs_other| |done].
    apply (stream_drain a _ [Message Other "" 0 None]); try done; [|by rewrite Ed|exact (same_states a)]. intros b _. rewrite Ed. split_and!; [done| |done].
    by intros ?%list_elem_of_singleton.
  - unfold phase_ok in Hp. rewrite Ed in Hp. apply goes_inv; [done|by rewrite Ed|by rewrite Ed|done].
  - unfold phase_ok in Hp. rewrite Ed in Hp. apply goes_inv; [done|by rewrite Ed|by rewrite Ed|]. destruct Hp. split_and!; [done|done|].
    intros i j E. rewrite Forall_lookup in Hall. by eapply Hall.
  - unfold phase_ok in Hp. rewrite Ed in Hp. apply goes_inv; [done|by rewrite Ed|by rewrite Ed|done].
  - by apply clean_barrier_inv.
  - by apply clean_reached_inv.
  - apply clean_end_inv; [done|by right; right|by destruct e|by destruct e].
  - by apply clean_end_inv.
  - by apply snapshot_inv.
  - by apply cutoff_inv.
  - by apply cutoff_reached_inv.
  - by apply publish_inv.
  - by apply release_cutoff_inv.
  - by apply abort_inv.
  - unfold phase_ok in Hp. rewrite Ed in Hp. apply goes_inv; [done|by rewrite Ed|by rewrite Ed|done].
  - by apply final_inv.
  - by apply final_reached_inv.
  - by apply final_eof_inv.
  - by apply flush_timeout_inv.
  - by apply abandon_inv.
  - by apply abandoned_inv.
Qed.
Lemma drain_inv a : reachable a -> inv a.
Proof.
  unfold reachable. intros Hr. assert (inv start) as Hi.
  { split_and!.
    - split; cbn; try done.
      + intros job i. rewrite lookup_empty. split; [done|]. by intros (j & ? & _).
      + intros it ?%elem_of_nil. done.
      + constructor.
      + intros i ?%elem_of_nil. done.
    - split; try done. intros b _. split_and!; [apply not_elem_of_nil|done..].
    - done. }
  revert Hi. induction Hr as [|x y z Hxy _ IH]; [done|]. intros Hi. by eapply IH, drain_step_inv.
Qed.

(** ** Properties *)

Lemma lost_states a c s : cand a c -> s ⊆ dom c -> NoDup (states_of c s) /\ length (states_of c s) = size s.
Proof.
  intros Hc Hsub. unfold states_of. split.
  - apply NoDup_fmap_2_strong; [|apply NoDup_map_to_list]. intros [j1 i1] [j2 i2] H1%elem_of_map_to_list H2%elem_of_map_to_list [= ->].
    apply map_lookup_filter_Some in H1 as [H1 _], H2 as [H2 _]. destruct (Hc _ _ H1) as (x & Hx & <-), (Hc _ _ H2) as (y & Hy & <-). congruence.
  - rewrite length_fmap, length_map_to_list, <- (size_dom (D:=gset string)). f_equal.
    apply set_eq. intros job. rewrite elem_of_dom. split.
    + intros [i [_ ?]%map_lookup_filter_Some]. done.
    + intros Hin. specialize (Hsub _ Hin). apply elem_of_dom in Hsub as [i Hi]. exists i. by apply map_lookup_filter_Some.
Qed.

(** C22: however jobs, writer, reader and deadlines interleave, no execution's result is ever
    sent twice, and when the drain ends: a clean outcome means the result of every job the
    agent was given is on the wire; an outcome that abandons jobs without a flush timeout
    counts exactly the executions whose result did not cross - each of them was cancelled
    and its output is suppressed, so none will cross later and no job is both reported and
    left to the reaper; and under every outcome, a flush timeout included, a job that is
    still there has reported or is cancelled and silenced. *)
Theorem drain_exact a o : reachable a -> drainer a = Finished o ->
  NoDup (wire_results (wire a)) /\
  (Clean o = true -> forall i j, states a !! i = Some j -> wired a i) /\
  (Clean o = false -> FlushTimedOut o = false -> exists lost, NoDup lost /\ length lost = Running o /\
     forall i j, states a !! i = Some j -> (i ∈ lost <-> ~ wired a i) /\ (i ∈ lost -> isSuppressed a (js_job j) = true /\ js_canceled j = true)) /\
  (forall i j, states a !! i = Some j -> js_at j = Removed \/ wired a i \/ (isSuppressed a (js_job j) = true /\ js_canceled j = true)).
Proof.
  intros Hr Ed. destruct (drain_inv a Hr) as (Hj & _ & Hp). unfold phase_ok in Hp. rewrite Ed in Hp. destruct Hp as (_ & Hall & Hcl & Hto). split_and!; [|intros Hc i j E; by eapply Hcl| |done].
  - pose proof (j_once _ _ _ _ Hj) as Hn. by apply NoDup_app in Hn as [? _].
  - intros Hc Hf. destruct (Hto Hc Hf) as (c & s & Hn & Hsub & Hca & Hs & H). destruct (lost_states a c s Hca Hsub) as [Hnd Hlen].
    exists (states_of c s). split_and!; [done|congruence|]. intros i j E. destruct (H _ _ E) as [Hw Hcan]. rewrite states_of_spec, Hw.
    assert (Heq : (exists job, c !! job = Some i /\ job ∈ s) <-> c !! js_job j = Some i /\ js_job j ∈ s).
    { split; [|eauto]. intros (job & Hci & Hin). destruct (Hca _ _ Hci) as (j0 & E0 & <-). by assert (j0 = j) as -> by congruence. }
    rewrite Heq. split.
    + split; [tauto|]. intros Hnn. destruct (decide (c !! js_job j = Some i /\ js_job j ∈ s)); tauto.
    + intros [Hci Hin]. split; [unfold isSuppressed; rewrite Hs; by apply bool_decide_eq_true|by apply Hcan].
Qed.

(** One step of a trace; the state reached is computed. *)
Ltac computed := match goal with |- rtc _ ?b _ => let b' := eval vm_compute in b in change b with b' end.
Ltac run step := eapply rtc_l; [eapply step; try reflexivity|]; computed.
(** A job that does not end in time. *)
Lemma drain_exact_witness : exists a j, reachable a /\ drainer a = Finished {| Clean := false; Running := 1; FlushTimedOut := false |} /\
  states a !! 0 = Some j /\ isSuppressed a (js_job j) = true /\ js_canceled j = true /\ ~ wired a 0.
Proof.
  eassert (exists a, reachable a /\ drainer a = Finished {| Clean := false; Running := 1; FlushTimedOut := false |} /\ exists j, states a !! 0 = Some j /\ wire_results (wire a) = []) as (a & Hr & Ed & j & Ej & Ew).
  { eexists. split.
    - unfold reachable. eapply rtc_l; [apply (step_dispatch _ "build")|]; computed. run step_trigger. run step_announced. run step_item. run step_budget. run step_snapshot.
      run step_cutoff. run step_reach. run step_cutoff_reached. run step_publish. run step_release.
      eapply rtc_l; [apply (step_pass _ Cutoff); reflexivity|]; computed. run step_abort. run step_waited. run step_final. run step_reach. run step_final_reached.
      eapply rtc_l; [apply (step_pass _ Final); reflexivity|]; computed. run step_eof. run step_final_eof. apply rtc_refl.
    - split; [reflexivity|]. eexists. split; reflexivity. }
  exists a, j. destruct (drain_exact a _ Hr Ed) as (_ & _ & H & _). destruct (H eq_refl eq_refl) as (lost & _ & _ & Hl).
  destruct (Hl 0 j Ej) as [Hiff Hcan]. assert (Hn : ~ wired a 0) by (unfold wired; rewrite Ew; apply not_elem_of_nil).
  destruct (Hcan (proj2 Hiff Hn)) as [Hs Hc]. exact (conj Hr (conj Ed (conj Ej (conj Hs (conj Hc Hn))))).
Defined.

(** an assignment is ignored while the agent still tidies up an earlier execution of the
    same job, although that execution's result is already on the wire: here the job's
    result was sent, the server assigned the job again - a rerun keeps the job's id - while
    its services were being stopped, and afterwards nothing runs, nothing is refused and
    the stream is healthy, so the server waits for a result that nobody will send. *)
Theorem rerun_assignment_lost : exists a, reachable a /\ received a = ["build"; "build"] /\ wire_results (wire a) = [0] /\
  length (states a) = 1 /\ running a = ∅ /\ outbound a = [] /\ draining a = false /\ sender a = SLoop /\ recv a = None.
Proof.
  eexists. split.
  - unfold reachable. eapply rtc_l; [apply (step_dispatch _ "build")|]; computed. eapply rtc_l; [eapply (step_send _ 0 _ JobResult); reflexivity|]; computed. eapply rtc_l; [eapply (step_sent _ 0); reflexivity|]; computed. run step_item.
    eapply rtc_l; [apply (step_dispatch _ "build")|]; computed. eapply rtc_l; [eapply (step_exit _ 0); reflexivity|]; computed. eapply rtc_l; [eapply (step_removed _ 0); reflexivity|]; computed. apply rtc_refl.
  - split_and!; vm_compute; reflexivity.
Qed.

(** A job that finished in time is not counted when its result could not be flushed:
    [abandonAll] counts the candidates and what runs, and it is neither. *)
Lemma finished_job_not_counted : exists a, reachable a /\ drainer a = Finished {| Clean := false; Running := 0; FlushTimedOut := true |} /\
  wire_results (wire a) = [] /\ length (states a) = 1 /\ sender a = SLoop.
Proof.
  eexists. split.
  - unfold reachable. eapply rtc_l; [apply (step_dispatch _ "build")|]; computed. eapply rtc_l; [eapply (step_send _ 0 _ JobResult); reflexivity|]; computed. eapply rtc_l; [eapply (step_sent _ 0); reflexivity|]; computed.
    eapply rtc_l; [eapply (step_exit _ 0); reflexivity|]; computed. eapply rtc_l; [eapply (step_removed _ 0); reflexivity|]; computed.
    run step_trigger. run step_unannounced. run step_budget. run step_snapshot. eapply rtc_l; [eapply step_flush_timeout; left; reflexivity|]; computed.
    run step_abandon. run step_abandoned. apply rtc_refl.
  - split_and!; vm_compute; reflexivity.
Qed.
