(* ===== verification/GoHmac.v ===== *)
(** Go's [crypto/hmac] over SHA-256 and [encoding/hex.DecodeString], which the
    webhook signatures use: [hmac.New(sha256.New, key)], [Write], [Sum(nil)]. *)

From S2P Require Import Prelude GoStrings GoSha256.
Open Scope string_scope.

Definition byte_string (l : list Z) : string :=
  foldr (fun z s => String (Ascii.ascii_of_nat (Z.to_nat z)) s) "" l.

(** A key longer than the block is hashed, a shorter one padded with zeros. *)
Definition hmac_block (key : string) : list Z :=
  let k := if (64 <? slen key)%nat then Sum256 key else byte_list key in
  k ++ replicate (64 - length k) 0%Z.
Definition hmac_sha256 (key msg : string) : list Z :=
  let k := hmac_block key in
  let inner := Sum256 (byte_string (Z.lxor 0x36 <$> k) +:+ msg) in
  Sum256 (byte_string (Z.lxor 0x5c <$> k) +:+ byte_string inner).

(** The vectors of RFC 4231: a short key, a key of repeated bytes, and a key
    longer than a block. *)
Example hmac_vectors :
  EncodeToString <$>
    [hmac_sha256 "Jefe" "what do ya want for nothing?";
     hmac_sha256 (byte_string (replicate 20 11%Z)) "Hi There";
     hmac_sha256 (byte_string (replicate 131 170%Z)) "Test Using Larger Than Block-Size Key - Hash Key First"]
  = ["5bdcc146bf60754e6a042426089575c75a003f089d2739839dec58b964ec3843";
     "b0344c61d8db38535ca8afceaf0bf12b881dc200c9833da726e9376c2e32cff7";
     "60e431591ee0b67f0d8a26aacbf5b77f8e0bc6213728c5140546040f0ee37f54"].
Proof. vm_compute. reflexivity. Qed.

(** A hexadecimal digit of either case. *)
Definition from_hex (c : Ascii.ascii) : option Z :=
  if is_digit c then Some (Z.of_nat (code c - 48))
  else if byte_between 97 102 c then Some (Z.of_nat (code c - 87))
  else if byte_between 65 70 c then Some (Z.of_nat (code c - 55))
  else None.
Fixpoint DecodeString (s : string) : option (list Z) :=
  match s with
  | "" => Some []
  | String hi (String lo s) =>
      h ← from_hex hi; l ← from_hex lo; rest ← DecodeString s; Some ((16 * h + l)%Z :: rest)
  | _ => None
  end.

Lemma from_hex_digit z : (0 <= z < 16)%Z -> from_hex (hex_digit z) = Some z.
Proof.
  intros Hz. assert (z ∈ seqZ 0 16) as Hin by (apply elem_of_seqZ; lia). clear Hz.
  revert z Hin. apply Forall_forall. vm_compute. repeat constructor.
Qed.

(** What [EncodeToString] writes is read back. *)
Lemma Decode_Encode l : Forall (fun z => 0 <= z < 256)%Z l -> DecodeString (EncodeToString l) = Some l.
Proof.
  induction 1 as [|z l Hz Hl IH]; [done|].
  change (EncodeToString (z :: l)) with (String (hex_digit (z / 16)) (String (hex_digit (z mod 16)) (EncodeToString l))).
  cbn [DecodeString]. rewrite !from_hex_digit by (Z.div_mod_to_equations; lia).
  cbn [mbind option_bind]. rewrite IH. cbn [mbind option_bind].
  f_equal. f_equal. Z.div_mod_to_equations; lia.
Qed.

Lemma Sum256_bytes s : Forall (fun z => 0 <= z < 256)%Z (Sum256 s).
Proof.
  unfold Sum256. cbv zeta. apply Forall_bind, Forall_true. intros z. unfold be.
  apply Forall_fmap, Forall_true. intros i. unfold compose. apply Z.mod_pos_bound. lia.
Qed.
Lemma hmac_bytes key msg : Forall (fun z => 0 <= z < 256)%Z (hmac_sha256 key msg).
Proof. apply Sum256_bytes. Qed.

(** A header with its scheme cut off. *)
Lemma TrimPrefix_app p t : TrimPrefix (p +:+ t) p = t.
Proof. unfold TrimPrefix. by rewrite (proj2 (CutPrefix_spec (p +:+ t) p t) eq_refl). Qed.
Lemma app_inj_s (p t u : string) : p +:+ t = p +:+ u -> t = u.
Proof. apply (inj (String.app p)). Qed.
