(* ===== verification/GitHubHook.v ===== *)
(** GitHub's webhooks ([server/internal/webhook/github]): the signature of a body
    and what a push, a pull request and a review say.  [encoding/json] is a
    parameter: one function per struct the code decodes a body into. *)

From S2P Require Import Prelude GoStrings GoSha256 GoHmac.
Open Scope string_scope.

(** A [time.Time]: nanoseconds, [None] the zero time. *)
Notation Time := (option Z).

(** ** [signature.go] *)

Inductive signature_error :=
| ErrEmptySecret | ErrMissingSignature | ErrInvalidSignatureFormat | ErrSignatureMismatch.

Definition signaturePrefix : string := "sha256=".

Definition VerifySignature (secret body header : string) : result signature_error unit :=
  if decide (secret = "") then Err ErrEmptySecret
  else if decide (header = "") then Err ErrMissingSignature
  else if negb (HasPrefix header signaturePrefix) then Err ErrInvalidSignatureFormat
  else match DecodeString (TrimPrefix header signaturePrefix) with
       | None => Err ErrInvalidSignatureFormat
       | Some got => if decide (got = hmac_sha256 secret body) then Ok tt else Err ErrSignatureMismatch
       end.

(** A body is accepted exactly with the digest of this secret, in either case of
    hexadecimal, and with no secret at all never. *)
Lemma VerifySignature_spec secret body header :
  VerifySignature secret body header = Ok tt <->
  secret <> "" /\
  exists h, header = signaturePrefix +:+ h /\ DecodeString h = Some (hmac_sha256 secret body).
Proof.
  unfold VerifySignature. destruct (decide (secret = "")) as [->|Hs]; [naive_solver|].
  destruct (decide (header = "")) as [->|Hh].
  { split; [done|]. intros (_ & h & Heq & _). by destruct h. }
  destruct (HasPrefix header signaturePrefix) eqn:Hp; cbn [negb].
  - apply HasPrefix_spec in Hp as [t ->]. rewrite TrimPrefix_app.
    destruct (DecodeString t) as [got|] eqn:Hd; [case_decide|]; split; try done.
    + intros _. split; [done|]. exists t. split; [done|]. by rewrite Hd, <- H.
    + intros (_ & h & Heq%app_inj_s & Hd'). subst. congruence.
    + intros (_ & h & Heq%app_inj_s & Hd'). subst. congruence.
  - split; [done|]. intros (_ & h & -> & _). by rewrite HasPrefix_app in Hp.
Qed.

(** The digest GitHub sends is accepted. *)
Lemma VerifySignature_signed secret body :
  secret <> "" ->
  VerifySignature secret body (signaturePrefix +:+ EncodeToString (hmac_sha256 secret body)) = Ok tt.
Proof.
  intros Hs. apply VerifySignature_spec. split; [done|]. eexists. split; [done|].
  apply Decode_Encode, hmac_bytes.
Qed.

(** ** [pushevent.go] *)

Definition refPrefixBranch : string := "refs/heads/".
Definition refPrefixTag : string := "refs/tags/".
Definition zeroSHA : string := "0000000000000000000000000000000000000000".

Inductive parse_error :=
| ErrEmptyPayload | ErrInvalidJSON | ErrMissingRef | ErrMissingRepository
| ErrUnsupportedRef (ref : string)
| MissingPullRequestAction | MissingPullRequestFields | MissingReviewFields.

Record Repository := {
  Repository_ID : Z; FullName : string; HTMLURL : string; CloneURL : string;
  SSHURL : string; DefaultBranch : string;
}.
Record Author := { Author_Name : string; Author_Email : string }.
Record Commit := {
  Commit_ID : string; Commit_Message : string; Commit_Timestamp : Time; Commit_Author : Author;
  Added : list string; Modified : list string; Removed : list string;
}.
Record RawPush := {
  Raw_Ref : string; Raw_Before : string; Raw_After : string; Raw_Deleted : bool;
  Raw_Repository : Repository; Raw_HeadCommit : option Commit; Raw_Commits : list Commit;
  Raw_Size : Z;
}.
Record PushEvent := {
  Ref : string; Branch : string; Tag : string; IsTag : bool; Before : string; After : string;
  Deleted : bool; Push_Repository : Repository; HeadCommit : option Commit;
  Commits : list Commit; Size : Z;
}.

(** ** [prevent.go] *)

Record prRef := { PRRef_Ref : string; PRRef_SHA : string; PRRef_Repo : option Repository }.
Record prDetails := {
  PR_HTMLURL : string; PR_Title : string; PR_Merged : bool; PR_CreatedAt : Time;
  PR_UpdatedAt : Time; PR_MergedAt : option Time; PR_MergeCommitSHA : string;
  PR_User : option string; PR_Head : option prRef; PR_Base : option prRef;
  PR_Labels : list string;
}.
Record prPayload := {
  Payload_Action : string; Payload_Number : Z; Payload_PullRequest : option prDetails;
  Payload_Repository : option Repository;
}.
Record PullRequestEvent := {
  Action : string; Number : Z; Event_HTMLURL : string; Title : string; Event_Author : string;
  HeadSHA : string; HeadRef : string; BaseRef : string; HeadRepoID : Z; BaseRepoID : Z;
  SameRepo : bool; Merged : bool; Event_Repository : Repository; At : Time;
  CreatedAt : Time; MergedAt : Time; MergeSHA : string; Labels : list string;
}.
Record reviewPayload := {
  RP_Action : string; RP_Review : option (string * Time * option string);
  RP_PullRequest : option Z; RP_Repository : option Repository;
}.
Record ReviewEvent := {
  Review_Action : string; Review_State : string; Review_Number : Z; Review_Reviewer : string;
  Review_SubmittedAt : Time; Review_Repository : Repository;
}.

(** [json.Unmarshal] into each struct; [None] is an error. *)
Class GitHubJSON := {
  unmarshal_clone_url : string -> option string;
  unmarshal_push : string -> option RawPush;
  unmarshal_pull_request : string -> option prPayload;
  unmarshal_review : string -> option reviewPayload;
}.

(** A field is filled from its path in the body, whatever else the struct holds:
    the three structs read the same [repository.clone_url]. *)
Class SameField `{GitHubJSON} := {
  same_push : forall b u p, unmarshal_clone_url b = Some u -> unmarshal_push b = Some p ->
    CloneURL (Raw_Repository p) = u;
  same_pull_request : forall b u p r, unmarshal_clone_url b = Some u ->
    unmarshal_pull_request b = Some p -> Payload_Repository p = Some r -> CloneURL r <> "" ->
    CloneURL r = u;
}.

Section Parse.
Context `{GitHubJSON} `{UnicodeCase}.

(** [handler.go], [extractCloneURL]. *)
Definition extractCloneURL (body : string) : string := default "" (unmarshal_clone_url body).

Definition ChangedFiles (ev : PushEvent) : list string * bool :=
  if decide (Commits ev = []) then ([], false)
  else if (Z.of_nat (length (Commits ev)) <? Size ev)%Z then ([], false)
  else (dedup (Commits ev ≫= fun c => (Added c ++ Modified c ++ Removed c)%list), true).

Definition ParsePushEvent (body : string) : result parse_error PushEvent :=
  if decide (body = "") then Err ErrEmptyPayload
  else match unmarshal_push body with
  | None => Err ErrInvalidJSON
  | Some raw =>
      if decide (Raw_Ref raw = "") then Err ErrMissingRef
      else if decide (FullName (Raw_Repository raw) = "" \/ CloneURL (Raw_Repository raw) = "")
      then Err ErrMissingRepository
      else
        let ev branch tag is_tag := {|
          Ref := Raw_Ref raw; Branch := branch; Tag := tag; IsTag := is_tag;
          Before := Raw_Before raw; After := Raw_After raw;
          Deleted := Raw_Deleted raw || bool_decide (Raw_After raw = zeroSHA);
          Push_Repository := Raw_Repository raw; HeadCommit := Raw_HeadCommit raw;
          Commits := Raw_Commits raw; Size := Raw_Size raw |} in
        if HasPrefix (Raw_Ref raw) refPrefixBranch then
          Ok (ev (TrimPrefix (Raw_Ref raw) refPrefixBranch) "" false)
        else if HasPrefix (Raw_Ref raw) refPrefixTag then
          Ok (ev "" (TrimPrefix (Raw_Ref raw) refPrefixTag) true)
        else Err (ErrUnsupportedRef (Raw_Ref raw))
  end.

Definition repoID (r : option Repository) : Z := match r with Some r => Repository_ID r | None => 0%Z end.
Definition sameRepoGitHub (headRepoID baseRepoID topLevelRepoID : Z) : bool :=
  if decide (headRepoID = 0 \/ baseRepoID = 0 \/ topLevelRepoID = 0)%Z then false
  else if decide (baseRepoID <> topLevelRepoID) then false
  else bool_decide (headRepoID = baseRepoID).

(** Lowercased and trimmed, no empty one, the first of each. *)
Definition normaliseLabels (l : list string) : list string :=
  dedup (filter (fun n => n <> "") ((fun n => ToLower (TrimSpace n)) <$> l)).

Definition ParsePullRequestEvent (body : string) : result parse_error PullRequestEvent :=
  if decide (body = "") then Err ErrEmptyPayload
  else match unmarshal_pull_request body with
  | None => Err ErrInvalidJSON
  | Some p =>
      if decide (Payload_Action p = "") then Err MissingPullRequestAction
      else match Payload_PullRequest p with
      | Some {| PR_Head := Some head; PR_Base := Some base |} as pr =>
          match pr, Payload_Repository p with
          | Some d, Some r =>
              if decide (CloneURL r = "") then Err ErrMissingRepository
              else Ok {|
                Action := Payload_Action p; Number := Payload_Number p;
                Event_HTMLURL := PR_HTMLURL d; Title := PR_Title d;
                Event_Author := default "" (PR_User d);
                HeadSHA := PRRef_SHA head; HeadRef := PRRef_Ref head; BaseRef := PRRef_Ref base;
                HeadRepoID := repoID (PRRef_Repo head); BaseRepoID := repoID (PRRef_Repo base);
                SameRepo := sameRepoGitHub (repoID (PRRef_Repo head)) (repoID (PRRef_Repo base))
                              (Repository_ID r);
                Merged := PR_Merged d; Event_Repository := r; At := PR_UpdatedAt d;
                CreatedAt := PR_CreatedAt d; MergedAt := default None (PR_MergedAt d);
                MergeSHA := PR_MergeCommitSHA d; Labels := normaliseLabels (PR_Labels d) |}
          | _, _ => Err ErrMissingRepository
          end
      | _ => Err MissingPullRequestFields
      end
  end.

Definition IsTriggerableAction (ev : PullRequestEvent) : bool :=
  bool_decide (Action ev ∈ ["opened"; "synchronize"; "reopened"]).

Definition ParseReviewEvent (body : string) : result parse_error ReviewEvent :=
  if decide (body = "") then Err ErrEmptyPayload
  else match unmarshal_review body with
  | None => Err ErrInvalidJSON
  | Some p =>
      match RP_Review p, RP_PullRequest p with
      | Some (state, at_, user), Some number =>
          match RP_Repository p with
          | Some r =>
              if decide (CloneURL r = "") then Err ErrMissingRepository
              else Ok {| Review_Action := RP_Action p; Review_State := state;
                         Review_Number := number; Review_Reviewer := default "" user;
                         Review_SubmittedAt := at_; Review_Repository := r |}
          | None => Err ErrMissingRepository
          end
      | _, _ => Err MissingReviewFields
      end
  end.
Definition IsApproval (ev : ReviewEvent) : bool :=
  bool_decide (Review_Action ev = "submitted") && EqualFoldASCII (Review_State ev) "approved".

(** ** What the parsers promise *)

(** A push is a branch's or a tag's, and names what its ref names. *)
Lemma ParsePushEvent_ref body ev :
  ParsePushEvent body = Ok ev ->
  Ref ev = (if IsTag ev then refPrefixTag +:+ Tag ev else refPrefixBranch +:+ Branch ev) /\
  (if IsTag ev then Branch ev = "" else Tag ev = "").
Proof.
  unfold ParsePushEvent. repeat case_match; intros; simplify_eq; simpl; (split; [|done]).
  all: match goal with H : HasPrefix _ _ = true |- _ => apply HasPrefix_spec in H as [t ->] end.
  all: by rewrite TrimPrefix_app.
Qed.

(** The repository it is about is the one whose secret is looked up. *)
Lemma ParsePushEvent_repository `{!SameField} body ev :
  ParsePushEvent body = Ok ev -> extractCloneURL body <> "" ->
  CloneURL (Push_Repository ev) = extractCloneURL body.
Proof.
  unfold ParsePushEvent, extractCloneURL. intros Hp Hu.
  destruct (unmarshal_clone_url body) as [u|] eqn:Hurl; [|done].
  repeat case_match; simplify_eq; simpl; eauto using same_push.
Qed.
Lemma ParsePullRequestEvent_repository `{!SameField} body ev :
  ParsePullRequestEvent body = Ok ev -> extractCloneURL body <> "" ->
  CloneURL (Event_Repository ev) = extractCloneURL body.
Proof.
  unfold ParsePullRequestEvent, extractCloneURL. intros Hp Hu.
  destruct (unmarshal_clone_url body) as [u|] eqn:Hurl; [|done].
  repeat case_match; simplify_eq; simpl; eauto using same_pull_request.
Qed.

(** The set of changed files is trusted only when every commit is embedded, and
    is then what the commits touch, each file once. *)
Lemma ChangedFiles_known ev files :
  ChangedFiles ev = (files, true) ->
  (Size ev <= Z.of_nat (length (Commits ev)))%Z /\ NoDup files /\
  forall f, f ∈ files <-> exists c, c ∈ Commits ev /\ (f ∈ Added c \/ f ∈ Modified c \/ f ∈ Removed c).
Proof.
  unfold ChangedFiles. case_decide; [done|]. case_match; [done|]. intros [= <-].
  split; [lia|]. split; [apply NoDup_dedup|]. intros f. rewrite elem_of_dedup, list_elem_of_bind.
  setoid_rewrite elem_of_app. setoid_rewrite elem_of_app. naive_solver.
Qed.

(** A fork, a missing or an inconsistent identifier is never the same repository. *)
Lemma sameRepoGitHub_spec h b t :
  sameRepoGitHub h b t = true <-> h = b /\ b = t /\ h <> 0%Z.
Proof. unfold sameRepoGitHub. repeat case_decide; rewrite ?bool_decide_eq_true; split; (done || lia). Qed.

Lemma normaliseLabels_spec l :
  NoDup (normaliseLabels l) /\
  forall n, n ∈ normaliseLabels l <-> n <> "" /\ exists x, x ∈ l /\ n = ToLower (TrimSpace x).
Proof.
  unfold normaliseLabels. split; [apply NoDup_dedup|]. intros n.
  rewrite elem_of_dedup, list_elem_of_filter, list_elem_of_fmap. naive_solver.
Qed.
End Parse.
