(* ===== verification/GitLabHook.v ===== *)
(** GitLab's webhooks ([server/internal/webhook/gitlab]): the token, pushes and
    merge requests; and [extractGitLabCloneURL] of [webhook/multi.go], which says
    whose token to compare.  [encoding/json] is a parameter, one function per
    struct; so is [time.Parse], whose value nothing here decides on. *)

From S2P Require Import Prelude GoStrings GoSha256 GoHmac.
Open Scope string_scope.

Notation Time := (option Z).

Inductive token_error := EmptySecret | TokenMissing | ErrBadToken.
Definition VerifyToken (secret header : string) : result token_error unit :=
  if decide (secret = "") then Err EmptySecret
  else if decide (header = "") then Err TokenMissing
  else if decide (secret = header) then Ok tt else Err ErrBadToken.

Lemma VerifyToken_spec secret header :
  VerifyToken secret header = Ok tt <-> secret <> "" /\ header = secret.
Proof. unfold VerifyToken. repeat case_decide; naive_solver. Qed.

Inductive parse_error :=
| DecodePush | WrongKind (kind : string) | MissingRef | MissingRepositoryURL
| EmptyMergeRequest | DecodeMergeRequest | MissingAttributes | MissingAction
| MissingGitHTTPURL | MissingLastCommit | MissingBranch.

(** ** Structs *)

Record RepositoryRef := { CloneURL : string }.
Record RawRepository := { GitHTTPURL : string; URL : string }.
Record Envelope := { Env_Repository : RawRepository; Env_ProjectGitHTTPURL : string }.

Record RawCommit := {
  RC_ID : string; RC_Message : string; RC_Timestamp : string; RC_AuthorName : string;
  RC_AuthorEmail : string; RC_Added : list string; RC_Modified : list string;
  RC_Removed : list string;
}.
Record RawPush := {
  Raw_ObjectKind : string; Raw_Ref : string; Raw_Before : string; Raw_After : string;
  Raw_Repository : RawRepository; Raw_Commits : list RawCommit;
  Raw_TotalCommitsCount : option Z;
}.
Record Commit := {
  Commit_ID : string; Commit_Message : string; Commit_Author : string; Commit_Timestamp : Time;
}.
Record PushEvent := {
  Ref : string; Branch : string; After : string; Before : string; Deleted : bool;
  Push_Repository : RepositoryRef; HeadCommit : option Commit;
  changedFiles : list string; filesKnown : bool;
}.

Record mrUser := { Username : string; User_Name : string }.
Record mrProject := { Project_GitHTTPURL : string; WebURL : string; PathWithNamespace : string }.
Record mrAttrs := {
  IID : Z; Attrs_Action : string; Attrs_Title : string; Attrs_State : string; Attrs_URL : string;
  SourceBranch : string; TargetBranch : string; UpdatedAt : string; LastCommit : option string;
}.
Record mrPayload := {
  ObjectKind : string; Payload_User : option mrUser; Project : option mrProject;
  ObjectAttributes : option mrAttrs; Payload_Labels : list string;
  Payload_Repository : option RawRepository;
}.
Record MergeRequestEvent := {
  Action : string; Number : Z; HTMLURL : string; Title : string; Author : string;
  HeadSHA : string; HeadRef : string; BaseRef : string; Merged : bool;
  Event_Repository : RepositoryRef; At : Time; ProjectPath : string; Labels : list string;
}.

Class GitLabJSON := {
  unmarshal_envelope : string -> option Envelope;
  unmarshal_push : string -> option RawPush;
  unmarshal_merge_request : string -> option mrPayload;
  time_Parse : string -> string -> option Time;
}.

Section Parse.
Context `{GitLabJSON} `{UnicodeCase}.

(** ** [multi.go] *)

Definition extractGitLabCloneURL (body : string) : string :=
  match unmarshal_envelope body with
  | None => ""
  | Some env =>
      if decide (GitHTTPURL (Env_Repository env) <> "") then GitHTTPURL (Env_Repository env)
      else if decide (Env_ProjectGitHTTPURL env <> "") then Env_ProjectGitHTTPURL env
      else URL (Env_Repository env)
  end.

(** ** [gitlab.go] *)

Definition RFC3339 : string := "2006-01-02T15:04:05Z07:00".
(** [ts, _ := time.Parse(...)]. *)
Definition parse_or_zero (layout s : string) : Time := default None (time_Parse layout s).

Definition ChangedFiles (ev : PushEvent) : list string * bool := (changedFiles ev, filesKnown ev).

Definition head_commit (tip : RawCommit) : Commit := {|
  Commit_ID := RC_ID tip; Commit_Message := RC_Message tip;
  Commit_Author := if decide (RC_AuthorName tip = "") then RC_AuthorEmail tip else RC_AuthorName tip;
  Commit_Timestamp := parse_or_zero RFC3339 (RC_Timestamp tip) |}.

Definition ParsePushEvent (body : string) : result parse_error PushEvent :=
  match unmarshal_push body with
  | None => Err DecodePush
  | Some raw =>
      if decide (Raw_ObjectKind raw <> "" /\ Raw_ObjectKind raw <> "push")
      then Err (WrongKind (Raw_ObjectKind raw))
      else if decide (Raw_Ref raw = "") then Err MissingRef
      else
        let cloneURL := if decide (GitHTTPURL (Raw_Repository raw) = "") then URL (Raw_Repository raw)
                        else GitHTTPURL (Raw_Repository raw) in
        if decide (cloneURL = "") then Err MissingRepositoryURL
        else
          let known := bool_decide (Raw_Commits raw <> [] /\
                         Raw_TotalCommitsCount raw = Some (Z.of_nat (length (Raw_Commits raw)))) in
          Ok {|
            Ref := Raw_Ref raw;
            Branch := if HasPrefix (Raw_Ref raw) "refs/heads/" then TrimPrefix (Raw_Ref raw) "refs/heads/" else "";
            After := Raw_After raw; Before := Raw_Before raw;
            Deleted := bool_decide (Raw_After raw = "" \/
                         TrimRightByte (TrimLeftByte (Raw_After raw) "0"%char) "0"%char = "");
            Push_Repository := {| CloneURL := cloneURL |};
            HeadCommit := head_commit <$> last (Raw_Commits raw);
            changedFiles :=
              if known then dedup (Raw_Commits raw ≫= fun c => (RC_Added c ++ RC_Modified c ++ RC_Removed c)%list)
              else [];
            filesKnown := known |}
  end.

(** [normaliseMRLabels]: lowercased and trimmed, no empty one, the first of each. *)
Definition normaliseMRLabels (l : list string) : list string :=
  dedup (filter (fun n => n <> "") ((fun n => ToLower (TrimSpace n)) <$> l)).

(** The first layout that reads the time. *)
Definition updated_at (ts : string) : Time :=
  if decide (ts = "") then None
  else match time_Parse RFC3339 ts with
       | Some t => t
       | None => match time_Parse "2006-01-02 15:04:05 MST" ts with
                 | Some t => t
                 | None => parse_or_zero "2006-01-02 15:04:05 -0700" ts
                 end
       end.

Definition mr_clone_url (p : mrPayload) : string :=
  let project := match Project p with Some pr => Project_GitHTTPURL pr | None => "" end in
  if decide (project <> "") then project
  else match Payload_Repository p with
       | None => ""
       | Some r => if decide (GitHTTPURL r = "") then URL r else GitHTTPURL r
       end.

Definition ParseMergeRequestEvent (body : string) : result parse_error MergeRequestEvent :=
  if decide (body = "") then Err EmptyMergeRequest
  else match unmarshal_merge_request body with
  | None => Err DecodeMergeRequest
  | Some p =>
      if decide (ObjectKind p <> "" /\ ObjectKind p <> "merge_request") then Err (WrongKind (ObjectKind p))
      else match ObjectAttributes p with
      | None => Err MissingAttributes
      | Some a =>
          if decide (Attrs_Action a = "") then Err MissingAction
          else if decide (mr_clone_url p = "") then Err MissingGitHTTPURL
          else match LastCommit a with
          | None | Some "" => Err MissingLastCommit
          | Some sha =>
              if decide (SourceBranch a = "" \/ TargetBranch a = "") then Err MissingBranch
              else Ok {|
                Action := Attrs_Action a; Number := IID a; HTMLURL := Attrs_URL a;
                Title := Attrs_Title a;
                Author := match Payload_User p with
                          | Some u => if decide (Username u = "") then User_Name u else Username u
                          | None => ""
                          end;
                HeadSHA := sha; HeadRef := SourceBranch a; BaseRef := TargetBranch a;
                Merged := bool_decide (Attrs_State a = "merged");
                Event_Repository := {| CloneURL := mr_clone_url p |};
                At := updated_at (UpdatedAt a);
                ProjectPath := match Project p with Some pr => PathWithNamespace pr | None => "" end;
                Labels := normaliseMRLabels (Payload_Labels p) |}
          end
      end
  end.

Definition IsTriggerableAction (ev : MergeRequestEvent) : bool :=
  if Merged ev then false else bool_decide (Action ev ∈ ["open"; "update"; "reopen"]).

(** The list of changed files is trusted only when the counter is present and
    equals the number of commits embedded. *)
Lemma ParsePushEvent_known body ev raw :
  unmarshal_push body = Some raw -> ParsePushEvent body = Ok ev ->
  filesKnown ev = true <->
  Raw_Commits raw <> [] /\ Raw_TotalCommitsCount raw = Some (Z.of_nat (length (Raw_Commits raw))).
Proof.
  unfold ParsePushEvent. intros ->. repeat case_decide; try done; intros [= <-]; apply bool_decide_eq_true.
Qed.
End Parse.
