(* ===== verification/BitbucketHook.v ===== *)
(** Bitbucket's webhooks ([server/internal/webhook/bitbucket]): the signature,
    pushes and pull requests; and [extractBitbucketCloneURL] of
    [webhook/multi.go].  [encoding/json] and [time.Parse] are parameters. *)

From S2P Require Import Prelude GoStrings GoSha256 GoHmac.
Open Scope string_scope.

Notation Time := (option Z).

Inductive signature_error := SecretEmpty | SignatureMissing | ErrInvalidSignature.
Definition VerifySignature (secret body header : string) : result signature_error unit :=
  if decide (secret = "") then Err SecretEmpty
  else if decide (header = "") then Err SignatureMissing
  else if decide (TrimPrefix header "sha256=" = EncodeToString (hmac_sha256 secret body))
  then Ok tt else Err ErrInvalidSignature.

(** [strings.EqualFold(s, "https")]: the letter s has a third form, U+017F. *)
Definition folds_to_https (s : string) : bool :=
  bool_decide (map_bytes lower_byte s ∈ ["https"; "http" +:+ bytes [197; 191]]).

Inductive parse_error :=
| DecodePush | MissingLinks | NoChanges | OnlyBranches (kind : string)
| EmptyPayload | MissingVerb | DecodePullRequest | MissingBlock | MissingSourceBranch
| MissingSourceCommit | MissingDestinationBranch | MissingCloneURL.

(** ** Structs *)

Record RepositoryRef := { CloneURL : string }.
Record prHref := { Href : string; Href_Name : string }.
Record prLinks := { LinkHTML : string; LinkClone : list prHref }.
Record Target := {
  Hash : string; Target_Message : string; Date : string; AuthorRaw : string; DisplayName : string;
}.
Record NewRef := { New_Type : string; New_Name : string; New_Target : Target }.
Record Change := { New : option NewRef; Old : option string; Closed : bool }.
Record RawPush := { Raw_Links : prLinks; Changes : list Change }.
Record Commit := {
  Commit_ID : string; Commit_Message : string; Commit_Author : string; Commit_Timestamp : Time;
}.
Record PushEvent := {
  Ref : string; Branch : string; After : string; Before : string; Deleted : bool;
  Push_Repository : RepositoryRef; HeadCommit : option Commit;
}.

Record prRepo := { FullName : string; Links : prLinks }.
Record prEndpoint := {
  End_Branch : option string; End_Commit : option string; End_Repository : option prRepo;
}.
Record prObject := {
  PR_ID : Z; PR_Title : string; PR_State : string; Source : option prEndpoint;
  Destination : option prEndpoint; PR_Links : option prLinks;
  PR_Author : option (string * string); UpdatedOn : string;
}.
Record prPayload := { PullRequest : option prObject; Payload_Repository : option prRepo }.
Record PullRequestEvent := {
  Action : string; Number : Z; HTMLURL : string; Title : string; Author : string;
  HeadSHA : string; HeadRef : string; BaseRef : string; Merged : bool;
  Event_Repository : RepositoryRef; At : Time; RepoSlug : string; Labels : list string;
}.

Class BitbucketJSON := {
  unmarshal_envelope : string -> option prLinks;
  unmarshal_push : string -> option RawPush;
  unmarshal_pull_request : string -> option prPayload;
  time_Parse : string -> string -> option Time;
}.

Section Parse.
Context `{BitbucketJSON}.

(** ** [multi.go] *)

Definition extractBitbucketCloneURL (body : string) : string :=
  match unmarshal_envelope body with
  | None => ""
  | Some links =>
      match list_find (fun c => Href_Name c = "https") (LinkClone links) with
      | Some (_, c) => Href c
      | None => LinkHTML links
      end
  end.

(** ** [bitbucket.go] *)

Definition RFC3339 : string := "2006-01-02T15:04:05Z07:00".
Definition RFC3339Nano : string := "2006-01-02T15:04:05.999999999Z07:00".

Definition push_clone_url (links : prLinks) : string :=
  match list_find (fun c => folds_to_https (Href_Name c) = true) (LinkClone links) with
  | Some (_, c) => Href c
  | None => LinkHTML links
  end.

Definition head_commit (t : Target) : option Commit :=
  if decide (Hash t <> "") then
    Some {| Commit_ID := Hash t; Commit_Message := Target_Message t;
            Commit_Author := if decide (DisplayName t = "") then AuthorRaw t else DisplayName t;
            Commit_Timestamp := default None (time_Parse RFC3339 (Date t)) |}
  else None.

Definition ParsePushEvent (body : string) : result parse_error PushEvent :=
  match unmarshal_push body with
  | None => Err DecodePush
  | Some raw =>
      let cloneURL := push_clone_url (Raw_Links raw) in
      if decide (cloneURL = "") then Err MissingLinks
      else match Changes raw with
      | [] => Err NoChanges
      | change :: _ =>
          let before := default "" (Old change) in
          let deleted := {| Ref := ""; Branch := ""; After := ""; Before := before; Deleted := true;
                            Push_Repository := {| CloneURL := cloneURL |}; HeadCommit := None |} in
          if Closed change then Ok deleted
          else match New change with
          | None => Ok deleted
          | Some new =>
              if decide (New_Type new <> "branch") then Err (OnlyBranches (New_Type new))
              else Ok {| Ref := "refs/heads/" +:+ New_Name new; Branch := New_Name new;
                         After := Hash (New_Target new); Before := before; Deleted := false;
                         Push_Repository := {| CloneURL := cloneURL |};
                         HeadCommit := head_commit (New_Target new) |}
          end
      end
  end.

Definition EventKeyToAction (eventKey : string) : string :=
  if negb (HasPrefix eventKey "pullrequest:") then "" else TrimPrefix eventKey "pullrequest:".
Definition IsPullRequestEvent (eventKey : string) : bool := HasPrefix eventKey "pullrequest:".

(** [pickHTTPSClone] and, on the envelope's repository, [pickHTTPSCloneTop]. *)
Definition pickHTTPSClone (r : option prRepo) : string :=
  match r with
  | None => ""
  | Some r =>
      match list_find (fun c => folds_to_https (Href_Name c) = true /\ Href c <> "") (LinkClone (Links r)) with
      | Some (_, c) => Href c
      | None => LinkHTML (Links r)
      end
  end.

Definition updated_on (ts : string) : Time :=
  if decide (ts = "") then None
  else match time_Parse RFC3339Nano ts with
       | Some t => t
       | None => default None (time_Parse RFC3339 ts)
       end.

Definition ParsePullRequestEvent (body action : string) : result parse_error PullRequestEvent :=
  if decide (body = "") then Err EmptyPayload
  else if decide (action = "") then Err MissingVerb
  else match unmarshal_pull_request body with
  | None => Err DecodePullRequest
  | Some p =>
      match PullRequest p with
      | None => Err MissingBlock
      | Some pr =>
          match Source pr ≫= End_Branch with
          | None | Some "" => Err MissingSourceBranch
          | Some headRef =>
              match Source pr ≫= End_Commit with
              | None | Some "" => Err MissingSourceCommit
              | Some headSHA =>
                  match Destination pr ≫= End_Branch with
                  | None | Some "" => Err MissingDestinationBranch
                  | Some baseRef =>
                      let dest := Destination pr ≫= End_Repository in
                      let picked := pickHTTPSClone dest in
                      let cloneURL := if decide (picked = "") then pickHTTPSClone (Payload_Repository p)
                                      else picked in
                      if decide (cloneURL = "") then Err MissingCloneURL
                      else
                        let slug := default "" (FullName <$> dest) in
                        Ok {|
                          Action := action; Number := PR_ID pr;
                          HTMLURL := default "" (LinkHTML <$> PR_Links pr); Title := PR_Title pr;
                          Author := match PR_Author pr with
                                    | Some (nickname, display) => if decide (nickname = "") then display else nickname
                                    | None => ""
                                    end;
                          HeadSHA := headSHA; HeadRef := headRef; BaseRef := baseRef;
                          Merged := EqualFoldASCII (PR_State pr) "MERGED";
                          Event_Repository := {| CloneURL := cloneURL |};
                          At := updated_on (UpdatedOn pr);
                          RepoSlug := if decide (slug = "") then default "" (FullName <$> Payload_Repository p) else slug;
                          Labels := [] |}
                  end
              end
          end
      end
  end.

Definition IsTriggerableAction (ev : PullRequestEvent) : bool :=
  if Merged ev then false else bool_decide (Action ev ∈ ["created"; "updated"]).

(** The digest Bitbucket sends is accepted, with the scheme or without. *)
Lemma bitbucket_signature_signed secret body :
  secret <> "" ->
  VerifySignature secret body ("sha256=" +:+ EncodeToString (hmac_sha256 secret body)) = Ok tt.
Proof.
  intros Hs. unfold VerifySignature. rewrite decide_False by done. rewrite decide_False by done.
  by rewrite TrimPrefix_app, decide_True.
Qed.
End Parse.
