(* ===== verification/Modifications.v ===== *)
(** What a trigger writes: the modifications of materials and the runs they start
    ([store/modifications.go], [CreateRunFromModification], [CreatePRHeadRun],
    [webhook/fanout.go]).  A modification is the ledger that keeps a provider's retries
    from starting a second run: its key (material, revision, branch) is unique.

    A statement is one atomic step; its caller may see an error although it was
    committed ([Lost]).  [fanOutMaterials] is two statements per material; at the end,
    the deliveries of any number of servers run interleaved. *)

From S2P Require Import Governance.
From S2P Require Import Prelude GoStrings Domain Compliance.
Open Scope string_scope.

(** ** Rows *)

#[export] Instance MaterialType_eq_dec : EqDecision MaterialType.
Proof. solve_decision. Defined.
Record MaterialRow := {
  Material_ID : N; Material_PipelineID : N; Material_Kind : MaterialType;
  Material_Config : option GitMaterial;      (* [None]: the JSON does not decode *)
  Material_Fingerprint : string;
}.
Record PipelineRow := {
  PipelineRow_ID : N; PipelineRow_Name : string; SystemManaged : bool; PipelineRow_ProjectID : N;
}.
Record ProjectRow := { Project_ID : N; TrustSameRepoPRConfig : bool; ConfigPath : string }.
Record SCMSource := {
  Source_ID : N; Source_ProjectID : N; Source_Provider : string; Source_URL : string;
  Source_DefaultBranch : string; Source_AuthRef : string; Source_PollInterval : Z;
  Source_WebhookSecret : option string;      (* [None]: the ciphertext does not decrypt *)
}.
Record Tables := {
  scm_sources : list SCMSource; projects : list ProjectRow; pipelines : list PipelineRow;
  materials : list MaterialRow;
  governed : gset N;                         (* the projects some policy resolves for *)
}.

Record Modification := {
  Mod_MaterialID : N; Mod_Revision : string; Mod_Branch : option string;
  Mod_Author : option string; Mod_Message : option string; Mod_Payload : string;
  Mod_CommittedAt : option Z;
}.
Record RunRow := {
  Run_PipelineID : N; Run_MaterialID : N; Run_ModificationID : nat; Run_Revision : string;
  Run_Branch : string; Run_Cause : string; Run_Provider : string; Run_Delivery : string;
  Run_TriggeredBy : string; Run_FromHead : bool;
}.
(** An identifier of a modification or a run is its position: rows are only appended,
    save for the cascade of a deleted material or pipeline, which blanks a row. *)
Record World := { tables : Tables; modifications : list (option Modification); runs : list (option RunRow) }.
#[export] Instance Modification_eq_dec : EqDecision Modification.
Proof. solve_decision. Defined.
#[export] Instance RunRow_eq_dec : EqDecision RunRow.
Proof. solve_decision. Defined.

Definition add_modification (w : World) (m : Modification) : World :=
  {| tables := tables w; modifications := modifications w ++ [Some m]; runs := runs w |}.
Definition add_run (w : World) (r : RunRow) : World :=
  {| tables := tables w; modifications := modifications w; runs := runs w ++ [Some r] |}.

(** What the caller of a statement sees: the answer, an error of a statement that did
    nothing, an error of one that was committed. *)
Inductive Reply := Answered | Refused | Lost.

(** ** [store/modifications.go] *)

Definition nullableString (s : string) : option string := if decide (s = "") then None else Some s.

(** The unique key, as SQL compares it: a NULL branch conflicts with nothing. *)
Definition conflicts (m n : Modification) : bool :=
  bool_decide (Mod_MaterialID m = Mod_MaterialID n /\ Mod_Revision m = Mod_Revision n /\
               Mod_Branch m = Mod_Branch n /\ Mod_Branch m <> None).
Definition existing (w : World) (m : Modification) : option nat :=
  fst <$> list_find (fun o => (if o is Some n then conflicts m n else false) = true) (modifications w).
Definition live (w : World) (id : N) : bool := bool_decide (id ∈ Material_ID <$> materials (tables w)).

Record ModificationResult := { ModID : nat; Created : bool }.

(** [InsertModification]: ON CONFLICT DO NOTHING, then the row that was there. *)
Definition InsertModification (w : World) (m : Modification) (r : Reply) : result string ModificationResult * World :=
  match r with
  | Refused => (Err "insert modification", w)
  | _ =>
      if negb (live w (Mod_MaterialID m)) then (Err "insert modification", w)
      else match existing w m with
      | Some id => (match r with Answered => Ok {| ModID := id; Created := false |}
                    | _ => Err "lookup existing modification" end, w)
      | None => (match r with Answered => Ok {| ModID := length (modifications w); Created := true |}
                 | _ => Err "insert modification" end, add_modification w m)
      end
  end.

(** ** [store/runs.go] *)

(** [branch IS NOT DISTINCT FROM]. *)
Definition GetModificationByKey (w : World) (m : N) (revision : string) (branch : option string) : option nat :=
  fst <$> list_find (fun o => (if o is Some n then
    bool_decide (Mod_MaterialID n = m /\ Mod_Revision n = revision /\ Mod_Branch n = branch) else false) = true) (modifications w).
Definition pipeline_row (w : World) (id : N) : option PipelineRow :=
  snd <$> list_find (fun p => PipelineRow_ID p = id) (pipelines (tables w)).

(** [CreateRunFromModification], one transaction: what it does to the rows of the run is
    in [RunCreate], which may also refuse it. *)
Definition CreateRunFromModification (w : World) (run : RunRow) (r : Reply) : result string nat * World :=
  match r with
  | Refused => (Err "create run", w)
  | _ =>
      match pipeline_row w (Run_PipelineID run) with
      | None => (Err "create run", w)
      | Some _ => (match r with Answered => Ok (length (runs w)) | _ => Err "create run" end, add_run w run)
      end
  end.

(** ** [webhook/fanout.go] *)

Record fanOutInput := {
  FO_Revision : string; FO_Branch : string; FO_Author : string; FO_Message : string;
  FO_CommittedAt : option Z; FO_Payload : string; FO_Provider : string; FO_Delivery : string;
  FO_Cause : string;                          (* empty for a push *)
}.
Record fanOutOutcome := {
  Out_PipelineID : N; Out_MaterialID : N; ModificationID : nat; ModCreated : bool;
  RunID : option nat; Out_Err : option string;
}.

Definition modification_of (in_ : fanOutInput) (m : MaterialRow) : Modification := {|
  Mod_MaterialID := Material_ID m; Mod_Revision := FO_Revision in_;
  Mod_Branch := nullableString (FO_Branch in_); Mod_Author := nullableString (FO_Author in_);
  Mod_Message := nullableString (FO_Message in_); Mod_Payload := FO_Payload in_;
  Mod_CommittedAt := FO_CommittedAt in_ |}.
Definition run_of (in_ : fanOutInput) (m : MaterialRow) (mod_ : nat) : RunRow := {|
  Run_PipelineID := Material_PipelineID m; Run_MaterialID := Material_ID m;
  Run_ModificationID := mod_; Run_Revision := FO_Revision in_; Run_Branch := FO_Branch in_;
  Run_Cause := if decide (FO_Cause in_ = "") then "webhook" else FO_Cause in_;
  Run_Provider := FO_Provider in_; Run_Delivery := FO_Delivery in_;
  Run_TriggeredBy := "system:webhook"; Run_FromHead := false |}.
Definition failed_outcome (m : MaterialRow) (e : string) (mod_ : nat) (created : bool) : fanOutOutcome := {|
  Out_PipelineID := Material_PipelineID m; Out_MaterialID := Material_ID m;
  ModificationID := mod_; ModCreated := created; RunID := None; Out_Err := Some e |}.

(** The two statements of one turn of the loop. *)
Definition insert_call (in_ : fanOutInput) (m : MaterialRow) (w : World) (r : Reply) :=
  InsertModification w (modification_of in_ m) r.
Definition create_call (in_ : fanOutInput) (m : MaterialRow) (mod_ : nat) (w : World) (r : Reply) :=
  CreateRunFromModification w (run_of in_ m mod_) r.

Definition fanOutMaterial (in_ : fanOutInput) (insert create : N -> Reply) (w : World) (m : MaterialRow) : fanOutOutcome * World :=
  match insert_call in_ m w (insert (Material_ID m)) with
  | (Err e, w) => (failed_outcome m e 0 false, w)
  | (Ok mod_, w) =>
      if negb (Created mod_) then
        ({| Out_PipelineID := Material_PipelineID m; Out_MaterialID := Material_ID m;
            ModificationID := ModID mod_; ModCreated := false; RunID := None; Out_Err := None |}, w)
      else match create_call in_ m (ModID mod_) w (create (Material_ID m)) with
      | (Err e, w) => (failed_outcome m e (ModID mod_) true, w)
      | (Ok run, w) =>
          ({| Out_PipelineID := Material_PipelineID m; Out_MaterialID := Material_ID m;
              ModificationID := ModID mod_; ModCreated := true; RunID := Some run; Out_Err := None |}, w)
      end
  end.
Fixpoint fanOutMaterials (in_ : fanOutInput) (insert create : N -> Reply) (w : World) (l : list MaterialRow) : list fanOutOutcome * World :=
  match l with
  | [] => ([], w)
  | m :: l =>
      let '(oc, w) := fanOutMaterial in_ insert create w m in
      let '(ocs, w) := fanOutMaterials in_ insert create w l in
      (oc :: ocs, w)
  end.

(** [runsPayload]: (pipeline, material, run) of each run created. *)
Definition runsPayload (l : list fanOutOutcome) : list (N * N * nat) :=
  omap (fun oc => match Out_Err oc, RunID oc with
                  | None, Some r => Some (Out_PipelineID oc, Out_MaterialID oc, r)
                  | _, _ => None
                  end) l.
Definition firstCreatedRunMaterialID (l : list fanOutOutcome) : option N := (fun p => p.1.2) <$> head (runsPayload l).

(** ** [store/pr_head_run.go] *)

Inductive pr_head_error :=
| ErrPRHeadReservedName | ErrPRHeadNoStages | ErrPRHeadInvalidInput | ErrPRHeadStore
| ErrPRHeadMaterialNotFound | ErrPRHeadProjectMismatch | ErrPRHeadConfigDisabled
| ErrPRHeadSystemManaged | ErrPRHeadNameMismatch
| ErrPRHeadFetch | ErrPRHeadConfigInvalid | ErrPRHeadBinding | ErrPRHeadBindingMissing | ErrPRHeadUnavailable
| PRHeadUnresolvable (msg : string).

(** [LockPRHeadRunContext]: a material with its pipeline and their project. *)
Definition LockPRHeadRunContext (w : World) (id : N) : option (PipelineRow * ProjectRow) :=
  '(_, m) ← list_find (fun m => Material_ID m = id) (materials (tables w));
  pl ← pipeline_row w (Material_PipelineID m);
  '(_, p) ← list_find (fun p => Project_ID p = PipelineRow_ProjectID pl) (projects (tables w));
  Some (pl, p).

(** The guards, in order; then - unless the definition ([PRHead.head_definition]) or the
    rows of the run ([RunCreate]) are refused - the modification and the run in the same
    transaction. *)
Definition CreatePRHeadRun (w : World) (project : N) (head : Pipeline) (in_ : fanOutInput) (m : MaterialRow) (r : Reply) :
    result pr_head_error (option nat) * World :=
  if negb (is_ok (RejectReservedNames head)) || IsReservedPipelineName (Pipeline_Name head) then (Err ErrPRHeadReservedName, w)
  else if decide (Stages head = []) then (Err ErrPRHeadNoStages, w)
  else if decide (project = 0%N \/ FO_Revision in_ = "" \/ FO_Branch in_ = "" \/ FO_Provider in_ = "" \/ FO_Delivery in_ = "") then (Err ErrPRHeadInvalidInput, w)
  else match LockPRHeadRunContext w (Material_ID m) with
  | None => (Err ErrPRHeadMaterialNotFound, w)
  | Some (pl, p) =>
      if decide (Project_ID p <> project) then (Err ErrPRHeadProjectMismatch, w)
      else if negb (TrustSameRepoPRConfig p) then (Err ErrPRHeadConfigDisabled, w)
      else if SystemManaged pl then (Err ErrPRHeadSystemManaged, w)
      else if decide (Pipeline_Name head <> PipelineRow_Name pl) then (Err ErrPRHeadNameMismatch, w)
      else match r with
      | Refused => (Err ErrPRHeadStore, w)
      | _ =>
          match existing w (modification_of in_ m) with
          | Some _ => (match r with Answered => Ok None | _ => Err ErrPRHeadStore end, w)
          | None =>
              let run := {| Run_PipelineID := PipelineRow_ID pl; Run_MaterialID := Material_ID m;
                            Run_ModificationID := length (modifications w); Run_Revision := FO_Revision in_;
                            Run_Branch := FO_Branch in_; Run_Cause := "pull_request";
                            Run_Provider := FO_Provider in_; Run_Delivery := FO_Delivery in_;
                            Run_TriggeredBy := "system:webhook"; Run_FromHead := true |} in
              (match r with Answered => Ok (Some (length (runs w))) | _ => Err ErrPRHeadStore end,
               add_run (add_modification w (modification_of in_ m)) run)
          end
      end
  end.
