(* ===== verification/Ledger.v ===== *)
(** The ledger of modifications under concurrency: the deliveries of any number of
    servers, each a fan-out that stops between two statements or dies there, with
    pull request heads, other triggers, reruns and re-applied pipelines in between.
    Deliveries start at most one run for a material, revision and branch, and any
    other is a rerun of such a run; a modification whose run was not created blocks
    that run for good. *)

From S2P Require Import Prelude GoStrings Domain Modifications.
Open Scope list_scope.

(** ** Keys *)

Notation key := (N * string * string)%type.
Definition delivery_causes : list string := ["webhook"; "pull_request"; "tag"].

Definition mod_key (o : option Modification) : option key :=
  m ← o; b ← Mod_Branch m; Some (Mod_MaterialID m, Mod_Revision m, b).
(** The key of a run a delivery started; no key constrains an empty branch. *)
Definition run_key (o : option RunRow) : option key :=
  r ← o;
  if decide (Run_Cause r ∈ delivery_causes /\ Run_Branch r <> "") then Some (Run_MaterialID r, Run_Revision r, Run_Branch r)
  else None.
(** The provider a rerun is recorded with; no delivery has it. *)
Definition rerun_provider : string := "api".
Definition claim_key (o : option RunRow) : option key :=
  r ← o; if decide (Run_Provider r = rerun_provider) then None else run_key (Some r).
Definition input_key (in_ : fanOutInput) (m : MaterialRow) : option key :=
  if decide (FO_Branch in_ = "") then None else Some (Material_ID m, FO_Revision in_, FO_Branch in_).

(** ** Deliveries in flight *)

Inductive stage := Todo (l : list MaterialRow) | Inserted (m : MaterialRow) (mod_ : nat) (l : list MaterialRow).
Record Flight := { F_in : fanOutInput; F_stage : stage }.
Definition at_stage (f : Flight) (st : stage) : Flight := {| F_in := F_in f; F_stage := st |}.
(** [prepared]: reruns whose reads are done and whose transaction is not; [used]: every
    identifier a material ever had; they are random and never reused. *)
Record Server := { world : World; flights : list Flight; prepared : list RunRow; used : gset N }.
Definition with_world (s : Server) (w : World) : Server :=
  {| world := w; flights := flights s; prepared := prepared s; used := used s |}.
Definition with_flight (s : Server) (w : World) (i : nat) (f : Flight) : Server :=
  {| world := w; flights := <[i := f]> (flights s); prepared := prepared s; used := used s |}.
Definition with_prepared (s : Server) (w : World) (l : list RunRow) : Server :=
  {| world := w; flights := flights s; prepared := l; used := used s |}.

Definition after_insert (m : MaterialRow) (l : list MaterialRow) (r : result string ModificationResult) : stage :=
  match r with Ok {| ModID := id; Created := true |} => Inserted m id l | _ => Todo l end.

(** A re-applied configuration: a modification goes with its material, a run with its
    pipeline (ON DELETE CASCADE). *)
Definition reapply (w : World) (t : Tables) : World := {|
  tables := t;
  modifications := (fun o => m ← o; if decide (Mod_MaterialID m ∈ Material_ID <$> materials t) then Some m else None) <$> modifications w;
  runs := (fun o => r ← o; if decide (Run_PipelineID r ∈ PipelineRow_ID <$> pipelines t) then Some r else None) <$> runs w |}.
(** What [rerunRun] creates for a run of one revision: its cause is kept. *)
Definition rerun_row (row : RunRow) (id mod_ : nat) (by_ : string) : RunRow := {|
  Run_PipelineID := Run_PipelineID row; Run_MaterialID := Run_MaterialID row; Run_ModificationID := mod_;
  Run_Revision := Run_Revision row; Run_Branch := Run_Branch row;
  Run_Cause := if decide (Run_Cause row = "") then "manual" else Run_Cause row;
  Run_Provider := rerun_provider; Run_Delivery := "rerun-" +:+ itoa (Z.of_nat id);
  Run_TriggeredBy := if decide (by_ = "") then "rerun:" +:+ itoa (Z.of_nat id) else by_; Run_FromHead := false |}.
Definition ids (t : Tables) : gset N := list_to_set (Material_ID <$> materials t).

Inductive step (s : Server) : Server -> Prop :=
| step_start in_ l : FO_Cause in_ ∈ ["" ; "pull_request"; "tag"] -> FO_Provider in_ <> rerun_provider ->
    step s {| world := world s; flights := flights s ++ [{| F_in := in_; F_stage := Todo l |}]; prepared := prepared s; used := used s |}
| step_insert i f m l r res w :
    flights s !! i = Some f -> F_stage f = Todo (m :: l) -> insert_call (F_in f) m (world s) r = (res, w) ->
    step s (with_flight s w i (at_stage f (after_insert m l res)))
| step_create i f m mod_ l r res w :
    flights s !! i = Some f -> F_stage f = Inserted m mod_ l -> create_call (F_in f) m mod_ (world s) r = (res, w) ->
    step s (with_flight s w i (at_stage f (Todo l)))
| step_crash i f : flights s !! i = Some f -> step s (with_flight s (world s) i (at_stage f (Todo [])))
| step_head project head in_ m r res w : FO_Provider in_ <> rerun_provider ->
    CreatePRHeadRun (world s) project head in_ m r = (res, w) -> step s (with_world s w)
| step_other_modification m r res w : InsertModification (world s) m r = (res, w) -> step s (with_world s w)
| step_other_run run : Run_Cause run ∉ delivery_causes -> step s (with_world s (add_run (world s) run))
(* [rerunRun]: the reads, of a run that has ended and is no head's, and later the transaction *)
| step_prepare_rerun id row mod_ by_ :
    runs (world s) !! id = Some (Some row) -> Run_FromHead row = false ->
    GetModificationByKey (world s) (Run_MaterialID row) (Run_Revision row) (nullableString (Run_Branch row)) = Some mod_ ->
    step s (with_prepared s (world s) (prepared s ++ [rerun_row row id mod_ by_]))
| step_rerun k run r res w : prepared s !! k = Some run -> CreateRunFromModification (world s) run r = (res, w) ->
    step s (with_prepared s w (delete k (prepared s)))
| step_reapply t :
    (forall id, id ∈ ids t -> id ∈ ids (tables (world s)) \/ id ∉ used s) ->
    step s {| world := reapply (world s) t; flights := flights s; prepared := prepared s; used := used s ∪ ids t |}.

Definition empty_tables : Tables := {| scm_sources := []; projects := []; pipelines := []; materials := []; governed := ∅ |}.
Definition boot : Server := {| world := {| tables := empty_tables; modifications := []; runs := [] |}; flights := []; prepared := []; used := ∅ |}.
Definition reachable (s : Server) : Prop := rtc step boot s.

(** ** Claims *)

(** The runs of deliveries, and those about to be created; reruns claim nothing. *)
Definition flight_key (f : Flight) : option key :=
  match F_stage f with Inserted m _ _ => input_key (F_in f) m | Todo _ => None end.
Definition claims (s : Server) : list key := omap claim_key (runs (world s)) ++ omap flight_key (flights s).
Definition recorded (w : World) (k : key) : Prop := k ∈ omap mod_key (modifications w).
(** No insertion can create a modification with this key any more. *)
Definition spent (s : Server) (k : key) : Prop :=
  k.1.1 ∈ used s /\ (k.1.1 ∈ ids (tables (world s)) -> recorded (world s) k).

Definition causes_ok (f : Flight) : Prop :=
  FO_Cause (F_in f) ∈ ["" ; "pull_request"; "tag"] /\ FO_Provider (F_in f) <> rerun_provider.
Record Inv (s : Server) : Prop := {
  inv_spent : Forall (spent s) (claims s);
  inv_nodup : NoDup (claims s);
  inv_used : ids (tables (world s)) ⊆ used s;
  inv_causes : Forall causes_ok (flights s);
  inv_prepared : Forall (fun r => Run_Provider r = rerun_provider) (prepared s);
}.

Lemma live_spec w id : live w id = true <-> id ∈ ids (tables w).
Proof. unfold live, ids. by rewrite bool_decide_eq_true, elem_of_list_to_set. Qed.

(** ** What the statements do to the ledger *)

Lemma existing_None w m b :
  existing w m = None -> Mod_Branch m = Some b -> ~ recorded w (Mod_MaterialID m, Mod_Revision m, b).
Proof.
  unfold existing, recorded. intros Hn Hb (o & Ho & Hk)%list_elem_of_omap.
  apply fmap_None, list_find_None in Hn. rewrite Forall_forall in Hn. apply (Hn o Ho).
  destruct o as [n|]; [|done]. unfold mod_key in Hk. simpl in Hk. destruct (Mod_Branch n) as [c|] eqn:Hc; [|done].
  simplify_eq/=. unfold conflicts. by rewrite bool_decide_eq_true, Hb, Hc.
Qed.
Lemma existing_Some w m id b :
  existing w m = Some id -> Mod_Branch m = Some b -> recorded w (Mod_MaterialID m, Mod_Revision m, b).
Proof.
  unfold existing, recorded. intros ([j o] & Hf & _)%fmap_Some Hb. apply list_find_Some in Hf as (Ho & Hc & _).
  apply list_elem_of_omap. exists o. split; [by eapply list_elem_of_lookup_2|].
  destruct o as [n|]; [|done]. apply bool_decide_eq_true in Hc as (? & ? & ? & _).
  unfold mod_key. simpl. replace (Mod_Branch n) with (Some b) by congruence. simpl. congruence.
Qed.

Lemma recorded_add w m k : recorded w k -> recorded (add_modification w m) k.
Proof. unfold recorded. simpl. rewrite omap_app, elem_of_app. by left. Qed.

(** A modification inserted is recorded, and was not before. *)
Lemma InsertModification_spec w m r res w' :
  InsertModification w m r = (res, w') ->
  tables w' = tables w /\ runs w' = runs w /\ (forall k, recorded w k -> recorded w' k) /\
  (forall id, res = Ok {| ModID := id; Created := true |} ->
     Mod_MaterialID m ∈ ids (tables w) /\ w' = add_modification w m /\
     forall b, Mod_Branch m = Some b -> ~ recorded w (Mod_MaterialID m, Mod_Revision m, b)).
Proof.
  unfold InsertModification. intros Hi.
  destruct r; [|simplify_eq; naive_solver|];
    (destruct (live w (Mod_MaterialID m)) eqn:Hl; cbn [negb] in Hi; [|simplify_eq; naive_solver]);
    (destruct (existing w m) as [e|] eqn:He; [simplify_eq; naive_solver|]); simplify_eq;
    (do 3 (split; [eauto using recorded_add|])); [|done].
  intros id [= <-]. split; [by apply live_spec|]. split; [done|]. eauto using existing_None.
Qed.

Lemma CreateRunFromModification_spec w run r res w' :
  CreateRunFromModification w run r = (res, w') -> w' = w \/ w' = add_run w run.
Proof. unfold CreateRunFromModification. destruct r; [| |]; repeat case_match; naive_solver. Qed.

Lemma input_key_spec in_ m :
  input_key in_ m = (b ← Mod_Branch (modification_of in_ m); Some (Material_ID m, FO_Revision in_, b)).
Proof. unfold input_key, modification_of, nullableString. simpl. by case_decide. Qed.

Lemma claim_key_delivery r : Run_Provider r <> rerun_provider -> claim_key (Some r) = run_key (Some r).
Proof. intros Hp. unfold claim_key. cbn [mbind option_bind]. by rewrite decide_False. Qed.
Lemma claim_key_rerun r : Run_Provider r = rerun_provider -> claim_key (Some r) = None.
Proof. intros Hp. unfold claim_key. cbn [mbind option_bind]. by rewrite decide_True. Qed.
Lemma run_of_key in_ m mod_ : FO_Cause in_ ∈ ["" ; "pull_request"; "tag"] -> FO_Provider in_ <> rerun_provider ->
  claim_key (Some (run_of in_ m mod_)) = input_key in_ m.
Proof.
  intros Hc Hp. rewrite claim_key_delivery by done. unfold run_key, input_key, run_of, delivery_causes. simpl.
  destruct (decide (FO_Branch in_ = "")) as [Hb|Hb]; [rewrite decide_False; [done|by intros [_ []]]|].
  rewrite decide_True; [done|]. split; [|done]. case_decide; set_solver.
Qed.

(** A pull request's head is both at once or neither. *)
Lemma CreatePRHeadRun_spec w project head in_ m r res w' :
  CreatePRHeadRun w project head in_ m r = (res, w') ->
  w' = w \/
  exists run, w' = add_run (add_modification w (modification_of in_ m)) run /\
    run_key (Some run) = input_key in_ m /\ Run_Provider run = FO_Provider in_ /\ Material_ID m ∈ ids (tables w) /\
    forall k, input_key in_ m = Some k -> ~ recorded w k.
Proof.
  unfold CreatePRHeadRun. intros Hc.
  destruct (LockPRHeadRunContext w (Material_ID m)) as [[pl p]|] eqn:Hlock.
  2: { repeat case_match; simplify_eq; by left. }
  assert (Material_ID m ∈ ids (tables w)) as Hm.
  { unfold LockPRHeadRunContext in Hlock. destruct (list_find _ (materials _)) as [[j m']|] eqn:Hf; [|done].
    apply list_find_Some in Hf as (Hj & Hid & _). unfold ids. rewrite elem_of_list_to_set, list_elem_of_fmap.
    exists m'. split; [done|]. by eapply list_elem_of_lookup_2. }
  assert (forall run, Run_MaterialID run = Material_ID m -> Run_Revision run = FO_Revision in_ -> Run_Branch run = FO_Branch in_ ->
            Run_Cause run = "pull_request" -> FO_Branch in_ <> "" -> run_key (Some run) = input_key in_ m) as Hkey.
  { intros run H1 H2 H3 H4 H5. unfold run_key, input_key. simpl. rewrite H1, H2, H3, H4.
    rewrite decide_True by (split; [unfold delivery_causes; set_solver|done]). by rewrite decide_False. }
  repeat case_match; simplify_eq; try (by left); right; eexists; (split; [done|]); (split; [apply Hkey; naive_solver|]); (split; [done|]);
    (split; [done|]); intros k; rewrite input_key_spec; intros (b & Hb & [= <-])%bind_Some;
    exact (existing_None _ _ _ ltac:(eassumption) Hb).
Qed.

(** ** A step claims at most one new key, and spends it *)

Lemma list_split_insert {A} (l : list A) i x y :
  l !! i = Some x -> exists l1 l2, l = l1 ++ x :: l2 /\ <[i := y]> l = l1 ++ y :: l2.
Proof.
  intros Hi. pose proof (lookup_lt_Some _ _ _ Hi). exists (take i l), (drop (S i) l).
  split; [by rewrite take_drop_middle|]. by apply insert_take_drop.
Qed.

(** A flight that moves trades its key for another. *)
Lemma flight_moves fl i f g :
  fl !! i = Some f ->
  exists rest, omap flight_key fl ≡ₚ option_list (flight_key f) ++ rest /\
               omap flight_key (<[i := g]> fl) ≡ₚ option_list (flight_key g) ++ rest.
Proof.
  intros (l1 & l2 & -> & ->)%(fun H => list_split_insert _ _ _ g H). exists (omap flight_key l1 ++ omap flight_key l2).
  rewrite !omap_app. simpl. destruct (flight_key f), (flight_key g); simpl; split; solve_Permutation.
Qed.

Record moves (s s' : Server) : Prop := {
  mv_spent : forall k, spent s k -> spent s' k;
  mv_claims : exists o, claims s' ⊆+ option_list o ++ claims s /\ forall k, o = Some k -> ~ spent s k /\ spent s' k;
  mv_used : ids (tables (world s')) ⊆ used s';
  mv_causes : Forall causes_ok (flights s');
  mv_prepared : Forall (fun r => Run_Provider r = rerun_provider) (prepared s');
}.

Lemma spent_mono s s' k :
  used s = used s' -> tables (world s') = tables (world s) ->
  (forall k, recorded (world s) k -> recorded (world s') k) -> spent s k -> spent s' k.
Proof. intros Hu Ht Hr [H1 H2]. split; [by rewrite <- Hu|]. rewrite Ht. eauto. Qed.

(** A record of [moves] for a step that neither claims nor changes the tables. *)
Lemma moves_still s s' :
  Inv s -> used s' = used s -> tables (world s') = tables (world s) -> Forall causes_ok (flights s') ->
  Forall (fun r => Run_Provider r = rerun_provider) (prepared s') ->
  (forall k, recorded (world s) k -> recorded (world s') k) -> claims s' ⊆+ claims s -> moves s s'.
Proof.
  intros HI Hu Ht Hc Hpre Hr Hcl. split.
  - intros k. by apply spent_mono.
  - exists None. split; [done|]. naive_solver.
  - rewrite Hu, Ht. apply HI.
  - done.
  - done.
Qed.
Lemma moves_claim s s' k :
  Inv s -> used s' = used s -> tables (world s') = tables (world s) -> Forall causes_ok (flights s') ->
  Forall (fun r => Run_Provider r = rerun_provider) (prepared s') ->
  (forall k, recorded (world s) k -> recorded (world s') k) -> claims s' ⊆+ k :: claims s ->
  k.1.1 ∈ ids (tables (world s)) -> ~ recorded (world s) k -> recorded (world s') k -> moves s s'.
Proof.
  intros HI Hu Ht Hc Hpre Hr Hcl Hk Hn Hk'. split.
  - intros k'. by apply spent_mono.
  - exists (Some k). split; [done|]. intros ? [= <-]. split; [intros [_ H]; auto|]. split; [|by intros _].
    rewrite Hu. by apply (inv_used s HI).
  - rewrite Hu, Ht. apply HI.
  - done.
  - done.
Qed.

Lemma causes_insert s i f st :
  Inv s -> flights s !! i = Some f -> Forall causes_ok (<[i := at_stage f st]> (flights s)).
Proof.
  intros HI Hf. apply Forall_insert; [apply HI|]. pose proof (inv_causes s HI) as H.
  rewrite Forall_lookup in H. apply (H i f Hf).
Qed.
Lemma cause_of s i f : Inv s -> flights s !! i = Some f -> causes_ok f.
Proof. intros HI Hf. pose proof (inv_causes s HI) as H. rewrite Forall_lookup in H. apply (H i f Hf). Qed.

Lemma recorded_key w in_ m k :
  input_key in_ m = Some k -> recorded (add_modification w (modification_of in_ m)) k.
Proof.
  rewrite input_key_spec. intros (b & Hb & [= <-])%bind_Some. unfold recorded. simpl. rewrite omap_app, elem_of_app. right.
  apply list_elem_of_omap. eexists. split; [by apply list_elem_of_singleton|]. unfold mod_key. cbn -[modification_of]. by rewrite Hb.
Qed.

Lemma insert_moves s i f m l r res w :
  Inv s -> flights s !! i = Some f -> F_stage f = Todo (m :: l) -> insert_call (F_in f) m (world s) r = (res, w) ->
  moves s (with_flight s w i (at_stage f (after_insert m l res))).
Proof.
  intros HI Hf Hst Hi. pose proof (inv_prepared s HI) as Hpre. apply InsertModification_spec in Hi as (Ht & Hr & Hrec & Hnew).
  destruct (flight_moves (flights s) i f (at_stage f (after_insert m l res)) Hf) as (rest & Hb & Ha).
  assert (flight_key f = None) as Hfk by (unfold flight_key; by rewrite Hst). rewrite Hfk in Hb. simpl in Hb.
  assert (claims (with_flight s w i (at_stage f (after_insert m l res)))
          ≡ₚ option_list (flight_key (at_stage f (after_insert m l res))) ++ claims s) as Hcl.
  { unfold claims. simpl. rewrite Hr, Ha, Hb. solve_Permutation. }
  destruct (flight_key (at_stage f (after_insert m l res))) as [k|] eqn:Hk; simpl in Hcl.
  - unfold flight_key in Hk. simpl in Hk. destruct res as [[id []]|]; simpl in Hk; try done.
    destruct (Hnew id eq_refl) as (Hm & -> & Hfresh).
    apply (moves_claim _ _ k); simpl; try done; [by apply causes_insert|by rewrite Hcl| | |by apply recorded_key];
      rewrite input_key_spec in Hk; apply bind_Some in Hk as (b & Hb' & [= <-]); [done|by apply Hfresh].
  - apply moves_still; simpl; try done; [by apply causes_insert|by rewrite Hcl].
Qed.

Lemma create_moves s i f m mod_ l r res w :
  Inv s -> flights s !! i = Some f -> F_stage f = Inserted m mod_ l -> create_call (F_in f) m mod_ (world s) r = (res, w) ->
  moves s (with_flight s w i (at_stage f (Todo l))).
Proof.
  intros HI Hf Hst Hc. pose proof (inv_prepared s HI) as Hpre. apply CreateRunFromModification_spec in Hc.
  destruct (flight_moves (flights s) i f (at_stage f (Todo l)) Hf) as (rest & Hb & Ha).
  assert (flight_key f = input_key (F_in f) m) as Hfk by (unfold flight_key; by rewrite Hst). rewrite Hfk in Hb.
  apply moves_still; simpl; try done; [by destruct Hc as [-> | ->]|by apply causes_insert|by destruct Hc as [-> | ->]|].
  unfold claims. simpl. rewrite Ha, Hb. destruct Hc as [-> | ->]; simpl.
  - apply submseteq_skips_l, submseteq_inserts_l. done.
  - rewrite omap_app. cbn [omap list_omap]. rewrite run_of_key by (by eapply cause_of in Hf as [? ?]).
    apply Permutation_submseteq. destruct (input_key (F_in f) m); simpl; solve_Permutation.
Qed.

Lemma omap_blank_sublist {A B} (f : option A -> option B) (g : option A -> option A) (l : list (option A)) :
  (forall o, g o = o \/ g o = None) -> f None = None -> omap f (g <$> l) ⊆+ omap f l.
Proof.
  intros Hg Hf. induction l as [|o l IH]; [done|]. cbn [fmap list_fmap omap list_omap].
  destruct (Hg o) as [-> | ->]; [|rewrite Hf]; destruct (f o); [by constructor|done|by constructor|done].
Qed.

Lemma reapply_moves s t :
  Inv s -> (forall id, id ∈ ids t -> id ∈ ids (tables (world s)) \/ id ∉ used s) ->
  moves s {| world := reapply (world s) t; flights := flights s; prepared := prepared s; used := used s ∪ ids t |}.
Proof.
  intros HI Hids. split; simpl.
  - intros k [Hu Hr]. split; simpl; [set_solver|]. intros Hk.
    destruct (Hids _ Hk) as [Hold|]; [|done]. specialize (Hr Hold). unfold recorded in *. simpl.
    apply list_elem_of_omap in Hr as ([m|] & Hm & Hkm); [|done]. apply list_elem_of_omap. exists (Some m). split; [|done].
    apply list_elem_of_fmap. exists (Some m). split; [|done]. simpl. rewrite decide_True; [done|].
    unfold mod_key in Hkm. simpl in Hkm. apply bind_Some in Hkm as (b & _ & [= <-]). simpl in Hk.
    unfold ids in Hk. by rewrite elem_of_list_to_set in Hk.
  - exists None. split; [|naive_solver]. simpl. unfold claims. simpl. apply submseteq_skips_r.
    apply omap_blank_sublist; [|done]. intros [r|]; simpl; [case_decide|]; auto.
  - set_solver.
  - apply HI.
  - apply HI.
Qed.

Lemma step_moves s s' : Inv s -> step s s' -> moves s s'.
Proof.
  intros HI Hs. pose proof (inv_prepared s HI) as Hpre. destruct Hs as [in_ l Hc Hp|i f m l r res w Hf Hst Hi|i f m mod_ l r res w Hf Hst Hc|i f Hf
    |project head in_ m r res w Hp Hc|m r res w Hi|run Hc|id row mod_ by_ Hr Hh Hm|k run r res w Hk Hc|t Hids].
  - apply moves_still; simpl; try done.
    + apply Forall_app. split; [apply HI|]. by constructor.
    + unfold claims. simpl. rewrite omap_app. simpl. by rewrite app_nil_r.
  - by eapply insert_moves.
  - by eapply create_moves.
  - apply moves_still; simpl; try done; [by apply causes_insert|].
    destruct (flight_moves (flights s) i f (at_stage f (Todo [])) Hf) as (rest & Hb & Ha).
    unfold claims. simpl. rewrite Ha, Hb. apply submseteq_skips_l, submseteq_inserts_l. done.
  - apply CreatePRHeadRun_spec in Hc as [-> | (run & -> & Hk & Hpr & Hm & Hfresh)].
    { apply moves_still; simpl; try done. apply HI. }
    rewrite <- Hpr in Hp. rewrite <- (claim_key_delivery _ Hp) in Hk. destruct (input_key in_ m) as [k|] eqn:Hin.
    + apply (moves_claim _ _ k); simpl; try done; [apply HI|intros; by apply recorded_add| | |by apply Hfresh|by apply recorded_key].
      * unfold claims. simpl. rewrite omap_app. cbn [omap list_omap]. rewrite Hk. apply Permutation_submseteq. simpl. solve_Permutation.
      * unfold input_key in Hin. case_decide; [done|]. by simplify_eq.
    + apply moves_still; simpl; try done; [apply HI|intros; by apply recorded_add|].
      unfold claims. simpl. rewrite omap_app. cbn [omap list_omap]. rewrite Hk. by rewrite app_nil_r.
  - apply InsertModification_spec in Hi as (Ht & Hr & Hrec & _).
    apply moves_still; simpl; try done; [apply HI|]. unfold claims. simpl. by rewrite Hr.
  - assert (claim_key (Some run) = None) as Hk.
    { unfold claim_key, run_key. cbn [mbind option_bind]. case_decide; [done|]. by rewrite decide_False by naive_solver. }
    apply moves_still; simpl; try done; [apply HI|]. unfold claims. cbn [world with_world flights add_run runs].
    rewrite omap_app. cbn [omap list_omap]. rewrite Hk. by rewrite app_nil_r.
  - apply moves_still; simpl; try done; [apply HI|]. apply Forall_app. split; [done|]. by constructor.
  - assert (Run_Provider run = rerun_provider) as Hp by (rewrite Forall_lookup in Hpre; by eapply Hpre).
    apply CreateRunFromModification_spec in Hc.
    apply moves_still; simpl; [done|done|by destruct Hc as [-> | ->]|apply HI| |by destruct Hc as [-> | ->]|].
    + by apply Forall_delete.
    + unfold claims. simpl. destruct Hc as [-> | ->]; [done|]. simpl. rewrite omap_app. cbn [omap list_omap].
      rewrite (claim_key_rerun _ Hp). by rewrite app_nil_r.
  - by apply reapply_moves.
Qed.

Lemma NoDup_under {A} (l k : list A) : l ⊆+ k -> NoDup k -> NoDup l.
Proof. intros (x & ->)%submseteq_Permutation (H & _ & _)%NoDup_app. done. Qed.

Lemma step_Inv s s' : Inv s -> step s s' -> Inv s'.
Proof.
  intros HI Hs. destruct (step_moves s s' HI Hs) as [Hsp (o & Hcl & Ho) Hu Hc]. split; try done.
  - apply Forall_forall. intros k Hk. apply (elem_of_submseteq _ _ _ Hk) in Hcl. apply elem_of_app in Hcl as [Hin|Hin].
    + destruct o as [k'|]; [|by apply not_elem_of_nil in Hin]. apply list_elem_of_singleton in Hin as ->. by apply Ho.
    + apply Hsp. pose proof (inv_spent s HI) as H. rewrite Forall_forall in H. auto.
  - apply (NoDup_under _ _ Hcl). destruct o as [k|]; [|apply HI]. simpl. constructor; [|apply HI].
    intros Hin. destruct (Ho k eq_refl) as [Hn _]. apply Hn. pose proof (inv_spent s HI) as H. rewrite Forall_forall in H. auto.
Qed.

Lemma ledger_Inv s : reachable s -> Inv s.
Proof.
  apply (rtc_ind_r (fun s => Inv s) boot); [|intros s1 s2 _ Hs HI; by eapply step_Inv].
  split; simpl; try done. constructor.
Qed.

(** What is spent and not claimed is never claimed. *)
Lemma step_unclaimed s s' k : Inv s -> step s s' -> spent s k -> k ∉ claims s -> spent s' k /\ k ∉ claims s'.
Proof.
  intros HI Hs Hk Hn. destruct (step_moves s s' HI Hs) as [Hsp (o & Hcl & Ho) _ _]. split; [auto|].
  intros Hin. apply (elem_of_submseteq _ _ _ Hin) in Hcl. apply elem_of_app in Hcl as [H|H]; [|done].
  destruct o as [k'|]; [|by apply not_elem_of_nil in H]. apply list_elem_of_singleton in H as ->. by destruct (Ho k' eq_refl).
Qed.
Lemma steps_unclaimed s s' k : Inv s -> rtc step s s' -> spent s k -> k ∉ claims s -> k ∉ claims s'.
Proof.
  intros HI Hs. induction Hs as [s|s s1 s2 H1 H2 IH]; [done|]. intros Hk Hn.
  destruct (step_unclaimed s s1 k HI H1 Hk Hn). apply IH; [by eapply step_Inv|done..].
Qed.

(** ** The handlers take steps of the ledger *)

(** Run alone, the loop is the flight's steps. *)
Lemma fanOut_steps in_ insert create w l ocs w' fl pr us :
  fanOutMaterials in_ insert create w l = (ocs, w') ->
  rtc step {| world := w; flights := fl ++ [{| F_in := in_; F_stage := Todo l |}]; prepared := pr; used := us |}
           {| world := w'; flights := fl ++ [{| F_in := in_; F_stage := Todo [] |}]; prepared := pr; used := us |}.
Proof.
  assert (forall st g, (fl ++ [{| F_in := in_; F_stage := st |}]) !! length fl = Some {| F_in := in_; F_stage := st |} /\
          <[length fl := {| F_in := in_; F_stage := g |}]> (fl ++ [{| F_in := in_; F_stage := st |}]) = fl ++ [{| F_in := in_; F_stage := g |}]) as Hfl.
  { intros st g. split; [by apply list_lookup_middle|]. by rewrite insert_app_r_alt, Nat.sub_diag by lia. }
  revert w ocs. induction l as [|m l IH]; intros w ocs; cbn [fanOutMaterials].
  { intros [= <- <-]. apply rtc_refl. }
  destruct (fanOutMaterial in_ insert create w m) as [oc w1] eqn:Hm.
  destruct (fanOutMaterials in_ insert create w1 l) as [ocs1 w2] eqn:Hl. intros [= <- <-].
  etransitivity; [|exact (IH _ _ Hl)].
  unfold fanOutMaterial in Hm. destruct (insert_call in_ m w (insert (Material_ID m))) as [res wi] eqn:Hi.
  destruct (Hfl (Todo (m :: l)) (after_insert m l res)) as [Hlk Hins].
  pose proof (step_insert {| world := w; flights := fl ++ [{| F_in := in_; F_stage := Todo (m :: l) |}]; prepared := pr; used := us |}
    (length fl) _ m l _ res wi Hlk eq_refl Hi) as Hstep.
  unfold with_flight, at_stage in Hstep. cbn [world flights prepared used F_in F_stage] in Hstep. rewrite Hins in Hstep.
  destruct res as [[id []]|e]; cbn [negb Created ModID] in Hm; [|simplify_eq; by eapply rtc_once..].
  eapply rtc_l; [exact Hstep|]. destruct (create_call in_ m id wi (create (Material_ID m))) as [res wc] eqn:Hc.
  destruct (Hfl (Inserted m id l) (Todo l)) as [Hlk' Hins'].
  pose proof (step_create {| world := wi; flights := fl ++ [{| F_in := in_; F_stage := Inserted m id l |}]; prepared := pr; used := us |}
    (length fl) _ m id l _ res wc Hlk' eq_refl Hc) as Hstep'.
  unfold with_flight, at_stage in Hstep'. cbn [world flights prepared used F_in F_stage] in Hstep'. rewrite Hins' in Hstep'.
  destruct res; simplify_eq; by eapply rtc_once.
Qed.

(** ** What deliveries promise, and what they lose *)

Lemma NoDup_omap_index {A B} (f : A -> option B) (l : list A) i j x y k :
  NoDup (omap f l) -> l !! i = Some x -> l !! j = Some y -> f x = Some k -> f y = Some k -> i = j.
Proof.
  revert i j. induction l as [|z l IH]; intros i j Hnd Hi Hj Hx Hy; [done|]. cbn [omap list_omap] in Hnd.
  destruct i as [|i], j as [|j]; simplify_eq/=; [done|..].
  - rewrite Hx in Hnd. apply NoDup_cons in Hnd as [Hn _]. destruct Hn. apply list_elem_of_omap. eauto using list_elem_of_lookup_2.
  - rewrite Hy in Hnd. apply NoDup_cons in Hnd as [Hn _]. destruct Hn. apply list_elem_of_omap. eauto using list_elem_of_lookup_2.
  - f_equal. apply (IH i j); try done. destruct (f z); [by apply NoDup_cons in Hnd as [_ ?]|done].
Qed.

(** A rerun in the table: the run it was asked for, unless deleted since, is of the same
    pipeline, material, revision and branch. *)
Definition rerun_in (l : list (option RunRow)) (r : RunRow) : Prop :=
  Run_Provider r = rerun_provider /\
  exists id o, l !! id = Some o /\ Run_Delivery r = "rerun-" +:+ itoa (Z.of_nat id) /\
    forall row, o = Some row -> Run_PipelineID r = Run_PipelineID row /\ Run_MaterialID r = Run_MaterialID row /\
      Run_Revision r = Run_Revision row /\ Run_Branch r = Run_Branch row.
(** Rows are appended, or blanked. *)
Definition kept (l l' : list (option RunRow)) : Prop := forall id o, l !! id = Some o -> l' !! id = Some o \/ l' !! id = Some None.
Lemma rows_kept_refl l : kept l l.
Proof. by left. Qed.
Lemma kept_app l x : kept l (l ++ x).
Proof. intros id o H. left. by apply lookup_app_l_Some. Qed.
Lemma rerun_in_kept l l' r : kept l l' -> rerun_in l r -> rerun_in l' r.
Proof.
  intros Hk (Hp & id & o & Hid & Hd & Hrow). split; [done|]. destruct (Hk id o Hid) as [H|H]; [by exists id, o|].
  exists id, None. by split_and!.
Qed.

(** Every prepared rerun is one, and so is every run of a delivery's cause that is recorded as one. *)
Definition lineage_of (l : list (option RunRow)) (o : option RunRow) : Prop :=
  forall r k, o = Some r -> run_key (Some r) = Some k -> Run_Provider r = rerun_provider -> rerun_in l r.
Record Lineage (s : Server) : Prop := {
  ln_prepared : Forall (rerun_in (runs (world s))) (prepared s);
  ln_runs : Forall (lineage_of (runs (world s))) (runs (world s));
}.
Lemma lineage_kept l l' : kept l l' -> Forall (lineage_of l) l -> Forall (lineage_of l') l.
Proof. intros Hk H. eapply Forall_impl; [exact H|]. intros o Ho r k E H1 H2. eapply rerun_in_kept; [done|by eapply Ho]. Qed.
Lemma lineage_same s s' : runs (world s') = runs (world s) -> prepared s' = prepared s -> Lineage s -> Lineage s'.
Proof. intros Hr Hp [H1 H2]. split; rewrite Hr; [by rewrite Hp|done]. Qed.
Lemma lineage_add s s' run : runs (world s') = runs (world s) ++ [Some run] -> (forall r, r ∈ prepared s' -> r ∈ prepared s) ->
  lineage_of (runs (world s)) (Some run) -> Lineage s -> Lineage s'.
Proof.
  intros Hr Hp Hrun [H1 H2]. pose proof (kept_app (runs (world s)) [Some run]) as Hk. rewrite <- Hr in Hk. split.
  - apply Forall_forall. intros r Hin. rewrite Forall_forall in H1. eapply rerun_in_kept; [done|]. auto.
  - rewrite Hr at 2. apply Forall_app. split; [by eapply lineage_kept|]. constructor; [|done].
    intros r k E Hkey Hpr. eapply rerun_in_kept; [done|by eapply Hrun].
Qed.
Lemma delivery_lineage l run : Run_Provider run <> rerun_provider -> lineage_of l (Some run).
Proof. intros Hp r k [= <-] _ H. done. Qed.
Lemma rerun_row_in l row id mod_ by_ : l !! id = Some (Some row) -> rerun_in l (rerun_row row id mod_ by_).
Proof. intros Hid. split; [done|]. exists id, (Some row). split_and!; [done|done|]. by intros ? [= <-]. Qed.
Lemma elem_of_delete {A} (l : list A) k x : x ∈ delete k l -> x ∈ l.
Proof. intros H. eapply elem_of_submseteq; [exact H|]. apply sublist_submseteq, sublist_delete. Qed.

Lemma step_lineage s s' : Inv s -> step s s' -> Lineage s -> Lineage s'.
Proof.
  intros HI Hs HL. destruct Hs as [in_ l Hc Hp|i f m l r res w Hf Hst Hi|i f m mod_ l r res w Hf Hst Hc|i f Hf
    |project head in_ m r res w Hp Hc|m r res w Hi|run Hc|id row mod_ by_ Hr Hh Hm|k run r res w Hk Hc|t Hids].
  - by apply (lineage_same s).
  - apply InsertModification_spec in Hi as (_ & Hr & _). by apply (lineage_same s).
  - apply CreateRunFromModification_spec in Hc as [-> | ->]; [by apply (lineage_same s)|].
    eapply (lineage_add s); [done|done| |done]. apply delivery_lineage. by eapply cause_of in Hf as [_ ?].
  - by apply (lineage_same s).
  - apply CreatePRHeadRun_spec in Hc as [-> | (run & -> & _ & Hpr & _)]; [by apply (lineage_same s)|].
    eapply (lineage_add s); [done|done| |done]. apply delivery_lineage. by rewrite Hpr.
  - apply InsertModification_spec in Hi as (_ & Hr & _). by apply (lineage_same s).
  - eapply (lineage_add s); [done|done| |done]. intros r k [= <-] Hk _. exfalso.
    unfold run_key in Hk. cbn [mbind option_bind] in Hk. by rewrite decide_False in Hk by naive_solver.
  - destruct HL as [H1 H2]. split; [|done]. apply Forall_app. split; [done|]. constructor; [|done]. by apply rerun_row_in.
  - apply CreateRunFromModification_spec in Hc as [-> | ->].
    + destruct HL as [H1 H2]. split; [|done]. by apply Forall_delete.
    + eapply (lineage_add s); [done|intros x; apply elem_of_delete| |done]. intros r' k' [= <-] _ _.
      pose proof (ln_prepared s HL) as H. rewrite Forall_lookup in H. by eapply H.
  - assert (kept (runs (world s)) (runs (reapply (world s) t))) as Hk.
    { intros id o Ho. simpl. rewrite list_lookup_fmap, Ho. destruct o as [r|]; simpl; [|by left]. case_decide; [by left|by right]. }
    destruct HL as [H1 H2]. split; cbn [world prepared].
    + eapply Forall_impl; [exact H1|]. intros r. by apply rerun_in_kept.
    + pose proof (lineage_kept _ _ Hk H2) as H3. unfold reapply at 2. cbn [runs]. apply Forall_fmap.
      eapply Forall_impl; [exact H3|]. intros o Ho r k E. cbn [compose] in E. apply Ho.
      destruct o as [r0|]; [|done]. simpl in E. case_decide; [done|discriminate].
Qed.
Lemma ledger_lineage s : reachable s -> Lineage s.
Proof.
  intros Hs. cut (Inv s /\ Lineage s); [by intros []|]. revert s Hs.
  apply (rtc_ind_r (fun s => Inv s /\ Lineage s) boot).
  - split; [apply ledger_Inv, rtc_refl|]. split; constructor.
  - intros s1 s2 _ Hs [HI HL]. split; [by eapply step_Inv|by eapply step_lineage].
Qed.

(** C32: However the deliveries of several servers interleave, die between two
    statements, are retried by the provider or see errors of statements that were
    committed, they start at most one run for a material, revision and (non-empty)
    branch - with re-applied pipelines, pull request heads, other triggers and reruns in
    between: of two such runs one is a rerun, recorded under the run it was asked for,
    which is of the same pipeline, material, revision and branch unless it was deleted. *)
Theorem one_run_per_revision s i j r r' k :
  reachable s ->
  runs (world s) !! i = Some (Some r) -> runs (world s) !! j = Some (Some r') ->
  run_key (Some r) = Some k -> run_key (Some r') = Some k ->
  i = j \/ rerun_in (runs (world s)) r \/ rerun_in (runs (world s)) r'.
Proof.
  intros Hs Hi Hj Hr Hr'. pose proof (ln_runs s (ledger_lineage s Hs)) as HL. rewrite Forall_lookup in HL.
  destruct (decide (Run_Provider r = rerun_provider)) as [Hp|Hp]; [right; left; by eapply (HL i _ Hi)|].
  destruct (decide (Run_Provider r' = rerun_provider)) as [Hp'|Hp']; [right; right; by eapply (HL j _ Hj)|]. left.
  apply ledger_Inv in Hs as [_ Hnd _ _ _]. unfold claims in Hnd. apply NoDup_app in Hnd as (Hnd & _ & _).
  eapply NoDup_omap_index; [exact Hnd|exact Hi|exact Hj| |]; by rewrite claim_key_delivery.
Qed.

(** A flight between its two statements leaves the claims when it moves on without a run. *)
Lemma claim_dropped s s1 i f m mod_ l k l' :
  Inv s -> flights s !! i = Some f -> F_stage f = Inserted m mod_ l -> input_key (F_in f) m = Some k ->
  step s s1 -> flights s1 !! i = Some (at_stage f (Todo l')) -> runs (world s1) = runs (world s) ->
  k ∉ claims s1.
Proof.
  intros HI Hf Hst Hk Hs Hf1 Hr.
  assert (flights s1 = <[i := at_stage f (Todo l')]> (flights s)) as Hfl.
  { assert (forall j g st, flights s !! j = Some g -> <[j := at_stage g st]> (flights s) !! i = Some (at_stage f (Todo l')) ->
              <[j := at_stage g st]> (flights s) = <[i := at_stage f (Todo l')]> (flights s)) as Hins.
    { intros j g st Hj Hi. destruct (decide (j = i)) as [->|Hne].
      - rewrite list_lookup_insert_eq in Hi by (by eapply lookup_lt_Some). congruence.
      - rewrite list_lookup_insert_ne, Hf in Hi by done. destruct f; unfold at_stage in Hi; simplify_eq/=. }
    assert (f <> at_stage f (Todo l')) as Hne by (destruct f; unfold at_stage; simpl in *; congruence).
    destruct Hs; cbn [with_flight with_world with_prepared flights] in Hf1 |- *; eauto; try congruence.
    rewrite lookup_app_l in Hf1 by (by eapply lookup_lt_Some). congruence. }
  destruct (flight_moves (flights s) i f (at_stage f (Todo l')) Hf) as (rest & Hb & Ha).
  pose proof (inv_nodup s HI) as Hnd. unfold claims in Hnd |- *. rewrite Hb in Hnd. rewrite Hfl, Hr, Ha.
  unfold flight_key in Hnd at 1. rewrite Hst, Hk in Hnd. simpl in *.
  rewrite Permutation_app_comm in Hnd. simpl in Hnd. apply NoDup_cons in Hnd as [Hn _]. intros Hin. apply Hn.
  by rewrite (Permutation_app_comm rest).
Qed.

(** The modification and its run are two statements: once a delivery has inserted a
    modification and its run is refused, or its server dies there, no delivery ever
    creates that run - not the provider's retry of a delivery answered with an error,
    nor anyone else's; whatever has its key is a rerun. *)
Theorem failed_run_never_retried s s1 s' i f m mod_ l k l' r :
  reachable s -> flights s !! i = Some f -> F_stage f = Inserted m mod_ l -> input_key (F_in f) m = Some k ->
  step s s1 -> flights s1 !! i = Some (at_stage f (Todo l')) -> runs (world s1) = runs (world s) ->
  rtc step s1 s' -> Some r ∈ runs (world s') -> run_key (Some r) = Some k -> rerun_in (runs (world s')) r.
Proof.
  intros Hreach Hf Hst Hk Hs Hf1 Hr Hrest Hin Hkey.
  assert (reachable s') as Hs' by (unfold reachable in *; etransitivity; [exact Hreach|by eapply rtc_l]).
  destruct (decide (Run_Provider r = rerun_provider)) as [Hp|Hp].
  { pose proof (ln_runs s' (ledger_lineage s' Hs')) as HL. rewrite Forall_forall in HL. by eapply HL. }
  exfalso. pose proof (ledger_Inv s Hreach) as HI.
  pose proof (claim_dropped _ _ _ _ _ _ _ _ _ HI Hf Hst Hk Hs Hf1 Hr) as Hn.
  assert (spent s k) as Hsp.
  { pose proof (inv_spent s HI) as H. rewrite Forall_forall in H. apply H. unfold claims. apply elem_of_app. right.
    apply list_elem_of_omap. exists f. split; [by eapply list_elem_of_lookup_2|]. unfold flight_key. by rewrite Hst. }
  apply (mv_spent _ _ (step_moves s s1 HI Hs)) in Hsp.
  apply (steps_unclaimed s1 s' k (step_Inv _ _ HI Hs) Hrest Hsp Hn).
  unfold claims. apply elem_of_app. left. apply list_elem_of_omap. exists (Some r). by rewrite claim_key_delivery.
Qed.

(** A pipeline with one material, a push delivered twice, the first run refused. *)
Definition sample_material : MaterialRow := {|
  Material_ID := 7; Material_PipelineID := 3; Material_Kind := MaterialGit; Material_Config := None; Material_Fingerprint := "f" |}.
Definition sample_tables : Tables := {|
  scm_sources := []; projects := [{| Project_ID := 1; TrustSameRepoPRConfig := false; ConfigPath := "" |}];
  pipelines := [{| PipelineRow_ID := 3; PipelineRow_Name := "ci"; SystemManaged := false; PipelineRow_ProjectID := 1 |}];
  materials := [sample_material]; governed := ∅ |}.
Definition sample_push : fanOutInput := {|
  FO_Revision := "abc"; FO_Branch := "main"; FO_Author := "ann"; FO_Message := "fix"; FO_CommittedAt := None;
  FO_Payload := "{}"; FO_Provider := "github"; FO_Delivery := "d1"; FO_Cause := "" |}.
Definition sample_booted : Server :=
  {| world := reapply (world boot) sample_tables; flights := []; prepared := []; used := ∅ ∪ ids sample_tables |}.
Lemma sample_booted_reachable : reachable sample_booted.
Proof. apply rtc_once. apply (step_reapply boot). intros id _. right. set_solver. Qed.

Definition all_answered (_ : N) : Reply := Answered.
Definition deliver (s : Server) (in_ : fanOutInput) (create : N -> Reply) (l : list MaterialRow) : Server := {|
  world := (fanOutMaterials in_ all_answered create (world s) l).2;
  flights := flights s ++ [{| F_in := in_; F_stage := Todo [] |}]; prepared := prepared s; used := used s |}.
Lemma deliver_reachable s in_ create l :
  FO_Cause in_ ∈ ["" ; "pull_request"; "tag"] -> FO_Provider in_ <> rerun_provider -> reachable s -> reachable (deliver s in_ create l).
Proof.
  intros Hc Hp Hs. unfold reachable in *. etransitivity; [exact Hs|]. eapply rtc_l; [by apply (step_start s in_ l)|].
  destruct (fanOutMaterials in_ all_answered create (world s) l) as [ocs w] eqn:Hf.
  unfold deliver. rewrite Hf. exact (fanOut_steps _ _ _ _ _ _ _ _ _ _ Hf).
Qed.

(** The push delivered twice, the same provider's retry. *)
Definition twice : Server :=
  deliver (deliver sample_booted sample_push all_answered [sample_material]) sample_push all_answered [sample_material].
Definition sample_run : RunRow := run_of sample_push sample_material 0.
(** Its run rerun, as a webhook's. *)
Definition sample_rerun : RunRow := rerun_row sample_run 0 0 "ann".
Definition rerun_later : Server := with_prepared twice (add_run (world twice) sample_rerun) [].
Lemma twice_reachable : reachable twice.
Proof. unfold twice. do 2 (apply deliver_reachable; [cbn; set_solver|done|]). exact sample_booted_reachable. Qed.
Lemma rerun_later_reachable : reachable rerun_later.
Proof.
  eapply rtc_r; [eapply rtc_r; [exact twice_reachable|]|].
  - apply (step_prepare_rerun twice 0 sample_run 0 "ann"); vm_compute; reflexivity.
  - apply (step_rerun (with_prepared twice (world twice) [sample_rerun]) 0 sample_rerun Answered (Ok 1)); [reflexivity|].
    vm_compute. reflexivity.
Qed.
Lemma one_run_per_revision_witness :
  runs (world twice) = [Some sample_run] /\ Run_Cause sample_rerun = "webhook" /\
  runs (world rerun_later) = [Some sample_run; Some sample_rerun] /\ rerun_in (runs (world rerun_later)) sample_rerun.
Proof.
  split; [vm_compute; reflexivity|]. split; [reflexivity|]. split; [vm_compute; reflexivity|].
  destruct (one_run_per_revision rerun_later 0 1 sample_run sample_rerun (7%N, "abc", "main") rerun_later_reachable) as [H|[[H _]|H]];
    [vm_compute; reflexivity..|discriminate H|discriminate H|exact H].
Defined.

(** The run refused after its modification, then the retry. *)
Definition sample_flight (st : stage) : Flight := {| F_in := sample_push; F_stage := st |}.
Definition inserted_world : World := add_modification (world sample_booted) (modification_of sample_push sample_material).
Definition sample_inserted : Server :=
  {| world := inserted_world; flights := [sample_flight (Inserted sample_material 0 [])]; prepared := []; used := used sample_booted |}.
Definition sample_refused : Server :=
  {| world := inserted_world; flights := [sample_flight (Todo [])]; prepared := []; used := used sample_booted |}.
Definition retried : Server := deliver sample_refused sample_push all_answered [sample_material].
Lemma sample_inserted_reachable : reachable sample_inserted.
Proof.
  eapply rtc_r; [eapply rtc_r; [exact sample_booted_reachable|]|].
  - apply (step_start sample_booted sample_push [sample_material]); [cbn; set_solver|done].
  - exact (step_insert {| world := world sample_booted; flights := [sample_flight (Todo [sample_material])]; prepared := []; used := used sample_booted |}
             0 (sample_flight (Todo [sample_material])) sample_material [] Answered
             (Ok {| ModID := 0; Created := true |}) inserted_world eq_refl eq_refl eq_refl).
Qed.
Lemma failed_run_never_retried_witness :
  (create_call sample_push sample_material 0 inserted_world Refused).1 = Err "create run" /\
  runs (world retried) = [] /\
  forall s' r, rtc step sample_refused s' -> Some r ∈ runs (world s') -> run_key (Some r) = Some (7%N, "abc", "main") ->
    rerun_in (runs (world s')) r.
Proof.
  split; [reflexivity|]. split; [vm_compute; reflexivity|]. intros s' r Hs Hin Hk.
  apply (failed_run_never_retried sample_inserted sample_refused s' 0 (sample_flight (Inserted sample_material 0 []))
           sample_material 0 [] (7%N, "abc", "main") [] r sample_inserted_reachable eq_refl eq_refl eq_refl); try done.
  exact (step_create sample_inserted 0 _ _ _ _ Refused (Err "create run") inserted_world eq_refl eq_refl eq_refl).
Defined.
