(* ===== verification/MergeGroup.v ===== *)
(** Merge queues and reruns in the store ([store/merge_group_create.go],
    [store/merge_group.go], [store/app_deliveries.go], [RerunRun]).  GitHub asks for the
    checks of a merge group and later abandons it; a person asks again for a check that
    ended.  The deliveries of any number of servers run interleaved, each transaction one
    step: those of one group are serialised by its advisory lock, and two claims of one
    delivery by the primary key.

    A refused statement ([Refused]) also stands for a definition that does not decode or
    has no stages and for rows that [RunCreate] refuses. *)

From S2P Require Import RunTables.
From S2P Require Import Prelude GoStrings Domain Modifications Ledger.
Open Scope list_scope.

(** ** Rows *)

(** The columns of a run that matter here.  [c_detail] holds the keys of [cause_detail]
    that are not columns of [RunRow]; [c_revisions] comes in the order of its keys. *)
Record Columns := {
  c_status : Status; c_generation : Z; c_reason : string;
  c_detail : gmap string string; c_revisions : list (N * (string * string));
}.
Record Queue := {
  world : World; columns : gmap nat Columns;
  destroyed : gmap (string * string) (option string);     (* [merge_group_destroyed], with its reason *)
  app_deliveries : gmap string (option nat);              (* [github_app_deliveries], with the run *)
}.
Definition set_columns (q : Queue) (cs : gmap nat Columns) : Queue :=
  {| world := world q; columns := cs; destroyed := destroyed q; app_deliveries := app_deliveries q |}.
Definition with_state (c : Columns) (st : Status) (gen : Z) (reason : string) : Columns :=
  {| c_status := st; c_generation := gen; c_reason := reason; c_detail := c_detail c; c_revisions := c_revisions c |}.
Definition insert_run (q : Queue) (w : World) (run : RunRow) (c : Columns) : Queue :=
  {| world := add_run w run; columns := <[length (runs w) := c]> (columns q);
     destroyed := destroyed q; app_deliveries := app_deliveries q |}.
Definition queued (detail : gmap string string) (m : N) (revision branch : string) : Columns :=
  {| c_status := StatusQueued; c_generation := 0; c_reason := ""; c_detail := detail; c_revisions := [(m, (revision, branch))] |}.

(** ** [merge_group_create.go] *)

Inductive merge_group_error := ErrMergeGroupDestroyed | ErrMergeGroupInvalidInput | MergeGroupStore.

Record MergeGroupRunInput := {
  MI_Fingerprint : string; MI_PipelineID : N; MI_MaterialID : N; MI_Revision : string; MI_Branch : string;
  MI_Author : string; MI_Message : string; MI_Payload : string; MI_CommittedAt : option Z;
  MI_Provider : string; MI_Delivery : string; MI_TriggeredBy : string;
  MI_CauseDetail : option (gmap string string);           (* [None]: not an object *)
}.
Record MergeGroupRunResult := { MR_Run : nat; MR_ModificationID : nat; MR_ModificationCreated : bool; MR_RunCreated : bool }.

Definition CauseMergeGroup : string := "merge_group".

Definition mg_modification (in_ : MergeGroupRunInput) : Modification := {|
  Mod_MaterialID := MI_MaterialID in_; Mod_Revision := MI_Revision in_; Mod_Branch := nullableString (MI_Branch in_);
  Mod_Author := nullableString (MI_Author in_); Mod_Message := nullableString (MI_Message in_);
  Mod_Payload := MI_Payload in_; Mod_CommittedAt := MI_CommittedAt in_ |}.
Definition mg_run (in_ : MergeGroupRunInput) (mod_ : nat) : RunRow := {|
  Run_PipelineID := MI_PipelineID in_; Run_MaterialID := MI_MaterialID in_; Run_ModificationID := mod_;
  Run_Revision := MI_Revision in_; Run_Branch := MI_Branch in_; Run_Cause := CauseMergeGroup;
  Run_Provider := MI_Provider in_; Run_Delivery := MI_Delivery in_; Run_TriggeredBy := MI_TriggeredBy in_;
  Run_FromHead := false |}.
Definition mergeGroupCauseDetail (in_ : MergeGroupRunInput) : option (gmap string string) :=
  (fun d => <["mg_fingerprint" := TrimSpace (MI_Fingerprint in_)]> d) <$> MI_CauseDetail in_.

Definition of_modification (p : N) (mod_ : nat) (o : option RunRow) : bool :=
  if o is Some r then bool_decide (Run_PipelineID r = p /\ Run_Cause r = CauseMergeGroup /\ Run_ModificationID r = mod_) else false.
(** The oldest: rows are in the order of their creation. *)
Definition findMergeGroupRunByModificationQ (w : World) (p : N) (mod_ : nat) : option nat :=
  fst <$> list_find (fun o => of_modification p mod_ o = true) (runs w).

Definition invalid (in_ : MergeGroupRunInput) : bool :=
  bool_decide (TrimSpace (MI_Fingerprint in_) = "" \/ MI_PipelineID in_ = 0%N \/ MI_MaterialID in_ = 0%N \/
    TrimSpace (MI_Revision in_) = "" \/ TrimSpace (MI_Branch in_) = "" \/ MI_Provider in_ = "" \/ MI_Delivery in_ = "").

Definition replied {A} (r : Reply) (a : A) : result merge_group_error A :=
  match r with Answered => Ok a | _ => Err MergeGroupStore end.
Definition CreateOrFindMergeGroupRun (q : Queue) (in_ : MergeGroupRunInput) (r : Reply) :
    result merge_group_error MergeGroupRunResult * Queue :=
  if invalid in_ then (Err ErrMergeGroupInvalidInput, q)
  else match r with
  | Refused => (Err MergeGroupStore, q)
  | _ =>
      match destroyed q !! (TrimSpace (MI_Fingerprint in_), MI_Revision in_) with
      | Some _ => (Err ErrMergeGroupDestroyed, q)
      | None =>
          match InsertModification (world q) (mg_modification in_) Answered with
          | (Err _, _) => (Err MergeGroupStore, q)
          | (Ok m, w) =>
              match (if Created m then None else findMergeGroupRunByModificationQ w (MI_PipelineID in_) (ModID m)) with
              | Some run => (replied r {| MR_Run := run; MR_ModificationID := ModID m; MR_ModificationCreated := false; MR_RunCreated := false |}, q)
              | None =>
                  match pipeline_row w (MI_PipelineID in_), mergeGroupCauseDetail in_ with
                  | None, _ => (Err MergeGroupStore, q)
                  | _, None => (Err ErrMergeGroupInvalidInput, q)
                  | Some _, Some d =>
                      (replied r {| MR_Run := length (runs w); MR_ModificationID := ModID m; MR_ModificationCreated := Created m; MR_RunCreated := true |},
                       insert_run q w (mg_run in_ (ModID m)) (queued d (MI_MaterialID in_) (MI_Revision in_) (MI_Branch in_)))
                  end
              end
          end
      end
  end.

Definition MergeGroupDestroyed (q : Queue) (fingerprint headSHA : string) (ok : bool) : result merge_group_error bool :=
  let fp := TrimSpace fingerprint in
  let head := TrimSpace headSHA in
  if decide (fp = "" \/ head = "") then Err ErrMergeGroupInvalidInput
  else if negb ok then Err MergeGroupStore
  else Ok (bool_decide (is_Some (destroyed q !! (fp, head)))).

(** ** [merge_group.go] *)

(** A run the abandoned group has in progress; [runs] in [cancelMergeGroupOne]'s terms. *)
Definition in_group (fp head : string) (c : Columns) : bool :=
  bool_decide (c_detail c !! "mg_fingerprint" = Some fp /\ c_detail c !! "mg_head_sha" = Some head).
Definition is_merge_group (w : World) (i : nat) : bool :=
  match runs w !! i with Some (Some r) => bool_decide (Run_Cause r = CauseMergeGroup) | _ => false end.
Definition group_abandoned (q : Queue) (fp head : string) (i : nat) (c : Columns) : bool :=
  is_merge_group (world q) i && active (c_status c) && in_group fp head c.
Definition cancelReason (reason : string) : string :=
  if decide (TrimSpace reason = "") then "github merge_group destroyed" else "github merge_group destroyed: " +:+ TrimSpace reason.
Definition cancel_group (q : Queue) (fp head reason : string) : gmap nat Columns :=
  map_imap (fun i c => Some (if group_abandoned q fp head i c then with_state c StatusCanceled (c_generation c) (cancelReason reason) else c)) (columns q).
Definition group_candidates (q : Queue) (fp head : string) : list nat :=
  filter (fun i => (if columns q !! i is Some c then group_abandoned q fp head i c else false) = true) (seq 0 (length (runs (world q)))).

Definition tombstone (old : option (option string)) (reason : string) : option string :=
  match nullableString (TrimSpace reason), old with Some r, _ => Some r | None, Some o => o | None, None => None end.
Definition CancelMergeGroupRuns (q : Queue) (fingerprint headSHA reason : string) (r : Reply) : result merge_group_error (list nat) * Queue :=
  let fp := TrimSpace fingerprint in
  let head := TrimSpace headSHA in
  if decide (fp = "" \/ head = "") then (Err ErrMergeGroupInvalidInput, q)
  else match r with
  | Refused => (Err MergeGroupStore, q)
  | _ =>
      (replied r (group_candidates q fp head),
       {| world := world q; columns := cancel_group q fp head reason;
          destroyed := <[(fp, head) := tombstone (destroyed q !! (fp, head)) reason]> (destroyed q);
          app_deliveries := app_deliveries q |})
  end.

(** ** Reruns ([runs_actions.go], [app_deliveries.go]) *)

Inductive rerun_error :=
| ErrRunNotFound | ErrRunActive | ErrPRHeadRerunUnsupported | ErrRunRevisionsMissing
| ErrNoModificationForPipeline | ErrAppDeliveryAlreadyClaimed | RerunStore.

(** The first revision with a branch, else the first. *)
Definition pickPrimaryRevision (l : list (N * (string * string))) : result rerun_error (N * string * option string) :=
  match l with
  | [] => Err ErrRunRevisionsMissing
  | first :: _ =>
      let '(m, (revision, branch)) := default first (snd <$> list_find (fun e => e.2.2 <> "") l) in
      Ok (m, revision, nullableString branch)
  end.

Definition rerun_prefix : string := "github:rerun:".

(** [rerunRun] up to the creation: reads of its own, before any transaction. *)
Definition prepare_rerun (q : Queue) (id : nat) (triggered_by : string) : result rerun_error (RunRow * Columns) :=
  match runs (world q) !! id, columns q !! id with
  | Some (Some row), Some c =>
      if active (c_status c) then Err ErrRunActive
      else if Run_FromHead row then Err ErrPRHeadRerunUnsupported
      else
        '(m, revision, branch) ← pickPrimaryRevision (c_revisions c);
        match GetModificationByKey (world q) m revision branch with
        | None => Err ErrNoModificationForPipeline
        | Some mod_ =>
            Ok ({| Run_PipelineID := Run_PipelineID row; Run_MaterialID := m; Run_ModificationID := mod_;
                   Run_Revision := revision; Run_Branch := default "" branch;
                   Run_Cause := if decide (Run_Cause row = "") then "manual" else Run_Cause row;
                   Run_Provider := "api"; Run_Delivery := "rerun-" +:+ itoa (Z.of_nat id);
                   Run_TriggeredBy := if decide (triggered_by = "") then "rerun:" +:+ itoa (Z.of_nat id) else triggered_by;
                   Run_FromHead := false |},
                queued (<["rerun_of" := itoa (Z.of_nat id)]> (c_detail c)) m revision (default "" branch))
        end
  | _, _ => Err ErrRunNotFound
  end.
(** The transaction: the claim of a delivery first, then the run, then the link. *)
Definition create_rerun (q : Queue) (claim : option string) (p : RunRow * Columns) (r : Reply) : result rerun_error nat * Queue :=
  match r with
  | Refused => (Err RerunStore, q)
  | _ =>
      if decide (is_Some (claim ≫= fun d => app_deliveries q !! d)) then (Err ErrAppDeliveryAlreadyClaimed, q)
      else match pipeline_row (world q) (Run_PipelineID p.1) with
      | None => (Err RerunStore, q)
      | Some _ =>
          let id := length (runs (world q)) in
          let q' := insert_run q (world q) p.1 p.2 in
          (match r with Answered => Ok id | _ => Err RerunStore end,
           {| world := world q'; columns := columns q'; destroyed := destroyed q';
              app_deliveries := match claim with Some d => <[d := Some id]> (app_deliveries q') | None => app_deliveries q' end |})
      end
  end.
Definition rerunRun (q : Queue) (id : nat) (triggered_by : string) (claim : option string) (read : bool) (r : Reply) :
    result rerun_error nat * Queue :=
  if negb read then (Err RerunStore, q)
  else match prepare_rerun q id triggered_by with
  | Err e => (Err e, q)
  | Ok p => create_rerun q claim p r
  end.
Definition RerunForAppDelivery (q : Queue) (id : nat) (delivery : string) (read : bool) (r : Reply) : result rerun_error nat * Queue :=
  rerunRun q id (rerun_prefix +:+ delivery) (Some delivery) read r.
Definition SweepAppDeliveries (q : Queue) (old : gset string) : Queue :=
  {| world := world q; columns := columns q; destroyed := destroyed q;
     app_deliveries := filter (fun kv => kv.1 ∉ old) (app_deliveries q) |}.

(** ** Servers *)

(** [pending]: reruns prepared and not yet created; [used]: the identifiers of materials
    there ever were; [swept]: the deliveries the retention has forgotten. *)
Record State := { queue : Queue; pending : list (option string * (RunRow * Columns)); used : gset N; swept : gset string }.
Definition with_queue (s : State) (q : Queue) : State :=
  {| queue := q; pending := pending s; used := used s; swept := swept s |}.
Definition with_world (q : Queue) (w : World) : Queue :=
  {| world := w; columns := columns q; destroyed := destroyed q; app_deliveries := app_deliveries q |}.
(** A deleted pipeline takes its runs with it; the ledger forgets which run it was. *)
Definition reapply_queue (q : Queue) (t : Tables) : Queue :=
  let w := reapply (world q) t in
  {| world := w; columns := columns q; destroyed := destroyed q;
     app_deliveries := (fun o => i ← o; match runs w !! i with Some (Some _) => Some i | _ => None end) <$> app_deliveries q |}.

Definition delivered (in_ : MergeGroupRunInput) : Prop :=
  HasPrefix (MI_TriggeredBy in_) rerun_prefix = false /\
  forall d, MI_CauseDetail in_ = Some d -> d !! "rerun_of" = None /\ d !! "mg_head_sha" = Some (MI_Revision in_).
Definition asked_by (claim : option string) (by_ : string) : Prop :=
  match claim with Some d => by_ = rerun_prefix +:+ d | None => HasPrefix by_ rerun_prefix = false end.

Inductive step (s : State) : State -> Prop :=
| step_create in_ r res q : delivered in_ -> CreateOrFindMergeGroupRun (queue s) in_ r = (res, q) -> step s (with_queue s q)
| step_cancel fp head reason r res q : CancelMergeGroupRuns (queue s) fp head reason r = (res, q) -> step s (with_queue s q)
| step_prepare id by_ claim p : asked_by claim by_ -> prepare_rerun (queue s) id by_ = Ok p ->
    step s {| queue := queue s; pending := pending s ++ [(claim, p)]; used := used s; swept := swept s |}
| step_rerun k claim p r res q : pending s !! k = Some (claim, p) -> create_rerun (queue s) claim p r = (res, q) ->
    step s {| queue := q; pending := delete k (pending s); used := used s; swept := swept s |}
| step_crash k : step s {| queue := queue s; pending := delete k (pending s); used := used s; swept := swept s |}
| step_sweep old : step s {| queue := SweepAppDeliveries (queue s) old; pending := pending s; used := used s; swept := swept s ∪ old |}
(* the scheduler, the agents and people move a run that has not ended *)
| step_status i c st reason : columns (queue s) !! i = Some c -> active (c_status c) = true ->
    step s (with_queue s (set_columns (queue s) (<[i := with_state c st (c_generation c) reason]> (columns (queue s)))))
(* [RerunJob] revives one that has *)
| step_revive i c : columns (queue s) !! i = Some c -> active (c_status c) = false ->
    step s (with_queue s (set_columns (queue s) (<[i := with_state c StatusRunning (c_generation c + 1) ""]> (columns (queue s)))))
| step_modification m r res w : InsertModification (world (queue s)) m r = (res, w) -> step s (with_queue s (with_world (queue s) w))
(* every other trigger *)
| step_run run c : Run_Cause run <> CauseMergeGroup -> HasPrefix (Run_TriggeredBy run) rerun_prefix = false ->
    step s (with_queue s (insert_run (queue s) (world (queue s)) run c))
| step_tables t : (forall id, id ∈ ids t -> id ∈ ids (tables (world (queue s))) \/ id ∉ used s) ->
    step s {| queue := reapply_queue (queue s) t; pending := pending s; used := used s ∪ ids t; swept := swept s |}.

Definition boot : State := {|
  queue := {| world := {| tables := empty_tables; modifications := []; runs := [] |}; columns := ∅; destroyed := ∅; app_deliveries := ∅ |};
  pending := []; used := ∅; swept := ∅ |}.
Definition reachable (s : State) : Prop := rtc step boot s.

(** A run a delivery started, not a rerun. *)
Record original (q : Queue) (i : nat) (r : RunRow) (c : Columns) : Prop := {
  or_run : runs (world q) !! i = Some (Some r); or_columns : columns q !! i = Some c;
  or_cause : Run_Cause r = CauseMergeGroup; or_detail : c_detail c !! "rerun_of" = None;
}.

(** ** What the transactions do *)

Lemma insert_run_original q w run c i r c' :
  runs w = runs (world q) -> original (insert_run q w run c) i r c' ->
  (i = length (runs w) /\ r = run /\ c' = c) \/ (i <> length (runs w) /\ original q i r c').
Proof.
  intros Hw [Hr Hc Hm Hd]. unfold insert_run in *. simpl in *. apply lookup_app_Some in Hr as [Hr|[Hge Hr]].
  - right. pose proof (lookup_lt_Some _ _ _ Hr). rewrite lookup_insert_ne in Hc by lia. rewrite Hw in Hr. split; [lia|by split].
  - left. apply list_lookup_singleton_Some in Hr as [Hi [= <-]]. assert (i = length (runs w)) as -> by lia.
    rewrite lookup_insert_eq in Hc. by injection Hc as <-.
Qed.

(** The modification a created run is of: just inserted, or already there. *)
Lemma InsertModification_in_tx w m res w' :
  InsertModification w m Answered = (Ok res, w') ->
  Mod_MaterialID m ∈ ids (tables w) /\ runs w' = runs w /\ tables w' = tables w /\
  ((Created res = true /\ existing w m = None /\ ModID res = length (modifications w) /\ w' = add_modification w m) \/
   (Created res = false /\ existing w m = Some (ModID res) /\ w' = w)).
Proof.
  unfold InsertModification. destruct (live w (Mod_MaterialID m)) eqn:Hl; cbn [negb]; [|done]. apply live_spec in Hl.
  destruct (existing w m) as [e|] eqn:He; intros [= <- <-]; simpl; naive_solver.
Qed.

Lemma TrimSpace_empty : TrimSpace "" = "".
Proof. reflexivity. Qed.

Lemma CreateOrFind_spec q in_ r res q' :
  CreateOrFindMergeGroupRun q in_ r = (res, q') ->
  q' = q \/
  exists m w d, destroyed q !! (TrimSpace (MI_Fingerprint in_), MI_Revision in_) = None /\ MI_Branch in_ <> "" /\
    InsertModification (world q) (mg_modification in_) Answered = (Ok m, w) /\
    (Created m = false -> findMergeGroupRunByModificationQ w (MI_PipelineID in_) (ModID m) = None) /\
    MI_CauseDetail in_ = Some d /\
    q' = insert_run q w (mg_run in_ (ModID m))
           (queued (<["mg_fingerprint" := TrimSpace (MI_Fingerprint in_)]> d) (MI_MaterialID in_) (MI_Revision in_) (MI_Branch in_)).
Proof.
  unfold CreateOrFindMergeGroupRun. destruct (invalid in_) eqn:Hv; [intros [= _ <-]; by left|].
  assert (MI_Branch in_ <> "") as Hb.
  { intros Hb. unfold invalid in Hv. apply bool_decide_eq_false in Hv. apply Hv. rewrite Hb. tauto. }
  intros Hc. destruct (destroyed q !! _) eqn:Hd; [destruct r; simplify_eq; by left|].
  destruct (InsertModification (world q) (mg_modification in_) Answered) as [[m|e] w] eqn:Hi; [|destruct r; simplify_eq; by left].
  destruct (if Created m then None else _) as [run|] eqn:Hf; [destruct r; simplify_eq; by left|].
  destruct (pipeline_row w (MI_PipelineID in_)) eqn:Hp; [|destruct r; simplify_eq; by left].
  unfold mergeGroupCauseDetail in Hc. destruct (MI_CauseDetail in_) as [d|] eqn:Hcd; simpl in Hc; [|destruct r; simplify_eq; by left].
  destruct r; simplify_eq; [right|by left|right]; exists m, w, d; (split; [done|]); (split; [done|]); (split; [done|]);
    (split; [|done]); intros Hcr; by rewrite Hcr in Hf.
Qed.

Lemma create_rerun_spec q claim p r res q' :
  create_rerun q claim p r = (res, q') ->
  q' = q \/
  ((forall d, claim = Some d -> app_deliveries q !! d = None) /\
   q' = {| world := add_run (world q) p.1; columns := <[length (runs (world q)) := p.2]> (columns q); destroyed := destroyed q;
           app_deliveries := match claim with Some d => <[d := Some (length (runs (world q)))]> (app_deliveries q) | None => app_deliveries q end |}).
Proof.
  unfold create_rerun. intros Hc.
  destruct (decide (is_Some (claim ≫= fun d => app_deliveries q !! d))) as [Hs|Hs]; [destruct r; simplify_eq; by left|].
  destruct (pipeline_row _ _); [|destruct r; simplify_eq; by left].
  destruct r; simplify_eq; [right|by left|right]; (split; [|done]); intros d ->; simpl in Hs; by apply eq_None_not_Some.
Qed.

Lemma prepare_rerun_spec q id by_ p :
  prepare_rerun q id by_ = Ok p ->
  is_Some (c_detail p.2 !! "rerun_of") /\ Run_TriggeredBy p.1 = (if decide (by_ = "") then "rerun:" +:+ itoa (Z.of_nat id) else by_) /\
  exists row c, runs (world q) !! id = Some (Some row) /\ columns q !! id = Some c /\ active (c_status c) = false /\ Run_FromHead row = false.
Proof.
  unfold prepare_rerun. destruct (runs (world q) !! id) as [[row|]|] eqn:Hr; [|done..].
  destruct (columns q !! id) as [c|] eqn:Hc; [|done]. destruct (active (c_status c)) eqn:Ha; [done|].
  destruct (Run_FromHead row) eqn:Hh; [done|]. intros H. apply bind_Ok in H as ([[m revision] branch] & Hp & H).
  destruct (GetModificationByKey _ _ _ _); [|done]. injection H as <-. simpl. split; [|eauto 10].
  by rewrite lookup_insert_eq.
Qed.

(** ** Abandoned groups *)

Definition dead (s : State) : Prop :=
  (forall k claim p, pending s !! k = Some (claim, p) -> is_Some (c_detail p.2 !! "rerun_of")) /\
  (forall i r c, original (queue s) i r c -> (0 <= c_generation c)%Z /\
     forall fp head, is_Some (destroyed (queue s) !! (fp, head)) -> c_generation c = 0%Z -> in_group fp head c = true -> active (c_status c) = false).

Lemma lookup_delete_list {A} (l : list A) k j x : delete k l !! j = Some x -> exists j', l !! j' = Some x.
Proof. rewrite list_lookup_delete. eauto. Qed.

Lemma dead_mono s s' :
  (forall k e, pending s' !! k = Some e -> exists j, pending s !! j = Some e) ->
  (forall i r c', original (queue s') i r c' -> exists c, original (queue s) i r c /\ c_generation c' = c_generation c /\
     c_detail c' = c_detail c /\ (active (c_status c) = false -> active (c_status c') = false)) ->
  destroyed (queue s') = destroyed (queue s) -> dead s -> dead s'.
Proof.
  intros Hp Ho Hd [H1 H2]. split.
  - intros k claim p Hk. destruct (Hp _ _ Hk) as [j Hj]. eauto.
  - intros i r c' Hc'. destruct (Ho _ _ _ Hc') as (c & Hc & Hg & Hdt & Ha). destruct (H2 _ _ _ Hc) as [Hz Hin]. rewrite Hg.
    split; [done|]. intros fp head. rewrite Hd. intros Ht Hgz Hgr. apply Ha, (Hin fp head Ht Hgz).
    unfold in_group in *. by rewrite <- Hdt.
Qed.

Lemma columns_original q i c0 c1 j r c' :
  original (set_columns q (<[i := c1]> (columns q))) j r c' -> columns q !! i = Some c0 -> c_detail c1 = c_detail c0 ->
  exists c, original q j r c /\ ((j <> i /\ c' = c) \/ (j = i /\ c = c0 /\ c' = c1)).
Proof.
  intros [Hr Hc Hm Hd] Hi Hdt. simpl in *. destruct (decide (j = i)) as [->|Hne].
  - rewrite lookup_insert_eq in Hc. injection Hc as <-. exists c0. split; [|by right]. split; [done..|by rewrite <- Hdt].
  - rewrite lookup_insert_ne in Hc by done. exists c'. split; [by split|by left].
Qed.

(** Only the columns and the modifications of a run change. *)
Lemma reapply_run w t i r : runs (reapply w t) !! i = Some (Some r) -> runs w !! i = Some (Some r).
Proof.
  simpl. rewrite list_lookup_fmap. intros (o & Ho & Hr)%fmap_Some. destruct o as [r'|]; simpl in Hr; [|done].
  by case_decide; simplify_eq.
Qed.
Lemma original_runs q q' i r c :
  (forall r, runs (world q') !! i = Some (Some r) -> runs (world q) !! i = Some (Some r)) -> columns q' = columns q ->
  original q' i r c -> original q i r c.
Proof. intros Hr Hc [H1 H2 H3 H4]. split; [auto|by rewrite <- Hc|done..]. Qed.

Lemma dead_create s in_ r res q : dead s -> delivered in_ -> CreateOrFindMergeGroupRun (queue s) in_ r = (res, q) -> dead (with_queue s q).
Proof.
  intros Hd [_ Hdt] [-> | (m & w & d & Hn & _ & Hi & _ & Hcd & ->)]%CreateOrFind_spec.
  { apply (dead_mono s); simpl; eauto 8. }
  apply InsertModification_in_tx in Hi as (_ & Hw & _). destruct (Hdt _ Hcd) as [_ Hh]. destruct Hd as [H1 H2]. split; simpl; [done|].
  intros i r' c' [(-> & -> & ->)|[_ Ho]]%insert_run_original; [|by apply (H2 _ _ _ Ho)|done]. simpl. split; [done|].
  intros fp head [x Hx] _ Hg. unfold in_group in Hg. simpl in Hg. rewrite lookup_insert_eq, lookup_insert_ne in Hg by done.
  apply bool_decide_eq_true in Hg as [? ?]. simplify_eq.
Qed.

Lemma dead_cancel s fp head reason r res q : dead s -> CancelMergeGroupRuns (queue s) fp head reason r = (res, q) -> dead (with_queue s q).
Proof.
  intros Hd Hc. unfold CancelMergeGroupRuns in Hc. case_decide; [simplify_eq; apply (dead_mono s); simpl; eauto 8|].
  assert (Hq : q = queue s \/ q = {| world := world (queue s); columns := cancel_group (queue s) (TrimSpace fp) (TrimSpace head) reason;
          destroyed := <[(TrimSpace fp, TrimSpace head) := tombstone (destroyed (queue s) !! (TrimSpace fp, TrimSpace head)) reason]> (destroyed (queue s));
          app_deliveries := app_deliveries (queue s) |}) by (destruct r; simplify_eq; auto).
  clear Hc. destruct Hq as [-> | ->]; [apply (dead_mono s); simpl; eauto 8|]. destruct Hd as [H1 H2]. split; simpl; [done|].
  intros i r' c' [Hr Hc Hm Hdt]. simpl in *. unfold cancel_group in Hc. rewrite map_lookup_imap in Hc.
  apply bind_Some in Hc as (c & Hc & [= Hc']).
  assert (original (queue s) i r' c) as Ho.
  { split; [done..|]. rewrite <- Hdt, <- Hc'. by destruct (group_abandoned _ _ _ _ _). }
  destruct (H2 _ _ _ Ho) as [Hz Hin]. subst c'. destruct (group_abandoned _ _ _ _ _) eqn:Ha; simpl; [by split|]. split; [done|].
  intros fp' head' [x Hx] Hg Hgr. destruct (decide ((TrimSpace fp, TrimSpace head) = (fp', head'))) as [[= <- <-]|Hne].
  - unfold group_abandoned, is_merge_group in Ha. rewrite Hr, Hgr, andb_true_r in Ha. rewrite bool_decide_eq_true_2 in Ha by done. done.
  - rewrite lookup_insert_ne in Hx by done. by eapply Hin.
Qed.

Lemma dead_step s s' : dead s -> step s s' -> dead s'.
Proof.
  intros Hd Hs. destruct Hs as [in_ r res q Hdl Hc|fp head reason r res q Hc|id by_ claim p Ha Hp|k claim p r res q Hk Hc|k|old
    |i c st reason Hi Ha|i c Hi Ha|m r res w Hi|run c Hc _|t Ht].
  - by eapply dead_create.
  - by eapply dead_cancel.
  - destruct Hd as [H1 H2]. split; simpl; [|done]. intros k c p' [Hk|[_ Hk]]%lookup_app_Some; [by eapply H1|].
    apply list_lookup_singleton_Some in Hk as [_ [= -> ->]]. by apply prepare_rerun_spec in Hp as [? _].
  - apply create_rerun_spec in Hc as [-> | [_ ->]].
    { apply (dead_mono s); simpl; [|eauto 8|done|done]. intros ?? ?. by eapply lookup_delete_list. }
    destruct Hd as [H1 H2]. split; simpl.
    { intros ??? [??]%lookup_delete_list. eauto. }
    intros i r' c' [Hr Hcc Hm Hdt]. destruct (decide (i = length (runs (world (queue s))))) as [->|Hne]; simpl in *.
    { rewrite lookup_insert_eq in Hcc. injection Hcc as <-. destruct (H1 _ _ _ Hk) as [? ?]. congruence. }
    rewrite lookup_insert_ne in Hcc by done. apply (H2 i r' c'). split; try done. apply lookup_app_Some in Hr as [?|[? Hr]]; [done|].
    apply list_lookup_singleton_Some in Hr as [? _]. lia.
  - apply (dead_mono s); simpl; [|eauto 8|done|done]. intros ?? ?. by eapply lookup_delete_list.
  - apply (dead_mono s); simpl; [eauto| |done|done]. intros i r c Ho. exists c. split; [|done]. by eapply original_runs in Ho.
  - apply (dead_mono s); simpl; [eauto| |done|done]. intros j r c' Ho. eapply columns_original in Ho as (c0 & Ho & Hx); [|done|done].
    exists c0. split; [done|]. destruct Hx as [[_ ->]|(_ & -> & ->)]; [done|]. simpl. split_and!; try done. congruence.
  - destruct Hd as [H1 H2]. split; simpl; [done|]. intros j r c' Ho. eapply columns_original in Ho as (c0 & Ho & Hx); [|done|done].
    destruct (H2 _ _ _ Ho) as [Hz Hin]. destruct Hx as [[_ ->]|(_ & -> & ->)]; [done|]. simpl. split; lia.
  - apply InsertModification_spec in Hi as (_ & Hr & _ & _). apply (dead_mono s); simpl; [eauto| |done|done].
    intros i r' c Ho. exists c. split; [|done]. eapply original_runs in Ho; [done| |done]. simpl. by rewrite Hr.
  - destruct Hd as [H1 H2]. split; simpl; [done|]. intros i r c' Ho. pose proof (or_cause _ _ _ _ Ho) as Hm.
    apply insert_run_original in Ho as [(_ & -> & _)|[_ Ho]]; [done|by apply (H2 _ _ _ Ho)|done].
  - apply (dead_mono s); simpl; [eauto| |done|done]. intros i r c Ho. exists c. split; [|done]. eapply original_runs in Ho; [done| |done].
    intros r'. by apply reapply_run.
Qed.

(** ** One run per pipeline and group *)

(** Its modification is there as long as its material is. *)
Definition recorded_as (w : World) (r : RunRow) : Prop :=
  Run_MaterialID r ∈ ids (tables w) ->
  exists m, modifications w !! Run_ModificationID r = Some (Some m) /\ Mod_MaterialID m = Run_MaterialID r /\
    Mod_Revision m = Run_Revision r /\ Mod_Branch m = Some (Run_Branch r).
Definition unique_keys (w : World) : Prop := forall i j m n,
  modifications w !! i = Some (Some m) -> modifications w !! j = Some (Some n) -> conflicts m n = true -> i = j.
Definition same_group (r r' : RunRow) : Prop :=
  Run_PipelineID r = Run_PipelineID r' /\ Run_MaterialID r = Run_MaterialID r' /\
  Run_Revision r = Run_Revision r' /\ Run_Branch r = Run_Branch r'.

Record once (s : State) : Prop := {
  on_used : ids (tables (world (queue s))) ⊆ used s;
  on_keys : unique_keys (world (queue s));
  on_pending : forall k claim p, pending s !! k = Some (claim, p) -> is_Some (c_detail p.2 !! "rerun_of");
  on_run : forall i r c, original (queue s) i r c -> Run_MaterialID r ∈ used s /\ recorded_as (world (queue s)) r;
  on_once : forall i j r r' c c', original (queue s) i r c -> original (queue s) j r' c' -> same_group r r' -> i = j;
}.

Lemma conflicts_refl_keys m n o : conflicts m n = true -> conflicts m o = true -> conflicts n o = true.
Proof. unfold conflicts. rewrite !bool_decide_eq_true. intuition congruence. Qed.
Lemma conflicts_sym m n : conflicts m n = true -> conflicts n m = true.
Proof. unfold conflicts. rewrite !bool_decide_eq_true. intuition congruence. Qed.

Lemma existing_Some_lookup w m id : existing w m = Some id ->
  exists n, modifications w !! id = Some (Some n) /\ conflicts m n = true.
Proof.
  unfold existing. intros ([j o] & Hf & ->)%fmap_Some. apply list_find_Some in Hf as (Ho & Hc & _). simpl.
  destruct o as [n|]; [|done]. eauto.
Qed.
Lemma existing_None_lookup w m id n : existing w m = None -> modifications w !! id = Some (Some n) -> conflicts m n = false.
Proof.
  unfold existing. intros Hn%fmap_None Hl. apply list_find_None in Hn. rewrite Forall_forall in Hn.
  apply not_true_is_false, (Hn (Some n)). by eapply list_elem_of_lookup_2.
Qed.

Lemma unique_keys_insert w m r res w' : unique_keys w -> InsertModification w m r = (res, w') -> unique_keys w'.
Proof.
  intros Hu Hi. assert (w' = w \/ (existing w m = None /\ w' = add_modification w m)) as [-> | [He ->]]; [|done|].
  { unfold InsertModification in Hi. destruct r; [|simplify_eq; by left|];
      (destruct (negb _); [simplify_eq; by left|]); destruct (existing w m); simplify_eq; auto. }
  intros i j a b Ha Hb Hc. simpl in *. apply lookup_app_Some in Ha as [Ha|[Hi' Ha]], Hb as [Hb|[Hj Hb]].
  - by eapply Hu.
  - apply list_lookup_singleton_Some in Hb as [_ [= <-]]. apply conflicts_sym in Hc.
    pose proof (existing_None_lookup _ _ _ _ He Ha). congruence.
  - apply list_lookup_singleton_Some in Ha as [_ [= <-]]. pose proof (existing_None_lookup _ _ _ _ He Hb). congruence.
  - apply list_lookup_singleton_Some in Ha as [? _], Hb as [? _]. lia.
Qed.

Lemma reapply_modification w t i m :
  modifications (reapply w t) !! i = Some (Some m) <-> modifications w !! i = Some (Some m) /\ Mod_MaterialID m ∈ ids t.
Proof.
  simpl. rewrite list_lookup_fmap, fmap_Some. unfold ids. rewrite elem_of_list_to_set. split.
  - intros ([n|] & Ho & Hn); simpl in Hn; [|done]. by case_decide; simplify_eq.
  - intros [Hm Hin]. exists (Some m). split; [done|]. simpl. by rewrite decide_True.
Qed.

(** A modification appended or kept leaves what is recorded. *)
Lemma recorded_insert w m r res w' x : InsertModification w m r = (res, w') -> recorded_as w x -> recorded_as w' x.
Proof.
  intros Hi Hr. pose proof (InsertModification_spec _ _ _ _ _ Hi) as (Ht & _). unfold recorded_as. rewrite Ht.
  intros Hm. destruct (Hr Hm) as (n & Hn & Hk). exists n. split; [|done].
  unfold InsertModification in Hi. destruct r; [|by simplify_eq|];
    (destruct (negb _); [by simplify_eq|]); destruct (existing w m); simplify_eq; try done;
    simpl; by apply lookup_app_l_Some.
Qed.

(** A step that adds no original run. *)
Lemma once_mono s s' :
  used s ⊆ used s' -> ids (tables (world (queue s'))) ⊆ used s' -> unique_keys (world (queue s')) ->
  (forall k e, pending s' !! k = Some e -> exists j, pending s !! j = Some e) ->
  (forall i r c', original (queue s') i r c' -> exists c, original (queue s) i r c) ->
  (forall r, Run_MaterialID r ∈ used s -> recorded_as (world (queue s)) r -> recorded_as (world (queue s')) r) ->
  once s -> once s'.
Proof.
  intros Hu Hi Hk Hp Ho Hr [H1 H2 H3 H4 H5]. split; try done.
  - intros k claim p Hl. destruct (Hp _ _ Hl) as [j Hj]. eauto.
  - intros i r c' Hc'. destruct (Ho _ _ _ Hc') as [c Hc]. destruct (H4 _ _ _ Hc). split; [set_solver|by apply Hr].
  - intros i j r r' c c' Hi' Hj'. destruct (Ho _ _ _ Hi') as [ci Hci], (Ho _ _ _ Hj') as [cj Hcj]. eauto.
Qed.

(** The run found or created is the only one of its group. *)
Lemma once_create s in_ r res q : once s -> CreateOrFindMergeGroupRun (queue s) in_ r = (res, q) -> once (with_queue s q).
Proof.
  intros Hs [-> | (m & w & d & _ & Hb & Hi & Hf & _ & ->)]%CreateOrFind_spec.
  { eapply once_mono; [..|exact Hs]; simpl; try apply Hs; eauto. }
  pose proof (unique_keys_insert _ _ _ _ _ (on_keys _ Hs) Hi) as Hk.
  assert (Hrec : forall x, recorded_as (world (queue s)) x -> recorded_as w x) by (intros x; by eapply recorded_insert).
  apply InsertModification_in_tx in Hi as (Hlive & Hw & Ht & Hcase). simpl in Hlive.
  assert (Hnb : nullableString (MI_Branch in_) = Some (MI_Branch in_)) by (unfold nullableString; by rewrite decide_False).
  assert (Hmine : exists n, modifications w !! ModID m = Some (Some n) /\ conflicts (mg_modification in_) n = true).
  { destruct Hcase as [(_ & _ & -> & ->)|(_ & He & ->)]; [|by apply existing_Some_lookup].
    exists (mg_modification in_). simpl. split; [by apply list_lookup_middle|]. unfold conflicts. simpl.
    rewrite bool_decide_eq_true, Hnb. done. }
  destruct Hmine as (n & Hn & Hcn). pose proof Hcn as Hcn'. unfold conflicts in Hcn'. simpl in Hcn'.
  rewrite bool_decide_eq_true, Hnb in Hcn'. destruct Hcn' as (Hcm & Hcr & Hcb & _).
  split; simpl; try apply Hs.
  - rewrite Ht. apply Hs.
  - exact Hk.
  - intros i r' c' [(_ & -> & _)|[_ Ho]]%insert_run_original;
      [|by split; [apply (on_run _ Hs _ _ _ Ho)|apply Hrec, (on_run _ Hs _ _ _ Ho)]|done].
    simpl. split; [by apply (on_used _ Hs)|]. intros _. simpl. exists n. split; [done|]. split_and!; congruence.
  - assert (Hnew : forall i r' c', original (queue s) i r' c' -> same_group r' (mg_run in_ (ModID m)) -> False).
    { intros i r' c' Ho (Hp & Hmm & Hrr & Hbb). simpl in *. destruct (on_run _ Hs _ _ _ Ho) as [_ Hro].
      apply Hrec in Hro. unfold recorded_as in Hro. rewrite Ht, Hmm in Hro. destruct (Hro Hlive) as (n' & Hn' & Hm' & Hr' & Hb').
      assert (Run_ModificationID r' = ModID m) as Hid.
      { apply (Hk _ _ n' n Hn' Hn). unfold conflicts. rewrite bool_decide_eq_true. split_and!; congruence. }
      destruct Hcase as [(_ & _ & Hmid & ->)|(Hcr0 & He & ->)].
      - destruct (on_run _ Hs _ _ _ Ho) as [_ Hro']. unfold recorded_as in Hro'. rewrite Hmm in Hro'.
        destruct (Hro' Hlive) as (n0 & Hn0 & _). apply lookup_lt_Some in Hn0. lia.
      - specialize (Hf Hcr0). unfold findMergeGroupRunByModificationQ in Hf. apply fmap_None, list_find_None in Hf.
        rewrite Forall_forall in Hf. apply (Hf (Some r')).
        + eapply list_elem_of_lookup_2, (or_run _ _ _ _ Ho).
        + simpl. rewrite bool_decide_eq_true. split_and!; [congruence|apply (or_cause _ _ _ _ Ho)|done]. }
    intros i j r1 r2 c1 c2 H1 H2 Hsg.
    apply insert_run_original in H1 as [(-> & -> & _)|[_ H1]], H2 as [(-> & -> & _)|[_ H2]]; try done.
    + exfalso. eapply Hnew; [exact H2|]. unfold same_group in *. intuition congruence.
    + exfalso. by eapply Hnew.
    + by eapply (on_once _ Hs).
Qed.

Lemma rerun_not_original q i r c p :
  original {| world := add_run (world q) p.1; columns := <[length (runs (world q)) := p.2]> (columns q);
              destroyed := destroyed q; app_deliveries := c |} i r.1 r.2 ->
  is_Some (c_detail p.2 !! "rerun_of") -> original q i r.1 r.2.
Proof.
  intros [Hr Hc Hm Hd] [x Hx]. simpl in *. apply lookup_app_Some in Hr as [Hr|[Hge Hr]].
  - pose proof (lookup_lt_Some _ _ _ Hr). rewrite lookup_insert_ne in Hc by lia. by split.
  - apply list_lookup_singleton_Some in Hr as [Hi _]. assert (i = length (runs (world q))) as -> by lia.
    rewrite lookup_insert_eq in Hc. injection Hc as Hc. rewrite <- Hc, Hx in Hd. done.
Qed.
Lemma group_original q fp head reason i r c' d l :
  original {| world := world q; columns := cancel_group q fp head reason; destroyed := d; app_deliveries := l |} i r c' ->
  exists c, original q i r c.
Proof.
  intros [Hr Hc Hm Hd]. simpl in *. unfold cancel_group in Hc. rewrite map_lookup_imap in Hc.
  apply bind_Some in Hc as (c & Hc & [= <-]). exists c. split; try done. rewrite <- Hd. by destruct (group_abandoned _ _ _ _ _).
Qed.
Lemma cancel_cases q fp head reason r res q' : CancelMergeGroupRuns q fp head reason r = (res, q') ->
  q' = q \/ exists fp head d, q' = {| world := world q; columns := cancel_group q fp head reason; destroyed := d; app_deliveries := app_deliveries q |}.
Proof. unfold CancelMergeGroupRuns. case_decide; [naive_solver|]. destruct r; intros; simplify_eq; [right|left|right]; eauto. Qed.

Lemma once_tables s t :
  once s -> (forall id, id ∈ ids t -> id ∈ ids (tables (world (queue s))) \/ id ∉ used s) ->
  once {| queue := reapply_queue (queue s) t; pending := pending s; used := used s ∪ ids t; swept := swept s |}.
Proof.
  intros Hs Ht. eapply once_mono; [..|exact Hs]; cbn [queue used pending reapply_queue world].
  - set_solver.
  - change (tables (reapply (world (queue s)) t)) with t. set_solver.
  - intros i j m n [Hm _]%reapply_modification [Hn _]%reapply_modification. by eapply (on_keys _ Hs).
  - eauto.
  - intros i r c Ho. exists c. eapply original_runs; [..|exact Ho]; [|done]. intros r'. apply reapply_run.
  - intros r Hu Hr Hin. destruct (Ht _ Hin) as [Hin'|]; [|done]. destruct (Hr Hin') as (m & Hm & Hk).
    exists m. split; [|done]. apply reapply_modification. split; [done|]. destruct Hk as [-> _]. exact Hin.
Qed.

Lemma once_step s s' : once s -> step s s' -> once s'.
Proof.
  intros Hs H. destruct H as [in_ r res q _ Hc|fp head reason r res q Hc|id by_ claim p Ha Hp|k claim p r res q Hk Hc|k|old
    |i c st reason Hi _|i c Hi _|m r res w Hi|run c Hc _|t Ht].
  - by eapply once_create.
  - apply cancel_cases in Hc as [-> | (fp' & head' & d & ->)]; (eapply once_mono; [..|exact Hs]); simpl; try apply Hs; eauto.
    intros i r' c' Ho. by apply group_original in Ho.
  - destruct Hs as [H1 H2 H3 H4 H5]. split; simpl; try done. intros j c p' [Hj|[_ Hj]]%lookup_app_Some; [eauto|].
    apply list_lookup_singleton_Some in Hj as [_ [= -> ->]]. by apply prepare_rerun_spec in Hp as [? _].
  - apply create_rerun_spec in Hc as [-> | [_ ->]]; (eapply once_mono; [..|exact Hs]); simpl; try apply Hs; eauto;
      try (intros ?? ?; by eapply lookup_delete_list). intros i r' c' Ho. exists c'.
    by eapply (rerun_not_original _ _ (r', c')), (on_pending _ Hs).
  - eapply once_mono; [..|exact Hs]; simpl; try apply Hs; eauto. intros ?? ?; by eapply lookup_delete_list.
  - eapply once_mono; [..|exact Hs]; simpl; try apply Hs; eauto.
    intros i r c Ho. exists c. by eapply original_runs in Ho.
  - eapply once_mono; [..|exact Hs]; simpl; try apply Hs; eauto. intros j r c' Ho. eapply columns_original in Ho as (c0 & Ho & _); eauto.
  - eapply once_mono; [..|exact Hs]; simpl; try apply Hs; eauto. intros j r c' Ho. eapply columns_original in Ho as (c0 & Ho & _); eauto.
  - pose proof (InsertModification_spec _ _ _ _ _ Hi) as (Ht & Hr & _).
    eapply once_mono; [..|exact Hs]; cbn [queue with_queue with_world world used pending]; eauto.
    + rewrite Ht. apply Hs.
    + eapply unique_keys_insert; [apply Hs|done].
    + intros i r' c Ho. exists c. eapply original_runs in Ho; [done| |done]. simpl. by rewrite Hr.
    + intros r' _. by eapply recorded_insert.
  - eapply once_mono; [..|exact Hs]; simpl; try apply Hs; eauto. intros i r c' Ho. pose proof (or_cause _ _ _ _ Ho) as Hm.
    apply insert_run_original in Ho as [(_ & -> & _)|[_ Ho]]; [done|eauto|done].
  - by apply once_tables.
Qed.

(** ** One rerun per delivery *)

Definition claimed (s : State) : Prop :=
  (forall k claim p, pending s !! k = Some (claim, p) -> asked_by claim (Run_TriggeredBy p.1)) /\
  (forall i r d, runs (world (queue s)) !! i = Some (Some r) -> Run_TriggeredBy r = rerun_prefix +:+ d -> d ∉ swept s ->
     app_deliveries (queue s) !! d = Some (Some i)).

Lemma claimed_mono s s' :
  (forall k e, pending s' !! k = Some e -> exists j, pending s !! j = Some e) ->
  (forall i r, runs (world (queue s')) !! i = Some (Some r) -> HasPrefix (Run_TriggeredBy r) rerun_prefix = true ->
     runs (world (queue s)) !! i = Some (Some r)) ->
  (forall i d, d ∉ swept s' -> app_deliveries (queue s) !! d = Some (Some i) -> d ∉ swept s /\ app_deliveries (queue s') !! d = Some (Some i)) ->
  swept s ⊆ swept s' -> claimed s -> claimed s'.
Proof.
  intros Hp Hr Ha Hsw [H1 H2]. split.
  - intros k claim p Hk. destruct (Hp _ _ Hk) as [j Hj]. eauto.
  - intros i r d Hi Hd Hn. apply Ha; [done|]. apply (H2 i r d); [|done|set_solver]. apply Hr; [done|]. rewrite Hd. apply HasPrefix_app.
Qed.
Lemma prefix_neq d r : Run_TriggeredBy r = rerun_prefix +:+ d -> HasPrefix (Run_TriggeredBy r) rerun_prefix = false -> False.
Proof. intros -> H. by rewrite HasPrefix_app in H. Qed.
Lemma add_run_lookup w run i r : runs (add_run w run) !! i = Some (Some r) ->
  runs w !! i = Some (Some r) \/ (i = length (runs w) /\ r = run).
Proof.
  simpl. intros [H|[Hge H]]%lookup_app_Some; [by left|right]. apply list_lookup_singleton_Some in H as [? [= ->]]. split; [lia|done].
Qed.
Lemma string_app_inj (p t u : string) : p +:+ t = p +:+ u -> t = u.
Proof. induction p; simpl; [done|]. by intros [= ?]; auto. Qed.

Lemma claimed_rerun s k claim p r res q :
  claimed s -> pending s !! k = Some (claim, p) -> create_rerun (queue s) claim p r = (res, q) ->
  claimed {| queue := q; pending := delete k (pending s); used := used s; swept := swept s |}.
Proof.
  intros [H1 H2] Hk Hc. split; simpl.
  { intros ??? [j Hj]%lookup_delete_list. eauto. }
  apply create_rerun_spec in Hc as [-> | [Hfree ->]]; [done|]. intros i r' d Hi Hd Hn. cbn [world] in Hi.
  pose proof (H1 _ _ _ Hk) as Hby. apply add_run_lookup in Hi as [Hi|[-> ->]]; simpl.
  - pose proof (H2 _ _ _ Hi Hd Hn) as Hl. destruct claim as [d'|]; [|done]. rewrite lookup_insert_ne; [done|].
    intros ->. specialize (Hfree d eq_refl). congruence.
  - destruct claim as [d'|]; simpl in Hby.
    + rewrite Hby in Hd. apply string_app_inj in Hd as ->. by rewrite lookup_insert_eq.
    + exfalso. by eapply prefix_neq.
Qed.

Lemma claimed_step s s' : claimed s -> step s s' -> claimed s'.
Proof.
  intros Hs H. destruct H as [in_ r res q [Hdl _] Hc|fp head reason r res q Hc|id by_ claim p Ha Hp|k claim p r res q Hk Hc|k|old
    |i c st reason Hi _|i c Hi _|m r res w Hi|run c Hc Hnp|t Ht].
  - apply CreateOrFind_spec in Hc as [-> | (m & w & d & _ & _ & Hi & _ & _ & ->)];
      (eapply claimed_mono; [..|exact Hs]); simpl; eauto.
    apply InsertModification_in_tx in Hi as (_ & Hw & _). intros i r' Hl Hpx. fold (runs (add_run w (mg_run in_ (ModID m)))) in Hl.
    apply add_run_lookup in Hl as [Hl|[_ ->]]; [by rewrite <- Hw|]. simpl in Hpx. congruence.
  - apply cancel_cases in Hc as [-> | (fp' & head' & d & ->)]; (eapply claimed_mono; [..|exact Hs]); simpl; eauto.
  - destruct Hs as [H1 H2]. split; simpl; [|done]. intros j c p' [Hj|[_ Hj]]%lookup_app_Some; [eauto|].
    apply list_lookup_singleton_Some in Hj as [_ [= -> ->]]. apply prepare_rerun_spec in Hp as (_ & -> & _).
    case_decide as Hb; [|done]. subst. by destruct c.
  - by eapply claimed_rerun.
  - eapply claimed_mono; [..|exact Hs]; simpl; eauto. intros ?? ?; by eapply lookup_delete_list.
  - eapply claimed_mono; [..|exact Hs]; simpl; eauto; [|set_solver]. intros i d Hd Hl. split; [set_solver|].
    rewrite map_lookup_filter_Some. split; [done|set_solver].
  - eapply claimed_mono; [..|exact Hs]; simpl; eauto.
  - eapply claimed_mono; [..|exact Hs]; simpl; eauto.
  - apply InsertModification_spec in Hi as (_ & Hr & _). eapply claimed_mono; [..|exact Hs]; simpl; eauto. by rewrite Hr.
  - eapply claimed_mono; [..|exact Hs]; simpl; eauto. intros i r Hl Hpx.
    fold (runs (add_run (world (queue s)) run)) in Hl. apply add_run_lookup in Hl as [?|[_ ->]]; [done|congruence].
  - destruct Hs as [H1 H2]. split; [done|]. cbn [queue reapply_queue world app_deliveries swept]. intros i r d Hl Hd Hn.
    pose proof (H2 _ _ _ (reapply_run _ _ _ _ Hl) Hd Hn) as Hf. rewrite lookup_fmap, Hf. cbn [fmap option_fmap option_map mbind option_bind]. by rewrite Hl.
Qed.

Lemma boot_original i r c : ~ original (queue boot) i r c.
Proof. by intros [Hr _ _ _]. Qed.
Lemma queue_invariants s : reachable s -> dead s /\ once s /\ claimed s.
Proof.
  apply (rtc_ind_r (fun s => dead s /\ once s /\ claimed s) boot).
  - split; [|split]; [| |done].
    + split; [done|]. by intros i r c Ho%boot_original.
    + split; try done; [by intros i r c Ho%boot_original|by intros i j r r' c c' Ho%boot_original].
  - intros s1 s2 _ Hst (Hd & Ho & Hc). split; [by eapply dead_step|split; [by eapply once_step|by eapply claimed_step]].
Qed.

(** ** What the queue promises *)

(** C36: However the deliveries of several servers, retries, reruns and everything else that
    moves a run interleave, and whatever fails in between: a merge group GitHub has
    abandoned has no run in progress that nobody asked for again, and every group has
    at most one run per pipeline, material, revision and branch besides its reruns. *)
Theorem queue_safe s :
  reachable s ->
  (forall i r c fp head, original (queue s) i r c -> in_group fp head c = true ->
     is_Some (destroyed (queue s) !! (fp, head)) -> c_generation c = 0%Z -> active (c_status c) = false) /\
  (forall i j r r' c c', original (queue s) i r c -> original (queue s) j r' c' -> same_group r r' -> i = j).
Proof.
  intros ([_ Hd] & Ho & _)%queue_invariants. split; [|apply (on_once _ Ho)].
  intros i r c fp head Hr Hg Ht Hz. destruct (Hd _ _ _ Hr) as [_ H]. by eapply H.
Qed.

(** C37: A check that is asked for again starts at most one run per delivery: whatever the
    redeliveries, crashes and lost replies, two runs with the mark of one delivery are the
    same run, until the retention forgets the delivery; and only a run that had ended, and
    that is not of a pull request's head, is ever run again. *)
Theorem reruns_once s :
  reachable s ->
  (forall i j r r' d, runs (world (queue s)) !! i = Some (Some r) -> runs (world (queue s)) !! j = Some (Some r') ->
     Run_TriggeredBy r = rerun_prefix +:+ d -> Run_TriggeredBy r' = rerun_prefix +:+ d -> d ∉ swept s -> i = j) /\
  (forall id d read r run q, RerunForAppDelivery (queue s) id d read r = (Ok run, q) ->
     exists row c, runs (world (queue s)) !! id = Some (Some row) /\ columns (queue s) !! id = Some c /\
       active (c_status c) = false /\ Run_FromHead row = false /\ app_deliveries (queue s) !! d = None /\
       app_deliveries q !! d = Some (Some run)).
Proof.
  intros (_ & _ & [_ Hc])%queue_invariants. split.
  - intros i j r r' d Hi Hj Hd Hd' Hn. pose proof (Hc _ _ _ Hi Hd Hn). pose proof (Hc _ _ _ Hj Hd' Hn). congruence.
  - intros id d read r run q. unfold RerunForAppDelivery, rerunRun. destruct read; [|done].
    destruct (prepare_rerun (queue s) id _) as [p|] eqn:Hp; [|done]. intros Hr.
    apply prepare_rerun_spec in Hp as (_ & _ & row & c & Hrow & Hcol & Ha & Hh).
    pose proof (create_rerun_spec _ _ _ _ _ _ Hr) as Hs. unfold create_rerun in Hr.
    destruct r; [|done|]; (case_decide as Hcl; [done|]); (destruct (pipeline_row _ _); [|done]); [|done].
    injection Hr as <- <-. destruct Hs as [Hq | [Hfree _]].
    + exfalso. apply (f_equal (fun q => length (runs (world q)))) in Hq. simpl in Hq. rewrite length_app in Hq. simpl in Hq. lia.
    + exists row, c. split_and!; try done; [by apply Hfree|]. simpl. by rewrite lookup_insert_eq.
Qed.

(** *** Witnesses *)

Definition ex_tables : Tables := {|
  scm_sources := []; projects := [{| Project_ID := 1; TrustSameRepoPRConfig := false; ConfigPath := "" |}];
  pipelines := [{| PipelineRow_ID := 3; PipelineRow_Name := "ci"; SystemManaged := false; PipelineRow_ProjectID := 1 |}];
  materials := [{| Material_ID := 7; Material_PipelineID := 3; Material_Kind := MaterialGit; Material_Config := None; Material_Fingerprint := "fp" |}];
  governed := ∅ |}%N.
Definition ex_input : MergeGroupRunInput := {|
  MI_Fingerprint := "fp"; MI_PipelineID := 3; MI_MaterialID := 7; MI_Revision := "beef"; MI_Branch := "gh-readonly-queue/main/pr-1";
  MI_Author := "github-merge-queue"; MI_Message := ""; MI_Payload := "{}"; MI_CommittedAt := None; MI_Provider := "github";
  MI_Delivery := "d1"; MI_TriggeredBy := "system:webhook"; MI_CauseDetail := Some {[ "mg_head_sha" := "beef" ]} |}.
Definition ex_1 : State := {| queue := reapply_queue (queue boot) ex_tables; pending := []; used := ∅ ∪ ids ex_tables; swept := ∅ |}.
Definition ex_2 : State := with_queue ex_1 (CreateOrFindMergeGroupRun (queue ex_1) ex_input Lost).2.
Definition ex_3 : State := with_queue ex_2 (CreateOrFindMergeGroupRun (queue ex_2) ex_input Answered).2.
Definition ex_4 : State := with_queue ex_3 (CancelMergeGroupRuns (queue ex_3) "fp" "beef" "dequeued" Answered).2.
Definition ex_rerun : RunRow * Columns :=
  match prepare_rerun (queue ex_4) 0 "github:rerun:d9" with
  | Ok p => p
  | Err _ => (mg_run ex_input 0, queued ∅ 0 "" "")
  end.
Definition ex_5 : State := {| queue := queue ex_4; pending := [(Some "d9", ex_rerun)]; used := used ex_4; swept := swept ex_4 |}.
Definition ex_6 : State := {| queue := (create_rerun (queue ex_5) (Some "d9") ex_rerun Answered).2; pending := []; used := used ex_5; swept := swept ex_5 |}.

Lemma ex_delivered : delivered ex_input.
Proof. split; [done|]. by intros d [= <-]. Qed.
Lemma ex_4_reachable : reachable ex_4.
Proof.
  eapply rtc_l; [apply (step_tables boot ex_tables); intros id _; right; apply not_elem_of_empty|].
  eapply rtc_l; [eapply step_create; [apply ex_delivered|apply surjective_pairing]|].
  eapply rtc_l; [eapply step_create; [apply ex_delivered|apply surjective_pairing]|].
  apply rtc_once. eapply step_cancel, surjective_pairing.
Qed.
Lemma ex_6_reachable : reachable ex_6.
Proof.
  unfold reachable. transitivity ex_4; [apply ex_4_reachable|].
  eapply rtc_l; [apply (step_prepare ex_4 0 "github:rerun:d9" (Some "d9") ex_rerun); [done|vm_compute; reflexivity]|].
  apply rtc_once. eapply (step_rerun ex_5 0 (Some "d9") ex_rerun Answered); [done|apply surjective_pairing].
Qed.

(** The answer of the first delivery is lost, its retry finds the run, and GitHub abandons
    the group. *)
Lemma queue_safe_witness :
  reachable ex_4 /\ length (runs (world (queue ex_4))) = 1 /\
  exists r c, original (queue ex_4) 0 r c /\ in_group "fp" "beef" c = true /\ active (c_status c) = false.
Proof.
  pose proof ex_4_reachable as Hr. split; [exact Hr|]. split; [vm_compute; reflexivity|].
  eexists _, _. assert (original (queue ex_4) 0 (mg_run ex_input 0)
    (with_state (queued {[ "mg_head_sha" := "beef"; "mg_fingerprint" := "fp" ]} 7 "beef" "gh-readonly-queue/main/pr-1") StatusCanceled 0 "github merge_group destroyed: dequeued")) as Ho
    by (split; vm_compute; reflexivity).
  split; [exact Ho|]. split; [vm_compute; reflexivity|].
  apply (proj1 (queue_safe ex_4 Hr) 0 _ _ "fp" "beef" Ho); [vm_compute; reflexivity|vm_compute; by eexists|reflexivity].
Defined.
(** Somebody asks for the check again; the redelivery is refused. *)
Lemma reruns_once_witness :
  reachable ex_6 /\ RerunForAppDelivery (queue ex_6) 0 "d9" true Answered = (Err ErrAppDeliveryAlreadyClaimed, queue ex_6) /\
  exists r, runs (world (queue ex_6)) !! 1 = Some (Some r) /\ Run_TriggeredBy r = rerun_prefix +:+ "d9" /\
    forall i r', runs (world (queue ex_6)) !! i = Some (Some r') -> Run_TriggeredBy r' = rerun_prefix +:+ "d9" -> i = 1.
Proof.
  pose proof ex_6_reachable as Hr. split; [exact Hr|]. split; [vm_compute; reflexivity|].
  exists (ex_rerun.1). split; [vm_compute; reflexivity|]. split; [vm_compute; reflexivity|].
  intros i r' Hi Hd. apply (proj1 (reruns_once ex_6 Hr) i 1 r' ex_rerun.1 "d9" Hi); [vm_compute; reflexivity|exact Hd|vm_compute; reflexivity|].
  apply not_elem_of_empty.
Defined.
