(* ===== verification/Triggers.v ===== *)
(** The triggers that are not deliveries: the poller ([internal/polling]), cron
    materials and project schedules ([internal/cron]), and the trigger they share with
    the API ([TriggerManualRun], [RunAll]).  The provider's HEAD, the cron library and
    the query for an upstream's latest green run are parameters. *)

From S2P Require Import Prelude GoStrings Domain Modifications Ledger.
Open Scope list_scope.

(** Instants are nanoseconds since the epoch. *)
Notation Time := Z.
Definition Unix (t : Time) : Z := (t / 10 ^ 9)%Z.

Record PollState := { LastPolledAt : Time; LastHeadSHA : string; LastPollError : string }.
Record ProjectCron := {
  Cron_ID : N; Cron_ProjectID : N; Cron_Name : string; Cron_Schedule : string;
  Cron_PipelineIDs : list N; Cron_Enabled : bool; Cron_LastFiredAt : option Time;
}.
Record Clock := {
  db : World; poll_state : gmap N PollState; cron_state : gmap N Time; project_crons : list ProjectCron;
}.
Definition with_db (c : Clock) (w : World) : Clock :=
  {| db := w; poll_state := poll_state c; cron_state := cron_state c; project_crons := project_crons c |}.

(** ** [store/poll_state.go] *)

Record PollableGitMaterial := {
  P_MaterialID : N; P_PipelineID : N; P_ProjectID : N; P_URL : string; P_Branch : string;
  P_MaterialPollInterval : Z; P_State : option PollState; P_SCM : option SCMSource;
}.
Definition P_LastHeadSHA (p : PollableGitMaterial) : string := default "" (LastHeadSHA <$> P_State p).

Definition EffectiveInterval (p : PollableGitMaterial) : Z :=
  if (0 <? P_MaterialPollInterval p)%Z then P_MaterialPollInterval p
  else default 0%Z (Source_PollInterval <$> P_SCM p).
Definition IsDue (p : PollableGitMaterial) (now : Time) : bool :=
  if (EffectiveInterval p <=? 0)%Z then false
  else match P_State p with
       | None => true
       | Some st => negb (now <? LastPolledAt st + EffectiveInterval p)%Z
       end.

(** One configuration that does not decode fails the whole list. *)
Definition pollable_row (c : Clock) (m : MaterialRow) : result string PollableGitMaterial :=
  match Material_Config m with
  | None => Err "decode git material"
  | Some cfg =>
      let project := default 0%N (PipelineRow_ProjectID <$> pipeline_row (db c) (Material_PipelineID m)) in
      Ok {| P_MaterialID := Material_ID m; P_PipelineID := Material_PipelineID m; P_ProjectID := project;
            P_URL := Git_URL cfg; P_Branch := Git_Branch cfg; P_MaterialPollInterval := Git_PollInterval cfg;
            P_State := poll_state c !! Material_ID m;
            P_SCM := snd <$> list_find (fun s => Source_ProjectID s = project) (scm_sources (tables (db c))) |}
  end.
Definition ListPollableGitMaterials (c : Clock) : result string (list PollableGitMaterial) :=
  map_all (pollable_row c) (filter (fun m => Material_Kind m = MaterialGit) (materials (tables (db c)))).

Definition RecordPollOutcome (c : Clock) (m : N) (now : Time) (sha err : string) (r : Reply) : result string unit * Clock :=
  match r with
  | Refused => (Err "record poll outcome", c)
  | _ => (match r with Answered => Ok tt | _ => Err "record poll outcome" end,
          {| db := db c; poll_state := <[m := {| LastPolledAt := now; LastHeadSHA := sha; LastPollError := err |}]> (poll_state c);
             cron_state := cron_state c; project_crons := project_crons c |})
  end.

(** ** [polling/poller.go] *)

Definition materialToSCM (p : PollableGitMaterial) : option (SCMSource * string) :=
  let default_branch := default "" (Source_DefaultBranch <$> P_SCM p) in
  let branch := if decide (P_Branch p = "") then default_branch else P_Branch p in
  if decide (branch = "") then None
  else match P_SCM p with
       | None => None
       | Some s => if decide (Source_Provider s = "" \/ Source_URL s = "") then None else Some (s, branch)
       end.

Definition trigger_modification (m : N) (revision branch author message : string) (at_ : Time) : Modification := {|
  Mod_MaterialID := m; Mod_Revision := revision; Mod_Branch := nullableString branch;
  Mod_Author := nullableString author; Mod_Message := nullableString message; Mod_Payload := "";
  Mod_CommittedAt := Some at_ |}.
Definition trigger_run (pipeline m : N) (mod_ : nat) (revision branch cause provider delivery by_ : string) : RunRow := {|
  Run_PipelineID := pipeline; Run_MaterialID := m; Run_ModificationID := mod_; Run_Revision := revision;
  Run_Branch := branch; Run_Cause := cause; Run_Provider := provider; Run_Delivery := delivery;
  Run_TriggeredBy := by_; Run_FromHead := false |}.

Definition shortSHA (sha : string) : string := if (slen sha <=? 7)%nat then sha else stake 7 sha.

Section Poll.
(** [HeadResolver.HeadSHA]: what the provider answers. *)
Variable HeadSHA : SCMSource -> string -> result string string.

Record Replies := { on_insert : Reply; on_create : Reply; on_record : Reply }.

Definition pollOne (c : Clock) (p : PollableGitMaterial) (now : Time) (x : Replies) : result string unit * Clock :=
  let record sha err c := RecordPollOutcome c (P_MaterialID p) now sha err (on_record x) in
  match materialToSCM p with
  | None => record (P_LastHeadSHA p) "material has no scm_source binding or branch" c
  | Some (scm, branch) =>
      match HeadSHA scm branch with
      | Err e => record (P_LastHeadSHA p) ("resolve HEAD: " +:+ e) c
      | Ok sha =>
          if decide (sha = "") then record (P_LastHeadSHA p) "provider returned empty HEAD sha" c
          else if decide (sha = P_LastHeadSHA p) then record sha "" c
          else
            match InsertModification (db c)
                    (trigger_modification (P_MaterialID p) sha branch "poll"
                       ("detected " +:+ branch +:+ "@" +:+ shortSHA sha +:+ " via poll") now) (on_insert x) with
            | (Err e, w) => (Err e, with_db c w)
            | (Ok mod_, w) =>
                match CreateRunFromModification w
                        (trigger_run (P_PipelineID p) (P_MaterialID p) (ModID mod_) sha branch "poll"
                           (Source_Provider scm) ("poll:" +:+ itoa (Unix now)) "poll") (on_create x) with
                | (Err e, w) => (Err e, with_db c w)
                | (Ok _, w) => (Ok tt, (record sha "" (with_db c w)).2)
                end
            end
      end
  end.
(** One tick: the rows are read once. *)
Definition evaluate_polls (c : Clock) (now : Time) (x : N -> Replies) : Clock :=
  match ListPollableGitMaterials c with
  | Err _ => c
  | Ok rows => foldl (fun c p => if IsDue p now then (pollOne c p now (x (P_MaterialID p))).2 else c) c rows
  end.
End Poll.

(** ** [cron/cron.go] *)

Section Cron.
(** [parser.Parse] and [Schedule.Next]; [None] is an invalid expression, and a baseline
    of [None] is the zero time. *)
Variable Next : string -> option (option Time -> Time).
(** The expression of a cron material; [None] does not decode. *)
Variable expression : MaterialRow -> option string.
(** [now.UTC().Format(time.RFC3339)]. *)
Variable Format : Time -> string.

Record CronMaterialRow := { C_MaterialID : N; C_PipelineID : N; C_Expression : string; C_LastFiredAt : option Time }.
Definition ListCronMaterials (c : Clock) : result string (list CronMaterialRow) :=
  map_all (fun m =>
      match expression m with
      | None => Err "decode cron material"
      | Some e => Ok {| C_MaterialID := Material_ID m; C_PipelineID := Material_PipelineID m;
                        C_Expression := e; C_LastFiredAt := cron_state c !! Material_ID m |}
      end) (filter (fun m => Material_Kind m = MaterialCron) (materials (tables (db c)))).

Definition MarkCronFired (c : Clock) (m : N) (at_ : Time) (r : Reply) : Clock :=
  match r with
  | Refused => c
  | _ => {| db := db c; poll_state := poll_state c; cron_state := <[m := at_]> (cron_state c); project_crons := project_crons c |}
  end.

Definition fire (c : Clock) (r : CronMaterialRow) (now : Time) (x : Replies) : result string unit * Clock :=
  let revision := "cron:" +:+ itoa (Unix now) in
  match InsertModification (db c)
          (trigger_modification (C_MaterialID r) revision "cron" "cron" ("cron tick at " +:+ Format now) now) (on_insert x) with
  | (Err e, w) => (Err e, with_db c w)
  | (Ok mod_, w) =>
      match CreateRunFromModification w
              (trigger_run (C_PipelineID r) (C_MaterialID r) (ModID mod_) revision "cron" "cron" "cron" revision "cron") (on_create x) with
      | (Err e, w) => (Err e, with_db c w)
      | (Ok _, w) => (Ok tt, MarkCronFired (with_db c w) (C_MaterialID r) now (on_record x))
      end
  end.
(** Whether a schedule last fired at a baseline is due. *)
Definition due (e : string) (baseline : option Time) (now : Time) : bool :=
  match Next e with None => false | Some next => (next baseline <=? now)%Z end.
Definition evaluate_cron (c : Clock) (now : Time) (x : N -> Replies) : Clock :=
  match ListCronMaterials c with
  | Err _ => c
  | Ok rows => foldl (fun c r => if due (C_Expression r) (C_LastFiredAt r) now then (fire c r now (x (C_MaterialID r))).2 else c) c rows
  end.

(** ** [store/runs_actions.go], [TriggerManualRun] *)

(** [resolveManualUpstreamContext]'s query: the revision and branch of the newest green
    run of the only upstream material's pipeline. *)
Variable LatestUpstreamRun : World -> N -> option (N * string * string).

Inductive trigger_error := ErrNoModificationForPipeline | TriggerFailed.

Definition of_pipeline (w : World) (p : N) : list MaterialRow :=
  filter (fun m => Material_PipelineID m = p) (materials (tables w)).
Definition CountUpstreamMaterials (w : World) (p : N) : nat :=
  length (filter (fun m => Material_Kind m = MaterialUpstream) (of_pipeline w p)).
Definition pipelineHasGitMaterial (w : World) (p : N) : bool :=
  bool_decide (Exists (fun m => Material_Kind m = MaterialGit) (of_pipeline w p)).
(** [ORDER BY detected_at DESC LIMIT 1], over every material of the pipeline: rows are
    detected in the order they are inserted. *)
Definition enumerate {A} (l : list A) : list (nat * A) := imap pair l.
Definition GetLatestModificationForPipeline (w : World) (p : N) : option (nat * Modification) :=
  last (omap (fun '(i, o) => m ← o;
                if decide (Mod_MaterialID m ∈ Material_ID <$> of_pipeline w p) then Some (i, m) else None)
         (enumerate (modifications w))).

Definition insert_skeleton (w : World) (run : RunRow) (r : Reply) : result trigger_error nat * World :=
  let '(res, w) := CreateRunFromModification w run r in
  (match res with Ok id => Ok id | Err _ => Err TriggerFailed end, w).

Definition TriggerManualRun (w : World) (p : N) (triggered_by cause_ : string) (reads : bool) (r : Reply) : result trigger_error nat * World :=
  let by_ := if decide (triggered_by = "") then "manual" else triggered_by in
  let cause := if decide (cause_ = "") then "manual" else cause_ in
  if negb reads then (Err TriggerFailed, w)
  else match (if decide (CountUpstreamMaterials w p = 1) then LatestUpstreamRun w p else None) with
  | Some (m, revision, branch) => insert_skeleton w (trigger_run p m 0 revision branch cause "" "" by_) r
  | None =>
      match GetLatestModificationForPipeline w p with
      | Some (id, mod_) =>
          insert_skeleton w (trigger_run p (Mod_MaterialID mod_) id (Mod_Revision mod_) (default "" (Mod_Branch mod_)) cause "api"
                               (cause +:+ "-" +:+ itoa (Z.of_N p)) by_) r
      | None =>
          if pipelineHasGitMaterial w p then (Err ErrNoModificationForPipeline, w)
          else insert_skeleton w (trigger_run p 0 0 "" "" cause "" "" by_) r
      end
  end.

(** ** [cron/project.go] *)

Definition ListPipelineIDsByProject (w : World) (project : N) : list N :=
  PipelineRow_ID <$> filter (fun p => PipelineRow_ProjectID p = project) (pipelines (tables w)).

Definition MarkProjectCronFired (c : Clock) (id : N) (at_ : Time) (r : Reply) : Clock :=
  match r with
  | Refused => c
  | _ => {| db := db c; poll_state := poll_state c; cron_state := cron_state c;
            project_crons := (fun s => if decide (Cron_ID s = id)
              then {| Cron_ID := Cron_ID s; Cron_ProjectID := Cron_ProjectID s; Cron_Name := Cron_Name s; Cron_Schedule := Cron_Schedule s;
                      Cron_PipelineIDs := Cron_PipelineIDs s; Cron_Enabled := Cron_Enabled s; Cron_LastFiredAt := Some at_ |}
              else s) <$> project_crons c |}
  end.
Definition fire_project (c : Clock) (s : ProjectCron) (now : Time) (lists : bool) (reads : N -> bool) (creates : N -> Reply) (mark : Reply) : Clock :=
  if bool_decide (Cron_PipelineIDs s = []) && negb lists then c else
  let targets := if decide (Cron_PipelineIDs s = []) then ListPipelineIDsByProject (db c) (Cron_ProjectID s) else Cron_PipelineIDs s in
  let w := foldl (fun w p => (TriggerManualRun w p ("cron:" +:+ Cron_Name s) "schedule" (reads p) (creates p)).2) (db c) targets in
  MarkProjectCronFired (with_db c w) (Cron_ID s) now mark.
Definition evaluate_project_crons (c : Clock) (now : Time) (lists : bool) (reads : N -> bool) (creates : N -> Reply) (mark : N -> Reply) : Clock :=
  foldl (fun c s => if due (Cron_Schedule s) (Cron_LastFiredAt s) now
                    then fire_project c s now lists reads creates (mark (Cron_ID s)) else c) c
    (filter (fun s => Cron_Enabled s = true) (project_crons c)).

(** [RunAll]: one outcome for each pipeline of the project. *)
Fixpoint RunAll_from (w : World) (triggered_by : string) (reads : N -> bool) (creates : N -> Reply) (l : list N) : list (N * result trigger_error nat) * World :=
  match l with
  | [] => ([], w)
  | p :: l =>
      let '(res, w) := TriggerManualRun w p triggered_by "manual" (reads p) (creates p) in
      let '(out, w) := RunAll_from w triggered_by reads creates l in
      ((p, res) :: out, w)
  end.
Definition RunAll (w : World) (project : N) (triggered_by : string) (reads : N -> bool) (creates : N -> Reply) :=
  RunAll_from w triggered_by reads creates (ListPipelineIDsByProject w project).
End Cron.
