(* ===== verification/TriggerProps.v ===== *)
(** What the other triggers do with the ledger: a poll and a cron tick start their run
    whether or not the modification is new, and a schedule runs the newest modification
    of its pipeline, a pull request's head included. *)

From S2P Require Import Prelude GoStrings Domain Modifications Ledger Triggers.
Open Scope list_scope.

(** ** Statements that are answered *)

Lemma InsertModification_answered w m :
  live w (Mod_MaterialID m) = true ->
  exists mod_ w', InsertModification w m Answered = (Ok mod_, w') /\ tables w' = tables w /\ runs w' = runs w.
Proof.
  intros Hl. unfold InsertModification. rewrite Hl. cbn [negb]. destruct (existing w m); eauto.
Qed.
Lemma CreateRun_answered w run :
  is_Some (pipeline_row w (Run_PipelineID run)) ->
  CreateRunFromModification w run Answered = (Ok (length (runs w)), add_run w run).
Proof. intros [pl Hp]. unfold CreateRunFromModification. by rewrite Hp. Qed.
Lemma pipeline_row_tables w w' id : tables w' = tables w -> pipeline_row w' id = pipeline_row w id.
Proof. unfold pipeline_row. by intros ->. Qed.

(** ** The poller *)

(** The runs of a material at a revision of a branch. *)
Definition at_key (m : N) (revision branch : string) (o : option RunRow) : bool :=
  match o with
  | Some r => bool_decide (Run_MaterialID r = m /\ Run_Revision r = revision /\ Run_Branch r = branch)
  | None => false
  end.
Definition runs_at (w : World) (m : N) (revision branch : string) : nat :=
  length (filter (fun o => at_key m revision branch o = true) (runs w)).

Lemma runs_at_add w run m revision branch :
  Run_MaterialID run = m -> Run_Revision run = revision -> Run_Branch run = branch ->
  runs_at (add_run w run) m revision branch = S (runs_at w m revision branch).
Proof.
  intros H1 H2 H3. unfold runs_at. simpl. rewrite filter_app, length_app.
  rewrite filter_cons_True by (simpl; by apply bool_decide_eq_true). simpl. lia.
Qed.

Lemma runs_at_runs w w' m revision branch : runs w = runs w' -> runs_at w m revision branch = runs_at w' m revision branch.
Proof. unfold runs_at. by intros ->. Qed.

Section Poll.
Variable HeadSHA : SCMSource -> string -> result string string.

(** The row of a material of a pipeline, HEAD at another revision than the last poll saw. *)
Record advanced (c : Clock) (p : PollableGitMaterial) (scm : SCMSource) (branch sha : string) : Prop := {
  adv_live : live (db c) (P_MaterialID p) = true;
  adv_pipeline : is_Some (pipeline_row (db c) (P_PipelineID p));
  adv_scm : materialToSCM p = Some (scm, branch);
  adv_head : HeadSHA scm branch = Ok sha;
  adv_some : sha <> "";
  adv_moved : sha <> P_LastHeadSHA p;
}.

Lemma pollOne_fires c p now x scm branch sha :
  advanced c p scm branch sha -> on_insert x = Answered -> on_create x = Answered ->
  exists w run, pollOne HeadSHA c p now x = (Ok tt, (RecordPollOutcome (with_db c (add_run w run)) (P_MaterialID p) now sha "" (on_record x)).2) /\
    tables w = tables (db c) /\ runs w = runs (db c) /\
    Run_MaterialID run = P_MaterialID p /\ Run_Revision run = sha /\ Run_Branch run = branch /\ Run_Cause run = "poll".
Proof.
  intros [Hl Hp Hscm Hh Hs Hm] Hi Hc. unfold pollOne. rewrite Hscm, Hh, decide_False, decide_False, Hi, Hc by done.
  match goal with |- context [InsertModification ?w ?m Answered] => destruct (InsertModification_answered w m Hl) as (mod_ & w' & -> & Ht & Hr) end.
  rewrite CreateRun_answered by (by rewrite (pipeline_row_tables (db c) w')). eauto 10.
Qed.

Lemma db_recorded c m now sha err r : db (RecordPollOutcome c m now sha err r).2 = db c.
Proof. by destruct r. Qed.

(** A poll that sees a new HEAD starts a run although the ledger has the modification:
    once more than the delivery of the same push already did, and once more again at
    each tick until the outcome is recorded. *)
Theorem poll_repeats_run c p now now' x scm branch sha :
  advanced c p scm branch sha -> on_insert x = Answered -> on_create x = Answered -> on_record x = Refused ->
  let '(res, c1) := pollOne HeadSHA c p now x in
  let '(res', c2) := pollOne HeadSHA c1 p now' x in
  res = Ok tt /\ res' = Ok tt /\ poll_state c2 = poll_state c /\
  runs_at (db c2) (P_MaterialID p) sha branch = 2 + runs_at (db c) (P_MaterialID p) sha branch.
Proof.
  intros Ha Hi Hc Hx. destruct (pollOne_fires c p now x _ _ _ Ha Hi Hc) as (w & run & -> & Ht & Hr & H1 & H2 & H3 & _).
  rewrite Hx. cbn [RecordPollOutcome snd].
  assert (advanced (with_db c (add_run w run)) p scm branch sha) as Ha'.
  { destruct Ha as [Hl Hp Hscm Hh Hs Hm]. split; try done.
    - unfold live in *. simpl. by rewrite Ht.
    - by rewrite (pipeline_row_tables (db c)). }
  destruct (pollOne_fires _ p now' x _ _ _ Ha' Hi Hc) as (w' & run' & -> & Ht' & Hr' & H1' & H2' & H3' & _).
  rewrite Hx. cbn [RecordPollOutcome snd]. split; [done|]. split; [done|]. split; [done|]. cbn [with_db db].
  rewrite runs_at_add by done. rewrite (runs_at_runs w' (add_run w run)) by done. rewrite runs_at_add by done.
  by rewrite (runs_at_runs w (db c)).
Qed.

(** Once recorded, the same HEAD fires nothing: the next row read has it as its last. *)
Lemma poll_settles c p p' now now' x x' scm branch sha :
  advanced c p scm branch sha -> on_insert x = Answered -> on_create x = Answered -> on_record x = Answered ->
  let c1 := (pollOne HeadSHA c p now x).2 in
  P_MaterialID p' = P_MaterialID p -> P_State p' = poll_state c1 !! P_MaterialID p -> materialToSCM p' = Some (scm, branch) ->
  runs (db (pollOne HeadSHA c1 p' now' x').2) = runs (db c1).
Proof.
  intros Ha Hi Hc Hx. destruct (pollOne_fires c p now x _ _ _ Ha Hi Hc) as (w & run & -> & _).
  rewrite Hx. cbn zeta. intros Hid Hst Hscm. unfold pollOne. rewrite Hscm, (adv_head _ _ _ _ _ Ha).
  rewrite decide_False by exact (adv_some _ _ _ _ _ Ha).
  assert (P_LastHeadSHA p' = sha) as -> by (unfold P_LastHeadSHA; rewrite Hst; simpl; by rewrite lookup_insert_eq).
  rewrite decide_True by done. by rewrite db_recorded.
Qed.

(** *** A whole tick *)

Definition all_well : Replies := {| on_insert := Answered; on_create := Answered; on_record := Answered |}.

(** The row sees a new HEAD, and which. *)
Definition new_head (p : PollableGitMaterial) : option (SCMSource * string * string) :=
  '(scm, branch) ← materialToSCM p;
  match HeadSHA scm branch with
  | Err _ => None
  | Ok sha => if decide (sha = "" \/ sha = P_LastHeadSHA p) then None else Some (scm, branch, sha)
  end.
Definition polls_new (now : Z) (p : PollableGitMaterial) : bool := IsDue p now && bool_decide (new_head p <> None).
(** The run of a row's HEAD. *)
Definition head_run_of (now : Z) (p : PollableGitMaterial) (r : RunRow) : Prop :=
  exists scm branch sha id, new_head p = Some (scm, branch, sha) /\
    r = trigger_run (P_PipelineID p) (P_MaterialID p) id sha branch "poll" (Source_Provider scm) ("poll:" +:+ itoa (Unix now)) "poll".
(** What the row of a material has as its last HEAD after it was polled. *)
Definition head_after (p : PollableGitMaterial) : string :=
  match new_head p with Some (_, _, sha) => sha | None => P_LastHeadSHA p end.

Definition pollable (w : World) (p : PollableGitMaterial) : Prop :=
  live w (P_MaterialID p) = true /\ is_Some (pipeline_row w (P_PipelineID p)).
Lemma pollable_tables w w' p : tables w' = tables w -> pollable w p -> pollable w' p.
Proof. intros Ht [Hl Hp]. split; [unfold live in *; by rewrite Ht|by rewrite (pipeline_row_tables w)]. Qed.

(** One row: its run if it sees a new HEAD, nothing otherwise, and its HEAD recorded. *)
Lemma pollOne_exact c p now :
  pollable (db c) p ->
  let c1 := (pollOne HeadSHA c p now all_well).2 in
  tables (db c1) = tables (db c) /\ cron_state c1 = cron_state c /\ project_crons c1 = project_crons c /\
  (exists e, poll_state c1 = <[P_MaterialID p := {| LastPolledAt := now; LastHeadSHA := head_after p; LastPollError := e |}]> (poll_state c)) /\
  exists new, runs (db c1) = runs (db c) ++ (Some <$> new) /\
    (if bool_decide (new_head p <> None) then exists r, new = [r] /\ head_run_of now p r else new = []).
Proof.
  intros [Hl Hp] c1.
  assert (forall sha e, new_head p = None -> sha = P_LastHeadSHA p ->
    c1 = (RecordPollOutcome c (P_MaterialID p) now sha e Answered).2 ->
    tables (db c1) = tables (db c) /\ cron_state c1 = cron_state c /\ project_crons c1 = project_crons c /\
    (exists e, poll_state c1 = <[P_MaterialID p := {| LastPolledAt := now; LastHeadSHA := head_after p; LastPollError := e |}]> (poll_state c)) /\
    exists new, runs (db c1) = runs (db c) ++ (Some <$> new) /\
      (if bool_decide (new_head p <> None) then exists r, new = [r] /\ head_run_of now p r else new = [])) as Hquiet.
  { intros sha e Hn -> ->. do 3 (split; [done|]). split; [exists e; unfold head_after; by rewrite Hn|].
    exists []. rewrite app_nil_r. split; [done|]. by rewrite Hn, bool_decide_eq_false_2 by (intros Hb; by apply Hb). }
  subst c1. revert Hquiet. unfold pollOne, new_head, head_after, new_head, head_run_of, new_head.
  destruct (materialToSCM p) as [[scm branch]|] eqn:Hscm; [|intros Hquiet; by eapply Hquiet]. cbn [mbind option_bind].
  destruct (HeadSHA scm branch) as [sha|e] eqn:Hh; [|intros Hquiet; by eapply Hquiet].
  destruct (decide (sha = "")) as [->|Hs].
  { rewrite decide_True by (by left). intros Hquiet. by eapply Hquiet. }
  destruct (decide (sha = P_LastHeadSHA p)) as [Heq|Hm].
  { rewrite decide_True by (by right). intros Hquiet. by eapply Hquiet. }
  intros _. rewrite decide_False by naive_solver. cbn [on_insert on_create on_record all_well].
  match goal with |- context [InsertModification ?w ?m Answered] => destruct (InsertModification_answered w m Hl) as (mod_ & w' & -> & Ht & Hr) end.
  rewrite CreateRun_answered by (by rewrite (pipeline_row_tables (db c) w')). cbn [RecordPollOutcome snd db with_db add_run tables runs poll_state cron_state project_crons].
  do 3 (split; [done|]). split; [by eexists|]. rewrite Hr. eexists [_]. split; [done|].
  rewrite bool_decide_eq_true_2 by done. eexists. split; [done|]. do 4 eexists. by split.
Qed.

Definition poll_rows (c : Clock) (now : Z) (rows : list PollableGitMaterial) : Clock :=
  foldl (fun c p => if IsDue p now then (pollOne HeadSHA c p now all_well).2 else c) c rows.

(** The rows of a tick: a run for each that is due and sees a new HEAD, in order; the
    HEADs of those that are due are recorded, the others keep theirs. *)
Lemma poll_rows_exact c now rows :
  NoDup (P_MaterialID <$> rows) -> Forall (pollable (db c)) rows ->
  let c1 := poll_rows c now rows in
  tables (db c1) = tables (db c) /\
  (exists new, runs (db c1) = runs (db c) ++ (Some <$> new) /\
     Forall2 (head_run_of now) (filter (fun p => polls_new now p = true) rows) new) /\
  (forall p, p ∈ rows -> IsDue p now = true -> exists e, poll_state c1 !! P_MaterialID p = Some {| LastPolledAt := now; LastHeadSHA := head_after p; LastPollError := e |}) /\
  (forall m, m ∉ P_MaterialID <$> filter (fun p => IsDue p now = true) rows -> poll_state c1 !! m = poll_state c !! m).
Proof.
  unfold poll_rows. revert c. induction rows as [|p rows IH]; intros c Hnd Hall; cbn [foldl].
  { split; [done|]. split; [|split; [set_solver|done]]. exists []. rewrite app_nil_r. by split; [|constructor]. }
  rewrite fmap_cons in Hnd. apply NoDup_cons in Hnd as [Hnot Hnd]. apply Forall_cons in Hall as [Hp Hall].
  destruct (IsDue p now) eqn:Hdue.
  - pose proof (pollOne_exact c p now Hp) as (Ht & _ & _ & [e He] & new1 & Hr & Hnew).
    destruct (IH (pollOne HeadSHA c p now all_well).2 Hnd) as (Ht' & (new & Hr' & Hf) & Hst & Hoth).
    { eapply Forall_impl; [exact Hall|]. intros q. by apply pollable_tables. }
    split; [congruence|]. split; [|split].
    + exists (new1 ++ new). rewrite Hr', Hr, fmap_app, app_assoc. split; [done|].
      assert (polls_new now p = bool_decide (new_head p <> None)) as Hpn by (unfold polls_new; by rewrite Hdue).
      case_bool_decide as Hn.
      * rewrite filter_cons_True by done. destruct Hnew as (r & -> & Hh). simpl. by constructor.
      * rewrite filter_cons_False by congruence. by subst new1.
    + intros q [->|Hq]%elem_of_cons Hd; [|by apply Hst]. exists e. rewrite Hoth, He, lookup_insert_eq; [done|].
      intros Hin. apply Hnot. apply list_elem_of_fmap in Hin as (q & Heq & [_ Hq]%list_elem_of_filter). apply list_elem_of_fmap. eauto.
    + intros m. rewrite filter_cons, decide_True by done. rewrite fmap_cons. intros [Hne Hm]%not_elem_of_cons.
      rewrite Hoth by done. by rewrite He, lookup_insert_ne.
  - destruct (IH c Hnd Hall) as (Ht' & (new & Hr' & Hf) & Hst & Hoth). split; [done|]. split; [|split].
    + exists new. split; [done|]. rewrite filter_cons_False; [done|]. unfold polls_new. by rewrite Hdue.
    + intros q [->|Hq]%elem_of_cons Hd; [congruence|by apply Hst].
    + intros m. rewrite filter_cons, decide_False by congruence. apply Hoth.
Qed.

Lemma ListPollable_rows c rows :
  ListPollableGitMaterials c = Ok rows ->
  Forall2 (fun m p => pollable_row c m = Ok p) (filter (fun m => Material_Kind m = MaterialGit) (materials (tables (db c)))) rows.
Proof. apply map_all_Ok. Qed.
Lemma pollable_row_ids c m p : pollable_row c m = Ok p -> P_MaterialID p = Material_ID m /\ P_PipelineID p = Material_PipelineID m /\ P_State p = poll_state c !! Material_ID m.
Proof. unfold pollable_row. destruct (Material_Config m); [|done]. by intros [= <-]. Qed.
Lemma pollable_row_same c c1 m p p1 :
  tables (db c1) = tables (db c) -> pollable_row c m = Ok p -> pollable_row c1 m = Ok p1 ->
  p1 = {| P_MaterialID := P_MaterialID p; P_PipelineID := P_PipelineID p; P_ProjectID := P_ProjectID p; P_URL := P_URL p;
          P_Branch := P_Branch p; P_MaterialPollInterval := P_MaterialPollInterval p; P_State := poll_state c1 !! P_MaterialID p; P_SCM := P_SCM p |}.
Proof.
  intros Ht. unfold pollable_row. destruct (Material_Config m); [|done]. rewrite (pipeline_row_tables (db c) (db c1)), Ht by done. by intros [= <-] [= <-].
Qed.

(** The tables the poller needs: identifiers are unique and every material has its
    pipeline. *)
Record sound_tables (w : World) : Prop := {
  st_unique : NoDup (Material_ID <$> materials (tables w));
  st_pipelines : forall m, m ∈ materials (tables w) -> is_Some (pipeline_row w (Material_PipelineID m));
}.
Lemma rows_pollable c rows :
  sound_tables (db c) -> ListPollableGitMaterials c = Ok rows -> NoDup (P_MaterialID <$> rows) /\ Forall (pollable (db c)) rows.
Proof.
  intros [Hu Hp] Hl%ListPollable_rows. split.
  - assert (P_MaterialID <$> rows = Material_ID <$> filter (fun m => Material_Kind m = MaterialGit) (materials (tables (db c)))) as ->.
    { induction Hl as [|m p l rows' Hmp _ IH]; [done|]. rewrite !fmap_cons, IH. f_equal. by apply pollable_row_ids in Hmp as (-> & _). }
    eapply sublist_NoDup; [exact Hu|]. apply fmap_sublist, sublist_filter.
  - apply Forall_forall. intros p Hin. apply list_elem_of_lookup in Hin as [i Hi].
    destruct (Forall2_lookup_r _ _ _ _ _ Hl Hi) as (m & Hm & Hmp). apply list_elem_of_lookup_2, list_elem_of_filter in Hm as [_ Hm].
    apply pollable_row_ids in Hmp as (He & Hpi & _). split; rewrite ?He, ?Hpi; [|by apply Hp].
    unfold live. apply bool_decide_eq_true, list_elem_of_fmap. eauto.
Qed.

Lemma new_head_settled p st :
  LastHeadSHA st = head_after p ->
  new_head {| P_MaterialID := P_MaterialID p; P_PipelineID := P_PipelineID p; P_ProjectID := P_ProjectID p; P_URL := P_URL p;
    P_Branch := P_Branch p; P_MaterialPollInterval := P_MaterialPollInterval p; P_State := Some st; P_SCM := P_SCM p |} = None.
Proof.
  unfold head_after, new_head. intros Hst. change (materialToSCM {| P_MaterialID := _ |}) with (materialToSCM p).
  destruct (materialToSCM p) as [[scm branch]|]; [|done]. cbn [mbind option_bind] in *. destruct (HeadSHA scm branch) as [sha|]; [|done].
  apply decide_True. change (sha = "" \/ sha = LastHeadSHA st). rewrite Hst.
  destruct (decide (sha = "" \/ sha = P_LastHeadSHA p)) as [Hd|Hd]; [done|by right].
Qed.

(** A tick of the poller starts one run for each git material that is due and whose
    branch has a new HEAD, in the order of the list and of that HEAD, and no other; and
    while the HEADs stay, no later tick starts a run of a material that was due in it. *)
Theorem polls_exact c now rows :
  sound_tables (db c) -> ListPollableGitMaterials c = Ok rows ->
  let c1 := evaluate_polls HeadSHA c now (fun _ => all_well) in
  tables (db c1) = tables (db c) /\
  (exists new, runs (db c1) = runs (db c) ++ (Some <$> new) /\
     Forall2 (head_run_of now) (filter (fun p => polls_new now p = true) rows) new) /\
  (forall rows1 p1 now1, ListPollableGitMaterials c1 = Ok rows1 -> p1 ∈ rows1 -> polls_new now1 p1 = true ->
     exists p, p ∈ rows /\ P_MaterialID p = P_MaterialID p1 /\ IsDue p now = false).
Proof.
  intros Hs Hl c1. destruct (rows_pollable c rows Hs Hl) as [Hnd Hall].
  pose proof (poll_rows_exact c now rows Hnd Hall) as (Ht & Hnew & Hst & _).
  assert (c1 = poll_rows c now rows) as Hc1 by (unfold c1, evaluate_polls; by rewrite Hl). rewrite <- Hc1 in *.
  split; [done|]. split; [done|]. intros rows1 p1 now1 Hl1 Hin Hp1.
  apply ListPollable_rows in Hl, Hl1. rewrite Ht in Hl1. apply list_elem_of_lookup in Hin as [i Hi].
  destruct (Forall2_lookup_r _ _ _ _ _ Hl1 Hi) as (m & Hm & Hmp1). destruct (Forall2_lookup_l _ _ _ _ _ Hl Hm) as (p & Hp & Hmp).
  pose proof (pollable_row_same _ _ _ _ _ Ht Hmp Hmp1) as ->. apply list_elem_of_lookup_2 in Hp. exists p. do 2 (split; [done|]).
  destruct (IsDue p now) eqn:Hdue; [|done]. exfalso. destruct (Hst p Hp Hdue) as [e He].
  apply andb_true_iff in Hp1 as [_ Hn%bool_decide_eq_true]. apply Hn. rewrite He. by apply new_head_settled.
Qed.

(** The repository polled is the project's, whichever repository, events or paths the
    material declares. *)
Lemma poll_ignores_material c p url now x :
  pollOne HeadSHA c p now x =
  pollOne HeadSHA c {| P_MaterialID := P_MaterialID p; P_PipelineID := P_PipelineID p; P_ProjectID := P_ProjectID p; P_URL := url;
    P_Branch := P_Branch p; P_MaterialPollInterval := P_MaterialPollInterval p; P_State := P_State p; P_SCM := P_SCM p |} now x.
Proof. reflexivity. Qed.
End Poll.

(** ** Cron *)

(** The tick replayed after a mark that was not recorded starts its run again, within
    the same second as after it. *)
Lemma cron_refires Format c r now x :
  live (db c) (C_MaterialID r) = true -> is_Some (pipeline_row (db c) (C_PipelineID r)) ->
  on_insert x = Answered -> on_create x = Answered -> on_record x = Refused ->
  let revision := "cron:" +:+ itoa (Unix now) in
  let c1 := (fire Format c r now x).2 in
  cron_state c1 = cron_state c /\
  runs_at (db (fire Format c1 r now x).2) (C_MaterialID r) revision "cron" = 2 + runs_at (db c) (C_MaterialID r) revision "cron".
Proof.
  intros Hl Hp Hi Hc Hx revision.
  assert (forall c0, tables (db c0) = tables (db c) -> exists w run, fire Format c0 r now x = (Ok tt, with_db c0 (add_run w run)) /\
            tables w = tables (db c) /\ runs w = runs (db c0) /\
            Run_MaterialID run = C_MaterialID r /\ Run_Revision run = revision /\ Run_Branch run = "cron") as Hfire.
  { intros c0 Ht. unfold fire. fold revision. rewrite Hi, Hc, Hx. unfold live in Hl. rewrite <- Ht in Hl.
    match goal with |- context [InsertModification ?w ?m Answered] => destruct (InsertModification_answered w m Hl) as (mod_ & w' & -> & Ht' & Hr) end.
    rewrite CreateRun_answered by (by rewrite (pipeline_row_tables (db c) w') by congruence). simpl.
    eexists w', _. split; [reflexivity|]. split; [congruence|]. done. }
  destruct (Hfire c eq_refl) as (w & run & -> & Ht & Hr & H1 & H2 & H3). cbn [snd]. split; [done|].
  destruct (Hfire (with_db c (add_run w run)) Ht) as (w' & run' & -> & Ht' & Hr' & H1' & H2' & H3'). cbn [snd with_db db].
  rewrite runs_at_add by done. rewrite (runs_at_runs w' (add_run w run)) by done. rewrite runs_at_add by done.
  by rewrite (runs_at_runs w (db c)).
Qed.

(** ** Schedules and manual triggers *)

Lemma imap_snoc {A B} (f : nat -> A -> B) l x : imap f (l ++ [x]) = imap f l ++ [f (length l) x].
Proof. rewrite imap_app. simpl. by rewrite Nat.add_0_r. Qed.

(** The newest modification of a pipeline is the one just inserted. *)
Lemma latest_inserted w p mod_ :
  Mod_MaterialID mod_ ∈ Material_ID <$> of_pipeline w p ->
  GetLatestModificationForPipeline (add_modification w mod_) p = Some (length (modifications w), mod_).
Proof.
  intros Hin. unfold GetLatestModificationForPipeline, enumerate. cbn [add_modification modifications].
  rewrite imap_snoc, omap_app. cbn [omap list_omap mbind option_bind]. rewrite decide_True by exact Hin. apply last_snoc.
Qed.

(** A fan-out that created its modification left it last, whatever became of the run. *)
Lemma fanOut_created in_ ins cr w m oc w1 :
  fanOutMaterial in_ ins cr w m = (oc, w1) -> ModCreated oc = true ->
  tables w1 = tables w /\ modifications w1 = modifications (add_modification w (modification_of in_ m)).
Proof.
  unfold fanOutMaterial. destruct (insert_call in_ m w (ins (Material_ID m))) as [[[id b]|e] wi] eqn:Hi; [|by intros [= <- <-]].
  apply InsertModification_spec in Hi as (Ht & Hr & _ & Hnew). destruct b; cbn [negb Created ModID]; [|by intros [= <- <-]].
  destruct (Hnew id eq_refl) as (_ & -> & _).
  destruct (create_call in_ m id _ (cr (Material_ID m))) as [res wc] eqn:Hc.
  apply CreateRunFromModification_spec in Hc as [-> | ->]; by destruct res; intros [= <- <-].
Qed.

Section Trigger.
Variable LatestUpstreamRun : World -> N -> option (N * string * string).

Lemma TriggerManualRun_latest w p by_ cause id mod_ :
  CountUpstreamMaterials w p <> 1 -> is_Some (pipeline_row w p) ->
  GetLatestModificationForPipeline w p = Some (id, mod_) -> cause <> "" ->
  exists run, TriggerManualRun LatestUpstreamRun w p by_ cause true Answered = (Ok (length (runs w)), add_run w run) /\
    Run_MaterialID run = Mod_MaterialID mod_ /\ Run_Revision run = Mod_Revision mod_ /\
    Run_Branch run = default "" (Mod_Branch mod_) /\ Run_Cause run = cause /\ Run_FromHead run = false.
Proof.
  intros Hc Hp Hl Hcause. unfold TriggerManualRun. cbn [negb]. rewrite decide_False by exact Hc. rewrite Hl.
  unfold insert_skeleton. rewrite CreateRun_answered by done. eexists. split; [done|]. simpl. by rewrite decide_False.
Qed.

(** A schedule runs the newest modification of its pipeline, and a pull request leaves
    one: after a pull request - from a fork, to a branch of any name - the next firing
    starts a run of that head, on the definition and under the cause of the schedule. *)
Theorem schedule_runs_pull_request c c1 s in_ ins cr m oc now lists reads mark :
  m ∈ materials (tables (db c)) -> is_Some (pipeline_row (db c) (Material_PipelineID m)) ->
  CountUpstreamMaterials (db c) (Material_PipelineID m) <> 1 ->
  FO_Cause in_ = "pull_request" -> fanOutMaterial in_ ins cr (db c) m = (oc, db c1) -> ModCreated oc = true ->
  Cron_PipelineIDs s = [Material_PipelineID m] -> reads (Material_PipelineID m) = true ->
  exists run, runs (db (fire_project LatestUpstreamRun c1 s now lists reads (fun _ => Answered) mark)) = runs (db c1) ++ [Some run] /\
    Run_MaterialID run = Material_ID m /\ Run_Revision run = FO_Revision in_ /\ Run_Branch run = FO_Branch in_ /\
    Run_Cause run = "schedule" /\ Run_FromHead run = false.
Proof.
  intros Hm Hp Hc _ Hf Hcr Hpin Hreads. destruct (fanOut_created _ _ _ _ _ _ _ Hf Hcr) as [Ht Hmods].
  assert (GetLatestModificationForPipeline (db c1) (Material_PipelineID m) = Some (length (modifications (db c)), modification_of in_ m)) as Hl.
  { unfold GetLatestModificationForPipeline, of_pipeline. rewrite Hmods, Ht.
    apply (latest_inserted (db c)). simpl. apply list_elem_of_fmap. exists m. split; [done|].
    unfold of_pipeline. by apply list_elem_of_filter. }
  assert (CountUpstreamMaterials (db c1) (Material_PipelineID m) <> 1) as Hc1.
  { unfold CountUpstreamMaterials, of_pipeline in *. by rewrite Ht. }
  assert (is_Some (pipeline_row (db c1) (Material_PipelineID m))) as Hp1 by (by rewrite (pipeline_row_tables (db c))).
  destruct (TriggerManualRun_latest _ _ ("cron:" +:+ Cron_Name s) "schedule" _ _ Hc1 Hp1 Hl) as (run & Hrun & H1 & H2 & H3 & H4 & H5); [done|].
  unfold fire_project. rewrite Hpin. cbn [foldl]. rewrite bool_decide_eq_false_2 by done. rewrite decide_False by done.
  cbn [andb foldl]. rewrite Hreads, Hrun. cbn [snd].
  assert (forall c' a b r, db (MarkProjectCronFired c' a b r) = db c') as -> by (by intros ? ? ? []).
  exists run. split; [done|]. split; [done|]. split; [done|]. split; [|done].
  rewrite H3. simpl. unfold nullableString. by case_decide.
Qed.
End Trigger.

(** ** Witnesses *)

Definition answered : Replies := {| on_insert := Answered; on_create := Answered; on_record := Answered |}.
Definition unrecorded : Replies := {| on_insert := Answered; on_create := Answered; on_record := Refused |}.
Definition sample_source : SCMSource := {|
  Source_ID := 1; Source_ProjectID := 1; Source_Provider := "github"; Source_URL := "github.com/acme/shop";
  Source_DefaultBranch := "main"; Source_AuthRef := ""; Source_PollInterval := 60000000000; Source_WebhookSecret := Some "s3cret" |}.
(** The clock after the push of [twice] was delivered. *)
Definition sample_clock : Clock := {| db := world twice; poll_state := ∅; cron_state := ∅; project_crons := [] |}.
Definition sample_row : PollableGitMaterial := {|
  P_MaterialID := 7; P_PipelineID := 3; P_ProjectID := 1; P_URL := "https://github.com/acme/shop"; P_Branch := "main";
  P_MaterialPollInterval := 0; P_State := None; P_SCM := Some sample_source |}.

(** The push of [sample_push] had its run from the delivery; the poller adds two. *)
Lemma poll_repeats_run_witness :
  runs_at (world twice) 7 "abc" "main" = 1 /\
  let '(_, c1) := pollOne (fun _ _ => Ok "abc") sample_clock sample_row 100 unrecorded in
  let '(_, c2) := pollOne (fun _ _ => Ok "abc") c1 sample_row 200 unrecorded in
  runs_at (db c2) 7 "abc" "main" = 3.
Proof.
  assert (advanced (fun _ _ => Ok "abc") sample_clock sample_row sample_source "main" "abc") as Ha.
  { split; done. }
  pose proof (poll_repeats_run (fun _ _ => Ok "abc") sample_clock sample_row 100 200 unrecorded _ _ _ Ha eq_refl eq_refl eq_refl) as H.
  assert (runs_at (world twice) 7 "abc" "main" = 1) as H1 by (vm_compute; reflexivity).
  split; [exact H1|].
  destruct (pollOne _ sample_clock sample_row 100 unrecorded) as [r1 c1].
  destruct (pollOne _ c1 sample_row 200 unrecorded) as [r2 c2].
  destruct H as (_ & _ & _ & H). cbn [P_MaterialID sample_row db sample_clock] in H. by rewrite H, H1.
Defined.

(** A pull request from the fork's branch main; then the nightly schedule. *)
Definition fork_pull_request : fanOutInput := {|
  FO_Revision := "f0rk"; FO_Branch := "main"; FO_Author := "mallory"; FO_Message := "please merge"; FO_CommittedAt := None;
  FO_Payload := "{}"; FO_Provider := "github"; FO_Delivery := "d2"; FO_Cause := "pull_request" |}.
Definition nightly : ProjectCron := {|
  Cron_ID := 5; Cron_ProjectID := 1; Cron_Name := "nightly"; Cron_Schedule := "0 3 * * *"; Cron_PipelineIDs := [3%N];
  Cron_Enabled := true; Cron_LastFiredAt := None |}.
Definition forked_clock : Clock :=
  with_db sample_clock (fanOutMaterial fork_pull_request all_answered all_answered (world twice) sample_material).2.
Lemma schedule_runs_pull_request_witness :
  exists run, last (runs (db (fire_project (fun _ _ => None) forked_clock nightly 0 true (fun _ => true) (fun _ => Answered) Answered))) = Some (Some run) /\
    Run_Revision run = "f0rk" /\ Run_Branch run = "main" /\ Run_Cause run = "schedule".
Proof.
  destruct (schedule_runs_pull_request (fun _ _ => None) sample_clock forked_clock nightly fork_pull_request all_answered all_answered sample_material
    (fanOutMaterial fork_pull_request all_answered all_answered (world twice) sample_material).1 0 true (fun _ => true) Answered)
    as (run & Hr & _ & H2 & H3 & H4 & _); [..|exists run; by rewrite Hr, last_snoc]; try done.
  apply list_elem_of_here.
Defined.

(** A material polled every minute, its branch at a commit nobody delivered. *)
Definition polled_material : MaterialRow := {|
  Material_ID := 7; Material_PipelineID := 3; Material_Kind := MaterialGit;
  Material_Config := Some {| Git_URL := "https://github.com/acme/shop"; Git_Branch := "main"; Git_Events := []; Git_AutoRegisterWebhook := false;
                             Git_SecretRef := ""; Git_Paths := []; Git_PollInterval := 0%Z |};
  Material_Fingerprint := "f" |}.
Definition polled_clock : Clock := {|
  db := {| tables := {| scm_sources := [sample_source]; projects := [{| Project_ID := 1; TrustSameRepoPRConfig := false; ConfigPath := "" |}];
                        pipelines := [{| PipelineRow_ID := 3; PipelineRow_Name := "ci"; SystemManaged := false; PipelineRow_ProjectID := 1 |}];
                        materials := [polled_material]; governed := ∅ |};
           modifications := []; runs := [] |};
  poll_state := ∅; cron_state := ∅; project_crons := [] |}.
Lemma polls_exact_witness :
  exists run, runs (db (evaluate_polls (fun _ _ => Ok "abc") polled_clock 100 (fun _ => all_well))) = [Some run] /\ Run_Revision run = "abc" /\
    polls_new (fun _ _ => Ok "abc") 100 sample_row = true.
Proof.
  assert (sound_tables (db polled_clock)) as Hs.
  { split; [apply NoDup_singleton|]. intros m ->%list_elem_of_singleton. by eexists. }
  destruct (polls_exact (fun _ _ => Ok "abc") polled_clock 100 [sample_row] Hs eq_refl) as (_ & (new & Hr & Hf) & _).
  apply Forall2_cons_inv_l in Hf as (run & rest & (scm & branch & sha & id & Hh & ->) & Hrest & ->). apply Forall2_nil_inv_l in Hrest as ->.
  vm_compute in Hh. injection Hh as <- <- <-. eexists. split; [exact Hr|]. split; vm_compute; reflexivity.
Defined.
