(* ===== verification/FanOut.v ===== *)
(** What a fan-out does: what it leaves alone, whatever is answered, and the runs it
    creates when every statement is. *)

From S2P Require Import Prelude GoStrings Domain Compliance Modifications Ledger.
Open Scope list_scope.

(** ** Frames *)

(** New rows only, at the end, each of a run that satisfies [P]. *)
Definition extends (P : RunRow -> Prop) (w w' : World) : Prop :=
  tables w' = tables w /\
  (exists new, runs w' = runs w ++ (Some <$> new) /\ Forall P new) /\
  exists more, modifications w' = modifications w ++ more.
Lemma extends_refl P w : extends P w w.
Proof.
  split; [done|]. split; [exists []|exists []]; rewrite ?app_nil_r; simpl; rewrite ?app_nil_r; [by split|done].
Qed.
Lemma extends_trans P w1 w2 w3 : extends P w1 w2 -> extends P w2 w3 -> extends P w1 w3.
Proof.
  intros (Ht & (n & Hn & HP) & m & Hm) (Ht' & (n' & Hn' & HP') & m' & Hm'). split; [congruence|]. split.
  - exists (n ++ n'). rewrite Hn', Hn, fmap_app, app_assoc. split; [done|]. by apply Forall_app.
  - exists (m ++ m'). by rewrite Hm', Hm, app_assoc.
Qed.
Lemma extends_impl (P Q : RunRow -> Prop) w w' : (forall r, P r -> Q r) -> extends P w w' -> extends Q w w'.
Proof. intros HPQ (Ht & (n & Hn & HP) & Hm). split; [done|]. split; [|done]. exists n. split; [done|]. by eapply Forall_impl. Qed.
Lemma extends_modification P w m : extends P w (add_modification w m).
Proof. split; [done|]. split; [exists []; simpl; by rewrite app_nil_r|by eexists]. Qed.
Lemma extends_run (P : RunRow -> Prop) w r : P r -> extends P w (add_run w r).
Proof. intros HP. split; [done|]. split; [exists [r]; split; [done|by constructor]|exists []; by rewrite app_nil_r]. Qed.

Lemma InsertModification_extends P w m r res w' : InsertModification w m r = (res, w') -> extends P w w'.
Proof. unfold InsertModification. intros H. repeat case_match; simplify_eq; eauto using extends_refl, extends_modification. Qed.
Lemma CreateRun_extends (P : RunRow -> Prop) w run r res w' : P run -> CreateRunFromModification w run r = (res, w') -> extends P w w'.
Proof. unfold CreateRunFromModification. intros HP H. repeat case_match; simplify_eq; eauto using extends_refl, extends_run. Qed.

(** A run of this fan-out for one of these materials. *)
Definition run_for (in_ : fanOutInput) (l : list MaterialRow) (r : RunRow) : Prop :=
  exists m id, m ∈ l /\ r = run_of in_ m id.

Lemma fanOutMaterial_extends in_ ins cr w m l oc w' :
  m ∈ l -> fanOutMaterial in_ ins cr w m = (oc, w') -> extends (run_for in_ l) w w'.
Proof.
  intros Hm. unfold fanOutMaterial. destruct (insert_call in_ m w (ins (Material_ID m))) as [res w1] eqn:Hi.
  apply (InsertModification_extends (run_for in_ l)) in Hi. destruct res as [mod_|e]; [|by intros [= <- <-]].
  destruct (Created mod_); cbn [negb]; [|by intros [= <- <-]].
  destruct (create_call in_ m (ModID mod_) w1 (cr (Material_ID m))) as [res w2] eqn:Hc.
  apply (CreateRun_extends (run_for in_ l)) in Hc; [|by eexists _, _].
  destruct res; intros [= <- <-]; by eapply extends_trans.
Qed.
Lemma fanOutMaterials_extends in_ ins cr w l ocs w' :
  fanOutMaterials in_ ins cr w l = (ocs, w') -> extends (run_for in_ l) w w'.
Proof.
  revert w ocs. induction l as [|m l IH]; intros w ocs; cbn [fanOutMaterials]; [intros [= <- <-]; apply extends_refl|].
  destruct (fanOutMaterial in_ ins cr w m) as [oc w1] eqn:Hm. destruct (fanOutMaterials in_ ins cr w1 l) as [ocs1 w2] eqn:Hl.
  intros [= <- <-]. eapply extends_trans.
  - eapply fanOutMaterial_extends; [|done]. apply list_elem_of_here.
  - eapply extends_impl; [|by eapply IH]. intros r (m' & id & Hm' & ->). exists m', id. split; [by apply list_elem_of_further|done].
Qed.

(** ** When every statement is answered *)

Lemma conflicts_other in_ m m' : Material_ID m <> Material_ID m' -> conflicts (modification_of in_ m) (modification_of in_ m') = false.
Proof. intros Hne. unfold conflicts. apply bool_decide_eq_false. simpl. naive_solver. Qed.

Definition fresh (w : World) (in_ : fanOutInput) (m : MaterialRow) : bool := bool_decide (existing w (modification_of in_ m) = None).

Lemma existing_app w more m :
  (forall o, o ∈ more -> (if o is Some n then conflicts m n else false) = false) ->
  existing {| tables := tables w; modifications := modifications w ++ more; runs := runs w |} m = None <-> existing w m = None.
Proof.
  intros Hmore. unfold existing. rewrite !fmap_None, !list_find_None. simpl. rewrite Forall_app. split; [by intros []|].
  intros H. split; [done|]. apply Forall_forall. intros o Ho Hc. by rewrite Hmore in Hc.
Qed.
Lemma existing_modifications w w' m : modifications w = modifications w' -> existing w m = existing w' m.
Proof. unfold existing. by intros ->. Qed.

Lemma fresh_after in_ w w' m m' :
  Material_ID m' <> Material_ID m -> modifications w' = modifications w ++ [Some (modification_of in_ m')] ->
  fresh w' in_ m = fresh w in_ m.
Proof.
  intros Hne Hm. unfold fresh. apply bool_decide_ext.
  rewrite (existing_modifications w' {| tables := tables w; modifications := modifications w ++ [Some (modification_of in_ m')]; runs := runs w |}) by done.
  apply existing_app. intros o ->%list_elem_of_singleton. by apply conflicts_other.
Qed.

Lemma filter_agree {A} (f g : A -> bool) (l : list A) :
  (forall x, x ∈ l -> f x = g x) -> filter (fun x => f x = true) l = filter (fun x => g x = true) l.
Proof.
  induction l as [|x l IH]; intros H; [done|]. rewrite !filter_cons, (H x) by apply list_elem_of_here.
  rewrite IH by (intros; by apply H, list_elem_of_further). done.
Qed.

(** Materials a trigger may fire: present, each once, each of a pipeline. *)
Record fireable (w : World) (l : list MaterialRow) : Prop := {
  fi_nodup : NoDup (Material_ID <$> l);
  fi_live : forall m, m ∈ l -> live w (Material_ID m) = true /\ is_Some (pipeline_row w (Material_PipelineID m));
}.
Lemma fireable_tables w w' l : tables w' = tables w -> fireable w l -> fireable w' l.
Proof. intros Ht [Hnd Hl]. split; [done|]. unfold live, pipeline_row in *. by rewrite Ht. Qed.
Lemma fireable_filter w l (P : MaterialRow -> Prop) `{forall m, Decision (P m)} : fireable w l -> fireable w (filter P l).
Proof.
  intros [Hnd Hl]. split.
  - apply (sublist_NoDup _ (Material_ID <$> l)); [done|]. apply fmap_sublist, sublist_filter.
  - intros m [_ Hm]%list_elem_of_filter. auto.
Qed.

Lemma fanOutMaterial_answered in_ ins cr w m :
  ins (Material_ID m) = Answered -> cr (Material_ID m) = Answered ->
  live w (Material_ID m) = true -> is_Some (pipeline_row w (Material_PipelineID m)) ->
  if fresh w in_ m then
    fanOutMaterial in_ ins cr w m =
      ({| Out_PipelineID := Material_PipelineID m; Out_MaterialID := Material_ID m; ModificationID := length (modifications w);
          ModCreated := true; RunID := Some (length (runs w)); Out_Err := None |},
       add_run (add_modification w (modification_of in_ m)) (run_of in_ m (length (modifications w))))
  else exists id, fanOutMaterial in_ ins cr w m =
      ({| Out_PipelineID := Material_PipelineID m; Out_MaterialID := Material_ID m; ModificationID := id;
          ModCreated := false; RunID := None; Out_Err := None |}, w).
Proof.
  intros Hi Hc Hl [pl Hp]. unfold fresh, fanOutMaterial, insert_call, InsertModification, create_call, CreateRunFromModification.
  rewrite Hi, Hc. cbn [modification_of Mod_MaterialID]. rewrite Hl. cbn [negb].
  destruct (existing w (modification_of in_ m)) as [id|]; case_bool_decide; try done; cbn [negb Created ModID]; [by exists id|].
  unfold pipeline_row in *. cbn [run_of Run_PipelineID add_modification tables runs]. by rewrite Hp.
Qed.

(** The runs of the materials new to the ledger, in order, and nothing else. *)
Definition fires (in_ : fanOutInput) (w w' : World) (l : list MaterialRow) (ocs : list fanOutOutcome) : Prop :=
  tables w' = tables w /\
  modifications w' = modifications w ++ ((fun m => Some (modification_of in_ m)) <$> filter (fun m => fresh w in_ m = true) l) /\
  (exists new, runs w' = runs w ++ (Some <$> new) /\
    Forall2 (fun m r => exists id, r = run_of in_ m id) (filter (fun m => fresh w in_ m = true) l) new) /\
  Forall (fun oc => Out_Err oc = None) ocs /\
  (runsPayload ocs).*1 = (fun m => (Material_PipelineID m, Material_ID m)) <$> filter (fun m => fresh w in_ m = true) l.

Lemma fanOutMaterials_answered in_ ins cr w l ocs w' :
  (forall id, ins id = Answered) -> (forall id, cr id = Answered) -> fireable w l ->
  fanOutMaterials in_ ins cr w l = (ocs, w') -> fires in_ w w' l ocs.
Proof.
  intros Hi Hc. revert w ocs. induction l as [|m l IH]; intros w ocs Hf; cbn [fanOutMaterials].
  { intros [= <- <-]. split; [done|]. split; [by rewrite app_nil_r|]. split; [|by split].
    exists []. split; [by rewrite app_nil_r|constructor]. }
  assert (fireable w l) as Hf'.
  { destruct Hf as [Hnd Hl]. rewrite fmap_cons in Hnd. apply NoDup_cons in Hnd as [_ Hnd]. split; [done|].
    intros m' Hm'. by apply Hl, list_elem_of_further. }
  destruct Hf as [Hnd Hl]. rewrite fmap_cons in Hnd. apply NoDup_cons in Hnd as [Hnot Hnd].
  destruct (Hl m (list_elem_of_here _ _)) as [Hlive Hpipe].
  pose proof (fanOutMaterial_answered in_ ins cr w m (Hi _) (Hc _) Hlive Hpipe) as Hone.
  destruct (fresh w in_ m) eqn:Hfresh.
  - rewrite Hone. set (w1 := add_run _ _). destruct (fanOutMaterials in_ ins cr w1 l) as [ocs1 w2] eqn:Hrest. intros [= <- <-].
    assert (filter (fun m => fresh w1 in_ m = true) l = filter (fun m => fresh w in_ m = true) l) as Hfil.
    { apply filter_agree. intros m' Hm'. rewrite (fresh_after in_ w w1 m' m); [done| |done].
      intros Heq. apply Hnot. rewrite Heq. by apply list_elem_of_fmap_2. }
    apply IH in Hrest as (Ht & Hm & (new & Hr & HF) & He & Hp); [|by apply (fireable_tables w)]. rewrite Hfil in Hm, HF, Hp.
    unfold fires. rewrite filter_cons_True by done. split; [by rewrite Ht|]. split; [|split; [|split]].
    + rewrite Hm. simpl. by rewrite <- app_assoc.
    + exists (run_of in_ m (length (modifications w)) :: new). split; [rewrite Hr; simpl; by rewrite <- app_assoc|]. constructor; [eauto|done].
    + by constructor.
    + simpl. f_equal. exact Hp.
  - destruct Hone as [id ->]. destruct (fanOutMaterials in_ ins cr w l) as [ocs1 w2] eqn:Hrest. intros [= <- <-].
    apply IH in Hrest as (Ht & Hm & Hr & He & Hp); [|done]. unfold fires. rewrite filter_cons_False by (by rewrite Hfresh).
    split; [done|]. split; [done|]. split; [done|]. split; [by constructor|done].
Qed.

(** ** Pull request heads *)

(** A run of this head for this material, where the project trusts it. *)
Definition head_run (t : Tables) (project : N) (head : Pipeline) (m : MaterialRow) (r : RunRow) : Prop :=
  Run_FromHead r = true /\ Run_MaterialID r = Material_ID m /\
  exists pl p, pl ∈ pipelines t /\ p ∈ projects t /\
    Run_PipelineID r = PipelineRow_ID pl /\ PipelineRow_ProjectID pl = project /\ Project_ID p = project /\
    TrustSameRepoPRConfig p = true /\ SystemManaged pl = false /\ PipelineRow_Name pl = Pipeline_Name head.

Lemma CreatePRHeadRun_extends w project head in_ m r res w' :
  CreatePRHeadRun w project head in_ m r = (res, w') -> extends (head_run (tables w) project head m) w w'.
Proof.
  unfold CreatePRHeadRun. intros Hc.
  destruct (LockPRHeadRunContext w (Material_ID m)) as [[pl p]|] eqn:Hlock.
  2: { repeat case_match; simplify_eq; apply extends_refl. }
  assert (pl ∈ pipelines (tables w) /\ p ∈ projects (tables w) /\ Project_ID p = PipelineRow_ProjectID pl) as (Hpl & Hp & Hproj).
  { unfold LockPRHeadRunContext in Hlock. destruct (list_find _ (materials _)) as [[j m']|]; [|done]. cbn [mbind option_bind] in Hlock.
    unfold pipeline_row in Hlock. destruct (list_find _ (pipelines _)) as [[k pl']|] eqn:Hpl; [|done]. cbn [fmap option_fmap option_map snd mbind option_bind] in Hlock.
    destruct (list_find _ (projects _)) as [[q p']|] eqn:Hp; [|done]. simpl in Hlock. injection Hlock as <- <-.
    apply list_find_Some in Hpl as (Hpl & _ & _), Hp as (Hp & Hid & _). eauto using list_elem_of_lookup_2. }
  assert (forall run, Run_FromHead run = true -> Run_MaterialID run = Material_ID m -> Run_PipelineID run = PipelineRow_ID pl ->
            Project_ID p = project -> TrustSameRepoPRConfig p = true -> SystemManaged pl = false -> PipelineRow_Name pl = Pipeline_Name head ->
            extends (head_run (tables w) project head m) w (add_run (add_modification w (modification_of in_ m)) run)) as Hnew.
  { intros run H1 H2 H3 H4 H5 H6 H7. eapply extends_trans; [apply extends_modification|]. apply extends_run. split; [done|]. split; [done|].
    exists pl, p. split_and!; try done. by rewrite <- Hproj. }
  destruct (TrustSameRepoPRConfig p) eqn:Htr; destruct (SystemManaged pl) eqn:Hsys; cbn [negb] in Hc.
  all: repeat case_match; simplify_eq; try apply extends_refl.
  all: apply Hnew; try done.
  all: match goal with |- ?a = ?b => destruct (decide (b = a)) as [|]; [done|exfalso; naive_solver] end.
Qed.
