(* ===== verification/Webhook.v ===== *)
(** The webhook endpoint ([server/internal/webhook]): who may deliver, which materials
    an event fires, and the answer the provider sees.  A handler runs on the store of
    [Modifications]; [Ledger] interleaves the fan-outs.

    Parameters: the bodies' decoding ([GitHubHook] and its siblings), the glob library,
    the provider's API and - since [Governance] models it - the effect of re-applying a
    repository's configuration, any new tables at all. *)

From S2P Require Import GitHubHook GitLabHook BitbucketHook.
From S2P Require Import Prelude GoStrings Domain Compliance Modifications Ledger.
Open Scope list_scope.

Definition maxBodyBytes : Z := Z.shiftl 5 20.

Record Request := { Event : string; Delivery : string; Signature : string; Body : string }.
Inductive WebhookStatus := StatusAccepted | StatusIgnored | StatusRejected | StatusError | StatusSkipped.
(** What a handler answers and what it leaves in the audit row; [a_runs] are the runs the
    body lists: pipeline, material, run. *)
Record Answer := { a_http : Z; a_status : WebhookStatus; a_material : option N; a_runs : list (N * N * nat) }.
Definition answer (http : Z) (st : WebhookStatus) : Answer :=
  {| a_http := http; a_status := st; a_material := None; a_runs := [] |}.
Record DeliveryRow := {
  D_Provider : string; D_Event : string; D_MaterialID : option N; D_Status : WebhookStatus; D_HTTPStatus : Z;
}.
(** The calls that record a pull request's life, kept as a log. *)
Inductive LifecycleCall :=
| RecordPullRequestOpened (repo : string) (number : Z)
| RecordPullRequestMerged (repo : string) (number : Z) (sha : string)
| RecordPullRequestApproved (repo : string) (number : Z) (at_ : Z).
Record Site := { site : World; deliveries : list DeliveryRow; lifecycle : list LifecycleCall }.
Definition with_site (s : Site) (w : World) : Site := {| site := w; deliveries := deliveries s; lifecycle := lifecycle s |}.

(** Which of a delivery's statements are answered. *)
Record Weather := {
  ok_secret : bool; ok_drift : bool; ok_governed_source : bool; ok_governed : bool; ok_materials : bool;
  ok_pr_source : bool; ok_identities : bool; ok_bindings : bool; ok_lifecycle : bool; ok_audit : bool;
  r_insert : N -> Reply; r_create : N -> Reply; r_head : N -> Reply;
}.

(** ** [skipci.go], [eventfilter.go], [pathfilter.go] *)

Definition skipCIMarkers : list string := ["[skip ci]"; "[ci skip]"; "[no ci]"].
Definition skipCIMarker `{UnicodeCase} (message : string) : option string :=
  if decide (message = "") then None
  else snd <$> list_find (fun m => Contains (ToLower message) m = true) skipCIMarkers.

Definition listens (event : string) (m : MaterialRow) : bool :=
  match Material_Config m with
  | None => true
  | Some cfg => bool_decide (event ∈ (if decide (Git_Events cfg = []) then ["push"] else Git_Events cfg))
  end.
(** The materials kept, and how many were dropped. *)
Definition filterMaterialsByEvent (l : list MaterialRow) (event : string) : list MaterialRow * nat :=
  (filter (fun m => listens event m = true) l, length (filter (fun m => listens event m = false) l)).

Section Paths.
(** [doublestar.Match]; [None] is an error. *)
Variable Match : string -> string -> option bool.
Definition pathsMatch (globs files : list string) (known : bool) : bool :=
  if decide (globs = []) then true
  else if negb known then true
  else existsb (fun f => existsb (fun g => bool_decide (Match g f = Some true)) globs) files.
Definition touched (files : list string) (known : bool) (m : MaterialRow) : bool :=
  match Material_Config m with
  | None => true
  | Some cfg => pathsMatch (Git_Paths cfg) files known
  end.
Definition filterMaterialsByPaths (l : list MaterialRow) (files : list string) (known : bool) : list MaterialRow * nat :=
  (filter (fun m => touched files known m = true) l, length (filter (fun m => touched files known m = false) l)).
Definition anyMaterialHasPaths (l : list MaterialRow) : bool :=
  existsb (fun m => match Material_Config m with Some cfg => bool_decide (Git_Paths cfg <> []) | None => false end) l.
End Paths.

(** The filter of tags and pull requests: opted in, and the configuration decodes. *)
Definition opted_in (event : string) (m : MaterialRow) : bool :=
  match Material_Config m with Some cfg => bool_decide (event ∈ Git_Events cfg) | None => false end.

(** ** The store's lookups *)

Section Lookups.
Context `{UnicodeCase}.

Inductive scm_error := ErrSCMSourceNotFound | ErrAuthProviderCipherUnset | SCMStore.

Definition source_of (w : World) (url : string) : option SCMSource :=
  snd <$> list_find (fun s => Source_URL s = NormalizeGitURL url) (scm_sources (tables w)).
Definition FindSCMSourceByURL (w : World) (url : string) (ok : bool) : result scm_error SCMSource :=
  if negb ok then Err SCMStore
  else match source_of w url with None => Err ErrSCMSourceNotFound | Some s => Ok s end.
Definition FindSCMSourceWebhookSecret (cipher : bool) (w : World) (url : string) (ok : bool) : result scm_error string :=
  if negb cipher then Err ErrAuthProviderCipherUnset
  else if negb ok then Err SCMStore
  else match source_of w url with
       | None => Err ErrSCMSourceNotFound
       | Some s => match Source_WebhookSecret s with None => Err SCMStore | Some secret => Ok secret end
       end.
(** Rows come in the order of their pipelines, as the tables hold them. *)
Definition FindMaterialsByFingerprint (w : World) (fp : string) (ok : bool) : option (list MaterialRow) :=
  if negb ok then None else Some (filter (fun m => Material_Fingerprint m = fp) (materials (tables w))).
Definition same_url (url : string) (m : MaterialRow) : bool :=
  match Material_Config m with
  | Some cfg => bool_decide (NormalizeGitURL (Git_URL cfg) = NormalizeGitURL url)
  | None => false
  end.
Definition FindMaterialsByCloneURL (w : World) (url : string) (ok : bool) : option (list MaterialRow) :=
  if negb ok then None
  else Some (filter (fun m => Material_Kind m = MaterialGit /\ same_url url m = true) (materials (tables w))).
(** [FindPRHeadBindingsByURL]: every source of the URL with its project. *)
Definition bindings_of (w : World) (url : string) : list (SCMSource * ProjectRow) :=
  filter (fun s => Source_URL s = NormalizeGitURL url) (scm_sources (tables w)) ≫= fun s =>
  (fun p => (s, p)) <$> filter (fun p => Project_ID p = Source_ProjectID s) (projects (tables w)).
(** [ListMaterialPipelineIdentities], as the map by material the dispatch makes of it. *)
Definition identity_of (w : World) (m : MaterialRow) : option PipelineRow :=
  if live w (Material_ID m) then pipeline_row w (Material_PipelineID m) else None.

Definition driftLookup (w : World) (url : string) (ok : bool) : option SCMSource :=
  match FindSCMSourceByURL w url ok with Ok s => Some s | Err _ => None end.
Definition repoIsGoverned (w : World) (url : string) (x : Weather) : bool :=
  match driftLookup w url (ok_governed_source x) with
  | None => false
  | Some scm => if negb (ok_governed x) then true else bool_decide (Source_ProjectID scm ∈ governed (tables w))
  end.
(** The marker is honoured. *)
Definition skips (w : World) (url message : string) (x : Weather) : bool :=
  match skipCIMarker message with None => false | Some _ => negb (repoIsGoverned w url x) end.
End Lookups.

(** ** [drift.go] *)

Record DriftOutcome := { Attempted : bool; Applied : bool; DriftError : string; DriftRevision : string }.
Section Drift.
Context `{UnicodeCase}.
(** The fetcher is wired; the new tables of a fetch, parse and [ApplyProject]. *)
Variable fetcher : bool.
Variable apply_config : SCMSource -> string -> Tables -> result string Tables.

Definition applyDrift (w : World) (scm : SCMSource) (branch revision : string) : DriftOutcome * World :=
  let out a b e := {| Attempted := a; Applied := b; DriftError := e; DriftRevision := revision |} in
  if negb fetcher then (out false false "", w)
  else if decide (branch <> Source_DefaultBranch scm) then (out false false "", w)
  else match apply_config scm revision (tables w) with
       | Err e => (out true false e, w)
       | Ok t => (out true true "", reapply w t)
       end.
(** The outcome of a push: nothing where no source is registered. *)
Definition drift (w : World) (url branch revision : string) (x : Weather) : DriftOutcome * World :=
  match driftLookup w url (ok_drift x) with
  | Some scm => applyDrift w scm branch revision
  | None => ({| Attempted := false; Applied := false; DriftError := ""; DriftRevision := "" |}, w)
  end.
End Drift.

(** ** The end of a fan-out *)

(** Every outcome an error: 500, so that the provider retries. *)
Definition allErrored (l : list fanOutOutcome) : bool :=
  bool_decide (l <> []) && forallb (fun oc => bool_decide (Out_Err oc <> None)) l.
Definition fan_out_answer (l : list fanOutOutcome) : Answer :=
  if allErrored l then {| a_http := 500; a_status := StatusError; a_material := firstCreatedRunMaterialID l; a_runs := [] |}
  else {| a_http := 202; a_status := StatusAccepted; a_material := firstCreatedRunMaterialID l; a_runs := runsPayload l |}.
(** A push that fires nothing is accepted all the same when it synchronised. *)
Definition observed (d : DriftOutcome) (otherwise : Z) : Answer :=
  if Attempted d then answer 202 StatusAccepted else answer otherwise StatusIgnored.

(** [recordDelivery]. *)
Definition recordDelivery (provider event : string) (x : Weather) (r : Answer * Site) : Answer * Site :=
  let '(a, s) := r in
  (a, if ok_audit x then
        {| site := site s; lifecycle := lifecycle s;
           deliveries := deliveries s ++ [{| D_Provider := provider; D_Event := event; D_MaterialID := a_material a;
                                             D_Status := a_status a; D_HTTPStatus := a_http a |}] |}
      else s).

Section Handlers.
Context `{UnicodeCase} `{GitHubHook.GitHubJSON} `{GitLabHook.GitLabJSON} `{BitbucketHook.BitbucketJSON}.
(** [h.store]'s cipher, [h.fetcher], [h.prFiles]; a head configuration fetched, parsed
    and validated. *)
Variables cipher fetcher : bool.
Variable apply_config : SCMSource -> string -> Tables -> result string Tables.
Variable Match : string -> string -> option bool.
Variable prFiles : option (SCMSource -> Z -> list string * bool).
Variable head_pipelines : SCMSource -> string -> string -> result pr_head_error (list Pipeline).

(** [fanOutMaterials] under the weather. *)
Definition fan_out (in_ : fanOutInput) (x : Weather) (w : World) (l : list MaterialRow) : list fanOutOutcome * World :=
  fanOutMaterials in_ (r_insert x) (r_create x) w l.

(** ** Pushes *)

(** [multi.go], [normalizedPush] and [persistPush]. *)
Record normalizedPush := {
  NP_Provider : string; NP_Delivery : string; NP_CloneURL : string; NP_Branch : string; NP_After : string;
  NP_Body : string; NP_AuthorName : string; NP_CommitMsg : string; NP_CommittedAt : option Z;
  NP_ChangedFiles : list string; NP_FilesKnown : bool;
}.
Definition push_input (np : normalizedPush) : fanOutInput := {|
  FO_Revision := NP_After np; FO_Branch := NP_Branch np; FO_Author := NP_AuthorName np; FO_Message := NP_CommitMsg np;
  FO_CommittedAt := NP_CommittedAt np; FO_Payload := NP_Body np; FO_Provider := NP_Provider np;
  FO_Delivery := NP_Delivery np; FO_Cause := "" |}.

Definition persistPush (x : Weather) (w : World) (np : normalizedPush) : Answer * World :=
  let '(out, w) := drift fetcher apply_config w (NP_CloneURL np) (NP_Branch np) (NP_After np) x in
  if skips w (NP_CloneURL np) (NP_CommitMsg np) x then (answer 200 StatusSkipped, w)
  else match FindMaterialsByFingerprint w (GitFingerprint (NP_CloneURL np) (NP_Branch np)) (ok_materials x) with
  | None => (answer 500 StatusError, w)
  | Some found =>
      let '(eligible, eventFiltered) := filterMaterialsByEvent found "push" in
      if bool_decide (eligible = []) && (0 <? eventFiltered)%nat then (observed out 200, w)
      else
        let '(chosen, pathFiltered) := filterMaterialsByPaths Match eligible (NP_ChangedFiles np) (NP_FilesKnown np) in
        if bool_decide (chosen = []) && (0 <? pathFiltered)%nat then (answer 200 StatusIgnored, w)
        else if decide (chosen = []) then (observed out 204, w)
        else let '(outcomes, w) := fan_out (push_input np) x w chosen in (fan_out_answer outcomes, w)
  end.

(** [handler.go]: the rest of [HandleGitHub] for a branch push. *)
Definition github_branch_push (x : Weather) (w : World) (body delivery : string) (ev : GitHubHook.PushEvent) (c : GitHubHook.Commit) : Answer * World :=
  let url := GitHubHook.CloneURL (GitHubHook.Push_Repository ev) in
  let branch := GitHubHook.Branch ev in
  let '(out, w) := drift fetcher apply_config w url branch (GitHubHook.After ev) x in
  if skips w url (GitHubHook.Commit_Message c) x then (answer 200 StatusSkipped, w)
  else match FindMaterialsByFingerprint w (GitFingerprint url branch) (ok_materials x) with
  | None => (answer 500 StatusError, w)
  | Some [] => (observed out 204, w)
  | Some found =>
      let '(eligible, _) := filterMaterialsByEvent found "push" in
      if decide (eligible = []) then (observed out 200, w)
      else
        let '(files, known) := GitHubHook.ChangedFiles ev in
        let '(chosen, _) := filterMaterialsByPaths Match eligible files known in
        if decide (chosen = []) then (answer 200 StatusIgnored, w)
        else
          let '(outcomes, w) := fan_out {|
            FO_Revision := GitHubHook.After ev; FO_Branch := branch;
            FO_Author := GitHubHook.Author_Name (GitHubHook.Commit_Author c); FO_Message := GitHubHook.Commit_Message c;
            FO_CommittedAt := GitHubHook.Commit_Timestamp c; FO_Payload := body; FO_Provider := "github";
            FO_Delivery := delivery; FO_Cause := "" |} x w chosen in
          (fan_out_answer outcomes, w)
  end.

(** [tag_push.go]. *)
Definition handleTagPush (x : Weather) (w : World) (body delivery : string) (ev : GitHubHook.PushEvent) : Answer * World :=
  let url := GitHubHook.CloneURL (GitHubHook.Push_Repository ev) in
  let message := default "" (GitHubHook.Commit_Message <$> GitHubHook.HeadCommit ev) in
  if skips w url message x then (answer 200 StatusSkipped, w)
  else match FindMaterialsByCloneURL w url (ok_materials x) with
  | None => (answer 500 StatusError, w)
  | Some [] => (answer 204 StatusIgnored, w)
  | Some found =>
      let chosen := filter (fun m => opted_in "tag" m = true) found in
      if decide (chosen = []) then (answer 204 StatusIgnored, w)
      else
        let '(outcomes, w) := fan_out {|
          FO_Revision := GitHubHook.After ev; FO_Branch := GitHubHook.Tag ev;
          FO_Author := default "" ((fun c => GitHubHook.Author_Name (GitHubHook.Commit_Author c)) <$> GitHubHook.HeadCommit ev);
          FO_Message := message; FO_CommittedAt := GitHubHook.HeadCommit ev ≫= GitHubHook.Commit_Timestamp;
          FO_Payload := body; FO_Provider := "github"; FO_Delivery := delivery; FO_Cause := "tag" |} x w chosen in
        (fan_out_answer outcomes, w)
  end.

(** ** Pull requests *)

Record pullRequestEvent := {
  PE_Provider : string; PE_Number : Z; PE_Title : string; PE_Author : string; PE_HeadSHA : string;
  PE_HeadRef : string; PE_BaseRef : string; PE_CloneURL : string; PE_At : option Z; PE_SameRepo : bool;
}.
Definition pr_input (ev : pullRequestEvent) (delivery body : string) : fanOutInput := {|
  FO_Revision := PE_HeadSHA ev; FO_Branch := PE_HeadRef ev; FO_Author := PE_Author ev; FO_Message := PE_Title ev;
  FO_CommittedAt := PE_At ev; FO_Payload := body; FO_Provider := PE_Provider ev; FO_Delivery := delivery;
  FO_Cause := "pull_request" |}.

(** [pr_head_resolve.go]: every authorized pipeline has its head definition, or none. *)
Definition resolvePRHeadPlan (scm : SCMSource) (configPath headSHA : string) (authorized : list (MaterialRow * PipelineRow)) :
    result pr_head_error (list (MaterialRow * Pipeline)) :=
  if decide (authorized = []) then Ok []
  else if negb fetcher then Err (PRHeadUnresolvable "no config fetcher configured")
  else if decide (headSHA = "") then Err (PRHeadUnresolvable "empty head SHA")
  else
    pipelines ← head_pipelines scm configPath headSHA;
    fold_all (fun plan (a : MaterialRow * PipelineRow) =>
        match list_find (fun p => Pipeline_Name p = PipelineRow_Name a.2) pipelines with
        | None => Err ErrPRHeadConfigInvalid
        | Some (_, hd) => Ok (plan ++ [(a.1, hd)])
        end) [] authorized.

(** [createPRHeadRun], for each entry of the plan. *)
Fixpoint create_head_runs (in_ : fanOutInput) (project : N) (x : Weather) (w : World) (plan : list (MaterialRow * Pipeline)) : list fanOutOutcome * World :=
  match plan with
  | [] => ([], w)
  | (m, hd) :: plan =>
      let '(res, w) := CreatePRHeadRun w project hd in_ m (r_head x (Material_ID m)) in
      let oc run err := {| Out_PipelineID := Material_PipelineID m; Out_MaterialID := Material_ID m; ModificationID := 0;
                           ModCreated := bool_decide (is_Some run); RunID := run; Out_Err := err |} in
      let oc := match res with
                | Ok run => oc run None
                | Err _ => oc None (Some "create pr-head run")
                end in
      let '(ocs, w) := create_head_runs in_ project x w plan in
      (oc :: ocs, w)
  end.

Definition is_repo (w : World) (m : MaterialRow) : bool :=
  match identity_of w m with Some pl => negb (SystemManaged pl) | None => false end.
Definition in_project (w : World) (project : N) (m : MaterialRow) : bool :=
  match identity_of w m with Some pl => bool_decide (PipelineRow_ProjectID pl = project) | None => false end.
Definition authorize (w : World) (l : list MaterialRow) : list (MaterialRow * PipelineRow) :=
  omap (fun m => pl ← identity_of w m; Some (m, pl)) l.

(** [pr_head_dispatch.go], [applyPRHeadConfig]: the outcomes of every run, and the error
    that blocked the repository's own pipelines. *)
Definition applyPRHeadConfig (x : Weather) (w : World) (ev : pullRequestEvent) (delivery body : string) (materials : list MaterialRow) :
    (list fanOutOutcome * option pr_head_error) * World :=
  let in_ := pr_input ev delivery body in
  let base_only l (err : option pr_head_error) :=
    let '(ocs, w) := fan_out in_ x w l in ((ocs, err), w) in
  if decide (PE_Provider ev <> "github" \/ PE_SameRepo ev = false) then base_only materials None
  else if negb (ok_identities x) then (([], Some ErrPRHeadUnavailable), w)
  else
    let repo := filter (fun m => is_repo w m = true) materials in
    let base := filter (fun m => is_repo w m = false) materials in
    if decide (repo = []) then base_only materials None
    else if negb (ok_bindings x) then base_only base (Some ErrPRHeadUnavailable)
    else match bindings_of w (PE_CloneURL ev) with
    | [] => base_only base (Some ErrPRHeadBindingMissing)
    | bindings =>
        match filter (fun b : SCMSource * ProjectRow => TrustSameRepoPRConfig b.2 = true) bindings with
        | [] => base_only materials None
        | _ :: _ :: _ => base_only base (Some ErrPRHeadBinding)
        | [(scm, project)] =>
            let mine := filter (fun m => in_project w (Project_ID project) m = true) repo in
            let base := base ++ filter (fun m => in_project w (Project_ID project) m = false) repo in
            let '(baseOutcomes, w1) := fan_out in_ x w base in
            match resolvePRHeadPlan scm (ConfigPath project) (PE_HeadSHA ev) (authorize w mine) with
            | Err e => ((baseOutcomes, Some e), w1)
            | Ok plan =>
                let '(headOutcomes, w2) := create_head_runs in_ (Project_ID project) x w1 plan in
                ((baseOutcomes ++ headOutcomes, None), w2)
            end
        end
    end.

(** [prHeadErrorResponse]. *)
Definition pr_head_status (e : pr_head_error) : Z :=
  match e with ErrPRHeadFetch | ErrPRHeadUnavailable => 503 | _ => 422 end.

(** [pull_request.go], [dispatchPullRequest]. *)
Definition dispatchPullRequest (x : Weather) (w : World) (ev : pullRequestEvent) (delivery body : string) : Answer * World :=
  match FindMaterialsByFingerprint w (GitFingerprint (PE_CloneURL ev) (PE_BaseRef ev)) (ok_materials x) with
  | None => (answer 500 StatusError, w)
  | Some [] => (answer 204 StatusIgnored, w)
  | Some found =>
      let eligible := filter (fun m => opted_in "pull_request" m = true) found in
      if decide (eligible = []) then (answer 204 StatusIgnored, w)
      else
        let '(files, known) :=
          if anyMaterialHasPaths eligible then
            match prFiles, driftLookup w (PE_CloneURL ev) (ok_pr_source x) with
            | Some fetch, Some scm => fetch scm (PE_Number ev)
            | _, _ => ([], false)
            end
          else ([], false) in
        let chosen := if anyMaterialHasPaths eligible then (filterMaterialsByPaths Match eligible files known).1 else eligible in
        if decide (chosen = []) then (answer 200 StatusIgnored, w)
        else
          let '((outcomes, resolveErr), w) := applyPRHeadConfig x w ev delivery body chosen in
          match resolveErr with
          | Some e => ({| a_http := pr_head_status e; a_status := StatusError;
                          a_material := firstCreatedRunMaterialID outcomes; a_runs := runsPayload outcomes |}, w)
          | None => (fan_out_answer outcomes, w)
          end
  end.

Definition github_pr (ev : GitHubHook.PullRequestEvent) : pullRequestEvent := {|
  PE_Provider := "github"; PE_Number := GitHubHook.Number ev; PE_Title := GitHubHook.Title ev;
  PE_Author := GitHubHook.Event_Author ev; PE_HeadSHA := GitHubHook.HeadSHA ev; PE_HeadRef := GitHubHook.HeadRef ev;
  PE_BaseRef := GitHubHook.BaseRef ev; PE_CloneURL := GitHubHook.CloneURL (GitHubHook.Event_Repository ev);
  PE_At := GitHubHook.At ev; PE_SameRepo := GitHubHook.SameRepo ev |}.

(** [pr_lifecycle.go], [recordGitHubPR]: best effort. *)
Definition recordGitHubPR (x : Weather) (s : Site) (ev : GitHubHook.PullRequestEvent) : Site :=
  let repo := NormalizeGitURL (GitHubHook.CloneURL (GitHubHook.Event_Repository ev)) in
  if bool_decide (repo = "") || (GitHubHook.Number ev <=? 0)%Z || negb (ok_lifecycle x) then s
  else {| site := site s; deliveries := deliveries s;
          lifecycle := lifecycle s ++ [RecordPullRequestOpened repo (GitHubHook.Number ev)] ++
            (if GitHubHook.Merged ev && bool_decide (GitHubHook.MergedAt ev <> None)
             then [RecordPullRequestMerged repo (GitHubHook.Number ev) (GitHubHook.MergeSHA ev)] else []) |}.

Definition on_site (s : Site) (r : Answer * World) : Answer * Site := (r.1, with_site s r.2).

Definition handlePullRequest (x : Weather) (s : Site) (body delivery : string) : Answer * Site :=
  match GitHubHook.ParsePullRequestEvent body with
  | Err _ => (answer 400 StatusError, s)
  | Ok ev =>
      let s := recordGitHubPR x s ev in
      if negb (GitHubHook.IsTriggerableAction ev) then (answer 204 StatusIgnored, s)
      else on_site s (dispatchPullRequest x (site s) (github_pr ev) delivery body)
  end.
Definition handleReview (x : Weather) (s : Site) (body : string) : Answer * Site :=
  match GitHubHook.ParseReviewEvent body with
  | Err _ => (answer 400 StatusError, s)
  | Ok ev =>
      if negb (GitHubHook.IsApproval ev) then (answer 204 StatusIgnored, s)
      else match GitHubHook.Review_SubmittedAt ev with
      | None => (answer 400 StatusError, s)
      | Some at_ =>
          if (GitHubHook.Review_Number ev <=? 0)%Z then (answer 400 StatusError, s)
          else if negb (ok_lifecycle x) then (answer 500 StatusError, s)
          else (answer 204 StatusAccepted,
                {| site := site s; deliveries := deliveries s;
                   lifecycle := lifecycle s ++ [RecordPullRequestApproved
                     (NormalizeGitURL (GitHubHook.CloneURL (GitHubHook.Review_Repository ev))) (GitHubHook.Review_Number ev) at_] |})
      end
  end.

(** ** The three endpoints *)

(** What comes before any event is looked at: whose secret it is, and its check. *)
Definition authenticate (x : Weather) (w : World) (url : string) (verify : string -> bool) (deliver : Answer * Site) (s : Site) : Answer * Site :=
  if decide (url = "") then (answer 400 StatusRejected, s)
  else match FindSCMSourceWebhookSecret cipher w url (ok_secret x) with
  | Err ErrSCMSourceNotFound => (answer 401 StatusRejected, s)
  | Err _ => (answer 500 StatusError, s)
  | Ok secret =>
      if decide (secret = "") then (answer 401 StatusRejected, s)
      else if negb (verify secret) then (answer 401 StatusRejected, s)
      else deliver
  end.
(** A request without its event header, or with a body past the limit, is answered
    before the audit row exists. *)
Definition accept_request (s : Site) (r : Request) (handle : Answer * Site) : Answer * Site :=
  if decide (Event r = "") then (answer 400 StatusRejected, s)
  else if (maxBodyBytes <? Z.of_nat (slen (Body r)))%Z then (answer 400 StatusRejected, s)
  else handle.

Definition github_event (x : Weather) (s : Site) (r : Request) : Answer * Site :=
  if decide (Event r = "pull_request") then handlePullRequest x s (Body r) (Delivery r)
  else if decide (Event r = "pull_request_review") then handleReview x s (Body r)
  else if decide (Event r <> "push") then (answer 204 StatusIgnored, s)
  else match GitHubHook.ParsePushEvent (Body r) with
  | Err _ => (answer 400 StatusError, s)
  | Ok ev =>
      if GitHubHook.Deleted ev then (answer 204 StatusIgnored, s)
      else if GitHubHook.IsTag ev then on_site s (handleTagPush x (site s) (Body r) (Delivery r) ev)
      else match GitHubHook.HeadCommit ev with
      | None => (answer 204 StatusIgnored, s)
      | Some c =>
          if HasPrefix (GitHubHook.Branch ev) "gh-readonly-queue/" then (answer 204 StatusIgnored, s)
          else on_site s (github_branch_push x (site s) (Body r) (Delivery r) ev c)
      end
  end.
Definition HandleGitHub (x : Weather) (s : Site) (r : Request) : Answer * Site :=
  accept_request s r (recordDelivery "github" (Event r) x
    (authenticate x (site s) (GitHubHook.extractCloneURL (Body r))
       (fun secret => is_ok (GitHubHook.VerifySignature secret (Body r) (Signature r)))
       (github_event x s r) s)).

Definition gitlab_event (x : Weather) (s : Site) (r : Request) : Answer * Site :=
  if decide (Event r = "Merge Request Hook") then
    match GitLabHook.ParseMergeRequestEvent (Body r) with
    | Err _ => (answer 400 StatusError, s)
    | Ok ev =>
        if negb (GitLabHook.IsTriggerableAction ev) then (answer 204 StatusIgnored, s)
        else on_site s (dispatchPullRequest x (site s) {|
          PE_Provider := "gitlab"; PE_Number := GitLabHook.Number ev; PE_Title := GitLabHook.Title ev;
          PE_Author := GitLabHook.Author ev; PE_HeadSHA := GitLabHook.HeadSHA ev; PE_HeadRef := GitLabHook.HeadRef ev;
          PE_BaseRef := GitLabHook.BaseRef ev; PE_CloneURL := GitLabHook.CloneURL (GitLabHook.Event_Repository ev);
          PE_At := GitLabHook.At ev; PE_SameRepo := false |} (Delivery r) (Body r))
    end
  else if decide (Event r <> "Push Hook") then (answer 204 StatusIgnored, s)
  else match GitLabHook.ParsePushEvent (Body r) with
  | Err _ => (answer 400 StatusError, s)
  | Ok ev =>
      match GitLabHook.Deleted ev, GitLabHook.HeadCommit ev with
      | false, Some c =>
          on_site s (persistPush x (site s) {|
            NP_Provider := "gitlab"; NP_Delivery := Delivery r;
            NP_CloneURL := GitLabHook.CloneURL (GitLabHook.Push_Repository ev); NP_Branch := GitLabHook.Branch ev;
            NP_After := GitLabHook.After ev; NP_Body := Body r; NP_AuthorName := GitLabHook.Commit_Author c;
            NP_CommitMsg := GitLabHook.Commit_Message c; NP_CommittedAt := GitLabHook.Commit_Timestamp c;
            NP_ChangedFiles := (GitLabHook.ChangedFiles ev).1; NP_FilesKnown := (GitLabHook.ChangedFiles ev).2 |})
      | _, _ => (answer 204 StatusIgnored, s)
      end
  end.
Definition HandleGitLab (x : Weather) (s : Site) (r : Request) : Answer * Site :=
  accept_request s r (recordDelivery "gitlab" (Event r) x
    (authenticate x (site s) (GitLabHook.extractGitLabCloneURL (Body r))
       (fun secret => is_ok (GitLabHook.VerifyToken secret (Signature r)))
       (gitlab_event x s r) s)).

Definition bitbucket_event (x : Weather) (s : Site) (r : Request) : Answer * Site :=
  if BitbucketHook.IsPullRequestEvent (Event r) then
    match BitbucketHook.ParsePullRequestEvent (Body r) (BitbucketHook.EventKeyToAction (Event r)) with
    | Err _ => (answer 400 StatusError, s)
    | Ok ev =>
        if negb (BitbucketHook.IsTriggerableAction ev) then (answer 204 StatusIgnored, s)
        else on_site s (dispatchPullRequest x (site s) {|
          PE_Provider := "bitbucket"; PE_Number := BitbucketHook.Number ev; PE_Title := BitbucketHook.Title ev;
          PE_Author := BitbucketHook.Author ev; PE_HeadSHA := BitbucketHook.HeadSHA ev; PE_HeadRef := BitbucketHook.HeadRef ev;
          PE_BaseRef := BitbucketHook.BaseRef ev; PE_CloneURL := BitbucketHook.CloneURL (BitbucketHook.Event_Repository ev);
          PE_At := BitbucketHook.At ev; PE_SameRepo := false |} (Delivery r) (Body r))
    end
  else if decide (Event r <> "repo:push") then (answer 204 StatusIgnored, s)
  else match BitbucketHook.ParsePushEvent (Body r) with
  | Err _ => (answer 400 StatusError, s)
  | Ok ev =>
      match BitbucketHook.Deleted ev, BitbucketHook.HeadCommit ev with
      | false, Some c =>
          on_site s (persistPush x (site s) {|
            NP_Provider := "bitbucket"; NP_Delivery := Delivery r;
            NP_CloneURL := BitbucketHook.CloneURL (BitbucketHook.Push_Repository ev); NP_Branch := BitbucketHook.Branch ev;
            NP_After := BitbucketHook.After ev; NP_Body := Body r; NP_AuthorName := BitbucketHook.Commit_Author c;
            NP_CommitMsg := BitbucketHook.Commit_Message c; NP_CommittedAt := BitbucketHook.Commit_Timestamp c;
            NP_ChangedFiles := []; NP_FilesKnown := false |})
      | _, _ => (answer 204 StatusIgnored, s)
      end
  end.
Definition HandleBitbucket (x : Weather) (s : Site) (r : Request) : Answer * Site :=
  accept_request s r (recordDelivery "bitbucket" (Event r) x
    (authenticate x (site s) (BitbucketHook.extractBitbucketCloneURL (Body r))
       (fun secret => is_ok (BitbucketHook.VerifySignature secret (Body r) (Signature r)))
       (bitbucket_event x s r) s)).
End Handlers.
