(* ===== verification/GitHubApp.v ===== *)
(** The endpoint of the GitHub App ([webhook/github_app.go], [webhook/merge_group.go],
    [webhook/github/mergegroup.go], [checkrun.go]): whose secret signed a delivery, checks
    that are asked for again, and merge queues.  Its transactions are those of
    [MergeGroup].

    Parameters: the decoding of JSON and of UUIDs, [net/url], the construction of an App
    client from its key and GitHub's answer about an installation, the creation of a
    check. *)

From S2P Require Import RunTables GoSha256 GoHmac GitHubHook Webhook.
From S2P Require Import Prelude GoStrings Domain Modifications Ledger.
From S2P Require Import MergeGroup.
Open Scope list_scope.

(** ** Events *)

Record RawMergeGroup := {
  RM_Action : string; RM_AppID : Z; RM_Reason : string; RM_InstallationID : Z; RM_Repository : Repository;
  RM_HeadSHA : string; RM_HeadRef : string; RM_BaseSHA : string; RM_BaseRef : string;
  RM_Message : string; RM_Timestamp : option Z;
}.
Record RawCheckRun := {
  RC_Action : string; RC_ID : Z; RC_ExternalID : string; RC_AppID : Z; RC_SuiteAppID : Z;
  RC_InstallationID : Z; RC_Owner : string; RC_Repo : string;
}.
Record CheckRunEvent := {
  CR_Action : string; CR_CheckRunID : Z; CR_ExternalID : string; CR_AppID : Z;
  CR_InstallationID : Z; CR_Owner : string; CR_Repo : string;
}.
(** [json.Unmarshal] into each struct; [None] is an error. *)
Class AppJSON := {
  unmarshal_merge_group : string -> option RawMergeGroup;
  unmarshal_check_run : string -> option RawCheckRun;
  unmarshal_ping : string -> option Z;                    (* [hook.app_id] *)
}.

Inductive merge_parse_error := MergeGroupJSON | UnsupportedAction (a : string) | MissingField (name : string) | MergeGroupRepository.
Section Events.
Context `{AppJSON}.
Definition missing_field (raw : RawMergeGroup) : option string :=
  fst <$> (snd <$> list_find (fun f : string * string => TrimSpace f.2 = "")
    [("merge_group.head_sha", RM_HeadSHA raw); ("merge_group.head_ref", RM_HeadRef raw);
     ("merge_group.base_sha", RM_BaseSHA raw); ("merge_group.base_ref", RM_BaseRef raw)]).
Definition ParseMergeGroupEvent (body : string) : result merge_parse_error RawMergeGroup :=
  match unmarshal_merge_group body with
  | None => Err MergeGroupJSON
  | Some raw =>
      if decide (RM_Action raw ∉ ["checks_requested"; "destroyed"]) then Err (UnsupportedAction (RM_Action raw))
      else match missing_field raw with
      | Some f => Err (MissingField f)
      | None =>
          if decide (FullName (RM_Repository raw) = "" \/ CloneURL (RM_Repository raw) = "") then Err MergeGroupRepository
          else Ok raw
      end
  end.
Definition ParseCheckRunEvent (body : string) : option CheckRunEvent :=
  (fun raw => {| CR_Action := RC_Action raw; CR_CheckRunID := RC_ID raw; CR_ExternalID := RC_ExternalID raw;
                 CR_AppID := if decide (RC_AppID raw = 0)%Z then RC_SuiteAppID raw else RC_AppID raw;
                 CR_InstallationID := RC_InstallationID raw; CR_Owner := RC_Owner raw; CR_Repo := RC_Repo raw |})
  <$> unmarshal_check_run body.
Definition ParsePingEvent (body : string) : option Z := unmarshal_ping body.
End Events.

(** ** [store/vcs_integrations.go]: the enabled rows; [None] does not decrypt *)

Record VCSIntegration := { VI_Kind : string; VI_AppID : option Z; VI_PrivateKey : option string; VI_WebhookSecret : option string }.
Record AppWebhookIntegration := { AI_AppID : Z; AI_WebhookSecret : string; AI_PrivateKeyPEM : string }.
Definition VCSKindGitHubApp : string := "github_app".

Definition decrypted (r : VCSIntegration) : result string (VCSIntegration * string * string) :=
  match VI_PrivateKey r, VI_WebhookSecret r with
  | None, _ => Err "decrypt private key"
  | _, None => Err "decrypt webhook secret"
  | Some pem, Some secret => Ok (r, pem, secret)
  end.
Definition AppWebhookIntegrations (cipher ok : bool) (l : list VCSIntegration) : result string (list AppWebhookIntegration) :=
  if negb (cipher && ok) then Err "list enabled vcs integrations"
  else
    rows ← map_all decrypted l;
    match omap (fun '(r, pem, secret) =>
        match VI_AppID r with
        | Some id => if decide (VI_Kind r <> VCSKindGitHubApp \/ (id <= 0)%Z \/ secret = "") then None
                     else Some {| AI_AppID := id; AI_WebhookSecret := secret; AI_PrivateKeyPEM := pem |}
        | None => None
        end) rows with
    | [] => Err "app webhook secret not resolved"
    | out => Ok out
    end.
Definition AppWebhookIntegrationByAppID (l : result string (list AppWebhookIntegration)) (id : Z) : result string AppWebhookIntegration :=
  ints ← l;
  match filter (fun i => AI_AppID i = id) ints with [i] => Ok i | _ => Err "app webhook secret not resolved" end.

(** ** [scm/github] *)

Section RepoURL.
(** The path of [url.Parse]; [None] is an error. *)
Variable url_path : string -> option string.
Definition ParseRepoURL (raw : string) : option (string * string) :=
  let trimmed := TrimSuffix (TrimSuffix (TrimSpace raw) "/") ".git" in
  if decide (trimmed = "") then None
  else if HasPrefix trimmed "git@" then
    match Cut trimmed ":" with
    | None => None
    | Some (_, after) =>
        match Cut after "/" with
        | Some (owner, repo) => if decide (owner = "" \/ repo = "") then None else Some (owner, repo)
        | None => None
        end
    end
  else if Contains trimmed "://" then
    match url_path trimmed with
    | None => None
    | Some path =>
        match SplitByte (TrimRightByte (TrimLeftByte path "/"%char) "/"%char) "/"%char with
        | owner :: repo :: _ => if decide (owner = "" \/ repo = "") then None else Some (owner, repo)
        | _ => None
        end
    end
  else match SplitByte trimmed "/"%char with
  | host :: owner :: repo :: _ => if decide (host = "" \/ owner = "" \/ repo = "") then None else Some (owner, repo)
  | _ => None
  end.
End RepoURL.

Inductive installation_error := ErrNoInstallation | InstallationLookup.
Inductive binding_error := errMergeGroupInstallationMismatch | errMergeGroupRepositoryInvalid | Lookup (e : installation_error).

(** ** What the endpoint works on *)

Record CheckLink := { CL_CheckRunID : option Z; CL_InstallationID : Z; CL_Owner : string; CL_Repo : string }.
(** The calls that leave the server. *)
Inductive AppCall := CreateCheck (run : nat) (installation : Z) | ReportRunReopened (run : nat) | AuditRerun (run of_ : nat) (delivery : string).
Record AppSite := {
  app_queue : Queue; app_links : gmap nat CheckLink; app_calls : list AppCall; app_rows : list DeliveryRow;
}.
Definition on_queue (s : AppSite) (q : Queue) : AppSite :=
  {| app_queue := q; app_links := app_links s; app_calls := app_calls s; app_rows := app_rows s |}.
Definition call (s : AppSite) (l : list AppCall) : AppSite :=
  {| app_queue := app_queue s; app_links := app_links s; app_calls := app_calls s ++ l; app_rows := app_rows s |}.

(** Which statements and calls are answered. *)
Record AppWeather := {
  aw_integrations : bool; aw_destroyed : bool; aw_materials : bool; aw_create : N -> Reply; aw_check : nat -> bool;
  aw_cancel : Reply; aw_link : bool; aw_read : bool; aw_rerun : Reply; aw_audit : bool;
}.

Section Handlers.
Context `{UnicodeCase} `{AppJSON}.
Variables (cipher reporter : bool) (vcs_integrations : list VCSIntegration).
Variable NewAppClient : AppWebhookIntegration -> bool.
Variable InstallationID : AppWebhookIntegration -> string -> string -> result installation_error Z.
Variable url_path : string -> option string.
(** [uuid.Parse], as the run it names; [strings.EqualFold]. *)
Variable parse_uuid : string -> option nat.
Variable EqualFold : string -> string -> bool.

(** ** Whose delivery it is *)

Definition newAppWebhookAuth (i : AppWebhookIntegration) : bool :=
  negb (bool_decide (AI_PrivateKeyPEM i = "")) && NewAppClient i.
Definition payload_app (event body : string) : Z :=
  if decide (event = "ping") then default 0%Z (ParsePingEvent body)
  else if decide (event = "merge_group") then match ParseMergeGroupEvent body with Ok ev => RM_AppID ev | Err _ => 0%Z end
  else default 0%Z (CR_AppID <$> ParseCheckRunEvent body).
Definition verifyAppSignature (x : AppWeather) (event body signature : string) : option AppWebhookIntegration :=
  let ints := AppWebhookIntegrations cipher (aw_integrations x) vcs_integrations in
  let signed (i : AppWebhookIntegration) := is_ok (VerifySignature (AI_WebhookSecret i) body signature) in
  if decide (payload_app event body <> 0)%Z then
    match AppWebhookIntegrationByAppID ints (payload_app event body) with
    | Ok i => if negb (bool_decide (AI_WebhookSecret i = "")) && signed i then Some i else None
    | Err _ => None
    end
  else match ints with
  | Ok l => snd <$> list_find (fun i => signed i = true) l
  | Err _ => None
  end.

(** ** Merge queues *)

Definition verifyMergeGroupAppInstallation (i : AppWebhookIntegration) (ev : RawMergeGroup) : result binding_error unit :=
  if (RM_InstallationID ev <=? 0)%Z then Err errMergeGroupInstallationMismatch
  else match ParseRepoURL url_path (CloneURL (RM_Repository ev)) with
  | None => Err errMergeGroupRepositoryInvalid
  | Some (owner, repo) =>
      match InstallationID i owner repo with
      | Err e => Err (Lookup e)
      | Ok got => if decide (got <> RM_InstallationID ev) then Err errMergeGroupInstallationMismatch else Ok tt
      end
  end.

Definition stripHeadsPrefix (ref : string) : string := TrimPrefix ref "refs/heads/".
Definition group_fingerprint (ev : RawMergeGroup) : string :=
  GitFingerprint (CloneURL (RM_Repository ev)) (stripHeadsPrefix (RM_BaseRef ev)).

(** The first material of each pipeline that listens, its paths ignored. *)
Definition listens_group (m : MaterialRow) : bool :=
  match Material_Config m with
  | Some cfg => bool_decide ("merge_group" ∈ Git_Events cfg \/ "pull_request" ∈ Git_Events cfg)
  | None => false
  end.
Fixpoint group_materials (seen : list N) (l : list MaterialRow) : list MaterialRow :=
  match l with
  | [] => []
  | m :: l =>
      if negb (listens_group m) then group_materials seen l
      else if decide (Material_PipelineID m ∈ seen) then group_materials seen l
      else m :: group_materials (Material_PipelineID m :: seen) l
  end.

Definition group_detail (ev : RawMergeGroup) : gmap string string :=
  list_to_map [("mg_head_sha", RM_HeadSHA ev); ("mg_head_ref", stripHeadsPrefix (RM_HeadRef ev));
    ("mg_base_sha", RM_BaseSHA ev); ("mg_base_ref", stripHeadsPrefix (RM_BaseRef ev));
    ("mg_action", RM_Action ev); ("mg_fingerprint", group_fingerprint ev)].
Definition group_input (ev : RawMergeGroup) (body delivery : string) (m : MaterialRow) : MergeGroupRunInput := {|
  MI_Fingerprint := group_fingerprint ev; MI_PipelineID := Material_PipelineID m; MI_MaterialID := Material_ID m;
  MI_Revision := RM_HeadSHA ev; MI_Branch := stripHeadsPrefix (RM_HeadRef ev); MI_Author := "github-merge-queue";
  MI_Message := RM_Message ev; MI_Payload := body; MI_CommittedAt := RM_Timestamp ev; MI_Provider := "github";
  MI_Delivery := delivery; MI_TriggeredBy := "system:webhook"; MI_CauseDetail := Some (group_detail ev) |}.

(** [fanOutMergeGroupMaterials]. *)
Fixpoint fan_out_group (input : MaterialRow -> MergeGroupRunInput) (reply : N -> Reply) (q : Queue) (l : list MaterialRow) :
    list (MaterialRow * result merge_group_error MergeGroupRunResult) * Queue :=
  match l with
  | [] => ([], q)
  | m :: l =>
      let '(res, q) := CreateOrFindMergeGroupRun q (input m) (reply (Material_ID m)) in
      let '(rest, q) := fan_out_group input reply q l in
      ((m, res) :: rest, q)
  end.
Definition outcome_run (oc : MaterialRow * result merge_group_error MergeGroupRunResult) : option (N * N * nat) :=
  match oc.2 with Ok res => Some (Material_PipelineID oc.1, Material_ID oc.1, MR_Run res) | Err _ => None end.
Definition outcome_destroyed (oc : MaterialRow * result merge_group_error MergeGroupRunResult) : bool :=
  match oc.2 with Err ErrMergeGroupDestroyed => true | _ => false end.

Definition dispatchMergeGroup (x : AppWeather) (s : AppSite) (ev : RawMergeGroup) (body delivery : string) : Answer * AppSite :=
  let fp := group_fingerprint ev in
  match MergeGroupDestroyed (app_queue s) fp (RM_HeadSHA ev) (aw_destroyed x) with
  | Err _ => (answer 500 StatusError, s)
  | Ok true => (answer 204 StatusIgnored, s)
  | Ok false =>
      match FindMaterialsByFingerprint (world (app_queue s)) fp (aw_materials x) with
      | None => (answer 500 StatusError, s)
      | Some found =>
          let chosen := group_materials [] found in
          if decide (chosen = []) then (answer 204 StatusIgnored, s)
          else if negb reporter then (answer 503 StatusError, s)
          else
            let '(ocs, q) := fan_out_group (group_input ev body delivery) (aw_create x) (app_queue s) chosen in
            let runs_ := omap outcome_run ocs in
            let s := call (on_queue s q) ((fun r => CreateCheck r.2 (RM_InstallationID ev)) <$> runs_) in
            let errors := length ocs - length runs_ + length (filter (fun r => aw_check x r.2 = false) runs_) in
            let material := (fun p => p.1.2) <$> head runs_ in
            if existsb outcome_destroyed ocs then
              match CancelMergeGroupRuns q fp (RM_HeadSHA ev) "checks_requested raced destroyed" (aw_cancel x) with
              | (Err _, q) => ({| a_http := 500; a_status := StatusError; a_material := material; a_runs := [] |}, on_queue s q)
              | (Ok _, q) => ({| a_http := 204; a_status := StatusIgnored; a_material := material; a_runs := [] |}, on_queue s q)
              end
            else if (0 <? errors)%nat then ({| a_http := 500; a_status := StatusError; a_material := material; a_runs := [] |}, s)
            else ({| a_http := 202; a_status := StatusAccepted; a_material := material; a_runs := runs_ |}, s)
      end
  end.
Definition cancelMergeGroup (x : AppWeather) (s : AppSite) (ev : RawMergeGroup) : Answer * AppSite :=
  match CancelMergeGroupRuns (app_queue s) (group_fingerprint ev) (RM_HeadSHA ev) (RM_Reason ev) (aw_cancel x) with
  | (Err _, q) => (answer 500 StatusError, on_queue s q)
  | (Ok _, q) => (answer 202 StatusAccepted, on_queue s q)
  end.
Definition handleMergeGroup (x : AppWeather) (s : AppSite) (i : AppWebhookIntegration) (body delivery : string) : Answer * AppSite :=
  match ParseMergeGroupEvent body with
  | Err _ => (answer 400 StatusError, s)
  | Ok ev =>
      if negb (newAppWebhookAuth i) then (answer 503 StatusError, s)
      else match verifyMergeGroupAppInstallation i ev with
      | Err errMergeGroupRepositoryInvalid => (answer 400 StatusError, s)
      | Err errMergeGroupInstallationMismatch | Err (Lookup ErrNoInstallation) => (answer 401 StatusRejected, s)
      | Err (Lookup InstallationLookup) => (answer 503 StatusError, s)
      | Ok _ =>
          if decide (RM_Action ev = "checks_requested") then dispatchMergeGroup x s ev body delivery
          else if decide (RM_Action ev = "destroyed") then cancelMergeGroup x s ev
          else (answer 204 StatusIgnored, s)
      end
  end.

(** ** Checks that are asked for again *)

Definition same_check (l : CheckLink) (ev : CheckRunEvent) : bool :=
  bool_decide (CL_CheckRunID l = Some (CR_CheckRunID ev) /\ CL_InstallationID l = CR_InstallationID ev) &&
  EqualFold (CL_Owner l) (CR_Owner ev) && EqualFold (CL_Repo l) (CR_Repo ev).
Definition handleCheckRerun (x : AppWeather) (s : AppSite) (body delivery : string) : Answer * AppSite :=
  match ParseCheckRunEvent body with
  | None => (answer 400 StatusError, s)
  | Some ev =>
      if decide (CR_Action ev <> "rerequested") then (answer 204 StatusIgnored, s)
      else match parse_uuid (CR_ExternalID ev) with
      | None => (answer 204 StatusIgnored, s)
      | Some id =>
          match (if aw_link x then app_links s !! id else None) with
          | None => (answer 204 StatusIgnored, s)
          | Some link =>
              if negb (same_check link ev) then (answer 204 StatusIgnored, s)
              else match RerunForAppDelivery (app_queue s) id delivery (aw_read x) (aw_rerun x) with
              | (Ok run, q) =>
                  (answer 204 StatusAccepted,
                   call (on_queue s q) ((if reporter then [ReportRunReopened run] else []) ++ [AuditRerun run id delivery]))
              | (Err (ErrPRHeadRerunUnsupported | RerunStore), q) => (answer 500 StatusError, on_queue s q)
              | (Err _, q) => (answer 204 StatusIgnored, on_queue s q)
              end
          end
      end
  end.

(** ** The endpoint *)

Definition app_event (x : AppWeather) (s : AppSite) (r : Request) (i : AppWebhookIntegration) : Answer * AppSite :=
  if decide (Event r = "ping") then (answer 204 StatusAccepted, s)
  else if decide (Event r = "check_run") then handleCheckRerun x s (Body r) (Delivery r)
  else if decide (Event r = "merge_group") then handleMergeGroup x s i (Body r) (Delivery r)
  else (answer 204 StatusIgnored, s).
Definition record_app_delivery (event : string) (x : AppWeather) (r : Answer * AppSite) : Answer * AppSite :=
  let '(a, s) := r in
  (a, if aw_audit x then
        {| app_queue := app_queue s; app_links := app_links s; app_calls := app_calls s;
           app_rows := app_rows s ++ [{| D_Provider := "github_app"; D_Event := event; D_MaterialID := a_material a;
                                         D_Status := a_status a; D_HTTPStatus := a_http a |}] |}
      else s).
Definition HandleGitHubApp (x : AppWeather) (s : AppSite) (r : Request) : Answer * AppSite :=
  if decide (Event r = "") then (answer 400 StatusRejected, s)
  else if (maxBodyBytes <? Z.of_nat (slen (Body r)))%Z then (answer 400 StatusRejected, s)
  else record_app_delivery (Event r) x
    (if decide (Delivery r = "") then (answer 400 StatusRejected, s)
     else match verifyAppSignature x (Event r) (Body r) (Signature r) with
     | None => (answer 401 StatusRejected, s)
     | Some i => app_event x s r i
     end).
End Handlers.

(** ** Nothing happens unsigned *)

Section Signed.
Context `{UnicodeCase} `{AppJSON}.
Variables (cipher reporter : bool) (vcs : list VCSIntegration).
Variable NewAppClient : AppWebhookIntegration -> bool.
Variable InstallationID : AppWebhookIntegration -> string -> string -> result installation_error Z.
Variable url_path : string -> option string.
Variable parse_uuid : string -> option nat.
Variable EqualFold : string -> string -> bool.

(** An App with a secret signed exactly this body. *)
Record signed_by (x : AppWeather) (r : Request) (i : AppWebhookIntegration) : Prop := {
  sg_row : exists l, AppWebhookIntegrations cipher (aw_integrations x) vcs = Ok l /\ i ∈ l;
  sg_mac : VerifySignature (AI_WebhookSecret i) (Body r) (Signature r) = Ok tt;
  sg_app : payload_app (Event r) (Body r) = 0%Z \/ payload_app (Event r) (Body r) = AI_AppID i;
}.
Lemma is_ok_unit {E} (r : result E unit) : is_ok r = true -> r = Ok tt.
Proof. by destruct r as [[]|]. Qed.

Lemma verifyAppSignature_spec x r i :
  verifyAppSignature cipher vcs x (Event r) (Body r) (Signature r) = Some i -> signed_by x r i.
Proof.
  unfold verifyAppSignature. case_decide as Hz.
  - unfold AppWebhookIntegrationByAppID. destruct (AppWebhookIntegrations _ _ _) as [l|e] eqn:Hl; [|done].
    cbn [mbind result_bind]. destruct (filter (fun i => AI_AppID i = payload_app (Event r) (Body r)) l) as [|i' [|]] eqn:Hf; [done| |done].
    destruct (_ && _) eqn:Hs; [|done]. intros [= ->]. apply andb_true_iff in Hs as [_ Hs%is_ok_unit].
    assert (i ∈ filter (fun i => AI_AppID i = payload_app (Event r) (Body r)) l) as Hin by (rewrite Hf; by left).
    apply list_elem_of_filter in Hin as [Hid Hin]. split; [eauto|done|by right].
  - destruct (AppWebhookIntegrations _ _ _) as [l|e] eqn:Hl; [|done]. intros ([j i'] & Hf & ->)%fmap_Some.
    apply list_find_Some in Hf as (Hj & Hs%is_ok_unit & _). split; [|done|by left].
    exists l. split; [done|]. by eapply list_elem_of_lookup_2.
Qed.

Definition untouched (s s' : AppSite) : Prop := app_queue s' = app_queue s /\ app_calls s' = app_calls s.

(** What a delivery may touch, and for whom. *)
Inductive entitled (s : AppSite) (r : Request) (i : AppWebhookIntegration) : Prop :=
| by_check ev id link : ParseCheckRunEvent (Body r) = Some ev -> CR_Action ev = "rerequested" -> parse_uuid (CR_ExternalID ev) = Some id ->
    app_links s !! id = Some link -> same_check EqualFold link ev = true -> entitled s r i
| by_group ev owner repo : ParseMergeGroupEvent (Body r) = Ok ev -> ParseRepoURL url_path (CloneURL (RM_Repository ev)) = Some (owner, repo) ->
    InstallationID i owner repo = Ok (RM_InstallationID ev) -> entitled s r i.

Lemma handleCheckRerun_entitled x s r i :
  untouched s (handleCheckRerun reporter parse_uuid EqualFold x s (Body r) (Delivery r)).2 \/ entitled s r i.
Proof.
  unfold handleCheckRerun. destruct (ParseCheckRunEvent (Body r)) as [ev|] eqn:He; [|by left].
  case_decide as Ha; [by left|]. destruct (parse_uuid _) as [id|] eqn:Hid; [|by left].
  destruct (if aw_link x then _ else None) as [link|] eqn:Hl; [|by left].
  destruct (same_check EqualFold link ev) eqn:Hs; [|by left]. right. eapply by_check; try done. by destruct (aw_link x).
Qed.
Lemma handleMergeGroup_entitled x s r i :
  untouched s (handleMergeGroup reporter NewAppClient InstallationID url_path x s i (Body r) (Delivery r)).2 \/ entitled s r i.
Proof.
  unfold handleMergeGroup. destruct (ParseMergeGroupEvent (Body r)) as [ev|] eqn:He; [|by left].
  destruct (newAppWebhookAuth _ _); [|by left]. cbn [negb].
  destruct (verifyMergeGroupAppInstallation InstallationID url_path i ev) as [u|e] eqn:Hv; [|left; destruct e as [| |[]]; done].
  right. unfold verifyMergeGroupAppInstallation in Hv. destruct (_ <=? _)%Z; [done|].
  destruct (ParseRepoURL _ _) as [[owner repo]|] eqn:Hp; [|done]. destruct (InstallationID i owner repo) as [got|] eqn:Hi; [|done].
  case_decide as Hg; [done|]. subst got. by eapply by_group.
Qed.

(** Whatever a request says, the endpoint changes the store and calls outside only when
    the secret of an enabled App signed its body, and then only for the run whose check
    the link names, or for a repository GitHub says the App is installed on. *)
Lemma app_effects_signed x s r :
  untouched s (HandleGitHubApp cipher reporter vcs NewAppClient InstallationID url_path parse_uuid EqualFold x s r).2 \/
  (Delivery r <> "" /\ exists i, signed_by x r i /\ AI_WebhookSecret i <> "" /\ entitled s r i).
Proof.
  unfold HandleGitHubApp. case_decide; [by left|]. destruct (_ <? _)%Z; [by left|].
  assert (forall e a, untouched s a.2 -> untouched s (record_app_delivery e x a).2) as Hrec.
  { intros e [a s'] Hu. unfold record_app_delivery. by destruct (aw_audit x). }
  case_decide as Hd; [left; by apply Hrec|]. destruct (verifyAppSignature _ _ _ _ _ _) as [i|] eqn:Hv; [|left; by apply Hrec].
  apply verifyAppSignature_spec in Hv. pose proof (proj1 (proj1 (VerifySignature_spec _ _ _) (sg_mac _ _ _ Hv))) as Hne.
  unfold app_event. case_decide; [left; by apply Hrec|].
  case_decide; [destruct (handleCheckRerun_entitled x s r i); [left; by apply Hrec|right; eauto]|].
  case_decide; [destruct (handleMergeGroup_entitled x s r i); [left; by apply Hrec|right; eauto]|left; by apply Hrec].
Qed.
End Signed.

(** ** A group's checks *)

Definition hex_byte (c : Ascii.ascii) : bool := is_digit c || byte_between 97 102 c.
Lemma hex_digit_byte z : (0 <= z < 16)%Z -> hex_byte (hex_digit z) = true.
Proof.
  intros Hz. assert (z ∈ seqZ 0 16) as Hin by (apply elem_of_seqZ; lia). clear Hz. revert z Hin. apply Forall_forall.
  apply (bool_decide_unpack (Forall (fun z => hex_byte (hex_digit z) = true) (seqZ 0 16))). by vm_compute.
Qed.
(** No white space starts with a hexadecimal digit. *)
Definition not_hex (p : string) : Prop := match p with String d _ => hex_byte d = false | "" => False end.
#[export] Instance not_hex_dec p : Decision (not_hex p).
Proof. destruct p; simpl; apply _. Defined.
Lemma spaces_not_hex : Forall not_hex space_encodings /\ Forall not_hex (String.rev <$> space_encodings).
Proof. split; apply (bool_decide_unpack (Forall not_hex _)); by vm_compute. Qed.
Lemma strip_one_hex encs z t : Forall not_hex encs -> (0 <= z < 16)%Z -> strip_one encs (String (hex_digit z) t) = None.
Proof.
  intros He Hz. apply strip_one_None. eapply Forall_impl; [exact He|]. intros [|d p] Hd; [done|].
  simpl in Hd. unfold HasPrefix. simpl. destruct (Ascii.ascii_dec _ _) as [Heq|]; [|done].
  pose proof (hex_digit_byte z Hz). congruence.
Qed.
Lemma EncodeToString_snoc l z : EncodeToString (l ++ [z]) = EncodeToString l +:+ String (hex_digit (z / 16)) (String (hex_digit (z mod 16)) "").
Proof.
  unfold EncodeToString. induction l as [|y l IH]; [done|]. cbn [app foldr]. by rewrite IH.
Qed.
Lemma TrimSpace_hex l : Forall (fun z => 0 <= z < 256)%Z l -> TrimSpace (EncodeToString l) = EncodeToString l.
Proof.
  intros Hl. destruct l as [|z l]; [reflexivity|]. apply TrimSpace_fix.
  - apply Forall_cons in Hl as [Hz _]. simpl. apply strip_one_hex; [apply spaces_not_hex|]. Z.div_mod_to_equations; lia.
  - destruct (exists_last (l := z :: l)) as (k & y & Heq); [done|]. rewrite Heq in Hl |- *. clear Heq. apply Forall_app in Hl as [_ [Hy _]%Forall_cons].
    rewrite EncodeToString_snoc, rev_app_s. apply strip_one_hex; [apply spaces_not_hex|]. Z.div_mod_to_equations; lia.
Qed.
Lemma round_length st kw : length (round st kw) = length st.
Proof. by destruct st as [|? [|? [|? [|? [|? [|? [|? [|? [|]]]]]]]]]. Qed.
Lemma foldl_length {A B} (f : list A -> B -> list A) st l : (forall s b, length (f s b) = length s) -> length (foldl f st l) = length st.
Proof. intros Hf. revert st. induction l as [|b l IH]; intros st; [done|]. simpl. by rewrite IH, Hf. Qed.
Lemma Sum256_some s : Sum256 s <> [].
Proof.
  unfold Sum256. cbv zeta. set (l := foldl compress H256 _). assert (Hl : length l = length H256).
  { apply foldl_length. intros st b. unfold compress. rewrite length_zip_with, (foldl_length round); [lia|apply round_length]. }
  destruct l as [|z l]; [done|]. done.
Qed.

Section Checks.
Context `{UnicodeCase}.

Lemma group_fingerprint_trim ev : TrimSpace (group_fingerprint ev) = group_fingerprint ev.
Proof. apply TrimSpace_hex, Sum256_bytes. Qed.
Lemma group_fingerprint_some ev : group_fingerprint ev <> "".
Proof.
  unfold group_fingerprint, GitFingerprint, sha256_hex. set (t := normalizeGitURL _ +:+ _). pose proof (Sum256_some t).
  by destruct (Sum256 t).
Qed.
End Checks.

(** *** Rows are only appended *)

Record extends (q q' : Queue) : Prop := {
  ext_tables : tables (world q') = tables (world q);
  ext_mods : modifications (world q) `prefix_of` modifications (world q');
  ext_runs : runs (world q) `prefix_of` runs (world q');
  ext_destroyed : destroyed q' = destroyed q;
}.
#[export] Instance extends_preorder : PreOrder extends.
Proof.
  split; [by intros q; split|]. intros a b c [H1 H2 H3 H4] [H5 H6 H7 H8]. split; [congruence|by etrans..|congruence].
Qed.
(** A modification has its number before a run has the modification. *)
Definition numbered (q : Queue) : Prop := forall i r,
  runs (world q) !! i = Some (Some r) -> Run_Cause r = CauseMergeGroup -> Run_ModificationID r < length (modifications (world q)).

(** The run a group's delivery is answered with. *)
Definition holds (q : Queue) (in_ : MergeGroupRunInput) (res : MergeGroupRunResult) : Prop :=
  existing (world q) (mg_modification in_) = Some (MR_ModificationID res) /\
  findMergeGroupRunByModificationQ (world q) (MI_PipelineID in_) (MR_ModificationID res) = Some (MR_Run res).
Definition admissible (q : Queue) (in_ : MergeGroupRunInput) : Prop :=
  invalid in_ = false /\ destroyed q !! (TrimSpace (MI_Fingerprint in_), MI_Revision in_) = None /\
  MI_MaterialID in_ ∈ ids (tables (world q)) /\ is_Some (pipeline_row (world q) (MI_PipelineID in_)) /\ is_Some (MI_CauseDetail in_).

Lemma find_prefix {A} (P : A -> bool) (l k : list A) i :
  fst <$> list_find (fun x => P x = true) l = Some i -> l `prefix_of` k -> fst <$> list_find (fun x => P x = true) k = Some i.
Proof. intros ([j x] & Hf & ->)%fmap_Some [t ->]. by rewrite (list_find_app_l _ _ _ _ _ Hf). Qed.

Lemma holds_extends q q' in_ res : holds q in_ res -> extends q q' -> holds q' in_ res.
Proof.
  intros [H1 H2] [_ Hm Hr _]. split; unfold existing, findMergeGroupRunByModificationQ in *.
  - exact (find_prefix (fun o => if o is Some n then conflicts (mg_modification in_) n else false) _ _ _ H1 Hm).
  - exact (find_prefix (of_modification _ _) _ _ _ H2 Hr).
Qed.
Lemma admissible_extends q q' in_ : admissible q in_ -> extends q q' -> admissible q' in_.
Proof. intros (H1 & H2 & H3 & H4 & H5) [Ht _ _ Hd]. unfold admissible, pipeline_row in *. by rewrite Ht, Hd. Qed.

(** A replay finds the run again and writes nothing. *)
Lemma CreateOrFind_replay q in_ res : admissible q in_ -> holds q in_ res ->
  CreateOrFindMergeGroupRun q in_ Answered =
    (Ok {| MR_Run := MR_Run res; MR_ModificationID := MR_ModificationID res; MR_ModificationCreated := false; MR_RunCreated := false |}, q).
Proof.
  intros (Hv & Hd & Hl & _ & _) [He Hf]. unfold CreateOrFindMergeGroupRun, InsertModification. rewrite Hv, Hd.
  apply live_spec in Hl. change (Mod_MaterialID (mg_modification in_)) with (MI_MaterialID in_). rewrite Hl, He.
  cbn [negb Created ModID]. by rewrite Hf.
Qed.

Lemma conflicts_self in_ : invalid in_ = false -> conflicts (mg_modification in_) (mg_modification in_) = true.
Proof.
  intros Hv. unfold conflicts. apply bool_decide_eq_true. split_and!; [done..|]. simpl. unfold nullableString.
  rewrite decide_False; [done|]. intros Hb. unfold invalid in Hv. apply bool_decide_eq_false in Hv. apply Hv. rewrite Hb. tauto.
Qed.
Lemma find_snoc {A} (P : A -> bool) (l : list A) x :
  fst <$> list_find (fun y => P y = true) l = None -> P x = true -> fst <$> list_find (fun y => P y = true) (l ++ [x]) = Some (length l).
Proof.
  intros Hn%fmap_None Hx. rewrite list_find_app_r by done. simpl. by rewrite decide_True by done.
Qed.

Lemma CreateOrFind_answered q in_ : admissible q in_ -> numbered q ->
  exists res q', CreateOrFindMergeGroupRun q in_ Answered = (Ok res, q') /\ extends q q' /\ numbered q' /\ holds q' in_ res.
Proof.
  intros Ha Hnum. pose proof Ha as (Hv & Hd & Hl & [pl Hp] & [d Hc]). apply live_spec in Hl.
  destruct (existing (world q) (mg_modification in_)) as [id|] eqn:He.
  - destruct (findMergeGroupRunByModificationQ (world q) (MI_PipelineID in_) id) as [run|] eqn:Hf.
    { eexists _, q. split; [apply (CreateOrFind_replay q in_ {| MR_Run := run; MR_ModificationID := id; MR_ModificationCreated := false; MR_RunCreated := false |})|];
        [done|by split|]. split; [done|]. split; [done|]. by split. }
    unfold CreateOrFindMergeGroupRun, InsertModification, mergeGroupCauseDetail. rewrite Hv, Hd.
    change (Mod_MaterialID (mg_modification in_)) with (MI_MaterialID in_). rewrite Hl, He. cbn [negb Created ModID]. rewrite Hf, Hp, Hc. cbn [fmap option_fmap option_map].
    eexists _, _. split; [reflexivity|]. split; [split; simpl; try done; by apply prefix_app_r|].
    apply existing_Some_lookup in He as Hex. destruct Hex as (n & Hn & _). split.
    + intros i r Hi Hm. simpl in Hi. apply add_run_lookup in Hi as [Hi|[_ ->]]; simpl; [by eapply Hnum|]. by eapply lookup_lt_Some.
    + split; [exact He|]. unfold findMergeGroupRunByModificationQ in *. simpl. apply (find_snoc (of_modification _ _)); [done|].
      simpl. by apply bool_decide_eq_true.
  - unfold CreateOrFindMergeGroupRun, InsertModification, mergeGroupCauseDetail. rewrite Hv, Hd.
    change (Mod_MaterialID (mg_modification in_)) with (MI_MaterialID in_). rewrite Hl, He. cbn [negb Created ModID].
    change (pipeline_row (add_modification (world q) (mg_modification in_)) (MI_PipelineID in_)) with (pipeline_row (world q) (MI_PipelineID in_)).
    rewrite Hp, Hc. cbn [fmap option_fmap option_map].
    eexists _, _. split; [reflexivity|]. split; [split; simpl; try done; by apply prefix_app_r|]. split.
    + intros i r Hi Hm. simpl in *. rewrite length_app. simpl. apply (add_run_lookup (world q)) in Hi as [Hi|[_ ->]]; simpl; [|lia].
      pose proof (Hnum _ _ Hi Hm). lia.
    + split; simpl.
      * unfold existing in *. simpl. apply (find_snoc (fun o => if o is Some n then conflicts (mg_modification in_) n else false)); [done|].
        by apply conflicts_self.
      * unfold findMergeGroupRunByModificationQ. simpl. apply (find_snoc (of_modification _ _)).
        -- apply fmap_None, list_find_None, Forall_forall. intros [r|] [i Hi]%list_elem_of_lookup_1; simpl; [|done].
           rewrite bool_decide_eq_true. intros (_ & Hm & Hid). pose proof (Hnum _ _ Hi Hm). lia.
        -- simpl. by apply bool_decide_eq_true.
Qed.

(** *** In every reachable queue *)

Definition numbered_state (s : State) : Prop :=
  numbered (queue s) /\
  forall k claim p, pending s !! k = Some (claim, p) -> Run_ModificationID p.1 < length (modifications (world (queue s))).

Lemma numbered_mono s s' :
  length (modifications (world (queue s))) <= length (modifications (world (queue s'))) ->
  (forall k e, pending s' !! k = Some e -> exists j, pending s !! j = Some e) ->
  (forall i r, runs (world (queue s')) !! i = Some (Some r) -> Run_Cause r = CauseMergeGroup -> runs (world (queue s)) !! i = Some (Some r)) ->
  numbered_state s -> numbered_state s'.
Proof.
  intros Hl Hp Hr [H1 H2]. split.
  - intros i r Hi Hm. pose proof (H1 i r (Hr i r Hi Hm) Hm). lia.
  - intros k claim p Hk. destruct (Hp _ _ Hk) as [j Hj]. pose proof (H2 _ _ _ Hj). lia.
Qed.
Lemma InsertModification_length w m r res w' : InsertModification w m r = (res, w') -> length (modifications w) <= length (modifications w').
Proof.
  unfold InsertModification. intros Hi. destruct r; [|by simplify_eq|]; (destruct (negb _); [by simplify_eq|]);
    (destruct (existing w m); simplify_eq; [done|]); simpl; rewrite length_app; lia.
Qed.
Lemma prepare_rerun_numbered q id by_ p : prepare_rerun q id by_ = Ok p -> Run_ModificationID p.1 < length (modifications (world q)).
Proof.
  unfold prepare_rerun. destruct (runs (world q) !! id) as [[row|]|]; [|done..]. destruct (columns q !! id) as [c|]; [|done].
  destruct (active (c_status c)); [done|]. destruct (Run_FromHead row); [done|]. intros Hb. apply bind_Ok in Hb as ([[m revision] branch] & _ & Hb).
  destruct (GetModificationByKey _ _ _ _) as [i|] eqn:Hg; [|done]. injection Hb as <-. simpl.
  unfold GetModificationByKey in Hg. apply fmap_Some in Hg as ([j o] & Hf & ->). apply list_find_Some in Hf as (Ho & _). by eapply lookup_lt_Some.
Qed.
Lemma numbered_step s s' : numbered_state s -> step s s' -> numbered_state s'.
Proof.
  intros Hn Hs. destruct Hs as [in_ r res q _ Hc|fp head reason r res q Hc|id by_ claim p _ Hp|k claim p r res q Hk Hc|k|old
    |i c st reason _ _|i c _ _|m r res w Hi|run c Hc _|t _].
  - apply CreateOrFind_spec in Hc as [-> | (m & w & d & _ & _ & Hi & _ & _ & ->)]; [by eapply numbered_mono; eauto|].
    pose proof (InsertModification_length _ _ _ _ _ Hi) as Hle. apply InsertModification_in_tx in Hi as (_ & Hw & _ & Hcase).
    destruct Hn as [H1 H2]. split; simpl; [|intros ??? Hk; pose proof (H2 _ _ _ Hk); lia]. intros i r' Hi Hm. simpl in *.
    apply (add_run_lookup w) in Hi as [Hi|[_ ->]]; simpl; [rewrite Hw in Hi; pose proof (H1 _ _ Hi Hm); lia|].
    destruct Hcase as [(_ & _ & -> & ->)|(_ & (n & Hn & _)%existing_Some_lookup & ->)]; [simpl; rewrite length_app; simpl; lia|].
    by eapply lookup_lt_Some.
  - apply cancel_cases in Hc as [-> | (? & ? & ? & ->)]; eapply numbered_mono; simpl; eauto.
  - destruct Hn as [H1 H2]. split; simpl; [done|]. intros j c p' [Hj|[_ Hj]]%lookup_app_Some; [eauto|].
    apply list_lookup_singleton_Some in Hj as [_ [= -> ->]]. by eapply prepare_rerun_numbered.
  - apply create_rerun_spec in Hc as [-> | [_ ->]].
    { eapply numbered_mono; simpl; eauto. intros ?? ?. by eapply lookup_delete_list. }
    destruct Hn as [H1 H2]. split; simpl.
    + intros i r' Hi Hm. simpl in *. apply (add_run_lookup (world (queue s))) in Hi as [Hi|[_ ->]]; eauto.
    + intros ??? [??]%lookup_delete_list. eauto.
  - eapply numbered_mono; simpl; eauto. intros ?? ?. by eapply lookup_delete_list.
  - eapply numbered_mono; simpl; eauto.
  - eapply numbered_mono; simpl; eauto.
  - eapply numbered_mono; simpl; eauto.
  - pose proof (InsertModification_length _ _ _ _ _ Hi). apply InsertModification_spec in Hi as (_ & Hr & _).
    eapply numbered_mono; simpl; eauto. by rewrite Hr.
  - eapply numbered_mono; simpl; eauto. intros i r Hi Hm. apply (add_run_lookup (world (queue s))) in Hi as [Hi|[_ ->]]; [exact Hi|by destruct (Hc Hm)].
  - apply (numbered_mono s); cbn [queue reapply_queue world pending]; [|eauto| |exact Hn].
    + simpl. by rewrite length_fmap.
    + intros i r Hi _. by eapply reapply_run.
Qed.
Lemma reachable_numbered s : reachable s -> numbered (queue s).
Proof.
  intros Hr. enough (numbered_state s) by apply H.
  revert s Hr. apply (rtc_ind_r (fun s => numbered_state s) boot); [done|]. intros s1 s2 _ Hst Hn. by eapply numbered_step.
Qed.

(** *** The fan-out *)

Definition answered (input : MaterialRow -> MergeGroupRunInput) (q : Queue) (m : MaterialRow)
    (oc : MaterialRow * result merge_group_error MergeGroupRunResult) : Prop :=
  oc.1 = m /\ exists res, oc.2 = Ok res /\ holds q (input m) res.

Lemma fan_out_group_answered input q l :
  Forall (fun m => admissible q (input m)) l -> numbered q ->
  exists ocs q', fan_out_group input (fun _ => Answered) q l = (ocs, q') /\ extends q q' /\ numbered q' /\ Forall2 (answered input q') l ocs.
Proof.
  revert q. induction l as [|m l IH]; intros q Ha Hn; [exists [], q; split; [done|]; split; [reflexivity|]; split; [done|constructor]|].
  apply Forall_cons in Ha as [Hm Hl]. destruct (CreateOrFind_answered q (input m) Hm Hn) as (res & q1 & Hc & He & Hn1 & Hh).
  destruct (IH q1) as (ocs & q2 & Hf & He2 & Hn2 & Ho); [|done|].
  { eapply Forall_impl; [exact Hl|]. intros m' Hm'. exact (admissible_extends _ _ _ Hm' He). }
  eexists _, q2. cbn [fan_out_group]. rewrite Hc, Hf. split; [done|]. split; [by transitivity q1|]. split; [done|].
  constructor; [|done]. split; [done|]. exists res. split; [done|]. by eapply holds_extends.
Qed.
Lemma fan_out_group_replay input q l ocs :
  Forall (fun m => admissible q (input m)) l -> Forall2 (answered input q) l ocs ->
  exists ocs', fan_out_group input (fun _ => Answered) q l = (ocs', q) /\ omap outcome_run ocs' = omap outcome_run ocs /\
    Forall2 (answered input q) l ocs'.
Proof.
  intros Ha Ho. induction Ho as [|m oc l ocs (Hoc & res & Hr & Hh) Ho IH]; [by exists []|].
  apply Forall_cons in Ha as [Hm Hl]. destruct (IH Hl) as (ocs' & Hf & Hom & Ho').
  eexists. cbn [fan_out_group]. rewrite (CreateOrFind_replay _ _ _ Hm Hh), Hf. split; [reflexivity|]. split.
  - destruct oc as [m' [res'|]]; cbn [fst snd] in *; [|done]. injection Hr as ->. subst m'. cbn [omap list_omap outcome_run fst snd MR_Run]. by rewrite Hom.
  - constructor; [|done]. split; [done|]. eexists. split; [reflexivity|]. exact Hh.
Qed.
Lemma answered_all input q l ocs : Forall2 (answered input q) l ocs ->
  length (omap outcome_run ocs) = length ocs /\ existsb outcome_destroyed ocs = false.
Proof.
  induction 1 as [|m [m' r] l ocs (Hm & res & Hr & Hh) _ [IH1 IH2]]; [done|]. cbn [fst snd] in *. subst.
  split; [cbn [omap list_omap outcome_run fst snd length]; f_equal; exact IH1|exact IH2].
Qed.

(** The run is of the group, and of this material. *)
Definition checks (q : Queue) (ev : RawMergeGroup) (m : MaterialRow) (r : N * N * nat) : Prop :=
  r.1 = (Material_PipelineID m, Material_ID m) /\
  exists row md, runs (world q) !! r.2 = Some (Some row) /\ Run_Cause row = CauseMergeGroup /\ Run_PipelineID row = Material_PipelineID m /\
    modifications (world q) !! Run_ModificationID row = Some (Some md) /\ Mod_MaterialID md = Material_ID m /\
    Mod_Revision md = RM_HeadSHA ev /\ Mod_Branch md = nullableString (stripHeadsPrefix (RM_HeadRef ev)).
Section Group.
Context `{UnicodeCase}.

Lemma answered_checks ev body delivery q l ocs :
  Forall2 (answered (group_input ev body delivery) q) l ocs -> Forall2 (checks q ev) l (omap outcome_run ocs).
Proof.
  induction 1 as [|m [m' r] l ocs (Hm & res & Hr & [He Hf]) _ IH]; [constructor|]. cbn [fst snd] in *. subst.
  cbn [omap list_omap outcome_run fst snd]. constructor; [|done].
  split; [done|]. unfold findMergeGroupRunByModificationQ in Hf. apply fmap_Some in Hf as ([i o] & Hf & Hi). simpl in Hi. subst i.
  apply list_find_Some in Hf as (Ho & Hof & _). destruct o as [row|]; [|done]. apply bool_decide_eq_true in Hof as (Hp & Hc & Hid).
  destruct (existing_Some_lookup _ _ _ He) as (md & Hmd & Hcf). unfold conflicts in Hcf. apply bool_decide_eq_true in Hcf as (H1 & H2 & H3 & _).
  exists row, md. simpl in *. rewrite Hid. split_and!; congruence.
Qed.

Lemma group_materials_spec seen l :
  NoDup (Material_PipelineID <$> group_materials seen l) /\
  (forall m, m ∈ group_materials seen l -> m ∈ l /\ listens_group m = true /\ Material_PipelineID m ∉ seen) /\
  (forall m, m ∈ l -> listens_group m = true -> Material_PipelineID m ∈ seen \/ Material_PipelineID m ∈ Material_PipelineID <$> group_materials seen l).
Proof.
  revert seen. induction l as [|m l IH]; intros seen; cbn [group_materials].
  { split_and!; [constructor|by intros m ?%not_elem_of_nil|by intros m ?%not_elem_of_nil]. }
  destruct (listens_group m) eqn:Hm; cbn [negb].
  2: { destruct (IH seen) as (H1 & H2 & H3). split_and!; [done|intros m' Hm'; destruct (H2 _ Hm') as (? & ? & ?); split_and!; [by right|done..]|].
       intros m' [->|Hin]%elem_of_cons Hl; [congruence|eauto]. }
  case_decide as Hs.
  - destruct (IH seen) as (H1 & H2 & H3). split_and!; [done|intros m' Hm'; destruct (H2 _ Hm') as (? & ? & ?); split_and!; [by right|done..]|].
    intros m' [->|Hin]%elem_of_cons Hl; [by left|eauto].
  - destruct (IH (Material_PipelineID m :: seen)) as (H1 & H2 & H3). cbn [fmap list_fmap]. split_and!.
    + constructor; [|done]. intros (m' & He & Hin)%list_elem_of_fmap. destruct (H2 _ Hin) as (_ & _ & Hn). rewrite <- He in Hn. by apply Hn; left.
    + intros m' [->|Hin]%elem_of_cons; [split_and!; [by left|done..]|]. destruct (H2 _ Hin) as (? & ? & Hn).
      split_and!; [by right|done|]. intros ?. by apply Hn; right.
    + intros m' [->|Hin]%elem_of_cons Hl; [by right; left|]. destruct (H3 _ Hin Hl) as [[<-|?]%elem_of_cons|?]; [by right; left|by left|by right; right].
Qed.

(** Everything is answered. *)
Definition calm (x : AppWeather) : Prop :=
  aw_destroyed x = true /\ aw_materials x = true /\ aw_create x = (fun _ => Answered) /\ aw_check x = (fun _ => true).
Definition sane_tables (t : Tables) : Prop := Forall (fun m => Material_ID m <> 0%N /\ Material_PipelineID m <> 0%N /\
  Material_PipelineID m ∈ PipelineRow_ID <$> pipelines t) (materials t).
Definition complete (ev : RawMergeGroup) (delivery : string) : Prop :=
  TrimSpace (RM_HeadSHA ev) = RM_HeadSHA ev /\ RM_HeadSHA ev <> "" /\ TrimSpace (stripHeadsPrefix (RM_HeadRef ev)) <> "" /\ delivery <> "".
Definition due_group (q : Queue) (ev : RawMergeGroup) : list MaterialRow :=
  group_materials [] (filter (fun m => Material_Fingerprint m = group_fingerprint ev) (materials (tables (world q)))).

Lemma due_admissible q ev body delivery :
  sane_tables (tables (world q)) -> complete ev delivery -> destroyed q !! (group_fingerprint ev, RM_HeadSHA ev) = None ->
  Forall (fun m => admissible q (group_input ev body delivery m)) (due_group q ev).
Proof.
  intros Hs (Ht & Hh & Hb & Hd) Hn. apply Forall_forall. intros m Hm. unfold due_group in Hm.
  apply (proj1 (proj2 (group_materials_spec [] _))) in Hm as (Hm & _ & _). apply list_elem_of_filter in Hm as [_ Hm].
  unfold sane_tables in Hs. rewrite Forall_forall in Hs. destruct (Hs m Hm) as (H1 & H2 & H3).
  split_and!; simpl.
  - unfold invalid. apply bool_decide_eq_false. simpl. rewrite group_fingerprint_trim, Ht. pose proof (group_fingerprint_some ev). intros Hor. destruct_or! Hor; done.
  - by rewrite group_fingerprint_trim.
  - unfold ids. rewrite elem_of_list_to_set. apply list_elem_of_fmap. eauto.
  - unfold pipeline_row. apply list_elem_of_fmap in H3 as (p & Hp & Hin). apply fmap_is_Some.
    apply (list_find_elem_of _ _ p); [done|by symmetry].
  - done.
Qed.

Lemma dispatch_answered x s ev body delivery ocs q' :
  calm x -> complete ev delivery -> destroyed (app_queue s) !! (group_fingerprint ev, RM_HeadSHA ev) = None -> due_group (app_queue s) ev <> [] ->
  fan_out_group (group_input ev body delivery) (fun _ => Answered) (app_queue s) (due_group (app_queue s) ev) = (ocs, q') ->
  Forall2 (answered (group_input ev body delivery) q') (due_group (app_queue s) ev) ocs ->
  dispatchMergeGroup true x s ev body delivery =
    ({| a_http := 202; a_status := StatusAccepted; a_material := (fun p => p.1.2) <$> head (omap outcome_run ocs); a_runs := omap outcome_run ocs |},
     call (on_queue s q') ((fun r => CreateCheck r.2 (RM_InstallationID ev)) <$> omap outcome_run ocs)).
Proof.
  intros (H1 & H2 & H3 & H4) (Ht & Hh & _ & _) Hn Hdue Hf Ho. unfold dispatchMergeGroup, MergeGroupDestroyed, FindMaterialsByFingerprint.
  rewrite group_fingerprint_trim, Ht, H1, H2, Hn. pose proof (group_fingerprint_some ev). rewrite decide_False by tauto.
  cbn [negb]. rewrite bool_decide_eq_false_2 by (by intros []). fold (due_group (app_queue s) ev). rewrite decide_False by done.
  rewrite H3, Hf, H4. destruct (answered_all _ _ _ _ Ho) as [Hlen Hx]. rewrite Hx, Hlen, Nat.sub_diag.
  assert (filter (fun _ : N * N * nat => true = false) (omap outcome_run ocs) = []) as ->.
  { generalize (omap outcome_run ocs). intros l. induction l; [done|]. by rewrite filter_cons, decide_False. }
  done.
Qed.

(** C38: Delivered when everything is answered, the request for the checks of a merge group
    that is not abandoned is accepted with one run for each pipeline that listens there - of
    the group's head, created or found - and a check is asked for each; and the delivery
    may be repeated: it changes nothing and names the same runs.  This holds in whatever
    state earlier deliveries, that failed or whose answers were lost, have left. *)
Theorem group_checks_exact x st s ev body delivery :
  reachable st -> app_queue s = queue st -> sane_tables (tables (world (queue st))) -> calm x -> complete ev delivery ->
  destroyed (queue st) !! (group_fingerprint ev, RM_HeadSHA ev) = None -> due_group (queue st) ev <> [] ->
  exists l s', dispatchMergeGroup true x s ev body delivery =
      ({| a_http := 202; a_status := StatusAccepted; a_material := (fun p => p.1.2) <$> head l; a_runs := l |}, s') /\
    Forall2 (checks (app_queue s') ev) (due_group (queue st) ev) l /\
    app_calls s' = app_calls s ++ ((fun r => CreateCheck r.2 (RM_InstallationID ev)) <$> l) /\
    NoDup (Material_PipelineID <$> due_group (queue st) ev) /\
    (forall m, m ∈ materials (tables (world (queue st))) -> Material_Fingerprint m = group_fingerprint ev -> listens_group m = true ->
       Material_PipelineID m ∈ Material_PipelineID <$> due_group (queue st) ev) /\
    exists s2, dispatchMergeGroup true x s' ev body delivery =
      ({| a_http := 202; a_status := StatusAccepted; a_material := (fun p => p.1.2) <$> head l; a_runs := l |}, s2) /\
      app_queue s2 = app_queue s'.
Proof.
  intros Hr Hq Hs Hx Hc Hn Hd. rewrite <- Hq in *. pose proof (due_admissible _ _ body delivery Hs Hc Hn) as Ha.
  assert (Hnum : numbered (app_queue s)) by (rewrite Hq; by apply reachable_numbered).
  destruct (fan_out_group_answered _ _ _ Ha Hnum) as (ocs & q' & Hf & He & _ & Ho).
  pose proof (dispatch_answered x s ev body delivery ocs q' Hx Hc Hn Hd Hf Ho) as H1.
  destruct (group_materials_spec [] (filter (fun m => Material_Fingerprint m = group_fingerprint ev) (materials (tables (world (app_queue s))))))
    as (Hnd & _ & Hall). fold (due_group (app_queue s) ev) in Hnd, Hall.
  eexists _, _. split; [exact H1|]. split; [by eapply answered_checks|]. split; [done|]. split; [done|]. split.
  { intros m Hm Hfp Hl. destruct (Hall m) as [Hin|Hin]; [by apply list_elem_of_filter|done|by apply not_elem_of_nil in Hin|done]. }
  assert (due_group q' ev = due_group (app_queue s) ev) as Hdue by (unfold due_group; by rewrite (ext_tables _ _ He)).
  destruct (fan_out_group_replay (group_input ev body delivery) q' (due_group q' ev) ocs) as (ocs' & Hf' & Hom & Ho'); [|by rewrite Hdue|].
  { rewrite Hdue. eapply Forall_impl; [exact Ha|]. intros m Hm. exact (admissible_extends _ _ _ Hm He). }
  eexists. split; [|shelve]. rewrite <- Hom. apply (dispatch_answered x _ ev body delivery ocs' q'); try done; simpl;
    [by rewrite (ext_destroyed _ _ He)|by rewrite Hdue].
  Unshelve. done.
Qed.
End Group.

(** *** Witness *)

Definition queue_url : string := "https://github.com/acme/shop.git".
Definition queue_ev : RawMergeGroup := {|
  RM_Action := "checks_requested"; RM_AppID := 0; RM_Reason := ""; RM_InstallationID := 5;
  RM_Repository := {| Repository_ID := 42; FullName := "acme/shop"; HTMLURL := ""; CloneURL := queue_url; SSHURL := ""; DefaultBranch := "main" |};
  RM_HeadSHA := "beef"; RM_HeadRef := "refs/heads/gh-readonly-queue/main/pr-1"; RM_BaseSHA := "cafe"; RM_BaseRef := "refs/heads/main";
  RM_Message := ""; RM_Timestamp := None |}%Z.
Definition queue_material : MaterialRow := {|
  Material_ID := 7; Material_PipelineID := 3; Material_Kind := MaterialGit;
  Material_Config := Some {| Git_URL := queue_url; Git_Branch := "main"; Git_Events := ["pull_request"]; Git_AutoRegisterWebhook := true;
                             Git_SecretRef := ""; Git_Paths := ["docs/**"]; Git_PollInterval := 0%Z |};
  Material_Fingerprint := @GitFingerprint ascii_only_case queue_url "main" |}%N.
Definition queue_tables : Tables := {|
  scm_sources := []; projects := [{| Project_ID := 1; TrustSameRepoPRConfig := false; ConfigPath := "" |}];
  pipelines := [{| PipelineRow_ID := 3; PipelineRow_Name := "ci"; SystemManaged := false; PipelineRow_ProjectID := 1 |}];
  materials := [queue_material]; governed := ∅ |}%N.
Definition queue_1 : State := {| queue := reapply_queue (queue boot) queue_tables; pending := []; used := ∅ ∪ ids queue_tables; swept := ∅ |}.
(** The first delivery: the run is there, but the answer was lost. *)
Definition queue_2 : State :=
  with_queue queue_1 (CreateOrFindMergeGroupRun (queue queue_1) (@group_input ascii_only_case queue_ev "{}" "d0" queue_material) Lost).2.
Definition queue_site : AppSite := {| app_queue := queue queue_2; app_links := ∅; app_calls := []; app_rows := [] |}.
Definition calm_weather : AppWeather := {|
  aw_integrations := true; aw_destroyed := true; aw_materials := true; aw_create := fun _ => Answered; aw_check := fun _ => true;
  aw_cancel := Answered; aw_link := true; aw_read := true; aw_rerun := Answered; aw_audit := true |}.

Lemma queue_2_reachable : reachable queue_2.
Proof.
  eapply rtc_l; [apply (step_tables boot queue_tables); intros id _; right; apply not_elem_of_empty|].
  apply rtc_once. eapply step_create; [|apply surjective_pairing]. split; [done|]. intros d [= <-]. by vm_compute.
Qed.
(** The retry names the run the first delivery created. *)
Lemma group_checks_exact_witness :
  length (runs (world (app_queue queue_site))) = 1 /\
  exists l s', @dispatchMergeGroup ascii_only_case true calm_weather queue_site queue_ev "{}" "d1" =
      ({| a_http := 202; a_status := StatusAccepted; a_material := (fun p => p.1.2) <$> head l; a_runs := l |}, s') /\
    Forall2 (checks (app_queue s') queue_ev) [queue_material] l.
Proof.
  split; [vm_compute; reflexivity|].
  destruct (@group_checks_exact ascii_only_case calm_weather queue_2 queue_site queue_ev "{}" "d1" queue_2_reachable eq_refl)
    as (l & s' & Hd & Hf & _).
  - assert (tables (world (queue queue_2)) = queue_tables) as -> by (vm_compute; reflexivity).
    constructor; [|constructor]. split; [done|]. split; [done|]. by left.
  - by split_and!.
  - split_and!; vm_compute; [reflexivity|discriminate|discriminate|discriminate].
  - vm_compute. reflexivity.
  - vm_compute. discriminate.
  - exists l, s'. split; [exact Hd|]. assert (@due_group ascii_only_case (queue queue_2) queue_ev = [queue_material]) as He by (vm_compute; reflexivity).
    rewrite He in Hf. exact Hf.
Defined.
