(* ===== verification/WebhookProps.v ===== *)
(** What the webhook endpoint promises: a signed push fires exactly the materials it is
    due at, nothing happens without the secret of the repository acted on, and a pull
    request's own configuration runs only where a project trusts it. *)

From S2P Require Import GoSha256 GoHmac GitHubHook GitLabHook BitbucketHook.
From S2P Require Import Prelude GoStrings Domain Compliance Modifications Ledger FanOut Webhook.
Open Scope list_scope.




Section Props.
Context `{UnicodeCase} `{GitHubHook.GitHubJSON} `{GitLabHook.GitLabJSON} `{BitbucketHook.BitbucketJSON}.
Variables cipher fetcher : bool.
Variable apply_config : SCMSource -> string -> Tables -> result string Tables.
Variable Match : string -> string -> option bool.
Variable prFiles : option (SCMSource -> Z -> list string * bool).
Variable head_pipelines : SCMSource -> string -> string -> result pr_head_error (list Pipeline).

(** ** A push fires what it is due at *)



Notation drifted := (fun w url branch rev x => (drift fetcher apply_config w url branch rev x).2).


Lemma filter_nil_incl {A} (P : A -> Prop) `{forall x, Decision (P x)} (l : list A) : l = [] -> filter P l = [].
Proof. by intros ->. Qed.


Lemma recordDelivery_inv provider event x res a s' :
  recordDelivery provider event x res = (a, s') -> a = res.1 /\ site s' = site res.2 /\ lifecycle s' = lifecycle res.2.
Proof. unfold recordDelivery. destruct res. destruct (ok_audit x); by intros [= <- <-]. Qed.

Lemma verified_secret secret body sig : GitHubHook.VerifySignature secret body sig = Ok tt -> secret <> "".
Proof. intros Hv. by apply GitHubHook.VerifySignature_spec in Hv as [Hs _]. Qed.



(** ** Pull requests: which configuration runs *)

Lemma authorize_incl w l m pl : (m, pl) ∈ authorize w l -> m ∈ l.
Proof.
  unfold authorize. intros (m' & Hm & Heq)%list_elem_of_omap. destruct (identity_of w m'); [|done]. by simplify_eq/=.
Qed.

Lemma resolve_plan_spec scm cfg sha authorized plan :
  resolvePRHeadPlan fetcher head_pipelines scm cfg sha authorized = Ok plan ->
  forall m hd, (m, hd) ∈ plan -> (exists pl, (m, pl) ∈ authorized) /\ exists hds, head_pipelines scm cfg sha = Ok hds /\ hd ∈ hds.
Proof.
  unfold resolvePRHeadPlan. case_decide; [intros [= <-]; set_solver|]. destruct (negb fetcher); [done|]. case_decide; [done|].
  destruct (head_pipelines scm cfg sha) as [hds|]; [|done]. simpl. intros Hfold m hd.
  refine (fold_all_inv _ (fun plan => (m, hd) ∈ plan -> (exists pl, (m, pl) ∈ authorized) /\ exists hds', Ok hds = Ok hds' /\ hd ∈ hds') _ _ _ _ _ Hfold);
    [set_solver|].
  intros acc [m' pl] acc' Hin Hacc. cbn [fst snd]. destruct (list_find _ hds) as [[k hd']|] eqn:Hf; [|done]. intros [= <-].
  rewrite elem_of_app, list_elem_of_singleton. intros [|[= -> ->]]; [auto|]. split; [eauto|]. exists hds. split; [done|].
  apply list_find_Some in Hf as (Hk & _). by eapply list_elem_of_lookup_2.
Qed.

Lemma create_head_runs_extends in_ project x w plan ocs w' :
  create_head_runs in_ project x w plan = (ocs, w') ->
  extends (fun r => exists m hd, (m, hd) ∈ plan /\ head_run (tables w) project hd m r) w w'.
Proof.
  revert w ocs. induction plan as [|[m hd] plan IH]; intros w ocs; cbn [create_head_runs]; [intros [= <- <-]; apply extends_refl|].
  destruct (CreatePRHeadRun w project hd in_ m (r_head x (Material_ID m))) as [res w1] eqn:Hc.
  destruct (create_head_runs in_ project x w1 plan) as [ocs1 w2] eqn:Hl. intros [= <- <-].
  apply CreatePRHeadRun_extends in Hc. pose proof Hc as [Ht _].
  eapply extends_trans; [eapply extends_impl; [|exact Hc]|eapply extends_impl; [|by eapply IH]].
  - intros r Hr. exists m, hd. split; [apply list_elem_of_here|done].
  - intros r (m' & hd' & Hin & Hr). rewrite Ht in Hr. exists m', hd'. split; [by apply list_elem_of_further|done].
Qed.

(** A head's run is authorized: a pull request within one repository, exactly one project
    of that repository trusts such heads, and the run is of a pipeline of that project
    which is its own and which the head still defines. *)
Definition head_authorized (w : World) (ev : pullRequestEvent) (r : RunRow) : Prop :=
  PE_Provider ev = "github" /\ PE_SameRepo ev = true /\
  exists scm project hds pl hd,
    filter (fun b : SCMSource * ProjectRow => TrustSameRepoPRConfig b.2 = true) (bindings_of w (PE_CloneURL ev)) = [(scm, project)] /\
    head_pipelines scm (ConfigPath project) (PE_HeadSHA ev) = Ok hds /\ hd ∈ hds /\
    pl ∈ pipelines (tables w) /\ Run_PipelineID r = PipelineRow_ID pl /\ PipelineRow_ProjectID pl = Project_ID project /\
    SystemManaged pl = false /\ PipelineRow_Name pl = Pipeline_Name hd.
Definition pr_run (w : World) (ev : pullRequestEvent) (l : list MaterialRow) (r : RunRow) : Prop :=
  (exists m, m ∈ l /\ Material_ID m = Run_MaterialID r) /\ (Run_FromHead r = true -> head_authorized w ev r).

Lemma fan_out_pr in_ x w l l' ocs w' w0 ev :
  (forall m, m ∈ l -> m ∈ l') -> fan_out in_ x w l = (ocs, w') -> extends (pr_run w0 ev l') w w'.
Proof.
  intros Hl Hf. eapply extends_impl; [|by eapply fanOutMaterials_extends]. intros r (m & id & Hm & ->). split; [by eauto|done].
Qed.

Lemma applyPRHeadConfig_extends x w ev delivery body l res w' :
  applyPRHeadConfig fetcher head_pipelines x w ev delivery body l = (res, w') -> extends (pr_run w ev l) w w'.
Proof.
  unfold applyPRHeadConfig.
  assert (forall l0 (err : option pr_head_error), (forall m, m ∈ l0 -> m ∈ l) ->
    (let '(ocs, w) := fan_out (pr_input ev delivery body) x w l0 in ((ocs, err), w)) = (res, w') -> extends (pr_run w ev l) w w') as Hbase.
  { intros l0 err Hl. destruct (fan_out _ x w l0) as [ocs w1] eqn:Hf. intros [= <- <-]. by eapply fan_out_pr. }
  assert (forall (P : MaterialRow -> Prop) `{forall m, Decision (P m)} m, m ∈ filter P l -> m ∈ l) as Hfil.
  { intros P HP m Hm. by apply list_elem_of_filter in Hm as [_ Hm]. }
  case_decide as Hgh; [by apply Hbase|]. destruct (negb (ok_identities x)); [intros [= <- <-]; apply extends_refl|].
  case_decide; [by apply Hbase|]. destruct (negb (ok_bindings x)); [apply Hbase; eauto|].
  destruct (bindings_of w (PE_CloneURL ev)) as [|b0 bs] eqn:Hb; [apply Hbase; eauto|].
  destruct (filter _ (b0 :: bs)) as [|[scm project] [|b1 rest]] eqn:Htrust; [by apply Hbase| |apply Hbase; eauto].
  match goal with |- context [fan_out _ x w ?base] => destruct (fan_out (pr_input ev delivery body) x w base) as [ocs1 w1] eqn:Hf end.
  apply (fan_out_pr _ _ _ _ l _ _ w ev) in Hf; [|intros m Hm; apply elem_of_app in Hm as [Hm|Hm]; [eauto|apply list_elem_of_filter in Hm as [_ Hm]; eauto]].
  destruct (resolvePRHeadPlan _ _ _ _ _ _) as [plan|e] eqn:Hplan; [|by intros [= <- <-]; exact Hf].
  destruct (create_head_runs _ _ x w1 plan) as [ocs2 w2] eqn:Hh. intros [= <- <-].
  eapply extends_trans; [exact Hf|]. eapply extends_impl; [|by eapply create_head_runs_extends].
  intros r (m & hd & Hin & Hfrom & Hmat & pl & p & Hpl & Hp & Hrun & Hproj & Hpid & Htr & Hsys & Hname).
  destruct (resolve_plan_spec _ _ _ _ _ Hplan m hd Hin) as [(pl' & Hauth) (hds & Hhds & Hhd)].
  destruct Hf as [Ht _]. rewrite Ht in Hpl. split.
  - exists m. split; [|done]. apply authorize_incl in Hauth. apply list_elem_of_filter in Hauth as [_ Hauth]. eauto.
  - intros _. apply Decidable.not_or in Hgh as [Hg Hsame]. apply dec_stable in Hg. apply not_false_is_true in Hsame.
    split; [done|]. split; [done|]. exists scm, project, hds, pl, hd. rewrite Hb. split_and!; try done.
Qed.

(** ** Nothing without the repository's secret *)

Definition of_repository (url : string) (m : MaterialRow) : Prop :=
  (exists branch, Material_Fingerprint m = GitFingerprint url branch) \/ same_url url m = true.
Definition url_run (t : Tables) (url : string) (r : RunRow) : Prop :=
  exists m, m ∈ materials t /\ Material_ID m = Run_MaterialID r /\ of_repository url m.
(** After the configuration was or was not re-applied, runs of this repository only, and
    of a head only where [Q] holds. *)
Definition acts (Q : RunRow -> Prop) (url : string) (w w' : World) : Prop :=
  exists w1, length (runs w1) = length (runs w) /\
    extends (fun r => url_run (tables w1) url r /\ (Run_FromHead r = true -> Q r)) w1 w'.

Lemma drift_runs w url branch rev x : length (runs (drift fetcher apply_config w url branch rev x).2) = length (runs w).
Proof.
  unfold drift. destruct (driftLookup w url (ok_drift x)) as [scm|]; [|done]. unfold applyDrift.
  destruct (negb fetcher); [done|]. case_decide; [done|]. destruct (apply_config scm rev (tables w)); [|done]. simpl. by rewrite length_fmap.
Qed.

Lemma run_for_url in_ w url l r :
  (forall m, m ∈ l -> m ∈ materials (tables w) /\ of_repository url m) -> run_for in_ l r ->
  url_run (tables w) url r /\ Run_FromHead r = false.
Proof. intros Hl (m & id & Hm & ->). destruct (Hl m Hm). split; [by exists m|done]. Qed.
Lemma fan_out_url (Q : RunRow -> Prop) in_ x w url l ocs w' :
  (forall m, m ∈ l -> m ∈ materials (tables w) /\ of_repository url m) -> fan_out in_ x w l = (ocs, w') ->
  extends (fun r => url_run (tables w) url r /\ (Run_FromHead r = true -> Q r)) w w'.
Proof.
  intros Hl Hf. eapply extends_impl; [|by eapply fanOutMaterials_extends].
  intros r Hr. destruct (run_for_url _ _ _ _ _ Hl Hr) as [? ->]. done.
Qed.

Lemma found_of_url w url branch ok found :
  FindMaterialsByFingerprint w (GitFingerprint url branch) ok = Some found ->
  forall m, m ∈ found -> m ∈ materials (tables w) /\ of_repository url m.
Proof.
  unfold FindMaterialsByFingerprint. destruct (negb ok); [done|]. intros [= <-] m [Hf Hm]%list_elem_of_filter.
  split; [done|]. left. by exists branch.
Qed.

(** Every material of a filtered list is one of the list. *)
Ltac in_filters := intros m Hm; repeat (apply list_elem_of_filter in Hm as [_ Hm]); eauto.

Lemma github_branch_push_acts Q x w body delivery ev c a w' :
  github_branch_push fetcher apply_config Match x w body delivery ev c = (a, w') ->
  acts Q (GitHubHook.CloneURL (GitHubHook.Push_Repository ev)) w w'.
Proof.
  unfold github_branch_push. set (url := GitHubHook.CloneURL _).
  pose proof (drift_runs w url (GitHubHook.Branch ev) (GitHubHook.After ev) x) as Hlen.
  destruct (drift _ _ w url _ _ x) as [out w1]. cbn [snd] in Hlen. intros Hp. exists w1. split; [done|]. revert Hp.
  destruct (skips w1 url _ x); [intros [= <- <-]; apply extends_refl|].
  destruct (FindMaterialsByFingerprint w1 _ _) as [found|] eqn:Hfound; [|intros [= <- <-]; apply extends_refl].
  pose proof (found_of_url _ _ _ _ _ Hfound) as Hurl.
  destruct found as [|m0 rest]; [intros [= <- <-]; apply extends_refl|]. unfold filterMaterialsByEvent, filterMaterialsByPaths. cbn [fst snd].
  case_decide; [intros [= <- <-]; apply extends_refl|]. destruct (GitHubHook.ChangedFiles ev) as [files known].
  case_decide; [intros [= <- <-]; apply extends_refl|].
  destruct (fan_out _ x w1 _) as [ocs w2] eqn:Hf. intros [= <- <-]. eapply fan_out_url; [|exact Hf]. in_filters.
Qed.

Lemma handleTagPush_acts Q x w body delivery ev a w' :
  handleTagPush x w body delivery ev = (a, w') -> acts Q (GitHubHook.CloneURL (GitHubHook.Push_Repository ev)) w w'.
Proof.
  unfold handleTagPush. set (url := GitHubHook.CloneURL _). intros Hp. exists w. split; [done|]. revert Hp.
  destruct (skips w url _ x); [intros [= <- <-]; apply extends_refl|].
  unfold FindMaterialsByCloneURL. destruct (negb (ok_materials x)); [intros [= <- <-]; apply extends_refl|].
  destruct (filter _ (materials (tables w))) as [|m0 rest] eqn:Hfound; [intros [= <- <-]; apply extends_refl|]. rewrite <- Hfound.
  case_decide; [intros [= <- <-]; apply extends_refl|].
  destruct (fan_out _ x w _) as [ocs w2] eqn:Hf. intros [= <- <-]. eapply fan_out_url; [|exact Hf].
  intros m (_ & ((_ & Hu) & Hm)%list_elem_of_filter)%list_elem_of_filter. split; [done|by right].
Qed.

Lemma dispatchPullRequest_extends x w ev delivery body a w' :
  dispatchPullRequest fetcher Match prFiles head_pipelines x w ev delivery body = (a, w') ->
  extends (fun r => url_run (tables w) (PE_CloneURL ev) r /\ (Run_FromHead r = true -> head_authorized w ev r)) w w'.
Proof.
  unfold dispatchPullRequest.
  destruct (FindMaterialsByFingerprint w _ _) as [found|] eqn:Hfound; [|intros [= <- <-]; apply extends_refl].
  pose proof (found_of_url _ _ _ _ _ Hfound) as Hurl.
  destruct found as [|m0 rest]; [intros [= <- <-]; apply extends_refl|].
  case_decide; [intros [= <- <-]; apply extends_refl|].
  match goal with |- (let '(files, known) := ?e in _) = _ -> _ => destruct e as [files known] end.
  case_decide; [intros [= <- <-]; apply extends_refl|].
  match goal with |- context [applyPRHeadConfig _ _ x w ev delivery body ?l] =>
    destruct (applyPRHeadConfig fetcher head_pipelines x w ev delivery body l) as [[ocs err] w2] eqn:Ha;
    assert (forall m, m ∈ l -> m ∈ materials (tables w) /\ of_repository (PE_CloneURL ev) m) as Hl
      by (destruct (anyMaterialHasPaths _); in_filters) end.
  intros Hres. assert (w2 = w') as -> by (destruct err; by simplify_eq). eapply extends_impl; [|by eapply applyPRHeadConfig_extends].
  intros r [(m & Hm & Hid) Hhead]. split; [|done]. destruct (Hl m Hm). by exists m.
Qed.

(** What authorizes a head's run: the parsed event, its repositories one and the same. *)
Definition head_event (w : World) (body : string) (run : RunRow) : Prop :=
  exists ev, GitHubHook.ParsePullRequestEvent body = Ok ev /\ GitHubHook.SameRepo ev = true /\ head_authorized w (github_pr ev) run.

Lemma github_event_acts `{!GitHubHook.SameField} x s r a s' :
  GitHubHook.extractCloneURL (Body r) <> "" ->
  github_event fetcher apply_config Match prFiles head_pipelines x s r = (a, s') ->
  site s' = site s \/ acts (head_event (site s) (Body r)) (GitHubHook.extractCloneURL (Body r)) (site s) (site s').
Proof.
  intros Hu. unfold github_event. case_decide.
  { unfold handlePullRequest. destruct (GitHubHook.ParsePullRequestEvent (Body r)) as [ev|] eqn:Hp; [|intros [= <- <-]; by left].
    assert (site (recordGitHubPR x s ev) = site s) as Hrec by (unfold recordGitHubPR; by case_match).
    destruct (negb _); [intros [= <- <-]; by left|]. rewrite Hrec.
    destruct (dispatchPullRequest _ _ _ _ x (site s) (github_pr ev) _ _) as [a0 w'] eqn:Hd. intros [= <- <-]. right.
    exists (site s). split; [done|]. cbn [with_site site snd]. eapply extends_impl; [|by eapply dispatchPullRequest_extends].
    intros run [Hur Hh]. rewrite <- (GitHubHook.ParsePullRequestEvent_repository _ _ Hp Hu). split; [exact Hur|].
    intros Hfrom. exists ev. split; [done|]. pose proof (Hh Hfrom) as Hauth. split; [by destruct Hauth as (_ & ? & _)|done]. }
  case_decide.
  { unfold handleReview. intros Hr. left. repeat case_match; by simplify_eq/=. }
  case_decide; [intros [= <- <-]; by left|].
  destruct (GitHubHook.ParsePushEvent (Body r)) as [ev|] eqn:Hp; [|intros [= <- <-]; by left].
  rewrite <- (GitHubHook.ParsePushEvent_repository _ _ Hp Hu).
  destruct (GitHubHook.Deleted ev); [intros [= <- <-]; by left|].
  destruct (GitHubHook.IsTag ev).
  { destruct (handleTagPush x (site s) (Body r) (Delivery r) ev) as [a0 w'] eqn:Ht. intros [= <- <-]. right. by eapply handleTagPush_acts. }
  destruct (GitHubHook.HeadCommit ev) as [c|]; [|intros [= <- <-]; by left].
  destruct (HasPrefix _ _); [intros [= <- <-]; by left|].
  destruct (github_branch_push _ _ _ x (site s) _ _ ev c) as [a0 w'] eqn:Hb. intros [= <- <-]. right. by eapply github_branch_push_acts.
Qed.

(** Rows of the program's own changed: anything but the audit of deliveries, which has
    a row for every request. *)
Definition changed (s s' : Site) : Prop := site s' <> site s \/ lifecycle s' <> lifecycle s.
(** Whatever changes, a secret of the source bound to the body's repository signed it. *)
Lemma HandleGitHub_acts `{!GitHubHook.SameField} x s r a s' :
  HandleGitHub cipher fetcher apply_config Match prFiles head_pipelines x s r = (a, s') -> changed s s' ->
  let url := GitHubHook.extractCloneURL (Body r) in
  (exists src secret, source_of (site s) url = Some src /\ Source_WebhookSecret src = Some secret /\
     GitHubHook.VerifySignature secret (Body r) (Signature r) = Ok tt) /\
  (site s' = site s \/ acts (head_event (site s) (Body r)) url (site s) (site s')).
Proof.
  intros Hh Hne url. unfold HandleGitHub, accept_request in Hh. case_decide; [by simplify_eq; destruct Hne|].
  destruct (maxBodyBytes <? Z.of_nat (slen (Body r)))%Z; [by simplify_eq; destruct Hne|].
  apply recordDelivery_inv in Hh as (_ & Hs' & Hl'). unfold changed in Hne. rewrite Hs', Hl' in Hne. rewrite Hs'.
  revert Hne. unfold authenticate. fold url. destruct (decide (url = "")) as [|Hu]; [by intros []|].
  unfold FindSCMSourceWebhookSecret. destruct (negb cipher); [by intros []|]. destruct (negb (ok_secret x)); [by intros []|].
  destruct (source_of (site s) url) as [src|]; [|by intros []]. destruct (Source_WebhookSecret src) as [secret|] eqn:Hsec; [|by intros []].
  case_decide; [by intros []|]. destruct (GitHubHook.VerifySignature secret (Body r) (Signature r)) as [[]|] eqn:Hv; cbn [is_ok negb]; [|by intros []].
  destruct (github_event _ _ _ _ _ x s r) as [a0 s0] eqn:He. cbn [snd]. intros Hne. split; [by exists src, secret|].
  by eapply github_event_acts.
Qed.

Lemma acts_new Q url w w' i run :
  acts Q url w w' -> length (runs w) <= i -> runs w' !! i = Some (Some run) ->
  url_run (tables w') url run /\ (Run_FromHead run = true -> Q run).
Proof.
  intros (w1 & Hlen & Ht & (new & Hr & HP) & _) Hi Hrun. rewrite Hr, lookup_app_r in Hrun by lia. rewrite Ht.
  rewrite list_lookup_fmap in Hrun. apply fmap_Some in Hrun as (run' & Hrun & [= <-]). rewrite Forall_lookup in HP. by eapply HP.
Qed.

(** C34: GitHub deliveries change nothing without the secret of the repository they act
    on: when a delivery changes a row - of pipelines, materials, modifications or runs, or
    of the lifecycle of a pull request; the audit of deliveries is excepted, which has a
    row for every request - the body is signed with the secret registered for the
    repository it names, and every run it starts is of a material of that repository. *)
Theorem effects_are_signed `{!GitHubHook.SameField} x s r a s' i run :
  HandleGitHub cipher fetcher apply_config Match prFiles head_pipelines x s r = (a, s') ->
  site s' <> site s \/ lifecycle s' <> lifecycle s ->
  let url := GitHubHook.extractCloneURL (Body r) in
  (exists src secret, source_of (site s) url = Some src /\ Source_WebhookSecret src = Some secret /\ secret <> "" /\
     GitHubHook.VerifySignature secret (Body r) (Signature r) = Ok tt) /\
  (length (runs (site s)) <= i -> runs (site s') !! i = Some (Some run) ->
   exists m, m ∈ materials (tables (site s')) /\ Material_ID m = Run_MaterialID run /\ of_repository url m).
Proof.
  intros Hh Hne url. destruct (HandleGitHub_acts _ _ _ _ _ Hh Hne) as [(src & secret & Hsrc & Hsec & Hv) Hacts]. split.
  - exists src, secret. split_and!; try done. by eapply verified_secret.
  - intros Hi Hrun. destruct Hacts as [E|Hacts].
    + rewrite E in Hrun. apply lookup_lt_Some in Hrun. lia.
    + by destruct (acts_new _ _ _ _ _ _ Hacts Hi Hrun) as [? _].
Qed.

(** C35: A run starts from a pull request's own configuration only where that is
    authorized: the head and the base are one repository by their immutable ids, exactly
    one project of it trusts such heads, and the pipeline is that project's own - never a
    system-managed one - and is still defined by the head. *)
Theorem head_runs_authorized `{!GitHubHook.SameField} x s r a s' i run :
  HandleGitHub cipher fetcher apply_config Match prFiles head_pipelines x s r = (a, s') ->
  length (runs (site s)) <= i -> runs (site s') !! i = Some (Some run) -> Run_FromHead run = true ->
  exists ev, GitHubHook.ParsePullRequestEvent (Body r) = Ok ev /\
    GitHubHook.HeadRepoID ev = GitHubHook.BaseRepoID ev /\ GitHubHook.HeadRepoID ev <> 0%Z /\
    GitHubHook.BaseRepoID ev = GitHubHook.Repository_ID (GitHubHook.Event_Repository ev) /\
    head_authorized (site s) (github_pr ev) run.
Proof.
  intros Hh Hi Hrun Hfrom. assert (site s' <> site s) as Hne.
  { intros Heq. rewrite Heq in Hrun. apply lookup_lt_Some in Hrun. lia. }
  destruct (HandleGitHub_acts _ _ _ _ _ Hh (or_introl Hne)) as [_ [|Hacts]]; [done|].
  destruct (acts_new _ _ _ _ _ _ Hacts Hi Hrun) as [_ Hhead]. destruct (Hhead Hfrom) as (ev & Hp & Hsame & Hauth).
  exists ev. split; [done|]. enough (GitHubHook.HeadRepoID ev = GitHubHook.BaseRepoID ev /\ GitHubHook.HeadRepoID ev <> 0%Z /\
    GitHubHook.BaseRepoID ev = GitHubHook.Repository_ID (GitHubHook.Event_Repository ev)) by naive_solver.
  revert Hsame. unfold GitHubHook.ParsePullRequestEvent in Hp. repeat case_match; simplify_eq. cbn -[GitHubHook.sameRepoGitHub].
  intros Hsame. apply GitHubHook.sameRepoGitHub_spec in Hsame as (-> & -> & ?). done.
Qed.

(** ** System-managed pipelines *)

Lemma fanOut_outcomes in_ ins cr w l ocs w' :
  fanOutMaterials in_ ins cr w l = (ocs, w') -> Out_MaterialID <$> ocs = Material_ID <$> l.
Proof.
  revert w ocs. induction l as [|m l IH]; intros w ocs; cbn [fanOutMaterials]; [by intros [= <- <-]|].
  destruct (fanOutMaterial in_ ins cr w m) as [oc w1] eqn:Hm. destruct (fanOutMaterials in_ ins cr w1 l) as [ocs1 w2] eqn:Hl.
  intros [= <- <-]. rewrite !fmap_cons, (IH _ _ Hl). f_equal. unfold fanOutMaterial in Hm. repeat case_match; by simplify_eq/=.
Qed.

(** Whatever becomes of the head, a material that is not a repository's own is fanned out
    on the base, unless nothing could be told apart. *)
Lemma system_managed_on_base x w ev delivery body l ocs err w' m :
  applyPRHeadConfig fetcher head_pipelines x w ev delivery body l = ((ocs, err), w') -> ok_identities x = true ->
  m ∈ l -> is_repo w m = false ->
  exists base ocs0 w0, fan_out (pr_input ev delivery body) x w base = (ocs0, w0) /\ m ∈ base /\ ocs0 `prefix_of` ocs /\
    exists oc, oc ∈ ocs0 /\ Out_MaterialID oc = Material_ID m.
Proof.
  intros Ha Hid Hm Hrepo.
  assert (forall base ocs0 w0, fan_out (pr_input ev delivery body) x w base = (ocs0, w0) -> m ∈ base -> ocs0 `prefix_of` ocs ->
    exists base ocs0 w0, fan_out (pr_input ev delivery body) x w base = (ocs0, w0) /\ m ∈ base /\ ocs0 `prefix_of` ocs /\
    exists oc, oc ∈ ocs0 /\ Out_MaterialID oc = Material_ID m) as Hdone.
  { intros base ocs0 w0 Hf Hb Hpre. exists base, ocs0, w0. do 3 (split; [done|]). apply fanOut_outcomes in Hf.
    apply (list_elem_of_fmap_2 Material_ID) in Hb. rewrite <- Hf in Hb. apply list_elem_of_fmap in Hb as (oc & ? & ?). eauto. }
  assert (forall base (e : option pr_head_error), m ∈ base ->
    (let '(ocs, w) := fan_out (pr_input ev delivery body) x w base in ((ocs, e), w)) = ((ocs, err), w') ->
    exists base ocs0 w0, fan_out (pr_input ev delivery body) x w base = (ocs0, w0) /\ m ∈ base /\ ocs0 `prefix_of` ocs /\
    exists oc, oc ∈ ocs0 /\ Out_MaterialID oc = Material_ID m) as Hbase.
  { intros base e Hb. destruct (fan_out _ x w base) as [ocs0 w0] eqn:Hf. intros [= -> _ _]. by eapply Hdone. }
  assert (m ∈ filter (fun m => is_repo w m = false) l) as Hmb by (by apply list_elem_of_filter).
  revert Ha. unfold applyPRHeadConfig. rewrite Hid. cbn [negb].
  case_decide; [by apply Hbase|]. case_decide; [by apply Hbase|]. destruct (negb (ok_bindings x)); [by apply Hbase|].
  destruct (bindings_of w (PE_CloneURL ev)) as [|b0 bs]; [by apply Hbase|].
  destruct (filter _ (b0 :: bs)) as [|[scm project] [|b1 rest]]; [by apply Hbase| |by apply Hbase].
  match goal with |- context [fan_out _ x w ?base] => destruct (fan_out (pr_input ev delivery body) x w base) as [ocs1 w1] eqn:Hf end.
  assert (forall ocs2, ocs1 `prefix_of` ocs1 ++ ocs2) as Hpre by (intros; by eexists).
  destruct (resolvePRHeadPlan _ _ _ _ _ _) as [plan|e].
  - destruct (create_head_runs _ _ x w1 plan) as [ocs2 w2]. intros [= <- _ _]. eapply Hdone; [exact Hf| |apply Hpre]. apply elem_of_app. by left.
  - intros [= <- _ _]. eapply Hdone; [exact Hf| |done]. apply elem_of_app. by left.
Qed.

(** ** What [skip ci] skips *)

(** On a project under a policy the marker is never honoured - as long as its source is
    found: when that lookup fails, the project counts as not governed. *)
Lemma skip_ci_governed w url message x src :
  source_of w url = Some src -> Source_ProjectID src ∈ governed (tables w) -> is_Some (skipCIMarker message) ->
  skips w url message x = negb (ok_governed_source x).
Proof.
  intros Hs Hg [mk Hm]. unfold skips, repoIsGoverned, driftLookup, FindSCMSourceByURL. rewrite Hm, Hs.
  destruct (ok_governed_source x); [|done]. cbn [negb]. destruct (ok_governed x); [|done]. cbn [negb]. by rewrite bool_decide_eq_true_2.
Qed.
End Props.

(** ** A pull request hides the push of its merge *)

Lemma existing_added in_ ins cr w m oc w1 :
  FO_Branch in_ <> "" -> fanOutMaterial in_ ins cr w m = (oc, w1) -> Out_Err oc = None -> is_Some (existing w1 (modification_of in_ m)).
Proof.
  intros Hb. unfold fanOutMaterial. destruct (insert_call in_ m w (ins (Material_ID m))) as [res wi] eqn:Hi.
  assert (forall b, res = Ok b -> is_Some (existing wi (modification_of in_ m))) as Hex.
  { intros b ->. unfold insert_call, InsertModification in Hi. destruct (ins (Material_ID m)); [|done|repeat case_match; done].
    destruct (live w _); cbn [negb] in Hi; [|done]. destruct (existing w (modification_of in_ m)) as [e|] eqn:He; [injection Hi as <- <-; by rewrite He|].
    injection Hi as <- <-.
    destruct (existing (add_modification w (modification_of in_ m)) (modification_of in_ m)) as [e|] eqn:He'; [done|].
    exfalso. unfold existing in He'. apply fmap_None, list_find_None in He'. simpl in He'. apply Forall_app in He' as [_ He'].
    apply Forall_inv in He'. apply He'. unfold conflicts. apply bool_decide_eq_true. simpl. unfold nullableString.
    by rewrite decide_False by done. }
  destruct res as [b|]; [|by intros [= <- <-]]. specialize (Hex b eq_refl).
  destruct (negb (Created b)); [by intros [= <- <-]|]. destruct (create_call _ _ _ wi _) as [res wc] eqn:Hc.
  apply CreateRunFromModification_spec in Hc. assert (is_Some (existing wc (modification_of in_ m))) as Hex'.
  { destruct Hc as [-> | ->]; [done|]. by rewrite (existing_modifications _ wi). }
  destruct res; by intros [= <- <-].
Qed.

(** The ledger does not tell a pull request from a push: once a pull request was
    recorded from a branch of the same name as the one it targets - the main of a fork -
    the push of that revision to the branch, when it is merged by a fast forward, starts
    no run of the material. *)
Theorem push_hidden_by_pull_request pr push ins cr ins' cr' w m oc w1 oc' w2 :
  FO_Cause pr = "pull_request" -> FO_Cause push = "" -> FO_Revision push = FO_Revision pr -> FO_Branch push = FO_Branch pr ->
  FO_Branch pr <> "" -> fanOutMaterial pr ins cr w m = (oc, w1) -> Out_Err oc = None ->
  fanOutMaterial push ins' cr' w1 m = (oc', w2) ->
  w2 = w1 /\ RunID oc' = None.
Proof.
  intros _ _ Hrev Hbr Hb H1 He H2. destruct (existing_added _ _ _ _ _ _ _ Hb H1 He) as [id Hex].
  assert (existing w1 (modification_of push m) = Some id) as Hex'.
  { rewrite <- Hex. unfold existing. f_equal. apply list_find_ext. intros [n|]; [|done]. unfold conflicts, modification_of. simpl. by rewrite Hrev, Hbr. }
  revert H2. unfold fanOutMaterial, insert_call, InsertModification. rewrite Hex'.
  destruct (ins' (Material_ID m)) eqn:Hi; [|intros [= <- <-]; done|]; destruct (negb (live w1 _)); intros [= <- <-]; try done.
Qed.

(** ** One repository's token, another's pipelines *)

Section OtherRepository.
Context `{UnicodeCase}.
Variables urlA urlB tokenA tokenB : string.

(** Two projects, each with a source and its own token; the second has a pipeline. *)
Definition project_source (id : N) (url token : string) : SCMSource := {|
  Source_ID := id; Source_ProjectID := id; Source_Provider := "gitlab"; Source_URL := NormalizeGitURL url;
  Source_DefaultBranch := "main"; Source_AuthRef := ""; Source_PollInterval := 0%Z; Source_WebhookSecret := Some token |}.
Definition materialB : MaterialRow := {|
  Material_ID := 7; Material_PipelineID := 3; Material_Kind := MaterialGit;
  Material_Config := Some {| Git_URL := urlB; Git_Branch := "main"; Git_Events := ["push"]; Git_AutoRegisterWebhook := false;
                             Git_SecretRef := ""; Git_Paths := []; Git_PollInterval := 0%Z |};
  Material_Fingerprint := GitFingerprint urlB "main" |}.
Definition two_projects : Site := {|
  site := {| tables := {|
      scm_sources := [project_source 1 urlA tokenA; project_source 2 urlB tokenB];
      projects := [{| Project_ID := 1; TrustSameRepoPRConfig := false; ConfigPath := "" |};
                   {| Project_ID := 2; TrustSameRepoPRConfig := false; ConfigPath := "" |}];
      pipelines := [{| PipelineRow_ID := 3; PipelineRow_Name := "deploy"; SystemManaged := false; PipelineRow_ProjectID := 2 |}];
      materials := [materialB]; governed := ∅ |};
    modifications := []; runs := [] |};
  deliveries := []; lifecycle := [] |}.
(** A body that names A where the token is looked up and B where the push is read:
    [project.git_http_url] and [repository.url]. *)
Definition crafted : GitLabHook.GitLabJSON := {|
  GitLabHook.unmarshal_envelope := fun _ => Some {|
    GitLabHook.Env_Repository := {| GitLabHook.GitHTTPURL := ""; GitLabHook.URL := urlB |}; GitLabHook.Env_ProjectGitHTTPURL := urlA |};
  GitLabHook.unmarshal_push := fun _ => Some {|
    GitLabHook.Raw_ObjectKind := "push"; GitLabHook.Raw_Ref := "refs/heads/main"; GitLabHook.Raw_Before := ""; GitLabHook.Raw_After := "e71l";
    GitLabHook.Raw_Repository := {| GitLabHook.GitHTTPURL := ""; GitLabHook.URL := urlB |};
    GitLabHook.Raw_Commits := [{| GitLabHook.RC_ID := "e71l"; GitLabHook.RC_Message := ""; GitLabHook.RC_Timestamp := "";
      GitLabHook.RC_AuthorName := ""; GitLabHook.RC_AuthorEmail := ""; GitLabHook.RC_Added := []; GitLabHook.RC_Modified := []; GitLabHook.RC_Removed := [] |}];
    GitLabHook.Raw_TotalCommitsCount := None |};
  GitLabHook.unmarshal_merge_request := fun _ => None;
  GitLabHook.time_Parse := fun _ _ => None |}.
Definition fair : Weather := {|
  ok_secret := true; ok_drift := true; ok_governed_source := true; ok_governed := true; ok_materials := true; ok_pr_source := true;
  ok_identities := true; ok_bindings := true; ok_lifecycle := true; ok_audit := true;
  r_insert := fun _ => Answered; r_create := fun _ => Answered; r_head := fun _ => Answered |}.
Definition crafted_request : Request := {| Event := "Push Hook"; Delivery := "d9"; Signature := tokenA; Body := "{}" |}.


Lemma crafted_fan_out np apply_config Match :
  urlB <> "" -> NP_CloneURL np = urlB -> NP_Branch np = "main" -> NP_CommitMsg np = "" ->
  exists a w', persistPush false apply_config Match fair (site two_projects) np = (a, w') /\
    a_http a = 202%Z /\ a_runs a = [(3%N, 7%N, 0)] /\
    exists run, runs w' = [Some run] /\ Run_MaterialID run = Material_ID materialB /\ Run_Revision run = NP_After np.
Proof.
  intros HB Hu Hb Hm. unfold persistPush, drift. rewrite Hu, Hb, Hm.
  assert (forall o, (match o with Some scm => applyDrift false apply_config (site two_projects) scm "main" (NP_After np)
    | None => ({| Attempted := false; Applied := false; DriftError := ""; DriftRevision := "" |}, site two_projects) end).2 = site two_projects) as Hd
    by (by intros [scm|]).
  match goal with |- context [match ?o with Some _ => _ | None => _ end] => specialize (Hd o); destruct (match o with Some _ => _ | None => _ end) as [out w1] end.
  cbn [snd] in Hd. subst w1. change (skips _ _ "" _) with false. cbn [fair ok_materials negb].
  unfold FindMaterialsByFingerprint. cbn [negb].
  assert (filter (fun m => Material_Fingerprint m = GitFingerprint urlB "main") (materials (tables (site two_projects))) = [materialB]) as Hf.
  { cbn [two_projects site tables materials]. rewrite filter_cons_True by done. done. }
  rewrite Hf.
  change (filterMaterialsByEvent [materialB] "push") with ([materialB], 0).
  cbv beta iota zeta. rewrite bool_decide_eq_false_2 by done. cbn [andb].
  assert (filterMaterialsByPaths Match [materialB] (NP_ChangedFiles np) (NP_FilesKnown np) = ([materialB], 0)) as -> by done.
  cbv beta iota zeta. rewrite bool_decide_eq_false_2 by done. cbn [andb]. rewrite decide_False by done.
  destruct (fan_out (push_input np) fair (site two_projects) [materialB]) as [ocs w'] eqn:Ho.
  unfold fan_out in Ho. cbn [fanOutMaterials] in Ho. unfold fanOutMaterial, insert_call, InsertModification in Ho.
  change (live (site two_projects) _) with true in Ho. cbn [r_insert r_create fair negb existing two_projects site modifications list_find fmap option_fmap option_map length] in Ho.
  cbn [Created ModID negb] in Ho. unfold create_call, CreateRunFromModification in Ho.
  change (pipeline_row _ _) with (Some {| PipelineRow_ID := 3; PipelineRow_Name := "deploy"; SystemManaged := false; PipelineRow_ProjectID := 2 |}) in Ho.
  injection Ho as <- <-. eexists _, _. split; [reflexivity|]. split; [done|]. split; [done|]. eexists. by split_and!.
Qed.

(** On GitLab the token of one repository starts the pipelines of another: the
    endpoint compares the token of [project.git_http_url] and then fires the materials
    of [repository.url], which the same unsigned body says - whatever the second
    repository's own token is. *)
Theorem token_fires_other_repository apply_config Match prFiles head_pipelines :
  urlA <> "" -> urlB <> "" -> tokenA <> "" ->
  exists a s', HandleGitLab (H1 := crafted) true false apply_config Match prFiles head_pipelines fair two_projects crafted_request = (a, s') /\
    a_http a = 202%Z /\ a_runs a = [(3%N, 7%N, 0)] /\
    exists run, runs (site s') = [Some run] /\ Run_MaterialID run = Material_ID materialB /\ Run_Revision run = "e71l".
Proof.
  intros HA HB HtA. unfold HandleGitLab, accept_request. rewrite decide_False by done.
  change (maxBodyBytes <? Z.of_nat (slen (Body crafted_request)))%Z with false. cbv iota.
  assert (GitLabHook.extractGitLabCloneURL (H := crafted) (Body crafted_request) = urlA) as Hurl.
  { unfold GitLabHook.extractGitLabCloneURL. simpl. by rewrite decide_True. }
  assert (source_of (site two_projects) urlA = Some (project_source 1 urlA tokenA)) as Hsrc.
  { unfold source_of. cbn [site two_projects tables scm_sources list_find]. by rewrite decide_True. }
  unfold authenticate. rewrite Hurl, decide_False by done. unfold FindSCMSourceWebhookSecret. rewrite Hsrc. cbn [negb ok_secret fair project_source Source_WebhookSecret].
  rewrite decide_False by done. cbn [Signature crafted_request].
  assert (GitLabHook.VerifyToken tokenA tokenA = Ok tt) as -> by (by apply GitLabHook.VerifyToken_spec). cbn [is_ok negb].
  unfold gitlab_event. rewrite decide_False by done. rewrite decide_False by (intros Hn; by apply Hn).
  assert (exists ev c, GitLabHook.ParsePushEvent (H := crafted) (Body crafted_request) = Ok ev /\ GitLabHook.Deleted ev = false /\
    GitLabHook.HeadCommit ev = Some c /\ GitLabHook.CloneURL (GitLabHook.Push_Repository ev) = urlB /\
    GitLabHook.Branch ev = "main" /\ GitLabHook.Commit_Message c = "" /\ GitLabHook.After ev = "e71l")
    as (ev & c & -> & -> & -> & Hu & Hb & Hm & Haft).
  { unfold GitLabHook.ParsePushEvent. cbn -[decide HasPrefix TrimPrefix]. do 2 rewrite decide_False by (done || naive_solver).
    rewrite decide_False by exact HB. eexists _, _. split; [reflexivity|]. by split_and!. }
  match goal with |- context [persistPush _ _ _ _ _ ?np] => destruct (crafted_fan_out np apply_config Match HB) as (a & w' & -> & H1 & H2 & run & H3 & H4 & H5) end; try done.
  cbn [on_site fst snd]. unfold recordDelivery. cbn [ok_audit fair]. eexists _, _. split; [reflexivity|]. split_and!; [done..|].
  exists run. cbn [NP_After] in H5. rewrite Haft in H5. by split_and!.
Qed.
End OtherRepository.

(** ** Witnesses *)

#[local] Existing Instance ascii_only_case.
Definition shop_url : string := "https://github.com/acme/shop".
Definition shop_repository : GitHubHook.Repository := {|
  GitHubHook.Repository_ID := 42; GitHubHook.FullName := "acme/shop"; GitHubHook.HTMLURL := shop_url; GitHubHook.CloneURL := shop_url;
  GitHubHook.SSHURL := ""; GitHubHook.DefaultBranch := "main" |}.
Definition shop_commit : GitHubHook.Commit := {|
  GitHubHook.Commit_ID := "c0de"; GitHubHook.Commit_Message := "Ship it"; GitHubHook.Commit_Timestamp := Some 1%Z;
  GitHubHook.Commit_Author := {| GitHubHook.Author_Name := "ada"; GitHubHook.Author_Email := "" |};
  GitHubHook.Added := []; GitHubHook.Modified := ["src/main.go"]; GitHubHook.Removed := [] |}.
Definition shop_head : GitHubHook.prRef := {|
  GitHubHook.PRRef_Ref := "feature"; GitHubHook.PRRef_SHA := "f00d"; GitHubHook.PRRef_Repo := Some shop_repository |}.
Definition shop_base : GitHubHook.prRef := {|
  GitHubHook.PRRef_Ref := "main"; GitHubHook.PRRef_SHA := "c0de"; GitHubHook.PRRef_Repo := Some shop_repository |}.
(** One push and one pull request of the repository, whatever the body. *)
#[local] Instance shop_json : GitHubHook.GitHubJSON := {|
  GitHubHook.unmarshal_clone_url := fun _ => Some shop_url;
  GitHubHook.unmarshal_push := fun _ => Some {|
    GitHubHook.Raw_Ref := "refs/heads/main"; GitHubHook.Raw_Before := ""; GitHubHook.Raw_After := "c0de"; GitHubHook.Raw_Deleted := false;
    GitHubHook.Raw_Repository := shop_repository; GitHubHook.Raw_HeadCommit := Some shop_commit;
    GitHubHook.Raw_Commits := [shop_commit]; GitHubHook.Raw_Size := 1 |};
  GitHubHook.unmarshal_pull_request := fun _ => Some {|
    GitHubHook.Payload_Action := "opened"; GitHubHook.Payload_Number := 8;
    GitHubHook.Payload_PullRequest := Some {|
      GitHubHook.PR_HTMLURL := ""; GitHubHook.PR_Title := "Feature"; GitHubHook.PR_Merged := false; GitHubHook.PR_CreatedAt := None;
      GitHubHook.PR_UpdatedAt := None; GitHubHook.PR_MergedAt := None; GitHubHook.PR_MergeCommitSHA := ""; GitHubHook.PR_User := Some "ada";
      GitHubHook.PR_Head := Some shop_head; GitHubHook.PR_Base := Some shop_base; GitHubHook.PR_Labels := [] |};
    GitHubHook.Payload_Repository := Some shop_repository |};
  GitHubHook.unmarshal_review := fun _ => None |}.
#[local] Instance shop_fields : GitHubHook.SameField.
Proof. split; intros *; cbn; intros; by simplify_eq/=. Qed.
Definition shop_source : SCMSource := {|
  Source_ID := 1; Source_ProjectID := 1; Source_Provider := "github"; Source_URL := "github.com/acme/shop"; Source_DefaultBranch := "main";
  Source_AuthRef := ""; Source_PollInterval := 0%Z; Source_WebhookSecret := Some "s3cret" |}.
Definition shop_material : MaterialRow := {|
  Material_ID := 7; Material_PipelineID := 3; Material_Kind := MaterialGit;
  Material_Config := Some {| Git_URL := shop_url; Git_Branch := "main"; Git_Events := ["push"; "pull_request"];
                             Git_AutoRegisterWebhook := true; Git_SecretRef := ""; Git_Paths := []; Git_PollInterval := 0%Z |};
  Material_Fingerprint := @GitFingerprint ascii_only_case shop_url "main" |}.
Definition shop_site : Site := {|
  site := {| tables := {|
      scm_sources := [shop_source]; projects := [{| Project_ID := 1; TrustSameRepoPRConfig := true; ConfigPath := "" |}];
      pipelines := [{| PipelineRow_ID := 3; PipelineRow_Name := "ci"; SystemManaged := false; PipelineRow_ProjectID := 1 |}];
      materials := [shop_material]; governed := ∅ |};
    modifications := []; runs := [] |};
  deliveries := []; lifecycle := [] |}.
Definition shop_request (event : string) : Request := {|
  Event := event; Delivery := "d1"; Body := "{}";
  Signature := GitHubHook.signaturePrefix +:+ EncodeToString (hmac_sha256 "s3cret" "{}") |}.
Definition shop_head_pipeline : Pipeline := {|
  Pipeline_ID := ""; Domain.ProjectID := ""; Pipeline_Name := "ci"; Materials := []; Stages := ["test"]; Jobs := [];
  Pipeline_Variables := ∅; Template := ""; Concurrency := ""; Supersede := ""; TriggerEvents := []; TriggerBranches := [];
  TriggerPaths := []; Services := []; Notifications := None |}.
#[local] Notation deliver_shop event := (@HandleGitHub ascii_only_case shop_json true true (fun _ _ t => Err "parse") (fun _ _ => None) None
  (fun _ _ _ => Ok [shop_head_pipeline]) fair shop_site (shop_request event)).
#[local] Notation shop_w1 := (@drift ascii_only_case true (fun _ _ t => Err "parse") (site shop_site) shop_url "main" "c0de" fair).2.




(** The pull request fires the run of its own configuration; what the two theorems say
    of it. *)
Lemma shop_pull_request_run :
  runs (site (deliver_shop "pull_request").2) !! 0 =
    Some (Some {| Run_PipelineID := 3; Run_MaterialID := 7; Run_ModificationID := 0; Run_Revision := "f00d"; Run_Branch := "feature";
                  Run_Cause := "pull_request"; Run_Provider := "github"; Run_Delivery := "d1"; Run_TriggeredBy := "system:webhook";
                  Run_FromHead := true |}).
Proof. vm_compute. reflexivity. Qed.
Lemma head_runs_authorized_witness :
  exists run, runs (site (deliver_shop "pull_request").2) !! 0 = Some (Some run) /\ Run_FromHead run = true /\
    exists ev, head_authorized (fun _ _ _ => Ok [shop_head_pipeline]) (site shop_site) (github_pr ev) run.
Proof.
  eexists. split; [exact shop_pull_request_run|]. split; [reflexivity|].
  destruct (head_runs_authorized true true (fun _ _ t => Err "parse") (fun _ _ => None) None (fun _ _ _ => Ok [shop_head_pipeline])
    fair shop_site (shop_request "pull_request") _ _ 0 _ (surjective_pairing _) (Nat.le_0_l _) shop_pull_request_run eq_refl)
    as (ev & _ & _ & _ & _ & Ha). by exists ev.
Defined.
Lemma effects_are_signed_witness :
  site (deliver_shop "pull_request").2 <> site shop_site /\
  exists src secret, source_of (site shop_site) shop_url = Some src /\ Source_WebhookSecret src = Some secret /\
    GitHubHook.VerifySignature secret "{}" (Signature (shop_request "pull_request")) = Ok tt.
Proof.
  assert (site (deliver_shop "pull_request").2 <> site shop_site) as Hne.
  { intros Heq. pose proof shop_pull_request_run as Hr. rewrite Heq in Hr. done. }
  split; [exact Hne|].
  destruct (effects_are_signed true true (fun _ _ t => Err "parse") (fun _ _ => None) None (fun _ _ _ => Ok [shop_head_pipeline])
    fair shop_site (shop_request "pull_request") _ _ 0 {| Run_PipelineID := 0; Run_MaterialID := 0; Run_ModificationID := 0; Run_Revision := "";
      Run_Branch := ""; Run_Cause := ""; Run_Provider := ""; Run_Delivery := ""; Run_TriggeredBy := ""; Run_FromHead := false |}
    (surjective_pairing _) (or_introl Hne)) as [(src & secret & Hs & Hw & _ & Hv) _].
  exists src, secret. split; [exact Hs|]. by split.
Defined.

(** A fork's main is proposed, then merged by a fast forward. *)
Definition fork_main : fanOutInput := {|
  FO_Revision := "f0rk"; FO_Branch := "main"; FO_Author := "mallory"; FO_Message := "please merge"; FO_CommittedAt := None;
  FO_Payload := "{}"; FO_Provider := "github"; FO_Delivery := "d2"; FO_Cause := "pull_request" |}.
Definition merged_main : fanOutInput := {|
  FO_Revision := "f0rk"; FO_Branch := "main"; FO_Author := "ada"; FO_Message := "please merge"; FO_CommittedAt := None;
  FO_Payload := "{}"; FO_Provider := "github"; FO_Delivery := "d3"; FO_Cause := "" |}.
Lemma push_hidden_by_pull_request_witness :
  let w1 := (fanOutMaterial fork_main (fun _ => Answered) (fun _ => Answered) (site shop_site) shop_material).2 in
  length (runs w1) = 1 /\ (fanOutMaterial merged_main (fun _ => Answered) (fun _ => Answered) w1 shop_material).2 = w1.
Proof.
  split; [vm_compute; reflexivity|].
  by destruct (push_hidden_by_pull_request fork_main merged_main (fun _ => Answered) (fun _ => Answered) (fun _ => Answered) (fun _ => Answered)
    (site shop_site) shop_material _ _ _ _ eq_refl eq_refl eq_refl eq_refl ltac:(done) (surjective_pairing _) eq_refl (surjective_pairing _)) as [-> _].
Defined.

Lemma token_fires_other_repository_witness :
  exists a s', @HandleGitLab ascii_only_case (crafted "https://gitlab.com/mallory/toy" "https://gitlab.com/acme/shop") true false
      (fun _ _ t => Ok t) (fun _ _ => None) None (fun _ _ _ => Ok [])
      fair (two_projects "https://gitlab.com/mallory/toy" "https://gitlab.com/acme/shop" "toy" "s3cret") (crafted_request "toy") = (a, s') /\
    a_runs a = [(3%N, 7%N, 0)].
Proof.
  destruct (token_fires_other_repository "https://gitlab.com/mallory/toy" "https://gitlab.com/acme/shop" "toy" "s3cret"
    (fun _ _ t => Ok t) (fun _ _ => None) None (fun _ _ _ => Ok [])) as (a & s' & Hh & _ & Hr & _); [done..|].
  exists a, s'. by split.
Defined.
