(* ===== verification/Profiles.v ===== *)
(** The resolvers an apply and a pull request's head go through
    ([store/profile_resolve.go], [store/cluster_resolve.go]): what a runner profile
    fills into a job and the caps it enforces, and that the clusters a job names are
    registered.  The rows of profiles and clusters and Kubernetes' quantities are
    parameters; the code's caches are of answers these functions repeat. *)

From S2P Require Import Prelude GoStrings Domain.
Open Scope list_scope.

(** ** What a profile fills in *)

(** The columns the resolver reads. *)
Record RunnerProfile := {
  DefaultImage : string; DefaultCPURequest : string; DefaultCPULimit : string;
  DefaultMemRequest : string; DefaultMemLimit : string; MaxCPU : string; MaxMem : string;
  Profile_Tags : list string;
}.
Definition with_bounds (j : Job) (image : string) (tags : list string) (r : ResourceSpec) : Job := {|
  Job_Name := Job_Name j; Job_Stage := Job_Stage j; Job_Image := image; Job_Profile := Job_Profile j;
  Job_Cluster := Job_Cluster j; Job_Resources := r; Job_Needs := Job_Needs j; Job_Tasks := Job_Tasks j;
  Job_Settings := Job_Settings j; Job_Variables := Job_Variables j; Job_Matrix := Job_Matrix j;
  Job_Rules := Job_Rules j; Job_Secrets := Job_Secrets j; Job_Tags := tags;
  Job_ArtifactPaths := Job_ArtifactPaths j; Job_OptionalArtifactPaths := Job_OptionalArtifactPaths j;
  Job_ArtifactsWhen := Job_ArtifactsWhen j; Job_ArtifactDeps := Job_ArtifactDeps j; Job_Docker := Job_Docker j;
  Job_Cache := Job_Cache j; Job_Approval := Job_Approval j; Job_CoverageReport := Job_CoverageReport j;
  Job_TestReports := Job_TestReports j; Job_Outputs := Job_Outputs j; Job_OutputMasks := Job_OutputMasks j;
  Job_IDTokens := Job_IDTokens j; Job_Deploy := Job_Deploy j; Job_Environment := Job_Environment j |}.

Definition or_else (s d : string) : string := if decide (s = "") then d else s.
Definition mergeProfileTags (j : Job) (p : RunnerProfile) : Job :=
  with_bounds j (Job_Image j) (Job_Tags j ++ dedup_from (list_to_set (Job_Tags j)) (Profile_Tags p)) (Job_Resources j).
Definition fillProfileImage (j : Job) (p : RunnerProfile) : Job :=
  with_bounds j (or_else (Job_Image j) (DefaultImage p)) (Job_Tags j) (Job_Resources j).
Definition fillProfileResources (j : Job) (p : RunnerProfile) : Job :=
  let r := Job_Resources j in
  with_bounds j (Job_Image j) (Job_Tags j) {|
    Requests := {| RQ_CPU := or_else (RQ_CPU (Requests r)) (DefaultCPURequest p);
                   RQ_Memory := or_else (RQ_Memory (Requests r)) (DefaultMemRequest p) |};
    Limits := {| RQ_CPU := or_else (RQ_CPU (Limits r)) (DefaultCPULimit p);
                 RQ_Memory := or_else (RQ_Memory (Limits r)) (DefaultMemLimit p) |} |}.

(** The job on a profile it names, and on the default one. *)
Definition settled (j : Job) (p : RunnerProfile) : Job := fillProfileResources (fillProfileImage (mergeProfileTags j p) p) p.
Definition default_bounds (j : Job) (d : option RunnerProfile) : Job :=
  match d with Some d => fillProfileResources j d | None => j end.

Inductive cap_error :=
| InvalidQuantity (label raw : string) | NotOrdered (label bound : string)
| InvalidProfileQuantity (label raw : string) | ExceedsProfile (label cap : string).
Inductive row_error := ErrNoRows | ErrRow.
Inductive resolve_error :=
| ProbeDefaultProfile | UnknownProfile (pipeline job name : string) | ProfileRow (pipeline job : string)
| CapViolated (pipeline job : string) (e : cap_error)
| ClusterLookup (pipeline job name : string) | UnknownCluster (pipeline job field name : string).

Section Resolve.
(** [resource.Quantity]. *)
Context {Quantity : Type}.
Variable ParseQuantity : string -> option Quantity.
Variable Cmp : Quantity -> Quantity -> comparison.
(** [GetRunnerProfileByName] and the decoding of its row. *)
Variable GetRunnerProfileByName : string -> result row_error RunnerProfile.

Definition leq (a b : Quantity) : bool := match Cmp a b with Gt => false | _ => true end.

Definition compareQuantities (aLabel aRaw bLabel bRaw : string) (ok : Quantity -> Quantity -> bool) : result cap_error unit :=
  if decide (aRaw = "" \/ bRaw = "") then Ok tt
  else match ParseQuantity aRaw with
  | None => Err (InvalidQuantity aLabel aRaw)
  | Some a => match ParseQuantity bRaw with
              | None => Err (InvalidQuantity bLabel bRaw)
              | Some b => check (ok a b) (NotOrdered aLabel bLabel)
              end
  end.
Definition compareCap (label raw capLabel capRaw : string) : result cap_error unit :=
  if decide (raw = "" \/ capRaw = "") then Ok tt
  else match ParseQuantity raw with
  | None => Err (InvalidQuantity label raw)
  | Some v => match ParseQuantity capRaw with
              | None => Err (InvalidProfileQuantity capLabel capRaw)
              | Some cap => check (leq v cap) (ExceedsProfile label capLabel)
              end
  end.
Definition enforceProfileCaps (j : Job) (p : RunnerProfile) : result cap_error unit :=
  let r := Job_Resources j in
  _ ← compareQuantities "requests.cpu" (RQ_CPU (Requests r)) "limits.cpu" (RQ_CPU (Limits r)) leq;
  _ ← compareQuantities "requests.memory" (RQ_Memory (Requests r)) "limits.memory" (RQ_Memory (Limits r)) leq;
  _ ← compareCap "requests.cpu" (RQ_CPU (Requests r)) "max_cpu" (MaxCPU p);
  _ ← compareCap "limits.cpu" (RQ_CPU (Limits r)) "max_cpu" (MaxCPU p);
  _ ← compareCap "requests.memory" (RQ_Memory (Requests r)) "max_mem" (MaxMem p);
  compareCap "limits.memory" (RQ_Memory (Limits r)) "max_mem" (MaxMem p).

Definition default_profile : result resolve_error (option RunnerProfile) :=
  match GetRunnerProfileByName "default" with
  | Ok p => Ok (Some p)
  | Err ErrNoRows => Ok None
  | Err ErrRow => Err ProbeDefaultProfile
  end.
Definition resolve_job (d : option RunnerProfile) (pipeline : string) (j : Job) : result resolve_error Job :=
  if decide (Job_Profile j = "") then Ok (default_bounds j d)
  else match GetRunnerProfileByName (Job_Profile j) with
  | Err ErrNoRows => Err (UnknownProfile pipeline (Job_Name j) (Job_Profile j))
  | Err ErrRow => Err (ProfileRow pipeline (Job_Name j))
  | Ok p =>
      _ ← map_err (CapViolated pipeline (Job_Name j)) (enforceProfileCaps (settled j p) p);
      Ok (settled j p)
  end.
Definition resolve_pipeline (d : option RunnerProfile) (p : Pipeline) : result resolve_error Pipeline :=
  jobs ← map_all (resolve_job d (Pipeline_Name p)) (Jobs p);
  Ok (with_stages_jobs p (Stages p) jobs).
Definition resolveProfiles (ps : list Pipeline) : result resolve_error (list Pipeline) :=
  d ← default_profile;
  map_all (resolve_pipeline d) ps.

(** ** Caps *)

(** A quantity that is set and has a bound parses and is within it. *)
Definition bounded (raw bound : string) : Prop :=
  raw <> "" -> bound <> "" -> exists a b, ParseQuantity raw = Some a /\ ParseQuantity bound = Some b /\ leq a b = true.
Record capped (p : RunnerProfile) (r : ResourceSpec) : Prop := {
  cap_cpu_order : bounded (RQ_CPU (Requests r)) (RQ_CPU (Limits r));
  cap_mem_order : bounded (RQ_Memory (Requests r)) (RQ_Memory (Limits r));
  cap_cpu_request : bounded (RQ_CPU (Requests r)) (MaxCPU p);
  cap_cpu_limit : bounded (RQ_CPU (Limits r)) (MaxCPU p);
  cap_mem_request : bounded (RQ_Memory (Requests r)) (MaxMem p);
  cap_mem_limit : bounded (RQ_Memory (Limits r)) (MaxMem p);
}.

Lemma compareQuantities_Ok la a lb b : compareQuantities la a lb b leq = Ok tt <-> bounded a b.
Proof.
  unfold compareQuantities, bounded. case_decide as Hd; [naive_solver|].
  destruct (ParseQuantity a) as [qa|]; [|naive_solver]. destruct (ParseQuantity b) as [qb|]; [|naive_solver].
  rewrite check_Ok. naive_solver.
Qed.
Lemma compareCap_Ok la a lb b : compareCap la a lb b = Ok tt <-> bounded a b.
Proof.
  unfold compareCap, bounded. case_decide as Hd; [naive_solver|].
  destruct (ParseQuantity a) as [qa|]; [|naive_solver]. destruct (ParseQuantity b) as [qb|]; [|naive_solver].
  rewrite check_Ok. naive_solver.
Qed.
Lemma seq_Ok {E} (m k : result E unit) : (_ ← m; k) = Ok tt <-> m = Ok tt /\ k = Ok tt.
Proof. destruct m as [[]|]; simpl; naive_solver. Qed.
Lemma enforceProfileCaps_Ok j p : enforceProfileCaps j p = Ok tt <-> capped p (Job_Resources j).
Proof.
  unfold enforceProfileCaps. rewrite !seq_Ok, !compareQuantities_Ok, !compareCap_Ok.
  split; [intros (?&?&?&?&?&?); by split|intros []; by split_and!].
Qed.

(** ** Resolution, exactly *)

(** What is resolved of a job: its own image, bounds and tags stay, and the rest of it is
    untouched. *)
Definition same_job (j j' : Job) : Prop := with_bounds j "" [] zero_resources = with_bounds j' "" [] zero_resources.
Record refines_job (j j' : Job) : Prop := {
  rj_same : same_job j j';
  rj_image : Job_Image j <> "" -> Job_Image j' = Job_Image j;
  rj_tags : Job_Tags j `prefix_of` Job_Tags j';
  rj_cpu_request : RQ_CPU (Requests (Job_Resources j)) <> "" -> RQ_CPU (Requests (Job_Resources j')) = RQ_CPU (Requests (Job_Resources j));
  rj_mem_request : RQ_Memory (Requests (Job_Resources j)) <> "" -> RQ_Memory (Requests (Job_Resources j')) = RQ_Memory (Requests (Job_Resources j));
  rj_cpu_limit : RQ_CPU (Limits (Job_Resources j)) <> "" -> RQ_CPU (Limits (Job_Resources j')) = RQ_CPU (Limits (Job_Resources j));
  rj_mem_limit : RQ_Memory (Limits (Job_Resources j)) <> "" -> RQ_Memory (Limits (Job_Resources j')) = RQ_Memory (Limits (Job_Resources j));
}.
Lemma or_else_set s d : s <> "" -> or_else s d = s.
Proof. intros Hs. unfold or_else. by rewrite decide_False. Qed.
Lemma settled_refines j p : refines_job j (settled j p).
Proof. split; simpl; eauto using or_else_set; [done|by apply prefix_app_r]. Qed.
Lemma default_refines j d : refines_job j (default_bounds j d).
Proof. destruct d; split; simpl; eauto using or_else_set; done. Qed.

(** A job is resolved exactly when it names no profile, or one that is there and whose
    caps hold for the job with the profile's defaults filled in. *)
Lemma resolve_job_Ok d pipeline j j' :
  resolve_job d pipeline j = Ok j' <->
  (Job_Profile j = "" /\ j' = default_bounds j d) \/
  (Job_Profile j <> "" /\ exists p, GetRunnerProfileByName (Job_Profile j) = Ok p /\ j' = settled j p /\ capped p (Job_Resources j')).
Proof.
  unfold resolve_job. case_decide as Hp; [naive_solver|].
  destruct (GetRunnerProfileByName (Job_Profile j)) as [p|[]]; [|naive_solver..].
  destruct (enforceProfileCaps (settled j p) p) as [[]|e] eqn:Hc; simpl.
  - apply enforceProfileCaps_Ok in Hc. naive_solver.
  - split; [done|]. intros [[? _]|(_ & p' & [= <-] & -> & Hcap)]; [done|]. apply enforceProfileCaps_Ok in Hcap. congruence.
Qed.
Lemma resolve_job_refines d pipeline j j' : resolve_job d pipeline j = Ok j' -> refines_job j j'.
Proof. intros [[_ ->]|(_ & p & _ & -> & _)]%resolve_job_Ok; [apply default_refines|apply settled_refines]. Qed.

(** What holds of every pipeline that went through the resolvers. *)
Record resolved (p p' : Pipeline) : Prop := {
  re_rest : p' = with_stages_jobs p (Stages p) (Jobs p');
  re_jobs : Forall2 refines_job (Jobs p) (Jobs p');
  re_caps : forall j, j ∈ Jobs p' -> Job_Profile j <> "" ->
    exists pr, GetRunnerProfileByName (Job_Profile j) = Ok pr /\ capped pr (Job_Resources j);
}.
Lemma resolve_pipeline_Ok d p p' : resolve_pipeline d p = Ok p' -> resolved p p'.
Proof.
  unfold resolve_pipeline. rewrite bind_Ok. intros (jobs & Hj%map_all_Ok & [= <-]). split; [done| |].
  - simpl. eapply Forall2_impl; [exact Hj|]. intros j j'. apply resolve_job_refines.
  - simpl. intros j' Hin Hp. destruct (Forall2_member_r _ _ _ _ Hj Hin) as (j & _ & Hr).
    apply resolve_job_Ok in Hr as [[Hpj ->]|(_ & pr & Hg & -> & Hc)].
    + exfalso. by destruct d.
    + by exists pr.
Qed.

(** The resolver of profiles gives back every pipeline with its jobs in place, each with
    what it declared kept and the rest filled in, and every job that names a profile is
    within that profile's caps. *)
Theorem profiles_resolved ps ps' :
  resolveProfiles ps = Ok ps' -> Forall2 resolved ps ps'.
Proof.
  unfold resolveProfiles. rewrite bind_Ok. intros (d & _ & Hm%map_all_Ok).
  eapply Forall2_impl; [exact Hm|]. intros p p'. apply resolve_pipeline_Ok.
Qed.

(** It refuses no job it should take: with its default and every named profile readable
    and every cap held, a pipeline resolves. *)
Lemma profiles_resolve p d :
  default_profile = Ok d ->
  (forall j, j ∈ Jobs p -> Job_Profile j <> "" ->
     exists pr, GetRunnerProfileByName (Job_Profile j) = Ok pr /\ capped pr (Job_Resources (settled j pr))) ->
  exists p', resolveProfiles [p] = Ok [p'].
Proof.
  intros Hd Hj. unfold resolveProfiles. rewrite Hd. simpl.
  assert (exists jobs, map_all (resolve_job d (Pipeline_Name p)) (Jobs p) = Ok jobs) as [jobs Hjobs].
  { induction (Jobs p) as [|j l IH]; [by eexists|]. simpl.
    assert (exists j', resolve_job d (Pipeline_Name p) j = Ok j') as [j' ->].
    { destruct (decide (Job_Profile j = "")) as [Hp|Hp].
      - eexists. apply resolve_job_Ok. by left.
      - destruct (Hj j ltac:(set_solver) Hp) as (pr & Hg & Hc). eexists. apply resolve_job_Ok. right. split; [done|]. by exists pr. }
    destruct IH as [k ->]; [set_solver|]. by eexists. }
  unfold resolve_pipeline. rewrite Hjobs. simpl. by eexists.
Qed.

End Resolve.

(** ** Clusters *)

Section Clusters.
(** [ClusterExists]; [None] is an error. *)
Variable ClusterExists : string -> option bool.

Definition probe_cluster (pipeline job field name : string) : result resolve_error unit :=
  if decide (name = "") then Ok tt
  else match ClusterExists name with
  | None => Err (ClusterLookup pipeline job name)
  | Some b => check b (UnknownCluster pipeline job field name)
  end.
Definition probe_job (pipeline : string) (j : Job) : result resolve_error unit :=
  _ ← probe_cluster pipeline (Job_Name j) "cluster" (Job_Cluster j);
  match Job_Deploy j ≫= Deploy_Target with
  | None => Ok tt
  | Some t => probe_cluster pipeline (Job_Name j) "deploy.target.cluster" (Target_Cluster t)
  end.
Definition resolveClusters (ps : list Pipeline) : result resolve_error unit :=
  check_all (fun p => check_all (probe_job (Pipeline_Name p)) (Jobs p)) ps.

Lemma probe_cluster_Ok pipeline job field name : probe_cluster pipeline job field name = Ok tt <-> (name <> "" -> ClusterExists name = Some true).
Proof.
  unfold probe_cluster. case_decide; [naive_solver|]. destruct (ClusterExists name) as [b|]; [|naive_solver].
  rewrite check_Ok. naive_solver.
Qed.
(** The clusters a job names. *)
Definition names_cluster (j : Job) (name : string) : Prop :=
  name <> "" /\ (Job_Cluster j = name \/ exists t, (Job_Deploy j ≫= Deploy_Target) = Some t /\ Target_Cluster t = name).
Lemma resolveClusters_Ok ps :
  resolveClusters ps = Ok tt <-> forall p j name, p ∈ ps -> j ∈ Jobs p -> names_cluster j name -> ClusterExists name = Some true.
Proof.
  unfold resolveClusters. rewrite check_all_Ok, Forall_forall. setoid_rewrite check_all_Ok. setoid_rewrite Forall_forall.
  unfold probe_job. setoid_rewrite seq_Ok. setoid_rewrite probe_cluster_Ok. unfold names_cluster. split.
  - intros Hall p j name Hp Hj [Hn [<-|(t & Ht & <-)]]; destruct (Hall p Hp j Hj) as [Hc Hd]; [auto|].
    rewrite Ht, probe_cluster_Ok in Hd. auto.
  - intros Hall p Hp j Hj. split; [intros Hn; eapply Hall; eauto|].
    destruct (Job_Deploy j ≫= Deploy_Target) as [t|] eqn:Ht; [|done]. apply probe_cluster_Ok. intros Hn. eapply Hall; eauto 6.
Qed.
End Clusters.
