(* ===== verification/PRHead.v ===== *)
(** The definition a pull request's head is run with ([store/pr_head_run.go],
    [CreatePRHeadRun] between its guards and its rows): the head gives stages, jobs,
    services and variables, the base everything else; the policies of the project are
    merged in, profiles and clusters resolved, and the number of job rows is capped
    before anything is written.  The guards and the rows of the ledger are in
    [Modifications]. *)

From S2P Require Import Prelude GoStrings GoSha256 Domain Matrix RunTables RunCreate.
From S2P Require Import Compliance Profiles.
Open Scope list_scope.

(** ** The number of rows *)

Definition maxPRHeadJobRuns : Z := 1000.
Definition wrap64 (z : Z) : Z := ((z + 2 ^ 63) mod 2 ^ 64 - 2 ^ 63)%Z.
Definition mulSatPRHead (a b : Z) : Z :=
  if (a =? 0)%Z || (b =? 0)%Z then 0%Z
  else if (Z.quot (maxPRHeadJobRuns + 1) b <? a)%Z then (maxPRHeadJobRuns + 1)%Z
  else wrap64 (a * b).

Section Count.
Context `{MapRange}.

(** The loop over a job's dimensions, in the order Go ranges over them. *)
Definition combo_count (m : gmap string (list string)) : Z :=
  foldl (fun combos kv => match kv.2 with [] => combos | vs => mulSatPRHead combos (Z.of_nat (length vs)) end) 1%Z (range_map m).
(** [notifs]: the project's notifications, [Some None] when they do not decode. *)
Definition prHeadNotifCount (def : Pipeline) (notifs : option (option (list Notification))) : nat :=
  match Notifications def with
  | Some l => length l
  | None => length (default [] (default None notifs))
  end.
Fixpoint count_jobs_from (total : Z) (jobs : list Job) (rest : nat) : Z :=
  match jobs with
  | [] =>
      let total := wrap64 (total + Z.of_nat rest) in
      if (maxPRHeadJobRuns <? total)%Z then (maxPRHeadJobRuns + 1)%Z else total
  | j :: jobs =>
      let total := wrap64 (total + combo_count (Job_Matrix j)) in
      if (maxPRHeadJobRuns <? total)%Z then (maxPRHeadJobRuns + 1)%Z else count_jobs_from total jobs rest
  end.
Definition prHeadJobCount (def : Pipeline) (notifs : option (option (list Notification))) : Z :=
  count_jobs_from 0 (Jobs def) (prHeadNotifCount def notifs).

(** The rows a run of the definition has. *)
Definition rows_of (jobs : list Job) : nat := sum_list_with (fun j => length (expandMatrix (Job_Matrix j))) jobs.

Lemma wrap64_small z : (- 2 ^ 63 <= z < 2 ^ 63)%Z -> wrap64 z = z.
Proof. intros Hz. unfold wrap64. rewrite Z.mod_small; lia. Qed.

(** Nothing overflows: the product is taken only while it is small. *)
Lemma mulSat_min a b : (0 < a <= maxPRHeadJobRuns + 1)%Z -> (0 < b)%Z -> mulSatPRHead a b = Z.min (maxPRHeadJobRuns + 1) (a * b).
Proof.
  intros Ha Hb. unfold mulSatPRHead, maxPRHeadJobRuns in *. rewrite (proj2 (Z.eqb_neq a 0)), (proj2 (Z.eqb_neq b 0)) by lia. cbn [orb].
  rewrite Z.quot_div_nonneg by lia. destruct (Z.ltb_spec ((1000 + 1) / b) a) as [Hlt|Hle].
  - assert (1000 + 1 < a * b)%Z; [|lia]. pose proof (Z.mul_succ_div_gt (1000 + 1) b Hb). nia.
  - assert (a * b <= 1000 + 1)%Z; [|rewrite wrap64_small; lia]. pose proof (Z.mul_div_le (1000 + 1) b Hb). nia.
Qed.

Definition dim (vs : list string) : nat := match vs with [] => 1 | _ => length vs end.
Definition product (l : list nat) : nat := foldr Nat.mul 1 l.
#[local] Instance product_proper : Proper ((≡ₚ) ==> (=)) product.
Proof. intros l k Hlk. unfold product. induction Hlk; simpl; lia. Qed.

Lemma combos_saturate l acc :
  (0 < acc <= maxPRHeadJobRuns + 1)%Z ->
  foldl (fun combos (kv : string * list string) => match kv.2 with [] => combos | vs => mulSatPRHead combos (Z.of_nat (length vs)) end) acc l =
  Z.min (maxPRHeadJobRuns + 1) (acc * Z.of_nat (product (dim <$> l.*2))).
Proof.
  revert acc. induction l as [|[k vs] l IH]; intros acc Hacc; [cbn; lia|].
  assert (forall l : list (string * list string), 0 < product (dim <$> l.*2)) as Hp.
  { clear. induction l as [|[k vs] l IH]; [simpl; lia|]. assert (0 < dim vs) by (destruct vs; simpl; lia).
    change (0 < dim vs * product (dim <$> l.*2)). nia. }
  specialize (Hp l). change (product (dim <$> ((k, vs) :: l).*2)) with (dim vs * product (dim <$> l.*2)).
  rewrite Nat2Z.inj_mul. cbn [foldl snd]. set (n := product (dim <$> l.*2)) in *.
  assert (0 < Z.of_nat (dim vs))%Z as Hd by (destruct vs; simpl; lia).
  destruct vs as [|v vs]; [rewrite IH by done; cbn [dim]; f_equal; lia|].
  change (length (v :: vs)) with (dim (v :: vs)). rewrite mulSat_min by lia.
  rewrite IH; unfold maxPRHeadJobRuns in *; [|nia]. fold n. nia.
Qed.

(** As many combinations as the run has rows for the job, whatever the order of the
    dimensions. *)
Lemma length_expand_dim m cs k : length (expand_dim m cs k) = length cs * dim (default [] (m !! k)).
Proof.
  unfold expand_dim. destruct (default [] (m !! k)) as [|v vs] eqn:Hk; [simpl; lia|].
  cbn [dim]. induction cs as [|c cs IH]; [done|]. rewrite bind_cons, length_app, IH, length_fmap. simpl. lia.
Qed.
Lemma length_expandMatrix m : length (expandMatrix m) = product (dim <$> (range_map m).*2).
Proof.
  unfold expandMatrix. case_decide as Hm.
  { subst. rewrite (range_map_perm (list string) ∅). by rewrite map_to_list_empty. }
  assert (forall keys cs, length (foldl (expand_dim m) cs keys) = length cs * product ((fun k => dim (default [] (m !! k))) <$> keys)) as Hlen.
  { induction keys as [|k keys IH]; intros cs; [cbn; lia|]. cbn [foldl]. rewrite IH, length_expand_dim, fmap_cons.
    unfold product. cbn [foldr]. by rewrite Nat.mul_assoc. }
  rewrite Hlen. simpl. rewrite Nat.add_0_r. unfold sorted_keys, sort_strings. rewrite (merge_sort_Permutation String.le (range_map m).*1).
  f_equal. rewrite <- !list_fmap_compose. apply list_fmap_ext. intros i [k vs] Hi. simpl. f_equal.
  apply list_elem_of_lookup_2, elem_of_range_map in Hi. by rewrite Hi.
Qed.
Lemma combo_count_min m : combo_count m = Z.min (maxPRHeadJobRuns + 1) (Z.of_nat (length (expandMatrix m))).
Proof. unfold combo_count. rewrite combos_saturate by (unfold maxPRHeadJobRuns; lia). rewrite length_expandMatrix. lia. Qed.

Lemma count_from_min jobs total rest :
  (0 <= total <= maxPRHeadJobRuns)%Z -> (Z.of_nat rest < 2 ^ 62)%Z ->
  count_jobs_from total jobs rest = Z.min (maxPRHeadJobRuns + 1) (total + Z.of_nat (rows_of jobs + rest)).
Proof.
  intros Ht Hr. unfold rows_of. revert total Ht. induction jobs as [|j jobs IH]; intros total Ht; cbn [count_jobs_from sum_list_with].
  - unfold maxPRHeadJobRuns in *. rewrite wrap64_small by lia. cbn zeta. destruct (Z.ltb_spec 1000 (total + Z.of_nat rest)); lia.
  - rewrite combo_count_min. unfold maxPRHeadJobRuns in *. rewrite wrap64_small by lia. cbn zeta.
    destruct (Z.ltb_spec 1000 (total + Z.min (1000 + 1) (Z.of_nat (length (expandMatrix (Job_Matrix j)))))) as [Hlt|Hle]; [lia|].
    rewrite IH; lia.
Qed.

(** What a creation inserts. *)
Context (stage_id job_id : nat -> uuid) `{!Inj (=) (=) stage_id, !Inj (=) (=) job_id}.

Lemma length_user_rows in_ : length (user_rows stage_id in_) = rows_of (Jobs (Def in_)).
Proof.
  unfold user_rows, rows_of. induction (Jobs (Def in_)) as [|j l IH]; [done|].
  cbn [sum_list_with]. rewrite bind_cons, length_app, IH, length_fmap. done.
Qed.
Lemma created_size in_ c :
  insertRunRowsTx stage_id job_id in_ = Ok c ->
  size (jobs (rc_db c)) = rows_of (Jobs (Def in_)) + prHeadNotifCount (Def in_) (ProjectNotifs in_).
Proof.
  intros Hc. destruct (created_inv stage_id job_id in_ c Hc) as [l Hl].
  destruct (created_rows stage_id job_id in_ l Hl) as (c' & Hc' & Hdb & _). assert (c' = c) as -> by congruence.
  rewrite Hdb. cbn [jobs layout]. rewrite table_size by done. rewrite length_fmap, length_app, length_fmap, length_user_rows.
  f_equal. unfold notification_rows. rewrite length_imap. destruct Hl as (_ & _ & He & _).
  unfold effective_notifications in He. unfold prHeadNotifCount.
  destruct (Notifications (Def in_)) as [k|]; [by injection He as <-|]. by destruct (ProjectNotifs in_) as [[k|]|]; simplify_eq/=.
Qed.

(** The count the cap is taken on is exact up to the cap and never overflows: it is
    the number of job rows the creation of the run inserts - every combination of every
    matrix, in whatever order its dimensions are ranged over, and every notification -
    or one more than the cap when that is greater. *)
Theorem head_count_exact in_ c :
  (Z.of_nat (prHeadNotifCount (Def in_) (ProjectNotifs in_)) < 2 ^ 62)%Z ->
  insertRunRowsTx stage_id job_id in_ = Ok c ->
  prHeadJobCount (Def in_) (ProjectNotifs in_) = Z.min (maxPRHeadJobRuns + 1) (Z.of_nat (size (jobs (rc_db c)))).
Proof.
  intros Hn Hc. rewrite (created_size in_ c Hc). unfold prHeadJobCount.
  rewrite count_from_min; [lia|unfold maxPRHeadJobRuns; lia|done].
Qed.
End Count.

(** ** The definition *)

Definition strip_service (s : Service) : Service := {|
  Service_Name := Service_Name s; Service_Image := Service_Image s; Service_Env := Service_Env s;
  Service_Command := Service_Command s; Service_NodeSelector := ∅; Service_Tolerations := [] |}.
Definition stripHeadServiceScheduling (l : list Service) : list Service := strip_service <$> l.

(** [candidate := baseDef], and the four fields that are assigned. *)
Definition with_graph (base : Pipeline) (stages : list string) (jobs : list Job) (services : list Service) (variables : gmap string string) : Pipeline := {|
  Pipeline_ID := Pipeline_ID base; ProjectID := ProjectID base; Pipeline_Name := Pipeline_Name base;
  Materials := Materials base; Stages := stages; Jobs := jobs; Pipeline_Variables := variables;
  Template := Template base; Concurrency := Concurrency base; Supersede := Supersede base;
  TriggerEvents := TriggerEvents base; TriggerBranches := TriggerBranches base; TriggerPaths := TriggerPaths base;
  Services := services; Notifications := Notifications base |}.
Definition candidate (base head : Pipeline) : Pipeline :=
  with_graph base (Stages head) (Jobs head) (stripHeadServiceScheduling (Services head)) (Pipeline_Variables head).

Inductive head_error := ErrPRHeadProfile (e : resolve_error) | ErrPRHeadCluster (e : resolve_error) | ErrPRHeadTooManyJobs.

Section Head.
Context `{MapRange} {Quantity : Type}.
Variable ParseQuantity : string -> option Quantity.
Variable Cmp : Quantity -> Quantity -> comparison.
Variable GetRunnerProfileByName : string -> result row_error RunnerProfile.
Variable ClusterExists : string -> option bool.

Definition head_definition (base head : Pipeline) (policies : list Policy) (notifs : option (option (list Notification))) : result head_error Pipeline :=
  let effective := ApplyPolicies (candidate base head) policies in
  pipes ← map_err ErrPRHeadProfile (resolveProfiles ParseQuantity Cmp GetRunnerProfileByName [effective]);
  let effective := default effective (list.head pipes) in
  _ ← map_err ErrPRHeadCluster (resolveClusters ClusterExists [effective]);
  if (maxPRHeadJobRuns <? prHeadJobCount effective notifs)%Z then Err ErrPRHeadTooManyJobs else Ok effective.

Lemma map_err_Ok {E F A} (g : E -> F) (r : result E A) a : map_err g r = Ok a <-> r = Ok a.
Proof. destruct r; simpl; naive_solver. Qed.

Lemma head_definition_inv base head policies notifs def :
  head_definition base head policies notifs = Ok def ->
  resolved ParseQuantity Cmp GetRunnerProfileByName (ApplyPolicies (candidate base head) policies) def /\
  resolveClusters ClusterExists [def] = Ok tt /\ (prHeadJobCount def notifs <= maxPRHeadJobRuns)%Z.
Proof.
  unfold head_definition. rewrite bind_Ok. intros (pipes & Hr%map_err_Ok & Hrest).
  apply profiles_resolved in Hr. apply Forall2_cons_inv_l in Hr as (p & l & Hp & Hl & ->). apply Forall2_nil_inv_l in Hl as ->.
  cbn [list.head default id] in Hrest. apply bind_Ok in Hrest as ([] & Hc%map_err_Ok & Hrest).
  unfold id in *. destruct (Z.ltb_spec maxPRHeadJobRuns (prHeadJobCount p notifs)); [done|]. by injection Hrest as <-.
Qed.

Lemma refines_name j j' : refines_job j j' -> Job_Name j' = Job_Name j.
Proof. intros [Hs _ _ _ _ _ _]. symmetry. exact (f_equal Job_Name Hs). Qed.
Lemma filter_refined name l k x :
  Forall2 refines_job l k -> filter (fun j => Job_Name j = name) l = [x] ->
  exists y, filter (fun j => Job_Name j = name) k = [y] /\ refines_job x y.
Proof.
  intros Hlk Hf. assert (Forall2 refines_job (filter (fun j => Job_Name j = name) l) (filter (fun j => Job_Name j = name) k)) as Hff.
  { clear Hf. induction Hlk as [|j j' l k Hj _ IH]; [constructor|]. rewrite !filter_cons, (refines_name _ _ Hj).
    case_decide; [by constructor|done]. }
  rewrite Hf in Hff. apply Forall2_cons_inv_l in Hff as (y & rest & Hy & Hrest & ->).
  apply Forall2_nil_inv_l in Hrest as ->. by exists y.
Qed.

(** What the base decides, and what the head may. *)
Lemma effective_envelope base head policies :
  let e := ApplyPolicies (candidate base head) policies in
  e = with_graph base (Stages e) (Jobs e) (stripHeadServiceScheduling (Services head)) (Pipeline_Variables head).
Proof.
  assert (same_rest (ApplyPolicies (candidate base head) policies) (candidate base head)) as Hr.
  { destruct policies as [|p ps]; [done|]. rewrite ApplyPolicies_fold by done. exact (same_rest_foldl (start (candidate base head)) _). }
  cbv zeta. revert Hr. generalize (ApplyPolicies (candidate base head) policies) as e. intros e Hr.
  transitivity (with_stages_jobs e (Stages e) (Jobs e)); [symmetry; apply with_stages_jobs_id|]. rewrite (same_rest_with _ _ _ _ Hr). reflexivity.
Qed.
Context (stage_id job_id : nat -> uuid) `{!Inj (=) (=) stage_id, !Inj (=) (=) job_id}.

(** C40: Whatever a pull request's head declares, what runs is confined: everything but
    stages, jobs, services and variables is the base's; the services are the head's, none
    picks its nodes; every job of a policy in force is there, alone of its name and with
    what it declares; every job and stage is that of a policy in force, or the head's own,
    without a reserved name if there are policies and only when none overrides; a job that
    names a runner profile is within its caps, and every cluster named is registered; and
    the run has at most a thousand job rows. *)
Theorem head_run_confined base head policies notifs def :
  head_definition base head policies notifs = Ok def ->
  Forall policy_ok policies -> NoDup (Job_Name <$> policy_jobs policies) ->
  (Z.of_nat (prHeadNotifCount base notifs) < 2 ^ 62)%Z ->
  let ordered := stable_sort policy_lt policies in
  let own name := policies = [] \/ reserved name = false in
  (exists services, def = with_graph base (Stages def) (Jobs def) services (Pipeline_Variables head) /\
     Forall2 (fun s s' => Service_Name s' = Service_Name s /\ Service_Image s' = Service_Image s /\ Service_Env s' = Service_Env s /\
       Service_Command s' = Service_Command s /\ Service_NodeSelector s' = ∅ /\ Service_Tolerations s' = []) (Services head) services) /\
  (forall l1 p l2 j, ordered = l1 ++ p :: l2 -> Forall (fun q => overrides q = false) l2 ->
     j ∈ Jobs (Policy_Pipeline p) ->
     exists j', filter (fun k => Job_Name k = Job_Name j) (Jobs def) = [j'] /\ refines_job j j') /\
  (forall j, j ∈ Jobs def -> exists h, refines_job h j /\ comes_from Jobs (fun h => h ∈ Jobs head /\ own (Job_Name h)) ordered h) /\
  (forall s, s ∈ Stages def -> comes_from Stages (fun s => s ∈ Stages head /\ own s) ordered s) /\
  (forall j, j ∈ Jobs def -> Job_Profile j <> "" ->
     exists p, GetRunnerProfileByName (Job_Profile j) = Ok p /\ capped ParseQuantity Cmp p (Job_Resources j)) /\
  (forall j name, j ∈ Jobs def -> names_cluster j name -> ClusterExists name = Some true) /\
  (forall in_ c, Def in_ = def -> ProjectNotifs in_ = notifs -> insertRunRowsTx stage_id job_id in_ = Ok c ->
     size (jobs (rc_db c)) <= 1000).
Proof.
  intros ([Hrest Hjobs Hcaps] & Hclusters & Hcount)%head_definition_inv Hok Hnd Hn.
  pose proof (effective_envelope base head policies) as He. cbv zeta in He.
  destruct (ApplyPolicies_from (candidate base head) policies) as [Hfrom Hstages]. cbv zeta in Hfrom, Hstages |- *.
  split; [|split; [|split; [|split; [|split; [|split]]]]].
  - rewrite Hrest, He. exists (stripHeadServiceScheduling (Services head)). split; [reflexivity|]. apply Forall2_fmap_r, Forall_Forall2_diag, Forall_forall. done.
  - intros l1 p l2 j Hs Hl2 Hj. destruct (in_force (candidate base head) policies l1 l2 p Hok Hnd Hs Hl2) as [Hforce _].
    eapply filter_refined; [exact Hjobs|by apply Hforce].
  - intros j' Hj'. destruct (Forall2_member_r _ _ _ _ Hjobs Hj') as (j & Hj & Href). exists j. split; [done|]. by apply Hfrom.
  - intros s Hs. apply Hstages. by rewrite Hrest in Hs.
  - exact Hcaps.
  - intros j name Hj Hname. eapply resolveClusters_Ok; [exact Hclusters|left|exact Hj|exact Hname].
  - intros in_ c Hd Hp Hc. rewrite <- Hd, <- Hp in Hcount. unfold prHeadJobCount in Hcount.
    assert (prHeadNotifCount (Def in_) (ProjectNotifs in_) = prHeadNotifCount base notifs) as Hnc.
    { rewrite Hd, Hp, Hrest, He. done. }
    rewrite count_from_min in Hcount; [|unfold maxPRHeadJobRuns; lia|by rewrite Hnc].
    rewrite (created_size stage_id job_id in_ c Hc). unfold maxPRHeadJobRuns in Hcount. lia.
Qed.
End Head.

(** ** The provenance of the run *)

(** A decoded JSON value: whole and other numbers are both Go's [float64]. *)
Inductive json := JNull | JBool (b : bool) | JWhole (n : Z) | JFraction | JString (s : string) | JNested.

(** [runs.go], [prLaneRef] on what [json.Unmarshal] gives it. *)
Definition prLaneRef (v : option json) : option string :=
  match v with
  | Some (JWhole n) => if (n <? 1)%Z then None else Some ("pr:" +:+ itoa n)
  | Some (JString s) => match Atoi s with
                        | Some n => if (n <? 1)%Z then None else Some ("pr:" +:+ itoa n)
                        | None => None
                        end
  | _ => None
  end.
Definition prHeadLaneRef (detail : option (gmap string json)) (branch : string) : string :=
  default branch (prLaneRef (detail ≫= (.!! "pr_number"))).

Record head_input := { HI_Provider : string; HI_Delivery : string; HI_MaterialID : string; HI_Revision : string }.
(** [detail]: the caller's metadata, [Some None] a literal null and [None] no object.  The
    store's own keys are written last. *)
Definition prHeadCauseDetail (in_ : head_input) (detail : option (option (gmap string json))) (modID : Z) (defBytes : string) : option (gmap string json) :=
  match detail with
  | None | Some None => None
  | Some (Some detail) => Some (
      <["config_digest" := JString (sha256_hex defBytes)]> (<["config_revision" := JString (HI_Revision in_)]>
      (<["config_source" := JString "pr_head"]> (<["modification_id" := JWhole modID]>
      (<["material_id" := JString (HI_MaterialID in_)]> (<["delivery" := JString (HI_Delivery in_)]>
      (<["provider" := JString (HI_Provider in_)]> detail)))))))
  end.
Definition isPRHeadCauseDetail (detail : option (gmap string json)) : bool :=
  match detail ≫= (.!! "config_source") with Some (JString s) => bool_decide (s = "pr_head") | _ => false end.

(** The caller's metadata cannot spoof the provenance, which blocks a full rerun of the
    run, and it keeps its own keys: the lane is the pull request's. *)
Lemma cause_detail_authentic in_ detail modID defBytes out :
  prHeadCauseDetail in_ detail modID defBytes = Some out ->
  isPRHeadCauseDetail (Some out) = true /\ out !! "config_revision" = Some (JString (HI_Revision in_)) /\
  out !! "config_digest" = Some (JString (sha256_hex defBytes)) /\ out !! "material_id" = Some (JString (HI_MaterialID in_)) /\
  out !! "modification_id" = Some (JWhole modID) /\
  forall branch, prHeadLaneRef (Some out) branch = prHeadLaneRef (detail ≫= id) branch.
Proof.
  unfold prHeadCauseDetail. destruct detail as [[detail|]|]; [|done..]. intros [= <-].
  split; [unfold isPRHeadCauseDetail; cbn [mbind option_bind]; do 2 rewrite lookup_insert_ne by done; by rewrite lookup_insert_eq|]. do 4 (split; [repeat first [by rewrite lookup_insert_eq|rewrite lookup_insert_ne by done]|]).
  intros branch. unfold prHeadLaneRef. cbn [mbind option_bind]. by do 7 rewrite lookup_insert_ne by done.
Qed.

(** ** Witnesses *)

Definition example_quantity (s : string) : option Z :=
  if decide (s = "500m") then Some 500%Z else if decide (s = "1") then Some 1000%Z else if decide (s = "2") then Some 2000%Z else None.
Definition small_profile : RunnerProfile := {|
  DefaultImage := "alpine"; DefaultCPURequest := "500m"; DefaultCPULimit := "1"; DefaultMemRequest := ""; DefaultMemLimit := "";
  MaxCPU := "2"; MaxMem := ""; Profile_Tags := ["linux"] |}.
Definition example_profiles (name : string) : result row_error RunnerProfile :=
  if decide (name = "small") then Ok small_profile else Err ErrNoRows.
(** The head: a matrix of two, on the profile, its service on a node of its choice. *)
Definition head_job : Job := {|
  Job_Name := "unit"; Job_Stage := "build"; Job_Image := ""; Job_Profile := "small"; Job_Cluster := "";
  Job_Resources := zero_resources; Job_Needs := []; Job_Tasks := []; Job_Settings := ∅; Job_Variables := ∅;
  Job_Matrix := {["go" := ["1.22"; "1.23"]]}; Job_Rules := []; Job_Secrets := []; Job_Tags := []; Job_ArtifactPaths := [];
  Job_OptionalArtifactPaths := []; Job_ArtifactsWhen := ""; Job_ArtifactDeps := []; Job_Docker := false; Job_Cache := [];
  Job_Approval := None; Job_CoverageReport := None; Job_TestReports := []; Job_Outputs := ∅; Job_OutputMasks := ∅;
  Job_IDTokens := ∅; Job_Deploy := None; Job_Environment := "" |}.
Definition head_pipeline : Pipeline :=
  with_graph (mk_pipeline [] []) ["build"] [head_job]
    [{| Service_Name := "db"; Service_Image := "postgres"; Service_Env := ∅; Service_Command := [];
        Service_NodeSelector := {["pool" := "gpu"]}; Service_Tolerations := [] |}] ∅.
Definition head_result : result head_error Pipeline :=
  @head_definition library_range Z example_quantity Z.compare example_profiles (fun _ => Some true) repo_pipeline head_pipeline [scan_policy] None.
Definition head_def : Pipeline := default repo_pipeline (match head_result with Ok d => Some d | Err _ => None end).
Lemma head_resolved : head_result = Ok head_def.
Proof. vm_compute. reflexivity. Qed.
Definition head_spec : RunRowsSpec := {| Def := head_def; ProjectNotifs := None; Cause := "pull_request"; PRLabels := None; Ref := "pr:8" |}.
Definition head_created : RunCreated := match create head_spec with Ok c => c | Err _ => empty_created end.
Lemma head_created_ok : create head_spec = Ok head_created.
Proof. vm_compute. reflexivity. Qed.
Lemma scan_policy_ok : Forall policy_ok [scan_policy] /\ NoDup (Job_Name <$> policy_jobs [scan_policy]).
Proof. split; [by repeat constructor|]. vm_compute. by repeat (constructor; [set_solver|]); constructor. Qed.

Lemma head_run_confined_witness :
  size (jobs (rc_db head_created)) <= 1000 /\
  exists j, filter (fun k => Job_Name k = "_compliance_sast") (Jobs head_def) = [j] /\ Job_Stage j = "_compliance_scan".
Proof.
  destruct (@head_run_confined library_range Z example_quantity Z.compare example_profiles (fun _ => Some true) n_id n_id _ _
    repo_pipeline head_pipeline [scan_policy] None head_def head_resolved (proj1 scan_policy_ok) (proj2 scan_policy_ok) eq_refl)
    as (_ & Hpol & _ & _ & _ & _ & Hrows).
  split; [exact (Hrows head_spec head_created eq_refl eq_refl head_created_ok)|].
  destruct (Hpol [] scan_policy [] (mk_job "_compliance_sast" "_compliance_scan" [] None None "") eq_refl (Forall_nil_2 _) ltac:(left))
    as (j & Hj & Href). exists j. split; [exact Hj|]. pose proof (rj_same _ _ Href) as Hs.
  symmetry. exact (f_equal Job_Stage Hs).
Defined.
Lemma head_count_exact_witness :
  prHeadJobCount (H := library_range) head_def None = 4%Z /\ size (jobs (rc_db head_created)) = 4.
Proof.
  pose proof (@head_count_exact library_range n_id n_id _ _ head_spec head_created eq_refl head_created_ok) as H.
  assert (prHeadJobCount (H := library_range) head_def None = 4%Z) as Hc by (vm_compute; reflexivity).
  split; [exact Hc|]. change (prHeadJobCount (H := library_range) (Def head_spec) (ProjectNotifs head_spec)) with (prHeadJobCount (H := library_range) head_def None) in H.
  rewrite Hc in H. unfold maxPRHeadJobRuns in H. lia.
Defined.
