(* ===== verification/RunLive.v ===== *)
(** A run never gets stuck: what holds of an active run while gates are decided in
    their turn and no job is rerun, and that a scheduler tick can then always move
    some job on unless one is already running or waiting for a human.  The two
    conditions are needed: [RunStuck] leaves them out. *)

From S2P Require Import Prelude GoStrings Domain Parse RunTables RunOps Needs Scheduler RunInv RunKeeps RunWorld RunCreate RunProps.

(** ** The invariant *)

Definition run_active (db : RunDB) : Prop := active (r_status (run db)) = true.
(** A job that runs or has failed. *)
Definition hot (st : Status) : bool := match st with StatusRunning | StatusFailed => true | _ => false end.
Definition hot_in_turn (db : RunDB) : Prop :=
  forall id row, jobs db !! id = Some row -> hot (j_status row) = true -> stages_before_done db row.
Definition running_in_turn (db : RunDB) : Prop :=
  forall id s, stages db !! id = Some s -> s_status s = StatusRunning -> before_done db (ss_ordinal (s_spec s)).

(** [pending]: the stages a transaction still has to cascade. *)
Record live_except (pending : uuid -> Prop) (db : RunDB) : Prop := {
  lv_hot : hot_in_turn db;
  lv_running : running_in_turn db;
  lv_stage : run_active db -> forall id s, stages db !! id = Some s -> active (s_status s) = true -> ~ pending id ->
    exists row, job_in db id row /\ unfinished (j_status row) = true;
  lv_closed : run_active db -> forall id s row, stages db !! id = Some s -> active (s_status s) = false ->
    job_in db id row -> unfinished (j_status row) = false;
  lv_run : run_active db -> exists id s, stages db !! id = Some s /\ active (s_status s) = true;
}.
Notation live := (live_except (fun _ => False)).

Lemma live_weaken (P Q : uuid -> Prop) db : (forall id, P id -> Q id) -> live_except P db -> live_except Q db.
Proof. intros H [H1 H2 H3 H4 H5]. split; [done..| |done|done]. intros Hr id s Hs Ha Hq. apply (H3 Hr id s Hs Ha). auto. Qed.

Lemma distinct_grows db db' : grows db db' -> distinct_ordinals db -> distinct_ordinals db'.
Proof.
  intros Hg H id s1 id' s1' Hs Hs' He. destruct (grows_stage_inv _ _ Hg _ _ Hs) as (s & Hs0 & E & _).
  destruct (grows_stage_inv _ _ Hg _ _ Hs') as (s' & Hs0' & E' & _). apply (H id s id' s' Hs0 Hs0'). congruence.
Qed.

(** The parts that do not depend on the run: only what ends more is new. *)
Lemma in_turn_grows db db' : grows db db' ->
  (forall id row', jobs db' !! id = Some row' -> hot (j_status row') = true ->
     exists row, jobs db !! id = Some row /\ (hot (j_status row) = true \/ stages_before_done db row)) ->
  (forall id s', stages db' !! id = Some s' -> s_status s' = StatusRunning ->
     exists s, stages db !! id = Some s /\ (s_status s = StatusRunning \/ before_done db (ss_ordinal (s_spec s)))) ->
  hot_in_turn db -> running_in_turn db -> hot_in_turn db' /\ running_in_turn db'.
Proof.
  intros Hg Hj Hs Hf Hr. split.
  - intros id row' Hrow Hst. destruct (Hj _ _ Hrow Hst) as (row & Hrow0 & Hb).
    assert (Hb' : stages_before_done db row) by (destruct Hb; [by eapply Hf|done]).
    destruct (grows_job _ _ Hg _ _ Hrow0) as (r2 & Hr2 & He & _). assert (r2 = row') as -> by congruence.
    destruct Hb' as (s & Hso & Hbd). destruct (grows_stage_of _ _ Hg row row' s He Hso) as (s' & Hso' & Hsp & _).
    exists s'. split; [done|]. rewrite Hsp. by eapply grows_before_done.
  - intros id s' Hs' Hst. destruct (Hs _ _ Hs' Hst) as (s & Hs0 & Hb).
    assert (Hb' : before_done db (ss_ordinal (s_spec s))) by (destruct Hb; [by eapply Hr|done]).
    destruct (grows_stage _ _ Hg _ _ Hs0) as (s2 & Hs2 & He & _). assert (s2 = s') as -> by congruence.
    rewrite He. by eapply grows_before_done.
Qed.

(** A run that has ended owes nothing more. *)
Lemma live_ended P db db' : grows db db' -> active (r_status (run db')) = false ->
  (forall id row', jobs db' !! id = Some row' -> hot (j_status row') = true -> exists row, jobs db !! id = Some row /\ hot (j_status row) = true) ->
  (forall id s', stages db' !! id = Some s' -> s_status s' = StatusRunning -> exists s, stages db !! id = Some s /\ s_status s = StatusRunning) ->
  live db -> live_except P db'.
Proof.
  intros Hg Hr Hj Hs [Hf Hru _ _ _]. destruct (in_turn_grows db db' Hg) as [H1 H2]; [| |done|done|].
  - intros id row' Hrow Hst. destruct (Hj _ _ Hrow Hst) as (row & ? & ?). eauto.
  - intros id s' Hs' Hst. destruct (Hs _ _ Hs' Hst) as (s & ? & ?). eauto.
  - split; [done|done|..]; intros Ha; unfold run_active in Ha; congruence.
Qed.

(** ** One row changes *)

(** The row keeps its definition and had not ended. *)
Definition row_step (row row' : JobRow) : Prop :=
  j_spec row' = j_spec row /\ (j_attempt row <= j_attempt row')%Z /\ unfinished (j_status row) = true.
Definition row_change (P : uuid -> Prop) (db : RunDB) (row row' : JobRow) : Prop :=
  row' = row \/ (row_step row row' /\ (hot (j_status row') = true -> stages_before_done db row) /\
                 (unfinished (j_status row') = false -> P (js_stage (j_spec row)))).
Definition rows_change (P : uuid -> Prop) (db : RunDB) (js : gmap uuid JobRow) : Prop :=
  forall id, option_relation (row_change P db) (fun _ => False) (fun _ => False) (jobs db !! id) (js !! id).

Lemma grows_rows P db js : rows_change P db js -> grows db (with_jobs db js).
Proof.
  intros H. split; [done| |]; intros k; simpl.
  - destruct (stages db !! k); simpl; [apply stage_grows_refl|done].
  - specialize (H k). destruct (jobs db !! k) as [r|], (js !! k) as [r'|]; simpl in *; try done.
    destruct H as [->|((He & Ha & Hu) & _)]; [apply job_grows_refl|]. split; [done|]. split; [done|congruence].
Qed.
Lemma live_rows P Q db js : live_except P db -> rows_change Q db js -> live_except (fun k => P k \/ Q k) (with_jobs db js).
Proof.
  intros [Hf Hru Hs Hc Hr] Hch. pose proof (grows_rows _ _ _ Hch) as Hg.
  assert (Hback : forall i r', js !! i = Some r' -> exists r, jobs db !! i = Some r /\ row_change Q db r r').
  { intros i r' Hi. specialize (Hch i). rewrite Hi in Hch. destruct (jobs db !! i) as [r|]; [by exists r|done]. }
  destruct (in_turn_grows db (with_jobs db js) Hg) as [H1 H2]; [|intros k s' Hk Hst; by eauto|done|done|].
  { intros i r' Hi Hst. destruct (Hback _ _ Hi) as (r & Hr0 & [->|(_ & Hb & _)]); eauto. }
  split; [done|done|..]; intros Ha.
  - intros k s Hk Hac Hnp. destruct (Hs Ha k s Hk Hac) as (r & (i & Hi & Hik) & Hr'); [tauto|].
    pose proof (Hch i) as Hi'. rewrite Hi in Hi'. destruct (js !! i) as [r'|] eqn:E; simpl in Hi'; [|done]. exists r'. split.
    + exists i. split; [done|]. by destruct Hi' as [->|((-> & _) & _)].
    + destruct Hi' as [->|(_ & _ & HQ)]; [done|]. destruct (unfinished (j_status r')) eqn:Eu; [done|].
      destruct Hnp. right. rewrite <-Hik. auto.
  - intros k s r' Hk Hac (i & Hi & Hik). destruct (Hback _ _ Hi) as (r & Hr0 & [->|((He & _ & Hu) & _)]).
    + apply (Hc Ha k s r Hk Hac). by exists i.
    + pose proof (Hc Ha k s r Hk Hac) as H. rewrite H in Hu; [done|]. exists i. by rewrite <-He.
  - exact (Hr Ha).
Qed.

Lemma insert_change P db id row row' : jobs db !! id = Some row -> row_change P db row row' ->
  rows_change P db (<[id := row']> (jobs db)).
Proof.
  intros Hr Hc k. destruct (decide (k = id)) as [->|Hne]; [by rewrite lookup_insert_eq, Hr|].
  rewrite lookup_insert_ne by done. destruct (jobs db !! k); simpl; [by left|done].
Qed.
Lemma grows_row_insert db id row row' : jobs db !! id = Some row -> row_step row row' -> grows db (with_jobs db (<[id := row']> (jobs db))).
Proof.
  intros Hr (He & Ha & Hu). split; [done| |]; intros k; simpl.
  - destruct (stages db !! k); simpl; [apply stage_grows_refl|done].
  - destruct (decide (k = id)) as [->|Hne].
    + rewrite lookup_insert_eq, Hr. simpl. split; [done|]. split; [done|congruence].
    + rewrite lookup_insert_ne by done. destruct (jobs db !! k); simpl; [apply job_grows_refl|done].
Qed.
Lemma live_update P db id row row' : live_except P db -> jobs db !! id = Some row -> row_step row row' ->
  (hot (j_status row') = true -> stages_before_done db row) ->
  live_except (fun k => P k \/ (k = js_stage (j_spec row) /\ unfinished (j_status row') = false))
    (with_jobs db (<[id := row']> (jobs db))).
Proof. intros Hl Hr Hst Hh. apply live_rows; [done|]. apply (insert_change _ db id row row' Hr). right. auto. Qed.
Lemma live_update_open db id row row' : live db -> jobs db !! id = Some row -> row_step row row' ->
  (hot (j_status row') = true -> stages_before_done db row) ->
  unfinished (j_status row') = true -> live (with_jobs db (<[id := row']> (jobs db))).
Proof.
  intros Hl Hrow Hj Hb Hu. eapply live_weaken; [|by eapply live_update].
  simpl. intros k [?|[_ H]]; [done|congruence].
Qed.

(** ** A cascade *)

(** When a stage fails, no other stage is running, and none that is queued has a
    running job. *)
Section Failing.
Context (db : RunDB) (stage : uuid) (s : StageRow) (row : JobRow).
Hypothesis Hd : distinct_ordinals db.
Hypothesis Hf : hot_in_turn db.
Hypothesis Hst : stages db !! stage = Some s.
Hypothesis Hac : active (s_status s) = true.
Hypothesis Hrow : job_in db stage row.
Hypothesis Hfail : hot (j_status row) = true.

Lemma lower_ended k q : stages db !! k = Some q -> k <> stage -> active (s_status q) = true ->
  (ss_ordinal (s_spec s) < ss_ordinal (s_spec q))%Z.
Proof.
  intros Hk Hne Hq. destruct Hrow as (id & Hid & Hin). destruct (Hf _ _ Hid Hfail) as (s' & Hs' & Hb).
  unfold stage_of in Hs'. rewrite Hin in Hs'. assert (s' = s) as -> by congruence.
  destruct (Z.lt_total (ss_ordinal (s_spec s)) (ss_ordinal (s_spec q))) as [?|[E|Hlt]]; [done| |].
  - destruct Hne. symmetry. by apply (Hd stage s k q).
  - specialize (Hb _ _ Hk Hlt). congruence.
Qed.
Lemma none_before k q o : stages db !! k = Some q -> k <> stage -> active (s_status q) = true ->
  before_done db o -> o = ss_ordinal (s_spec q) -> False.
Proof. intros Hk Hne Hq Hb ->. pose proof (lower_ended k q Hk Hne Hq) as Hlt. specialize (Hb _ _ Hst Hlt). congruence. Qed.
End Failing.

Lemma failed_over_spec t db r : j_spec (failed_over t db r) = j_spec r.
Proof. unfold failed_over. by destruct (bool_decide _ && _). Qed.
Lemma settled_live P stage st s db db' c : distinct_ordinals db -> stages db !! stage = Some s ->
  settled stage st s db db' c -> grows db db' -> live_except (fun k => P k \/ k = stage) db -> live_except P db'.
Proof.
  intros Hd Hst H Hg Hl. inversion H as [Hopen|t db2 r Hac Hall Hout Hj Hs Hw Hrun]; subst.
  - destruct Hl as [Hf Hru Hs Hc Hr]. split; [done|done| |done|done]. intros Ha k q Hk Hq Hp.
    destruct (decide (k = stage)) as [->|Hne]; [|apply (Hs Ha k q Hk Hq); tauto].
    assert (q = s) as -> by congruence. destruct Hopen as [Hopen|?]; [congruence|done].
  - pose proof Hl as [Hf Hru _ _ _].
    assert (Ht : t = StatusFailed \/ t = StatusCanceled \/ t = StatusSuccess) by (unfold outcome_of in Hout; tauto).
    assert (Hback : forall id r', jobs db' !! id = Some r' -> exists r0, jobs db !! id = Some r0 /\ r' = failed_over t db r0).
    { intros id r' Hi. rewrite Hj in Hi. apply fmap_Some in Hi as (r0 & ? & ->). eauto. }
    assert (Hsback : forall id q', stages db' !! id = Some q' -> exists q, stages db !! id = Some q /\ q' = stage_after t stage id q).
    { intros id q' Hi. rewrite Hs in Hi. apply fmap_Some in Hi as (q & ? & ->). eauto. }
    destruct (in_turn_grows db db' Hg) as [H1 H2]; [| |done|done|].
    { intros id r' Hi E. destruct (Hback _ _ Hi) as (r0 & Hr0 & ->). exists r0. split; [done|left].
      unfold failed_over in E. by destruct (bool_decide _ && _). }
    { intros id q' Hi E. destruct (Hsback _ _ Hi) as (q & Hq & ->). exists q. split; [done|left].
      unfold stage_after in E. case_decide; [simpl in E; by destruct Ht as [->|[->| ->]]|]. by destruct (bool_decide _ && _ && _). }
    assert (Hact : run_active db' -> run_active db /\ exists id q, stages db' !! id = Some q /\ active (s_status q) = true).
    { unfold run_active. inversion Hrun as [Er Ho|rs Ha Hend Hrs Er]; subst.
      - rewrite Er. intros Ha. split; [done|]. destruct Ho as [?|Ho]; [done|congruence].
      - rewrite Er. simpl. unfold outcome_of in Hrs. intros Hx. exfalso. naive_solver. }
    assert (Hfin : forall r0, unfinished (j_status r0) = false -> failed_over t db r0 = r0).
    { intros r0 Hr0. unfold failed_over, queued_user, has_status. destruct (bool_decide (t = StatusFailed)); [|done]. simpl.
      rewrite !bool_decide_eq_false_2, andb_false_r; [done|intros E; by rewrite E in Hr0..]. }
    split; [done|done|..]; intros Ha; apply Hact in Ha as [Ha Hex]; [| |done].
    + intros k q' Hk Hq Hp. destruct (Hsback _ _ Hk) as (q & Hq0 & ->). unfold stage_after in Hq.
      destruct (decide (k = stage)) as [->|Hne]; [simpl in Hq; by destruct Ht as [->|[->| ->]]|].
      destruct (bool_decide (t = StatusFailed) && bool_decide (s_status q = StatusQueued) && negb (synthetic q)) eqn:Ec; [done|].
      destruct (lv_stage _ _ Hl Ha k q Hq0 Hq) as (r0 & (id & Hid & Hin) & Hu); [tauto|].
      exists (failed_over t db r0). split.
      * exists id. rewrite Hj, Hid. split; [done|]. by rewrite failed_over_spec.
      * unfold failed_over. destruct (bool_decide_reflect (t = StatusFailed)) as [->|_]; [|done]. simpl in Ec |- *.
        destruct (queued_user db r0) eqn:Eq; [|done]. exfalso.
        destruct Hout as [[_ (fr & Hfr & Hff)]|[[? _]|[? _]]]; [|done..].
        apply andb_false_iff in Ec as [Ec%bool_decide_eq_false|Ec%negb_false_iff].
        -- assert (Hrun' : s_status q = StatusRunning) by by destruct (s_status q).
           eapply (none_before db stage s fr); [exact Hd|exact Hf|exact Hst|exact Hac|exact Hfr|by rewrite Hff|exact Hq0|done|done| |done].
           by eapply Hru.
        -- unfold queued_user, in_user_stage, stage_of in Eq. rewrite Hin, Hq0, Ec in Eq. done.
    + intros k q' r' Hk Hq (id & Hid & Hin). destruct (Hsback _ _ Hk) as (q & Hq0 & ->).
      destruct (Hback _ _ Hid) as (r0 & Hr0 & ->).
      assert (Hin0 : job_in db k r0).
      { exists id. split; [done|]. by rewrite failed_over_spec in Hin. }
      destruct (decide (k = stage)) as [->|Hne]; [by rewrite (Hfin _ (Hall _ Hin0)), (Hall _ Hin0)|].
      unfold stage_after in Hq. rewrite decide_False in Hq by done.
      destruct (bool_decide (t = StatusFailed) && bool_decide (s_status q = StatusQueued) && negb (synthetic q)) eqn:Ec.
      * apply andb_true_iff in Ec as [[->%bool_decide_eq_true Eq%bool_decide_eq_true]%andb_true_iff Esy%negb_true_iff].
        destruct (unfinished (j_status r0)) eqn:Eu; [|by rewrite Hfin].
        unfold failed_over. rewrite bool_decide_eq_true_2 by done. simpl.
        destruct (queued_user db r0) eqn:Equ; [done|]. exfalso.
        assert (Hrunning : j_status r0 = StatusRunning).
        { unfold queued_user, in_user_stage, stage_of in Equ. destruct Hin0 as (id0 & _ & Hin0). rewrite Hin0, Hq0, Esy in Equ.
          simpl in Equ. apply orb_false_iff in Equ as [E1%bool_decide_eq_false E2%bool_decide_eq_false].
          by destruct (j_status r0). }
        destruct Hout as [[_ (fr & Hfr & Hff)]|[[? _]|[? _]]]; [|done..].
        destruct Hin0 as (id0 & Hid0 & Hin0). destruct (Hf id0 r0 Hid0) as (q2 & Hq2 & Hb); [by rewrite Hrunning|].
        unfold stage_of in Hq2. rewrite Hin0 in Hq2. assert (q2 = q) as -> by congruence.
        eapply (none_before db stage s fr); [exact Hd|exact Hf|exact Hst|exact Hac|exact Hfr|by rewrite Hff|exact Hq0|done|by rewrite Eq|exact Hb|done].
      * rewrite (Hfin r0); by apply (lv_closed _ _ Hl Ha k q r0).
Qed.

Lemma settled_grows stage st s db db' c : stages db !! stage = Some s -> settled stage st s db db' c -> grows db db'.
Proof.
  intros Hst H. inversion H as [|t db2 r Hac Hall Hout Hj Hs Hw Hrun]; subst; [done|]. split.
  - inversion Hrun as [Er _|rs Ha _ _ _]; subst; [by rewrite Er|congruence].
  - intros id. rewrite Hs. destruct (stages db !! id) as [q|] eqn:Eq; simpl; [|done]. unfold stage_after. case_decide as Hid.
    + subst. assert (q = s) as -> by congruence. split; [done|congruence].
    + destruct (bool_decide (t = StatusFailed) && bool_decide (s_status q = StatusQueued) && negb (synthetic q)) eqn:E;
        [|apply stage_grows_refl].
      apply andb_true_iff in E as [[_ E%bool_decide_eq_true]%andb_true_iff _]. split; [done|]. by rewrite E.
  - intros id. rewrite Hj. destruct (jobs db !! id) as [q|]; simpl; [|done]. unfold failed_over.
    destruct (bool_decide (t = StatusFailed) && queued_user db q) eqn:E; [|apply job_grows_refl].
    apply andb_true_iff in E as [_ [_ E]%andb_true_iff]. split; [done|]. split; [simpl; lia|]. intros Hf.
    apply orb_true_iff in E as [E|E]; apply has_status_true in E; by rewrite E in Hf.
Qed.
Lemma live_cascade P stage st db db' c : distinct_ordinals db -> live_except (fun k => P k \/ k = stage) db ->
  cascadeAfterJobCompletion stage st db = Ok (db', c) -> live_except P db' /\ grows db db'.
Proof.
  intros Hd Hl Hc. pose proof (cascade_exact stage st db) as H. rewrite Hc in H. destruct H as (s & Hs & H).
  pose proof (settled_grows _ _ _ _ _ _ Hs H) as Hg. split; [|done]. by eapply settled_live.
Qed.

(** ** The transactions *)

Section Transactions.
Context (db : RunDB).
Hypothesis Hs : safe db.
Hypothesis Hd : distinct_ordinals db.
Hypothesis Hl : live db.

Lemma running_before id row : jobs db !! id = Some row -> j_status row = StatusRunning -> stages_before_done db row.
Proof. intros Hr Hst. apply (lv_hot _ _ Hl id row Hr). by rewrite Hst. Qed.

Lemma then_cascade_live id P f db' c :
  (forall row, jobs db !! id = Some row -> P row = true -> row_step row (f row) /\
     (hot (j_status (f row)) = true -> stages_before_done db row)) ->
  then_cascade (update_job id P f db) = Ok (Some (db', c)) -> live db'.
Proof.
  intros Hf. unfold then_cascade. destruct (update_job id P f db) as [[row' db1]|] eqn:E; [|done].
  apply update_job_Some in E as (row & Hr & HP & -> & ->). destruct (Hf row Hr HP) as [Hst Hh]. intros H.
  destruct (cascadeAfterJobCompletion _ _ _) as [[db2 c2]|] eqn:Ec; [|done]. simpl in H. injection H as <- _.
  eapply live_cascade; [|eapply live_weaken; [|by eapply live_update]|exact Ec].
  - by eapply distinct_grows; [eapply grows_row_insert|].
  - simpl. destruct Hst as (He & _). rewrite He. tauto.
Qed.
Lemma update_live id P f row' db' :
  (forall row, jobs db !! id = Some row -> P row = true -> row_step row (f row) /\ unfinished (j_status (f row)) = true /\
     (hot (j_status (f row)) = true -> stages_before_done db row)) ->
  update_job id P f db = Some (row', db') -> live db'.
Proof.
  intros Hf E. apply update_job_Some in E as (row & Hr & HP & -> & ->). destruct (Hf row Hr HP) as (Hst & Hu & Hh).
  by eapply live_update_open.
Qed.

Lemma CompleteJob_live i db' c : knows db i -> CompleteJob i db = Ok (Some (db', c)) -> live db'.
Proof.
  intros Hk. unfold CompleteJob. destruct (negb _); [done|]. destruct (negb (PrecheckJobCompletion _ _)); [done|].
  apply then_cascade_live. intros row Hr Hc. pose proof Hc as [Ha _]%andb_true_iff. apply active_cases in Ha. split.
  - split_and!; [done|simpl; lia|]. by destruct Ha as [-> | ->].
  - intros _. destruct Ha as [Ha|Ha]; [|by eapply running_before]. by destruct (Hk _ Hr Hc Ha).
Qed.
Lemma SkipJob_live id db' c : SkipJob id db = Ok (Some (db', c)) -> live db'.
Proof.
  apply then_cascade_live. intros row Hr HP%has_status_true. split; [|done]. split_and!; [done|simpl; lia|by rewrite HP].
Qed.
Lemma FailJobWithReason_live id reason db' c :
  (forall row, jobs db !! id = Some row -> j_status row = StatusQueued -> stages_before_done db row) ->
  FailJobWithReason id reason db = Ok (Some (db', c)) -> live db'.
Proof.
  intros Hk. apply then_cascade_live. intros row Hr HP%has_status_true.
  split; [|intros _; by apply (Hk row)]. split_and!; [done|simpl; lia|by rewrite HP].
Qed.
Lemma claim_live id agent row' db' : claimable_job db id -> update_job id unclaimed (with_agent agent) db = Some (row', db') -> live db'.
Proof.
  intros Hk. apply update_live. intros row Hr [HP%has_status_true _]%andb_true_iff. split_and!; [|done|].
  - split_and!; [done|simpl; lia|by rewrite HP].
  - intros _. by destruct (Hk _ Hr) as (_ & _ & Hb).
Qed.
Lemma requeue_live id m attempt agent row' db' : requeueStaleJob id m attempt agent db = Some (row', db') -> live db'.
Proof.
  apply update_live. intros row Hr HP. apply andb_true_iff in HP as [HP _]. apply andb_true_iff in HP as [HP _].
  apply andb_true_iff in HP as [HP%has_status_true _]. split_and!; [|done|done]. split_and!; [done|simpl; lia|by rewrite HP].
Qed.
Lemma failJobIfStale_live id attempt agent reason db' c : failJobIfStale id attempt agent reason db = Ok (Some (db', c)) -> live db'.
Proof.
  apply then_cascade_live. intros row Hr HP. apply andb_true_iff in HP as [HP _]. apply andb_true_iff in HP as [HP%has_status_true _].
  split; [|intros _; by apply (running_before id)]. split_and!; [done|simpl; lia|by rewrite HP].
Qed.
Lemma settle_gate_live id approved db' c :
  (forall row, jobs db !! id = Some row -> in_ordinal db (active_stage db) row = true) ->
  settle_gate id approved db = Ok (Some (db', c)) -> live db'.
Proof.
  intros Hk. apply then_cascade_live. intros row Hr [_ HP%has_status_true]%andb_true_iff.
  split; [split_and!; [done|simpl; lia|by rewrite HP]|]. intros _. specialize (Hk row Hr). unfold in_ordinal in Hk.
  destruct (stage_of db row) as [s|] eqn:Hso; [|done]. destruct (active_stage db) as [o|] eqn:Ho; [|done].
  apply Z.eqb_eq in Hk as <-. exists s. split; [done|]. apply active_stage_Some in Ho as [_ Ho].
  intros k s' Hk Hlt. destruct (active (s_status s')) eqn:Ha; [|done]. specialize (Ho _ _ Hk Ha). lia.
Qed.
Lemma UnassignJob_live id agent attempt db' st : UnassignJob id agent attempt db = Ok (Some (db', st)) -> live db'.
Proof.
  unfold UnassignJob, UnassignJobRun. destruct (update_job _ _ _ _) as [[row' db1]|] eqn:E; [|done].
  apply update_job_Some in E as (row & Hr & HP & -> & ->). apply andb_true_iff in HP as [HP%has_status_true _].
  assert (Hst : row_step row (unassigned row)).
  { unfold unassigned. split_and!; [by case_match|case_match; simpl; lia|by rewrite HP]. }
  assert (Hh : hot (j_status (unassigned row)) = true -> stages_before_done db row) by (unfold unassigned; by case_match).
  pose proof (live_update _ _ _ _ _ Hl Hr Hst Hh) as Hl1. case_decide as Hc.
  - intros H. destruct (cascadeAfterJobCompletion _ _ _) as [[db2 c2]|] eqn:Ec; [|done]. injection H as <- _.
    eapply live_cascade; [|eapply live_weaken; [|exact Hl1]|exact Ec].
    + by eapply distinct_grows; [eapply grows_row_insert|].
    + simpl. destruct Hst as (He & _). rewrite He. tauto.
  - intros [= <- _]. eapply live_weaken; [|exact Hl1]. simpl. intros k [?|[_ Hu]]; [done|]. unfold unassigned in *.
    by destruct (j_cancel_requested_at row).
Qed.
Lemma HandleDisruptedJob_live id agent attempt m reason cls db' o :
  HandleDisruptedJob id agent attempt m reason cls db = Ok (db', o) -> live db'.
Proof.
  unfold HandleDisruptedJob. destruct cls as [cls|]; [|by intros [= <- _]]. destruct (negb _); [by intros [= <- _]|].
  set (b := _ && _ && _). set (m' := if (m <=? 0)%Z then _ else _).
  destruct (if b then requeueStaleJob id m' attempt (Some agent) db else None) as [[row' db1]|] eqn:E.
  - destruct b; [|done]. intros [= <- _]. by eapply requeue_live.
  - intros H. apply bind_Ok in H as (r & Hr & H). destruct r as [[db1 c]|]; [|by injection H as <- _].
    injection H as <- _. eapply CompleteJob_live; [|exact Hr]. by eapply agent_knows.
Qed.
Lemma CancelJobRun_live now id db' r : CancelJobRun now id db = Ok (db', r) -> live db'.
Proof.
  unfold CancelJobRun. destruct (jobs db !! id) as [row|] eqn:Hr; [|done]. destruct (j_status row) eqn:Hst; try done.
  - intros H. apply bind_Ok in H as ([db1 c] & Hc & [= <- _]).
    assert (Hrs : row_step row (cancel_job cancelOriginUserJob row)) by (split_and!; [done|simpl; lia|by rewrite Hst]).
    eapply live_cascade; [|eapply live_weaken; [|eapply (live_update _ _ _ _ _ Hl Hr Hrs); done]|exact Hc].
    + by eapply distinct_grows; [eapply grows_row_insert|].
    + simpl. tauto.
  - intros [= <- _]. destruct (j_cancel_requested_at row); [done|]. eapply live_update_open; [done|done| | |].
    + split_and!; [done|simpl; lia|by rewrite Hst].
    + intros _. by apply (running_before id).
    + simpl. by rewrite Hst.
Qed.

(** The reaper's cancels: every stage it touched is cascaded. *)
Lemma cascade_rows_live P rows db0 db' : distinct_ordinals db0 ->
  live_except (fun k => P k \/ exists kv, kv ∈ rows /\ k = js_stage (j_spec kv.2)) db0 ->
  cascade_rows rows db0 = Ok db' -> live_except P db'.
Proof.
  revert db0. induction rows as [|[id row] rows IH]; intros db0 Hd0 Hl0; simpl.
  - intros [= <-]. eapply live_weaken; [|exact Hl0]. intros k [?|(kv & Hin & _)]; [done|set_solver].
  - intros H. apply bind_Ok in H as ([db1 c] & Hc & H).
    destruct (live_cascade (fun k => P k \/ exists kv, kv ∈ rows /\ k = js_stage (j_spec kv.2)) (js_stage (j_spec row)) StatusCanceled db0 db1 c Hd0) as [Hl1 Hg]; [|exact Hc|].
    + eapply live_weaken; [|exact Hl0]. intros k [?|(kv & [->|Hin]%elem_of_cons & ->)]; [by left; left|by right|].
      left; right. eauto.
    + eapply IH; [by eapply distinct_grows|exact Hl1|exact H].
Qed.
Lemma ReclaimPendingCancels_live gone db' : ReclaimPendingCancels gone db = Ok db' -> live db'.
Proof.
  intros H. unfold ReclaimPendingCancels in H. set (rows := filter _ _) in H.
  assert (Hch : rows_change (fun k => exists kv, kv ∈ rows /\ k = js_stage (j_spec kv.2)) db
            (map_imap (fun id row => Some (if abandoned gone id row then set_status StatusCanceled row else row)) (jobs db))).
  { intros id. rewrite map_lookup_imap. destruct (jobs db !! id) as [row|] eqn:Hr; simpl; [|done].
    destruct (abandoned gone id row) eqn:E; [right|by left]. split_and!; [|done|].
    - pose proof E as E'. unfold abandoned in E'. apply andb_true_iff in E' as [E' _]. apply andb_true_iff in E' as [E'%has_status_true _].
      split_and!; [done|simpl; lia|by rewrite E'].
    - intros _. exists (id, row). split; [|done]. apply list_elem_of_filter. split; [done|]. by apply elem_of_map_to_list. }
  eapply cascade_rows_live; [|by eapply live_rows|exact H].
  eapply distinct_grows; [by eapply grows_rows|done].
Qed.

(** Runs that end. *)
Definition cooled (db1 db2 : RunDB) : Prop :=
  (forall id row', jobs db2 !! id = Some row' -> hot (j_status row') = true ->
     exists row, jobs db1 !! id = Some row /\ hot (j_status row) = true) /\
  (forall id s', stages db2 !! id = Some s' -> s_status s' = StatusRunning ->
     exists s, stages db1 !! id = Some s /\ s_status s = StatusRunning).
Lemma cooled_trans db1 db2 db3 : cooled db1 db2 -> cooled db2 db3 -> cooled db1 db3.
Proof. intros [H1 H2] [H3 H4]. split; naive_solver. Qed.
Lemma cooled_jobs P f db1 : (forall row, P row = true -> hot (j_status (f row)) = true -> hot (j_status row) = true) ->
  cooled db1 (update_jobs P f db1).
Proof.
  intros Hf. split; simpl; [|eauto]. intros id row' Hr Hh. rewrite lookup_fmap in Hr. apply fmap_Some in Hr as (row & Hr & ->).
  exists row. split; [done|]. destruct (P row) eqn:E; [by apply Hf|done].
Qed.
Lemma cooled_stages db1 : cooled db1 (CancelQueuedStagesInRun db1).
Proof.
  split; [eauto|]. intros id s' Hs1 Hst. simpl in Hs1. rewrite map_lookup_imap in Hs1. apply bind_Some in Hs1 as (s & Hs1 & [= <-]).
  exists s. split; [done|]. by destruct (_ && _).
Qed.
Lemma cooled_run r db1 : cooled db1 (with_run db1 r).
Proof. split; eauto. Qed.

Lemma terminated_live db' : kept db db' -> cooled db db' -> active (r_status (run db')) = false -> live db'.
Proof. intros [_ Hg] [H1 H2] Ha. by eapply (live_ended _ db db'). Qed.

Lemma CancelRun_live now db' l : CancelRun now db = Ok (db', l) -> live db'.
Proof.
  intros H. pose proof (CancelRun_kept now db db' l Hs H) as K. apply (terminated_live db' K).
  - unfold CancelRun in H. destruct (negb _); [done|]. unfold CancelActiveRun in H. simpl in H. destruct (active _); [|done].
    injection H as <- _. eapply cooled_trans; [|apply cooled_run]. eapply cooled_trans; [|apply cooled_stages].
    apply cooled_jobs. intros row _. unfold cancel_run_job. destruct (has_status StatusRunning row) eqn:E; [done|].
    simpl. done.
  - unfold CancelRun in H. destruct (negb _); [done|]. unfold CancelActiveRun in H. simpl in H. destruct (active _); [|done].
    by injection H as <- _.
Qed.
Lemma terminate_cooled origin now r : cooled db (terminate_run origin now r db).
Proof.
  unfold terminate_run. eapply cooled_trans; [apply cooled_run|]. eapply cooled_trans; [apply cooled_stages|].
  eapply cooled_trans; [apply cooled_jobs|apply cooled_jobs]; done.
Qed.
Lemma supersedeOne_live by_ now db' : supersedeOne by_ now db = Some db' -> live db'.
Proof.
  intros H. pose proof (supersedeOne_kept by_ now db db' Hs H) as K. unfold supersedeOne in H. destruct (active _); [|done].
  injection H as <-. apply (terminated_live _ K); [apply terminate_cooled|done].
Qed.
Lemma cancelMergeGroupOne_live now : live (cancelMergeGroupOne now db).1.
Proof.
  apply (terminated_live _ (cancelMergeGroupOne_kept now db Hs)); unfold cancelMergeGroupOne.
  - set (db1 := cancel_user_jobs _ now db). assert (H : cooled db (CancelQueuedStagesInRun db1)).
    { eapply cooled_trans; [|apply cooled_stages]. apply cooled_jobs. intros row _. unfold cancel_run_job.
      by destruct (has_status StatusRunning row). }
    destruct (active _); [|done]. eapply cooled_trans; [exact H|apply cooled_run].
  - set (db1 := CancelQueuedStagesInRun _). by destruct (active (r_status (run db1))) eqn:Ha.
Qed.
Lemma ExpireApprovalGate_live gate now db' : ExpireApprovalGate gate now db = Ok db' -> live db'.
Proof.
  intros H. pose proof (ExpireApprovalGate_kept gate now db db' Hs H) as K. unfold ExpireApprovalGate in H.
  destruct (active _); [|done]. cbn [negb] in H. destruct (jobs db !! gate); [|done]. destruct (_ && _); [|done].
  injection H as <-. apply (terminated_live _ K); [apply terminate_cooled|done].
Qed.

(** Claims and marks. *)
Lemma MarkRunRunning_live : live (MarkRunRunning db).
Proof.
  unfold MarkRunRunning. case_decide as E; [|done]. pose proof Hl as [H1 H2 H3 H4 H5].
  assert (Ha : run_active db) by (unfold run_active; by rewrite E).
  split; [exact H1|exact H2|intros _; exact (H3 Ha)|intros _; exact (H4 Ha)|intros _; exact (H5 Ha)].
Qed.
Lemma MarkStageRunning_live stage : (forall s, stages db !! stage = Some s -> before_done db (ss_ordinal (s_spec s))) ->
  live (MarkStageRunning stage db).
Proof.
  intros Hb. pose proof (MarkStageRunning_kept db Hs stage) as [_ Hg]. pose proof Hl as [H1 H2 H3 H4 H5].
  assert (Hback : forall id s', stages (MarkStageRunning stage db) !! id = Some s' -> exists s, stages db !! id = Some s /\
            active (s_status s') = active (s_status s) /\ (s' = s \/ (id = stage /\ s_spec s' = s_spec s))).
  { intros id s' Hi. simpl in Hi. rewrite map_lookup_imap in Hi. apply bind_Some in Hi as (s & Hi & [= <-]). exists s.
    split; [done|]. destruct (bool_decide (id = stage) && bool_decide (s_status s = StatusQueued)) eqn:E; [|auto].
    apply andb_true_iff in E as [Ei%bool_decide_eq_true Eq%bool_decide_eq_true]. rewrite Eq. auto. }
  destruct (in_turn_grows db _ Hg) as [K1 K2]; [by eauto| |done|done|].
  { intros id s' Hi Hst. destruct (Hback _ _ Hi) as (s & Hs0 & _ & [->|[-> He]]); [by eauto|]. exists s. split; [done|]. right. by apply Hb. }
  split; [done|done|..]; intros Ha.
  - intros id s' Hi Hac. destruct (Hback _ _ Hi) as (s & Hs0 & E & _). rewrite E in Hac. exact (H3 Ha id s Hs0 Hac).
  - intros id s' row Hi Hac. destruct (Hback _ _ Hi) as (s & Hs0 & E & _). rewrite E in Hac. exact (H4 Ha id s row Hs0 Hac).
  - destruct (H5 Ha) as (id & s & Hi & Hac). destruct (grows_stage _ _ Hg _ _ Hi) as (s' & Hi' & _). exists id, s'. split; [done|].
    destruct (Hback _ _ Hi') as (s0 & Hs0 & -> & _). by assert (s0 = s) as -> by congruence.
Qed.
End Transactions.

Lemma StartNativeDeploy_live id db db' : named db -> safe db -> live db -> claimable_job db id ->
  StartNativeDeploy id db = Some db' -> live db'.
Proof.
  intros Hn Hs Hl Hk. unfold StartNativeDeploy, StartServerManagedJob.
  destruct (update_job _ _ _ _) as [[row' db1]|] eqn:E; [|done]. simpl. intros [= <-].
  pose proof (claim_live db Hl _ _ _ _ Hk E) as Hl1. pose proof (claim_kept db Hs _ _ _ _ Hk E) as [Hs1 Hg1].
  apply update_job_Some in E as (row & Hr & HP & -> & ->). destruct (Hk _ Hr) as (_ & _ & s & Hso & Hb).
  set (db1 := with_jobs db _) in *. set (st := js_stage _).
  assert (Hl2 : live (MarkStageRunning st db1)).
  { apply MarkStageRunning_live; [done|done|]. intros s1 Hs2.
    assert (Hs3 : stages db !! js_stage (j_spec row) = Some s1) by exact Hs2. unfold stage_of in Hso.
    assert (s1 = s) as -> by congruence. by eapply (grows_before_done db). }
  pose proof (MarkRunRunning_live (MarkStageRunning st db1) Hl2) as [K1 K2 K3 K4 K5]. split; [exact K1|exact K2|exact K3|exact K4|exact K5].
Qed.
Lemma FinalizeDeployWatch_live open id a st reason db db' : named db -> safe db -> distinct_ordinals db -> live db ->
  FinalizeDeployWatch open id a st reason db = Ok (Some db') -> live db'.
Proof.
  intros Hn Hs Hd Hl. unfold FinalizeDeployWatch. destruct (deploy_verdict st); [|done]. cbn [negb].
  case_decide as Hw; [|done]. set (db1 := with_watched _ _).
  assert (Hl1 : live db1) by (destruct Hl as [K1 K2 K3 K4 K5]; split; [exact K1|exact K2|exact K3|exact K4|exact K5]).
  destruct open; cbn [negb]; [|by intros [= <-]]. intros (r & Hr & [= <-])%bind_Ok.
  destruct r as [[db2 c]|]; [|exact Hl1]. eapply (then_cascade_live db1); [exact Hd|exact Hl1| |exact Hr].
  intros row Hrow Hc. pose proof Hc as [Ha [Hag%bool_decide_eq_true Hat%Z.eqb_eq]%andb_true_iff]%andb_true_iff. simpl in Hag, Hat.
  destruct (sf_watched _ Hs _ _ Hw) as (row0 & Hrow0 & _ & Hst). assert (row0 = row) as -> by (simpl in Hrow; congruence).
  destruct Hst as [[Hst _]|Hst]; [done| |by apply active_cases in Ha as [E|E]; rewrite E in Hst].
  split; [split_and!; [done|simpl; lia|by rewrite Hst]|]. intros _. apply (lv_hot _ _ Hl1 id row Hrow). by rewrite Hst.
Qed.


(** ** Ticks and reachable states *)

Section Ticks.
Context (text_lt : string -> string -> bool) (spec : Z -> option NotificationTrigger).

Lemma committed_live {A} (r : result store_error (option (RunDB * A))) db :
  live db -> (forall db' c, r = Ok (Some (db', c)) -> live db') -> live (committed r db).
Proof. intros Hl H. destruct r as [[[db' c]|]|]; simpl; [by eapply H|done..]. Qed.

Section Treat.
Context (db : RunDB) (t : Tick) (j : DispatchableJob).
Hypothesis Hn : named db.
Hypothesis Hs : safe db.
Hypothesis Hd : distinct_ordinals db.
Hypothesis Hl : live db.
Hypothesis Hj : listed db j.

Lemma treat_live a next : remembered text_lt db (tk_status t) -> live (treat a j t next db).1.
Proof.
  intros Hm. unfold treat. pose proof (needsSatisfied_spec (dj_Needs j) (tk_status t)) as Hv.
  inversion Hv as [Hmet E|d Hdd E|d _ _ E|d _ Hc E]; simpl.
  - pose proof (met_startable text_lt db j Hj _ Hm Hmet) as Hcl. destruct (a_prep a) as [| |msg| |agent]; simpl; [done|done| | |].
    + apply committed_live; [done|]. intros db' c. apply CompleteJob_live; [done|done|].
      intros row Hr _ _. split; [done|]. by apply (listed_before db j Hj).
    + destruct (StartNativeDeploy (dj_ID j) db) eqn:Ed; simpl; [|done]. by eapply StartNativeDeploy_live.
    + destruct (AssignJob (dj_ID j) agent db) as [[row db1]|] eqn:Ed; simpl; [|done]. by eapply claim_live.
  - apply committed_live; [done|]. intros db' c. apply FailJobWithReason_live; [done|done|]. intros row Hr _. by apply (listed_before db j Hj).
  - done.
  - apply committed_live; [done|]. intros db' c. by apply SkipJob_live.
Qed.
End Treat.

Lemma advance_live a t db : named db -> safe db -> distinct_ordinals db -> live db -> tick_ok text_lt db t ->
  live (advance text_lt spec a t db).1.
Proof.
  intros Hn Hs Hd Hl [Hlist Hm]. unfold advance. destruct (tk_pc t) as [| |agent attempt|] eqn:Hpc; [done|..];
    destruct (tk_todo t) as [|j todo] eqn:Htd; simpl.
  - destruct (tk_dispatched t); [by apply MarkRunRunning_live|done].
  - assert (Hj : listed db j) by (apply Hlist; left). assert (Hm' : remembered text_lt db (tk_status t)) by by apply Hm.
    destruct (NotificationIndexFromName (dj_Name j)) as [idx notif]. destruct notif; [|by apply treat_live].
    destruct (spec idx) as [on|]; [|done]. destruct (tk_outcome t) as [o|]; [|done].
    destruct (negb _); [|by apply treat_live]. simpl. apply committed_live; [done|]. intros db' c. by apply SkipJob_live.
  - done.
  - destruct (a_delivered a); [done|]. simpl. destruct (UnassignJob _ _ _ _) as [[[db1 st]|]|] eqn:E; [|done..].
    by eapply UnassignJob_live.
  - done.
  - apply MarkStageRunning_live; [done|done|]. intros s Hst. destruct (Hlist j) as (row & Hr & Hjs & _ & _ & _ & s' & Hs' & Hb); [left|].
    unfold stage_of in Hs'. rewrite Hjs in Hs'. by assert (s' = s) as -> by congruence.
Qed.

Lemma orderly_grows db db' : grows db db' -> orderly db -> orderly db'.
Proof.
  intros Hg [H1 H2 H3 (rank & H4)]. split.
  - by eapply distinct_grows.
  - destruct H2 as (id & s & Hs). destruct (grows_stage _ _ Hg _ _ Hs) as (s' & Hs' & _). eauto.
  - intros id s' Hs'. destruct (grows_stage_inv _ _ Hg _ _ Hs') as (s & Hs & _). destruct (H3 _ _ Hs) as (row & k & Hk & Hin).
    destruct (grows_job _ _ Hg _ _ Hk) as (row' & Hk' & He & _). exists row', k. by rewrite He.
  - exists rank. intros id row' n Hr' Hn. destruct (grows_job_inv _ _ Hg _ _ Hr') as (row & Hr & He & _). rewrite He in *.
    destruct (H4 _ _ _ Hr Hn) as [Hlt Hle]. split; [done|]. intros id2 r' s1 s2 Hid2 Hname Hs1 Hs2.
    destruct (grows_job_inv _ _ Hg _ _ Hid2) as (r & Hr2 & He2 & _). unfold stage_of in Hs1, Hs2. rewrite He2 in *. rewrite He in Hs2.
    destruct (grows_stage_inv _ _ Hg _ _ Hs1) as (s10 & Hs10 & -> & _). destruct (grows_stage_inv _ _ Hg _ _ Hs2) as (s20 & Hs20 & -> & _).
    by eapply Hle.
Qed.

Lemma fresh_live db : fresh db -> orderly db -> live db.
Proof.
  intros [_ Hr Hss Hj _] [_ Hex Hst _].
  assert (Hu : forall id row, jobs db !! id = Some row -> unfinished (j_status row) = true /\ hot (j_status row) = false).
  { intros id row H. destruct (Hj _ _ H) as [-> _]. by case_match. }
  split.
  - intros id row H Hh. destruct (Hu _ _ H). congruence.
  - intros id s H E. by rewrite (Hss _ _ H) in E.
  - intros _ id s H _ _. destruct (Hst _ _ H) as (row & k & Hk & Hin). exists row. split; [by exists k|]. by eapply Hu.
  - intros _ id s row H E. by rewrite (Hss _ _ H) in E.
  - intros _. destruct Hex as (id & s & H). exists id, s. split; [done|]. by rewrite (Hss _ _ H).
Qed.

Lemma step_live w w' : sound text_lt w -> orderly (wdb w) -> live (wdb w) -> step false false text_lt spec w w' -> live (wdb w').
Proof.
  intros [Hn Hs Ht] [Hd _ _ _] Hl H. inversion H; subst; simpl; try done.
  - pose proof (advance_live a t (wdb w) Hn Hs Hd Hl (Ht _ _ H0)) as Ha.
    match goal with E : advance _ _ _ _ _ = _ |- _ => by rewrite E in Ha end.
  - eapply (CompleteJob_live (wdb w)); [done|done| |done]. by eapply agent_knows.
  - by eapply (HandleDisruptedJob_live (wdb w)).
  - by eapply (FinalizeDeployWatch_live _ _ _ _ _ (wdb w)).
  - eapply (settle_gate_live (wdb w)); [done|done| |done]. auto.
  - by eapply (ExpireApprovalGate_live (wdb w)).
  - by eapply (CancelRun_live (wdb w)).
  - by eapply (CancelJobRun_live (wdb w)).
  - by eapply (supersedeOne_live (wdb w)).
  - by apply (cancelMergeGroupOne_live (wdb w)).
  - by eapply (ReclaimPendingCancels_live (wdb w)).
  - by eapply (requeue_live (wdb w)).
  - by eapply (failJobIfStale_live (wdb w)).
Qed.
Lemma reachable_live w0 w : initial w0 -> orderly (wdb w0) -> rtc (step false false text_lt spec) w0 w ->
  sound text_lt w /\ orderly (wdb w) /\ live (wdb w).
Proof.
  intros H0 Ho Hr. pose proof (fresh_sound text_lt w0 H0) as Hsd. pose proof (fresh_live (wdb w0) (proj1 H0) Ho) as Hl. clear H0.
  induction Hr as [|w w1 w2 H1 _ IH]; [done|]. destruct (step_kept false text_lt spec w w1 Hsd H1) as [Hsd1 Hg].
  apply IH; [by eapply orderly_grows|done|exact (step_live w w1 Hsd Ho Hl H1)].
Qed.
End Ticks.

(** ** A job that can move *)

Section Progress.
Context (text_lt : string -> string -> bool).
Context (db : RunDB).
Hypothesis Hs : safe db.
Hypothesis Ho : orderly db.
Hypothesis Hl : live db.
Hypothesis Hact : run_active db.
(** Nothing runs and nothing waits for a human. *)
Hypothesis Hidle : forall id row, jobs db !! id = Some row -> j_status row <> StatusRunning /\ j_status row <> StatusAwaitingApproval.

Lemma idle_queued id row : jobs db !! id = Some row -> unfinished (j_status row) = true -> j_status row = StatusQueued.
Proof. intros Hr Hu. destruct (Hidle _ _ Hr). by destruct (j_status row). Qed.
Lemma queued_dispatchable id row : jobs db !! id = Some row -> j_status row = StatusQueued ->
  in_ordinal db (active_stage db) row = true -> dispatchable db row = true.
Proof.
  intros Hr Hq Hin. unfold dispatchable, unclaimed. rewrite Hin, andb_true_r.
  rewrite (proj2 (has_status_true _ _) Hq), (bool_decide_eq_true_2 _ (sf_queued _ Hs _ _ Hr Hq)). simpl.
  by rewrite (queued_plain db Hs _ _ Hr Hq).
Qed.

Lemma movable_from (rank : string -> nat) o :
  (forall id row n, jobs db !! id = Some row -> n ∈ js_needs (j_spec row) -> rank n < rank (js_name (j_spec row)) /\
    forall id' r s s', jobs db !! id' = Some r -> js_name (j_spec r) = n ->
      stage_of db r = Some s -> stage_of db row = Some s' -> (ss_ordinal (s_spec s) <= ss_ordinal (s_spec s'))%Z) ->
  named db -> active_stage db = Some o ->
  forall k id row, rank (js_name (j_spec row)) < k -> jobs db !! id = Some row -> j_status row = StatusQueued ->
    in_ordinal db (Some o) row = true ->
    exists id' row', jobs db !! id' = Some row' /\ dispatchable db row' = true /\
      (forall d, needsSatisfied (js_needs (j_spec row')) (snapshot text_lt db) <> blocked false false d).
Proof.
  intros Hrank Hn Hact_o. induction k as [|k IH]; intros id row Hk Hr Hq Hin; [lia|].
  pose proof (needsSatisfied_spec (js_needs (j_spec row)) (snapshot text_lt db)) as Hv.
  assert (Hd : dispatchable db row = true) by (apply (queued_dispatchable id); [done|done|by rewrite Hact_o]).
  inversion Hv as [Hmet E|d Hdd E|d _ (n & Hnin & Hpend) E|d _ Hc E].
  1, 2, 4: exists id, row; split_and!; [done|done|]; intros d0; rewrite <-E; done.
  apply snapshot_row in Hpend as (id' & r & Hr' & Hname & Hu). destruct (Hrank _ _ _ Hr Hnin) as [Hlt Hle].
  pose proof (idle_queued _ _ Hr' Hu) as Hq'. destruct (nm_fk _ Hn _ _ Hr') as [s Hso].
  unfold in_ordinal in Hin. destruct (stage_of db row) as [s'|] eqn:Hso'; [|done]. apply Z.eqb_eq in Hin.
  specialize (Hle _ _ _ _ Hr' Hname Hso eq_refl). pose proof (active_stage_Some _ _ Hact_o) as [_ Hmin].
  assert (Ha : active (s_status s) = true).
  { destruct (active (s_status s)) eqn:E0; [done|]. rewrite (lv_closed _ _ Hl Hact _ s r Hso E0) in Hu; [done|]. by exists id'. }
  specialize (Hmin _ _ Hso Ha). apply (IH id' r); [subst n; lia|done|done|].
  unfold in_ordinal. rewrite Hso. apply Z.eqb_eq. lia.
Qed.

Lemma movable : named db -> exists id row, jobs db !! id = Some row /\ dispatchable db row = true /\
  (forall d, needsSatisfied (js_needs (j_spec row)) (snapshot text_lt db) <> blocked false false d).
Proof.
  intros Hn. destruct (od_needs _ Ho) as (rank & Hrank). destruct (lv_run _ _ Hl Hact) as (sid & s & Hsid & Ha).
  destruct (active_stage db) as [o|] eqn:Eo; [|by rewrite (active_stage_None db Eo _ _ Hsid) in Ha].
  destruct (active_stage_Some _ _ Eo) as [(sid' & s' & Hs' & Ha' & Hord) _].
  destruct (lv_stage _ _ Hl Hact _ _ Hs' Ha') as (row & (id & Hid & Hin) & Hu); [tauto|].
  eapply (movable_from rank o Hrank Hn Eo (S (rank (js_name (j_spec row)))) id row); [lia|done|by eapply idle_queued|].
  unfold in_ordinal, stage_of. rewrite Hin, Hs'. by apply Z.eqb_eq.
Qed.
End Progress.

(** ** An uninterrupted tick moves it *)

(** Nothing that was not queued is queued again, what is still queued is untouched. *)
Record quiet (db db' : RunDB) : Prop := {
  qu_jobs : forall id row', jobs db' !! id = Some row' -> j_status row' = StatusQueued -> jobs db !! id = Some row';
  qu_dom : forall id, is_Some (jobs db !! id) -> is_Some (jobs db' !! id);
  qu_stages : forall id, is_Some (stages db !! id) -> is_Some (stages db' !! id);
}.
#[export] Instance quiet_preorder : PreOrder quiet.
Proof. split; [by split|]. intros a b c [H1 H2 H3] [H4 H5 H6]. split; auto. Qed.

Definition moved (db db' : RunDB) : Prop := exists id row row', jobs db !! id = Some row /\ j_status row = StatusQueued /\
  jobs db' !! id = Some row' /\ j_status row' <> StatusQueued.
Lemma moved_quiet a b c : moved a b -> quiet b c -> moved a c.
Proof.
  intros (id & row & row' & Hr & Hq & Hr' & Hn) [H1 H2 _]. destruct (H2 id) as [row2 Hr2]; [eauto|].
  exists id, row, row2. split_and!; [done..|]. intros E. specialize (H1 _ _ Hr2 E). congruence.
Qed.

Lemma quiet_insert db id row row' : jobs db !! id = Some row -> j_status row' <> StatusQueued ->
  quiet db (with_jobs db (<[id := row']> (jobs db))).
Proof.
  intros Hr Hn. split; simpl; [| |done].
  - intros k r. destruct (decide (k = id)) as [->|Hne]; [rewrite lookup_insert_eq; by intros [= ->]|by rewrite lookup_insert_ne].
  - intros k [r Hk]. destruct (decide (k = id)) as [->|Hne]; [rewrite lookup_insert_eq; eauto|rewrite lookup_insert_ne by done; eauto].
Qed.
Lemma quiet_cascade stage st db db' c : cascadeAfterJobCompletion stage st db = Ok (db', c) -> quiet db db'.
Proof.
  intros Hc. pose proof (cascade_exact stage st db) as H. rewrite Hc in H. destruct H as (s & Hs & H).
  inversion H as [|t db2 r Hac Hall Hout Hj Hst Hw Hrun]; subst; [done|]. split.
  - intros id row' Hr Hq. rewrite Hj in Hr. apply fmap_Some in Hr as (r0 & Hr0 & ->). unfold failed_over in *.
    by destruct (bool_decide _ && _).
  - intros id [r0 Hr0]. rewrite Hj, Hr0. eauto.
  - intros id [q Hq]. rewrite Hst, Hq. eauto.
Qed.

(** A transaction on a queued row of an existing stage takes it out of the queue. *)
Lemma then_cascade_moves id P f db row : jobs db !! id = Some row -> j_status row = StatusQueued -> P row = true ->
  is_Some (stage_of db row) -> j_status (f row) <> StatusQueued -> j_spec (f row) = j_spec row ->
  moved db (committed (then_cascade (update_job id P f db)) db).
Proof.
  intros Hr Hq HP [s Hso] Hf He. unfold then_cascade, update_job. rewrite Hr. simpl. rewrite HP. rewrite He.
  set (db1 := with_jobs db _). pose proof (cascade_exact (js_stage (j_spec row)) (j_status (f row)) db1) as H.
  destruct (cascadeAfterJobCompletion _ _ _) as [[db2 c]|e] eqn:Ec.
  - simpl. eapply moved_quiet; [|by eapply quiet_cascade]. exists id, row, (f row). split_and!; [done|done| |done].
    simpl. apply lookup_insert_eq.
  - destruct H as [_ H]. unfold stage_of in Hso. simpl in H. congruence.
Qed.
Lemma then_cascade_quiet id P f db : (forall row, j_status (f row) <> StatusQueued) ->
  quiet db (committed (then_cascade (update_job id P f db)) db).
Proof.
  intros Hf. unfold then_cascade. destruct (update_job id P f db) as [[row' db1]|] eqn:E; [|done].
  apply update_job_Some in E as (row & Hr & HP & -> & ->). destruct (cascadeAfterJobCompletion _ _ _) as [[db2 c]|e] eqn:Ec; simpl; [|done].
  etrans; [|by eapply quiet_cascade]. by apply (quiet_insert db id row).
Qed.
Lemma MarkStageRunning_quiet stage db : quiet db (MarkStageRunning stage db).
Proof. split; [done|done|]. intros id [s Hs]. simpl. rewrite map_lookup_imap, Hs. simpl. eauto. Qed.
Lemma MarkRunRunning_quiet db : quiet db (MarkRunRunning db).
Proof. unfold MarkRunRunning. by case_decide. Qed.

Lemma claim_quiet id agent db row db' : update_job id unclaimed (with_agent agent) db = Some (row, db') -> quiet db db'.
Proof. intros E. apply update_job_Some in E as (r & Hr & _ & -> & ->). by apply (quiet_insert db id r). Qed.
Lemma claim_moves id agent db row : jobs db !! id = Some row -> unclaimed row = true ->
  exists row' db', update_job id unclaimed (with_agent agent) db = Some (row', db') /\ moved db db'.
Proof.
  intros Hr Hu. unfold update_job. rewrite Hr. simpl. rewrite Hu. eexists _, _. split; [done|].
  exists id, row, (with_agent agent row). pose proof Hu as [Hq%has_status_true _]%andb_true_iff. split_and!; [done|done| |done].
  simpl. apply lookup_insert_eq.
Qed.
Lemma StartNativeDeploy_quiet id db : quiet db (default db (StartNativeDeploy id db)).
Proof.
  unfold StartNativeDeploy, StartServerManagedJob. destruct (update_job _ _ _ _) as [[row db1]|] eqn:E; simpl; [|done].
  transitivity db1; [by eapply claim_quiet|]. transitivity (MarkStageRunning (js_stage (j_spec row)) db1); [apply MarkStageRunning_quiet|].
  pose proof (MarkRunRunning_quiet (MarkStageRunning (js_stage (j_spec row)) db1)) as [H1 H2 H3]. by split.
Qed.
Lemma StartNativeDeploy_moves id db row : jobs db !! id = Some row -> unclaimed row = true -> moved db (default db (StartNativeDeploy id db)).
Proof.
  intros Hr Hu. destruct (claim_moves id None db row Hr Hu) as (row' & db1 & E & Hm). unfold StartNativeDeploy, StartServerManagedJob.
  rewrite E. simpl. eapply moved_quiet; [exact Hm|].
  transitivity (MarkStageRunning (js_stage (j_spec row')) db1); [apply MarkStageRunning_quiet|].
  pose proof (MarkRunRunning_quiet (MarkStageRunning (js_stage (j_spec row')) db1)) as [H1 H2 H3]. by split.
Qed.

Lemma failJobWithError_form j msg db : failJobWithError j msg db = db \/
  failJobWithError j msg db = committed (then_cascade (CompleteJobRun {| in_JobRunID := dj_ID j; in_Status := StatusFailed;
    in_ExitCode := (-1)%Z; in_ErrorMsg := msg; in_ExpectedAgentID := None; in_ExpectedAttempt := dj_Attempt j; in_Outputs := ∅ |} db)) db.
Proof.
  unfold failJobWithError, CompleteJob. simpl. destruct (PrecheckJobCompletion _ _); [by right|by left].
Qed.
Lemma completed_not_queued i row : in_Status i <> StatusQueued -> j_status (completed i row) <> StatusQueued.
Proof. unfold completed. simpl. by destruct (bool_decide _). Qed.

Section TickProgress.
Context (text_lt : string -> string -> bool) (spec : Z -> option NotificationTrigger) (answer : DispatchableJob -> Answer).
Definition is_notification (j : DispatchableJob) : bool := (NotificationIndexFromName (dj_Name j)).2.
(** The resolvers have an answer for every job of the pipeline, and agents take what
    they are sent; the synthesised notifications are held, as [Dispatch] shows. *)
Definition prompt : Prop := forall j,
  if is_notification j then a_prep (answer j) = Hold
  else a_delivered (answer j) = true /\ match a_prep (answer j) with Hold | StopTick => False | _ => True end.
Hypothesis Hprompt : prompt.

(** The listed job can be treated: its row is as it was listed, its needs are decided
    and it is no notification. *)
Record ready (db : RunDB) (m : JobStatusMap) (j : DispatchableJob) : Prop := {
  rd_row : exists row, jobs db !! dj_ID j = Some row /\ unclaimed row = true /\ is_Some (stage_of db row) /\
    j_attempt row = dj_Attempt j;
  rd_needs : forall d, needsSatisfied (dj_Needs j) m <> blocked false false d;
  rd_plain : is_notification j = false;
}.

Lemma treat_job j t next db : let r := treat (answer j) j t next db in
  quiet db r.1 /\ (r.2 = Some next \/ (is_notification j = false /\ exists agent attempt, r.2 = Some (set_tick t (tk_todo t) (PClaimed agent attempt)))) /\
  (ready db (tk_status t) j -> moved db r.1).
Proof.
  pose proof (Hprompt j) as Hprep. destruct (is_notification j) eqn:Hnj.
  { assert (Hx : treat (answer j) j t next db = (db, Some next) \/ treat (answer j) j t next db = (failJobNeedsUnmet j (Detail (needsSatisfied (dj_Needs j) (tk_status t))) db, Some next) \/
      treat (answer j) j t next db = (skipJobNeedsUnmet j db, Some next)).
    { unfold treat. rewrite Hprep. destruct (Check_Ok _), (UpstreamTerminal _), (Skip _); simpl; auto. }
    destruct Hx as [-> |[-> | ->]]; simpl; (split_and!; [|by left|intros [_ _ Hp]; congruence]); [done|by apply then_cascade_quiet..]. }
  destruct Hprep as [_ Hprep]. unfold treat. pose proof (needsSatisfied_spec (dj_Needs j) (tk_status t)) as Hv.
  assert (Hrow : ready db (tk_status t) j -> exists row, jobs db !! dj_ID j = Some row /\ j_status row = StatusQueued /\
            j_agent row = None /\ unclaimed row = true /\ is_Some (stage_of db row) /\ j_attempt row = dj_Attempt j).
  { intros [(row & Hr & Hu & Hso & Ha) _ _]. exists row.
    pose proof Hu as [Hq%has_status_true Hag%bool_decide_eq_true]%andb_true_iff. done. }
  inversion Hv as [Hmet E|d Hdd E|d _ _ E|d _ Hc E]; simpl.
  - destruct (a_prep (answer j)) as [| |msg| |agent]; [done|done|..]; simpl.
    + split_and!; [|by left|].
      * destruct (failJobWithError_form j msg db) as [-> | ->]; [done|]. apply then_cascade_quiet. intros row. by apply completed_not_queued.
      * intros (row & Hr & Hq & Hag & _ & Hso & Hat)%Hrow. destruct (failJobWithError_form j msg db) as [Hf | ->].
        -- exfalso. unfold failJobWithError, CompleteJob, PrecheckJobCompletion in Hf. simpl in Hf. rewrite Hr in Hf.
           assert (Hcm : completable None (dj_Attempt j) row = true).
           { unfold completable, snapshot_matches. rewrite Hq, Hag, Hat, bool_decide_eq_true_2, Z.eqb_refl by done. done. }
           rewrite Hcm in Hf. simpl in Hf.
           assert (Hm : moved db db).
           { rewrite <-Hf at 2. eapply then_cascade_moves; [exact Hr|done|exact Hcm|done|by apply completed_not_queued|done]. }
           destruct Hm as (id & r1 & r2 & E1 & E2 & E3 & E4). congruence.
        -- eapply then_cascade_moves; [exact Hr|done| |done|by apply completed_not_queued|done].
           unfold completable, snapshot_matches. simpl. by rewrite Hq, Hag, Hat, bool_decide_eq_true_2, Z.eqb_refl by done.
    + split_and!; [apply StartNativeDeploy_quiet|by left|].
      intros (row & Hr & _ & _ & Hu & _)%Hrow. by eapply StartNativeDeploy_moves.
    + destruct (AssignJob (dj_ID j) agent db) as [[row db1]|] eqn:Ea; simpl.
      * split_and!; [by eapply claim_quiet|right; split; [done|eauto]|]. intros (row0 & Hr & _ & _ & Hu & _)%Hrow.
        destruct (claim_moves (dj_ID j) (Some agent) db row0 Hr Hu) as (row' & db2 & E2 & Hm). unfold AssignJob in Ea. congruence.
      * split_and!; [done|by left|]. intros (row0 & Hr & _ & _ & Hu & _)%Hrow.
        destruct (claim_moves (dj_ID j) (Some agent) db row0 Hr Hu) as (row' & db2 & E2 & Hm). unfold AssignJob in Ea. congruence.
  - split_and!; [by apply then_cascade_quiet|by left|]. intros (row & Hr & Hq & _ & _ & Hso & _)%Hrow.
    eapply then_cascade_moves; [exact Hr|done| |done|done|done]. by apply has_status_true.
  - split_and!; [done|by left|]. intros [_ Hw _]. by destruct (Hw d).
  - split_and!; [by apply then_cascade_quiet|by left|]. intros (row & Hr & Hq & _ & _ & Hso & _)%Hrow.
    eapply then_cascade_moves; [exact Hr|done| |done|done|done]. by apply has_status_true.
Qed.

(** From the treatment of the head to the next job, in at most three steps. *)
Lemma treated fuel a j rest t db :
  tk_todo t = j :: rest -> tk_pc t = PJob -> a = answer j ->
  advance text_lt spec a t db = treat a j t (set_tick t rest PJob) db -> 3 <= fuel ->
  exists fuel' t' db', run_tick text_lt fuel spec answer t db = run_tick text_lt fuel' spec answer t' db' /\
    fuel <= fuel' + 3 /\ tk_todo t' = rest /\ tk_pc t' = PJob /\ tk_status t' = tk_status t /\ quiet db db' /\
    (ready db (tk_status t) j -> moved db db').
Proof.
  intros Htd Hpc -> Hadv Hf. pose proof (treat_job j t (set_tick t rest PJob) db) as (Hq & Hn & Hm).
  destruct fuel as [|fuel]; [lia|]. destruct (treat (answer j) j t (set_tick t rest PJob) db) as [db1 t1]. simpl in *.
  rewrite Htd, Hadv. destruct Hn as [-> |(Hplain & agent & attempt & ->)].
  - exists fuel, (set_tick t rest PJob), db1. by split_and!; [|lia|..].
  - destruct fuel as [|[|fuel]]; [lia..|]. cbn [run_tick]. unfold advance, set_tick. simpl. rewrite Htd.
    pose proof (Hprompt j) as Hpj. rewrite Hplain in Hpj. destruct Hpj as [-> _]. simpl.
    eexists fuel, _, _. split; [reflexivity|]. simpl. rewrite ?Htd. split_and!; [lia|done|done|done| |].
    + transitivity db1; [done|apply MarkStageRunning_quiet].
    + intros Hr. eapply moved_quiet; [by apply Hm|apply MarkStageRunning_quiet].
Qed.

Lemma informed fuel j rest t db idx on o :
  tk_todo t = j :: rest -> tk_pc t = PJob -> NotificationIndexFromName (dj_Name j) = (idx, true) -> spec idx = Some on ->
  tk_outcome t = Some o -> 3 <= fuel ->
  exists fuel' t' db', run_tick text_lt fuel spec answer t db = run_tick text_lt fuel' spec answer t' db' /\
    fuel <= fuel' + 3 /\ tk_todo t' = rest /\ tk_pc t' = PJob /\ tk_status t' = tk_status t /\ quiet db db' /\
    (ready db (tk_status t) j -> moved db db').
Proof.
  intros Htd Hpc Hidx Hon Ho Hf. destruct (NotificationTriggerMatches on o) eqn:Em.
  - apply (treated fuel (answer j)); [done..| |done]. unfold advance. by rewrite Hpc, Htd, Hidx, Hon, Ho, Em.
  - destruct fuel as [|fuel]; [lia|]. cbn [run_tick]. unfold advance. rewrite Hpc, Htd, Hidx, Hon, Ho, Em. simpl.
    eexists fuel, _, _. split; [reflexivity|]. split_and!; [lia|done|done|done|by apply then_cascade_quiet|].
    intros [(row & Hr & Hu & Hso & _) _ _]. pose proof Hu as [Hq%has_status_true _]%andb_true_iff.
    eapply then_cascade_moves; [exact Hr|done| |done|done|done]. by apply has_status_true.
Qed.
Lemma job_turn fuel j rest t db : tk_todo t = j :: rest -> tk_pc t = PJob -> 4 <= fuel ->
  exists fuel' t' db', run_tick text_lt fuel spec answer t db = run_tick text_lt fuel' spec answer t' db' /\
    fuel <= fuel' + 4 /\ tk_todo t' = rest /\ tk_pc t' = PJob /\ tk_status t' = tk_status t /\ quiet db db' /\
    (ready db (tk_status t) j -> moved db db').
Proof.
  intros Htd Hpc Hf. destruct (NotificationIndexFromName (dj_Name j)) as [idx notif] eqn:Hidx. destruct notif.
  - destruct (spec idx) as [on|] eqn:Hon.
    + destruct (tk_outcome t) as [o|] eqn:Ho.
      * destruct (informed fuel j rest t db idx on o) as (f & t' & db' & E & Hle & H); [done..|lia|].
        exists f, t', db'. split; [exact E|]. split; [lia|exact H].
      * destruct fuel as [|fuel]; [lia|]. cbn [run_tick]. unfold advance. rewrite Hpc, Htd, Hidx, Hon, Ho.
        destruct (informed fuel j rest (with_outcome t (GetRunUserStageOutcome db)) db idx on (GetRunUserStageOutcome db))
          as (f & t' & db' & E & Hle & H); [exact Htd|done..|lia|].
        exists f, t', db'. split; [exact E|]. split; [lia|exact H].
    + destruct fuel as [|fuel]; [lia|]. cbn [run_tick]. unfold advance. rewrite Hpc, Htd, Hidx, Hon.
      eexists fuel, _, _. split; [reflexivity|]. split_and!; [lia|done..|].
      intros [_ _ Hsp]. unfold is_notification in Hsp. by rewrite Hidx in Hsp.
  - destruct (treated fuel (answer j) j rest t db) as (f & t' & db' & E & Hle & H); [done..| |lia|].
    + unfold advance. by rewrite Hpc, Htd, Hidx.
    + exists f, t', db'. split; [exact E|]. split; [lia|exact H].
Qed.

(** The whole list. *)
Lemma run_tick_quiet todo fuel t db : tk_todo t = todo -> tk_pc t = PJob -> 4 * length todo + 1 <= fuel ->
  quiet db (run_tick text_lt fuel spec answer t db).
Proof.
  revert fuel t db. induction todo as [|j rest IH]; intros fuel t db Htd Hpc Hf.
  - destruct fuel as [|fuel]; [done|]. cbn [run_tick]. unfold advance. rewrite Hpc, Htd.
    destruct (tk_dispatched t); [apply MarkRunRunning_quiet|done].
  - simpl in Hf. destruct (job_turn fuel j rest t db Htd Hpc) as (f & t' & db' & -> & Hle & Htd' & Hpc' & _ & Hq & _); [lia|].
    transitivity db'; [done|]. apply IH; [done|done|lia].
Qed.
Lemma run_tick_moves todo fuel t db db0 m j : tk_todo t = todo -> tk_pc t = PJob -> tk_status t = m ->
  4 * length todo + 1 <= fuel -> j ∈ todo -> ready db0 m j -> quiet db0 db ->
  moved db0 (run_tick text_lt fuel spec answer t db).
Proof.
  intros Htd Hpc Hst Hf Hin Hready. revert fuel t db Htd Hpc Hst Hf.
  induction todo as [|j0 rest IH]; intros fuel t db Htd Hpc Hst Hf Hq; [set_solver|]. simpl in Hf.
  destruct (job_turn fuel j0 rest t db Htd Hpc) as (f & t' & db' & -> & Hle & Htd' & Hpc' & Hst' & Hq' & Hm); [lia|].
  apply elem_of_cons in Hin as [<-|Hin].
  - eapply moved_quiet; [|eapply run_tick_quiet; [exact Htd'|exact Hpc'|lia]]. rewrite Hst in Hm.
    destruct Hready as [(row & Hr & Hu & [s Hso] & Ha) Hneeds Hsp]. pose proof Hu as [Hqd%has_status_true _]%andb_true_iff.
    destruct (qu_dom _ _ Hq (dj_ID j)) as [row1 Hr1]; [eauto|].
    destruct (decide (j_status row1 = StatusQueued)) as [E1|E1].
    + pose proof (qu_jobs _ _ Hq _ _ Hr1 E1) as Hsame. assert (row1 = row) as -> by congruence.
      assert (Hmoved : moved db db').
      { apply Hm. split; [|done|done]. exists row. split_and!; [done|done| |done].
        unfold stage_of in *. apply (qu_stages _ _ Hq). eauto. }
      destruct Hmoved as (id & r1 & r2 & E2 & E3 & E4 & E5). exists id, r1, r2.
      split_and!; [|done..]. by apply (qu_jobs _ _ Hq).
    + eapply moved_quiet; [|exact Hq']. by exists (dj_ID j), row, row1.
  - apply (IH Hin f t' db'); [done|done|congruence|lia|]. by transitivity db.
Qed.
End TickProgress.

(** What the scheduler does not move: no row is left but queued notifications. *)
Definition only_notifications (db : RunDB) : Prop :=
  (exists id row, jobs db !! id = Some row /\ j_status row = StatusQueued) /\
  forall id row, jobs db !! id = Some row -> unfinished (j_status row) = true -> j_status row = StatusQueued /\ ~ user db row.
Lemma only_notifications_left db id row : named db -> live db -> run_active db ->
  (forall id row, jobs db !! id = Some row -> j_status row <> StatusRunning /\ j_status row <> StatusAwaitingApproval) ->
  jobs db !! id = Some row -> dispatchable db row = true -> (NotificationIndexFromName (js_name (j_spec row))).2 = true ->
  only_notifications db.
Proof.
  intros Hn Hl Hact Hidle Hrow Hd Hnotif. pose proof (dispatchable_spec db row Hd) as (Hu & _ & s & Hso & _).
  pose proof Hu as [Hq%has_status_true _]%andb_true_iff. split; [by exists id, row|].
  assert (Hsyn : synthetic s = true).
  { destruct (synthetic s) eqn:E; [done|]. rewrite (nm_notify _ Hn _ _ Hrow) in Hnotif; [done|]. by exists s. }
  assert (Hmin : exists o, active_stage db = Some o /\ ss_ordinal (s_spec s) = o).
  { unfold dispatchable, in_ordinal in Hd. apply andb_true_iff in Hd as [_ Hd]. rewrite Hso in Hd.
    destruct (active_stage db) as [o|]; [|done]. exists o. split; [done|by apply Z.eqb_eq]. }
  destruct Hmin as (o & Ho & Hos). apply active_stage_Some in Ho as [_ Hmin].
  intros id' r Hr Hur. split; [destruct (Hidle _ _ Hr); by destruct (j_status r)|]. intros (s' & Hso' & Hs').
  assert (Hlt : (ss_ordinal (s_spec s') < ss_ordinal (s_spec s))%Z) by (eapply (nm_last _ Hn); [exact Hso'|exact Hso|done|done]).
  assert (Ha : active (s_status s') = false).
  { destruct (active (s_status s')) eqn:E; [|done]. specialize (Hmin _ _ Hso' E). lia. }
  rewrite (lv_closed _ _ Hl Hact _ s' r Hso' Ha) in Hur; [done|]. by exists id'.
Qed.

(** C3: A run is stuck on nothing but its notifications: as long as gates are decided
    in their turn and no job is rerun, in every reachable state of a run whose stages
    all have jobs and whose needs are acyclic and never point to a later stage, either
    the run has ended, or some job is running or waiting for a human, or one
    uninterrupted scheduler tick - with resolvers that have an answer for every job of
    the pipeline and an agent that takes the job - moves a queued job on: dispatches
    it, skips it or fails it; or all that is left are queued notification jobs, which
    the scheduler holds. *)
Theorem run_never_stuck (text_lt : string -> string -> bool) (spec : Z -> option NotificationTrigger)
    (answer : DispatchableJob -> Answer) (w0 w : World) :
  initial w0 -> orderly (wdb w0) -> rtc (step false false text_lt spec) w0 w ->
  (forall j, if is_notification j then a_prep (answer j) = Hold
             else a_delivered (answer j) = true /\ match a_prep (answer j) with Hold | StopTick => False | _ => True end) ->
  active (r_status (run (wdb w))) = false \/
  (exists id row, jobs (wdb w) !! id = Some row /\ (j_status row = StatusRunning \/ j_status row = StatusAwaitingApproval)) \/
  (exists id row row', jobs (wdb w) !! id = Some row /\ j_status row = StatusQueued /\
     jobs (dispatchRun text_lt spec answer false (wdb w)) !! id = Some row' /\ j_status row' <> StatusQueued) \/
  only_notifications (wdb w).
Proof.
  intros H0 Ho Hr Hp. destruct (reachable_live text_lt spec w0 w H0 Ho Hr) as ([Hn Hs _] & Ho' & Hl).
  destruct (active (r_status (run (wdb w)))) eqn:Ha; [right|by left]. set (db := wdb w) in *.
  destruct (decide (Exists (fun kv : uuid * JobRow => j_status kv.2 = StatusRunning \/ j_status kv.2 = StatusAwaitingApproval)
              (map_to_list (jobs db)))) as [H|Hidle].
  { left. apply Exists_exists in H as ([id row] & Hin%elem_of_map_to_list & H). by exists id, row. }
  right. assert (Hidle' : forall id row, jobs db !! id = Some row -> j_status row <> StatusRunning /\ j_status row <> StatusAwaitingApproval).
  { intros id row Hr1. enough (~ (j_status row = StatusRunning \/ j_status row = StatusAwaitingApproval)) by tauto. intros H. apply Hidle, Exists_exists. exists (id, row). split; [by apply elem_of_map_to_list|exact H]. }
  destruct (movable text_lt db Hs Ho' Hl Ha Hidle' Hn) as (id & row & Hrow & Hd & Hnd).
  destruct ((NotificationIndexFromName (js_name (j_spec row))).2) eqn:Hnotif; [right; by eapply only_notifications_left|left].
  assert (Hin : dispatchable_of (id, row) ∈ ListDispatchableJobs text_lt db) by (apply elem_of_dispatchable; eauto).
  unfold dispatchRun, start_tick. destruct (ListDispatchableJobs text_lt db) as [|j0 l] eqn:El; [set_solver|].
  unfold tick_fuel. cbn [tk_todo]. change (2 + 4 * length (j0 :: l)) with (S (1 + 4 * length (j0 :: l))).
  cbn [run_tick]. cbn [advance tk_pc]. eapply (run_tick_moves text_lt spec answer Hp (j0 :: l)); [done|done|reflexivity|lia|exact Hin| |done].
  pose proof (dispatchable_spec db row Hd) as (Hu & _ & s & Hso & _). split.
  - exists row. split_and!; [done|done|by exists s|done].
  - exact Hnd.
  - exact Hnotif.
Qed.

Definition example_answer (j : DispatchableJob) : Answer :=
  if is_notification j then {| a_prep := Hold; a_delivered := false |} else to_agent.
Lemma example_prompt : forall j : DispatchableJob,
  if is_notification j then a_prep (example_answer j) = Hold
  else a_delivered (example_answer j) = true /\ match a_prep (example_answer j) with Hold | StopTick => False | _ => True end.
Proof. intros j. unfold example_answer. by destruct (is_notification j). Qed.
Lemma run_never_stuck_witness :
  exists id row, jobs (wdb example_start) !! id = Some row /\
    (j_status row = StatusRunning \/ j_status row = StatusAwaitingApproval \/
     exists row', j_status row = StatusQueued /\
     jobs (dispatchRun String.ltb notify_spec example_answer false (wdb example_start)) !! id = Some row' /\
     j_status row' <> StatusQueued).
Proof.
  destruct (run_never_stuck String.ltb notify_spec example_answer example_start example_start) as [H|[H|[H|[_ H]]]].
  - exact example_initial.
  - apply example_post.
  - constructor.
  - exact example_prompt.
  - vm_compute in H. discriminate.
  - destruct H as (id & row & Hr & [H|H]); exists id, row; auto.
  - destruct H as (id & row & row' & Hr & Hq & H). exists id, row. split; [exact Hr|]. right; right. exists row'. auto.
  - exfalso. destruct (jobs (wdb example_start) !! 0%N) as [row|] eqn:E; [|vm_compute in E; discriminate].
    assert (Hx : Forall (fun kv : uuid * JobRow => kv.1 = 0%N -> unfinished (j_status kv.2) = true /\ in_user_stage (wdb example_start) kv.2 = true)
      (map_to_list (jobs (wdb example_start)))) by (apply (bool_decide_unpack _); vm_compute; exact I).
    rewrite Forall_forall in Hx. destruct (Hx (0%N, row) (proj2 (elem_of_map_to_list _ _ _) E) eq_refl) as [Hu Hus].
    destruct (H _ _ E Hu) as [_ Hn]. by apply Hn, in_user_stage_iff.
Defined.
