(* ===== verification/RunStuck.v ===== *)
(** Where the two conditions of [RunLive] are needed: a run that deciding a gate
    before its turn leaves open with nothing left to run, and a run that rerunning a
    job closes with jobs still queued.  And where its last case is reached: the
    dispatcher of [Dispatch] leaves a matching notification queued for ever. *)

From S2P Require Import Prelude GoStrings Domain Parse RunTables RunOps Needs Scheduler RunInv RunKeeps RunWorld Matrix Refs Assignment Claims Dispatch RunCreate RunProps RunLive.

(** ** Small runs *)

Definition plain_job (stage : uuid) (name : string) (gate : bool) : JobRow := new_job {|
  js_stage := stage; js_name := name; js_matrix_key := ""; js_needs := []; js_gate := gate; js_retry_unsafe := false |}.
Definition rows_of (ss : list StageRow) (js : list JobRow) : World := {|
  wdb := {| run := new_run; stages := table n_id ss; jobs := table n_id js; watched := ∅ |}; ticks := ∅ |}.

(** Rows a run can start from, with no notifications and no needs. *)
Definition plain_start (db : RunDB) : Prop :=
  r_status (run db) = StatusQueued /\ watched db = ∅ /\
  Forall (fun kv : uuid * StageRow => s_status kv.2 = StatusQueued /\ synthetic kv.2 = false) (map_to_list (stages db)) /\
  Forall (fun kv : uuid * JobRow => in_user_stage db kv.2 = true /\ js_needs (j_spec kv.2) = [] /\
      (NotificationIndexFromName (js_name (j_spec kv.2))).2 = false /\ j_agent kv.2 = None /\
      j_status kv.2 = if js_gate (j_spec kv.2) then StatusAwaitingApproval else StatusQueued) (map_to_list (jobs db)).
#[export] Instance plain_start_dec db : Decision (plain_start db).
Proof. unfold plain_start. apply _. Defined.
Lemma plain_start_fresh db : plain_start db -> fresh db.
Proof.
  intros (Hr & Hw & Hs & Hj). rewrite Forall_forall in Hs. rewrite Forall_forall in Hj.
  assert (Hs' : forall id s, stages db !! id = Some s -> s_status s = StatusQueued /\ synthetic s = false).
  { intros id s H. by apply (Hs (id, s)), elem_of_map_to_list. }
  assert (Hj' : forall id row, jobs db !! id = Some row -> user db row /\ js_needs (j_spec row) = [] /\
    (NotificationIndexFromName (js_name (j_spec row))).2 = false /\ j_agent row = None /\
    j_status row = if js_gate (j_spec row) then StatusAwaitingApproval else StatusQueued).
  { intros id row H. apply elem_of_map_to_list in H. destruct (Hj _ H) as (Hu & H'). split; [by apply in_user_stage_iff|done]. }
  clear Hs Hj. split; [split|..]; [| | | | |done| | |done].
  - intros id row (( s & H & _) & _)%Hj'. eauto.
  - intros id row (H & _)%Hj' _. done.
  - intros id row id' row' _ _ (H & _)%Hj' _. done.
  - intros id row (_ & _ & H & _)%Hj' _. done.
  - intros id s id' s' _ (_ & H)%Hs' _ E. congruence.
  - intros id s (H & _)%Hs'. done.
  - intros id row (_ & _ & _ & H & H')%Hj'. done.
Qed.
Lemma script_reaches reruns early l w w' : ticks w = ∅ -> plain_start (wdb w) ->
  execs reruns early String.ltb notify_spec l w = Some w' -> reachable reruns early String.ltb notify_spec w'.
Proof. intros Ht Hp. apply execs_reachable. split; [by apply plain_start_fresh|done]. Qed.

(** ** Two scripts *)

(** A gate of the second stage is rejected while the first still has a queued job. *)
Definition early_start : World :=
  rows_of [new_stage "build" 0; new_stage "ship" 1] [plain_job 0 "a" false; plain_job 0 "b" false; plain_job 1 "gate" true].
Definition early_calls : list call :=
  CallTick 0 false :: replicate 4 (CallAdvance 0 to_agent) ++ [CallResult (report 0 StatusSuccess) 7; CallGate 2 false] ++
  replicate 2 (CallAdvance 0 to_agent).
Definition held : Answer := {| a_prep := Hold; a_delivered := false |}.
(** A job fails while its sibling runs and another waits; the run is canceled; the job
    of the stage before is rerun. *)
Definition rerun_start : World :=
  rows_of [new_stage "build" 0; new_stage "ship" 1]
          [plain_job 0 "a" false; plain_job 1 "x" false; plain_job 1 "y" false; plain_job 1 "z" false].
Definition rerun_calls : list call :=
  dispatch_one 0 ++ [CallResult (report 0 StatusSuccess) 7] ++ CallTick 1 false :: replicate 4 (CallAdvance 1 to_agent) ++
  CallAdvance 1 held :: replicate 4 (CallAdvance 1 to_agent) ++
  [CallResult (report 1 StatusFailed) 7; CallCancelRun 5%Z; CallResult (report 3 StatusFailed) 7; CallRerun 0] ++ CallTick 2 false :: replicate 5 (CallAdvance 2 to_agent) ++
  [CallResult {| in_JobRunID := 0; in_Status := StatusSuccess; in_ExitCode := 0; in_ErrorMsg := "";
                 in_ExpectedAgentID := Some 7%N; in_ExpectedAttempt := 1; in_Outputs := ∅ |} 7].
Definition early_end : World := run_script false true early_calls early_start.
Definition rerun_end : World := run_script true false rerun_calls rerun_start.

(** Both conditions of the liveness theorem are needed.  Rejecting a gate before
    its stage is reached reaches a state in which every job has ended but the run and
    a stage stay open, and nothing a tick can list will ever close them.  Rerunning a
    job of an earlier stage after a canceled run reaches a run that has ended with
    status failed while two revived jobs are still queued, and no tick lists them. *)
Theorem stranded_runs :
  (reachable false true String.ltb notify_spec early_end /\ run_active (wdb early_end) /\
   (forall id row, jobs (wdb early_end) !! id = Some row -> unfinished (j_status row) = false) /\
   (forall answer busy, dispatchRun String.ltb notify_spec answer busy (wdb early_end) = wdb early_end)) /\
  (reachable true false String.ltb notify_spec rerun_end /\ r_status (run (wdb rerun_end)) = StatusFailed /\
   (exists row, jobs (wdb rerun_end) !! 2%N = Some row /\ j_status row = StatusQueued) /\
   (forall answer busy, dispatchRun String.ltb notify_spec answer busy (wdb rerun_end) = wdb rerun_end)).
Proof.
  assert (Hidle : forall db, ListDispatchableJobs String.ltb db = [] -> forall answer busy,
            dispatchRun String.ltb notify_spec answer busy db = db).
  { intros db E answer busy. unfold dispatchRun, start_tick. rewrite E. by destruct busy. }
  split; split_and!.
  - apply (script_reaches false true early_calls early_start); [done| |vm_compute; reflexivity].
    apply (bool_decide_unpack _). vm_compute. exact I.
  - vm_compute. reflexivity.
  - intros id row Hr. apply elem_of_map_to_list in Hr.
    assert (H : Forall (fun kv => unfinished (j_status kv.2) = false) (map_to_list (jobs (wdb early_end)))).
    { apply (bool_decide_unpack _). vm_compute. exact I. }
    rewrite Forall_forall in H. exact (H _ Hr).
  - apply Hidle. vm_compute. reflexivity.
  - apply (script_reaches true false rerun_calls rerun_start); [done| |vm_compute; reflexivity].
    apply (bool_decide_unpack _). vm_compute. exact I.
  - vm_compute. reflexivity.
  - destruct (jobs (wdb rerun_end) !! 2%N) as [row|] eqn:E; [|vm_compute in E; discriminate].
    exists row. split; [done|]. vm_compute in E. by injection E as <-.
  - apply Hidle. vm_compute. reflexivity.
Qed.

(** ** A notification the dispatcher never sends *)

(** A tick over one notification that its trigger matches and the answer holds. *)
Lemma held_tick text_lt spec (answer : DispatchableJob -> Answer) busy db n idx on :
  ListDispatchableJobs text_lt db = [n] -> NotificationIndexFromName (dj_Name n) = (idx, true) -> spec idx = Some on ->
  NotificationTriggerMatches on (GetRunUserStageOutcome db) = true -> dj_Needs n = [] -> a_prep (answer n) = Hold ->
  dispatchRun text_lt spec answer busy db = db.
Proof.
  intros El Hi Hon Hm Hn Hh. unfold dispatchRun, start_tick. rewrite El. destruct busy; [done|].
  unfold tick_fuel. cbn [tk_todo length]. simpl Nat.add. cbn [run_tick]. unfold advance at 1. cbn [tk_pc tk_todo].
  unfold with_status at 1. cbn [tk_todo tk_status tk_outcome tk_dispatched tk_pc].
  unfold advance at 1. cbn [tk_pc tk_todo tk_outcome with_status]. rewrite Hi, Hon.
  unfold advance at 1. cbn [tk_pc tk_todo tk_outcome with_status with_outcome]. rewrite Hi, Hon, Hm. cbn [negb].
  unfold treat. rewrite Hn. cbn [needsSatisfied]. simpl Check_Ok. cbn [negb]. rewrite Hh. simpl. done.
Qed.

Definition failed_calls : list call := dispatch_one 0 ++ [CallResult (report 1 StatusFailed) 7].
Definition failed_end : World := run_script false false failed_calls example_start.
Example failed_statuses : statuses failed_end =
  (StatusRunning,
   [("deploy", StatusCanceled); ("_notifications", StatusQueued); ("approve", StatusCanceled); ("build", StatusFailed)],
   [("prod", StatusCanceled); ("_notify_0", StatusQueued); ("compile", StatusFailed); ("gate", StatusCanceled)]).
Proof. vm_compute. reflexivity. Qed.

(** a notification keeps its run open for ever - after the only job of the first
    stage fails, a reachable state of the example run has nothing left but the
    notification to be sent on a failure, whose trigger matches; and whatever the
    backends of the dispatcher answer, as long as the pipeline's definition does not
    hold a job of that name, a tick changes nothing, so the run stays running and the
    notification queued. *)
Theorem notification_strands_run `{MapRange} `{UUIDText} `{UnicodeCase} :
  reachable false false String.ltb notify_spec failed_end /\ r_status (run (wdb failed_end)) = StatusRunning /\
  only_notifications (wdb failed_end) /\
  forall (message : dispatch_error -> string) (b : Backend) (cache : option BuildCache) (run : RunForDispatch) (image : string)
      (memo : freezeMemo) (delivered busy : bool),
    (forall def, RD_Definition run = Some def -> findJob (Jobs def) "_notify_0" = None) ->
    dispatchRun String.ltb notify_spec
      (fun j => {| a_prep := prep_of message (prepare b cache run image memo j); a_delivered := delivered |}) busy (wdb failed_end)
    = wdb failed_end.
Proof.
  split; [apply (example_reaches failed_calls); vm_compute; reflexivity|]. split; [vm_compute; reflexivity|]. split.
  - assert (Hall : Forall (fun kv : uuid * JobRow => unfinished (j_status kv.2) = true ->
        j_status kv.2 = StatusQueued /\ in_user_stage (wdb failed_end) kv.2 = false) (map_to_list (jobs (wdb failed_end)))).
    { apply (bool_decide_unpack _). vm_compute. exact I. }
    assert (Hex : Exists (fun kv : uuid * JobRow => j_status kv.2 = StatusQueued) (map_to_list (jobs (wdb failed_end)))).
    { apply (bool_decide_unpack _). vm_compute. exact I. }
    rewrite Forall_forall in Hall. split.
    + apply Exists_exists in Hex as ([id row] & Hin%elem_of_map_to_list & Hq). exists id, row. split; [exact Hin|exact Hq].
    + intros id row Hr Hu. destruct (Hall (id, row) (proj2 (elem_of_map_to_list _ _ _) Hr) Hu) as [Hq Hus]. split; [done|].
      intros Huser%in_user_stage_iff. cbn [snd] in Hus. rewrite Hus in Huser. discriminate Huser.
  - intros message b cache run image memo delivered busy Hdef.
    destruct (ListDispatchableJobs String.ltb (wdb failed_end)) as [|n l] eqn:El; [vm_compute in El; discriminate|].
    assert (Hn : l = [] /\ dj_Name n = "_notify_0" /\ dj_Needs n = []) by (vm_compute in El; injection El as <- <-; done).
    destruct Hn as (-> & Hname & Hneeds).
    apply (held_tick String.ltb notify_spec _ busy (wdb failed_end) n 0%Z NotifyOnFailure El).
    + rewrite Hname. vm_compute. reflexivity.
    + reflexivity.
    + vm_compute. reflexivity.
    + exact Hneeds.
    + simpl. destruct (unlisted_stays b cache run image memo n) as [h ->]; [by rewrite Hname|done].
Qed.
